(* ===== verification/_CoqProject ===== *)
-Q . S2P
Prelude.v
Words.v
Mem.v
PosixTime.v
Der.v
Cbs.v
CbsFacts.v
CbsTime.v
CbsSafety.v
Cbb.v
CbbFacts.v
CbbAsn1.v
CbbBuilder.v
CbbSetOf.v
Base64.v
Base64Facts.v
Base64Stream.v
Stack.v
StackSort.v
StackOps.v
Lhash.v
LhashFacts.v
LhashOps.v
Unicode.v
Oid.v
Ber.v
BerElement.v
BerTree.v
BerWrite.v
BerFacts.v
BerDer.v
BerLoops.v
Md32.v
HashBlocks.v
Sha1.v
Sha256.v
PbStream.v
PbWire.v
PbStreamFacts.v
PbWireFacts.v
PbVarint32.v
PbMessages.v
LdbCoding.v
LdbCrc.v
LdbEnv.v
LdbLog.v
LdbLogWrite.v
LdbLogRead.v
LdbLogFacts.v
LdbLogSafety.v
LdbBatch.v
LdbRecovery.v
LdbKeys.v
LdbBloom.v
LdbFilter.v
LdbBlock.v
LdbBlockFacts.v
LdbBlockUse.v
LdbWrite.v
LdbWriteQueue.v
LdbWriteLog.v
LdbWriteGroup.v
LdbWriteFacts.v
LdbWriteSteps.v
LdbWriteUse.v
LdbSkipList.v
LdbSkipSearch.v
LdbSkipInsert.v
LdbSkipUse.v
LdbMemTable.v
LdbMemTableUse.v
LdbVersionEdit.v
LdbFilename.v
LdbVersion.v
LdbVersionSet.v
LdbVersionBuild.v
LdbVersionRefs.v
LdbVersionShare.v
LdbManifest.v
