(* ===== verification/Prelude.v ===== *)
(** * Verification of the native core shipped with the shutter application

    The repository is a Flutter application (Dart under src/lib, runners for the
    desktop systems under src/windows and src/linux). The code of its own that the
    application ships is user interface; the core logic that it depends on is the C
    and C++ code under src/ios/Pods. Of that this development models

    - BoringSSL-GRPC, whose files are named below from
      src/ios/Pods/BoringSSL-GRPC/src/crypto: the data handling underneath every
      certificate and every connection (byte strings and their parser and builder,
      ASN.1 in DER and BER, calendar time, containers, text encodings, base64, SHA-256
      and SHA-1);
    - nanopb (src/ios/Pods/nanopb): the wire format of the documents that the
      application stores;
    - LevelDB, whose files are named from src/ios/Pods/leveldb-library: the store that
      keeps these documents on the device (coding, checksums, the log and its
      recovery, batches, concurrent writers, keys, filters and blocks, the table in memory
      and its skip list, edits of versions, versions, the manifest and the names of
      files).

    ** How the parts interact

    [internal.h] (constant-time masks, loads and stores) and [mem.c] (allocation)
    are used by everything. [cbs.c] reads what [cbb.c] writes; [unicode.c] and
    [ber.c] are built on both, and the time functions of [cbs.c] on
    [asn1/posix_time.c]. [lhash.c] and [stack.c] are the containers of the rest of
    the library. [sha256.c] and [sha1.c] supply block functions to the collector of
    [md32_common.h]. nanopb stands alone: its readers and writers work on streams with
    callbacks.

    In LevelDB, [util/coding.cc] and [util/crc32c.cc] are below everything. A call of
    [DBImpl::Write] joins a queue; its first writer makes one batch of several
    ([write_batch.cc]), numbers it, appends it to the log ([log_writer.cc]) and inserts it
    into the table in memory. After a crash [RecoverLogFile] reads the log
    ([log_reader.cc]) and inserts the batches again. A full table in memory becomes a file
    of blocks ([block_builder.cc], [block.cc]), whose keys are the internal keys of
    [dbformat.cc], next to a filter block ([filter_block.cc]) over a filter policy
    ([bloom.cc]). The table in memory ([memtable.cc]) is a skip list ([skiplist.h]) that
    readers search without the mutex while the writer inserts the entries of batches.
    Which files make up the database is a version; an edit ([version_edit.cc]) says what
    the next one has less and more, the builder of [version_set.cc] makes it, and
    [VersionSet::LogAndApply] logs the edit in the manifest, whose name
    ([filename.cc]) is in the file [CURRENT], before it installs the version.
    [VersionSet::Recover] reads the manifest back. The theorems meet: [LdbWriteUse] says that the log holds the batches of
    a history of groups and how much of it is durable, [LdbRecovery] what replaying any
    prefix of such a log restores, [LdbMemTableUse] what a lookup finds in a table that
    batches are inserted into; [LdbManifest] uses the theorems of the log, of the edits, of
    the builder and of the references to files.

    The interfaces between the parts are stated once. [Der.v] is the wire format
    that the parser and the builder must agree on, with no reference to either. The
    allocator is the class [Allocator] ([Mem.v]), [qsort] the class [Qsort]
    ([Cbb.v], with its contract in [CbbSetOf.v]), a text encoding the class
    [CharCodec] ([Unicode.v]), a reader that stays in its buffer the class
    [Consumes] ([CbsSafety.v]), a hash the class [BlockFunction] ([Md32.v]), and the callbacks of a
    stream the classes [InputCallback] and [OutputCallback] ([PbStream.v]) with the
    laws [ReliableInput] and [ReliableOutput] ([PbStreamFacts.v]). Of LevelDB these
    are the files ([WritableFile], [SequentialFile] with the laws [ReliableWritable],
    [ReliableSequential] in [LdbEnv.v], and [DurableFile] in [LdbWriteLog.v]), the tables in
    memory ([Table], [Tables], [TableEntries]), the handlers of a batch ([Handler]), the
    comparators ([Comparator] with [ComparatorLaws], of which the bytewise comparator is
    an instance and the internal one a functor), the order of the keys of a skip list
    ([KeyOrder], which the entries of the table in memory satisfy), the files of an
    environment by their names ([Env], [ManifestFiles]) and the filter policies
    ([FilterPolicy] with [PolicyLaws]). The contracts of other callbacks are [CmpOrder] ([StackSort.v]) and [HashContract]
    ([LhashFacts.v]).

    ** Files

    - [Prelude]: integers of fixed width as [Z] with their wrap-around, lists cut at
      integer positions, the monad [M] of C functions that return 0 or 1 and change
      an object, bit and byte lemmas, the tactics [zlia] and [dlia] and the rewrite
      base [zlen].
    - [Words] (internal.h): masks, selection, byte swaps; loads,
      stores, rotations and sums with carry. The masks decide their comparisons for
      all words.
    - [Mem] (mem.c): allocation over [Allocator], comparison, bounded strings.
    - [PosixTime] (asn1/posix_time.c): the two conversions are inverse bijections
      and count days by the civil calendar; adjusting a time does not overflow.
    - [Der]: tags, lengths and integers of DER as functions from values to octets.
    - [Cbs] (bytestring/cbs.c): a [CBS] is the list of bytes it points at, a
      function that advances it is a computation of [M CBS]. [CbsFacts]: readers
      accept exactly the DER of their results. [CbsTime]: so do the time parsers
      without offsets, and what they accept and return with offsets.
      [CbsSafety]: any sequence of calls leaves a suffix of the buffer.
    - [Cbb] (bytestring/cbb.c): a builder is its shared buffer and the chain of its
      open children, named by numbers as C names them by pointers. [CbbFacts]
      simulates every operation on a list of frames (an object, its bytes and the
      length field it still has to get); [CbbAsn1] and [CbbBuilder] derive what
      whole programs of calls write, on a fixed and on a growing buffer, and that
      the parser reads it back; [CbbSetOf]: the order of a SET OF.
    - [Oid] (the text functions of cbs.c and cbb.c): text to octets and back, exact
      in both directions.
    - [Unicode] (bytestring/unicode.c): four encodings of characters.
    - [Ber] (bytestring/ber.c): the check for BER, the conversion to DER and the
      implicitly tagged strings. [BerElement]: the element reader against a relation
      that describes BER headers. [BerTree]: forests of elements, the octets that
      encode them and their DER; the converter without its builder accepts exactly
      those octets. [BerWrite]: the converter with its builder does the same.
      [BerFacts]: octets encode one forest, and the check decides DER. [BerDer]: the
      conversion as a function. [BerLoops]: termination, and implicit strings.
    - [Base64], [Base64Facts], [Base64Stream] (base64/base64.c): the constant-time
      coder is RFC 4648, whole or in pieces; errors of the decoder are sticky.
    - [Stack], [StackSort], [StackOps] (stack/stack.c): heap sort, binary search,
      the operations as operations on lists, the [sorted] flag, deep copies.
    - [Lhash], [LhashFacts], [LhashOps] (lhash/lhash.c): a chaining table as a set of
      objects across resizing, its load, and iteration while a callback deletes.
    - [Md32] (fipsmodule/digest/md32_common.h): the collector of blocks
      for any block function, with the carry of its bit counter and its padding.
    - [HashBlocks]: what the hashes share, the schedule in a circular array and the
      rounds around it.
    - [Sha1] (fipsmodule/sha/sha1.c): SHA-1 against FIPS 180-4, whose
      functions and variables the code has in other forms, and the generator of
      FIPS 186-2 as a recurrence of 160-bit numbers.
    - [Sha256] (fipsmodule/sha/sha256.c): SHA-256 and SHA-224 against
      FIPS 180-4, constants included.
    - [PbStream] (nanopb: pb_decode.c, pb_encode.c, pb.h): input and output streams,
      their limits and error messages. [PbStreamFacts]: what a reader or writer does
      on any stream whose callback does its work, closed under sequencing.
    - [PbWire] (the same files): integers, keys, strings, skipping and substreams.
      [PbWireFacts]: integers of variable length as groups of seven bits.
      [PbVarint32]: the reader of 32-bit integers and its checks.
      [PbMessages]: each value, fields that are skipped, substreams, and the limit of
      a buffer.
    - [LdbCoding] (util/coding.cc, util/coding.h): fixed and variable-length integers
      and strings, each read back as it was written.
    - [LdbCrc] (util/crc32c.cc, util/crc32c.h): the checksum with its tables and strides.
      It is CRC-32C as a division of polynomials, for every alignment, and
      detects every burst of at most 32 bits.
    - [LdbEnv] (include/leveldb/env.h, status.h): statuses and files.
    - [LdbLog] (db/log_writer.cc, db/log_reader.cc, db/log_format.h): [Writer] and [Reader] with the
      state of the C++ objects. [LdbLogWrite]: what is written follows the format.
      [LdbLogRead]: what a read does at a fragment. [LdbLogFacts]: any prefix of a log
      gives its whole records. [LdbLogSafety]: nothing is delivered without its
      checksum, and termination, on any bytes.
    - [LdbBatch] (db/write_batch.cc): a batch is its bytes; building and iterating.
    - [LdbRecovery] (db/db_impl.cc, RecoverLogFile): the log reader, the batches and the
      tables together; what a crash leaves is all of a group or nothing.
    - [LdbKeys] (util/comparator.cc, db/dbformat.cc, db/dbformat.h): comparators, separators,
      internal keys and the lookup at a snapshot.
    - [LdbBloom] (util/hash.cc, util/bloom.cc), [LdbFilter] (table/filter_block.cc): no key is
      missed by a filter, nor by a block of filters.
    - [LdbBlock] (table/block_builder.cc, table/block.cc): a pointer into a block is an offset.
      [LdbBlockFacts]: the entries of a block and where an iterator stands. [LdbBlockUse]:
      a built block is walked in both directions, and sought.
    - [LdbWrite] (db/db_impl.cc: Write, MakeRoomForWrite, BuildBatchGroup): the calls as
      threads; a step is what one does between two points where the mutex may be lost.
      [LdbWriteQueue]: the protocol of the queue. [LdbWriteLog]: files that are written in
      lockstep with a list, and durability. [LdbWriteGroup]: the batch of a group.
      [LdbWriteFacts], [LdbWriteSteps]: the invariant that a history of commits explains
      the state, kept by each step. [LdbWriteUse]: what is reached, and the properties.
    - [LdbSkipList] (db/skiplist.h, util/random.h): insertion as a list of stores, each search
      as a loop of loads. [LdbSkipSearch]: levels, memories that follow one another, and
      searches over them. [LdbSkipInsert]: insertion. [LdbSkipUse]: insertions are
      atomic and reads linearizable.
    - [LdbMemTable] (db/memtable.cc, db/memtable.h): entries, adding, looking up, iterating.
      [LdbMemTableUse]: lookups at a snapshot during inserts, and batches.
    - [LdbVersionEdit] (db/version_edit.cc, db/version_edit.h): edits and their records.
    - [LdbFilename] (db/filename.cc, util/logging.cc): names of files, made and read.
    - [LdbVersion] (db/version_set.cc): the files of a level, searching them, overlaps of
      a range, and the iterator over a level.
    - [LdbVersionSet] (db/version_set.cc, db/version_set.h, util/status.cc): versions in memory
      with the counters of their files, the builder, numbers, scores, [LogAndApply] in its
      three sections, [Recover]. [LdbVersionBuild]: counters, and the builder as
      a function on sets of files. [LdbVersionRefs]: references to versions and files.
      [LdbVersionShare]: readers and the writer as steps. [LdbManifest]: crashes.

    The first file of a part holds its definitions, and for the smaller parts also the
    theorems; the others hold theorems. A
    definition has the name of the C function, or of the function with a suffix for
    one of its loops ([_loop], [_step]); a C structure is a record with the same
    fields.

    ** State, errors and memory

    A function that returns 0 or 1 is a computation that gives an option next to the
    object it may have changed, so what a failed call leaves is modelled, except
    where a file says otherwise. Outputs are those of a successful call. Memory is
    modelled where a claim depends on it: the builder's children share one buffer, an
    array has its unused part, and an item of a table keeps its address. Blocks are
    lists of bytes; nothing is said about freeing, except by the deep copy of a
    stack, which must free what it copied. The error queue is left out: the functions
    here write to it and never read it.

    In LevelDB a [Status] is a value, and an assertion is a guard whose failure is
    [None]. The writers share one state, [DBImpl] of [LdbWrite], and interleave as a step
    relation, in which a waiting thread may wake without a signal, a leader may find the
    mutex lost in [MakeRoomForWrite], and the background may finish a compaction or
    report an error at any time. A new log file is what the environment answers.

    The skip list has one writer and readers without locks. The writer's stores give a list
    of memories; each load of a reader finds one of them, later loads the same or later
    ones, as acquire loads and release stores promise; the height of the list, which is
    loaded without an order, is any possible one. Versions and their files are objects with
    counters at addresses; an address is not used again. [LogAndApply] runs as three steps,
    between which readers take and release versions, since it gives up the mutex while it
    writes. A crash leaves of a file a prefix that has at least what was synced.

    ** Loops

    A loop whose measure is not structural takes fuel. The measure is the number of
    bytes left (readers, writers, the BER loops, where an element has at least two
    octets), the number of buckets or items (tables), the size of the array (heaps
    and binary search), or the number of digits of a 64-bit number (ten in base
    128, twenty in decimal). In most files the theorems about results exclude
    running out, since they say that a result is returned; [BerLoops] proves it on
    its own, because the recursion there is nested and its functions fail also when the
    fuel is out: the calls have finite runs, which are derivations without fuel, and the
    functions return what those come to. The log reader takes a round for each
    fragment of at least seven bytes, and [LdbLogSafety] proves that it ends on any bytes.
    The scans of a block take at most a round for each entry of at least three bytes, the
    binary search one for each restart point. A search of a skip list goes down at most
    [kMaxHeight] levels and over each node once, a search for overlapping files starts
    again at most twice for each file, and reading a manifest takes a round for each
    record. The writers need no fuel: the loop of
    [MakeRoomForWrite] is one step a round, and that calls can return is a theorem.

    ** Bounds

    Lengths are [size_t], so lists are shorter than 2^64 where a sum is compared,
    and a growing buffer is promised to succeed up to 2^62 bytes when the allocator
    does; the limit of the code is the doubling of a capacity below 2^63. A contents
    of ASN.1 is at most 0xfffffffe bytes, which is the bound of the builder's
    four-byte length. BER is nested at most [kMaxDepth] deep. Blocks and filter blocks of
    LevelDB have fewer than 2^32 bytes, batches fewer than 2^31 updates, logs fewer than
    2^63 bytes, since the code keeps these numbers in types of that width. The product
    with 0.69 of the Bloom filter, in floating point in the code, is 69/100 of the
    integer, which gives the same number of probes for the 1 to 30 that are allowed.

    ** Not modelled, and why

    Files, sockets, processor features and locks are calls to the platform. Of LevelDB the
    layers above are not modelled: opening a database, reading a key through the
    versions and tables, picking and running compactions, tables of blocks and their
    caches, and iterators over a database. The theorems about writers hold for any table
    in memory that keeps its entries in their order; the skip list keeps them sorted, and
    [LdbMemTableUse] says what it reads back of the same batches. The arena is left out: nodes and
    entries are not freed while a table is alive. The check that [Builder::SaveTo]
    repeats in debugging builds is the assertion of [MaybeAddFile]. The numbers of files
    and the scheduling of compactions are left out of [MakeRoomForWrite]. The memory a
    damaged block makes an iterator read beyond its end (see [lengths_wrap]) is an empty
    list in the model. Elliptic curves, big numbers, post-quantum schemes and the assembly
    versions of the hashes are numeric code that would be developments of their own,
    much of it generated. The templates of the old ASN.1 code are interpreters of
    tables of offsets. So are [pb_encode] and [pb_decode] of nanopb, whose tables describe
    the memory of message structures, and the runtimes for C++. The calls [printf] and
    [free] and the hooks for testing allocation failures are left out of mem.c. What would
    come next: reading a key through a version, picking compactions and tables of
    blocks; then MD5 and MD4 over the collector, SHA-512 and HMAC. *)

From Stdlib Require Export ZArith Lia.
From stdpp Require Export base numbers list.

#[export] Set Default Goal Selector "!".
#[global] Open Scope Z_scope.

(** ** Fixed-width integers

    A C integer is a [Z]; a conversion to an unsigned type of [w] bits is
    reduction modulo [2^w], written at the places where the C code converts. *)

Definition u8 (x : Z) : Z := x mod 256.
Definition u16 (x : Z) : Z := x mod 65536.
Definition u32 (x : Z) : Z := x mod 4294967296.
Definition u64 (x : Z) : Z := x mod 18446744073709551616.

Definition UINT64_MAX : Z := 18446744073709551615.
Definition UINT32_MAX : Z := 4294967295.
Definition INT_MAX : Z := 2147483647.
Definition INT_MIN : Z := -2147483648.
Definition INT64_MAX : Z := 9223372036854775807.
Definition INT64_MIN : Z := -9223372036854775808.

(** The two's complement reading of a 64-bit (32-bit) pattern. *)
Definition i64 (x : Z) : Z := (x + 9223372036854775808) mod 18446744073709551616 - 9223372036854775808.
Definition i32 (x : Z) : Z := (x + 2147483648) mod 4294967296 - 2147483648.

Declare Scope c_scope.
Delimit Scope c_scope with C.
Infix ".&" := Z.land (at level 40, left associativity) : c_scope.
Infix ".|" := Z.lor (at level 50, left associativity) : c_scope.
Infix ".^" := Z.lxor (at level 45, left associativity) : c_scope.
#[global] Open Scope c_scope.

(** C's [/] and [%] on signed integers truncate toward zero. *)
Abbreviation cdiv := Z.quot (only parsing).
Abbreviation cmod := Z.rem (only parsing).

(** ** Bytes *)

Definition is_byte (b : Z) : Prop := 0 <= b < 256.
Abbreviation bytes_ok := (Forall is_byte).

#[global] Instance is_byte_dec b : Decision (is_byte b).
Proof. unfold is_byte. apply _. Defined.

Definition zlen {A} (l : list A) : Z := Z.of_nat (length l).

Lemma zlen_nil {A} : zlen (@nil A) = 0.
Proof. reflexivity. Qed.
Lemma zlen_cons {A} (x : A) l : zlen (x :: l) = 1 + zlen l.
Proof. unfold zlen. cbn [length]. lia. Qed.
Lemma zlen_app {A} (l k : list A) : zlen (l ++ k) = zlen l + zlen k.
Proof. unfold zlen. rewrite length_app. lia. Qed.
Lemma zlen_nonneg {A} (l : list A) : 0 <= zlen l.
Proof. unfold zlen. lia. Qed.
Lemma zlen_replicate {A} n (x : A) : zlen (replicate n x) = Z.of_nat n.
Proof. unfold zlen. rewrite length_replicate. reflexivity. Qed.
Lemma zlen_to_nat {A} (l : list A) : Z.to_nat (zlen l) = length l.
Proof. unfold zlen. lia. Qed.
Lemma zlen_0_nil {A} (l : list A) : zlen l = 0 -> l = [].
Proof. unfold zlen. destruct l; cbn [length]; [done | lia]. Qed.

Create Rewrite HintDb zlen.
#[export] Hint Rewrite @zlen_nil @zlen_cons @zlen_app @zlen_replicate : zlen.

(** Saturate the context with [0 <= zlen l] for every list in sight, then [lia]. *)
Ltac zlen_pos :=
  repeat match goal with
  | |- context [zlen ?l] =>
      lazymatch goal with H : 0 <= zlen l |- _ => fail | _ => pose proof (zlen_nonneg l) end
  | _ : context [zlen ?l] |- _ =>
      lazymatch goal with H : 0 <= zlen l |- _ => fail | _ => pose proof (zlen_nonneg l) end
  end.
(** [lia] with division and modulus by their Euclidean equations. *)
Ltac dlia := Z.to_euclidean_division_equations; lia.
Ltac zlia := autorewrite with zlen in *; zlen_pos; lia.
(** A list of bytes written out. *)
Ltac witness_bytes :=
  match goal with |- Forall ?P ?l => let l' := eval vm_compute in l in change (Forall P l') end; repeat (apply Forall_cons; split; [unfold is_byte; lia|]); apply Forall_nil_2.

(** ** Lists cut at an integer position *)

Definition ztake {A} (n : Z) (l : list A) : list A := take (Z.to_nat n) l.
Definition zdrop {A} (n : Z) (l : list A) : list A := drop (Z.to_nat n) l.

Lemma ztake_zdrop {A} n (l : list A) : ztake n l ++ zdrop n l = l.
Proof. apply take_drop. Qed.
Lemma ztake_app {A} n (l k : list A) : zlen l = n -> ztake n (l ++ k) = l.
Proof. intros <-. unfold ztake. rewrite zlen_to_nat. apply take_app_length. Qed.
Lemma zdrop_app {A} n (l k : list A) : zlen l = n -> zdrop n (l ++ k) = k.
Proof. intros <-. unfold zdrop. rewrite zlen_to_nat. apply drop_app_length. Qed.
Lemma zlen_ztake {A} n (l : list A) : 0 <= n <= zlen l -> zlen (ztake n l) = n.
Proof. unfold zlen, ztake. rewrite length_take. lia. Qed.
Lemma zlen_zdrop {A} n (l : list A) : 0 <= n <= zlen l -> zlen (zdrop n l) = zlen l - n.
Proof. unfold zlen, zdrop. rewrite length_drop. lia. Qed.
Lemma ztake_all {A} n (l : list A) : zlen l <= n -> ztake n l = l.
Proof. unfold zlen, ztake. intros. apply take_ge. lia. Qed.
Lemma zdrop_all {A} n (l : list A) : zlen l <= n -> zdrop n l = [].
Proof. unfold zlen, zdrop. intros. apply drop_ge. lia. Qed.
Lemma ztake_app_le {A} n (l k : list A) : n <= zlen l -> ztake n (l ++ k) = ztake n l.
Proof. unfold zlen, ztake. intros. apply take_app_le. lia. Qed.
Lemma ztake_app_ge {A} n (l k : list A) : zlen l <= n -> ztake n (l ++ k) = l ++ ztake (n - zlen l) k.
Proof.
  unfold zlen, ztake. intros. rewrite take_app_ge by lia. do 2 f_equal. lia.
Qed.
Lemma zdrop_app_ge {A} n (l k : list A) : zlen l <= n -> zdrop n (l ++ k) = zdrop (n - zlen l) k.
Proof. unfold zlen, zdrop. intros. rewrite drop_app_ge by lia. f_equal. lia. Qed.
Lemma ztake_0 {A} (l : list A) : ztake 0 l = [].
Proof. reflexivity. Qed.
Lemma zdrop_0 {A} (l : list A) : zdrop 0 l = l.
Proof. reflexivity. Qed.

(** Splitting a list as a prefix of a given length and the rest. *)
Lemma zsplit {A} n (l : list A) : 0 <= n <= zlen l -> exists a b, l = a ++ b /\ zlen a = n.
Proof. intros H. exists (ztake n l), (zdrop n l). rewrite ztake_zdrop, zlen_ztake by lia. done. Qed.

(** Reading and writing an array; out of range a read yields [d] (the C code
    never does it: every use is guarded) and a write changes nothing. *)
Definition znth (d : Z) (l : list Z) (i : Z) : Z := nth (Z.to_nat i) l d.
Definition zupd {A} (l : list A) (i : Z) (x : A) : list A := <[Z.to_nat i := x]> l.

(** The integers of a loop [for (i = from; i < to; i++)]. *)
Definition upto (from to : nat) : list Z := map Z.of_nat (seq from (to - from)).

(** [memcpy(buf + off, data, |data|)]. *)
Definition store (buf : list Z) (off : Z) (data : list Z) : list Z :=
  ztake off buf ++ data ++ zdrop (off + zlen data) buf.

Lemma zlen_store buf off data :
  0 <= off -> off + zlen data <= zlen buf -> zlen (store buf off data) = zlen buf.
Proof. intros. unfold store. rewrite !zlen_app, zlen_ztake, zlen_zdrop by zlia. lia. Qed.

Lemma store_app buf off data a b c :
  buf = a ++ b ++ c -> zlen a = off -> zlen b = zlen data -> store buf off data = a ++ data ++ c.
Proof.
  intros -> Ha Hb. unfold store. rewrite ztake_app by done.
  f_equal. f_equal. rewrite app_assoc, zdrop_app; [done | rewrite zlen_app; lia].
Qed.

(** ** The result of a C function with an object it may change

    [M S A] is a C function that receives an object of type [S] by pointer and
    returns 1 with an output of type [A], or 0. The object is returned in both
    cases: a function that fails may already have changed it. *)

Definition M (S A : Type) : Type := S -> option A * S.

Definition ret {S A} (a : A) : M S A := fun s => (Some a, s).
Definition fail {S A} : M S A := fun s => (None, s).
Definition bind {S A B} (m : M S A) (k : A -> M S B) : M S B := fun s =>
  match m s with
  | (Some a, s') => k a s'
  | (None, s') => (None, s')
  end.
Definition get {S} : M S S := fun s => (Some s, s).
Definition put {S} (s : S) : M S unit := fun _ => (Some tt, s).
Definition modify {S} (f : S -> S) : M S unit := fun s => (Some tt, f s).
Definition guard {S} (b : bool) : M S unit := fun s => (if b then Some tt else None, s).

(** Run [m] on another object [c] that the caller owns. *)
Definition on {S T A} (c : T) (m : M T A) : M S (A * T) := fun s =>
  match m c with
  | (Some a, c') => (Some (a, c'), s)
  | (None, _) => (None, s)
  end.

(** Whether a call returns 1; the object keeps the change either way. *)
Definition succeeds {S A} (m : M S A) : M S bool := fun s =>
  match m s with
  | (Some _, s') => (Some true, s')
  | (None, s') => (Some false, s')
  end.

(** What a call leaves when it fails is repaired by [h] ([goto err]). *)
Definition on_error {S A} (m : M S A) (h : S -> S) : M S A := fun s =>
  match m s with
  | (Some a, s') => (Some a, s')
  | (None, s') => (None, h s')
  end.

Notation "'let*' x ':=' m 'in' k" := (bind m (fun x => k))
  (at level 10, x name, m at level 100, k at level 200) : c_scope.
Notation "'let*' ' p ':=' m 'in' k" := (bind m (fun x => match x with p => k end))
  (at level 10, p pattern, m at level 100, k at level 200) : c_scope.
Notation "m ;;; k" := (bind m (fun _ => k)) (at level 199, right associativity) : c_scope.

Section MonadLemmas.
Context {S A B : Type}.

Lemma bind_Some (m : M S A) (k : A -> M S B) s b s'' :
  bind m k s = (Some b, s'') <-> exists a s', m s = (Some a, s') /\ k a s' = (Some b, s'').
Proof.
  unfold bind. destruct (m s) as [[a|] s']; split.
  - eauto.
  - intros (a' & t & [= <- <-] & H). done.
  - done.
  - intros (a' & t & [=] & _).
Qed.

Lemma bind_step (m : M S A) (k : A -> M S B) s a s' :
  m s = (Some a, s') -> bind m k s = k a s'.
Proof. unfold bind. intros ->. done. Qed.

Lemma bind_none (m : M S A) (k : A -> M S B) s s' :
  m s = (None, s') -> bind m k s = (None, s').
Proof. unfold bind. intros ->. done. Qed.

Lemma bind_ret (a : A) (k : A -> M S B) s : bind (ret a) k s = k a s.
Proof. done. Qed.

Lemma get_state (f : S -> M S B) s : bind get f s = f s s.
Proof. done. Qed.

Lemma modify_state (f : S -> S) (k : unit -> M S B) s : bind (modify f) k s = k tt (f s).
Proof. done. Qed.

Lemma bind_guard (b : bool) (k : unit -> M S B) s :
  bind (guard b) k s = if b then k tt s else (None, s).
Proof. destruct b; done. Qed.

Lemma guard_Some b s u s' : @guard S b s = (Some u, s') <-> b = true /\ s' = s.
Proof. unfold guard. destruct b, u; naive_solver. Qed.

Lemma ret_Some (a b : A) (s s' : S) : ret a s = (Some b, s') <-> b = a /\ s' = s.
Proof. unfold ret. naive_solver. Qed.

Lemma on_Some {T} (c : T) (m : M T A) (s s' : S) a c' :
  on c m s = (Some (a, c'), s') <-> m c = (Some a, c') /\ s' = s.
Proof. unfold on. destruct (m c) as [[?|] ?]; naive_solver. Qed.
End MonadLemmas.

(** Decompose hypotheses [bind m k s = (Some _, _)] into the calls they made. *)
Ltac monad_inv :=
  repeat match goal with
  | H : bind _ _ _ = (Some _, _) |- _ => apply bind_Some in H; destruct H as (? & ? & ? & H)
  | H : guard _ _ = (Some _, _) |- _ => apply guard_Some in H; destruct H as [H ->]
  | H : ret _ _ = (Some _, _) |- _ => apply ret_Some in H; destruct H as [-> ->]
  | H : fail _ = (Some _, _) |- _ => discriminate H
  | H : match ?p with (_, _) => _ end _ = (Some _, _) |- _ => destruct p
  | H : on _ _ _ = (Some (_, _), _) |- _ => apply on_Some in H; destruct H as [H ->]
  end.

(** ** Bit operations as arithmetic *)

Lemma lor_shiftl a b n : 0 <= n -> 0 <= b < 2 ^ n -> Z.lor (a ≪ n) b = a * 2 ^ n + b.
Proof.
  intros Hn Hb.
  assert (Hand : Z.land (a ≪ n) b = 0).
  { apply Z.bits_inj'. intros i Hi. rewrite Z.land_spec, Z.bits_0.
    destruct (Z.ltb_spec i n).
    - rewrite Z.shiftl_spec_low by lia. done.
    - rewrite <- (Z.mod_small b (2 ^ n)), Z.mod_pow2_bits_high by lia. apply andb_false_r. }
  rewrite <- Z.lxor_lor, <- Z.add_nocarry_lxor by done.
  rewrite Z.shiftl_mul_pow2 by lia. done.
Qed.

Lemma lor_mul a b n : 0 <= n -> 0 <= b < 2 ^ n -> Z.lor (a * 2 ^ n) b = a * 2 ^ n + b.
Proof. intros. rewrite <- lor_shiftl by done. by rewrite Z.shiftl_mul_pow2 by lia. Qed.

Lemma land_ones_mod a n : 0 <= n -> Z.land a (2 ^ n - 1) = a mod 2 ^ n.
Proof. intros. rewrite <- Z.land_ones by lia. f_equal. rewrite Z.ones_equiv. lia. Qed.

Lemma testbit_split a b n i :
  0 <= n -> 0 <= b < 2 ^ n -> 0 <= i ->
  Z.testbit (a * 2 ^ n + b) i = if i <? n then Z.testbit b i else Z.testbit a (i - n).
Proof.
  intros Hn Hb Hi. rewrite <- lor_shiftl by done. rewrite Z.lor_spec.
  destruct (Z.ltb_spec i n).
  - rewrite Z.shiftl_spec_low by lia. done.
  - rewrite Z.shiftl_spec by lia.
    rewrite <- (Z.mod_small b (2 ^ n)), Z.mod_pow2_bits_high by lia. apply orb_false_r.
Qed.

Lemma bits_high n x i : 0 <= x < 2 ^ n -> n <= i -> Z.testbit x i = false.
Proof.
  intros Hx Hi. destruct (Z.lt_ge_cases i 0) as [|Hi0]; [by apply Z.testbit_neg_r|].
  destruct (Z.lt_ge_cases n 0) as [Hn|Hn]; [rewrite Z.pow_neg_r in Hx by done; lia|].
  rewrite <- (Z.mod_small x (2 ^ n)) by done. apply Z.mod_pow2_bits_high. lia.
Qed.

Lemma bits_bound n x :
  0 <= n -> 0 <= x -> (forall i, n <= i -> Z.testbit x i = false) -> x < 2 ^ n.
Proof.
  intros Hn Hx H. destruct (Z.lt_ge_cases x (2 ^ n)) as [|Hge]; [done|].
  assert (Hlog : n <= Z.log2 x).
  { rewrite <- (Z.log2_pow2 n) by done. by apply Z.log2_le_mono. }
  assert (0 < x) by (pose proof (Z.pow_pos_nonneg 2 n); lia).
  specialize (H _ Hlog). by rewrite Z.bit_log2 in H.
Qed.

Lemma lor_bound n a b : 0 <= n -> 0 <= a < 2 ^ n -> 0 <= b < 2 ^ n -> 0 <= Z.lor a b < 2 ^ n.
Proof.
  intros Hn Ha Hb. assert (0 <= Z.lor a b) by (apply Z.lor_nonneg; lia).
  split; [done|]. apply bits_bound; [done..|]. intros i Hi.
  by rewrite Z.lor_spec, !(bits_high n).
Qed.
Lemma lxor_bound n a b : 0 <= n -> 0 <= a < 2 ^ n -> 0 <= b < 2 ^ n -> 0 <= Z.lxor a b < 2 ^ n.
Proof.
  intros Hn Ha Hb. assert (0 <= Z.lxor a b) by (apply Z.lxor_nonneg; lia).
  split; [done|]. apply bits_bound; [done..|]. intros i Hi.
  by rewrite Z.lxor_spec, !(bits_high n).
Qed.
Lemma land_bound n a b : 0 <= n -> 0 <= a < 2 ^ n -> 0 <= b < 2 ^ n -> 0 <= Z.land a b < 2 ^ n.
Proof.
  intros Hn Ha Hb. assert (0 <= Z.land a b) by (apply Z.land_nonneg; lia).
  split; [done|]. apply bits_bound; [done..|]. intros i Hi.
  by rewrite Z.land_spec, !(bits_high n).
Qed.

(** [&] and [|] act separately on the digits of a number. *)
Lemma lor_split n h l h' l' :
  0 <= n -> 0 <= l < 2 ^ n -> 0 <= l' < 2 ^ n ->
  Z.lor (h * 2 ^ n + l) (h' * 2 ^ n + l') = Z.lor h h' * 2 ^ n + Z.lor l l'.
Proof.
  intros Hn Hl Hl'. pose proof (lor_bound n l l' Hn Hl Hl').
  apply Z.bits_inj'. intros i Hi.
  rewrite Z.lor_spec, !testbit_split, !Z.lor_spec by done.
  destruct (i <? n); done.
Qed.

Lemma land_split n h l h' l' :
  0 <= n -> 0 <= l < 2 ^ n -> 0 <= l' < 2 ^ n ->
  Z.land (h * 2 ^ n + l) (h' * 2 ^ n + l') = Z.land h h' * 2 ^ n + Z.land l l'.
Proof.
  intros Hn Hl Hl'. pose proof (land_bound n l l' Hn Hl Hl').
  apply Z.bits_inj'. intros i Hi.
  rewrite Z.land_spec, !testbit_split, !Z.land_spec by done.
  destruct (i <? n); done.
Qed.

(** ** Big-endian numbers *)

Definition be_value (l : list Z) : Z := fold_left (fun acc b => acc * 256 + b) l 0.

Fixpoint be_bytes (n : nat) (v : Z) : list Z :=
  match n with
  | O => []
  | S n => be_bytes n (v / 256) ++ [v mod 256]
  end.

Lemma be_value_snoc l b : be_value (l ++ [b]) = be_value l * 256 + b.
Proof. unfold be_value. rewrite fold_left_app. done. Qed.

Lemma be_fold_acc l acc :
  fold_left (fun acc b => acc * 256 + b) l acc = acc * 256 ^ zlen l + be_value l.
Proof.
  induction l as [|b l IH] using rev_ind.
  - change (zlen []) with 0. unfold be_value. cbn [fold_left]. lia.
  - rewrite fold_left_app, be_value_snoc, zlen_app. cbn [fold_left]. rewrite IH.
    change (zlen [b]) with 1. rewrite Z.pow_add_r by (zlen_pos; lia). lia.
Qed.

Lemma be_value_app l k : be_value (l ++ k) = be_value l * 256 ^ zlen k + be_value k.
Proof. unfold be_value at 1. rewrite fold_left_app. apply be_fold_acc. Qed.

Lemma be_value_cons b l : be_value (b :: l) = b * 256 ^ zlen l + be_value l.
Proof. change (b :: l) with ([b] ++ l). rewrite be_value_app. unfold be_value at 1. cbn. lia. Qed.

Lemma be_value_bound l : bytes_ok l -> 0 <= be_value l < 256 ^ zlen l.
Proof.
  induction l as [|b l IH]; intros Hl; [done|].
  apply Forall_cons in Hl as [Hb Hl]. specialize (IH Hl). unfold is_byte in Hb.
  rewrite be_value_cons, zlen_cons, Z.pow_add_r by (zlen_pos; lia). nia.
Qed.

Lemma length_be_bytes n v : length (be_bytes n v) = n.
Proof. revert v. induction n; intros; cbn; [done|]. rewrite length_app, IHn. cbn. lia. Qed.

Lemma zlen_be_bytes n v : zlen (be_bytes n v) = Z.of_nat n.
Proof. unfold zlen. by rewrite length_be_bytes. Qed.
#[export] Hint Rewrite zlen_be_bytes : zlen.

Lemma be_bytes_ok n v : bytes_ok (be_bytes n v).
Proof.
  revert v. induction n; intros; cbn; [constructor|].
  apply Forall_app; split; [done|]. constructor; [|constructor].
  unfold is_byte. apply Z.mod_pos_bound. lia.
Qed.

Lemma be_value_be_bytes n v : be_value (be_bytes n v) = v mod 256 ^ Z.of_nat n.
Proof.
  revert v. induction n as [|n IH]; intros v.
  - cbn. rewrite Z.mod_1_r. done.
  - cbn [be_bytes]. rewrite be_value_snoc, IH.
    rewrite Nat2Z.inj_succ, Z.pow_succ_r by lia.
    rewrite (Z.rem_mul_r v 256) by lia. lia.
Qed.

Lemma be_bytes_mod n v : be_bytes n (v mod 256 ^ Z.of_nat n) = be_bytes n v.
Proof.
  revert v. induction n as [|n IH]; intros v; [done|]. cbn [be_bytes].
  rewrite Nat2Z.inj_succ, Z.pow_succ_r by lia.
  rewrite Z.rem_mul_r by lia.
  replace (v mod 256 + 256 * ((v / 256) mod 256 ^ Z.of_nat n))
    with ((v / 256) mod 256 ^ Z.of_nat n * 256 + v mod 256) by lia.
  rewrite Z.div_add_l, (Z.div_small (v mod 256)), Z.add_0_r, IH by (lia || apply Z.mod_pos_bound; lia).
  f_equal. f_equal. rewrite Z.add_comm, Z.mod_add by lia. apply Z.mod_mod. lia.
Qed.

Lemma be_bytes_be_value l : bytes_ok l -> be_bytes (length l) (be_value l) = l.
Proof.
  induction l as [|b l IH] using rev_ind; intros Hl; [done|].
  apply Forall_app in Hl as [Hl Hb]. apply Forall_inv in Hb. unfold is_byte in Hb.
  rewrite length_app, Nat.add_comm. cbn [length Nat.add be_bytes].
  rewrite be_value_snoc, Z.div_add_l, (Z.div_small b), Z.add_0_r by lia.
  rewrite Z.add_comm, Z.mod_add, (Z.mod_small b) by lia.
  by rewrite IH.
Qed.

#[export] Hint Resolve be_bytes_ok : core.

(** Exhaustive checking of a boolean predicate on an integer interval. *)
Definition zall (lo n : Z) (P : Z -> bool) : bool :=
  snd (Z.iter n (fun st => (fst st + 1, snd st && P (fst st))) (lo, true)).

Lemma zall_spec lo n P : zall lo n P = true -> forall x, lo <= x < lo + n -> P x = true.
Proof.
  unfold zall. destruct n as [|p|p]; cbn [Z.iter]; [intros _ x Hx; lia| |intros _ x Hx; lia].
  rewrite Pos2Nat.inj_iter. rewrite <- (positive_nat_Z p).
  generalize (Pos.to_nat p) as k. intros k. clear p. revert k.
  assert (Hfst : forall k, fst (Nat.iter k (fun st => (fst st + 1, snd st && P (fst st))) (lo, true))
                           = lo + Z.of_nat k).
  { intros k. induction k as [|k IH]; cbn [Nat.iter nat_rect fst]; [lia|].
    change (nat_rect _ _ _ k) with
      (Nat.iter k (fun st => (fst st + 1, snd st && P (fst st))) (lo, true)). rewrite IH. lia. }
  induction k as [|k IH]; intros Hk x Hx; [lia|].
  cbn [Nat.iter nat_rect snd] in Hk.
  change (nat_rect _ _ _ k) with
    (Nat.iter k (fun st => (fst st + 1, snd st && P (fst st))) (lo, true)) in Hk.
  rewrite Hfst in Hk. apply andb_true_iff in Hk as [Hk1 Hk2].
  destruct (decide (x = lo + Z.of_nat k)) as [->|]; [done|]. apply IH; [done|lia].
Qed.

(** Comparing two ways to cut the same list. *)
Lemma app_split {A} (a b c d : list A) :
  a ++ b = c ++ d -> zlen a <= zlen c -> exists e, c = a ++ e /\ b = e ++ d.
Proof.
  revert c. induction a as [|x a IH]; intros c H Hlen; [by exists c|].
  destruct c as [|y c]; [rewrite zlen_cons in Hlen; change (zlen []) with 0 in Hlen; zlen_pos; lia|].
  injection H as -> H. rewrite !zlen_cons in Hlen. destruct (IH c H ltac:(lia)) as (e & -> & ->).
  by exists e.
Qed.

Lemma app_inj_zlen {A} (a b c d : list A) :
  a ++ b = c ++ d -> zlen a = zlen c -> a = c /\ b = d.
Proof. unfold zlen. intros H Hlen. apply app_inj_1; [lia|done]. Qed.

(** Big-endian bytes from the front. *)
Lemma be_bytes_cons n v : be_bytes (S n) v = (v / 256 ^ Z.of_nat n) mod 256 :: be_bytes n v.
Proof.
  revert v. induction n as [|n IH]; intros v; [by rewrite Z.div_1_r|].
  change (be_bytes (S (S n)) v) with (be_bytes (S n) (v / 256) ++ [v mod 256]).
  rewrite IH. cbn [app be_bytes]. f_equal. f_equal.
  rewrite Z.div_div by (try apply Z.pow_pos_nonneg; lia). f_equal.
  by rewrite Nat2Z.inj_succ, Z.pow_succ_r by lia.
Qed.

Lemma app_cons_snoc {A} (x : list A) b l : x ++ b :: l = (x ++ [b]) ++ l.
Proof. by rewrite <- app_assoc. Qed.
