(* ===== verification/Words.v ===== *)
(** * Constant-time words, loads and stores (crypto/internal.h)

    [crypto_word_t] is a 64-bit word. Every function is the C expression on [Z]
    with the reductions modulo [2^64] (or [2^8]) the types impose; the value
    barriers are the identity. The theorems show that each mask function decides
    the comparison its name says, for all words. *)

From S2P Require Import Prelude.

Definition TRUE_W : Z := 18446744073709551615.
Definition lnot_w (a : Z) : Z := u64 (Z.lnot a).

Definition constant_time_msb_w (a : Z) : Z := u64 (0 - (a ≫ (8 * 8 - 1))).

Definition constant_time_lt_w (a b : Z) : Z :=
  constant_time_msb_w (a .^ ((a .^ b) .| (u64 (a - b) .^ a))).

Definition constant_time_lt_8 (a b : Z) : Z := u8 (constant_time_lt_w a b).

Definition constant_time_ge_w (a b : Z) : Z := lnot_w (constant_time_lt_w a b).

Definition constant_time_ge_8 (a b : Z) : Z := u8 (constant_time_ge_w a b).

Definition constant_time_is_zero_w (a : Z) : Z :=
  constant_time_msb_w (lnot_w a .& u64 (a - 1)).

Definition constant_time_is_zero_8 (a : Z) : Z := u8 (constant_time_is_zero_w a).

Definition constant_time_eq_w (a b : Z) : Z := constant_time_is_zero_w (a .^ b).

Definition constant_time_eq_8 (a b : Z) : Z := u8 (constant_time_eq_w a b).

Definition constant_time_eq_int (a b : Z) : Z := constant_time_eq_w (u64 a) (u64 b).

Definition constant_time_eq_int_8 (a b : Z) : Z := constant_time_eq_8 (u64 a) (u64 b).

Definition constant_time_select_w (mask a b : Z) : Z := (mask .& a) .| (lnot_w mask .& b).

Definition constant_time_select_8 (mask a b : Z) : Z :=
  let m := u8 mask in u8 ((m .& a) .| (Z.lnot m .& b)).

Definition constant_time_select_int (mask a b : Z) : Z :=
  i32 (constant_time_select_w mask (u64 a) (u64 b)).

Fixpoint constant_time_conditional_memcpy (dst src : list Z) (mask : Z) : list Z :=
  match dst, src with
  | o :: dst', i :: src' =>
      constant_time_select_8 mask i o :: constant_time_conditional_memcpy dst' src' mask
  | _, _ => dst
  end.

Fixpoint constant_time_conditional_memxor (dst src : list Z) (mask : Z) : list Z :=
  match dst, src with
  | o :: dst', i :: src' =>
      u8 (o .^ (mask .& i)) :: constant_time_conditional_memxor dst' src' mask
  | _, _ => dst
  end.

(** The portable definitions of the byte swaps (the builtins compute the same). *)
Definition CRYPTO_bswap2 (x : Z) : Z := u16 ((x ≫ 8) .| (x ≪ 8)).

Definition CRYPTO_bswap4 (x : Z) : Z :=
  let x := u32 ((x ≫ 16) .| (x ≪ 16)) in
  u32 (((x .& 0xff00ff00) ≫ 8) .| u32 ((x .& 0x00ff00ff) ≪ 8)).

Definition CRYPTO_bswap8 (x : Z) : Z :=
  u64 (CRYPTO_bswap4 (u32 (x ≫ 32)) .| (CRYPTO_bswap4 (u32 x) ≪ 32)).

(** [CRYPTO_load_u64_be] on eight bytes: a little-endian load, then a swap. *)
Definition load_u64_le (l : list Z) : Z := be_value (rev l).
Definition CRYPTO_load_u64_be (l : list Z) : Z := CRYPTO_bswap8 (load_u64_le l).

(** ** The most significant bit *)

Definition word (a : Z) : Prop := 0 <= a < 18446744073709551616.

Lemma word_u64 x : word (u64 x).
Proof. unfold word, u64. dlia. Qed.

Lemma testbit_63 a : word a -> Z.testbit a 63 = (9223372036854775808 <=? a).
Proof.
  unfold word. intros Ha.
  rewrite Z.testbit_odd, Z.shiftr_div_pow2 by lia.
  change (2 ^ 63) with 9223372036854775808.
  destruct (Z.leb_spec 9223372036854775808 a).
  - replace (a / 9223372036854775808) with 1 by dlia. done.
  - replace (a / 9223372036854775808) with 0 by dlia. done.
Qed.

Lemma word_lor a b : word a -> word b -> word (a .| b).
Proof. by apply (lor_bound 64). Qed.
Lemma word_lxor a b : word a -> word b -> word (a .^ b).
Proof. by apply (lxor_bound 64). Qed.
Lemma word_land a b : word a -> word b -> word (a .& b).
Proof. by apply (land_bound 64). Qed.
#[export] Hint Resolve word_u64 word_lor word_lxor word_land : core.

Lemma lnot_w_val a : word a -> lnot_w a = TRUE_W - a.
Proof. unfold word, lnot_w, u64, TRUE_W, Z.lnot. dlia. Qed.

Definition mask_of (b : bool) : Z := if b then TRUE_W else 0.

Lemma constant_time_msb_w_spec a :
  word a -> constant_time_msb_w a = mask_of (9223372036854775808 <=? a).
Proof.
  unfold word, constant_time_msb_w, mask_of, TRUE_W, u64. intros Ha.
  rewrite Z.shiftr_div_pow2 by lia. change (2 ^ (8 * 8 - 1)) with 9223372036854775808.
  destruct (Z.leb_spec 9223372036854775808 a).
  - replace (a / 9223372036854775808) with 1 by dlia. done.
  - replace (a / 9223372036854775808) with 0 by dlia. done.
Qed.

Lemma msb_w_testbit a : word a -> constant_time_msb_w a = mask_of (Z.testbit a 63).
Proof. intros. by rewrite constant_time_msb_w_spec, testbit_63. Qed.

Lemma lt_w_mask a b : word a -> word b -> constant_time_lt_w a b = mask_of (a <? b).
Proof.
  intros Ha Hb. unfold constant_time_lt_w. rewrite msb_w_testbit by auto.
  f_equal. rewrite !Z.lxor_spec, Z.lor_spec, !Z.lxor_spec, !testbit_63 by auto.
  unfold word, u64 in *.
  destruct (Z.leb_spec 9223372036854775808 a), (Z.leb_spec 9223372036854775808 b),
    (Z.leb_spec 9223372036854775808 ((a - b) mod 18446744073709551616)),
    (Z.ltb_spec a b); cbn; dlia.
Qed.

Lemma is_zero_w_mask a : word a -> constant_time_is_zero_w a = mask_of (a =? 0).
Proof.
  intros Ha. unfold constant_time_is_zero_w.
  assert (Hn : word (lnot_w a)) by apply word_u64.
  rewrite msb_w_testbit by auto. f_equal.
  rewrite Z.land_spec, !testbit_63, lnot_w_val by auto.
  unfold word, u64, TRUE_W in *.
  destruct (Z.leb_spec 9223372036854775808 (18446744073709551615 - a)),
    (Z.leb_spec 9223372036854775808 ((a - 1) mod 18446744073709551616)), (Z.eqb_spec a 0); cbn; dlia.
Qed.

Lemma eq_w_mask a b : word a -> word b -> constant_time_eq_w a b = mask_of (a =? b).
Proof.
  intros Ha Hb. unfold constant_time_eq_w. rewrite is_zero_w_mask by auto. f_equal.
  destruct (Z.eqb_spec a b) as [->|Hne].
  - by rewrite Z.lxor_nilpotent.
  - apply Z.eqb_neq. intros H. by apply Z.lxor_eq in H.
Qed.

Lemma select_w_mask c a b :
  word a -> word b -> constant_time_select_w (mask_of c) a b = if c then a else b.
Proof.
  unfold word. intros Ha Hb. unfold constant_time_select_w.
  assert (Hones : forall x, 0 <= x < 18446744073709551616 -> TRUE_W .& x = x).
  { intros x Hx. rewrite Z.land_comm. change TRUE_W with (2 ^ 64 - 1). rewrite land_ones_mod by lia.
    apply Z.mod_small. exact Hx. }
  destruct c; cbn [mask_of].
  - rewrite Hones by done. change (lnot_w TRUE_W) with 0. by rewrite Z.land_0_l, Z.lor_0_r.
  - change (lnot_w 0) with TRUE_W. by rewrite Hones, Z.land_0_l, Z.lor_0_l.
Qed.

(** The constant-time comparisons of crypto/internal.h decide what their
    names say on all 64-bit words, without a branch: [lt], [ge], [is_zero] and
    [eq] return the all-ones mask exactly when the comparison holds and zero
    otherwise, and [select] applied to such a mask is the conditional. *)
Theorem constant_time_masks_correct a b :
  word a -> word b ->
  constant_time_lt_w a b = mask_of (a <? b) /\
  constant_time_ge_w a b = mask_of (b <=? a) /\
  constant_time_is_zero_w a = mask_of (a =? 0) /\
  constant_time_eq_w a b = mask_of (a =? b) /\
  (forall c x y, word x -> word y -> constant_time_select_w (mask_of c) x y = if c then x else y).
Proof.
  intros Ha Hb. split_and!.
  - by apply lt_w_mask.
  - unfold constant_time_ge_w. rewrite lt_w_mask by done.
    destruct (Z.ltb_spec a b), (Z.leb_spec b a); done || lia.
  - by apply is_zero_w_mask.
  - by apply eq_w_mask.
  - intros. by apply select_w_mask.
Qed.

Lemma constant_time_masks_correct_witness :
  word 3 /\ word 18446744073709551615 /\
  constant_time_lt_w 3 18446744073709551615 = mask_of true.
Proof.
  split; [unfold word; lia|]. split; [unfold word; lia|].
  exact (proj1 (constant_time_masks_correct 3 18446744073709551615
    ltac:(unfold word; lia) ltac:(unfold word; lia))).
Defined.

(** ** Byte swaps *)

(** Evaluate [be_value] on an explicit list of bytes. *)
Ltac be_simpl := unfold be_value; cbn [fold_left rev app].

Lemma bswap2_bytes a b :
  is_byte a -> is_byte b -> CRYPTO_bswap2 (be_value [a; b]) = be_value [b; a].
Proof.
  unfold is_byte. intros Ha Hb. unfold CRYPTO_bswap2, u16. be_simpl.
  rewrite Z.shiftr_div_pow2, Z.lor_comm by lia.
  change (2 ^ 8) with 256. replace (((0 * 256 + a) * 256 + b) / 256) with a by dlia.
  rewrite lor_shiftl by lia. change (2 ^ 8) with 256. dlia.
Qed.

Lemma bswap4_bytes a b c d :
  is_byte a -> is_byte b -> is_byte c -> is_byte d ->
  CRYPTO_bswap4 (be_value [a; b; c; d]) = be_value [d; c; b; a].
Proof.
  unfold is_byte. intros Ha Hb Hc Hd. unfold CRYPTO_bswap4, u32. be_simpl.
  set (x := (((0 * 256 + a) * 256 + b) * 256 + c) * 256 + d).
  assert (Hx : x = (a * 256 + b) * 65536 + (c * 256 + d)) by (unfold x; lia).
  clearbody x. subst x.
  rewrite (Z.shiftr_div_pow2 _ 16) by lia. change (2 ^ 16) with 65536.
  rewrite (Z.lor_comm (_ / 65536)).
  replace (((a * 256 + b) * 65536 + (c * 256 + d)) / 65536) with (a * 256 + b) by dlia.
  rewrite lor_shiftl by lia. change (2 ^ 16) with 65536.
  replace ((((a * 256 + b) * 65536 + (c * 256 + d)) * 65536 + (a * 256 + b)) mod 4294967296)
    with ((c * 2 ^ 8 + d) * 2 ^ 16 + (a * 2 ^ 8 + b)) by dlia.
  change 0xff00ff00 with ((255 * 2 ^ 8 + 0) * 2 ^ 16 + (255 * 2 ^ 8 + 0)).
  change 0x00ff00ff with ((0 * 2 ^ 8 + 255) * 2 ^ 16 + (0 * 2 ^ 8 + 255)).
  rewrite !land_split, !Z.land_0_r by lia.
  change 255 with (2 ^ 8 - 1). rewrite !land_ones_mod, !(Z.mod_small _ (2 ^ 8)) by lia.
  rewrite Z.shiftl_mul_pow2, Z.shiftr_div_pow2 by lia.
  change (2 ^ 8) with 256. change (2 ^ 16) with 65536.
  replace (((c * 256 + 0) * 65536 + (a * 256 + 0)) / 256) with (c * 65536 + a) by dlia.
  replace ((((0 * 256 + d) * 65536 + (0 * 256 + b)) * 256) mod 4294967296)
    with (((d * 256 + 0) * 65536) + (b * 256 + 0)) by dlia.
  replace (c * 65536 + a) with ((0 * 256 + c) * 65536 + (0 * 256 + a)) by lia.
  change 65536 with (2 ^ 16). change 256 with (2 ^ 8).
  rewrite !lor_split, !Z.lor_0_l, !Z.lor_0_r by lia.
  change (2 ^ 8) with 256. change (2 ^ 16) with 65536. dlia.
Qed.

Lemma be_value_app4 a b c d k :
  be_value (a :: b :: c :: d :: k) = be_value [a; b; c; d] * 256 ^ zlen k + be_value k.
Proof. apply (be_value_app [a; b; c; d] k). Qed.

Lemma bswap8_bytes a b c d e f g h :
  bytes_ok [a; b; c; d; e; f; g; h] ->
  CRYPTO_bswap8 (be_value [a; b; c; d; e; f; g; h]) = be_value [h; g; f; e; d; c; b; a].
Proof.
  intros Hl. unfold CRYPTO_bswap8.
  assert (Hhi : bytes_ok [a; b; c; d]) by (by apply (Forall_take _ 4%nat) in Hl).
  assert (Hlo : bytes_ok [e; f; g; h]) by (by apply (Forall_drop _ 4%nat) in Hl).
  assert (Hlo' : bytes_ok [h; g; f; e]) by (by apply Forall_rev in Hlo).
  assert (Hhi' : bytes_ok [d; c; b; a]) by (by apply Forall_rev in Hhi).
  rewrite (be_value_app4 a b c d [e; f; g; h]), (be_value_app4 h g f e [d; c; b; a]).
  pose proof (be_value_bound _ Hhi) as B1. pose proof (be_value_bound _ Hlo) as B2.
  pose proof (be_value_bound _ Hhi') as B3. pose proof (be_value_bound _ Hlo') as B4.
  change (256 ^ zlen [e; f; g; h]) with 4294967296 in *.
  change (256 ^ zlen [d; c; b; a]) with 4294967296 in *.
  change (256 ^ zlen [a; b; c; d]) with 4294967296 in *.
  change (256 ^ zlen [h; g; f; e]) with 4294967296 in *.
  rewrite Z.shiftr_div_pow2 by lia. change (2 ^ 32) with 4294967296.
  replace ((be_value [a; b; c; d] * 4294967296 + be_value [e; f; g; h]) / 4294967296)
    with (be_value [a; b; c; d]) by dlia.
  unfold u32. rewrite Z.mod_small by lia.
  replace ((be_value [a; b; c; d] * 4294967296 + be_value [e; f; g; h]) mod 4294967296)
    with (be_value [e; f; g; h]) by dlia.
  rewrite !Forall_cons in Hl. destruct_and!.
  rewrite !bswap4_bytes, Z.lor_comm, lor_shiftl by (done || lia).
  change (2 ^ 32) with 4294967296. unfold u64. apply Z.mod_small. lia.
Qed.

(** Swapping the bytes of the little-endian load gives the big-endian value. *)
Lemma load_u64_be_value l :
  length l = 8%nat -> bytes_ok l -> CRYPTO_load_u64_be l = be_value l.
Proof.
  intros Hlen Hl. do 8 (destruct l as [|? l]; [discriminate Hlen|]).
  destruct l; [|discriminate Hlen].
  unfold CRYPTO_load_u64_be, load_u64_le. cbn [rev app].
  apply bswap8_bytes. by apply Forall_rev in Hl.
Qed.

(** * Loads, stores, rotations and sums

    The machine is little-endian: [memcpy] between a word and an array gives the
    bytes of the word from the lowest. A load takes the bytes it reads and a store
    returns the bytes it writes. *)

Definition le_value (l : list Z) : Z := be_value (rev l).
Definition le_bytes (n : nat) (v : Z) : list Z := rev (be_bytes n v).

Definition CRYPTO_load_u32_le (in_ : list Z) : Z := le_value in_.
Definition CRYPTO_store_u32_le (v : Z) : list Z := le_bytes 4 v.
Definition CRYPTO_load_u32_be (in_ : list Z) : Z := CRYPTO_bswap4 (le_value in_).
Definition CRYPTO_store_u32_be (v : Z) : list Z := le_bytes 4 (CRYPTO_bswap4 v).
Definition CRYPTO_store_u64_le (v : Z) : list Z := le_bytes 8 v.
Definition CRYPTO_store_u64_be (v : Z) : list Z := le_bytes 8 (CRYPTO_bswap8 v).

Definition CRYPTO_rotl_u32 (value shift : Z) : Z := u32 (value ≪ shift) .| (value ≫ ((- shift) .& 31)).
Definition CRYPTO_rotr_u32 (value shift : Z) : Z := (value ≫ shift) .| u32 (value ≪ ((- shift) .& 31)).
Definition CRYPTO_rotl_u64 (value shift : Z) : Z := u64 (value ≪ shift) .| (value ≫ ((- shift) .& 63)).
Definition CRYPTO_rotr_u64 (value shift : Z) : Z := (value ≫ shift) .| u64 (value ≪ ((- shift) .& 63)).

(** The portable versions of addition and subtraction with carry: the result and
    the carry out. *)
Definition CRYPTO_addc_u32 (x y carry : Z) : Z * Z :=
  let ret := u64 (carry + u64 (x + y)) in
  (u32 ret, u32 (ret ≫ 32)).

Definition CRYPTO_addc_u64 (x y carry : Z) : Z * Z :=
  let x := u64 (x + carry) in
  let carry := if x <? carry then 1 else 0 in
  let ret := u64 (x + y) in
  let carry := u64 (carry + (if ret <? x then 1 else 0)) in
  (ret, carry).

Definition CRYPTO_subc_u32 (x y borrow : Z) : Z * Z :=
  (u32 (u32 (x - y) - borrow), (if x <? y then 1 else 0) .| ((if x =? y then 1 else 0) .& borrow)).

Definition CRYPTO_subc_u64 (x y borrow : Z) : Z * Z :=
  (u64 (u64 (x - y) - borrow), (if x <? y then 1 else 0) .| ((if x =? y then 1 else 0) .& borrow)).

(** ** Loads and stores *)

Lemma le_bytes_value l : bytes_ok l -> le_bytes (length l) (le_value l) = l.
Proof.
  intros Hl. unfold le_bytes, le_value. rewrite <- (length_rev l), be_bytes_be_value by (by apply Forall_rev).
  apply rev_involutive.
Qed.

Lemma le_bytes_S n v : le_bytes (S n) v = v mod 256 :: le_bytes n (v / 256).
Proof. unfold le_bytes. cbn [be_bytes]. by rewrite rev_app_distr. Qed.

Lemma zlen_le_bytes n v : zlen (le_bytes n v) = Z.of_nat n.
Proof. unfold le_bytes, zlen. by rewrite length_rev, length_be_bytes. Qed.

Lemma le_value_le_bytes n v : le_value (le_bytes n v) = v mod 256 ^ Z.of_nat n.
Proof. unfold le_value, le_bytes. by rewrite rev_involutive, be_value_be_bytes. Qed.

Lemma le_bytes_ok n v : bytes_ok (le_bytes n v).
Proof. apply Forall_rev, be_bytes_ok. Qed.

Lemma le_value_cons b l : le_value (b :: l) = b + 256 * le_value l.
Proof. unfold le_value. cbn [rev]. rewrite be_value_snoc. lia. Qed.

Lemma length_4 (l : list Z) : length l = 4%nat -> exists a b c d, l = [a; b; c; d].
Proof. intros H. do 4 (destruct l as [|? l]; [done|]). destruct l; [eauto|done]. Qed.

Lemma length_8 (l : list Z) : length l = 8%nat -> exists a b c d e f g h, l = [a; b; c; d; e; f; g; h].
Proof. intros Hl. do 8 (destruct l as [|? l]; [done|]). destruct l; [eauto 12|done]. Qed.

Lemma load_u32_be_value l : length l = 4%nat -> bytes_ok l -> CRYPTO_load_u32_be l = be_value l.
Proof.
  intros (a & b & c & d & ->)%length_4 Hl. rewrite !Forall_cons in Hl. destruct_and!.
  unfold CRYPTO_load_u32_be, le_value. cbn [rev app]. by apply bswap4_bytes.
Qed.

Lemma store_u32_be_bytes v : 0 <= v < 2 ^ 32 -> CRYPTO_store_u32_be v = be_bytes 4 v.
Proof.
  intros Hv. pose proof (be_bytes_ok 4 v) as Hok. unfold CRYPTO_store_u32_be, le_bytes.
  assert (Ev : v = be_value (be_bytes 4 v)) by (rewrite be_value_be_bytes; symmetry; apply Z.mod_small; exact Hv).
  destruct (length_4 (be_bytes 4 v) (length_be_bytes 4 v)) as (a & b & c & d & E). rewrite E in *. rewrite Ev.
  rewrite !Forall_cons in Hok. destruct_and!. rewrite bswap4_bytes by done.
  change 4%nat with (length [d; c; b; a]). rewrite be_bytes_be_value by (by rewrite !Forall_cons). done.
Qed.

(** ** Rotations *)

Definition rotate_right (w n x : Z) : Z := x / 2 ^ n + x mod 2 ^ n * 2 ^ (w - n).

(** The two parts of a rotation do not overlap. *)
Lemma rotate_or w n x : 0 <= n <= w -> 0 <= x < 2 ^ w ->
  (x ≫ n) .| ((x ≪ (w - n)) mod 2 ^ w) = rotate_right w n x.
Proof.
  intros Hn Hx. unfold rotate_right. rewrite Z.shiftr_div_pow2, Z.shiftl_mul_pow2 by lia.
  assert (Hw : 2 ^ w = 2 ^ n * 2 ^ (w - n)) by (rewrite <- Z.pow_add_r by lia; f_equal; lia).
  assert (0 < 2 ^ n) by (apply Z.pow_pos_nonneg; lia). assert (0 < 2 ^ (w - n)) by (apply Z.pow_pos_nonneg; lia).
  rewrite Hw, Z.mul_mod_distr_r by lia. rewrite Z.lor_comm.
  rewrite <- (Z.shiftl_mul_pow2 (x mod 2 ^ n)) by lia. rewrite lor_shiftl; [|lia|].
  { rewrite Z.shiftl_mul_pow2 by lia. lia. }
  split; [apply Z.div_pos; lia|]. apply Z.div_lt_upper_bound; lia.
Qed.

Lemma neg_land n k : 0 <= k -> 0 < n < 2 ^ k -> (- n) .& (2 ^ k - 1) = 2 ^ k - n.
Proof.
  intros Hk Hn. rewrite land_ones_mod by done. rewrite Z.mod_opp_l_nz by (rewrite ?Z.mod_small; lia).
  by rewrite Z.mod_small by lia.
Qed.

Lemma rotr_u32_value x n : 0 < n < 32 -> 0 <= x < 2 ^ 32 -> CRYPTO_rotr_u32 x n = rotate_right 32 n x.
Proof.
  intros Hn Hx. unfold CRYPTO_rotr_u32. change 31 with (2 ^ 5 - 1). rewrite neg_land by lia. change (2 ^ 5) with 32.
  apply (rotate_or 32); [lia|done].
Qed.

Lemma rotate_right_range w n x : 0 <= n <= w -> 0 <= x < 2 ^ w -> 0 <= rotate_right w n x < 2 ^ w.
Proof.
  intros Hn Hx. unfold rotate_right.
  assert (Hw : 2 ^ w = 2 ^ n * 2 ^ (w - n)) by (rewrite <- Z.pow_add_r by lia; f_equal; lia).
  assert (0 < 2 ^ n) by (apply Z.pow_pos_nonneg; lia). assert (0 < 2 ^ (w - n)) by (apply Z.pow_pos_nonneg; lia).
  pose proof (Z.mod_pos_bound x (2 ^ n)). assert (0 <= x / 2 ^ n) by (apply Z.div_pos; lia).
  assert (x / 2 ^ n < 2 ^ (w - n)) by (apply Z.div_lt_upper_bound; lia). nia.
Qed.

Lemma rotl_u32_value x n : 0 < n < 32 -> 0 <= x < 2 ^ 32 -> CRYPTO_rotl_u32 x n = rotate_right 32 (32 - n) x.
Proof.
  intros Hn Hx. unfold CRYPTO_rotl_u32. change 31 with (2 ^ 5 - 1). rewrite neg_land by lia. change (2 ^ 5) with 32.
  rewrite Z.lor_comm, <- (rotate_or 32 (32 - n) x) by (done || lia). by replace (32 - (32 - n)) with n by lia.
Qed.

(** ** Carries *)

Definition carry_bit (c : Z) : Prop := c = 0 \/ c = 1.

Lemma addc_u32_spec x y c : 0 <= x < 2 ^ 32 -> 0 <= y < 2 ^ 32 -> carry_bit c ->
  let '(r, c') := CRYPTO_addc_u32 x y c in 0 <= r < 2 ^ 32 /\ carry_bit c' /\ x + y + c = r + c' * 2 ^ 32.
Proof.
  change (2 ^ 32) with 4294967296. intros Hx Hy Hc. unfold CRYPTO_addc_u32, u32, u64, carry_bit in *.
  rewrite Z.shiftr_div_pow2 by lia. change (2 ^ 32) with 4294967296.
  rewrite (Z.mod_small (x + y)), (Z.mod_small (c + (x + y))) by lia. split; [dlia|]. split; dlia.
Qed.

Lemma addc_u64_spec x y c : 0 <= x < 2 ^ 64 -> 0 <= y < 2 ^ 64 -> carry_bit c ->
  let '(r, c') := CRYPTO_addc_u64 x y c in 0 <= r < 2 ^ 64 /\ carry_bit c' /\ x + y + c = r + c' * 2 ^ 64.
Proof.
  change (2 ^ 64) with 18446744073709551616. intros Hx Hy Hc. unfold CRYPTO_addc_u64, u64, carry_bit in *.
  destruct (Z.ltb_spec ((x + c) mod 18446744073709551616) c);
    destruct (Z.ltb_spec (((x + c) mod 18446744073709551616 + y) mod 18446744073709551616) ((x + c) mod 18446744073709551616));
    (split; [dlia|split; dlia]).
Qed.

Lemma borrow_out x y b : carry_bit b ->
  (if x <? y then 1 else 0) .| ((if x =? y then 1 else 0) .& b) = if x <? y + b then 1 else 0.
Proof.
  intros [-> | ->]; repeat match goal with
    | |- context [?a <? ?b] => destruct (Z.ltb_spec a b)
    | |- context [?a =? ?b] => destruct (Z.eqb_spec a b)
    end; try lia; reflexivity.
Qed.

Lemma subc_u32_spec x y b : 0 <= x < 2 ^ 32 -> 0 <= y < 2 ^ 32 -> carry_bit b ->
  let '(r, b') := CRYPTO_subc_u32 x y b in 0 <= r < 2 ^ 32 /\ carry_bit b' /\ x - y - b = r - b' * 2 ^ 32.
Proof.
  change (2 ^ 32) with 4294967296. intros Hx Hy Hb. unfold CRYPTO_subc_u32, u32, carry_bit in *.
  rewrite borrow_out by exact Hb. destruct Hb as [-> | ->]; match goal with |- context [x <? ?z] => destruct (Z.ltb_spec x z) end;
    (split; [dlia|split; dlia]).
Qed.

Lemma subc_u64_spec x y b : 0 <= x < 2 ^ 64 -> 0 <= y < 2 ^ 64 -> carry_bit b ->
  let '(r, b') := CRYPTO_subc_u64 x y b in 0 <= r < 2 ^ 64 /\ carry_bit b' /\ x - y - b = r - b' * 2 ^ 64.
Proof.
  change (2 ^ 64) with 18446744073709551616. intros Hx Hy Hb. unfold CRYPTO_subc_u64, u64, carry_bit in *.
  rewrite borrow_out by exact Hb. destruct Hb as [-> | ->]; match goal with |- context [x <? ?z] => destruct (Z.ltb_spec x z) end;
    (split; [dlia|split; dlia]).
Qed.
