(* ===== verification/Mem.v ===== *)
(** * Memory and string helpers (crypto/mem.c)

    The allocator of the platform is the interface [Allocator]: whether a request
    succeeds and the unspecified bytes of a fresh block. A block is the list of
    its bytes, [None] is [NULL]. The weak overriding hooks
    ([OPENSSL_memory_alloc] and its companions) are absent, as they are in the
    shipped build, and the size prefix shows only in the overflow check.

    A C string argument is the list of the bytes in front of its terminator;
    reading at its end gives the terminator 0. *)

From S2P Require Import Prelude.

Class Allocator := {
  malloc_ok : Z -> bool;
  junk : Z -> Z
}.

Definition OPENSSL_MALLOC_PREFIX : Z := 8.

Section Alloc.
Context `{Allocator}.

Definition block (n : Z) : list Z := map (fun i => u8 (junk (Z.of_nat i))) (seq 0 (Z.to_nat n)).

Definition OPENSSL_malloc (size : Z) : option (list Z) :=
  if u64 (size + OPENSSL_MALLOC_PREFIX) <? size then None
  else if malloc_ok (u64 (size + OPENSSL_MALLOC_PREFIX)) then Some (block size) else None.

Definition OPENSSL_zalloc (size : Z) : option (list Z) :=
  match OPENSSL_malloc size with
  | None => None
  | Some ret => Some (replicate (Z.to_nat size) 0)
  end.

Definition OPENSSL_calloc (num size : Z) : option (list Z) :=
  if negb (size =? 0) && (num >? UINT64_MAX / size) then None
  else OPENSSL_zalloc (u64 (num * size)).

(** The old block, if there is one, is its list of bytes. *)
Definition OPENSSL_realloc (orig : option (list Z)) (new_size : Z) : option (list Z) :=
  match orig with
  | None => OPENSSL_malloc new_size
  | Some orig_ptr =>
      match OPENSSL_malloc new_size with
      | None => None
      | Some ret =>
          let old_size := zlen orig_ptr in
          let to_copy := if old_size <? new_size then old_size else new_size in
          Some (store ret 0 (ztake to_copy orig_ptr))
      end
  end.

Definition OPENSSL_memdup (data : list Z) : option (list Z) :=
  if zlen data =? 0 then None
  else match OPENSSL_malloc (zlen data) with
       | None => None
       | Some ret => Some (store ret 0 data)
       end.
End Alloc.

Fixpoint OPENSSL_strnlen_loop (s : list Z) : Z :=
  match s with
  | [] => 0
  | c :: s => if c =? 0 then 0 else 1 + OPENSSL_strnlen_loop s
  end.
Definition OPENSSL_strnlen (s : list Z) (len : Z) : Z := OPENSSL_strnlen_loop (ztake len s).

(** The C library's [strlen] on the bytes of a string. *)
Definition strlen (s : list Z) : Z := OPENSSL_strnlen_loop s.

(** The result has its terminator appended. *)
Definition OPENSSL_strndup `{Allocator} (str : list Z) (size : Z) : option (list Z) :=
  let size := OPENSSL_strnlen str size in
  let alloc_size := u64 (size + 1) in
  if alloc_size <? size then None
  else match OPENSSL_malloc alloc_size with
       | None => None
       | Some ret => Some (zupd (store ret 0 (ztake size str)) size 0)
       end.

Definition OPENSSL_strdup `{Allocator} (s : list Z) : option (list Z) :=
  OPENSSL_memdup (ztake (strlen s) s ++ [0]).

Fixpoint CRYPTO_memcmp_loop (x : Z) (a b : list Z) : Z :=
  match a, b with
  | i :: a, j :: b => CRYPTO_memcmp_loop (u8 (x .| (i .^ j))) a b
  | _, _ => x
  end.
Definition CRYPTO_memcmp (a b : list Z) : Z := CRYPTO_memcmp_loop 0 a b.

(** The C library's [memcmp] on two blocks of the same length. *)
Fixpoint OPENSSL_memcmp (a b : list Z) : Z :=
  match a, b with
  | i :: a, j :: b => if i <? j then -1 else if j <? i then 1 else OPENSSL_memcmp a b
  | _, _ => 0
  end.

(** [memchr], as the offset of the first occurrence. *)
Fixpoint OPENSSL_memchr (s : list Z) (c : Z) : option Z :=
  match s with
  | [] => None
  | b :: s => if b =? c then Some 0 else
                match OPENSSL_memchr s c with Some i => Some (i + 1) | None => None end
  end.

Definition OPENSSL_hash32 (data : list Z) : Z :=
  fold_left (fun h b => u32 ((h .^ b) * 16777619)) data 2166136261.

Definition OPENSSL_strhash (s : list Z) : Z := OPENSSL_hash32 (ztake (strlen s) s).

Definition OPENSSL_isalpha (c : Z) : bool :=
  ((97 <=? c) && (c <=? 122)) || ((65 <=? c) && (c <=? 90)).

Definition OPENSSL_isdigit (c : Z) : bool := (48 <=? c) && (c <=? 57).

Definition OPENSSL_isxdigit (c : Z) : bool :=
  OPENSSL_isdigit c || ((97 <=? c) && (c <=? 102)) || ((65 <=? c) && (c <=? 70)).

Definition OPENSSL_fromxdigit (c : Z) : option Z :=
  if OPENSSL_isdigit c then Some (u8 (c - 48))
  else if (97 <=? c) && (c <=? 102) then Some (u8 (c - 97 + 10))
  else if (65 <=? c) && (c <=? 70) then Some (u8 (c - 65 + 10))
  else None.

Definition OPENSSL_isalnum (c : Z) : bool := OPENSSL_isalpha c || OPENSSL_isdigit c.

Definition OPENSSL_tolower (c : Z) : Z :=
  if (65 <=? c) && (c <=? 90) then c + (97 - 65) else c.

Definition OPENSSL_isspace (c : Z) : bool :=
  (c =? 9) || (c =? 10) || (c =? 11) || (c =? 12) || (c =? 13) || (c =? 32).

(** One step of the comparison loops on the characters [a] and [b]; [k] is the
    rest of the loop. *)
Definition casecmp_step (a b k : Z) : Z :=
  let aa := OPENSSL_tolower a in
  let bb := OPENSSL_tolower b in
  if aa <? bb then -1 else if bb <? aa then 1 else if aa =? 0 then 0 else k.

Fixpoint OPENSSL_strcasecmp (a b : list Z) : Z :=
  match a with
  | [] => casecmp_step 0 (hd 0 b) 0
  | c :: a' => casecmp_step c (hd 0 b) (OPENSSL_strcasecmp a' (tl b))
  end.

Fixpoint strncasecmp_loop (n : nat) (a b : list Z) : Z :=
  match n with
  | O => 0
  | S n => casecmp_step (hd 0 a) (hd 0 b) (strncasecmp_loop n (tl a) (tl b))
  end.
Definition OPENSSL_strncasecmp (a b : list Z) (n : Z) : Z := strncasecmp_loop (Z.to_nat n) a b.

(** The copy loop, from position [l] of [dst]: the rest of the source, the
    destination, the number of bytes copied and the remaining room. *)
Fixpoint strlcpy_loop (src dst : list Z) (l dst_size : Z) : list Z * list Z * Z * Z :=
  match src with
  | [] => (src, dst, l, dst_size)
  | c :: src' =>
      if (dst_size >? 1) && negb (c =? 0)
      then strlcpy_loop src' (zupd dst l c) (l + 1) (dst_size - 1)
      else (src, dst, l, dst_size)
  end.

(** Returns the destination block and the return value. *)
Definition OPENSSL_strlcpy (dst src : list Z) (dst_size : Z) : list Z * Z :=
  let '(src, dst, l, dst_size) := strlcpy_loop src dst 0 dst_size in
  let dst := if negb (dst_size =? 0) then zupd dst l 0 else dst in
  (dst, l + strlen src).

Fixpoint strlcat_loop (dst : list Z) (l dst_size : Z) : Z * Z :=
  match dst with
  | c :: dst' =>
      if (dst_size >? 0) && negb (c =? 0) then strlcat_loop dst' (l + 1) (dst_size - 1)
      else (l, dst_size)
  | [] => (l, dst_size)
  end.

Definition OPENSSL_strlcat (dst src : list Z) (dst_size : Z) : list Z * Z :=
  let '(l, dst_size) := strlcat_loop dst 0 dst_size in
  let '(dst', n) := OPENSSL_strlcpy (zdrop l dst) src dst_size in
  (ztake l dst ++ dst', l + n).

(** ** Allocation *)

Section AllocLemmas.
Context `{Allocator}.

Lemma zlen_block n : 0 <= n -> zlen (block n) = n.
Proof. intros. unfold block, zlen. rewrite length_map, length_seq. lia. Qed.

Lemma block_ok n : bytes_ok (block n).
Proof.
  unfold block. apply Forall_map, Forall_forall. intros i _. unfold is_byte, u8. dlia.
Qed.

(** Blocks of up to 2^63 bytes are given when the system has them. *)
Lemma OPENSSL_malloc_ok size : (forall n, malloc_ok n = true) -> 0 <= size <= 2 ^ 63 -> OPENSSL_malloc size = Some (block size).
Proof.
  intros Hm Hs. unfold OPENSSL_malloc, u64, OPENSSL_MALLOC_PREFIX. rewrite Hm, Z.mod_small by lia.
  rewrite (proj2 (Z.ltb_ge _ size)) by lia. done.
Qed.

Lemma OPENSSL_malloc_Some size b : 0 <= size -> OPENSSL_malloc size = Some b -> zlen b = size /\ bytes_ok b.
Proof.
  intros Hs. unfold OPENSSL_malloc. repeat case_match; intros [=]; subst.
  split; [by apply zlen_block|apply block_ok].
Qed.

Lemma OPENSSL_realloc_Some orig n b :
  OPENSSL_realloc (Some orig) n = Some b -> zlen orig <= n ->
  exists fresh, b = orig ++ fresh /\ zlen b = n /\ bytes_ok fresh.
Proof.
  unfold OPENSSL_realloc. destruct (OPENSSL_malloc n) as [r|] eqn:Hm; [|done].
  intros [= <-] Hn. pose proof (zlen_nonneg orig).
  destruct (OPENSSL_malloc_Some n r) as [Hr Hok]; [lia|done|].
  rewrite ztake_all by (case_match; lia).
  unfold store. rewrite ztake_0. cbn [app]. exists (zdrop (0 + zlen orig) r).
  split; [done|]. split; [rewrite zlen_app, zlen_zdrop by lia; lia|by apply Forall_drop].
Qed.

Lemma OPENSSL_memdup_Some data b : OPENSSL_memdup data = Some b -> b = data.
Proof.
  unfold OPENSSL_memdup. case_match; [done|].
  destruct (OPENSSL_malloc (zlen data)) as [r|] eqn:Hm; [|done]. intros [= <-].
  pose proof (zlen_nonneg data). destruct (OPENSSL_malloc_Some _ r ltac:(done) Hm) as [Hr _].
  unfold store. rewrite ztake_0, zdrop_all by lia. by rewrite app_nil_r.
Qed.
End AllocLemmas.

(** ** Comparison *)

Lemma u8_lor x y : is_byte x -> is_byte y -> u8 (x .| y) = (x .| y).
Proof. intros. apply Z.mod_small. by apply (lor_bound 8). Qed.

Lemma memcmp_loop_zero a b : length a = length b -> bytes_ok a -> bytes_ok b ->
  forall x, is_byte x -> CRYPTO_memcmp_loop x a b = 0 <-> x = 0 /\ a = b.
Proof.
  revert b. induction a as [|i a IH]; intros [|j b] Hlen Ha Hb x Hx; try done.
  { cbn. naive_solver. }
  apply Forall_cons in Ha as [Hi Ha]. apply Forall_cons in Hb as [Hj Hb].
  cbn [CRYPTO_memcmp_loop].
  assert (Hxor : is_byte (i .^ j)) by (by apply (lxor_bound 8)).
  rewrite u8_lor by done.
  rewrite IH; [|by injection Hlen|done..|by apply (lor_bound 8)].
  rewrite Z.lor_eq_0_iff, Z.lxor_eq_0_iff. naive_solver.
Qed.

(** [CRYPTO_memcmp] returns zero exactly on equal blocks, for blocks of any
    common length, although it never branches on their contents. *)
Theorem CRYPTO_memcmp_eq a b :
  length a = length b -> bytes_ok a -> bytes_ok b -> CRYPTO_memcmp a b = 0 <-> a = b.
Proof.
  intros. unfold CRYPTO_memcmp. rewrite memcmp_loop_zero; [naive_solver|done..|]. unfold is_byte. lia.
Qed.

Lemma CRYPTO_memcmp_eq_witness : CRYPTO_memcmp [1; 2; 255] [1; 2; 255] = 0.
Proof.
  apply (CRYPTO_memcmp_eq [1; 2; 255] [1; 2; 255] eq_refl);
    [repeat constructor; unfold is_byte; lia..|reflexivity].
Defined.

(** ** Bounded string copy *)

Definition no_nul (s : list Z) : Prop := Forall (fun c => c <> 0) s.

Lemma strlen_no_nul s : no_nul s -> strlen s = zlen s.
Proof.
  unfold strlen. induction 1 as [|c s Hc _ IH]; [done|]. cbn [OPENSSL_strnlen_loop].
  rewrite (proj2 (Z.eqb_neq c 0)), IH, zlen_cons by done. lia.
Qed.

Lemma zupd_app d (pre post : list Z) x y :
  zlen pre = d -> zupd (pre ++ x :: post) d y = pre ++ y :: post.
Proof.
  intros <-. unfold zupd. rewrite zlen_to_nat.
  rewrite insert_app_r_alt by lia. by rewrite Nat.sub_diag.
Qed.

Lemma strlcpy_loop_spec src : no_nul src -> forall pre dst l n,
  zlen pre = l -> 1 <= n <= zlen dst ->
  strlcpy_loop src (pre ++ dst) l n =
    (zdrop (n - 1) src, pre ++ store dst 0 (ztake (n - 1) src), l + zlen (ztake (n - 1) src),
     n - zlen (ztake (n - 1) src)).
Proof.
  induction 1 as [|c src Hc Hsrc IH]; intros pre dst l n Hl Hn; cbn [strlcpy_loop].
  { unfold ztake, zdrop. rewrite take_nil, drop_nil.
    by rewrite !Z.add_0_r, !Z.sub_0_r. }
  rewrite Z.gtb_ltb. destruct (Z.ltb_spec 1 n) as [H1|H1]; cbn [andb].
  - rewrite (proj2 (Z.eqb_neq c 0)) by done. cbn [negb].
    destruct dst as [|x dst]; [rewrite zlen_nil in Hn; lia|]. rewrite zlen_cons in Hn.
    rewrite zupd_app by done.
    replace (pre ++ c :: dst) with ((pre ++ [c]) ++ dst) by (by rewrite <- app_assoc).
    rewrite IH; [|rewrite zlen_app, zlen_cons, zlen_nil; lia|lia].
    unfold ztake, zdrop. replace (Z.to_nat (n - 1)) with (S (Z.to_nat (n - 1 - 1))) by lia.
    cbn [take drop]. rewrite zlen_cons, <- app_assoc. cbn [app].
    unfold store, ztake, zdrop. rewrite zlen_cons. cbn [Z.to_nat take app].
    replace (Z.to_nat (0 + (1 + zlen (take (Z.to_nat (n - 1 - 1)) src))))
      with (S (Z.to_nat (0 + zlen (take (Z.to_nat (n - 1 - 1)) src))))
      by (zlen_pos; lia).
    cbn [drop]. change (Z.to_nat 0) with O. cbn [take app]. f_equal; [f_equal; lia|lia].
  - replace (n - 1) with 0 by lia. rewrite ztake_0, zdrop_0. by rewrite !Z.add_0_r, !Z.sub_0_r.
Qed.

(** [OPENSSL_strlcpy] with room for [dst_size] bytes writes the longest prefix
    of the source that leaves space for the terminator, terminates it, changes
    nothing else of the destination and returns the length of the source; with
    [dst_size = 0] it writes nothing. *)
Theorem OPENSSL_strlcpy_spec dst src dst_size :
  no_nul src -> 0 <= dst_size <= zlen dst ->
  OPENSSL_strlcpy dst src dst_size =
    (if dst_size =? 0 then dst else store dst 0 (ztake (dst_size - 1) src ++ [0]), zlen src).
Proof.
  intros Hsrc Hn. unfold OPENSSL_strlcpy.
  destruct (Z.eqb_spec dst_size 0) as [->|Hn0].
  { destruct src as [|c src]; [done|]. cbn [strlcpy_loop andb Z.gtb Z.compare].
    rewrite strlen_no_nul by done. done. }
  pose proof (strlcpy_loop_spec src Hsrc [] dst 0 dst_size eq_refl ltac:(lia)) as Hloop.
  cbn [app] in Hloop. rewrite Hloop. clear Hloop.
  assert (Hk : zlen (ztake (dst_size - 1) src) <= dst_size - 1).
  { unfold ztake, zlen. rewrite length_take. lia. }
  set (k := ztake (dst_size - 1) src) in *. pose proof (zlen_nonneg k).
  rewrite (proj2 (Z.eqb_neq (dst_size - zlen k) 0)) by lia. cbn [negb].
  rewrite strlen_no_nul by (by apply Forall_drop).
  f_equal.
  - unfold store. rewrite !ztake_0, zlen_app. cbn [app].
    destruct (zdrop (0 + zlen k) dst) as [|x rest] eqn:Hd.
    { pose proof (zlen_zdrop (0 + zlen k) dst ltac:(lia)) as Hz. rewrite Hd in Hz.
      change (zlen []) with 0 in Hz. lia. }
    rewrite Z.add_0_l, zupd_app by done. rewrite <- app_assoc. do 2 f_equal. cbn [app]. f_equal.
    change (zlen [0]) with 1. unfold zdrop in *.
    replace (Z.to_nat (0 + (zlen k + 1))) with (Z.to_nat (0 + zlen k) + 1)%nat by lia.
    rewrite <- drop_drop, Hd. done.
  - rewrite Z.add_0_l, <- zlen_app. unfold k. by rewrite ztake_zdrop.
Qed.

Lemma OPENSSL_strlcpy_spec_witness :
  OPENSSL_strlcpy [7; 7; 7; 7] [104; 101; 108; 108; 111] 3 = ([104; 101; 0; 7], 5).
Proof.
  rewrite (OPENSSL_strlcpy_spec [7; 7; 7; 7] [104; 101; 108; 108; 111] 3).
  - reflexivity.
  - repeat constructor; lia.
  - vm_compute. split; discriminate.
Defined.

(** ** Case-insensitive comparison *)

Lemma tolower_zero c : OPENSSL_tolower c = 0 <-> c = 0.
Proof. unfold OPENSSL_tolower. case_match; lia. Qed.

Lemma casecmp_step_zero a b k :
  casecmp_step a b k = 0 <->
  OPENSSL_tolower a = OPENSSL_tolower b /\ (a = 0 \/ k = 0).
Proof.
  unfold casecmp_step. rewrite <- (tolower_zero a).
  destruct (Z.ltb_spec (OPENSSL_tolower a) (OPENSSL_tolower b)); [lia|].
  destruct (Z.ltb_spec (OPENSSL_tolower b) (OPENSSL_tolower a)); [lia|].
  destruct (Z.eqb_spec (OPENSSL_tolower a) 0); lia.
Qed.

Lemma strcasecmp_zero a b : no_nul a -> no_nul b ->
  OPENSSL_strcasecmp a b = 0 <-> map OPENSSL_tolower a = map OPENSSL_tolower b.
Proof.
  intros Ha. revert b. induction Ha as [|c a Hc Ha IH]; intros b Hb.
  - cbn [OPENSSL_strcasecmp]. rewrite casecmp_step_zero. destruct Hb as [|d b Hd Hb]; cbn [hd map]; [naive_solver|].
    change (OPENSSL_tolower 0) with 0.
    split; [|done]. intros [H _]. symmetry in H. apply (proj1 (tolower_zero _)) in H. by destruct Hd.
  - cbn [OPENSSL_strcasecmp]. rewrite casecmp_step_zero. destruct Hb as [|d b Hd Hb]; cbn [hd tl map].
    + change (OPENSSL_tolower 0) with 0. split; [|done]. intros [H _].
      apply (proj1 (tolower_zero _)) in H. by destruct Hc.
    + rewrite IH by done. split.
      * intros [H1 [H2|H2]]; [by destruct Hc|]. by rewrite H1, H2.
      * intros [= H1 H2]. auto.
Qed.
