(* ===== verification/PosixTime.v ===== *)
(** * Calendar time (crypto/asn1/posix_time.c)

    Conversion between POSIX seconds and the proleptic Gregorian calendar. The
    [int64_t] computations stay far from the bounds of the type for every input
    that passes the validity checks, so they are written on [Z] with C's
    truncating division; the two additions the code guards against overflow
    ([OPENSSL_gmtime_adj]) keep their guards. *)

From S2P Require Import Prelude.

Definition SECS_PER_HOUR : Z := 60 * 60.
Definition SECS_PER_DAY : Z := 24 * SECS_PER_HOUR.

(** The fields of [struct tm] the code uses. *)
Record tm := mk_tm {
  tm_year : Z; tm_mon : Z; tm_mday : Z; tm_hour : Z; tm_min : Z; tm_sec : Z
}.

#[global] Instance tm_eq_dec : EqDecision tm.
Proof. solve_decision. Defined.

Definition is_leap (year : Z) : bool :=
  ((cmod year 4 =? 0) && negb (cmod year 100 =? 0)) || (cmod year 400 =? 0).

Definition is_valid_date (year month day : Z) : bool :=
  if (day <? 1) || (month <? 1) || (year <? 0) || (year >? 9999) then false
  else if (month =? 1) || (month =? 3) || (month =? 5) || (month =? 7) || (month =? 8)
          || (month =? 10) || (month =? 12)
  then (day >? 0) && (day <=? 31)
  else if (month =? 4) || (month =? 6) || (month =? 9) || (month =? 11)
  then (day >? 0) && (day <=? 30)
  else if month =? 2 then
    if is_leap year then (day >? 0) && (day <=? 29) else (day >? 0) && (day <=? 28)
  else false.

Definition is_valid_time (hours minutes seconds : Z) : bool :=
  negb ((hours <? 0) || (minutes <? 0) || (seconds <? 0) || (hours >? 23)
        || (minutes >? 59) || (seconds >? 59)).

Definition MIN_POSIX_TIME : Z := -62167219200.
Definition MAX_POSIX_TIME : Z := 253402300799.

Definition is_valid_posix_time (time : Z) : bool :=
  (MIN_POSIX_TIME <=? time) && (time <=? MAX_POSIX_TIME).

Definition posix_time_from_utc (year month day hours minutes seconds : Z) : option Z :=
  if negb (is_valid_date year month day) || negb (is_valid_time hours minutes seconds) then None
  else
    let year := if month <=? 2 then year - 1 else year in
    let era := cdiv (if year >=? 0 then year else year - 399) 400 in
    let year_of_era := year - era * 400 in
    let day_of_year := cdiv (153 * (if month >? 2 then month - 3 else month + 9) + 2) 5 + day - 1 in
    let day_of_era :=
      year_of_era * 365 + cdiv year_of_era 4 - cdiv year_of_era 100 + day_of_year in
    let posix_days := era * 146097 + day_of_era - 719468 in
    Some (posix_days * SECS_PER_DAY + hours * SECS_PER_HOUR + minutes * 60 + seconds).

(** [(year, month, day, hours, minutes, seconds)]. *)
Definition utc : Type := Z * Z * Z * Z * Z * Z.

Definition utc_from_posix_time (time : Z) : option utc :=
  if negb (is_valid_posix_time time) then None
  else
    let days := cdiv time SECS_PER_DAY in
    let leftover_seconds := cmod time SECS_PER_DAY in
    let '(days, leftover_seconds) :=
      if leftover_seconds <? 0 then (days - 1, leftover_seconds + SECS_PER_DAY)
      else (days, leftover_seconds) in
    let days := days + 719468 in
    let era := cdiv (if days >? 0 then days else days - 146096) 146097 in
    let day_of_era := days - era * 146097 in
    let year_of_era :=
      cdiv (day_of_era - cdiv day_of_era 1460 + cdiv day_of_era 36524 - cdiv day_of_era 146096) 365 in
    let out_year := year_of_era + era * 400 in
    let day_of_year :=
      day_of_era - (365 * year_of_era + cdiv year_of_era 4 - cdiv year_of_era 100) in
    let month_of_year := cdiv (5 * day_of_year + 2) 153 in
    let out_month := if month_of_year <? 10 then month_of_year + 3 else month_of_year - 9 in
    let out_year := if out_month <=? 2 then out_year + 1 else out_year in
    let out_day := day_of_year - cdiv (153 * month_of_year + 2) 5 + 1 in
    let out_hours := cdiv leftover_seconds SECS_PER_HOUR in
    let leftover_seconds := cmod leftover_seconds SECS_PER_HOUR in
    let out_minutes := cdiv leftover_seconds 60 in
    let out_seconds := cmod leftover_seconds 60 in
    Some (out_year, out_month, out_day, out_hours, out_minutes, out_seconds).

Definition OPENSSL_tm_to_posix (t : tm) : option Z :=
  posix_time_from_utc (tm_year t + 1900) (tm_mon t + 1) (tm_mday t) (tm_hour t) (tm_min t) (tm_sec t).

Definition OPENSSL_posix_to_tm (time : Z) : option tm :=
  match utc_from_posix_time time with
  | None => None
  | Some (y, mo, d, h, mi, s) => Some (mk_tm (y - 1900) (mo - 1) d h mi s)
  end.

(** [time_t_bits] is [8 * sizeof(time_t)], 32 or 64. *)
Definition OPENSSL_timegm (time_t_bits : Z) (t : tm) : option Z :=
  match OPENSSL_tm_to_posix t with
  | None => None
  | Some posix_time =>
      if (time_t_bits =? 32) && ((posix_time >? INT_MAX) || (posix_time <? INT_MIN)) then None
      else Some posix_time
  end.

Definition OPENSSL_gmtime (time : Z) : option tm := OPENSSL_posix_to_tm time.

Definition OPENSSL_gmtime_adj (t : tm) (offset_day offset_sec : Z) : option tm :=
  match OPENSSL_tm_to_posix t with
  | None => None
  | Some posix_time =>
      let posix_time := posix_time + offset_day * SECS_PER_DAY in
      if (posix_time >? 0) && (offset_sec >? INT64_MAX - posix_time) then None
      else if (posix_time <? 0) && (offset_sec <? INT64_MIN - posix_time) then None
      else OPENSSL_posix_to_tm (posix_time + offset_sec)
  end.

(** The outputs are [(days, secs)]. *)
Definition OPENSSL_gmtime_diff (from to : tm) : option (Z * Z) :=
  match OPENSSL_tm_to_posix to, OPENSSL_tm_to_posix from with
  | Some time_to, Some time_from =>
      let timediff := time_to - time_from in
      let daydiff := cdiv timediff SECS_PER_DAY in
      let timediff := cmod timediff SECS_PER_DAY in
      Some (daydiff, timediff)
  | _, _ => None
  end.

(** ** Reference calendar

    The specification counts days month by month and year by year; it shares
    nothing with the era arithmetic of the code. *)

Definition days_in_year (y : Z) : Z := if is_leap y then 366 else 365.

Definition days_in_month (y m : Z) : Z :=
  if (m =? 4) || (m =? 6) || (m =? 9) || (m =? 11) then 30
  else if m =? 2 then (if is_leap y then 29 else 28)
  else 31.

(** The calendar day after [(y, m, d)]. *)
Definition next_day (y m d : Z) : Z * Z * Z :=
  if d <? days_in_month y m then (y, m, d + 1)
  else if m <? 12 then (y, m + 1, 1) else (y + 1, 1, 1).

Definition valid_tm (t : tm) : bool :=
  is_valid_date (tm_year t + 1900) (tm_mon t + 1) (tm_mday t) &&
  is_valid_time (tm_hour t) (tm_min t) (tm_sec t).

(** ** The conversion on years that start on March 1

    [days_of] and [civil_of] are the two directions with Euclidean division;
    [y] is the March-based year and [mp] the number of months since March. *)

Definition yoe_of_doe (doe : Z) : Z := (doe - doe / 1460 + doe / 36524 - doe / 146096) / 365.
Definition doe_of (yoe doy : Z) : Z := yoe * 365 + yoe / 4 - yoe / 100 + doy.
Definition doy_of (mp d : Z) : Z := (153 * mp + 2) / 5 + d - 1.

Definition days_of (y mp d : Z) : Z := y / 400 * 146097 + doe_of (y mod 400) (doy_of mp d).

Definition civil_of (n : Z) : Z * Z * Z :=
  let doe := n mod 146097 in
  let yoe := yoe_of_doe doe in
  let doy := doe - (365 * yoe + yoe / 4 - yoe / 100) in
  let mp := (5 * doy + 2) / 153 in
  (yoe + n / 146097 * 400, mp, doy - (153 * mp + 2) / 5 + 1).

(** Does the March-based year number [r] of an era end with a February 29? *)
Definition long_year (r : Z) : bool :=
  (((r + 1) mod 4 =? 0) && negb ((r + 1) mod 100 =? 0)) || ((r + 1) mod 400 =? 0).

Definition dim (r mp : Z) : Z :=
  if mp =? 11 then (if long_year r then 29 else 28)
  else if (mp =? 1) || (mp =? 3) || (mp =? 6) || (mp =? 8) then 30 else 31.

Definition valid_mp (y mp d : Z) : Prop := 0 <= mp < 12 /\ 1 <= d <= dim (y mod 400) mp.

(** The first day of year [r] of an era, and the number of days of that year. *)
Definition year_start (r : Z) : Z := r * 365 + r / 4 - r / 100.
Definition year_len (r : Z) : Z := if long_year r then 366 else 365.

(** Only the first and the last day of each year need evaluating: the quotient
    that recovers the year is monotone. *)
Lemma year_check :
  zall 0 400 (fun r =>
    (yoe_of_doe (year_start r) =? r) && (yoe_of_doe (year_start r + year_len r - 1) =? r) &&
    ((r =? 399) || (year_start (r + 1) =? year_start r + year_len r)) &&
    (year_start r + year_len r <=? 146097)) = true.
Proof. vm_compute. reflexivity. Qed.

Lemma yoe_of_doe_mono a b : 0 <= a <= b -> b < 146097 -> yoe_of_doe a <= yoe_of_doe b.
Proof.
  intros. unfold yoe_of_doe. apply Z.div_le_mono; [lia|].
  assert (a - a / 1460 - a / 146096 <= b - b / 1460 - b / 146096) by dlia.
  assert (a / 36524 <= b / 36524) by (apply Z.div_le_mono; lia). lia.
Qed.

Lemma year_of_day r doy : 0 <= r < 400 -> 0 <= doy < year_len r ->
  yoe_of_doe (year_start r + doy) = r /\ 0 <= year_start r + doy < 146097.
Proof.
  intros Hr Hdoy. pose proof (zall_spec _ _ _ year_check r ltac:(lia)) as H1.
  cbv beta in H1. rewrite !andb_true_iff, !Z.eqb_eq, Z.leb_le in H1. destruct_and! H1.
  assert (0 <= year_start r) by (unfold year_start; dlia).
  pose proof (yoe_of_doe_mono (year_start r) (year_start r + doy) ltac:(lia) ltac:(lia)).
  pose proof (yoe_of_doe_mono (year_start r + doy) (year_start r + year_len r - 1)
    ltac:(lia) ltac:(lia)).
  lia.
Qed.

Lemma day_in_year doe : 0 <= doe < 146097 ->
  exists r doy, 0 <= r < 400 /\ 0 <= doy < year_len r /\ doe = year_start r + doy.
Proof.
  intros Hdoe.
  assert (Hfind : forall n : nat, (n <= 399)%nat -> doe < year_start (Z.of_nat n) + year_len (Z.of_nat n) ->
    exists r doy, 0 <= r < 400 /\ 0 <= doy < year_len r /\ doe = year_start r + doy).
  { intros n. induction n as [|n IH]; intros Hn Hlt.
    - exists 0, doe. change (year_start (Z.of_nat 0)) with 0 in Hlt. split_and!; (done || lia).
    - destruct (Z.lt_ge_cases doe (year_start (Z.of_nat (S n)))) as [Hd|Hd].
      + apply IH; [lia|].
        pose proof (zall_spec _ _ _ year_check (Z.of_nat n) ltac:(lia)) as H1.
        cbv beta in H1. rewrite !andb_true_iff, orb_true_iff, !Z.eqb_eq in H1.
        rewrite Nat2Z.inj_succ in Hd. unfold Z.succ in Hd. lia.
      + exists (Z.of_nat (S n)), (doe - year_start (Z.of_nat (S n))). split_and!; lia. }
  apply (Hfind 399%nat); [lia|]. exact (proj2 Hdoe).
Qed.

Lemma doy_check :
  zall 0 12 (fun mp => zall 1 31 (fun d =>
    negb (d <=? (if mp =? 11 then 29 else dim 0 mp)) ||
    ((5 * doy_of mp d + 2) / 153 =? mp) && (0 <=? doy_of mp d) && (doy_of mp d <? 366) &&
    ((doy_of mp d <? 365) || (mp =? 11) && (d =? 29)))) = true.
Proof. vm_compute. reflexivity. Qed.

Lemma mp_check :
  zall 0 366 (fun doy =>
    let mp := (5 * doy + 2) / 153 in
    let d := doy - (153 * mp + 2) / 5 + 1 in
    (0 <=? mp) && (mp <? 12) && (1 <=? d) && (d <=? (if mp =? 11 then 29 else dim 0 mp)) &&
    ((doy =? 365) || negb ((mp =? 11) && (d =? 29)))) = true.
Proof. vm_compute. reflexivity. Qed.

Ltac bool_hyps :=
  repeat match goal with
  | H : _ && _ = true |- _ => apply andb_true_iff in H as [? ?]
  | H : negb _ = true |- _ => apply negb_true_iff in H
  end;
  repeat match goal with
  | H : (_ <=? _) = true |- _ => apply Z.leb_le in H
  | H : (_ <? _) = true |- _ => apply Z.ltb_lt in H
  | H : (_ =? _) = true |- _ => apply Z.eqb_eq in H
  end.

Lemma dim_other r mp : mp <> 11 -> dim r mp = dim 0 mp.
Proof. unfold dim. intros. by rewrite (proj2 (Z.eqb_neq mp 11)). Qed.

Lemma dim_le r mp : dim r mp <= (if mp =? 11 then 29 else dim 0 mp).
Proof.
  destruct (Z.eqb_spec mp 11) as [->|]; [|by rewrite dim_other].
  unfold dim. cbn. destruct (long_year r); lia.
Qed.

Lemma dim_bound r mp : 28 <= dim r mp <= 31.
Proof. unfold dim. repeat case_match; lia. Qed.

Lemma doy_facts r mp d : 0 <= mp < 12 -> 1 <= d <= dim r mp ->
  (5 * doy_of mp d + 2) / 153 = mp /\ 0 <= doy_of mp d < 366 /\
  (doy_of mp d <? 365) || long_year r = true.
Proof.
  intros Hmp Hd. pose proof (dim_le r mp) as Hle. pose proof (dim_bound r mp).
  pose proof (zall_spec _ _ _ (zall_spec _ _ _ doy_check mp ltac:(lia)) d ltac:(lia)) as H1.
  cbv beta in H1. apply orb_true_iff in H1 as [H1|H1]; bool_hyps.
  { apply Z.leb_gt in H1. lia. }
  split_and!; [done..|].
  destruct (Z.ltb_spec (doy_of mp d) 365); [done|cbn].
  match goal with H : _ || _ = true |- _ => apply orb_true_iff in H as [H|H] end; bool_hyps; [lia|].
  subst mp d. unfold dim in Hd. cbn in Hd. destruct (long_year r); [done|lia].
Qed.

Lemma civil_of_days_of y mp d : valid_mp y mp d -> civil_of (days_of y mp d) = (y, mp, d).
Proof.
  intros [Hmp Hd]. destruct (doy_facts _ _ _ Hmp Hd) as (Hm & Hdoy & Hlong).
  assert (Hr : 0 <= y mod 400 < 400) by (apply Z.mod_pos_bound; lia).
  assert (Hlen : doy_of mp d < year_len (y mod 400)).
  { unfold year_len. destruct (long_year _); [lia|]. rewrite orb_false_r in Hlong.
    by apply Z.ltb_lt in Hlong. }
  destruct (year_of_day (y mod 400) (doy_of mp d) Hr ltac:(lia)) as [Hy Hb].
  assert (Hdoe : doe_of (y mod 400) (doy_of mp d) = year_start (y mod 400) + doy_of mp d) by done.
  unfold civil_of.
  replace (days_of y mp d mod 146097) with (year_start (y mod 400) + doy_of mp d)
    by (unfold days_of; rewrite Hdoe; clear Hdoe Hy; dlia).
  replace (days_of y mp d / 146097) with (y / 400) by (unfold days_of; rewrite Hdoe; clear Hdoe Hy; dlia).
  rewrite Hy. replace (year_start (y mod 400) + doy_of mp d - _) with (doy_of mp d)
    by (unfold year_start; lia).
  rewrite Hm. f_equal; [f_equal|].
  - dlia.
  - unfold doy_of. lia.
Qed.

Lemma days_of_civil_of n y mp d :
  civil_of n = (y, mp, d) -> days_of y mp d = n /\ valid_mp y mp d.
Proof.
  destruct (day_in_year (n mod 146097) (Z.mod_pos_bound n 146097 ltac:(lia)))
    as (r & doy & Hr & Hdoy & Hdoe).
  unfold civil_of. rewrite Hdoe, (proj1 (year_of_day r doy Hr Hdoy)).
  replace (year_start r + doy - _) with doy by (unfold year_start; lia).
  intros [= Hy Hmp Hd].
  assert (Hlong : doy < 366 /\ (doy = 365 -> long_year r = true)).
  { unfold year_len in Hdoy. destruct (long_year r); split; (done || lia). }
  pose proof (zall_spec _ _ _ mp_check doy ltac:(lia)) as H5. cbv beta zeta in H5.
  rewrite Hmp in H5, Hd. rewrite Hd in H5. bool_hyps.
  assert (Hym : y mod 400 = r) by (subst y; rewrite Z.mod_add, Z.mod_small by lia; done).
  assert (Hq : y / 400 = n / 146097) by (subst y; rewrite Z.div_add, (Z.div_small r) by lia; lia).
  split.
  - unfold days_of. rewrite Hym, Hq.
    replace (doe_of r (doy_of mp d)) with (n mod 146097)
      by (rewrite Hdoe; unfold doe_of, doy_of, year_start; lia).
    clear. dlia.
  - split; [lia|]. split; [lia|]. rewrite Hym.
    destruct (Z.eqb_spec mp 11) as [->|]; [|by rewrite dim_other].
    unfold dim. cbn.
    destruct (long_year r); [lia|].
    destruct (Z.eqb_spec doy 365) as [->|]; [naive_solver|].
    match goal with H : _ || _ = true |- _ => cbn in H; apply negb_true_iff, Z.eqb_neq in H; lia end.
Qed.

(** ** The code in terms of the March-based calendar *)

Definition march_year (y m : Z) : Z := if m <=? 2 then y - 1 else y.
Definition march_month (m : Z) : Z := if m >? 2 then m - 3 else m + 9.

(** Days since 1970-01-01. *)
Definition days_from_civil (y m d : Z) : Z :=
  days_of (march_year y m) (march_month m) d - 719468.

Lemma is_leap_mod y : 0 <= y ->
  is_leap y = ((y mod 4 =? 0) && negb (y mod 100 =? 0)) || (y mod 400 =? 0).
Proof. intros. unfold is_leap. rewrite !Z.rem_mod_nonneg by lia. done. Qed.

Lemma long_year_leap y : 0 <= y -> long_year ((y - 1) mod 400) = is_leap y.
Proof.
  intros Hy. rewrite is_leap_mod by done. unfold long_year.
  replace (((y - 1) mod 400 + 1) mod 4) with (y mod 4) by dlia.
  replace (((y - 1) mod 400 + 1) mod 100) with (y mod 100) by dlia.
  replace (((y - 1) mod 400 + 1) mod 400) with (y mod 400) by dlia. done.
Qed.

Lemma days_in_month_bound y m : 28 <= days_in_month y m <= 31.
Proof. unfold days_in_month. repeat case_match; lia. Qed.

Lemma is_valid_date_spec y m d :
  is_valid_date y m d = true <->
  0 <= y <= 9999 /\ 1 <= m <= 12 /\ 1 <= d <= days_in_month y m.
Proof.
  unfold is_valid_date, days_in_month. rewrite !Z.gtb_ltb.
  repeat (case_match; rewrite ?orb_true_iff, ?orb_false_iff, ?andb_true_iff, ?Z.ltb_lt, ?Z.ltb_ge,
    ?Z.eqb_eq, ?Z.eqb_neq, ?Z.leb_le, ?Z.leb_gt in * ); lia.
Qed.

Lemma is_valid_time_spec h mi s :
  is_valid_time h mi s = true <-> 0 <= h <= 23 /\ 0 <= mi <= 59 /\ 0 <= s <= 59.
Proof.
  unfold is_valid_time. rewrite negb_true_iff, !orb_false_iff, !Z.gtb_ltb, !Z.ltb_ge. lia.
Qed.

Lemma valid_mp_march y m d : 0 <= y -> 1 <= m <= 12 ->
  valid_mp (march_year y m) (march_month m) d <-> 1 <= d <= days_in_month y m.
Proof.
  intros Hy Hm. unfold valid_mp.
  assert (Hmp : 0 <= march_month m < 12) by (unfold march_month; case_match; lia).
  assert (E : dim (march_year y m mod 400) (march_month m) = days_in_month y m).
  { unfold dim, march_year, march_month, days_in_month.
    destruct (Z.eqb_spec m 2) as [->|].
    - cbn. by rewrite long_year_leap.
    - rewrite Z.gtb_ltb. destruct (Z.ltb_spec 2 m).
      + replace (m - 3 =? 11) with false by lia.
        repeat case_match; rewrite ?orb_true_iff, ?orb_false_iff, ?Z.eqb_eq, ?Z.eqb_neq in *; lia.
      + replace m with 1 by lia. done. }
  rewrite E. naive_solver.
Qed.

Lemma posix_time_from_utc_eq y m d h mi s :
  is_valid_date y m d = true -> is_valid_time h mi s = true ->
  posix_time_from_utc y m d h mi s =
    Some (days_from_civil y m d * 86400 + h * 3600 + mi * 60 + s).
Proof.
  intros Hd Ht. unfold posix_time_from_utc. rewrite Hd, Ht. cbn [negb orb].
  apply is_valid_date_spec in Hd. destruct Hd as (Hy & Hm & Hd).
  f_equal. unfold days_from_civil, days_of, doe_of, doy_of, SECS_PER_DAY, SECS_PER_HOUR.
  fold (march_year y m). fold (march_month m).
  assert (Hmy : -1 <= march_year y m) by (unfold march_year; case_match; lia).
  assert (Hmm : 0 <= march_month m) by (unfold march_month; case_match; lia).
  generalize dependent (march_year y m). generalize dependent (march_month m).
  intros mm Hmm my Hmy. rewrite Z.geb_leb.
  assert (Hera : cdiv (if 0 <=? my then my else my - 399) 400 = my / 400) by (case_match; dlia).
  rewrite Hera. replace (my - my / 400 * 400) with (my mod 400) by dlia.
  assert (0 <= my mod 400) by (apply Z.mod_pos_bound; lia).
  rewrite !Z.quot_div_nonneg by lia. lia.
Qed.

Lemma yoe_num_nonneg e : 0 <= e -> 0 <= e - e / 1460 + e / 36524 - e / 146096.
Proof. intros. dlia. Qed.

Lemma utc_from_posix_time_eq n :
  is_valid_posix_time n = true ->
  exists y m d,
    utc_from_posix_time n =
      Some (y, m, d, n mod 86400 / 3600, n mod 86400 mod 3600 / 60, n mod 86400 mod 3600 mod 60) /\
    1 <= m <= 12 /\ civil_of (n / 86400 + 719468) = (march_year y m, march_month m, d).
Proof.
  intros Hn. unfold utc_from_posix_time. rewrite Hn. cbn [negb].
  unfold is_valid_posix_time in Hn. bool_hyps.
  unfold MIN_POSIX_TIME, MAX_POSIX_TIME in *.
  assert (E : (if cmod n SECS_PER_DAY <? 0 then (cdiv n SECS_PER_DAY - 1, cmod n SECS_PER_DAY + SECS_PER_DAY)
               else (cdiv n SECS_PER_DAY, cmod n SECS_PER_DAY)) = (n / 86400, n mod 86400)).
  { change SECS_PER_DAY with 86400. destruct (Z.ltb_spec (cmod n 86400) 0); f_equal; dlia. }
  rewrite E. clear E. cbv beta iota zeta.
  set (N := n / 86400 + 719468).
  assert (HN : -61 <= N) by (unfold N; dlia).
  assert (Hera : cdiv (if N >? 0 then N else N - 146096) 146097 = N / 146097).
  { rewrite Z.gtb_ltb. case_match; dlia. }
  rewrite Hera. replace (N - N / 146097 * 146097) with (N mod 146097) by dlia.
  destruct (civil_of N) as [[y mp] d] eqn:Hc.
  destruct (days_of_civil_of _ _ _ _ Hc) as [_ [Hmp _]].
  unfold civil_of in Hc.
  pose proof (Z.mod_pos_bound N 146097 ltac:(lia)) as Hdoe.
  destruct (day_in_year _ Hdoe) as (r & doy & Hr & Hdoy & Heq).
  pose proof (proj1 (year_of_day r doy Hr Hdoy)) as Hyoe. rewrite <- Heq in Hyoe.
  assert (Hq : cdiv (N mod 146097 - cdiv (N mod 146097) 1460 + cdiv (N mod 146097) 36524
                     - cdiv (N mod 146097) 146096) 365 = r).
  { rewrite !(Z.quot_div_nonneg (N mod 146097)) by lia.
    rewrite Z.quot_div_nonneg; [done|apply yoe_num_nonneg; lia|lia]. }
  rewrite Hq. rewrite Hyoe in Hc. rewrite !(Z.quot_div_nonneg r) by lia.
  replace (N mod 146097 - (365 * r + r / 4 - r / 100)) with doy in * by (rewrite Heq; unfold year_start; lia).
  assert (0 <= doy) by lia.
  rewrite !(Z.quot_div_nonneg (5 * doy + 2)) by lia.
  injection Hc as Hy Hmp' Hd. rewrite Hmp'.
  rewrite !(Z.quot_div_nonneg (153 * mp + 2)) by lia.
  pose proof (Z.mod_pos_bound n 86400 ltac:(lia)).
  change SECS_PER_HOUR with 3600.
  rewrite (Z.rem_mod_nonneg (n mod 86400)), (Z.quot_div_nonneg (n mod 86400)) by lia.
  pose proof (Z.mod_pos_bound (n mod 86400) 3600 ltac:(lia)).
  rewrite (Z.rem_mod_nonneg (n mod 86400 mod 3600)), (Z.quot_div_nonneg (n mod 86400 mod 3600)) by lia.
  rewrite Hmp' in Hd. rewrite Hd, Hy.
  do 3 eexists. split; [reflexivity|].
  destruct (Z.ltb_spec mp 10).
  - replace (mp + 3 <=? 2) with false by lia. split; [lia|].
    unfold march_year, march_month. replace (mp + 3 <=? 2) with false by lia.
    replace (mp + 3 >? 2) with true by lia. f_equal; f_equal; lia.
  - replace (mp - 9 <=? 2) with true by lia. split; [lia|].
    unfold march_year, march_month. replace (mp - 9 <=? 2) with true by lia.
    replace (mp - 9 >? 2) with false by lia. f_equal; f_equal; lia.
Qed.

(** The valid dates are exactly the days of the valid POSIX range. *)
Lemma march_range y m d : 1 <= m <= 12 -> valid_mp (march_year y m) (march_month m) d ->
  0 <= y <= 9999 <-> -719528 <= days_from_civil y m d <= 2932896.
Proof.
  intros Hm Hv. unfold days_from_civil, days_of, doe_of.
  assert (Hdoy : 0 <= doy_of (march_month m) d < 366 /\
                 (m <= 2 -> 306 <= doy_of (march_month m) d) /\
                 (2 < m -> doy_of (march_month m) d < 306)).
  { destruct Hv as [Hmp Hd]. split; [by apply (doy_facts (march_year y m mod 400))|].
    pose proof (dim_bound (march_year y m mod 400) (march_month m)).
    unfold doy_of, march_month in *. rewrite Z.gtb_ltb in *.
    destruct (Z.ltb_spec 2 m); [|split; dlia].
    split; [lia|]. intros _. destruct (decide (m = 12)) as [->|]; [|dlia].
    change (dim _ (12 - 3)) with 31 in *. dlia. }
  clear Hv. generalize dependent (doy_of (march_month m) d). intros doy Hdoy.
  unfold march_year. destruct (Z.leb_spec m 2).
  - split; intros; dlia.
  - split; intros; dlia.
Qed.

Lemma tm_to_posix_spec t :
  OPENSSL_tm_to_posix t =
    if valid_tm t
    then Some (days_from_civil (tm_year t + 1900) (tm_mon t + 1) (tm_mday t) * 86400
               + tm_hour t * 3600 + tm_min t * 60 + tm_sec t)
    else None.
Proof.
  unfold OPENSSL_tm_to_posix, valid_tm.
  destruct (is_valid_date _ _ _) eqn:Hd, (is_valid_time _ _ _) eqn:Ht; cbn [andb].
  - by apply posix_time_from_utc_eq.
  - unfold posix_time_from_utc. by rewrite Ht, orb_true_r.
  - unfold posix_time_from_utc. by rewrite Hd.
  - unfold posix_time_from_utc. by rewrite Hd.
Qed.

Lemma tm_to_posix_inv t p :
  OPENSSL_tm_to_posix t = Some p -> is_valid_posix_time p = true /\ OPENSSL_posix_to_tm p = Some t.
Proof.
  rewrite tm_to_posix_spec. destruct (valid_tm t) eqn:Hv; [|done]. intros [= Hp].
  unfold valid_tm in Hv. apply andb_true_iff in Hv as [Hd Ht].
  apply is_valid_date_spec in Hd. apply is_valid_time_spec in Ht.
  destruct t as [y0 m0 d h mi s]. cbn [tm_year tm_mon tm_mday tm_hour tm_min tm_sec] in *.
  set (y := y0 + 1900) in *. set (m := m0 + 1) in *. destruct Hd as (Hy & Hm & Hd).
  assert (Hvm : valid_mp (march_year y m) (march_month m) d) by (apply valid_mp_march; lia).
  pose proof (proj1 (march_range y m d Hm Hvm) Hy) as HD.
  set (D := days_from_civil y m d) in *.
  assert (Hval : is_valid_posix_time p = true).
  { unfold is_valid_posix_time, MIN_POSIX_TIME, MAX_POSIX_TIME. lia. }
  split; [done|]. unfold OPENSSL_posix_to_tm.
  destruct (utc_from_posix_time_eq p Hval) as (y' & m' & d' & -> & Hm' & Hc).
  replace (p / 86400) with D in Hc by dlia.
  unfold D, days_from_civil in Hc. rewrite Z.sub_add, civil_of_days_of in Hc by done.
  injection Hc as Hy1 Hm1 <-.
  assert (m' = m) as ->.
  { unfold march_month in Hm1. rewrite !Z.gtb_ltb in Hm1.
    destruct (Z.ltb_spec 2 m), (Z.ltb_spec 2 m'); lia. }
  assert (y' = y) as -> by (unfold march_year in Hy1; case_match; lia).
  f_equal. unfold y, m. f_equal; dlia.
Qed.

Lemma posix_to_tm_inv p t :
  OPENSSL_posix_to_tm p = Some t -> OPENSSL_tm_to_posix t = Some p.
Proof.
  unfold OPENSSL_posix_to_tm. destruct (is_valid_posix_time p) eqn:Hval.
  2: { unfold utc_from_posix_time. by rewrite Hval. }
  destruct (utc_from_posix_time_eq p Hval) as (y & m & d & -> & Hm & Hc).
  intros [= <-]. apply days_of_civil_of in Hc as [Hn Hv].
  assert (HD : days_from_civil y m d = p / 86400) by (unfold days_from_civil; lia).
  assert (Hy : 0 <= y <= 9999).
  { apply (march_range y m d Hm Hv). rewrite HD.
    unfold is_valid_posix_time, MIN_POSIX_TIME, MAX_POSIX_TIME in Hval. bool_hyps. dlia. }
  rewrite tm_to_posix_spec. unfold valid_tm. cbn [tm_year tm_mon tm_mday tm_hour tm_min tm_sec].
  rewrite !Z.sub_add, HD.
  rewrite (proj2 (is_valid_date_spec y m d)), (proj2 (is_valid_time_spec _ _ _)).
  - cbn [andb]. f_equal. dlia.
  - split_and!; dlia.
  - apply valid_mp_march in Hv; [|lia..]. split_and!; lia.
Qed.

(** C37. [OPENSSL_tm_to_posix] and [OPENSSL_posix_to_tm] are inverse bijections
    between the valid calendar times of years 0 to 9999 and the POSIX seconds of
    that range: one succeeds with a result exactly when the other maps that
    result back, for every [struct tm] and every 64-bit time. *)
Theorem posix_tm_bijection t p :
  OPENSSL_tm_to_posix t = Some p <-> OPENSSL_posix_to_tm p = Some t.
Proof.
  split.
  - intros H. by apply tm_to_posix_inv in H as [_ H].
  - apply posix_to_tm_inv.
Qed.

Lemma is_Some_tm_to_posix t : is_Some (OPENSSL_tm_to_posix t) <-> valid_tm t = true.
Proof. rewrite tm_to_posix_spec. destruct (valid_tm t); split; (done || by intros [? [=]] || eauto). Qed.

Lemma is_Some_posix_to_tm p : is_Some (OPENSSL_posix_to_tm p) <-> is_valid_posix_time p = true.
Proof.
  unfold OPENSSL_posix_to_tm. destruct (is_valid_posix_time p) eqn:Hval; split; try done.
  - intros _. destruct (utc_from_posix_time_eq p Hval) as (y & m & d & -> & _). eauto.
  - unfold utc_from_posix_time. rewrite Hval. cbn. by intros [? [=]].
Qed.

Lemma tm_to_posix_date y m d h mi s :
  1 <= m <= 12 -> 1 <= d <= days_in_month y m -> 0 <= y <= 9999 ->
  0 <= h <= 23 -> 0 <= mi <= 59 -> 0 <= s <= 59 ->
  OPENSSL_tm_to_posix (mk_tm (y - 1900) (m - 1) d h mi s) =
    Some (days_from_civil y m d * 86400 + h * 3600 + mi * 60 + s).
Proof.
  intros. rewrite tm_to_posix_spec. unfold valid_tm.
  cbn [tm_year tm_mon tm_mday tm_hour tm_min tm_sec]. rewrite !Z.sub_add.
  by rewrite (proj2 (is_valid_date_spec y m d)), (proj2 (is_valid_time_spec h mi s)) by lia.
Qed.

Lemma year_rollover r : 0 <= r < 400 ->
  year_start r + year_len r = (if r =? 399 then 146097 else year_start (r + 1)).
Proof.
  intros Hr. pose proof (zall_spec _ _ _ year_check r ltac:(lia)) as H1.
  cbv beta in H1. rewrite !andb_true_iff, orb_true_iff, !Z.eqb_eq, Z.leb_le in H1. destruct_and! H1.
  destruct (Z.eqb_spec r 399) as [->|]; [done|lia].
Qed.

Lemma days_of_succ_year y :
  days_of (y + 1) 0 1 = days_of y 11 (dim (y mod 400) 11) + 1.
Proof.
  unfold days_of.
  pose proof (Z.mod_pos_bound y 400 ltac:(lia)) as Hr.
  pose proof (year_rollover _ Hr) as Hroll.
  assert (Hlen : doe_of (y mod 400) (doy_of 11 (dim (y mod 400) 11)) + 1
                 = year_start (y mod 400) + year_len (y mod 400)).
  { unfold doe_of, doy_of, year_start, year_len, dim. cbn -[Z.div Z.modulo].
    destruct (long_year _); dlia. }
  assert (H0 : forall r, doe_of r (doy_of 0 1) = year_start r).
  { intros r. unfold doe_of, year_start. change (doy_of 0 1) with 0. lia. }
  rewrite H0. destruct (Z.eqb_spec (y mod 400) 399) as [He|He].
  - replace ((y + 1) mod 400) with 0 by dlia. replace ((y + 1) / 400) with (y / 400 + 1) by dlia.
    change (year_start 0) with 0. lia.
  - replace ((y + 1) mod 400) with (y mod 400 + 1) by dlia. replace ((y + 1) / 400) with (y / 400) by dlia.
    lia.
Qed.

Lemma month_rollover r mp : 0 <= mp < 11 -> doy_of (mp + 1) 1 = doy_of mp (dim r mp) + 1.
Proof.
  intros. rewrite dim_other by lia.
  assert (zall 0 11 (fun mp => doy_of (mp + 1) 1 =? doy_of mp (dim 0 mp) + 1) = true) as Hc by done.
  apply Z.eqb_eq. apply (zall_spec _ _ _ Hc). lia.
Qed.

Lemma days_from_civil_next y m d y' m' d' :
  0 <= y -> 1 <= m <= 12 -> 1 <= d <= days_in_month y m ->
  next_day y m d = (y', m', d') -> days_from_civil y' m' d' = days_from_civil y m d + 1.
Proof.
  intros Hy Hm Hd. unfold next_day, days_from_civil.
  destruct (Z.ltb_spec d (days_in_month y m)) as [|Hlast].
  { intros [= <- <- <-]. unfold days_of, doe_of, doy_of. lia. }
  assert (Hdd : d = days_in_month y m) by lia.
  assert (Hv : valid_mp (march_year y m) (march_month m) d) by (apply valid_mp_march; lia).
  assert (Hdim : d = dim (march_year y m mod 400) (march_month m)).
  { destruct Hv as [Hmp Hdv].
    destruct (Z.lt_ge_cases d (dim (march_year y m mod 400) (march_month m))) as [Hlt|]; [|lia].
    assert (Hv' : valid_mp (march_year y m) (march_month m) (d + 1)) by (split; lia).
    apply valid_mp_march in Hv'; lia. }
  clear Hv Hdd. subst d.
  destruct (Z.ltb_spec m 12); intros [= <- <- <-].
  - destruct (decide (m = 2)) as [->|Hm2].
    + change (march_year y 2) with (y - 1). change (march_month 2) with 11.
      change (march_year y (2 + 1)) with y. change (march_month (2 + 1)) with 0.
      rewrite <- (Z.sub_add 1 y) at 1. rewrite days_of_succ_year. lia.
    + assert (Hmy : march_year y (m + 1) = march_year y m) by (unfold march_year; repeat case_match; lia).
      assert (Hmm : march_month (m + 1) = march_month m + 1 /\ 0 <= march_month m < 11)
        by (unfold march_month; rewrite !Z.gtb_ltb; repeat case_match; lia).
      destruct Hmm as [-> Hmm]. rewrite Hmy. unfold days_of, doe_of.
      rewrite (month_rollover (march_year y m mod 400)) by done. lia.
  - replace m with 12 by lia.
    change (march_year (y + 1) 1) with (y + 1 - 1). rewrite Z.add_simpl_r.
    change (march_year y 12) with y. change (march_month 12) with 9. change (march_month 1) with (9 + 1).
    unfold days_of, doe_of. rewrite (month_rollover (y mod 400)) by lia. lia.
Qed.

(** [OPENSSL_tm_to_posix] counts POSIX seconds on the Gregorian calendar: it
    maps 1970-01-01 00:00:00 to 0, moves by 86400 from each calendar day to the
    next one of the reference calendar (month lengths and leap years), and adds
    the time of day. Together these fix its value on every valid date. *)
Theorem tm_to_posix_reference y m d h mi s y' m' d' :
  is_valid_date y m d = true -> is_valid_time h mi s = true ->
  next_day y m d = (y', m', d') -> is_valid_date y' m' d' = true ->
  OPENSSL_tm_to_posix (mk_tm 70 0 1 0 0 0) = Some 0 /\
  exists day,
    OPENSSL_tm_to_posix (mk_tm (y - 1900) (m - 1) d 0 0 0) = Some day /\
    OPENSSL_tm_to_posix (mk_tm (y - 1900) (m - 1) d h mi s) = Some (day + 3600 * h + 60 * mi + s) /\
    OPENSSL_tm_to_posix (mk_tm (y' - 1900) (m' - 1) d' 0 0 0) = Some (day + 86400).
Proof.
  intros Hd Ht Hnext Hd'. split; [reflexivity|].
  apply is_valid_date_spec in Hd as (Hy & Hm & Hd). apply is_valid_date_spec in Hd' as (Hy' & Hm' & Hd').
  apply is_valid_time_spec in Ht.
  exists (days_from_civil y m d * 86400).
  rewrite !tm_to_posix_date by lia.
  rewrite (days_from_civil_next y m d y' m' d') by (lia || done).
  split_and!; f_equal; lia.
Qed.

Lemma tm_to_posix_reference_witness :
  OPENSSL_tm_to_posix (mk_tm 70 0 1 0 0 0) = Some 0 /\
  exists day,
    OPENSSL_tm_to_posix (mk_tm (2024 - 1900) (2 - 1) 29 0 0 0) = Some day /\
    OPENSSL_tm_to_posix (mk_tm (2024 - 1900) (2 - 1) 29 1 2 3) = Some (day + 3600 * 1 + 60 * 2 + 3) /\
    OPENSSL_tm_to_posix (mk_tm (2024 - 1900) (3 - 1) 1 0 0 0) = Some (day + 86400).
Proof.
  exact (tm_to_posix_reference 2024 2 29 1 2 3 2024 3 1 eq_refl eq_refl eq_refl eq_refl).
Defined.

(** Shifting a time in terms of its POSIX value. *)
Lemma gmtime_adj_Some t offset_day offset_sec t' :
  INT_MIN <= offset_day <= INT_MAX -> INT64_MIN <= offset_sec <= INT64_MAX ->
  OPENSSL_gmtime_adj t offset_day offset_sec = Some t' <->
  exists p, OPENSSL_tm_to_posix t = Some p /\
    INT64_MIN <= p + offset_day * SECS_PER_DAY <= INT64_MAX /\
    INT64_MIN <= p + offset_day * SECS_PER_DAY + offset_sec <= INT64_MAX /\
    OPENSSL_tm_to_posix t' = Some (p + offset_day * SECS_PER_DAY + offset_sec).
Proof.
  intros Hday Hsec. unfold OPENSSL_gmtime_adj.
  destruct (OPENSSL_tm_to_posix t) as [p|] eqn:Hp; [|naive_solver].
  pose proof (proj1 (tm_to_posix_inv _ _ Hp)) as Hval.
  unfold is_valid_posix_time, MIN_POSIX_TIME, MAX_POSIX_TIME in Hval. bool_hyps.
  unfold INT_MIN, INT_MAX, INT64_MIN, INT64_MAX in *. change SECS_PER_DAY with 86400.
  set (q := p + offset_day * 86400).
  assert (Hq : -9223372036854775808 <= q <= 9223372036854775807) by lia.
  assert (Hres : forall x, OPENSSL_posix_to_tm (q + offset_sec) = Some x ->
    -9223372036854775808 <= q + offset_sec <= 9223372036854775807).
  { intros x Hx. pose proof (mk_is_Some _ _ Hx) as Hs. apply is_Some_posix_to_tm in Hs.
    unfold is_valid_posix_time, MIN_POSIX_TIME, MAX_POSIX_TIME in Hs. bool_hyps. lia. }
  rewrite !Z.gtb_ltb. split.
  - intros Hadj. assert (Ht' : OPENSSL_posix_to_tm (q + offset_sec) = Some t').
    { repeat case_match; done. }
    pose proof (Hres _ Ht').
    exists p. fold q. split_and!; [done|lia..|by apply posix_to_tm_inv].
  - intros (p' & [= <-] & _ & Hs & Ht'). fold q in Hs, Ht'.
    apply tm_to_posix_inv in Ht' as [_ Ht'].
    destruct (Z.ltb_spec 0 q), (Z.ltb_spec (9223372036854775807 - q) offset_sec); cbn [andb]; try lia;
    destruct (Z.ltb_spec q 0), (Z.ltb_spec offset_sec (-9223372036854775808 - q)); cbn [andb]; (done || lia).
Qed.

(** [OPENSSL_gmtime_adj] moves a time by exactly [offset_day] days and
    [offset_sec] seconds and fails exactly when the time is invalid or the
    result leaves years 0 to 9999; its overflow guards lose no representable
    result, and the additions it performs stay inside [int64_t]. *)
Theorem OPENSSL_gmtime_adj_spec t offset_day offset_sec t' :
  INT_MIN <= offset_day <= INT_MAX -> INT64_MIN <= offset_sec <= INT64_MAX ->
  OPENSSL_gmtime_adj t offset_day offset_sec = Some t' <->
  exists p, OPENSSL_tm_to_posix t = Some p /\
    INT64_MIN <= p + offset_day * SECS_PER_DAY <= INT64_MAX /\
    INT64_MIN <= p + offset_day * SECS_PER_DAY + offset_sec <= INT64_MAX /\
    OPENSSL_tm_to_posix t' = Some (p + offset_day * SECS_PER_DAY + offset_sec).
Proof. apply gmtime_adj_Some. Qed.

Lemma OPENSSL_gmtime_adj_spec_witness :
  OPENSSL_gmtime_adj (mk_tm 99 11 31 23 59 59) 0 1 = Some (mk_tm 100 0 1 0 0 0).
Proof.
  apply (OPENSSL_gmtime_adj_spec (mk_tm 99 11 31 23 59 59) 0 1 (mk_tm 100 0 1 0 0 0)).
  - unfold INT_MIN, INT_MAX. lia.
  - unfold INT64_MIN, INT64_MAX. lia.
  - exists 946684799. vm_compute. repeat split; intros; discriminate.
Defined.

(** [OPENSSL_gmtime_diff] splits the distance between two valid times into
    days and seconds of the same sign, with less than one day of seconds; the
    values fit in [int]. *)
Theorem OPENSSL_gmtime_diff_spec from to days secs :
  OPENSSL_gmtime_diff from to = Some (days, secs) <->
  exists f t, OPENSSL_tm_to_posix from = Some f /\ OPENSSL_tm_to_posix to = Some t /\
    days * SECS_PER_DAY + secs = t - f /\ Z.abs secs < SECS_PER_DAY /\
    (f <= t -> 0 <= days /\ 0 <= secs) /\ (t <= f -> days <= 0 /\ secs <= 0) /\
    INT_MIN <= days <= INT_MAX.
Proof.
  unfold OPENSSL_gmtime_diff. change SECS_PER_DAY with 86400.
  destruct (OPENSSL_tm_to_posix to) as [t|] eqn:Ht; [|naive_solver].
  destruct (OPENSSL_tm_to_posix from) as [f|] eqn:Hf; [|naive_solver].
  pose proof (proj1 (tm_to_posix_inv _ _ Ht)) as Hvt. pose proof (proj1 (tm_to_posix_inv _ _ Hf)) as Hvf.
  unfold is_valid_posix_time, MIN_POSIX_TIME, MAX_POSIX_TIME, INT_MIN, INT_MAX in *. bool_hyps.
  split.
  - intros [= <- <-]. exists f, t. split_and!; (done || dlia).
  - intros (f' & t' & [= <-] & [= <-] & Heq & Habs & Hp & Hn & _). f_equal.
    assert (cdiv (t - f) 86400 = days) by dlia. f_equal; [done|dlia].
Qed.
