(* ===== verification/Der.v ===== *)
(** * DER, the abstract wire format

    The encoding rules that the parser (cbs.c) and the builder (cbb.c) must
    agree on, written as functions from values to octets, with no reference to
    how either of them computes. X.690 sections 8.1.2 (identifier octets), 8.1.3
    and 10.1 (minimal length octets), 8.3 (integers) and 8.19 (base-128 digits). *)

From S2P Require Import Prelude.

(** The high digits of a base-128 number, each with its continuation bit. *)
Fixpoint b128_hi (n : nat) (w : Z) : list Z :=
  match n with
  | O => []
  | S n => if w =? 0 then [] else b128_hi n (w / 128) ++ [128 + w mod 128]
  end.

(** Nine high digits and the last one carry 64 bits (and 70 in all). *)
Definition base128_octets (v : Z) : list Z := b128_hi 9 (v / 128) ++ [v mod 128].

Definition tag_octets (tag : Z) : list Z :=
  let bits := tag / 2 ^ 29 * 32 in
  let number := tag mod 2 ^ 29 in
  if number <? 31 then [bits + number] else (bits + 31) :: base128_octets number.

(** All 32-bit tags but [UNIVERSAL 0], primitive or constructed. *)
Definition valid_tag (tag : Z) : Prop := 0 <= tag < 2 ^ 32 /\ tag <> 0 /\ tag <> 2 ^ 29.

Definition len_size (len : Z) : nat :=
  if len <=? 0xff then 1 else if len <=? 0xffff then 2 else if len <=? 0xffffff then 3 else 4.

Definition length_octets (len : Z) : list Z :=
  if len <? 128 then [len] else (128 + Z.of_nat (len_size len)) :: be_bytes (len_size len) len.

Definition der_header (tag len : Z) : list Z := tag_octets tag ++ length_octets len.

Definition der_element (tag : Z) (contents : list Z) : list Z :=
  der_header tag (zlen contents) ++ contents.

(** The least number of octets of a two's complement integer, up to 9. *)
Fixpoint int_size_from (fuel : nat) (n : nat) (v : Z) : nat :=
  match fuel with
  | O => n
  | S fuel =>
      if (- 2 ^ (8 * Z.of_nat n - 1) <=? v) && (v <? 2 ^ (8 * Z.of_nat n - 1)) then n
      else int_size_from fuel (S n) v
  end.
Definition int_size (v : Z) : nat := int_size_from 8 1 v.
Definition int_octets (v : Z) : list Z := be_bytes (int_size v) v.

(** The value of a string of octets as a two's complement integer. *)
Definition int_value (l : list Z) : Z :=
  be_value l - (if (128 <=? hd 0 l) then 256 ^ zlen l else 0).

(** The only octets whose first nine bits are not all equal are minimal. *)
Definition minimal_int (l : list Z) : bool :=
  match l with
  | [] => false
  | [_] => true
  | a :: b :: _ => negb ((a =? 0) && (b <? 128)) && negb ((a =? 255) && (128 <=? b))
  end.

(** ** Base 128 *)

Lemma b128_hi_0 n : b128_hi n 0 = [].
Proof. destruct n; done. Qed.

Lemma b128_hi_S n w : b128_hi (S n) w = if w =? 0 then [] else b128_hi n (w / 128) ++ [128 + w mod 128].
Proof. done. Qed.

Lemma b128_hi_fuel n m w : 0 <= w < 128 ^ Z.of_nat n -> (n <= m)%nat -> b128_hi m w = b128_hi n w.
Proof.
  revert m w. induction n as [|n IH]; intros m w Hw Hm.
  - replace w with 0 by (cbn in Hw; lia). by rewrite b128_hi_0.
  - destruct m as [|m]; [lia|]. cbn [b128_hi]. case_match; [done|].
    rewrite Nat2Z.inj_succ, Z.pow_succ_r in Hw by lia.
    rewrite (IH m); [done|dlia|lia].
Qed.

(** Appending a digit. *)
Lemma b128_hi_snoc w d : 0 <= w < 2 ^ 57 -> 0 <= d < 128 -> (w <> 0 \/ d <> 0) ->
  b128_hi 10 (w * 128 + d) = b128_hi 10 w ++ [128 + d].
Proof.
  intros Hw Hd Hne. rewrite (b128_hi_S 9). rewrite (proj2 (Z.eqb_neq (w * 128 + d) 0)) by lia.
  replace ((w * 128 + d) / 128) with w by dlia. replace ((w * 128 + d) mod 128) with d by dlia.
  by rewrite (b128_hi_fuel 9 10 w) by lia.
Qed.

Lemma base128_octets_snoc w d : 0 <= w < 2 ^ 57 -> 0 <= d < 128 ->
  base128_octets (w * 128 + d) = b128_hi 10 w ++ [d].
Proof.
  intros Hw Hd. unfold base128_octets.
  replace ((w * 128 + d) / 128) with w by dlia. replace ((w * 128 + d) mod 128) with d by dlia.
  by rewrite (b128_hi_fuel 9 10 w) by lia.
Qed.

Lemma b128_hi_ok n w : 0 <= w -> bytes_ok (b128_hi n w).
Proof.
  revert w. induction n as [|n IH]; intros w Hw; cbn [b128_hi]; [constructor|].
  case_match; [constructor|]. apply Forall_app. split; [apply IH; dlia|].
  constructor; [|constructor]. unfold is_byte. dlia.
Qed.

Lemma base128_octets_ok v : 0 <= v -> bytes_ok (base128_octets v).
Proof.
  intros. unfold base128_octets. apply Forall_app. split; [apply b128_hi_ok; dlia|].
  constructor; [|constructor]. unfold is_byte. dlia.
Qed.

(** ** Tags and lengths *)

Lemma tag_octets_ok tag : valid_tag tag -> bytes_ok (tag_octets tag).
Proof.
  intros [Htag _]. unfold tag_octets. change (2 ^ 32) with 4294967296 in *. change (2 ^ 29) with 536870912.
  case_match.
  - constructor; [|constructor]. unfold is_byte. dlia.
  - constructor; [unfold is_byte; dlia|]. apply base128_octets_ok. dlia.
Qed.

Lemma len_size_bound len : (1 <= len_size len <= 4)%nat.
Proof. unfold len_size. repeat case_match; lia. Qed.

Lemma length_octets_ok len : 0 <= len -> bytes_ok (length_octets len).
Proof.
  intros. unfold length_octets. pose proof (len_size_bound len). case_match.
  - constructor; [|constructor]. unfold is_byte. lia.
  - constructor; [unfold is_byte; lia|]. apply be_bytes_ok.
Qed.

Lemma zlen_length_octets len : 1 <= zlen (length_octets len) <= 5.
Proof.
  unfold length_octets. pose proof (len_size_bound len). case_match.
  - done.
  - rewrite zlen_cons, zlen_be_bytes. lia.
Qed.

Lemma length_b128_hi n w : (length (b128_hi n w) <= n)%nat.
Proof.
  revert w. induction n as [|n IH]; intros w; cbn [b128_hi]; [done|].
  case_match; [cbn; lia|]. rewrite length_app. cbn. specialize (IH (w / 128)). lia.
Qed.

Lemma zlen_tag_octets tag : 1 <= zlen (tag_octets tag) <= 11.
Proof.
  unfold tag_octets. case_match; [done|].
  unfold base128_octets. rewrite zlen_cons, zlen_app. change (zlen [_]) with 1.
  pose proof (length_b128_hi 9 (tag mod 2 ^ 29 / 128)).
  unfold zlen. lia.
Qed.

Lemma der_element_ok tag c : valid_tag tag -> bytes_ok c -> bytes_ok (der_element tag c).
Proof.
  intros. unfold der_element, der_header. rewrite !Forall_app.
  split_and!; [by apply tag_octets_ok|apply length_octets_ok, zlen_nonneg|done].
Qed.

(** The length field determines its size. *)
Lemma len_size_value n len : (1 <= n <= 4)%nat -> 128 <= len < 256 ^ Z.of_nat n ->
  (n = 1%nat \/ 256 ^ (Z.of_nat n - 1) <= len) -> len_size len = n.
Proof.
  intros Hn Hlen Hmin. unfold len_size.
  assert (n = 1 \/ n = 2 \/ n = 3 \/ n = 4)%nat as Hc by lia.
  destruct_or! Hc; subst n; cbn in *; repeat case_match; lia.
Qed.

Lemma len_size_bounds len : 128 <= len < 2 ^ 32 ->
  len < 256 ^ Z.of_nat (len_size len) /\
  (len_size len = 1%nat \/ 256 ^ (Z.of_nat (len_size len) - 1) <= len).
Proof. intros. unfold len_size. repeat case_match; cbn; lia. Qed.

(** ** Integers *)

Lemma pow256_succ n : 256 ^ Z.of_nat (S n) = 256 * 256 ^ Z.of_nat n.
Proof. rewrite Nat2Z.inj_succ, Z.pow_succ_r by lia. done. Qed.

Lemma int_size_from_spec fuel : forall n v,
  (1 <= n)%nat ->
  (n = 1%nat \/ ~ (- 2 ^ (8 * Z.of_nat (n - 1) - 1) <= v < 2 ^ (8 * Z.of_nat (n - 1) - 1))) ->
  - 2 ^ (8 * Z.of_nat (n + fuel) - 1) <= v < 2 ^ (8 * Z.of_nat (n + fuel) - 1) ->
  let m := int_size_from fuel n v in
  (n <= m <= n + fuel)%nat /\ - 2 ^ (8 * Z.of_nat m - 1) <= v < 2 ^ (8 * Z.of_nat m - 1) /\
  (m = 1%nat \/ ~ (- 2 ^ (8 * Z.of_nat (m - 1) - 1) <= v < 2 ^ (8 * Z.of_nat (m - 1) - 1))).
Proof.
  induction fuel as [|fuel IH]; intros n v Hn Hmin Hv; cbn [int_size_from].
  - rewrite Nat.add_0_r in *. split; [lia|]. done.
  - destruct ((- 2 ^ (8 * Z.of_nat n - 1) <=? v) && (v <? 2 ^ (8 * Z.of_nat n - 1))) eqn:E.
    + split; [lia|]. split; [lia|done].
    + destruct (IH (S n) v) as (H1 & H2 & H3).
      * lia.
      * right. cbn [Nat.sub]. rewrite Nat.sub_0_r. lia.
      * by replace (S n + fuel)%nat with (n + S fuel)%nat by lia.
      * split; [lia|]. done.
Qed.

Lemma int_size_spec v : - 2 ^ 63 <= v < 2 ^ 71 ->
  (1 <= int_size v <= 9)%nat /\
  - 2 ^ (8 * Z.of_nat (int_size v) - 1) <= v < 2 ^ (8 * Z.of_nat (int_size v) - 1) /\
  (int_size v = 1%nat \/
   ~ (- 2 ^ (8 * Z.of_nat (int_size v - 1) - 1) <= v < 2 ^ (8 * Z.of_nat (int_size v - 1) - 1))).
Proof.
  intros. apply (int_size_from_spec 8 1 v); [lia|by left|].
  cbn [Nat.add Z.of_nat]. change (2 ^ (8 * _ - 1)) with (2 ^ 71). lia.
Qed.

(** The size is determined by the bounds. *)
Lemma int_size_unique n v : (1 <= n <= 9)%nat ->
  - 2 ^ (8 * Z.of_nat n - 1) <= v < 2 ^ (8 * Z.of_nat n - 1) ->
  (n = 1%nat \/ ~ (- 2 ^ (8 * Z.of_nat (n - 1) - 1) <= v < 2 ^ (8 * Z.of_nat (n - 1) - 1))) ->
  - 2 ^ 63 <= v < 2 ^ 71 -> int_size v = n.
Proof.
  intros Hn Hb Hmin Hv. destruct (int_size_spec v Hv) as (Hs & Hsb & Hsmin).
  destruct (lt_eq_lt_dec (int_size v) n) as [[Hlt|]|Hgt]; [|done|].
  - destruct Hmin as [->|Hmin]; [lia|]. exfalso. apply Hmin.
    pose proof (Z.pow_le_mono_r 2 (8 * Z.of_nat (int_size v) - 1) (8 * Z.of_nat (n - 1) - 1)). lia.
  - destruct Hsmin as [Hs1|Hsmin]; [lia|]. exfalso. apply Hsmin.
    pose proof (Z.pow_le_mono_r 2 (8 * Z.of_nat n - 1) (8 * Z.of_nat (int_size v - 1) - 1)). lia.
Qed.

Lemma pow256_2 n : 0 <= n -> 256 ^ n = 2 ^ (8 * n).
Proof. intros. change 256 with (2 ^ 8). by rewrite <- Z.pow_mul_r by lia. Qed.

(** A two's complement value lies in the range of its octets. *)
Lemma int_value_bound l : l <> [] -> bytes_ok l ->
  - 2 ^ (8 * zlen l - 1) <= int_value l < 2 ^ (8 * zlen l - 1) /\
  be_value l = int_value l mod 256 ^ zlen l.
Proof.
  intros Hne Hl. destruct l as [|b l]; [done|].
  unfold int_value. cbn [hd]. pose proof Hl as Hall. apply Forall_cons in Hl as [Hb Hl].
  unfold is_byte in Hb. pose proof (be_value_bound l Hl) as Hv.
  rewrite be_value_cons, zlen_cons. pose proof (zlen_nonneg l) as Hlen.
  replace (8 * (1 + zlen l) - 1) with (7 + 8 * zlen l) by lia.
  rewrite !Z.pow_add_r, <- pow256_2 by lia. change (2 ^ 7) with 128. change (256 ^ 1) with 256.
  set (P := 256 ^ zlen l) in *. assert (0 < P) by (unfold P; apply Z.pow_pos_nonneg; lia).
  destruct (Z.leb_spec 128 b).
  - split; [nia|].
    replace (b * P + be_value l - 256 * P) with (b * P + be_value l + (-1) * (256 * P)) by lia.
    rewrite Z.mod_add, Z.mod_small by nia. done.
  - split; [nia|]. rewrite Z.sub_0_r, Z.mod_small by nia. done.
Qed.

Lemma minimal_int_spec l : l <> [] -> bytes_ok l ->
  minimal_int l = true <->
  (length l = 1%nat \/
   ~ (- 2 ^ (8 * (zlen l - 1) - 1) <= int_value l < 2 ^ (8 * (zlen l - 1) - 1))).
Proof.
  intros Hne Hl. destruct l as [|a [|b l]]; [done|naive_solver|].
  apply Forall_cons in Hl as [Ha Hl]. apply Forall_cons in Hl as [Hb Hl]. unfold is_byte in *.
  unfold int_value. cbn [hd minimal_int]. rewrite !be_value_cons, !zlen_cons.
  pose proof (be_value_bound l Hl) as Hv. pose proof (zlen_nonneg l) as Hlen.
  replace (8 * (1 + (1 + zlen l) - 1) - 1) with (7 + 8 * zlen l) by lia.
  rewrite !Z.pow_add_r, <- pow256_2 by lia. change (2 ^ 7) with 128. change (256 ^ 1) with 256.
  set (P := 256 ^ zlen l) in *. assert (0 < P) by (unfold P; apply Z.pow_pos_nonneg; lia).
  rewrite andb_true_iff, !negb_true_iff, !andb_false_iff, !Z.eqb_neq, Z.ltb_ge, Z.leb_gt.
  cbn [length].
  destruct (Z.leb_spec 128 a); split.
  - intros [_ [?|?]]; right; nia.
  - intros [[=]|H1]. split; [lia|]. destruct (decide (a = 255)) as [->|]; [|by left]. right. nia.
  - intros [[?|?] _]; right; nia.
  - intros [[=]|H1]. split; [|lia]. destruct (decide (a = 0)) as [->|]; [|by left]. right. nia.
Qed.

(** Octets are the encoding of their value exactly when they are minimal. *)
Lemma int_octets_int_value l : minimal_int l = true -> bytes_ok l -> (length l <= 9)%nat ->
  - 2 ^ 63 <= int_value l < 2 ^ 71 -> int_octets (int_value l) = l.
Proof.
  intros Hmin Hl Hlen Hv.
  assert (Hne : l <> []) by (by intros ->).
  destruct (int_value_bound l Hne Hl) as [Hb Hmod].
  assert (Hpos : (1 <= length l)%nat) by (destruct l; [done|cbn; lia]).
  unfold int_octets. rewrite (int_size_unique (length l)).
  - transitivity (be_bytes (length l) (be_value l)); [|by apply be_bytes_be_value].
    rewrite Hmod. symmetry. apply be_bytes_mod.
  - lia.
  - done.
  - apply (minimal_int_spec l Hne Hl) in Hmin as [|Hmin]; [by left|].
    right. unfold zlen in Hmin. by rewrite Nat2Z.inj_sub by lia.
  - done.
Qed.

Lemma int_octets_facts v : - 2 ^ 63 <= v < 2 ^ 71 ->
  minimal_int (int_octets v) = true /\ int_value (int_octets v) = v /\
  bytes_ok (int_octets v) /\ zlen (int_octets v) = Z.of_nat (int_size v).
Proof.
  intros Hv. destruct (int_size_spec v Hv) as (Hs & Hb & Hmin).
  assert (Hok : bytes_ok (int_octets v)) by apply be_bytes_ok.
  assert (Hlen : zlen (int_octets v) = Z.of_nat (int_size v)) by apply zlen_be_bytes.
  assert (Hne : int_octets v <> []) by (intros H; rewrite H in Hlen; change (zlen []) with 0 in Hlen; lia).
  destruct (int_value_bound _ Hne Hok) as [Hb' Hmod].
  assert (Hval : int_value (int_octets v) = v).
  { rewrite Hlen in *. unfold int_octets in Hmod at 1. rewrite be_value_be_bytes in Hmod.
    rewrite pow256_2 in Hmod by lia.
    assert (Hpow : 2 ^ (8 * Z.of_nat (int_size v)) = 2 * 2 ^ (8 * Z.of_nat (int_size v) - 1)).
    { rewrite <- Z.pow_succ_r by lia. f_equal. lia. }
    rewrite Hpow in Hmod. set (P := 2 ^ (8 * Z.of_nat (int_size v) - 1)) in *.
    assert (0 < P) by (unfold P; apply Z.pow_pos_nonneg; lia).
    set (w := int_value (int_octets v)) in *. clearbody w P. clear -Hmod Hb Hb' H.
    assert (exists k, v - w = k * (2 * P)) as [k Hk].
    { exists (v / (2 * P) - w / (2 * P)). pose proof (Z.div_mod v (2 * P)). pose proof (Z.div_mod w (2 * P)). lia. }
    assert (k = 0) by nia. lia. }
  split_and!; try done.
  apply minimal_int_spec; [done..|]. rewrite Hval, Hlen.
  destruct Hmin as [H1|Hmin].
  - left. unfold zlen in Hlen. lia.
  - right. by rewrite Nat2Z.inj_sub in Hmin by lia.
Qed.

