(* ===== verification/Cbs.v ===== *)
(** * The byte-string parser (crypto/bytestring/cbs.c)

    A [CBS] is the sequence of bytes it points at: [CBS_len] is its length and
    advancing the pointer drops bytes at the front. A function that takes
    [CBS *cbs] is a computation of the monad [M CBS]: it returns an output or 0,
    and the [CBS] it leaves in both cases. Outputs are those of a successful
    call, which is when the interface defines them. *)

From S2P Require Import Prelude Words Mem PosixTime.

Abbreviation CBS := (list Z).

Definition CBS_len (cbs : CBS) : Z := zlen cbs.
Definition CBS_data (cbs : CBS) (i : Z) : Z := znth 0 cbs i.
Definition CBS_init (data : list Z) (len : Z) : CBS := ztake len data.

(** ** Tags *)

Definition CBS_ASN1_TAG_SHIFT : Z := 24.
Definition CBS_ASN1_CONSTRUCTED : Z := 0x20 ≪ CBS_ASN1_TAG_SHIFT.
Definition CBS_ASN1_TAG_NUMBER_MASK : Z := (1 ≪ (5 + CBS_ASN1_TAG_SHIFT)) - 1.
Definition CBS_ASN1_BOOLEAN : Z := 0x1.
Definition CBS_ASN1_INTEGER : Z := 0x2.
Definition CBS_ASN1_OCTETSTRING : Z := 0x4.
Definition NOT_CONSTRUCTED : Z := u32 (Z.lnot CBS_ASN1_CONSTRUCTED).

(** ** Reading bytes *)

Definition cbs_get (n : Z) : M CBS (list Z) := fun cbs =>
  if CBS_len cbs <? n then (None, cbs) else (Some (ztake n cbs), zdrop n cbs).

Definition CBS_skip (len : Z) : M CBS unit := cbs_get len ;;; ret tt.

(** The outputs [*out_ptr], [*out_len] as one block; [] is [NULL] and 0. *)
Definition CBS_stow `{Allocator} (cbs : CBS) : option (list Z) :=
  if CBS_len cbs =? 0 then Some []
  else OPENSSL_memdup cbs.

Definition CBS_strdup `{Allocator} (cbs : CBS) : option (list Z) :=
  OPENSSL_strndup cbs (CBS_len cbs).

Definition CBS_contains_zero_byte (cbs : CBS) : bool :=
  match OPENSSL_memchr cbs 0 with Some _ => true | None => false end.

Definition CBS_mem_equal (cbs : CBS) (data : list Z) : bool :=
  if negb (zlen data =? CBS_len cbs) then false
  else CRYPTO_memcmp cbs data =? 0.

Definition cbs_get_u (len : Z) : M CBS Z :=
  let* data := cbs_get len in
  ret (fold_left (fun result b => u64 (result ≪ 8) .| b) data 0).

Definition CBS_get_u8 : M CBS Z :=
  let* v := cbs_get 1 in ret (znth 0 v 0).

Definition CBS_get_u16 : M CBS Z := let* v := cbs_get_u 2 in ret (u16 v).

Definition CBS_get_u16le : M CBS Z := let* out := CBS_get_u16 in ret (CRYPTO_bswap2 out).

Definition CBS_get_u24 : M CBS Z := let* v := cbs_get_u 3 in ret (u32 v).

Definition CBS_get_u32 : M CBS Z := let* v := cbs_get_u 4 in ret (u32 v).

Definition CBS_get_u32le : M CBS Z := let* out := CBS_get_u32 in ret (CRYPTO_bswap4 out).

Definition CBS_get_u64 : M CBS Z := cbs_get_u 8.

Definition CBS_get_u64le : M CBS Z := let* out := cbs_get_u 8 in ret (CRYPTO_bswap8 out).

Definition CBS_get_last_u8 : M CBS Z := fun cbs =>
  if CBS_len cbs =? 0 then (None, cbs)
  else (Some (znth 0 cbs (CBS_len cbs - 1)), ztake (CBS_len cbs - 1) cbs).

Definition CBS_get_bytes (len : Z) : M CBS CBS :=
  let* v := cbs_get len in ret (CBS_init v len).

Definition CBS_copy_bytes (len : Z) : M CBS (list Z) := cbs_get len.

Definition cbs_get_length_prefixed (len_len : Z) : M CBS CBS :=
  let* len := cbs_get_u len_len in CBS_get_bytes len.

Definition CBS_get_u8_length_prefixed : M CBS CBS := cbs_get_length_prefixed 1.
Definition CBS_get_u16_length_prefixed : M CBS CBS := cbs_get_length_prefixed 2.
Definition CBS_get_u24_length_prefixed : M CBS CBS := cbs_get_length_prefixed 3.

Definition CBS_get_until_first (c : Z) : M CBS CBS :=
  let* cbs := get in
  match OPENSSL_memchr cbs c with
  | None => fail
  | Some split => CBS_get_bytes split
  end.

Fixpoint get_u64_decimal_loop (v : Z) (seen_digit : bool) (cbs : CBS) : option Z * CBS :=
  match cbs with
  | [] => (if seen_digit then Some v else None, cbs)
  | c :: rest =>
      if negb (OPENSSL_isdigit c) then (if seen_digit then Some v else None, cbs)
      else if ((v =? 0) && seen_digit) || (v >? UINT64_MAX / 10)
              || (v * 10 >? UINT64_MAX - (c - 48))
      then (None, rest)
      else get_u64_decimal_loop (v * 10 + (c - 48)) true rest
  end.
Definition CBS_get_u64_decimal : M CBS Z := get_u64_decimal_loop 0 false.

(** ** ASN.1 elements *)

Fixpoint base128_loop (v : Z) (cbs : CBS) : option Z * CBS :=
  match cbs with
  | [] => (None, cbs)
  | b :: rest =>
      if negb ((v ≫ (64 - 7)) =? 0) then (None, rest)
      else if (v =? 0) && (b =? 0x80) then (None, rest)
      else
        let v := u64 (v ≪ 7) .| (b .& 0x7f) in
        if negb ((b .& 0x80) =? 0) then base128_loop v rest else (Some v, rest)
  end.
Definition parse_base128_integer : M CBS Z := base128_loop 0.

Definition parse_asn1_tag : M CBS Z :=
  let* tag_byte := CBS_get_u8 in
  let tag := u32 ((tag_byte .& 0xe0) ≪ CBS_ASN1_TAG_SHIFT) in
  let tag_number := tag_byte .& 0x1f in
  let* tag_number :=
    if tag_number =? 0x1f then
      let* v := parse_base128_integer in
      guard (negb ((v >? CBS_ASN1_TAG_NUMBER_MASK) || (v <? 0x1f))) ;;;
      ret (u32 v)
    else ret tag_number in
  let tag := tag .| tag_number in
  guard (negb ((tag .& NOT_CONSTRUCTED) =? 0)) ;;;
  ret tag.

(** The outputs of [cbs_get_any_asn1_element]. *)
Record asn1_element := mk_element {
  el_out : CBS;
  el_tag : Z;
  el_header_len : Z;
  el_ber_found : bool;
  el_indefinite : bool
}.

Definition cbs_get_any_asn1_element (ber_ok : bool) : M CBS asn1_element :=
  let* cbs := get in
  let* '(tag, header) := on cbs parse_asn1_tag in
  let* '(length_byte, header) := on header CBS_get_u8 in
  let header_len := CBS_len cbs - CBS_len header in
  if (length_byte .& 0x80) =? 0 then
    let len := u64 (length_byte + header_len) in
    let* out := CBS_get_bytes len in
    ret (mk_element out tag header_len false false)
  else
    let num_bytes := length_byte .& 0x7f in
    if ber_ok && negb ((tag .& CBS_ASN1_CONSTRUCTED) =? 0) && (num_bytes =? 0) then
      let* out := CBS_get_bytes header_len in
      ret (mk_element out tag header_len true true)
    else
      guard (negb ((num_bytes =? 0) || (num_bytes >? 4))) ;;;
      let* '(len64, header) := on header (cbs_get_u num_bytes) in
      let short_form := len64 <? 128 in
      guard (negb short_form || ber_ok) ;;;
      let one_byte_shorter := (len64 ≫ ((num_bytes - 1) * 8)) =? 0 in
      guard (negb one_byte_shorter || ber_ok) ;;;
      let len := len64 in
      guard (negb (u64 (len + header_len + num_bytes) <? len)) ;;;
      let len := u64 (len + (header_len + num_bytes)) in
      let* out := CBS_get_bytes len in
      ret (mk_element out tag (header_len + num_bytes) (short_form || one_byte_shorter) false).

(** The element, its tag and the length of its header. *)
Definition CBS_get_any_asn1_element : M CBS (CBS * Z * Z) :=
  let* el := cbs_get_any_asn1_element false in
  ret (el_out el, el_tag el, el_header_len el).

Definition CBS_get_any_asn1 : M CBS (CBS * Z) :=
  let* '(out, tag, header_len) := CBS_get_any_asn1_element in
  let* '(_, out) := on out (CBS_skip header_len) in
  ret (out, tag).

Definition CBS_get_any_ber_asn1_element : M CBS asn1_element := cbs_get_any_asn1_element true.

Definition cbs_get_asn1 (tag_value : Z) (skip_header : bool) : M CBS CBS :=
  let* '(out, tag, header_len) := CBS_get_any_asn1_element in
  guard (tag =? tag_value) ;;;
  if skip_header then let* '(_, out) := on out (CBS_skip header_len) in ret out
  else ret out.

Definition CBS_get_asn1 (tag_value : Z) : M CBS CBS := cbs_get_asn1 tag_value true.

Definition CBS_get_asn1_element (tag_value : Z) : M CBS CBS := cbs_get_asn1 tag_value false.

Definition CBS_peek_asn1_tag (cbs : CBS) (tag_value : Z) : bool :=
  match parse_asn1_tag cbs with
  | (Some actual_tag, _) => tag_value =? actual_tag
  | (None, _) => false
  end.

(** ** Integers and booleans *)

(** [Some is_negative] for a valid encoding. *)
Definition CBS_is_valid_asn1_integer (cbs : CBS) : option bool :=
  match CBS_get_u8 cbs with
  | (None, _) => None
  | (Some first_byte, copy) =>
      let is_negative := negb ((first_byte .& 0x80) =? 0) in
      match CBS_get_u8 copy with
      | (None, _) => Some is_negative
      | (Some second_byte, _) =>
          if ((first_byte =? 0x00) && ((second_byte .& 0x80) =? 0))
             || ((first_byte =? 0xff) && negb ((second_byte .& 0x80) =? 0))
          then None
          else Some is_negative
      end
  end.

Definition CBS_is_unsigned_asn1_integer (cbs : CBS) : bool :=
  match CBS_is_valid_asn1_integer cbs with
  | Some is_negative => negb is_negative
  | None => false
  end.

Fixpoint get_asn1_uint64_loop (out : Z) (data : list Z) : option Z :=
  match data with
  | [] => Some out
  | b :: data =>
      if negb ((out ≫ 56) =? 0) then None
      else get_asn1_uint64_loop (u64 (out ≪ 8) .| b) data
  end.

Definition CBS_get_asn1_uint64 : M CBS Z :=
  let* bytes := CBS_get_asn1 CBS_ASN1_INTEGER in
  guard (CBS_is_unsigned_asn1_integer bytes) ;;;
  match get_asn1_uint64_loop 0 bytes with
  | Some out => ret out
  | None => fail
  end.

Definition CBS_get_asn1_int64 : M CBS Z :=
  let* bytes := CBS_get_asn1 CBS_ASN1_INTEGER in
  match CBS_is_valid_asn1_integer bytes with
  | None => fail
  | Some is_negative =>
      let len := CBS_len bytes in
      guard (negb (len >? 8)) ;;;
      let sign_extend := replicate 8 (if is_negative then 0xff else 0) in
      let sign_extend := store sign_extend (8 - len) bytes in
      ret (i64 (CRYPTO_load_u64_be sign_extend))
  end.

Definition CBS_get_asn1_bool : M CBS bool :=
  let* bytes := CBS_get_asn1 CBS_ASN1_BOOLEAN in
  guard (CBS_len bytes =? 1) ;;;
  let value := CBS_data bytes 0 in
  guard (negb (negb (value =? 0) && negb (value =? 0xff))) ;;;
  ret (negb (value =? 0)).

(** ** Optional elements *)

(** [Some out] when the element is present. *)
Definition CBS_get_optional_asn1 (tag : Z) : M CBS (option CBS) :=
  let* cbs := get in
  if CBS_peek_asn1_tag cbs tag then let* out := CBS_get_asn1 tag in ret (Some out)
  else ret None.

(** The string and whether it is present. *)
Definition CBS_get_optional_asn1_octet_string (tag : Z) : M CBS (CBS * bool) :=
  let* child := CBS_get_optional_asn1 tag in
  match child with
  | Some child =>
      let* '(out, child) := on child (CBS_get_asn1 CBS_ASN1_OCTETSTRING) in
      guard (CBS_len child =? 0) ;;;
      ret (out, true)
  | None => ret ([], false)
  end.

Definition CBS_get_optional_asn1_uint64 (tag default_value : Z) : M CBS Z :=
  let* child := CBS_get_optional_asn1 tag in
  match child with
  | Some child =>
      let* '(out, child) := on child CBS_get_asn1_uint64 in
      guard (CBS_len child =? 0) ;;;
      ret out
  | None => ret default_value
  end.

Definition CBS_get_optional_asn1_bool (tag : Z) (default_value : Z) : M CBS Z :=
  let* child := CBS_get_optional_asn1 tag in
  match child with
  | Some child =>
      let* '(child2, child) := on child (CBS_get_asn1 CBS_ASN1_BOOLEAN) in
      guard (negb (negb (CBS_len child2 =? 1) || negb (CBS_len child =? 0))) ;;;
      let boolean := CBS_data child2 0 in
      if boolean =? 0 then ret 0 else if boolean =? 0xff then ret 1 else fail
  | None => ret default_value
  end.

(** ** Bit strings and object identifiers *)

Definition CBS_is_valid_asn1_bitstring (cbs : CBS) : bool :=
  match CBS_get_u8 cbs with
  | (None, _) => false
  | (Some num_unused_bits, in_) =>
      if num_unused_bits >? 7 then false
      else if num_unused_bits =? 0 then true
      else match CBS_get_last_u8 in_ with
           | (None, _) => false
           | (Some last, _) => (last .& ((1 ≪ num_unused_bits) - 1)) =? 0
           end
  end.

Definition CBS_asn1_bitstring_has_bit (cbs : CBS) (bit : Z) : bool :=
  if negb (CBS_is_valid_asn1_bitstring cbs) then false
  else
    let byte_num := u32 ((bit ≫ 3) + 1) in
    let bit_num := 7 - (bit .& 7) in
    (byte_num <? CBS_len cbs) && negb ((CBS_data cbs byte_num .& (1 ≪ bit_num)) =? 0).

Fixpoint is_valid_asn1_oid_loop (prev : Z) (copy : CBS) : bool :=
  match copy with
  | [] => (prev .& 0x80) =? 0
  | v :: copy =>
      if ((prev .& 0x80) =? 0) && (v =? 0x80) then false
      else is_valid_asn1_oid_loop v copy
  end.
Definition CBS_is_valid_asn1_oid (cbs : CBS) : bool :=
  if CBS_len cbs =? 0 then false else is_valid_asn1_oid_loop 0 cbs.

(** ** Times *)

Definition cbs_get_two_digits : M CBS Z :=
  let* first_digit := CBS_get_u8 in
  guard (OPENSSL_isdigit first_digit) ;;;
  let* second_digit := CBS_get_u8 in
  guard (OPENSSL_isdigit second_digit) ;;;
  ret ((first_digit - 48) * 10 + (second_digit - 48)).

Definition is_valid_day (year month day : Z) : bool :=
  if day <? 1 then false
  else if (month =? 1) || (month =? 3) || (month =? 5) || (month =? 7) || (month =? 8)
          || (month =? 10) || (month =? 12)
  then day <=? 31
  else if (month =? 4) || (month =? 6) || (month =? 9) || (month =? 11)
  then day <=? 30
  else if month =? 2 then
    if ((cmod year 4 =? 0) && negb (cmod year 100 =? 0)) || (cmod year 400 =? 0)
    then day <=? 29 else day <=? 28
  else false.

(** [out_tm] says whether the caller wants the time ([out_tm != NULL]). *)
Definition CBS_parse_rfc5280_time_internal
    (cbs : CBS) (is_gentime allow_timezone_offset out_tm : bool) : option (option tm) :=
  fst ((
    let* year :=
      if is_gentime then
        let* tmp := cbs_get_two_digits in
        let year := tmp * 100 in
        let* tmp := cbs_get_two_digits in
        ret (year + tmp)
      else
        let year := 1900 in
        let* tmp := cbs_get_two_digits in
        let year := year + tmp in
        let year := if year <? 1950 then year + 100 else year in
        guard (negb (year >=? 2050)) ;;;
        ret year in
    let* month := cbs_get_two_digits in
    guard (negb ((month <? 1) || (month >? 12))) ;;;
    let* day := cbs_get_two_digits in
    guard (is_valid_day year month day) ;;;
    let* hour := cbs_get_two_digits in
    guard (negb (hour >? 23)) ;;;
    let* min := cbs_get_two_digits in
    guard (negb (min >? 59)) ;;;
    let* sec := cbs_get_two_digits in
    guard (negb (sec >? 59)) ;;;
    let* tz := CBS_get_u8 in
    let* offset_sign :=
      if tz =? 90 then ret 0
      else if tz =? 43 then ret 1
      else if tz =? 45 then ret (-1)
      else fail in
    let* offset_seconds :=
      if negb (offset_sign =? 0) then
        guard allow_timezone_offset ;;;
        let* offset_hours := cbs_get_two_digits in
        guard (negb (offset_hours >? 23)) ;;;
        let* offset_minutes := cbs_get_two_digits in
        guard (negb (offset_minutes >? 59)) ;;;
        ret (offset_sign * (offset_hours * 3600 + offset_minutes * 60))
      else ret 0 in
    let* copy := get in
    guard (CBS_len copy =? 0) ;;;
    if out_tm then
      let t := mk_tm (year - 1900) (month - 1) day hour min sec in
      if negb (offset_seconds =? 0) then
        match OPENSSL_gmtime_adj t 0 offset_seconds with
        | None => fail
        | Some t => ret (Some t)
        end
      else ret (Some t)
    else ret None) cbs).

Definition CBS_parse_generalized_time (cbs : CBS) (out_tm allow_timezone_offset : bool) :=
  CBS_parse_rfc5280_time_internal cbs true allow_timezone_offset out_tm.

Definition CBS_parse_utc_time (cbs : CBS) (out_tm allow_timezone_offset : bool) :=
  CBS_parse_rfc5280_time_internal cbs false allow_timezone_offset out_tm.
