(* ===== verification/CbsFacts.v ===== *)
(** * What the parser accepts (theorems about Cbs.v)

    Every reader is characterised by an equivalence: it succeeds with a result
    exactly when the input starts with the encoding of that result, and then
    leaves the rest. For DER this says both that every valid encoding is parsed
    and that no other octets are accepted for a value. *)

From S2P Require Import Prelude Words Mem PosixTime Der Cbs.

(** [p] reads the encodings [enc v] of valid values [v] and nothing else: on any
    input it returns [v] exactly when the input starts with [enc v], and then it
    leaves the rest. *)
Definition reads_exactly {A} (p : M CBS A) (valid : A -> Prop) (enc : A -> list Z) : Prop :=
  forall s v s', bytes_ok s -> p s = (Some v, s') <-> valid v /\ s = enc v ++ s'.

(** ** Reading bytes *)

Lemma cbs_get_Some n s a s' : 0 <= n ->
  cbs_get n s = (Some a, s') <-> s = a ++ s' /\ zlen a = n.
Proof.
  intros Hn. unfold cbs_get, CBS_len. destruct (Z.ltb_spec (zlen s) n).
  - split; [done|]. intros [-> <-]. rewrite zlen_app in *. zlen_pos. lia.
  - split.
    + intros [= <- <-]. rewrite ztake_zdrop, zlen_ztake by lia. done.
    + intros [-> Ha]. by rewrite ztake_app, zdrop_app.
Qed.

Lemma cbs_get_app n a s : zlen a = n -> cbs_get n (a ++ s) = (Some a, s).
Proof. intros <-. by apply cbs_get_Some; [apply zlen_nonneg|]. Qed.

Lemma get_u_fold data acc k :
  bytes_ok data -> 0 <= acc < 256 ^ k -> 0 <= k -> k + zlen data <= 8 ->
  fold_left (fun result b => u64 (result ≪ 8) .| b) data acc = acc * 256 ^ zlen data + be_value data.
Proof.
  intros Hd. revert acc k. induction Hd as [|b data Hb Hd IH]; intros acc k Hacc Hk Hlen.
  - change (zlen []) with 0. change (be_value []) with 0. cbn [fold_left]. lia.
  - cbn [fold_left]. rewrite zlen_cons in *. zlen_pos. unfold is_byte in Hb.
    assert (Hpow : 256 ^ (k + 1) <= 256 ^ 8) by (apply Z.pow_le_mono_r; lia).
    rewrite Z.pow_add_r in Hpow by lia. change (256 ^ 1) with 256 in Hpow.
    change (256 ^ 8) with 18446744073709551616 in Hpow.
    assert (E : (u64 (acc ≪ 8) .| b) = acc * 256 + b).
    { unfold u64. rewrite Z.mod_small by (rewrite Z.shiftl_mul_pow2 by lia; change (2 ^ 8) with 256; lia).
      by rewrite lor_shiftl by (change (2 ^ 8) with 256; lia). }
    rewrite E, (IH _ (k + 1)), be_value_cons, Z.pow_add_r by
      (try rewrite Z.pow_add_r by lia; change (256 ^ 1) with 256; lia).
    change (256 ^ 1) with 256. lia.
Qed.

Lemma cbs_get_u_Some n s v s' : 0 <= n <= 8 -> bytes_ok s ->
  cbs_get_u n s = (Some v, s') <-> 0 <= v < 256 ^ n /\ s = be_bytes (Z.to_nat n) v ++ s'.
Proof.
  intros Hn Hs. unfold cbs_get_u. rewrite bind_Some. split.
  - intros (a & t & H & Hr). apply cbs_get_Some in H as [-> Ha]; [|lia].
    apply ret_Some in Hr as [-> ->]. apply Forall_app in Hs as [Ha' _].
    rewrite (get_u_fold a 0 0) by (done || lia). rewrite Z.mul_0_l, Z.add_0_l.
    pose proof (be_value_bound a Ha'). rewrite Ha in *. split; [done|].
    f_equal. rewrite <- Ha, zlen_to_nat. symmetry. by apply be_bytes_be_value.
  - intros [Hv ->]. exists (be_bytes (Z.to_nat n) v), s'. split.
    + apply cbs_get_app. rewrite zlen_be_bytes. lia.
    + apply ret_Some. split; [|done].
      rewrite (get_u_fold _ 0 0) by (apply be_bytes_ok || rewrite ?zlen_be_bytes; lia).
      rewrite be_value_be_bytes, Z2Nat.id, Z.mod_small by lia. lia.
Qed.

Lemma CBS_get_u8_Some s v s' : CBS_get_u8 s = (Some v, s') <-> s = v :: s'.
Proof.
  unfold CBS_get_u8. rewrite bind_Some. split.
  - intros (a & t & H & Hr). apply cbs_get_Some in H as [-> Ha]; [|lia].
    apply ret_Some in Hr as [-> ->].
    destruct a as [|x [|y a]]; rewrite ?zlen_cons in Ha; zlen_pos; try (cbn in Ha; lia); done.
  - intros ->. exists [v], s'. split; [by apply (cbs_get_app 1 [v])|done].
Qed.

Lemma CBS_get_u8_cons v s : CBS_get_u8 (v :: s) = (Some v, s).
Proof. by apply CBS_get_u8_Some. Qed.

Lemma CBS_get_u8_nil : CBS_get_u8 [] = (None, []).
Proof. done. Qed.

Lemma CBS_get_bytes_Some n s out s' : 0 <= n ->
  CBS_get_bytes n s = (Some out, s') <-> s = out ++ s' /\ zlen out = n.
Proof.
  intros Hn. unfold CBS_get_bytes, CBS_init. rewrite bind_Some. setoid_rewrite ret_Some. split.
  - intros (a & t & H & -> & ->). apply cbs_get_Some in H as [-> Ha]; [|done].
    rewrite ztake_all by lia. done.
  - intros [-> Ho]. exists out, s'. rewrite cbs_get_app by done. rewrite ztake_all by lia. done.
Qed.

Lemma CBS_skip_Some n s u s' : 0 <= n ->
  CBS_skip n s = (Some u, s') <-> exists a, s = a ++ s' /\ zlen a = n.
Proof.
  intros Hn. unfold CBS_skip. rewrite bind_Some. setoid_rewrite ret_Some. split.
  - intros (a & t & H & -> & ->). apply cbs_get_Some in H; [|done]. eauto.
  - intros (a & H1 & H2). exists a, s'. destruct u. split; [by apply cbs_get_Some|done].
Qed.

(** ** Base-128 integers *)

Lemma byte_split_check :
  zall 0 256 (fun b => ((b .& 0x7f) =? b mod 128) && (Bool.eqb ((b .& 0x80) =? 0) (b <? 128)) &&
    ((b .& 0xe0) =? b / 32 * 32) && ((b .& 0x1f) =? b mod 32)) = true.
Proof. vm_compute. reflexivity. Qed.

Lemma byte_split b : is_byte b ->
  (b .& 0x7f) = b mod 128 /\ ((b .& 0x80) =? 0) = (b <? 128) /\
  (b .& 0xe0) = b / 32 * 32 /\ (b .& 0x1f) = b mod 32.
Proof.
  intros Hb. pose proof (zall_spec _ _ _ byte_split_check b Hb) as H. cbv beta in H.
  rewrite !andb_true_iff, !Z.eqb_eq, Bool.eqb_true_iff in H. tauto.
Qed.

(** The digit computation of one round of the loop. *)
Lemma base128_step v b : 0 <= v < 2 ^ 57 -> is_byte b ->
  (u64 (v ≪ 7) .| (b .& 0x7f)) = v * 128 + b mod 128.
Proof.
  intros Hv Hb. destruct (byte_split b Hb) as (-> & _). unfold u64.
  rewrite Z.mod_small by (rewrite Z.shiftl_mul_pow2 by lia; change (2 ^ 7) with 128; lia).
  rewrite lor_shiftl; [done|lia|]. change (2 ^ 7) with 128. apply Z.mod_pos_bound. lia.
Qed.

Lemma shiftr57 v : 0 <= v < 2 ^ 64 -> ((v ≫ (64 - 7)) =? 0) = (v <? 2 ^ 57).
Proof.
  intros Hv. rewrite Z.shiftr_div_pow2 by lia. change (2 ^ (64 - 7)) with (2 ^ 57).
  destruct (Z.ltb_spec v (2 ^ 57)); [rewrite Z.div_small by lia; done|].
  apply Z.eqb_neq. change (2 ^ 57) with 144115188075855872 in *. dlia.
Qed.

Lemma base128_loop_sound s : bytes_ok s -> forall v0 v s', 0 <= v0 < 2 ^ 64 ->
  base128_loop v0 s = (Some v, s') ->
  0 <= v < 2 ^ 64 /\ b128_hi 10 v0 ++ s = base128_octets v ++ s'.
Proof.
  induction 1 as [|b s Hb Hs IH]; intros v0 v s' Hv0 Hloop; [discriminate|].
  cbn [base128_loop] in Hloop. rewrite shiftr57 in Hloop by done.
  destruct (Z.ltb_spec v0 (2 ^ 57)); cbn [negb] in Hloop; [|done].
  destruct ((v0 =? 0) && (b =? 0x80)) eqn:Hmin; [done|].
  rewrite base128_step in Hloop by (done || lia).
  destruct (byte_split b Hb) as (_ & E & _). rewrite E in Hloop. unfold is_byte in Hb.
  assert (Hv1 : 0 <= v0 * 128 + b mod 128 < 2 ^ 64).
  { change (2 ^ 57) with 144115188075855872 in *. change (2 ^ 64) with 18446744073709551616 in *. dlia. }
  destruct (Z.ltb_spec b 128) as [Hlow|Hhigh]; cbn [negb] in Hloop.
  - injection Hloop as <- <-. rewrite Z.mod_small by lia. split; [by rewrite Z.mod_small in Hv1 by lia|].
    rewrite base128_octets_snoc by lia. by rewrite <- app_assoc.
  - destruct (IH _ _ _ Hv1 Hloop) as [Hv Heq]. split; [done|]. rewrite <- Heq.
    rewrite b128_hi_snoc by (try apply Z.mod_pos_bound; try lia; apply andb_false_iff in Hmin; dlia).
    rewrite <- app_assoc. cbn [app]. replace (128 + b mod 128) with b by dlia. done.
Qed.

(** Reading the high digits of [w]. *)
Lemma base128_loop_hi n : forall w s, 0 <= w < 2 ^ 57 -> w < 128 ^ Z.of_nat n ->
  base128_loop 0 (b128_hi n w ++ s) = base128_loop w s.
Proof.
  induction n as [|n IH]; intros w s Hw Hn.
  - cbn in Hn. replace w with 0 by lia. done.
  - rewrite b128_hi_S. destruct (Z.eqb_spec w 0) as [->|Hw0]; [done|].
    rewrite <- app_assoc, IH by
      (rewrite Nat2Z.inj_succ, Z.pow_succ_r in Hn by lia; change (2 ^ 57) with 144115188075855872 in *; dlia).
    cbn [app base128_loop].
    assert (Hd : 0 <= w / 128 < 2 ^ 57) by (change (2 ^ 57) with 144115188075855872 in *; dlia).
    assert (Hb : is_byte (128 + w mod 128)) by (unfold is_byte; dlia).
    rewrite shiftr57 by (change (2 ^ 64) with 18446744073709551616; change (2 ^ 57) with 144115188075855872 in *; lia).
    rewrite (proj2 (Z.ltb_lt _ _)) by lia. cbn [negb].
    replace ((w / 128 =? 0) && (128 + w mod 128 =? 128)) with false
      by (symmetry; apply andb_false_iff; rewrite !Z.eqb_neq; dlia).
    rewrite base128_step by done. destruct (byte_split _ Hb) as (_ & -> & _).
    rewrite (proj2 (Z.ltb_ge _ _)) by dlia. cbn [negb].
    f_equal. dlia.
Qed.

Lemma base128_loop_complete v s : 0 <= v < 2 ^ 64 ->
  base128_loop 0 (base128_octets v ++ s) = (Some v, s).
Proof.
  intros Hv. change (2 ^ 64) with 18446744073709551616 in *.
  assert (Hw : 0 <= v / 128 < 144115188075855872) by dlia.
  unfold base128_octets. rewrite <- app_assoc. rewrite base128_loop_hi; [|done|].
  2: { change (128 ^ Z.of_nat 9) with 9223372036854775808. lia. }
  cbn [app base128_loop].
  assert (Hb : is_byte (v mod 128)) by (unfold is_byte; dlia).
  rewrite shiftr57 by (change (2 ^ 64) with 18446744073709551616; lia).
  change (2 ^ 57) with 144115188075855872.
  rewrite (proj2 (Z.ltb_lt _ _)) by lia. cbn [negb].
  rewrite (proj2 (Z.eqb_neq (v mod 128) 128)), andb_false_r by dlia.
  rewrite base128_step by done. destruct (byte_split _ Hb) as (_ & -> & _).
  rewrite (proj2 (Z.ltb_lt _ _)) by dlia. cbn [negb]. f_equal. f_equal. dlia.
Qed.

Lemma parse_base128_integer_Some s v s' : bytes_ok s ->
  parse_base128_integer s = (Some v, s') <-> 0 <= v < 2 ^ 64 /\ s = base128_octets v ++ s'.
Proof.
  intros Hs. unfold parse_base128_integer. split.
  - intros H. apply (base128_loop_sound s Hs 0 v s' ltac:(lia) H).
  - intros [Hv ->]. by apply base128_loop_complete.
Qed.

(** ** Tags *)

(** [UNIVERSAL 0] is the only tag whose bits, but [CONSTRUCTED], are all 0. *)
Lemma not_constructed_guard h n : 0 <= h < 8 -> 0 <= n < 2 ^ 29 ->
  negb (((h * 2 ^ 29 + n) .& NOT_CONSTRUCTED) =? 0) = true <-> valid_tag (h * 2 ^ 29 + n).
Proof.
  intros Hh Hn. change NOT_CONSTRUCTED with (6 * 2 ^ 29 + (2 ^ 29 - 1)).
  rewrite land_split by lia. rewrite land_ones_mod, Z.mod_small by lia.
  unfold valid_tag. change (2 ^ 29) with 536870912 in *. change (2 ^ 32) with 4294967296.
  rewrite negb_true_iff, Z.eqb_neq.
  assert (h = 0 \/ h = 1 \/ h = 2 \/ h = 3 \/ h = 4 \/ h = 5 \/ h = 6 \/ h = 7) as Hc by lia.
  destruct_or! Hc; subst h;
    match goal with |- context [Z.land ?a 6] =>
      let v := eval vm_compute in (Z.land a 6) in change (Z.land a 6) with v end; lia.
Qed.

Lemma tag_octets_split h n : 0 <= n < 2 ^ 29 ->
  tag_octets (h * 2 ^ 29 + n) =
  if n <? 31 then [h * 32 + n] else (h * 32 + 31) :: base128_octets n.
Proof.
  intros Hn. unfold tag_octets. change (2 ^ 29) with 536870912 in *.
  replace ((h * 536870912 + n) / 536870912) with h by dlia.
  replace ((h * 536870912 + n) mod 536870912) with n by dlia. done.
Qed.

(** The two parts of a tag byte. *)
Lemma tag_byte_parts b : is_byte b ->
  u32 ((b .& 0xe0) ≪ CBS_ASN1_TAG_SHIFT) = b / 32 * 2 ^ 29 /\ (b .& 0x1f) = b mod 32 /\
  0 <= b / 32 < 8 /\ b = b / 32 * 32 + b mod 32.
Proof.
  intros Hb. destruct (byte_split b Hb) as (_ & _ & -> & ->). unfold is_byte in Hb.
  rewrite Z.shiftl_mul_pow2 by done. change (2 ^ CBS_ASN1_TAG_SHIFT) with 16777216.
  change (2 ^ 29) with 536870912. unfold u32. split_and!; dlia.
Qed.

Lemma parse_asn1_tag_cons b s tag s' : is_byte b -> bytes_ok s ->
  parse_asn1_tag (b :: s) = (Some tag, s') <->
  exists n, tag = b / 32 * 2 ^ 29 + n /\ valid_tag tag /\
    ((b mod 32 <> 31 /\ n = b mod 32 /\ s = s') \/
     (b mod 32 = 31 /\ 31 <= n < 2 ^ 29 /\ s = base128_octets n ++ s')).
Proof.
  intros Hb Hs. unfold parse_asn1_tag. rewrite (bind_step _ _ _ _ _ (CBS_get_u8_cons b s)).
  destruct (tag_byte_parts b Hb) as (-> & -> & Hh & _).
  rewrite bind_Some. destruct (Z.eqb_spec (b mod 32) 31) as [E|E].
  - change CBS_ASN1_TAG_NUMBER_MASK with (2 ^ 29 - 1).
    split.
    + intros (n & t & Hn & Ht). apply bind_Some in Hn as (v & t' & Hv & Hn).
      apply parse_base128_integer_Some in Hv as [Hv ->]; [|done].
      rewrite bind_guard, Z.gtb_ltb in Hn.
      destruct (Z.ltb_spec (2 ^ 29 - 1) v); [done|]. destruct (Z.ltb_spec v 31); [done|].
      apply ret_Some in Hn as [-> ->]. unfold u32 in *. rewrite Z.mod_small in * by lia.
      rewrite lor_mul, bind_guard in Ht by lia. destruct (negb _) eqn:Hg; [|done]. apply ret_Some in Ht as [-> ->].
      apply not_constructed_guard in Hg; [|lia..].
      exists v. split_and!; [done..|]. right. split_and!; lia || done.
    + intros (n & -> & Htag & [[? _]|(_ & Hn & ->)]); [done|].
      exists n, s'. split.
      * rewrite bind_Some. exists n, s'.
        split; [apply parse_base128_integer_Some; [done|split; [lia|done]]|].
        rewrite bind_guard. rewrite Z.gtb_ltb, (proj2 (Z.ltb_ge _ n)), (proj2 (Z.ltb_ge n _)) by lia.
        cbn [orb negb]. unfold u32. by rewrite Z.mod_small by lia.
      * rewrite lor_mul, bind_guard by lia.
        by rewrite (proj2 (not_constructed_guard (b / 32) n Hh ltac:(lia)) Htag).
  - assert (Hn : 0 <= b mod 32 < 2 ^ 29) by dlia.
    setoid_rewrite ret_Some. split.
    + intros (n & t & [-> ->] & Ht). rewrite lor_mul, bind_guard in Ht by lia.
      destruct (negb _) eqn:Hg; [|done]. apply ret_Some in Ht as [-> ->].
      apply not_constructed_guard in Hg; [|lia..].
      exists (b mod 32). split_and!; [done..|]. left. done.
    + intros (n & -> & Htag & [(_ & -> & ->)|[? _]]); [|done].
      exists (b mod 32), s'. split; [done|].
      rewrite lor_mul, bind_guard by lia.
      by rewrite (proj2 (not_constructed_guard (b / 32) (b mod 32) Hh Hn) Htag).
Qed.

Lemma parse_asn1_tag_Some s tag s' : bytes_ok s ->
  parse_asn1_tag s = (Some tag, s') <-> valid_tag tag /\ s = tag_octets tag ++ s'.
Proof.
  intros Hs. destruct s as [|b s].
  { split; [done|]. intros [_ H]. pose proof (zlen_tag_octets tag).
    apply (f_equal zlen) in H. rewrite zlen_app in H. change (zlen []) with 0 in H. zlen_pos. lia. }
  apply Forall_cons in Hs as [Hb Hs]. rewrite parse_asn1_tag_cons by done. split.
  - intros (n & -> & Htag & H). split; [done|].
    destruct (tag_byte_parts b Hb) as (_ & _ & _ & E).
    destruct H as [(H1 & -> & ->)|(H1 & Hn & ->)]; rewrite tag_octets_split.
    + rewrite (proj2 (Z.ltb_lt _ _)) by dlia. by rewrite <- E.
    + dlia.
    + rewrite (proj2 (Z.ltb_ge _ _)) by lia. rewrite E at 1. by rewrite H1.
    + lia.
  - intros [Htag H]. unfold tag_octets in H.
    pose proof Htag as [Hr _]. change (2 ^ 32) with 4294967296 in Hr. 
    exists (tag mod 2 ^ 29). change (2 ^ 29) with 536870912 in *.
    destruct (Z.ltb_spec (tag mod 536870912) 31) as [Hn|Hn]; cbn [app] in H; injection H as -> ->.
    + split_and!; [dlia|done|]. left. split_and!; [dlia..|done].
    + split_and!; [dlia|done|]. right. split_and!; [dlia..|done].
Qed.

(** ** Elements *)

(** What [cbs_get_any_asn1_element] does after the tag: [n] octets of header in
    all, of which the last ones encode the length [len]. *)
Lemma get_bytes_element hdr rest len out s' : 0 <= len ->
  CBS_get_bytes (zlen hdr + len) (hdr ++ rest) = (Some out, s') <->
  exists contents, out = hdr ++ contents /\ rest = contents ++ s' /\ zlen contents = len.
Proof.
  intros Hlen. rewrite CBS_get_bytes_Some by (zlen_pos; lia). split.
  - intros [H Hout]. destruct (app_split _ _ _ _ H) as (e & -> & ->); [zlen_pos; lia|].
    exists e. rewrite zlen_app in Hout. split_and!; [done..|lia].
  - intros (c & -> & -> & Hc). rewrite app_assoc, zlen_app. split; [done|lia].
Qed.

(** The short and the long form of a length, and what each decodes to. *)
Lemma length_octets_short len : 0 <= len < 128 -> length_octets len = [len].
Proof. intros. unfold length_octets. by rewrite (proj2 (Z.ltb_lt _ _)) by lia. Qed.

Lemma length_octets_long n len : 1 <= n <= 4 -> 128 <= len < 256 ^ n ->
  len ≫ ((n - 1) * 8) <> 0 ->
  length_octets len = (128 + n) :: be_bytes (Z.to_nat n) len.
Proof.
  intros Hn Hlen Hmin. unfold length_octets. rewrite (proj2 (Z.ltb_ge _ _)) by lia.
  rewrite (len_size_value (Z.to_nat n)); rewrite ?Z2Nat.id by lia; [done|lia|done|].
  rewrite Z.shiftr_div_pow2 in Hmin by lia.
  rewrite pow256_2 by lia. replace (8 * (n - 1)) with ((n - 1) * 8) by lia.
  destruct (Z.lt_ge_cases len (2 ^ ((n - 1) * 8))); [|by right]. rewrite Z.div_small in Hmin by lia. done.
Qed.

Lemma length_octets_long_inv len : 128 <= len < 2 ^ 32 ->
  let n := Z.of_nat (len_size len) in
  length_octets len = (128 + n) :: be_bytes (len_size len) len /\ 1 <= n <= 4 /\
  len < 256 ^ n /\ ((len ≫ ((n - 1) * 8)) =? 0) = false.
Proof.
  intros Hlen n. unfold length_octets. rewrite (proj2 (Z.ltb_ge _ _)) by lia.
  pose proof (len_size_bound len). destruct (len_size_bounds len Hlen) as [Hlt Hge].
  split_and!; [done|unfold n; lia..|done|]. apply Z.eqb_neq.
  rewrite Z.shiftr_div_pow2 by (unfold n; lia). rewrite Z.mul_comm, <- pow256_2 by (unfold n; lia).
  unfold n in *. destruct Hge as [E|Hge]; [rewrite E, Z.div_1_r; lia|].
  assert (0 < 256 ^ (Z.of_nat (len_size len) - 1)) by (apply Z.pow_pos_nonneg; lia).
  intros E. apply Z.div_small_iff in E; lia.
Qed.

(** The two ways to read the length, as [cbs_get_any_asn1_element] computes
    them; [header] is what follows the tag. *)
Lemma length_byte_cases lb : is_byte lb ->
  ((lb .& 0x80) =? 0) = (lb <? 128) /\ (lb .& 0x7f) = lb mod 128.
Proof. intros H. destruct (byte_split lb H) as (-> & -> & _). done. Qed.

Definition der_result (s : CBS) (el : asn1_element) (s' : CBS) : Prop :=
  exists contents, valid_tag (el_tag el) /\ zlen contents < 2 ^ 32 /\
    el = mk_element (der_element (el_tag el) contents) (el_tag el)
           (zlen (der_header (el_tag el) (zlen contents))) false false /\
    s = el_out el ++ s'.

Lemma get_element_sound s el s' : bytes_ok s ->
  cbs_get_any_asn1_element false s = (Some el, s') -> der_result s el s'.
Proof.
  intros Hs H. unfold cbs_get_any_asn1_element in H.
  rewrite (bind_step _ _ _ _ _ (eq_refl : get s = (Some s, s))) in H.
  apply bind_Some in H as ([tag h1] & s1 & Ht & H). apply on_Some in Ht as [Ht ->].
  apply parse_asn1_tag_Some in Ht as [Htag ->]; [|done].
  apply bind_Some in H as ([lb h2] & s1 & Hlb & H). apply on_Some in Hlb as [Hlb ->].
  apply CBS_get_u8_Some in Hlb as ->.
  pose proof (zlen_tag_octets tag) as Htl. apply Forall_app in Hs as [_ Hs].
  apply Forall_cons in Hs as [Hb Hs]. destruct (length_byte_cases lb Hb) as [E1 E2].
  rewrite E1, E2 in H. unfold is_byte in Hb. unfold CBS_len, u64 in H.
  replace (zlen (tag_octets tag ++ lb :: h2) - zlen h2) with (zlen (tag_octets tag ++ [lb])) in H
    by zlia.
  assert (Htl' : zlen (tag_octets tag ++ [lb]) = zlen (tag_octets tag) + 1) by zlia.
  replace (tag_octets tag ++ lb :: h2) with ((tag_octets tag ++ [lb]) ++ h2) in *
    by (by rewrite <- app_assoc).
  unfold der_result.
  destruct (Z.ltb_spec lb 128) as [Hlow|Hhigh].
  - rewrite Z.mod_small, (Z.add_comm lb) in H by lia.
    apply bind_Some in H as (out & t & Ho & Hr). apply ret_Some in Hr as [-> ->].
    apply get_bytes_element in Ho as (c & -> & -> & Hc); [|lia].
    cbn [el_tag el_out]. exists c. unfold der_element, der_header. rewrite Hc, length_octets_short by lia.
    split_and!; [done|lia|done|]. rewrite <- !app_assoc. done.
  - cbn [andb] in H. cbv zeta in H. rewrite bind_guard in H.
    set (n := lb mod 128) in *. assert (Hn : lb = 128 + n) by (unfold n; dlia).
    destruct (negb _) eqn:Hn4; [|done]. apply negb_true_iff, orb_false_iff in Hn4 as [Hn0 Hn4].
    apply Z.eqb_neq in Hn0. rewrite Z.gtb_ltb in Hn4. apply Z.ltb_ge in Hn4.
    assert (Hn1 : 1 <= n <= 4) by (unfold n in *; dlia). clear Hn0 Hn4.
    apply bind_Some in H as ([len h3] & s1 & Hlen & H). apply on_Some in Hlen as [Hlen ->].
    apply cbs_get_u_Some in Hlen as [Hlen ->]; [|lia|done].
    assert (256 ^ n <= 256 ^ 4) as Hpow by (apply Z.pow_le_mono_r; lia). change (256 ^ 4) with 4294967296 in Hpow.
    rewrite !orb_false_r, !bind_guard in H.
    destruct (Z.ltb_spec len 128) as [|Hl]; [done|]. cbn [negb] in H.
    destruct ((len ≫ ((n - 1) * 8)) =? 0) eqn:Hmin; [done|]. apply Z.eqb_neq in Hmin. cbn [negb] in H.
    rewrite !Z.mod_small in H by lia.
    destruct (Z.ltb_spec (len + zlen (tag_octets tag ++ [lb]) + n) len) as [|_]; [lia|]. cbn [negb orb] in H.
    assert (Hbe : zlen (be_bytes (Z.to_nat n) len) = n) by (rewrite zlen_be_bytes; lia).
    apply bind_Some in H as (out & t & Ho & Hr). apply ret_Some in Hr as [-> ->].
    rewrite app_assoc, (Z.add_comm len) in Ho.
    replace (zlen (tag_octets tag ++ [lb]) + n)
      with (zlen ((tag_octets tag ++ [lb]) ++ be_bytes (Z.to_nat n) len)) in * by (rewrite (zlen_app _ (be_bytes _ _)); lia).
    apply get_bytes_element in Ho as (c & -> & -> & Hc); [|lia].
    cbn [el_tag el_out]. exists c. unfold der_element, der_header.
    rewrite Hc, (length_octets_long n) by (done || lia). rewrite <- Hn.
    rewrite <- !app_assoc. cbn [app]. split_and!; [done|change (2 ^ 32) with 4294967296; lia|done|done].
Qed.

Lemma get_element_complete tag contents s' : valid_tag tag -> zlen contents < 2 ^ 32 ->
  bytes_ok contents -> bytes_ok s' ->
  cbs_get_any_asn1_element false (der_element tag contents ++ s') =
  (Some (mk_element (der_element tag contents) tag
           (zlen (der_header tag (zlen contents))) false false), s').
Proof.
  intros Htag Hc Hok Hs'. unfold cbs_get_any_asn1_element.
  set (s := der_element tag contents ++ s').
  assert (Hs : bytes_ok s) by (apply Forall_app; split; [by apply der_element_ok|done]).
  rewrite (bind_step _ _ _ _ _ (eq_refl : get s = (Some s, s))).
  set (h1 := length_octets (zlen contents) ++ contents ++ s').
  assert (Es : s = tag_octets tag ++ h1) by (unfold s, h1, der_element, der_header; by rewrite <- !app_assoc).
  erewrite bind_step by (apply on_Some; split; [|done]; apply parse_asn1_tag_Some; [done|split; [done|exact Es]]).
  pose proof (zlen_tag_octets tag) as Htl. pose proof (zlen_nonneg contents) as Hc0.
  change (2 ^ 32) with 4294967296 in *. unfold u64.
  destruct (Z.lt_ge_cases (zlen contents) 128) as [Hsmall|Hbig].
  - unfold h1 in *. rewrite length_octets_short in * by lia. cbn [app] in *.
    erewrite bind_step by (apply on_Some; split; [apply CBS_get_u8_cons|done]).
    destruct (length_byte_cases (zlen contents)) as [-> _]; [unfold is_byte; lia|].
    rewrite (proj2 (Z.ltb_lt _ _)) by lia.
    replace (CBS_len s - CBS_len (contents ++ s')) with (zlen (der_header tag (zlen contents))).
    2: { unfold CBS_len, der_header. rewrite Es, length_octets_short by lia. zlia. }
    rewrite Z.mod_small by (unfold der_header; rewrite length_octets_short by lia; zlia).
    rewrite Z.add_comm. erewrite bind_step; [reflexivity|].
    unfold s, der_element. rewrite <- app_assoc. apply get_bytes_element; [lia|]. eauto.
  - destruct (length_octets_long_inv (zlen contents)) as (El & Hn & Hlt & Hmin);
      [change (2 ^ 32) with 4294967296; lia|].
    set (n := Z.of_nat (len_size (zlen contents))) in *.
    unfold h1 in *. rewrite El in *. cbn [app] in *.
    erewrite bind_step by (apply on_Some; split; [apply CBS_get_u8_cons|done]).
    destruct (length_byte_cases (128 + n)) as [-> ->]; [unfold is_byte; lia|].
    rewrite (proj2 (Z.ltb_ge _ _)) by lia.
    replace ((128 + n) mod 128) with n by dlia. cbn [andb]. rewrite bind_guard, Z.gtb_ltb.
    rewrite (proj2 (Z.eqb_neq n 0)), (proj2 (Z.ltb_ge 4 n)) by lia. cbn [orb negb].
    erewrite bind_step.
    2: { apply on_Some. split; [|done]. apply (cbs_get_u_Some n _ (zlen contents) (contents ++ s')); [lia| |split; [lia|]].
         - rewrite Es in Hs. apply Forall_app in Hs as [_ Hs]. by apply Forall_cons in Hs as [_ Hs].
         - unfold n. by rewrite Nat2Z.id. }
    cbv beta iota zeta. rewrite !bind_guard, Hmin, (proj2 (Z.ltb_ge _ 128)) by lia. cbn [negb orb].
    set (hd := zlen (der_header tag (zlen contents))).
    assert (Hhd : hd = zlen (tag_octets tag) + 1 + n).
    { unfold hd, der_header. rewrite El. autorewrite with zlen. fold n. lia. }
    match goal with |- context [CBS_len s - CBS_len ?h] =>
      replace (CBS_len s - CBS_len h) with (zlen (tag_octets tag) + 1)
        by (unfold CBS_len; rewrite Es; zlia) end.
    rewrite !Z.mod_small by lia.
    rewrite (proj2 (Z.ltb_ge _ (zlen contents))) by lia. cbn [negb].
    rewrite <- Hhd, Z.add_comm. erewrite bind_step; [reflexivity|].
    rewrite <- Es. unfold s, der_element. rewrite <- app_assoc. apply get_bytes_element; [lia|]. eauto.
Qed.

(** A parser reads exactly the encodings of its results. *)
Lemma get_element_iff s out tag hl s' : bytes_ok s ->
  CBS_get_any_asn1_element s = (Some (out, tag, hl), s') <->
  exists contents, valid_tag tag /\ zlen contents < 2 ^ 32 /\
    out = der_element tag contents /\ hl = zlen (der_header tag (zlen contents)) /\
    s = der_element tag contents ++ s'.
Proof.
  intros Hs. unfold CBS_get_any_asn1_element. rewrite bind_Some. setoid_rewrite ret_Some. split.
  - intros (el & t & H & [= -> -> ->] & ->).
    apply get_element_sound in H as (c & Htag & Hc & -> & ->); [|done].
    exists c. cbn [el_out el_tag el_header_len] in *. done.
  - intros (c & Htag & Hc & -> & -> & ->). apply Forall_app in Hs as [Hs1 Hs2].
    eexists _, _. split; [apply get_element_complete; try done|done].
    unfold der_element in Hs1. by apply Forall_app in Hs1 as [_ ?].
Qed.

Lemma der_skip_header tag c : CBS_skip (zlen (der_header tag (zlen c))) (der_element tag c) = (Some tt, c).
Proof. apply CBS_skip_Some; [apply zlen_nonneg|]. by exists (der_header tag (zlen c)). Qed.

Lemma CBS_get_asn1_Some tag s c s' : bytes_ok s ->
  CBS_get_asn1 tag s = (Some c, s') <->
  valid_tag tag /\ zlen c < 2 ^ 32 /\ s = der_element tag c ++ s'.
Proof.
  intros Hs. unfold CBS_get_asn1, cbs_get_asn1. rewrite bind_Some. split.
  - intros ([[out tag'] hl] & t & H & Hk). apply get_element_iff in H as (c' & Htag & Hc & -> & -> & ->); [|done].
    rewrite bind_guard in Hk. destruct (Z.eqb_spec tag' tag) as [->|]; [|done].
    rewrite (bind_step _ _ _ (tt, c') t) in Hk by (apply on_Some; by rewrite der_skip_header).
    apply ret_Some in Hk as [-> ->]. done.
  - intros (Htag & Hc & ->). eexists (_, _, _), _. split; [apply get_element_iff; [done|eauto 10]|].
    rewrite bind_guard, Z.eqb_refl.
    by rewrite (bind_step _ _ _ (tt, c) s') by (apply on_Some; by rewrite der_skip_header).
Qed.

Lemma CBS_get_asn1_element_Some tag s out s' : bytes_ok s ->
  CBS_get_asn1_element tag s = (Some out, s') <->
  exists c, valid_tag tag /\ zlen c < 2 ^ 32 /\ out = der_element tag c /\ s = der_element tag c ++ s'.
Proof.
  intros Hs. unfold CBS_get_asn1_element, cbs_get_asn1. rewrite bind_Some. split.
  - intros ([[out' tag'] hl] & t & H & Hk). apply get_element_iff in H as (c' & Htag & Hc & -> & -> & ->); [|done].
    rewrite bind_guard in Hk. destruct (Z.eqb_spec tag' tag) as [->|]; [|done].
    apply ret_Some in Hk as [-> ->]. eauto 10.
  - intros (c & Htag & Hc & -> & ->). eexists (_, _, _), _. split; [apply get_element_iff; [done|eauto 10]|].
    rewrite bind_guard, Z.eqb_refl. done.
Qed.

Lemma get_any_asn1_Some s c tag s' : bytes_ok s ->
  CBS_get_any_asn1 s = (Some (c, tag), s') <->
  valid_tag tag /\ zlen c < 2 ^ 32 /\ s = der_element tag c ++ s'.
Proof.
  intros Hs. unfold CBS_get_any_asn1. rewrite bind_Some. split.
  - intros ([[out tag'] hl] & t & H & Hk). apply get_element_iff in H as (c' & Htag & Hc & -> & -> & ->); [|done].
    rewrite (bind_step _ _ _ (tt, c') t) in Hk by (apply on_Some; by rewrite der_skip_header).
    by apply ret_Some in Hk as [[= -> ->] ->].
  - intros (Htag & Hc & ->). eexists (_, _, _), _. split; [apply get_element_iff; [done|eauto 10]|].
    by rewrite (bind_step _ _ _ (tt, c) s') by (apply on_Some; by rewrite der_skip_header).
Qed.

(** C13. [CBS_get_any_asn1] is a DER parser: on any input it succeeds with a tag
    and contents exactly when the input starts with the one DER encoding of an
    element with this tag and these contents (a valid tag, the contents shorter
    than 2^32 octets), and it then leaves what follows the element. In
    particular long-form lengths that are not minimal, tag numbers that are not
    minimal, indefinite lengths and truncated elements are all refused. *)
Theorem CBS_get_any_asn1_der :
  reads_exactly CBS_get_any_asn1 (fun '(c, tag) => valid_tag tag /\ zlen c < 2 ^ 32)
    (fun '(c, tag) => der_element tag c).
Proof. intros s [c tag] s' Hs. rewrite get_any_asn1_Some by done. tauto. Qed.

(** A sequence that holds a boolean, and the same element with a long-form length
    that is not minimal. *)
Example get_any_asn1_examples :
  CBS_get_any_asn1 [0x30; 3; 1; 1; 0xff; 7] = (Some ([1; 1; 0xff], CBS_ASN1_CONSTRUCTED .| 16), [7]) /\
  fst (CBS_get_any_asn1 [0x30; 0x81; 3; 1; 1; 0xff; 7]) = None.
Proof. vm_compute. done. Qed.

(** ** Integers and booleans *)

Lemma hd_high_bit b : is_byte b -> negb ((b .& 0x80) =? 0) = (128 <=? b).
Proof. intros H. destruct (byte_split b H) as (_ & -> & _). by rewrite Z.leb_antisym. Qed.

Lemma CBS_is_valid_asn1_integer_spec l : bytes_ok l ->
  CBS_is_valid_asn1_integer l = if minimal_int l then Some (128 <=? hd 0 l) else None.
Proof.
  intros Hl. destruct l as [|a [|b l]]; [done|..].
  - apply Forall_cons in Hl as [Ha _]. unfold CBS_is_valid_asn1_integer.
    rewrite CBS_get_u8_cons, CBS_get_u8_nil, hd_high_bit by done. done.
  - apply Forall_cons in Hl as [Ha Hl]. apply Forall_cons in Hl as [Hb _].
    unfold CBS_is_valid_asn1_integer. rewrite !CBS_get_u8_cons, !hd_high_bit by done.
    destruct (byte_split b Hb) as (_ & -> & _). cbn [hd minimal_int].
    destruct (a =? 0), (b <? 128), (a =? 255), (128 <=? b); done.
Qed.

Lemma get_asn1_uint64_loop_spec l : bytes_ok l -> forall out, 0 <= out < 2 ^ 64 ->
  get_asn1_uint64_loop out l =
  let v := out * 256 ^ zlen l + be_value l in if v <? 2 ^ 64 then Some v else None.
Proof.
  induction 1 as [|b l Hb Hl IH]; intros out Hout; cbn [get_asn1_uint64_loop].
  - change (zlen []) with 0. change (be_value []) with 0. cbv zeta.
    rewrite Z.mul_1_r, Z.add_0_r. by rewrite (proj2 (Z.ltb_lt _ _)) by lia.
  - rewrite be_value_cons, zlen_cons. cbv zeta. pose proof (be_value_bound l Hl) as Hv.
    pose proof (zlen_nonneg l). unfold is_byte in Hb.
    assert (Hp : 0 < 256 ^ zlen l) by (apply Z.pow_pos_nonneg; lia).
    rewrite Z.pow_add_r by lia. change (256 ^ 1) with 256. change (2 ^ 64) with 18446744073709551616 in *.
    rewrite Z.shiftr_div_pow2 by lia. change (2 ^ 56) with 72057594037927936.
    destruct (Z.eqb_spec (out / 72057594037927936) 0) as [E|E]; cbn [negb].
    + assert (out < 72057594037927936) by dlia.
      unfold u64. rewrite Z.mod_small by (rewrite Z.shiftl_mul_pow2 by lia; lia).
      rewrite lor_shiftl by lia. change (2 ^ 8) with 256. rewrite IH by lia. cbv zeta.
      by replace ((out * 256 + b) * 256 ^ zlen l + be_value l)
        with (out * (256 * 256 ^ zlen l) + (b * 256 ^ zlen l + be_value l)) by lia.
    + assert (72057594037927936 <= out) by dlia.
      rewrite (proj2 (Z.ltb_ge _ _)); [done|]. nia.
Qed.

Lemma int_value_nonneg l : (128 <=? hd 0 l) = false -> int_value l = be_value l.
Proof. intros H. unfold int_value. rewrite H. lia. Qed.

(** Integers that fit: at most nine octets when not negative. *)
Lemma unsigned_octets_length l : bytes_ok l -> minimal_int l = true ->
  (128 <=? hd 0 l) = false -> be_value l < 2 ^ 64 -> (length l <= 9)%nat.
Proof.
  intros Hl Hmin Hhd Hv. destruct l as [|a [|b l]]; [cbn; lia..|].
  apply Forall_cons in Hl as [Ha Hl]. apply Forall_cons in Hl as [Hb Hl]. unfold is_byte in *.
  cbn [minimal_int hd] in *. rewrite !be_value_cons, !zlen_cons in Hv.
  pose proof (be_value_bound l Hl). pose proof (zlen_nonneg l).
  destruct (Nat.le_gt_cases (length (a :: b :: l)) 9) as [|Hlong]; [done|]. exfalso.
  assert (Hp : 256 ^ 8 <= 256 ^ zlen l) by (apply Z.pow_le_mono_r; unfold zlen; cbn in Hlong; lia).
  change (256 ^ 8) with 18446744073709551616 in Hp. rewrite Z.pow_add_r in Hv by lia.
  change (256 ^ 1) with 256 in Hv. change (2 ^ 64) with 18446744073709551616 in *.
  assert (a = 0 \/ 1 <= a) as [->|] by lia; [|nia].
  cbn in Hmin. destruct (Z.ltb_spec b 128); [done|]. nia.
Qed.

Lemma int_size_int64 v : - 2 ^ 63 <= v < 2 ^ 63 -> (1 <= int_size v <= 8)%nat.
Proof.
  intros Hv. destruct (int_size_spec v) as (H1 & H2 & H3); [change (2 ^ 71) with 2361183241434822606848; lia|].
  destruct (decide (int_size v = 9%nat)) as [E|]; [|lia]. rewrite E in H3. cbn [Nat.sub] in H3.
  destruct H3 as [|H3]; [done|]. exfalso. apply H3. change (8 * Z.of_nat 8 - 1) with 63. done.
Qed.

(** The sign of the first octet is the sign of the value. *)
Lemma int_value_sign l : minimal_int l = true -> bytes_ok l ->
  (128 <=? hd 0 l) = (int_value l <? 0).
Proof.
  intros Hmin Hl. destruct l as [|b l]; [done|]. apply Forall_cons in Hl as [Hb Hl].
  unfold is_byte in Hb. unfold int_value. cbn [hd]. rewrite be_value_cons, zlen_cons.
  pose proof (be_value_bound l Hl). pose proof (zlen_nonneg l).
  assert (0 < 256 ^ zlen l) by (apply Z.pow_pos_nonneg; lia).
  rewrite Z.pow_add_r by lia. change (256 ^ 1) with 256. symmetry.
  destruct (Z.leb_spec 128 b); [apply Z.ltb_lt|apply Z.ltb_ge]; nia.
Qed.

Lemma be_value_replicate_255 k : be_value (replicate k 255) = 256 ^ Z.of_nat k - 1.
Proof.
  induction k as [|k IH]; [done|]. cbn [replicate].
  rewrite be_value_cons, IH, zlen_replicate, pow256_succ. lia.
Qed.

Lemma be_value_replicate_0 k : be_value (replicate k 0) = 0.
Proof. induction k as [|k IH]; [done|]. cbn [replicate]. rewrite be_value_cons, IH. lia. Qed.

(** The sign extension done by [CBS_get_asn1_int64]. *)
Lemma sign_extend_value l (neg : bool) : bytes_ok l -> l <> [] -> (length l <= 8)%nat ->
  neg = (128 <=? hd 0 l) ->
  i64 (CRYPTO_load_u64_be (store (replicate 8 (if neg then 0xff else 0)) (8 - zlen l) l)) = int_value l.
Proof.
  intros Hl Hne Hlen Hneg. set (x := if neg then 0xff else 0). set (k := (8 - length l)%nat).
  assert (Hk : 8 - zlen l = Z.of_nat k) by (unfold zlen, k; lia).
  rewrite (store_app _ _ _ (replicate k x) (replicate (length l) x) []).
  2: { rewrite app_nil_r, <- replicate_add. unfold k. by replace (8 - length l + length l)%nat with 8%nat by lia. }
  2: { by rewrite zlen_replicate. }
  2: { by rewrite zlen_replicate. }
  rewrite app_nil_r.
  assert (Hx : is_byte x) by (unfold x, is_byte; destruct neg; lia).
  rewrite load_u64_be_value.
  2: { rewrite length_app, length_replicate. unfold k. lia. }
  2: { apply Forall_app. split; [by apply Forall_replicate|done]. }
  destruct (int_value_bound l Hne Hl) as [Hb _].
  assert (Hp : 2 ^ (8 * zlen l - 1) <= 2 ^ 63) by (apply Z.pow_le_mono_r; lia).
  change (2 ^ 63) with 9223372036854775808 in Hp.
  assert (Hpow : 256 ^ Z.of_nat k * 256 ^ zlen l = 18446744073709551616).
  { rewrite <- Z.pow_add_r by (zlen_pos; lia). by replace (Z.of_nat k + zlen l) with 8 by lia. }
  rewrite be_value_app. unfold i64, x. unfold int_value in *. rewrite <- Hneg in *. destruct neg.
  - rewrite be_value_replicate_255.
    replace ((256 ^ Z.of_nat k - 1) * 256 ^ zlen l + be_value l + 9223372036854775808)
      with (be_value l - 256 ^ zlen l + 9223372036854775808 + 1 * 18446744073709551616) by nia.
    rewrite Z.mod_add, Z.mod_small by lia. lia.
  - rewrite be_value_replicate_0, Z.mod_small by lia. lia.
Qed.

Lemma valid_tag_INTEGER : valid_tag CBS_ASN1_INTEGER.
Proof. done. Qed.

(** Reading back the octets of an integer. *)
Lemma get_asn1_int_octets v s' : - 2 ^ 63 <= v < 2 ^ 71 ->
  bytes_ok (der_element CBS_ASN1_INTEGER (int_octets v) ++ s') ->
  CBS_get_asn1 CBS_ASN1_INTEGER (der_element CBS_ASN1_INTEGER (int_octets v) ++ s') =
  (Some (int_octets v), s').
Proof.
  intros Hv Hs. apply CBS_get_asn1_Some; [done|].
  destruct (int_octets_facts v Hv) as (_ & _ & _ & ->). destruct (int_size_spec v Hv) as [? _].
  split_and!; [done|lia|done].
Qed.

(** What the integer readers have in hand after [CBS_get_asn1]. *)
Lemma get_asn1_int_contents s c t : bytes_ok s ->
  CBS_get_asn1 CBS_ASN1_INTEGER s = (Some c, t) ->
  bytes_ok c /\ s = der_element CBS_ASN1_INTEGER c ++ t.
Proof.
  intros Hs Hc. apply CBS_get_asn1_Some in Hc as (_ & _ & ->); [|done].
  apply Forall_app in Hs as [Hs _]. unfold der_element in Hs. by apply Forall_app in Hs as [_ Hs].
Qed.

Lemma CBS_get_asn1_uint64_Some s v s' : bytes_ok s ->
  CBS_get_asn1_uint64 s = (Some v, s') <->
  0 <= v < 2 ^ 64 /\ s = der_element CBS_ASN1_INTEGER (int_octets v) ++ s'.
Proof.
  intros Hs. unfold CBS_get_asn1_uint64, CBS_is_unsigned_asn1_integer. rewrite bind_Some. split.
  - intros (c & t & Hc & H). apply get_asn1_int_contents in Hc as [Hok ->]; [|done].
    rewrite CBS_is_valid_asn1_integer_spec, bind_guard in H by done.
    destruct (minimal_int c) eqn:Hmin; [|done]. destruct (128 <=? hd 0 c) eqn:Hhd; [done|].
    cbn [negb] in H. rewrite get_asn1_uint64_loop_spec in H by done.
    rewrite Z.mul_0_l, Z.add_0_l in H. cbv zeta in H.
    destruct (Z.ltb_spec (be_value c) (2 ^ 64)) as [Hlt|]; [|done]. apply ret_Some in H as [-> ->].
    pose proof (be_value_bound c Hok). split; [lia|]. f_equal. f_equal.
    rewrite <- int_value_nonneg by done. symmetry. apply int_octets_int_value; [done..| |].
    + by apply unsigned_octets_length.
    + rewrite int_value_nonneg by done. change (2 ^ 71) with 2361183241434822606848. lia.
  - intros [Hv ->].
    assert (Hr : - 2 ^ 63 <= v < 2 ^ 71) by (change (2 ^ 71) with 2361183241434822606848; lia).
    destruct (int_octets_facts v Hr) as (Hmin & Hval & Hok & _).
    assert (Hneg : (128 <=? hd 0 (int_octets v)) = false).
    { rewrite int_value_sign, Hval by done. apply Z.ltb_ge. lia. }
    exists (int_octets v), s'. split; [by apply get_asn1_int_octets|].
    rewrite CBS_is_valid_asn1_integer_spec, Hmin, Hneg, bind_guard by done. cbn [negb].
    rewrite get_asn1_uint64_loop_spec by done. rewrite Z.mul_0_l, Z.add_0_l. cbv zeta.
    rewrite <- (int_value_nonneg _ Hneg), Hval. by rewrite (proj2 (Z.ltb_lt _ _)) by lia.
Qed.

Lemma CBS_get_asn1_int64_Some s v s' : bytes_ok s ->
  CBS_get_asn1_int64 s = (Some v, s') <->
  - 2 ^ 63 <= v < 2 ^ 63 /\ s = der_element CBS_ASN1_INTEGER (int_octets v) ++ s'.
Proof.
  intros Hs. unfold CBS_get_asn1_int64. rewrite bind_Some. split.
  - intros (c & t & Hc & H). apply get_asn1_int_contents in Hc as [Hok ->]; [|done].
    rewrite CBS_is_valid_asn1_integer_spec in H by done.
    destruct (minimal_int c) eqn:Hmin; [|done]. rewrite bind_guard in H. unfold CBS_len in H.
    rewrite Z.gtb_ltb in H. destruct (Z.ltb_spec 8 (zlen c)); [done|]. cbn [negb] in H.
    assert (Hne : c <> []) by (by intros ->).
    assert (Hlen : (length c <= 8)%nat) by (unfold zlen in *; lia).
    cbv zeta in H. rewrite sign_extend_value in H by done. apply ret_Some in H as [-> ->].
    destruct (int_value_bound c Hne Hok) as [Hb _].
    assert (Hp : 2 ^ (8 * zlen c - 1) <= 2 ^ 63) by (apply Z.pow_le_mono_r; lia).
    split; [lia|]. f_equal. f_equal. symmetry.
    apply int_octets_int_value; [done..|lia|]. change (2 ^ 71) with 2361183241434822606848. lia.
  - intros [Hv ->].
    assert (Hr : - 2 ^ 63 <= v < 2 ^ 71) by (change (2 ^ 71) with 2361183241434822606848; lia).
    destruct (int_octets_facts v Hr) as (Hmin & Hval & Hok & Hlen).
    pose proof (int_size_int64 v Hv).
    exists (int_octets v), s'. split; [by apply get_asn1_int_octets|].
    rewrite CBS_is_valid_asn1_integer_spec, Hmin, bind_guard, Z.gtb_ltb by done. unfold CBS_len.
    rewrite (proj2 (Z.ltb_ge _ _)) by lia. cbn [negb]. cbv zeta.
    rewrite sign_extend_value; [by rewrite Hval|done| |unfold zlen in Hlen; lia|done].
    intros E. by rewrite E in Hmin.
Qed.

(** The integer readers accept exactly the DER integers of their range:
    [CBS_get_asn1_uint64] returns [v] iff the input starts with the element
    INTEGER whose contents are the shortest two's complement octets of [v] and
    [0 <= v < 2^64]; [CBS_get_asn1_int64] does so for [-2^63 <= v < 2^63], with
    the sign extended as C's [int64_t] has it. *)
Theorem CBS_get_asn1_int_der :
  reads_exactly CBS_get_asn1_uint64 (fun v => 0 <= v < 2 ^ 64)
    (fun v => der_element CBS_ASN1_INTEGER (int_octets v)) /\
  reads_exactly CBS_get_asn1_int64 (fun v => - 2 ^ 63 <= v < 2 ^ 63)
    (fun v => der_element CBS_ASN1_INTEGER (int_octets v)).
Proof. split; intros s v s' Hs; [by apply CBS_get_asn1_uint64_Some|by apply CBS_get_asn1_int64_Some]. Qed.

Example get_asn1_int64_examples :
  CBS_get_asn1_int64 [2; 2; 0xff; 0x7f] = (Some (-129), []) /\
  fst (CBS_get_asn1_int64 [2; 2; 0xff; 0x80]) = None.
Proof. vm_compute. done. Qed.
