(* ===== verification/CbsTime.v ===== *)
(** * Times in certificates (CBS_parse_generalized_time, CBS_parse_utc_time)

    The two formats as functions from times to characters, and the proof that
    the parsers accept exactly the characters of valid times, with the offsets that
    the caller allows, and return those times shifted by their offsets. *)

From S2P Require Import Prelude Words Mem PosixTime Cbs CbsFacts.

(** ** The formats *)

Definition two_digits (v : Z) : list Z := [48 + v / 10; 48 + v mod 10].

(** A time zone: [Z], or a sign with hours and minutes. *)
Inductive zone := Zulu | Offset (negative : bool) (hours minutes : Z).

Definition zone_octets (z : zone) : list Z :=
  match z with
  | Zulu => [90]
  | Offset neg h m => (if neg then 45 else 43) :: two_digits h ++ two_digits m
  end.

Definition valid_zone (z : zone) : Prop :=
  match z with
  | Zulu => True
  | Offset _ h m => 0 <= h <= 23 /\ 0 <= m <= 59
  end.

(** The seconds by which the code shifts the time. *)
Definition zone_shift (z : zone) : Z :=
  match z with
  | Zulu => 0
  | Offset neg h m => (if neg then -1 else 1) * (h * 3600 + m * 60)
  end.

Definition year_octets (is_gentime : bool) (year : Z) : list Z :=
  if is_gentime then two_digits (year / 100) ++ two_digits (year mod 100)
  else two_digits (year mod 100).

Definition year_ok (is_gentime : bool) (year : Z) : Prop :=
  if is_gentime then 0 <= year <= 9999 else 1950 <= year < 2050.

Definition time_octets (is_gentime : bool) (t : tm) (z : zone) : list Z :=
  year_octets is_gentime (tm_year t + 1900) ++ two_digits (tm_mon t + 1) ++
  two_digits (tm_mday t) ++ two_digits (tm_hour t) ++ two_digits (tm_min t) ++
  two_digits (tm_sec t) ++ zone_octets z.

(** ** Reading digits *)

Lemma bind_digits {A} (k : Z -> M CBS A) s r s' :
  (let* v := cbs_get_two_digits in k v) s = (Some r, s') <->
  exists v t, 0 <= v <= 99 /\ s = two_digits v ++ t /\ k v t = (Some r, s').
Proof.
  rewrite bind_Some. unfold cbs_get_two_digits. split.
  - intros (v & t & H & Hk). 
    apply bind_Some in H as (a & t1 & Ha & H). apply CBS_get_u8_Some in Ha as ->.
    rewrite bind_guard in H. destruct (OPENSSL_isdigit a) eqn:Da; [|done].
    apply bind_Some in H as (b & t2 & Hb & H). apply CBS_get_u8_Some in Hb as ->.
    rewrite bind_guard in H. destruct (OPENSSL_isdigit b) eqn:Db; [|done].
    apply ret_Some in H as [-> ->]. unfold OPENSSL_isdigit in *.
    exists ((a - 48) * 10 + (b - 48)), t2. split; [lia|]. split; [|done].
    unfold two_digits. cbn [app]. f_equal; [dlia|]. f_equal. dlia.
  - intros (v & t & Hv & -> & Hk). exists v, t. split; [|done].
    unfold two_digits. cbn [app].
    rewrite (bind_step _ _ _ _ _ (CBS_get_u8_cons _ _)), bind_guard.
    assert (D1 : OPENSSL_isdigit (48 + v / 10) = true) by (unfold OPENSSL_isdigit; dlia).
    assert (D2 : OPENSSL_isdigit (48 + v mod 10) = true) by (unfold OPENSSL_isdigit; dlia).
    rewrite D1, (bind_step _ _ _ _ _ (CBS_get_u8_cons _ _)), bind_guard, D2.
    apply ret_Some. split; [dlia|done].
Qed.

Lemma bind_guard_Some {A} (b : bool) (k : M CBS A) s r s' :
  (guard b ;;; k) s = (Some r, s') <-> b = true /\ k s = (Some r, s').
Proof. rewrite bind_guard. destruct b; naive_solver. Qed.

Lemma bind_get_Some {A} (k : CBS -> M CBS A) s r s' :
  (let* x := get in k x) s = (Some r, s') <-> k s s = (Some r, s').
Proof. done. Qed.

Lemma is_valid_day_spec y m d : 1 <= m <= 12 ->
  is_valid_day y m d = true <-> 1 <= d <= days_in_month y m.
Proof.
  intros Hm. unfold is_valid_day, days_in_month, is_leap.
  repeat (case_match; rewrite ?orb_true_iff, ?orb_false_iff, ?andb_true_iff, ?Z.ltb_lt, ?Z.ltb_ge,
    ?Z.eqb_eq, ?Z.eqb_neq, ?Z.leb_le, ?Z.leb_gt in * ); lia.
Qed.

(** The end of the parser: the time zone and the result. *)
Definition zone_tail (allow_timezone_offset : bool) : M CBS Z :=
  let* tz := CBS_get_u8 in
  let* offset_sign :=
    if tz =? 90 then ret 0
    else if tz =? 43 then ret 1
    else if tz =? 45 then ret (-1)
    else fail in
  if negb (offset_sign =? 0) then
    guard allow_timezone_offset ;;;
    let* offset_hours := cbs_get_two_digits in
    guard (negb (offset_hours >? 23)) ;;;
    let* offset_minutes := cbs_get_two_digits in
    guard (negb (offset_minutes >? 59)) ;;;
    ret (offset_sign * (offset_hours * 3600 + offset_minutes * 60))
  else ret 0.

Definition year_head (is_gentime : bool) : M CBS Z :=
  if is_gentime then
    let* tmp := cbs_get_two_digits in
    let year := tmp * 100 in
    let* tmp := cbs_get_two_digits in
    ret (year + tmp)
  else
    let year := 1900 in
    let* tmp := cbs_get_two_digits in
    let year := year + tmp in
    let year := if year <? 1950 then year + 100 else year in
    guard (negb (year >=? 2050)) ;;;
    ret year.

(** A year is read, and nothing but the digits of a year. *)
Lemma year_head_Some g s y s' :
  year_head g s = (Some y, s') <-> year_ok g y /\ s = year_octets g y ++ s'.
Proof.
  unfold year_head, year_ok, year_octets. destruct g.
  - rewrite bind_digits. setoid_rewrite bind_digits. setoid_rewrite ret_Some. split.
    + intros (a & t & Ha & -> & b & t' & Hb & -> & -> & ->). split; [lia|].
      replace ((a * 100 + b) / 100) with a by dlia. by replace ((a * 100 + b) mod 100) with b by dlia.
    + intros [Hy ->]. exists (y / 100), (two_digits (y mod 100) ++ s').
      split; [dlia|]. split; [by rewrite <- app_assoc|].
      exists (y mod 100), s'. split_and!; [dlia..|done|dlia|done].
  - rewrite bind_digits. setoid_rewrite bind_guard_Some. setoid_rewrite ret_Some. split.
    + intros (v & t & Hv & -> & Hg & -> & ->).
      destruct (Z.ltb_spec (1900 + v) 1950).
      * split; [lia|]. by replace ((1900 + v + 100) mod 100) with v by dlia.
      * split; [lia|]. by replace ((1900 + v) mod 100) with v by dlia.
    + intros [Hy ->]. exists (y mod 100), s'. split; [dlia|]. split; [done|].
      destruct (Z.ltb_spec (1900 + y mod 100) 1950).
      * assert (1900 + y mod 100 + 100 = y) as -> by dlia. split_and!; [lia|done..].
      * assert (1900 + y mod 100 = y) as -> by dlia. split_and!; [lia|done..].
Qed.

Lemma zone_tail_Some allow s off s' :
  zone_tail allow s = (Some off, s') <->
  exists z, valid_zone z /\ (z = Zulu \/ allow = true) /\ off = zone_shift z /\ s = zone_octets z ++ s'.
Proof.
  assert (Hoff : forall sign c t,
    ((guard allow ;;; let* h := cbs_get_two_digits in guard (negb (h >? 23)) ;;;
      let* m := cbs_get_two_digits in guard (negb (m >? 59)) ;;; ret (sign * (h * 3600 + m * 60))) t
     = (Some off, s') <->
     exists h m, allow = true /\ 0 <= h <= 23 /\ 0 <= m <= 59 /\ off = sign * (h * 3600 + m * 60) /\
       c :: t = c :: two_digits h ++ two_digits m ++ s')).
  { intros sign c t. rewrite bind_guard_Some, bind_digits.
    setoid_rewrite bind_guard_Some. setoid_rewrite bind_digits.
    setoid_rewrite bind_guard_Some. setoid_rewrite ret_Some. split.
    - intros (-> & h & t1 & Hh & -> & Hg & m & t2 & Hm & -> & Hg' & -> & ->).
      exists h, m. split_and!; (done || lia).
    - intros (h & m & -> & Hh & Hm & -> & [= ->]). split; [done|].
      exists h, (two_digits m ++ s'). split_and!; [lia..|done|lia|].
      exists m, s'. split_and!; (done || lia). }
  unfold zone_tail. rewrite bind_Some. split.
  - intros (tz & t & Htz & H). apply CBS_get_u8_Some in Htz as ->.
    apply bind_Some in H as (sign & t' & Hs & H).
    destruct (Z.eqb_spec tz 90) as [->|]; [|destruct (Z.eqb_spec tz 43) as [->|];
      [|destruct (Z.eqb_spec tz 45) as [->|]; [|done]]];
      apply ret_Some in Hs as [-> ->]; cbn [negb Z.eqb] in H.
    + apply ret_Some in H as [-> ->]. exists Zulu. split_and!; try done. by left.
    + apply (Hoff 1 43) in H as (h & m & -> & Hh & Hm & -> & E).
      exists (Offset false h m). split_and!; try done. by right.
    + apply (Hoff (-1) 45) in H as (h & m & -> & Hh & Hm & -> & E).
      exists (Offset true h m). split_and!; try done. by right.
  - intros ([|neg h m] & Hz & Hallow & -> & ->).
    + exists 90, s'. split; [by apply CBS_get_u8_Some|done].
    + destruct Hallow as [|Hallow]; [done|]. destruct Hz as [Hh Hm].
      exists (if neg then 45 else 43), (two_digits h ++ two_digits m ++ s').
      split; [by apply CBS_get_u8_Some|].
      destruct neg; cbn [Z.eqb].
      * apply (Hoff (-1) 45). exists h, m. split_and!; (done || lia).
      * apply (Hoff 1 43). exists h, m. split_and!; (done || lia).
Qed.

Lemma two_digits_app v s : two_digits v ++ s = 48 + v / 10 :: 48 + v mod 10 :: s.
Proof. done. Qed.

(** The parser reads its zone with [zone_tail]. *)
Lemma bind_zone {A} allow (k : Z -> M CBS A) s :
  (let* tz := CBS_get_u8 in
   let* offset_sign :=
     if tz =? 90 then ret 0
     else if tz =? 43 then ret 1
     else if tz =? 45 then ret (-1)
     else fail in
   let* offset_seconds :=
     if negb (offset_sign =? 0) then
       guard allow ;;;
       let* offset_hours := cbs_get_two_digits in
       guard (negb (offset_hours >? 23)) ;;;
       let* offset_minutes := cbs_get_two_digits in
       guard (negb (offset_minutes >? 59)) ;;;
       ret (offset_sign * (offset_hours * 3600 + offset_minutes * 60))
     else ret 0 in
   k offset_seconds) s = (let* off := zone_tail allow in k off) s.
Proof.
  unfold zone_tail, bind. destruct (CBS_get_u8 s) as [[tz|] t]; [|done].
  destruct (tz =? 90), (tz =? 43), (tz =? 45); reflexivity.
Qed.

(** What a parser returns for a time [t] and an offset. *)
Definition time_result (out_tm : bool) (t : tm) (off : Z) (r : option tm) : Prop :=
  if out_tm then exists r', r = Some r' /\ (if off =? 0 then r' = t else OPENSSL_gmtime_adj t 0 off = Some r')
  else r = None.

Lemma bind_result (out_tm : bool) (off : Z) (t : tm) s r s' :
  (if out_tm then
     if negb (off =? 0) then
       match OPENSSL_gmtime_adj t 0 off with
       | None => fail
       | Some t => ret (Some t)
       end
     else ret (Some t)
   else ret None : M CBS (option tm)) s = (Some r, s') <->
  s' = s /\ time_result out_tm t off r.
Proof.
  unfold time_result. destruct out_tm; [|rewrite ret_Some; naive_solver].
  destruct (off =? 0); cbn [negb].
  - rewrite ret_Some. naive_solver.
  - destruct (OPENSSL_gmtime_adj t 0 off); rewrite ?ret_Some; unfold fail; naive_solver.
Qed.

(** The characters of a valid time with a zone that the caller allows. *)
Definition time_form (is_gentime allow : bool) (s : CBS) (t : tm) (z : zone) : Prop :=
  valid_tm t = true /\ year_ok is_gentime (tm_year t + 1900) /\ valid_zone z /\
  (z = Zulu \/ allow = true) /\ s = time_octets is_gentime t z.

(** The whole parser: year, five fields, zone, nothing else. *)
Lemma parse_time_result g allow out_tm s r :
  CBS_parse_rfc5280_time_internal s g allow out_tm = Some r <->
  exists t z, time_form g allow s t z /\ time_result out_tm t (zone_shift z) r.
Proof.
  unfold CBS_parse_rfc5280_time_internal. fold (year_head g).
  set (m := bind (year_head g) _). transitivity (exists s', m s = (Some r, s')).
  { destruct (m s) as [[x|] s']; cbn; naive_solver. }
  unfold m. clear m. setoid_rewrite bind_Some. setoid_rewrite year_head_Some.
  setoid_rewrite bind_digits. setoid_rewrite bind_guard_Some. setoid_rewrite bind_digits.
  setoid_rewrite bind_guard_Some. setoid_rewrite bind_digits. setoid_rewrite bind_guard_Some.
  setoid_rewrite bind_digits. setoid_rewrite bind_guard_Some.  setoid_rewrite bind_digits.
  setoid_rewrite bind_guard_Some. setoid_rewrite bind_zone.
  setoid_rewrite bind_Some. setoid_rewrite zone_tail_Some. setoid_rewrite bind_get_Some.
  setoid_rewrite bind_guard_Some. setoid_rewrite bind_result. split.
  - intros (s' & y & s0 & (Hy & ->) & mo & s1 & Hmo & -> & Gmo & d & s2 & Hd & -> & Gd &
      h & s3 & Hh & -> & Gh & mi & s4 & Hmi & -> & Gmi & se & s5 & Hse & -> & Gse &
      off & s6 & (z & Hz & Hallow & -> & ->) & Gend & -> & Hr).
    apply Z.eqb_eq, zlen_0_nil in Gend as ->.
    exists (mk_tm (y - 1900) (mo - 1) d h mi se), z. split; [|done]. unfold time_form, time_octets, valid_tm.
    cbn [tm_year tm_mon tm_mday tm_hour tm_min tm_sec]. rewrite !Z.sub_add, app_nil_r.
    assert (Hmo' : 1 <= mo <= 12) by lia. rewrite is_valid_day_spec in Gd by done.
    split_and!; try done.
    rewrite (proj2 (is_valid_date_spec _ _ _)), (proj2 (is_valid_time_spec _ _ _)); [done|lia|].
    split_and!; [unfold year_ok in Hy; destruct g; lia..|lia|lia].
  - intros ([y mo d h mi se] & z & (Hv & Hy & Hz & Hallow & ->) & Hr).
    unfold time_octets, valid_tm in *. cbn [tm_year tm_mon tm_mday tm_hour tm_min tm_sec] in *.
    apply andb_true_iff in Hv as [Hd Ht].
    apply is_valid_date_spec in Hd as (_ & Hmo & Hd). apply is_valid_time_spec in Ht.
    pose proof (days_in_month_bound (y + 1900) (mo + 1)).
    eexists [], (y + 1900), _. split; [done|].
    eexists (mo + 1), _. split; [lia|]. split; [done|]. split; [lia|].
    eexists d, _. split; [lia|]. split; [done|]. split; [by apply is_valid_day_spec|].
    eexists h, _. split; [lia|]. split; [done|]. split; [lia|].
    eexists mi, _. split; [lia|]. split; [done|]. split; [lia|].
    eexists se, _. split; [lia|]. split; [done|]. split; [lia|].
    exists (zone_shift z), []. split; [exists z; by rewrite app_nil_r|].
    split; [done|]. split; [done|]. by rewrite !Z.add_simpl_r.
Qed.

Lemma parse_time_Some g allow s r :
  CBS_parse_rfc5280_time_internal s g allow true = Some (Some r) <->
  exists t z, time_form g allow s t z /\
    (if zone_shift z =? 0 then r = t else OPENSSL_gmtime_adj t 0 (zone_shift z) = Some r).
Proof. rewrite parse_time_result. unfold time_result. naive_solver. Qed.

(** The shift in terms of POSIX values. *)
Lemma zone_shift_posix z t r : valid_tm t = true -> valid_zone z ->
  (if zone_shift z =? 0 then r = t else OPENSSL_gmtime_adj t 0 (zone_shift z) = Some r) <->
  exists p, OPENSSL_tm_to_posix t = Some p /\ OPENSSL_tm_to_posix r = Some (p + zone_shift z).
Proof.
  intros Hv Hz. apply is_Some_tm_to_posix in Hv as [p Hp].
  assert (Hrange : -86400 < zone_shift z < 86400).
  { destruct z as [|neg h m]; cbn [zone_shift valid_zone] in *; [lia|]. destruct neg; lia. }
  destruct (Z.eqb_spec (zone_shift z) 0) as [E|E].
  - rewrite E. setoid_rewrite Z.add_0_r. split; [intros ->; eauto|].
    intros (p' & Hp' & Hr). rewrite Hp in Hp'. injection Hp' as <-.
    apply tm_to_posix_inv in Hp as [_ Hp]. apply tm_to_posix_inv in Hr as [_ Hr]. congruence.
  - rewrite gmtime_adj_Some by (unfold INT_MIN, INT_MAX, INT64_MIN, INT64_MAX; lia).
    rewrite Z.mul_0_l. setoid_rewrite Z.add_0_r. split; [naive_solver|].
    intros (q & Hq & Hr). exists q.
    pose proof (proj1 (tm_to_posix_inv _ _ Hq)) as Hval.
    unfold is_valid_posix_time, MIN_POSIX_TIME, MAX_POSIX_TIME, INT64_MIN, INT64_MAX in *.
    split_and!; (done || lia).
Qed.

(** What a parser of the format accepts, and what it returns, for both flags: with
    [out_tm] wanted the time of the characters, shifted by its zone, and without it
    nothing but whether the characters are well-formed. *)
Definition parses_exactly (is_gentime : bool) (parse : CBS -> bool -> bool -> option (option tm)) : Prop :=
  forall s allow,
    (forall r, parse s true allow = Some (Some r) <->
       exists t z p, time_form is_gentime allow s t z /\ OPENSSL_tm_to_posix t = Some p /\
         OPENSSL_tm_to_posix r = Some (p + zone_shift z)) /\
    parse s true allow <> Some None /\
    (parse s false allow = Some None <-> exists t z, time_form is_gentime allow s t z) /\
    (forall r, parse s false allow <> Some (Some r)).

Lemma parser_exact is_gentime :
  parses_exactly is_gentime (fun s out_tm allow => CBS_parse_rfc5280_time_internal s is_gentime allow out_tm).
Proof.
  intros s allow. split; [|split; [|split]].
  - intros r. rewrite parse_time_Some. split.
    + intros (t & z & Hf & Hr). apply zone_shift_posix in Hr as (p & Hp & Hr); [|apply Hf..]. by exists t, z, p.
    + intros (t & z & p & Hf & Hp & Hr). exists t, z. split; [done|]. apply zone_shift_posix; [apply Hf..|eauto].
  - intros (t & z & _ & r' & E & _)%parse_time_result. done.
  - rewrite parse_time_result. cbn [time_result]. naive_solver.
  - intros r (t & z & _ & E)%parse_time_result. done.
Qed.

Lemma parse_zulu is_gentime s t :
  CBS_parse_rfc5280_time_internal s is_gentime false true = Some (Some t) <->
  valid_tm t = true /\ year_ok is_gentime (tm_year t + 1900) /\ s = time_octets is_gentime t Zulu.
Proof.
  rewrite parse_time_Some. split.
  - intros (t0 & z & (Hv & Hy & _ & [->|[=]] & ->) & Hr). cbn in Hr. by subst.
  - intros (Hv & Hy & ->). exists t, Zulu. split; [|done]. split_and!; try done. by left.
Qed.

(** C36. The two time parsers, in each of their modes. Where time zone offsets are
    not allowed they accept exactly DER times: [CBS_parse_generalized_time] returns
    [t] iff [t] is a valid time of years 0 to 9999 and the input is its
    [YYYYMMDDhhmmssZ] form; [CBS_parse_utc_time] returns [t] iff [t] is a valid time
    of 1950 to 2049 and the input is its [YYMMDDhhmmssZ] form. Where they are
    allowed, the input may also end with a sign, hours and minutes (up to 23:59)
    instead of [Z], which is not DER, and the time returned is then that of the
    characters shifted in the direction of the sign ([+hhmm] adds to the POSIX time
    and [-hhmm] subtracts; the header promises UTC, which is the other direction);
    there is no result when the shifted time is outside of years 0 to 9999. Where
    the caller does not want the time, the parsers accept the same characters, also
    when the shifted time would be out of range. *)
Theorem CBS_parse_time_der :
  (forall s t, CBS_parse_generalized_time s true false = Some (Some t) <->
    valid_tm t = true /\ s = time_octets true t Zulu) /\
  (forall s t, CBS_parse_utc_time s true false = Some (Some t) <->
    valid_tm t = true /\ 1950 <= tm_year t + 1900 < 2050 /\ s = time_octets false t Zulu) /\
  parses_exactly true CBS_parse_generalized_time /\ parses_exactly false CBS_parse_utc_time.
Proof.
  split; [|split; [|split; apply parser_exact]]; intros s t; [|apply parse_zulu].
  unfold CBS_parse_generalized_time. rewrite parse_zulu. split; [naive_solver|]. intros [Hv ->]. split_and!; try done.
  unfold valid_tm in Hv. apply andb_true_iff in Hv as [Hd _]. by apply is_valid_date_spec in Hd as [? _].
Qed.

(** Noon at [+0100] is 11:00 in UTC; the parser says 13:00. *)
Example parse_offset_sign :
  CBS_parse_utc_time (time_octets false (mk_tm 100 0 1 12 0 0) (Offset false 1 0)) true true =
  Some (Some (mk_tm 100 0 1 13 0 0)).
Proof. vm_compute. reflexivity. Qed.
