(* ===== verification/CbsSafety.v ===== *)
(** * Memory safety of the parser

    Whatever a client calls, in any order and whether the calls succeed or not,
    the [CBS] it holds stays inside the buffer it started from: every reader
    leaves a suffix of what it was given. [Consumes] is the interface a reader
    has to meet; it is closed under the constructs the readers are built with. *)

From S2P Require Import Prelude Words Mem PosixTime Cbs CbsFacts.

Class Consumes {A} (m : M CBS A) : Prop :=
  consumes s : exists a, s = a ++ snd (m s).

Section Instances.
Context {A B : Type}.

#[export] Instance consumes_ret (a : A) : Consumes (ret a).
Proof. intros s. by exists []. Qed.
#[export] Instance consumes_fail : Consumes (@fail CBS A).
Proof. intros s. by exists []. Qed.
#[export] Instance consumes_get : Consumes (@get CBS).
Proof. intros s. by exists []. Qed.
#[export] Instance consumes_guard b : Consumes (@guard CBS b).
Proof. intros s. by exists []. Qed.
#[export] Instance consumes_on {T} (c : T) (m : M T A) : Consumes (on c m).
Proof. intros s. exists []. unfold on. by destruct (m c) as [[?|] ?]. Qed.

#[export] Instance consumes_bind (m : M CBS A) (k : A -> M CBS B) :
  Consumes m -> (forall a, Consumes (k a)) -> Consumes (bind m k).
Proof.
  intros Hm Hk s. unfold bind. destruct (Hm s) as [x Hx].
  destruct (m s) as [[a|] t]; cbn [snd] in Hx; [|by exists x].
  destruct (Hk a t) as [y Hy]. exists (x ++ y). by rewrite <- app_assoc, <- Hy.
Qed.

#[export] Instance consumes_if (b : bool) (m m' : M CBS A) :
  Consumes m -> Consumes m' -> Consumes (if b then m else m').
Proof. by destruct b. Qed.

#[export] Instance consumes_option (o : option B) (m : B -> M CBS A) (m' : M CBS A) :
  (forall b, Consumes (m b)) -> Consumes m' ->
  Consumes (match o with Some b => m b | None => m' end).
Proof. by destruct o. Qed.

#[export] Instance consumes_pair {C} (p : B * C) (m : B -> C -> M CBS A) :
  (forall b c, Consumes (m b c)) -> Consumes (let '(b, c) := p in m b c).
Proof. by destruct p. Qed.
End Instances.

#[export] Instance consumes_cbs_get n : Consumes (cbs_get n).
Proof.
  intros s. unfold cbs_get. destruct (CBS_len s <? n); [by exists []|].
  exists (ztake n s). cbn [snd]. by rewrite ztake_zdrop.
Qed.

Lemma base128_loop_consumes s : forall v, exists a, s = a ++ snd (base128_loop v s).
Proof.
  induction s as [|b s IH]; intros v; cbn [base128_loop]; [by exists []|].
  repeat case_match; cbn [snd]; try (by exists [b]).
  destruct (IH (u64 (v ≪ 7) .| (b .& 127))) as [a Ha]. exists (b :: a). cbn [app]. by rewrite <- Ha.
Qed.
#[export] Instance consumes_base128 : Consumes parse_base128_integer.
Proof. intros s. apply base128_loop_consumes. Qed.

Lemma decimal_loop_consumes s : forall v seen, exists a, s = a ++ snd (get_u64_decimal_loop v seen s).
Proof.
  induction s as [|b s IH]; intros v seen; cbn [get_u64_decimal_loop]; [by exists []|].
  destruct (negb _); [by exists []|]. destruct (_ || _); [by exists [b]|].
  destruct (IH (v * 10 + (b - 48)) true) as [a Ha]. exists (b :: a). cbn [app]. by rewrite <- Ha.
Qed.
#[export] Instance consumes_decimal : Consumes CBS_get_u64_decimal.
Proof. intros s. apply decimal_loop_consumes. Qed.

(** The calls a client can make on a [CBS] that advance it. *)
Inductive cbs_call :=
  | call_skip (len : Z) | call_get_u8 | call_get_u16 | call_get_u16le | call_get_u24
  | call_get_u32 | call_get_u32le | call_get_u64 | call_get_u64le
  | call_get_bytes (len : Z) | call_copy_bytes (len : Z)
  | call_get_u8_length_prefixed | call_get_u16_length_prefixed | call_get_u24_length_prefixed
  | call_get_until_first (c : Z) | call_get_u64_decimal
  | call_get_any_asn1 | call_get_any_asn1_element | call_get_any_ber_asn1_element
  | call_get_asn1 (tag : Z) | call_get_asn1_element (tag : Z)
  | call_get_asn1_uint64 | call_get_asn1_int64 | call_get_asn1_bool
  | call_get_optional_asn1 (tag : Z) | call_get_optional_asn1_octet_string (tag : Z)
  | call_get_optional_asn1_uint64 (tag default_value : Z)
  | call_get_optional_asn1_bool (tag default_value : Z).

Definition void {S A} (m : M S A) : M S unit := let* _ := m in ret tt.

Definition cbs_run (c : cbs_call) : M CBS unit :=
  match c with
  | call_skip len => CBS_skip len
  | call_get_u8 => void CBS_get_u8
  | call_get_u16 => void CBS_get_u16
  | call_get_u16le => void CBS_get_u16le
  | call_get_u24 => void CBS_get_u24
  | call_get_u32 => void CBS_get_u32
  | call_get_u32le => void CBS_get_u32le
  | call_get_u64 => void CBS_get_u64
  | call_get_u64le => void CBS_get_u64le
  | call_get_bytes len => void (CBS_get_bytes len)
  | call_copy_bytes len => void (CBS_copy_bytes len)
  | call_get_u8_length_prefixed => void CBS_get_u8_length_prefixed
  | call_get_u16_length_prefixed => void CBS_get_u16_length_prefixed
  | call_get_u24_length_prefixed => void CBS_get_u24_length_prefixed
  | call_get_until_first c => void (CBS_get_until_first c)
  | call_get_u64_decimal => void CBS_get_u64_decimal
  | call_get_any_asn1 => void CBS_get_any_asn1
  | call_get_any_asn1_element => void CBS_get_any_asn1_element
  | call_get_any_ber_asn1_element => void CBS_get_any_ber_asn1_element
  | call_get_asn1 tag => void (CBS_get_asn1 tag)
  | call_get_asn1_element tag => void (CBS_get_asn1_element tag)
  | call_get_asn1_uint64 => void CBS_get_asn1_uint64
  | call_get_asn1_int64 => void CBS_get_asn1_int64
  | call_get_asn1_bool => void CBS_get_asn1_bool
  | call_get_optional_asn1 tag => void (CBS_get_optional_asn1 tag)
  | call_get_optional_asn1_octet_string tag => void (CBS_get_optional_asn1_octet_string tag)
  | call_get_optional_asn1_uint64 tag d => void (CBS_get_optional_asn1_uint64 tag d)
  | call_get_optional_asn1_bool tag d => void (CBS_get_optional_asn1_bool tag d)
  end.

Create HintDb cbs_unfold.
#[export] Hint Unfold
  void CBS_skip CBS_get_u8 CBS_get_u16 CBS_get_u16le CBS_get_u24 CBS_get_u32 CBS_get_u32le
  CBS_get_u64 CBS_get_u64le cbs_get_u CBS_get_bytes CBS_copy_bytes CBS_get_u8_length_prefixed
  CBS_get_u16_length_prefixed CBS_get_u24_length_prefixed cbs_get_length_prefixed
  CBS_get_until_first CBS_get_any_asn1 CBS_get_any_asn1_element CBS_get_any_ber_asn1_element
  cbs_get_any_asn1_element CBS_get_asn1 CBS_get_asn1_element cbs_get_asn1 parse_asn1_tag
  CBS_get_asn1_uint64 CBS_get_asn1_int64 CBS_get_asn1_bool CBS_get_optional_asn1
  CBS_get_optional_asn1_octet_string CBS_get_optional_asn1_uint64 CBS_get_optional_asn1_bool
  : cbs_unfold.

#[export] Instance consumes_call c : Consumes (cbs_run c).
Proof. destruct c; cbn [cbs_run]; autounfold with cbs_unfold; cbv zeta; apply _. Qed.

(** Calls one after the other, whatever each returns. *)
Fixpoint cbs_runs (cs : list cbs_call) (s : CBS) : CBS :=
  match cs with
  | [] => s
  | c :: cs => cbs_runs cs (snd (cbs_run c s))
  end.

(** Memory safety: after any sequence of calls of the reading functions,
    successful or not, with any arguments, the [CBS] is a suffix of the one the
    client started with. No reader ever advances past the end of its input or
    outside it, and none moves back. *)
Theorem cbs_calls_stay_inside cs s : exists a, s = a ++ cbs_runs cs s.
Proof.
  revert s. induction cs as [|c cs IH]; intros s; cbn [cbs_runs]; [by exists []|].
  destruct (consumes (m := cbs_run c) s) as [a Ha]. destruct (IH (snd (cbs_run c s))) as [b Hb].
  exists (a ++ b). by rewrite <- app_assoc, <- Hb.
Qed.
