(* ===== verification/Cbb.v ===== *)
(** * The byte-string builder (crypto/bytestring/cbb.c)

    A top-level [CBB] owns a buffer; opening a length-prefixed or ASN.1 child
    makes another [CBB] object that writes to the same buffer. The pointers
    [cbb->child] form a chain from the top-level object to the innermost child.
    The state below is the buffer together with that chain, outermost child
    first. A [CBB *] is the number of an object: 0 is the top-level one, each
    opened child gets the next number, and an object that is not in the chain is
    one that was flushed or discarded ([u.child.base == NULL]). *)

From Stdlib Require Import Sorting.Sorted.
From S2P Require Import Prelude Words Mem Cbs.

(** ** State *)

Record cbb_buffer := mk_buffer {
  buf : option (list Z);
  len : Z;
  cap : Z;
  can_resize : bool;
  error : bool
}.

Record cbb_child := mk_child {
  self : nat;
  offset : Z;
  pending_len_len : Z;
  pending_is_asn1 : bool
}.

Record cbb_st := mk_cbb { base : cbb_buffer; chain : list cbb_child; next : nat }.

Definition CBB : Type := nat.
Definition root : CBB := 0%nat.

(** The block [base->buf] points at. *)
Definition mem (b : cbb_buffer) : list Z := match buf b with Some l => l | None => [] end.
Definition set_mem (l : list Z) (b : cbb_buffer) : cbb_buffer :=
  mk_buffer (match buf b with Some _ => Some l | None => None end) (len b) (cap b) (can_resize b) (error b).
Definition set_len (n : Z) (b : cbb_buffer) : cbb_buffer :=
  mk_buffer (buf b) n (cap b) (can_resize b) (error b).
Definition set_error (b : cbb_buffer) : cbb_buffer :=
  mk_buffer (buf b) (len b) (cap b) (can_resize b) true.

(** [memcpy(base->buf + off, data, |data|)]. *)
Definition write (off : Z) (data : list Z) : M cbb_buffer unit :=
  modify (fun b => set_mem (store (mem b) off data) b).

(** The [for] loops that write [n] big-endian bytes of [v] at [off], last first;
    the result is what is left of [v]. *)
Fixpoint write_be (n : nat) (off v : Z) : M cbb_buffer Z :=
  match n with
  | O => ret v
  | S i => write (off + Z.of_nat i) [u8 v] ;;; write_be i off (v ≫ 8)
  end.

(** The index of an object in the chain, counted from the top-level one. *)
Fixpoint index_of (cbb : nat) (cs : list cbb_child) : option nat :=
  match cs with
  | [] => None
  | c :: cs => if Nat.eqb (self c) cbb then Some 1%nat else S <$> index_of cbb cs
  end.
Definition depth (cbb : CBB) (st : cbb_st) : option nat :=
  if Nat.eqb cbb root then Some O else index_of cbb (chain st).

(** Run [m] on the buffer of the state. *)
Definition on_base {A} (m : M cbb_buffer A) : M cbb_st A := fun st =>
  match m (base st) with
  | (r, b) => (r, mk_cbb b (chain st) (next st))
  end.

Definition cut (d : nat) (st : cbb_st) : cbb_st := mk_cbb (base st) (take d (chain st)) (next st).

(** ** The buffer *)

Section Builder.
Context `{Allocator}.

(** The zero state; calling [CBB_cleanup] on it is harmless. *)
Definition CBB_zero : cbb_st := mk_cbb (mk_buffer None 0 0 false false) [] 1.

Definition cbb_init (buf : option (list Z)) (cap : Z) (can_resize : bool) : cbb_st :=
  mk_cbb (mk_buffer buf 0 cap can_resize false) [] 1.

Definition CBB_init (initial_capacity : Z) : option cbb_st :=
  let buf := OPENSSL_malloc initial_capacity in
  if (initial_capacity >? 0) && (match buf with None => true | Some _ => false end) then None
  else Some (cbb_init buf initial_capacity true).

(** [buf] is the caller's array. *)
Definition CBB_init_fixed (buf : list Z) : cbb_st := cbb_init (Some buf) (zlen buf) false.

(** The block that is freed, if any. *)
Definition CBB_cleanup (cbb : CBB) (st : cbb_st) : option (list Z) :=
  if negb (Nat.eqb cbb root) then None
  else if can_resize (base st) then buf (base st) else None.

Definition cbb_buffer_reserve (n : Z) : M cbb_buffer Z := fun base =>
  let newlen := u64 (len base + n) in
  if newlen <? len base then (None, set_error base)
  else if newlen >? cap base then
    if negb (can_resize base) then (None, set_error base)
    else
      let newcap := u64 (cap base * 2) in
      let newcap := if (newcap <? cap base) || (newcap <? newlen) then newlen else newcap in
      match OPENSSL_realloc (buf base) newcap with
      | None => (None, set_error base)
      | Some newbuf =>
          (Some (len base), mk_buffer (Some newbuf) (len base) newcap (can_resize base) (error base))
      end
  else (Some (len base), base).

(** The result is the offset of the new bytes ([*out]). *)
Definition cbb_buffer_add (n : Z) : M cbb_buffer Z :=
  let* out := cbb_buffer_reserve n in
  modify (fun base => set_len (len base + n) base) ;;;
  ret out.

(** ** Flushing *)

Definition asn1_length (n : Z) : option (Z * Z * Z) :=
  if n >? 0xfffffffe then None
  else if n >? 0xffffff then Some (5, 0x80 .| 4, n)
  else if n >? 0xffff then Some (4, 0x80 .| 3, n)
  else if n >? 0xff then Some (3, 0x80 .| 2, n)
  else if n >? 0x7f then Some (2, 0x80 .| 1, n)
  else Some (1, u8 n, 0).

(** Write out the length of a child whose own children are flushed. *)
Definition flush_child (child : cbb_child) : M cbb_buffer unit :=
  let* base := get in
  let child_start := u64 (offset child + pending_len_len child) in
  guard (negb ((child_start <? offset child) || (len base <? child_start))) ;;;
  let n := len base - child_start in
  let* '(off, pending, n) :=
    if pending_is_asn1 child then
      match asn1_length n with
      | None => fail
      | Some (len_len, initial_length_byte, n) =>
          (if negb (len_len =? 1) then
             let extra_bytes := len_len - 1 in
             let* _ := cbb_buffer_add extra_bytes in
             let* base := get in
             write (child_start + extra_bytes) (ztake n (zdrop child_start (mem base)))
           else ret tt) ;;;
          write (offset child) [initial_length_byte] ;;;
          ret (offset child + 1, len_len - 1, n)
      end
    else ret (offset child, pending_len_len child, n) in
  let* n := write_be (Z.to_nat pending) off n in
  guard (n =? 0).

(** [CBB_flush] on an object with the given chain of children. *)
Fixpoint flush_children (cs : list cbb_child) : M cbb_buffer unit :=
  let* base := get in
  guard (negb (error base)) ;;;
  match cs with
  | [] => ret tt
  | child :: cs => on_error (flush_children cs ;;; flush_child child) set_error
  end.

Definition CBB_flush (cbb : CBB) : M cbb_st unit := fun st =>
  match depth cbb st with
  | None => (None, st)
  | Some d =>
      if error (base st) then (None, st)
      else match on_base (flush_children (drop d (chain st))) st with
           | (r, st') => (r, cut d st')
           end
  end.

(** Setting the error bit; an object that was flushed has no buffer. *)
Definition cbb_on_error (cbb : CBB) : cbb_st -> cbb_st := fun st =>
  match depth cbb st with
  | None => st
  | Some d => cut d (mk_cbb (set_error (base st)) (chain st) (next st))
  end.

(** ** Reading what was written *)

(** The bytes at [CBB_data(cbb)], [CBB_len(cbb)] of them. *)
Definition CBB_contents (cbb : CBB) (st : cbb_st) : option (list Z) :=
  match depth cbb st with
  | None => None
  | Some O => Some (ztake (len (base st)) (mem (base st)))
  | Some (S d) =>
      match chain st !! d with
      | None => None
      | Some c =>
          let start := offset c + pending_len_len c in
          Some (ztake (len (base st) - offset c - pending_len_len c) (zdrop start (mem (base st))))
      end
  end.

(** The data handed to the caller; [outs] says whether the output pointers are
    not [NULL]. *)
Definition CBB_finish (cbb : CBB) (outs : bool) : M cbb_st (list Z) :=
  guard (Nat.eqb cbb root) ;;;
  CBB_flush cbb ;;;
  let* st := get in
  guard (negb (can_resize (base st) && negb outs)) ;;;
  let out := ztake (len (base st)) (mem (base st)) in
  put (mk_cbb (mk_buffer None (len (base st)) (cap (base st)) (can_resize (base st)) (error (base st)))
         (chain st) (next st)) ;;;
  ret out.

(** ** Children *)

Definition cbb_add_child (cbb : CBB) (len_len : Z) (is_asn1 : bool) : M cbb_st CBB :=
  let* st := get in
  let off := len (base st) in
  let* prefix_bytes := on_base (cbb_buffer_add len_len) in
  on_base (write prefix_bytes (replicate (Z.to_nat len_len) 0)) ;;;
  let* st := get in
  let out_child := next st in
  put (mk_cbb (base st) (chain st ++ [mk_child out_child off len_len is_asn1]) (S out_child)) ;;;
  ret out_child.

Definition cbb_add_length_prefixed (cbb : CBB) (len_len : Z) : M cbb_st CBB :=
  CBB_flush cbb ;;;
  cbb_add_child cbb len_len false.

Definition CBB_add_u8_length_prefixed (cbb : CBB) := cbb_add_length_prefixed cbb 1.
Definition CBB_add_u16_length_prefixed (cbb : CBB) := cbb_add_length_prefixed cbb 2.
Definition CBB_add_u24_length_prefixed (cbb : CBB) := cbb_add_length_prefixed cbb 3.

(** ** Bytes and integers *)

Definition CBB_add_space (cbb : CBB) (n : Z) : M cbb_st Z :=
  CBB_flush cbb ;;;
  on_base (cbb_buffer_add n).

Definition CBB_reserve (cbb : CBB) (n : Z) : M cbb_st Z :=
  CBB_flush cbb ;;;
  on_base (cbb_buffer_reserve n).

Definition CBB_add_bytes (cbb : CBB) (data : list Z) : M cbb_st unit :=
  let* out := CBB_add_space cbb (zlen data) in
  on_base (write out data).

Definition CBB_add_zeros (cbb : CBB) (n : Z) : M cbb_st unit :=
  let* out := CBB_add_space cbb n in
  on_base (write out (replicate (Z.to_nat n) 0)).

Definition CBB_did_write (cbb : CBB) (n : Z) : M cbb_st unit :=
  let* st := get in
  let newlen := u64 (len (base st) + n) in
  guard (match depth cbb st with Some d => Nat.eqb d (length (chain st)) | None => false end) ;;;
  guard (negb ((newlen <? len (base st)) || (newlen >? cap (base st)))) ;;;
  on_base (modify (set_len newlen)).

Definition cbb_add_u (cbb : CBB) (v len_len : Z) : M cbb_st unit :=
  let* buf := CBB_add_space cbb len_len in
  let* v := on_base (write_be (Z.to_nat len_len) buf v) in
  if negb (v =? 0) then modify (cbb_on_error cbb) ;;; fail else ret tt.

Definition CBB_add_u8 (cbb : CBB) (value : Z) := cbb_add_u cbb value 1.
Definition CBB_add_u16 (cbb : CBB) (value : Z) := cbb_add_u cbb value 2.
Definition CBB_add_u16le (cbb : CBB) (value : Z) := CBB_add_u16 cbb (CRYPTO_bswap2 value).
Definition CBB_add_u24 (cbb : CBB) (value : Z) := cbb_add_u cbb value 3.
Definition CBB_add_u32 (cbb : CBB) (value : Z) := cbb_add_u cbb value 4.
Definition CBB_add_u32le (cbb : CBB) (value : Z) := CBB_add_u32 cbb (CRYPTO_bswap4 value).
Definition CBB_add_u64 (cbb : CBB) (value : Z) := cbb_add_u cbb value 8.
Definition CBB_add_u64le (cbb : CBB) (value : Z) := CBB_add_u64 cbb (CRYPTO_bswap8 value).

Definition CBB_discard_child (cbb : CBB) : M cbb_st unit :=
  modify (fun st =>
    match depth cbb st with
    | None => st
    | Some d =>
        match chain st !! d with
        | None => st
        | Some child => cut d (mk_cbb (set_len (offset child) (base st)) (chain st) (next st))
        end
    end).

(** ** ASN.1 *)

(** Ten rounds empty 64 bits. *)
Fixpoint base128_len (fuel : nat) (copy : Z) : nat :=
  match fuel with
  | O => O
  | S fuel => if copy >? 0 then S (base128_len fuel (copy ≫ 7)) else O
  end.

Fixpoint add_base128_loop (cbb : CBB) (n : nat) (v : Z) : M cbb_st unit :=
  match n with
  | O => ret tt
  | S i =>
      let byte := u8 ((v ≫ (7 * Z.of_nat i)) .& 0x7f) in
      let byte := if negb (Nat.eqb i 0) then byte .| 0x80 else byte in
      CBB_add_u8 cbb byte ;;;
      add_base128_loop cbb i v
  end.

Definition add_base128_integer (cbb : CBB) (v : Z) : M cbb_st unit :=
  let len_len := base128_len 10 v in
  let len_len := if Nat.eqb len_len 0 then 1%nat else len_len in
  add_base128_loop cbb len_len v.

Definition CBB_add_asn1 (cbb : CBB) (tag : Z) : M cbb_st CBB :=
  CBB_flush cbb ;;;
  let tag_bits := u8 ((tag ≫ CBS_ASN1_TAG_SHIFT) .& 0xe0) in
  let tag_number := tag .& CBS_ASN1_TAG_NUMBER_MASK in
  (if tag_number >=? 0x1f then
     CBB_add_u8 cbb (tag_bits .| 0x1f) ;;;
     add_base128_integer cbb tag_number
   else CBB_add_u8 cbb (u8 (tag_bits .| tag_number))) ;;;
  cbb_add_child cbb 1 true.

Fixpoint add_uint64_loop (child : CBB) (n : nat) (value : Z) (started : bool) : M cbb_st bool :=
  match n with
  | O => ret started
  | S i =>
      let byte := (value ≫ (8 * Z.of_nat i)) .& 0xff in
      if negb started && (byte =? 0) then add_uint64_loop child i value false
      else
        (if negb started && negb ((byte .& 0x80) =? 0) then CBB_add_u8 child 0 else ret tt) ;;;
        CBB_add_u8 child byte ;;;
        add_uint64_loop child i value true
  end.

Definition CBB_add_asn1_uint64_with_tag (cbb : CBB) (value tag : Z) : M cbb_st unit :=
  on_error (
    let* child := CBB_add_asn1 cbb tag in
    let* started := add_uint64_loop child 8 value false in
    if negb started then CBB_add_u8 child 0 else ret tt) (cbb_on_error cbb) ;;;
  CBB_flush cbb.

Definition CBB_add_asn1_uint64 (cbb : CBB) (value : Z) :=
  CBB_add_asn1_uint64_with_tag cbb value CBS_ASN1_INTEGER.

(** [memcpy(bytes, &value, sizeof(value))], little-endian. *)
Definition int64_bytes (value : Z) : list Z := rev (be_bytes 8 value).

Fixpoint skip_sign (start : nat) (bytes : list Z) : nat :=
  match start with
  | O => O
  | S n => if (znth 0 bytes (Z.of_nat start) =? 0xff) && negb ((znth 0 bytes (Z.of_nat n) .& 0x80) =? 0)
           then skip_sign n bytes else start
  end.

(** [for (int i = start; i >= 0; i--)]: [n] is [i + 1]. *)
Fixpoint add_bytes_down (child : CBB) (n : nat) (bytes : list Z) : M cbb_st unit :=
  match n with
  | O => ret tt
  | S i => CBB_add_u8 child (znth 0 bytes (Z.of_nat i)) ;;; add_bytes_down child i bytes
  end.

Definition CBB_add_asn1_int64_with_tag (cbb : CBB) (value tag : Z) : M cbb_st unit :=
  if value >=? 0 then CBB_add_asn1_uint64_with_tag cbb value tag
  else
    let bytes := int64_bytes value in
    let start := skip_sign 7 bytes in
    on_error (
      let* child := CBB_add_asn1 cbb tag in
      add_bytes_down child (S start) bytes) (cbb_on_error cbb) ;;;
    CBB_flush cbb.

Definition CBB_add_asn1_int64 (cbb : CBB) (value : Z) :=
  CBB_add_asn1_int64_with_tag cbb value CBS_ASN1_INTEGER.

Definition CBB_add_asn1_octet_string (cbb : CBB) (data : list Z) : M cbb_st unit :=
  on_error (
    let* child := CBB_add_asn1 cbb CBS_ASN1_OCTETSTRING in
    CBB_add_bytes child data ;;;
    CBB_flush cbb) (cbb_on_error cbb).

Definition CBB_add_asn1_bool (cbb : CBB) (value : Z) : M cbb_st unit :=
  on_error (
    let* child := CBB_add_asn1 cbb CBS_ASN1_BOOLEAN in
    CBB_add_u8 child (if negb (value =? 0) then 0xff else 0) ;;;
    CBB_flush cbb) (cbb_on_error cbb).

(** ** Object identifiers *)

Definition parse_dotted_decimal : M CBS Z :=
  let* out := CBS_get_u64_decimal in
  let* cbs := get in
  match CBS_get_u8 cbs with
  | (None, cbs) => put cbs ;;; ret out
  | (Some dot, cbs) => put cbs ;;; guard ((dot =? 46) && (CBS_len cbs >? 0)) ;;; ret out
  end.

(** A component consumes at least one character: the text is fuel enough. *)
Fixpoint add_oid_components (fuel : nat) (cbb : CBB) (cbs : CBS) : M cbb_st unit :=
  if CBS_len cbs >? 0 then
    match fuel with
    | O => fail
    | S fuel =>
        let* '(a, cbs) := on cbs parse_dotted_decimal in
        add_base128_integer cbb a ;;;
        add_oid_components fuel cbb cbs
    end
  else ret tt.

Definition CBB_add_asn1_oid_from_text (cbb : CBB) (text : list Z) (n : Z) : M cbb_st unit :=
  CBB_flush cbb ;;;
  let cbs := CBS_init text n in
  let* '(a, cbs) := on cbs parse_dotted_decimal in
  let* '(b, cbs) := on cbs parse_dotted_decimal in
  guard (negb ((a >? 2) || ((a <? 2) && (b >? 39)) || (b >? UINT64_MAX - 80))) ;;;
  add_base128_integer cbb (u64 (40 * a + b)) ;;;
  add_oid_components (length cbs) cbb cbs.

(** ** SET OF *)

Definition compare_set_of_element (a b : CBS) : Z :=
  let a_len := CBS_len a in let b_len := CBS_len b in
  let min_len := if a_len <? b_len then a_len else b_len in
  let ret := OPENSSL_memcmp (ztake min_len a) (ztake min_len b) in
  if negb (ret =? 0) then ret
  else if a_len =? b_len then 0
  else if a_len <? b_len then -1 else 1.
End Builder.

(** The C library's [qsort]: with a comparison function that is a total preorder
    it sorts; nothing is said of the order of equal elements. *)
Class Qsort := {
  qsort : (CBS -> CBS -> Z) -> list CBS -> list CBS;
  qsort_perm cmp l : Permutation (qsort cmp l) l;
  qsort_sorted cmp l :
    (forall a b, cmp a b <= 0 \/ cmp b a <= 0) ->
    (forall a b c, cmp a b <= 0 -> cmp b c <= 0 -> cmp a c <= 0) ->
    Sorted (fun a b => cmp a b <= 0) (qsort cmp l)
}.

Section SetOf.
Context `{Allocator} `{Qsort}.

(** The elements of the contents; an element has at least two bytes. *)
Fixpoint set_of_elements (fuel : nat) (cbs : CBS) : option (list CBS) :=
  if CBS_len cbs =? 0 then Some []
  else match fuel with
  | O => None
  | S fuel =>
      match CBS_get_any_asn1_element cbs with
      | (None, _) => None
      | (Some (out, _, _), cbs) => cons out <$> set_of_elements fuel cbs
      end
  end.

(** Write the elements at [off], one after the other. *)
Fixpoint write_all (off : Z) (children : list CBS) : M cbb_buffer unit :=
  match children with
  | [] => ret tt
  | c :: children => write off c ;;; write_all (off + CBS_len c) children
  end.

Definition sizeof_CBS : Z := 16.

Definition CBB_flush_asn1_set_of (cbb : CBB) : M cbb_st unit :=
  CBB_flush cbb ;;;
  let* st := get in
  match CBB_contents cbb st with
  | None => fail
  | Some contents =>
      match set_of_elements (length contents) contents with
      | None => fail
      | Some elements =>
          if zlen elements <? 2 then ret tt
          else
            match OPENSSL_memdup contents, OPENSSL_calloc (zlen elements) sizeof_CBS with
            | Some buf, Some _ =>
                match set_of_elements (length buf) buf with
                | None => fail
                | Some children =>
                    let children := qsort compare_set_of_element children in
                    let out := len (base st) - zlen contents in
                    on_base (write_all out children)
                end
            | _, _ => fail
            end
      end
  end.
End SetOf.
