(* ===== verification/CbbFacts.v ===== *)
(** * What the builder writes (theorems about Cbb.v)

    The abstract view of a [CBB] is a list of frames, outermost first: the bytes
    of the top-level object and of every open child, and the length field each
    child still has to get. Every operation of the code is simulated by one on
    frames; a flush closes frames from the innermost one. *)

From S2P Require Import Prelude Words Mem PosixTime Der Cbs CbsFacts Cbb.

(** ** The buffer *)

(** The buffer is healthy and its first [len] bytes are [l]. *)
Definition holds (b : cbb_buffer) (l : list Z) : Prop :=
  error b = false /\ len b = zlen l /\ zlen (mem b) = cap b /\ cap b < 2 ^ 64 /\
  exists unused, mem b = l ++ unused.

Lemma holds_len b l : holds b l -> zlen l <= cap b < 2 ^ 64.
Proof. intros (_ & _ & Hc & Hlt & u & Hm). rewrite Hm in Hc. zlia. Qed.

Lemma mem_set_mem l b : zlen l = zlen (mem b) -> mem (set_mem l b) = l.
Proof.
  unfold mem, set_mem. cbn [buf]. destruct (buf b); [done|]. intros H. symmetry. by apply zlen_0_nil.
Qed.

Section Buffer.
Context `{Allocator}.

(** Room for [m] bytes: the buffer has them, or it can grow. *)
Definition fits (b : cbb_buffer) (m : Z) : Prop :=
  m <= cap b \/
  (can_resize b = true /\ (forall n, malloc_ok n = true) /\ cap b <= 2 ^ 63 /\ m <= 2 ^ 62).

(** How a buffer may change: a fixed one keeps its size. *)
Definition same_kind (b b' : cbb_buffer) : Prop :=
  can_resize b' = can_resize b /\ (can_resize b = false -> cap b' = cap b).

(** A call returns [a] and leaves a buffer that holds [l], unless there is no
    room for [l]: then it fails. *)
Definition outcome {A} (r : option A * cbb_buffer) (b : cbb_buffer) (a : A) (l : list Z) : Prop :=
  match r with
  | (Some x, b') => x = a /\ holds b' l /\ same_kind b b' /\
      forall m, zlen l <= m -> fits b m -> fits b' m
  | (None, b') => forall m, zlen l <= m -> ~ fits b m
  end.

Definition refused {A} (r : option A * cbb_buffer) : Prop := fst r = None.

Lemma outcome_ret {A} (a : A) b l : holds b l -> outcome (ret a b) b a l.
Proof. intros. cbn. split_and!; done. Qed.

Lemma outcome_bind {A B} (m : M cbb_buffer A) (k : A -> M cbb_buffer B) b a c l l' :
  outcome (m b) b a l -> zlen l <= zlen l' ->
  (forall b', holds b' l -> same_kind b b' -> outcome (k a b') b' c l') ->
  outcome (bind m k b) b c l'.
Proof.
  intros Hm Hle Hk. unfold bind. destruct (m b) as [[x|] b'].
  - destruct Hm as (-> & Hb' & Hs & Hf). specialize (Hk b' Hb' Hs). unfold outcome in *.
    destruct (k a b') as [[y|] b''].
    + destruct Hk as (-> & ? & Hs' & ?). unfold same_kind in *.
      split_and!; [done|done|naive_solver congruence..|eauto with lia].
    + intros m' Hm' Hfit. eapply Hk; [done|]. apply Hf; [lia|done].
  - intros m' Hm'. apply Hm. lia.
Qed.

Lemma refused_bind {A B} (m : M cbb_buffer A) (k : A -> M cbb_buffer B) b a l :
  outcome (m b) b a l -> (forall b', holds b' l -> refused (k a b')) -> refused (bind m k b).
Proof.
  intros Hm Hk. unfold bind. destruct (m b) as [[x|] b']; [|done].
  destruct Hm as (-> & Hb' & _). by apply Hk.
Qed.

Lemma outcome_eq {A} (r : option A * cbb_buffer) b a b' l :
  r = (Some a, b') -> holds b' l -> cap b' = cap b -> can_resize b' = can_resize b -> outcome r b a l.
Proof.
  intros -> Hb Hc Hr. cbn. split_and!; [done|done| |].
  - unfold same_kind. by rewrite Hc, Hr.
  - intros m _. unfold fits. by rewrite Hc, Hr.
Qed.

Lemma write_outcome l1 x l2 d b : holds b (l1 ++ x ++ l2) -> zlen x = zlen d ->
  outcome (write (zlen l1) d b) b tt (l1 ++ d ++ l2).
Proof.
  intros (He & Hl & Hc & Hlt & u & Hm) Hx.
  assert (Hst : store (mem b) (zlen l1) d = l1 ++ d ++ l2 ++ u).
  { apply (store_app _ _ _ l1 x); [|done..]. by rewrite Hm, <- !app_assoc. }
  assert (Hmem : mem (set_mem (store (mem b) (zlen l1) d) b) = l1 ++ d ++ l2 ++ u).
  { rewrite mem_set_mem; [done|]. rewrite Hst, Hm. zlia. }
  eapply outcome_eq; [reflexivity| |done..]. unfold holds. rewrite Hmem. cbn [error len cap set_mem].
  split_and!; [done|rewrite Hl; zlia| |done|exists u; by rewrite <- !app_assoc].
  rewrite <- Hc, Hm. zlia.
Qed.

Lemma write_be_outcome n : forall l1 x l2 v b, holds b (l1 ++ x ++ l2) -> zlen x = Z.of_nat n -> 0 <= v ->
  outcome (write_be n (zlen l1) v b) b (v / 256 ^ Z.of_nat n) (l1 ++ be_bytes n v ++ l2).
Proof.
  induction n as [|n IH]; intros l1 x l2 v b Hb Hx Hv.
  - apply zlen_0_nil in Hx as ->. cbn [write_be]. rewrite Z.div_1_r. by apply outcome_ret.
  - cbn [write_be be_bytes]. destruct (zsplit (Z.of_nat n) x) as (y & z & -> & Hy); [lia|].
    rewrite zlen_app in Hx.
    apply (outcome_bind _ _ _ tt _ (l1 ++ y ++ [u8 v] ++ l2)).
    + replace (zlen l1 + Z.of_nat n) with (zlen (l1 ++ y)) by zlia.
      rewrite app_assoc. apply (write_outcome _ z); [by rewrite <- !app_assoc in *|].
      change (zlen [u8 v]) with 1. lia.
    + rewrite !zlen_app, zlen_be_bytes. unfold u8. lia.
    + intros b' Hb' _. rewrite <- app_assoc.
      replace (v / 256 ^ Z.of_nat (S n)) with ((v ≫ 8) / 256 ^ Z.of_nat n).
      2: { rewrite Z.shiftr_div_pow2 by lia. change (2 ^ 8) with 256.
           rewrite Z.div_div, pow256_succ; [done|lia|apply Z.pow_pos_nonneg; lia]. }
      replace (v / 256) with (v ≫ 8) by (by rewrite Z.shiftr_div_pow2 by lia).
      apply (IH l1 y); [done..|]. by apply Z.shiftr_nonneg.
Qed.

Lemma reserve_cases b l n : holds b l -> 0 <= n < 2 ^ 64 ->
  match cbb_buffer_reserve n b with
  | (Some out, b') => out = zlen l /\ holds b' l /\ zlen l + n <= cap b' /\
      can_resize b' = can_resize b /\ cap b <= cap b' /\ (can_resize b = false -> cap b' = cap b)
  | (None, b') => b' = set_error b
  end.
Proof.
  intros Hb Hn. pose proof (holds_len _ _ Hb) as Hcap. pose proof (zlen_nonneg l).
  destruct Hb as (He & Hl & Hc & Hlt & u & Hm).
  unfold cbb_buffer_reserve, u64. rewrite Hl, Z.gtb_ltb.
  change (2 ^ 64) with 18446744073709551616 in *.
  destruct (Z.ltb_spec ((zlen l + n) mod 18446744073709551616) (zlen l)) as [|Hge]; [done|].
  assert (Hnew : (zlen l + n) mod 18446744073709551616 = zlen l + n) by dlia.
  assert (Hsum : zlen l + n < 18446744073709551616) by dlia. rewrite Hnew in *. clear Hnew.
  destruct (Z.ltb_spec (cap b) (zlen l + n)) as [Hgrow|Hok].
  - destruct (can_resize b) eqn:Hr; cbn [negb]; [|done].
    set (newcap := if _ || _ then _ else _).
    assert (Hnc : zlen l + n <= newcap < 18446744073709551616).
    { unfold newcap. destruct (_ || _) eqn:E; [dlia|]. apply orb_false_iff in E as [_ E].
      apply Z.ltb_ge in E. split; [done|]. apply Z.mod_pos_bound. lia. }
    destruct (OPENSSL_realloc (buf b) newcap) as [nb|] eqn:Hre; [|done].
    split; [done|]. split; [|cbn [cap can_resize]; split_and!; (done || lia)].
    unfold holds. unfold mem. cbn [error len cap buf]. split_and!; [done..| |lia|].
    + destruct (buf b) as [old|] eqn:Hbuf.
      * apply OPENSSL_realloc_Some in Hre as (f & -> & Hz & _); [done|]. unfold mem in Hc. rewrite Hbuf in Hc. lia.
      * cbn in Hre. apply OPENSSL_malloc_Some in Hre as [? _]; [done|lia].
    + unfold mem in Hm, Hc. destruct (buf b) as [old|] eqn:Hbuf.
      * apply OPENSSL_realloc_Some in Hre as (f & -> & _ & _); [|lia]. exists (u ++ f). by rewrite Hm, <- app_assoc.
      * symmetry in Hm. apply app_nil in Hm as [-> ->]. by exists nb.
  - split_and!; [done| |lia|done|lia|done]. unfold holds. eauto 10.
Qed.

Lemma reserve_room b l n m : holds b l -> 0 <= n -> fits b m -> zlen l + n <= m ->
  exists b', cbb_buffer_reserve n b = (Some (zlen l), b') /\ fits b' m.
Proof.
  intros Hb Hn Hf Hle. pose proof (holds_len _ _ Hb) as Hcap. pose proof (zlen_nonneg l).
  assert (Hn64 : 0 <= n < 2 ^ 64).
  { change (2 ^ 64) with 18446744073709551616 in *. change (2 ^ 62) with 4611686018427387904 in *.
    destruct Hf as [?|(_ & _ & _ & ?)]; lia. }
  pose proof (reserve_cases b l n Hb Hn64) as Hcase.
  destruct Hb as (_ & Hl & _ & _ & _).
  unfold cbb_buffer_reserve, u64 in *. rewrite Hl, Z.gtb_ltb in *.
  unfold fits in *. change (2 ^ 64) with 18446744073709551616 in *.
  change (2 ^ 63) with 9223372036854775808 in *. change (2 ^ 62) with 4611686018427387904 in *.
  rewrite (Z.mod_small (zlen l + n)) in * by (destruct Hf as [?|(_ & _ & _ & ?)]; lia).
  rewrite (proj2 (Z.ltb_ge (zlen l + n) (zlen l))) in * by lia.
  destruct (Z.ltb_spec (cap b) (zlen l + n)) as [Hgrow|Hok]; [|by eexists].
  destruct Hf as [?|(Hr & Hmal & Hc & Hm)]; [lia|]. rewrite Hr in *. cbn [negb] in *.
  set (newcap := if _ || _ then _ else _) in *.
  assert (Hnc : 0 <= newcap <= 9223372036854775808).
  { unfold newcap. destruct (_ || _) eqn:E; [lia|]. dlia. }
  assert (Hre : exists nb, OPENSSL_realloc (buf b) newcap = Some nb).
  { assert (Hmalloc : exists r, OPENSSL_malloc newcap = Some r).
    { unfold OPENSSL_malloc, OPENSSL_MALLOC_PREFIX, u64. rewrite Z.mod_small by lia.
      rewrite (proj2 (Z.ltb_ge _ _)), Hmal by lia. eauto. }
    unfold OPENSSL_realloc. destruct Hmalloc as [r ->]. destruct (buf b); eauto. }
  destruct Hre as [nb Hre]. rewrite Hre in *. eexists. split; [done|]. cbn [cap can_resize].
  destruct Hcase as (_ & _ & ? & _). cbn [cap] in *. right. split_and!; (done || lia).
Qed.

Lemma set_len_holds b l n : holds b l -> 0 <= n -> zlen l + n <= cap b ->
  exists x, zlen x = n /\ holds (set_len (len b + n) b) (l ++ x).
Proof.
  intros (He & Hl & Hc & Hlt & u & Hm) Hn Hle.
  destruct (zsplit n u) as (x & y & -> & Hx); [rewrite Hm, zlen_app in Hc; lia|].
  exists x. split; [done|]. unfold holds, set_len, mem in *. cbn [error len cap buf].
  split_and!; [done|rewrite Hl; zlia|done|done|]. exists y. by rewrite <- app_assoc.
Qed.

(** Reserving changes neither the contents nor, on failure, anything but the
    error bit; it fails only for want of room. *)
Lemma add_outcome b l n : holds b l -> 0 <= n < 2 ^ 64 ->
  exists x, zlen x = n /\ outcome (cbb_buffer_add n b) b (zlen l) (l ++ x).
Proof.
  intros Hb Hn. pose proof (reserve_cases b l n Hb Hn) as Hc.
  unfold cbb_buffer_add, bind. destruct (cbb_buffer_reserve n b) as [[out|] b'] eqn:Er.
  - destruct Hc as (-> & Hb' & Hcap & Hres & _ & Hfix).
    destruct (set_len_holds b' l n Hb' ltac:(lia) Hcap) as (x & Hx & Hb'').
    exists x. split; [done|]. unfold modify, ret, outcome. split_and!; [done..|].
    intros m Hm Hf. rewrite zlen_app in Hm.
    destruct (reserve_room b l n m Hb ltac:(lia) Hf ltac:(lia)) as (b2 & Er' & Hf').
    rewrite Er in Er'. by injection Er' as <-.
  - exists (replicate (Z.to_nat n) 0). split; [rewrite zlen_replicate; lia|].
    intros m Hm Hf. rewrite zlen_app, zlen_replicate in Hm.
    destruct (reserve_room b l n m Hb ltac:(lia) Hf ltac:(lia)) as (b2 & Er' & _). congruence.
Qed.

(** ** Length fields *)

(** The field of a child whose contents are [n] bytes long, if it has one. *)
Definition length_field (len_len : Z) (is_asn1 : bool) (n : Z) : option (list Z) :=
  if is_asn1 then if n <=? 0xfffffffe then Some (length_octets n) else None
  else if n <? 256 ^ len_len then Some (be_bytes (Z.to_nat len_len) n) else None.

Lemma asn1_length_spec n : 0 <= n ->
  match asn1_length n with
  | None => 0xfffffffe < n
  | Some (len_len, first, v) => n <= 0xfffffffe /\ 1 <= len_len <= 5 /\ 0 <= v /\
      v / 256 ^ (len_len - 1) = 0 /\ (len_len = 1 \/ v = n) /\
      length_octets n = first :: be_bytes (Z.to_nat (len_len - 1)) v
  end.
Proof.
  intros Hn. unfold asn1_length, u8, length_octets, len_size. rewrite !Z.gtb_ltb.
  repeat (match goal with |- context [Z.ltb ?a ?b] => destruct (Z.ltb_spec a b)
                    | |- context [Z.leb ?a ?b] => destruct (Z.leb_spec a b) end; try lia);
    (split_and!; [lia..| | |reflexivity || (rewrite Z.mod_small by lia; reflexivity)]);
    try (apply Z.div_small; cbn; lia); lia.
Qed.

Lemma zlen_length_field len_len is_asn1 n f : (is_asn1 = true -> len_len = 1) -> 0 <= len_len ->
  length_field len_len is_asn1 n = Some f -> len_len <= zlen f <= len_len + 4.
Proof.
  intros Ha Hl. unfold length_field. destruct is_asn1.
  - destruct (n <=? _); [|done]. intros [= <-]. rewrite Ha by done. pose proof (zlen_length_octets n). lia.
  - destruct (n <? _); [|done]. intros [= <-]. rewrite zlen_be_bytes. lia.
Qed.

(** Writing a length of [n] bytes in place of [x]. *)
Lemma write_len_outcome l1 x c n v b : holds b (l1 ++ x ++ c) -> zlen x = n -> 0 <= v ->
  v / 256 ^ n = 0 ->
  outcome ((let* r := write_be (Z.to_nat n) (zlen l1) v in guard (r =? 0)) b) b tt
    (l1 ++ be_bytes (Z.to_nat n) v ++ c).
Proof.
  intros Hb Hx Hv Hz. pose proof (zlen_nonneg x).
  eapply outcome_bind; [by apply (write_be_outcome _ _ x); [..|lia|done]|done|].
  intros b' Hb' _. rewrite Z2Nat.id, Hz by lia. by apply outcome_ret.
Qed.

(** Moving the contents along for a longer length field. *)
Lemma make_space_outcome b p z c len_len :
  holds b (p ++ z ++ c) -> zlen z = 1 -> 1 <= len_len <= 5 ->
  exists x, zlen x = len_len /\
    outcome ((if negb (len_len =? 1) then
                let* _ := cbb_buffer_add (len_len - 1) in
                let* base := get in
                write (zlen p + 1 + (len_len - 1)) (ztake (zlen c) (zdrop (zlen p + 1) (mem base)))
              else ret tt) b) b tt (p ++ x ++ c).
Proof.
  intros Hb Hz Hl. destruct (Z.eqb_spec len_len 1) as [->|Hne]; cbn [negb].
  { exists z. split; [done|]. by apply outcome_ret. }
  destruct (add_outcome b _ (len_len - 1) Hb) as (x & Hx & Ho); [change (2 ^ 64) with 18446744073709551616; lia|].
  destruct (zsplit (len_len - 1) (c ++ x)) as (y & c' & Hcx & Hy); [rewrite zlen_app; zlen_pos; lia|].
  assert (Hc' : zlen c' = zlen c) by (apply (f_equal zlen) in Hcx; rewrite !zlen_app in Hcx; lia).
  exists (z ++ y). split; [zlia|].
  eapply outcome_bind; [exact Ho|zlia|]. intros b' Hb' _.
  rewrite (bind_step _ _ _ _ _ (eq_refl : get b' = (Some b', b'))).
  replace (ztake (zlen c) (zdrop (zlen p + 1) (mem b'))) with c.
  2: { destruct Hb' as (_ & _ & _ & _ & u & ->).
       replace (((p ++ z ++ c) ++ x) ++ u) with ((p ++ z) ++ c ++ x ++ u) by (by rewrite <- !app_assoc).
       rewrite zdrop_app, ztake_app; [done..|zlia]. }
  replace (zlen p + 1 + (len_len - 1)) with (zlen (p ++ z ++ y)) by zlia.
  replace (p ++ (z ++ y) ++ c) with ((p ++ z ++ y) ++ c ++ []) by (by rewrite app_nil_r, <- !app_assoc).
  apply (write_outcome _ c'); [|done].
  rewrite app_nil_r, <- !app_assoc, <- Hcx. by rewrite <- !app_assoc in Hb'.
Qed.

(** Finishing a child: its placeholder becomes its length field. *)
Lemma flush_child_outcome b p z c id pll (asn1 : bool) :
  holds b (p ++ z ++ c) -> zlen z = pll -> (asn1 = true -> pll = 1) ->
  match length_field pll asn1 (zlen c) with
  | Some f => outcome (flush_child (mk_child id (zlen p) pll asn1) b) b tt (p ++ f ++ c)
  | None => refused (flush_child (mk_child id (zlen p) pll asn1) b)
  end.
Proof.
  intros Hb Hz Ha. pose proof (holds_len _ _ Hb) as Hcap. rewrite !zlen_app in Hcap.
  pose proof (zlen_nonneg p). pose proof (zlen_nonneg c). pose proof (zlen_nonneg z).
  unfold flush_child. rewrite (bind_step _ _ _ _ _ (eq_refl : get b = (Some b, b))).
  cbn [offset pending_len_len pending_is_asn1].
  assert (Hlen : len b = zlen p + (pll + zlen c)) by (destruct Hb as (_ & -> & _); zlia).
  unfold u64. change (2 ^ 64) with 18446744073709551616 in *. rewrite Z.mod_small by lia.
  rewrite Hlen, !bind_guard, (proj2 (Z.ltb_ge _ _)), (proj2 (Z.ltb_ge _ (zlen p + pll))) by lia.
  cbn [orb negb]. replace (zlen p + (pll + zlen c) - (zlen p + pll)) with (zlen c) by lia.
  unfold length_field. destruct asn1.
  - specialize (Ha eq_refl). subst pll. pose proof (asn1_length_spec (zlen c) ltac:(done)) as Hspec.
    destruct (asn1_length (zlen c)) as [[[len_len first] v]|].
    2: { rewrite (proj2 (Z.leb_gt _ _)) by lia. done. }
    destruct Hspec as (Hle & Hll & Hv & Hdiv & Hvn & ->). rewrite (proj2 (Z.leb_le _ _)), Ha by done.
    destruct (make_space_outcome b p z c len_len Hb Ha Hll) as (x & Hx & Ho).
    destruct x as [|x0 x]; [change (zlen []) with 0 in Hx; lia|]. rewrite zlen_cons in Hx.
    apply (outcome_bind _ _ _ (zlen p + 1, len_len - 1, v) _ (p ++ [first] ++ x ++ c)).
    + apply (outcome_bind _ _ _ tt _ (p ++ (x0 :: x) ++ c)); [|zlia|].
      * destruct (Z.eqb_spec len_len 1) as [->|]; [exact Ho|]. destruct Hvn as [|Hvn]; [done|].
        rewrite Hvn. exact Ho.
      * intros b1 Hb1 _. eapply outcome_bind; [by apply (write_outcome p [x0] (x ++ c))|done|].
        intros b2 Hb2 _. by apply outcome_ret.
    + autorewrite with zlen. lia.
    + intros b1 Hb1 _.
      replace (zlen p + 1) with (zlen (p ++ [first])) by zlia.
      replace (p ++ (first :: be_bytes (Z.to_nat (len_len - 1)) v) ++ c)
        with ((p ++ [first]) ++ be_bytes (Z.to_nat (len_len - 1)) v ++ c) by (by rewrite <- app_assoc).
      apply (write_len_outcome _ x); [by rewrite <- app_assoc|lia|done..].
  - rewrite bind_ret. assert (Hpow : 0 < 256 ^ pll) by (apply Z.pow_pos_nonneg; lia).
    destruct (Z.ltb_spec (zlen c) (256 ^ pll)) as [Hlt|Hge].
    + apply (write_len_outcome _ z); [done..|]. by apply Z.div_small.
    + unfold refused.
      pose proof (write_be_outcome (Z.to_nat pll) p z c (zlen c) b Hb ltac:(lia) ltac:(done)) as Ho.
      eapply refused_bind; [exact Ho|]. intros b' _. rewrite Z2Nat.id by lia.
      destruct (Z.eqb_spec (zlen c / 256 ^ pll) 0) as [E|]; [|done].
      apply Z.div_small_iff in E; lia.
Qed.
End Buffer.

(** ** Frames *)

Record frame := mk_frame {
  f_self : nat; f_len_len : Z; f_asn1 : bool; f_bytes : list Z
}.

Definition placeholder (f : frame) : list Z := replicate (Z.to_nat (f_len_len f)) 0.

(** The placeholders the code writes are zeros, so that the buffer is
    determined by the frames. *)
Fixpoint flat (fs : list frame) : list Z :=
  match fs with
  | [] => []
  | f :: fs => placeholder f ++ f_bytes f ++ flat fs
  end.

Fixpoint children_of (off : Z) (fs : list frame) : list cbb_child :=
  match fs with
  | [] => []
  | f :: fs => mk_child (f_self f) off (f_len_len f) (f_asn1 f)
                 :: children_of (off + f_len_len f + zlen (f_bytes f)) fs
  end.

Definition frame_ok (f : frame) : Prop := 0 <= f_len_len f /\ (f_asn1 f = true -> f_len_len f = 1).

(** Closing frames, innermost first: the bytes that the enclosing object gets. *)
Fixpoint close (fs : list frame) : option (list Z) :=
  match fs with
  | [] => Some []
  | f :: fs =>
      inner ← close fs;
      let c := f_bytes f ++ inner in
      field ← length_field (f_len_len f) (f_asn1 f) (zlen c);
      Some (field ++ c)
  end.

(** More bytes for the innermost frame. *)
Fixpoint fapp (fs : list frame) (x : list Z) : list frame :=
  match fs with
  | [] => []
  | [f] => [mk_frame (f_self f) (f_len_len f) (f_asn1 f) (f_bytes f ++ x)]
  | f :: fs => f :: fapp fs x
  end.

(** [CBB_flush] on the object at depth [d]; the top-level object is frame 0. *)
Definition fflush (d : nat) (fs : list frame) : option (list frame) :=
  x ← close (drop (S d) fs);
  Some (fapp (take (S d) fs) x).

Lemma flat_app fs gs : flat (fs ++ gs) = flat fs ++ flat gs.
Proof. induction fs as [|f fs IH]; [done|]. cbn [app flat]. by rewrite IH, <- !app_assoc. Qed.

Lemma fapp_snoc fs f x :
  fapp (fs ++ [f]) x = fs ++ [mk_frame (f_self f) (f_len_len f) (f_asn1 f) (f_bytes f ++ x)].
Proof.
  induction fs as [|g fs IH]; [done|]. cbn [app]. rewrite <- IH. by destruct fs.
Qed.

Lemma frames_snoc (fs : list frame) : fs <> [] -> exists gs f, fs = gs ++ [f].
Proof. intros H. destruct (exists_last H) as (gs & f & ->). eauto. Qed.

Lemma flat_fapp fs x : fs <> [] -> flat (fapp fs x) = flat fs ++ x.
Proof.
  intros H. destruct (frames_snoc fs H) as (gs & f & ->). rewrite fapp_snoc, !flat_app.
  cbn [flat]. rewrite !app_nil_r. unfold placeholder. cbn [f_len_len f_bytes]. by rewrite <- !app_assoc.
Qed.

Lemma fapp_nil fs : fapp fs [] = fs.
Proof.
  destruct (decide (fs = [])) as [->|H]; [done|]. destruct (frames_snoc fs H) as (gs & f & ->).
  rewrite fapp_snoc, app_nil_r. by destruct f.
Qed.

Lemma fapp_fapp fs x y : fapp (fapp fs x) y = fapp fs (x ++ y).
Proof.
  destruct (decide (fs = [])) as [->|H]; [done|]. destruct (frames_snoc fs H) as (gs & f & ->).
  rewrite !fapp_snoc. cbn [f_self f_len_len f_asn1 f_bytes]. by rewrite <- app_assoc.
Qed.

Lemma length_fapp fs x : length (fapp fs x) = length fs.
Proof.
  destruct (decide (fs = [])) as [->|H]; [done|]. destruct (frames_snoc fs H) as (gs & f & ->).
  rewrite fapp_snoc, !length_app. done.
Qed.

Lemma fapp_not_nil fs x : fs <> [] -> fapp fs x <> [].
Proof. intros H E. apply (f_equal length) in E. rewrite length_fapp in E. by destruct fs. Qed.

Lemma map_self_fapp fs x : map f_self (fapp fs x) = map f_self fs.
Proof.
  destruct (decide (fs = [])) as [->|H]; [done|]. destruct (frames_snoc fs H) as (gs & f & ->).
  rewrite fapp_snoc, !map_app. done.
Qed.

Lemma frames_ok_fapp fs x : Forall frame_ok fs -> Forall frame_ok (fapp fs x).
Proof.
  intros Hok. destruct (decide (fs = [])) as [->|H]; [done|]. destruct (frames_snoc fs H) as (gs & f & ->).
  rewrite fapp_snoc. apply Forall_app in Hok as [Hg Hf]. apply Forall_app. split; [done|].
  constructor; [|done]. by apply Forall_cons in Hf as [Hf _].
Qed.

Lemma zlen_placeholder f : frame_ok f -> zlen (placeholder f) = f_len_len f.
Proof. intros [H _]. unfold placeholder. rewrite zlen_replicate. lia. Qed.

Lemma children_of_app off fs gs : Forall frame_ok fs ->
  children_of off (fs ++ gs) = children_of off fs ++ children_of (off + zlen (flat fs)) gs.
Proof.
  intros Hok. revert off. induction Hok as [|f fs Hf Hok IH]; intros off; cbn [app children_of flat].
  - change (zlen (@nil Z)) with 0. by rewrite Z.add_0_r.
  - rewrite IH, !zlen_app, zlen_placeholder by done. cbn [app]. f_equal. f_equal. f_equal. lia.
Qed.

(** Bytes for the innermost frame move no child. *)
Lemma children_of_fapp off fs x : Forall frame_ok fs -> children_of off (fapp fs x) = children_of off fs.
Proof.
  intros Hok. destruct (decide (fs = [])) as [->|H]; [done|]. destruct (frames_snoc fs H) as (gs & f & ->).
  rewrite fapp_snoc. apply Forall_app in Hok as [Hg Hf]. by rewrite !children_of_app by done.
Qed.

Lemma length_children_of off fs : length (children_of off fs) = length fs.
Proof. revert off. induction fs as [|f fs IH]; intros; cbn; [done|]. by rewrite IH. Qed.

Lemma map_self_children off fs : map self (children_of off fs) = map f_self fs.
Proof. revert off. induction fs as [|f fs IH]; intros; cbn; [done|]. by rewrite IH. Qed.

(** Closing takes as much room as it says. *)
Lemma close_size fs x : Forall frame_ok fs -> close fs = Some x -> zlen (flat fs) <= zlen x.
Proof.
  intros Hok. revert x. induction Hok as [|f fs [Hl Ha] Hok IH]; intros x; cbn [close flat].
  - intros [= <-]. done.
  - destruct (close fs) as [inner|]; [|done]. cbn [mbind option_bind]. specialize (IH inner eq_refl).
    destruct (length_field _ _ _) as [field|] eqn:Hf; [|done]. intros [= <-].
    apply zlen_length_field in Hf; [|done..].
    rewrite !zlen_app, zlen_placeholder by done. lia.
Qed.

(** ** Flushing *)

Section Flush.
Context `{Allocator}.

Lemma outcome_on_error {A} (m : M cbb_buffer A) h b a l :
  outcome (m b) b a l -> outcome (on_error m h b) b a l.
Proof. unfold on_error. destruct (m b) as [[x|] b']; done. Qed.

Lemma refused_on_error {A} (m : M cbb_buffer A) h b : refused (m b) -> refused (on_error m h b).
Proof. unfold on_error, refused. destruct (m b) as [[x|] b']; done. Qed.

Lemma flush_children_eq cs b : error b = false ->
  flush_children cs b =
  match cs with
  | [] => (Some tt, b)
  | child :: cs => on_error (flush_children cs ;;; flush_child child) set_error b
  end.
Proof.
  intros He. destruct cs; cbn [flush_children];
    rewrite (bind_step _ _ _ _ _ (eq_refl : get b = (Some b, b))), bind_guard, He; done.
Qed.

Lemma flush_children_outcome fs : Forall frame_ok fs -> forall p b, holds b (p ++ flat fs) ->
  match close fs with
  | Some x => outcome (flush_children (children_of (zlen p) fs) b) b tt (p ++ x)
  | None => refused (flush_children (children_of (zlen p) fs) b)
  end.
Proof.
  induction 1 as [|f fs Hf Hok IH]; intros p b Hb; cbn [close children_of flat] in *.
  - rewrite flush_children_eq by apply Hb. by apply outcome_ret.
  - rewrite flush_children_eq by apply Hb. rewrite !app_assoc in Hb. specialize (IH _ _ Hb).
    rewrite !zlen_app, zlen_placeholder in IH by done.
    destruct (close fs) as [inner|] eqn:Hc; cbn [mbind option_bind].
    2: { apply refused_on_error. unfold refused, bind in *.
         destruct (flush_children _ b) as [[?|] ?]; done. }
    rewrite <- !app_assoc in IH.
    assert (Hchild : forall b', holds b' (p ++ placeholder f ++ f_bytes f ++ inner) ->
      match length_field (f_len_len f) (f_asn1 f) (zlen (f_bytes f ++ inner)) with
      | Some fd => outcome (flush_child (mk_child (f_self f) (zlen p) (f_len_len f) (f_asn1 f)) b') b' tt
                     (p ++ fd ++ f_bytes f ++ inner)
      | None => refused (flush_child (mk_child (f_self f) (zlen p) (f_len_len f) (f_asn1 f)) b')
      end).
    { intros b' Hb'. apply (flush_child_outcome _ _ (placeholder f)); [done|by apply zlen_placeholder|apply Hf]. }
    destruct (length_field _ _ _) as [fd|] eqn:Hfd; cbn [mbind option_bind].
    + apply outcome_on_error. eapply outcome_bind; [exact IH| |intros b' Hb' _; by apply Hchild].
      apply zlen_length_field in Hfd; [|apply Hf..]. rewrite !zlen_app, zlen_placeholder by done. lia.
    + apply refused_on_error. eapply refused_bind; [exact IH|]. intros b' Hb'. by apply Hchild.
Qed.
End Flush.

(** ** The simulation *)

(** The chain of children is that of the frames. *)
Record shape (cs : list cbb_child) (next : nat) (fs : list frame) : Prop := {
  shape_root : exists f0 gs, fs = f0 :: gs /\ f_len_len f0 = 0 /\ f_self f0 = root /\ f_asn1 f0 = false /\
    cs = children_of (zlen (f_bytes f0)) gs /\
    Forall (fun i => (0 < i < next)%nat) (map f_self gs);
  shape_ok : Forall frame_ok fs;
  shape_next : (0 < next)%nat
}.

(** The state of the code is that of the frames. *)
Definition rep (st : cbb_st) (fs : list frame) : Prop :=
  shape (chain st) (next st) fs /\ holds (base st) (flat fs).

Lemma shape_length cs n fs : shape cs n fs -> length fs = S (length cs).
Proof. intros [(f0 & gs & -> & _ & _ & _ & -> & _) _ _]. cbn. by rewrite length_children_of. Qed.

Lemma shape_not_nil cs n fs : shape cs n fs -> fs <> [].
Proof. intros H. apply shape_length in H. by destruct fs. Qed.

(** More bytes in the innermost frame. *)
Lemma shape_fapp cs n fs x : shape cs n fs -> shape cs n (fapp fs x).
Proof.
  intros [(f0 & gs & -> & Hl & Hs & Ha & Hc & Hid) Hok Hn]. split; [|by apply frames_ok_fapp|done].
  destruct gs as [|g gs].
  - eexists _, []. cbn [fapp]. split_and!; [done..|]. by cbn [f_len_len f_self f_asn1].
  - exists f0, (fapp (g :: gs) x). split_and!; try done.
    + apply Forall_cons in Hok as [_ Hok]. by rewrite children_of_fapp.
    + by rewrite map_self_fapp.
Qed.

Lemma frames_ok_fapp_inv fs x : Forall frame_ok (fapp fs x) -> Forall frame_ok fs.
Proof.
  destruct (decide (fs = [])) as [->|H]; [done|]. destruct (frames_snoc fs H) as (gs & f & ->).
  rewrite fapp_snoc, !Forall_app. intros [Hg Hf]. split; [done|].
  constructor; [|done]. by apply Forall_cons in Hf as [Hf _].
Qed.

Lemma shape_fapp_inv cs n fs x : shape cs n (fapp fs x) -> shape cs n fs.
Proof.
  intros [(f0 & gs & E & Hl & Hs & Ha & Hc & Hid) Hok Hn]. apply frames_ok_fapp_inv in Hok.
  destruct fs as [|f [|g fs]]; [done|..]; (split; [|done|done]).
  - injection E as <- <-. exists f, []. done.
  - cbn [fapp] in E. injection E as <- <-. exists f, (g :: fs).
    apply Forall_cons in Hok as [_ Hok].
    change (match fs with [] => _ | _ => _ end) with (fapp (g :: fs) x) in *.
    rewrite map_self_fapp in Hid. rewrite children_of_fapp in Hc by done. done.
Qed.

(** The bytes of the innermost frame are free. *)
Lemma shape_refill cs n fs x y : shape cs n (fapp fs x) -> shape cs n (fapp fs y).
Proof. intros H. eapply shape_fapp, shape_fapp_inv, H. Qed.

Lemma take_children_of d off fs : take d (children_of off fs) = children_of off (take d fs).
Proof. revert d off. induction fs as [|f fs IH]; intros [|d] off; cbn [take children_of]; try done. by rewrite IH. Qed.

Lemma shape_take d cs n fs : shape cs n fs -> shape (take d cs) n (take (S d) fs).
Proof.
  intros [(f0 & gs & -> & Hl & Hs & Ha & Hc & Hid) Hok Hn].
  split; [|by apply Forall_take|done].
  exists f0, (take d gs). split_and!; try done.
  - by rewrite Hc, take_children_of.
  - rewrite <- firstn_map. by apply Forall_take.
Qed.

Lemma shape_drop d cs n fs : shape cs n fs ->
  drop d cs = children_of (zlen (flat (take (S d) fs))) (drop (S d) fs).
Proof.
  intros [(f0 & gs & -> & Hl & _ & _ & -> & _) Hok _]. cbn [take drop flat].
  unfold placeholder. rewrite Hl. change (replicate (Z.to_nat 0) 0) with (@nil Z). cbn [app].
  rewrite zlen_app.
  apply Forall_cons in Hok as [_ Hok]. generalize (zlen (f_bytes f0)). clear f0 Hl. revert d.
  induction gs as [|g gs IH]; intros [|d] off; cbn [drop take flat children_of]; try done.
  - change (zlen (@nil Z)) with 0. by rewrite Z.add_0_r.
  - apply Forall_cons in Hok as [Hg Hok]. rewrite IH, !zlen_app, zlen_placeholder by done. f_equal. lia.
Qed.

(** A new child, numbered [n], at the end of the chain. *)
Lemma shape_snoc cs n fs f : shape cs n fs -> frame_ok f -> f_self f = n -> f_bytes f = [] ->
  shape (cs ++ [mk_child n (zlen (flat fs)) (f_len_len f) (f_asn1 f)]) (S n) (fs ++ [f]).
Proof.
  intros [(f0 & gs & -> & Hl & Hs & Ha & -> & Hid) Hok Hn] Hf Hself Hb.
  split; [|apply Forall_app; split; [done|by constructor]|lia].
  exists f0, (gs ++ [f]). apply Forall_cons in Hok as [_ Hok]. split_and!; try done.
  - rewrite children_of_app by done. cbn [children_of]. rewrite Hself. do 3 f_equal.
    cbn [flat]. unfold placeholder. rewrite Hl. change (replicate (Z.to_nat 0) 0) with (@nil Z).
    cbn [app]. by rewrite zlen_app.
  - rewrite map_app. apply Forall_app. split.
    + eapply Forall_impl; [exact Hid|]. cbn. lia.
    + cbn. constructor; [lia|done].
Qed.

(** ** Objects *)

Lemma index_of_bound h cs d : index_of h cs = Some d -> (1 <= d <= length cs)%nat.
Proof.
  revert d. induction cs as [|c cs IH]; intros d; cbn [index_of length]; [done|].
  destruct (Nat.eqb _ _); [intros [= <-]; lia|].
  destruct (index_of h cs) as [d'|]; [|done]. intros [= <-]. specialize (IH d' eq_refl). lia.
Qed.

Lemma index_of_app h cs ds d : index_of h cs = Some d -> index_of h (cs ++ ds) = Some d.
Proof.
  revert d. induction cs as [|c cs IH]; intros d; cbn [index_of app]; [done|].
  destruct (Nat.eqb _ _); [done|].
  destruct (index_of h cs) as [d'|]; [|done]. intros [= <-]. by rewrite (IH d' eq_refl).
Qed.

Lemma index_of_take h cs d k : index_of h cs = Some d -> (d <= k)%nat -> index_of h (take k cs) = Some d.
Proof.
  revert d k. induction cs as [|c cs IH]; intros d k; cbn [index_of]; [done|].
  destruct (Nat.eqb _ _) eqn:E.
  - intros [= <-] Hk. destruct k; [lia|]. cbn [take index_of]. by rewrite E.
  - destruct (index_of h cs) as [d'|]; [|done]. intros [= <-] Hk. destruct k; [lia|].
    cbn [take index_of]. rewrite E, (IH d' k eq_refl) by lia. done.
Qed.

Lemma index_of_new h cs c : self c = h -> ~ In h (map self cs) -> index_of h (cs ++ [c]) = Some (S (length cs)).
Proof.
  intros Hc. induction cs as [|c' cs IH]; intros Hn; cbn [index_of app length map In] in *.
  - by rewrite Hc, Nat.eqb_refl.
  - rewrite (proj2 (Nat.eqb_neq _ _)) by tauto. by rewrite IH by tauto.
Qed.

(** [st'] has every object of [st] of depth at most [d]. *)
Definition keeps (d : nat) (st st' : cbb_st) : Prop :=
  forall h k, depth h st = Some k -> (k <= d)%nat -> depth h st' = Some k.

Lemma keeps_chain d st st' k ds : chain st' = take k (chain st) ++ ds -> (d <= k)%nat -> keeps d st st'.
Proof.
  intros Hc Hk h j. unfold depth. destruct (Nat.eqb h root); [done|]. rewrite Hc. intros Hj Hle.
  apply index_of_app, index_of_take; [done|lia].
Qed.

Lemma keeps_trans d st st' st'' : keeps d st st' -> keeps d st' st'' -> keeps d st st''.
Proof. intros H1 H2 h k Hk Hle. by apply H2; [apply H1|]. Qed.

Lemma depth_bound st fs h d : rep st fs -> depth h st = Some d -> (d < length fs)%nat.
Proof.
  intros [Hs _]. rewrite (shape_length _ _ _ Hs). unfold depth.
  destruct (Nat.eqb h root); [intros [= <-]; lia|]. intros Hd. apply index_of_bound in Hd. lia.
Qed.

(** ** Operations *)

Section Ops.
Context `{Allocator}.

(** A call at depth [d] returns [a] and leaves a state with frames [fs], unless
    there is no room for their bytes; objects up to depth [d] stay. *)
Definition result {A} (d : nat) (r : option A * cbb_st) (st : cbb_st) (a : A) (fs : list frame) : Prop :=
  match r with
  | (Some x, st') => x = a /\ rep st' fs /\ keeps d st st' /\ same_kind (base st) (base st') /\
      forall m, zlen (flat fs) <= m -> fits (base st) m -> fits (base st') m
  | (None, _) => forall m, zlen (flat fs) <= m -> ~ fits (base st) m
  end.

Definition rejected {A} (r : option A * cbb_st) : Prop := fst r = None.

Lemma result_bind {A B} d d' (m : M cbb_st A) (k : A -> M cbb_st B) st a c fs fs' :
  result d (m st) st a fs -> zlen (flat fs) <= zlen (flat fs') -> (d <= d')%nat ->
  (forall st', rep st' fs -> keeps d st st' -> result d' (k a st') st' c fs') ->
  result d (bind m k st) st c fs'.
Proof.
  intros Hm Hle Hd Hk. unfold bind. destruct (m st) as [[x|] st'].
  - destruct Hm as (-> & Hb' & Hkp & Hs & Hf). specialize (Hk st' Hb' Hkp). unfold result in *.
    destruct (k a st') as [[y|] st''].
    + destruct Hk as (-> & ? & Hkp' & Hs' & ?). unfold same_kind in *.
      split_and!; [done|done| |naive_solver congruence..|eauto with lia].
      intros h j Hj Hjd. apply Hkp'; [by apply Hkp|lia].
    + intros m' Hm' Hfit. eapply Hk; [done|]. apply Hf; [lia|done].
  - intros m' Hm'. apply Hm. lia.
Qed.

Lemma rejected_bind {A B} d (m : M cbb_st A) (k : A -> M cbb_st B) st a fs :
  result d (m st) st a fs -> (forall st', rep st' fs -> keeps d st st' -> rejected (k a st')) ->
  rejected (bind m k st).
Proof.
  intros Hm Hk. unfold bind. destruct (m st) as [[x|] st']; [|done].
  destruct Hm as (-> & Hb' & Hkp & _). by apply Hk.
Qed.

Lemma result_ret {A} d st (a : A) fs : rep st fs -> result d (ret a st) st a fs.
Proof. intros. cbn. split_and!; try done. by intros ???. Qed.

Lemma result_weaken {A} d d' (r : option A * cbb_st) st a fs :
  result d r st a fs -> (d' <= d)%nat -> result d' r st a fs.
Proof.
  unfold result. destruct r as [[x|] st']; [|done]. intros (? & ? & Hk & ? & ?) Hd.
  split_and!; try done. intros h j Hj Hjd. apply Hk; [done|lia].
Qed.

(** An operation on the buffer that does not touch the chain. *)
Lemma result_on_base {A} d (m : M cbb_buffer A) st a fs fs' :
  outcome (m (base st)) (base st) a (flat fs') -> shape (chain st) (next st) fs -> 
  (shape (chain st) (next st) fs -> shape (chain st) (next st) fs') ->
  result d (on_base m st) st a fs'.
Proof.
  intros Hm Hs Hs'. unfold on_base. destruct (m (base st)) as [[x|] b]; [|done].
  destruct Hm as (-> & Hb & Hk & Hf). cbn. split_and!; try done; [split; [by apply Hs'|done]|by intros ???].
Qed.

Lemma CBB_flush_result h st fs d : rep st fs -> depth h st = Some d ->
  match fflush d fs with
  | Some fs' => result d (CBB_flush h st) st tt fs' /\
      (forall st', CBB_flush h st = (Some tt, st') -> chain st' = take d (chain st))
  | None => rejected (CBB_flush h st)
  end.
Proof.
  intros Hrep Hd. pose proof (depth_bound _ _ _ _ Hrep Hd) as Hlt. destruct Hrep as [Hs Hb].
  unfold CBB_flush, fflush. rewrite Hd. rewrite (proj1 Hb).
  unfold on_base. rewrite (shape_drop _ _ _ _ Hs).
  assert (Hflat : flat fs = flat (take (S d) fs) ++ flat (drop (S d) fs)) by (by rewrite <- flat_app, take_drop).
  rewrite Hflat in Hb.
  pose proof (flush_children_outcome (drop (S d) fs) ltac:(apply Forall_drop, Hs) _ _ Hb) as Ho.
  destruct (close (drop (S d) fs)) as [x|]; cbn [mbind option_bind].
  - destruct (flush_children _ (base st)) as [[[]|] b]; cbn in Ho.
    + destruct Ho as (_ & Hb' & Hk & Hf).
      assert (Hne : take (S d) fs <> []) by (destruct fs; [cbn in Hlt; lia|done]).
      split; [|by intros st' [= <-]]. cbn. rewrite flat_fapp by done. split_and!; try done.
      * split; cbn [chain next base cut]; [by apply shape_fapp, shape_take|by rewrite flat_fapp].
      * apply (keeps_chain _ _ _ d []); [by rewrite app_nil_r|done].
    + split; [|done]. cbn. rewrite flat_fapp; [done|]. destruct fs; [cbn in Hlt; lia|done].
  - unfold rejected, refused in *. destruct (flush_children _ (base st)) as [[[]|] b]; done.
Qed.

Lemma fflush_length d fs fs' : (d < length fs)%nat -> fflush d fs = Some fs' -> length fs' = S d.
Proof.
  intros Hd. unfold fflush. destruct (close _) as [x|]; [|done]. intros [= <-].
  rewrite length_fapp, length_take. lia.
Qed.

(** Flushing at the depth of the innermost object does nothing. *)
Lemma fflush_last fs d : length fs = S d -> fflush d fs = Some fs.
Proof.
  intros Hl. unfold fflush. rewrite drop_ge, take_ge by lia. cbn. by rewrite fapp_nil.
Qed.

Lemma fflush_size d fs fs' : Forall frame_ok fs -> fflush d fs = Some fs' -> (d < length fs)%nat ->
  zlen (flat fs) <= zlen (flat fs').
Proof.
  intros Hok. unfold fflush. destruct (close (drop (S d) fs)) as [x|] eqn:Hc; [|done]. intros [= <-] Hd.
  apply close_size in Hc; [|by apply Forall_drop].
  rewrite flat_fapp by (destruct fs; [cbn in Hd; lia|done]).
  rewrite <- (take_drop (S d) fs) at 1. rewrite flat_app, !zlen_app. lia.
Qed.

(** A call that starts with a flush. *)
Lemma flush_then {B} h st fs d fs1 (k : unit -> M cbb_st B) c fs' :
  rep st fs -> depth h st = Some d -> fflush d fs = Some fs1 -> zlen (flat fs1) <= zlen (flat fs') ->
  (forall st', rep st' fs1 -> depth h st' = Some d -> length fs1 = S d -> result d (k tt st') st' c fs') ->
  result d (bind (CBB_flush h) k st) st c fs'.
Proof.
  intros Hrep Hd Hf Hle Hk. pose proof (CBB_flush_result h st fs d Hrep Hd) as Hr. rewrite Hf in Hr.
  destruct Hr as [Hr _]. eapply result_bind; [exact Hr|done|done|].
  intros st' Hrep' Hkp. apply Hk; [done|by apply Hkp|].
  eapply fflush_length; [|done]. by eapply depth_bound.
Qed.

Lemma flush_rejected {B} h st fs d (k : unit -> M cbb_st B) :
  rep st fs -> depth h st = Some d -> fflush d fs = None -> rejected (bind (CBB_flush h) k st).
Proof.
  intros Hrep Hd Hf. pose proof (CBB_flush_result h st fs d Hrep Hd) as Hr. rewrite Hf in Hr.
  unfold rejected, bind in *. destruct (CBB_flush h st) as [[?|] ?]; done.
Qed.

Lemma flat_fapp_size fs x : fs <> [] -> zlen (flat (fapp fs x)) = zlen (flat fs) + zlen x.
Proof. intros. by rewrite flat_fapp, zlen_app. Qed.

Lemma add_space_result h st fs d fs1 n :
  rep st fs -> depth h st = Some d -> fflush d fs = Some fs1 -> 0 <= n < 2 ^ 64 ->
  exists x, zlen x = n /\ result d (CBB_add_space h n st) st (zlen (flat fs1)) (fapp fs1 x).
Proof.
  intros Hrep Hd Hf Hn. pose proof (depth_bound _ _ _ _ Hrep Hd) as Hlt.
  pose proof (fflush_length _ _ _ Hlt Hf) as Hlen.
  assert (Hne : fs1 <> []) by (by destruct fs1).
  pose proof (CBB_flush_result h st fs d Hrep Hd) as Hr. rewrite Hf in Hr. destruct Hr as [Hr _].
  unfold CBB_add_space, bind. destruct (CBB_flush h st) as [[[]|] st1].
  - destruct Hr as (_ & [Hs1 Hb1] & Hk & Hsame & Hfit).
    destruct (add_outcome (base st1) _ n Hb1 Hn) as (x & Hx & Ho). exists x. split; [done|].
    assert (Hres : result d (on_base (cbb_buffer_add n) st1) st1 (zlen (flat fs1)) (fapp fs1 x)).
    { apply (result_on_base d _ _ _ fs1); [by rewrite flat_fapp|done|apply shape_fapp]. }
    unfold result in *. destruct (on_base _ st1) as [[o|] st2].
    + destruct Hres as (-> & ? & Hk2 & Hs2 & Hf2). unfold same_kind in *.
      rewrite flat_fapp_size in * by done. pose proof (zlen_nonneg x).
      split_and!; [done|done|by eapply keeps_trans|naive_solver congruence..|].
      intros m Hm Hfm. apply Hf2; [done|]. apply Hfit; [lia|done].
    + intros m Hm Hfm. eapply Hres; [done|]. apply Hfit; [|done].
      rewrite flat_fapp_size in Hm by done. lia.
  - exists (replicate (Z.to_nat n) 0). split; [rewrite zlen_replicate; lia|].
    intros m Hm. apply Hr. rewrite flat_fapp_size, zlen_replicate in Hm by done. lia.
Qed.

(** Fill the space that was added with [x']. *)
Lemma add_space_then {B} h st fs d fs1 n (k : Z -> M cbb_st B) c x' :
  rep st fs -> depth h st = Some d -> fflush d fs = Some fs1 -> zlen x' = n -> n < 2 ^ 64 ->
  (forall st' x, rep st' (fapp fs1 x) -> zlen x = n -> depth h st' = Some d ->
     result d (k (zlen (flat fs1)) st') st' c (fapp fs1 x')) ->
  result d (bind (CBB_add_space h n) k st) st c (fapp fs1 x').
Proof.
  intros Hrep Hd Hf Hx Hn Hk. pose proof (zlen_nonneg x').
  destruct (add_space_result h st fs d fs1 n Hrep Hd Hf ltac:(lia)) as (x & Hxn & Hr).
  pose proof (depth_bound _ _ _ _ Hrep Hd) as Hlt. pose proof (fflush_length _ _ _ Hlt Hf) as Hlen.
  eapply result_bind; [exact Hr| |done|].
  - rewrite !flat_fapp_size by (by destruct fs1). lia.
  - intros st' Hrep' Hkp. apply (Hk st' x); [done..|by apply Hkp].
Qed.

Lemma CBB_add_bytes_result h st fs d fs1 data :
  rep st fs -> depth h st = Some d -> fflush d fs = Some fs1 -> zlen data < 2 ^ 64 ->
  result d (CBB_add_bytes h data st) st tt (fapp fs1 data).
Proof.
  intros Hrep Hd Hf Hn. pose proof (depth_bound _ _ _ _ Hrep Hd) as Hlt.
  pose proof (fflush_length _ _ _ Hlt Hf) as Hlen. assert (Hne : fs1 <> []) by (by destruct fs1).
  eapply add_space_then; [done..|].
  intros st' x [Hs Hb] Hx _. apply (result_on_base d _ _ _ (fapp fs1 x)); [|done|].
  - rewrite flat_fapp in * by done.
    replace (flat fs1 ++ data) with (flat fs1 ++ data ++ []) by (by rewrite app_nil_r).
    apply (write_outcome _ x); [by rewrite app_nil_r|done].
  - by apply shape_refill.
Qed.

Lemma cbb_add_u_result h st fs d fs1 v n :
  rep st fs -> depth h st = Some d -> fflush d fs = Some fs1 -> 0 <= n <= 8 -> 0 <= v < 256 ^ n ->
  result d (cbb_add_u h v n st) st tt (fapp fs1 (be_bytes (Z.to_nat n) v)).
Proof.
  intros Hrep Hd Hf Hn Hv. pose proof (depth_bound _ _ _ _ Hrep Hd) as Hlt.
  pose proof (fflush_length _ _ _ Hlt Hf) as Hlen. assert (Hne : fs1 <> []) by (by destruct fs1).
  unfold cbb_add_u. eapply add_space_then; [done..|rewrite zlen_be_bytes; lia|lia|].
  intros st' x Hrep' Hx Hd'.
  eapply (result_bind d d _ _ _ 0); [| |done|].
  - destruct Hrep' as [Hs Hb].
    apply (result_on_base d _ _ _ (fapp fs1 x) (fapp fs1 (be_bytes (Z.to_nat n) v))); [|done|].
    + rewrite flat_fapp in * by done. replace 0 with (v / 256 ^ Z.of_nat (Z.to_nat n)).
      2: { rewrite Z2Nat.id by lia. by apply Z.div_small. }
      replace (flat fs1 ++ be_bytes (Z.to_nat n) v) with (flat fs1 ++ be_bytes (Z.to_nat n) v ++ [])
        by (by rewrite app_nil_r).
      apply (write_be_outcome _ _ x); [by rewrite app_nil_r|lia|lia].
    + by apply shape_refill.
  - done.
  - intros st'' Hrep'' _. by apply result_ret.
Qed.

Lemma CBB_add_u8_result h st fs d fs1 v :
  rep st fs -> depth h st = Some d -> fflush d fs = Some fs1 -> is_byte v ->
  result d (CBB_add_u8 h v st) st tt (fapp fs1 [v]).
Proof.
  intros Hrep Hd Hf Hv. unfold is_byte in Hv.
  pose proof (cbb_add_u_result h st fs d fs1 v 1 Hrep Hd Hf ltac:(lia) Hv) as Hr.
  change (be_bytes (Z.to_nat 1) v) with [v mod 256] in Hr. by rewrite Z.mod_small in Hr.
Qed.

(** Bytes added one at a time. *)
Lemma CBB_add_u8_then {B} h st fs d fs1 v (k : unit -> M cbb_st B) c fs' :
  rep st fs -> depth h st = Some d -> fflush d fs = Some fs1 -> is_byte v ->
  zlen (flat fs1) + 1 <= zlen (flat fs') ->
  (forall st', rep st' (fapp fs1 [v]) -> depth h st' = Some d -> result d (k tt st') st' c fs') ->
  result d (bind (CBB_add_u8 h v) k st) st c fs'.
Proof.
  intros Hrep Hd Hf Hv Hle Hk. pose proof (depth_bound _ _ _ _ Hrep Hd) as Hlt.
  pose proof (fflush_length _ _ _ Hlt Hf) as Hlen. assert (Hne : fs1 <> []) by (by destruct fs1).
  eapply result_bind; [by apply (CBB_add_u8_result h st fs d fs1)| |done|].
  - rewrite flat_fapp_size by done. change (zlen [v]) with 1. lia.
  - intros st' Hrep' Hkp. apply Hk; [done|]. by apply Hkp.
Qed.

Lemma fflush_fapp d fs x : length fs = S d -> fflush d (fapp fs x) = Some (fapp fs x).
Proof. intros. apply fflush_last. by rewrite length_fapp. Qed.

(** A flush that has nothing to do but at depth [d] changes nothing later. *)
Lemma fflush_idem d fs fs1 : (d < length fs)%nat -> fflush d fs = Some fs1 -> fflush d fs1 = Some fs1.
Proof. intros Hd Hf. apply fflush_last. by eapply fflush_length. Qed.

(** The number a call is given is that of the new object. *)
Definition new_frame (n : nat) (len_len : Z) (asn1 : bool) : frame := mk_frame n len_len asn1 [].

Definition result_child (d : nat) (r : option CBB * cbb_st) (st : cbb_st) (fs : list frame)
    (len_len : Z) (asn1 : bool) : Prop :=
  exists n, result d r st n (fs ++ [new_frame n len_len asn1]) /\
    forall n' st', r = (Some n', st') -> depth n' st' = Some (S d).

Lemma shape_new_id cs n fs : shape cs n fs -> ~ In n (map self cs).
Proof.
  intros [(f0 & gs & -> & _ & _ & _ & -> & Hid) _ _]. rewrite map_self_children. intros Hin.
  pose proof (proj1 (List.Forall_forall _ _) Hid n Hin). cbn in *. lia.
Qed.

Lemma cbb_add_child_result h st fs d ll asn1 :
  rep st fs -> length fs = S d -> 0 <= ll <= 8 -> (asn1 = true -> ll = 1) ->
  result_child d (cbb_add_child h ll asn1 st) st fs ll asn1.
Proof.
  intros [Hs Hb] Hlen Hll Ha. exists (next st). pose proof (shape_length _ _ _ Hs) as Hcl.
  assert (Hne : fs <> []) by (by destruct fs). set (n := next st).
  assert (Hfl : flat (fs ++ [new_frame n ll asn1]) = flat fs ++ replicate (Z.to_nat ll) 0 ++ []).
  { rewrite flat_app. done. }
  destruct (add_outcome (base st) _ ll Hb) as (x & Hx & Ho); [lia|].
  assert (Ho2 : outcome ((let* p := cbb_buffer_add ll in write p (replicate (Z.to_nat ll) 0)) (base st))
                  (base st) tt (flat fs ++ replicate (Z.to_nat ll) 0 ++ [])).
  { eapply outcome_bind; [exact Ho|rewrite !zlen_app, zlen_replicate; zlia|].
    intros b' Hb' _. apply (write_outcome _ x); [by rewrite app_nil_r|rewrite zlen_replicate; lia]. }
  unfold cbb_add_child, bind, get, on_base, put, ret in *. cbn [base chain next] in *.
  destruct (cbb_buffer_add ll (base st)) as [[p|] b1]; [|split; [unfold result; rewrite Hfl; exact Ho2|done]].
  cbn [base chain next] in *. destruct (write p _ b1) as [[[]|] b2]; [|split; [unfold result; rewrite Hfl; exact Ho2|done]].
  destruct Ho2 as (_ & Hb2 & Hk & Hf). rewrite <- Hfl in Hb2, Hf.
  assert (Hcs : len (base st) = zlen (flat fs)) by apply Hb.
  split.
  - cbn. split_and!; try done.
    + split; cbn [chain next base]; [|done]. rewrite Hcs.
      apply (shape_snoc _ _ _ (new_frame n ll asn1)); [done|split; [cbn; lia|done]|done..].
    + apply (keeps_chain _ _ _ d [mk_child n (len (base st)) ll asn1]); [|done].
      cbn [chain]. by rewrite take_ge by lia.
  - intros n' st' [= <- <-]. unfold depth. cbn [chain].
    pose proof (shape_next _ _ _ Hs). rewrite (proj2 (Nat.eqb_neq _ _)) by (unfold root, n; lia).
    rewrite index_of_new; [f_equal; lia|done|]. by eapply shape_new_id.
Qed.

(** A call opens a child under the frames [fs] and returns it, unless there is
    no room for its placeholder. *)
Definition opens (d : nat) (r : option CBB * cbb_st) (st : cbb_st) (fs : list frame)
    (ll : Z) (asn1 : bool) : Prop :=
  match r with
  | (Some n, st') => rep st' (fs ++ [new_frame n ll asn1]) /\ keeps d st st' /\ depth n st' = Some (S d) /\
      same_kind (base st) (base st') /\
      forall m, zlen (flat fs) + ll <= m -> fits (base st) m -> fits (base st') m
  | (None, _) => forall m, zlen (flat fs) + ll <= m -> ~ fits (base st) m
  end.

Lemma cbb_add_child_opens h st fs d ll asn1 :
  rep st fs -> length fs = S d -> 0 <= ll <= 8 -> (asn1 = true -> ll = 1) ->
  opens d (cbb_add_child h ll asn1 st) st fs ll asn1.
Proof.
  intros Hrep Hlen Hll Ha.
  destruct (cbb_add_child_result h st fs d ll asn1 Hrep Hlen Hll Ha) as (n & Hr & Hd).
  assert (Hsz : zlen (flat (fs ++ [new_frame n ll asn1])) = zlen (flat fs) + ll).
  { rewrite flat_app, zlen_app. cbn [flat]. rewrite !app_nil_r, zlen_placeholder; [done|]. split; [cbn; lia|done]. }
  unfold result, opens in *. rewrite Hsz in Hr.
  destruct (cbb_add_child h ll asn1 st) as [[x|] st']; [|done].
  destruct Hr as (-> & Hrep' & Hkp & Hs & Hf). split_and!; (done || by apply Hd).
Qed.

Lemma opens_bind {B} d (m : M cbb_st CBB) (k : CBB -> M cbb_st B) st fs ll asn1 c fs' :
  opens d (m st) st fs ll asn1 -> zlen (flat fs) + ll <= zlen (flat fs') ->
  (forall n st', rep st' (fs ++ [new_frame n ll asn1]) -> keeps d st st' -> depth n st' = Some (S d) ->
     result d (k n st') st' c fs') ->
  result d (bind m k st) st c fs'.
Proof.
  intros Hm Hle Hk. unfold bind. destruct (m st) as [[n|] st'].
  - destruct Hm as (Hrep & Hkp & Hd & Hs & Hf). specialize (Hk n st' Hrep Hkp Hd). unfold result in *.
    destruct (k n st') as [[y|] st''].
    + destruct Hk as (-> & ? & Hkp' & Hs' & ?). unfold same_kind in *.
      split_and!; [done|done|by eapply keeps_trans|naive_solver congruence..|].
      intros m' Hm' Hfm. auto with lia.
    + intros m' Hm' Hfm. eapply Hk; [done|]. apply Hf; [lia|done].
  - intros m' Hm'. apply Hm. lia.
Qed.

Lemma opens_after {A} d (m : M cbb_st A) (k : M cbb_st CBB) st a f1 fs ll asn1 :
  result d (m st) st a f1 -> zlen (flat f1) <= zlen (flat fs) + ll ->
  (forall st', rep st' f1 -> keeps d st st' -> opens d (k st') st' fs ll asn1) ->
  opens d ((m ;;; k) st) st fs ll asn1.
Proof.
  intros Hm Hle Hk. unfold bind. destruct (m st) as [[x|] st'].
  - destruct Hm as (-> & Hrep & Hkp & Hs & Hf). specialize (Hk st' Hrep Hkp). unfold opens in *.
    destruct (k st') as [[y|] st''].
    + destruct Hk as (? & Hkp' & ? & Hs' & ?). unfold same_kind in *.
      split_and!; [done|by eapply keeps_trans|done|naive_solver congruence..|].
      intros m' Hm' Hfm. auto with lia.
    + intros m' Hm' Hfm. eapply Hk; [done|]. apply Hf; [lia|done].
  - intros m' Hm'. apply Hm. lia.
Qed.

(** ** Base-128 integers and tags *)

(** The bytes of the loop, highest digit first. *)
Fixpoint loop_octets (n : nat) (v : Z) : list Z :=
  match n with
  | O => []
  | S i => ((v / 128 ^ Z.of_nat i) mod 128 + (if Nat.eqb i 0 then 0 else 128)) :: loop_octets i v
  end.

Fixpoint high_octets (n : nat) (w : Z) : list Z :=
  match n with
  | O => []
  | S i => (128 + (w / 128 ^ Z.of_nat i) mod 128) :: high_octets i w
  end.

Lemma pow128_succ i : 128 ^ Z.of_nat (S i) = 128 * 128 ^ Z.of_nat i.
Proof. by rewrite Nat2Z.inj_succ, Z.pow_succ_r by lia. Qed.

Lemma high_octets_snoc n w : high_octets (S n) w = high_octets n (w / 128) ++ [128 + w mod 128].
Proof.
  induction n as [|n IH].
  - cbn [high_octets app]. by rewrite Z.div_1_r.
  - change (high_octets (S (S n)) w) with
      ((128 + (w / 128 ^ Z.of_nat (S n)) mod 128) :: high_octets (S n) w).
    rewrite IH. cbn [high_octets app]. rewrite pow128_succ, <- Z.div_div by (try apply Z.pow_pos_nonneg; lia).
    done.
Qed.

Lemma loop_octets_split n v : loop_octets (S n) v = high_octets n (v / 128) ++ [v mod 128].
Proof.
  induction n as [|n IH].
  - cbn [loop_octets high_octets app Nat.eqb]. by rewrite Z.div_1_r, Z.add_0_r.
  - change (loop_octets (S (S n)) v) with
      (((v / 128 ^ Z.of_nat (S n)) mod 128 + 128) :: loop_octets (S n) v).
    rewrite IH. cbn [high_octets app]. rewrite pow128_succ, <- Z.div_div by (try apply Z.pow_pos_nonneg; lia).
    f_equal. lia.
Qed.

Lemma b128_hi_octets n w : 0 <= w -> b128_hi n w = high_octets (base128_len n w) w.
Proof.
  revert w. induction n as [|n IH]; intros w Hw; [done|].
  cbn [b128_hi base128_len]. rewrite Z.gtb_ltb.
  destruct (Z.eqb_spec w 0) as [->|]; [done|]. rewrite (proj2 (Z.ltb_lt _ _)) by lia.
  rewrite high_octets_snoc, Z.shiftr_div_pow2 by lia. change (2 ^ 7) with 128. by rewrite IH by dlia.
Qed.

Lemma loop_octets_base128 v : 0 <= v ->
  loop_octets (if Nat.eqb (base128_len 10 v) 0 then 1 else base128_len 10 v) v = base128_octets v.
Proof.
  intros Hv. unfold base128_octets. rewrite b128_hi_octets by dlia.
  change (base128_len 10 v) with (if v >? 0 then S (base128_len 9 (v ≫ 7)) else O).
  rewrite Z.gtb_ltb, Z.shiftr_div_pow2 by lia. change (2 ^ 7) with 128.
  destruct (Z.ltb_spec 0 v); cbn [Nat.eqb]; [by rewrite loop_octets_split|].
  by replace v with 0 by lia.
Qed.

Lemma or_0x80_check : zall 0 128 (fun b => (b .| 0x80) =? b + 128) = true.
Proof. vm_compute. reflexivity. Qed.

Lemma base128_byte i v : 0 <= v ->
  (let byte := u8 ((v ≫ (7 * Z.of_nat i)) .& 0x7f) in
   if negb (Nat.eqb i 0) then byte .| 0x80 else byte) =
  (v / 128 ^ Z.of_nat i) mod 128 + (if Nat.eqb i 0 then 0 else 128).
Proof.
  intros Hv. rewrite Z.shiftr_div_pow2 by lia. change 0x7f with (2 ^ 7 - 1).
  rewrite land_ones_mod, Z.pow_mul_r by lia. change (2 ^ 7) with 128.
  set (w := v / _). assert (Hw : 0 <= w mod 128 < 128) by (apply Z.mod_pos_bound; lia).
  unfold u8. rewrite (Z.mod_small (w mod 128)) by lia. cbv zeta.
  destruct (Nat.eqb i 0); cbn [negb]; [lia|].
  apply Z.eqb_eq, (zall_spec _ _ _ or_0x80_check). lia.
Qed.

Lemma add_base128_loop_result h n v : 0 <= v -> forall st fs d,
  rep st fs -> depth h st = Some d -> length fs = S d ->
  result d (add_base128_loop h n v st) st tt (fapp fs (loop_octets n v)).
Proof.
  intros Hv. induction n as [|n IH]; intros st fs d Hrep Hd Hlen; cbn [add_base128_loop loop_octets].
  - rewrite fapp_nil. by apply result_ret.
  - rewrite base128_byte by done. set (b := _ + _).
    assert (Hb : is_byte b).
    { unfold b, is_byte. pose proof (Z.mod_pos_bound (v / 128 ^ Z.of_nat n) 128). destruct (Nat.eqb n 0); lia. }
    assert (Hne : fs <> []) by (by destruct fs).
    apply (CBB_add_u8_then _ _ fs _ fs); [done..|by apply fflush_last|done| |].
    + rewrite flat_fapp_size, zlen_cons by done. zlen_pos. lia.
    + intros st' Hrep' Hd'.
      replace (fapp fs (b :: loop_octets n v)) with (fapp (fapp fs [b]) (loop_octets n v)) by (by rewrite fapp_fapp).
      apply IH; [done..|]. by rewrite length_fapp.
Qed.

Lemma add_base128_integer_result h v st fs d :
  0 <= v -> rep st fs -> depth h st = Some d -> length fs = S d ->
  result d (add_base128_integer h v st) st tt (fapp fs (base128_octets v)).
Proof.
  intros Hv Hrep Hd Hlen. unfold add_base128_integer. rewrite <- loop_octets_base128 by done.
  by apply add_base128_loop_result.
Qed.

Lemma tag_parts tag : 0 <= tag < 2 ^ 32 ->
  u8 ((tag ≫ CBS_ASN1_TAG_SHIFT) .& 0xe0) = tag / 2 ^ 29 * 32 /\
  (tag .& CBS_ASN1_TAG_NUMBER_MASK) = tag mod 2 ^ 29 /\ 0 <= tag / 2 ^ 29 < 8.
Proof.
  intros Htag. change CBS_ASN1_TAG_NUMBER_MASK with (2 ^ 29 - 1).
  rewrite land_ones_mod, Z.shiftr_div_pow2 by done. change (2 ^ CBS_ASN1_TAG_SHIFT) with 16777216.
  change (2 ^ 32) with 4294967296 in *. change (2 ^ 29) with 536870912.
  assert (Hb : is_byte (tag / 16777216)) by (unfold is_byte; dlia).
  destruct (byte_split _ Hb) as (_ & _ & -> & _). unfold u8. split_and!; [dlia|done|dlia..].
Qed.

Lemma lor_tag_bits h n : 0 <= n < 32 -> (h * 32 .| n) = h * 32 + n.
Proof. intros. change 32 with (2 ^ 5). apply lor_mul; [lia|done]. Qed.

(** Opening an ASN.1 child: the tag is written, the length will be. *)
Lemma CBB_add_asn1_opens h tag st fs d fs1 :
  rep st fs -> depth h st = Some d -> fflush d fs = Some fs1 -> 0 <= tag < 2 ^ 32 ->
  opens d (CBB_add_asn1 h tag st) st (fapp fs1 (tag_octets tag)) 1 true.
Proof.
  intros Hrep Hd Hf Htag. pose proof (depth_bound _ _ _ _ Hrep Hd) as Hlt.
  pose proof (fflush_length _ _ _ Hlt Hf) as Hlen. assert (Hne : fs1 <> []) by (by destruct fs1).
  pose proof (zlen_nonneg (tag_octets tag)).
  unfold CBB_add_asn1. cbv zeta. destruct (tag_parts tag Htag) as (-> & -> & Hbits).
  assert (Hnum : 0 <= tag mod 2 ^ 29 < 2 ^ 29) by (apply Z.mod_pos_bound; lia).
  pose proof (CBB_flush_result h st fs d Hrep Hd) as Hr. rewrite Hf in Hr. destruct Hr as [Hr _].
  eapply opens_after; [exact Hr|rewrite flat_fapp_size by done; lia|]. intros st1 Hrep1 Hk1.
  assert (Hd1 : depth h st1 = Some d) by (by apply Hk1).
  apply (opens_after d _ _ _ tt (fapp fs1 (tag_octets tag))); [|lia|].
  - unfold tag_octets. rewrite Z.geb_leb.
    destruct (Z.ltb_spec (tag mod 2 ^ 29) 31) as [Hlow|Hhigh].
    + rewrite (proj2 (Z.leb_gt _ _)), lor_tag_bits by lia.
      unfold u8. rewrite Z.mod_small by lia.
      apply (CBB_add_u8_result _ _ fs1); [done..|by apply fflush_last|unfold is_byte; lia].
    + rewrite (proj2 (Z.leb_le _ _)), lor_tag_bits by lia.
      apply (CBB_add_u8_then _ _ fs1 _ fs1); [done..|by apply fflush_last|unfold is_byte; lia| |].
      * rewrite flat_fapp_size, zlen_cons by done. zlen_pos. lia.
      * intros st2 Hrep2 Hd2. change (?x :: ?l) with ([x] ++ l). rewrite <- fapp_fapp.
        apply add_base128_integer_result; [lia|done..|by rewrite length_fapp].
  - intros st2 Hrep2 Hk2. apply cbb_add_child_opens; [done|by rewrite length_fapp|lia|done].
Qed.

(** Opening a length-prefixed child. *)
Lemma add_length_prefixed_opens h ll st fs d fs1 :
  rep st fs -> depth h st = Some d -> fflush d fs = Some fs1 -> 0 <= ll <= 8 ->
  opens d (cbb_add_length_prefixed h ll st) st fs1 ll false.
Proof.
  intros Hrep Hd Hf Hll. pose proof (depth_bound _ _ _ _ Hrep Hd) as Hlt.
  pose proof (fflush_length _ _ _ Hlt Hf) as Hlen.
  pose proof (CBB_flush_result h st fs d Hrep Hd) as Hr. rewrite Hf in Hr. destruct Hr as [Hr _].
  eapply opens_after; [exact Hr|lia|]. intros st1 Hrep1 Hk1. by apply cbb_add_child_opens.
Qed.

(** Flushing an object first flushes its child. *)
Lemma fflush_child d fs : (S d < length fs)%nat ->
  fflush d fs = (fs' ← fflush (S d) fs; fflush d fs').
Proof.
  intros Hd. destruct (lookup_lt_is_Some_2 fs (S d) Hd) as [f Hf].
  unfold fflush. rewrite (drop_S _ _ _ Hf). cbn [close].
  destruct (close (drop (S (S d)) fs)) as [x|]; cbn [mbind option_bind]; [|done].
  rewrite (take_S_r _ _ _ Hf), fapp_snoc.
  assert (Hlen : length (take (S d) fs) = S d) by (rewrite length_take; lia).
  rewrite drop_app_length', take_app_length' by lia. cbn [close mbind option_bind f_bytes f_len_len f_asn1].
  rewrite app_nil_r. by destruct (length_field _ _ _).
Qed.

Lemma fflush_snoc d fs n ll asn1 x : length fs = S d ->
  fflush d (fs ++ [mk_frame n ll asn1 x]) =
  (field ← length_field ll asn1 (zlen x); Some (fapp fs (field ++ x))).
Proof.
  intros Hl. unfold fflush. rewrite drop_app_length', take_app_length' by lia.
  cbn [close mbind option_bind f_bytes f_len_len f_asn1]. rewrite app_nil_r.
  by destruct (length_field _ _ _).
Qed.

(** Bytes for the child just opened. *)
Lemma fapp_new fs n ll asn1 x : fapp (fs ++ [new_frame n ll asn1]) x = fs ++ [mk_frame n ll asn1 x].
Proof. by rewrite fapp_snoc. Qed.
End Ops.
