(* ===== verification/CbbAsn1.v ===== *)
(** * Whole elements written by the builder

    The functions of cbb.c that open an element, fill it and flush: each appends
    exactly the DER encoding of its value. *)

From S2P Require Import Prelude Words Mem PosixTime Der Cbs CbsFacts Cbb CbbFacts.

(** ** The contents of integers *)

(** A non-negative integer: its bytes from the first one that is not zero, with
    a zero in front when that byte has its high bit set. *)
Lemma int_octets_nonneg i u : (i <= 7)%nat -> 256 ^ Z.of_nat i <= u < 256 ^ Z.of_nat (S i) ->
  int_octets u = (if 128 <=? u / 256 ^ Z.of_nat i then [0] else []) ++ be_bytes (S i) u.
Proof.
  intros Hi Hu. set (P := 256 ^ Z.of_nat i) in *. rewrite pow256_succ in Hu. fold P in Hu.
  assert (HP : 0 < P) by (apply Z.pow_pos_nonneg; lia).
  assert (Hbig : P <= 256 ^ 7) by (apply Z.pow_le_mono_r; lia). change (256 ^ 7) with 72057594037927936 in Hbig.
  assert (Hr : - 2 ^ 63 <= u < 2 ^ 71).
  { change (2 ^ 63) with 9223372036854775808. change (2 ^ 71) with 2361183241434822606848. lia. }
  assert (Hpow : forall k, 2 ^ (8 * Z.of_nat (S k) - 1) = 128 * 256 ^ Z.of_nat k).
  { intros k. replace (8 * Z.of_nat (S k) - 1) with (7 + 8 * Z.of_nat k) by lia.
    rewrite Z.pow_add_r, <- pow256_2 by lia. done. }
  pose proof (Z.div_mod u P ltac:(lia)) as Hdm. pose proof (Z.mod_pos_bound u P HP) as Hm.
  unfold int_octets. destruct (Z.leb_spec 128 (u / P)) as [Hhi|Hlo].
  - assert (128 * P <= u) by nia.
    rewrite (int_size_unique (S (S i))); [|lia| | |done].
    + rewrite be_bytes_cons, Z.div_small, Z.mod_small; [done|lia|]. rewrite pow256_succ. fold P. lia.
    + rewrite Hpow, pow256_succ. fold P. lia.
    + right. cbn [Nat.sub]. rewrite Hpow. fold P. lia.
  - assert (u < 128 * P) by nia.
    rewrite (int_size_unique (S i)); [done|lia| | |done].
    + rewrite Hpow. fold P. lia.
    + destruct i as [|i]; [by left|right]. cbn [Nat.sub].
      rewrite Hpow. unfold P in Hu. rewrite pow256_succ in Hu. 
      assert (0 < 256 ^ Z.of_nat i) by (apply Z.pow_pos_nonneg; lia). lia.
Qed.

Lemma znth_int64_bytes value j : (j <= 7)%nat ->
  znth 0 (int64_bytes value) (Z.of_nat j) = (value / 256 ^ Z.of_nat j) mod 256.
Proof.
  intros Hj. unfold znth, int64_bytes. rewrite Nat2Z.id.
  do 8 (destruct j as [|j];
    [cbn [be_bytes rev app nth Z.of_nat]; rewrite ?Z.div_div by lia; try rewrite Z.div_1_r; done|]). lia.
Qed.

(** A negative integer needs one byte more than [s] full ones exactly when it is
    below what [s] bytes hold. *)
Lemma skip_sign_size s value : (s <= 7)%nat -> - (128 * 256 ^ Z.of_nat s) <= value < 0 ->
  int_size value = S (skip_sign s (int64_bytes value)).
Proof.
  induction s as [|s IH]; intros Hs Hv; cbn [skip_sign].
  - apply (int_size_unique 1); [lia|cbn in *; lia|by left|].
    change (2 ^ 63) with 9223372036854775808. change (2 ^ 71) with 2361183241434822606848. cbn in Hv. lia.
  - rewrite !znth_int64_bytes by lia.
    set (P := 256 ^ Z.of_nat s) in *. rewrite pow256_succ in *. fold P in Hv |- *.
    assert (HP : 0 < P) by (apply Z.pow_pos_nonneg; lia).
    assert (Hb : is_byte ((value / P) mod 256)) by (unfold is_byte; dlia).
    destruct (byte_split _ Hb) as (_ & -> & _).
    pose proof (Z.div_mod value P ltac:(lia)) as Hdm. pose proof (Z.mod_pos_bound value P HP) as Hm.
    assert (E : value / (256 * P) = (value / P) / 256) by (rewrite Z.mul_comm, Z.div_div by lia; done).
    rewrite E. set (q := value / P) in *. assert (Hq : -32768 <= q <= -1) by nia.
    assert (Hlong : q < -128 -> int_size value = S (S s)).
    { intros Hql. assert (HP7 : 256 * P <= 256 ^ 7).
      { unfold P. rewrite <- pow256_succ. apply Z.pow_le_mono_r; lia. }
      change (256 ^ 7) with 72057594037927936 in HP7.
      assert (Hpow : forall k, 2 ^ (8 * Z.of_nat (S k) - 1) = 128 * 256 ^ Z.of_nat k).
      { intros k. replace (8 * Z.of_nat (S k) - 1) with (7 + 8 * Z.of_nat k) by lia.
        rewrite Z.pow_add_r, <- pow256_2 by lia. done. }
      apply int_size_unique; [lia| | |].
      - rewrite Hpow, pow256_succ. fold P. lia.
      - right. cbn [Nat.sub]. rewrite Hpow. fold P. nia.
      - change (2 ^ 63) with 9223372036854775808. change (2 ^ 71) with 2361183241434822606848. lia. }
    destruct (Z.ltb_spec (q mod 256) 128); cbn [negb]; rewrite ?andb_false_r, ?andb_true_r.
    + apply Hlong. dlia.
    + destruct (Z.eqb_spec ((q / 256) mod 256) 255).
      * apply IH; [lia|]. assert (-128 <= q) by dlia. nia.
      * apply Hlong. dlia.
Qed.

Section Elements.
Context `{Allocator}.

(** Filling the child [n] just opened under [fs1] ends the element when the
    parent is flushed. *)
Lemma close_asn1_child d fs tag n x : length fs = S d -> zlen x <= 0xfffffffe ->
  fflush d (fapp fs (tag_octets tag) ++ [mk_frame n 1 true x]) = Some (fapp fs (der_element tag x)).
Proof.
  intros Hl Hx. rewrite fflush_snoc by (by rewrite length_fapp). unfold length_field.
  rewrite (proj2 (Z.leb_le _ _)) by done. cbn [mbind option_bind]. rewrite fapp_fapp.
  unfold der_element, der_header. by rewrite <- app_assoc.
Qed.

Lemma zlen_der_element tag x : zlen (der_element tag x) = zlen (tag_octets tag) + zlen (length_octets (zlen x)) + zlen x.
Proof. unfold der_element, der_header. rewrite !zlen_app. lia. Qed.

(** One element: open the child, fill it with [x], flush. *)
Lemma element_result h st fs d fs1 tag (fill : CBB -> M cbb_st unit) x :
  rep st fs -> depth h st = Some d -> fflush d fs = Some fs1 -> 0 <= tag < 2 ^ 32 -> zlen x <= 0xfffffffe ->
  (forall n st' gs, rep st' (gs ++ [new_frame n 1 true]) -> depth n st' = Some (S d) -> length gs = S d ->
     result (S d) (fill n st') st' tt (gs ++ [mk_frame n 1 true x])) ->
  result d ((let* child := CBB_add_asn1 h tag in fill child ;;; CBB_flush h) st) st tt
    (fapp fs1 (der_element tag x)).
Proof.
  intros Hrep Hd Hf Htag Hx Hfill. pose proof (depth_bound _ _ _ _ Hrep Hd) as Hlt.
  pose proof (fflush_length _ _ _ Hlt Hf) as Hlen. assert (Hne : fs1 <> []) by (by destruct fs1).
  pose proof (zlen_length_octets (zlen x)) as Hlo. pose proof (zlen_nonneg x).
  eapply opens_bind; [by apply (CBB_add_asn1_opens h tag st fs d fs1)| |].
  { rewrite !flat_fapp_size, zlen_der_element by done. lia. }
  intros n st' Hrep' Hk Hn. set (gs := fapp fs1 (tag_octets tag)) in *.
  assert (Hgs : length gs = S d) by (unfold gs; by rewrite length_fapp).
  apply (result_bind d d _ _ _ tt _ (gs ++ [mk_frame n 1 true x]));
    [apply (result_weaken (S d)); [by apply Hfill|lia]| |done|].
  { unfold gs. rewrite flat_app, zlen_app, !flat_fapp_size, zlen_der_element by done.
    cbn [flat]. rewrite app_nil_r, zlen_app, zlen_placeholder; [cbn [f_bytes f_len_len]; lia|].
    split; [cbn; lia|done]. }
  intros st2 Hrep2 Hk2.
  assert (Hd2 : depth h st2 = Some d) by (apply Hk2; [by apply Hk|lia]).
  pose proof (CBB_flush_result h st2 _ d Hrep2 Hd2) as Hr.
  unfold gs in Hr. rewrite close_asn1_child in Hr by done. by destruct Hr as [Hr _].
Qed.

Lemma result_on_error {A} d (m : M cbb_st A) h st a fs : result d (m st) st a fs -> result d (on_error m h st) st a fs.
Proof. unfold on_error. destruct (m st) as [[x|] st']; done. Qed.

(** An error handler around the fill and not around the flush. *)
Lemma on_error_flush {A} d (m : M cbb_st CBB) (fill : CBB -> M cbb_st unit) (k : M cbb_st A) hd st a fs :
  result d ((let* child := m in fill child ;;; k) st) st a fs ->
  result d ((on_error (let* child := m in fill child) hd ;;; k) st) st a fs.
Proof.
  unfold on_error, bind. destruct (m st) as [[c|] s1]; [|done]. by destruct (fill c s1) as [[?|] s2].
Qed.

(** ** Integers *)

Lemma shiftr_byte value i : 0 <= value -> ((value ≫ (8 * Z.of_nat i)) .& 0xff) = (value / 256 ^ Z.of_nat i) mod 256.
Proof.
  intros Hv. rewrite Z.shiftr_div_pow2 by lia. change 0xff with (2 ^ 8 - 1).
  rewrite land_ones_mod, pow256_2 by lia. done.
Qed.

Lemma flat_child_size gs n ll asn1 y : 0 <= ll ->
  zlen (flat (gs ++ [mk_frame n ll asn1 y])) = zlen (flat gs) + ll + zlen y.
Proof.
  intros. rewrite flat_app, zlen_app. cbn [flat]. rewrite app_nil_r, zlen_app. unfold placeholder.
  rewrite zlen_replicate. cbn [f_len_len f_bytes]. lia.
Qed.

(** A child is filled when its bytes grow and its ancestors stay. *)
Lemma fill_u8 {B} n st d gs ll asn1 x v (k : unit -> M cbb_st B) c fs' :
  rep st (gs ++ [mk_frame n ll asn1 x]) -> depth n st = Some (S d) -> length gs = S d -> is_byte v ->
  zlen (flat gs) + ll + zlen x + 1 <= zlen (flat fs') -> 0 <= ll ->
  (forall st', rep st' (gs ++ [mk_frame n ll asn1 (x ++ [v])]) -> depth n st' = Some (S d) ->
     result (S d) (k tt st') st' c fs') ->
  result (S d) (bind (CBB_add_u8 n v) k st) st c fs'.
Proof.
  intros Hrep Hd Hl Hv Hle Hll Hk.
  set (fs := gs ++ [mk_frame n ll asn1 x]) in *.
  apply (CBB_add_u8_then n st fs (S d) fs); [done|done| |done| |]; unfold fs in *.
  - apply fflush_last. rewrite length_app. cbn. lia.
  - rewrite flat_child_size by done. lia.
  - intros st' Hrep' Hd'. rewrite fapp_snoc in Hrep'. by apply Hk.
Qed.

Lemma add_uint64_started n v i : 0 <= v -> forall st d gs x, 
  rep st (gs ++ [mk_frame n 1 true x]) -> depth n st = Some (S d) -> length gs = S d ->
  result (S d) (add_uint64_loop n i v true st) st true (gs ++ [mk_frame n 1 true (x ++ be_bytes i v)]).
Proof.
  intros Hv. induction i as [|i IH]; intros st d gs x Hrep Hd Hl; cbn [add_uint64_loop].
  - cbn [be_bytes]. rewrite app_nil_r. by apply result_ret.
  - rewrite shiftr_byte by done. cbn [negb andb]. rewrite bind_ret, be_bytes_cons.
    apply (fill_u8 n st d gs 1 true x); [done..| | |lia|].
    + unfold is_byte. apply Z.mod_pos_bound. lia.
    + rewrite flat_child_size, zlen_app, zlen_cons by lia. zlen_pos. lia.
    + intros st' Hrep' Hd'. rewrite (app_cons_snoc x). by apply IH.
Qed.

Lemma add_uint64_loop_result n v i : (i <= 8)%nat -> 0 <= v < 256 ^ Z.of_nat i -> forall st d gs, 
  rep st (gs ++ [new_frame n 1 true]) -> depth n st = Some (S d) -> length gs = S d ->
  result (S d) (add_uint64_loop n i v false st) st (negb (v =? 0))
    (gs ++ [mk_frame n 1 true (if v =? 0 then [] else int_octets v)]).
Proof.
  intros Hi. revert Hi. induction i as [|i IH]; intros Hi Hv st d gs Hrep Hd Hl.
  { cbn in Hv. replace v with 0 by lia. by apply result_ret. }
  cbn [add_uint64_loop]. rewrite shiftr_byte by lia. cbn [negb andb].
  rewrite pow256_succ in Hv. set (P := 256 ^ Z.of_nat i) in *. assert (HP : 0 < P) by (apply Z.pow_pos_nonneg; lia).
  pose proof (Z.div_mod v P ltac:(lia)) as Hdm. pose proof (Z.mod_pos_bound v P HP) as Hm.
  rewrite (Z.mod_small (v / P)) by nia.
  destruct (Z.eqb_spec (v / P) 0) as [E|E].
  { apply IH; [lia|nia|done..]. }
  assert (HvP : P <= v) by nia.
  rewrite (proj2 (Z.eqb_neq v 0)) by lia. cbn [negb].
  assert (Hb : is_byte (v / P)) by (unfold is_byte; nia).
  rewrite hd_high_bit by done.
  rewrite (int_octets_nonneg i) by (rewrite ?pow256_succ; fold P; lia). fold P.
  assert (Hrest : forall st' x, rep st' (gs ++ [mk_frame n 1 true x]) -> depth n st' = Some (S d) ->
    result (S d) ((CBB_add_u8 n (v / P) ;;; add_uint64_loop n i v true) st') st' true
      (gs ++ [mk_frame n 1 true (x ++ be_bytes (S i) v)])).
  { intros st' x Hrep' Hd'. rewrite be_bytes_cons. fold P. rewrite (Z.mod_small (v / P)) by nia.
    apply (fill_u8 n st' d gs 1 true x); [done..| |lia|].
    - rewrite flat_child_size, zlen_app, zlen_cons by lia. zlen_pos. lia.
    - intros st2 Hrep2 Hd2. rewrite (app_cons_snoc x). apply add_uint64_started; [lia|done..]. }
  destruct (128 <=? v / P).
  - apply (fill_u8 n st d gs 1 true []); [done..|unfold is_byte; lia| |lia|].
    + rewrite flat_child_size, zlen_app by lia. change (zlen [0]) with 1. change (zlen (@nil Z)) with 0. zlen_pos. lia.
    + intros st' Hrep' Hd'. by apply Hrest.
  - rewrite bind_ret. by apply (Hrest st []).
Qed.

(** The last byte of a child. *)
Lemma fill_last n st d gs ll asn1 x v :
  rep st (gs ++ [mk_frame n ll asn1 x]) -> depth n st = Some (S d) -> length gs = S d -> is_byte v ->
  result (S d) (CBB_add_u8 n v st) st tt (gs ++ [mk_frame n ll asn1 (x ++ [v])]).
Proof.
  intros Hrep Hd Hl Hv. set (fs := gs ++ [mk_frame n ll asn1 x]) in *.
  pose proof (CBB_add_u8_result n st fs (S d) fs v Hrep Hd) as Hr. unfold fs in Hr at 3.
  rewrite fapp_snoc in Hr. apply Hr; [|done]. apply fflush_last. unfold fs. rewrite length_app. cbn. lia.
Qed.

Lemma int_octets_size v : - 2 ^ 63 <= v < 2 ^ 71 -> zlen (int_octets v) <= 9.
Proof.
  intros Hv. destruct (int_octets_facts v Hv) as (_ & _ & _ & ->).
  destruct (int_size_spec v Hv) as [? _]. lia.
Qed.

Lemma CBB_add_asn1_uint64_with_tag_result h st fs d fs1 v tag :
  rep st fs -> depth h st = Some d -> fflush d fs = Some fs1 -> 0 <= v < 2 ^ 64 -> 0 <= tag < 2 ^ 32 ->
  result d (CBB_add_asn1_uint64_with_tag h v tag st) st tt (fapp fs1 (der_element tag (int_octets v))).
Proof.
  intros Hrep Hd Hf Hv Htag. unfold CBB_add_asn1_uint64_with_tag. apply on_error_flush.
  assert (Hv' : - 2 ^ 63 <= v < 2 ^ 71).
  { change (2 ^ 71) with 2361183241434822606848. lia. }
  apply (element_result h st fs d fs1 tag (fun child =>
    let* started := add_uint64_loop child 8 v false in
    if negb started then CBB_add_u8 child 0 else ret tt) (int_octets v)); [done..| |].
  { pose proof (int_octets_size v Hv'). lia. }
  intros n st' gs Hrep' Hn Hl.
  apply (result_bind (S d) (S d) _ _ _ (negb (v =? 0)) _
           (gs ++ [mk_frame n 1 true (if v =? 0 then [] else int_octets v)])).
  - apply add_uint64_loop_result; [lia|by change (256 ^ Z.of_nat 8) with (2 ^ 64)|done..].
  - rewrite !flat_child_size by lia. destruct (v =? 0); [|lia]. change (zlen (@nil Z)) with 0. zlen_pos. lia.
  - done.
  - intros st2 Hrep2 Hk2. destruct (Z.eqb_spec v 0) as [->|]; cbn [negb].
    + apply (fill_last n st2 d gs 1 true [] 0); [done|by apply Hk2|done|unfold is_byte; lia].
    + by apply result_ret.
Qed.

(** Bytes of a little-endian array, from index [i - 1] down to 0. *)
Lemma add_bytes_down_result n value i : (i <= 8)%nat -> forall st d gs x,
  rep st (gs ++ [mk_frame n 1 true x]) -> depth n st = Some (S d) -> length gs = S d ->
  result (S d) (add_bytes_down n i (int64_bytes value) st) st tt
    (gs ++ [mk_frame n 1 true (x ++ be_bytes i value)]).
Proof.
  induction i as [|i IH]; intros Hi st d gs x Hrep Hd Hl; cbn [add_bytes_down].
  - cbn [be_bytes]. rewrite app_nil_r. by apply result_ret.
  - rewrite znth_int64_bytes, be_bytes_cons by lia.
    apply (fill_u8 n st d gs 1 true x); [done..| | |lia|].
    + unfold is_byte. apply Z.mod_pos_bound. lia.
    + rewrite flat_child_size, zlen_app, zlen_cons by lia. zlen_pos. lia.
    + intros st' Hrep' Hd'. rewrite (app_cons_snoc x). apply IH; [lia|done..].
Qed.

Lemma CBB_add_asn1_int64_with_tag_result h st fs d fs1 v tag :
  rep st fs -> depth h st = Some d -> fflush d fs = Some fs1 -> - 2 ^ 63 <= v < 2 ^ 63 -> 0 <= tag < 2 ^ 32 ->
  result d (CBB_add_asn1_int64_with_tag h v tag st) st tt (fapp fs1 (der_element tag (int_octets v))).
Proof.
  intros Hrep Hd Hf Hv Htag. unfold CBB_add_asn1_int64_with_tag. rewrite Z.geb_leb.
  change (2 ^ 63) with 9223372036854775808 in *.
  destruct (Z.leb_spec 0 v) as [Hpos|Hneg].
  - apply (CBB_add_asn1_uint64_with_tag_result h st fs); [done..| |done].
    change (2 ^ 64) with 18446744073709551616. lia.
  - apply on_error_flush.
    assert (Hv' : - 2 ^ 63 <= v < 2 ^ 71).
    { change (2 ^ 71) with 2361183241434822606848. change (2 ^ 63) with 9223372036854775808. lia. }
    assert (Hsize : int_size v = S (skip_sign 7 (int64_bytes v))).
    { apply skip_sign_size; [lia|]. change (128 * 256 ^ Z.of_nat 7) with 9223372036854775808. lia. }
    assert (Hs8 : (1 <= int_size v <= 8)%nat).
    { apply int_size_int64. change (2 ^ 63) with 9223372036854775808. lia. }
    apply (element_result h st fs d fs1 tag (fun child =>
      add_bytes_down child (S (skip_sign 7 (int64_bytes v))) (int64_bytes v)) (int_octets v)); [done..| |].
    { pose proof (int_octets_size v Hv'). lia. }
    intros n st' gs Hrep' Hn Hl. unfold int_octets. rewrite Hsize.
    assert (Hle : (S (skip_sign 7 (int64_bytes v)) <= 8)%nat) by lia.
    by apply (add_bytes_down_result n v _ Hle st' d gs []).
Qed.

Lemma CBB_add_asn1_octet_string_result h st fs d fs1 data :
  rep st fs -> depth h st = Some d -> fflush d fs = Some fs1 -> zlen data <= 0xfffffffe ->
  result d (CBB_add_asn1_octet_string h data st) st tt (fapp fs1 (der_element CBS_ASN1_OCTETSTRING data)).
Proof.
  intros Hrep Hd Hf Hlen. unfold CBB_add_asn1_octet_string. apply result_on_error.
  apply (element_result h st fs d fs1 _ (fun child => CBB_add_bytes child data)); [done..|].
  intros n st' gs Hrep' Hn Hl.
  pose proof (CBB_add_bytes_result n st' _ (S d) (gs ++ [new_frame n 1 true]) data Hrep' Hn) as Hr.
  rewrite fapp_new in Hr. apply Hr; [apply fflush_last; rewrite length_app; cbn; lia|].
  change (2 ^ 64) with 18446744073709551616. lia.
Qed.

Lemma CBB_add_asn1_bool_result h st fs d fs1 value :
  rep st fs -> depth h st = Some d -> fflush d fs = Some fs1 ->
  result d (CBB_add_asn1_bool h value st) st tt
    (fapp fs1 (der_element CBS_ASN1_BOOLEAN [if value =? 0 then 0 else 0xff])).
Proof.
  intros Hrep Hd Hf. unfold CBB_add_asn1_bool. apply result_on_error.
  apply (element_result h st fs d fs1 _ (fun child => CBB_add_u8 child _)); [done..|].
  intros n st' gs Hrep' Hn Hl. destruct (value =? 0); cbn [negb];
    apply (fill_last n st' d gs 1 true []); (done || unfold is_byte; lia).
Qed.
End Elements.
