(* ===== verification/CbbBuilder.v ===== *)
(** * Programs that build a message

    A message is a tree of items; a client builds it with the calls of cbb.c,
    never flushing a child itself: a child is closed by the next write to an
    ancestor or by [CBB_finish]. The theorems say what such a program returns,
    for any tree, any buffer and any allocator. *)

From S2P Require Import Prelude Words Mem PosixTime Der Cbs CbsFacts Cbb CbbFacts CbbAsn1.

Inductive item :=
  | I_bytes (data : list Z)
  | I_uint (len_len v : Z)
  | I_uint64 (v : Z)
  | I_int64 (v : Z)
  | I_octet_string (data : list Z)
  | I_bool (v : Z)
  | I_prefixed (len_len : Z) (items : list item)
  | I_asn1 (tag : Z) (items : list item).

(** The induction principle with the hypothesis for every child. *)
Section ItemInd.
Context (P : item -> Prop).
Context (Hb : forall d, P (I_bytes d)) (Hu : forall n v, P (I_uint n v)) (H64 : forall v, P (I_uint64 v))
  (Hi : forall v, P (I_int64 v)) (Ho : forall d, P (I_octet_string d)) (Hbo : forall v, P (I_bool v))
  (Hp : forall n l, Forall P l -> P (I_prefixed n l)) (Ha : forall t l, Forall P l -> P (I_asn1 t l)).

Fixpoint item_nested_ind (i : item) : P i :=
  let fix all (l : list item) : Forall P l :=
    match l with
    | [] => @List.Forall_nil _ P
    | i :: l => @List.Forall_cons _ P _ _ (item_nested_ind i) (all l)
    end in
  match i with
  | I_bytes d => Hb d
  | I_uint n v => Hu n v
  | I_uint64 v => H64 v
  | I_int64 v => Hi v
  | I_octet_string d => Ho d
  | I_bool v => Hbo v
  | I_prefixed n l => Hp n l (all l)
  | I_asn1 t l => Ha t l (all l)
  end.
End ItemInd.

(** The octets of a message; [None] when a length or a value does not fit its field. *)
Fixpoint octets (i : item) : option (list Z) :=
  let fix all (l : list item) : option (list Z) :=
    match l with
    | [] => Some []
    | i :: l => x ← octets i; y ← all l; Some (x ++ y)
    end in
  match i with
  | I_bytes d => Some d
  | I_uint n v => if v <? 256 ^ n then Some (be_bytes (Z.to_nat n) v) else None
  | I_uint64 v | I_int64 v => Some (der_element CBS_ASN1_INTEGER (int_octets v))
  | I_octet_string d => Some (der_element CBS_ASN1_OCTETSTRING d)
  | I_bool v => Some (der_element CBS_ASN1_BOOLEAN [if v =? 0 then 0 else 0xff])
  | I_prefixed n l => x ← all l; field ← length_field n false (zlen x); Some (field ++ x)
  | I_asn1 t l => x ← all l; field ← length_field 1 true (zlen x); Some (tag_octets t ++ field ++ x)
  end.
Fixpoint all_octets (l : list item) : option (list Z) :=
  match l with
  | [] => Some []
  | i :: l => x ← octets i; y ← all_octets l; Some (x ++ y)
  end.

(** Arguments in the range of their C types. *)
Fixpoint item_ok (i : item) : Prop :=
  let fix all (l : list item) : Prop := match l with [] => True | i :: l => item_ok i /\ all l end in
  match i with
  | I_bytes d => zlen d < 2 ^ 64
  | I_uint n v => 0 <= n <= 8 /\ 0 <= v < 2 ^ 64
  | I_uint64 v => 0 <= v < 2 ^ 64
  | I_int64 v => - 2 ^ 63 <= v < 2 ^ 63
  | I_octet_string d => zlen d <= 0xfffffffe
  | I_bool _ => True
  | I_prefixed n l => 1 <= n <= 3 /\ all l
  | I_asn1 t l => 0 <= t < 2 ^ 32 /\ all l
  end.
Fixpoint items_ok (l : list item) : Prop := match l with [] => True | i :: l => item_ok i /\ items_ok l end.

Section Build.
Context `{Allocator}.

(** The client: one call per item. *)
Fixpoint add_item (h : CBB) (i : item) : M cbb_st unit :=
  let fix all (h : CBB) (l : list item) : M cbb_st unit :=
    match l with
    | [] => ret tt
    | i :: l => add_item h i ;;; all h l
    end in
  match i with
  | I_bytes d => CBB_add_bytes h d
  | I_uint n v => cbb_add_u h v n
  | I_uint64 v => CBB_add_asn1_uint64 h v
  | I_int64 v => CBB_add_asn1_int64 h v
  | I_octet_string d => CBB_add_asn1_octet_string h d
  | I_bool v => CBB_add_asn1_bool h v
  | I_prefixed n l => let* child := cbb_add_length_prefixed h n in all child l
  | I_asn1 t l => let* child := CBB_add_asn1 h t in all child l
  end.
Fixpoint add_items (h : CBB) (l : list item) : M cbb_st unit :=
  match l with
  | [] => ret tt
  | i :: l => add_item h i ;;; add_items h l
  end.

Definition build (l : list item) : M cbb_st (list Z) :=
  add_items root l ;;; CBB_finish root true.

(** What a client's call does to an object at depth [d] seen through a flush:
    [v] is the state that the flush would leave. *)
Definition lazily {A} (d : nat) (r : option A * cbb_st) (st : cbb_st) (v : option (list frame)) : Prop :=
  match r with
  | (Some _, st') => (exists fs, rep st' fs /\ fflush d fs = v) /\ keeps d st st' /\
      same_kind (base st) (base st') /\
      forall f m, v = Some f -> zlen (flat f) <= m -> fits (base st) m -> fits (base st') m
  | (None, _) => forall f m, v = Some f -> zlen (flat f) <= m -> ~ fits (base st) m
  end.

Lemma lazily_result {A} d (r : option A * cbb_st) st a fs :
  result d r st a fs -> length fs = S d -> lazily d r st (Some fs).
Proof.
  intros Hr Hl. unfold lazily, result in *. destruct r as [[x|] st'].
  - destruct Hr as (-> & Hrep & Hk & Hs & Hf). split_and!; try done.
    + exists fs. split; [done|]. by apply fflush_last.
    + intros f m [= <-]. apply Hf.
  - intros f m [= <-]. apply Hr.
Qed.

Lemma lazily_rejected {A} d (r : option A * cbb_st) st : rejected r -> lazily d r st None.
Proof. unfold rejected, lazily. destruct r as [[x|] st']; [done|]. intros _ f m [=]. Qed.

Lemma lazily_bind {A B} d (m : M cbb_st A) (k : A -> M cbb_st B) st v w :
  lazily d (m st) st v ->
  (forall f, w = Some f -> exists g, v = Some g /\ zlen (flat g) <= zlen (flat f)) ->
  (forall a st' fs, rep st' fs -> keeps d st st' -> fflush d fs = v -> lazily d (k a st') st' w) ->
  lazily d (bind m k st) st w.
Proof.
  intros Hm Hsize Hk. unfold bind. destruct (m st) as [[x|] st'].
  - destruct Hm as ((fs & Hrep & Hv) & Hkp & Hs & Hf). specialize (Hk x st' fs Hrep Hkp Hv).
    unfold lazily in *. destruct (k x st') as [[y|] st''].
    + destruct Hk as (Hex & Hkp' & Hs' & Hf'). unfold same_kind in *.
      split_and!; [done|by eapply keeps_trans|naive_solver congruence..|].
      intros f m' Hw Hm' Hfit. apply (Hf' f); [done..|].
      destruct (Hsize f Hw) as (g & Hg & Hle). apply (Hf g); [done|lia|done].
    + intros f m' Hw Hm' Hfit. apply (Hk f m' Hw Hm').
      destruct (Hsize f Hw) as (g & Hg & Hle). apply (Hf g); [done|lia|done].
  - intros f m' Hw Hm' Hfit. destruct (Hsize f Hw) as (g & Hg & Hle). apply (Hm g m'); [done|lia|done].
Qed.

(** Every call fails when the flush it starts with fails. *)
Definition flushes {A} (h : CBB) (m : M cbb_st A) : Prop :=
  forall st, rejected (CBB_flush h st) -> rejected (m st).

Lemma flushes_bind {A B} h (m : M cbb_st A) (k : A -> M cbb_st B) : flushes h m -> flushes h (bind m k).
Proof.
  intros Hm st Hr. specialize (Hm st Hr). unfold rejected, bind in *. by destruct (m st) as [[?|] ?].
Qed.
Lemma flushes_on_error {A} h (m : M cbb_st A) f : flushes h m -> flushes h (on_error m f).
Proof.
  intros Hm st Hr. specialize (Hm st Hr). unfold rejected, on_error in *. by destruct (m st) as [[?|] ?].
Qed.
Lemma flushes_flush h : flushes h (CBB_flush h).
Proof. by intros st. Qed.

Lemma add_item_flushes h i : flushes h (add_item h i).
Proof.
  destruct i; cbn [add_item];
    unfold CBB_add_bytes, cbb_add_u, CBB_add_space, CBB_add_asn1_uint64, CBB_add_asn1_uint64_with_tag,
      CBB_add_asn1_int64, CBB_add_asn1_int64_with_tag, CBB_add_asn1_octet_string, CBB_add_asn1_bool,
      cbb_add_length_prefixed, CBB_add_asn1; cbv zeta; try case_match;
    repeat first [apply flushes_flush | apply flushes_bind | apply flushes_on_error].
Qed.

Lemma cbb_add_u_rejected h st fs d fs1 v n :
  rep st fs -> depth h st = Some d -> fflush d fs = Some fs1 -> 0 <= n <= 8 -> 0 <= v -> 256 ^ n <= v ->
  rejected (cbb_add_u h v n st).
Proof.
  intros Hrep Hd Hf Hn Hv Hbig. pose proof (depth_bound _ _ _ _ Hrep Hd) as Hlt.
  pose proof (fflush_length _ _ _ Hlt Hf) as Hlen. assert (Hne : fs1 <> []) by (by destruct fs1).
  destruct (add_space_result h st fs d fs1 n Hrep Hd Hf ltac:(lia)) as (x & Hx & Hr).
  unfold cbb_add_u. eapply rejected_bind; [exact Hr|]. intros st' [Hs Hb] _.
  eapply (rejected_bind d _ _ _ (v / 256 ^ n) (fapp fs1 (be_bytes (Z.to_nat n) v))).
  - apply (result_on_base d _ _ _ (fapp fs1 x)); [|done|by apply shape_refill].
    rewrite flat_fapp in * by done.
    replace (flat fs1 ++ be_bytes (Z.to_nat n) v) with (flat fs1 ++ be_bytes (Z.to_nat n) v ++ [])
      by (by rewrite app_nil_r).
    replace (256 ^ n) with (256 ^ Z.of_nat (Z.to_nat n)) by (by rewrite Z2Nat.id by lia).
    apply (write_be_outcome _ _ x); [by rewrite app_nil_r|lia|lia].
  - intros st2 _ _. assert (0 < 256 ^ n) by (apply Z.pow_pos_nonneg; lia).
    destruct (Z.eqb_spec (v / 256 ^ n) 0) as [E|]; [|done]. apply Z.div_small_iff in E; lia.
Qed.

(** The meaning of a call: what the item adds to the object. *)
Definition adds (x : option (list Z)) (v : option (list frame)) : option (list frame) :=
  f ← v; y ← x; Some (fapp f y).

Definition item_sound (i : item) : Prop := forall h st fs d,
  item_ok i -> rep st fs -> depth h st = Some d ->
  lazily d (add_item h i st) st (adds (octets i) (fflush d fs)).

Lemma lazily_adds_result {A} d (r : option A * cbb_st) st a f x :
  result d r st a (fapp f x) -> length f = S d -> lazily d r st (adds (Some x) (Some f)).
Proof. intros Hr Hl. eapply lazily_result; [exact Hr|]. by rewrite length_fapp. Qed.

Lemma adds_size x v f : (forall g, v = Some g -> g <> []) -> adds x v = Some f ->
  exists g, v = Some g /\ zlen (flat g) <= zlen (flat f).
Proof.
  intros Hne. unfold adds. destruct v as [g|]; cbn [mbind option_bind]; [|done].
  destruct x as [y|]; cbn [mbind option_bind]; [|done]. intros [= <-].
  exists g. split; [done|]. rewrite flat_fapp_size by auto. zlen_pos. lia.
Qed.

Lemma add_items_lazily l : Forall item_sound l -> forall h st fs d,
  items_ok l -> rep st fs -> depth h st = Some d ->
  lazily d (add_items h l st) st (adds (all_octets l) (fflush d fs)).
Proof.
  induction 1 as [|i l Hi Hl IH]; intros h st fs d Hok Hrep Hd; cbn [add_items all_octets].
  - unfold lazily, adds. cbn. split_and!.
    + exists fs. split; [done|]. destruct (fflush d fs) as [f|]; cbn; [by rewrite fapp_nil|done].
    + by intros ???.
    + done.
    + done.
  - destruct Hok as [Hok1 Hok2]. pose proof (depth_bound _ _ _ _ Hrep Hd) as Hlt.
    eapply lazily_bind; [by apply Hi| |].
    + intros f. destruct (octets i) as [x|]; [|by destruct (fflush d fs)].
      destruct (fflush d fs) as [f1|] eqn:Hf; cbn; [|done]. destruct (all_octets l) as [y|]; [|done].
      intros [= <-]. exists (fapp f1 x). split; [done|]. rewrite <- fapp_fapp.
      pose proof (fflush_length _ _ _ Hlt Hf). assert (f1 <> []) by (by destruct f1).
      rewrite (flat_fapp_size (fapp f1 x)) by (by apply fapp_not_nil). zlen_pos. lia.
    + intros _ st' fs' Hrep' Hk Hv. specialize (IH h st' fs' d Hok2 Hrep' (Hk _ _ Hd (le_n _))).
      rewrite Hv in IH. unfold adds in *.
      destruct (fflush d fs) as [f1|]; cbn in *; [|done]. destruct (octets i) as [x|]; cbn in *; [|done].
      destruct (all_octets l) as [y|]; cbn in *; [|done]. by rewrite fapp_fapp in IH.
Qed.

(** A child seen from its parent. *)
Lemma lazily_up {A} d (r : option A * cbb_st) st c v w :
  depth c st = Some (S d) -> lazily (S d) r st v -> (f ← v; fflush d f) = w ->
  (forall f g, v = Some f -> w = Some g -> zlen (flat f) <= zlen (flat g)) -> 
  (w <> None -> v <> None) ->
  lazily d r st w.
Proof.
  intros Hc Hl Hw Hsize Hsome. unfold lazily in *. destruct r as [[x|] st'].
  - destruct Hl as ((fs & Hrep & Hv) & Hk & Hs & Hf). split_and!.
    + exists fs. split; [done|]. rewrite <- Hw, <- Hv. apply fflush_child.
      eapply depth_bound; [done|]. by apply (Hk c).
    + intros h j Hj Hjd. apply Hk; [done|lia].
    + done.
    + intros g m Hg Hm Hfit. destruct v as [f|]; [|by destruct Hsome; rewrite ?Hg].
      apply (Hf f); [done| |done]. specialize (Hsize f g eq_refl Hg). lia.
  - intros g m Hg Hm. destruct v as [f|]; [|by destruct Hsome; rewrite ?Hg].
    apply (Hl f); [done|]. specialize (Hsize f g eq_refl Hg). lia.
Qed.

(** What a call on a new child adds to it, seen from the parent. *)
Lemma child_up {A} d (r : option A * cbb_st) st f1 n ll (asn1 : bool) y :
  depth n st = Some (S d) -> length f1 = S d -> 0 <= ll -> (asn1 = true -> ll = 1) ->
  lazily (S d) r st (x ← y; Some (f1 ++ [mk_frame n ll asn1 x])) ->
  lazily d r st (x ← y; field ← length_field ll asn1 (zlen x); Some (fapp f1 (field ++ x))).
Proof.
  intros Hn Hlen Hll Ha Hi. assert (Hne : f1 <> []) by (by destruct f1).
  eapply lazily_up; [exact Hn|exact Hi|..].
  - destruct y as [x|]; cbn [mbind option_bind]; [|done]. by apply fflush_snoc.
  - intros f g. destruct y as [x|]; cbn [mbind option_bind]; [|done]. intros [= <-].
    destruct (length_field ll asn1 (zlen x)) as [field|] eqn:Hf; cbn [mbind option_bind]; [|done]. intros [= <-].
    apply zlen_length_field in Hf; [|done..].
    rewrite flat_child_size, flat_fapp_size, zlen_app by done. lia.
  - by destruct y.
Qed.

(** A child is opened, filled by [k] and left open. *)
Lemma lazily_opens {A} d (m : M cbb_st CBB) (k : CBB -> M cbb_st A) st f1 ll (asn1 : bool) y :
  opens d (m st) st f1 ll asn1 -> length f1 = S d -> 0 <= ll -> (asn1 = true -> ll = 1) ->
  (forall n st', rep st' (f1 ++ [new_frame n ll asn1]) -> depth n st' = Some (S d) ->
     lazily (S d) (k n st') st' (x ← y; Some (f1 ++ [mk_frame n ll asn1 x]))) ->
  lazily d ((let* child := m in k child) st) st
    (x ← y; field ← length_field ll asn1 (zlen x); Some (fapp f1 (field ++ x))).
Proof.
  intros Hm Hlen Hll Ha Hchild. assert (Hne : f1 <> []) by (by destruct f1).
  set (w := (x ← y; field ← _; _)).
  assert (Hsize : forall f, w = Some f -> zlen (flat f1) + ll <= zlen (flat f)).
  { intros f. unfold w. destruct y as [x|]; cbn [mbind option_bind]; [|done].
    destruct (length_field ll asn1 (zlen x)) as [field|] eqn:Hf; cbn [mbind option_bind]; [|done]. intros [= <-].
    apply zlen_length_field in Hf; [|done..]. rewrite flat_fapp_size, zlen_app by done. zlen_pos. lia. }
  unfold bind. destruct (m st) as [[n|] st'].
  - destruct Hm as (Hrep & Hk & Hn & Hs & Hf).
    pose proof (child_up d _ st' f1 n ll asn1 y Hn Hlen Hll Ha (Hchild n st' Hrep Hn)) as Hi. fold w in Hi.
    unfold lazily in *. destruct (k n st') as [[z|] st''].
    + destruct Hi as (Hex & Hk' & Hs' & Hf'). unfold same_kind in *.
      split_and!; [done|by eapply keeps_trans|naive_solver congruence..|].
      intros f m' Hw Hm' Hfit. apply (Hf' f); [done..|]. apply Hf; [|done]. specialize (Hsize f Hw). lia.
    + intros f m' Hw Hm' Hfit. apply (Hi f m' Hw Hm'). apply Hf; [|done]. specialize (Hsize f Hw). lia.
  - intros f m' Hw Hm'. apply Hm. specialize (Hsize f Hw). lia.
Qed.

(** Items in a new child. *)
Lemma items_in_child l f1 ll (asn1 : bool) d : Forall item_sound l -> items_ok l -> length f1 = S d ->
  forall n st, rep st (f1 ++ [new_frame n ll asn1]) -> depth n st = Some (S d) ->
  lazily (S d) (add_items n l st) st (x ← all_octets l; Some (f1 ++ [mk_frame n ll asn1 x])).
Proof.
  intros Hl Hok Hlen n st Hrep Hn. pose proof (add_items_lazily l Hl n st _ (S d) Hok Hrep Hn) as Hi.
  rewrite fflush_last in Hi by (rewrite length_app; cbn; lia). unfold adds in Hi. cbn [mbind option_bind] in Hi.
  destruct (all_octets l) as [x|]; cbn [mbind option_bind] in *; [|done]. by rewrite fapp_new in Hi.
Qed.

Lemma item_is_sound i : item_sound i.
Proof.
  induction i as [data|n v|v|v|data|v|n l IH|t l IH] using item_nested_ind; intros h st fs d Hok Hrep Hd;
    pose proof (depth_bound _ _ _ _ Hrep Hd) as Hlt;
    (destruct (fflush d fs) as [f1|] eqn:Hf;
      [|unfold adds; cbn [mbind option_bind]; apply lazily_rejected, add_item_flushes;
        pose proof (CBB_flush_result h st fs d Hrep Hd) as Hr; by rewrite Hf in Hr]);
    pose proof (fflush_length _ _ _ Hlt Hf) as Hlen.
  - eapply lazily_adds_result; [by apply (CBB_add_bytes_result h st fs d)|done].
  - destruct Hok as [Hn Hv]. cbn [add_item octets]. destruct (Z.ltb_spec v (256 ^ n)).
    + eapply lazily_adds_result; [by apply (cbb_add_u_result h st fs d); [..|lia]|done].
    + apply lazily_rejected. by apply (cbb_add_u_rejected h st fs d f1); [..|lia|].
  - eapply lazily_adds_result; [by apply (CBB_add_asn1_uint64_with_tag_result h st fs d)|done].
  - eapply lazily_adds_result; [by apply (CBB_add_asn1_int64_with_tag_result h st fs d)|done].
  - eapply lazily_adds_result; [by apply (CBB_add_asn1_octet_string_result h st fs d)|done].
  - eapply lazily_adds_result; [by apply (CBB_add_asn1_bool_result h st fs d)|done].
  - destruct Hok as [Hn Hok].
    pose proof (lazily_opens d (cbb_add_length_prefixed h n) (fun c => add_items c l) st f1 n false (all_octets l)
      (add_length_prefixed_opens h n st fs d f1 Hrep Hd Hf ltac:(lia)) Hlen ltac:(lia) ltac:(done)
      (items_in_child l f1 n false d IH Hok Hlen)) as Hr.
    unfold adds. cbn [mbind option_bind].
    change (octets (I_prefixed n l)) with
      (x ← all_octets l; field ← length_field n false (zlen x); Some (field ++ x)).
    destruct (all_octets l) as [x|]; cbn [mbind option_bind] in *; [|exact Hr].
    destruct (length_field n false (zlen x)); cbn [mbind option_bind] in *; exact Hr.
  - destruct Hok as [Ht Hok].
    assert (Hlen' : length (fapp f1 (tag_octets t)) = S d) by (by rewrite length_fapp).
    pose proof (lazily_opens d (CBB_add_asn1 h t) (fun c => add_items c l) st _ 1 true (all_octets l)
      (CBB_add_asn1_opens h t st fs d f1 Hrep Hd Hf Ht) Hlen' ltac:(lia) ltac:(done)
      (items_in_child l _ 1 true d IH Hok Hlen')) as Hr.
    unfold adds. cbn [mbind option_bind].
    change (octets (I_asn1 t l)) with
      (x ← all_octets l; field ← length_field 1 true (zlen x); Some (tag_octets t ++ field ++ x)).
    destruct (all_octets l) as [x|]; cbn [mbind option_bind] in *; [|exact Hr].
    destruct (length_field 1 true (zlen x)); cbn [mbind option_bind] in *; [|exact Hr].
    rewrite fapp_fapp in Hr. exact Hr.
Qed.

(** ** Finishing *)

Definition empty_root : frame := mk_frame root 0 false [].

Lemma rep_init b : holds b [] -> rep (mk_cbb b [] 1) [empty_root].
Proof.
  intros Hb. split; [|done]. split; [|by repeat constructor|cbn; lia].
  exists empty_root, []. split_and!; try done.
Qed.

Lemma CBB_init_rep c st : 0 <= c < 2 ^ 64 -> CBB_init c = Some st ->
  rep st [empty_root] /\ can_resize (base st) = true /\ cap (base st) = c.
Proof.
  intros Hc. unfold CBB_init. destruct (OPENSSL_malloc c) as [b|] eqn:Hm.
  - apply OPENSSL_malloc_Some in Hm as [Hb _]; [|lia]. rewrite andb_false_r. intros [= <-]. split; [|done].
    apply rep_init. unfold holds, mem. cbn. split_and!; try done; [lia|by exists b].
  - rewrite Z.gtb_ltb, andb_true_r. destruct (Z.ltb_spec 0 c); [done|]. intros [= <-]. split; [|done].
    apply rep_init. unfold holds, mem. cbn. split_and!; try done; [|lia|by exists []].
    change (zlen (@nil Z)) with 0. lia.
Qed.

Lemma CBB_init_ok c : (forall n, malloc_ok n = true) -> 0 <= c <= 2 ^ 63 -> CBB_init c <> None.
Proof. intros Hm Hc. unfold CBB_init. rewrite OPENSSL_malloc_ok by done. by rewrite andb_false_r. Qed.

Lemma CBB_init_fixed_rep buf : zlen buf < 2 ^ 64 -> rep (CBB_init_fixed buf) [empty_root].
Proof. intros Hb. apply rep_init. unfold holds, mem. cbn. split_and!; try done. by exists buf. Qed.

(** The result of [CBB_finish] is the bytes of the top-level object. *)
Lemma CBB_finish_lazily st fs v : rep st fs -> fflush 0 fs = v ->
  match v with
  | None => rejected (CBB_finish root true st)
  | Some f => match CBB_finish root true st with
              | (Some out, _) => out = flat f /\ zlen (flat f) <= cap (base (snd (CBB_flush root st)))
                  /\ same_kind (base st) (base (snd (CBB_flush root st)))
              | (None, _) => forall m, zlen (flat f) <= m -> ~ fits (base st) m
              end
  end.
Proof.
  intros Hrep Hv. pose proof (CBB_flush_result root st fs 0 Hrep eq_refl) as Hr. rewrite Hv in Hr.
  unfold CBB_finish. rewrite bind_guard. cbn [Nat.eqb root].
  destruct v as [f|].
  - destruct Hr as [Hr _]. unfold bind, get, put, ret, guard. unfold result in Hr.
    destruct (CBB_flush root st) as [[[]|] st']; [|done].
    destruct Hr as (_ & [Hs Hb] & _ & Hk & _). rewrite andb_false_r. cbn [negb snd].
    pose proof (holds_len _ _ Hb). destruct Hb as (_ & -> & _ & _ & u & ->).
    rewrite ztake_app by done. split_and!; [done|lia|done].
  - unfold rejected, bind in *. by destruct (CBB_flush root st) as [[?|] ?].
Qed.

Lemma flat_root x : flat (fapp [empty_root] x) = x.
Proof. cbn. by rewrite app_nil_r. Qed.

Lemma finish_rejected (m : M cbb_st unit) st : rejected (m st) -> fst ((m ;;; CBB_finish root true) st) = None.
Proof. unfold rejected, bind. by destruct (m st) as [[?|] ?]. Qed.

(** A program that leaves a builder with [x] behind its open children. *)
Lemma finish_lazily (m : M cbb_st unit) st x :
  lazily 0 (m st) st (adds x (Some [empty_root])) ->
  match x with
  | None => rejected ((m ;;; CBB_finish root true) st)
  | Some s => match fst ((m ;;; CBB_finish root true) st) with
              | Some out => out = s /\ (can_resize (base st) = false -> zlen s <= cap (base st))
              | None => forall n, zlen s <= n -> ~ fits (base st) n
              end
  end.
Proof.
  intros Hl. unfold bind at 1 2. unfold adds in Hl. cbn [mbind option_bind] in Hl. unfold lazily in Hl.
  destruct (m st) as [[[]|] st'].
  - destruct Hl as ((fs & Hrep' & Hv) & _ & [Hk1 Hk2] & Hfit).
    pose proof (CBB_finish_lazily st' fs _ Hrep' Hv) as Hfin.
    destruct x as [s|]; cbn [mbind option_bind] in *; [|done].
    rewrite flat_root in Hfin. destruct (CBB_finish root true st') as [[out|] st'']; cbn [fst].
    + destruct Hfin as (-> & Hle & [Hk1' Hk2']).
      split; [done|]. intros Hr. rewrite <- (Hk2 Hr), <- Hk2' by congruence. done.
    + intros n Hn Hf. apply (Hfin n); [done|]. apply (Hfit _ n eq_refl); [by rewrite flat_root|done].
  - destruct x as [s|]; cbn [mbind option_bind] in *; [|done].
    intros n Hn. apply (Hl _ n eq_refl). by rewrite flat_root.
Qed.

(** A program that writes [x] to a new builder and finishes. *)
Lemma finish_result (m : M cbb_st unit) st x :
  result 0 (m st) st tt (fapp [empty_root] x) ->
  match fst ((m ;;; CBB_finish root true) st) with
  | Some out => out = x /\ (can_resize (base st) = false -> zlen x <= cap (base st))
  | None => forall n, zlen x <= n -> ~ fits (base st) n
  end.
Proof. intros Hr. apply (finish_lazily m st (Some x)). by apply (lazily_result _ _ _ _ _ Hr). Qed.

Lemma add_items_sound l h st fs d : items_ok l -> rep st fs -> depth h st = Some d ->
  lazily d (add_items h l st) st (adds (all_octets l) (fflush d fs)).
Proof. apply add_items_lazily. apply Forall_forall. intros. apply item_is_sound. Qed.

Lemma build_outcome l st : items_ok l -> rep st [empty_root] ->
  match all_octets l with
  | None => rejected (build l st)
  | Some s => match fst (build l st) with
              | Some out => out = s /\ (can_resize (base st) = false -> zlen s <= cap (base st))
              | None => forall m, zlen s <= m -> ~ fits (base st) m
              end
  end.
Proof. intros Hok Hrep. apply finish_lazily. by apply (add_items_sound l root st [empty_root] 0). Qed.
End Build.

(** C9. A builder on a caller's array of [n] bytes: whatever tree of calls the
    client makes, leaving every child to be closed by later calls, [CBB_finish]
    returns the octets of the tree when they fit in [n] bytes, and the program
    fails in all other cases: when they do not fit, when a contents is too long
    for its length field, or when a value is too big for its width. *)
Theorem build_fixed `{Allocator} l buf : items_ok l -> zlen buf < 2 ^ 64 ->
  fst (build l (CBB_init_fixed buf)) =
  (out ← all_octets l; if zlen out <=? zlen buf then Some out else None).
Proof.
  intros Hok Hbuf. pose proof (build_outcome l _ Hok (CBB_init_fixed_rep buf Hbuf)) as Ho.
  destruct (all_octets l) as [s|]; cbn [mbind option_bind]; [|done].
  destruct (fst (build l _)) as [out|].
  - destruct Ho as [-> Hcap]. rewrite (proj2 (Z.leb_le _ _)); [done|]. by apply Hcap.
  - destruct (Z.leb_spec (zlen s) (zlen buf)) as [Hle|]; [|done].
    exfalso. apply (Ho (zlen s)); [done|]. by left.
Qed.

Lemma build_fixed_witness :
  let A := {| malloc_ok := fun _ => false; junk := fun _ => 0 |} in
  fst (build [I_asn1 0x20000010 [I_uint64 129; I_prefixed 2 [I_bytes [7]]]] (CBB_init_fixed (replicate 9 0))) =
  Some [0x30; 7; 2; 2; 0; 129; 0; 1; 7].
Proof.
  intros A. rewrite (@build_fixed A); [vm_compute; reflexivity| |reflexivity].
  vm_compute. intuition discriminate.
Defined.

(** A builder that owns its buffer: under any allocator, what [CBB_finish]
    returns is the octets of the tree of calls, and nothing is returned for a
    tree that has none; when the allocator never fails, the octets of every tree
    up to 2^62 bytes are returned, from any initial capacity up to 2^63. *)
Theorem build_growing `{Allocator} l c st : items_ok l -> 0 <= c <= 2 ^ 63 -> CBB_init c = Some st ->
  (forall out, fst (build l st) = Some out -> all_octets l = Some out) /\
  ((forall n, malloc_ok n = true) -> forall out, zlen out <= 2 ^ 62 ->
     all_octets l = Some out -> fst (build l st) = Some out).
Proof.
  intros Hok Hc Hst. change (2 ^ 63) with 9223372036854775808 in Hc.
  destruct (CBB_init_rep c st) as (Hrep & Hr & Hcap); [lia|done|].
  pose proof (build_outcome l st Hok Hrep) as Ho. split.
  - intros out E. rewrite E in Ho. destruct (all_octets l) as [s|]; [by destruct Ho as [-> _]|].
    unfold rejected in Ho. congruence.
  - intros Hm out Hle E. rewrite E in Ho. destruct (fst (build l st)) as [o|]; [by destruct Ho as [-> _]|].
    exfalso. apply (Ho (zlen out)); [done|]. right. rewrite Hr, Hcap.
    change (2 ^ 63) with 9223372036854775808. split_and!; (done || lia).
Qed.

Lemma build_growing_witness :
  let A := {| malloc_ok := fun _ => true; junk := fun _ => 0xaa |} in
  exists st, CBB_init 1 = Some st /\
    fst (build [I_prefixed 1 [I_octet_string [1; 2; 3]]; I_bool 5] st) = Some [5; 4; 3; 1; 2; 3; 1; 1; 0xff].
Proof.
  intros A. eexists. split; [reflexivity|].
  apply (@build_growing A [I_prefixed 1 [I_octet_string [1; 2; 3]]; I_bool 5] 1);
    [vm_compute; intuition discriminate|lia|reflexivity|reflexivity|vm_compute; discriminate|reflexivity].
Defined.

(** C33. Writing and reading agree: if a program of builder calls returns [out]
    for one element with a valid tag around a tree of items, then
    [CBS_get_any_asn1] reads from [out] that tag and exactly the octets of the
    items, with nothing left over. *)
Theorem build_then_parse `{Allocator} tag l c st out :
  items_ok l -> valid_tag tag -> 0 <= c <= 2 ^ 63 -> CBB_init c = Some st -> bytes_ok out ->
  fst (build [I_asn1 tag l] st) = Some out ->
  exists contents, all_octets l = Some contents /\ CBS_get_any_asn1 out = (Some (contents, tag), []).
Proof.
  intros Hok Htag Hc Hst Hout E. change (2 ^ 63) with 9223372036854775808 in Hc.
  destruct (CBB_init_rep c st) as (Hrep & _ & _); [lia|done|].
  assert (Hok1 : items_ok [I_asn1 tag l]) by (destruct Htag as [? _]; cbn; done).
  pose proof (build_outcome [I_asn1 tag l] st Hok1 Hrep) as Ho. rewrite E in Ho.
  cbn [all_octets] in Ho. change (octets (I_asn1 tag l)) with
    (x ← all_octets l; field ← length_field 1 true (zlen x); Some (tag_octets tag ++ field ++ x)) in Ho.
  unfold rejected in Ho. rewrite E in Ho.
  destruct (all_octets l) as [x|]; cbn [mbind option_bind] in Ho; [|done]. exists x. split; [done|].
  unfold length_field in Ho. destruct (Z.leb_spec (zlen x) 4294967294); cbn [mbind option_bind] in Ho; [|done].
  destruct Ho as [-> _]. rewrite app_nil_r in *.
  replace (tag_octets tag ++ length_octets (zlen x) ++ x) with (der_element tag x) in *
    by (unfold der_element, der_header; by rewrite <- app_assoc).
  apply get_any_asn1_Some; [done|]. rewrite app_nil_r. split_and!; [done|lia|done].
Qed.

Lemma build_then_parse_witness :
  let A := {| malloc_ok := fun _ => true; junk := fun _ => 0xaa |} in
  exists contents, all_octets [I_int64 (-2)] = Some contents /\
    CBS_get_any_asn1 [0x30; 3; 2; 1; 0xfe] = (Some (contents, 0x20000010), []).
Proof.
  intros A.
  apply (@build_then_parse A 0x20000010 [I_int64 (-2)] 0 (mk_cbb (mk_buffer (Some []) 0 0 true false) [] 1)).
  - vm_compute. intuition discriminate.
  - vm_compute. intuition discriminate.
  - lia.
  - reflexivity.
  - repeat constructor; lia.
  - reflexivity.
Defined.
