(* ===== verification/CbbSetOf.v ===== *)
(** * SET OF (CBB_flush_asn1_set_of)

    The contents of a SET OF is put in DER order. The order is the lexicographic
    one on octets; [qsort] is the C library's, given by its contract. *)

From Stdlib Require Import Sorting.Sorted.
From S2P Require Import Prelude Words Mem Der Cbs CbsFacts Cbb CbbFacts CbbBuilder.

(** ** The order *)

Fixpoint lex_le (a b : list Z) : Prop :=
  match a, b with
  | [], _ => True
  | _ :: _, [] => False
  | x :: a, y :: b => x < y \/ (x = y /\ lex_le a b)
  end.

Lemma lex_le_refl a : lex_le a a.
Proof. induction a; cbn; auto. Qed.

Lemma lex_le_total a b : lex_le a b \/ lex_le b a.
Proof.
  revert b. induction a as [|x a IH]; intros [|y b]; cbn; auto.
  destruct (Z.lt_trichotomy x y) as [|[->|]]; auto. destruct (IH b); auto.
Qed.

Lemma lex_le_trans a b c : lex_le a b -> lex_le b c -> lex_le a c.
Proof.
  revert b c. induction a as [|x a IH]; intros [|y b] [|z c]; cbn; try done.
  intros [Hxy|[-> Hab]] [Hyz|[-> Hbc]]; [left; lia|by left|by left|right; eauto].
Qed.

Lemma lex_le_antisym a b : lex_le a b -> lex_le b a -> a = b.
Proof.
  revert b. induction a as [|x a IH]; intros [|y b]; cbn; try done.
  intros [?|[-> ?]] [?|[? ?]]; try lia. by rewrite (IH b).
Qed.

Lemma compare_cons x a y b : compare_set_of_element (x :: a) (y :: b) =
  if x <? y then -1 else if y <? x then 1 else compare_set_of_element a b.
Proof.
  unfold compare_set_of_element, CBS_len. rewrite !zlen_cons. pose proof (zlen_nonneg a). pose proof (zlen_nonneg b).
  assert (Ht : forall (w : Z) l n, 0 <= n -> ztake (1 + n) (w :: l) = w :: ztake n l).
  { intros w l n Hn. unfold ztake. rewrite Z2Nat.inj_add by lia. done. }
  replace (if 1 + zlen a <? 1 + zlen b then 1 + zlen a else 1 + zlen b) with (1 + (if zlen a <? zlen b then zlen a else zlen b))
    by (destruct (Z.ltb_spec (zlen a) (zlen b)); destruct (Z.ltb_spec (1 + zlen a) (1 + zlen b)); lia).
  rewrite !Ht by (destruct (_ <? _); lia). cbn [OPENSSL_memcmp].
  destruct (Z.ltb_spec x y); [done|]. destruct (Z.ltb_spec y x); [done|].
  assert (E1 : (1 + zlen a =? 1 + zlen b) = (zlen a =? zlen b)) by lia.
  assert (E2 : (1 + zlen a <? 1 + zlen b) = (zlen a <? zlen b)) by lia. by rewrite E1, E2.
Qed.

Lemma compare_set_of_element_spec a b : compare_set_of_element a b <= 0 <-> lex_le a b.
Proof.
  revert b. induction a as [|x a IH]; intros [|y b].
  - done.
  - split; [done|]. intros _. unfold compare_set_of_element, CBS_len. change (zlen (@nil Z)) with 0. rewrite zlen_cons.
    pose proof (zlen_nonneg b). rewrite (proj2 (Z.ltb_lt _ _)) by lia.
    rewrite (proj2 (Z.eqb_neq 0 (1 + zlen b))) by lia. done.
  - split; [|done]. unfold compare_set_of_element, CBS_len. change (zlen (@nil Z)) with 0. rewrite zlen_cons.
    pose proof (zlen_nonneg a). rewrite (proj2 (Z.ltb_ge _ _)) by lia. cbn.
    rewrite (proj2 (Z.eqb_neq (1 + zlen a) 0)) by lia. done.
  - rewrite compare_cons. cbn [lex_le]. rewrite <- IH.
    destruct (Z.ltb_spec x y); [lia|]. destruct (Z.ltb_spec y x); lia.
Qed.

Lemma sorted_by_lex `{Qsort} l :
  Permutation (qsort compare_set_of_element l) l /\ StronglySorted lex_le (qsort compare_set_of_element l).
Proof.
  split; [apply qsort_perm|]. apply Sorted_StronglySorted; [intros a b c; apply lex_le_trans|].
  assert (Hq : Sorted (fun a b => compare_set_of_element a b <= 0) (qsort compare_set_of_element l)).
  { apply qsort_sorted.
    - intros a b. rewrite !compare_set_of_element_spec. apply lex_le_total.
    - intros a b c. rewrite !compare_set_of_element_spec. apply lex_le_trans. }
  induction Hq as [|a k Hk IH Ha]; constructor; [done|]. destruct Ha as [|b k Hab]; constructor.
  by apply compare_set_of_element_spec.
Qed.

(** No encoding is a proper prefix of another. *)
Definition is_element (e : list Z) : Prop := exists tag c, valid_tag tag /\ zlen c < 2 ^ 32 /\ bytes_ok c /\ e = der_element tag c.

Lemma is_element_bytes e : is_element e -> bytes_ok e.
Proof. intros (tag & c & Ht & Hc & Hb & ->). by apply der_element_ok. Qed.

Lemma is_element_not_nil e : is_element e -> (1 <= length e)%nat.
Proof.
  intros (tag & c & _ & _ & _ & ->). unfold der_element, der_header. rewrite !length_app.
  pose proof (zlen_tag_octets tag). unfold zlen in *. lia.
Qed.

Lemma elements_prefix_free e e' s : is_element e -> is_element e' -> bytes_ok s -> e' = e ++ s -> e' = e /\ s = [].
Proof.
  intros He He' Hs E. destruct He as (t & c & Ht & Hc & Hb & ->), He' as (t' & c' & Ht' & Hc' & Hb' & ->).
  pose proof (get_any_asn1_Some (der_element t' c') c' t' [] ltac:(by apply der_element_ok)) as [_ H1].
  rewrite app_nil_r in H1. specialize (H1 ltac:(done)).
  pose proof (get_any_asn1_Some (der_element t' c') c t s ltac:(by apply der_element_ok)) as [_ H2].
  specialize (H2 ltac:(done)). rewrite H1 in H2. by injection H2 as -> -> <-.
Qed.

(** ** The elements of the contents *)

Lemma set_of_elements_Some fuel : forall s els, bytes_ok s -> (length s <= fuel)%nat ->
  set_of_elements fuel s = Some els <-> Forall is_element els /\ s = concat els.
Proof.
  assert (Hnil : forall els, Forall is_element els -> [] = concat els -> els = []).
  { intros els [|e els' He _]; [done|]. intros E. apply (f_equal length) in E. cbn [concat] in E.
    rewrite length_app in E. pose proof (is_element_not_nil e He). cbn [length] in E. lia. }
  induction fuel as [|fuel IH]; intros s els Hs Hl.
  { destruct s; [|cbn in Hl; lia]. cbn. split; [by intros [= <-]|]. intros [He E]. by rewrite (Hnil els). }
  cbn [set_of_elements]. unfold CBS_len. destruct (Z.eqb_spec (zlen s) 0) as [E|Hne].
  { apply zlen_0_nil in E as ->. split; [by intros [= <-]|]. intros [He E]. by rewrite (Hnil els). }
  destruct (CBS_get_any_asn1_element s) as [[[[out tag] hl]|] s'] eqn:Hg.
  - apply get_element_iff in Hg as (c & Ht & Hc & -> & -> & ->); [|done]. apply Forall_app in Hs as [He Hs'].
    assert (Hel : is_element (der_element tag c)).
    { exists tag, c. split_and!; [done..| |done]. unfold der_element in He. by apply Forall_app in He as [_ He]. }
    pose proof (is_element_not_nil _ Hel). rewrite length_app in Hl. split.
    + destruct (set_of_elements fuel s') as [els'|] eqn:Hr; [|done]. intros [= <-].
      apply IH in Hr as [Hels ->]; [|done|lia]. split; [by constructor|done].
    + intros [Hels E]. destruct Hels as [|e els' Hel' Hels'].
      { exfalso. apply (f_equal length) in E. cbn [concat] in E. rewrite length_app in E. cbn [length] in E. lia. }
      cbn [concat] in E. destruct Hel' as (t' & c' & Ht' & Hc' & Hb' & ->).
      assert (Hok : bytes_ok (der_element tag c ++ s')) by (by apply Forall_app).
      pose proof (proj2 (get_any_asn1_Some _ c' t' (concat els') Hok) ltac:(done)) as G1.
      pose proof (proj2 (get_any_asn1_Some _ c tag s' Hok) ltac:(done)) as G2. rewrite G1 in G2.
      injection G2 as -> -> <-. by rewrite (proj2 (IH (concat els') els' Hs' ltac:(lia)) ltac:(done)).
  - split; [done|]. intros [Hels ->]. exfalso. destruct Hels as [|e els' (t' & c' & Ht' & Hc' & Hb' & ->) Hels']; [done|].
    cbn [concat] in *.
    pose proof (proj2 (get_element_iff _ (der_element t' c') t' (zlen (der_header t' (zlen c'))) (concat els') Hs)) as G.
    rewrite Hg in G. specialize (G ltac:(eauto 10)). discriminate.
Qed.

(** ** The bytes of the innermost object *)

Lemma innermost_offset st gs n ll asn1 x d h : rep st (gs ++ [mk_frame n ll asn1 x]) -> depth h st = Some d ->
  length gs = d -> CBB_contents h st = Some x /\ len (base st) = zlen (flat gs) + ll + zlen x /\ 0 <= ll.
Proof.
  intros [Hs Hb] Hd Hl. pose proof (shape_ok _ _ _ Hs) as Hok. apply Forall_app in Hok as [Hokg Hokf].
  apply Forall_cons in Hokf as [Hokf _]. pose proof Hokf as [Hll _]. cbn [f_len_len] in Hll.
  assert (Hflat : flat (gs ++ [mk_frame n ll asn1 x]) = (flat gs ++ placeholder (mk_frame n ll asn1 x)) ++ x).
  { rewrite flat_app. cbn [flat f_bytes]. by rewrite app_nil_r, app_assoc. }
  rewrite Hflat in Hb. destruct Hb as (_ & Hlen & _ & _ & u & Hm).
  assert (Hz : zlen (flat gs ++ placeholder (mk_frame n ll asn1 x)) = zlen (flat gs) + ll)
    by (rewrite zlen_app, zlen_placeholder by done; done).
  rewrite zlen_app, Hz in Hlen. split; [|split; [exact Hlen|done]].
  unfold CBB_contents. rewrite Hd. destruct Hs as [(f0 & gs' & E & Hl0 & _ & _ & Hc & _) _ _].
  destruct gs as [|g gs].
  - injection E as <- <-. cbn [length] in Hl. subst d. cbn [f_len_len] in Hl0. subst ll. f_equal.
    change (zlen (flat [])) with 0 in *. unfold placeholder in Hm. cbn in Hm. rewrite Hm. apply ztake_app. lia.
  - cbn [app] in E. injection E as <- <-. cbn [length] in Hl. subst d. rewrite Hc, children_of_app by (by apply Forall_cons in Hokg as [_ ?]).
    rewrite lookup_app_r by (rewrite length_children_of; lia). rewrite length_children_of, Nat.sub_diag.
    cbn [children_of lookup list_lookup offset pending_len_len f_len_len]. cbv zeta.
    assert (Hg : zlen (flat (g :: gs)) = zlen (f_bytes g) + zlen (flat gs)).
    { cbn [flat]. rewrite !zlen_app. unfold placeholder. rewrite zlen_replicate, Hl0. lia. }
    rewrite Hg in *. f_equal. rewrite Hm, Hlen, <- app_assoc, zdrop_app by lia. apply ztake_app. lia.
Qed.

Section SetOf.
Context `{Allocator} `{Qsort}.

Lemma write_all_outcome cs : forall p x b, holds b (p ++ x) -> zlen x = zlen (concat cs) ->
  outcome (write_all (zlen p) cs b) b tt (p ++ concat cs).
Proof.
  induction cs as [|c cs IH]; intros p x b Hb Hx; cbn [write_all concat].
  - cbn [concat] in Hx. apply zlen_0_nil in Hx as ->. by apply outcome_ret.
  - cbn [concat] in Hx. rewrite zlen_app in Hx.
    destruct (zsplit (zlen c) x) as (y & z & -> & Hy); [zlen_pos; lia|]. rewrite zlen_app in Hx.
    apply (outcome_bind _ _ _ tt _ (p ++ c ++ z)).
    + by apply (write_outcome p y z).
    + rewrite !zlen_app. lia.
    + intros b' Hb' _. unfold CBS_len. rewrite <- zlen_app, app_assoc. rewrite app_assoc in Hb'.
      apply (IH (p ++ c) z); [done|lia].
Qed.

(** The order in which the elements are left. *)
Definition sorted_elements (els : list (list Z)) : list (list Z) :=
  if zlen els <? 2 then els else qsort compare_set_of_element els.

Lemma concat_perm_length (l k : list (list Z)) : Permutation l k -> zlen (concat l) = zlen (concat k).
Proof. induction 1; cbn [concat]; rewrite ?zlen_app; lia. Qed.

Lemma sorted_elements_spec els :
  Permutation (sorted_elements els) els /\ StronglySorted lex_le (sorted_elements els) /\
  zlen (concat (sorted_elements els)) = zlen (concat els).
Proof.
  assert (Hps : Permutation (sorted_elements els) els /\ StronglySorted lex_le (sorted_elements els)).
  { unfold sorted_elements. destruct (Z.ltb_spec (zlen els) 2); [|apply sorted_by_lex]. split; [done|].
    destruct els as [|e [|e' els]]; [constructor|repeat constructor|]. rewrite !zlen_cons in *. zlen_pos. lia. }
  destruct Hps as [Hp Hs]. split_and!; [done..|by apply concat_perm_length].
Qed.

(** Whether the copies that sorting needs can be made. *)
Definition room_to_sort (els : list (list Z)) : bool :=
  (zlen els <? 2) ||
  match OPENSSL_memdup (concat els), OPENSSL_calloc (zlen els) sizeof_CBS with
  | Some _, Some _ => true
  | _, _ => false
  end.

Lemma flush_set_of_outcome h st fs gs n ll asn1 x d :
  bytes_ok x -> rep st fs -> depth h st = Some d -> fflush d fs = Some (gs ++ [mk_frame n ll asn1 x]) ->
  match set_of_elements (length x) x with
  | None => rejected (CBB_flush_asn1_set_of h st)
  | Some els =>
      if room_to_sort els
      then result d (CBB_flush_asn1_set_of h st) st tt (gs ++ [mk_frame n ll asn1 (concat (sorted_elements els))])
      else rejected (CBB_flush_asn1_set_of h st)
  end.
Proof.
  intros Hx Hrep Hd Hf. pose proof (depth_bound _ _ _ _ Hrep Hd) as Hlt.
  pose proof (fflush_length _ _ _ Hlt Hf) as Hlen. rewrite length_app in Hlen. cbn in Hlen.
  pose proof (CBB_flush_result h st fs d Hrep Hd) as Hr. rewrite Hf in Hr. destruct Hr as [Hr _].
  assert (Hst : forall st', rep st' (gs ++ [mk_frame n ll asn1 x]) -> keeps d st st' ->
    CBB_contents h st' = Some x /\ len (base st') = zlen (flat gs) + ll + zlen x /\ 0 <= ll).
  { intros st' Hrep' Hk. apply (innermost_offset st' gs n ll asn1 x d h); [done|by apply Hk|lia]. }
  unfold CBB_flush_asn1_set_of.
  destruct (set_of_elements (length x) x) as [els|] eqn:He.
  2:{ eapply rejected_bind; [exact Hr|]. intros st' Hrep' Hk. destruct (Hst st' Hrep' Hk) as (Hc & _ & _).
      unfold rejected, bind, get. by rewrite Hc, He. }
  pose proof (proj1 (set_of_elements_Some _ x els Hx (le_n _)) He) as [_ Hcat].
  unfold room_to_sort, sorted_elements. destruct (zlen els <? 2) eqn:Hfew; cbn [orb].
  - rewrite <- Hcat. eapply result_bind; [exact Hr|done|done|]. intros st' Hrep' Hk.
    destruct (Hst st' Hrep' Hk) as (Hc & _ & _). unfold bind, get. rewrite Hc, He, Hfew. by apply result_ret.
  - rewrite <- Hcat. destruct (OPENSSL_memdup x) as [b|] eqn:Hm; [destruct (OPENSSL_calloc _ _) eqn:Hcal|].
    2-3: eapply rejected_bind; [exact Hr|]; intros st' Hrep' Hk; destruct (Hst st' Hrep' Hk) as (Hc & _ & _);
      unfold rejected, bind, get; by rewrite Hc, He, Hfew, Hm, ?Hcal.
    apply OPENSSL_memdup_Some in Hm as Hb. subst b.
    set (srt := qsort compare_set_of_element els).
    assert (Hsz : zlen (concat srt) = zlen x).
    { rewrite Hcat. apply concat_perm_length, qsort_perm. }
    assert (Hflat : forall y, flat (gs ++ [mk_frame n ll asn1 y]) = (flat gs ++ replicate (Z.to_nat ll) 0) ++ y).
    { intros y. rewrite flat_app. cbn [flat f_bytes]. by rewrite app_nil_r, app_assoc. }
    eapply result_bind; [exact Hr|rewrite !Hflat, !zlen_app; lia|done|]. intros st' Hrep' Hk.
    destruct (Hst st' Hrep' Hk) as (Hc & Hl & Hll).
    unfold bind at 1, get. rewrite Hc, He, Hfew, Hm, Hcal, He. cbv zeta. fold srt.
    destruct Hrep' as [Hs Hb].
    apply (result_on_base d _ _ _ (gs ++ [mk_frame n ll asn1 x])); [|done|].
    + rewrite !Hflat in *. replace (len (base st') - zlen x) with (zlen (flat gs ++ replicate (Z.to_nat ll) 0))
        by (rewrite zlen_app, zlen_replicate; lia).
      by apply (write_all_outcome srt _ x).
    + pose proof (shape_refill (chain st') (next st') (gs ++ [new_frame n ll asn1]) x (concat srt)) as Hre.
      by rewrite !fapp_new in Hre.
Qed.

(** A client that writes one SET OF: the element is opened, filled, and its
    contents put in order. *)
Definition build_set_of (tag : Z) (l : list item) : M cbb_st (list Z) :=
  (let* child := CBB_add_asn1 root tag in
   add_items child l ;;;
   CBB_flush_asn1_set_of child) ;;;
  CBB_finish root true.

(** The contents the client leaves, if it gets that far. *)
Definition set_of_contents (l : list item) : option (list Z) :=
  x ← all_octets l; els ← set_of_elements (length x) x;
  if room_to_sort els then Some (concat (sorted_elements els)) else None.

Lemma set_of_child_outcome l f1 n st : items_ok l -> (forall x, all_octets l = Some x -> bytes_ok x) ->
  length f1 = 1%nat -> rep st (f1 ++ [new_frame n 1 true]) -> depth n st = Some 1%nat ->
  lazily 1 ((add_items n l ;;; CBB_flush_asn1_set_of n) st) st
    (y ← set_of_contents l; Some (f1 ++ [mk_frame n 1 true y])).
Proof.
  intros Hok Hbytes Hlen Hrep Hn.
  pose proof (add_items_sound l n st _ 1 Hok Hrep Hn) as Hi.
  rewrite fflush_last in Hi by (rewrite length_app, Hlen; done). unfold adds in Hi. cbn [mbind option_bind] in Hi.
  unfold set_of_contents. destruct (all_octets l) as [x|] eqn:Hall; cbn [mbind option_bind] in *.
  2:{ eapply lazily_bind; [exact Hi|done|]. intros _ st' fs Hrep' Hk Hf. apply lazily_rejected.
      apply (flush_rejected n st' fs 1); [done|by apply Hk|done]. }
  rewrite fapp_new in Hi. specialize (Hbytes x eq_refl).
  assert (Ho : forall st' fs, rep st' fs -> keeps 1 st st' -> fflush 1 fs = Some (f1 ++ [mk_frame n 1 true x]) -> _)
    by (intros st' fs Hrep' Hk Hf; exact (flush_set_of_outcome n st' fs f1 n 1 true x 1 Hbytes Hrep' (Hk _ _ Hn (le_n _)) Hf)).
  destruct (set_of_elements (length x) x) as [els|] eqn:Hels; cbn [mbind option_bind].
  2:{ eapply lazily_bind; [exact Hi|done|]. intros _ st' fs Hrep' Hk Hf. by apply lazily_rejected, (Ho st' fs). }
  destruct (room_to_sort els); cbn [mbind option_bind].
  2:{ eapply lazily_bind; [exact Hi|done|]. intros _ st' fs Hrep' Hk Hf. by apply lazily_rejected, (Ho st' fs). }
  destruct (sorted_elements_spec els) as (_ & _ & Hsz).
  pose proof (proj1 (set_of_elements_Some _ x els Hbytes (le_n _)) Hels) as [_ Hcat].
  eapply lazily_bind; [exact Hi| |].
  - intros f [= <-]. eexists. split; [done|]. rewrite !flat_app, !zlen_app. cbn [flat f_bytes]. rewrite !zlen_app.
    unfold placeholder. cbn [f_len_len]. rewrite Hcat. lia.
  - intros _ st' fs Hrep' Hk Hf. apply (lazily_result _ _ _ _ _ (Ho st' fs Hrep' Hk Hf)). rewrite length_app, Hlen. done.
Qed.

Lemma build_set_of_outcome tag l st : items_ok l -> 0 <= tag < 2 ^ 32 ->
  (forall x, all_octets l = Some x -> bytes_ok x) -> rep st [empty_root] ->
  match (y ← set_of_contents l; field ← length_field 1 true (zlen y); Some (tag_octets tag ++ field ++ y)) with
  | None => rejected (build_set_of tag l st)
  | Some s => match fst (build_set_of tag l st) with
              | Some out => out = s
              | None => forall m, zlen s <= m -> ~ fits (base st) m
              end
  end.
Proof.
  intros Hok Htag Hbytes Hrep. set (f1 := fapp [empty_root] (tag_octets tag)).
  pose proof (CBB_add_asn1_opens root tag st _ 0 _ Hrep eq_refl (fflush_last [empty_root] 0 eq_refl) Htag) as Hop. fold f1 in Hop.
  pose proof (lazily_opens 0 _ (fun c => add_items c l ;;; CBB_flush_asn1_set_of c) st f1 1 true (set_of_contents l) Hop eq_refl
    ltac:(lia) ltac:(done) (fun n st' Hr Hd => set_of_child_outcome l f1 n st' Hok Hbytes eq_refl Hr Hd)) as Hl.
  set (w := (y ← set_of_contents l; _)).
  pose proof (finish_lazily (let* child := CBB_add_asn1 root tag in add_items child l ;;; CBB_flush_asn1_set_of child) st w) as Hfin.
  fold (build_set_of tag l) in Hfin.
  assert (Hw : (x ← set_of_contents l; field ← length_field 1 true (zlen x); Some (fapp f1 (field ++ x))) = adds w (Some [empty_root])).
  { unfold w, f1, adds. cbn [mbind option_bind]. destruct (set_of_contents l) as [x|]; cbn [mbind option_bind]; [|done].
    destruct (length_field 1 true (zlen x)); cbn [mbind option_bind]; [|done]. by rewrite fapp_fapp. }
  rewrite Hw in Hl. specialize (Hfin Hl). destruct w as [s|]; [|done].
  destruct (fst _); [by destruct Hfin|done].
Qed.

Lemma room_to_sort_ok els : (forall n, malloc_ok n = true) -> zlen (concat els) < 2 ^ 32 ->
  Forall is_element els -> room_to_sort els = true.
Proof.
  intros Hm Hx Hels. unfold room_to_sort. destruct (Z.ltb_spec (zlen els) 2) as [|Hmany]; [done|]. cbn [orb].
  assert (Hle : zlen els <= zlen (concat els)).
  { clear -Hels. induction Hels as [|e els He _ IH]; [done|]. cbn [concat]. rewrite zlen_cons, zlen_app.
    pose proof (is_element_not_nil e He). unfold zlen in *. lia. }
  assert (Hmalloc : forall n, 0 <= n < 2 ^ 40 -> OPENSSL_malloc n = Some (block n)).
  { intros n Hn. unfold OPENSSL_malloc. rewrite Hm. change OPENSSL_MALLOC_PREFIX with 8. unfold u64.
    rewrite Z.mod_small by lia. by rewrite (proj2 (Z.ltb_ge _ _)) by lia. }
  unfold OPENSSL_memdup. rewrite (proj2 (Z.eqb_neq _ 0)), Hmalloc by lia.
  unfold OPENSSL_calloc, OPENSSL_zalloc. change sizeof_CBS with 16. change (UINT64_MAX / 16) with 1152921504606846975.
  rewrite Z.gtb_ltb, (proj2 (Z.ltb_ge _ (zlen els))) by lia. cbn [negb Z.eqb andb].
  unfold u64. rewrite Z.mod_small, Hmalloc by lia. done.
Qed.
End SetOf.

(** A SET OF is written in DER order: if a client fills an element with any
    tree of calls and ends with [CBB_flush_asn1_set_of], then what [CBB_finish]
    returns is the element whose contents is the same encodings in ascending order
    of their octets, and nothing is returned when the contents is not a sequence of
    DER elements. When the allocator does not fail every such program succeeds. *)
Theorem set_of_sorted `{Allocator} `{Qsort} tag l c st :
  items_ok l -> 0 <= tag < 2 ^ 32 -> (forall x, all_octets l = Some x -> bytes_ok x) ->
  0 <= c <= 2 ^ 63 -> CBB_init c = Some st ->
  (forall out, fst (build_set_of tag l st) = Some out -> exists els sorted,
     all_octets l = Some (concat els) /\ Forall is_element els /\ Permutation sorted els /\
     StronglySorted lex_le sorted /\ out = der_element tag (concat sorted)) /\
  ((forall n, malloc_ok n = true) -> forall els, Forall is_element els -> all_octets l = Some (concat els) ->
     zlen (concat els) <= 0xfffffffe -> is_Some (fst (build_set_of tag l st))).
Proof.
  intros Hok Htag Hbytes Hc Hst. change (2 ^ 63) with 9223372036854775808 in Hc.
  destruct (CBB_init_rep c st) as (Hrep & Hr & Hcap); [lia|done|].
  pose proof (build_set_of_outcome tag l st Hok Htag Hbytes Hrep) as Ho. unfold set_of_contents in Ho.
  split.
  - intros out E. rewrite E in Ho. unfold rejected in Ho. rewrite E in Ho.
    destruct (all_octets l) as [x|]; cbn [mbind option_bind] in Ho; [|done].
    destruct (set_of_elements (length x) x) as [els|] eqn:Hels; cbn [mbind option_bind] in Ho; [|done].
    apply set_of_elements_Some in Hels as [Hels ->]; [|by apply Hbytes|done].
    destruct (room_to_sort els); cbn [mbind option_bind] in Ho; [|done].
    destruct (sorted_elements_spec els) as (Hp & Hs & _). unfold length_field in Ho.
    destruct (_ <=? _); cbn [mbind option_bind] in Ho; [|done]. exists els, (sorted_elements els).
    split_and!; try done. rewrite Ho. unfold der_element, der_header. by rewrite <- app_assoc.
  - intros Hm els Hels Hall Hle. rewrite Hall in Ho. cbn [mbind option_bind] in Ho.
    rewrite (proj2 (set_of_elements_Some _ _ els (Hbytes _ Hall) (le_n _)) (conj Hels eq_refl)) in Ho.
    cbn [mbind option_bind] in Ho. rewrite room_to_sort_ok in Ho by (done || lia). cbn [mbind option_bind] in Ho.
    destruct (sorted_elements_spec els) as (_ & _ & Hsz). unfold length_field in Ho.
    rewrite Hsz, (proj2 (Z.leb_le _ _)) in Ho by lia. cbn [mbind option_bind] in Ho.
    destruct (fst _) as [out|]; [done|]. exfalso. eapply Ho; [reflexivity|]. right. rewrite Hr, Hcap, !zlen_app, Hsz.
    pose proof (zlen_tag_octets tag). pose proof (zlen_length_octets (zlen (concat els))).
    change (2 ^ 63) with 9223372036854775808. change (2 ^ 62) with 4611686018427387904. split_and!; (done || lia).
Qed.

(** A sort that meets the contract of [qsort]. *)
Fixpoint insert_by (cmp : CBS -> CBS -> Z) (x : CBS) (l : list CBS) : list CBS :=
  match l with
  | [] => [x]
  | y :: l => if cmp x y <=? 0 then x :: y :: l else y :: insert_by cmp x l
  end.
Definition insertion_sort (cmp : CBS -> CBS -> Z) (l : list CBS) : list CBS := foldr (insert_by cmp) [] l.

Lemma insert_by_perm cmp x l : Permutation (insert_by cmp x l) (x :: l).
Proof.
  induction l as [|y l IH]; [done|]. cbn [insert_by]. destruct (cmp x y <=? 0); [done|].
  rewrite IH. apply perm_swap.
Qed.

Lemma insertion_sort_perm cmp l : Permutation (insertion_sort cmp l) l.
Proof. induction l as [|x l IH]; [done|]. cbn. rewrite insert_by_perm. by apply perm_skip. Qed.

Lemma insert_by_sorted (cmp : CBS -> CBS -> Z) x l : (forall a b, cmp a b <= 0 \/ cmp b a <= 0) ->
  Sorted (fun a b => cmp a b <= 0) l -> Sorted (fun a b => cmp a b <= 0) (insert_by cmp x l).
Proof.
  intros Htot. induction 1 as [|y l Hl IH Hy]; [repeat constructor|]. cbn [insert_by].
  destruct (Z.leb_spec (cmp x y) 0); [repeat constructor; done|].
  constructor; [done|]. assert (Hyx : cmp y x <= 0) by (destruct (Htot x y); lia).
  destruct Hy as [|z l Hyz]; cbn [insert_by]; [by constructor|]. destruct (cmp x z <=? 0); by constructor.
Qed.

Definition insertion_qsort : Qsort := {|
  qsort := insertion_sort;
  qsort_perm := insertion_sort_perm;
  qsort_sorted := fun cmp l Htot _ => list_ind (fun l => Sorted (fun a b => cmp a b <= 0) (insertion_sort cmp l))
    (Sorted_nil _) (fun x l IH => insert_by_sorted cmp x _ Htot IH) l
|}.

Lemma set_of_sorted_witness :
  let A := {| malloc_ok := fun _ => true; junk := fun _ => 0xaa |} in
  exists els sorted, all_octets [I_uint64 5; I_bool 1; I_uint64 3] = Some (concat els) /\ Forall is_element els /\
    Permutation sorted els /\ StronglySorted lex_le sorted /\
    [0x31; 9; 1; 1; 0xff; 2; 1; 3; 2; 1; 5] = der_element 0x20000011 (concat sorted).
Proof.
  intros A.
  apply (set_of_sorted (H := A) (H0 := insertion_qsort) 0x20000011 [I_uint64 5; I_bool 1; I_uint64 3] 0
    (mk_cbb (mk_buffer (Some []) 0 0 true false) [] 1)).
  - vm_compute. intuition discriminate.
  - lia.
  - intros x E. vm_compute in E. injection E as <-. repeat constructor; discriminate.
  - lia.
  - reflexivity.
  - vm_compute. reflexivity.
Defined.

Lemma memcmp_zero a : forall b, length a = length b -> OPENSSL_memcmp a b = 0 -> a = b.
Proof.
  induction a as [|x a IH]; intros [|y b] Hl; try done. cbn [OPENSSL_memcmp].
  destruct (Z.ltb_spec x y); [done|]. destruct (Z.ltb_spec y x); [done|]. intros E.
  rewrite (IH b); [f_equal; lia|by injection Hl|done].
Qed.

Lemma compare_zero_sym a : forall b, compare_set_of_element a b = 0 -> compare_set_of_element b a = 0.
Proof.
  induction a as [|x a IH]; intros [|y b] E; [done|..|].
  - exfalso. revert E. unfold compare_set_of_element, CBS_len. change (zlen (@nil Z)) with 0. rewrite zlen_cons.
    pose proof (zlen_nonneg b). rewrite (proj2 (Z.ltb_lt 0 (1 + zlen b))), (proj2 (Z.eqb_neq 0 (1 + zlen b))) by lia. done.
  - exfalso. pose proof (proj1 (compare_set_of_element_spec (x :: a) [])) as Hle. apply Hle. by rewrite E.
  - rewrite compare_cons in *. destruct (Z.ltb_spec x y); [done|]. destruct (Z.ltb_spec y x); [done|]. by apply IH.
Qed.

(** Elements never tie: the comparison of two elements is zero only when they
    are the same, and their common prefix already decides it. The last branch of
    [compare_set_of_element], for an element that is a prefix of the other, is
    unreachable, as its comment says, since DER is prefix-free. *)
Theorem set_of_elements_never_tie a b : is_element a -> is_element b ->
  let n := Z.min (CBS_len a) (CBS_len b) in
  (OPENSSL_memcmp (ztake n a) (ztake n b) = 0 -> a = b) /\
  (compare_set_of_element a b = 0 <-> a = b).
Proof.
  intros Ha Hb n. unfold CBS_len in *. split.
  - intros E. apply memcmp_zero in E.
    2:{ pose proof (zlen_nonneg a). pose proof (zlen_nonneg b). apply Nat2Z.inj. change (zlen (ztake n a) = zlen (ztake n b)).
        rewrite !zlen_ztake by lia. done. }
    pose proof (is_element_bytes a Ha). pose proof (is_element_bytes b Hb).
    destruct (Z.le_ge_cases (zlen a) (zlen b)) as [Hle|Hle].
    + rewrite (ztake_all n a) in E by lia.
      destruct (elements_prefix_free a b (zdrop n b) Ha Hb) as [-> _]; [by apply Forall_drop| |done].
      rewrite E at 1. by rewrite ztake_zdrop.
    + rewrite (ztake_all n b) in E by lia.
      destruct (elements_prefix_free b a (zdrop n a) Hb Ha) as [-> _]; [by apply Forall_drop| |done].
      rewrite <- E. by rewrite ztake_zdrop.
  - split.
    + intros E. pose proof (compare_zero_sym a b E) as Hswap.
      apply lex_le_antisym; apply compare_set_of_element_spec; lia.
    + intros <-. pose proof (proj2 (compare_set_of_element_spec a a) (lex_le_refl a)) as Hle.
      unfold compare_set_of_element, CBS_len in *. rewrite Z.ltb_irrefl in *.
      destruct (Z.eqb_spec (OPENSSL_memcmp (ztake (zlen a) a) (ztake (zlen a) a)) 0) as [|Hne]; cbn [negb]; [by rewrite Z.eqb_refl|].
      exfalso. apply Hne. clear. induction (ztake (zlen a) a) as [|x l IH]; [done|]. cbn. by rewrite Z.ltb_irrefl.
Qed.

Lemma set_of_elements_never_tie_witness :
  let n := Z.min (CBS_len [5; 0]) (CBS_len [2; 1; 3]) in
  (OPENSSL_memcmp (ztake n [5; 0]) (ztake n [2; 1; 3]) = 0 -> [5; 0] = [2; 1; 3]) /\
  (compare_set_of_element [5; 0] [2; 1; 3] = 0 <-> [5; 0] = [2; 1; 3]).
Proof.
  apply (set_of_elements_never_tie [5; 0] [2; 1; 3]).
  - exists 5, []. split; [done|]. split; [reflexivity|]. split; [constructor|reflexivity].
  - exists 2, [3]. split; [done|]. split; [reflexivity|]. split; [repeat constructor; lia|reflexivity].
Defined.
