(* ===== verification/Base64.v ===== *)
(** * Base64 (crypto/base64/base64.c)

    Output parameters are lists of the bytes written. The context of the
    streaming functions is the C structure. *)

From S2P Require Import Prelude Words Mem.

(** ** Constant-time helpers *)

Definition constant_time_lt_args_8 (a b : Z) : Z :=
  let aw := a in
  let bw := b in
  u8 (constant_time_msb_w (u64 (aw - bw))).

Definition constant_time_in_range_8 (a min max : Z) : Z :=
  let a := u8 (a - min) in
  constant_time_lt_args_8 a (u8 (max - min + 1)).

(** ** Encoding *)

Definition conv_bin2ascii (a : Z) : Z :=
  let a := a .& 0x3f in
  let ret := constant_time_select_8 (constant_time_eq_8 a 62) 43 47 in
  let ret := constant_time_select_8 (constant_time_lt_args_8 a 62) (u8 (a - 52 + 48)) ret in
  let ret := constant_time_select_8 (constant_time_lt_args_8 a 52) (u8 (a - 26 + 97)) ret in
  let ret := constant_time_select_8 (constant_time_lt_args_8 a 26) (u8 (a + 65)) ret in
  ret.

Definition EVP_EncodedLength (len : Z) : option Z :=
  if u64 (len + 2) <? len then None
  else
    let len := u64 (len + 2) in
    let len := len / 3 in
    if negb (u64 (len ≪ 2) ≫ 2 =? len) then None
    else
      let len := u64 (len ≪ 2) in
      if u64 (len + 1) <? len then None
      else Some (u64 (len + 1)).

Record EVP_ENCODE_CTX := mk_ctx {
  data_used : Z;
  data : list Z;
  eof_seen : bool;
  error_encountered : bool
}.

Definition sizeof_data : Z := 48.

Definition EVP_EncodeInit : EVP_ENCODE_CTX := mk_ctx 0 (replicate 48 0) false false.

(** [sizeof(EVP_ENCODE_CTX)] is 56 with 4-byte [unsigned]. *)
Definition EVP_ENCODE_CTX_new `{Allocator} : option EVP_ENCODE_CTX :=
  match OPENSSL_zalloc 56 with
  | None => None
  | Some _ => Some (mk_ctx 0 (replicate 48 0) false false)
  end.

(** One round of the loop writes four characters for up to three bytes. *)
Fixpoint encode_loop (src : list Z) : list Z :=
  match src with
  | [] => []
  | s0 :: s1 :: s2 :: src =>
      let l := (s0 ≪ 16) .| (s1 ≪ 8) .| s2 in
      conv_bin2ascii (u8 (l ≫ 18)) :: conv_bin2ascii (u8 (l ≫ 12)) ::
      conv_bin2ascii (u8 (l ≫ 6)) :: conv_bin2ascii (u8 l) :: encode_loop src
  | [s0; s1] =>
      let l := s0 ≪ 16 in
      let l := l .| (s1 ≪ 8) in
      [conv_bin2ascii (u8 (l ≫ 18)); conv_bin2ascii (u8 (l ≫ 12)); conv_bin2ascii (u8 (l ≫ 6)); 61]
  | [s0] =>
      let l := s0 ≪ 16 in
      [conv_bin2ascii (u8 (l ≫ 18)); conv_bin2ascii (u8 (l ≫ 12)); 61; 61]
  end.

(** What is written at [dst], with the final NUL, and the return value. *)
Definition EVP_EncodeBlock (src : list Z) : list Z * Z :=
  let dst := encode_loop src in (dst ++ [0], zlen dst).

(** The bytes of [in_] in blocks of 48, encoded one line each, and the rest. The
    lines are written one after the other; the length of the input is fuel
    enough. *)
Fixpoint encode_lines (fuel : nat) (out : list Z) (total : Z) (in_ : list Z) : bool * list Z * Z * list Z :=
  match fuel with
  | O => (true, out, total, in_)
  | S fuel =>
      if zlen in_ >=? sizeof_data then
        let '(block, encoded) := EVP_EncodeBlock (ztake sizeof_data in_) in
        let in_ := zdrop sizeof_data in_ in
        let out := out ++ ztake encoded block ++ [10] in
        if u64 (total + encoded + 1) <? total then (false, out, total, in_)
        else encode_lines fuel out (u64 (total + encoded + 1)) in_
      else (true, out, total, in_)
  end.

(** The context, the bytes written in front of the final NUL, and [*out_len]. *)
Definition EVP_EncodeUpdate (ctx : EVP_ENCODE_CTX) (in_ : list Z) : EVP_ENCODE_CTX * list Z * Z :=
  let total := 0 in
  if zlen in_ =? 0 then (ctx, [], 0)
  else if sizeof_data - data_used ctx >? zlen in_ then
    (mk_ctx (data_used ctx + zlen in_) (store (data ctx) (data_used ctx) in_) (eof_seen ctx)
       (error_encountered ctx), [], 0)
  else
    let '(ctx, in_, out, total) :=
      if negb (data_used ctx =? 0) then
        let todo := sizeof_data - data_used ctx in
        let d := store (data ctx) (data_used ctx) (ztake todo in_) in
        let in_ := zdrop todo in_ in
        let '(block, encoded) := EVP_EncodeBlock d in
        (mk_ctx 0 d (eof_seen ctx) (error_encountered ctx), in_, ztake encoded block ++ [10], encoded + 1)
      else (ctx, in_, [], total) in
    let '(ok, out, total, in_) := encode_lines (length in_) out total in_ in
    if negb ok then (ctx, out, 0)
    else
      let d := if negb (zlen in_ =? 0) then store (data ctx) 0 in_ else data ctx in
      let total := if total >? INT_MAX then 0 else total in
      (mk_ctx (zlen in_) d (eof_seen ctx) (error_encountered ctx), out, total).

Definition EVP_EncodeFinal (ctx : EVP_ENCODE_CTX) : EVP_ENCODE_CTX * list Z * Z :=
  if data_used ctx =? 0 then (ctx, [], 0)
  else
    let '(block, encoded) := EVP_EncodeBlock (ztake (data_used ctx) (data ctx)) in
    let out := ztake encoded block ++ [10] in
    (mk_ctx 0 (data ctx) (eof_seen ctx) (error_encountered ctx), out, encoded + 1).

(** ** Decoding *)

Definition EVP_DecodedLength (len : Z) : option Z :=
  if negb (len mod 4 =? 0) then None else Some (len / 4 * 3).

Definition EVP_DecodeInit : EVP_ENCODE_CTX := mk_ctx 0 (replicate 48 0) false false.

Definition base64_ascii_to_bin (a : Z) : Z :=
  let is_upper := constant_time_in_range_8 a 65 90 in
  let is_lower := constant_time_in_range_8 a 97 122 in
  let is_digit := constant_time_in_range_8 a 48 57 in
  let is_plus := constant_time_eq_8 a 43 in
  let is_slash := constant_time_eq_8 a 47 in
  let is_equals := constant_time_eq_8 a 61 in
  let ret := 0 in
  let ret := u8 (ret .| (is_upper .& (a - 65))) in
  let ret := u8 (ret .| (is_lower .& (a - 97 + 26))) in
  let ret := u8 (ret .| (is_digit .& (a - 48 + 52))) in
  let ret := u8 (ret .| (is_plus .& 62)) in
  let ret := u8 (ret .| (is_slash .& 63)) in
  let is_valid := is_upper .| is_lower .| is_digit .| is_plus .| is_slash .| is_equals in
  u8 (ret .| Z.lnot is_valid).

(** The bytes written, [*out_num_bytes] of them. *)
Definition base64_decode_quad (i0 i1 i2 i3 : Z) : option (list Z) :=
  let a := base64_ascii_to_bin i0 in
  let b := base64_ascii_to_bin i1 in
  let c := base64_ascii_to_bin i2 in
  let d := base64_ascii_to_bin i3 in
  if (a =? 0xff) || (b =? 0xff) || (c =? 0xff) || (d =? 0xff) then None
  else
    let v := (a ≪ 18) .| (b ≪ 12) .| (c ≪ 6) .| d in
    let bit (x : bool) := if x then 1 else 0 in
    let padding_pattern := (bit (i0 =? 61) ≪ 3) .| (bit (i1 =? 61) ≪ 2) .| (bit (i2 =? 61) ≪ 1) .| bit (i3 =? 61) in
    if padding_pattern =? 0 then Some [u8 (v ≫ 16); u8 (v ≫ 8); u8 v]
    else if padding_pattern =? 1 then Some [u8 (v ≫ 16); u8 (v ≫ 8)]
    else if padding_pattern =? 3 then Some [u8 (v ≫ 16)]
    else None.

Definition is_space (c : Z) : bool := (c =? 32) || (c =? 9) || (c =? 13) || (c =? 10).

(** The loop over the input; [false] is a return of -1. *)
Fixpoint decode_update_loop (ctx : EVP_ENCODE_CTX) (out : list Z) (in_ : list Z) : bool * EVP_ENCODE_CTX * list Z :=
  match in_ with
  | [] => (true, ctx, out)
  | c :: in_ =>
      if is_space c then decode_update_loop ctx out in_
      else if eof_seen ctx then (false, mk_ctx (data_used ctx) (data ctx) true true, out)
      else
        let d := zupd (data ctx) (data_used ctx) c in
        let used := data_used ctx + 1 in
        if used =? 4 then
          match base64_decode_quad (znth 0 d 0) (znth 0 d 1) (znth 0 d 2) (znth 0 d 3) with
          | None => (false, mk_ctx used d (eof_seen ctx) true, out)
          | Some bytes =>
              decode_update_loop
                (mk_ctx 0 d (if zlen bytes <? 3 then true else eof_seen ctx) (error_encountered ctx))
                (out ++ bytes) in_
          end
        else decode_update_loop (mk_ctx used d (eof_seen ctx) (error_encountered ctx)) out in_
  end.

(** The return value, the context, the bytes written and [*out_len]. *)
Definition EVP_DecodeUpdate (ctx : EVP_ENCODE_CTX) (in_ : list Z) : Z * EVP_ENCODE_CTX * list Z * Z :=
  if error_encountered ctx then (-1, ctx, [], 0)
  else
    match decode_update_loop ctx [] in_ with
    | (false, ctx, out) => (-1, ctx, out, 0)
    | (true, ctx, out) =>
        let bytes_out := zlen out in
        if bytes_out >? INT_MAX then
          (-1, mk_ctx (data_used ctx) (data ctx) (eof_seen ctx) true, out, 0)
        else (if eof_seen ctx then 0 else 1, ctx, out, bytes_out)
    end.

Definition EVP_DecodeFinal (ctx : EVP_ENCODE_CTX) : Z :=
  if error_encountered ctx || negb (data_used ctx =? 0) then -1 else 1.

(** The loop over the quads. *)
Fixpoint decode_base64_loop (out : list Z) (in_ : list Z) : option (list Z) :=
  match in_ with
  | i0 :: i1 :: i2 :: i3 :: rest =>
      match base64_decode_quad i0 i1 i2 i3 with
      | None => None
      | Some bytes =>
          let out := out ++ bytes in
          if negb (zlen bytes =? 3) && negb (match rest with [] => true | _ => false end) then None
          else decode_base64_loop out rest
      end
  | _ => Some out
  end.

(** The bytes written, [*out_len] of them. *)
Definition EVP_DecodeBase64 (max_out : Z) (in_ : list Z) : option (list Z) :=
  if negb (zlen in_ mod 4 =? 0) then None
  else match EVP_DecodedLength (zlen in_) with
       | None => None
       | Some max_len => if max_out <? max_len then None else decode_base64_loop [] in_
       end.

Fixpoint trim_left (src : list Z) : list Z :=
  match src with
  | c :: rest => if negb (c =? 32) && negb (c =? 9) then src else trim_left rest
  | [] => []
  end.

(** From the end: the argument is the reversed string. *)
Fixpoint trim_right (rsrc : list Z) : list Z :=
  match rsrc with
  | c :: rest => if is_space c then trim_right rest else rsrc
  | [] => []
  end.

(** NULs up to a multiple of three. *)
Definition pad_nul (dst : list Z) : list Z :=
  if zlen dst mod 3 =? 0 then dst
  else if zlen dst mod 3 =? 1 then dst ++ [0; 0] else dst ++ [0].

(** The bytes written at [dst]; their number is the return value, [None] is -1. *)
Definition EVP_DecodeBlock (src : list Z) : option (list Z) :=
  let src := trim_left src in
  let src := rev (trim_right (rev src)) in
  match EVP_DecodedLength (zlen src) with
  | None => None
  | Some dst_len =>
      if dst_len >? INT_MAX then None
      else match EVP_DecodeBase64 dst_len src with
           | None => None
           | Some dst => Some (pad_nul dst)
           end
  end.
