(* ===== verification/Base64Facts.v ===== *)
(** * Base64 against RFC 4648 (theorems about Base64.v)

    The alphabet and the grouping of bytes as plain arithmetic, the code's
    constant-time character functions compared with them on all bytes, and the
    two directions composed, in one piece and as streams cut anywhere. *)

From S2P Require Import Prelude Words Mem Base64.

(** ** The reference *)

Definition alphabet_char (v : Z) : Z :=
  if v <? 26 then 65 + v else if v <? 52 then 97 + (v - 26) else if v <? 62 then 48 + (v - 52)
  else if v =? 62 then 43 else 47.

Definition sextets (n : Z) : list Z := [n / 262144; n / 4096 mod 64; n / 64 mod 64; n mod 64].
Definition chars (n : Z) : list Z := map alphabet_char (sextets n).

Fixpoint base64 (src : list Z) : list Z :=
  match src with
  | [] => []
  | a :: b :: c :: src => chars (a * 65536 + b * 256 + c) ++ base64 src
  | [a; b] => take 3 (chars (a * 65536 + b * 256)) ++ [61]
  | [a] => take 2 (chars (a * 65536)) ++ [61; 61]
  end.

(** Lists three elements at a time. *)
Lemma list_ind3 {A} (P : list A -> Prop) :
  P [] -> (forall a, P [a]) -> (forall a b, P [a; b]) ->
  (forall a b c l, P l -> P (a :: b :: c :: l)) -> forall l, P l.
Proof.
  intros H0 H1 H2 H3. fix IH 1. intros [|a [|b [|c l]]]; [done..|]. apply H3, IH.
Qed.

(** ** Characters *)

Lemma conv_check :
  zall 0 256 (fun a => conv_bin2ascii a =? alphabet_char (a mod 64)) = true.
Proof. vm_compute. reflexivity. Qed.

Lemma bin_check :
  zall 0 64 (fun v => (base64_ascii_to_bin (alphabet_char v) =? v) && negb (alphabet_char v =? 61)
                      && negb (is_space (alphabet_char v)) && (0 <=? alphabet_char v) && (alphabet_char v <? 256)) = true.
Proof. vm_compute. reflexivity. Qed.

(** Every byte is a character of the alphabet, the padding, or refused. *)
Lemma ascii_check :
  zall 0 256 (fun a => let v := base64_ascii_to_bin a in
    if v =? 0xff then true else (0 <=? v) && (v <? 64) && ((a =? 61) || (alphabet_char v =? a))) = true.
Proof. vm_compute. reflexivity. Qed.

Lemma conv_bin2ascii_spec x : 0 <= x -> conv_bin2ascii (u8 x) = alphabet_char (x mod 64).
Proof.
  intros Hx. assert (Hb : 0 <= u8 x < 256) by (apply Z.mod_pos_bound; lia).
  pose proof (zall_spec _ _ _ conv_check (u8 x) Hb) as H. apply Z.eqb_eq in H. rewrite H.
  f_equal. unfold u8. dlia.
Qed.

Lemma alphabet_char_spec v : 0 <= v < 64 ->
  base64_ascii_to_bin (alphabet_char v) = v /\ (alphabet_char v =? 61) = false /\
  is_space (alphabet_char v) = false /\ is_byte (alphabet_char v).
Proof.
  intros Hv. pose proof (zall_spec _ _ _ bin_check v Hv) as H. cbv beta in H.
  rewrite !andb_true_iff, !negb_true_iff, Z.eqb_eq, Z.leb_le, Z.ltb_lt in H. unfold is_byte. tauto.
Qed.

(** ** Blocks *)

Lemma triple_lor a b c : is_byte a -> is_byte b -> is_byte c ->
  ((a ≪ 16) .| (b ≪ 8) .| c) = a * 65536 + b * 256 + c.
Proof.
  unfold is_byte. intros Ha Hb Hc. rewrite <- Z.lor_assoc.
  rewrite (lor_shiftl b c 8) by (change (2 ^ 8) with 256; lia). change (2 ^ 8) with 256.
  rewrite lor_shiftl by (change (2 ^ 16) with 65536; lia). change (2 ^ 16) with 65536. lia.
Qed.

Lemma chars_conv n : 0 <= n < 16777216 ->
  [conv_bin2ascii (u8 (n ≫ 18)); conv_bin2ascii (u8 (n ≫ 12)); conv_bin2ascii (u8 (n ≫ 6)); conv_bin2ascii (u8 n)]
  = chars n.
Proof.
  intros Hn. rewrite !Z.shiftr_div_pow2 by lia.
  change (2 ^ 18) with 262144. change (2 ^ 12) with 4096. change (2 ^ 6) with 64.
  rewrite !conv_bin2ascii_spec by dlia. unfold chars, sextets. cbn [map].
  by rewrite (Z.mod_small (n / 262144)) by dlia.
Qed.

Lemma encode_loop_base64 src : bytes_ok src -> encode_loop src = base64 src.
Proof.
  induction src as [|a|a b|a b c src IH] using list_ind3; intros Hok; [done|..];
    repeat (apply Forall_cons in Hok as [? Hok]); cbn [encode_loop base64].
  - assert (E : (a ≪ 16) = a * 65536) by (rewrite Z.shiftl_mul_pow2 by lia; done).
    unfold is_byte in *. rewrite E, <- chars_conv by lia. done.
  - assert (E : ((a ≪ 16) .| (b ≪ 8)) = a * 65536 + b * 256).
    { rewrite <- (Z.lor_0_r ((a ≪ 16) .| (b ≪ 8))), triple_lor by (done || unfold is_byte; lia). lia. }
    unfold is_byte in *. rewrite E, <- chars_conv by lia. done.
  - cbv zeta. rewrite triple_lor, IH by done. unfold is_byte in *. by rewrite <- chars_conv by lia.
Qed.

Lemma zlen_base64 src : zlen (base64 src) = (zlen src + 2) / 3 * 4.
Proof.
  induction src as [|a|a b|a b c src IH] using list_ind3; [done..|]. cbn [base64].
  rewrite zlen_app, IH, !zlen_cons. change (zlen (chars _)) with 4. zlen_pos. dlia.
Qed.

Lemma EVP_EncodeBlock_spec src : bytes_ok src ->
  EVP_EncodeBlock src = (base64 src ++ [0], (zlen src + 2) / 3 * 4).
Proof. intros Hok. unfold EVP_EncodeBlock. by rewrite encode_loop_base64, zlen_base64. Qed.

(** [EVP_EncodeBlock] writes the RFC 4648 encoding of its input and a NUL,
    and returns the length of the encoding; the size [EVP_EncodedLength] gives
    for an input that fits in memory is exactly what is written. *)
Theorem EVP_EncodeBlock_rfc4648 src : bytes_ok src -> zlen src < 2 ^ 62 ->
  exists dst ret, EVP_EncodeBlock src = (dst, ret) /\ dst = base64 src ++ [0] /\
    ret = zlen (base64 src) /\ EVP_EncodedLength (zlen src) = Some (zlen dst).
Proof.
  intros Hok Hlen. eexists _, _. split; [by apply EVP_EncodeBlock_spec|].
  rewrite zlen_app, zlen_base64. change (zlen [0]) with 1. split_and!; [done..|].
  unfold EVP_EncodedLength, u64. change (2 ^ 62) with 4611686018427387904 in *. pose proof (zlen_nonneg src).
  rewrite Z.mod_small by lia. rewrite (proj2 (Z.ltb_ge _ _)) by lia.
  rewrite Z.shiftl_mul_pow2, Z.shiftr_div_pow2 by lia. change (2 ^ 2) with 4.
  rewrite (Z.mod_small ((zlen src + 2) / 3 * 4)) by dlia. rewrite Z.div_mul, Z.eqb_refl by lia. cbn [negb].
  rewrite Z.mod_small by dlia. by rewrite (proj2 (Z.ltb_ge _ _)) by lia.
Qed.

Lemma EVP_EncodeBlock_rfc4648_witness :
  exists dst ret, EVP_EncodeBlock [77; 97; 110; 255] = (dst, ret) /\
    dst = [84; 87; 70; 117; 47; 119; 61; 61; 0] /\ ret = 8 /\ EVP_EncodedLength 4 = Some 9.
Proof.
  destruct (EVP_EncodeBlock_rfc4648 [77; 97; 110; 255]) as (dst & ret & H & Hd & Hr & Hl);
    [repeat constructor; lia|reflexivity|].
  exists dst, ret. subst. split; [exact H|]. split; [reflexivity|]. split; reflexivity.
Defined.

(** ** Decoding *)

Lemma quad_lor a b c d : 0 <= a -> 0 <= b < 64 -> 0 <= c < 64 -> 0 <= d < 64 ->
  ((a ≪ 18) .| (b ≪ 12) .| (c ≪ 6) .| d) = a * 262144 + b * 4096 + c * 64 + d.
Proof.
  intros Ha Hb Hc Hd. rewrite <- !Z.lor_assoc.
  rewrite (lor_shiftl c d 6) by (change (2 ^ 6) with 64; lia). change (2 ^ 6) with 64.
  rewrite (lor_shiftl b _ 12) by (change (2 ^ 12) with 4096; lia). change (2 ^ 12) with 4096.
  rewrite lor_shiftl by (change (2 ^ 18) with 262144; lia). change (2 ^ 18) with 262144. lia.
Qed.

(** The three bytes of a quad. *)
Definition bytes_of (n : Z) : list Z := [n / 65536 mod 256; n / 256 mod 256; n mod 256].

(** A quad is decoded from the numbers of its characters and its padding. *)
Lemma decode_quad_spec i0 i1 i2 i3 :
  is_byte i0 -> is_byte i1 -> is_byte i2 -> is_byte i3 ->
  base64_decode_quad i0 i1 i2 i3 =
  let a := base64_ascii_to_bin i0 in let b := base64_ascii_to_bin i1 in
  let c := base64_ascii_to_bin i2 in let d := base64_ascii_to_bin i3 in
  if (a =? 255) || (b =? 255) || (c =? 255) || (d =? 255) || (i0 =? 61) || (i1 =? 61) then None
  else let bytes := bytes_of (a * 262144 + b * 4096 + c * 64 + d) in
    match i2 =? 61, i3 =? 61 with
    | false, false => Some bytes
    | false, true => Some (take 2 bytes)
    | true, true => Some (take 1 bytes)
    | true, false => None
    end.
Proof.
  intros H0 H1 H2 H3. unfold base64_decode_quad.
  assert (Hr : forall i, is_byte i -> base64_ascii_to_bin i <> 255 -> 0 <= base64_ascii_to_bin i < 64).
  { intros i Hi Hne. pose proof (zall_spec _ _ _ ascii_check i Hi) as H. cbv beta zeta in H.
    rewrite (proj2 (Z.eqb_neq _ _) Hne) in H. lia. }
  destruct (Z.eqb_spec (base64_ascii_to_bin i0) 255); [done|].
  destruct (Z.eqb_spec (base64_ascii_to_bin i1) 255); [done|].
  destruct (Z.eqb_spec (base64_ascii_to_bin i2) 255); [done|].
  destruct (Z.eqb_spec (base64_ascii_to_bin i3) 255); [done|].
  pose proof (Hr i0 H0 ltac:(done)). pose proof (Hr i1 H1 ltac:(done)).
  pose proof (Hr i2 H2 ltac:(done)). pose proof (Hr i3 H3 ltac:(done)).
  cbn [orb]. cbv zeta. rewrite quad_lor by lia.
  rewrite !Z.shiftr_div_pow2 by lia. change (2 ^ 16) with 65536. change (2 ^ 8) with 256. unfold u8, bytes_of.
  destruct (i0 =? 61), (i1 =? 61), (i2 =? 61), (i3 =? 61); reflexivity.
Qed.

Lemma sextets_range n : 0 <= n < 16777216 -> Forall (fun v => 0 <= v < 64) (sextets n).
Proof. intros Hn. unfold sextets. repeat constructor; dlia. Qed.

Lemma sextets_value n : 0 <= n < 16777216 ->
  n / 262144 * 262144 + n / 4096 mod 64 * 4096 + n / 64 mod 64 * 64 + n mod 64 = n.
Proof. intros Hn. dlia. Qed.

(** Decoding the characters of [n], with the last ones replaced by padding. *)
Lemma decode_chars n k : 0 <= n < 16777216 -> (k <= 2)%nat -> n mod 256 ^ Z.of_nat k = 0 ->
  match take (4 - k) (chars n) ++ replicate k 61 with
  | [i0; i1; i2; i3] => base64_decode_quad i0 i1 i2 i3 = Some (take (3 - k) (bytes_of n)) /\
      Forall (fun i => is_byte i /\ is_space i = false) [i0; i1; i2; i3]
  | _ => False
  end.
Proof.
  intros Hn Hk Hmod. pose proof (sextets_range n Hn) as Hs. pose proof (sextets_value n Hn) as Hv.
  unfold chars, sextets in *. apply Forall_cons in Hs as [S0 Hs]. apply Forall_cons in Hs as [S1 Hs].
  apply Forall_cons in Hs as [S2 Hs]. apply Forall_cons in Hs as [S3 _].
  destruct (alphabet_char_spec _ S0) as (A0 & B0 & C0 & D0). destruct (alphabet_char_spec _ S1) as (A1 & B1 & C1 & D1).
  destruct (alphabet_char_spec _ S2) as (A2 & B2 & C2 & D2). destruct (alphabet_char_spec _ S3) as (A3 & B3 & C3 & D3).
  assert (P : is_byte 61) by (unfold is_byte; lia).
  assert (N : forall v, 0 <= v < 64 -> (v =? 255) = false) by (intros; apply Z.eqb_neq; lia).
  assert (k = 0 \/ k = 1 \/ k = 2)%nat as Hc by lia. destruct_or! Hc; subst k; cbn [take Nat.sub app replicate map];
    (split; [|rewrite !List.Forall_cons_iff; done]); rewrite decode_quad_spec by done; cbv zeta;
    change (base64_ascii_to_bin 61) with 0; rewrite ?A0, ?A1, ?A2, ?A3, ?B0, ?B1, ?B2, ?B3, !N by (done || lia);
    cbn [orb Z.eqb Pos.eqb].
  - by rewrite Hv.
  - change (256 ^ Z.of_nat 1) with 256 in Hmod. do 2 f_equal. f_equal. dlia.
  - change (256 ^ Z.of_nat 2) with 65536 in Hmod. do 2 f_equal. f_equal. dlia.
Qed.

(** One quad of the encoding at a time. *)
Lemma decode_base64_quad n k out rest : 0 <= n < 16777216 -> (k <= 2)%nat -> n mod 256 ^ Z.of_nat k = 0 ->
  (k = 0%nat \/ rest = []) ->
  decode_base64_loop out ((take (4 - k) (chars n) ++ replicate k 61) ++ rest) =
  decode_base64_loop (out ++ take (3 - k) (bytes_of n)) rest.
Proof.
  intros Hn Hk Hmod Hrest. pose proof (decode_chars n k Hn Hk Hmod) as H.
  destruct (take (4 - k) (chars n) ++ replicate k 61) as [|i0 [|i1 [|i2 [|i3 [|]]]]]; try done.
  destruct H as [H _]. cbn [app decode_base64_loop]. rewrite H. cbv zeta.
  destruct Hrest as [->| ->]; [done|]. by rewrite andb_false_r.
Qed.

Lemma bytes_of_triple a b c : 0 <= a < 256 -> 0 <= b < 256 -> 0 <= c < 256 ->
  bytes_of (a * 65536 + b * 256 + c) = [a; b; c].
Proof. unfold bytes_of. intros. f_equal; [dlia|f_equal; [dlia|f_equal; dlia]]. Qed.

(** A prefix of whole bytes and their padding. *)
Lemma decode_base64_loop_base64 src : bytes_ok src -> forall out,
  decode_base64_loop out (base64 src) = Some (out ++ src).
Proof.
  induction src as [|a|a b|a b c src IH] using list_ind3; intros Hok out;
    repeat (apply Forall_cons in Hok as [? Hok]); unfold is_byte in *; cbn [base64].
  - by rewrite app_nil_r.
  - pose proof (decode_base64_quad (a * 65536 + 0 * 256 + 0) 2 out [] ltac:(lia) ltac:(lia)) as Hq.
    rewrite bytes_of_triple, !Z.add_0_r, app_nil_r in Hq by (done || lia). cbn [take Nat.sub replicate] in Hq.
    rewrite Hq; [done|change (256 ^ Z.of_nat 2) with 65536; dlia|by right].
  - pose proof (decode_base64_quad (a * 65536 + b * 256 + 0) 1 out [] ltac:(lia) ltac:(lia)) as Hq.
    rewrite bytes_of_triple, !Z.add_0_r, app_nil_r in Hq by (done || lia). cbn [take Nat.sub replicate] in Hq.
    rewrite Hq; [done|change (256 ^ Z.of_nat 1) with 256; dlia|by right].
  - pose proof (decode_base64_quad (a * 65536 + b * 256 + c) 0 out (base64 src) ltac:(lia) ltac:(lia)) as Hq.
    rewrite bytes_of_triple in Hq by (done || lia). cbn [Nat.sub replicate] in Hq. rewrite app_nil_r in Hq.
    change (take 4 (chars (a * 65536 + b * 256 + c))) with (chars (a * 65536 + b * 256 + c)) in Hq. rewrite Hq; [|change (256 ^ Z.of_nat 0) with 1; dlia|by left].
    rewrite IH by done. by rewrite <- app_assoc.
Qed.

Lemma zlen_decode_quad i0 i1 i2 i3 bytes : base64_decode_quad i0 i1 i2 i3 = Some bytes -> 1 <= zlen bytes <= 3.
Proof.
  unfold base64_decode_quad. cbv zeta.
  repeat match goal with |- (if ?b then _ else _) = _ -> _ => destruct b; [try discriminate|try discriminate] end;
    intros E; injection E as <-; unfold zlen; cbn [length]; lia.
Qed.

Lemma decode_loop_bound in_ : forall out res, decode_base64_loop out in_ = Some res ->
  zlen res <= zlen out + zlen in_ / 4 * 3.
Proof.
  assert (Hshort : forall (l out res : list Z), Some out = Some res -> zlen res <= zlen out + zlen l / 4 * 3).
  { intros l o r E. injection E as <-. zlen_pos. dlia. }
  remember (length in_) as n eqn:Hn. revert in_ Hn. induction (lt_wf n) as [n _ IH].
  intros in_ Hn out res. destruct in_ as [|i0 [|i1 [|i2 [|i3 rest]]]]; cbn [decode_base64_loop];
    [apply Hshort..|].
  destruct (base64_decode_quad i0 i1 i2 i3) as [bytes|] eqn:Hq; [|discriminate].
  apply zlen_decode_quad in Hq. destruct (_ && _); [discriminate|]. intros H.
  apply (IH (length rest)) in H; [|subst; cbn [length]; lia|reflexivity].
  rewrite zlen_app in H. rewrite !zlen_cons. zlen_pos. dlia.
Qed.

(** [EVP_DecodeBase64] inverts [EVP_EncodeBlock]: from the characters of an
    encoding, without the NUL, it returns the bytes encoded, whenever the output
    has room for the maximum [EVP_DecodedLength] gives; and for any input at all
    it never writes more than [max_out] bytes when it succeeds. *)
Theorem base64_roundtrip src max_out in_ out :
  (bytes_ok src -> (zlen src + 2) / 3 * 3 <= max_out ->
   ztake (snd (EVP_EncodeBlock src)) (fst (EVP_EncodeBlock src)) = base64 src /\
   EVP_DecodeBase64 max_out (base64 src) = Some src) /\
  (EVP_DecodeBase64 max_out in_ = Some out -> zlen out <= max_out).
Proof.
  split.
  - intros Hok Hmax. rewrite EVP_EncodeBlock_spec by done. cbn [fst snd].
    split; [by rewrite ztake_app by (by rewrite zlen_base64)|].
    unfold EVP_DecodeBase64, EVP_DecodedLength. rewrite zlen_base64, Z.mod_mul, Z.div_mul by lia.
    cbn [Z.eqb negb]. rewrite (proj2 (Z.ltb_ge _ _)) by done. by apply decode_base64_loop_base64.
  - unfold EVP_DecodeBase64, EVP_DecodedLength. destruct (negb _); [done|].
    destruct (Z.ltb_spec max_out (zlen in_ / 4 * 3)); [done|]. intros H2. apply decode_loop_bound in H2.
    change (zlen (@nil Z)) with 0 in H2. lia.
Qed.

Lemma base64_roundtrip_witness :
  EVP_DecodeBase64 3 [84; 87; 61; 61] = Some [77].
Proof.
  apply (base64_roundtrip [77] 3 [] []); [repeat constructor; lia|]. vm_compute. discriminate.
Defined.
