(* ===== verification/Base64Stream.v ===== *)
(** * Base64 streams (theorems about the EVP_ENCODE_CTX functions of Base64.v)

    A stream is a sequence of updates and a final call. Encoding gives the lines
    of 64 characters of the encoding of everything passed in, and decoding
    inverts it, whatever the sizes of the pieces. *)

From S2P Require Import Prelude Mem Base64 Base64Facts.

(** ** Encoding a stream *)

(** A text of full lines and the bytes that are left. *)
Inductive lines : list Z -> list Z -> list Z -> Prop :=
  | lines_rest s : zlen s < 48 -> lines s [] s
  | lines_line l s o r : zlen l = 48 -> lines s o r -> lines (l ++ s) (base64 l ++ [10] ++ o) r.

(** The context holds the bytes that wait for a full line. *)
Definition waits (ctx : EVP_ENCODE_CTX) (b : list Z) : Prop :=
  data_used ctx = zlen b /\ zlen b < 48 /\ zlen (data ctx) = 48 /\ exists u, data ctx = b ++ u.

Lemma lines_app a o1 r1 : lines a o1 r1 -> forall b o2 r2, lines (r1 ++ b) o2 r2 -> lines (a ++ b) (o1 ++ o2) r2.
Proof.
  induction 1 as [s Hs|l s o r Hl _ IH]; intros b o2 r2 H2; [done|].
  rewrite <- !app_assoc. apply lines_line; [done|]. by apply IH.
Qed.

Lemma lines_length a o r : lines a o r -> zlen o = 65 * (zlen a / 48) /\ zlen r = zlen a mod 48.
Proof.
  induction 1 as [s Hs|l s o r Hl _ [IH1 IH2]].
  - zlen_pos. change (zlen (@nil Z)) with 0. split; dlia.
  - rewrite !zlen_app, zlen_base64, Hl. change (zlen [10]) with 1. change ((48 + 2) / 3 * 4) with 64. zlen_pos.
    split; dlia.
Qed.

Lemma encode_lines_spec fuel : forall out total in_, (length in_ <= fuel)%nat -> bytes_ok in_ ->
  0 <= total -> total + 2 * zlen in_ < 2 ^ 64 ->
  exists o r, encode_lines fuel out total in_ = (true, out ++ o, total + zlen o, r) /\ lines in_ o r.
Proof.
  induction fuel as [|fuel IH]; intros out total in_ Hf Hok Ht Hlen; cbn [encode_lines].
  - destruct in_; [|cbn in Hf; lia]. exists [], []. rewrite app_nil_r, Z.add_0_r. split; [done|by constructor].
  - unfold sizeof_data. rewrite Z.geb_leb. destruct (Z.leb_spec 48 (zlen in_)) as [Hge|Hlt].
    + destruct (zsplit 48 in_) as (l & s & -> & Hl); [lia|]. apply Forall_app in Hok as [Hl' Hs].
      rewrite ztake_app, zdrop_app, EVP_EncodeBlock_spec, Hl by done.
      change ((48 + 2) / 3 * 4) with 64. rewrite ztake_app by (by rewrite zlen_base64, Hl).
      rewrite zlen_app in Hlen. change (2 ^ 64) with 18446744073709551616 in *. zlen_pos.
      unfold u64. rewrite Z.mod_small by lia. rewrite (proj2 (Z.ltb_ge _ _)) by lia.
      destruct (IH (out ++ base64 l ++ [10]) (total + 64 + 1) s) as (o & r & -> & Hr);
        [rewrite length_app in Hf; unfold zlen in Hl; lia|done|lia|lia|].
      exists (base64 l ++ [10] ++ o), r. split; [|by apply lines_line].
      rewrite !zlen_app, zlen_base64, Hl. change (zlen [10]) with 1. change ((48 + 2) / 3 * 4) with 64.
      rewrite <- !app_assoc. replace (total + (64 + (1 + zlen o))) with (total + 64 + 1 + zlen o) by lia. reflexivity.
    + exists [], in_. rewrite app_nil_r, Z.add_0_r. split; [done|by constructor].
Qed.

Lemma store_waits ctx b in_ : waits ctx b -> zlen b + zlen in_ <= 48 ->
  exists u, store (data ctx) (zlen b) in_ = b ++ in_ ++ u /\ zlen u = 48 - zlen b - zlen in_.
Proof.
  intros (_ & _ & Hd & u & Hu) Hle. rewrite Hu, zlen_app in Hd.
  destruct (zsplit (zlen in_) u) as (x & y & -> & Hx); [zlen_pos; lia|].
  exists y. rewrite zlen_app in Hd. split; [by apply (store_app _ _ _ b x y)|lia].
Qed.

Lemma EVP_EncodeUpdate_spec ctx b in_ : waits ctx b -> bytes_ok b -> bytes_ok in_ -> zlen in_ < 2 ^ 62 ->
  let '(ctx', out, n) := EVP_EncodeUpdate ctx in_ in
  exists r, lines (b ++ in_) out r /\ waits ctx' r /\ (zlen out <= INT_MAX -> n = zlen out).
Proof.
  intros Hw Hb Hin Hlen. change (2 ^ 62) with 4611686018427387904 in Hlen.
  pose proof Hw as (Hu & Hlt & Hd & u & Hdu). unfold EVP_EncodeUpdate, sizeof_data. rewrite Hu, Z.gtb_ltb.
  zlen_pos. destruct (Z.eqb_spec (zlen in_) 0) as [E|E].
  { apply zlen_0_nil in E as ->. exists b. rewrite app_nil_r. split; [by constructor|]. done. }
  destruct (Z.ltb_spec (zlen in_) (48 - zlen b)) as [Hs|Hge].
  { destruct (store_waits ctx b in_ Hw ltac:(lia)) as (y & Hst & Hy). exists (b ++ in_).
    split; [constructor; rewrite zlen_app; lia|]. split; [|done].
    unfold waits. cbn [data_used data]. rewrite Hst, !zlen_app.
    split_and!; [done|lia|lia|]. exists y. by rewrite <- app_assoc. }
  (* the waiting bytes are completed to a line, if there are any *)
  set (st := if negb (zlen b =? 0) then _ else _).
  assert (Hst : exists d o1 r1, st = (mk_ctx (if zlen b =? 0 then data_used ctx else 0) d (eof_seen ctx) (error_encountered ctx), r1, o1, zlen o1)
    /\ zlen d = 48 /\ (forall o r, lines r1 o r -> lines (b ++ in_) (o1 ++ o) r)
    /\ bytes_ok r1 /\ zlen r1 <= zlen in_ /\ zlen o1 <= 65).
  { unfold st. destruct (Z.eqb_spec (zlen b) 0) as [Eb|Eb]; cbn [negb].
    - apply zlen_0_nil in Eb as ->. exists (data ctx), [], in_. split_and!; try done.
      by destruct ctx.
    - destruct (zsplit (48 - zlen b) in_) as (x & y & -> & Hx); [lia|].
      rewrite ztake_app, zdrop_app by done.
      destruct (store_waits ctx b x Hw ltac:(lia)) as (v & Hstore & Hv).
      apply Forall_app in Hin as [Hinx Hiny].
      assert (v = []) as -> by (apply zlen_0_nil; lia). rewrite app_nil_r in Hstore. rewrite Hstore.
      rewrite EVP_EncodeBlock_spec by (apply Forall_app; done).
      rewrite zlen_app. replace (zlen b + zlen x) with 48 by lia. change ((48 + 2) / 3 * 4) with 64.
      rewrite ztake_app by (rewrite zlen_base64, zlen_app; replace (zlen b + zlen x) with 48 by lia; done).
      exists (b ++ x), (base64 (b ++ x) ++ [10]), y.
      assert (Hl : zlen (b ++ x) = 48) by (rewrite zlen_app; lia).
      assert (Ho : zlen (base64 (b ++ x) ++ [10]) = 65) by (rewrite zlen_app, zlen_base64, Hl; done).
      rewrite Ho. split_and!; [done|done| |done|rewrite zlen_app; lia|lia].
      intros o r Hr. rewrite app_assoc, <- (app_assoc (base64 (b ++ x))). by apply lines_line. }
  destruct Hst as (d & o1 & r1 & -> & Hd48 & Hlines & Hr1 & Hr1len & Ho1).
  destruct (encode_lines_spec (length r1) o1 (zlen o1) r1) as (o & r & -> & Hr);
    [done|done|zlen_pos; lia|change (2 ^ 64) with 18446744073709551616; lia|].
  cbn [negb]. rewrite <- zlen_app.
  exists r. split; [by apply Hlines|]. split.
  - pose proof (lines_length _ _ _ Hr) as [_ Hrl].
    assert (Hr48 : zlen r < 48) by dlia.
    unfold waits. cbn [data_used data]. split_and!; [done|done|..].
    + destruct (zlen r =? 0); cbn [negb]; [done|]. rewrite zlen_store; zlen_pos; lia.
    + destruct (Z.eqb_spec (zlen r) 0) as [Er|Er]; cbn [negb]; [apply zlen_0_nil in Er as ->; by exists d|].
      destruct (zsplit (zlen r) d) as (x & y & -> & Hx); [zlen_pos; lia|].
      exists y. by apply (store_app _ _ _ [] x y).
  - intros Hmax. rewrite Z.gtb_ltb. by rewrite (proj2 (Z.ltb_ge _ _)).
Qed.

(** ** Streams of calls *)

(** Everything [EVP_EncodeUpdate] on each piece and [EVP_EncodeFinal] write, and
    the sum of the lengths they return. *)
Fixpoint encode_stream (ctx : EVP_ENCODE_CTX) (pieces : list (list Z)) : list Z * Z :=
  match pieces with
  | [] => let '(_, out, n) := EVP_EncodeFinal ctx in (out, n)
  | piece :: pieces =>
      let '(ctx, out, n) := EVP_EncodeUpdate ctx piece in
      let '(out', n') := encode_stream ctx pieces in (out ++ out', n + n')
  end.

(** A text cut into lines of 64 characters, each with a newline; the length of
    the text is fuel enough. *)
Fixpoint wrap_loop (fuel : nat) (text : list Z) : list Z :=
  match fuel, text with
  | S fuel, _ :: _ => ztake 64 text ++ [10] ++ wrap_loop fuel (zdrop 64 text)
  | _, _ => []
  end.
Definition wrap (text : list Z) : list Z := wrap_loop (length text) text.

Lemma wrap_loop_fuel f text : (length text <= f)%nat -> wrap_loop f text = wrap text.
Proof.
  unfold wrap. remember (length text) as n eqn:Hn. assert (Hle : (length text <= n)%nat) by lia. clear Hn.
  revert text f Hle. induction n as [|n IH]; intros [|c t] f Hle Hf; cbn [length] in Hle; try lia; destruct f as [|f]; try done; try lia.
  cbn [wrap_loop]. f_equal. f_equal.
  assert (Hd : (length (zdrop 64 (c :: t)) <= n)%nat).
  { unfold zdrop. rewrite length_drop. cbn [length]. lia. }
  apply IH; lia.
Qed.

Lemma wrap_line l t : zlen l = 64 -> wrap (l ++ t) = l ++ [10] ++ wrap t.
Proof.
  intros Hl. unfold wrap at 1. destruct l as [|c l]; [done|].
  cbn [app length wrap_loop]. rewrite app_comm_cons, ztake_app, zdrop_app by done.
  by rewrite (wrap_loop_fuel (length (l ++ t)) t) by (rewrite length_app; lia).
Qed.

Lemma wrap_last t : 0 < zlen t <= 64 -> wrap t = t ++ [10].
Proof.
  intros Ht. unfold wrap. destruct t as [|c t]; [unfold zlen in Ht; cbn [length] in Ht; lia|]. cbn [length wrap_loop].
  rewrite ztake_all, zdrop_all by lia. by destruct (length t).
Qed.

Lemma base64_app l s : zlen l mod 3 = 0 -> base64 (l ++ s) = base64 l ++ base64 s.
Proof.
  induction l as [|a|a b|a b c l IH] using list_ind3; intros H; [done..|].
  cbn [base64 app]. rewrite IH, app_assoc; [done|]. rewrite !zlen_cons in H. dlia.
Qed.

Lemma lines_wrap a o r : lines a o r ->
  o ++ (if zlen r =? 0 then [] else base64 r ++ [10]) = wrap (base64 a).
Proof.
  induction 1 as [s Hs|l s o r Hl _ IH].
  - cbn [app]. destruct (Z.eqb_spec (zlen s) 0) as [E|E]; [by apply zlen_0_nil in E as ->|].
    rewrite wrap_last; [done|]. rewrite zlen_base64. zlen_pos. dlia.
  - rewrite base64_app, wrap_line, <- IH by (by rewrite ?zlen_base64, Hl). by rewrite <- !app_assoc.
Qed.

Lemma encode_stream_spec pieces : Forall (fun p => bytes_ok p /\ zlen p < 2 ^ 30) pieces ->
  forall ctx b, waits ctx b -> bytes_ok b ->
  encode_stream ctx pieces = (wrap (base64 (b ++ concat pieces)), zlen (wrap (base64 (b ++ concat pieces)))).
Proof.
  induction 1 as [|p pieces [Hp Hlen] _ IH]; intros ctx b Hw Hb; cbn [encode_stream concat].
  - rewrite app_nil_r. pose proof Hw as (Hu & Hlt & Hd & u & Hdu). unfold EVP_EncodeFinal. rewrite Hu.
    rewrite <- (lines_wrap b [] b) by by constructor. cbn [app].
    destruct (Z.eqb_spec (zlen b) 0) as [E|E]; [done|].
    rewrite Hdu, ztake_app, EVP_EncodeBlock_spec by done.
    by rewrite ztake_app, zlen_app, zlen_base64 by (by rewrite zlen_base64).
  - change (2 ^ 30) with 1073741824 in Hlen.
    pose proof (EVP_EncodeUpdate_spec ctx b p Hw Hb Hp) as H.
    change (2 ^ 62) with 4611686018427387904 in H. specialize (H ltac:(lia)).
    destruct (EVP_EncodeUpdate ctx p) as [[ctx' out] n]. destruct H as (r & Hl & Hw' & Hn).
    assert (Hr : bytes_ok r).
    { assert (Hbp : bytes_ok (b ++ p)) by (by apply Forall_app). clear -Hl Hbp.
      induction Hl as [|l s o r _ _ IH]; [done|]. apply Forall_app in Hbp as [_ Hs]. by apply IH. }
    rewrite (IH ctx' r Hw' Hr), Hn.
    2:{ apply lines_length in Hl as [-> _]. rewrite zlen_app. destruct Hw as (_ & Hw & _). unfold INT_MAX. zlen_pos. dlia. }
    rewrite <- zlen_app. assert (Hc : out ++ wrap (base64 (r ++ concat pieces)) = wrap (base64 (b ++ p ++ concat pieces))).
    { rewrite (app_assoc b). clear -Hl. induction Hl as [s _|l s o r Hl _ IH]; [done|].
      rewrite <- !app_assoc, IH, (base64_app l), wrap_line by (by rewrite ?zlen_base64, Hl). by rewrite <- ?app_assoc. }
    by rewrite Hc.
Qed.

(** Encoding a stream: however the data is cut into pieces of less than 1 GB,
    [EVP_EncodeUpdate] on each piece and [EVP_EncodeFinal] together write the
    base64 encoding of the whole data in lines of 64 characters, each ended by a
    newline, and the lengths they return add up to what is written. *)
Theorem encode_stream_lines pieces : Forall (fun p => bytes_ok p /\ zlen p < 2 ^ 30) pieces ->
  encode_stream EVP_EncodeInit pieces =
    (wrap (base64 (concat pieces)), zlen (wrap (base64 (concat pieces)))).
Proof.
  intros H. apply (encode_stream_spec pieces H EVP_EncodeInit []); [|constructor].
  unfold waits. cbn [data_used data EVP_EncodeInit]. split_and!; [done..|]. by eexists.
Qed.

Lemma encode_stream_lines_witness :
  encode_stream EVP_EncodeInit [[77; 97]; []; [110; 255]] = ([84; 87; 70; 117; 47; 119; 61; 61; 10], 9).
Proof.
  rewrite (encode_stream_lines [[77; 97]; []; [110; 255]]); [reflexivity|].
  repeat constructor; lia.
Defined.

(** ** Decoding a stream *)

Definition nonspace (c : Z) : Prop := is_space c = false.

#[global] Instance nonspace_dec c : Decision (nonspace c).
Proof. unfold nonspace. apply _. Defined.

(** Whitespace is skipped wherever it stands. *)
Lemma decode_loop_filter text : forall ctx out,
  decode_update_loop ctx out text = decode_update_loop ctx out (filter nonspace text).
Proof.
  induction text as [|c text IH]; intros ctx out; [done|]. rewrite filter_cons.
  case_decide as Hc; unfold nonspace in Hc; cbn [decode_update_loop].
  - rewrite Hc. destruct (eof_seen ctx); [done|]. destruct (_ =? 4); [|apply IH].
    destruct (base64_decode_quad _ _ _ _); [apply IH|done].
  - destruct (is_space c); [apply IH|done].
Qed.

Lemma decode_loop_app a b : forall ctx out,
  decode_update_loop ctx out (a ++ b) =
  match decode_update_loop ctx out a with
  | (true, ctx', out') => decode_update_loop ctx' out' b
  | (false, ctx', out') => (false, ctx', out')
  end.
Proof.
  induction a as [|c a IH]; intros ctx out; [done|]. cbn [app decode_update_loop].
  destruct (is_space c); [apply IH|]. destruct (eof_seen ctx); [done|]. destruct (_ =? 4); [|apply IH].
  destruct (base64_decode_quad _ _ _ _); [apply IH|done].
Qed.

(** What is already written does not matter. *)
Lemma decode_loop_out text : forall ctx out,
  decode_update_loop ctx out text =
  let '(ok, ctx', out') := decode_update_loop ctx [] text in (ok, ctx', out ++ out').
Proof.
  induction text as [|c text IH]; intros ctx out; cbn [decode_update_loop]; [by rewrite app_nil_r|].
  destruct (is_space c); [apply IH|]. destruct (eof_seen ctx); [by rewrite app_nil_r|].
  destruct (_ =? 4); [|apply IH]. destruct (base64_decode_quad _ _ _ _) as [bytes|]; [|by rewrite app_nil_r].
  rewrite IH, (IH _ ([] ++ bytes)). destruct (decode_update_loop _ [] text) as [[ok ctx'] out'].
  by rewrite <- app_assoc.
Qed.

(** A context with nothing waiting and no padding seen. *)
Definition fresh (ctx : EVP_ENCODE_CTX) : Prop :=
  data_used ctx = 0 /\ zlen (data ctx) = 48 /\ eof_seen ctx = false.

(** Four characters are one quad. *)
Lemma decode_loop_four ctx out i0 i1 i2 i3 rest :
  fresh ctx -> Forall (fun i => is_byte i /\ is_space i = false) [i0; i1; i2; i3] ->
  exists d, zlen d = 48 /\ decode_update_loop ctx out (i0 :: i1 :: i2 :: i3 :: rest) =
  match base64_decode_quad i0 i1 i2 i3 with
  | None => (false, mk_ctx 4 d false true, out)
  | Some bytes => decode_update_loop (mk_ctx 0 d (if zlen bytes <? 3 then true else false) (error_encountered ctx))
                    (out ++ bytes) rest
  end.
Proof.
  intros (Hu & Hd & He) Hc. rewrite !List.Forall_cons_iff in Hc. destruct Hc as ([_ S0] & [_ S1] & [_ S2] & [_ S3] & _).
  destruct ctx as [used d eof err]. cbn [data_used data eof_seen error_encountered] in *. subst used eof.
  destruct d as [|d0 [|d1 [|d2 [|d3 d]]]]; try (unfold zlen in Hd; cbn [length] in Hd; lia).
  exists (i0 :: i1 :: i2 :: i3 :: d). split; [rewrite !zlen_cons in *; lia|].
  cbn [decode_update_loop eof_seen data_used data error_encountered]. rewrite S0, S1, S2, S3. reflexivity.
Qed.

(** The characters of an encoding, from a context between two quads. *)
Lemma decode_loop_base64 src : bytes_ok src -> forall ctx out, fresh ctx -> error_encountered ctx = false ->
  exists ctx', decode_update_loop ctx out (base64 src) = (true, ctx', out ++ src) /\
    data_used ctx' = 0 /\ error_encountered ctx' = false.
Proof.
  assert (Hstep : forall n k ctx out rest, 0 <= n < 16777216 -> (k <= 2)%nat -> n mod 256 ^ Z.of_nat k = 0 ->
    fresh ctx -> exists d, zlen d = 48 /\
      decode_update_loop ctx out ((take (4 - k) (chars n) ++ replicate k 61) ++ rest) =
      decode_update_loop (mk_ctx 0 d (negb (k =? 0)%nat) (error_encountered ctx)) (out ++ take (3 - k) (bytes_of n)) rest).
  { intros n k ctx out rest Hn Hk Hmod Hf. pose proof (decode_chars n k Hn Hk Hmod) as H.
    destruct (take (4 - k) (chars n) ++ replicate k 61) as [|i0 [|i1 [|i2 [|i3 [|]]]]]; try done.
    destruct H as [H Hc]. destruct (decode_loop_four ctx out i0 i1 i2 i3 rest Hf Hc) as (d & Hd & E).
    exists d. split; [done|]. cbn [app]. rewrite E, H.
    assert (Hk3 : k = 0%nat \/ k = 1%nat \/ k = 2%nat) by lia. by destruct_or! Hk3; subst k. }
  induction src as [|a|a b|a b c src IH] using list_ind3; intros Hok ctx out Hf He;
    repeat (apply Forall_cons in Hok as [? Hok]); unfold is_byte in *; cbn [base64].
  - exists ctx. rewrite app_nil_r. destruct Hf as (? & _). done.
  - destruct (Hstep (a * 65536 + 0 * 256 + 0) 2%nat ctx out []) as (d & Hd & E);
      [lia|lia|change (256 ^ Z.of_nat 2) with 65536; dlia|done|].
    rewrite bytes_of_triple, !Z.add_0_r, app_nil_r in E by (done || lia). cbn [take Nat.sub replicate] in E.
    rewrite E. by eexists.
  - destruct (Hstep (a * 65536 + b * 256 + 0) 1%nat ctx out []) as (d & Hd & E);
      [lia|lia|change (256 ^ Z.of_nat 1) with 256; dlia|done|].
    rewrite bytes_of_triple, !Z.add_0_r, app_nil_r in E by (done || lia). cbn [take Nat.sub replicate] in E.
    rewrite E. by eexists.
  - destruct (Hstep (a * 65536 + b * 256 + c) 0%nat ctx out (base64 src)) as (d & Hd & E);
      [lia|lia|change (256 ^ Z.of_nat 0) with 1; dlia|done|].
    rewrite bytes_of_triple in E by (done || lia). cbn [Nat.sub replicate] in E. rewrite app_nil_r in E.
    change (take 4 (chars (a * 65536 + b * 256 + c))) with (chars (a * 65536 + b * 256 + c)) in E. rewrite E.
    destruct (IH Hok (mk_ctx 0 d false (error_encountered ctx)) (out ++ [a; b; c])) as (ctx' & E' & H');
      [done|done|]. exists ctx'. split; [|done]. cbn [take negb Nat.eqb]. rewrite E'. by rewrite <- app_assoc.
Qed.

(** What [EVP_DecodeUpdate] on each piece and [EVP_DecodeFinal] give, [None] when
    one of them returns -1. *)
Fixpoint decode_stream (ctx : EVP_ENCODE_CTX) (pieces : list (list Z)) : option (list Z) :=
  match pieces with
  | [] => if EVP_DecodeFinal ctx =? -1 then None else Some []
  | piece :: pieces =>
      let '(ret, ctx, out, n) := EVP_DecodeUpdate ctx piece in
      if ret =? -1 then None
      else match decode_stream ctx pieces with
           | Some rest => Some (ztake n out ++ rest)
           | None => None
           end
  end.

Lemma loop_keeps_no_error text : forall ctx out ctx' out',
  decode_update_loop ctx out text = (true, ctx', out') -> error_encountered ctx' = error_encountered ctx.
Proof.
  induction text as [|c text IH]; intros ctx out ctx' out'; cbn [decode_update_loop].
  - intros H. injection H as <- <-. done.
  - destruct (is_space c); [apply IH|]. destruct (eof_seen ctx); [discriminate|]. destruct (_ =? 4).
    + destruct (base64_decode_quad _ _ _ _); [|discriminate]. intros H. by apply IH in H.
    + intros H. by apply IH in H.
Qed.

(** The pieces decode as the text they make up. *)
Lemma decode_stream_concat pieces : forall ctx ctx' out, error_encountered ctx = false ->
  decode_update_loop ctx [] (concat pieces) = (true, ctx', out) -> zlen out <= INT_MAX -> data_used ctx' = 0 ->
  decode_stream ctx pieces = Some out.
Proof.
  induction pieces as [|p pieces IH]; intros ctx ctx' out He; cbn [concat decode_stream].
  - intros H. injection H as <- <-. intros _ Hu. unfold EVP_DecodeFinal. by rewrite He, Hu.
  - rewrite decode_loop_app. unfold EVP_DecodeUpdate. rewrite He.
    destruct (decode_update_loop ctx [] p) as [[ok c1] o1] eqn:E1. destruct ok; [|discriminate].
    rewrite decode_loop_out. destruct (decode_update_loop c1 [] (concat pieces)) as [[ok c2] o2] eqn:E2.
    intros H Hmax Hu. injection H as -> <- <-. rewrite zlen_app in Hmax. zlen_pos.
    rewrite Z.gtb_ltb, (proj2 (Z.ltb_ge _ _)) by lia. apply loop_keeps_no_error in E1. rewrite He in E1.
    rewrite (IH c1 c2 o2 E1 E2) by (done || lia). rewrite ztake_all by lia. by destruct (eof_seen c1).
Qed.

Lemma base64_nonspace src : bytes_ok src -> filter nonspace (base64 src) = base64 src.
Proof.
  assert (Hall : forall l, Forall nonspace l -> filter nonspace l = l).
  { induction 1 as [|x l Hx _ IH]; [done|]. by rewrite filter_cons_True, IH. }
  assert (H61 : nonspace 61) by done.
  assert (Hc : forall n, 0 <= n < 16777216 -> Forall nonspace (chars n)).
  { intros n Hn. unfold chars. apply Forall_map. apply (Forall_impl _ _ _ (sextets_range n Hn)).
    intros v Hv. by apply alphabet_char_spec in Hv as (_ & _ & ? & _). }
  assert (Hgoal : bytes_ok src -> Forall nonspace (base64 src)).
  { induction src as [|a|a b|a b c src IH] using list_ind3; intros Hok;
      repeat (apply Forall_cons in Hok as [? Hok]); unfold is_byte in *; cbn [base64].
    - constructor.
    - apply Forall_app. split; [apply Forall_take, Hc; lia|by repeat constructor].
    - apply Forall_app. split; [apply Forall_take, Hc; lia|by repeat constructor].
    - apply Forall_app. split; [apply Hc; lia|by apply IH]. }
  intros Hok. by apply Hall, Hgoal.
Qed.

Lemma wrap_nonspace text : filter nonspace (wrap text) = filter nonspace text.
Proof.
  unfold wrap. remember (length text) as n eqn:Hn. assert (Hle : (length text <= n)%nat) by lia. clear Hn.
  revert text Hle. induction n as [|n IH]; intros [|c t] Hle; cbn [length] in Hle; try done; [lia|].
  cbn [wrap_loop]. rewrite <- (ztake_zdrop 64 (c :: t)) at 3. rewrite !filter_app. f_equal. cbn [app].
  rewrite filter_cons_False by done. apply IH.
  unfold zdrop. rewrite length_drop. cbn [length]. lia.
Qed.

(** Decoding a stream: whatever whitespace the encoding of [src] is broken up
    by, and however the text is cut into pieces, [EVP_DecodeUpdate] on each piece
    and [EVP_DecodeFinal] succeed and give [src]. *)
Theorem decode_stream_roundtrip src pieces : bytes_ok src -> zlen src <= INT_MAX ->
  filter nonspace (concat pieces) = base64 src -> decode_stream EVP_DecodeInit pieces = Some src.
Proof.
  intros Hok Hmax Htext.
  destruct (decode_loop_base64 src Hok EVP_DecodeInit []) as (ctx' & E & Hu & _); [done|done|].
  apply (decode_stream_concat pieces _ ctx'); [done| |done|done].
  by rewrite decode_loop_filter, Htext.
Qed.

Lemma decode_stream_roundtrip_witness :
  decode_stream EVP_DecodeInit [[84; 10; 87; 70]; [32; 117; 47; 119; 61]; [61; 10]] = Some [77; 97; 110; 255].
Proof.
  apply (decode_stream_roundtrip [77; 97; 110; 255]); [repeat constructor; lia|vm_compute; discriminate|reflexivity].
Defined.

(** Nothing more can be done with a context. *)
Definition dead (ctx : EVP_ENCODE_CTX) : Prop :=
  EVP_DecodeFinal ctx = -1 /\ forall in_, EVP_DecodeUpdate ctx in_ = (-1, ctx, [], 0).

(** Once a call of [EVP_DecodeUpdate] has returned -1 the context is dead:
    every later update returns -1 and writes nothing, and [EVP_DecodeFinal]
    returns -1, so that no stream of calls on it succeeds. *)
Theorem decode_error_sticky ctx in_ ctx' out n :
  EVP_DecodeUpdate ctx in_ = (-1, ctx', out, n) ->
  n = 0 /\ dead ctx' /\ forall pieces, decode_stream ctx' pieces = None.
Proof.
  intros H. assert (n = 0 /\ error_encountered ctx' = true) as [-> He].
  { revert H. unfold EVP_DecodeUpdate. destruct (error_encountered ctx) eqn:E.
    { intros H. injection H as <- _ <-. done. }
    assert (Herr : forall text c o c' o', decode_update_loop c o text = (false, c', o') -> error_encountered c' = true).
    { clear. induction text as [|x text IH]; intros c o c' o'; cbn [decode_update_loop]; [discriminate|].
      destruct (is_space x); [apply IH|]. destruct (eof_seen c).
      { intros H. by injection H as <- _. }
      destruct (_ =? 4); [|apply IH]. destruct (base64_decode_quad _ _ _ _); [apply IH|].
      intros H. by injection H as <- _. }
    destruct (decode_update_loop ctx [] in_) as [[ok c] o] eqn:El. destruct ok.
    - destruct (zlen o >? INT_MAX); intros H; [by injection H as <- _ <-|]. by destruct (eof_seen c).
    - intros H. injection H as <- _ <-. split; [done|]. by apply (Herr _ _ _ _ _ El). }
  assert (Hd : dead ctx') by (unfold dead, EVP_DecodeFinal, EVP_DecodeUpdate; by rewrite He).
  split; [done|]. split; [done|]. destruct Hd as [Hf Hu]. intros [|piece pieces]; cbn [decode_stream]; [by rewrite Hf|by rewrite Hu].
Qed.

Lemma decode_error_sticky_witness :
  EVP_DecodeFinal (snd (fst (fst (EVP_DecodeUpdate EVP_DecodeInit [84; 87; 61; 61; 84])))) = -1.
Proof.
  apply (decode_error_sticky EVP_DecodeInit [84; 87; 61; 61; 84] _ [77] 0). reflexivity.
Defined.
