(* ===== verification/Stack.v ===== *)
(** * Stacks of pointers (crypto/stack/stack.c)

    A pointer is an address, with [NULL] the address 0; an [OPENSSL_STACK *] that
    may be [NULL] is an [option]. The array [data] is the list of the [num_alloc]
    pointers of its block, the first [num] of which are the stack's elements. The
    objects pointed to are reached only through the callbacks, which are
    parameters: [call_cmp_func] compares two of them, and the callbacks that act
    on objects thread a state of the caller's choosing.

    Functions that change the stack return its new value next to their result.
    [OPENSSL_sk_find] returns the index it writes to [*out_index]. *)

From S2P Require Import Prelude Mem.

Definition NULL : Z := 0.
Definition sizeof_ptr : Z := 8.

Record OPENSSL_STACK := mk_stack {
  num : Z;
  data : list Z;
  sorted : bool;
  num_alloc : Z;
  comp : Z
}.

Definition kMinSize : Z := 4.

(** The bytes of an array of pointers, and the unspecified pointers of a fresh one. *)
Definition ptr_bytes (l : list Z) : list Z := concat (map (be_bytes 8) l).
Definition fresh_ptrs `{Allocator} (n : Z) : list Z := map (fun i => junk (Z.of_nat i)) (seq 0 (Z.to_nat n)).

Definition set_data (sk : OPENSSL_STACK) (d : list Z) : OPENSSL_STACK :=
  mk_stack (num sk) d (sorted sk) (num_alloc sk) (comp sk).
Definition set_num (sk : OPENSSL_STACK) (n : Z) : OPENSSL_STACK :=
  mk_stack n (data sk) (sorted sk) (num_alloc sk) (comp sk).
Definition set_sorted (sk : OPENSSL_STACK) (b : bool) : OPENSSL_STACK :=
  mk_stack (num sk) (data sk) b (num_alloc sk) (comp sk).

Definition elem (sk : OPENSSL_STACK) (i : Z) : Z := znth NULL (data sk) i.

(** ** Creation *)

(** [sizeof(OPENSSL_STACK)] is 40. *)
Definition OPENSSL_sk_new `{Allocator} (comp : Z) : option OPENSSL_STACK :=
  match OPENSSL_zalloc 40 with
  | None => None
  | Some _ =>
      match OPENSSL_calloc kMinSize sizeof_ptr with
      | None => None
      | Some _ => Some (mk_stack 0 (replicate (Z.to_nat kMinSize) NULL) false kMinSize comp)
      end
  end.

Definition OPENSSL_sk_new_null `{Allocator} : option OPENSSL_STACK := OPENSSL_sk_new NULL.

(** ** Access *)

Definition OPENSSL_sk_num (sk : option OPENSSL_STACK) : Z :=
  match sk with None => 0 | Some sk => num sk end.

Definition OPENSSL_sk_zero (sk : option OPENSSL_STACK) : option OPENSSL_STACK :=
  match sk with
  | None => None
  | Some sk =>
      if num sk =? 0 then Some sk
      else Some (set_sorted (set_num (set_data sk (store (data sk) 0 (replicate (Z.to_nat (num sk)) 0))) 0) false)
  end.

Definition OPENSSL_sk_value (sk : option OPENSSL_STACK) (i : Z) : Z :=
  match sk with
  | None => NULL
  | Some sk => if i >=? num sk then NULL else elem sk i
  end.

Definition OPENSSL_sk_set (sk : option OPENSSL_STACK) (i value : Z) : Z * option OPENSSL_STACK :=
  match sk with
  | None => (NULL, None)
  | Some sk =>
      if i >=? num sk then (NULL, Some sk)
      else (value, Some (set_data sk (zupd (data sk) i value)))
  end.

(** ** Release

    [call_free_func free_func p] acts on the caller's state. *)

Definition OPENSSL_sk_pop_free_ex {W} (sk : option OPENSSL_STACK) (call_free_func : Z -> Z -> W -> W)
    (free_func : Z) (w : W) : W :=
  match sk with
  | None => w
  | Some sk =>
      fold_left (fun w p => if negb (p =? NULL) then call_free_func free_func p w else w)
        (ztake (num sk) (data sk)) w
  end.

Definition call_free_func_legacy {W} (run : Z -> Z -> W -> W) (func ptr : Z) (w : W) : W := run func ptr w.

Definition sk_pop_free {W} (run : Z -> Z -> W -> W) (sk : option OPENSSL_STACK) (free_func : Z) (w : W) : W :=
  OPENSSL_sk_pop_free_ex sk (call_free_func_legacy run) free_func w.

(** ** Insertion and deletion *)

(** Room for one more pointer. *)
Definition sk_grow `{Allocator} (sk : OPENSSL_STACK) : option OPENSSL_STACK :=
  if num_alloc sk <=? num sk + 1 then
    let new_alloc := u64 (num_alloc sk ≪ 1) in
    let alloc_size := u64 (new_alloc * sizeof_ptr) in
    let overflowed n size := (n <? num_alloc sk) || negb (size / sizeof_ptr =? n) in
    let '(new_alloc, alloc_size) :=
      if overflowed new_alloc alloc_size then
        let new_alloc := u64 (num_alloc sk + 1) in (new_alloc, u64 (new_alloc * sizeof_ptr))
      else (new_alloc, alloc_size) in
    if overflowed new_alloc alloc_size then None
    else
      match OPENSSL_realloc (Some (ptr_bytes (data sk))) alloc_size with
      | None => None
      | Some _ =>
          let kept := ztake new_alloc (data sk) in
          Some (mk_stack (num sk) (kept ++ fresh_ptrs (new_alloc - zlen kept)) (sorted sk) new_alloc (comp sk))
      end
  else Some sk.

Definition OPENSSL_sk_insert `{Allocator} (sk : option OPENSSL_STACK) (p where_ : Z) : Z * option OPENSSL_STACK :=
  match sk with
  | None => (0, None)
  | Some sk =>
      if num sk >=? INT_MAX then (0, Some sk)
      else
        match sk_grow sk with
        | None => (0, Some sk)
        | Some sk =>
            let d :=
              if where_ >=? num sk then zupd (data sk) (num sk) p
              else
                let moved := ztake (num sk - where_) (zdrop where_ (data sk)) in
                zupd (store (data sk) (where_ + 1) moved) where_ p in
            let sk := set_sorted (set_num (set_data sk d) (num sk + 1)) false in
            (num sk, Some sk)
        end
  end.

Definition OPENSSL_sk_delete (sk : option OPENSSL_STACK) (where_ : Z) : Z * option OPENSSL_STACK :=
  match sk with
  | None => (NULL, None)
  | Some sk =>
      if where_ >=? num sk then (NULL, Some sk)
      else
        let ret := elem sk where_ in
        let d :=
          if negb (where_ =? num sk - 1) then
            store (data sk) where_ (ztake (num sk - where_ - 1) (zdrop (where_ + 1) (data sk)))
          else data sk in
        (ret, Some (set_num (set_data sk d) (num sk - 1)))
  end.

(** The first index below [num] where the test holds. *)
Fixpoint first_index (test : Z -> bool) (l : list Z) (i : Z) : option Z :=
  match l with
  | [] => None
  | x :: l => if test x then Some i else first_index test l (i + 1)
  end.

Definition OPENSSL_sk_delete_ptr (sk : option OPENSSL_STACK) (p : Z) : Z * option OPENSSL_STACK :=
  match sk with
  | None => (NULL, None)
  | Some s =>
      match first_index (fun x => x =? p) (ztake (num s) (data s)) 0 with
      | Some i => OPENSSL_sk_delete sk i
      | None => (NULL, sk)
      end
  end.

(** The loop with its two indices; [n] elements are still to be looked at. *)
Fixpoint delete_if_loop {W} (call_func : Z -> Z -> W -> bool * W) (func : Z)
    (n : nat) (i new_num : Z) (d : list Z) (w : W) : list Z * Z * W :=
  match n with
  | O => (d, new_num, w)
  | S n =>
      let '(b, w) := call_func func (znth NULL d i) w in
      if negb b then delete_if_loop call_func func n (i + 1) (new_num + 1) (zupd d new_num (znth NULL d i)) w
      else delete_if_loop call_func func n (i + 1) new_num d w
  end.

Definition OPENSSL_sk_delete_if {W} (sk : option OPENSSL_STACK) (call_func : Z -> Z -> W -> bool * W)
    (func : Z) (w : W) : option OPENSSL_STACK * W :=
  match sk with
  | None => (None, w)
  | Some sk =>
      let '(d, new_num, w) := delete_if_loop call_func func (Z.to_nat (num sk)) 0 0 (data sk) w in
      (Some (set_num (set_data sk d) new_num), w)
  end.

Definition OPENSSL_sk_shift (sk : option OPENSSL_STACK) : Z * option OPENSSL_STACK :=
  match sk with
  | None => (NULL, None)
  | Some s => if num s =? 0 then (NULL, sk) else OPENSSL_sk_delete sk 0
  end.

Definition OPENSSL_sk_push `{Allocator} (sk : OPENSSL_STACK) (p : Z) : Z * option OPENSSL_STACK :=
  OPENSSL_sk_insert (Some sk) p (num sk).

Definition OPENSSL_sk_pop (sk : option OPENSSL_STACK) : Z * option OPENSSL_STACK :=
  match sk with
  | None => (NULL, None)
  | Some s => if num s =? 0 then (NULL, sk) else OPENSSL_sk_delete sk (num s - 1)
  end.

(** ** Copies *)

Definition OPENSSL_sk_dup `{Allocator} (sk : option OPENSSL_STACK) : option OPENSSL_STACK :=
  match sk with
  | None => None
  | Some sk =>
      match OPENSSL_zalloc 40 with
      | None => None
      | Some _ =>
          match OPENSSL_memdup (ptr_bytes (data sk)) with
          | None => None
          | Some _ => Some (mk_stack (num sk) (data sk) (sorted sk) (num_alloc sk) (comp sk))
          end
      end
  end.

(** The loop over the [n] elements from [i]; on failure the copies made so far
    are released. *)
Fixpoint deep_copy_loop {W} (call_copy_func : Z -> Z -> W -> Z * W) (copy_func : Z)
    (call_free_func : Z -> Z -> W -> W) (free_func : Z) (n : nat) (i : Z) (d : list Z) (w : W) : option (list Z) * W :=
  match n with
  | O => (Some d, w)
  | S n =>
      if znth NULL d i =? NULL then
        deep_copy_loop call_copy_func copy_func call_free_func free_func n (i + 1) d w
      else
        let '(copy, w) := call_copy_func copy_func (znth NULL d i) w in
        let d := zupd d i copy in
        if copy =? NULL then
          (None, fold_left (fun w p => if negb (p =? NULL) then call_free_func free_func p w else w) (ztake i d) w)
        else deep_copy_loop call_copy_func copy_func call_free_func free_func n (i + 1) d w
  end.

Definition OPENSSL_sk_deep_copy `{Allocator} {W} (sk : option OPENSSL_STACK) (call_copy_func : Z -> Z -> W -> Z * W)
    (copy_func : Z) (call_free_func : Z -> Z -> W -> W) (free_func : Z) (w : W) : option OPENSSL_STACK * W :=
  match OPENSSL_sk_dup sk with
  | None => (None, w)
  | Some ret =>
      match deep_copy_loop call_copy_func copy_func call_free_func free_func (Z.to_nat (num ret)) 0 (data ret) w with
      | (None, w) => (None, w)
      | (Some d, w) => (Some (set_data ret d), w)
      end
  end.

(** ** Order *)

Definition OPENSSL_sk_is_sorted (sk : option OPENSSL_STACK) : bool :=
  match sk with
  | None => true
  | Some sk => sorted sk || (negb (comp sk =? NULL) && (num sk <? 2))
  end.

Definition OPENSSL_sk_set_cmp_func (sk : OPENSSL_STACK) (c : Z) : Z * OPENSSL_STACK :=
  let old := comp sk in
  let sk := if negb (comp sk =? c) then set_sorted sk false else sk in
  (old, mk_stack (num sk) (data sk) (sorted sk) (num_alloc sk) c).

Definition parent_idx (idx : Z) : Z := (idx - 1) / 2.
Definition left_idx (idx : Z) : Z := 2 * idx + 1.

Section Order.
Context (call_cmp_func : Z -> Z -> Z -> Z).

(** The binary search; the interval gets shorter in every round. *)
Fixpoint find_loop (fuel : nat) (sk : OPENSSL_STACK) (p lo hi : Z) : option Z :=
  match fuel with
  | O => None
  | S fuel =>
      if lo <? hi then
        let mid := lo + (hi - lo - 1) / 2 in
        let r := call_cmp_func (comp sk) p (elem sk mid) in
        if r >? 0 then find_loop fuel sk p (mid + 1) hi
        else if r <? 0 then find_loop fuel sk p lo mid
        else if hi - lo =? 1 then Some mid
        else find_loop fuel sk p lo (mid + 1)
      else None
  end.

Definition OPENSSL_sk_find (sk : option OPENSSL_STACK) (p : Z) : option Z :=
  match sk with
  | None => None
  | Some s =>
      if comp s =? NULL then first_index (fun x => x =? p) (ztake (num s) (data s)) 0
      else if p =? NULL then None
      else if negb (OPENSSL_sk_is_sorted sk) then
        first_index (fun x => call_cmp_func (comp s) p x =? 0) (ztake (num s) (data s)) 0
      else find_loop (Z.to_nat (num s)) s p 0 (num s)
  end.

(** The subtree of [i]; the index grows in every round. *)
Fixpoint down_heap (fuel : nat) (sk : OPENSSL_STACK) (i num : Z) : OPENSSL_STACK :=
  match fuel with
  | O => sk
  | S fuel =>
      let left := left_idx i in
      if left >=? num then sk
      else
        let next := i in
        let next := if call_cmp_func (comp sk) (elem sk next) (elem sk left) <? 0 then left else next in
        let right := left + 1 in
        let next :=
          if (right <? num) && (call_cmp_func (comp sk) (elem sk next) (elem sk right) <? 0) then right else next in
        if i =? next then sk
        else
          let tmp := elem sk i in
          let sk := set_data sk (zupd (data sk) i (elem sk next)) in
          let sk := set_data sk (zupd (data sk) next tmp) in
          down_heap fuel sk next num
  end.

(** The first loop counts down from [i] until it wraps around. *)
Fixpoint build_heap (fuel : nat) (sk : OPENSSL_STACK) (i : Z) : OPENSSL_STACK :=
  match fuel with
  | O => sk
  | S fuel =>
      if i <? num sk then build_heap fuel (down_heap (Z.to_nat (num sk)) sk i (num sk)) (u64 (i - 1)) else sk
  end.

(** The second moves the maximum behind the remaining heap. *)
Fixpoint remove_max (fuel : nat) (sk : OPENSSL_STACK) (i : Z) : OPENSSL_STACK :=
  match fuel with
  | O => sk
  | S fuel =>
      if i >? 0 then
        let tmp := elem sk 0 in
        let sk := set_data sk (zupd (data sk) 0 (elem sk i)) in
        let sk := set_data sk (zupd (data sk) i tmp) in
        remove_max fuel (down_heap (Z.to_nat (num sk)) sk 0 i) (i - 1)
      else sk
  end.

Definition OPENSSL_sk_sort (sk : option OPENSSL_STACK) : option OPENSSL_STACK :=
  match sk with
  | None => None
  | Some s =>
      if (comp s =? NULL) || sorted s then sk
      else
        let s :=
          if num s >=? 2 then
            let s := build_heap (Z.to_nat (num s)) s (parent_idx (num s - 1)) in
            remove_max (Z.to_nat (num s)) s (num s - 1)
          else s in
        Some (set_sorted s true)
  end.
End Order.

(** ** The older names *)

Definition sk_new_null `{Allocator} : option OPENSSL_STACK := OPENSSL_sk_new_null.
Definition sk_num (sk : option OPENSSL_STACK) : Z := OPENSSL_sk_num sk.
Definition sk_value (sk : option OPENSSL_STACK) (i : Z) : Z := OPENSSL_sk_value sk i.
Definition sk_push `{Allocator} (sk : OPENSSL_STACK) (p : Z) : Z * option OPENSSL_STACK := OPENSSL_sk_push sk p.
Definition sk_pop (sk : option OPENSSL_STACK) : Z * option OPENSSL_STACK := OPENSSL_sk_pop sk.
Definition sk_pop_free_ex {W} (sk : option OPENSSL_STACK) (call_free_func : Z -> Z -> W -> W) (free_func : Z) (w : W) : W :=
  OPENSSL_sk_pop_free_ex sk call_free_func free_func w.
