(* ===== verification/StackSort.v ===== *)
(** * Sorting and searching a stack (theorems about Stack.v)

    Under the contract of a comparison function, heap sort yields a sorted
    permutation of the elements, and the binary search finds what a linear search
    would. *)

From S2P Require Import Prelude Mem Stack.

(** ** The contract of a comparison function (stack.h) *)

Class CmpOrder (cmp : Z -> Z -> Z) : Prop := {
  cmp_flip x y : cmp x y < 0 <-> 0 < cmp y x;
  cmp_trans x y z : cmp x y <= 0 -> cmp y z <= 0 -> cmp x z <= 0
}.

(** Every pair of elements in the order of their positions. *)
Definition ascending (cmp : Z -> Z -> Z) (l : list Z) : Prop :=
  forall a b, 0 <= a < b -> b < zlen l -> cmp (znth NULL l a) (znth NULL l b) <= 0.

(** The elements of the stack. *)
Definition contents (sk : OPENSSL_STACK) : list Z := ztake (num sk) (data sk).

Definition array_ok (sk : OPENSSL_STACK) : Prop := 0 <= num sk <= INT_MAX /\ num sk <= zlen (data sk).

Lemma znth_ztake l n i : 0 <= i < n -> znth NULL (ztake n l) i = znth NULL l i.
Proof.
  intros Hi. unfold znth, ztake. rewrite !nth_lookup, lookup_take_lt; [done|lia].
Qed.

Lemma znth_lookup l i x : 0 <= i -> l !! Z.to_nat i = Some x -> znth NULL l i = x.
Proof. intros Hi H. unfold znth. by rewrite nth_lookup, H. Qed.

Lemma lookup_znth l i : 0 <= i < zlen l -> l !! Z.to_nat i = Some (znth NULL l i).
Proof.
  intros Hi. unfold zlen in Hi. destruct (lookup_lt_is_Some_2 l (Z.to_nat i)) as [x Hx]; [lia|].
  rewrite Hx. f_equal. symmetry. apply znth_lookup; [lia|done].
Qed.

Lemma elem_of_znth l x : x ∈ l <-> exists i, 0 <= i < zlen l /\ x = znth NULL l i.
Proof.
  rewrite list_elem_of_lookup. split.
  - intros [i Hi]. exists (Z.of_nat i). pose proof (lookup_lt_Some _ _ _ Hi). unfold zlen. split; [lia|].
    symmetry. apply znth_lookup; [lia|]. by rewrite Nat2Z.id.
  - intros (i & Hi & ->). exists (Z.to_nat i). by apply lookup_znth.
Qed.

Lemma zlen_zupd {A} (l : list A) i x : zlen (zupd l i x) = zlen l.
Proof. unfold zlen, zupd. by rewrite length_insert. Qed.

Lemma znth_zupd l i j x : 0 <= i < zlen l -> 0 <= j ->
  znth NULL (zupd l i x) j = if j =? i then x else znth NULL l j.
Proof.
  intros Hi Hj. unfold znth, zupd. rewrite !nth_lookup.
  unfold zlen in Hi. destruct (Z.eqb_spec j i) as [->|Hne].
  - rewrite list_lookup_insert_eq; [done|lia].
  - rewrite list_lookup_insert_ne; [done|lia].
Qed.

(** ** Exchanging two elements *)

Definition swap (d : list Z) (i j : Z) : list Z := zupd (zupd d i (znth NULL d j)) j (znth NULL d i).

Lemma zlen_swap d i j : zlen (swap d i j) = zlen d.
Proof. unfold swap. by rewrite !zlen_zupd. Qed.

Lemma znth_swap d i j k : 0 <= i < zlen d -> 0 <= j < zlen d -> 0 <= k ->
  znth NULL (swap d i j) k = if k =? j then znth NULL d i else if k =? i then znth NULL d j else znth NULL d k.
Proof. intros. unfold swap. rewrite !znth_zupd by (rewrite ?zlen_zupd; lia). done. Qed.

Lemma ztake_swap d i j n : 0 <= i < n -> 0 <= j < n -> ztake n (swap d i j) = swap (ztake n d) i j.
Proof.
  intros Hi Hj. unfold swap. rewrite !znth_ztake by lia. unfold ztake, zupd.
  by rewrite !take_insert_lt by lia.
Qed.

Lemma zdrop_swap d i j n : 0 <= i < n -> 0 <= j < n -> zdrop n (swap d i j) = zdrop n d.
Proof. intros Hi Hj. unfold swap, zdrop, zupd. by rewrite !drop_insert_lt by lia. Qed.

Lemma swap_perm d i j : 0 <= i < zlen d -> 0 <= j < zlen d -> swap d i j ≡ₚ d.
Proof.
  intros Hi Hj. apply Permutation_inj. split; [unfold swap, zupd; by rewrite !length_insert|].
  exists (fun k => if decide (k = Z.to_nat j) then Z.to_nat i else if decide (k = Z.to_nat i) then Z.to_nat j else k).
  split; [intros x y; repeat case_decide; lia|].
  intros k. unfold swap, zupd. unfold zlen in *. repeat case_decide; subst.
  - rewrite list_lookup_insert_eq by (rewrite length_insert; lia). symmetry. apply lookup_znth. unfold zlen. lia.
  - rewrite list_lookup_insert_ne, list_lookup_insert_eq by lia. symmetry. apply lookup_znth. unfold zlen. lia.
  - by rewrite !list_lookup_insert_ne by lia.
Qed.

(** ** Heaps in an array *)

Section Sort.
Context (cmp : Z -> Z -> Z) `{!CmpOrder cmp}.

Lemma cmp_ge x y : ~ cmp x y < 0 -> cmp y x <= 0.
Proof. rewrite cmp_flip. lia. Qed.
Lemma cmp_lt_le x y : cmp x y < 0 -> cmp x y <= 0.
Proof. lia. Qed.
Lemma cmp_refl x : cmp x x <= 0.
Proof. pose proof (cmp_flip x x). lia. Qed.

(** [c] is a child of [j]. *)
Definition child (j c : Z) : Prop := c = 2 * j + 1 \/ c = 2 * j + 2.

Definition heap_from (d : list Z) (k n : Z) : Prop :=
  forall j c, k <= j -> child j c -> c < n -> cmp (znth NULL d c) (znth NULL d j) <= 0.

(** A heap but for the node [i], whose children are below its parent. *)
Definition heap_except (d : list Z) (k n i : Z) : Prop :=
  (forall j c, k <= j -> j <> i -> child j c -> c < n -> cmp (znth NULL d c) (znth NULL d j) <= 0) /\
  (forall q c, k <= q -> child q i -> child i c -> c < n -> cmp (znth NULL d c) (znth NULL d q) <= 0).

Lemma heap_swap d k n i m : 0 <= k <= i -> i < n -> n <= zlen d -> child i m -> m < n ->
  heap_except d k n i -> cmp (znth NULL d i) (znth NULL d m) <= 0 ->
  (forall c, child i c -> c < n -> cmp (znth NULL d c) (znth NULL d m) <= 0) ->
  heap_except (swap d i m) k n m.
Proof.
  unfold heap_except, child. intros Hk Hi Hn Hm Hmn [H1 H2] Hlt Hother. split.
  - intros j c Hj Hjm Hc Hcn. rewrite !znth_swap by lia.
    rewrite (proj2 (Z.eqb_neq j m)) by lia. destruct (Z.eqb_spec j i) as [->|Hji].
    + destruct (Z.eqb_spec c m) as [->|]; [done|]. rewrite (proj2 (Z.eqb_neq c i)) by lia. by apply Hother.
    + rewrite (proj2 (Z.eqb_neq c m)) by lia. destruct (Z.eqb_spec c i) as [->|]; [|by apply H1].
      by apply (H2 j m).
  - intros q c Hq Hqm Hc Hcn. assert (q = i) as -> by lia. rewrite !znth_swap by lia.
    rewrite (proj2 (Z.eqb_neq c m)), (proj2 (Z.eqb_neq c i)), (proj2 (Z.eqb_neq i m)), Z.eqb_refl by lia.
    apply (H1 m c); lia.
Qed.

(** What the loops keep of the array: its length, the elements behind [n], and
    the first [n] up to their order. *)
Definition rearranged (n : Z) (d d' : list Z) : Prop :=
  zlen d' = zlen d /\ zdrop n d' = zdrop n d /\ ztake n d' ≡ₚ ztake n d.

Lemma rearranged_refl n d : rearranged n d d.
Proof. done. Qed.

Lemma rearranged_trans n a b c : rearranged n a b -> rearranged n b c -> rearranged n a c.
Proof. intros (H1 & H2 & H3) (H4 & H5 & H6). split_and!; [congruence|congruence|by rewrite H6]. Qed.

Lemma rearranged_swap d i j n : 0 <= i < n -> 0 <= j < n -> n <= zlen d -> rearranged n d (swap d i j).
Proof.
  intros. split_and!; [apply zlen_swap|by apply zdrop_swap|].
  rewrite ztake_swap by done. apply swap_perm; rewrite zlen_ztake; lia.
Qed.

Lemma rearranged_le n m d d' : 0 <= n <= m -> m <= zlen d -> rearranged n d d' -> rearranged m d d'.
Proof.
  intros Hn Hm (Hl & Hd & Hp).
  assert (E : forall l : list Z, zlen l = zlen d -> ztake m l = ztake n l ++ ztake (m - n) (zdrop n l)).
  { intros l Hll. rewrite <- (ztake_zdrop n l) at 1. unfold ztake at 1. rewrite take_app, take_ge.
    - f_equal. pose proof (zlen_ztake n l ltac:(lia)). unfold ztake, zlen in *. f_equal. lia.
    - pose proof (zlen_ztake n l ltac:(lia)). unfold zlen in *. lia. }
  split_and!; [done| |].
  - replace m with (n + (m - n)) by lia. unfold zdrop in *. rewrite Z2Nat.inj_add by lia.
    by rewrite <- !drop_drop, Hd.
  - rewrite (E d'), (E d), Hd by lia. by apply Permutation_app_tail.
Qed.

Lemma rearranged_znth n d d' i : 0 <= n <= zlen d -> rearranged n d d' -> n <= i -> i < zlen d ->
  znth NULL d' i = znth NULL d i.
Proof.
  intros Hn (Hl & Hd & _) Hi Hi'. unfold znth. rewrite !nth_lookup.
  replace (Z.to_nat i) with (Z.to_nat n + (Z.to_nat i - Z.to_nat n))%nat by lia.
  rewrite <- !lookup_drop. unfold zdrop in Hd. by rewrite Hd.
Qed.

Lemma rearranged_elem n d d' i : 0 <= n <= zlen d -> rearranged n d d' -> 0 <= i < n ->
  exists j, 0 <= j < n /\ znth NULL d' i = znth NULL d j.
Proof.
  intros Hn (Hl & _ & Hp) Hi. assert (H : znth NULL d' i ∈ ztake n d).
  { rewrite <- Hp. apply elem_of_znth. exists i. rewrite zlen_ztake, znth_ztake by lia. done. }
  apply elem_of_znth in H as (j & Hj & E). rewrite zlen_ztake in Hj by lia. exists j.
  rewrite E, znth_ztake by lia. done.
Qed.

(** ** The loops of the sort *)

Lemma set_data_id sk : set_data sk (data sk) = sk.
Proof. by destruct sk. Qed.

Lemma down_heap_spec (call_cmp_func : Z -> Z -> Z -> Z) fuel : forall sk k i n,
  call_cmp_func (comp sk) = cmp -> 0 <= k <= i -> i < n -> n <= zlen (data sk) -> (Z.to_nat (n - i) <= fuel)%nat ->
  heap_except (data sk) k n i ->
  exists d, down_heap call_cmp_func fuel sk i n = set_data sk d /\ rearranged n (data sk) d /\ heap_from d k n.
Proof.
  induction fuel as [|fuel IH]; intros sk k i n Hcmp Hk Hi Hn Hf Hheap; [lia|].
  cbn [down_heap]. cbv zeta. unfold left_idx. rewrite Hcmp, Z.geb_leb. fold (elem sk).
  destruct (Z.leb_spec n (2 * i + 1)) as [Hleaf|Hleft].
  { exists (data sk). rewrite set_data_id. split_and!; [done|apply rearranged_refl|].
    intros j c Hj Hc Hcn. destruct Hheap as [H1 _]. apply H1; [done| |done..]. unfold child in Hc. lia. }
  set (m1 := if cmp (elem sk i) (elem sk (2 * i + 1)) <? 0 then 2 * i + 1 else i).
  set (m := if (2 * i + 1 + 1 <? n) && _ then _ else m1).
  assert (Hm : (m = i \/ child i m) /\ m < n /\ cmp (elem sk i) (elem sk m) <= 0 /\
               forall c, child i c -> c < n -> cmp (elem sk c) (elem sk m) <= 0).
  { assert (Hm1 : (m1 = i \/ m1 = 2 * i + 1) /\ cmp (elem sk i) (elem sk m1) <= 0 /\
                  cmp (elem sk (2 * i + 1)) (elem sk m1) <= 0).
    { unfold m1. destruct (Z.ltb_spec (cmp (elem sk i) (elem sk (2 * i + 1))) 0) as [H|H].
      - split_and!; [lia|lia|apply cmp_refl].
      - split_and!; [lia|apply cmp_refl|]. apply cmp_ge. lia. }
    unfold m, child. clearbody m1. destruct Hm1 as (Hm1 & Hm2 & Hm3).
    destruct (Z.ltb_spec (2 * i + 1 + 1) n) as [Hr|Hr]; cbn [andb].
    - destruct (Z.ltb_spec (cmp (elem sk m1) (elem sk (2 * i + 1 + 1))) 0) as [H|H].
      + apply cmp_lt_le in H. split_and!; [lia|lia|by apply (cmp_trans _ (elem sk m1))|].
        intros c [->| ->] _; [by apply (cmp_trans _ (elem sk m1))|].
        replace (2 * i + 2) with (2 * i + 1 + 1) by lia. apply cmp_refl.
      + split_and!; [lia|lia|done|]. intros c [->| ->] _; [done|].
        replace (2 * i + 2) with (2 * i + 1 + 1) by lia. apply cmp_ge. lia.
    - split_and!; [lia|lia|done|]. intros c [->| ->] Hc; [done|lia]. }
  clearbody m. clear m1. destruct Hm as (Hm & Hmn & Him & Hchild). unfold elem in *.
  destruct (Z.eqb_spec i m) as [<-|Hne].
  { exists (data sk). rewrite set_data_id. split_and!; [done|apply rearranged_refl|].
    intros j c Hj Hc Hcn. destruct (Z.eq_dec j i) as [->|Hji]; [by apply Hchild|]. destruct Hheap as [H1 _]. by apply H1. }
  destruct Hm as [->|Hm]; [done|].
  assert (Him2 : i < m) by (unfold child in Hm; lia).
  pose proof (heap_swap (data sk) k n i m Hk Hi Hn Hm Hmn Hheap Him Hchild) as Hs.
  destruct (IH (set_data sk (swap (data sk) i m)) k m n) as (d & Hd & Hr & Hh);
    [done|lia|lia|cbn [data set_data]; rewrite zlen_swap; lia|lia|exact Hs|].
  exists d. split_and!; [exact Hd| |done].
  apply (rearranged_trans _ _ (swap (data sk) i m)); [|exact Hr]. apply rearranged_swap; lia.
Qed.

Lemma build_heap_spec (call_cmp_func : Z -> Z -> Z -> Z) fuel : forall sk i,
  call_cmp_func (comp sk) = cmp -> array_ok sk -> -1 <= i < num sk -> (Z.to_nat (i + 1) <= fuel)%nat ->
  heap_from (data sk) (i + 1) (num sk) ->
  exists d, build_heap call_cmp_func fuel sk (u64 i) = set_data sk d /\ rearranged (num sk) (data sk) d /\
    heap_from d 0 (num sk).
Proof.
  induction fuel as [|fuel IH]; intros sk i Hcmp [Hnum Hlen] Hi Hf Hheap; cbn [build_heap].
  { assert (i = -1) as -> by lia. exists (data sk). by rewrite set_data_id. }
  unfold INT_MAX in *. destruct (Z.eq_dec i (-1)) as [->|Hi0].
  { change (u64 (-1)) with 18446744073709551615. rewrite (proj2 (Z.ltb_ge _ _)) by lia.
    exists (data sk). by rewrite set_data_id. }
  unfold u64 at 1 2 4. rewrite (Z.mod_small i) by lia. rewrite (proj2 (Z.ltb_lt _ _)) by lia.
  destruct (down_heap_spec call_cmp_func (Z.to_nat (num sk)) sk i i (num sk)) as (d & -> & Hr & Hh);
    [done|lia|lia|done|lia| |].
  { split.
    - intros j c Hj Hji Hc Hcn. apply Hheap; [lia|done..].
    - intros q c Hq Hqi Hc Hcn. unfold child in Hqi. lia. }
  destruct (IH (set_data sk d) (i - 1)) as (d' & E & Hr' & Hh').
  - done.
  - split; [done|]. cbn [data set_data num]. destruct Hr as (-> & _). done.
  - cbn [num set_data]. lia.
  - lia.
  - by replace (i - 1 + 1) with i by lia.
  - exists d'. split_and!; [exact E| |done]. by apply (rearranged_trans _ _ d).
Qed.

(** The root of a heap is its maximum. *)
Lemma heap_root d n : heap_from d 0 n -> forall j, 0 <= j < n -> cmp (znth NULL d j) (znth NULL d 0) <= 0.
Proof.
  intros Hh j Hj. remember (Z.to_nat j) as k eqn:Hk. revert j Hj Hk.
  induction (lt_wf k) as [k _ IH]. intros j Hj Hk. destruct (Z.eq_dec j 0) as [->|Hj0]; [apply cmp_refl|].
  apply (cmp_trans _ (znth NULL d ((j - 1) / 2))).
  - apply Hh; [dlia|unfold child; dlia|lia].
  - apply (IH (Z.to_nat ((j - 1) / 2))); [dlia|dlia|done].
Qed.

(** Everything behind [i] is in its place. *)
Definition placed (d : list Z) (i n : Z) : Prop :=
  forall a b, 0 <= a < b -> i < b -> b < n -> cmp (znth NULL d a) (znth NULL d b) <= 0.

Lemma remove_max_spec (call_cmp_func : Z -> Z -> Z -> Z) fuel : forall sk i,
  call_cmp_func (comp sk) = cmp -> array_ok sk -> 0 <= i < num sk -> (Z.to_nat i <= fuel)%nat ->
  heap_from (data sk) 0 (i + 1) -> placed (data sk) i (num sk) ->
  exists d, remove_max call_cmp_func fuel sk i = set_data sk d /\ rearranged (num sk) (data sk) d /\
    placed d 0 (num sk).
Proof.
  induction fuel as [|fuel IH]; intros sk i Hcmp [Hnum Hlen] Hi Hf Hheap Hpl; cbn [remove_max].
  { assert (i = 0) as -> by lia. exists (data sk). by rewrite set_data_id. }
  rewrite Z.gtb_ltb. destruct (Z.ltb_spec 0 i) as [Hi0|Hi0].
  2:{ assert (i = 0) as -> by lia. exists (data sk). by rewrite set_data_id. }
  pose proof (zlen_swap (data sk) 0 i) as Hsl.
  assert (Hswap : forall j, 0 <= j -> znth NULL (swap (data sk) 0 i) j =
    if j =? i then znth NULL (data sk) 0 else if j =? 0 then znth NULL (data sk) i else znth NULL (data sk) j)
    by (intros j Hj; apply znth_swap; lia).
  destruct (down_heap_spec call_cmp_func (Z.to_nat (num sk)) (set_data sk (swap (data sk) 0 i)) 0 0 i)
    as (d & E & Hr & Hh); [done|lia|lia|cbn [data set_data]; lia|lia| |].
  { cbn [data set_data]. split.
    - intros j c Hj Hj0 Hc Hci. unfold child in Hc. rewrite !Hswap by lia.
      rewrite (proj2 (Z.eqb_neq c i)), (proj2 (Z.eqb_neq c 0)), (proj2 (Z.eqb_neq j i)), (proj2 (Z.eqb_neq j 0)) by lia.
      apply Hheap; unfold child; lia.
    - intros q c Hq Hqi Hc Hcn. unfold child in Hqi. lia. }
  cbn [data set_data] in Hr.
  change (set_data (set_data sk (swap (data sk) 0 i)) d) with (set_data sk d) in E.
  unfold elem. cbn [data set_data]. cbv zeta.
  change (zupd (zupd (data sk) 0 (znth NULL (data sk) i)) i (znth NULL (data sk) 0)) with (swap (data sk) 0 i).
  change (set_data (set_data sk (zupd (data sk) 0 (znth NULL (data sk) i))) (swap (data sk) 0 i))
    with (set_data sk (swap (data sk) 0 i)).
  change (num (set_data sk (swap (data sk) 0 i))) with (num sk). rewrite E.
  assert (Hr2 : rearranged (num sk) (data sk) d).
  { apply (rearranged_trans _ _ (swap (data sk) 0 i)); [apply rearranged_swap; lia|].
    apply (rearranged_le i); [lia|lia|done]. }
  destruct (IH (set_data sk d) (i - 1)) as (d' & E' & Hr' & Hpl').
  - done.
  - split; [done|]. cbn [data set_data num]. destruct Hr2 as (-> & _). done.
  - cbn [num set_data]. lia.
  - lia.
  - cbn [data set_data]. by replace (i - 1 + 1) with i by lia.
  - cbn [data set_data num]. intros a b Hab Hb Hbn.
    rewrite (rearranged_znth i (swap (data sk) 0 i) d b), Hswap by (done || lia).
    (* an element in front of [b] comes from the first [i + 1] or is in its place *)
    assert (Ha : a <= i -> exists j, 0 <= j <= i /\ znth NULL d a = znth NULL (data sk) j).
    { intros Hai. destruct (Z.eq_dec a i) as [->|Hai'].
      - exists 0. rewrite (rearranged_znth i (swap (data sk) 0 i) d i), Hswap, Z.eqb_refl by (done || lia). split; [lia|done].
      - destruct (rearranged_elem i (swap (data sk) 0 i) d a ltac:(lia) Hr ltac:(lia)) as (j & Hj & ->). rewrite Hswap by lia.
        rewrite (proj2 (Z.eqb_neq j i)) by lia. destruct (j =? 0); [exists i|exists j]; split; (done || lia). }
    destruct (Z.eqb_spec b i) as [->|Hbi].
    + destruct Ha as (j & Hj & ->); [lia|]. apply (heap_root _ (i + 1)); [done|lia].
    + rewrite (proj2 (Z.eqb_neq b 0)) by lia. destruct (Z.le_gt_cases a i) as [Hai|Hai].
      * destruct (Ha Hai) as (j & Hj & ->). apply Hpl; lia.
      * rewrite (rearranged_znth i (swap (data sk) 0 i) d a), Hswap by (done || lia).
        rewrite (proj2 (Z.eqb_neq a i)), (proj2 (Z.eqb_neq a 0)) by lia. apply Hpl; lia.
  - exists d'. split_and!; [exact E'| |done]. by apply (rearranged_trans _ _ d).
Qed.
End Sort.

Lemma OPENSSL_sk_sort_facts call_cmp_func sk : array_ok sk -> comp sk <> NULL ->
  CmpOrder (call_cmp_func (comp sk)) ->
  exists sk', OPENSSL_sk_sort call_cmp_func (Some sk) = Some sk' /\
    sorted sk' = true /\ num sk' = num sk /\ num_alloc sk' = num_alloc sk /\ comp sk' = comp sk /\
    rearranged (num sk) (data sk) (data sk') /\ contents sk' ≡ₚ contents sk /\
    (sorted sk = false -> ascending (call_cmp_func (comp sk)) (contents sk')) /\
    (sorted sk = true -> sk' = sk).
Proof.
  intros [Hnum Hlen] Hcomp Hcmp. unfold OPENSSL_sk_sort. rewrite (proj2 (Z.eqb_neq _ _) Hcomp). cbn [orb].
  destruct (sorted sk) eqn:Hs.
  { exists sk. split_and!; (done || apply rearranged_refl). }
  assert (H : exists d, (if num sk >=? 2 then
      remove_max call_cmp_func (Z.to_nat (num (build_heap call_cmp_func (Z.to_nat (num sk)) sk (parent_idx (num sk - 1)))))
        (build_heap call_cmp_func (Z.to_nat (num sk)) sk (parent_idx (num sk - 1)))
        (num (build_heap call_cmp_func (Z.to_nat (num sk)) sk (parent_idx (num sk - 1))) - 1) else sk) = set_data sk d /\
      rearranged (num sk) (data sk) d /\ placed (call_cmp_func (comp sk)) d 0 (num sk)).
  { rewrite Z.geb_leb. destruct (Z.leb_spec 2 (num sk)) as [H2|H2].
    2:{ exists (data sk). rewrite set_data_id. split_and!; [done|apply rearranged_refl|]. intros a b; lia. }
    unfold parent_idx. replace ((num sk - 1 - 1) / 2) with (u64 ((num sk - 2) / 2)).
    2:{ unfold u64, INT_MAX in *. rewrite Z.mod_small by dlia. f_equal. lia. }
    destruct (build_heap_spec (call_cmp_func (comp sk)) call_cmp_func (Z.to_nat (num sk)) sk ((num sk - 2) / 2))
      as (d & -> & Hr & Hh); [done|done|dlia|dlia| |].
    { intros j c Hj Hc Hcn. unfold child in Hc. dlia. }
    cbn [num set_data]. destruct (remove_max_spec (call_cmp_func (comp sk)) call_cmp_func (Z.to_nat (num sk)) (set_data sk d) (num sk - 1))
      as (d' & -> & Hr' & Hp).
    - done.
    - split; [done|]. cbn [data set_data num]. by destruct Hr as (-> & _).
    - cbn [num set_data]. lia.
    - lia.
    - cbn [data set_data]. by replace (num sk - 1 + 1) with (num sk) by lia.
    - cbn [data set_data num]. intros a b; lia.
    - exists d'. split_and!; [done| |done]. by apply (rearranged_trans _ _ d). }
  destruct H as (d & E & Hr & Hp). exists (set_sorted (set_data sk d) true). split.
  { cbv zeta. by rewrite E. }
  unfold contents. cbn [sorted num num_alloc comp data set_sorted set_data].
  split_and!; try done; [by destruct Hr as (_ & _ & ?)|]. intros _ a b Hab Hb.
  destruct Hr as (Hl & _). rewrite zlen_ztake in Hb by lia. rewrite !znth_ztake by lia. apply Hp; lia.
Qed.

(** [OPENSSL_sk_sort] on an unsorted stack with a comparison function that is
    an order: the elements come out in ascending order and are a permutation of
    those that went in; the spare slots, the number of elements and the function
    are as before, and the stack is marked sorted. A stack already marked sorted
    is left alone. *)
Theorem OPENSSL_sk_sort_sorts call_cmp_func sk : array_ok sk -> comp sk <> NULL ->
  CmpOrder (call_cmp_func (comp sk)) ->
  exists sk', OPENSSL_sk_sort call_cmp_func (Some sk) = Some sk' /\
    sorted sk' = true /\ num sk' = num sk /\ num_alloc sk' = num_alloc sk /\ comp sk' = comp sk /\
    rearranged (num sk) (data sk) (data sk') /\ contents sk' ≡ₚ contents sk /\
    (sorted sk = false -> ascending (call_cmp_func (comp sk)) (contents sk')) /\
    (sorted sk = true -> sk' = sk).
Proof. apply OPENSSL_sk_sort_facts. Qed.

(** The order of the addresses, which is one. *)
#[export] Instance sub_order : CmpOrder Z.sub.
Proof. split; lia. Qed.

Lemma OPENSSL_sk_sort_sorts_witness :
  exists sk', OPENSSL_sk_sort (fun _ => Z.sub) (Some (mk_stack 3 [30; 10; 20; 7] false 4 1)) = Some sk' /\
    ascending Z.sub (contents sk').
Proof.
  destruct (OPENSSL_sk_sort_sorts (fun _ => Z.sub) (mk_stack 3 [30; 10; 20; 7] false 4 1)) as (sk' & E & H);
    [split; [split|]; vm_compute; discriminate|discriminate|apply sub_order|].
  exists sk'. split; [exact E|]. apply H. reflexivity.
Defined.

(** ** Searching *)

(** What [OPENSSL_sk_find] takes for equal to [p]. *)
Definition matches (call_cmp_func : Z -> Z -> Z -> Z) (sk : OPENSSL_STACK) (p x : Z) : bool :=
  if comp sk =? NULL then x =? p else negb (p =? NULL) && (call_cmp_func (comp sk) p x =? 0).

(** The first element that passes a test. *)
Definition is_first (test : Z -> bool) (l : list Z) (r : option Z) : Prop :=
  match r with
  | Some i => 0 <= i < zlen l /\ test (znth NULL l i) = true /\ forall j, 0 <= j < i -> test (znth NULL l j) = false
  | None => forall j, 0 <= j < zlen l -> test (znth NULL l j) = false
  end.

Lemma znth_cons x l j : 0 <= j -> znth NULL (x :: l) j = if j =? 0 then x else znth NULL l (j - 1).
Proof.
  intros Hj. unfold znth. destruct (Z.eqb_spec j 0) as [->|Hne]; [done|].
  replace (Z.to_nat j) with (S (Z.to_nat (j - 1))) by lia. done.
Qed.

Lemma first_index_is_first test l : forall i,
  is_first test l (option_map (fun j => j - i) (first_index test l i)).
Proof.
  induction l as [|x l IH]; intros i; cbn [first_index].
  { intros j Hj. change (zlen (@nil Z)) with 0 in Hj. lia. }
  destruct (test x) eqn:Hx; cbn [option_map is_first].
  { rewrite zlen_cons, Z.sub_diag. zlen_pos. split_and!; [lia|lia|done|lia]. }
  specialize (IH (i + 1)). destruct (first_index test l (i + 1)) as [k|]; cbn [option_map is_first] in *.
  - destruct IH as (Hk & Ht & Hj). rewrite zlen_cons. split_and!; [lia|lia| |].
    + rewrite znth_cons by lia. rewrite (proj2 (Z.eqb_neq _ _)) by lia. by replace (k - i - 1) with (k - (i + 1)) by lia.
    + intros j Hj'. rewrite znth_cons by lia. destruct (Z.eqb_spec j 0); [done|]. apply Hj. lia.
  - intros j Hj. rewrite zlen_cons in Hj. rewrite znth_cons by lia. destruct (Z.eqb_spec j 0); [done|]. apply IH. lia.
Qed.

Lemma first_index_0 test l : is_first test l (first_index test l 0).
Proof.
  pose proof (first_index_is_first test l 0) as H. destruct (first_index test l 0); [|done].
  cbn [option_map] in H. by rewrite Z.sub_0_r in H.
Qed.

(** The interval of the binary search holds the first match, if there is one. *)
Lemma find_loop_is_first call_cmp_func sk p fuel : CmpOrder (call_cmp_func (comp sk)) ->
  forall lo hi, 0 <= lo -> hi <= num sk -> (Z.to_nat (hi - lo) <= fuel)%nat ->
  let test x := call_cmp_func (comp sk) p x =? 0 in
  (forall a b, 0 <= a < b -> b < num sk -> call_cmp_func (comp sk) (elem sk a) (elem sk b) <= 0) ->
  (forall j, 0 <= j < lo -> test (elem sk j) = false) ->
  (forall j, hi <= j < num sk -> test (elem sk j) = true -> exists j', lo <= j' < hi /\ test (elem sk j') = true) ->
  match find_loop call_cmp_func fuel sk p lo hi with
  | Some i => 0 <= i < num sk /\ test (elem sk i) = true /\ forall j, 0 <= j < i -> test (elem sk j) = false
  | None => forall j, 0 <= j < num sk -> test (elem sk j) = false
  end.
Proof.
  intros Hcmp. set (cmp := call_cmp_func (comp sk)) in *.
  assert (Hnone : forall lo hi, (forall j, 0 <= j < lo -> (cmp p (elem sk j) =? 0) = false) ->
    (forall j, hi <= j < num sk -> (cmp p (elem sk j) =? 0) = true -> exists j', lo <= j' < hi /\ (cmp p (elem sk j') =? 0) = true) ->
    hi <= lo -> forall j, 0 <= j < num sk -> (cmp p (elem sk j) =? 0) = false).
  { intros lo hi H1 H2 Hle j Hj. destruct (Z.lt_ge_cases j lo) as [Hjl|Hjl]; [by apply H1; lia|].
    destruct (cmp p (elem sk j) =? 0) eqn:E; [|done]. destruct (H2 j) as (? & ? & _); [lia|done|lia]. }
  induction fuel as [|fuel IH]; intros lo hi Hlo Hhi Hf test Hasc Hbelow Habove; cbn [find_loop].
  { apply (Hnone lo hi Hbelow Habove). lia. }
  destruct (Z.ltb_spec lo hi) as [Hlt|Hge]; [|by apply (Hnone lo hi Hbelow Habove)].
  cbv zeta. set (mid := lo + (hi - lo - 1) / 2). assert (Hmid : lo <= mid < hi) by (unfold mid; dlia).
  assert (Hmid1 : hi - lo <> 1 -> mid + 1 < hi) by (unfold mid; dlia).
  assert (Hmid0 : hi - lo = 1 -> mid = lo) by (unfold mid; dlia). clearbody mid.
  fold cmp. rewrite Z.gtb_ltb. destruct (Z.ltb_spec 0 (cmp p (elem sk mid))) as [Hpos|Hpos].
  - (* everything up to [mid] is below [p] *)
    assert (Hup : forall j, 0 <= j <= mid -> test (elem sk j) = false).
    { intros j Hj. unfold test. apply Z.eqb_neq. intros E.
      destruct (Z.eq_dec j mid) as [->|]; [lia|].
      assert (cmp p (elem sk mid) <= 0); [|lia].
      apply (cmp_trans _ (elem sk j)); [lia|]. apply Hasc; lia. }
    apply IH; [lia|lia|lia|done|intros j Hj; apply Hup; lia|].
    intros j Hj Ht. destruct (Habove j Hj Ht) as (j' & Hj' & Ht'). exists j'. split; [|done].
    destruct (Z.le_gt_cases j' mid) as [Hle|]; [|lia]. pose proof (Hup j' ltac:(lia)). unfold test in *. congruence.
  - destruct (Z.ltb_spec (cmp p (elem sk mid)) 0) as [Hneg|Hneg].
    + (* everything from [mid] on is above [p] *)
      assert (Hdown : forall j, mid <= j < num sk -> test (elem sk j) = false).
      { intros j Hj. unfold test. apply Z.eqb_neq. intros E.
        destruct (Z.eq_dec j mid) as [->|]; [lia|].
        assert (Hjp : cmp (elem sk j) p <= 0) by (apply (cmp_ge cmp); lia).
        assert (cmp (elem sk mid) p <= 0) by (apply (cmp_trans _ (elem sk j)); [apply Hasc; lia|done]).
        apply cmp_flip in Hneg. lia. }
      apply IH; [lia|lia|lia|done|done|]. intros j Hj Ht. pose proof (Hdown j ltac:(lia)). unfold test in *. congruence.
    + assert (Ht : test (elem sk mid) = true) by (unfold test; apply Z.eqb_eq; lia).
      destruct (Z.eqb_spec (hi - lo) 1) as [H1|H1].
      * split_and!; [lia|lia|done|]. intros j Hj. apply Hbelow. rewrite <- (Hmid0 H1). lia.
      * apply IH; [lia|specialize (Hmid1 H1); lia|specialize (Hmid1 H1); lia|done|done|].
        intros j Hj _. exists mid. split; [lia|done].
Qed.

Lemma find_facts call_cmp_func sk p : array_ok sk ->
  (comp sk <> NULL -> sorted sk = true ->
   CmpOrder (call_cmp_func (comp sk)) /\ ascending (call_cmp_func (comp sk)) (contents sk)) ->
  is_first (matches call_cmp_func sk p) (contents sk) (OPENSSL_sk_find call_cmp_func (Some sk) p).
Proof.
  intros [Hnum Hlen] Hsorted. unfold OPENSSL_sk_find, matches, contents, OPENSSL_sk_is_sorted.
  assert (Hl : zlen (ztake (num sk) (data sk)) = num sk) by (apply zlen_ztake; lia).
  destruct (Z.eqb_spec (comp sk) NULL) as [Hc|Hc]; [apply first_index_0|].
  destruct (Z.eqb_spec p NULL) as [Hp|Hp]; [done|]. cbn [negb andb].
  destruct (sorted sk) eqn:Hs; cbn [orb negb].
  - destruct (Hsorted Hc eq_refl) as [Hcmp Hasc].
    assert (Hasc' : forall a b, 0 <= a < b -> b < num sk -> call_cmp_func (comp sk) (elem sk a) (elem sk b) <= 0).
    { intros a b Hab Hb. specialize (Hasc a b). unfold contents in Hasc.
      rewrite Hl, !znth_ztake in Hasc by lia. by apply Hasc. }
    pose proof (find_loop_is_first call_cmp_func sk p (Z.to_nat (num sk)) Hcmp 0 (num sk)
      ltac:(lia) ltac:(lia) ltac:(lia) Hasc' ltac:(lia) ltac:(lia)) as H.
    destruct (find_loop _ _ _ _ _ _) as [i|]; cbn [is_first]; rewrite Hl.
    + destruct H as (Hi & Ht & Hj). rewrite znth_ztake by lia. split_and!; [lia|lia|done|].
      intros j Hj'. rewrite znth_ztake by lia. by apply Hj.
    + intros j Hj. rewrite znth_ztake by lia. by apply H.
  - destruct (Z.ltb_spec (num sk) 2) as [H2|H2]; cbn [negb]; [|apply first_index_0].
    (* one round of the search is enough *)
    assert (num sk = 0 \/ num sk = 1) as [Hn|Hn] by lia; rewrite Hn in *; cbn [Z.to_nat].
    { intros j Hj. lia. }
    change (Z.to_nat 1) with 1%nat. cbn [find_loop]. cbv zeta. change (0 <? 1) with true.
    change (0 + (1 - 0 - 1) / 2) with 0. change (1 - 0 =? 1) with true. cbv iota. unfold elem.
    rewrite Z.gtb_ltb. destruct (Z.ltb_spec 0 (call_cmp_func (comp sk) p (znth NULL (data sk) 0))) as [G|G]; cbn [is_first].
    { intros j Hj. assert (j = 0) as -> by lia. rewrite znth_ztake by lia. apply Z.eqb_neq. lia. }
    destruct (Z.ltb_spec (call_cmp_func (comp sk) p (znth NULL (data sk) 0)) 0) as [G'|G']; cbn [is_first].
    { intros j Hj. assert (j = 0) as -> by lia. rewrite znth_ztake by lia. apply Z.eqb_neq. lia. }
    rewrite znth_ztake by lia. split_and!; [lia|lia|apply Z.eqb_eq; lia|lia].
Qed.

(** [OPENSSL_sk_find] returns the position of the first element equal to [p]
    by the comparison function (by address, if there is none), or none when no
    element is: the binary search used when the stack is marked sorted, by an
    order and truthfully, agrees with the linear search. *)
Theorem OPENSSL_sk_find_first call_cmp_func sk p : array_ok sk ->
  (comp sk <> NULL -> sorted sk = true ->
   CmpOrder (call_cmp_func (comp sk)) /\ ascending (call_cmp_func (comp sk)) (contents sk)) ->
  is_first (matches call_cmp_func sk p) (contents sk) (OPENSSL_sk_find call_cmp_func (Some sk) p).
Proof. apply find_facts. Qed.

Lemma OPENSSL_sk_find_first_witness :
  is_first (matches (fun _ => Z.sub) (mk_stack 3 [10; 20; 20; 7] true 4 1) 20) [10; 20; 20]
    (OPENSSL_sk_find (fun _ => Z.sub) (Some (mk_stack 3 [10; 20; 20; 7] true 4 1)) 20).
Proof.
  apply (OPENSSL_sk_find_first (fun _ => Z.sub) (mk_stack 3 [10; 20; 20; 7] true 4 1) 20).
  - split; [split; vm_compute; discriminate|vm_compute; discriminate].
  - intros _ _. split; [apply sub_order|]. intros a b Hab Hb. change (zlen (contents _)) with 3 in Hb.
    assert (H : (a = 0 /\ b = 1) \/ (a = 0 /\ b = 2) \/ (a = 1 /\ b = 2)) by lia.
    destruct_or! H; destruct H as [-> ->]; vm_compute; discriminate.
Defined.
