(* ===== verification/StackOps.v ===== *)
(** * Stacks as lists (theorems about Stack.v)

    The operations on the array refine operations on the list of elements, the
    [sorted] flag tells the truth as long as [OPENSSL_sk_set] is not used, and a
    deep copy that fails leaks nothing. *)

From S2P Require Import Prelude Mem Stack StackSort.

(** ** Representation *)

Definition stk (sk : OPENSSL_STACK) (l : list Z) : Prop :=
  num sk = zlen l /\ (exists spare, data sk = l ++ spare) /\ zlen (data sk) = num_alloc sk /\
  zlen l <= INT_MAX /\ 4 <= num_alloc sk <= 2 ^ 32.

Lemma stk_contents sk l : stk sk l -> contents sk = l.
Proof. intros (Hn & (u & Hu) & _). unfold contents. rewrite Hn, Hu. by apply ztake_app. Qed.

Lemma stk_array_ok sk l : stk sk l -> array_ok sk.
Proof.
  intros (Hn & (u & Hu) & _ & Hm & _). split; [zlen_pos; lia|]. rewrite Hn, Hu, zlen_app. zlen_pos. lia.
Qed.

Lemma zupd_middle {A} (k : list A) y x t i : zlen k = i -> zupd (k ++ y :: t) i x = k ++ x :: t.
Proof.
  intros <-. unfold zupd. rewrite zlen_to_nat, insert_app_r_alt by lia. by rewrite Nat.sub_diag.
Qed.

Lemma znth_middle k x t i : zlen k = i -> znth NULL (k ++ x :: t) i = x.
Proof.
  intros <-. unfold znth. rewrite zlen_to_nat, nth_lookup, lookup_app_r by lia. by rewrite Nat.sub_diag.
Qed.

Lemma znth_app l u i : 0 <= i < zlen l -> znth NULL (l ++ u) i = znth NULL l i.
Proof. intros Hi. unfold znth, zlen in *. rewrite !nth_lookup, lookup_app_l by lia. done. Qed.

(** The element at a position and what is around it. *)
Lemma split_at l i : 0 <= i < zlen l -> exists a b, l = a ++ znth NULL l i :: b /\ zlen a = i.
Proof.
  intros Hi. destruct (zsplit i l) as (a & b & E & Ha); [lia|]. exists a.
  destruct b as [|x b]; [rewrite E, app_nil_r in Hi; lia|]. exists b.
  subst l. by rewrite znth_middle.
Qed.

Section Ops.
Context `{Allocator}.

Lemma sk_new_spec c sk : OPENSSL_sk_new c = Some sk -> stk sk [] /\ sorted sk = false /\ comp sk = c.
Proof.
  unfold OPENSSL_sk_new. destruct (OPENSSL_zalloc 40); [|discriminate].
  destruct (OPENSSL_calloc _ _); [|discriminate]. intros E. injection E as <-. split; [|done].
  split_and!; [done|by eexists|done|vm_compute; discriminate..].
Qed.

Lemma zlen_fresh_ptrs n : 0 <= n -> zlen (fresh_ptrs n) = n.
Proof. intros Hn. unfold fresh_ptrs, zlen. rewrite length_map, length_seq. lia. Qed.

Lemma sk_grow_spec sk l : stk sk l -> zlen l < INT_MAX ->
  match sk_grow sk with
  | Some sk' => stk sk' l /\ zlen l < num_alloc sk' /\ sorted sk' = sorted sk /\ comp sk' = comp sk
  | None => exists n, malloc_ok n = false
  end.
Proof.
  intros (Hn & (u & Hu) & Ha & Hm & Hr) Hlt. unfold sk_grow. rewrite Hn. unfold INT_MAX in *. zlen_pos.
  change (2 ^ 32) with 4294967296 in *.
  assert (Hle : zlen l <= num_alloc sk) by (rewrite <- Ha, Hu, zlen_app; zlen_pos; lia).
  destruct (Z.leb_spec (num_alloc sk) (zlen l + 1)) as [Hfull|Hroom].
  2:{ split; [|split_and!; [lia|done|done]]. split_and!; [done|by exists u|done|done|lia|lia]. }
  cbv zeta. rewrite Z.shiftl_mul_pow2 by lia. change (2 ^ 1) with 2. unfold u64, sizeof_ptr.
  rewrite (Z.mod_small (num_alloc sk * 2)) by lia. rewrite (Z.mod_small (num_alloc sk * 2 * 8)) by lia.
  rewrite Z.div_mul, Z.eqb_refl by lia. rewrite (proj2 (Z.ltb_ge (num_alloc sk * 2) (num_alloc sk))) by lia.
  cbn [negb orb]. rewrite Z.div_mul, Z.eqb_refl by lia.
  rewrite (proj2 (Z.ltb_ge (num_alloc sk * 2) (num_alloc sk))) by lia. cbn [negb orb].
  unfold OPENSSL_realloc, OPENSSL_malloc, OPENSSL_MALLOC_PREFIX, u64.
  rewrite (Z.mod_small (num_alloc sk * 2 * 8 + 8)) by lia. rewrite (proj2 (Z.ltb_ge _ _)) by lia.
  destruct (malloc_ok _) eqn:E; [|by eexists]. rewrite ztake_all by lia.
  split; [|cbn [num_alloc sorted comp]; split_and!; [lia|done|done]].
  unfold stk. cbn [num data num_alloc]. rewrite Hu, <- app_assoc. split_and!; [done|by eexists| |done|lia|lia].
  rewrite app_assoc, <- Hu, zlen_app, zlen_fresh_ptrs; lia.
Qed.

(** [p] inserted in front of position [w], or at the end. *)
Definition inserted (p w : Z) (l : list Z) : list Z := ztake w l ++ p :: zdrop w l.

Lemma sk_insert_spec sk l p w : stk sk l -> 0 <= w ->
  exists r sk', OPENSSL_sk_insert (Some sk) p w = (r, Some sk') /\ comp sk' = comp sk /\
    ((r = 0 /\ sk' = sk /\ (INT_MAX <= zlen l \/ exists n, malloc_ok n = false)) \/
     (r = zlen l + 1 /\ stk sk' (inserted p w l) /\ sorted sk' = false)).
Proof.
  intros Hs Hw. pose proof Hs as (Hn & _ & _ & Hm & _). unfold OPENSSL_sk_insert. rewrite Hn, Z.geb_leb.
  destruct (Z.leb_spec INT_MAX (zlen l)) as [Hmax|Hmax].
  { exists 0, sk. split_and!; [done..|]. left. split_and!; [done..|]. by left. }
  pose proof (sk_grow_spec sk l Hs Hmax) as Hg. destruct (sk_grow sk) as [sk1|].
  2:{ exists 0, sk. split_and!; [done..|]. left. split_and!; [done..|]. by right. }
  destruct Hg as ((Hn1 & (u & Hu) & Ha & _ & Hr) & Hroom & _ & Hcomp). clear Hs Hn. rewrite Hn1, Z.geb_leb.
  rewrite Hu, zlen_app in Ha. destruct u as [|y u]; [change (zlen (@nil Z)) with 0 in Ha; lia|].
  eexists _, _. split; [reflexivity|]. split; [done|]. right. cbn [num comp sorted set_num set_sorted set_data].
  split_and!; [done| |done]. rewrite zlen_cons in Ha.
  assert (Hgoal : forall d, d = inserted p w l ++ u -> stk (set_sorted (set_num (set_data sk1 d) (zlen l + 1)) false) (inserted p w l)).
  { intros d ->. assert (Hlen : zlen (inserted p w l) = zlen l + 1).
    { unfold inserted. rewrite zlen_app, zlen_cons.
      assert (zlen (ztake w l) + zlen (zdrop w l) = zlen l) by (by rewrite <- zlen_app, ztake_zdrop). lia. }
    unfold stk. cbn [num data num_alloc set_num set_sorted set_data]. rewrite zlen_app, Hlen.
    split_and!; [done|by eexists|lia|lia|lia|lia]. }
  apply Hgoal. clear Hgoal. rewrite Hu. destruct (Z.leb_spec (zlen l) w) as [Hend|Hin].
  - unfold inserted. rewrite ztake_all, zdrop_all by done. by rewrite zupd_middle, <- app_assoc.
  - destruct (zsplit w l) as (a & b & -> & Ha'); [lia|]. unfold inserted. rewrite <- (app_assoc a), ztake_app by done.
    rewrite !zdrop_app by done. rewrite zlen_app in *. rewrite ztake_app by lia.
    destruct b as [|x b]; [change (zlen (@nil Z)) with 0 in Hin; lia|].
    rewrite (store_app _ _ _ (a ++ [x]) (b ++ [y]) u);
      [|by rewrite <- !app_assoc|rewrite zlen_app; change (zlen [x]) with 1; lia
       |rewrite zlen_app, !zlen_cons; change (zlen (@nil Z)) with 0; lia].
    rewrite <- app_assoc. cbn [app]. rewrite zupd_middle by done. by rewrite <- app_assoc.
Qed.

Lemma sk_delete_spec sk l w : stk sk l -> 0 <= w ->
  exists sk', OPENSSL_sk_delete (Some sk) w =
    (if zlen l <=? w then NULL else znth NULL l w, Some sk') /\
    stk sk' (ztake w l ++ zdrop (w + 1) l) /\ sorted sk' = sorted sk /\ comp sk' = comp sk.
Proof.
  intros Hs Hw. pose proof Hs as (Hn & (u & Hu) & Ha & Hm & Hr). unfold OPENSSL_sk_delete. rewrite Hn, Z.geb_leb.
  destruct (Z.leb_spec (zlen l) w) as [Hout|Hin].
  { exists sk. split; [done|]. rewrite ztake_all, zdrop_all, app_nil_r by lia. done. }
  destruct (split_at l w) as (a & b & Hl & Haw); [lia|]. set (x := znth NULL l w) in *. clearbody x. subst l.
  unfold elem. rewrite Hu, <- app_assoc. cbn [app].
  rewrite znth_middle by done. eexists. split; [reflexivity|]. cbn [sorted comp set_num set_data]. split; [|done].
  rewrite Hu, !zlen_app, zlen_cons in Ha. rewrite zlen_app, zlen_cons in Hin, Hm |- *.
  rewrite (ztake_app w a (x :: b)) by done. rewrite (app_cons_snoc a x b), (zdrop_app (w + 1) (a ++ [x]) b) by (rewrite zlen_app; change (zlen [x]) with 1; lia).
  assert (Hgoal : forall d spare, d = (a ++ b) ++ spare -> zlen spare = 1 + zlen u ->
    stk (set_num (set_data sk d) (zlen a + (1 + zlen b) - 1)) (a ++ b)).
  { intros d spare -> Hsp. unfold stk. cbn [num data num_alloc set_num set_data]. rewrite !zlen_app.
    split_and!; [lia|by eexists|lia|lia|lia|lia]. }
  destruct (Z.eqb_spec w (zlen a + (1 + zlen b) - 1)) as [Hlast|Hmid]; cbn [negb].
  - assert (b = []) as -> by (apply zlen_0_nil; lia). cbn [app].
    change (1 + zlen (@nil Z)) with 1 in *. apply (Hgoal _ (x :: u)); [by rewrite app_nil_r|by rewrite zlen_cons].
  - rewrite (app_cons_snoc a x (b ++ u)), (zdrop_app (w + 1) (a ++ [x]) (b ++ u)) by (rewrite zlen_app; change (zlen [x]) with 1; lia).
    rewrite ztake_app by lia.
    (* the block moved down ends with a copy of its last element *)
    destruct (exists_last (l := b)) as (b' & z & ->); [intros ->; change (zlen (@nil Z)) with 0 in *; lia|].
    apply (Hgoal _ (z :: u)); [|by rewrite zlen_cons].
    rewrite (store_app _ _ _ a (x :: b') (z :: u)); [by rewrite <- !app_assoc| |lia|].
    + rewrite <- !app_assoc. cbn [app]. done.
    + rewrite zlen_cons, zlen_app. change (zlen [z]) with 1. lia.
Qed.

(** The array may change as long as the elements do not. *)
Lemma stk_data sk l d l' spare : stk sk l -> d = l' ++ spare -> zlen d = zlen (data sk) -> zlen l' = zlen l ->
  stk (set_data sk d) l'.
Proof.
  intros (Hn & _ & Ha & Hm & Hr) -> Hd Hl. unfold stk. cbn [num data num_alloc set_data].
  split_and!; [lia|by eexists|lia|lia|lia|lia].
Qed.

Lemma sk_set_spec sk l i v : stk sk l -> 0 <= i ->
  exists sk', OPENSSL_sk_set (Some sk) i v = (if zlen l <=? i then NULL else v, Some sk') /\
    stk sk' (zupd l i v) /\ comp sk' = comp sk.
Proof.
  intros Hs Hi. pose proof Hs as (Hn & (u & Hu) & _). unfold OPENSSL_sk_set. rewrite Hn, Z.geb_leb.
  destruct (Z.leb_spec (zlen l) i) as [Hout|Hin].
  { exists sk. split; [done|]. split; [|done]. unfold zupd. rewrite list_insert_ge; [done|]. unfold zlen in Hout. lia. }
  eexists. split; [done|]. split; [|done]. apply (stk_data sk l _ _ u); [done| |by rewrite zlen_zupd|by rewrite zlen_zupd].
  rewrite Hu. unfold zupd, zlen in *. rewrite insert_app_l by lia. done.
Qed.

Lemma sk_zero_spec sk l : stk sk l ->
  exists sk', OPENSSL_sk_zero (Some sk) = Some sk' /\ stk sk' [] /\ comp sk' = comp sk /\
    (sorted sk' = true -> sorted sk = true).
Proof.
  intros Hs. pose proof Hs as (Hn & (u & Hu) & Ha & Hm & Hr). unfold OPENSSL_sk_zero. rewrite Hn.
  destruct (Z.eqb_spec (zlen l) 0) as [E|E].
  { exists sk. apply zlen_0_nil in E as ->. done. }
  eexists. split; [done|]. split; [|done]. unfold stk. cbn [num data num_alloc set_num set_sorted set_data].
  split_and!; [done|by eexists| |done|lia|lia]. rewrite <- Ha. apply zlen_store; [done|].
  rewrite zlen_replicate, Hu, zlen_app. zlen_pos. lia.
Qed.

(** What a stateful predicate leaves of a list. *)
Fixpoint kept {W} (call_func : Z -> Z -> W -> bool * W) (func : Z) (l : list Z) (w : W) : list Z * W :=
  match l with
  | [] => ([], w)
  | x :: l =>
      let '(b, w) := call_func func x w in
      let '(k, w) := kept call_func func l w in
      (if b then k else x :: k, w)
  end.

Lemma delete_if_loop_spec {W} (call_func : Z -> Z -> W -> bool * W) func r : forall k g u w,
  exists spare, delete_if_loop call_func func (length r) (zlen (k ++ g)) (zlen k) (k ++ g ++ r ++ u) w =
    ((k ++ fst (kept call_func func r w)) ++ spare, zlen (k ++ fst (kept call_func func r w)), snd (kept call_func func r w)) /\
    zlen (k ++ g ++ r ++ u) = zlen ((k ++ fst (kept call_func func r w)) ++ spare).
Proof.
  induction r as [|x r IH]; intros k g u w.
  { exists (g ++ u). cbn [length delete_if_loop kept fst snd app]. by rewrite app_nil_r. }
  cbn [length delete_if_loop kept]. cbn [app].
  rewrite (app_assoc k g), (znth_middle (k ++ g) x) by done.
  destruct (call_func func x w) as [b w1]. destruct (kept call_func func r w1) as [k2 w2] eqn:E.
  destruct b; cbn [negb fst snd].
  - destruct (IH k (g ++ [x]) u w1) as (spare & Hloop & Hl). rewrite E in Hloop, Hl. cbn [fst snd] in Hloop, Hl. exists spare.
    assert (Hz : zlen (k ++ g ++ [x]) = zlen (k ++ g) + 1) by (rewrite !zlen_app; change (zlen [x]) with 1; lia).
    assert (Hd : k ++ (g ++ [x]) ++ r ++ u = (k ++ g) ++ x :: r ++ u) by (by rewrite <- !app_assoc).
    rewrite Hz, Hd in Hloop. rewrite Hd in Hl. done.
  - assert (Hupd : zupd ((k ++ g) ++ x :: r ++ u) (zlen k) x = (k ++ [x]) ++ (match g with [] => [] | _ :: g => g ++ [x] end) ++ r ++ u).
    { destruct g as [|z g].
      - rewrite app_nil_r, zupd_middle by done. by rewrite <- app_assoc.
      - rewrite <- app_assoc. cbn [app]. rewrite zupd_middle by done. rewrite <- !app_assoc. done. }
    destruct (IH (k ++ [x]) (match g with [] => [] | _ :: g => g ++ [x] end) u w1) as (spare & Hloop & Hl).
    rewrite E in Hloop, Hl. cbn [fst snd] in Hloop, Hl. exists spare. rewrite Hupd.
    assert (Hz : zlen ((k ++ [x]) ++ match g with [] => [] | _ :: g => g ++ [x] end) = zlen (k ++ g) + 1).
    { destruct g; rewrite ?app_nil_r, !zlen_app, ?zlen_app, !zlen_cons; change (zlen (@nil Z)) with 0; lia. }
    rewrite Hz, (zlen_app k [x]) in Hloop. change (zlen [x]) with 1 in Hloop. rewrite Hloop.
    split; [by rewrite <- !app_assoc|]. rewrite <- Hupd, zlen_zupd in Hl. rewrite Hl, <- !app_assoc. done.
Qed.

Lemma kept_sublist {W} (call_func : Z -> Z -> W -> bool * W) func l : forall w, fst (kept call_func func l w) `sublist_of` l.
Proof.
  induction l as [|x l IH]; intros w; cbn [kept fst]; [constructor|].
  destruct (call_func func x w) as [b w1]. specialize (IH w1). destruct (kept call_func func l w1) as [k w2].
  cbn [fst] in *. destruct b; by constructor.
Qed.

Lemma sk_delete_if_spec {W} sk l (call_func : Z -> Z -> W -> bool * W) func w : stk sk l ->
  exists sk', OPENSSL_sk_delete_if (Some sk) call_func func w = (Some sk', snd (kept call_func func l w)) /\
    stk sk' (fst (kept call_func func l w)) /\ sorted sk' = sorted sk /\ comp sk' = comp sk.
Proof.
  intros (Hn & (u & Hu) & Ha & Hm & Hr). unfold OPENSSL_sk_delete_if. rewrite Hn, zlen_to_nat, Hu.
  destruct (delete_if_loop_spec call_func func l [] [] u w) as (spare & E & Hl). cbn [app] in E, Hl.
  change (zlen (@nil Z)) with 0 in E. rewrite E. eexists. split; [done|]. split; [|done].
  assert (Hle : zlen (fst (kept call_func func l w)) <= zlen l).
  { unfold zlen. pose proof (sublist_length _ _ (kept_sublist call_func func l w)). lia. }
  unfold stk. cbn [num data num_alloc set_num set_data]. rewrite <- Hl, <- Hu.
  split_and!; [done|by eexists|lia|lia|lia|lia].
Qed.

(** The first occurrence of [p], if there is one. *)
Definition without (p : Z) (l : list Z) : list Z :=
  match first_index (fun x => x =? p) l 0 with
  | Some i => ztake i l ++ zdrop (i + 1) l
  | None => l
  end.

Lemma sk_delete_ptr_spec sk l p : stk sk l ->
  exists sk', OPENSSL_sk_delete_ptr (Some sk) p = (if bool_decide (p ∈ l) then p else NULL, Some sk') /\
    stk sk' (without p l) /\ sorted sk' = sorted sk /\ comp sk' = comp sk.
Proof.
  intros Hs. unfold OPENSSL_sk_delete_ptr, without. fold (contents sk). rewrite (stk_contents sk l Hs).
  pose proof (first_index_0 (fun x => x =? p) l) as H1. destruct (first_index _ l 0) as [i|]; cbn [is_first] in H1.
  - destruct H1 as (Hi & Hp & _). apply Z.eqb_eq in Hp.
    destruct (sk_delete_spec sk l i Hs ltac:(lia)) as (sk' & E & H2). exists sk'. rewrite E.
    rewrite (proj2 (Z.leb_gt _ _)) by lia. rewrite bool_decide_eq_true_2; [by rewrite Hp|].
    apply elem_of_znth. by exists i.
  - exists sk. rewrite bool_decide_eq_false_2; [done|]. intros Hin. apply elem_of_znth in Hin as (j & Hj & ->).
    specialize (H1 j Hj). rewrite Z.eqb_refl in H1. done.
Qed.
End Ops.

(** ** Sequences of operations *)

Inductive sk_op :=
  | Insert (p w : Z) | Push (p : Z) | Set_ (i v : Z) | Delete (w : Z) | DeletePtr (p : Z)
  | DeleteIf (f : Z -> bool) | Shift | Pop | Zero | Sort | SetCmp (c : Z).

(** Positions are unsigned. *)
Definition op_ok (op : sk_op) : Prop :=
  match op with Insert _ w => 0 <= w | Set_ i _ => 0 <= i | Delete w => 0 <= w | _ => True end.

Section Run.
Context `{Allocator} (call_cmp_func : Z -> Z -> Z -> Z).

Definition run_op (sk : OPENSSL_STACK) (op : sk_op) : Z * option OPENSSL_STACK :=
  match op with
  | Insert p w => OPENSSL_sk_insert (Some sk) p w
  | Push p => OPENSSL_sk_push sk p
  | Set_ i v => OPENSSL_sk_set (Some sk) i v
  | Delete w => OPENSSL_sk_delete (Some sk) w
  | DeletePtr p => OPENSSL_sk_delete_ptr (Some sk) p
  | DeleteIf f => (0, fst (OPENSSL_sk_delete_if (Some sk) (fun _ p w => (f p, w)) 0 tt))
  | Shift => OPENSSL_sk_shift (Some sk)
  | Pop => OPENSSL_sk_pop (Some sk)
  | Zero => (0, OPENSSL_sk_zero (Some sk))
  | Sort => (0, OPENSSL_sk_sort call_cmp_func (Some sk))
  | SetCmp c => let '(old, sk) := OPENSSL_sk_set_cmp_func sk c in (old, Some sk)
  end.

(** The results of the operations and the stack they leave. *)
Fixpoint run (sk : OPENSSL_STACK) (ops : list sk_op) : list Z * option OPENSSL_STACK :=
  match ops with
  | [] => ([], Some sk)
  | op :: ops =>
      match run_op sk op with
      | (r, Some sk) => let '(rs, sk) := run sk ops in (r :: rs, sk)
      | (r, None) => ([r], None)
      end
  end.

(** What they mean on a list of elements and a comparison function: an insertion
    may fail, at the limit or when an allocation does. *)
Inductive list_step : list Z * Z -> sk_op -> Z -> list Z * Z -> Prop :=
  | step_insert l c p w : list_step (l, c) (Insert p w) (zlen l + 1) (inserted p w l, c)
  | step_push l c p : list_step (l, c) (Push p) (zlen l + 1) (l ++ [p], c)
  | step_insert_fails l c p w : INT_MAX <= zlen l \/ (exists n, malloc_ok n = false) ->
      list_step (l, c) (Insert p w) 0 (l, c)
  | step_push_fails l c p : INT_MAX <= zlen l \/ (exists n, malloc_ok n = false) ->
      list_step (l, c) (Push p) 0 (l, c)
  | step_set l c i v : list_step (l, c) (Set_ i v) (if zlen l <=? i then NULL else v) (zupd l i v, c)
  | step_delete l c w : list_step (l, c) (Delete w) (if zlen l <=? w then NULL else znth NULL l w)
      (ztake w l ++ zdrop (w + 1) l, c)
  | step_delete_ptr l c p : list_step (l, c) (DeletePtr p) (if bool_decide (p ∈ l) then p else NULL) (without p l, c)
  | step_delete_if l c f : list_step (l, c) (DeleteIf f) 0 (filter (fun p => f p = false) l, c)
  | step_shift_empty c : list_step ([], c) Shift NULL ([], c)
  | step_shift x l c : list_step (x :: l, c) Shift x (l, c)
  | step_pop_empty c : list_step ([], c) Pop NULL ([], c)
  | step_pop x l c : list_step (l ++ [x], c) Pop x (l, c)
  | step_zero l c : list_step (l, c) Zero 0 ([], c)
  | step_sort l l' c : l' ≡ₚ l -> (c = NULL -> l' = l) -> list_step (l, c) Sort 0 (l', c)
  | step_set_cmp l c c' : list_step (l, c) (SetCmp c') c (l, c').

Inductive list_steps : list Z * Z -> list sk_op -> list Z -> list Z * Z -> Prop :=
  | steps_nil s : list_steps s [] [] s
  | steps_cons s op r s' ops rs s'' : list_step s op r s' -> list_steps s' ops rs s'' ->
      list_steps s (op :: ops) (r :: rs) s''.

(** The flag tells the truth. *)
Definition truthful (sk : OPENSSL_STACK) : Prop :=
  sorted sk = true -> comp sk <> NULL /\ ascending (call_cmp_func (comp sk)) (contents sk).

Lemma kept_filter (f : Z -> bool) l : kept (fun _ p w => (f p, w)) 0 l tt = (filter (fun p => f p = false) l, tt).
Proof.
  induction l as [|x l IH]; [done|]. cbn [kept]. rewrite IH, filter_cons. destruct (f x) eqn:E; by case_decide.
Qed.

(** An ascending list stays so when elements go away. *)
Lemma ascending_cons cmp x l :
  ascending cmp (x :: l) <-> (forall y, y ∈ l -> cmp x y <= 0) /\ ascending cmp l.
Proof.
  unfold ascending. setoid_rewrite zlen_cons. split.
  - intros Ha. split.
    + intros y Hy. apply elem_of_znth in Hy as (i & Hi & ->).
      specialize (Ha 0 (i + 1)). rewrite !znth_cons in Ha by lia. rewrite (proj2 (Z.eqb_neq (i + 1) 0)) in Ha by lia.
      cbn [Z.eqb] in Ha. replace (i + 1 - 1) with i in Ha by lia. apply Ha; lia.
    + intros a b Hab Hb. specialize (Ha (a + 1) (b + 1)). rewrite !znth_cons in Ha by lia.
      rewrite !(proj2 (Z.eqb_neq _ 0)) in Ha by lia. replace (a + 1 - 1) with a in Ha by lia.
      replace (b + 1 - 1) with b in Ha by lia. apply Ha; lia.
  - intros [Hx Ha] a b Hab Hb. rewrite !znth_cons by lia. rewrite (proj2 (Z.eqb_neq b 0)) by lia.
    destruct (Z.eqb_spec a 0).
    + apply Hx, elem_of_znth. exists (b - 1). split; [lia|done].
    + apply Ha; lia.
Qed.

Lemma ascending_sublist cmp l k : l `sublist_of` k -> ascending cmp k -> ascending cmp l.
Proof.
  induction 1 as [|x l k Hs IH|x l k Hs IH]; [done|..]; rewrite !ascending_cons.
  - intros [Hx Ha]. split; [|by apply IH]. intros y Hy. apply Hx. by apply (elem_of_sublist l k).
  - intros [_ Ha]. by apply IH.
Qed.

Lemma delete_sublist (l : list Z) w : 0 <= w -> ztake w l ++ zdrop (w + 1) l `sublist_of` l.
Proof.
  intros Hw. destruct (Z.le_gt_cases (zlen l) w).
  - rewrite ztake_all, zdrop_all, app_nil_r by lia. done.
  - destruct (split_at l w) as (a & b & -> & Ha); [lia|]. rewrite ztake_app by done.
    rewrite app_cons_snoc, zdrop_app by (rewrite zlen_app; change (zlen [_]) with 1; lia).
    rewrite <- app_assoc. apply sublist_app; [done|]. by constructor.
Qed.

Lemma truthful_sublist sk l sk' l' : stk sk l -> stk sk' l' -> l' `sublist_of` l ->
  (sorted sk' = true -> sorted sk = true) -> comp sk' = comp sk -> truthful sk -> truthful sk'.
Proof.
  intros Hs Hs' Hsub Hsort Hc Ht Hso. destruct (Ht (Hsort Hso)) as [Hn Ha]. rewrite Hc. split; [done|].
  rewrite (stk_contents _ _ Hs) in Ha. rewrite (stk_contents _ _ Hs').
  by apply (ascending_sublist _ _ l).
Qed.

Lemma truthful_unsorted sk : sorted sk = false -> truthful sk.
Proof. unfold truthful. by intros ->. Qed.

Lemma sk_sort_spec sk l : (comp sk <> NULL -> CmpOrder (call_cmp_func (comp sk))) -> stk sk l ->
  exists sk' l', OPENSSL_sk_sort call_cmp_func (Some sk) = Some sk' /\ stk sk' l' /\ l' ≡ₚ l /\
    (comp sk = NULL -> l' = l) /\ comp sk' = comp sk /\ (truthful sk -> truthful sk').
Proof.
  intros Hcmp Hs. destruct (Z.eq_dec (comp sk) NULL) as [Hc|Hc].
  { exists sk, l. unfold OPENSSL_sk_sort. by rewrite Hc. }
  destruct (OPENSSL_sk_sort_facts call_cmp_func sk (stk_array_ok sk l Hs) Hc (Hcmp Hc))
    as (sk' & E & Hs1 & Hn & Ha & Hco & Hr & Hp & Hasc & Hsame).
  exists sk', (contents sk'). split_and!; [done| |by rewrite Hp, (stk_contents _ _ Hs)|done|done|].
  - pose proof (stk_array_ok _ _ Hs) as [Hok1 Hok2]. destruct Hs as (H1 & H2 & H3 & H4 & H5).
    destruct Hr as (Hl & Hd & _).
    assert (Hz : zlen (contents sk') = zlen l) by (unfold contents; rewrite zlen_ztake; lia).
    unfold stk. rewrite Hz, Hl, Hn, Ha. split_and!; [done| |done|done|lia|lia].
    exists (zdrop (num sk) (data sk')). unfold contents. by rewrite Hn, ztake_zdrop.
  - intros Ht Hso. rewrite Hco. split; [done|]. destruct (sorted sk) eqn:E'.
    + rewrite (Hsame eq_refl). by apply Ht.
    + by apply Hasc.
Qed.

(** Each operation is a step on the list, and only [OPENSSL_sk_set] can make the
    flag lie. *)
Lemma run_op_step sk l op : (forall c, c <> NULL -> CmpOrder (call_cmp_func c)) -> stk sk l -> op_ok op ->
  exists r sk' l', run_op sk op = (r, Some sk') /\ list_step (l, comp sk) op r (l', comp sk') /\ stk sk' l' /\
    ((forall i v, op <> Set_ i v) -> truthful sk -> truthful sk').
Proof.
  intros Hcmp Hs Hok. pose proof Hs as (Hn & _). destruct op; cbn [run_op op_ok] in *.
  - destruct (sk_insert_spec sk l p w Hs Hok) as (r & sk' & E & Hc & [(-> & -> & Hfail)|(-> & Hs' & Hf)]).
    + exists 0, sk, l. split_and!; [done|by constructor|done|done].
    + exists (zlen l + 1), sk', (inserted p w l). rewrite Hc. split_and!; [done|constructor|done|].
      intros _ _. by apply truthful_unsorted.
  - unfold OPENSSL_sk_push. rewrite Hn.
    destruct (sk_insert_spec sk l p (zlen l) Hs ltac:(apply zlen_nonneg)) as (r & sk' & E & Hc & [(-> & -> & Hfail)|(-> & Hs' & Hf)]).
    + exists 0, sk, l. split_and!; [done|by constructor|done|done].
    + exists (zlen l + 1), sk', (l ++ [p]). unfold inserted in Hs'. rewrite ztake_all, zdrop_all in Hs' by done.
      rewrite Hc. split_and!; [done|constructor|done|]. intros _ _. by apply truthful_unsorted.
  - destruct (sk_set_spec sk l i v Hs Hok) as (sk' & E & Hs' & Hc). eexists _, sk', _. rewrite Hc.
    split_and!; [exact E|constructor|done|]. intros Hne. by destruct (Hne i v).
  - destruct (sk_delete_spec sk l w Hs Hok) as (sk' & E & Hs' & Hf & Hc). eexists _, sk', _. rewrite Hc.
    split_and!; [exact E|constructor|done|]. intros _.
    apply (truthful_sublist sk l sk' _ Hs Hs'); [by apply delete_sublist|by rewrite Hf|done].
  - destruct (sk_delete_ptr_spec sk l p Hs) as (sk' & E & Hs' & Hf & Hc). eexists _, sk', _. rewrite Hc.
    split_and!; [exact E|constructor|done|]. intros _.
    apply (truthful_sublist sk l sk' _ Hs Hs'); [|by rewrite Hf|done].
    unfold without. pose proof (first_index_0 (fun x => x =? p) l) as Hi. destruct (first_index _ l 0); [|done].
    apply delete_sublist. cbn [is_first] in Hi. lia.
  - destruct (sk_delete_if_spec sk l (fun _ p w => (f p, w)) 0 tt Hs) as (sk' & E & Hs' & Hf & Hc).
    rewrite E. cbn [fst]. rewrite kept_filter in Hs'. eexists _, sk', _. rewrite Hc.
    split_and!; [done|constructor|exact Hs'|]. intros _.
    apply (truthful_sublist sk l sk' _ Hs Hs'); [|by rewrite Hf|done].
    pose proof (kept_sublist (fun _ p w => (f p, w)) 0 l tt) as Hk. by rewrite kept_filter in Hk.
  - unfold OPENSSL_sk_shift. rewrite Hn. destruct (Z.eqb_spec (zlen l) 0) as [E0|E0].
    + apply zlen_0_nil in E0 as ->. exists NULL, sk, []. split_and!; [done|constructor|done|done].
    + destruct l as [|x l]; [done|]. destruct (sk_delete_spec sk (x :: l) 0 Hs ltac:(lia)) as (sk' & E & Hs' & Hf & Hc).
      rewrite E, zlen_cons. rewrite (proj2 (Z.leb_gt _ _)) by (zlen_pos; lia). exists x, sk', l. rewrite Hc.
      split_and!; [done|constructor|done|]. intros _.
      apply (truthful_sublist sk (x :: l) sk' l Hs Hs'); [by constructor|by rewrite Hf|done].
  - unfold OPENSSL_sk_pop. rewrite Hn. destruct (Z.eqb_spec (zlen l) 0) as [E0|E0].
    + apply zlen_0_nil in E0 as ->. exists NULL, sk, []. split_and!; [done|constructor|done|done].
    + destruct (exists_last (l := l)) as (l0 & x & ->); [by intros ->|]. rewrite zlen_app. change (zlen [x]) with 1.
      replace (zlen l0 + 1 - 1) with (zlen l0) by lia.
      destruct (sk_delete_spec sk (l0 ++ [x]) (zlen l0) Hs ltac:(apply zlen_nonneg)) as (sk' & E & Hs' & Hf & Hc).
      rewrite E, zlen_app. change (zlen [x]) with 1. rewrite (proj2 (Z.leb_gt _ _)) by lia.
      rewrite znth_middle by done. exists x, sk', l0. rewrite Hc.
      rewrite ztake_app, zdrop_all, app_nil_r in Hs' by (rewrite ?zlen_app; change (zlen [x]) with 1; lia).
      split_and!; [done|constructor|done|]. intros _.
      apply (truthful_sublist sk (l0 ++ [x]) sk' l0 Hs Hs'); [by apply sublist_inserts_r|by rewrite Hf|done].
  - destruct (sk_zero_spec sk l Hs) as (sk' & E & Hs' & Hc & Hf). rewrite E. exists 0, sk', []. rewrite Hc.
    split_and!; [done|constructor|done|]. intros _.
    apply (truthful_sublist sk l sk' [] Hs Hs'); [apply sublist_nil_l|done|done].
  - destruct (sk_sort_spec sk l (Hcmp _) Hs) as (sk' & l' & E & Hs' & Hp & Hnull & Hc & Ht).
    rewrite E. exists 0, sk', l'. rewrite Hc. split_and!; [done|by constructor|done|done].
  - unfold OPENSSL_sk_set_cmp_func. eexists _, _, l. cbn [comp]. split_and!; [reflexivity|constructor| |].
    + destruct Hs as (H1 & H2 & H3 & H4 & H5). unfold stk. destruct (comp sk =? c); cbn [negb num data num_alloc set_sorted]; done.
    + intros _ Ht. destruct (Z.eqb_spec (comp sk) c) as [<-|Hne]; cbn [negb]; [|by apply truthful_unsorted].
      by destruct sk.
Qed.

Lemma run_steps ops : (forall c, c <> NULL -> CmpOrder (call_cmp_func c)) -> Forall op_ok ops ->
  forall sk l, stk sk l ->
  exists rs sk' l', run sk ops = (rs, Some sk') /\ list_steps (l, comp sk) ops rs (l', comp sk') /\ stk sk' l' /\
    (Forall (fun op => forall i v, op <> Set_ i v) ops -> truthful sk -> truthful sk').
Proof.
  intros Hcmp. induction 1 as [|op ops Hop _ IH]; intros sk l Hs.
  { exists [], sk, l. split_and!; [done|constructor|done|done]. }
  destruct (run_op_step sk l op Hcmp Hs Hop) as (r & sk1 & l1 & E & Hstep & Hs1 & Ht1).
  destruct (IH sk1 l1 Hs1) as (rs & sk2 & l2 & E2 & Hsteps & Hs2 & Ht2).
  exists (r :: rs), sk2, l2. cbn [run]. rewrite E, E2. split_and!; [done|by econstructor|done|].
  intros Hno. apply Forall_cons in Hno as [Hno1 Hno2]. auto.
Qed.

(** C20. A stack is a list: any sequence of operations on a new stack gives the
    results the same operations have on the list of elements, and at the end
    [OPENSSL_sk_num] and [OPENSSL_sk_value] read off that list. An insertion fails
    only at [INT_MAX] elements or when the allocator does. *)
Theorem stack_refines_list c sk ops : (forall c, c <> NULL -> CmpOrder (call_cmp_func c)) ->
  OPENSSL_sk_new c = Some sk -> Forall op_ok ops ->
  exists rs sk' l, run sk ops = (rs, Some sk') /\ list_steps ([], c) ops rs (l, comp sk') /\
    OPENSSL_sk_num (Some sk') = zlen l /\
    forall i, 0 <= i -> OPENSSL_sk_value (Some sk') i = if i <? zlen l then znth NULL l i else NULL.
Proof.
  intros Hcmp Hnew Hops. apply sk_new_spec in Hnew as (Hs & _ & <-).
  destruct (run_steps ops Hcmp Hops sk [] Hs) as (rs & sk' & l & E & Hsteps & (Hn & (u & Hu) & _) & _).
  exists rs, sk', l. split_and!; [done|done|done|]. intros i Hi. cbn [OPENSSL_sk_value].
  rewrite Hn, Z.geb_leb, Z.leb_antisym. destruct (Z.ltb_spec i (zlen l)); cbn [negb]; [|done].
  unfold elem. rewrite Hu. by apply znth_app.
Qed.

(** As long as [OPENSSL_sk_set] is not used, the [sorted] flag tells the
    truth whatever else was done to a new stack, so that [OPENSSL_sk_find] returns
    the first matching element. *)
Theorem sorted_flag_truthful c sk ops : (forall c, c <> NULL -> CmpOrder (call_cmp_func c)) ->
  OPENSSL_sk_new c = Some sk -> Forall op_ok ops -> Forall (fun op => forall i v, op <> Set_ i v) ops ->
  exists rs sk', run sk ops = (rs, Some sk') /\ truthful sk' /\
    forall p, is_first (matches call_cmp_func sk' p) (contents sk') (OPENSSL_sk_find call_cmp_func (Some sk') p).
Proof.
  intros Hcmp Hnew Hops Hno. apply sk_new_spec in Hnew as (Hs & Hf & <-).
  destruct (run_steps ops Hcmp Hops sk [] Hs) as (rs & sk' & l & E & _ & Hs' & Ht).
  assert (Ht' : truthful sk') by (by apply Ht, truthful_unsorted).
  exists rs, sk'. split_and!; [done|done|]. intros p. apply find_facts; [by apply (stk_array_ok _ l)|].
  intros Hc Hso. split; [by apply Hcmp|]. by apply Ht'.
Qed.
End Run.

Definition generous : Allocator := {| malloc_ok := fun _ => true; junk := fun i => i |}.

Lemma stack_refines_list_witness :
  exists rs sk' l, run (H := generous) (fun _ => Z.sub) (mk_stack 0 [0; 0; 0; 0] false 4 1) [Push 30; Insert 10 0; Push 20; Sort; Delete 1; Pop] = (rs, Some sk') /\
    list_steps (H := generous) ([], 1) [Push 30; Insert 10 0; Push 20; Sort; Delete 1; Pop] rs (l, comp sk') /\
    OPENSSL_sk_num (Some sk') = zlen l /\
    forall i, 0 <= i -> OPENSSL_sk_value (Some sk') i = if i <? zlen l then znth NULL l i else NULL.
Proof.
  apply (stack_refines_list (H := generous) (fun _ => Z.sub) 1).
  - intros c _. apply sub_order.
  - reflexivity.
  - repeat constructor; cbn; lia.
Defined.

Lemma sorted_flag_truthful_witness :
  exists rs sk', run (H := generous) (fun _ => Z.sub) (mk_stack 0 [0; 0; 0; 0] false 4 1) [Push 30; Push 10; Sort; Shift] = (rs, Some sk') /\
    truthful (fun _ => Z.sub) sk' /\
    forall p, is_first (matches (fun _ => Z.sub) sk' p) (contents sk') (OPENSSL_sk_find (fun _ => Z.sub) (Some sk') p).
Proof.
  apply (sorted_flag_truthful (H := generous) (fun _ => Z.sub) 1).
  - intros c _. apply sub_order.
  - reflexivity.
  - repeat constructor.
  - repeat constructor; intros; discriminate.
Defined.

(** With [OPENSSL_sk_set] it can lie: an element of a stack marked sorted is not
    found. *)
Example find_after_set :
  let sk := mk_stack 3 [10; 20; 30; 0] true 4 1 in
  OPENSSL_sk_find (fun _ => Z.sub) (snd (OPENSSL_sk_set (Some sk) 0 40)) 40 = None /\
  OPENSSL_sk_value (snd (OPENSSL_sk_set (Some sk) 0 40)) 0 = 40.
Proof. split; reflexivity. Qed.

(** ** Deep copies

    The callbacks act on the list of live objects: a copy that succeeds adds its
    result, releasing an object removes it once. *)

Fixpoint remove_one (p : Z) (l : list Z) : list Z :=
  match l with
  | [] => []
  | x :: l => if x =? p then l else x :: remove_one p l
  end.

Definition track_copy (copy : Z -> list Z -> Z) (_ p : Z) (live : list Z) : Z * list Z :=
  let c := copy p live in (c, if c =? NULL then live else c :: live).
Definition track_free (_ p : Z) (live : list Z) : list Z := remove_one p live.

Definition nonnull (l : list Z) : list Z := filter (fun p => p <> NULL) l.

Lemma remove_one_perm p k : forall l, l ≡ₚ p :: k -> remove_one p l ≡ₚ k.
Proof.
  assert (Hin : forall l, p ∈ l -> p :: remove_one p l ≡ₚ l).
  { induction l as [|x l IH]; intros Hp; [by apply not_elem_of_nil in Hp|]. cbn [remove_one].
    destruct (Z.eqb_spec x p) as [->|Hne]; [done|]. apply elem_of_cons in Hp as [->|Hp]; [done|].
    rewrite <- (IH Hp) at 2. constructor. }
  intros l Hl. apply (Permutation.Permutation_cons_inv (a := p)). rewrite <- Hl. apply Hin. rewrite Hl. by left.
Qed.

Lemma nonnull_app a b : nonnull (a ++ b) = nonnull a ++ nonnull b.
Proof. apply filter_app. Qed.

Lemma free_all g k : forall w live, w ≡ₚ nonnull k ++ live ->
  fold_left (fun w p => if negb (p =? NULL) then track_free g p w else w) k w ≡ₚ live.
Proof.
  induction k as [|x k IH]; intros w live Hw; [done|]. cbn [fold_left]. apply IH.
  unfold nonnull in Hw. rewrite filter_cons in Hw. destruct (Z.eqb_spec x NULL) as [->|Hx]; cbn [negb].
  - by case_decide.
  - case_decide; [|done]. by apply remove_one_perm.
Qed.

Lemma deep_copy_loop_spec copy f g live0 r : forall k u w, w ≡ₚ nonnull k ++ live0 ->
  match deep_copy_loop (track_copy copy) f track_free g (length r) (zlen k) (k ++ r ++ u) w with
  | (Some d, w') => exists r', d = k ++ r' ++ u /\ Forall2 (fun x y => x = NULL <-> y = NULL) r r' /\
      w' ≡ₚ nonnull (k ++ r') ++ live0
  | (None, w') => w' ≡ₚ live0
  end.
Proof.
  induction r as [|x r IH]; intros k u w Hw; cbn [length deep_copy_loop].
  { exists []. rewrite app_nil_r. done. }
  cbn [app]. rewrite znth_middle by done.
  assert (Hz : forall y : Z, zlen k + 1 = zlen (k ++ [y])) by (intros y; by rewrite zlen_app).
  destruct (Z.eqb_spec x NULL) as [->|Hx].
  - rewrite (Hz NULL), (app_cons_snoc k NULL (r ++ u)). specialize (IH (k ++ [NULL]) u w).
    rewrite nonnull_app in IH. change (nonnull [NULL]) with (@nil Z) in IH. rewrite app_nil_r in IH. specialize (IH Hw).
    destruct (deep_copy_loop _ _ _ _ _ _ _ _) as [[d|] w']; [|exact IH].
    destruct IH as (r' & -> & Hr & Hp). exists (NULL :: r'). rewrite <- !app_assoc in *. split_and!; [done|by constructor|done].
  - unfold track_copy at 1. cbv zeta. rewrite zupd_middle by done. destruct (Z.eqb_spec (copy x w) NULL) as [Hc|Hc].
    + rewrite ztake_app by done. by apply free_all.
    + generalize dependent (copy x w). intros c Hc. rewrite (Hz c), (app_cons_snoc k c (r ++ u)). specialize (IH (k ++ [c]) u (c :: w)).
      rewrite nonnull_app in IH. assert (Hn : nonnull [c] = [c]) by (unfold nonnull; rewrite filter_cons; by case_decide).
      rewrite Hn in IH. destruct (deep_copy_loop _ _ _ _ _ _ _ _) as [[d|] w'].
      * destruct IH as (r' & -> & Hr & Hp); [rewrite Hw; solve_Permutation|].
        exists (c :: r'). rewrite <- !app_assoc in *. split_and!; [done|by constructor|done].
      * apply IH. rewrite Hw. solve_Permutation.
Qed.

(** [OPENSSL_sk_deep_copy] is all or nothing: a copy it returns has the
    elements' copies in their places ([NULL] for [NULL]), which are exactly the
    objects that came to life; when it fails, every copy it had made has been
    released once, and the objects alive are those from before. *)
Theorem deep_copy_all_or_nothing `{Allocator} sk l copy f g live : stk sk l ->
  match OPENSSL_sk_deep_copy (Some sk) (track_copy copy) f track_free g live with
  | (Some sk', live') => exists l', stk sk' l' /\ Forall2 (fun x y => x = NULL <-> y = NULL) l l' /\
      live' ≡ₚ nonnull l' ++ live /\ sorted sk' = sorted sk /\ comp sk' = comp sk
  | (None, live') => live' ≡ₚ live
  end.
Proof.
  intros Hs. pose proof Hs as (Hn & (u & Hu) & _). unfold OPENSSL_sk_deep_copy, OPENSSL_sk_dup.
  destruct (OPENSSL_zalloc 40); [|done]. destruct (OPENSSL_memdup _); [|done].
  cbn [num data]. rewrite Hn, zlen_to_nat, Hu.
  pose proof (deep_copy_loop_spec copy f g live l [] u live) as Hloop. cbn [app] in Hloop.
  change (zlen (@nil Z)) with 0 in Hloop. specialize (Hloop ltac:(done)).
  destruct (deep_copy_loop _ _ _ _ _ _ _ _) as [[d|] w']; [|done].
  destruct Hloop as (l' & -> & Hf & Hp). exists l'. split_and!; [|done..].
  apply Forall2_length in Hf. apply (stk_data _ l _ _ u); [|done|cbn [data]; rewrite !zlen_app|]; unfold zlen; [|lia..].
  destruct sk as [n d so al c]. cbn [num data] in *. by subst.
Qed.

Lemma deep_copy_all_or_nothing_witness :
  match OPENSSL_sk_deep_copy (H := generous) (Some (mk_stack 3 [10; 0; 30; 0] false 4 1))
    (track_copy (fun p live => if zlen live >=? 3 then NULL else p + 1)) 0 track_free 0 [5; 6] with
  | (Some sk', live') => exists l', stk sk' l' /\ Forall2 (fun x y => x = NULL <-> y = NULL) [10; 0; 30] l' /\
      live' ≡ₚ nonnull l' ++ [5; 6] /\ sorted sk' = false /\ comp sk' = 1
  | (None, live') => live' ≡ₚ [5; 6]
  end.
Proof.
  apply (deep_copy_all_or_nothing (H := generous) (mk_stack 3 [10; 0; 30; 0] false 4 1) [10; 0; 30]).
  split; [reflexivity|]. split; [exists [0]; reflexivity|]. split; [reflexivity|]. split; [vm_compute; discriminate|].
  split; vm_compute; discriminate.
Defined.
