(* ===== verification/Lhash.v ===== *)
(** * Chaining hash tables (crypto/lhash/lhash.c)

    Pointers are addresses, [NULL] is 0. The table of chains is a list of lists of
    items; an item keeps its own address, which tells it from others while a
    callback changes the table under an iteration, and [next] is its successor in
    the list. [fresh_item] is the address the allocator would return next. A
    pointer to a link (a bucket or a [next] field) is the number of the bucket and
    the position in its chain.

    The hash and comparison callbacks are parameters: [call_hash_func] returns a
    [uint32_t], and the comparison is zero for equal objects. *)

From S2P Require Import Prelude Mem.

Definition NULL : Z := 0.
Definition sizeof_link : Z := 8.

Definition kMinNumBuckets : Z := 16.
Definition kMaxAverageChainLength : Z := 2.
Definition kMinAverageChainLength : Z := 1.
Definition UINT_MAX : Z := 4294967295.

Record LHASH_ITEM := mk_item {
  addr : Z;
  data : Z;
  hash : Z
}.

Record LHASH := mk_lhash {
  num_items : Z;
  buckets : list (list LHASH_ITEM);
  num_buckets : Z;
  callback_depth : Z;
  comp : Z;
  hash_func : Z;
  fresh_item : Z
}.

Definition bucket (lh : LHASH) (i : Z) : list LHASH_ITEM := nth (Z.to_nat i) (buckets lh) [].

Definition set_buckets (lh : LHASH) (bs : list (list LHASH_ITEM)) (n : Z) : LHASH :=
  mk_lhash (num_items lh) bs n (callback_depth lh) (comp lh) (hash_func lh) (fresh_item lh).
Definition set_bucket (lh : LHASH) (i : Z) (c : list LHASH_ITEM) : LHASH :=
  set_buckets lh (zupd (buckets lh) i c) (num_buckets lh).
Definition set_num_items (lh : LHASH) (n : Z) : LHASH :=
  mk_lhash n (buckets lh) (num_buckets lh) (callback_depth lh) (comp lh) (hash_func lh) (fresh_item lh).
Definition set_depth (lh : LHASH) (d : Z) : LHASH :=
  mk_lhash (num_items lh) (buckets lh) (num_buckets lh) d (comp lh) (hash_func lh) (fresh_item lh).
Definition set_fresh (lh : LHASH) (a : Z) : LHASH :=
  mk_lhash (num_items lh) (buckets lh) (num_buckets lh) (callback_depth lh) (comp lh) (hash_func lh) a.

(** [sizeof(_LHASH)] is 48. *)
Definition OPENSSL_lh_new `{Allocator} (hash comp : Z) : option LHASH :=
  match OPENSSL_zalloc 48 with
  | None => None
  | Some _ =>
      match OPENSSL_calloc kMinNumBuckets sizeof_link with
      | None => None
      | Some _ => Some (mk_lhash 0 (replicate (Z.to_nat kMinNumBuckets) []) kMinNumBuckets 0 comp hash 1)
      end
  end.

Definition OPENSSL_lh_num_items (lh : LHASH) : Z := num_items lh.

(** The position of the first item that passes the test, or the end. *)
Fixpoint find_link (test : LHASH_ITEM -> bool) (chain : list LHASH_ITEM) : nat :=
  match chain with
  | [] => 0
  | cur :: rest => if test cur then 0 else S (find_link test rest)
  end.

(** ** Resizing *)

Definition move_item (new_num_buckets : Z) (new_buckets : list (list LHASH_ITEM)) (cur : LHASH_ITEM)
    : list (list LHASH_ITEM) :=
  let new_bucket := hash cur mod new_num_buckets in
  zupd new_buckets new_bucket (cur :: nth (Z.to_nat new_bucket) new_buckets []).

Definition lh_rebucket `{Allocator} (lh : LHASH) (new_num_buckets : Z) : LHASH :=
  let alloc_size := u64 (sizeof_link * new_num_buckets) in
  if negb (alloc_size / sizeof_link =? new_num_buckets) then lh
  else
    match OPENSSL_zalloc alloc_size with
    | None => lh
    | Some _ =>
        let new_buckets :=
          fold_left (fun nb chain => fold_left (move_item new_num_buckets) chain nb) (buckets lh)
            (replicate (Z.to_nat new_num_buckets) []) in
        set_buckets lh new_buckets new_num_buckets
    end.

Definition lh_maybe_resize `{Allocator} (lh : LHASH) : LHASH :=
  if callback_depth lh >? 0 then lh
  else
    let avg_chain_length := num_items lh / num_buckets lh in
    if avg_chain_length >? kMaxAverageChainLength then
      let new_num_buckets := u64 (num_buckets lh * 2) in
      if new_num_buckets >? num_buckets lh then lh_rebucket lh new_num_buckets else lh
    else if (avg_chain_length <? kMinAverageChainLength) && (num_buckets lh >? kMinNumBuckets) then
      let new_num_buckets := num_buckets lh / 2 in
      let new_num_buckets := if new_num_buckets <? kMinNumBuckets then kMinNumBuckets else new_num_buckets in
      lh_rebucket lh new_num_buckets
    else lh.

(** ** Operations *)

Section Ops.
Context (call_hash_func : Z -> Z -> Z) (call_cmp_func : Z -> Z -> Z -> Z).

(** The hash, and the link that points to the item equal to [d] or to [NULL]. *)
Definition get_next_ptr_and_hash (lh : LHASH) (d : Z) : Z * (Z * nat) :=
  let h := call_hash_func (hash_func lh) d in
  let i := h mod num_buckets lh in
  (h, (i, find_link (fun cur => call_cmp_func (comp lh) (data cur) d =? 0) (bucket lh i))).

Definition get_next_ptr_by_key (lh : LHASH) (key key_hash : Z) (cmp_key : Z -> Z -> Z) : Z * nat :=
  let i := key_hash mod num_buckets lh in
  (i, find_link (fun cur => cmp_key key (data cur) =? 0) (bucket lh i)).

(** What a link points to. *)
Definition deref (lh : LHASH) (link : Z * nat) : option LHASH_ITEM := bucket lh (fst link) !! snd link.

Definition OPENSSL_lh_retrieve (lh : LHASH) (d : Z) : Z :=
  let '(_, next_ptr) := get_next_ptr_and_hash lh d in
  match deref lh next_ptr with None => NULL | Some item => data item end.

Definition OPENSSL_lh_retrieve_key (lh : LHASH) (key key_hash : Z) (cmp_key : Z -> Z -> Z) : Z :=
  match deref lh (get_next_ptr_by_key lh key key_hash cmp_key) with None => NULL | Some item => data item end.

(** The return value and [*old_data]. [sizeof(LHASH_ITEM)] is 24. *)
Definition OPENSSL_lh_insert `{Allocator} (lh : LHASH) (d : Z) : Z * Z * LHASH :=
  let '(h, next_ptr) := get_next_ptr_and_hash lh d in
  let i := fst next_ptr in
  match deref lh next_ptr with
  | Some item =>
      (1, data item, set_bucket lh i (<[snd next_ptr := mk_item (addr item) d (hash item)]> (bucket lh i)))
  | None =>
      match OPENSSL_malloc 24 with
      | None => (0, NULL, lh)
      | Some _ =>
          let item := mk_item (fresh_item lh) d h in
          let lh := set_fresh lh (fresh_item lh + 1) in
          let lh := set_bucket lh i (take (snd next_ptr) (bucket lh i) ++ [item]) in
          let lh := set_num_items lh (u64 (num_items lh + 1)) in
          (1, NULL, lh_maybe_resize lh)
      end
  end.

Definition OPENSSL_lh_delete `{Allocator} (lh : LHASH) (d : Z) : Z * LHASH :=
  let '(_, next_ptr) := get_next_ptr_and_hash lh d in
  let i := fst next_ptr in
  match deref lh next_ptr with
  | None => (NULL, lh)
  | Some item =>
      let lh := set_bucket lh i (take (snd next_ptr) (bucket lh i) ++ drop (S (snd next_ptr)) (bucket lh i)) in
      let ret := data item in
      let lh := set_num_items lh (u64 (num_items lh - 1)) in
      (ret, lh_maybe_resize lh)
  end.
End Ops.

(** ** Iteration

    The callback acts on the table and on a state [W] of the caller. The loop over
    a chain saves [next] before it calls back and goes on from there; [None] when
    that item is gone by then, or when the fuel is used up. *)

(** The chain from the item at an address on. *)
Fixpoint from_item (a : Z) (chain : list LHASH_ITEM) : option (LHASH_ITEM * list LHASH_ITEM) :=
  match chain with
  | [] => None
  | cur :: rest => if addr cur =? a then Some (cur, rest) else from_item a rest
  end.

Definition head_addr (chain : list LHASH_ITEM) : option Z :=
  match chain with [] => None | cur :: _ => Some (addr cur) end.

Section Iterate.
Context {W : Type} (func : Z -> LHASH * W -> LHASH * W).

Fixpoint doall_chain (fuel : nat) (i : Z) (cur : option Z) (st : LHASH * W) : option (LHASH * W) :=
  match cur with
  | None => Some st
  | Some a =>
      match fuel with
      | O => None
      | S fuel =>
          match from_item a (bucket (fst st) i) with
          | None => None
          | Some (item, rest) =>
              let next := head_addr rest in
              doall_chain fuel i next (func (data item) st)
          end
      end
  end.

Fixpoint doall_buckets (fuel n : nat) (i : Z) (st : LHASH * W) : option (LHASH * W) :=
  if i <? num_buckets (fst st) then
    match n with
    | O => None
    | S n =>
        match doall_chain fuel i (head_addr (bucket (fst st) i)) st with
        | None => None
        | Some st => doall_buckets fuel n (i + 1) st
        end
    end
  else Some st.

Definition OPENSSL_lh_doall_arg `{Allocator} (fuel n : nat) (lh : LHASH) (w : W) : option (LHASH * W) :=
  let lh := if callback_depth lh <? UINT_MAX then set_depth lh (callback_depth lh + 1) else lh in
  match doall_buckets fuel n 0 (lh, w) with
  | None => None
  | Some (lh, w) =>
      let lh := if callback_depth lh <? UINT_MAX then set_depth lh (callback_depth lh - 1) else lh in
      Some (lh_maybe_resize lh, w)
  end.
End Iterate.
