(* ===== verification/LhashFacts.v ===== *)
(** * Hash tables as finite maps (theorems about Lhash.v)

    Under the contract of the hash and comparison functions, a table is a set of
    objects no two of which are equal, whatever it does with its buckets; its size
    follows the number of items; and an iteration visits every item once even
    when its callback deletes them. *)

From S2P Require Import Prelude Mem Lhash.

(** ** The contract of the callbacks (lhash/internal.h) *)

Class HashContract (h : Z -> Z) (c : Z -> Z -> Z) : Prop := {
  hash_range x : 0 <= h x < 2 ^ 32;
  eq_refl' x : c x x = 0;
  eq_sym' x y : c x y = 0 -> c y x = 0;
  eq_trans' x y z : c x y = 0 -> c y z = 0 -> c x z = 0;
  eq_hash x y : c x y = 0 -> h x = h y
}.

(** ** Sets of objects *)

Section Sets.
Context (h : Z -> Z) (c : Z -> Z -> Z) `{!HashContract h c}.

(** No two objects are equal. *)
Fixpoint distinct (l : list Z) : Prop :=
  match l with
  | [] => True
  | x :: l => Forall (fun y => c x y <> 0) l /\ distinct l
  end.

Fixpoint lookup_eq (l : list Z) (d : Z) : option Z :=
  match l with
  | [] => None
  | x :: l => if c x d =? 0 then Some x else lookup_eq l d
  end.

Fixpoint remove_eq (l : list Z) (d : Z) : list Z :=
  match l with
  | [] => []
  | x :: l => if c x d =? 0 then l else x :: remove_eq l d
  end.

Lemma distinct_perm l k : l ≡ₚ k -> distinct l -> distinct k.
Proof.
  induction 1 as [|x l k Hp IH|x y l|l k m _ IH1 _ IH2]; cbn [distinct]; [done| | |tauto].
  - intros [Hx Hl]. split; [by rewrite <- Hp|by apply IH].
  - rewrite !Forall_cons. intros ((Hxy & Hx) & Hy & Hl). split_and!; try done.
    intros E. apply Hxy. by apply (eq_sym' (h := h)).
Qed.

Lemma lookup_eq_Some l d x : distinct l -> (lookup_eq l d = Some x <-> x ∈ l /\ c x d = 0).
Proof.
  induction l as [|y l IH]; cbn [lookup_eq distinct]; intros Hl.
  { split; [done|]. intros [H _]. by apply not_elem_of_nil in H. }
  destruct Hl as [Hy Hl]. specialize (IH Hl). rewrite elem_of_cons. destruct (Z.eqb_spec (c y d) 0) as [E|E].
  - split; [intros [= <-]; tauto|]. intros [[->|Hx] Hd]; [done|].
    rewrite Forall_forall in Hy. exfalso. apply (Hy x Hx).
    apply (eq_trans' (h := h) _ d); [done|]. by apply (eq_sym' (h := h)).
  - rewrite IH. split; [tauto|]. by intros [[->|Hx] Hd].
Qed.

Lemma lookup_eq_None l d : lookup_eq l d = None <-> forall x, x ∈ l -> c x d <> 0.
Proof.
  induction l as [|y l IH]; cbn [lookup_eq].
  { split; [|done]. intros _ x H. by apply not_elem_of_nil in H. }
  destruct (Z.eqb_spec (c y d) 0) as [E|E].
  - split; [done|]. intros H. by destruct (H y); [left|].
  - rewrite IH. setoid_rewrite elem_of_cons. naive_solver.
Qed.

Lemma lookup_eq_perm l k d : l ≡ₚ k -> distinct l -> lookup_eq l d = lookup_eq k d.
Proof.
  intros Hp Hl. pose proof (distinct_perm l k Hp Hl) as Hk. destruct (lookup_eq k d) as [x|] eqn:E.
  - apply lookup_eq_Some in E as [Hx Hd]; [|done]. apply lookup_eq_Some; [done|]. by rewrite Hp.
  - apply lookup_eq_None. intros x Hx. apply (proj1 (lookup_eq_None k d) E). by rewrite <- Hp.
Qed.

Lemma remove_eq_None l d : lookup_eq l d = None -> remove_eq l d = l.
Proof.
  induction l as [|y l IH]; cbn [lookup_eq remove_eq]; [done|]. destruct (c y d =? 0); [done|].
  intros H. by rewrite IH.
Qed.

Lemma remove_eq_Some l d x k : distinct l -> l ≡ₚ x :: k -> c x d = 0 -> remove_eq l d ≡ₚ k.
Proof.
  intros Hl Hp Hd. assert (Hin : forall l, distinct l -> x ∈ l -> x :: remove_eq l d ≡ₚ l).
  { clear -Hd HashContract0. induction l as [|y l IH]; intros Hl Hx; [by apply not_elem_of_nil in Hx|].
    cbn [distinct remove_eq] in *. destruct Hl as [Hy Hl]. apply elem_of_cons in Hx as [->|Hx].
    - by rewrite Hd, Z.eqb_refl.
    - destruct (Z.eqb_spec (c y d) 0) as [E|E].
      + exfalso. rewrite Forall_forall in Hy. apply (Hy x Hx).
        apply (eq_trans' (h := h) _ d); [done|]. by apply (eq_sym' (h := h)).
      + rewrite <- (IH Hl Hx) at 2. constructor. }
  apply (Permutation.Permutation_cons_inv (a := x)). rewrite <- Hp. apply Hin; [done|]. rewrite Hp. by left.
Qed.

Lemma remove_eq_perm l k d : l ≡ₚ k -> distinct l -> remove_eq l d ≡ₚ remove_eq k d.
Proof.
  intros Hp Hl. destruct (lookup_eq k d) as [x|] eqn:E.
  - pose proof (distinct_perm l k Hp Hl) as Hk. apply lookup_eq_Some in E as [Hx Hd]; [|done].
    apply elem_of_Permutation in Hx as [k' Hk']. rewrite (remove_eq_Some k d x k' Hk Hk' Hd).
    apply (remove_eq_Some l d x); [done|by rewrite Hp|done].
  - rewrite (remove_eq_None k) by done. rewrite remove_eq_None; [done|]. by rewrite (lookup_eq_perm l k).
Qed.

Lemma distinct_cons_remove l d : distinct l -> distinct (d :: remove_eq l d) .
Proof.
  intros Hl. cbn [distinct]. destruct (lookup_eq l d) as [x|] eqn:E.
  - apply lookup_eq_Some in E as [Hx Hd]; [|done]. apply elem_of_Permutation in Hx as [k Hk].
    pose proof (remove_eq_Some l d x k Hl Hk Hd) as Hr. destruct (distinct_perm _ _ Hk Hl) as [Hx' Hl'].
    split; [|by apply (distinct_perm _ _ (symmetry Hr))]. rewrite Hr. apply (Forall_impl _ _ _ Hx').
    intros y Hy Hdy. apply Hy. by apply (eq_trans' (h := h) _ d).
  - rewrite remove_eq_None by done. split; [|done]. apply Forall_forall. intros y Hy Hdy.
    apply (proj1 (lookup_eq_None l d) E y Hy). by apply (eq_sym' (h := h)).
Qed.

Lemma distinct_remove l d : distinct l -> distinct (remove_eq l d).
Proof. intros Hl. by apply (distinct_cons_remove l d). Qed.
End Sets.

(** ** Well-formed tables *)

Definition items (lh : LHASH) : list LHASH_ITEM := concat (buckets lh).
Definition contents (lh : LHASH) : list Z := map data (items lh).

(** Item [cur] is in the bucket its hash says. *)
Definition in_place (h : Z -> Z) (n : Z) (i : nat) (cur : LHASH_ITEM) : Prop :=
  hash cur = h (data cur) /\ hash cur mod n = Z.of_nat i.

Record inv (h : Z -> Z) (c : Z -> Z -> Z) (lh : LHASH) : Prop := {
  inv_size : zlen (buckets lh) = num_buckets lh;
  inv_min : 16 <= num_buckets lh;
  inv_place : forall i chain, buckets lh !! i = Some chain -> Forall (in_place h (num_buckets lh) i) chain;
  inv_distinct : distinct c (contents lh);
  inv_count : num_items lh = zlen (items lh);
  inv_addr : NoDup (map addr (items lh));
  inv_fresh : Forall (fun it => addr it < fresh_item lh) (items lh)
}.

Lemma find_link_split test chain :
  match chain !! find_link test chain with
  | Some it => exists p s, chain = p ++ it :: s /\ length p = find_link test chain /\ test it = true /\ Forall (fun x => test x = false) p
  | None => find_link test chain = length chain /\ Forall (fun x => test x = false) chain
  end.
Proof.
  induction chain as [|x chain IH]; cbn [find_link]; [done|]. destruct (test x) eqn:E; cbn.
  - by exists [], chain.
  - destruct (chain !! find_link test chain) as [it|].
    + destruct IH as (p & s & -> & Hl & Ht & Hp). exists (x :: p), s. cbn [length]. rewrite Hl. split_and!; [done|done|done|by constructor].
    + destruct IH as [Hl Hf]. rewrite Hl. split; [done|by constructor].
Qed.

(** A bucket among the others. *)
Lemma bucket_split lh i : 0 <= i < zlen (buckets lh) ->
  exists p s, buckets lh = p ++ bucket lh i :: s /\ zlen p = i /\ buckets lh !! Z.to_nat i = Some (bucket lh i).
Proof.
  intros Hi. destruct (zsplit i (buckets lh)) as (p & s & E & Hp); [lia|].
  destruct s as [|b s]; [rewrite E, app_nil_r in Hi; lia|].
  assert (Hb : bucket lh i = b).
  { unfold bucket. rewrite nth_lookup, E, <- Hp, zlen_to_nat, lookup_app_r, Nat.sub_diag by lia. done. }
  exists p, s. rewrite Hb. split_and!; [done|done|]. rewrite E, <- Hp, zlen_to_nat, lookup_app_r, Nat.sub_diag by lia. done.
Qed.

Lemma set_bucket_split lh p b s i b' : buckets lh = p ++ b :: s -> zlen p = i ->
  buckets (set_bucket lh i b') = p ++ b' :: s.
Proof.
  intros E <-. cbn [buckets set_bucket set_buckets]. rewrite E. unfold zupd.
  rewrite zlen_to_nat, insert_app_r_alt, Nat.sub_diag by lia. done.
Qed.

Lemma Forall_place_split h n p (b : list LHASH_ITEM) s :
  (forall i chain, (p ++ b :: s) !! i = Some chain -> Forall (in_place h n i) chain) <->
  (forall i chain, p !! i = Some chain -> Forall (in_place h n i) chain) /\
  Forall (in_place h n (length p)) b /\
  (forall i chain, s !! i = Some chain -> Forall (in_place h n (length p + S i)) chain).
Proof.
  split.
  - intros H. split_and!.
    + intros i chain Hi. apply H. by apply lookup_app_l_Some.
    + apply H. by rewrite lookup_app_r, Nat.sub_diag by lia.
    + intros i chain Hi. apply H. rewrite lookup_app_r by lia. by replace (length p + S i - length p)%nat with (S i) by lia.
  - intros (Hp & Hb & Hs) i chain Hi. apply lookup_app_Some in Hi as [Hi|[Hle Hi]]; [by apply Hp|].
    destruct (i - length p)%nat as [|j] eqn:E; cbn in Hi.
    + injection Hi as <-. by replace i with (length p) by lia.
    + replace i with (length p + S j)%nat by lia. by apply Hs.
Qed.

(** ** Resizing keeps the items *)

Section Table.
Context `{Allocator} (h : Z -> Z) (c : Z -> Z -> Z) `{!HashContract h c}.

Lemma fold_chains {A B} (f : A -> B -> A) bs acc :
  fold_left (fun acc chain => fold_left f chain acc) bs acc = fold_left f (concat bs) acc.
Proof. revert acc. induction bs as [|b bs IH]; intros acc; [done|]. cbn. rewrite IH, fold_left_app. done. Qed.

Lemma move_items_spec n its : 0 < n -> Forall (fun it => hash it = h (data it)) its -> forall nb,
  zlen nb = n -> (forall i chain, nb !! i = Some chain -> Forall (in_place h n i) chain) ->
  zlen (fold_left (move_item n) its nb) = n /\
  (forall i chain, fold_left (move_item n) its nb !! i = Some chain -> Forall (in_place h n i) chain) /\
  concat (fold_left (move_item n) its nb) ≡ₚ its ++ concat nb.
Proof.
  intros Hn. induction 1 as [|it its Hit _ IH]; intros nb Hlen Hpl; [done|]. cbn [fold_left].
  set (lh := mk_lhash 0 nb n 0 0 0 0).
  destruct (bucket_split lh (hash it mod n)) as (p & s & E & Hp & _); [cbn [buckets lh]; rewrite Hlen; apply Z.mod_pos_bound; lia|].
  assert (Hmove : move_item n nb it = p ++ (it :: bucket lh (hash it mod n)) :: s).
  { rewrite <- (set_bucket_split lh p _ s (hash it mod n) _ E Hp). done. }
  cbn [buckets lh] in E. rewrite Hmove. rewrite E in Hpl. apply Forall_place_split in Hpl as (P1 & P2 & P3).
  destruct (IH (p ++ (it :: bucket lh (hash it mod n)) :: s)) as (H1 & H2 & H3).
  - rewrite E in Hlen. rewrite zlen_app, zlen_cons in *. done.
  - apply Forall_place_split. split_and!; [done| |done]. constructor; [|done]. split; [done|]. unfold zlen in Hp. lia.
  - split_and!; [done|done|]. rewrite H3, E, !concat_app. cbn [concat]. solve_Permutation.
Qed.

Lemma inv_items_hash lh : inv h c lh -> Forall (fun it => hash it = h (data it)) (items lh).
Proof.
  intros Hi. apply Forall_concat, Forall_lookup. intros i chain Hc. apply (inv_place _ _ _ Hi) in Hc.
  apply (Forall_impl _ _ _ Hc). by intros it [? _].
Qed.

(** The parts of the invariant that do not depend on the buckets. *)
Lemma inv_perm lh lh' : inv h c lh -> items lh' ≡ₚ items lh -> zlen (buckets lh') = num_buckets lh' ->
  16 <= num_buckets lh' ->
  (forall i chain, buckets lh' !! i = Some chain -> Forall (in_place h (num_buckets lh') i) chain) ->
  num_items lh' = num_items lh -> fresh_item lh' = fresh_item lh -> inv h c lh'.
Proof.
  intros [? ? ? Hd Hc Ha Hf] Hp Hs Hm Hpl Hn Hfr. split; [done|done|done|..].
  - apply (distinct_perm h c (contents lh)); [|done]. unfold contents. by rewrite Hp.
  - rewrite Hn, Hc. unfold zlen. by rewrite Hp.
  - by rewrite Hp.
  - by rewrite Hp, Hfr.
Qed.

(** A table with the same items and the same number of them, perhaps resized. *)
Definition same_items (lh lh' : LHASH) : Prop :=
  items lh' ≡ₚ items lh /\ num_items lh' = num_items lh /\ callback_depth lh' = callback_depth lh /\
  comp lh' = comp lh /\ hash_func lh' = hash_func lh.

Lemma same_items_refl lh : same_items lh lh.
Proof. done. Qed.
#[local] Hint Resolve same_items_refl : core.

Lemma lh_rebucket_spec lh n : inv h c lh -> 16 <= n -> inv h c (lh_rebucket lh n) /\ same_items lh (lh_rebucket lh n) /\
  (lh_rebucket lh n = lh \/ num_buckets (lh_rebucket lh n) = n).
Proof.
  intros Hi Hn. unfold lh_rebucket. destruct (negb _); [by auto|]. destruct (OPENSSL_zalloc _); [|by auto].
  rewrite fold_chains.
  destruct (move_items_spec n (items lh) ltac:(lia) (inv_items_hash lh Hi) (replicate (Z.to_nat n) [])) as (H1 & H2 & H3).
  - rewrite zlen_replicate. lia.
  - intros i chain Hc. apply lookup_replicate in Hc as [-> _]. constructor.
  - assert (Hempty : forall k, concat (replicate k (@nil LHASH_ITEM)) = []) by (induction k; done).
    rewrite Hempty, app_nil_r in H3. split_and!; [by apply (inv_perm lh)| |by right].
    unfold same_items. done.
Qed.

Lemma lh_maybe_resize_spec lh : inv h c lh -> inv h c (lh_maybe_resize lh) /\ same_items lh (lh_maybe_resize lh).
Proof.
  intros Hi. assert (Hsame : inv h c lh /\ same_items lh lh) by auto. pose proof (inv_min _ _ _ Hi).
  unfold lh_maybe_resize, kMinNumBuckets. destruct (_ >? 0); [done|]. cbv zeta. destruct (_ >? _).
  - rewrite Z.gtb_ltb. destruct (Z.ltb_spec (num_buckets lh) (u64 (num_buckets lh * 2))); [|done].
    destruct (lh_rebucket_spec lh (u64 (num_buckets lh * 2)) Hi) as (? & ? & _); [lia|auto].
  - destruct (_ && _); [|done].
    destruct (Z.ltb_spec (num_buckets lh / 2) 16);
      [destruct (lh_rebucket_spec lh 16 Hi) as (? & ? & _)|destruct (lh_rebucket_spec lh (num_buckets lh / 2) Hi) as (? & ? & _)]; auto; lia.
Qed.

End Table.

(** ** The operations *)

Section Operations.
Context `{Allocator} (call_hash_func : Z -> Z -> Z) (call_cmp_func : Z -> Z -> Z -> Z) (hf cf : Z)
  `{!HashContract (call_hash_func hf) (call_cmp_func cf)}.

Abbreviation h := (call_hash_func hf).
Abbreviation c := (call_cmp_func cf).

(** A well-formed table with these two functions. *)
Definition table (lh : LHASH) : Prop := inv h c lh /\ hash_func lh = hf /\ comp lh = cf.

Lemma lh_new_spec lh : OPENSSL_lh_new hf cf = Some lh ->
  table lh /\ contents lh = [] /\ callback_depth lh = 0 /\ num_buckets lh = 16.
Proof.
  unfold OPENSSL_lh_new. destruct (OPENSSL_zalloc 48); [|discriminate]. destruct (OPENSSL_calloc _ _); [|discriminate].
  intros E. injection E as <-. split; [|done]. split; [|done]. split; try done.
  - intros i chain Hc. change (replicate 16 (@nil LHASH_ITEM) !! i = Some chain) in Hc. apply lookup_replicate in Hc as [-> _]. constructor.
  - constructor.
Qed.

(** Where an object is looked for: its bucket, with the item equal to it and the
    items around it, or no such item anywhere. *)
Lemma get_next_ptr_spec lh d : table lh ->
  let i := h d mod num_buckets lh in
  exists k p b s, get_next_ptr_and_hash call_hash_func call_cmp_func lh d = (h d, (i, k)) /\ buckets lh = p ++ b :: s /\
    zlen p = i /\ bucket lh i = b /\
    match deref lh (i, k) with
    | Some it => exists x y, b = x ++ it :: y /\ length x = k /\ c (data it) d = 0 /\
        lookup_eq c (contents lh) d = Some (data it)
    | None => k = length b /\ lookup_eq c (contents lh) d = None
    end.
Proof.
  intros (Hi & Hh & Hc) i. destruct (bucket_split lh i) as (p & s & E & Hp & Hb).
  { rewrite (inv_size _ _ _ Hi). unfold i. apply Z.mod_pos_bound. pose proof (inv_min _ _ _ Hi). lia. }
  exists (find_link (fun cur => c (data cur) d =? 0) (bucket lh i)), p, (bucket lh i), s. unfold get_next_ptr_and_hash. rewrite Hh, Hc.
  split; [done|]. split_and!; [done|done|done|]. unfold deref. cbn [fst snd].
  pose proof (find_link_split (fun cur => c (data cur) d =? 0) (bucket lh i)) as Hf.
  destruct (bucket lh i !! _) as [it|].
  - destruct Hf as (x & y & Exy & Hl & Ht & _). apply Z.eqb_eq in Ht. exists x, y. split_and!; [done|done|done|].
    apply (lookup_eq_Some h c); [apply (inv_distinct _ _ _ Hi)|]. split; [|done].
    unfold contents, items. apply list_elem_of_fmap. exists it. split; [done|]. rewrite E, concat_app. cbn [concat]. rewrite Exy.
    rewrite !elem_of_app, elem_of_cons. tauto.
  - destruct Hf as [Hl Ht]. split; [done|]. apply (lookup_eq_None c). intros z Hz Hzd.
    unfold contents in Hz. apply list_elem_of_fmap in Hz as (it & -> & Hit). unfold items in Hit.
    apply list_elem_of_In, in_concat in Hit as (chain & Hch & Hit). apply list_elem_of_In in Hch, Hit.
    apply list_elem_of_lookup in Hch as [j Hj]. pose proof (inv_place _ _ _ Hi j chain Hj) as Hpl.
    rewrite Forall_forall in Hpl. destruct (Hpl it Hit) as [Hih Him].
    rewrite Hih, (eq_hash (data it) d Hzd) in Him. fold i in Him.
    assert (j = Z.to_nat i) as -> by lia. rewrite Hb in Hj. injection Hj as <-.
    rewrite Forall_forall in Ht. specialize (Ht it Hit). cbv beta in Ht. rewrite Hzd in Ht. done.
Qed.

(** What the operations need of the new chain. *)
Lemma inv_set_bucket lh p b s i b' n fr : inv h c lh -> buckets lh = p ++ b :: s -> zlen p = i ->
  Forall (in_place h (num_buckets lh) (length p)) b' ->
  distinct c (map data (concat p ++ b' ++ concat s)) ->
  n = zlen (concat p ++ b' ++ concat s) ->
  NoDup (map addr (concat p ++ b' ++ concat s)) ->
  Forall (fun it => addr it < fr) (concat p ++ b' ++ concat s) ->
  inv h c (set_num_items (set_bucket (set_fresh lh fr) i b') n) /\
  items (set_num_items (set_bucket (set_fresh lh fr) i b') n) = concat p ++ b' ++ concat s.
Proof.
  intros Hi E Hp Hb Hd Hn Ha Hf.
  assert (Eb : buckets (set_num_items (set_bucket (set_fresh lh fr) i b') n) = p ++ b' :: s).
  { change (buckets (set_bucket (set_fresh lh fr) i b') = p ++ b' :: s). by apply (set_bucket_split _ p b). }
  assert (Ei : items (set_num_items (set_bucket (set_fresh lh fr) i b') n) = concat p ++ b' ++ concat s).
  { unfold items. by rewrite Eb, concat_app. }
  split; [|done]. split; rewrite ?Ei; try done.
  - rewrite Eb. rewrite zlen_app, zlen_cons. change (num_buckets _) with (num_buckets lh).
    rewrite <- (inv_size _ _ _ Hi), E, zlen_app, zlen_cons. done.
  - apply (inv_min _ _ _ Hi).
  - rewrite Eb. pose proof (inv_place _ _ _ Hi) as Hpl. rewrite E in Hpl. apply Forall_place_split in Hpl as (P1 & P2 & P3).
    by apply Forall_place_split.
  - unfold contents. by rewrite Ei.
Qed.

Lemma u64_count n : 0 <= n < 2 ^ 60 -> u64 (n + 1) = n + 1 /\ (0 < n -> u64 (n - 1) = n - 1).
Proof. change (2 ^ 60) with 1152921504606846976. unfold u64. intros Hn. split; intros; apply Z.mod_small; lia. Qed.

Lemma items_split lh p b s : buckets lh = p ++ b :: s -> items lh = concat p ++ b ++ concat s.
Proof. unfold items. intros ->. by rewrite concat_app. Qed.

Lemma table_resize lh : inv h c lh -> hash_func lh = hf -> comp lh = cf ->
  table (lh_maybe_resize lh) /\ contents (lh_maybe_resize lh) ≡ₚ contents lh /\
  callback_depth (lh_maybe_resize lh) = callback_depth lh.
Proof.
  intros Hi Hh Hc. destruct (lh_maybe_resize_spec h c lh Hi) as (Hi' & Hp & Hn & Hd & Hco & Hha).
  split_and!; [split; [done|]; by rewrite Hha, Hco|unfold contents; by rewrite Hp|done].
Qed.

(** [OPENSSL_lh_insert] replaces an equal object, or adds the new one. *)
Lemma lh_insert_spec lh d : table lh -> num_items lh < 2 ^ 60 ->
  exists r old lh', OPENSSL_lh_insert call_hash_func call_cmp_func lh d = (r, old, lh') /\ table lh' /\
    callback_depth lh' = callback_depth lh /\
    ((r = 0 /\ old = NULL /\ lh' = lh /\ lookup_eq c (contents lh) d = None /\ exists n, malloc_ok n = false) \/
     (r = 1 /\ old = default NULL (lookup_eq c (contents lh) d) /\ contents lh' ≡ₚ d :: remove_eq c (contents lh) d)).
Proof.
  intros Ht Hbound. pose proof Ht as (Hi & Hh & Hc). pose proof (inv_distinct _ _ _ Hi) as Hdist.
  destruct (get_next_ptr_spec lh d Ht) as (k & p & b & s & E & Eb & Hp & Hbk & Hlink).
  set (i := h d mod num_buckets lh) in *. unfold OPENSSL_lh_insert. rewrite E. cbn [fst snd].
  pose proof (items_split lh p b s Eb) as Eit. pose proof (inv_place _ _ _ Hi) as Hpl. rewrite Eb in Hpl.
  apply Forall_place_split in Hpl as (P1 & P2 & P3).
  destruct (deref lh (i, k)) as [it|].
  - destruct Hlink as (x & y & -> & Hk & Hdt & Hl). rewrite Hbk, insert_app_r_alt, Hk, Nat.sub_diag by lia. cbn [insert list_insert].
    eexists _, _, _. split; [reflexivity|]. set (it' := mk_item (addr it) d (hash it)).
    assert (Hperm : map data (concat p ++ (x ++ it' :: y) ++ concat s) ≡ₚ d :: remove_eq c (contents lh) d).
    { rewrite (remove_eq_Some h c (contents lh) d (data it) (map data (concat p ++ (x ++ y) ++ concat s))); [|done| |done].
      - rewrite !map_app. cbn [map it' data]. solve_Permutation.
      - unfold contents. rewrite Eit, !map_app. cbn [map]. solve_Permutation. }
    destruct (inv_set_bucket lh p (x ++ it :: y) s i (x ++ it' :: y) (num_items lh) (fresh_item lh)) as [Hinv Hits]; try done.
    + apply Forall_app in P2 as [Px Py]. apply Forall_cons in Py as [[Pit Pit'] Py]. apply Forall_app. split; [done|].
      constructor; [|done]. split; [|done]. cbn [data hash it']. by rewrite Pit, (eq_hash (data it) d).
    + apply (distinct_perm h c _ _ (symmetry Hperm)). by apply (distinct_cons_remove h c).
    + rewrite (inv_count _ _ _ Hi), Eit, !zlen_app, !zlen_cons. done.
    + pose proof (inv_addr _ _ _ Hi) as Ha. rewrite Eit in Ha. rewrite !map_app in *. done.
    + pose proof (inv_fresh _ _ _ Hi) as Hf. rewrite Eit in Hf. rewrite !Forall_app, !Forall_cons in *. done.
    + assert (Esame : set_num_items (set_bucket (set_fresh lh (fresh_item lh)) i (x ++ it' :: y)) (num_items lh)
        = set_bucket lh i (x ++ it' :: y)) by (by destruct lh).
      rewrite Esame in *. split_and!; [split; [done|by destruct lh]|by destruct lh|]. right.
      split_and!; [done|by rewrite Hl|]. unfold contents at 1. by rewrite Hits.
  - destruct Hlink as [Hk Hl]. destruct (OPENSSL_malloc 24) eqn:Em.
    2:{ exists 0, NULL, lh. split_and!; [done|done|done|]. left. split_and!; try done.
        unfold OPENSSL_malloc in Em. destruct (_ <? _) eqn:E2 in Em; [by vm_compute in E2|].
        destruct (malloc_ok _) eqn:E3 in Em; [discriminate|]. by eexists. }
    change (bucket (set_fresh lh (fresh_item lh + 1)) i) with (bucket lh i). rewrite Hbk, Hk, take_ge by lia.
    set (it := mk_item (fresh_item lh) d (h d)).
    change (num_items (set_bucket (set_fresh lh (fresh_item lh + 1)) i (b ++ [it]))) with (num_items lh).
    destruct (u64_count (num_items lh)) as [-> _]; [rewrite (inv_count _ _ _ Hi) in *; zlen_pos; lia|].
    assert (Hperm : concat p ++ (b ++ [it]) ++ concat s ≡ₚ it :: items lh) by (rewrite Eit; solve_Permutation).
    destruct (inv_set_bucket lh p b s i (b ++ [it]) (num_items lh + 1) (fresh_item lh + 1)) as [Hinv Hits]; try done.
    + apply Forall_app. split; [done|]. constructor; [|done]. split; [done|]. unfold zlen in Hp. cbn [hash it]. fold i. lia.
    + apply (distinct_perm h c (map data (it :: items lh))); [by rewrite Hperm|]. cbn [map data it]. fold (contents lh).
      rewrite <- (remove_eq_None c (contents lh) d) by done. by apply (distinct_cons_remove h c).
    + unfold zlen. rewrite Hperm. cbn [length]. rewrite (inv_count _ _ _ Hi). unfold zlen. lia.
    + rewrite Hperm. cbn [map it addr]. constructor; [|apply (inv_addr _ _ _ Hi)].
      intros Hin. apply list_elem_of_fmap in Hin as (it2 & Ha & Hit2). pose proof (inv_fresh _ _ _ Hi) as Hf.
      rewrite Forall_forall in Hf. specialize (Hf it2 Hit2). cbv beta in Hf. lia.
    + rewrite Hperm. constructor; [cbn [it addr]; lia|]. apply (Forall_impl _ _ _ (inv_fresh _ _ _ Hi)). cbv beta. intros. lia.
    + destruct (table_resize _ Hinv) as (Ht' & Hp' & Hd'); [by destruct lh|by destruct lh|].
      eexists _, _, _. split; [reflexivity|]. split_and!; [done|by rewrite Hd'; destruct lh|]. right.
      rewrite Hl, (remove_eq_None c) by done. split_and!; [done|done|]. rewrite Hp'. unfold contents at 1. by rewrite Hits, Hperm.
Qed.

(** [OPENSSL_lh_delete] takes the equal object out, if there is one. *)
Lemma lh_delete_spec lh d : table lh -> num_items lh < 2 ^ 60 ->
  exists lh', OPENSSL_lh_delete call_hash_func call_cmp_func lh d = (default NULL (lookup_eq c (contents lh) d), lh') /\
    table lh' /\ callback_depth lh' = callback_depth lh /\ contents lh' ≡ₚ remove_eq c (contents lh) d.
Proof.
  intros Ht Hbound. pose proof Ht as (Hi & Hh & Hc). pose proof (inv_distinct _ _ _ Hi) as Hdist.
  destruct (get_next_ptr_spec lh d Ht) as (k & p & b & s & E & Eb & Hp & Hbk & Hlink).
  set (i := h d mod num_buckets lh) in *. unfold OPENSSL_lh_delete. rewrite E. cbn [fst snd].
  pose proof (items_split lh p b s Eb) as Eit. pose proof (inv_place _ _ _ Hi) as Hpl. rewrite Eb in Hpl.
  apply Forall_place_split in Hpl as (P1 & P2 & P3).
  destruct (deref lh (i, k)) as [it|].
  2:{ destruct Hlink as [_ Hl]. exists lh. rewrite Hl, (remove_eq_None c) by done. done. }
  destruct Hlink as (x & y & -> & Hk & Hdt & Hl). rewrite Hbk, Hl, take_app_length' by done.
  rewrite (drop_app_ge x (it :: y) (S k)), <- Hk by lia. replace (S (length x) - length x)%nat with 1%nat by lia. cbn [drop]. rewrite drop_0.
  change (num_items (set_bucket lh i (x ++ y))) with (num_items lh).
  assert (Hits : items lh ≡ₚ it :: concat p ++ (x ++ y) ++ concat s) by (rewrite Eit; solve_Permutation).
  assert (Hcount : num_items lh = 1 + zlen (concat p ++ (x ++ y) ++ concat s)).
  { rewrite (inv_count _ _ _ Hi). unfold zlen. rewrite Hits. cbn [length]. lia. }
  destruct (u64_count (num_items lh)) as [_ Hu]; [zlen_pos; lia|]. rewrite Hu by (zlen_pos; lia).
  pose proof (inv_addr _ _ _ Hi) as Ha. pose proof (inv_fresh _ _ _ Hi) as Hf. rewrite Hits in Ha, Hf.
  cbn [map] in Ha. apply NoDup_cons in Ha as [_ Ha]. apply Forall_cons in Hf as [_ Hf].
  assert (Hrem : remove_eq c (contents lh) d ≡ₚ map data (concat p ++ (x ++ y) ++ concat s)).
  { apply (remove_eq_Some h c _ _ (data it)); [done| |done]. unfold contents. by rewrite Hits. }
  destruct (inv_set_bucket lh p (x ++ it :: y) s i (x ++ y) (num_items lh - 1) (fresh_item lh)) as [Hinv Hits']; try done.
  - apply Forall_app in P2 as [Px Py]. apply Forall_cons in Py as [_ Py]. by apply Forall_app.
  - apply (distinct_perm h c _ _ Hrem). by apply (distinct_remove h c).
  - lia.
  - assert (Esame : set_num_items (set_bucket (set_fresh lh (fresh_item lh)) i (x ++ y)) (num_items lh - 1)
      = set_num_items (set_bucket lh i (x ++ y)) (num_items lh - 1)) by (by destruct lh).
    rewrite Esame in *. destruct (table_resize _ Hinv) as (Ht' & Hp' & Hd'); [by destruct lh|by destruct lh|].
    eexists. split; [reflexivity|]. split_and!; [done|by rewrite Hd'; destruct lh|].
    rewrite Hp', Hrem. unfold contents. by rewrite Hits'.
Qed.

Lemma lh_retrieve_spec lh d : table lh ->
  OPENSSL_lh_retrieve call_hash_func call_cmp_func lh d = default NULL (lookup_eq c (contents lh) d).
Proof.
  intros Ht. destruct (get_next_ptr_spec lh d Ht) as (k & p & b & s & E & _ & _ & _ & Hlink).
  unfold OPENSSL_lh_retrieve. rewrite E. destruct (deref lh _) as [it|].
  - by destruct Hlink as (_ & _ & _ & _ & _ & ->).
  - by destruct Hlink as (_ & ->).
Qed.
End Operations.
