(* ===== verification/LhashOps.v ===== *)
(** * Sequences of operations on a hash table, and iteration

    The properties of Lhash.v stated for whole runs: a table is a finite set of
    objects, its buckets follow the number of items, and [OPENSSL_lh_doall_arg]
    visits every item once while its callback deletes. *)

From S2P Require Import Prelude Mem Lhash LhashFacts.

Inductive lh_op := LInsert (d : Z) | LDelete (d : Z) | LRetrieve (d : Z) | LCount.

Section Run.
Context `{Allocator} (call_hash_func : Z -> Z -> Z) (call_cmp_func : Z -> Z -> Z -> Z).

(** The return value, the pointer handed back and the table. *)
Definition run_op (lh : LHASH) (op : lh_op) : Z * Z * LHASH :=
  match op with
  | LInsert d => OPENSSL_lh_insert call_hash_func call_cmp_func lh d
  | LDelete d => let '(p, lh) := OPENSSL_lh_delete call_hash_func call_cmp_func lh d in (0, p, lh)
  | LRetrieve d => (0, OPENSSL_lh_retrieve call_hash_func call_cmp_func lh d, lh)
  | LCount => (OPENSSL_lh_num_items lh, NULL, lh)
  end.

Fixpoint run (lh : LHASH) (ops : list lh_op) : list (Z * Z) * LHASH :=
  match ops with
  | [] => ([], lh)
  | op :: ops => let '(r, p, lh) := run_op lh op in let '(rs, lh) := run lh ops in ((r, p) :: rs, lh)
  end.

(** What they mean on a set of objects no two of which are equal by [c]. *)
Inductive set_step (c : Z -> Z -> Z) : list Z -> lh_op -> Z * Z -> list Z -> Prop :=
  | step_insert l d : set_step c l (LInsert d) (1, default NULL (lookup_eq c l d)) (d :: remove_eq c l d)
  | step_insert_fails l d : lookup_eq c l d = None -> (exists n, malloc_ok n = false) ->
      set_step c l (LInsert d) (0, NULL) l
  | step_delete l d : set_step c l (LDelete d) (0, default NULL (lookup_eq c l d)) (remove_eq c l d)
  | step_retrieve l d : set_step c l (LRetrieve d) (0, default NULL (lookup_eq c l d)) l
  | step_count l : set_step c l LCount (zlen l, NULL) l.

Inductive set_steps (c : Z -> Z -> Z) : list Z -> list lh_op -> list (Z * Z) -> list Z -> Prop :=
  | steps_nil l : set_steps c l [] [] l
  | steps_cons l op r l' ops rs l'' : set_step c l op r l' -> set_steps c l' ops rs l'' ->
      set_steps c l (op :: ops) (r :: rs) l''.

Section Fixed.
Context (hf cf : Z) `{!HashContract (call_hash_func hf) (call_cmp_func cf)}.

Abbreviation h := (call_hash_func hf).
Abbreviation c := (call_cmp_func cf).
Abbreviation table := (table call_hash_func call_cmp_func hf cf).

Lemma num_items_contents lh : table lh -> num_items lh = zlen (contents lh).
Proof. intros [Hi _]. rewrite (inv_count _ _ _ Hi). unfold contents, zlen. by rewrite length_map. Qed.

Lemma zlen_remove_eq l d : zlen (remove_eq c l d) <= zlen l.
Proof.
  induction l as [|x l IH]; cbn [remove_eq]; [done|]. destruct (_ =? 0); rewrite !zlen_cons; lia.
Qed.

Lemma lh_op_step lh op l : table lh -> contents lh ≡ₚ l -> zlen l < 2 ^ 60 ->
  exists r p lh' l', run_op lh op = (r, p, lh') /\ set_step c l op (r, p) l' /\ table lh' /\ contents lh' ≡ₚ l' /\
    zlen l' <= zlen l + 1.
Proof.
  intros Ht Hl Hb. pose proof Ht as [Hi _]. pose proof (inv_distinct _ _ _ Hi) as Hd.
  assert (Hz : zlen (contents lh) = zlen l) by (unfold zlen; by rewrite Hl).
  assert (Hn : num_items lh < 2 ^ 60) by (rewrite num_items_contents, Hz by done; done).
  assert (Hlook : forall d, lookup_eq c (contents lh) d = lookup_eq c l d) by (intros d; by apply (lookup_eq_perm h c)).
  assert (Hrem : forall d, remove_eq c (contents lh) d ≡ₚ remove_eq c l d) by (intros d; by apply (remove_eq_perm h c)).
  destruct op as [d|d|d|]; cbn [run_op].
  - destruct (lh_insert_spec call_hash_func call_cmp_func hf cf lh d Ht Hn) as (r & old & lh' & -> & Ht' & _ & [(-> & -> & -> & Hnone & Hf)|(-> & -> & Hc)]).
    + exists 0, NULL, lh, l. split_and!; [done|constructor; [by rewrite <- Hlook|done]|done|done|lia].
    + eexists _, _, _, _. split; [reflexivity|]. rewrite Hlook. split; [constructor|]. split; [done|].
      split; [by rewrite Hc, Hrem|]. rewrite zlen_cons. pose proof (zlen_remove_eq l d). lia.
  - destruct (lh_delete_spec call_hash_func call_cmp_func hf cf lh d Ht Hn) as (lh' & -> & Ht' & _ & Hc).
    eexists _, _, _, _. split; [reflexivity|]. rewrite Hlook. split; [constructor|]. split; [done|].
    split; [by rewrite Hc, Hrem|]. pose proof (zlen_remove_eq l d). lia.
  - rewrite (lh_retrieve_spec call_hash_func call_cmp_func hf cf), Hlook by done.
    eexists _, _, _, _. split; [reflexivity|]. split; [constructor|]. split_and!; [done|done|lia].
  - unfold OPENSSL_lh_num_items. rewrite num_items_contents, Hz by done.
    eexists _, _, _, _. split; [reflexivity|]. split; [constructor|]. split_and!; [done|done|lia].
Qed.

Lemma lh_run_steps ops : forall lh l, table lh -> contents lh ≡ₚ l -> zlen l + zlen ops < 2 ^ 60 ->
  exists rs lh' l', run lh ops = (rs, lh') /\ set_steps c l ops rs l' /\ table lh' /\ contents lh' ≡ₚ l'.
Proof.
  induction ops as [|op ops IH]; intros lh l Ht Hl Hb.
  { exists [], lh, l. split_and!; [done|constructor|done|done]. }
  rewrite zlen_cons in Hb. destruct (lh_op_step lh op l Ht Hl) as (r & p & lh1 & l1 & E & Hs & Ht1 & Hl1 & Hz); [zlen_pos; lia|].
  destruct (IH lh1 l1 Ht1 Hl1) as (rs & lh2 & l2 & E2 & Hs2 & Ht2 & Hl2); [lia|].
  exists ((r, p) :: rs), lh2, l2. cbn [run]. rewrite E, E2. split_and!; [done|by econstructor|done|done].
Qed.

(** C18. A hash table is a set of objects: under the contract of its callbacks, any
    sequence of operations on a new table returns what the same operations return
    on a set in which no two objects are equal, and ends with that set, whatever
    was resized on the way. An insertion fails only when an allocation does, and
    then only for a new object. *)
Theorem lhash_refines_set lh ops : OPENSSL_lh_new hf cf = Some lh -> zlen ops < 2 ^ 60 ->
  exists rs lh' l, run lh ops = (rs, lh') /\ set_steps c [] ops rs l /\ contents lh' ≡ₚ l /\ distinct c l /\
    inv h c lh'.
Proof.
  intros Hnew Hb. destruct (lh_new_spec call_hash_func call_cmp_func hf cf lh Hnew) as (Ht & Hc & _ & _).
  destruct (lh_run_steps ops lh [] Ht) as (rs & lh' & l & E & Hs & [Hi _] & Hl); [by rewrite Hc|done|].
  exists rs, lh', l. split_and!; [done|done|done| |done]. apply (distinct_perm h c _ _ Hl), (inv_distinct _ _ _ Hi).
Qed.

(** ** The load of a table *)

Definition balanced (lh : LHASH) : Prop :=
  callback_depth lh = 0 /\ (exists k, 0 <= k <= 56 /\ num_buckets lh = 16 * 2 ^ k) /\
  0 <= num_items lh < 3 * num_buckets lh /\ (num_buckets lh = 16 \/ num_buckets lh <= num_items lh).

Lemma rebucket_counts lh n : (forall n, malloc_ok n = true) -> 0 <= n < 2 ^ 60 ->
  num_buckets (lh_rebucket lh n) = n /\ num_items (lh_rebucket lh n) = num_items lh /\
  callback_depth (lh_rebucket lh n) = callback_depth lh.
Proof.
  intros Hok Hn. change (2 ^ 60) with 1152921504606846976 in Hn. unfold lh_rebucket, sizeof_link, u64.
  rewrite (Z.mod_small (8 * n)) by lia. rewrite Z.mul_comm, Z.div_mul, Z.eqb_refl by lia. cbn [negb].
  unfold OPENSSL_zalloc, OPENSSL_malloc, u64, OPENSSL_MALLOC_PREFIX. rewrite Z.mod_small by lia.
  rewrite (proj2 (Z.ltb_ge _ _)) by lia. by rewrite Hok.
Qed.

Lemma div_ge n b k : 0 < b -> (k <= n / b <-> k * b <= n).
Proof.
  intros Hb. split; intros Hk; [|apply Z.div_le_lower_bound; lia].
  pose proof (Z.mul_div_le n b Hb). nia.
Qed.

(** A table one item away from balance is balanced again. *)
Lemma resize_balances lh n : (forall n, malloc_ok n = true) -> balanced lh -> n < 2 ^ 55 ->
  num_items lh - 1 <= n <= num_items lh + 1 -> 0 <= n ->
  forall lh1, num_items lh1 = n -> num_buckets lh1 = num_buckets lh -> callback_depth lh1 = 0 ->
  balanced (lh_maybe_resize lh1) /\ num_items (lh_maybe_resize lh1) = n.
Proof.
  intros Hok (_ & (k & Hk & Hnb) & Hlt & Hge) Hsmall Hn Hn0 lh1 E1 E2 E3.
  change (2 ^ 55) with 36028797018963968 in Hsmall.
  assert (Hpow : 1 <= 2 ^ k) by (assert (0 < 2 ^ k) by (apply Z.pow_pos_nonneg; lia); lia).
  unfold lh_maybe_resize, kMaxAverageChainLength, kMinAverageChainLength, kMinNumBuckets. rewrite E1, E2, E3.
  change (0 >? 0) with false. cbv iota zeta. rewrite !Z.gtb_ltb.
  assert (Hnbpos : 16 <= num_buckets lh < 2 ^ 56 \/ num_buckets lh = 16) by (change (2 ^ 56) with 72057594037927936; lia).
  change (2 ^ 56) with 72057594037927936 in Hnbpos. set (nb := num_buckets lh) in *.
  pose proof (div_ge n nb 3 ltac:(lia)) as Hd3. pose proof (div_ge n nb 1 ltac:(lia)) as Hd1.
  destruct (Z.ltb_spec 2 (n / nb)) as [Hbig|Hbig].
  - assert (3 * nb <= n) by lia. unfold u64. rewrite Z.mod_small by lia. rewrite (proj2 (Z.ltb_lt _ _)) by lia.
    destruct (rebucket_counts lh1 (nb * 2) Hok) as (B1 & B2 & B3); [change (2 ^ 60) with 1152921504606846976; lia|].
    unfold balanced. rewrite B1, B2, B3, E1, E3. split; [|done]. split_and!; [done| |lia|lia|lia].
    exists (k + 1). rewrite Z.pow_add_r by lia. change (2 ^ 1) with 2. split; [|lia].
    split; [lia|]. destruct (Z.le_gt_cases (k + 1) 56) as [|Hgt]; [done|exfalso].
    assert (2 ^ 56 <= 2 ^ k) by (apply Z.pow_le_mono_r; lia). change (2 ^ 56) with 72057594037927936 in *. lia.
  - assert (n < 3 * nb) by lia.
    destruct (Z.ltb_spec (n / nb) 1) as [Hsm|Hsm]; cbn [andb].
    + destruct (Z.ltb_spec 16 nb) as [H16|H16].
      * assert (n < nb) by lia. destruct (Z.eq_dec k 0) as [->|Hk0]; [change (2 ^ 0) with 1 in Hnb; lia|].
        replace k with (k - 1 + 1) in Hnb by lia. rewrite Z.pow_add_r in Hnb by lia. change (2 ^ 1) with 2 in Hnb.
        assert (1 <= 2 ^ (k - 1)) by (assert (0 < 2 ^ (k - 1)) by (apply Z.pow_pos_nonneg; lia); lia).
        assert (Hhalf : nb / 2 = 16 * 2 ^ (k - 1)) by (rewrite Hnb; dlia).
        rewrite (proj2 (Z.ltb_ge (nb / 2) 16)) by lia.
        destruct (rebucket_counts lh1 (nb / 2) Hok) as (B1 & B2 & B3); [change (2 ^ 60) with 1152921504606846976; lia|].
        unfold balanced. rewrite B1, B2, B3, E1, E3. split; [|done]. split_and!; [done| |lia|lia|lia].
        exists (k - 1). split; [lia|done].
      * unfold balanced. rewrite E1, E2, E3. split; [|done]. split_and!; [done|by exists k|lia|lia|lia].
    + assert (nb <= n) by lia. unfold balanced. rewrite E1, E2, E3. split; [|done].
      split_and!; [done|by exists k|lia|lia|lia].
Qed.

(** Every operation keeps the balance and changes the number of items by at most
    one. *)
Lemma run_op_balanced lh op : (forall n, malloc_ok n = true) -> table lh -> balanced lh -> num_items lh + 1 < 2 ^ 55 ->
  balanced (snd (run_op lh op)) /\ num_items (snd (run_op lh op)) <= num_items lh + 1.
Proof.
  intros Hok Ht Hbal Hsmall. pose proof Hbal as (Hdep & _ & Hn & _). change (2 ^ 55) with 36028797018963968 in Hsmall.
  destruct op as [d|d|d|]; cbn [run_op snd]; [| |split; [done|lia]..].
  - unfold OPENSSL_lh_insert. destruct (get_next_ptr_and_hash _ _ _ _) as [hh [i k]]. cbn [fst snd].
    destruct (deref lh (i, k)) as [it|]; [split; [done|cbn; lia]|].
    destruct (OPENSSL_malloc 24); [|split; [done|cbn; lia]].
    set (lh1 := set_num_items _ _). assert (E : num_items lh1 = num_items lh + 1).
    { unfold lh1. cbn [num_items set_num_items set_bucket set_buckets set_fresh]. unfold u64. rewrite Z.mod_small; lia. }
    destruct (resize_balances lh (num_items lh + 1) Hok Hbal) with (lh1 := lh1) as [Hb Hnum];
      [change (2 ^ 55) with 36028797018963968; lia|lia|lia|done|done|done|].
    change (balanced (lh_maybe_resize lh1) /\ num_items (lh_maybe_resize lh1) <= num_items lh + 1).
    rewrite Hnum. split; [done|lia].
  - unfold OPENSSL_lh_delete. destruct (get_next_ptr_and_hash _ _ _ _) as [hh [i k]] eqn:Eg. cbn [fst snd].
    destruct (deref lh (i, k)) as [it|] eqn:Ed; [|split; [done|cbn; lia]].
    assert (Hpos : 0 < num_items lh).
    { destruct (get_next_ptr_spec call_hash_func call_cmp_func hf cf lh d Ht) as (k' & p & b & s & E & _ & _ & _ & Hl).
      rewrite Eg in E. injection E as -> -> ->. rewrite Ed in Hl. destruct Hl as (_ & _ & _ & _ & _ & Hl).
      rewrite num_items_contents by done. destruct (contents lh); [done|]. rewrite zlen_cons. zlen_pos. lia. }
    set (lh1 := set_num_items _ _). assert (E : num_items lh1 = num_items lh - 1).
    { unfold lh1. cbn [num_items set_num_items set_bucket set_buckets]. unfold u64. rewrite Z.mod_small; lia. }
    destruct (resize_balances lh (num_items lh - 1) Hok Hbal) with (lh1 := lh1) as [Hb Hnum];
      [change (2 ^ 55) with 36028797018963968; lia|lia|lia|done|done|done|].
    change (balanced (lh_maybe_resize lh1) /\ num_items (lh_maybe_resize lh1) <= num_items lh + 1).
    rewrite Hnum. split; [done|lia].
Qed.

(** The buckets follow the number of items: with an allocator that does not
    fail, after any operations on a new table the average chain length is below
    three, and the table has no more buckets than items unless it has the minimum
    of 16; their number is 16 times a power of two. *)
Theorem lhash_load lh ops : (forall n, malloc_ok n = true) -> OPENSSL_lh_new hf cf = Some lh -> zlen ops < 2 ^ 54 ->
  let lh' := snd (run lh ops) in
  num_items lh' < 3 * num_buckets lh' /\ (num_buckets lh' = 16 \/ num_buckets lh' <= num_items lh') /\
  exists k, 0 <= k /\ num_buckets lh' = 16 * 2 ^ k.
Proof.
  intros Hok Hnew Hb. destruct (lh_new_spec call_hash_func call_cmp_func hf cf lh Hnew) as (Ht & Hc & Hd & Hn).
  assert (Hcount : num_items lh = 0) by (by rewrite num_items_contents, Hc).
  assert (Hbal : balanced lh).
  { unfold balanced. rewrite Hcount, Hn, Hd. split_and!; [done|by exists 0|lia|lia|by left]. }
  assert (Hgen : forall ops lh, table lh -> balanced lh -> num_items lh + zlen ops < 2 ^ 54 -> balanced (snd (run lh ops))).
  { clear -Hok HashContract0. induction ops as [|op ops IH]; intros lh Ht Hbal Hb; [done|]. cbn [run].
    rewrite zlen_cons in Hb. change (2 ^ 54) with 18014398509481984 in *. zlen_pos.
    destruct (run_op_balanced lh op Hok Ht Hbal) as [Hbal1 Hn1]; [change (2 ^ 55) with 36028797018963968; lia|].
    destruct (lh_op_step lh op (contents lh) Ht) as (r & p & lh1 & l1 & E & _ & Ht1 & _);
      [done|rewrite <- num_items_contents by done; change (2 ^ 60) with 1152921504606846976; lia|].
    rewrite E in *. cbn [snd] in *. specialize (IH lh1 Ht1 Hbal1 ltac:(lia)).
    destruct (run lh1 ops) as [rs lh2]. done. }
  destruct (Hgen ops lh Ht Hbal) as (_ & (k & Hk & Hnb) & ? & ?); [lia|].
  split_and!; [lia|done|]. exists k. split; [lia|done].
Qed.

(** ** Iteration *)

(** A callback that notes the object it is called with, and deletes it from the
    table when [p] says so. *)
Definition visit (p : Z -> bool) (d : Z) (st : LHASH * list Z) : LHASH * list Z :=
  (if p d then snd (OPENSSL_lh_delete call_hash_func call_cmp_func (fst st) d) else fst st, snd st ++ [d]).

Definition stays (p : Z -> bool) (it : LHASH_ITEM) : Prop := p (data it) = false.

#[local] Instance stays_dec p it : Decision (stays p it).
Proof. unfold stays. apply _. Defined.

Lemma resize_depth lh : 0 < callback_depth lh -> lh_maybe_resize lh = lh.
Proof. intros Hd. unfold lh_maybe_resize. rewrite Z.gtb_ltb. by rewrite (proj2 (Z.ltb_lt _ _)). Qed.

(** During an iteration, deleting an object of the table unlinks its item. *)
Lemma delete_exact lh i x it y : table lh -> 0 < callback_depth lh -> num_items lh < 2 ^ 60 -> 0 <= i < num_buckets lh ->
  bucket lh i = x ++ it :: y ->
  snd (OPENSSL_lh_delete call_hash_func call_cmp_func lh (data it)) =
    set_num_items (set_bucket lh i (x ++ y)) (num_items lh - 1).
Proof.
  intros Ht Hdep Hsmall Hi Hb. pose proof Ht as (Hinv & Hh & Hc).
  destruct (bucket_split lh i) as (p & s & Eb & Hp & Hlk); [by rewrite (inv_size _ _ _ Hinv)|].
  assert (Hitems : items lh ≡ₚ it :: concat p ++ (x ++ y) ++ concat s).
  { rewrite (items_split lh p _ s Eb), Hb. solve_Permutation. }
  assert (Hmod : h (data it) mod num_buckets lh = i).
  { pose proof (inv_place _ _ _ Hinv _ _ Hlk) as Hpl. rewrite Hb in Hpl. apply Forall_app in Hpl as [_ Hpl].
    apply Forall_cons in Hpl as [[-> Hm] _]. lia. }
  assert (Hfind : find_link (fun cur => c (data cur) (data it) =? 0) (bucket lh i) = length x).
  { rewrite Hb. assert (Hx : Forall (fun z => c (data z) (data it) <> 0) x).
    { pose proof (inv_distinct _ _ _ Hinv) as Hd. apply (distinct_perm h c _ (map data (it :: concat p ++ (x ++ y) ++ concat s))) in Hd.
      - cbn [map distinct] in Hd. destruct Hd as [Hd _]. apply Forall_forall. intros z Hz Hzi.
        apply (proj1 (Forall_forall _ _) Hd (data z)); [|by apply (eq_sym' (h := h))].
        apply list_elem_of_fmap. exists z. split; [done|]. rewrite !elem_of_app. tauto.
      - unfold contents. by rewrite Hitems. }
    clear -Hx HashContract0. induction x as [|z x IH]; cbn [app find_link length].
    - by rewrite (eq_refl' (h := h)).
    - apply Forall_cons in Hx as [Hz Hx]. rewrite (proj2 (Z.eqb_neq _ _) Hz). by rewrite IH. }
  unfold OPENSSL_lh_delete, get_next_ptr_and_hash. rewrite Hh, Hc, Hmod, Hfind. unfold deref. cbn [fst snd].
  rewrite Hb, list_lookup_middle by done. cbn [snd].
  rewrite take_app_length, drop_app_ge by lia. replace (S (length x) - length x)%nat with 1%nat by lia. cbn [drop].
  rewrite drop_0. change (num_items (set_bucket lh i (x ++ y))) with (num_items lh).
  assert (Hn : num_items lh = 1 + zlen (concat p ++ (x ++ y) ++ concat s)).
  { rewrite (inv_count _ _ _ Hinv). unfold zlen. rewrite Hitems. cbn [length]. lia. }
  destruct (u64_count (num_items lh)) as [_ ->]; [zlen_pos; lia| |zlen_pos; lia]. by apply resize_depth.
Qed.

Lemma from_item_middle x it y : Forall (fun z => addr z <> addr it) x -> from_item (addr it) (x ++ it :: y) = Some (it, y).
Proof.
  induction 1 as [|z x Hz _ IH]; cbn [app from_item]; [by rewrite Z.eqb_refl|].
  by rewrite (proj2 (Z.eqb_neq _ _) Hz).
Qed.

Lemma doall_chain_spec p i todo : forall fuel lh kept w, table lh -> 0 < callback_depth lh -> num_items lh < 2 ^ 60 ->
  0 <= i < num_buckets lh -> bucket lh i = kept ++ todo -> (length todo <= fuel)%nat ->
  exists lh', doall_chain (visit p) fuel i (head_addr todo) (lh, w) = Some (lh', w ++ map data todo) /\
    table lh' /\ buckets lh' = zupd (buckets lh) i (kept ++ filter (stays p) todo) /\
    callback_depth lh' = callback_depth lh /\ num_buckets lh' = num_buckets lh /\ num_items lh' <= num_items lh.
Proof.
  induction todo as [|it todo IH]; intros fuel lh kept w Ht Hdep Hsmall Hi Hb Hf.
  { exists lh. destruct fuel; cbn [doall_chain head_addr map filter list_filter]; rewrite !app_nil_r in *;
      (split_and!; [done|done| |done|done|lia]);
      destruct Ht as [Hinv _]; destruct (bucket_split lh i) as (p' & s & E & Hp & _);
        [by rewrite (inv_size _ _ _ Hinv)|rewrite E, Hb; symmetry; unfold zupd; rewrite <- Hp, zlen_to_nat, insert_app_r_alt, Nat.sub_diag by lia; by rewrite <- Hb
        |by rewrite (inv_size _ _ _ Hinv)|rewrite E, Hb; symmetry; unfold zupd; rewrite <- Hp, zlen_to_nat, insert_app_r_alt, Nat.sub_diag by lia; by rewrite <- Hb]. }
  destruct fuel as [|fuel]; cbn [length] in Hf; [lia|]. cbn [doall_chain head_addr fst].
  pose proof Ht as (Hinv & _). assert (Hsz : 0 <= i < zlen (buckets lh)) by (by rewrite (inv_size _ _ _ Hinv)).
  destruct (bucket_split lh i Hsz) as (pre & suf & E & Hp & _).
  assert (Hkept : Forall (fun z => addr z <> addr it) kept).
  { pose proof (inv_addr _ _ _ Hinv) as Ha. rewrite (items_split lh pre _ suf E), Hb in Ha.
    assert (Hperm : concat pre ++ (kept ++ it :: todo) ++ concat suf ≡ₚ it :: kept ++ concat pre ++ todo ++ concat suf) by solve_Permutation.
    rewrite Hperm in Ha. cbn [map] in Ha. apply NoDup_cons in Ha as [Hnot _]. apply Forall_forall. intros z Hz Hza.
    apply Hnot. rewrite <- Hza. apply list_elem_of_fmap. exists z. split; [done|]. rewrite elem_of_app. by left. }
  rewrite Hb, from_item_middle by done. unfold visit at 2. cbn [fst snd].
  rewrite filter_cons. destruct (p (data it)) eqn:Ep.
  - rewrite decide_False by (unfold stays; by rewrite Ep).
    destruct (lh_delete_spec call_hash_func call_cmp_func hf cf lh (data it) Ht Hsmall) as (lh1 & Ed & Ht1 & _ & _).
    pose proof (delete_exact lh i kept it todo Ht Hdep Hsmall Hi Hb) as Hex. rewrite Ed in Hex |- *. cbn [snd] in Hex |- *. subst lh1.
    destruct (IH fuel (set_num_items (set_bucket lh i (kept ++ todo)) (num_items lh - 1)) kept (w ++ [data it]) Ht1)
      as (lh' & Hrun & Ht' & Hbs & Hd' & Hn' & Hle); [done|cbn; lia|done| |lia|].
    { change (bucket (set_bucket lh i (kept ++ todo)) i = kept ++ todo). unfold bucket.
      rewrite (set_bucket_split lh pre _ suf i _ E Hp), nth_lookup, <- Hp, zlen_to_nat, lookup_app_r, Nat.sub_diag by lia. done. }
    exists lh'. rewrite Hrun. cbn [map]. rewrite <- app_assoc. cbn [app]. split_and!; [done|done| |done|done|cbn in Hle; lia].
    rewrite Hbs. change (buckets (set_num_items (set_bucket lh i (kept ++ todo)) (num_items lh - 1))) with (zupd (buckets lh) i (kept ++ todo)).
    unfold zupd. by rewrite list_insert_insert_eq.
  - rewrite decide_True by done. destruct (IH fuel lh (kept ++ [it]) (w ++ [data it]) Ht Hdep Hsmall Hi) as (lh' & Hrun & H').
    + by rewrite <- app_assoc.
    + lia.
    + exists lh'. rewrite Hrun. cbn [map]. rewrite <- !app_assoc in *. done.
Qed.

Lemma doall_buckets_spec p fuel rest : forall n lh pre w, table lh -> 0 < callback_depth lh -> num_items lh < 2 ^ 60 ->
  buckets lh = pre ++ rest -> (length rest <= n)%nat -> Forall (fun chain => (length chain <= fuel)%nat) rest ->
  exists lh', doall_buckets (visit p) fuel n (zlen pre) (lh, w) = Some (lh', w ++ map data (concat rest)) /\
    table lh' /\ buckets lh' = pre ++ map (filter (stays p)) rest /\ callback_depth lh' = callback_depth lh.
Proof.
  induction rest as [|chain rest IH]; intros n lh pre w Ht Hdep Hsmall Hb Hn Hf.
  - exists lh. pose proof Ht as (Hinv & _). pose proof (inv_size _ _ _ Hinv) as Hs. rewrite Hb, app_nil_r in Hs.
    destruct n; cbn [doall_buckets fst]; rewrite (proj2 (Z.ltb_ge _ _)) by lia; cbn [concat map]; by rewrite !app_nil_r in *.
  - destruct n as [|n]; cbn [length] in Hn; [lia|]. apply Forall_cons in Hf as [Hf1 Hf]. cbn [doall_buckets fst].
    pose proof Ht as (Hinv & _). pose proof (inv_size _ _ _ Hinv) as Hs. rewrite Hb, zlen_app, zlen_cons in Hs. zlen_pos.
    rewrite (proj2 (Z.ltb_lt _ _)) by lia.
    assert (Hbk : bucket lh (zlen pre) = chain).
    { unfold bucket. rewrite Hb, nth_lookup, zlen_to_nat, lookup_app_r, Nat.sub_diag by lia. done. }
    rewrite Hbk. destruct (doall_chain_spec p (zlen pre) chain fuel lh [] w Ht Hdep Hsmall ltac:(lia) Hbk Hf1)
      as (lh1 & -> & Ht1 & Hb1 & Hd1 & Hn1 & Hi1).
    rewrite Hb in Hb1. unfold zupd in Hb1. rewrite zlen_to_nat, insert_app_r_alt, Nat.sub_diag in Hb1 by lia. cbn [app insert list_insert] in Hb1.
    destruct (IH n lh1 (pre ++ [filter (stays p) chain]) (w ++ map data chain) Ht1) as (lh2 & Hrun & Ht2 & Hb2 & Hd2);
      [lia|lia|by rewrite <- app_assoc|lia|done|].
    rewrite zlen_app in Hrun. change (zlen [filter (stays p) chain]) with 1 in Hrun. rewrite Hrun.
    exists lh2. cbn [concat]. rewrite map_app, app_assoc. split_and!; [done|done| |lia].
    rewrite Hb2, <- app_assoc. done.
Qed.

(** [OPENSSL_lh_doall_arg] with a callback that deletes the object it is
    called with when [p] says so: every object of the table is visited exactly
    once, in the order of the buckets; the objects that stay are those [p] spares,
    and the table is resized only at the end. The fuel of the model, one step per
    bucket and per item of a chain, is enough. *)
Theorem doall_visits_once p lh fuel n : inv h c lh -> hash_func lh = hf -> comp lh = cf ->
  callback_depth lh = 0 -> num_items lh < 2 ^ 60 -> (length (buckets lh) <= n)%nat ->
  Forall (fun chain => (length chain <= fuel)%nat) (buckets lh) ->
  exists lh', OPENSSL_lh_doall_arg (visit p) fuel n lh [] = Some (lh', contents lh) /\
    inv h c lh' /\ contents lh' ≡ₚ filter (fun d => p d = false) (contents lh) /\ callback_depth lh' = 0.
Proof.
  intros Hinv Hh Hc Hdep Hsmall Hn Hf. unfold OPENSSL_lh_doall_arg. rewrite Hdep. change (0 <? UINT_MAX) with true. cbv iota.
  set (lh1 := set_depth lh (0 + 1)).
  assert (Ht1 : table lh1).
  { split; [|done]. destruct Hinv. by split. }
  destruct (doall_buckets_spec p fuel (buckets lh) n lh1 [] [] Ht1) as (lh2 & E & (Hinv2 & Hh2 & Hc2) & Hb2 & Hd2); [done..|].
  change (zlen []) with 0 in E. rewrite E. change (callback_depth lh1) with 1 in Hd2. rewrite Hd2.
  change (1 <? UINT_MAX) with true. cbv iota. change (1 - 1) with 0. set (lh3 := set_depth lh2 0).
  assert (Hinv3 : inv h c lh3) by (destruct Hinv2; by split).
  destruct (lh_maybe_resize_spec h c lh3 Hinv3) as (Hi4 & Hp4 & _ & Hd4 & _).
  exists (lh_maybe_resize lh3). split_and!; [done|done| |done].
  unfold contents at 1. rewrite Hp4. change (items lh3) with (items lh2). unfold items at 1. rewrite Hb2. cbn [app].
  unfold contents, items. clear. induction (buckets lh) as [|chain bs IH]; [done|]. cbn [map concat].
  rewrite !map_app, filter_app, IH. apply Permutation_app; [|done]. clear.
  induction chain as [|it chain IH]; [done|]. cbn [map]. rewrite !filter_cons. unfold stays at 1.
  repeat case_decide; cbn [map]; [by rewrite IH|done|done|done].
Qed.
End Fixed.
End Run.

(** ** The contract can be met, and an example *)

#[export] Instance mod_contract : HashContract (fun x => x mod 7) (fun x y => (x - y) mod 70).
Proof.
  split.
  - intros x. pose proof (Z.mod_pos_bound x 7). lia.
  - intros x. by rewrite Z.sub_diag.
  - intros x y E. dlia.
  - intros x y z E1 E2. dlia.
  - intros x y E. dlia.
Qed.

Definition all_granted : Allocator := {| malloc_ok := fun _ => true; junk := fun _ => 0 |}.

(** The objects are numbers, equal modulo 70 and hashed modulo 7. *)
Definition ex_hash (_ x : Z) : Z := x mod 7.
Definition ex_cmp (_ x y : Z) : Z := (x - y) mod 70.

Lemma lhash_refines_set_witness :
  exists rs lh' l, run (H := all_granted) ex_hash ex_cmp (mk_lhash 0 (replicate 16 []) 16 0 1 1 1) [LInsert 5; LInsert 75; LInsert 12; LDelete 145; LCount] = (rs, lh') /\
    set_steps (H := all_granted) (ex_cmp 1) [] [LInsert 5; LInsert 75; LInsert 12; LDelete 145; LCount] rs l /\
    contents lh' ≡ₚ l /\ distinct (ex_cmp 1) l /\ inv (ex_hash 1) (ex_cmp 1) lh'.
Proof.
  apply (lhash_refines_set (H := all_granted) ex_hash ex_cmp 1 1 (HashContract0 := mod_contract)); reflexivity.
Defined.

Lemma lhash_load_witness :
  let lh' := snd (run (H := all_granted) ex_hash ex_cmp (mk_lhash 0 (replicate 16 []) 16 0 1 1 1) [LInsert 5; LInsert 6]) in
  num_items lh' < 3 * num_buckets lh' /\ (num_buckets lh' = 16 \/ num_buckets lh' <= num_items lh') /\
  exists k, 0 <= k /\ num_buckets lh' = 16 * 2 ^ k.
Proof.
  apply (lhash_load (H := all_granted) ex_hash ex_cmp 1 1 (HashContract0 := mod_contract)); reflexivity.
Defined.

Definition ex_table : LHASH :=
  mk_lhash 2 ([] :: [mk_item 2 1 1] :: replicate 3 [] ++ [mk_item 1 5 5] :: replicate 10 []) 16 0 1 1 3.

Lemma doall_visits_once_witness :
  exists lh', OPENSSL_lh_doall_arg (H := all_granted) (visit (H := all_granted) ex_hash ex_cmp (fun d => d =? 5)) 1 16 ex_table [] = Some (lh', [1; 5]) /\
    inv (ex_hash 1) (ex_cmp 1) lh' /\ contents lh' ≡ₚ filter (fun d => (d =? 5) = false) [1; 5] /\ callback_depth lh' = 0.
Proof.
  apply (doall_visits_once (H := all_granted) ex_hash ex_cmp 1 1 (HashContract0 := mod_contract) (fun d => d =? 5) ex_table 1 16);
    [|reflexivity..|vm_compute; lia|repeat constructor].
  split.
  - reflexivity.
  - vm_compute. discriminate.
  - intros i chain Hc.
    do 16 (destruct i as [|i]; [injection Hc as <-; repeat constructor|]). discriminate.
  - split; [constructor; [discriminate|constructor]|split; [constructor|exact I]].
  - reflexivity.
  - change (NoDup [2; 1]). refine (bool_decide_unpack _ _). exact I.
  - repeat constructor.
Defined.
