(* ===== verification/Unicode.v ===== *)
(** * Characters in byte strings (crypto/bytestring/unicode.c)

    A reader returns the code point it reads; a writer takes a [uint32_t]. *)

From S2P Require Import Prelude Words Mem Der Cbs CbsFacts Cbb CbbFacts CbbBuilder.

Definition is_valid_code_point (v : Z) : bool :=
  if (v >? 0x10ffff) || ((v .& 0xfffe) =? 0xfffe) || ((v >=? 0xfdd0) && (v <=? 0xfdef)) ||
     ((v >=? 0xd800) && (v <=? 0xdfff)) then false
  else true.

(** Bytes with the bottom, or the top, [n] bits set. *)
Definition BOTTOM_BITS (n : Z) : Z := u8 (u32 (1 ≪ n) - 1).
Definition TOP_BITS (n : Z) : Z := u8 (Z.lnot (BOTTOM_BITS (8 - n))).

(** ** Readers *)

(** The loop over the [n] continuation bytes. *)
Fixpoint utf8_rest (n : nat) (v : Z) : M CBS Z :=
  match n with
  | O => ret v
  | S n =>
      let* c := CBS_get_u8 in
      guard ((c .& TOP_BITS 2) =? TOP_BITS 1) ;;;
      let v := u32 (v ≪ 6) in
      let v := v .| (c .& BOTTOM_BITS 6) in
      utf8_rest n v
  end.

Definition CBS_get_utf8 : M CBS Z :=
  let* c := CBS_get_u8 in
  if c <=? 0x7f then ret c
  else
    let start :=
      if (c .& TOP_BITS 3) =? TOP_BITS 2 then Some (c .& BOTTOM_BITS 5, 1%nat, 0x80)
      else if (c .& TOP_BITS 4) =? TOP_BITS 3 then Some (c .& BOTTOM_BITS 4, 2%nat, 0x800)
      else if (c .& TOP_BITS 5) =? TOP_BITS 4 then Some (c .& BOTTOM_BITS 3, 3%nat, 0x10000)
      else None in
    match start with
    | None => fail
    | Some (v, len, lower_bound) =>
        let* v := utf8_rest len v in
        guard (negb (negb (is_valid_code_point v) || (v <? lower_bound))) ;;;
        ret v
    end.

Definition CBS_get_latin1 : M CBS Z := let* c := CBS_get_u8 in ret c.

Definition CBS_get_ucs2_be : M CBS Z :=
  let* c := CBS_get_u16 in guard (is_valid_code_point c) ;;; ret c.

Definition CBS_get_utf32_be : M CBS Z :=
  let* out := CBS_get_u32 in guard (is_valid_code_point out) ;;; ret out.

(** ** Writers *)

Definition CBB_get_utf8_len (u : Z) : Z :=
  if u <=? 0x7f then 1 else if u <=? 0x7ff then 2 else if u <=? 0xffff then 3 else 4.

Section Writers.
Context `{Allocator}.

Definition CBB_add_utf8 (cbb : CBB) (u : Z) : M cbb_st unit :=
  guard (is_valid_code_point u) ;;;
  if u <=? 0x7f then CBB_add_u8 cbb (u8 u)
  else if u <=? 0x7ff then
    CBB_add_u8 cbb (u8 (TOP_BITS 2 .| (u ≫ 6))) ;;;
    CBB_add_u8 cbb (u8 (TOP_BITS 1 .| (u .& BOTTOM_BITS 6)))
  else if u <=? 0xffff then
    CBB_add_u8 cbb (u8 (TOP_BITS 3 .| (u ≫ 12))) ;;;
    CBB_add_u8 cbb (u8 (TOP_BITS 1 .| ((u ≫ 6) .& BOTTOM_BITS 6))) ;;;
    CBB_add_u8 cbb (u8 (TOP_BITS 1 .| (u .& BOTTOM_BITS 6)))
  else if u <=? 0x10ffff then
    CBB_add_u8 cbb (u8 (TOP_BITS 4 .| (u ≫ 18))) ;;;
    CBB_add_u8 cbb (u8 (TOP_BITS 1 .| ((u ≫ 12) .& BOTTOM_BITS 6))) ;;;
    CBB_add_u8 cbb (u8 (TOP_BITS 1 .| ((u ≫ 6) .& BOTTOM_BITS 6))) ;;;
    CBB_add_u8 cbb (u8 (TOP_BITS 1 .| (u .& BOTTOM_BITS 6)))
  else fail.

Definition CBB_add_latin1 (cbb : CBB) (u : Z) : M cbb_st unit :=
  guard (u <=? 0xff) ;;; CBB_add_u8 cbb (u8 u).

Definition CBB_add_ucs2_be (cbb : CBB) (u : Z) : M cbb_st unit :=
  guard ((u <=? 0xffff) && is_valid_code_point u) ;;; CBB_add_u16 cbb (u16 u).

Definition CBB_add_utf32_be (cbb : CBB) (u : Z) : M cbb_st unit :=
  guard (is_valid_code_point u) ;;; CBB_add_u32 cbb u.
End Writers.

(** * Correctness

    UTF-8, Latin-1, UCS-2 and UTF-32 as functions from code points to octets; each
    reader accepts exactly the octets of its encoding and each writer produces
    them. What the two sides promise is the class [CharCodec], on which the
    theorems about whole texts rest. *)

(** ** The reference *)

(** Unicode scalar values that are not noncharacters. *)
Definition code_point (v : Z) : Prop :=
  0 <= v <= 0x10ffff /\ v mod 65536 < 65534 /\ ~ (0xfdd0 <= v <= 0xfdef) /\ ~ (0xd800 <= v <= 0xdfff).

Inductive text_kind := Utf8 | Latin1 | Ucs2 | Utf32.

Definition valid_char (k : text_kind) (v : Z) : Prop :=
  match k with
  | Utf8 | Utf32 => code_point v
  | Latin1 => 0 <= v <= 0xff
  | Ucs2 => code_point v /\ v <= 0xffff
  end.

#[global] Instance valid_char_dec k v : Decision (valid_char k v).
Proof. destruct k; cbn; unfold code_point; apply _. Defined.

Definition encode (k : text_kind) (v : Z) : list Z :=
  match k with
  | Utf8 =>
      if v <? 128 then [v]
      else if v <? 2048 then [192 + v / 64; 128 + v mod 64]
      else if v <? 65536 then [224 + v / 4096; 128 + v / 64 mod 64; 128 + v mod 64]
      else [240 + v / 262144; 128 + v / 4096 mod 64; 128 + v / 64 mod 64; 128 + v mod 64]
  | Latin1 => [v]
  | Ucs2 => be_bytes 2 v
  | Utf32 => be_bytes 4 v
  end.

Definition get_char (k : text_kind) : M CBS Z :=
  match k with
  | Utf8 => CBS_get_utf8 | Latin1 => CBS_get_latin1 | Ucs2 => CBS_get_ucs2_be | Utf32 => CBS_get_utf32_be
  end.
Definition add_char `{Allocator} (k : text_kind) : CBB -> Z -> M cbb_st unit :=
  match k with
  | Utf8 => CBB_add_utf8 | Latin1 => CBB_add_latin1 | Ucs2 => CBB_add_ucs2_be | Utf32 => CBB_add_utf32_be
  end.

(** ** Code points *)

Lemma land_fffe v : 0 <= v <= 0x10ffff -> ((v .& 0xfffe) =? 0xfffe) = (65534 <=? v mod 65536).
Proof.
  intros Hv. assert (E : (v .& 0xfffe) = ((v mod 65536) .& 0xfffe)).
  { change 65536 with (2 ^ 16). rewrite <- Z.land_ones by lia. rewrite <- Z.land_assoc. f_equal. }
  rewrite E. pose proof (Z.mod_pos_bound v 65536 ltac:(lia)) as Hm. set (m := v mod 65536) in *. clearbody m. clear E Hv v.
  assert (Ht : m = m / 2 * 2 + m mod 2) by dlia. rewrite Ht. change 0xfffe with (32767 * 2 ^ 1 + 0). change 2 with (2 ^ 1) at 2.
  rewrite land_split by (change (2 ^ 1) with 2; dlia). change (2 ^ 1) with 2. rewrite Z.land_0_r.
  change 32767 with (Z.ones 15). rewrite Z.land_ones by lia. change (2 ^ 15) with 32768.
  change (Z.ones 15 * 2 + 0) with 65534.
  destruct (Z.leb_spec 65534 (m / 2 * 2 + m mod 2)); [apply Z.eqb_eq|apply Z.eqb_neq]; dlia.
Qed.

Lemma is_valid_code_point_spec v : 0 <= v -> is_valid_code_point v = true <-> code_point v.
Proof.
  intros Hv. unfold is_valid_code_point, code_point. rewrite Z.gtb_ltb, !Z.geb_leb.
  destruct (Z.ltb_spec 0x10ffff v) as [H|H]; cbn [orb]; [split; [done|lia]|].
  rewrite land_fffe by lia.
  destruct (Z.leb_spec 65534 (v mod 65536)); cbn [orb]; [split; [done|lia]|].
  destruct (Z.leb_spec 0xfdd0 v), (Z.leb_spec v 0xfdef), (Z.leb_spec 0xd800 v), (Z.leb_spec v 0xdfff);
    cbn [andb orb]; (split; [done || lia|done || lia]).
Qed.

(** ** Readers *)

Lemma lead_check : zall 0 256 (fun c =>
  Bool.eqb ((c .& TOP_BITS 3) =? TOP_BITS 2) ((192 <=? c) && (c <? 224)) &&
  Bool.eqb ((c .& TOP_BITS 4) =? TOP_BITS 3) ((224 <=? c) && (c <? 240)) &&
  Bool.eqb ((c .& TOP_BITS 5) =? TOP_BITS 4) ((240 <=? c) && (c <? 248)) &&
  Bool.eqb ((c .& TOP_BITS 2) =? TOP_BITS 1) ((128 <=? c) && (c <? 192)) &&
  ((c .& BOTTOM_BITS 5) =? c mod 32) && ((c .& BOTTOM_BITS 4) =? c mod 16) && ((c .& BOTTOM_BITS 3) =? c mod 8) &&
  ((c .& BOTTOM_BITS 6) =? c mod 64)) = true.
Proof. vm_compute. reflexivity. Qed.

Lemma lead_byte c : is_byte c ->
  ((c .& TOP_BITS 3) =? TOP_BITS 2) = ((192 <=? c) && (c <? 224)) /\
  ((c .& TOP_BITS 4) =? TOP_BITS 3) = ((224 <=? c) && (c <? 240)) /\
  ((c .& TOP_BITS 5) =? TOP_BITS 4) = ((240 <=? c) && (c <? 248)) /\
  ((c .& TOP_BITS 2) =? TOP_BITS 1) = ((128 <=? c) && (c <? 192)) /\
  (c .& BOTTOM_BITS 5) = c mod 32 /\ (c .& BOTTOM_BITS 4) = c mod 16 /\ (c .& BOTTOM_BITS 3) = c mod 8 /\
  (c .& BOTTOM_BITS 6) = c mod 64.
Proof.
  intros Hc. pose proof (zall_spec _ _ _ lead_check c Hc) as H. cbv beta in H.
  rewrite !andb_true_iff, !Bool.eqb_true_iff, !Z.eqb_eq in H. tauto.
Qed.

(** The value of [n] continuation bytes after [v]. *)
Lemma utf8_rest_Some n : forall v s r s', bytes_ok s -> 0 <= v < 2 ^ 32 -> (v + 1) * 64 ^ Z.of_nat n <= 2 ^ 31 ->
  utf8_rest n v s = (Some r, s') <->
  exists cs, s = cs ++ s' /\ length cs = n /\ Forall (fun c => 128 <= c < 192) cs /\
    r = fold_left (fun v c => v * 64 + (c - 128)) cs v.
Proof.
  induction n as [|n IH]; intros v s r s' Hs Hv Hb; cbn [utf8_rest].
  { rewrite ret_Some. split.
    - intros [-> ->]. by exists [].
    - intros ([|] & -> & Hl & _ & ->); done. }
  rewrite Nat2Z.inj_succ, Z.pow_succ_r in Hb by lia.
  assert (Hp : 1 <= 64 ^ Z.of_nat n) by (assert (0 < 64 ^ Z.of_nat n) by (apply Z.pow_pos_nonneg; lia); lia).
  change (2 ^ 32) with 4294967296 in *. change (2 ^ 31) with 2147483648 in *.
  assert (Hv64 : v * 64 + 64 <= 2147483648) by nia.
  destruct s as [|c s].
  { unfold bind at 1. rewrite CBS_get_u8_nil. split; [done|]. intros ([|] & E & Hl & _); done. }
  apply Forall_cons in Hs as [Hc Hs]. destruct (lead_byte c Hc) as (_ & _ & _ & Ht & _ & _ & _ & Hbot).
  rewrite (bind_step _ _ _ _ _ (CBS_get_u8_cons c s)), bind_guard, Ht, Hbot. unfold is_byte in Hc.
  destruct ((128 <=? c) && (c <? 192)) eqn:Hin.
  - apply andb_true_iff in Hin as [H1 H2]. apply Z.leb_le in H1. apply Z.ltb_lt in H2. assert (E : (u32 (v ≪ 6) .| c mod 64) = v * 64 + (c - 128)).
    { unfold u32. rewrite Z.mod_small by (rewrite Z.shiftl_mul_pow2 by lia; change (2 ^ 6) with 64; lia).
      rewrite lor_shiftl by (change (2 ^ 6) with 64; dlia). change (2 ^ 6) with 64. dlia. }
    cbv zeta. rewrite E, IH by (done || nia). split.
    + intros (cs & -> & Hl & Hcs & ->). exists (c :: cs). cbn [length]. rewrite Hl. split_and!; [done|done|by constructor; [lia|]|done].
    + intros ([|c' cs] & E' & Hl & Hcs & ->); [done|]. injection E' as <- ->. apply Forall_cons in Hcs as [_ Hcs].
      exists cs. cbn [length] in Hl. split_and!; [done|lia|done|done].
  - split; [done|]. intros ([|c' cs] & E' & Hl & Hcs & _); [done|]. injection E' as <- _. apply Forall_cons in Hcs as [? _]. lia.
Qed.

Lemma andb_range a b c : ((a <=? c) && (c <? b)) = true <-> a <= c < b.
Proof. rewrite andb_true_iff, Z.leb_le, Z.ltb_lt. done. Qed.

(** A character of two, three or four octets. *)
Lemma get_utf8_multi c s v s' base len lower : is_byte c -> bytes_ok s -> 128 <= c ->
  0 <= base < 32 -> (len = 1 \/ len = 2 \/ len = 3)%nat -> (base + 1) * 64 ^ Z.of_nat len <= 2 ^ 31 ->
  (let* v := utf8_rest len base in
   guard (negb (negb (is_valid_code_point v) || (v <? lower))) ;;; ret v) s = (Some v, s') <->
  code_point v /\ lower <= v /\ exists cs, s = cs ++ s' /\ length cs = len /\ Forall (fun c => 128 <= c < 192) cs /\
    v = fold_left (fun v c => v * 64 + (c - 128)) cs base.
Proof.
  intros Hc Hs Hge Hbase Hlen Hb. rewrite bind_Some.
  assert (Hpos : forall cs, Forall (fun c => 128 <= c < 192) cs -> forall a, 0 <= a -> 0 <= fold_left (fun v c => v * 64 + (c - 128)) cs a).
  { induction 1 as [|x cs Hx _ IH]; intros a Ha; [done|]. cbn [fold_left]. apply IH. lia. }
  split.
  - intros (r & t & Hrest & Hk). apply utf8_rest_Some in Hrest as (cs & -> & Hl & Hcs & Hr); [|done|change (2 ^ 32) with 4294967296; lia|done].
    monad_inv. rewrite negb_orb, negb_involutive, andb_true_iff, negb_true_iff, Z.ltb_ge in H. destruct H as [Hv Hlo].
    apply is_valid_code_point_spec in Hv; [|rewrite Hr; apply Hpos; [done|lia]].
    split_and!; [done|done|]. by exists cs.
  - intros (Hv & Hlo & cs & -> & Hl & Hcs & ->). eexists _, s'. split.
    + apply utf8_rest_Some; [done|change (2 ^ 32) with 4294967296; lia|done|]. by exists cs.
    + rewrite bind_guard. pose proof (Hpos cs Hcs base ltac:(lia)) as H0. rewrite (proj2 (is_valid_code_point_spec _ H0) Hv).
      by rewrite (proj2 (Z.ltb_ge _ _)).
Qed.


Lemma list_length_1 {A} (l : list A) : length l = 1%nat -> exists a, l = [a].
Proof. destruct l as [|a [|]]; [done| |done]. by exists a. Qed.
Lemma list_length_2 {A} (l : list A) : length l = 2%nat -> exists a b, l = [a; b].
Proof. destruct l as [|a [|b [|]]]; try done. by exists a, b. Qed.
Lemma list_length_3 {A} (l : list A) : length l = 3%nat -> exists a b c, l = [a; b; c].
Proof. destruct l as [|a [|b [|c [|]]]]; try done. by exists a, b, c. Qed.

Lemma get_utf8_exact : reads_exactly CBS_get_utf8 (valid_char Utf8) (encode Utf8).
Proof.
  intros s v s' Hs. unfold CBS_get_utf8. cbn [valid_char encode].
  assert (Hne : [] <> encode Utf8 v ++ s') by (cbn [encode]; by repeat case_match).
  cbn [encode] in Hne. destruct s as [|c s]; [split; [done|by intros [_ ?]]|]. clear Hne.
  apply Forall_cons in Hs as [Hc Hs]. rewrite (bind_step _ _ _ _ _ (CBS_get_u8_cons c s)).
  destruct (lead_byte c Hc) as (T3 & T4 & T5 & _ & B5 & B4 & B3 & _). unfold is_byte in Hc.
  destruct (Z.leb_spec c 0x7f) as [Hlow|Hhigh].
  { rewrite ret_Some. split.
    - intros [-> ->]. split; [unfold code_point; dlia|]. by rewrite (proj2 (Z.ltb_lt _ _)) by lia.
    - intros [[Hv _] E]. destruct (Z.ltb_spec v 128); [by injection E as <- <-|].
      destruct (Z.ltb_spec v 2048); [injection E as E _; dlia|].
      destruct (Z.ltb_spec v 65536); injection E as E _; dlia. }
  rewrite T3, T4, T5, B5, B4, B3. cbv zeta.
  destruct ((192 <=? c) && (c <? 224)) eqn:E3; [apply andb_range in E3|].
  { rewrite (get_utf8_multi c s v s' (c mod 32) 1 0x80) by (done || dlia || lia). split.
    - intros (Hv & Hlo & cs & -> & Hl & Hcs & ->). apply list_length_1 in Hl as (d & ->).
      apply Forall_cons in Hcs as [Hd _]. cbn [fold_left] in *. split; [done|].
      rewrite (proj2 (Z.ltb_ge _ _)), (proj2 (Z.ltb_lt _ _)) by dlia. cbn [app]. f_equal; [dlia|]. f_equal. dlia.
    - intros [Hv E]. pose proof Hv as [Hr _]. destruct (Z.ltb_spec v 128); [injection E as E _; lia|].
      destruct (Z.ltb_spec v 2048); [|destruct (Z.ltb_spec v 65536); injection E as E _; dlia].
      injection E as -> ->. split_and!; [done|done|]. eexists. split; [by instantiate (1 := [_])|].
      split_and!; [done|repeat constructor; dlia|cbn [fold_left]; dlia]. }
  destruct ((224 <=? c) && (c <? 240)) eqn:E4; [apply andb_range in E4|].
  { rewrite (get_utf8_multi c s v s' (c mod 16) 2 0x800) by (done || dlia || lia). split.
    - intros (Hv & Hlo & cs & -> & Hl & Hcs & ->). apply list_length_2 in Hl as (d & e & ->).
      apply Forall_cons in Hcs as [Hd Hcs]. apply Forall_cons in Hcs as [He _]. cbn [fold_left] in *. split; [done|].
      rewrite !(proj2 (Z.ltb_ge _ _)), (proj2 (Z.ltb_lt _ _)) by dlia. cbn [app]. f_equal; [dlia|]. f_equal; [dlia|]. f_equal. dlia.
    - intros [Hv E]. pose proof Hv as [Hr _]. destruct (Z.ltb_spec v 128); [injection E as E _; lia|].
      destruct (Z.ltb_spec v 2048); [injection E as E _; dlia|].
      destruct (Z.ltb_spec v 65536); [|injection E as E _; dlia].
      injection E as -> ->. split_and!; [done|done|]. eexists. split; [by instantiate (1 := [_; _])|].
      split_and!; [done|repeat constructor; dlia|cbn [fold_left]; dlia]. }
  destruct ((240 <=? c) && (c <? 248)) eqn:E5; [apply andb_range in E5|].
  { rewrite (get_utf8_multi c s v s' (c mod 8) 3 0x10000) by (done || dlia || lia). split.
    - intros (Hv & Hlo & cs & -> & Hl & Hcs & ->). apply list_length_3 in Hl as (d & e & f & ->).
      apply Forall_cons in Hcs as [Hd Hcs]. apply Forall_cons in Hcs as [He Hcs]. apply Forall_cons in Hcs as [Hf _].
      cbn [fold_left] in *. split; [done|]. rewrite !(proj2 (Z.ltb_ge _ _)) by dlia. cbn [app].
      f_equal; [dlia|]. f_equal; [dlia|]. f_equal; [dlia|]. f_equal. dlia.
    - intros [Hv E]. pose proof Hv as [Hr _]. destruct (Z.ltb_spec v 128); [injection E as E _; lia|].
      destruct (Z.ltb_spec v 2048); [injection E as E _; dlia|].
      destruct (Z.ltb_spec v 65536); [injection E as E _; dlia|].
      injection E as -> ->. split_and!; [done|done|]. eexists. split; [by instantiate (1 := [_; _; _])|].
      split_and!; [done|repeat constructor; dlia|cbn [fold_left]; dlia]. }
  split; [done|]. intros [[Hr _] E]. apply andb_false_iff in E3, E4, E5. rewrite !Z.leb_gt, !Z.ltb_ge in E3, E4, E5.
  destruct (Z.ltb_spec v 128); [injection E as E _; lia|].
  destruct (Z.ltb_spec v 2048); [injection E as E _; dlia|].
  destruct (Z.ltb_spec v 65536); injection E as E _; dlia.
Qed.

Lemma get_latin1_exact : reads_exactly CBS_get_latin1 (valid_char Latin1) (encode Latin1).
Proof.
  intros s v s' Hs. unfold CBS_get_latin1. cbn [valid_char encode]. rewrite bind_Some. split.
  - intros (c & t & Hg & Hr). apply CBS_get_u8_Some in Hg as ->. apply ret_Some in Hr as [-> ->].
    apply Forall_cons in Hs as [Hc _]. unfold is_byte in Hc. split; [lia|done].
  - intros [_ ->]. exists v, s'. cbn [app]. by rewrite CBS_get_u8_cons.
Qed.

Lemma get_ucs2_exact : reads_exactly CBS_get_ucs2_be (valid_char Ucs2) (encode Ucs2).
Proof.
  intros s v s' Hs. unfold CBS_get_ucs2_be, CBS_get_u16. cbn [valid_char encode]. rewrite bind_Some. split.
  - intros (c & t & Hg & Hr). monad_inv. rename select (cbs_get_u _ _ = _) into Hu.
    rename select (is_valid_code_point _ = true) into Hp. apply cbs_get_u_Some in Hu as [Hx ->]; [|lia|done].
    change (256 ^ 2) with 65536 in Hx. unfold u16 in *. rewrite Z.mod_small in * by lia.
    apply is_valid_code_point_spec in Hp; [|lia]. split; [split; [done|lia]|done].
  - intros [[Hv Hle] ->]. pose proof Hv as [Hr _]. exists v, s'. split.
    + apply bind_Some. exists v, s'. split.
      * apply cbs_get_u_Some; [lia|done|]. change (256 ^ 2) with 65536. split; [lia|done].
      * unfold u16. by rewrite Z.mod_small by lia.
    + rewrite bind_guard. by rewrite (proj2 (is_valid_code_point_spec v ltac:(lia)) Hv).
Qed.

Lemma get_utf32_exact : reads_exactly CBS_get_utf32_be (valid_char Utf32) (encode Utf32).
Proof.
  intros s v s' Hs. unfold CBS_get_utf32_be, CBS_get_u32. cbn [valid_char encode]. rewrite bind_Some. split.
  - intros (c & t & Hg & Hr). monad_inv. rename select (cbs_get_u _ _ = _) into Hu.
    rename select (is_valid_code_point _ = true) into Hp. apply cbs_get_u_Some in Hu as [Hx ->]; [|lia|done].
    change (256 ^ 4) with 4294967296 in Hx. unfold u32 in *. rewrite Z.mod_small in * by lia.
    apply is_valid_code_point_spec in Hp; [|lia]. done.
  - intros [Hv ->]. pose proof Hv as [Hr _]. exists v, s'. split.
    + apply bind_Some. exists v, s'. split.
      * apply cbs_get_u_Some; [lia|done|]. change (256 ^ 4) with 4294967296. split; [lia|done].
      * unfold u32. by rewrite Z.mod_small by lia.
    + rewrite bind_guard. by rewrite (proj2 (is_valid_code_point_spec v ltac:(lia)) Hv).
Qed.

Lemma get_char_exact k : reads_exactly (get_char k) (valid_char k) (encode k).
Proof. destruct k; [apply get_utf8_exact|apply get_latin1_exact|apply get_ucs2_exact|apply get_utf32_exact]. Qed.

(** The readers of characters accept exactly the encodings: [CBS_get_utf8],
    [CBS_get_latin1], [CBS_get_ucs2_be] and [CBS_get_utf32_be] return a code point
    on an input that starts with its encoding, leave the rest, and fail on every
    other input; over-long UTF-8, surrogates and noncharacters are refused. *)
Theorem get_char_reads_exactly k s v s' : bytes_ok s ->
  get_char k s = (Some v, s') <-> valid_char k v /\ s = encode k v ++ s'.
Proof. apply get_char_exact. Qed.

Lemma get_char_reads_exactly_witness :
  get_char Utf8 [0xe2; 0x82; 0xac; 7] = (Some 0x20ac, [7]) <->
  valid_char Utf8 0x20ac /\ [0xe2; 0x82; 0xac; 7] = encode Utf8 0x20ac ++ [7].
Proof. apply get_char_reads_exactly. repeat constructor; lia. Defined.

(** ** Writers *)

Lemma cont_check : zall 0 64 (fun x => u8 (TOP_BITS 1 .| x) =? 128 + x) &&
  zall 0 32 (fun x => u8 (TOP_BITS 2 .| x) =? 192 + x) && zall 0 16 (fun x => u8 (TOP_BITS 3 .| x) =? 224 + x) &&
  zall 0 8 (fun x => u8 (TOP_BITS 4 .| x) =? 240 + x) = true.
Proof. vm_compute. reflexivity. Qed.

Lemma lead_bits :
  (forall x, 0 <= x < 64 -> u8 (TOP_BITS 1 .| x) = 128 + x) /\ (forall x, 0 <= x < 32 -> u8 (TOP_BITS 2 .| x) = 192 + x) /\
  (forall x, 0 <= x < 16 -> u8 (TOP_BITS 3 .| x) = 224 + x) /\ (forall x, 0 <= x < 8 -> u8 (TOP_BITS 4 .| x) = 240 + x).
Proof.
  pose proof cont_check as H. rewrite !andb_true_iff in H. destruct H as (((H1 & H2) & H3) & H4).
  split_and!; intros x Hx; apply Z.eqb_eq.
  - apply (zall_spec _ _ _ H1); lia.
  - apply (zall_spec _ _ _ H2); lia.
  - apply (zall_spec _ _ _ H3); lia.
  - apply (zall_spec _ _ _ H4); lia.
Qed.

Section Writers.
Context `{Allocator}.

Lemma low6 x : (x .& BOTTOM_BITS 6) = x mod 64.
Proof. change (BOTTOM_BITS 6) with (Z.ones 6). by rewrite Z.land_ones by lia. Qed.

(** A sequence of bytes added one at a time. *)
Fixpoint add_octets (h : CBB) (l : list Z) : M cbb_st unit :=
  match l with
  | [] => ret tt
  | [b] => CBB_add_u8 h b
  | b :: l => CBB_add_u8 h b ;;; add_octets h l
  end.

Lemma add_octets_result h l : bytes_ok l -> forall st fs d fs1,
  rep st fs -> depth h st = Some d -> fflush d fs = Some fs1 -> l <> [] ->
  result d (add_octets h l st) st tt (fapp fs1 l).
Proof.
  induction 1 as [|b l Hb Hl IH]; intros st fs d fs1 Hrep Hd Hf Hne; [done|].
  destruct l as [|b2 l].
  { cbn [add_octets]. by apply (CBB_add_u8_result h st fs d fs1). }
  change (add_octets h (b :: b2 :: l)) with (CBB_add_u8 h b ;;; add_octets h (b2 :: l)).
  pose proof (fflush_length _ _ _ (depth_bound _ _ _ _ Hrep Hd) Hf) as Hlen.
  eapply CBB_add_u8_then; [done..| |].
  - rewrite flat_fapp_size by (by destruct fs1). rewrite zlen_cons. zlen_pos. lia.
  - intros st' Hrep' Hd'. replace (fapp fs1 (b :: b2 :: l)) with (fapp (fapp fs1 [b]) (b2 :: l)) by (by rewrite fapp_fapp).
    eapply IH; [done|done|by apply fflush_fapp|done].
Qed.

Lemma encode_utf8_bytes v : 0 <= v <= 0x10ffff -> bytes_ok (encode Utf8 v) /\ encode Utf8 v <> [].
Proof.
  intros Hv. cbn [encode].
  destruct (Z.ltb_spec v 128); [split; [repeat constructor; lia|done]|].
  destruct (Z.ltb_spec v 2048); [split; [repeat constructor; dlia|done]|].
  destruct (Z.ltb_spec v 65536); split; try done; repeat constructor; dlia.
Qed.

Lemma add_utf8_octets h v : code_point v -> forall st, CBB_add_utf8 h v st = add_octets h (encode Utf8 v) st.
Proof.
  intros Hv st. pose proof Hv as [Hr _]. unfold CBB_add_utf8. rewrite bind_guard.
  rewrite (proj2 (is_valid_code_point_spec v ltac:(lia)) Hv). cbn [encode].
  destruct lead_bits as (L1 & L2 & L3 & L4). rewrite !low6, !Z.shiftr_div_pow2 by lia.
  change (2 ^ 6) with 64. change (2 ^ 12) with 4096. change (2 ^ 18) with 262144.
  destruct (Z.leb_spec v 0x7f); [rewrite (proj2 (Z.ltb_lt v 128)) by lia; unfold u8; by rewrite Z.mod_small by lia|].
  rewrite (proj2 (Z.ltb_ge v 128)) by lia.
  destruct (Z.leb_spec v 0x7ff); [rewrite (proj2 (Z.ltb_lt v 2048)) by lia; by rewrite L2, L1 by dlia|].
  rewrite (proj2 (Z.ltb_ge v 2048)) by lia.
  destruct (Z.leb_spec v 0xffff); [rewrite (proj2 (Z.ltb_lt v 65536)) by lia; by rewrite L3, !L1 by dlia|].
  rewrite (proj2 (Z.ltb_ge v 65536)), (proj2 (Z.leb_le v 0x10ffff)) by lia. by rewrite L4, !L1 by dlia.
Qed.

(** What a reader and a writer of characters promise to their clients. *)
Class CharCodec (get : M CBS Z) (add : CBB -> Z -> M cbb_st unit) (valid : Z -> Prop) (enc : Z -> list Z) : Prop := {
  codec_get : reads_exactly get valid enc;
  codec_bytes v : valid v -> bytes_ok (enc v) /\ enc v <> [];
  codec_add h v st fs d fs1 : rep st fs -> depth h st = Some d -> fflush d fs = Some fs1 -> valid v ->
    result d (add h v st) st tt (fapp fs1 (enc v));
  codec_reject h v st : 0 <= v -> ~ valid v -> rejected (add h v st)
}.

#[export] Instance utf8_codec : CharCodec CBS_get_utf8 CBB_add_utf8 (valid_char Utf8) (encode Utf8).
Proof.
  split.
  - apply get_utf8_exact.
  - intros v [Hr _]. by apply encode_utf8_bytes.
  - intros h v st fs d fs1 Hrep Hd Hf Hv. rewrite add_utf8_octets by done.
    pose proof (encode_utf8_bytes v ltac:(by destruct Hv)) as [Hb Hne]. by apply (add_octets_result h _ Hb st fs).
  - intros h v st Hv Hno. unfold rejected, CBB_add_utf8. rewrite bind_guard.
    destruct (is_valid_code_point v) eqn:E; [|done]. by apply is_valid_code_point_spec in E.
Qed.

#[export] Instance latin1_codec : CharCodec CBS_get_latin1 CBB_add_latin1 (valid_char Latin1) (encode Latin1).
Proof.
  split.
  - apply get_latin1_exact.
  - intros v Hv. cbn in *. split; [repeat constructor; lia|done].
  - intros h v st fs d fs1 Hrep Hd Hf Hv. cbn in Hv. unfold CBB_add_latin1. rewrite bind_guard, (proj2 (Z.leb_le _ _)) by lia.
    unfold u8. rewrite Z.mod_small by lia. apply (CBB_add_u8_result h st fs); [done..|unfold is_byte; lia].
  - intros h v st Hv Hno. cbn in Hno. unfold rejected, CBB_add_latin1. rewrite bind_guard. by rewrite (proj2 (Z.leb_gt _ _)) by lia.
Qed.

#[export] Instance ucs2_codec : CharCodec CBS_get_ucs2_be CBB_add_ucs2_be (valid_char Ucs2) (encode Ucs2).
Proof.
  split.
  - apply get_ucs2_exact.
  - intros v Hv. split; [apply be_bytes_ok|done].
  - intros h v st fs d fs1 Hrep Hd Hf [Hv Hle]. pose proof Hv as [Hr _]. unfold CBB_add_ucs2_be.
    rewrite bind_guard, (proj2 (Z.leb_le _ _)), (proj2 (is_valid_code_point_spec v ltac:(lia)) Hv) by lia.
    unfold u16. rewrite Z.mod_small by lia. apply (cbb_add_u_result h st fs d fs1 v 2); [done..|lia|change (256 ^ 2) with 65536; lia].
  - intros h v st Hv Hno. unfold rejected, CBB_add_ucs2_be. rewrite bind_guard. destruct (_ && _) eqn:E; [|done].
    apply andb_true_iff in E as [E1 E2]. apply is_valid_code_point_spec in E2; [|done]. apply Z.leb_le in E1. by destruct Hno.
Qed.

#[export] Instance utf32_codec : CharCodec CBS_get_utf32_be CBB_add_utf32_be (valid_char Utf32) (encode Utf32).
Proof.
  split.
  - apply get_utf32_exact.
  - intros v Hv. split; [apply be_bytes_ok|done].
  - intros h v st fs d fs1 Hrep Hd Hf Hv. pose proof Hv as [Hr _]. unfold CBB_add_utf32_be.
    rewrite bind_guard, (proj2 (is_valid_code_point_spec v ltac:(lia)) Hv).
    apply (cbb_add_u_result h st fs d fs1 v 4); [done..|lia|change (256 ^ 4) with 4294967296; lia].
  - intros h v st Hv Hno. unfold rejected, CBB_add_utf32_be. rewrite bind_guard. destruct (is_valid_code_point v) eqn:E; [|done].
    by apply is_valid_code_point_spec in E.
Qed.

#[export] Instance char_codec k : CharCodec (get_char k) (add_char k) (valid_char k) (encode k).
Proof. destruct k; apply _. Qed.
End Writers.

(** ** Texts *)

Section Text.
Context `{Allocator} (k : text_kind).

Fixpoint add_text (h : CBB) (vs : list Z) : M cbb_st unit :=
  match vs with
  | [] => ret tt
  | v :: vs => add_char k h v ;;; add_text h vs
  end.

(** All the characters written to a new builder. *)
Definition write_text (vs : list Z) : M cbb_st (list Z) := add_text root vs ;;; CBB_finish root true.

(** Characters read until the input is empty; its length is fuel enough. *)
Fixpoint read_text (fuel : nat) (s : CBS) : option (list Z) :=
  match s, fuel with
  | [], _ => Some []
  | _, O => None
  | _, S fuel =>
      match get_char k s with
      | (None, _) => None
      | (Some v, s) => match read_text fuel s with Some vs => Some (v :: vs) | None => None end
      end
  end.

Definition encode_text (vs : list Z) : list Z := concat (map (encode k) vs).

Lemma encode_text_bytes vs : Forall (valid_char k) vs -> bytes_ok (encode_text vs).
Proof.
  unfold encode_text. induction 1 as [|v vs Hv _ IH]; [constructor|]. cbn [map concat]. apply Forall_app. split; [|done].
  by apply (codec_bytes (CharCodec := char_codec k)).
Qed.

Lemma read_text_encode vs : Forall (valid_char k) vs -> forall fuel, (length vs <= fuel)%nat ->
  read_text fuel (encode_text vs) = Some vs.
Proof.
  induction 1 as [|v vs Hv Hvs IH]; intros fuel Hf; [by destruct fuel|].
  destruct fuel as [|fuel]; cbn [length] in Hf; [lia|].
  assert (Hne : encode_text (v :: vs) <> []).
  { unfold encode_text. cbn [map concat]. destruct (codec_bytes (CharCodec := char_codec k) v Hv) as [_ Hn].
    by destruct (encode k v). }
  pose proof (encode_text_bytes (v :: vs) ltac:(by constructor)) as Hb.
  assert (Hg : get_char k (encode_text (v :: vs)) = (Some v, encode_text vs)) by (by apply get_char_exact).
  destruct (encode_text (v :: vs)) as [|b l]; [done|]. cbn [read_text]. rewrite Hg, IH by lia. done.
Qed.

Lemma add_text_result h vs : Forall (valid_char k) vs -> forall st fs d, rep st fs -> depth h st = Some d -> length fs = S d ->
  result d (add_text h vs st) st tt (fapp fs (encode_text vs)).
Proof.
  induction 1 as [|v vs Hv Hvs IH]; intros st fs d Hrep Hd Hl.
  { unfold encode_text. cbn [add_text map concat]. rewrite fapp_nil. by apply result_ret. }
  cbn [add_text]. assert (Hne : fs <> []) by (by destruct fs).
  eapply result_bind.
  - apply (codec_add (CharCodec := char_codec k) h v st fs d fs Hrep Hd); [by apply fflush_last|done].
  - unfold encode_text. cbn [map concat]. rewrite !flat_fapp_size, zlen_app by done. zlen_pos. lia.
  - done.
  - intros st' Hrep' Hk. unfold encode_text. cbn [map concat]. rewrite <- fapp_fapp.
    apply IH; [done|by apply Hk|by rewrite length_fapp].
Qed.

Lemma add_text_reject h vs : Forall (fun v => 0 <= v) vs -> ~ Forall (valid_char k) vs -> forall st fs d, rep st fs ->
  depth h st = Some d -> length fs = S d -> rejected (add_text h vs st).
Proof.
  induction 1 as [|v vs Hv Hvs IH]; intros Hno st fs d Hrep Hd Hl; [by destruct Hno|].
  cbn [add_text]. assert (Hne : fs <> []) by (by destruct fs).
  destruct (decide (valid_char k v)) as [Hvv|Hvv].
  - eapply rejected_bind.
    + apply (codec_add (CharCodec := char_codec k) h v st fs d fs Hrep Hd); [by apply fflush_last|done].
    + intros st' Hrep' Hk. apply (IH ltac:(intros ?; apply Hno; by constructor) st' _ d Hrep'); [by apply Hk|by rewrite length_fapp].
  - pose proof (codec_reject (CharCodec := char_codec k) h v st Hv Hvv) as Hr. unfold rejected, bind in *.
    destruct (add_char k h v st) as [[?|] ?]; done.
Qed.

(** Texts: code points written one after the other to a builder over a
    caller's array, in any of the four encodings, come out as the concatenation
    of their encodings, exactly when every one of them can be encoded and the
    array has room; and reading the result until its end gives the text back. *)
Theorem text_roundtrip vs buf : Forall (fun v => 0 <= v < 2 ^ 32) vs -> zlen buf < 2 ^ 64 ->
  match fst (write_text vs (CBB_init_fixed buf)) with
  | Some out => Forall (valid_char k) vs /\ out = encode_text vs /\ zlen out <= zlen buf /\ read_text (length vs) out = Some vs
  | None => ~ Forall (valid_char k) vs \/ zlen buf < zlen (encode_text vs)
  end.
Proof.
  intros Hvs Hbuf. pose proof (CBB_init_fixed_rep buf Hbuf) as Hrep. unfold write_text.
  assert (Hvs0 : Forall (fun v => 0 <= v) vs) by (apply (Forall_impl _ _ _ Hvs); lia).
  destruct (decide (Forall (valid_char k) vs)) as [Hval|Hinv].
  - pose proof (finish_result _ _ _ (add_text_result root vs Hval _ _ 0 Hrep eq_refl eq_refl)) as Hr.
    destruct (fst _) as [out|].
    + destruct Hr as [-> Hle]. split_and!; [done|done|by apply Hle|]. by apply read_text_encode.
    + right. destruct (Z.lt_ge_cases (zlen buf) (zlen (encode_text vs))) as [|Hge]; [done|exfalso].
      apply (Hr (zlen buf)); [done|]. left. done.
  - rewrite finish_rejected; [by left|]. by apply (add_text_reject root vs Hvs0 Hinv _ _ 0 Hrep).
Qed.
End Text.

Lemma text_roundtrip_witness :
  match fst (write_text (H := {| malloc_ok := fun _ => false; junk := fun _ => 0 |}) Utf8 [0x41; 0x20ac; 0x1f600] (CBB_init_fixed (replicate 8 0))) with
  | Some out => Forall (valid_char Utf8) [0x41; 0x20ac; 0x1f600] /\ out = encode_text Utf8 [0x41; 0x20ac; 0x1f600] /\
      zlen out <= zlen (replicate 8 0) /\ read_text Utf8 3 out = Some [0x41; 0x20ac; 0x1f600]
  | None => ~ Forall (valid_char Utf8) [0x41; 0x20ac; 0x1f600] \/ zlen (replicate 8 0) < zlen (encode_text Utf8 [0x41; 0x20ac; 0x1f600])
  end.
Proof.
  apply (text_roundtrip Utf8 [0x41; 0x20ac; 0x1f600] (replicate 8 0)); [repeat constructor; lia|reflexivity].
Defined.
