(* ===== verification/Oid.v ===== *)
(** * Object identifiers as text (CBS_asn1_oid_to_text, CBB_add_asn1_oid_from_text)

    The text of an object identifier is its components in decimal, separated by
    dots; the octets are base-128 integers, the first of which carries the first
    two components. The conversion of the parser (cbs.c) is defined here, above
    the builder it writes to; the conversion of the builder is in Cbb.v. *)

From S2P Require Import Prelude Words Mem Der Cbs CbsFacts Cbb CbbFacts CbbBuilder.

(** ** Decimal numerals *)

Fixpoint dec_hi (n : nat) (w : Z) : list Z :=
  match n with
  | O => []
  | S n => if w =? 0 then [] else dec_hi n (w / 10) ++ [48 + w mod 10]
  end.

(** What the conversion specifier [PRIu64] prints: at most 20 digits. *)
Definition decimal (v : Z) : list Z := dec_hi 19 (v / 10) ++ [48 + v mod 10].

Definition DECIMAL_SIZE (sizeof_type : Z) : Z := (sizeof_type * 8 + 2) / 3 + 1.

(** [snprintf(buf, size, PRIu64, v)] truncates to [size - 1] characters. *)
Definition snprintf_u64 (size v : Z) : list Z := ztake (size - 1) (decimal v).

(** ** From octets to text *)

Section OidToText.
Context `{Allocator}.

Definition add_decimal (out : CBB) (v : Z) : M cbb_st unit :=
  let buf := snprintf_u64 (DECIMAL_SIZE 8 + 1) v in
  CBB_add_bytes out buf.

(** The [while] loop; a component consumes at least one byte. *)
Fixpoint add_components_text (fuel : nat) (cbb : CBB) (copy : CBS) : M cbb_st unit :=
  if negb (CBS_len copy =? 0) then
    match fuel with
    | O => fail
    | S fuel =>
        let* '(v, copy) := on copy parse_base128_integer in
        CBB_add_u8 cbb 46 ;;;
        add_decimal cbb v ;;;
        add_components_text fuel cbb copy
    end
  else ret tt.

(** The NUL-terminated text; [None] is [NULL]. *)
Definition CBS_asn1_oid_to_text (cbs : CBS) : option (list Z) :=
  match CBB_init 32 with
  | None => None
  | Some cbb =>
      fst ((
        let* '(v, copy) := on cbs parse_base128_integer in
        (if v >=? 80 then
           CBB_add_bytes root [50; 46] ;;;
           add_decimal root (v - 80)
         else
           add_decimal root (v / 40) ;;;
           CBB_add_u8 root 46 ;;;
           add_decimal root (v mod 40)) ;;;
        add_components_text (length copy) root copy ;;;
        CBB_add_u8 root 0 ;;;
        CBB_finish root true) cbb)
  end.
End OidToText.

(** ** Reference *)

(** The first two components and the others. *)
Record oid := mk_oid { oid_a : Z; oid_b : Z; oid_rest : list Z }.

Definition oid_valid (o : oid) : Prop :=
  0 <= oid_a o <= 2 /\ 0 <= oid_b o <= UINT64_MAX - 80 /\ (oid_a o < 2 -> oid_b o < 40) /\
  Forall (fun v => 0 <= v < 2 ^ 64) (oid_rest o).

Fixpoint dotted (vs : list Z) : list Z :=
  match vs with
  | [] => []
  | [v] => decimal v
  | v :: vs => decimal v ++ 46 :: dotted vs
  end.

Definition oid_text (o : oid) : list Z := dotted (oid_a o :: oid_b o :: oid_rest o).
Definition components_octets (vs : list Z) : list Z := concat (map base128_octets vs).
Definition oid_octets (o : oid) : list Z :=
  components_octets ((40 * oid_a o + oid_b o) :: oid_rest o).

Example decimal_examples :
  decimal 0 = [48] /\ decimal 18446744073709551615 = [49;56;52;52;54;55;52;52;48;55;51;55;48;57;53;53;49;54;49;53].
Proof. split; reflexivity. Qed.

Example oid_example :
  CBS_asn1_oid_to_text (H := {| malloc_ok := fun _ => true; junk := fun _ => 7 |}) [0x2a; 0x86; 0x48; 0x86; 0xf7; 0x0d] =
  Some [49; 46; 50; 46; 56; 52; 48; 46; 49; 49; 51; 53; 52; 57; 0].
Proof. vm_compute. reflexivity. Qed.

(** ** Reading and printing numerals *)

Lemma dec_hi_S n w : dec_hi (S n) w = if w =? 0 then [] else dec_hi n (w / 10) ++ [48 + w mod 10].
Proof. done. Qed.

Lemma dec_hi_fuel n : forall m w, 0 <= w < 10 ^ Z.of_nat n -> (n <= m)%nat -> dec_hi m w = dec_hi n w.
Proof.
  induction n as [|n IH]; intros m w Hw Hm.
  - replace w with 0 by (cbn in Hw; lia). by destruct m.
  - destruct m as [|m]; [lia|]. rewrite !dec_hi_S. case_match; [done|].
    rewrite Nat2Z.inj_succ, Z.pow_succ_r in Hw by lia. rewrite (IH m); [done|dlia|lia].
Qed.

Lemma length_dec_hi n w : (length (dec_hi n w) <= n)%nat.
Proof.
  revert w. induction n as [|n IH]; intros w; [done|]. rewrite dec_hi_S. case_match; [cbn; lia|].
  rewrite length_app. cbn. specialize (IH (w / 10)). lia.
Qed.

Lemma zlen_decimal v : 1 <= zlen (decimal v) <= 20.
Proof. unfold decimal. rewrite zlen_app. pose proof (length_dec_hi 19 (v / 10)). change (zlen [_]) with 1. unfold zlen. lia. Qed.

Lemma snprintf_decimal v : snprintf_u64 (DECIMAL_SIZE 8 + 1) v = decimal v.
Proof. unfold snprintf_u64. apply ztake_all. pose proof (zlen_decimal v). change (DECIMAL_SIZE 8 + 1 - 1) with 23. lia. Qed.

Lemma decimal_snoc v d : 0 < v -> 0 <= d < 10 -> v * 10 + d < 2 ^ 64 -> decimal (v * 10 + d) = decimal v ++ [48 + d].
Proof.
  intros Hv Hd Hle. change (2 ^ 64) with 18446744073709551616 in Hle. unfold decimal.
  replace ((v * 10 + d) / 10) with v by dlia. replace ((v * 10 + d) mod 10) with d by dlia. f_equal.
  rewrite <- (dec_hi_fuel 19 20 v); [|change (10 ^ Z.of_nat 19) with 10000000000000000000; lia|lia].
  rewrite dec_hi_S. by rewrite (proj2 (Z.eqb_neq v 0)) by lia.
Qed.

Lemma decimal_digit d : 0 <= d < 10 -> decimal d = [48 + d].
Proof. intros. unfold decimal. rewrite Z.div_small, Z.mod_small by lia. done. Qed.

(** One round of [CBS_get_u64_decimal]. *)
Lemma decimal_step v seen c s : 0 <= v < 2 ^ 64 -> OPENSSL_isdigit c = true ->
  get_u64_decimal_loop v seen (c :: s) =
  if (v =? 0) && seen || (2 ^ 64 <=? v * 10 + (c - 48)) then (None, s)
  else get_u64_decimal_loop (v * 10 + (c - 48)) true s.
Proof.
  intros Hv Hc. cbn [get_u64_decimal_loop]. rewrite Hc. cbn [negb]. unfold OPENSSL_isdigit in Hc.
  assert (E : (v >? UINT64_MAX / 10) || (v * 10 >? UINT64_MAX - (c - 48)) = (2 ^ 64 <=? v * 10 + (c - 48))).
  { change (UINT64_MAX / 10) with 1844674407370955161. unfold UINT64_MAX. change (2 ^ 64) with 18446744073709551616.
    rewrite !Z.gtb_ltb. lia. }
  by rewrite <- orb_assoc, E.
Qed.

(** The rest of the input does not continue a numeral. *)
Definition stops (s : CBS) : Prop := match s with [] => True | c :: _ => OPENSSL_isdigit c = false end.

Lemma decimal_loop_stop v s : stops s -> get_u64_decimal_loop v true s = (Some v, s).
Proof. destruct s as [|c s]; [done|]. cbn. intros ->. done. Qed.

Lemma decimal_loop_sound s : forall v x s', 0 <= v < 2 ^ 64 -> get_u64_decimal_loop v true s = (Some x, s') ->
  0 <= x < 2 ^ 64 /\ decimal v ++ s = decimal x ++ s' /\ stops s'.
Proof.
  induction s as [|c s IH]; intros v x s' Hv Hl; [by injection Hl as -> <-|].
  destruct (OPENSSL_isdigit c) eqn:Hc.
  - rewrite decimal_step in Hl by done. rewrite andb_true_r in Hl.
    destruct (Z.eqb_spec v 0) as [|Hv0]; [done|].
    destruct (Z.leb_spec (2 ^ 64) (v * 10 + (c - 48))) as [|Hlt]; [done|]. cbn [orb] in Hl.
    assert (Hd : 0 <= c - 48 < 10) by (unfold OPENSSL_isdigit in Hc; lia).
    destruct (IH (v * 10 + (c - 48)) x s' ltac:(lia) Hl) as (Hx & E & Hs). split; [done|]. split; [|done].
    rewrite <- E, decimal_snoc, <- app_assoc by lia. cbn [app]. by replace (48 + (c - 48)) with c by lia.
  - cbn [get_u64_decimal_loop] in Hl. rewrite Hc in Hl. cbn [negb] in Hl. injection Hl as <- <-. done.
Qed.

Lemma get_u64_decimal_sound s x s' : CBS_get_u64_decimal s = (Some x, s') ->
  0 <= x < 2 ^ 64 /\ s = decimal x ++ s' /\ stops s'.
Proof.
  unfold CBS_get_u64_decimal. destruct s as [|c s]; [done|]. intros Hl.
  destruct (OPENSSL_isdigit c) eqn:Hc; [|cbn in Hl; by rewrite Hc in Hl].
  rewrite decimal_step in Hl by (done || lia). rewrite andb_false_r in Hl. cbn [orb] in Hl.
  assert (Hd : 0 <= c - 48 < 10) by (unfold OPENSSL_isdigit in Hc; lia).
  destruct (Z.leb_spec (2 ^ 64) (0 * 10 + (c - 48))); [done|].
  assert (Hv : 0 <= 0 * 10 + (c - 48) < 2 ^ 64) by lia.
  destruct (decimal_loop_sound _ _ _ _ Hv Hl) as (Hx & E & Hs). split; [done|]. split; [|done].
  rewrite <- E, decimal_digit by lia. cbn [app]. by replace (48 + (0 * 10 + (c - 48))) with c by lia.
Qed.

Lemma isdigit_48 d : 0 <= d < 10 -> OPENSSL_isdigit (48 + d) = true.
Proof. unfold OPENSSL_isdigit. lia. Qed.

(** Reading the high digits of [w]. *)
Lemma decimal_loop_hi n : forall w s, 0 < w < 2 ^ 64 -> w < 10 ^ Z.of_nat n ->
  get_u64_decimal_loop 0 false (dec_hi n w ++ s) = get_u64_decimal_loop w true s.
Proof.
  change (2 ^ 64) with 18446744073709551616.
  induction n as [|n IH]; intros w s Hw Hn; [cbn in Hn; lia|].
  rewrite dec_hi_S, (proj2 (Z.eqb_neq w 0)), <- app_assoc by lia. cbn [app].
  assert (Hd : 0 <= w mod 10 < 10) by dlia.
  assert (Hstep : forall seen, (w / 10 = 0 -> seen = false) ->
    get_u64_decimal_loop (w / 10) seen ((48 + w mod 10) :: s) = get_u64_decimal_loop w true s).
  { intros seen Hseen. rewrite decimal_step; [|change (2 ^ 64) with 18446744073709551616; dlia|by apply isdigit_48].
    replace (w / 10 * 10 + (48 + w mod 10 - 48)) with w by dlia.
    rewrite (proj2 (Z.leb_gt _ _)) by (change (2 ^ 64) with 18446744073709551616; lia).
    destruct (Z.eqb_spec (w / 10) 0) as [E|]; [by rewrite Hseen|done]. }
  destruct (Z.eq_dec (w / 10) 0) as [E|E].
  - rewrite E in *. destruct n; by apply (Hstep false).
  - rewrite IH; [by apply Hstep|dlia|]. rewrite Nat2Z.inj_succ, Z.pow_succ_r in Hn by lia. dlia.
Qed.

Lemma get_u64_decimal_complete v s : 0 <= v < 2 ^ 64 -> stops s ->
  CBS_get_u64_decimal (decimal v ++ s) = (Some v, s).
Proof.
  intros Hv Hs. unfold CBS_get_u64_decimal. rewrite <- (decimal_loop_stop v s Hs).
  destruct (Z.eq_dec v 0) as [->|Hne].
  - change (decimal 0 ++ s) with (48 :: s). by rewrite decimal_step by done.
  - rewrite <- (decimal_loop_hi 20 v s); [|lia|].
    + unfold decimal. rewrite (dec_hi_S 19 v). by rewrite (proj2 (Z.eqb_neq v 0)) by lia.
    + change (2 ^ 64) with 18446744073709551616 in Hv. change (10 ^ Z.of_nat 20) with 100000000000000000000. lia.
Qed.

(** ** Components *)

Lemma dotted_cons v vs : vs <> [] -> dotted (v :: vs) = decimal v ++ 46 :: dotted vs.
Proof. by destruct vs. Qed.

Lemma dotted_not_nil vs : vs <> [] -> dotted vs <> [].
Proof.
  destruct vs as [|v vs]; [done|]. intros _ E. pose proof (zlen_decimal v). apply (f_equal zlen) in E.
  destruct vs; cbn [dotted] in E; rewrite ?zlen_app, ?zlen_cons in E; change (zlen (@nil Z)) with 0 in E; zlen_pos; lia.
Qed.

Lemma parse_dotted_decimal_Some s v s' :
  parse_dotted_decimal s = (Some v, s') <->
  0 <= v < 2 ^ 64 /\ ((s = decimal v /\ s' = []) \/ (s = decimal v ++ 46 :: s' /\ s' <> [])).
Proof.
  unfold parse_dotted_decimal. rewrite bind_Some. split.
  - intros (x & t & Hx & H). apply get_u64_decimal_sound in Hx as (Hx & -> & Hs).
    rewrite (bind_step _ _ _ _ _ (eq_refl : get t = (Some t, t))) in H.
    destruct t as [|c t].
    + rewrite CBS_get_u8_nil in H. injection H as <- <-. split; [done|]. left. by rewrite app_nil_r.
    + rewrite CBS_get_u8_cons in H. unfold bind, put, guard, ret in H.
      destruct (Z.eqb_spec c 46) as [->|]; [|done]. cbn [andb] in H.
      destruct (Z.gtb_spec (CBS_len t) 0); [|done]. injection H as <- <-. split; [done|]. right. split; [done|].
      by intros ->.
  - intros [Hv [[-> ->]|[-> Hne]]].
    + exists v, []. split; [|done]. rewrite <- (app_nil_r (decimal v)). by apply get_u64_decimal_complete.
    + exists v, (46 :: s'). split; [by apply get_u64_decimal_complete|].
      rewrite (bind_step _ _ _ _ _ (eq_refl : get _ = (Some (46 :: s'), _))), CBS_get_u8_cons.
      unfold bind, put, guard, ret. destruct s' as [|c s']; [done|]. unfold CBS_len. rewrite zlen_cons.
      destruct (Z.gtb_spec (1 + zlen s') 0); [done|]. zlen_pos. lia.
Qed.

(** The values the loop of the builder reads. *)
Fixpoint components_of (fuel : nat) (s : CBS) : option (list Z) :=
  match s, fuel with
  | [], _ => Some []
  | _, O => None
  | _, S fuel =>
      match parse_dotted_decimal s with
      | (Some v, s) => vs ← components_of fuel s; Some (v :: vs)
      | (None, _) => None
      end
  end.

Lemma components_of_cons fuel s : s <> [] ->
  components_of (S fuel) s = match parse_dotted_decimal s with
    | (Some v, s) => vs ← components_of fuel s; Some (v :: vs) | (None, _) => None end.
Proof. by destruct s. Qed.

Lemma components_of_Some fuel : forall s vs, (length s <= fuel)%nat ->
  components_of fuel s = Some vs <-> Forall (fun v => 0 <= v < 2 ^ 64) vs /\ s = dotted vs.
Proof.
  induction fuel as [|fuel IH]; intros s vs Hl.
  - destruct s; [|cbn in Hl; lia]. cbn. split; [by intros [= <-]|]. intros [_ E].
    destruct (decide (vs = [])) as [->|Hne]; [done|]. by destruct (dotted_not_nil vs Hne).
  - destruct (decide (s = [])) as [->|Hs].
    { cbn. split; [by intros [= <-]|]. intros [_ E].
      destruct (decide (vs = [])) as [->|Hne]; [done|]. by destruct (dotted_not_nil vs Hne). }
    rewrite components_of_cons by done. split.
    + destruct (parse_dotted_decimal s) as [[v|] s'] eqn:Hp; [|done].
      apply parse_dotted_decimal_Some in Hp as [Hv Hp]. pose proof (zlen_decimal v) as Hd. unfold zlen in Hd.
      destruct (components_of fuel s') as [ws|] eqn:Hc; cbn; [|done]. intros [= <-].
      apply IH in Hc as [Hws ->].
      2:{ destruct Hp as [[-> ->]|[-> _]]; [cbn; lia|]. rewrite length_app in Hl. cbn in Hl. lia. }
      split; [by constructor|]. destruct Hp as [[-> E]|[-> Hne]].
      * destruct ws as [|w ws]; [done|]. by destruct (dotted_not_nil (w :: ws)).
      * rewrite dotted_cons; [done|]. by intros ->.
    + intros [Hvs ->]. destruct vs as [|v vs]; [done|]. apply Forall_cons in Hvs as [Hv Hvs].
      assert (Hp : parse_dotted_decimal (dotted (v :: vs)) = (Some v, dotted vs)).
      { apply parse_dotted_decimal_Some. split; [done|]. destruct vs as [|w vs]; [by left|right].
        split; [by apply dotted_cons|by apply dotted_not_nil]. }
      rewrite Hp. assert (Hc : components_of fuel (dotted vs) = Some vs).
      { apply IH; [|done]. pose proof (zlen_decimal v) as Hd. unfold zlen in Hd.
        destruct vs as [|w vs]; [cbn; lia|]. rewrite dotted_cons, length_app in Hl by done. cbn [length] in Hl. lia. }
      by rewrite Hc.
Qed.

Lemma components_octets_cons v vs : components_octets (v :: vs) = base128_octets v ++ components_octets vs.
Proof. done. Qed.

(** ** The builder *)

Section FromText.
Context `{Allocator}.

Lemma add_oid_components_outcome h fuel : forall s st fs d, (length s <= fuel)%nat ->
  rep st fs -> depth h st = Some d -> length fs = S d ->
  match components_of fuel s with
  | Some vs => result d (add_oid_components fuel h s st) st tt (fapp fs (components_octets vs))
  | None => rejected (add_oid_components fuel h s st)
  end.
Proof.
  induction fuel as [|fuel IH]; intros s st fs d Hl Hrep Hd Hlen;
    (destruct s as [|c s]; [cbn [components_of]; rewrite fapp_nil; by apply result_ret|cbn [length] in Hl; try lia]).
  rewrite components_of_cons by done. cbn [add_oid_components]. unfold CBS_len. rewrite zlen_cons.
  destruct (Z.gtb_spec (1 + zlen s) 0); [|zlen_pos; lia].
  destruct (parse_dotted_decimal (c :: s)) as [[v|] s'] eqn:Hp.
  2:{ unfold rejected. rewrite (bind_none _ _ _ st); [done|]. unfold on. by rewrite Hp. }
  rewrite (bind_step _ _ _ (v, s') st) by (unfold on; by rewrite Hp).
  pose proof Hp as Hp'. apply parse_dotted_decimal_Some in Hp' as [Hv Hp'].
  assert (Hl' : (length s' <= fuel)%nat).
  { pose proof (zlen_decimal v) as Hz. unfold zlen in Hz. destruct Hp' as [[_ ->]|[E _]]; [cbn; lia|].
    apply (f_equal length) in E. rewrite length_app in E. cbn in E. lia. }
  assert (Hne : fs <> []) by (by destruct fs).
  pose proof (add_base128_integer_result h v st fs d ltac:(lia) Hrep Hd Hlen) as Hr.
  assert (Hrest : forall st', rep st' (fapp fs (base128_octets v)) -> keeps d st st' ->
    match components_of fuel s' with
    | Some vs => result d (add_oid_components fuel h s' st') st' tt (fapp fs (components_octets (v :: vs)))
    | None => rejected (add_oid_components fuel h s' st')
    end).
  { intros st' Hrep' Hk. specialize (IH s' st' _ d Hl' Hrep' (Hk _ _ Hd (le_n _)) ltac:(by rewrite length_fapp)).
    destruct (components_of fuel s'); [|done]. by rewrite components_octets_cons, <- fapp_fapp. }
  destruct (components_of fuel s') as [vs|]; cbn [mbind option_bind].
  - eapply result_bind; [exact Hr| |done|exact Hrest].
    rewrite components_octets_cons, !flat_fapp_size, zlen_app by done. zlen_pos. lia.
  - eapply rejected_bind; [exact Hr|exact Hrest].
Qed.

(** The identifier a text denotes, if any. *)
Definition oid_of_text (text : list Z) : option oid :=
  vs ← components_of (length text) text;
  match vs with
  | a :: b :: rest =>
      if (a <=? 2) && ((2 <=? a) || (b <=? 39)) && (b <=? UINT64_MAX - 80) then Some (mk_oid a b rest) else None
  | _ => None
  end.

Lemma oid_of_text_Some text o : oid_of_text text = Some o <-> oid_valid o /\ text = oid_text o.
Proof.
  unfold oid_of_text, oid_text. destruct o as [a b rest]. cbn [oid_a oid_b oid_rest]. split.
  - destruct (components_of (length text) text) as [vs|] eqn:Hc; cbn; [|done].
    apply components_of_Some in Hc as [Hvs ->]; [|done]. destruct vs as [|a' [|b' vs]]; [done..|].
    destruct (_ && _) eqn:E; [|done]. intros [= -> -> ->].
    apply Forall_cons in Hvs as [Ha Hvs]. apply Forall_cons in Hvs as [Hb Hvs].
    split; [|done]. unfold oid_valid. cbn. split_and!; try done; lia.
  - intros [(Ha & Hb & Hab & Hrest) ->]. cbn [oid_a oid_b oid_rest] in *. unfold UINT64_MAX in *.
    assert (Hc : components_of (length (dotted (a :: b :: rest))) (dotted (a :: b :: rest)) = Some (a :: b :: rest)).
    { apply components_of_Some; [done|]. split; [|done]. constructor; [lia|]. constructor; [lia|done]. }
    rewrite Hc. cbn [mbind option_bind]. destruct (_ && _) eqn:E; [done|]. lia.
Qed.

Lemma components_of_fuel s n m : (length s <= n)%nat -> (length s <= m)%nat -> components_of n s = components_of m s.
Proof. intros Hn Hm. apply option_eq. intros vs. by rewrite !components_of_Some. Qed.

Lemma components_of_step s : s <> [] ->
  components_of (length s) s = match parse_dotted_decimal s with
    | (Some v, s') => vs ← components_of (length s') s'; Some (v :: vs) | (None, _) => None end.
Proof.
  intros Hs. destruct s as [|c s]; [done|]. cbn [length]. rewrite components_of_cons by done.
  destruct (parse_dotted_decimal (c :: s)) as [[v|] s'] eqn:Hp; [|done].
  apply parse_dotted_decimal_Some in Hp as [_ Hp]. pose proof (zlen_decimal v) as Hz. unfold zlen in Hz.
  rewrite (components_of_fuel s' (length s) (length s')); [done| |done].
  destruct Hp as [[_ ->]|[E _]]; [cbn; lia|]. apply (f_equal length) in E. rewrite length_app in E. cbn in E. lia.
Qed.

Lemma oid_of_text_step text : oid_of_text text =
  match parse_dotted_decimal text with
  | (None, _) => None
  | (Some a, s) =>
      match parse_dotted_decimal s with
      | (None, _) => None
      | (Some b, s) =>
          rest ← components_of (length s) s;
          if (a <=? 2) && ((2 <=? a) || (b <=? 39)) && (b <=? UINT64_MAX - 80) then Some (mk_oid a b rest) else None
      end
  end.
Proof.
  unfold oid_of_text. destruct (decide (text = [])) as [->|Hne]; [done|]. rewrite components_of_step by done.
  destruct (parse_dotted_decimal text) as [[a|] s]; [|done].
  destruct (decide (s = [])) as [->|Hs]; [done|]. rewrite components_of_step by done.
  destruct (parse_dotted_decimal s) as [[b|] s2]; [|done]. by destruct (components_of (length s2) s2).
Qed.

Lemma oid_guard a b : (a <=? 2) && ((2 <=? a) || (b <=? 39)) && (b <=? UINT64_MAX - 80) =
  negb ((a >? 2) || ((a <? 2) && (b >? 39)) || (b >? UINT64_MAX - 80)).
Proof. rewrite !Z.gtb_ltb. lia. Qed.

(** The part of the function after the first two components are read. *)
Definition add_oid_tail (h : CBB) (a b : Z) (s : CBS) : M cbb_st unit :=
  guard (negb ((a >? 2) || ((a <? 2) && (b >? 39)) || (b >? UINT64_MAX - 80))) ;;;
  add_base128_integer h (u64 (40 * a + b)) ;;;
  add_oid_components (length s) h s.

Definition oid_of_tail (a b : Z) (s : CBS) : option oid :=
  rest ← components_of (length s) s;
  if (a <=? 2) && ((2 <=? a) || (b <=? 39)) && (b <=? UINT64_MAX - 80) then Some (mk_oid a b rest) else None.

Lemma add_oid_tail_outcome h a b s st fs d :
  0 <= a -> 0 <= b -> rep st fs -> depth h st = Some d -> length fs = S d ->
  match oid_of_tail a b s with
  | Some o => result d (add_oid_tail h a b s st) st tt (fapp fs (oid_octets o))
  | None => rejected (add_oid_tail h a b s st)
  end.
Proof.
  intros Ha Hb Hrep Hd Hlen. assert (Hne : fs <> []) by (by destruct fs).
  unfold add_oid_tail, oid_of_tail. rewrite bind_guard, oid_guard. destruct (negb _) eqn:Hg.
  2:{ by destruct (components_of (length s) s). }
  rewrite <- oid_guard in Hg. unfold UINT64_MAX in Hg.
  assert (E : u64 (40 * a + b) = 40 * a + b) by (unfold u64; apply Z.mod_small; lia). rewrite E.
  pose proof (add_base128_integer_result h (40 * a + b) st fs d ltac:(lia) Hrep Hd Hlen) as Hb1.
  assert (Hrest : forall st2, rep st2 (fapp fs (base128_octets (40 * a + b))) -> keeps d st st2 ->
    match components_of (length s) s with
    | Some vs => result d (add_oid_components (length s) h s st2) st2 tt (fapp fs (oid_octets (mk_oid a b vs)))
    | None => rejected (add_oid_components (length s) h s st2)
    end).
  { intros st2 Hrep2 Hk2.
    pose proof (add_oid_components_outcome h (length s) s st2 _ d (le_n _) Hrep2
      (Hk2 _ _ Hd (le_n _)) ltac:(by rewrite length_fapp)) as Ho.
    destruct (components_of (length s) s); [|done]. unfold oid_octets. cbn [oid_a oid_b oid_rest].
    by rewrite components_octets_cons, <- fapp_fapp. }
  destruct (components_of (length s) s) as [vs|]; cbn [mbind option_bind].
  - eapply result_bind; [exact Hb1| |done|exact Hrest].
    unfold oid_octets. cbn [oid_a oid_b oid_rest].
    rewrite components_octets_cons, !flat_fapp_size, zlen_app by done. zlen_pos. lia.
  - eapply rejected_bind; [exact Hb1|exact Hrest].
Qed.

Lemma CBB_add_asn1_oid_from_text_outcome h text st fs d fs1 :
  rep st fs -> depth h st = Some d -> fflush d fs = Some fs1 ->
  match oid_of_text text with
  | Some o => result d (CBB_add_asn1_oid_from_text h text (zlen text) st) st tt (fapp fs1 (oid_octets o))
  | None => rejected (CBB_add_asn1_oid_from_text h text (zlen text) st)
  end.
Proof.
  intros Hrep Hd Hf. pose proof (depth_bound _ _ _ _ Hrep Hd) as Hlt.
  pose proof (fflush_length _ _ _ Hlt Hf) as Hlen. assert (Hne : fs1 <> []) by (by destruct fs1).
  pose proof (CBB_flush_result h st fs d Hrep Hd) as Hr. rewrite Hf in Hr. destruct Hr as [Hr _].
  unfold CBB_add_asn1_oid_from_text, CBS_init. cbv zeta. rewrite ztake_all, oid_of_text_step by lia.
  destruct (parse_dotted_decimal text) as [[a|] s] eqn:Ha.
  2:{ eapply rejected_bind; [exact Hr|]. intros st' _ _. unfold rejected, bind, on. by rewrite Ha. }
  destruct (parse_dotted_decimal s) as [[b|] s2] eqn:Hb.
  2:{ eapply rejected_bind; [exact Hr|]. intros st' _ _. unfold rejected, bind, on. by rewrite Ha, Hb. }
  assert (Hgo : forall st', rep st' fs1 -> keeps d st st' ->
    match oid_of_tail a b s2 with
    | Some o => result d (add_oid_tail h a b s2 st') st' tt (fapp fs1 (oid_octets o))
    | None => rejected (add_oid_tail h a b s2 st')
    end).
  { intros st' Hrep' Hk. apply parse_dotted_decimal_Some in Ha as [Ha _]. apply parse_dotted_decimal_Some in Hb as [Hb _].
    apply add_oid_tail_outcome; [lia..|done|by apply Hk|done]. }
  fold (oid_of_tail a b s2). destruct (oid_of_tail a b s2) as [o|].
  - eapply result_bind; [exact Hr| |done|].
    + rewrite flat_fapp_size by done. zlen_pos. lia.
    + intros st' Hrep' Hk. specialize (Hgo st' Hrep' Hk). unfold bind at 1, on at 1. rewrite Ha. cbv beta iota.
      unfold bind at 1, on at 1. rewrite Hb. exact Hgo.
  - eapply rejected_bind; [exact Hr|]. intros st' Hrep' Hk. specialize (Hgo st' Hrep' Hk).
    unfold bind at 1, on at 1. rewrite Ha. cbv beta iota. unfold bind at 1, on at 1. rewrite Hb. exact Hgo.
Qed.
End FromText.

(** ** From octets to text *)

Section ToText.
Context `{Allocator}.

(** The values the loop of the parser reads. *)
Fixpoint values_of (fuel : nat) (s : CBS) : option (list Z) :=
  match s, fuel with
  | [], _ => Some []
  | _, O => None
  | _, S fuel =>
      match parse_base128_integer s with
      | (Some v, s) => vs ← values_of fuel s; Some (v :: vs)
      | (None, _) => None
      end
  end.

Lemma values_of_cons fuel s : s <> [] ->
  values_of (S fuel) s = match parse_base128_integer s with
    | (Some v, s) => vs ← values_of fuel s; Some (v :: vs) | (None, _) => None end.
Proof. by destruct s. Qed.

Lemma base128_not_nil v : (1 <= length (base128_octets v))%nat.
Proof. unfold base128_octets. rewrite length_app. cbn. lia. Qed.

Lemma values_of_Some fuel : forall s vs, bytes_ok s -> (length s <= fuel)%nat ->
  values_of fuel s = Some vs <-> Forall (fun v => 0 <= v < 2 ^ 64) vs /\ s = components_octets vs.
Proof.
  assert (Hnil : forall vs : list Z, [] = components_octets vs -> vs = []).
  { intros [|v vs] E; [done|]. apply (f_equal length) in E. rewrite components_octets_cons, length_app in E.
    pose proof (base128_not_nil v). cbn [length] in E. lia. }
  induction fuel as [|fuel IH]; intros s vs Hs Hl.
  - destruct s; [|cbn in Hl; lia]. cbn. split; [by intros [= <-]|]. intros [_ E]. by rewrite (Hnil vs).
  - destruct (decide (s = [])) as [->|Hne].
    { cbn. split; [by intros [= <-]|]. intros [_ E]. by rewrite (Hnil vs). }
    rewrite values_of_cons by done. split.
    + destruct (parse_base128_integer s) as [[v|] s'] eqn:Hp; [|done].
      apply parse_base128_integer_Some in Hp as [Hv ->]; [|done]. apply Forall_app in Hs as [_ Hs'].
      pose proof (base128_not_nil v). rewrite length_app in Hl.
      destruct (values_of fuel s') as [ws|] eqn:Hc; cbn; [|done]. intros [= <-].
      apply IH in Hc as [Hws ->]; [|done|lia]. split; [by constructor|done].
    + intros [Hvs ->]. destruct vs as [|v vs]; [done|]. apply Forall_cons in Hvs as [Hv Hvs].
      rewrite components_octets_cons in *.
      assert (Hp : parse_base128_integer (base128_octets v ++ components_octets vs) = (Some v, components_octets vs))
        by (by apply parse_base128_integer_Some).
      rewrite Hp. apply Forall_app in Hs as [_ Hs']. pose proof (base128_not_nil v). rewrite length_app in Hl.
      rewrite (proj2 (IH _ vs Hs' ltac:(lia))) by done. done.
Qed.

(** The characters the loop writes. *)
Definition dots (vs : list Z) : list Z := concat (map (fun v => 46 :: decimal v) vs).

Lemma dotted_dots v vs : dotted (v :: vs) = decimal v ++ dots vs.
Proof.
  revert v. induction vs as [|w vs IH]; intros v; [by rewrite app_nil_r|].
  rewrite dotted_cons, IH by done. done.
Qed.

Lemma add_decimal_result h v st fs d : rep st fs -> depth h st = Some d -> length fs = S d ->
  result d (add_decimal h v st) st tt (fapp fs (decimal v)).
Proof.
  intros Hrep Hd Hlen. unfold add_decimal. cbv zeta. rewrite snprintf_decimal.
  apply (CBB_add_bytes_result h st fs); [done|done|by apply fflush_last|]. pose proof (zlen_decimal v). lia.
Qed.

(** Two writes, one after the other. *)
Lemma result_then h (m m' : M cbb_st unit) st fs d x y :
  rep st fs -> depth h st = Some d -> length fs = S d -> result d (m st) st tt (fapp fs x) ->
  (forall st', rep st' (fapp fs x) -> depth h st' = Some d -> length (fapp fs x) = S d ->
     result d (m' st') st' tt (fapp (fapp fs x) y)) ->
  result d ((m ;;; m') st) st tt (fapp fs (x ++ y)).
Proof.
  intros Hrep Hd Hlen Hm Hk. assert (Hne : fs <> []) by (by destruct fs).
  eapply result_bind; [exact Hm| |done|].
  - rewrite !flat_fapp_size, zlen_app by done. zlen_pos. lia.
  - intros st' Hrep' Hkp. rewrite <- fapp_fapp. apply Hk; [done|by apply Hkp|by rewrite length_fapp].
Qed.

Lemma add_u8_result h v st fs d : is_byte v -> rep st fs -> depth h st = Some d -> length fs = S d ->
  result d (CBB_add_u8 h v st) st tt (fapp fs [v]).
Proof. intros Hv Hrep Hd Hlen. apply (CBB_add_u8_result h st fs); [done|done|by apply fflush_last|done]. Qed.

Lemma add_components_text_outcome h fuel : forall s st fs d, bytes_ok s -> (length s <= fuel)%nat ->
  rep st fs -> depth h st = Some d -> length fs = S d ->
  match values_of fuel s with
  | Some vs => result d (add_components_text fuel h s st) st tt (fapp fs (dots vs))
  | None => rejected (add_components_text fuel h s st)
  end.
Proof.
  induction fuel as [|fuel IH]; intros s st fs d Hs Hl Hrep Hd Hlen;
    (destruct s as [|c s]; [cbn [values_of]; rewrite fapp_nil; by apply result_ret|cbn [length] in Hl; try lia]).
  rewrite values_of_cons by done. cbn [add_components_text]. unfold CBS_len. rewrite zlen_cons.
  destruct (Z.eqb_spec (1 + zlen s) 0); [zlen_pos; lia|]. cbn [negb].
  destruct (parse_base128_integer (c :: s)) as [[v|] s'] eqn:Hp.
  2:{ unfold rejected. rewrite (bind_none _ _ _ st); [done|]. unfold on. by rewrite Hp. }
  rewrite (bind_step _ _ _ (v, s') st) by (unfold on; by rewrite Hp).
  apply parse_base128_integer_Some in Hp as [Hv E]; [|done].
  assert (Hl' : (length s' <= fuel)%nat).
  { pose proof (base128_not_nil v). apply (f_equal length) in E. rewrite length_app in E. cbn [length] in E. lia. }
  assert (Hs' : bytes_ok s') by (rewrite E in Hs; by apply Forall_app in Hs as [_ Hs]).
  assert (H46 : is_byte 46) by (unfold is_byte; lia).
  pose proof (add_u8_result h 46 st fs d H46 Hrep Hd Hlen) as Hdot.
  destruct (values_of fuel s') as [vs|] eqn:Hc; cbn [mbind option_bind].
  - change (dots (v :: vs)) with ([46] ++ decimal v ++ dots vs).
    apply (result_then h); [done..|]. intros st1 Hrep1 Hd1 Hlen1.
    apply (result_then h); [done..|by apply add_decimal_result|]. intros st2 Hrep2 Hd2 Hlen2.
    specialize (IH s' st2 _ d Hs' Hl' Hrep2 Hd2 Hlen2). by rewrite Hc in IH.
  - eapply rejected_bind; [exact Hdot|]. intros st1 Hrep1 Hk1.
    eapply rejected_bind; [apply add_decimal_result; [exact Hrep1|by apply Hk1|by rewrite length_fapp]|].
    intros st2 Hrep2 Hk2.
    specialize (IH s' st2 _ d Hs' Hl' Hrep2 (Hk2 _ _ (Hk1 _ _ Hd (le_n _)) (le_n _)) ltac:(by rewrite !length_fapp)).
    by rewrite Hc in IH.
Qed.
End ToText.

(** ** Properties *)

Lemma fits_fixed `{Allocator} (buf x : list Z) :
  (forall m, zlen x <= m -> ~ fits (base (CBB_init_fixed buf)) m) -> zlen buf < zlen x.
Proof.
  intros Hno. destruct (Z.lt_ge_cases (zlen buf) (zlen x)) as [|Hge]; [done|]. exfalso. apply (Hno (zlen buf)); [done|by left].
Qed.

(** The check of an identifier's octets, digit by digit. *)
Lemma oid_loop_hi n : forall w prev s, 0 <= w < 128 ^ Z.of_nat n -> 0 <= prev < 128 ->
  exists q, is_byte q /\ (w = 0 -> q = prev) /\ (w <> 0 -> 128 <= q) /\
    is_valid_asn1_oid_loop prev (b128_hi n w ++ s) = is_valid_asn1_oid_loop q s.
Proof.
  induction n as [|n IH]; intros w prev s Hw Hprev.
  - exists prev. cbn in Hw. split_and!; try done; unfold is_byte; lia.
  - rewrite b128_hi_S. destruct (Z.eqb_spec w 0) as [->|Hw0].
    { exists prev. split_and!; try done; unfold is_byte; lia. }
    rewrite Nat2Z.inj_succ, Z.pow_succ_r in Hw by lia. rewrite <- app_assoc.
    destruct (IH (w / 128) prev ([128 + w mod 128] ++ s) ltac:(dlia) Hprev) as (q & Hq & Hq0 & Hq1 & ->).
    exists (128 + w mod 128). split_and!; [unfold is_byte; dlia..|].
    cbn [app is_valid_asn1_oid_loop]. destruct (byte_split q Hq) as (_ & -> & _).
    destruct (Z.ltb_spec q 128); [|done]. destruct (Z.eqb_spec (128 + w mod 128) 0x80); [|done].
    exfalso. destruct (Z.eq_dec (w / 128) 0) as [E|E]; [|specialize (Hq1 E); lia]. dlia.
Qed.

Lemma oid_loop_component v prev s : 0 <= v < 2 ^ 64 -> 0 <= prev < 128 ->
  is_valid_asn1_oid_loop prev (base128_octets v ++ s) = is_valid_asn1_oid_loop (v mod 128) s.
Proof.
  intros Hv Hprev. unfold base128_octets. rewrite <- app_assoc. change (2 ^ 64) with 18446744073709551616 in Hv.
  destruct (oid_loop_hi 9 (v / 128) prev ([v mod 128] ++ s)) as (q & Hq & _ & _ & ->);
    [change (128 ^ Z.of_nat 9) with 9223372036854775808; dlia|done|].
  cbn [app is_valid_asn1_oid_loop]. rewrite (proj2 (Z.eqb_neq (v mod 128) 0x80)), andb_false_r by dlia. done.
Qed.

Lemma oid_loop_components vs : Forall (fun v => 0 <= v < 2 ^ 64) vs -> forall prev, 0 <= prev < 128 ->
  is_valid_asn1_oid_loop prev (components_octets vs) = true.
Proof.
  induction 1 as [|v vs Hv Hvs IH]; intros prev Hprev.
  - cbn. destruct (byte_split prev ltac:(unfold is_byte; lia)) as (_ & -> & _). apply Z.ltb_lt. lia.
  - rewrite components_octets_cons, oid_loop_component by done. apply IH. dlia.
Qed.

Lemma oid_components_ok o : oid_valid o -> Forall (fun v => 0 <= v < 2 ^ 64) ((40 * oid_a o + oid_b o) :: oid_rest o).
Proof. intros (Ha & Hb & Hab & Hr). constructor; [unfold UINT64_MAX in *; lia|done]. Qed.

Lemma oid_octets_valid o : oid_valid o -> CBS_is_valid_asn1_oid (oid_octets o) = true.
Proof.
  intros Ho. unfold CBS_is_valid_asn1_oid, CBS_len, oid_octets.
  pose proof (base128_not_nil (40 * oid_a o + oid_b o)) as Hl.
  rewrite (proj2 (Z.eqb_neq (zlen _) 0)).
  - apply oid_loop_components; [by apply oid_components_ok|lia].
  - rewrite components_octets_cons, zlen_app. zlen_pos. unfold zlen in *. lia.
Qed.

(** The builder's conversion with nothing else around it. *)
Definition oid_from_text `{Allocator} (text : list Z) : M cbb_st (list Z) :=
  CBB_add_asn1_oid_from_text root text (zlen text) ;;; CBB_finish root true.

(** C34. The text of an object identifier is accepted exactly: into a caller's
    array, [CBB_add_asn1_oid_from_text] followed by [CBB_finish] returns the octets
    of the identifier the text denotes, which [CBS_is_valid_asn1_oid] accepts; it
    fails for every text that is not the canonical dotted decimal form of an
    identifier with components that fit, and when the array is too small. *)
Theorem oid_from_text_exact `{Allocator} text buf : zlen buf < 2 ^ 64 ->
  match fst (oid_from_text text (CBB_init_fixed buf)) with
  | Some out => exists o, oid_valid o /\ text = oid_text o /\ out = oid_octets o /\
      zlen out <= zlen buf /\ CBS_is_valid_asn1_oid out = true
  | None => forall o, oid_valid o -> text = oid_text o -> zlen buf < zlen (oid_octets o)
  end.
Proof.
  intros Hbuf. pose proof (CBB_init_fixed_rep buf Hbuf) as Hrep. unfold oid_from_text.
  pose proof (CBB_add_asn1_oid_from_text_outcome root text _ _ 0 _ Hrep eq_refl eq_refl) as Ho.
  destruct (oid_of_text text) as [o|] eqn:E.
  - apply oid_of_text_Some in E as [Hv ->]. apply finish_result in Ho. destruct (fst _) as [out|].
    + destruct Ho as [-> Hle]. exists o. split_and!; [done..|by apply Hle|by apply oid_octets_valid].
    + intros o' Hv' E. apply fits_fixed in Ho.
      pose proof (proj2 (oid_of_text_Some (oid_text o) o) (conj Hv eq_refl)) as E1.
      pose proof (proj2 (oid_of_text_Some (oid_text o) o') (conj Hv' E)) as E2. rewrite E1 in E2. by injection E2 as <-.
  - rewrite (finish_rejected _ _ Ho). intros o Hv ->. by rewrite (proj2 (oid_of_text_Some _ o) (conj Hv eq_refl)) in E.
Qed.

Lemma oid_from_text_exact_witness :
  match fst (oid_from_text (H := {| malloc_ok := fun _ => false; junk := fun _ => 0 |}) [49; 46; 50; 46; 56; 52; 48] (CBB_init_fixed (replicate 3 0))) with
  | Some out => exists o, oid_valid o /\ [49; 46; 50; 46; 56; 52; 48] = oid_text o /\ out = oid_octets o /\
      zlen out <= zlen (replicate 3 0) /\ CBS_is_valid_asn1_oid out = true
  | None => forall o, oid_valid o -> [49; 46; 50; 46; 56; 52; 48] = oid_text o -> zlen (replicate 3 0) < zlen (oid_octets o)
  end.
Proof.
  apply (oid_from_text_exact (H := {| malloc_ok := fun _ => false; junk := fun _ => 0 |}) [49; 46; 50; 46; 56; 52; 48] (replicate 3 0)).
  reflexivity.
Defined.

Section ToTextSpec.
Context `{Allocator}.

(** What the function writes before the final NUL. *)
Definition oid_to_text_body (s : CBS) : M cbb_st unit :=
  let* '(v, copy) := on s parse_base128_integer in
  (if v >=? 80 then
     CBB_add_bytes root [50; 46] ;;;
     add_decimal root (v - 80)
   else
     add_decimal root (v / 40) ;;;
     CBB_add_u8 root 46 ;;;
     add_decimal root (v mod 40)) ;;;
  add_components_text (length copy) root copy ;;;
  CBB_add_u8 root 0.

Lemma CBS_asn1_oid_to_text_body s : CBS_asn1_oid_to_text s =
  match CBB_init 32 with None => None | Some st => fst ((oid_to_text_body s ;;; CBB_finish root true) st) end.
Proof.
  unfold CBS_asn1_oid_to_text, oid_to_text_body. destruct (CBB_init 32) as [st|]; [|done]. f_equal.
  unfold bind, on. destruct (parse_base128_integer s) as [[v|] copy]; [|done].
  generalize (add_components_text (length copy) root copy) as m. intros m.
  match goal with |- match ?x with _ => _ end = _ => destruct x as [[[]|] st1]; [|done] end.
  destruct (m st1) as [[[]|] st2]; [|done]. by destruct (CBB_add_u8 root 0 st2) as [[[]|] st3].
Qed.

(** The identifier whose first octets are the number [v]. *)
Definition split_first (v : Z) (rest : list Z) : oid :=
  if v >=? 80 then mk_oid 2 (v - 80) rest else mk_oid (v / 40) (v mod 40) rest.

Lemma split_first_spec v rest : 0 <= v < 2 ^ 64 -> Forall (fun v => 0 <= v < 2 ^ 64) rest ->
  oid_valid (split_first v rest) /\ oid_octets (split_first v rest) = components_octets (v :: rest) /\
  oid_text (split_first v rest) =
    (if v >=? 80 then [50; 46] ++ decimal (v - 80) else decimal (v / 40) ++ [46] ++ decimal (v mod 40)) ++ dots rest.
Proof.
  intros Hv Hr. unfold split_first, oid_valid, oid_octets, oid_text. change (2 ^ 64) with 18446744073709551616 in Hv.
  unfold UINT64_MAX. destruct (Z.geb_spec v 80); cbn [oid_a oid_b oid_rest]; rewrite dotted_cons, dotted_dots by done.
  - split_and!; [lia..|done| |].
    + do 2 f_equal. lia.
    + change (decimal 2) with [50]. rewrite <- app_assoc. done.
  - split_and!; [dlia..|done| |].
    + do 2 f_equal. dlia.
    + rewrite <- !app_assoc. done.
Qed.

Lemma oid_octets_inj o o' : oid_valid o -> oid_valid o' -> oid_octets o = oid_octets o' -> o = o'.
Proof.
  intros Ho Ho' E. destruct o as [a b r], o' as [a' b' r'].
  pose proof (oid_components_ok _ Ho) as Hc. pose proof (oid_components_ok _ Ho') as Hc'.
  assert (Hb : bytes_ok (oid_octets (mk_oid a b r))).
  { unfold oid_octets. clear -Hc. induction Hc as [|v vs Hv _ IH]; [constructor|]. rewrite components_octets_cons.
    apply Forall_app. split; [apply base128_octets_ok; lia|done]. }
  pose proof (proj2 (values_of_Some _ _ _ Hb (le_n _)) (conj Hc eq_refl)) as E1.
  pose proof (proj2 (values_of_Some _ _ _ Hb (le_n _)) (conj Hc' E)) as E2.
  rewrite E1 in E2. injection E2 as Eh ->. destruct Ho as (Ha & Hb1 & Hab & _), Ho' as (Ha' & Hb1' & Hab' & _).
  cbn in *. assert (a = a') as -> by lia. f_equal. lia.
Qed.

(** The body on a builder: what the octets denote, if they denote an identifier. *)
Definition oid_of_octets (s : CBS) : option oid :=
  vs ← values_of (length s) s;
  match vs with [] => None | v :: rest => Some (split_first v rest) end.

Lemma oid_of_octets_Some s o : bytes_ok s -> oid_of_octets s = Some o <-> oid_valid o /\ s = oid_octets o.
Proof.
  intros Hs. unfold oid_of_octets. split.
  - destruct (values_of (length s) s) as [vs|] eqn:E; cbn; [|done].
    apply values_of_Some in E as [Hvs ->]; [|done..]. destruct vs as [|v rest]; [done|]. intros [= <-].
    apply Forall_cons in Hvs as [Hv Hr]. destruct (split_first_spec v rest Hv Hr) as (H1 & H2 & _). done.
  - intros [Ho ->]. pose proof (oid_components_ok o Ho) as Hc.
    rewrite (proj2 (values_of_Some _ _ _ Hs (le_n _)) (conj Hc eq_refl)). cbn [mbind option_bind]. f_equal.
    apply Forall_cons in Hc as [Hv Hr]. destruct (split_first_spec _ _ Hv Hr) as (H1 & H2 & _).
    by apply oid_octets_inj.
Qed.

Lemma oid_of_octets_step s : bytes_ok s -> oid_of_octets s =
  match parse_base128_integer s with
  | (None, _) => None
  | (Some v, s') => rest ← values_of (length s') s'; Some (split_first v rest)
  end.
Proof.
  intros Hs. unfold oid_of_octets. destruct s as [|c s]; [done|]. cbn [length]. rewrite values_of_cons by done.
  destruct (parse_base128_integer (c :: s)) as [[v|] s'] eqn:Hp; [|done].
  apply parse_base128_integer_Some in Hp as [Hv E]; [|done]. rewrite E in Hs. apply Forall_app in Hs as [_ Hs'].
  assert (Hl : (length s' <= length s)%nat).
  { pose proof (base128_not_nil v). apply (f_equal length) in E. rewrite length_app in E. cbn [length] in E. lia. }
  assert (Ef : values_of (length s) s' = values_of (length s') s').
  { apply option_eq. intros vs. by rewrite !values_of_Some. }
  rewrite Ef. by destruct (values_of (length s') s').
Qed.

Lemma first_text_result v st fs : rep st fs -> length fs = 1%nat ->
  result 0 ((if v >=? 80 then CBB_add_bytes root [50; 46] ;;; add_decimal root (v - 80)
             else add_decimal root (v / 40) ;;; CBB_add_u8 root 46 ;;; add_decimal root (v mod 40)) st) st tt
    (fapp fs (if v >=? 80 then [50; 46] ++ decimal (v - 80) else decimal (v / 40) ++ [46] ++ decimal (v mod 40))).
Proof.
  intros Hrep Hlen. assert (Hb : is_byte 46) by (unfold is_byte; lia). destruct (v >=? 80).
  - apply (result_then root); [done..| |].
    + apply (CBB_add_bytes_result root st fs); [done..|by apply fflush_last|done].
    + intros st1 Hrep1 Hd1 Hl1. by apply add_decimal_result.
  - apply (result_then root); [done..|by apply add_decimal_result|]. intros st1 Hrep1 Hd1 Hl1.
    apply (result_then root); [done..|by apply add_u8_result|]. intros st2 Hrep2 Hd2 Hl2.
    by apply add_decimal_result.
Qed.

Lemma oid_to_text_body_outcome s st fs : bytes_ok s -> rep st fs -> length fs = 1%nat ->
  match oid_of_octets s with
  | Some o => result 0 (oid_to_text_body s st) st tt (fapp fs (oid_text o ++ [0]))
  | None => rejected (oid_to_text_body s st)
  end.
Proof.
  intros Hs Hrep Hlen. rewrite oid_of_octets_step by done. unfold oid_to_text_body.
  destruct (parse_base128_integer s) as [[v|] s'] eqn:Hp.
  2:{ unfold rejected, bind, on. by rewrite Hp. }
  rewrite (bind_step _ _ _ (v, s') st) by (unfold on; by rewrite Hp).
  apply parse_base128_integer_Some in Hp as [Hv ->]; [|done]. apply Forall_app in Hs as [_ Hs'].
  pose proof (first_text_result v st fs Hrep Hlen) as Hfirst.
  assert (Hb : is_byte 0) by (unfold is_byte; lia).
  destruct (values_of (length s') s') as [rest|] eqn:Hr; cbn [mbind option_bind].
  - apply values_of_Some in Hr as Hr'; [|done..]. destruct Hr' as [Hrest _].
    destruct (split_first_spec v rest Hv Hrest) as (_ & _ & ->). rewrite <- app_assoc.
    apply (result_then root); [done..|exact Hfirst|]. intros st1 Hrep1 Hd1 Hl1.
    apply (result_then root); [done..| |].
    + pose proof (add_components_text_outcome root (length s') s' st1 _ 0 Hs' (le_n _) Hrep1 Hd1 Hl1) as Ho. by rewrite Hr in Ho.
    + intros st2 Hrep2 Hd2 Hl2. by apply add_u8_result.
  - eapply rejected_bind; [exact Hfirst|]. intros st1 Hrep1 Hk1.
    pose proof (add_components_text_outcome root (length s') s' st1 _ 0 Hs' (le_n _) Hrep1 eq_refl ltac:(by rewrite length_fapp)) as Ho.
    rewrite Hr in Ho. unfold rejected, bind in *. by destruct (add_components_text _ _ _ st1) as [[?|] ?].
Qed.

Lemma CBS_asn1_oid_to_text_facts s : bytes_ok s ->
  (forall txt, CBS_asn1_oid_to_text s = Some txt -> exists o, oid_valid o /\ s = oid_octets o /\ txt = oid_text o ++ [0]) /\
  ((forall n, malloc_ok n = true) -> forall o, oid_valid o -> s = oid_octets o -> zlen (oid_text o) < 2 ^ 62 ->
     CBS_asn1_oid_to_text s = Some (oid_text o ++ [0])).
Proof.
  intros Hs. rewrite CBS_asn1_oid_to_text_body.
  destruct (CBB_init 32) as [st|] eqn:Hi.
  2:{ split; [done|]. intros Hm. by apply CBB_init_ok in Hi. }
  destruct (CBB_init_rep 32 st) as (Hrep & Hres & Hcap); [lia|done|].
  pose proof (oid_to_text_body_outcome s st _ Hs Hrep eq_refl) as Ho.
  destruct (oid_of_octets s) as [o|] eqn:E.
  - apply finish_result in Ho. apply oid_of_octets_Some in E as [Hv E]; [|done].
    destruct (fst _) as [out|].
    + destruct Ho as [-> _]. split; [intros txt [= <-]; by exists o|]. intros _ o' Hv' E' _.
      by rewrite (oid_octets_inj o o') by congruence.
    + split; [done|]. intros Hm o' Hv' E' Hlen. rewrite (oid_octets_inj o' o) in Hlen by congruence. exfalso.
      apply (Ho (zlen (oid_text o ++ [0]))); [done|]. right. rewrite Hres, Hcap, zlen_app.
      change (zlen [0]) with 1. split_and!; try done; lia.
  - rewrite (finish_rejected _ _ Ho). split; [done|]. intros _ o Hv E' _. exfalso.
    by rewrite (proj2 (oid_of_octets_Some s o Hs) (conj Hv E')) in E.
Qed.
End ToTextSpec.

(** The octets of an object identifier become its text: what
    [CBS_asn1_oid_to_text] returns is the dotted decimal text, followed by a NUL,
    of the identifier that the octets denote, and octets that denote none (or one
    with a component of 64 bits or more) give nothing; when the allocator does not
    fail, every identifier is converted. *)
Theorem CBS_asn1_oid_to_text_exact `{Allocator} s : bytes_ok s ->
  (forall txt, CBS_asn1_oid_to_text s = Some txt -> exists o, oid_valid o /\ s = oid_octets o /\ txt = oid_text o ++ [0]) /\
  ((forall n, malloc_ok n = true) -> forall o, oid_valid o -> s = oid_octets o -> zlen (oid_text o) < 2 ^ 62 ->
     CBS_asn1_oid_to_text s = Some (oid_text o ++ [0])).
Proof. apply CBS_asn1_oid_to_text_facts. Qed.

Lemma CBS_asn1_oid_to_text_exact_witness :
  let A := {| malloc_ok := fun _ => true; junk := fun _ => 7 |} in
  CBS_asn1_oid_to_text [0x88; 0x37; 3] = Some [50; 46; 57; 57; 57; 46; 51; 0].
Proof.
  intros A. assert (Hb : bytes_ok [0x88; 0x37; 3]) by (repeat constructor; lia).
  destruct (CBS_asn1_oid_to_text_exact (H := A) [0x88; 0x37; 3] Hb) as [_ Hall].
  apply (Hall ltac:(reflexivity) (mk_oid 2 999 [3])); [|reflexivity..].
  unfold oid_valid, UINT64_MAX. cbn. split_and!; try lia. constructor; [lia|constructor].
Defined.

(** Object identifiers survive the trip: the octets that the builder makes of
    a text give the same text back, for every text that it accepts. *)
Theorem oid_text_roundtrip `{Allocator} text buf out : zlen buf < 2 ^ 64 -> zlen text < 2 ^ 62 ->
  (forall n, malloc_ok n = true) -> fst (oid_from_text text (CBB_init_fixed buf)) = Some out ->
  CBS_asn1_oid_to_text out = Some (text ++ [0]).
Proof.
  intros Hbuf Htext Hm E. pose proof (CBB_init_fixed_rep buf Hbuf) as Hrep. unfold oid_from_text in E.
  pose proof (CBB_add_asn1_oid_from_text_outcome root text _ _ 0 _ Hrep eq_refl eq_refl) as Ho.
  destruct (oid_of_text text) as [o|] eqn:Et; [|by rewrite (finish_rejected _ _ Ho) in E].
  apply finish_result in Ho. rewrite E in Ho. destruct Ho as [-> _]. apply oid_of_text_Some in Et as [Hv ->].
  apply CBS_asn1_oid_to_text_facts; [|done..].
  unfold oid_octets. induction (oid_components_ok o Hv) as [|v vs Hw _ IH]; [constructor|].
  rewrite components_octets_cons. apply Forall_app. split; [apply base128_octets_ok; lia|done].
Qed.

Lemma oid_text_roundtrip_witness :
  let A := {| malloc_ok := fun _ => true; junk := fun _ => 7 |} in
  CBS_asn1_oid_to_text [0x88; 0x37; 3] = Some [50; 46; 57; 57; 57; 46; 51; 0].
Proof.
  intros A. apply (oid_text_roundtrip (H := A) [50; 46; 57; 57; 57; 46; 51] (replicate 3 0)); [reflexivity..].
Defined.
