(* ===== verification/Ber.v ===== *)
(** * Conversion of BER to DER (crypto/bytestring/ber.c)

    The functions read a [CBS] and write to a [CBB]. A loop that recurses into
    the contents of an element takes fuel, of which every round uses one; a round
    consumes at least two octets, so the length of the input is enough. A function
    without fuel would fail like one that the code makes fail; that this never
    happens is proved in [BerLoops], where the calls are derivations without fuel. *)

From S2P Require Import Prelude Words Mem Der Cbs Cbb.

Definition kMaxDepth : Z := 128.

Definition CBS_ASN1_UTF8STRING : Z := 0xc.
Definition CBS_ASN1_NUMERICSTRING : Z := 0x12.
Definition CBS_ASN1_PRINTABLESTRING : Z := 0x13.
Definition CBS_ASN1_T61STRING : Z := 0x14.
Definition CBS_ASN1_VIDEOTEXSTRING : Z := 0x15.
Definition CBS_ASN1_IA5STRING : Z := 0x16.
Definition CBS_ASN1_GRAPHICSTRING : Z := 0x19.
Definition CBS_ASN1_VISIBLESTRING : Z := 0x1a.
Definition CBS_ASN1_GENERALSTRING : Z := 0x1b.
Definition CBS_ASN1_UNIVERSALSTRING : Z := 0x1c.
Definition CBS_ASN1_BMPSTRING : Z := 0x1e.

Definition is_string_type (tag : Z) : bool :=
  existsb (Z.eqb (tag .& NOT_CONSTRUCTED))
    [CBS_ASN1_OCTETSTRING; CBS_ASN1_UTF8STRING; CBS_ASN1_NUMERICSTRING; CBS_ASN1_PRINTABLESTRING;
     CBS_ASN1_T61STRING; CBS_ASN1_VIDEOTEXSTRING; CBS_ASN1_IA5STRING; CBS_ASN1_GRAPHICSTRING;
     CBS_ASN1_VISIBLESTRING; CBS_ASN1_GENERALSTRING; CBS_ASN1_UNIVERSALSTRING; CBS_ASN1_BMPSTRING].

(** [tag & CBS_ASN1_CONSTRUCTED]. *)
Definition is_constructed (tag : Z) : bool := negb ((tag .& CBS_ASN1_CONSTRUCTED) =? 0).

(** The [while] loop of [cbs_find_ber] at a depth that passed the check. The
    result is [*ber_found], or nothing when the function returns 0. *)
Fixpoint find_ber_loop (fuel : nat) (in_ : CBS) (depth : Z) : option bool :=
  if negb (CBS_len in_ >? 0) then Some false
  else match fuel with
  | O => None
  | S fuel =>
      match CBS_get_any_ber_asn1_element in_ with
      | (None, _) => None
      | (Some el, in_) =>
          if el_ber_found el then Some true
          else if is_constructed (el_tag el) then
            if is_string_type (el_tag el) then Some true
            else match CBS_skip (el_header_len el) (el_out el) with
            | (None, _) => None
            | (Some _, contents) =>
                let depth' := u32 (depth + 1) in
                match (if depth' >? kMaxDepth then None else find_ber_loop fuel contents depth') with
                | None => None
                | Some true => Some true
                | Some false => find_ber_loop fuel in_ depth
                end
            end
          else find_ber_loop fuel in_ depth
      end
  end.

Definition cbs_find_ber (orig_in : CBS) (depth : Z) : option bool :=
  if depth >? kMaxDepth then None else find_ber_loop (length orig_in) orig_in depth.

(** Whether there was an end-of-contents value, and the [CBS] after it. *)
Definition cbs_get_eoc (cbs : CBS) : bool * CBS :=
  if (CBS_len cbs >=? 2) && (CBS_data cbs 0 =? 0) && (CBS_data cbs 1 =? 0) then
    match CBS_skip 2 cbs with
    | (Some _, cbs) => (true, cbs)
    | (None, cbs) => (false, cbs)
    end
  else (false, cbs).

Section Convert.
Context `{Allocator}.

(** The choice of the object the contents goes to, and of the string tag its
    elements must have. *)
Definition convert_target (out : CBB) (string_tag tag : Z) : M cbb_st (CBB * Z) :=
  if negb (string_tag =? 0) then
    guard (negb (negb ((tag .& NOT_CONSTRUCTED) =? string_tag))) ;;;
    ret (out, string_tag)
  else
    let '(out_tag, child_string_tag) :=
      if is_constructed tag && is_string_type tag
      then (tag .& NOT_CONSTRUCTED, tag .& NOT_CONSTRUCTED)
      else (tag, string_tag) in
    let* out_contents := CBB_add_asn1 out out_tag in
    ret (out_contents, child_string_tag).

(** The [while] loop of [cbs_convert_ber] at a depth that passed the check; the
    result is what is left of [in]. *)
Fixpoint convert_ber_loop (fuel : nat) (in_ : CBS) (out : CBB) (string_tag : Z)
    (looking_for_eoc : bool) (depth : Z) : M cbb_st CBS :=
  if negb (CBS_len in_ >? 0) then if looking_for_eoc then fail else ret in_
  else match fuel with
  | O => fail
  | S fuel =>
      if looking_for_eoc && fst (cbs_get_eoc in_) then ret (snd (cbs_get_eoc in_))
      else
        let* '(el, in_) := on in_ CBS_get_any_ber_asn1_element in
        let tag := el_tag el in
        let* '(out_contents, child_string_tag) := convert_target out string_tag tag in
        let depth' := u32 (depth + 1) in
        if el_indefinite el then
          let* in_ := if depth' >? kMaxDepth then fail
                      else convert_ber_loop fuel in_ out_contents child_string_tag true depth' in
          CBB_flush out ;;;
          convert_ber_loop fuel in_ out string_tag looking_for_eoc depth
        else
          let* '(_, contents) := on (el_out el) (CBS_skip (el_header_len el)) in
          (if is_constructed tag then
             let* _ := if depth' >? kMaxDepth then fail
                       else convert_ber_loop fuel contents out_contents child_string_tag false depth' in
             ret tt
           else CBB_add_bytes out_contents contents) ;;;
          CBB_flush out ;;;
          convert_ber_loop fuel in_ out string_tag looking_for_eoc depth
  end.

Definition cbs_convert_ber (in_ : CBS) (out : CBB) (string_tag : Z) (looking_for_eoc : bool) (depth : Z) :
    M cbb_st CBS :=
  if depth >? kMaxDepth then fail
  else convert_ber_loop (length in_) in_ out string_tag looking_for_eoc depth.

(** What is left of [in], [*out], and [*out_storage], which is [None] when it is
    [NULL]. Where a failing call leaves [in] is not modelled. *)
Definition CBS_asn1_ber_to_der (in_ : CBS) : option (CBS * CBS * option (list Z)) :=
  match cbs_find_ber in_ 0 with
  | None => None
  | Some false =>
      match CBS_get_any_asn1_element in_ with
      | (Some (out, _, _), in_) => Some (in_, out, None)
      | (None, _) => None
      end
  | Some true =>
      match CBB_init (CBS_len in_) with
      | None => None
      | Some cbb =>
          match (let* in_ := cbs_convert_ber in_ root 0 false 0 in
                 let* out_storage := CBB_finish root true in
                 ret (in_, out_storage)) cbb with
          | (Some (in_, out_storage), _) => Some (in_, CBS_init out_storage (zlen out_storage), Some out_storage)
          | (None, _) => None
          end
      end
  end.

(** The [while] loop that joins the pieces; each takes at least two octets. *)
Fixpoint join_chunks (fuel : nat) (child : CBS) (result : CBB) (inner_tag : Z) : M cbb_st unit :=
  if negb (CBS_len child >? 0) then ret tt
  else match fuel with
  | O => fail
  | S fuel =>
      let* '(chunk, child) := on child (CBS_get_asn1 inner_tag) in
      CBB_add_bytes result chunk ;;;
      join_chunks fuel child result inner_tag
  end.

Definition CBS_get_asn1_implicit_string (outer_tag inner_tag : Z) : M CBS (CBS * option (list Z)) := fun in_ =>
  if CBS_peek_asn1_tag in_ outer_tag then
    (let* out := CBS_get_asn1 outer_tag in ret (out, None)) in_
  else
    match CBB_init (CBS_len in_) with
    | None => (None, in_)
    | Some result =>
        match CBS_get_asn1 (outer_tag .| CBS_ASN1_CONSTRUCTED) in_ with
        | (None, in_) => (None, in_)
        | (Some child, in_) =>
            match (join_chunks (length child) child root inner_tag ;;; CBB_finish root true) result with
            | (None, _) => (None, in_)
            | (Some data, _) => (Some (CBS_init data (zlen data), Some data), in_)
            end
        end
    end.
End Convert.

(** An indefinite-length octet string in two pieces, and a definite one. *)
Example ber_to_der_example :
  CBS_asn1_ber_to_der (H := {| malloc_ok := fun _ => true; junk := fun _ => 7 |})
    [0x30; 0x80; 0x24; 0x80; 4; 1; 1; 4; 2; 2; 3; 0; 0; 2; 0x81; 1; 5; 0; 0] =
  Some ([], [0x30; 8; 4; 3; 1; 2; 3; 2; 1; 5], Some [0x30; 8; 4; 3; 1; 2; 3; 2; 1; 5]).
Proof. vm_compute. reflexivity. Qed.

(** When conversion is needed every element of the input is converted, not only
    the first; otherwise one element is read and the rest is left. *)
Example ber_to_der_takes_all :
  CBS_asn1_ber_to_der (H := {| malloc_ok := fun _ => true; junk := fun _ => 7 |}) [0x30; 0x80; 0; 0; 5; 0] =
    Some ([], [0x30; 0; 5; 0], Some [0x30; 0; 5; 0]) /\
  CBS_asn1_ber_to_der (H := {| malloc_ok := fun _ => true; junk := fun _ => 7 |}) [0x30; 0; 5; 0] =
    Some ([5; 0], [0x30; 0], None).
Proof. vm_compute. split; reflexivity. Qed.

Example implicit_string_example :
  CBS_get_asn1_implicit_string (H := {| malloc_ok := fun _ => true; junk := fun _ => 7 |}) 0x80000000 4
    [0xa0; 7; 4; 2; 1; 2; 4; 1; 3; 9] = (Some ([1; 2; 3], Some [1; 2; 3]), [9]).
Proof. vm_compute. reflexivity. Qed.
