(* ===== verification/BerElement.v ===== *)
(** * BER elements (theorems about the element reader that ber.c uses)

    The length octets of BER, minimal or not, and the indefinite form, as a
    relation; with BER allowed, the element reader of the parser reads exactly one
    element, or one header of the indefinite form, that the relation describes. *)

From S2P Require Import Prelude Words Mem Der Cbs CbsFacts Cbb Ber.

(** ** Length octets *)

(** Any number of length octets up to four, minimal or not. *)
Definition ber_length (L : list Z) (len : Z) : Prop :=
  (L = [len] /\ 0 <= len < 128) \/
  exists n, 1 <= n <= 4 /\ 0 <= len < 256 ^ n /\ L = (128 + n) :: be_bytes (Z.to_nat n) len.

(** What the element reader returns on [s]. *)
Inductive ber_read : CBS -> asn1_element -> CBS -> Prop :=
  | read_definite tag L c s' : valid_tag tag -> ber_length L (zlen c) ->
      ber_read ((tag_octets tag ++ L ++ c) ++ s')
        (mk_element (tag_octets tag ++ L ++ c) tag (zlen (tag_octets tag ++ L))
           (negb (bool_decide (L = length_octets (zlen c)))) false) s'
  | read_indefinite tag s' : valid_tag tag -> is_constructed tag = true ->
      ber_read ((tag_octets tag ++ [128]) ++ s')
        (mk_element (tag_octets tag ++ [128]) tag (zlen (tag_octets tag ++ [128])) true true) s'.

Lemma ber_length_der len : 0 <= len < 2 ^ 32 -> ber_length (length_octets len) len.
Proof.
  intros Hlen. destruct (Z.lt_ge_cases len 128).
  - left. rewrite length_octets_short by lia. split; [done|lia].
  - right. destruct (length_octets_long_inv len) as (E & Hn & Hlt & _); [lia|].
    exists (Z.of_nat (len_size len)). rewrite Nat2Z.id. split_and!; (lia || done).
Qed.

Lemma ber_length_bound L len : ber_length L len -> 0 <= len < 2 ^ 32 /\ 1 <= zlen L <= 5 /\ bytes_ok L.
Proof.
  intros [[-> H]|(n & Hn & Hl & ->)].
  - split; [lia|]. split; [done|]. repeat constructor; lia.
  - assert (256 ^ n <= 256 ^ 4) by (apply Z.pow_le_mono_r; lia). change (256 ^ 4) with (2 ^ 32) in *.
    rewrite zlen_cons, zlen_be_bytes. split; [lia|]. split; [lia|]. constructor; [unfold is_byte; lia|apply be_bytes_ok].
Qed.

(** The code's two checks of minimality against the minimal length octets. *)
Lemma not_minimal_length n len : 1 <= n <= 4 -> 0 <= len < 256 ^ n ->
  (len <? 128) || ((len ≫ ((n - 1) * 8)) =? 0) =
  negb (bool_decide ((128 + n) :: be_bytes (Z.to_nat n) len = length_octets len)).
Proof.
  intros Hn Hlen. assert (Hp : 256 ^ n <= 256 ^ 4) by (apply Z.pow_le_mono_r; lia). change (256 ^ 4) with (2 ^ 32) in Hp.
  destruct (Z.ltb_spec len 128) as [Hs|Hs]; cbn [orb].
  - rewrite length_octets_short by lia. rewrite bool_decide_false; [done|]. intros [= E _]. lia.
  - destruct (Z.eqb_spec (len ≫ ((n - 1) * 8)) 0) as [E|E].
    + rewrite bool_decide_false; [done|]. intros El.
      destruct (length_octets_long_inv len ltac:(lia)) as (E2 & _ & _ & Hmin). rewrite <- El in E2. injection E2 as En _.
      apply Z.eqb_neq in Hmin. apply Hmin. replace (Z.of_nat (len_size len)) with n by lia. done.
    + rewrite bool_decide_true; [done|]. symmetry. apply length_octets_long; [done|lia|done].
Qed.

(** ** The element reader *)

Lemma ber_element_sound s el s' : bytes_ok s -> CBS_get_any_ber_asn1_element s = (Some el, s') -> ber_read s el s'.
Proof.
  intros Hs H. unfold CBS_get_any_ber_asn1_element, cbs_get_any_asn1_element in H.
  rewrite (bind_step _ _ _ _ _ (eq_refl : get s = (Some s, s))) in H.
  apply bind_Some in H as ([tag h1] & s1 & Ht & H). apply on_Some in Ht as [Ht ->].
  apply parse_asn1_tag_Some in Ht as [Htag ->]; [|done].
  apply bind_Some in H as ([lb h2] & s1 & Hlb & H). apply on_Some in Hlb as [Hlb ->].
  apply CBS_get_u8_Some in Hlb as ->.
  pose proof (zlen_tag_octets tag) as Htl. apply Forall_app in Hs as [_ Hs].
  apply Forall_cons in Hs as [Hb Hs]. destruct (length_byte_cases lb Hb) as [E1 E2].
  rewrite E1, E2 in H. unfold is_byte in Hb. unfold CBS_len, u64 in H.
  replace (zlen (tag_octets tag ++ lb :: h2) - zlen h2) with (zlen (tag_octets tag ++ [lb])) in H by zlia.
  assert (Htl' : zlen (tag_octets tag ++ [lb]) = zlen (tag_octets tag) + 1) by zlia.
  replace (tag_octets tag ++ lb :: h2) with ((tag_octets tag ++ [lb]) ++ h2) in *
    by (by rewrite <- app_assoc).
  destruct (Z.ltb_spec lb 128) as [Hlow|Hhigh].
  - rewrite Z.mod_small, (Z.add_comm lb) in H by lia.
    apply bind_Some in H as (out & t & Ho & Hr). apply ret_Some in Hr as [-> ->].
    apply get_bytes_element in Ho as (c & -> & -> & Hc); [|lia].
    pose proof (read_definite tag [lb] c t Htag ltac:(left; split; [by rewrite Hc|lia])) as Hread.
    rewrite Hc, length_octets_short, bool_decide_true in Hread by (done || lia). cbn [negb] in Hread.
    rewrite <- !app_assoc in *. exact Hread.
  - cbv zeta in H. rewrite andb_true_l in H. set (n := lb mod 128) in *. assert (Hn : lb = 128 + n) by (unfold n; dlia).
    change (negb ((tag .& CBS_ASN1_CONSTRUCTED) =? 0)) with (is_constructed tag) in H.
    destruct (is_constructed tag && (n =? 0)) eqn:Hind.
    { apply andb_true_iff in Hind as [Hcons Hn0]. apply Z.eqb_eq in Hn0. assert (lb = 128) as -> by lia.
      apply bind_Some in H as (out & t & Ho & Hr). apply ret_Some in Hr as [-> ->].
      rewrite <- (Z.add_0_r (zlen (tag_octets tag ++ [128]))) in Ho.
      apply get_bytes_element in Ho as (c & -> & -> & Hc); [|lia]. apply zlen_0_nil in Hc as ->. rewrite app_nil_r.
      by apply read_indefinite. }
    rewrite bind_guard in H.
    destruct (negb _) eqn:Hn4; [|done]. apply negb_true_iff, orb_false_iff in Hn4 as [Hn0 Hn4].
    apply Z.eqb_neq in Hn0. rewrite Z.gtb_ltb in Hn4. apply Z.ltb_ge in Hn4.
    assert (Hn1 : 1 <= n <= 4) by (unfold n in *; dlia). clear Hn0 Hn4 Hind.
    apply bind_Some in H as ([len h3] & s1 & Hlen & H). apply on_Some in Hlen as [Hlen ->].
    apply cbs_get_u_Some in Hlen as [Hlen ->]; [|lia|done].
    assert (256 ^ n <= 256 ^ 4) as Hpow by (apply Z.pow_le_mono_r; lia). change (256 ^ 4) with 4294967296 in Hpow.
    rewrite !orb_true_r, !bind_guard in H. rewrite !Z.mod_small in H by lia.
    destruct (Z.ltb_spec (len + zlen (tag_octets tag ++ [lb]) + n) len) as [|_]; [lia|]. cbn [negb] in H.
    assert (Hbe : zlen (be_bytes (Z.to_nat n) len) = n) by (rewrite zlen_be_bytes; lia).
    apply bind_Some in H as (out & t & Ho & Hr). apply ret_Some in Hr as [-> ->].
    rewrite app_assoc, (Z.add_comm len) in Ho.
    replace (zlen (tag_octets tag ++ [lb]) + n)
      with (zlen ((tag_octets tag ++ [lb]) ++ be_bytes (Z.to_nat n) len)) in * by (rewrite (zlen_app _ (be_bytes _ _)); lia).
    apply get_bytes_element in Ho as (c & -> & -> & Hc); [|lia].
    pose proof (read_definite tag (lb :: be_bytes (Z.to_nat n) len) c t Htag
      ltac:(right; exists n; rewrite Hc, <- Hn; done)) as Hread.
    rewrite not_minimal_length by done. rewrite <- Hn. rewrite Hc in Hread.
    rewrite <- !app_assoc in *. cbn [app] in *. exact Hread.
Qed.

Lemma ber_element_complete s el s' : bytes_ok s -> ber_read s el s' -> CBS_get_any_ber_asn1_element s = (Some el, s').
Proof.
  intros Hs Hread. unfold CBS_get_any_ber_asn1_element, cbs_get_any_asn1_element.
  rewrite (bind_step _ _ _ _ _ (eq_refl : get s = (Some s, s))).
  destruct Hread as [tag L c s' Htag HL|tag s' Htag Hcons].
  - assert (Htag' : parse_asn1_tag ((tag_octets tag ++ L ++ c) ++ s') = (Some tag, L ++ c ++ s'))
      by (apply parse_asn1_tag_Some; [done|]; by rewrite <- !app_assoc).
    erewrite bind_step by (apply on_Some; split; [exact Htag'|done]).
    pose proof (zlen_tag_octets tag) as Htl. pose proof (zlen_nonneg c) as Hc0. unfold u64.
    destruct HL as [[-> Hsmall]|(n & Hn & Hlen & ->)].
    + cbn [app]. erewrite bind_step by (apply on_Some; split; [apply CBS_get_u8_cons|done]).
      destruct (length_byte_cases (zlen c)) as [-> _]; [unfold is_byte; lia|]. rewrite (proj2 (Z.ltb_lt _ _)) by lia.
      replace (CBS_len _ - CBS_len (c ++ s')) with (zlen (tag_octets tag ++ [zlen c])) by (unfold CBS_len; zlia).
      rewrite Z.mod_small by zlia. rewrite Z.add_comm. erewrite bind_step.
      * rewrite length_octets_short by lia. by rewrite bool_decide_true.
      * change (zlen c :: c) with ([zlen c] ++ c). rewrite app_assoc, <- (app_assoc _ c s'). apply get_bytes_element; [lia|]. eauto.
    + change (((128 + n) :: be_bytes (Z.to_nat n) (zlen c)) ++ c ++ s')
        with ((128 + n) :: be_bytes (Z.to_nat n) (zlen c) ++ c ++ s').
      erewrite bind_step by (apply on_Some; split; [apply CBS_get_u8_cons|done]).
      assert (Hp : 256 ^ n <= 256 ^ 4) by (apply Z.pow_le_mono_r; lia). change (256 ^ 4) with 4294967296 in Hp.
      destruct (length_byte_cases (128 + n)) as [-> ->]; [unfold is_byte; lia|].
      rewrite (proj2 (Z.ltb_ge _ _)) by lia. replace ((128 + n) mod 128) with n by dlia. cbv zeta.
      rewrite (proj2 (Z.eqb_neq n 0)), andb_false_r by lia. rewrite bind_guard, Z.gtb_ltb.
      rewrite (proj2 (Z.ltb_ge 4 n)) by lia. cbn [orb negb].
      assert (Hbe : zlen (be_bytes (Z.to_nat n) (zlen c)) = n) by (rewrite zlen_be_bytes; lia).
      erewrite bind_step.
      2: { apply on_Some. split; [|done]. apply (cbs_get_u_Some n _ (zlen c) (c ++ s')); [lia| |split; [lia|done]].
           rewrite <- !app_assoc in Hs. apply Forall_app in Hs as [_ Hs]. by apply Forall_cons in Hs as [_ Hs]. }
      cbv beta iota zeta. rewrite !orb_true_r, !bind_guard.
      match goal with |- context [CBS_len ?a - CBS_len ?h] =>
        replace (CBS_len a - CBS_len h) with (zlen (tag_octets tag) + 1) by (unfold CBS_len; zlia) end.
      rewrite !Z.mod_small by lia. rewrite (proj2 (Z.ltb_ge _ (zlen c))) by lia. cbn [negb].
      set (L := (128 + n) :: be_bytes (Z.to_nat n) (zlen c)).
      assert (EL : zlen (tag_octets tag) + 1 + n = zlen (tag_octets tag ++ L)) by (unfold L; zlia).
      rewrite EL, Z.add_comm, not_minimal_length by done. fold L.
      erewrite bind_step; [reflexivity|]. rewrite app_assoc, <- (app_assoc _ c s'). apply get_bytes_element; [lia|]. eauto.
  - assert (Htag' : parse_asn1_tag ((tag_octets tag ++ [128]) ++ s') = (Some tag, [128] ++ s'))
      by (apply parse_asn1_tag_Some; [done|]; by rewrite <- !app_assoc).
    erewrite bind_step by (apply on_Some; split; [exact Htag'|done]).
    cbn [app]. erewrite bind_step by (apply on_Some; split; [apply CBS_get_u8_cons|done]).
    destruct (length_byte_cases 128) as [-> ->]; [unfold is_byte; lia|]. cbv zeta. change (128 <? 128) with false.
    change (128 mod 128) with 0. cbv iota.
    change (negb ((tag .& CBS_ASN1_CONSTRUCTED) =? 0)) with (is_constructed tag). rewrite Hcons. cbn [andb Z.eqb].
    replace (CBS_len _ - CBS_len s') with (zlen (tag_octets tag ++ [128])) by (unfold CBS_len; zlia).
    erewrite bind_step; [reflexivity|]. rewrite <- (Z.add_0_r (zlen _)). apply get_bytes_element; [lia|].
    exists []. by rewrite app_nil_r.
Qed.

Lemma ber_element_iff s el s' : bytes_ok s -> CBS_get_any_ber_asn1_element s = (Some el, s') <-> ber_read s el s'.
Proof. intros Hs. split; [by apply ber_element_sound|by apply ber_element_complete]. Qed.
