(* ===== verification/BerTree.v ===== *)
(** * BER trees and their DER (theorems about the parsing side of cbs_convert_ber)

    A forest of BER elements is a list of trees; the grammar says which octets
    encode it, the DER of a tree joins the pieces of constructed strings. The
    converter without its builder, a function on octets, is shown to accept
    exactly the encodings of forests and to return their DER. *)

From S2P Require Import Prelude Words Mem Der Cbs CbsFacts Cbb Ber BerElement.

(** ** Trees *)

Inductive ber_tree :=
  | Prim (tag : Z) (contents : list Z)
  | Cons (tag : Z) (children : list ber_tree).

(** The octets of trees and forests: any length octets, and the indefinite form. *)
Inductive encodes : ber_tree -> list Z -> Prop :=
  | enc_prim tag L c : valid_tag tag -> is_constructed tag = false -> ber_length L (zlen c) ->
      encodes (Prim tag c) (tag_octets tag ++ L ++ c)
  | enc_cons tag L ts x : valid_tag tag -> is_constructed tag = true -> all_encode ts x -> ber_length L (zlen x) ->
      encodes (Cons tag ts) (tag_octets tag ++ L ++ x)
  | enc_indefinite tag ts x : valid_tag tag -> is_constructed tag = true -> all_encode ts x ->
      encodes (Cons tag ts) (tag_octets tag ++ [128] ++ x ++ [0; 0])
with all_encode : list ber_tree -> list Z -> Prop :=
  | enc_nil : all_encode [] []
  | enc_more t ts x y : encodes t x -> all_encode ts y -> all_encode (t :: ts) (x ++ y).

Fixpoint tree_depth (t : ber_tree) : Z :=
  match t with
  | Prim _ _ => 0
  | Cons _ ts => 1 + fold_right (fun t => Z.max (tree_depth t)) 0 ts
  end.
Definition forest_depth (ts : list ber_tree) : Z := fold_right (fun t => Z.max (tree_depth t)) 0 ts.

Definition notc (tag : Z) : Z := tag .& NOT_CONSTRUCTED.

(** An element in DER, if its contents is not too long for the builder. *)
Definition der_octets (tag : Z) (x : list Z) : option (list Z) :=
  if zlen x <=? 0xfffffffe then Some (der_element tag x) else None.

Definition concat_map_opt {A} (f : A -> option (list Z)) : list A -> option (list Z) :=
  fix go l := match l with [] => Some [] | a :: l => x ← f a; y ← go l; Some (x ++ y) end.

(** The contents of the pieces of a string, all of which must have its tag. *)
Fixpoint pieces (base : Z) (t : ber_tree) : option (list Z) :=
  match t with
  | Prim tag c => if notc tag =? base then Some c else None
  | Cons tag ts => if notc tag =? base then concat_map_opt (pieces base) ts else None
  end.

Fixpoint der (t : ber_tree) : option (list Z) :=
  match t with
  | Prim tag c => der_octets tag c
  | Cons tag ts =>
      if is_string_type tag then x ← concat_map_opt (pieces (notc tag)) ts; der_octets (notc tag) x
      else x ← concat_map_opt der ts; der_octets tag x
  end.

Definition forest_der (ts : list ber_tree) : option (list Z) := concat_map_opt der ts.

(** ** The converter on octets *)

(** The string tag for the elements of the contents, and the tag of the element
    that is written, if one is. *)
Definition target (base tag : Z) : option (Z * option Z) :=
  if negb (base =? 0) then if notc tag =? base then Some (base, None) else None
  else if is_constructed tag && is_string_type tag then Some (notc tag, Some (notc tag))
  else Some (base, Some tag).

Definition finish_target (ot : option Z) (x : list Z) : option (list Z) :=
  match ot with None => Some x | Some tag => der_octets tag x end.

(** What is left of the input and what is written. *)
Fixpoint conv (fuel : nat) (in_ : CBS) (base : Z) (looking : bool) (depth : Z) : option (CBS * list Z) :=
  if negb (CBS_len in_ >? 0) then if looking then None else Some (in_, [])
  else match fuel with
  | O => None
  | S fuel =>
      if looking && fst (cbs_get_eoc in_) then Some (snd (cbs_get_eoc in_), [])
      else match CBS_get_any_ber_asn1_element in_ with
      | (None, _) => None
      | (Some el, in_) =>
          let depth' := u32 (depth + 1) in
          '(cb, ot) ← target base (el_tag el);
          '(in_, x) ←
            (if el_indefinite el then
               if depth' >? kMaxDepth then None else conv fuel in_ cb true depth'
             else
               match CBS_skip (el_header_len el) (el_out el) with
               | (None, _) => None
               | (Some _, contents) =>
                   if is_constructed (el_tag el) then
                     if depth' >? kMaxDepth then None
                     else '(_, x) ← conv fuel contents cb false depth'; Some (in_, x)
                   else Some (in_, contents)
               end);
          y ← finish_target ot x;
          '(rest, z) ← conv fuel in_ base looking depth;
          Some (rest, y ++ z)
      end
  end.


(** The value of a forest at a place where strings of tag [base] are joined. *)
Definition value1 (base : Z) (t : ber_tree) : option (list Z) := if base =? 0 then der t else pieces base t.
Definition value (base : Z) (ts : list ber_tree) : option (list Z) := concat_map_opt (value1 base) ts.

Lemma value_0 ts : value 0 ts = forest_der ts.
Proof. done. Qed.

Lemma value_pieces base ts : base <> 0 -> value base ts = concat_map_opt (pieces base) ts.
Proof.
  intros Hb. unfold value, value1. rewrite (proj2 (Z.eqb_neq base 0) Hb). done.
Qed.

Lemma string_type_notc tag : is_string_type tag = true -> notc tag <> 0.
Proof.
  unfold is_string_type. fold (notc tag). intros H E. rewrite E in H. vm_compute in H. discriminate.
Qed.

(** ** Octets *)

Lemma tag_octets_head tag : valid_tag tag -> exists b l, tag_octets tag = b :: l /\ b <> 0.
Proof.
  intros (Ht & H0 & H1). unfold tag_octets. change (2 ^ 32) with 4294967296 in *. change (2 ^ 29) with 536870912 in *.
  destruct (Z.ltb_spec (tag mod 536870912) 31); eexists _, _; split; try reflexivity; dlia.
Qed.

Lemma cbs_get_eoc_spec s : cbs_get_eoc s =
  match s with 0 :: 0 :: rest => (true, rest) | _ => (false, s) end.
Proof.
  unfold cbs_get_eoc, CBS_len, CBS_data. destruct s as [|a [|b s]].
  - done.
  - by destruct a.
  - rewrite !zlen_cons. pose proof (zlen_nonneg s). rewrite Z.geb_leb, (proj2 (Z.leb_le 2 _)) by lia. cbn [andb].
    change (znth 0 (a :: b :: s) 0) with a. change (znth 0 (a :: b :: s) 1) with b.
    destruct a; cbn [Z.eqb andb]; [|done..]. destruct b; cbn [Z.eqb andb]; [|done..].
    assert (Hskip : CBS_skip 2 (0 :: 0 :: s) = (Some tt, s)) by (apply CBS_skip_Some; [lia|by exists [0; 0]]).
    by rewrite Hskip.
Qed.

Lemma encodes_head t x : encodes t x -> exists b l, x = b :: l /\ b <> 0.
Proof.
  destruct 1 as [tag L c Ht _ _|tag L ts x Ht _ _ _|tag ts x Ht _ _];
    destruct (tag_octets_head tag Ht) as (b & l & -> & Hb); eauto.
Qed.

Lemma eoc_not_element t x s : encodes t x -> cbs_get_eoc (x ++ s) = (false, x ++ s).
Proof.
  intros Hx. destruct (encodes_head t x Hx) as (b & l & -> & Hb). rewrite cbs_get_eoc_spec. cbn [app].
  destruct b; done.
Qed.

(** ** The converter accepts the encodings of forests *)

Lemma value1_cons base tag ts : is_constructed tag = true ->
  value1 base (Cons tag ts) = ('(cb, ot) ← target base tag; x ← value cb ts; finish_target ot x).
Proof.
  intros Hc. unfold value1, target. rewrite Hc. cbn [andb]. destruct (Z.eqb_spec base 0) as [->|Hb]; cbn [negb].
  - cbn [der]. destruct (is_string_type tag) eqn:Hs; cbn [mbind option_bind].
    + by rewrite value_pieces by (by apply string_type_notc).
    + done.
  - cbn [pieces]. destruct (notc tag =? base); cbn [mbind option_bind]; [|done]. rewrite value_pieces by done.
    by destruct (concat_map_opt (pieces base) ts).
Qed.

Lemma value1_prim base tag c : is_constructed tag = false ->
  value1 base (Prim tag c) = ('(cb, ot) ← target base tag; finish_target ot c).
Proof.
  intros Hc. unfold value1, target. rewrite Hc. cbn [andb]. destruct (Z.eqb_spec base 0) as [->|Hb]; cbn [negb]; [done|].
  cbn [pieces]. by destruct (notc tag =? base).
Qed.

Lemma value_more base t ts : value base (t :: ts) = (x ← value1 base t; y ← value base ts; Some (x ++ y)).
Proof. done. Qed.

Lemma skip_header h c n : zlen h = n -> CBS_skip n (h ++ c) = (Some tt, c).
Proof. intros <-. apply CBS_skip_Some; [apply zlen_nonneg|]. eauto. Qed.

(** What follows a forest in the input. *)
Definition closes (looking : bool) (rest : list Z) : list Z := if looking then [0; 0] ++ rest else rest.

Lemma forest_depth_nonneg ts : 0 <= forest_depth ts.
Proof. unfold forest_depth. induction ts as [|t ts IH]; cbn; lia. Qed.

Lemma forest_depth_cons t ts : forest_depth (t :: ts) = Z.max (tree_depth t) (forest_depth ts).
Proof. done. Qed.
Lemma tree_depth_cons tag ts : tree_depth (Cons tag ts) = 1 + forest_depth ts.
Proof. done. Qed.

(** A call that recurses has a depth within the limit. *)
Lemma depth_step depth : 0 <= depth <= 128 -> u32 (depth + 1) = depth + 1.
Proof. intros. unfold u32. apply Z.mod_small. lia. Qed.

Definition conv_sound_at (fuel : nat) : Prop := forall in_ base looking depth rest x,
  bytes_ok in_ -> 0 <= depth <= 128 -> conv fuel in_ base looking depth = Some (rest, x) ->
  exists ts body, all_encode ts body /\ in_ = body ++ closes looking rest /\ (looking = false -> rest = []) /\
    depth + forest_depth ts <= 128 /\ value base ts = Some x.

(** The children of an element and the forest they make. *)
Lemma conv_child_sound fuel in_ cb looking depth rest x : conv_sound_at fuel -> bytes_ok in_ -> 0 <= depth <= 128 ->
  (if u32 (depth + 1) >? kMaxDepth then None else conv fuel in_ cb looking (u32 (depth + 1))) = Some (rest, x) ->
  exists ts body, all_encode ts body /\ in_ = body ++ closes looking rest /\ (looking = false -> rest = []) /\
    depth + 1 + forest_depth ts <= 128 /\ value cb ts = Some x.
Proof.
  intros IH Hin Hd. rewrite depth_step by done. unfold kMaxDepth. destruct (Z.gtb_spec (depth + 1) 128); [done|].
  intros E. apply IH in E; [|done|lia]. destruct E as (ts & body & ? & ? & ? & ? & ?). eauto 10.
Qed.

Lemma conv_sound fuel : conv_sound_at fuel.
Proof.
  induction fuel as [|fuel IH]; intros in_ base looking depth rest x Hin Hd E; cbn [conv] in E.
  all: destruct (CBS_len in_ >? 0) eqn:Hlen; cbn [negb] in E.
  2,4: assert (in_ = []) as -> by (apply zlen_0_nil; unfold CBS_len in Hlen; pose proof (zlen_nonneg in_); lia);
    destruct looking; [done|]; injection E as <- <-; exists [], []; pose proof (forest_depth_nonneg []);
    split_and!; try done; [constructor|cbn; lia].
  1: done.
  destruct (looking && fst (cbs_get_eoc in_)) eqn:Heoc.
  { apply andb_true_iff in Heoc as [-> Heoc]. rewrite cbs_get_eoc_spec in *.
    destruct in_ as [|[| |] [|[| |] s]]; try done. injection E as <- <-. exists [], []. split_and!; try done; [constructor|cbn; lia]. }
  destruct (CBS_get_any_ber_asn1_element in_) as [[el|] in'] eqn:Hel; [|done].
  apply ber_element_sound in Hel; [|done]. destruct (target base (el_tag el)) as [[cb ot]|] eqn:Htg; [|done].
  cbn [mbind option_bind] in E.
  assert (Hmore : forall t h in2 y z, h ++ in2 = in_ -> encodes t h -> value1 base t = Some y -> depth + tree_depth t <= 128 ->
    conv fuel in2 base looking depth = Some (rest, z) -> x = y ++ z ->
    exists ts body, all_encode ts body /\ in_ = body ++ closes looking rest /\ (looking = false -> rest = []) /\
      depth + forest_depth ts <= 128 /\ value base ts = Some x).
  { intros t h in2 y z <- Ht Hv Htd E2 ->. apply Forall_app in Hin as [_ Hin2].
    apply IH in E2; [|done|done]. destruct E2 as (ts & body & Hts & -> & Hr & Hfd & Hvs).
    exists (t :: ts), (h ++ body). rewrite forest_depth_cons, value_more, Hv, Hvs, <- app_assoc.
    split_and!; try done; [by constructor|lia]. }
  destruct Hel as [tag L c s' Htag HL|tag s' Htag Hcons];
    cbn [el_indefinite el_header_len el_out el_tag] in *; cbv iota in E.
  - rewrite app_assoc, (skip_header (tag_octets tag ++ L) c _ eq_refl) in E.
    apply Forall_app in Hin as [Hhc Hs']. rewrite !Forall_app in Hhc. destruct Hhc as (_ & _ & Hc).
    assert (Hrest : forall t y, encodes t (tag_octets tag ++ L ++ c) -> value1 base t = Some y -> depth + tree_depth t <= 128 ->
      ('(rest, z) ← conv fuel s' base looking depth; Some (rest, y ++ z)) = Some (rest, x) ->
      exists ts body, all_encode ts body /\ (tag_octets tag ++ L ++ c) ++ s' = body ++ closes looking rest /\
        (looking = false -> rest = []) /\ depth + forest_depth ts <= 128 /\ value base ts = Some x).
    { intros t y Ht Hv Htd E2. destruct (conv fuel s' base looking depth) as [[r z]|] eqn:E3; [|done].
      injection E2 as -> <-. by apply (Hmore t (tag_octets tag ++ L ++ c) s' y z). }
    destruct (is_constructed tag) eqn:Hcons.
    + pose proof (conv_child_sound fuel c cb false depth) as Hch.
      destruct (if u32 (depth + 1) >? kMaxDepth then None else conv fuel c cb false (u32 (depth + 1))) as [[r1 x1]|] eqn:Hk.
      2:{ destruct (u32 (depth + 1) >? kMaxDepth); [done|]. by rewrite Hk in E. }
      destruct (Hch r1 x1 IH Hc Hd eq_refl) as (ts & body & Hts & -> & Hr & Hfd & Hvs). rewrite (Hr eq_refl) in *.
      destruct (u32 (depth + 1) >? kMaxDepth); [done|]. rewrite Hk in E. cbn [mbind option_bind] in E.
      destruct (finish_target ot x1) as [y|] eqn:Hy; [|done]. cbn [mbind option_bind] in E.
      apply (Hrest (Cons tag ts) y); [|rewrite value1_cons, Htg by done; cbn; by rewrite Hvs|rewrite tree_depth_cons; lia|done].
      unfold closes in *. rewrite app_nil_r in *. by apply enc_cons.
    + cbn [mbind option_bind] in E. destruct (finish_target ot c) as [y|] eqn:Hy; [|done]. cbn [mbind option_bind] in E.
      apply (Hrest (Prim tag c) y); [by apply enc_prim|rewrite value1_prim, Htg by done; cbn; by rewrite Hy|cbn; lia|done].
  - pose proof (conv_child_sound fuel s' cb true depth) as Hch.
    destruct (if u32 (depth + 1) >? kMaxDepth then None else conv fuel s' cb true (u32 (depth + 1))) as [[r1 x1]|] eqn:Hk; [|done].
    cbn [mbind option_bind] in E. destruct (finish_target ot x1) as [y|] eqn:Hy; [|done]. cbn [mbind option_bind] in E.
    apply Forall_app in Hin as Hin'. destruct Hin' as [_ Hs'].
    destruct (Hch r1 x1 IH Hs' Hd eq_refl) as (ts & body & Hts & -> & _ & Hfd & Hvs).
    destruct (conv fuel r1 base looking depth) as [[r z]|] eqn:E3; [|done]. injection E as -> <-.
    apply (Hmore (Cons tag ts) (tag_octets tag ++ [128] ++ body ++ [0; 0]) r1 y z); [|by apply enc_indefinite| | |done|done].
    + unfold closes. by rewrite <- !app_assoc.
    + rewrite value1_cons, Htg by done. cbn. by rewrite Hvs.
    + rewrite tree_depth_cons. lia.
Qed.

Definition conv_complete_at (fuel : nat) : Prop := forall ts body base looking depth rest x,
  all_encode ts body -> bytes_ok (body ++ closes looking rest) -> (length (body ++ closes looking rest) <= fuel)%nat ->
  (looking = false -> rest = []) -> 0 <= depth -> depth + forest_depth ts <= 128 -> value base ts = Some x ->
  conv fuel (body ++ closes looking rest) base looking depth = Some (rest, x).

Lemma value_more_Some base t ts x : value base (t :: ts) = Some x ->
  exists y z, value1 base t = Some y /\ value base ts = Some z /\ x = y ++ z.
Proof.
  rewrite value_more. destruct (value1 base t) as [y|]; [|done]. cbn. destruct (value base ts) as [z|]; [|done].
  intros [= <-]. eauto.
Qed.

Lemma conv_more fuel t h s base looking depth : encodes t h ->
  conv (S fuel) (h ++ s) base looking depth =
  match CBS_get_any_ber_asn1_element (h ++ s) with
  | (None, _) => None
  | (Some el, in_) =>
      let depth' := u32 (depth + 1) in
      '(cb, ot) ← target base (el_tag el);
      '(in_, x) ←
        (if el_indefinite el then
           if depth' >? kMaxDepth then None else conv fuel in_ cb true depth'
         else
           match CBS_skip (el_header_len el) (el_out el) with
           | (None, _) => None
           | (Some _, contents) =>
               if is_constructed (el_tag el) then
                 if depth' >? kMaxDepth then None
                 else '(_, x) ← conv fuel contents cb false depth'; Some (in_, x)
               else Some (in_, contents)
           end);
      y ← finish_target ot x;
      '(rest, z) ← conv fuel in_ base looking depth;
      Some (rest, y ++ z)
  end.
Proof.
  intros Ht. cbn [conv]. rewrite (eoc_not_element t) by done. cbn [fst snd]. rewrite andb_false_r.
  destruct (encodes_head t h Ht) as (b & l & -> & _). unfold CBS_len. cbn [app]. rewrite zlen_cons.
  destruct (Z.gtb_spec (1 + zlen (l ++ s)) 0); [done|]. zlen_pos. lia.
Qed.

Lemma conv_complete fuel : conv_complete_at fuel.
Proof.
  induction fuel as [|fuel IH]; intros ts body base looking depth rest x Hts Hok Hlen Hrest Hd Hfd Hx;
    destruct Hts as [|t ts h body Ht Hts].
  - destruct looking; [cbn in Hlen; lia|]. rewrite (Hrest eq_refl) in *. by injection Hx as <-.
  - exfalso. destruct (encodes_head t h Ht) as (b & l & -> & _). rewrite <- !app_assoc, length_app in Hlen. cbn in Hlen. lia.
  - injection Hx as <-. destruct looking; [|by rewrite Hrest].
    cbn [conv app closes]. rewrite cbs_get_eoc_spec. unfold CBS_len. rewrite !zlen_cons.
    destruct (Z.gtb_spec (1 + (1 + zlen rest)) 0); [done|]. zlen_pos. lia.
  - apply value_more_Some in Hx as (y & z & Hy & Hz & ->). rewrite forest_depth_cons in Hfd.
    rewrite <- app_assoc in *. rewrite (conv_more _ t) by done.
    apply Forall_app in Hok as Hok'. destruct Hok' as [Hh Hs]. rewrite length_app in Hlen.
    assert (Hlast : forall y', (length (body ++ closes looking rest) <= fuel)%nat ->
      ('(rest0, z0) ← conv fuel (body ++ closes looking rest) base looking depth; Some (rest0, y' ++ z0)) = Some (rest, y' ++ z)).
    { intros y' Hl. by rewrite (IH ts body base looking depth rest z) by (done || lia). }
    assert (Hh1 : (1 <= length h)%nat) by (destruct (encodes_head t h Ht) as (b & l & -> & _); cbn; lia).
    assert (Hdep : forall tag ts', t = Cons tag ts' -> (u32 (depth + 1) >? kMaxDepth) = false /\
      u32 (depth + 1) = depth + 1 /\ depth + 1 + forest_depth ts' <= 128).
    { intros tag ts' ->. rewrite tree_depth_cons in Hfd. pose proof (forest_depth_nonneg ts').
      rewrite depth_step by lia. unfold kMaxDepth. split_and!; [|done|lia]. destruct (Z.gtb_spec (depth + 1) 128); [lia|done]. }
    destruct Ht as [tag L c Htag Hcons HL|tag L ts' c Htag Hcons Hts' HL|tag ts' c Htag Hcons Hts'].
    + rewrite (ber_element_complete _ _ _ Hok (read_definite tag L c _ Htag HL)). cbv zeta.
      cbn [el_tag el_indefinite el_header_len el_out]. rewrite app_assoc, (skip_header _ _ _ eq_refl), Hcons.
      rewrite value1_prim in Hy by done. destruct (target base tag) as [[cb ot]|]; [|done]. cbn [mbind option_bind] in *.
      rewrite Hy. cbn [mbind option_bind]. apply Hlast. lia.
    + destruct (Hdep tag ts' eq_refl) as (E1 & E2 & E3).
      rewrite (ber_element_complete _ _ _ Hok (read_definite tag L c _ Htag HL)). cbv zeta.
      cbn [el_tag el_indefinite el_header_len el_out]. rewrite app_assoc, (skip_header _ _ _ eq_refl), Hcons, E1, E2.
      rewrite value1_cons in Hy by done. destruct (target base tag) as [[cb ot]|]; [|done]. cbn [mbind option_bind] in *.
      destruct (value cb ts') as [x'|] eqn:Hv; [|done]. cbn [mbind option_bind] in Hy.
      rewrite !Forall_app in Hh. destruct Hh as (_ & _ & Hc).
      assert (HlL : (1 <= length L)%nat) by (apply ber_length_bound in HL as (_ & HL & _); unfold zlen in HL; lia).
      rewrite !length_app in Hlen.
      pose proof (IH ts' c cb false (depth + 1) [] x' Hts') as Hc'. unfold closes in Hc'. rewrite app_nil_r in Hc'.
      rewrite Hc' by (done || lia). cbn [mbind option_bind]. rewrite Hy. cbn [mbind option_bind]. apply Hlast. rewrite length_app. lia.
    + destruct (Hdep tag ts' eq_refl) as (E1 & E2 & E3).
      replace ((tag_octets tag ++ [128] ++ c ++ [0; 0]) ++ body ++ closes looking rest)
        with ((tag_octets tag ++ [128]) ++ (c ++ [0; 0] ++ body ++ closes looking rest)) in * by (by rewrite <- !app_assoc).
      rewrite (ber_element_complete _ _ _ Hok (read_indefinite tag _ Htag Hcons)). cbv zeta.
      cbn [el_tag el_indefinite]. rewrite E1, E2.
      rewrite value1_cons in Hy by done. destruct (target base tag) as [[cb ot]|]; [|done]. cbn [mbind option_bind] in *.
      destruct (value cb ts') as [x'|] eqn:Hv; [|done]. cbn [mbind option_bind] in Hy.
      rewrite !length_app in Hlen. rewrite !Forall_app in Hh. destruct Hh as (_ & _ & Hc & _). cbn [length] in Hlen.
      pose proof (IH ts' c cb true (depth + 1) (body ++ closes looking rest) x' Hts') as Hc'.
      change (closes true (body ++ closes looking rest)) with ([0; 0] ++ body ++ closes looking rest) in Hc'.
      assert (Hc0 : bytes_ok (c ++ [0; 0] ++ body ++ closes looking rest))
        by (apply Forall_app; split; [done|]; apply Forall_app; split; [repeat constructor; lia|done]).
      rewrite Hc'; [|done|rewrite !length_app; cbn [length]; lia|done|lia|lia|done].
      cbn [mbind option_bind]. rewrite Hy. cbn [mbind option_bind]. apply Hlast. rewrite length_app. lia.
Qed.
