(* ===== verification/BerWrite.v ===== *)
(** * What the BER converter writes (theorems about cbs_convert_ber)

    The converter is a parser that writes to a builder as it goes. Here it is
    shown to do the same as a function on octets that has no builder: what it
    returns is what the function returns, and what it adds to its output object
    is what the function says, as long as there is room. *)

From S2P Require Import Prelude Words Mem Der Cbs CbsFacts Cbb CbbFacts CbbAsn1 CbbBuilder Ber BerElement BerTree.

(** ** Calls that may fail for their input *)

Section Does.
Context `{Allocator}.

(** A call returns a result and leaves the frames given, or fails; it also fails
    when there is no room. *)
Definition does {A} (d : nat) (r : option A * cbb_st) (st : cbb_st) (o : option (A * list frame)) : Prop :=
  match o with
  | Some (a, fs) => result d r st a fs
  | None => rejected r
  end.

Lemma does_bind {A B} d (m : M cbb_st A) (k : A -> M cbb_st B) st o1 o2 :
  does d (m st) st o1 ->
  (forall a fs st', o1 = Some (a, fs) -> rep st' fs -> keeps d st st' -> does d (k a st') st' o2) ->
  (forall a fs c fs', o1 = Some (a, fs) -> o2 = Some (c, fs') -> zlen (flat fs) <= zlen (flat fs')) ->
  does d (bind m k st) st (_ ← o1; o2).
Proof.
  intros Hm Hk Hsize. destruct o1 as [[a fs]|]; cbn [mbind option_bind] in *.
  - unfold does in *. destruct o2 as [[c fs']|].
    + eapply result_bind; [exact Hm|by eapply Hsize|done|]. intros st' Hrep Hkp. by eapply Hk.
    + eapply rejected_bind; [exact Hm|]. intros st' Hrep Hkp. by eapply Hk.
  - unfold does, rejected, bind in *. by destruct (m st) as [[?|] ?].
Qed.

Lemma does_weaken {A} d d' (r : option A * cbb_st) st o : does d r st o -> (d' <= d)%nat -> does d' r st o.
Proof. unfold does. destruct o as [[a fs]|]; [apply result_weaken|done]. Qed.

(** A child is opened and used by [k]. *)
Lemma does_opens {B} d (m : M cbb_st CBB) (k : CBB -> M cbb_st B) st f1 ll asn1 o :
  opens d (m st) st f1 ll asn1 ->
  (forall n st', rep st' (f1 ++ [new_frame n ll asn1]) -> keeps d st st' -> depth n st' = Some (S d) -> does d (k n st') st' o) ->
  (forall c fs', o = Some (c, fs') -> zlen (flat f1) + ll <= zlen (flat fs')) ->
  does d (bind m k st) st o.
Proof.
  intros Hm Hk Hsize. unfold does in *. destruct o as [[c fs']|].
  - eapply opens_bind; [exact Hm|by eapply Hsize|]. intros n st' Hrep Hkp Hn. by apply Hk.
  - unfold rejected, bind in *. destruct (m st) as [[n|] st']; [|done].
    destruct Hm as (Hrep & Hkp & Hn & _). by apply Hk.
Qed.

(** The result of a call that adds octets to its object. *)
Definition add_to {A} (fs : list frame) (o : option (A * list Z)) : option (A * list frame) :=
  '(a, x) ← o; Some (a, fapp fs x).

Lemma add_to_size {A} fs (o : option (A * list Z)) c fs' : fs <> [] -> add_to fs o = Some (c, fs') ->
  zlen (flat fs) <= zlen (flat fs').
Proof.
  intros Hne. unfold add_to. destruct o as [[a x]|]; cbn; [|done]. intros [= <- <-].
  rewrite flat_fapp_size by done. zlen_pos. lia.
Qed.

Lemma add_to_app {A} fs x (o : option (A * list Z)) :
  add_to (fapp fs x) o = add_to fs ('(a, z) ← o; Some (a, x ++ z)).
Proof. unfold add_to. destruct o as [[a z]|]; cbn; [|done]. by rewrite fapp_fapp. Qed.

(** A flush and what follows it. *)
Lemma does_flush {A} h st f d (k : unit -> M cbb_st A) (o : option (A * list Z)) :
  rep st f -> depth h st = Some d ->
  (forall fs st', fflush d f = Some fs -> rep st' fs -> depth h st' = Some d -> length fs = S d ->
     does d (k tt st') st' (add_to fs o)) ->
  does d (bind (CBB_flush h) k st) st (fs ← fflush d f; add_to fs o).
Proof.
  intros Hrep Hd Hk. pose proof (depth_bound _ _ _ _ Hrep Hd) as Hlt.
  destruct (fflush d f) as [fs|] eqn:Hf; cbn [mbind option_bind].
  2:{ unfold does. by apply (flush_rejected h st f d). }
  pose proof (fflush_length _ _ _ Hlt Hf) as Hlen. assert (Hne : fs <> []) by (by destruct fs).
  pose proof (CBB_flush_result h st f d Hrep Hd) as Hr. rewrite Hf in Hr. destruct Hr as [Hr _].
  apply (does_bind d _ _ st (Some (tt, fs)) (add_to fs o)); [exact Hr| |].
  - intros u fs' st' [= <- <-] Hrep' Hkp. apply Hk; [done|done|by apply Hkp|done].
  - intros u fs' c fs3 [= <- <-] E. by eapply add_to_size.
Qed.
End Does.

(** ** One element *)

Section Convert.
Context `{Allocator}.

Lemma notc_range tag : valid_tag tag -> 0 <= notc tag < 2 ^ 32.
Proof. intros [Ht _]. unfold notc. apply land_bound; [lia|done|done]. Qed.

(** One element: its target is opened, filled by [k] and flushed. *)
Lemma element_outcome {A B} h base tag st fs d (K : CBB * Z -> M cbb_st A) (k : CBB -> Z -> M cbb_st B)
    (k2 : B -> M cbb_st A) (o : Z -> option (B * list Z)) (o2 : B -> option (A * list Z)) :
  valid_tag tag -> rep st fs -> depth h st = Some d -> length fs = S d ->
  (forall c cb st', K (c, cb) st' = (let* b := k c cb in CBB_flush h ;;; k2 b) st') ->
  (forall c cb st' fs' d', rep st' fs' -> depth c st' = Some d' -> length fs' = S d' ->
     does d' (k c cb st') st' (add_to fs' (o cb))) ->
  (forall cb b x st' fs', o cb = Some (b, x) -> rep st' fs' -> depth h st' = Some d -> length fs' = S d ->
     does d (k2 b st') st' (add_to fs' (o2 b))) ->
  does d ((let* p := convert_target h base tag in K p) st) st
    (add_to fs ('(cb, ot) ← target base tag; '(b, x) ← o cb; y ← finish_target ot x; '(a, z) ← o2 b; Some (a, y ++ z))).
Proof.
  intros Htag Hrep Hd Hlen HK Hk Hk2. assert (Hne : fs <> []) by (by destruct fs).
  assert (Hafter : forall cb b x0 x f st', o cb = Some (b, x0) -> rep st' f -> depth h st' = Some d -> fflush d f = Some (fapp fs x) ->
    does d ((CBB_flush h ;;; k2 b) st') st' (add_to fs ('(a, z) ← o2 b; Some (a, x ++ z)))).
  { intros cb b x0 x f st' Ho Hrep' Hd' Hf. rewrite <- add_to_app.
    pose proof (does_flush h st' f d (fun _ => k2 b) (o2 b) Hrep' Hd') as Hfl. rewrite Hf in Hfl. cbn [mbind option_bind] in Hfl.
    apply Hfl. intros fs' st2 [= <-] Hrep2 Hd2 Hlen2. by apply (Hk2 cb b x0). }
  unfold convert_target, target. destruct (negb (base =? 0)) eqn:Hb.
  - unfold bind at 1 2, guard. rewrite negb_involutive. change (tag .& NOT_CONSTRUCTED) with (notc tag).
    destruct (notc tag =? base); cbn [mbind option_bind]; [|done]. unfold ret. rewrite HK.
    specialize (Hk h base st fs d Hrep Hd Hlen). destruct (o base) as [[b x]|] eqn:Ho; cbn [mbind option_bind finish_target] in *.
    2:{ unfold does, rejected, bind, add_to in *. cbn in *. by destruct (k h base st) as [[?|] ?]. }
    eapply (does_bind d _ _ st (Some (b, fapp fs x)) (add_to fs _)); [exact Hk| |].
    + intros b' fs' st' [= <- <-] Hrep' Hkp. apply (Hafter base b x x (fapp fs x)); [done|done|by apply Hkp|].
      by apply fflush_last; rewrite length_fapp.
    + intros b' fs' c fs3 [= <- <-]. rewrite <- add_to_app. apply add_to_size. by apply fapp_not_nil.
  - assert (Hopen : forall ot cb, 0 <= ot < 2 ^ 32 ->
      does d ((let* oc := CBB_add_asn1 h ot in K (oc, cb)) st) st
        (add_to fs ('(b, x) ← o cb; y ← der_octets ot x; '(a, z) ← o2 b; Some (a, y ++ z)))).
    { intros ot cb Hot. pose proof (CBB_add_asn1_opens h ot st fs d fs Hrep Hd (fflush_last fs d Hlen) Hot) as Hop.
      set (f1 := fapp fs (tag_octets ot)) in *. assert (Hl1 : length f1 = S d) by (unfold f1; by rewrite length_fapp).
      assert (Hne1 : f1 <> []) by (by destruct f1).
      eapply does_opens; [exact Hop| |].
      - intros n st' Hrep' Hkp Hn. rewrite HK.
        specialize (Hk n cb st' _ (S d) Hrep' Hn ltac:(rewrite length_app, Hl1; cbn; lia)).
        unfold add_to in Hk. destruct (o cb) as [[b x]|] eqn:Ho; cbn [mbind option_bind] in *.
        2:{ unfold does, rejected, bind in *. by destruct (k n cb st') as [[?|] ?]. }
        rewrite fapp_new in Hk. apply (does_weaken _ d) in Hk; [|lia].
        eapply (does_bind d _ _ st' (Some (b, _))); [exact Hk| |].
        + intros b' f st2 [= <- <-] Hrep2 Hkp2.
          pose proof (Hkp2 _ _ (Hkp _ _ Hd (le_n _)) (le_n _)) as Hd2.
          pose proof (fflush_snoc d f1 n 1 true x Hl1) as Hfl. unfold length_field in Hfl. unfold der_octets.
          destruct (zlen x <=? 0xfffffffe); cbn [mbind option_bind] in *.
          * apply (Hafter cb b x (der_element ot x) _ st2 Ho Hrep2 Hd2). rewrite Hfl. f_equal. unfold f1, der_element, der_header.
            by rewrite fapp_fapp, <- app_assoc.
          * apply (flush_rejected h st2 (f1 ++ [mk_frame n 1 true x]) d); done.
        + intros b' f c fs3 [= <- <-]. unfold der_octets.
          destruct (zlen x <=? 0xfffffffe) eqn:Hx; cbn [mbind option_bind]; [|done].
          destruct (o2 b) as [[a z]|]; cbn; [|done]. intros [= <- <-]. unfold f1.
          rewrite flat_child_size, !flat_fapp_size, zlen_app by done. unfold der_element, der_header. rewrite !zlen_app.
          pose proof (zlen_length_octets (zlen x)). zlen_pos. lia.
      - intros c fs'. unfold add_to. destruct (o cb) as [[b x]|]; cbn; [|done]. unfold der_octets.
        destruct (zlen x <=? 0xfffffffe); cbn; [|done]. destruct (o2 b) as [[a z]|]; cbn; [|done]. intros [= <- <-].
        unfold f1. rewrite !flat_fapp_size, zlen_app by done. unfold der_element, der_header. rewrite !zlen_app.
        pose proof (zlen_length_octets (zlen x)). zlen_pos. lia. }
    change (tag .& NOT_CONSTRUCTED) with (notc tag).
    destruct (is_constructed tag && is_string_type tag); cbn [mbind option_bind finish_target].
    + specialize (Hopen (notc tag) (notc tag) (notc_range tag Htag)).
      unfold bind at 1 2. unfold bind at 1 in Hopen. destruct (CBB_add_asn1 h (notc tag) st) as [[oc|] st']; exact Hopen.
    + specialize (Hopen tag base ltac:(by destruct Htag)).
      unfold bind at 1 2. unfold bind at 1 in Hopen. destruct (CBB_add_asn1 h tag st) as [[oc|] st']; exact Hopen.
Qed.

Lemma over_depth dep : 0 <= dep <= 128 -> u32 (dep + 1) >? kMaxDepth = false -> 0 <= u32 (dep + 1) <= 128.
Proof. intros Hd. rewrite depth_step by done. unfold kMaxDepth. destruct (Z.gtb_spec (dep + 1) 128); [done|lia]. Qed.

Definition outcome_at (fuel : nat) : Prop := forall in_ h base looking dep st fs d,
  bytes_ok in_ -> rep st fs -> depth h st = Some d -> length fs = S d -> 0 <= dep <= 128 ->
  does d (convert_ber_loop fuel in_ h base looking dep st) st (add_to fs (conv fuel in_ base looking dep)).

(** The contents of an element of definite length. *)
Definition write_contents (fuel : nat) (tag : Z) (c : CBS) (dep : Z) (oc : CBB) (cb : Z) : M cbb_st unit :=
  if is_constructed tag then
    let* _ := if u32 (dep + 1) >? kMaxDepth then fail else convert_ber_loop fuel c oc cb false (u32 (dep + 1)) in ret tt
  else CBB_add_bytes oc c.

Lemma write_contents_outcome fuel tag c dep oc cb st fs d : outcome_at fuel -> bytes_ok c -> zlen c < 2 ^ 32 -> 0 <= dep <= 128 ->
  rep st fs -> depth oc st = Some d -> length fs = S d ->
  does d (write_contents fuel tag c dep oc cb st) st (add_to fs
    (if is_constructed tag then
       if u32 (dep + 1) >? kMaxDepth then None else '(_, x) ← conv fuel c cb false (u32 (dep + 1)); Some (tt, x)
     else Some (tt, c))).
Proof.
  intros IH Hc Hlc Hdep Hrep Hd Hlen. unfold write_contents. destruct (is_constructed tag).
  - pose proof (over_depth dep Hdep) as Hover. destruct (u32 (dep + 1) >? kMaxDepth); [done|].
    specialize (IH c oc cb false (u32 (dep + 1)) st fs d Hc Hrep Hd Hlen (Hover eq_refl)).
    unfold add_to in *. destruct (conv fuel c cb false (u32 (dep + 1))) as [[r x]|]; cbn [mbind option_bind] in *.
    + eapply result_bind; [exact IH|done|done|]. intros st2 Hrep2 _. by apply result_ret.
    + unfold does, rejected, bind in *. by destruct (convert_ber_loop _ _ _ _ _ _ st) as [[?|] ?].
  - apply (CBB_add_bytes_result oc st fs); [done|done|by apply fflush_last|lia].
Qed.

Lemma convert_ber_loop_outcome fuel : outcome_at fuel.
Proof.
  induction fuel as [|fuel IH]; intros in_ h base looking dep st fs d Hin Hrep Hd Hlen Hdep;
    cbn [convert_ber_loop conv]; destruct (CBS_len in_ >? 0); cbn [negb].
  2,4: destruct looking; [done|]; unfold add_to; cbn [mbind option_bind]; rewrite fapp_nil; by apply result_ret.
  { done. }
  destruct (looking && fst (cbs_get_eoc in_)).
  { unfold add_to. cbn [mbind option_bind]. rewrite fapp_nil. by apply result_ret. }
  destruct (CBS_get_any_ber_asn1_element in_) as [[el|] in'] eqn:Hel.
  2:{ unfold add_to, does, rejected, bind, on. by rewrite Hel. }
  rewrite (bind_step _ _ _ (el, in') st) by (unfold on; by rewrite Hel). cbv zeta.
  apply ber_element_sound in Hel; [|done].
  destruct Hel as [tag L c s' Htag HL|tag s' Htag Hcons]; cbn [el_tag el_indefinite el_header_len el_out] in *.
  - apply Forall_app in Hin as [Hhc Hs']. rewrite !Forall_app in Hhc. destruct Hhc as (_ & _ & Hc).
    rewrite app_assoc, (skip_header _ _ _ eq_refl).
    pose proof (element_outcome h base tag st fs d
      (fun p => let '(oc, cb) := p in
         let* '(_, contents) := on ((tag_octets tag ++ L) ++ c) (CBS_skip (zlen (tag_octets tag ++ L))) in
         write_contents fuel tag contents dep oc cb ;;;
         CBB_flush h ;;; convert_ber_loop fuel s' h base looking dep)
      (write_contents fuel tag c dep)
      (fun _ => convert_ber_loop fuel s' h base looking dep)
      (fun cb => if is_constructed tag then
          if u32 (dep + 1) >? kMaxDepth then None else '(_, x) ← conv fuel c cb false (u32 (dep + 1)); Some (tt, x)
        else Some (tt, c))
      (fun _ => conv fuel s' base looking dep) Htag Hrep Hd Hlen) as He.
    assert (Hend : forall o1 o2 : option (CBS * list Z), o1 = o2 -> add_to fs o1 = add_to fs o2) by (by intros ?? ->).
    erewrite Hend; [apply He|].
    + intros oc cb st'. by rewrite (bind_step _ _ _ (tt, c) st') by (unfold on; by rewrite (skip_header _ _ _ eq_refl)).
    + intros oc cb st' fs' d' Hrep' Hd' Hlen'. apply write_contents_outcome; try done. apply ber_length_bound in HL. lia.
    + intros cb b x st' fs' _ Hrep' Hd' Hlen'. by apply IH.
    + destruct (target base tag) as [[cb ot]|]; [|done]. cbn [mbind option_bind]. destruct (is_constructed tag); [|done].
      destruct (u32 (dep + 1) >? kMaxDepth); [done|]. by destruct (conv fuel c cb false (u32 (dep + 1))) as [[r x]|].
  - apply Forall_app in Hin as [_ Hs'].
    pose proof (over_depth dep Hdep) as Hover.
    apply (element_outcome h base tag st fs d
      (fun p => let '(oc, cb) := p in
         let* in_ := if u32 (dep + 1) >? kMaxDepth then fail else convert_ber_loop fuel s' oc cb true (u32 (dep + 1)) in
         CBB_flush h ;;; convert_ber_loop fuel in_ h base looking dep)
      (fun oc cb => if u32 (dep + 1) >? kMaxDepth then fail else convert_ber_loop fuel s' oc cb true (u32 (dep + 1)))
      (fun in_ => convert_ber_loop fuel in_ h base looking dep)
      (fun cb => if u32 (dep + 1) >? kMaxDepth then None else conv fuel s' cb true (u32 (dep + 1)))
      (fun in_ => conv fuel in_ base looking dep) Htag Hrep Hd Hlen).
    + done.
    + intros oc cb st' fs' d' Hrep' Hd' Hlen'. destruct (u32 (dep + 1) >? kMaxDepth); [done|]. apply IH; [done..|by apply Hover].
    + intros cb b x st' fs' Hb Hrep' Hd' Hlen'. destruct (u32 (dep + 1) >? kMaxDepth); [done|].
      apply conv_sound in Hb as (ts & body & _ & Hb & _); [|done|by apply Hover]. rewrite Hb in Hs'.
      apply IH; [|done..]. unfold closes in Hs'. rewrite !Forall_app in Hs'. by destruct Hs' as (_ & _ & Hb').
Qed.
End Convert.
