(* ===== verification/BerFacts.v ===== *)
(** * What the octets of BER encode (theorems about cbs_find_ber)

    DER as sequences of minimal elements, on which the check for BER answers no and
    on nothing else; and the proof that octets are the encoding of one forest. *)

From S2P Require Import Prelude Words Mem Der Cbs CbsFacts Cbb CbbFacts CbbAsn1 CbbBuilder Ber BerElement BerTree BerWrite.

(** ** DER forests *)

(** Sequences of DER elements nested at most [n] deep, without constructed strings. *)
Inductive der_forest : Z -> list Z -> Prop :=
  | df_nil n : der_forest n []
  | df_prim n tag c y : valid_tag tag -> is_constructed tag = false -> zlen c < 2 ^ 32 ->
      der_forest n y -> der_forest n (der_element tag c ++ y)
  | df_cons n tag x y : valid_tag tag -> is_constructed tag = true -> is_string_type tag = false -> zlen x < 2 ^ 32 ->
      0 < n -> der_forest (n - 1) x -> der_forest n y -> der_forest n (der_element tag x ++ y).

Lemma der_forest_weaken n m x : n <= m -> der_forest n x -> der_forest m x.
Proof.
  intros Hle H. revert m Hle.
  induction H as [n|n tag c y Htag Hcons Hc Hy IH|n tag x y Htag Hcons Hstr Hx Hn Hin IH1 Hy IH2]; intros m Hle.
  - apply df_nil.
  - apply df_prim; [done..|by apply IH].
  - apply df_cons; [done..|lia|apply IH1; lia|by apply IH2].
Qed.

(** The definite-length reading of a DER element. *)
Lemma ber_read_der tag c s : valid_tag tag -> zlen c < 2 ^ 32 ->
  ber_read (der_element tag c ++ s)
    (mk_element (der_element tag c) tag (zlen (der_header tag (zlen c))) false false) s.
Proof.
  intros Htag Hc. pose proof (read_definite tag (length_octets (zlen c)) c s Htag) as Hr.
  rewrite bool_decide_true in Hr by done. cbn [negb] in Hr. unfold der_element, der_header.
  rewrite <- (app_assoc (tag_octets tag) (length_octets _) c).
  apply Hr. apply ber_length_der. pose proof (zlen_nonneg c). lia.
Qed.

(** A reading that found no BER is that of a DER element. *)
Lemma ber_read_no_ber s el s' : ber_read s el s' -> el_ber_found el = false ->
  exists c, valid_tag (el_tag el) /\ zlen c < 2 ^ 32 /\ s = der_element (el_tag el) c ++ s' /\
    el_out el = der_element (el_tag el) c /\ el_header_len el = zlen (der_header (el_tag el) (zlen c)).
Proof.
  destruct 1 as [tag L c s' Htag HL|tag s' Htag Hcons]; cbn [el_ber_found el_tag el_out el_header_len]; [|done].
  rewrite negb_false_iff, bool_decide_eq_true. intros ->. exists c. apply ber_length_bound in HL as (Hlen & _).
  unfold der_element, der_header. rewrite <- !app_assoc. split_and!; try done; lia.
Qed.

Lemma der_element_length tag c : (length c < length (der_element tag c))%nat.
Proof. unfold der_element, der_header. rewrite !length_app. pose proof (zlen_tag_octets tag). unfold zlen in *. lia. Qed.

Lemma der_element_cons tag c s : exists b l, der_element tag c ++ s = b :: l.
Proof. pose proof (der_element_length tag c). destruct (der_element tag c) as [|b l]; [cbn in *; lia|]. eauto. Qed.

Lemma find_ber_loop_nil fuel depth : find_ber_loop fuel [] depth = Some false.
Proof. by destruct fuel. Qed.

Lemma find_ber_loop_der fuel tag c s depth : valid_tag tag -> zlen c < 2 ^ 32 -> bytes_ok (der_element tag c ++ s) ->
  find_ber_loop (S fuel) (der_element tag c ++ s) depth =
  if is_constructed tag then
    if is_string_type tag then Some true
    else match (if u32 (depth + 1) >? kMaxDepth then None else find_ber_loop fuel c (u32 (depth + 1))) with
         | None => None
         | Some true => Some true
         | Some false => find_ber_loop fuel s depth
         end
  else find_ber_loop fuel s depth.
Proof.
  intros Htag Hc Hok. cbn [find_ber_loop]. unfold CBS_len. destruct (der_element_cons tag c s) as (b & l & E).
  replace (zlen (der_element tag c ++ s) >? 0) with true by (rewrite E, zlen_cons; symmetry; apply Z.gtb_lt; zlen_pos; lia).
  cbn [negb]. rewrite (ber_element_complete _ _ _ Hok (ber_read_der tag c s Htag Hc)).
  cbn [el_ber_found el_tag el_header_len el_out]. rewrite der_skip_header. done.
Qed.

Lemma find_ber_sound fuel : forall in_ depth, bytes_ok in_ -> 0 <= depth <= 128 ->
  find_ber_loop fuel in_ depth = Some false -> der_forest (128 - depth) in_.
Proof.
  induction fuel as [|fuel IH]; intros in_ depth Hin Hd E.
  { cbn [find_ber_loop] in E. destruct in_ as [|b l]; [constructor|]. unfold CBS_len in E. rewrite zlen_cons in E.
    destruct (Z.gtb_spec (1 + zlen l) 0); [done|]. pose proof (zlen_nonneg l). lia. }
  destruct in_ as [|b l] eqn:Ein; [constructor|]. rewrite <- Ein in *. assert (Hne : CBS_len in_ >? 0 = true).
  { rewrite Ein. unfold CBS_len. rewrite zlen_cons. apply Z.gtb_lt. zlen_pos. lia. }
  pose proof E as E0. cbn [find_ber_loop] in E0. rewrite Hne in E0. cbn [negb] in E0.
  destruct (CBS_get_any_ber_asn1_element in_) as [[el|] s] eqn:Hel; [|done].
  destruct (el_ber_found el) eqn:Hbf; [done|]. apply ber_element_sound in Hel; [|done].
  destruct (ber_read_no_ber _ _ _ Hel Hbf) as (c & Htag & Hc & -> & _ & _). clear E0 Hne Ein b l Hel Hbf.
  rewrite find_ber_loop_der in E by done. apply Forall_app in Hin as [He Hs].
  unfold der_element in He. apply Forall_app in He as [_ Hc'].
  destruct (is_constructed (el_tag el)) eqn:Hcons; [|constructor; auto].
  destruct (is_string_type (el_tag el)) eqn:Hstr; [done|]. rewrite depth_step in E by done. unfold kMaxDepth in E.
  destruct (Z.gtb_spec (depth + 1) 128); [done|]. destruct (find_ber_loop fuel c (depth + 1)) as [[|]|] eqn:Ec; [done| |done].
  apply df_cons; [done..|lia| |by apply IH]. replace (128 - depth - 1) with (128 - (depth + 1)) by lia. by apply IH; [..|lia|].
Qed.

Lemma find_ber_complete fuel : forall in_ depth, bytes_ok in_ -> (length in_ <= fuel)%nat -> 0 <= depth <= 128 ->
  der_forest (128 - depth) in_ -> find_ber_loop fuel in_ depth = Some false.
Proof.
  induction fuel as [|fuel IH]; intros in_ depth Hin Hl Hd Hf.
  { destruct in_; [done|cbn in Hl; lia]. }
  inversion Hf as [n|n tag c y Htag Hcons Hc Hy|n tag c y Htag Hcons Hstr Hc Hn Hx Hy]; subst; [apply find_ber_loop_nil|..].
  all: rewrite find_ber_loop_der by done; rewrite Hcons; rewrite length_app in Hl; pose proof (der_element_length tag c);
    apply Forall_app in Hin as [He Hs].
  - apply IH; [done|lia|done|done].
  - rewrite Hstr, depth_step by done. unfold kMaxDepth. destruct (Z.gtb_spec (depth + 1) 128); [lia|].
    unfold der_element in He. apply Forall_app in He as [_ Hc']. rewrite (IH c (depth + 1)); [|done|lia|lia|].
    + apply IH; [done|lia|done|done].
    + by replace (128 - (depth + 1)) with (128 - depth - 1) by lia.
Qed.

(** The check as a decision procedure for DER. *)
Lemma cbs_find_ber_spec in_ : bytes_ok in_ -> cbs_find_ber in_ 0 = Some false <-> der_forest 128 in_.
Proof.
  intros Hin. unfold cbs_find_ber. change (0 >? kMaxDepth) with false. cbv iota. split.
  - apply (find_ber_sound _ in_ 0); [done|lia].
  - by apply (find_ber_complete _ in_ 0); [..|lia|].
Qed.

(** ** Forests and their octets *)

Scheme encodes_min := Minimality for encodes Sort Prop
  with all_encode_min := Minimality for all_encode Sort Prop.
Combined Scheme encodes_mutual from encodes_min, all_encode_min.

(** Two readings of the same octets are the same. *)
Lemma ber_read_fun s el1 s1 el2 s2 : bytes_ok s -> ber_read s el1 s1 -> ber_read s el2 s2 -> el1 = el2 /\ s1 = s2.
Proof. intros Hs H1 H2. apply ber_element_complete in H1, H2; [|done..]. rewrite H1 in H2. by injection H2. Qed.

(** What the element reader sees of a tree. *)
Definition first_read (t : ber_tree) (x s : list Z) : Prop :=
  match t with
  | Prim tag c => is_constructed tag = false /\ exists el h, ber_read (x ++ s) el s /\ x = h ++ c /\
      el_tag el = tag /\ el_indefinite el = false /\ el_out el = x /\ el_header_len el = zlen h
  | Cons tag ts => is_constructed tag = true /\ exists el h c, all_encode ts c /\
      (ber_read (x ++ s) el s /\ x = h ++ c /\ el_indefinite el = false /\ el_out el = x /\ el_header_len el = zlen h \/
       ber_read (x ++ s) el (c ++ [0; 0] ++ s) /\ x = h ++ c ++ [0; 0] /\ el_indefinite el = true /\ el_out el = h) /\
      el_tag el = tag
  end.

Lemma encodes_first_read t x s : encodes t x -> first_read t x s.
Proof.
  destruct 1 as [tag L c Htag Hc HL|tag L ts x Htag Hc Hx HL|tag ts x Htag Hc Hx]; cbn [first_read]; (split; [done|]).
  - eexists _, (tag_octets tag ++ L). rewrite <- (app_assoc (tag_octets tag) L c).
    split; [by apply read_definite|]. by split_and!.
  - eexists _, (tag_octets tag ++ L), x. rewrite <- (app_assoc (tag_octets tag) L x). split; [done|].
    split; [left; split; [by apply read_definite|by split_and!]|done].
  - eexists _, (tag_octets tag ++ [128]), x. split; [done|].
    replace ((tag_octets tag ++ [128] ++ x ++ [0; 0]) ++ s) with ((tag_octets tag ++ [128]) ++ x ++ [0; 0] ++ s)
      by (by rewrite <- !app_assoc).
    split; [right; split; [by apply read_indefinite|]|done]. rewrite <- app_assoc. by split_and!.
Qed.

Lemma closes_not_element t x s r : encodes t x -> closes true r <> x ++ s.
Proof. intros Hx E. destruct (encodes_head t x Hx) as (b & l & -> & Hb). injection E as E _. congruence. Qed.

Lemma same_header {h h' c c' : list Z} : h ++ c = h' ++ c' -> zlen h = zlen h' -> c = c'.
Proof. intros E Hz. apply app_inj_1 in E; [by destruct E|]. unfold zlen in Hz. lia. Qed.

(** Octets are read in one way. *)
Lemma encoding_unique :
  (forall t x, encodes t x -> forall t' x' s s', encodes t' x' -> x ++ s = x' ++ s' -> bytes_ok (x ++ s) -> t = t' /\ x = x') /\
  (forall ts x, all_encode ts x -> forall ts' x' looking r r', all_encode ts' x' ->
     x ++ closes looking r = x' ++ closes looking r' -> (looking = false -> r = [] /\ r' = []) ->
     bytes_ok (x ++ closes looking r) -> ts = ts' /\ x = x').
Proof.
  apply encodes_mutual.
  - intros tag L c Htag Hcons HL t' x' s s' Ht' E Hok. pose proof (read_definite tag L c s Htag HL) as Hr.
    apply (encodes_first_read t' x' s') in Ht'. rewrite E in *.
    destruct t' as [tag' c'|tag' ts']; cbn [first_read] in Ht'.
    + destruct Ht' as (_ & el & h & Hr' & Hx' & <- & _ & Ho & Hh). destruct (ber_read_fun _ _ _ _ _ Hok Hr Hr') as [<- _].
      cbn [el_tag el_out el_header_len] in *. split; [|done]. f_equal. rewrite <- Ho, app_assoc in Hx'. by apply (same_header Hx').
    + destruct Ht' as (Hc' & el & h & c' & _ & [(Hr' & _)|(Hr' & _)] & <-);
        destruct (ber_read_fun _ _ _ _ _ Hok Hr Hr') as [<- _]; cbn [el_tag] in Hc'; congruence.
  - intros tag L ts x Htag Hcons Hx IH HL t' x' s s' Ht' E Hok. pose proof (read_definite tag L x s Htag HL) as Hr.
    apply (encodes_first_read t' x' s') in Ht'. rewrite E in *.
    destruct t' as [tag' c'|tag' ts']; cbn [first_read] in Ht'.
    + destruct Ht' as (Hc' & el & h & Hr' & _ & <- & _). destruct (ber_read_fun _ _ _ _ _ Hok Hr Hr') as [<- _].
      cbn [el_tag] in *. congruence.
    + destruct Ht' as (_ & el & h & c & Hc & [(Hr' & Hx' & _ & Ho & Hh)|(Hr' & _ & Hi & _)] & <-);
        destruct (ber_read_fun _ _ _ _ _ Hok Hr Hr') as [<- _]; cbn [el_tag el_out el_header_len el_indefinite] in *; [|done].
      rewrite <- Ho, app_assoc in Hx'. split; [|done]. f_equal. pose proof (same_header Hx' Hh) as ->.
      apply (IH ts' c false [] []); try done. unfold closes. rewrite app_nil_r.
      rewrite <- E, !Forall_app in Hok. by destruct Hok as [(_ & _ & ?) _].
  - intros tag ts x Htag Hcons Hx IH t' x' s s' Ht' E Hok.
    pose proof (read_indefinite tag (x ++ [0; 0] ++ s) Htag Hcons) as Hr.
    apply (encodes_first_read t' x' s') in Ht'.
    replace ((tag_octets tag ++ [128] ++ x ++ [0; 0]) ++ s) with ((tag_octets tag ++ [128]) ++ x ++ [0; 0] ++ s) in *
      by (by rewrite <- !app_assoc). rewrite E in *.
    destruct t' as [tag' c'|tag' ts']; cbn [first_read] in Ht'.
    + destruct Ht' as (Hc' & el & h & Hr' & _ & <- & _). destruct (ber_read_fun _ _ _ _ _ Hok Hr Hr') as [<- _].
      cbn [el_tag] in *. congruence.
    + destruct Ht' as (_ & el & h & c & Hc & [(Hr' & _ & Hi & _)|(Hr' & -> & _ & Ho)] & <-);
        destruct (ber_read_fun _ _ _ _ _ Hok Hr Hr') as [<- Es]; cbn [el_tag el_out el_indefinite] in *; [done|].
      rewrite <- E in Hok. rewrite Forall_app in Hok. destruct Hok as [_ Hok].
      destruct (IH ts' c true s s' Hc Es) as [-> ->]; [done|done|]. split; [done|]. by rewrite <- Ho, <- app_assoc.
  - intros ts' x' looking r r' Hts' E Hr Hok. destruct Hts' as [|t ts x' y' Ht Hts]; [done|]. exfalso.
    rewrite <- app_assoc in E. destruct looking; [by apply (closes_not_element _ _ _ _ Ht E)|].
    destruct (Hr eq_refl) as [-> _]. destruct (encodes_head _ _ Ht) as (b & l & -> & _). done.
  - intros t ts x y Ht IHt Hts IHts ts' x' looking r r' Hts' E Hr Hok. rewrite <- app_assoc in *.
    destruct Hts' as [|t' ts' x' y' Ht' Hts'].
    { exfalso. destruct looking; [symmetry in E; by apply (closes_not_element _ _ _ _ Ht E)|].
      destruct (Hr eq_refl) as [_ ->]. destruct (encodes_head _ _ Ht) as (b & l & -> & _). done. }
    rewrite <- app_assoc in E. destruct (IHt t' x' _ _ Ht' E Hok) as [<- <-]. apply app_inv_head in E.
    apply Forall_app in Hok as [_ Hok]. by destruct (IHts ts' y' looking r r' Hts' E Hr Hok) as [<- <-].
Qed.

Lemma forest_unique ts ts' x : bytes_ok x -> all_encode ts x -> all_encode ts' x -> ts = ts'.
Proof.
  intros Hx H1 H2. destruct encoding_unique as [_ Hu].
  apply (Hu ts x H1 ts' x false [] [] H2); [done..|]. unfold closes. by rewrite app_nil_r.
Qed.

Lemma ber_read_header_len s el s' : ber_read s el s' -> 1 <= el_header_len el.
Proof.
  destruct 1 as [tag L c s' Htag HL|tag s' Htag Hcons]; cbn [el_header_len]; pose proof (zlen_tag_octets tag);
    rewrite zlen_app; zlen_pos; lia.
Qed.

(** The check says that something must be converted or that nothing must. *)
Lemma find_ber_total fuel : forall ts in_ depth, all_encode ts in_ -> bytes_ok in_ -> (length in_ <= fuel)%nat ->
  0 <= depth -> depth + forest_depth ts <= 128 -> exists b, find_ber_loop fuel in_ depth = Some b.
Proof.
  induction fuel as [|fuel IH]; intros ts in_ depth Hts Hin Hl Hd Hfd.
  { destruct in_; [eauto|cbn in Hl; lia]. }
  destruct Hts as [|t ts h y Ht Hts]; [eauto|]. rewrite forest_depth_cons in Hfd.
  pose proof (encodes_first_read t h y Ht) as Hr. destruct (encodes_head t h Ht) as (b0 & l0 & Eh & _).
  cbn [find_ber_loop]. unfold CBS_len.
  replace (zlen (h ++ y) >? 0) with true by (rewrite Eh; cbn [app]; rewrite zlen_cons; symmetry; apply Z.gtb_lt; zlen_pos; lia).
  cbn [negb]. rewrite length_app in Hl. apply Forall_app in Hin as Hin'. destruct Hin' as [Hh Hy].
  assert (Hrest : (length y <= fuel)%nat) by (rewrite Eh in Hl; cbn in Hl; lia).
  destruct (IH ts y depth Hts Hy Hrest Hd ltac:(lia)) as (b & Hb).
  destruct t as [tag c|tag us]; cbn [first_read] in Hr.
  - destruct Hr as (Hcons & el & hd & Hr & _ & <- & _). rewrite (ber_element_complete _ _ _ Hin Hr), Hcons, Hb.
    destruct (el_ber_found el); eauto.
  - destruct Hr as (Hcons & el & hd & c & Hus & [(Hr & Eh' & _ & Ho & Hhl)|(Hr & _ & Hi & _)] & <-);
      rewrite (ber_element_complete _ _ _ Hin Hr); (destruct (el_ber_found el) eqn:Hbf; [eauto|]).
    2:{ inversion Hr; subst; done. }
    rewrite Hcons. destruct (is_string_type (el_tag el)); [eauto|]. rewrite tree_depth_cons in Hfd.
    pose proof (forest_depth_nonneg us). rewrite Ho, Eh', (skip_header _ _ _ (eq_sym Hhl)). cbv zeta. rewrite depth_step by lia.
    unfold kMaxDepth. destruct (Z.gtb_spec (depth + 1) 128); [lia|]. rewrite Eh' in Hh, Hl. apply Forall_app in Hh as [_ Hc].
    rewrite length_app in Hl.
    destruct (IH us c (depth + 1) Hus Hc) as (b' & Hb'); [|lia|lia|rewrite Hb'; destruct b'; eauto].
    pose proof (ber_read_header_len _ _ _ Hr). unfold zlen in *. lia.
Qed.

(** The check is a decision of DER: it answers no exactly on sequences of DER
    elements, without constructed strings, nested at most 128 deep; and on the
    octets of BER elements within that depth it always answers. *)
Theorem cbs_find_ber_exact in_ : bytes_ok in_ ->
  (cbs_find_ber in_ 0 = Some false <-> der_forest 128 in_) /\
  forall ts, all_encode ts in_ -> forest_depth ts <= 128 -> cbs_find_ber in_ 0 <> None.
Proof.
  intros Hin. split; [by apply cbs_find_ber_spec|]. intros ts Hts Hd.
  destruct (find_ber_total (length in_) ts in_ 0) as [b Hb]; [done|done|lia|lia|lia|].
  unfold cbs_find_ber. change (0 >? kMaxDepth) with false. cbv iota. by rewrite Hb.
Qed.

Lemma cbs_find_ber_exact_witness : cbs_find_ber [0x30; 3; 2; 1; 5] 0 = Some false.
Proof.
  apply (cbs_find_ber_exact [0x30; 3; 2; 1; 5]); [repeat constructor; lia|].
  apply (df_cons 128 0x20000010 [2; 1; 5] []); [vm_compute; intuition discriminate|reflexivity..| |constructor].
  apply (df_prim _ 2 [5] []); [vm_compute; intuition discriminate|reflexivity..|constructor].
Defined.
