(* ===== verification/BerDer.v ===== *)
(** * The conversion of BER to DER as a function (theorems about CBS_asn1_ber_to_der)

    The conversion succeeds exactly on the octets of BER forests within the limit
    on the depth, and returns their DER, which it leaves alone the next time. *)

From S2P Require Import Prelude Words Mem Der Cbs CbsFacts Cbb CbbFacts CbbAsn1 CbbBuilder.
From S2P Require Import Ber BerElement BerTree BerWrite BerFacts.

(** ** The DER of a forest *)

Lemma der_octets_Some tag x y : der_octets tag x = Some y -> y = der_element tag x /\ zlen x <= 0xfffffffe.
Proof. unfold der_octets. destruct (Z.leb_spec (zlen x) 0xfffffffe); [|done]. by intros [= <-]. Qed.

Lemma target_Some base tag cb ot : target base tag = Some (cb, ot) ->
  ot = None \/ ot = Some tag \/ ot = Some (notc tag).
Proof.
  unfold target. destruct (negb (base =? 0)); [destruct (notc tag =? base); [|done]|destruct (is_constructed tag && is_string_type tag)];
    intros [= <- <-]; auto.
Qed.

Lemma der_element_size tag x : zlen (der_element tag x) <= zlen x + 16.
Proof.
  unfold der_element, der_header. rewrite !zlen_app. pose proof (zlen_tag_octets tag).
  pose proof (zlen_length_octets (zlen x)). lia.
Qed.

Lemma finish_target_size ot x y : finish_target ot x = Some y -> zlen y <= zlen x + 16.
Proof.
  destruct ot as [tag|]; cbn [finish_target]; [|intros [= <-]; lia].
  intros [-> _]%der_octets_Some. apply der_element_size.
Qed.

(** The DER of a forest is not much longer than its octets. *)
Lemma value_size :
  (forall t x, encodes t x -> forall base y, value1 base t = Some y -> zlen y <= 8 * zlen x) /\
  (forall ts x, all_encode ts x -> forall base y, value base ts = Some y -> zlen y <= 8 * zlen x).
Proof.
  apply encodes_mutual.
  - intros tag L c Htag Hcons HL base y. rewrite value1_prim by done.
    destruct (target base tag) as [[cb ot]|]; cbn [mbind option_bind]; [|done]. intros Hy%finish_target_size.
    apply ber_length_bound in HL as (_ & HL & _). pose proof (zlen_tag_octets tag). rewrite !zlen_app. zlen_pos. lia.
  - intros tag L ts x Htag Hcons _ IH HL base y. rewrite value1_cons by done.
    destruct (target base tag) as [[cb ot]|]; cbn [mbind option_bind]; [|done].
    destruct (value cb ts) as [z|] eqn:Hz; cbn [mbind option_bind]; [|done]. intros Hy%finish_target_size. apply IH in Hz.
    apply ber_length_bound in HL as (_ & HL & _). pose proof (zlen_tag_octets tag). rewrite !zlen_app. lia.
  - intros tag ts x Htag Hcons _ IH base y. rewrite value1_cons by done.
    destruct (target base tag) as [[cb ot]|]; cbn [mbind option_bind]; [|done].
    destruct (value cb ts) as [z|] eqn:Hz; cbn [mbind option_bind]; [|done]. intros Hy%finish_target_size. apply IH in Hz.
    pose proof (zlen_tag_octets tag). rewrite !zlen_app. change (zlen [128]) with 1. change (zlen [0; 0]) with 2. lia.
  - intros base y [= <-]. done.
  - intros t ts x y _ IHt _ IHts base z (y1 & y2 & H1 & H2 & ->)%value_more_Some. apply IHt in H1. apply IHts in H2.
    rewrite !zlen_app. lia.
Qed.

Lemma notc_not_constructed tag : 0 <= tag < 2 ^ 32 -> is_constructed (notc tag) = false.
Proof.
  intros Ht. unfold is_constructed, notc, NOT_CONSTRUCTED, CBS_ASN1_CONSTRUCTED.
  rewrite <- Z.land_assoc. change (_ .& _) with 0 at 2. by rewrite Z.land_0_r.
Qed.

Lemma string_tag_valid tag : is_string_type tag = true -> valid_tag (notc tag) /\ is_string_type (notc tag) = true.
Proof.
  unfold is_string_type. fold (notc tag) (notc (notc tag)). rewrite existsb_exists. intros (k & Hk & ->%Z.eqb_eq).
  repeat (destruct Hk as [<-|Hk]; [split; [vm_compute; intuition discriminate|reflexivity]|]). done.
Qed.

Lemma forest_der_more_Some t ts x : forest_der (t :: ts) = Some x ->
  exists y z, der t = Some y /\ forest_der ts = Some z /\ x = y ++ z.
Proof. apply (value_more_Some 0). Qed.

(** What the conversion of a forest gives is DER. *)
Lemma der_is_der :
  (forall t o, encodes t o -> forall n y s, der t = Some y -> tree_depth t <= n -> der_forest n s -> der_forest n (y ++ s)) /\
  (forall ts o, all_encode ts o -> forall n y, forest_der ts = Some y -> forest_depth ts <= n -> der_forest n y).
Proof.
  assert (Hcase : forall tag ts, valid_tag tag -> is_constructed tag = true ->
    (forall n y, forest_der ts = Some y -> forest_depth ts <= n -> der_forest n y) ->
    forall n y s, der (Cons tag ts) = Some y -> tree_depth (Cons tag ts) <= n -> der_forest n s -> der_forest n (y ++ s)).
  { intros tag ts Htag Hcons IH n y s Hy Hn Hs. rewrite tree_depth_cons in Hn. pose proof (forest_depth_nonneg ts).
    cbn [der] in Hy. destruct (is_string_type tag) eqn:Hstr.
    - destruct (string_tag_valid tag Hstr) as [Hv _]. destruct (concat_map_opt _ ts) as [x|]; [|done].
      apply der_octets_Some in Hy as [-> Hx]. apply df_prim; [done|by apply notc_not_constructed, Htag|lia|done].
    - fold (forest_der ts) in Hy. destruct (forest_der ts) as [x|]; [|done]. apply der_octets_Some in Hy as [-> Hx].
      apply df_cons; [done..|lia|lia|by apply IH; [|lia]|done]. }
  apply encodes_mutual.
  - intros tag L c Htag Hcons HL n y s [-> Hc]%der_octets_Some _ Hs. apply df_prim; [done..|lia|done].
  - intros tag L ts x Htag Hcons _ IH _. by apply Hcase.
  - intros tag ts x Htag Hcons _ IH. by apply Hcase.
  - intros n y [= <-] _. constructor.
  - intros t ts o o' Ht IHt Hts IHts n y (y1 & y2 & H1 & H2 & ->)%forest_der_more_Some. rewrite forest_depth_cons. intros Hn.
    apply IHt; [done|lia|]. apply IHts; [done|lia].
Qed.

(** DER is the encoding of a forest whose conversion changes nothing. *)
Lemma der_forest_encodes n x : 0 <= n -> der_forest n x -> zlen x <= 0xfffffffe ->
  exists ts, all_encode ts x /\ forest_depth ts <= n /\ forest_der ts = Some x.
Proof.
  intros Hn H. induction H as [n|n tag c y Htag Hcons Hc Hy IH|n tag x y Htag Hcons Hstr Hx Hn' Hin IH1 Hy IH2]; intros Hl.
  - exists []. split; [constructor|]. by split.
  - rewrite zlen_app in Hl. pose proof (zlen_nonneg (der_element tag c)).
    destruct (IH Hn ltac:(lia)) as (ts & Hts & Hd & Hf). exists (Prim tag c :: ts).
    assert (Hlc : zlen c <= 0xfffffffe) by (pose proof (der_element_length tag c); zlen_pos; unfold zlen in *; lia).
    split; [|split].
    + constructor; [|done]. unfold der_element, der_header. rewrite <- app_assoc. apply enc_prim; [done..|].
      apply ber_length_der. zlen_pos. lia.
    + rewrite forest_depth_cons. cbn [tree_depth]. lia.
    + change (forest_der (Prim tag c :: ts)) with (a ← der_octets tag c; b ← forest_der ts; Some (a ++ b)).
      unfold der_octets. rewrite (proj2 (Z.leb_le _ _)) by lia. cbn [mbind option_bind]. by rewrite Hf.
  - rewrite zlen_app in Hl. pose proof (der_element_length tag x). pose proof (zlen_nonneg y).
    assert (Hlx : zlen x <= 0xfffffffe) by (unfold zlen in *; lia).
    destruct (IH1 ltac:(lia) Hlx) as (us & Hus & Hdu & Hfu).
    destruct (IH2 Hn ltac:(pose proof (zlen_nonneg (der_element tag x)); lia)) as (ts & Hts & Hd & Hf). exists (Cons tag us :: ts).
    split; [|split].
    + constructor; [|done]. unfold der_element, der_header. rewrite <- app_assoc. apply enc_cons; [done..|].
      apply ber_length_der. zlen_pos. lia.
    + rewrite forest_depth_cons, tree_depth_cons. lia.
    + change (forest_der (Cons tag us :: ts)) with (a ← der (Cons tag us); b ← forest_der ts; Some (a ++ b)).
      cbn [der]. rewrite Hstr. fold (forest_der us). rewrite Hfu. cbn [mbind option_bind]. unfold der_octets.
      rewrite (proj2 (Z.leb_le _ _)) by lia. cbn [mbind option_bind]. by rewrite Hf.
Qed.

(** The converter is the DER of the forest. *)
Lemma conv_spec in_ rest x : bytes_ok in_ ->
  conv (length in_) in_ 0 false 0 = Some (rest, x) <->
  rest = [] /\ exists ts, all_encode ts in_ /\ forest_depth ts <= 128 /\ forest_der ts = Some x.
Proof.
  intros Hin. split.
  - intros E. apply conv_sound in E as (ts & body & Hts & Hb & Hr & Hd & Hv); [|done|lia].
    unfold closes in Hb. rewrite (Hr eq_refl), app_nil_r in Hb. subst body. split; [by apply Hr|]. by exists ts.
  - intros [-> (ts & Hts & Hd & Hv)].
    pose proof (conv_complete (length in_) ts in_ 0 false 0 [] x Hts) as Hc. unfold closes in Hc. rewrite app_nil_r in Hc.
    apply Hc; (done || lia).
Qed.

(** ** The conversion *)

Section Conversion.
Context `{Allocator}.

(** What is left of the input is handed on past the end of the builder. *)
Lemma finish_with {A} (m : M cbb_st A) st a x :
  result 0 (m st) st a (fapp [empty_root] x) ->
  match fst ((let* a := m in let* out := CBB_finish root true in ret (a, out)) st) with
  | Some (a', out) => a' = a /\ out = x
  | None => forall n, zlen x <= n -> ~ fits (base st) n
  end.
Proof.
  intros Hr.
  assert (Hu : result 0 ((m ;;; ret tt) st) st tt (fapp [empty_root] x)).
  { unfold result, bind, ret in *. destruct (m st) as [[a'|] st']; [|done]. by destruct Hr as (-> & ?). }
  apply finish_result in Hu. unfold bind, ret, result in *. destruct (m st) as [[a'|] st']; [|done].
  destruct Hr as [-> _]. destruct (CBB_finish root true st') as [[out|] st'']; cbn [fst] in *; [|done].
  by destruct Hu as [-> _].
Qed.

(** The part of [CBS_asn1_ber_to_der] after the check. *)
Definition convert_all (in_ : CBS) : option (CBS * list Z) :=
  match CBB_init (CBS_len in_) with
  | None => None
  | Some cbb => fst ((let* in_ := cbs_convert_ber in_ root 0 false 0 in
                      let* out_storage := CBB_finish root true in ret (in_, out_storage)) cbb)
  end.

Lemma CBS_asn1_ber_to_der_steps in_ : CBS_asn1_ber_to_der in_ =
  match cbs_find_ber in_ 0 with
  | None => None
  | Some false => '(out, _, _) ← fst (CBS_get_any_asn1_element in_);
                  Some (snd (CBS_get_any_asn1_element in_), out, None)
  | Some true => '(rest, out) ← convert_all in_; Some (rest, out, Some out)
  end.
Proof.
  unfold CBS_asn1_ber_to_der, convert_all. destruct (cbs_find_ber in_ 0) as [[|]|]; [| |done].
  - destruct (CBB_init (CBS_len in_)) as [cbb|]; [|done].
    destruct (bind _ _ cbb) as [[[rest out]|] st]; [|done]. unfold CBS_init. by rewrite ztake_all.
  - by destruct (CBS_get_any_asn1_element in_) as [[[[out ?] ?]|] rest].
Qed.

Lemma convert_all_spec in_ : bytes_ok in_ -> zlen in_ < 2 ^ 32 ->
  (forall rest out, convert_all in_ = Some (rest, out) ->
     rest = [] /\ exists ts, all_encode ts in_ /\ forest_depth ts <= 128 /\ forest_der ts = Some out) /\
  ((forall n, malloc_ok n = true) -> forall ts out, all_encode ts in_ -> forest_depth ts <= 128 ->
     forest_der ts = Some out -> convert_all in_ = Some ([], out)).
Proof.
  intros Hin Hlen. unfold convert_all. pose proof (zlen_nonneg in_). destruct (CBB_init (CBS_len in_)) as [st|] eqn:Hst.
  2:{ split; [done|]. intros Hm. apply CBB_init_ok in Hst; [done|done|unfold CBS_len; lia]. }
  destruct (CBB_init_rep (CBS_len in_) st) as (Hrep & Hres & Hcap); [unfold CBS_len; lia|done|].
  pose proof (convert_ber_loop_outcome (length in_) in_ root 0 false 0 st _ 0%nat Hin Hrep eq_refl eq_refl ltac:(lia)) as Ho.
  pose proof (conv_spec in_) as Hspec. unfold cbs_convert_ber. change (0 >? kMaxDepth) with false. cbv iota.
  destruct (conv (length in_) in_ 0 false 0) as [[rest x]|]; unfold add_to in Ho; cbn [mbind option_bind] in Ho.
  - apply finish_with in Ho. destruct (proj1 (Hspec rest x Hin) eq_refl) as (-> & ts & Hts & Hd & Hx).
    destruct (fst _) as [[a out]|].
    + destruct Ho as [-> ->]. split; [intros rest out [= <- <-]; eauto|].
      intros _ ts' out Hts' _ Hx'. rewrite (forest_unique ts' ts in_ Hin Hts' Hts) in Hx'. congruence.
    + split; [done|]. intros Hm ts' out _ _ _. exfalso. apply (Ho (zlen x)); [done|]. right. rewrite Hres, Hcap.
      pose proof (proj2 value_size ts in_ Hts 0 x Hx). unfold CBS_len. split_and!; (done || lia).
  - assert (E : fst ((let* in_ := convert_ber_loop (length in_) in_ root 0 false 0 in
                      let* out_storage := CBB_finish root true in ret (in_, out_storage)) st) = None).
    { unfold does, rejected in Ho. unfold bind at 1. by destruct (convert_ber_loop _ _ _ _ _ _ st) as [[?|] ?]. }
    rewrite E. split; [done|]. intros _ ts out Hts Hd Hx. by rewrite (proj2 (Hspec [] out Hin)) by eauto.
Qed.

(** [out] is the first DER element of [in_] and [rest] what follows it. *)
Definition first_element (in_ out rest : list Z) : Prop :=
  in_ = out ++ rest /\ exists tag c, valid_tag tag /\ zlen c < 2 ^ 32 /\ out = der_element tag c.

(** What [CBS_asn1_ber_to_der] may return on the octets of the forest [ts]. *)
Definition converted (in_ x rest out : list Z) (storage : option (list Z)) : Prop :=
  if decide (x = in_) then
    storage = None /\ first_element in_ out rest
  else storage = Some x /\ out = x /\ rest = [].

(** The check in terms of the forest. *)
Lemma find_ber_forest ts in_ x : bytes_ok in_ -> zlen in_ <= 0xfffffffe -> all_encode ts in_ -> forest_depth ts <= 128 ->
  forest_der ts = Some x -> cbs_find_ber in_ 0 = Some (negb (bool_decide (x = in_))).
Proof.
  intros Hin Hlen Hts Hd Hx. destruct (find_ber_total (length in_) ts in_ 0) as [b Hb]; [done|done|lia|lia|lia|].
  assert (Hb' : cbs_find_ber in_ 0 = Some b) by exact Hb. rewrite Hb'. f_equal. pose proof (cbs_find_ber_spec in_ Hin) as Hf.
  destruct b; rewrite Hb' in Hf; symmetry.
  - apply negb_true_iff, bool_decide_eq_false. intros ->.
    pose proof (proj2 der_is_der ts in_ Hts 128 in_ Hx Hd) as Hdf. by apply Hf in Hdf.
  - apply negb_false_iff, bool_decide_eq_true.
    destruct (der_forest_encodes 128 in_) as (ts' & Hts' & _ & Hx'); [lia|by apply Hf|done|].
    rewrite (forest_unique ts' ts in_ Hin Hts' Hts) in Hx'. congruence.
Qed.

(** The reader that the case without conversion uses. *)
Lemma get_any_element_iff in_ rest out : bytes_ok in_ ->
  (exists tag hl, CBS_get_any_asn1_element in_ = (Some (out, tag, hl), rest)) <->
  first_element in_ out rest.
Proof.
  intros Hin. split.
  - intros (tag & hl & E). apply get_element_iff in E as (c & Htag & Hc & -> & _ & ->); [|done]. unfold first_element. eauto 10.
  - intros (-> & tag & c & Htag & Hc & ->). exists tag, (zlen (der_header tag (zlen c))).
    apply get_element_iff; [done|]. exists c. by split_and!.
Qed.

Lemma CBS_asn1_ber_to_der_facts in_ : bytes_ok in_ -> zlen in_ <= 0xfffffffe ->
  (forall rest out storage, CBS_asn1_ber_to_der in_ = Some (rest, out, storage) ->
     exists ts x, all_encode ts in_ /\ forest_depth ts <= 128 /\ forest_der ts = Some x /\ converted in_ x rest out storage) /\
  ((forall n, malloc_ok n = true) -> forall ts x rest out storage, all_encode ts in_ -> forest_depth ts <= 128 ->
     forest_der ts = Some x -> converted in_ x rest out storage ->
     CBS_asn1_ber_to_der in_ = Some (rest, out, storage)).
Proof.
  intros Hin Hlen. rewrite CBS_asn1_ber_to_der_steps. destruct (convert_all_spec in_ Hin ltac:(lia)) as [Hsound Hcomp]. split.
  - intros rest out storage E. destruct (cbs_find_ber in_ 0) as [[|]|] eqn:Hf; [| |done].
    + destruct (convert_all in_) as [[r o]|]; [|done]. injection E as <- <- <-.
      destruct (Hsound r o eq_refl) as (-> & ts & Hts & Hd & Hx). exists ts, o. split_and!; try done.
      rewrite (find_ber_forest ts in_ o) in Hf by done. injection Hf as Hf. unfold converted.
      destruct (decide (o = in_)); [by rewrite bool_decide_true in Hf|done].
    + apply (proj1 (cbs_find_ber_spec in_ Hin)) in Hf.
      destruct (der_forest_encodes 128 in_) as (ts & Hts & Hd & Hx); [lia|done|done|].
      exists ts, in_. split_and!; try done. unfold converted. rewrite decide_True by done.
      destruct (CBS_get_any_asn1_element in_) as [[[[o t] hl]|] r] eqn:Hg; [|done]. injection E as <- <- <-.
      split; [done|]. apply get_any_element_iff; eauto.
  - intros Hm ts x rest out storage Hts Hd Hx Hc. rewrite (find_ber_forest ts in_ x) by done. unfold converted in Hc.
    destruct (decide (x = in_)) as [E|E].
    + rewrite bool_decide_true by done. cbn [negb]. destruct Hc as [-> Hc]. apply get_any_element_iff in Hc; [|done].
      destruct Hc as (tag & hl & Hg). by rewrite Hg.
    + rewrite bool_decide_false by done. cbn [negb]. destruct Hc as (-> & -> & ->).
      by rewrite (Hcomp Hm ts x).
Qed.

(** The DER of octets is octets. *)
Lemma value_bytes_ok :
  (forall t x, encodes t x -> bytes_ok x -> forall base y, value1 base t = Some y -> bytes_ok y) /\
  (forall ts x, all_encode ts x -> bytes_ok x -> forall base y, value base ts = Some y -> bytes_ok y).
Proof.
  assert (Hfin : forall base tag cb ot x y, valid_tag tag -> target base tag = Some (cb, ot) -> bytes_ok x ->
    finish_target ot x = Some y -> bytes_ok y).
  { intros base tag cb ot x y Htag Ht Hx Hy. unfold target in Ht. destruct (negb (base =? 0)).
    { destruct (notc tag =? base); [|done]. injection Ht as <- <-. by injection Hy as <-. }
    destruct (is_constructed tag && is_string_type tag) eqn:E; injection Ht as <- <-; apply der_octets_Some in Hy as [-> _];
      apply der_element_ok; try done. by apply andb_true_iff in E as [_ [? _]%string_tag_valid]. }
  apply encodes_mutual.
  - intros tag L c Htag Hcons HL Hx base y. rewrite value1_prim by done.
    destruct (target base tag) as [[cb ot]|] eqn:Ht; cbn [mbind option_bind]; [|done].
    rewrite !Forall_app in Hx. destruct Hx as (_ & _ & Hc). by apply (Hfin base tag cb).
  - intros tag L ts x Htag Hcons _ IH HL Hx base y. rewrite value1_cons by done.
    destruct (target base tag) as [[cb ot]|] eqn:Ht; cbn [mbind option_bind]; [|done].
    destruct (value cb ts) as [z|] eqn:Hz; cbn [mbind option_bind]; [|done].
    rewrite !Forall_app in Hx. destruct Hx as (_ & _ & Hc). apply (Hfin base tag cb); [done..|]. by apply (IH Hc cb).
  - intros tag ts x Htag Hcons _ IH Hx base y. rewrite value1_cons by done.
    destruct (target base tag) as [[cb ot]|] eqn:Ht; cbn [mbind option_bind]; [|done].
    destruct (value cb ts) as [z|] eqn:Hz; cbn [mbind option_bind]; [|done].
    rewrite !Forall_app in Hx. destruct Hx as (_ & _ & Hc & _). apply (Hfin base tag cb); [done..|]. by apply (IH Hc cb).
  - intros _ base y [= <-]. constructor.
  - intros t ts x y _ IHt _ IHts [Hx Hy]%Forall_app base z (y1 & y2 & H1 & H2 & ->)%value_more_Some.
    apply Forall_app. split; [by apply (IHt Hx base)|by apply (IHts Hy base)].
Qed.

(** DER that is not empty has a first element. *)
Lemma der_forest_first n x : der_forest n x -> x <> [] -> exists out rest, first_element x out rest.
Proof.
  destruct 1 as [n|n tag c y Htag Hcons Hc _|n tag c y Htag Hcons Hstr Hc _ _ _]; [done|..]; intros _;
    exists (der_element tag c), y; split; try done; by exists tag, c.
Qed.
End Conversion.

(** C11. [CBS_asn1_ber_to_der] is the conversion of BER to DER: it succeeds only
    on the octets of a forest of BER elements nested at most 128 deep whose
    constructed strings are made of pieces of their own tag. It returns the DER of
    the forest, in new storage and with nothing left to read, unless the octets
    are their own DER; then it returns their first element where it stands. When
    the allocator does not fail it succeeds on all of these, so malformed octets
    and octets nested deeper are exactly what is refused. *)
Theorem ber_to_der_exact `{Allocator} in_ : bytes_ok in_ -> zlen in_ <= 0xfffffffe ->
  (forall rest out storage, CBS_asn1_ber_to_der in_ = Some (rest, out, storage) ->
     exists ts x, all_encode ts in_ /\ forest_depth ts <= 128 /\ forest_der ts = Some x /\ converted in_ x rest out storage) /\
  ((forall n, malloc_ok n = true) -> forall ts x rest out storage, all_encode ts in_ -> forest_depth ts <= 128 ->
     forest_der ts = Some x -> converted in_ x rest out storage ->
     CBS_asn1_ber_to_der in_ = Some (rest, out, storage)).
Proof. apply CBS_asn1_ber_to_der_facts. Qed.

(** A constructed octet string of one piece, of indefinite length. *)
Lemma ber_to_der_exact_witness :
  let A := {| malloc_ok := fun _ => true; junk := fun _ => 7 |} in
  CBS_asn1_ber_to_der (H := A) [0x24; 0x80; 4; 1; 9; 0; 0] = Some ([], [4; 1; 9], Some [4; 1; 9]).
Proof.
  intros A. assert (Hb : bytes_ok [0x24; 0x80; 4; 1; 9; 0; 0]) by (repeat constructor; lia).
  destruct (ber_to_der_exact (H := A) _ Hb ltac:(vm_compute; discriminate)) as [_ Hall].
  apply (Hall ltac:(reflexivity) [Cons 0x20000004 [Prim 4 [9]]] [4; 1; 9]); [|vm_compute; discriminate|reflexivity|by vm_compute].
  apply (enc_more _ [] [0x24; 0x80; 4; 1; 9; 0; 0] []); [|constructor].
  apply (enc_indefinite 0x20000004 _ [4; 1; 9]); [vm_compute; intuition discriminate|reflexivity|].
  apply (enc_more _ [] [4; 1; 9] []); [|constructor].
  apply (enc_prim 4 [1]); [vm_compute; intuition discriminate|reflexivity|]. left. vm_compute. intuition discriminate.
Defined.

(** The result of a conversion is converted already: [CBS_asn1_ber_to_der] on
    the octets that it put in new storage returns their first element where it
    stands and allocates nothing, whatever the allocator. *)
Theorem ber_to_der_idempotent `{Allocator} in_ rest x : bytes_ok in_ -> zlen in_ <= 0xfffffffe -> zlen x <= 0xfffffffe ->
  CBS_asn1_ber_to_der in_ = Some (rest, x, Some x) ->
  exists out rest', first_element x out rest' /\ CBS_asn1_ber_to_der x = Some (rest', out, None).
Proof.
  intros Hin Hlen Hx E. apply (proj1 (CBS_asn1_ber_to_der_facts in_ Hin Hlen)) in E as (ts & x' & Hts & Hd & Hf & Hc).
  unfold converted in Hc. destruct (decide (x' = in_)); [by destruct Hc|]. destruct Hc as ([= <-] & _ & _).
  pose proof (proj2 der_is_der ts in_ Hts 128 x Hf Hd) as Hdf.
  assert (Hok : bytes_ok x) by (by apply (proj2 value_bytes_ok ts in_ Hts Hin 0)).
  assert (Hne : x <> []).
  { intros ->. destruct ts as [|t ts]; [by inversion Hts; subst|].
    apply forest_der_more_Some in Hf as (y & z & Hy & _ & E). symmetry in E. apply app_nil in E as [-> _].
    destruct t as [tag c|tag us]; cbn [der] in Hy; [|destruct (is_string_type tag); (destruct (concat_map_opt _ us); [|done])];
      apply der_octets_Some in Hy as [Hy _];
      match type of Hy with _ = der_element ?t ?c => pose proof (der_element_length t c) as Hl end;
      rewrite <- Hy in Hl; cbn in Hl; lia. }
  destruct (der_forest_first 128 x Hdf Hne) as (out & rest' & Hfst). exists out, rest'. split; [done|].
  rewrite CBS_asn1_ber_to_der_steps, (proj2 (cbs_find_ber_spec x Hok) Hdf).
  apply get_any_element_iff in Hfst as (tag & hl & E); [|done]. by rewrite E.
Qed.

Lemma ber_to_der_idempotent_witness :
  let A := {| malloc_ok := fun _ => true; junk := fun _ => 7 |} in
  exists out rest, first_element [0x30; 0; 5; 0] out rest /\ CBS_asn1_ber_to_der (H := A) [0x30; 0; 5; 0] = Some (rest, out, None).
Proof.
  intros A. apply (ber_to_der_idempotent (H := A) [0x30; 0x80; 0; 0; 5; 0] []);
    [repeat constructor; lia|vm_compute; discriminate|vm_compute; discriminate|vm_compute; reflexivity].
Defined.
