(* ===== verification/BerLoops.v ===== *)
(** * The loops of ber.c and its implicit strings (theorems about ber.c)

    The calls of the check, of the conversion and of the loop that joins the pieces of
    an implicitly tagged string, as derivations without fuel: each call has one, so it
    ends, and the definitions of [Ber] return what it comes to; and [CBS_get_asn1_implicit_string] reads the two forms that
    such a string has. *)

From S2P Require Import Prelude Words Mem Der Cbs CbsFacts Cbb CbbFacts CbbAsn1 CbbBuilder.
From S2P Require Import Ber BerElement BerTree BerWrite BerFacts BerDer.

(** ** The calls without fuel

    What a call of each function comes to, as a derivation with one rule for each
    way that a round of its loop can go. A derivation is finite, so a call that has
    none does not return. *)

Inductive find_ber_run : CBS -> Z -> option bool -> Prop :=
| find_too_deep in_ depth : (depth >? kMaxDepth) = true -> find_ber_run in_ depth None
| find_enter in_ depth r : (depth >? kMaxDepth) = false -> find_ber_while in_ depth r -> find_ber_run in_ depth r
with find_ber_while : CBS -> Z -> option bool -> Prop :=
| find_end in_ depth : (CBS_len in_ >? 0) = false -> find_ber_while in_ depth (Some false)
| find_unreadable in_ s depth : (CBS_len in_ >? 0) = true ->
    CBS_get_any_ber_asn1_element in_ = (None, s) -> find_ber_while in_ depth None
| find_found in_ el s depth : (CBS_len in_ >? 0) = true -> CBS_get_any_ber_asn1_element in_ = (Some el, s) ->
    el_ber_found el || (is_constructed (el_tag el) && is_string_type (el_tag el)) = true -> find_ber_while in_ depth (Some true)
| find_primitive in_ el s depth r : (CBS_len in_ >? 0) = true -> CBS_get_any_ber_asn1_element in_ = (Some el, s) ->
    el_ber_found el = false -> is_constructed (el_tag el) = false ->
    find_ber_while s depth r -> find_ber_while in_ depth r
| find_no_header in_ el s c depth : (CBS_len in_ >? 0) = true -> CBS_get_any_ber_asn1_element in_ = (Some el, s) ->
    el_ber_found el = false -> is_constructed (el_tag el) = true -> is_string_type (el_tag el) = false ->
    CBS_skip (el_header_len el) (el_out el) = (None, c) -> find_ber_while in_ depth None
| find_inside in_ el s u c depth r : (CBS_len in_ >? 0) = true -> CBS_get_any_ber_asn1_element in_ = (Some el, s) ->
    el_ber_found el = false -> is_constructed (el_tag el) = true -> is_string_type (el_tag el) = false ->
    CBS_skip (el_header_len el) (el_out el) = (Some u, c) ->
    find_ber_run c (u32 (depth + 1)) r -> r <> Some false -> find_ber_while in_ depth r
| find_after in_ el s u c depth r : (CBS_len in_ >? 0) = true -> CBS_get_any_ber_asn1_element in_ = (Some el, s) ->
    el_ber_found el = false -> is_constructed (el_tag el) = true -> is_string_type (el_tag el) = false ->
    CBS_skip (el_header_len el) (el_out el) = (Some u, c) ->
    find_ber_run c (u32 (depth + 1)) (Some false) -> find_ber_while s depth r -> find_ber_while in_ depth r.

(** A round of the conversion that reads [el] and leaves [s]. *)
Definition convert_reads (in_ : CBS) (looking : bool) (el : asn1_element) (s : CBS) : Prop :=
  (CBS_len in_ >? 0) = true /\ looking && fst (cbs_get_eoc in_) = false /\ CBS_get_any_ber_asn1_element in_ = (Some el, s).

Inductive convert_ber_run `{Allocator} : CBS -> CBB -> Z -> bool -> Z -> cbb_st -> option CBS * cbb_st -> Prop :=
| convert_too_deep in_ out string_tag looking depth st : (depth >? kMaxDepth) = true ->
    convert_ber_run in_ out string_tag looking depth st (None, st)
| convert_enter in_ out string_tag looking depth st r : (depth >? kMaxDepth) = false ->
    convert_ber_while in_ out string_tag looking depth st r -> convert_ber_run in_ out string_tag looking depth st r
with convert_ber_while `{Allocator} : CBS -> CBB -> Z -> bool -> Z -> cbb_st -> option CBS * cbb_st -> Prop :=
| convert_end in_ out string_tag looking depth st : (CBS_len in_ >? 0) = false ->
    convert_ber_while in_ out string_tag looking depth st (if looking then None else Some in_, st)
| convert_eoc in_ s out string_tag depth st : (CBS_len in_ >? 0) = true -> cbs_get_eoc in_ = (true, s) ->
    convert_ber_while in_ out string_tag true depth st (Some s, st)
| convert_unreadable in_ s out string_tag looking depth st : (CBS_len in_ >? 0) = true ->
    looking && fst (cbs_get_eoc in_) = false -> CBS_get_any_ber_asn1_element in_ = (None, s) ->
    convert_ber_while in_ out string_tag looking depth st (None, st)
| convert_no_target in_ el s out string_tag looking depth st st' : convert_reads in_ looking el s ->
    convert_target out string_tag (el_tag el) st = (None, st') ->
    convert_ber_while in_ out string_tag looking depth st (None, st')
| convert_no_contents in_ el s out string_tag looking depth st oc ct st1 st2 : convert_reads in_ looking el s ->
    convert_target out string_tag (el_tag el) st = (Some (oc, ct), st1) ->
    convert_contents el s oc ct depth st1 (None, st2) -> convert_ber_while in_ out string_tag looking depth st (None, st2)
| convert_no_flush in_ el s out string_tag looking depth st oc ct st1 s' st2 st3 : convert_reads in_ looking el s ->
    convert_target out string_tag (el_tag el) st = (Some (oc, ct), st1) ->
    convert_contents el s oc ct depth st1 (Some s', st2) -> CBB_flush out st2 = (None, st3) ->
    convert_ber_while in_ out string_tag looking depth st (None, st3)
| convert_next in_ el s out string_tag looking depth st oc ct st1 s' st2 u st3 r : convert_reads in_ looking el s ->
    convert_target out string_tag (el_tag el) st = (Some (oc, ct), st1) ->
    convert_contents el s oc ct depth st1 (Some s', st2) -> CBB_flush out st2 = (Some u, st3) ->
    convert_ber_while s' out string_tag looking depth st3 r -> convert_ber_while in_ out string_tag looking depth st r
(** The contents of [el], and where the round goes on in the input. *)
with convert_contents `{Allocator} : asn1_element -> CBS -> CBB -> Z -> Z -> cbb_st -> option CBS * cbb_st -> Prop :=
| contents_indefinite el s oc ct depth st r : el_indefinite el = true ->
    convert_ber_run s oc ct true (u32 (depth + 1)) st r -> convert_contents el s oc ct depth st r
| contents_no_header el s oc ct depth st c : el_indefinite el = false ->
    CBS_skip (el_header_len el) (el_out el) = (None, c) -> convert_contents el s oc ct depth st (None, st)
| contents_constructed el s oc ct depth st u c x st' : el_indefinite el = false ->
    CBS_skip (el_header_len el) (el_out el) = (Some u, c) -> is_constructed (el_tag el) = true ->
    convert_ber_run c oc ct false (u32 (depth + 1)) st (x, st') ->
    convert_contents el s oc ct depth st (_ ← x; Some s, st')
| contents_primitive el s oc ct depth st u c x st' : el_indefinite el = false ->
    CBS_skip (el_header_len el) (el_out el) = (Some u, c) -> is_constructed (el_tag el) = false ->
    CBB_add_bytes oc c st = (x, st') -> convert_contents el s oc ct depth st (_ ← x; Some s, st').

Inductive join_run `{Allocator} (result : CBB) (inner_tag : Z) : CBS -> cbb_st -> option unit * cbb_st -> Prop :=
| join_end child st : (CBS_len child >? 0) = false -> join_run result inner_tag child st (Some tt, st)
| join_unreadable child s st : (CBS_len child >? 0) = true -> CBS_get_asn1 inner_tag child = (None, s) ->
    join_run result inner_tag child st (None, st)
| join_no_room child chunk s st st' : (CBS_len child >? 0) = true -> CBS_get_asn1 inner_tag child = (Some chunk, s) ->
    CBB_add_bytes result chunk st = (None, st') -> join_run result inner_tag child st (None, st')
| join_next child chunk s st u st' r : (CBS_len child >? 0) = true -> CBS_get_asn1 inner_tag child = (Some chunk, s) ->
    CBB_add_bytes result chunk st = (Some u, st') -> join_run result inner_tag s st' r ->
    join_run result inner_tag child st r.

Scheme find_ber_run_mut := Minimality for find_ber_run Sort Prop
  with find_ber_while_mut := Minimality for find_ber_while Sort Prop.
Scheme convert_ber_run_mut := Minimality for convert_ber_run Sort Prop
  with convert_ber_while_mut := Minimality for convert_ber_while Sort Prop
  with convert_contents_mut := Minimality for convert_contents Sort Prop.
Combined Scheme find_runs_ind from find_ber_run_mut, find_ber_while_mut.
Combined Scheme convert_runs_ind from convert_ber_run_mut, convert_ber_while_mut, convert_contents_mut.

(** ** Termination *)

(** A reading consumes octets, and so does the contents of what it read. *)
Lemma ber_read_smaller s el s' : ber_read s el s' -> bytes_ok s ->
  (length s' < length s)%nat /\ bytes_ok s' /\
  forall u c, CBS_skip (el_header_len el) (el_out el) = (Some u, c) -> (length c < length s)%nat /\ bytes_ok c.
Proof.
  intros Hr Hs.
  assert (E : exists h c, s = (h ++ c) ++ s' /\ (0 < length h)%nat /\ el_out el = h ++ c /\ el_header_len el = zlen h).
  { destruct Hr as [tag L c s' Htag HL|tag s' Htag Hcons]; pose proof (zlen_tag_octets tag) as Ht.
    - exists (tag_octets tag ++ L), c. rewrite length_app, !app_assoc. unfold zlen in Ht. split_and!; (done || lia).
    - exists (tag_octets tag ++ [128]), []. rewrite length_app, app_nil_r. cbn [length]. split_and!; (done || lia). }
  destruct E as (h & c & -> & Hh & -> & ->). rewrite !Forall_app in Hs. destruct Hs as [[_ Hc] Hs'].
  rewrite !length_app. split; [lia|]. split; [done|]. intros u c'. rewrite (skip_header _ _ _ eq_refl). intros [= _ <-].
  split; [lia|done].
Qed.


Lemma a_round in_ n : (CBS_len in_ >? 0) = true -> (length in_ <= n)%nat -> exists m, n = S m.
Proof. intros Hne Hl. destruct n as [|m]; [|by exists m]. by destruct in_; [|cbn in Hl; lia]. Qed.

Lemma find_ber_derives n : forall in_ depth, bytes_ok in_ -> (length in_ <= n)%nat ->
  find_ber_while in_ depth (find_ber_loop n in_ depth).
Proof.
  induction n as [|n IH]; intros in_ depth Hin Hl.
  { destruct in_; [by apply find_end|cbn in Hl; lia]. }
  cbn [find_ber_loop]. destruct (CBS_len in_ >? 0) eqn:Hne; [|by apply find_end]. cbn [negb].
  destruct (CBS_get_any_ber_asn1_element in_) as [[el|] s] eqn:Hel; [|by eapply find_unreadable].
  destruct (ber_read_smaller _ _ _ (ber_element_sound _ _ _ Hin Hel) Hin) as (Hs & Hsok & Hc).
  assert (Hafter : forall d, find_ber_while s d (find_ber_loop n s d)) by (intros; apply IH; [done|lia]).
  destruct (el_ber_found el) eqn:Hbf; [by eapply find_found; rewrite ?Hbf|].
  destruct (is_constructed (el_tag el)) eqn:Hcons; [|by eapply find_primitive].
  destruct (is_string_type (el_tag el)) eqn:Hstr; [by eapply find_found; rewrite ?Hbf, ?Hcons|].
  destruct (CBS_skip (el_header_len el) (el_out el)) as [[u|] c] eqn:Hsk; [|by eapply find_no_header].
  destruct (Hc u c eq_refl) as [Hcl Hcok]. cbv zeta. set (d := u32 (depth + 1)).
  assert (Hrun : find_ber_run c d (if d >? kMaxDepth then None else find_ber_loop n c d)).
  { destruct (d >? kMaxDepth) eqn:Hd; [by apply find_too_deep|]. apply find_enter; [done|]. apply IH; [done|lia]. }
  destruct (if d >? kMaxDepth then None else find_ber_loop n c d) as [[|]|];
    [by eapply find_inside|by eapply find_after|by eapply find_inside].
Qed.

Lemma find_ber_computes :
  (forall in_ depth r, find_ber_run in_ depth r -> bytes_ok in_ -> forall n, (length in_ <= n)%nat ->
     (if depth >? kMaxDepth then None else find_ber_loop n in_ depth) = r) /\
  (forall in_ depth r, find_ber_while in_ depth r -> bytes_ok in_ -> forall n, (length in_ <= n)%nat ->
     find_ber_loop n in_ depth = r).
Proof.
  apply find_runs_ind.
  - by intros in_ depth -> _ n _.
  - intros in_ depth r -> _ IH Hin n Hl. by apply IH.
  - intros in_ depth Hne _ n _. destruct n; cbn [find_ber_loop]; by rewrite Hne.
  - intros in_ s depth Hne Hel Hin n Hl. destruct (a_round _ _ Hne Hl) as [m ->]. cbn [find_ber_loop]. by rewrite Hne, Hel.
  - intros in_ el s depth Hne Hel Hf Hin n Hl. destruct (a_round _ _ Hne Hl) as [m ->]. cbn [find_ber_loop]. rewrite Hne, Hel.
    cbn [negb]. destruct (el_ber_found el); [done|]. cbn [orb] in Hf. apply andb_true_iff in Hf as [-> ->]. done.
  - intros in_ el s depth r Hne Hel Hbf Hcons _ IH Hin n Hl. destruct (a_round _ _ Hne Hl) as [m ->]. cbn [find_ber_loop].
    rewrite Hne, Hel, Hbf, Hcons. cbn [negb].
    destruct (ber_read_smaller _ _ _ (ber_element_sound _ _ _ Hin Hel) Hin) as (Hs & Hsok & _). apply IH; [done|lia].
  - intros in_ el s c depth Hne Hel Hbf Hcons Hstr Hsk Hin n Hl. destruct (a_round _ _ Hne Hl) as [m ->]. cbn [find_ber_loop].
    by rewrite Hne, Hel, Hbf, Hcons, Hstr, Hsk.
  - intros in_ el s u c depth r Hne Hel Hbf Hcons Hstr Hsk _ IH Hr Hin n Hl.
    destruct (a_round _ _ Hne Hl) as [m ->]. cbn [find_ber_loop]. rewrite Hne, Hel, Hbf, Hcons, Hstr, Hsk. cbn [negb].
    destruct (ber_read_smaller _ _ _ (ber_element_sound _ _ _ Hin Hel) Hin) as (_ & _ & Hc). destruct (Hc u c Hsk) as [Hcl Hcok].
    cbv zeta. rewrite (IH Hcok m) by lia. destruct r as [[|]|]; done.
  - intros in_ el s u c depth r Hne Hel Hbf Hcons Hstr Hsk _ IHc _ IH Hin n Hl.
    destruct (a_round _ _ Hne Hl) as [m ->]. cbn [find_ber_loop]. rewrite Hne, Hel, Hbf, Hcons, Hstr, Hsk. cbn [negb].
    destruct (ber_read_smaller _ _ _ (ber_element_sound _ _ _ Hin Hel) Hin) as (Hs & Hsok & Hc). destruct (Hc u c Hsk) as [Hcl Hcok].
    cbv zeta. rewrite (IHc Hcok m) by lia. apply IH; [done|lia].
Qed.

Lemma bind_ext {S A B} (m m' : M S A) (k k' : A -> M S B) st : m st = m' st ->
  (forall a st', m st = (Some a, st') -> k a st' = k' a st') -> bind m k st = bind m' k' st.
Proof. intros E Hk. unfold bind. rewrite <- E. destruct (m st) as [[a|] st']; [by apply Hk|done]. Qed.

Section Loops.
Context `{Allocator}.

(** What the converter leaves is the end of its input. *)
Lemma convert_ber_loop_rest fuel : forall in_ out base looking depth st rest st', bytes_ok in_ ->
  convert_ber_loop fuel in_ out base looking depth st = (Some rest, st') -> (length rest <= length in_)%nat /\ bytes_ok rest.
Proof.
  induction fuel as [|fuel IH]; intros in_ out base looking depth st rest st' Hin; cbn [convert_ber_loop];
    destruct (CBS_len in_ >? 0); cbn [negb]; try (destruct looking; [done|intros [= <- <-]; split; [lia|done]]); [done|].
  destruct (looking && fst (cbs_get_eoc in_)) eqn:Heoc.
  { apply andb_true_iff in Heoc as [_ Heoc]. rewrite cbs_get_eoc_spec in *.
    destruct in_ as [|[| |] [|[| |] s]]; try done. intros [= <- <-]. cbn. split; [lia|].
    by do 2 apply Forall_cons in Hin as [_ Hin]. }
  intros E. apply bind_Some in E as ([el s] & st1 & Hel & E). apply on_Some in Hel as [Hel ->].
  apply ber_element_sound in Hel; [|done]. destruct (ber_read_smaller _ _ _ Hel Hin) as (Hs & Hsok & _). cbv zeta in E.
  apply bind_Some in E as ([oc cb] & st2 & _ & E). destruct (el_indefinite el).
  - apply bind_Some in E as (s2 & st3 & Hc & E). destruct (u32 (depth + 1) >? kMaxDepth); [done|].
    apply IH in Hc as [Hl2 Hok2]; [|done]. apply bind_Some in E as ([] & st4 & _ & E). apply IH in E as [Hl Hok]; [|done].
    split; [lia|done].
  - apply bind_Some in E as ([u c] & st3 & _ & E). apply bind_Some in E as ([] & st4 & _ & E).
    apply bind_Some in E as ([] & st5 & _ & E). apply IH in E as [Hl Hok]; [|done]. split; [lia|done].
Qed.

(** The contents of an element, as [convert_ber_loop] writes it. *)
Definition contents_loop (fuel : nat) (el : asn1_element) (s : CBS) (oc : CBB) (ct depth : Z) : M cbb_st CBS :=
  let depth' := u32 (depth + 1) in
  if el_indefinite el then
    if depth' >? kMaxDepth then fail else convert_ber_loop fuel s oc ct true depth'
  else
    let* '(_, contents) := on (el_out el) (CBS_skip (el_header_len el)) in
    (if is_constructed (el_tag el) then
       let* _ := if depth' >? kMaxDepth then fail else convert_ber_loop fuel contents oc ct false depth' in
       ret tt
     else CBB_add_bytes oc contents) ;;;
    ret s.

Lemma convert_round n in_ el s out string_tag looking depth st : convert_reads in_ looking el s ->
  convert_ber_loop (S n) in_ out string_tag looking depth st =
  (let* '(oc, ct) := convert_target out string_tag (el_tag el) in
   let* s' := contents_loop n el s oc ct depth in
   CBB_flush out ;;;
   convert_ber_loop n s' out string_tag looking depth) st.
Proof.
  intros (Hne & Heoc & Hel). cbn [convert_ber_loop]. rewrite Hne, Heoc. cbn [negb].
  rewrite (bind_step _ _ _ (el, s) st) by (apply on_Some; by rewrite Hel). cbv zeta.
  apply bind_ext; [done|]. intros [oc ct] st1 _. unfold contents_loop. cbv zeta.
  destruct (el_indefinite el); [done|]. unfold bind, ret. destruct (on _ _ st1) as [[[u c]|] st2]; [|done].
  destruct (is_constructed (el_tag el)).
  - generalize (if u32 (depth + 1) >? kMaxDepth then fail else convert_ber_loop n c oc ct false (u32 (depth + 1))).
    intros m. by destruct (m st2) as [[?|] ?].
  - by destruct (CBB_add_bytes oc c st2) as [[?|] ?].
Qed.

(** Where the round goes on is in the input, behind the element's header. *)
Lemma contents_loop_rest n in_ el s oc ct depth st s' st' : bytes_ok in_ -> CBS_get_any_ber_asn1_element in_ = (Some el, s) ->
  contents_loop n el s oc ct depth st = (Some s', st') -> (length s' < length in_)%nat /\ bytes_ok s'.
Proof.
  intros Hin Hel. destruct (ber_read_smaller _ _ _ (ber_element_sound _ _ _ Hin Hel) Hin) as (Hs & Hsok & _).
  unfold contents_loop. cbv zeta. destruct (el_indefinite el).
  - destruct (_ >? _); [done|]. intros E. apply convert_ber_loop_rest in E as [Hl Hok]; [|done]. split; [lia|done].
  - intros E. apply bind_Some in E as ([u c] & st1 & _ & E). apply bind_Some in E as ([] & st2 & _ & E).
    by apply ret_Some in E as [-> _].
Qed.

Lemma convert_end' in_ out string_tag looking depth st : (CBS_len in_ >? 0) = false ->
  convert_ber_while in_ out string_tag looking depth st ((if looking then fail else ret in_) st).
Proof. intros Hne. pose proof (convert_end in_ out string_tag looking depth st Hne) as Hend. by destruct looking. Qed.

Lemma convert_ber_derives n : forall in_ out string_tag looking depth st, bytes_ok in_ -> (length in_ <= n)%nat ->
  convert_ber_while in_ out string_tag looking depth st (convert_ber_loop n in_ out string_tag looking depth st).
Proof.
  induction n as [|n IH]; intros in_ out string_tag looking depth st Hin Hl.
  { destruct in_; [|cbn in Hl; lia]. cbn [convert_ber_loop].
    by apply convert_end'. }
  destruct (CBS_len in_ >? 0) eqn:Hne.
  2: { cbn [convert_ber_loop]. rewrite Hne. cbn [negb]. by apply convert_end'. }
  destruct (looking && fst (cbs_get_eoc in_)) eqn:Heoc.
  { cbn [convert_ber_loop]. rewrite Hne, Heoc. apply andb_true_iff in Heoc as [-> Heoc]. apply convert_eoc; [done|].
    destruct (cbs_get_eoc in_) as [b s]. cbn in *. by subst. }
  destruct (CBS_get_any_ber_asn1_element in_) as [[el|] s] eqn:Hel.
  2: { cbn [convert_ber_loop]. rewrite Hne, Heoc. cbn [negb]. unfold bind at 1, on. rewrite Hel. by eapply convert_unreadable. }
  assert (Hr : convert_reads in_ looking el s) by done. rewrite (convert_round n _ _ _ _ _ _ _ _ Hr).
  destruct (ber_read_smaller _ _ _ (ber_element_sound _ _ _ Hin Hel) Hin) as (Hs & Hsok & Hc).
  assert (Hrun : forall c oc ct looking d st, bytes_ok c -> (length c < length in_)%nat ->
    convert_ber_run c oc ct looking d st ((if d >? kMaxDepth then fail else convert_ber_loop n c oc ct looking d) st)).
  { intros c oc ct lk d st0 Hcok Hcl. destruct (d >? kMaxDepth) eqn:Hd; [by apply convert_too_deep|].
    apply convert_enter; [done|]. apply IH; [done|lia]. }
  unfold bind at 1. destruct (convert_target out string_tag (el_tag el) st) as [[[oc ct]|] st1] eqn:Ht; [|by eapply convert_no_target].
  assert (Hcont : convert_contents el s oc ct depth st1 (contents_loop n el s oc ct depth st1)).
  { unfold contents_loop. cbv zeta. destruct (el_indefinite el) eqn:Hind; [by apply contents_indefinite, Hrun|].
    destruct (CBS_skip (el_header_len el) (el_out el)) as [[u|] c] eqn:Hsk.
    2: { unfold bind at 1, on. rewrite Hsk. by eapply contents_no_header. }
    destruct (Hc u c eq_refl) as [Hcl Hcok]. rewrite (bind_step _ _ _ (u, c) st1) by (apply on_Some; by rewrite Hsk).
    destruct (is_constructed (el_tag el)) eqn:Hcons.
    - pose proof (Hrun c oc ct false (u32 (depth + 1)) st1 Hcok ltac:(lia)) as Hr'. revert Hr'.
      generalize (if u32 (depth + 1) >? kMaxDepth then fail else convert_ber_loop n c oc ct false (u32 (depth + 1))). intros m Hr'.
      unfold bind, ret. destruct (m st1) as [x st2]. by pose proof (contents_constructed el s oc ct depth st1 u c x st2 Hind Hsk Hcons Hr'); destruct x.
    - unfold bind, ret. destruct (CBB_add_bytes oc c st1) as [x st2] eqn:Hadd.
      pose proof (contents_primitive el s oc ct depth st1 u c x st2 Hind Hsk Hcons Hadd) as Hx. by destruct x. }
  unfold bind at 1. destruct (contents_loop n el s oc ct depth st1) as [[s'|] st2] eqn:Hloop; [|by eapply convert_no_contents].
  destruct (contents_loop_rest _ _ _ _ _ _ _ _ _ _ Hin Hel Hloop) as [Hl' Hok'].
  unfold bind at 1. destruct (CBB_flush out st2) as [[u|] st3] eqn:Hfl; [|by eapply convert_no_flush].
  eapply convert_next; try done. apply IH; [done|lia].
Qed.

Lemma convert_ber_computes :
  (forall in_ out string_tag looking depth st r, convert_ber_run in_ out string_tag looking depth st r -> bytes_ok in_ ->
     forall n, (length in_ <= n)%nat ->
     (if depth >? kMaxDepth then fail else convert_ber_loop n in_ out string_tag looking depth) st = r) /\
  (forall in_ out string_tag looking depth st r, convert_ber_while in_ out string_tag looking depth st r -> bytes_ok in_ ->
     forall n, (length in_ <= n)%nat -> convert_ber_loop n in_ out string_tag looking depth st = r) /\
  (forall el s oc ct depth st r, convert_contents el s oc ct depth st r -> forall in_, bytes_ok in_ ->
     CBS_get_any_ber_asn1_element in_ = (Some el, s) -> forall n, (length in_ <= S n)%nat ->
     contents_loop n el s oc ct depth st = r).
Proof.
  apply convert_runs_ind.
  - by intros in_ out string_tag looking depth st -> _ n _.
  - intros in_ out string_tag looking depth st r -> _ IH Hin n Hl. by apply IH.
  - intros in_ out string_tag looking depth st Hne _ n _. destruct n; cbn [convert_ber_loop]; rewrite Hne; by destruct looking.
  - intros in_ s out string_tag depth st Hne Heoc Hin n Hl. destruct (a_round _ _ Hne Hl) as [m ->]. cbn [convert_ber_loop].
    by rewrite Hne, Heoc.
  - intros in_ s out string_tag looking depth st Hne Heoc Hel Hin n Hl. destruct (a_round _ _ Hne Hl) as [m ->].
    cbn [convert_ber_loop]. rewrite Hne, Heoc. cbn [negb]. unfold bind at 1, on. by rewrite Hel.
  - intros in_ el s out string_tag looking depth st st' Hr Ht Hin n Hl. destruct (a_round _ _ (proj1 Hr) Hl) as [m ->].
    rewrite (convert_round _ _ _ _ _ _ _ _ _ Hr). unfold bind at 1. by rewrite Ht.
  - intros in_ el s out string_tag looking depth st oc ct st1 st2 Hr Ht _ IH Hin n Hl.
    destruct (a_round _ _ (proj1 Hr) Hl) as [m ->]. rewrite (convert_round _ _ _ _ _ _ _ _ _ Hr), (bind_step _ _ _ _ _ Ht).
    unfold bind at 1. by rewrite (IH in_ Hin (proj2 (proj2 Hr)) m Hl).
  - intros in_ el s out string_tag looking depth st oc ct st1 s' st2 st3 Hr Ht _ IH Hfl Hin n Hl.
    destruct (a_round _ _ (proj1 Hr) Hl) as [m ->]. rewrite (convert_round _ _ _ _ _ _ _ _ _ Hr), (bind_step _ _ _ _ _ Ht).
    rewrite (bind_step _ _ _ _ _ (IH in_ Hin (proj2 (proj2 Hr)) m Hl)). unfold bind at 1. by rewrite Hfl.
  - intros in_ el s out string_tag looking depth st oc ct st1 s' st2 u st3 r Hr Ht _ IHc Hfl _ IH Hin n Hl.
    destruct (a_round _ _ (proj1 Hr) Hl) as [m ->]. rewrite (convert_round _ _ _ _ _ _ _ _ _ Hr), (bind_step _ _ _ _ _ Ht).
    pose proof (IHc in_ Hin (proj2 (proj2 Hr)) m Hl) as E. rewrite (bind_step _ _ _ _ _ E), (bind_step _ _ _ _ _ Hfl).
    destruct (contents_loop_rest _ _ _ _ _ _ _ _ _ _ Hin (proj2 (proj2 Hr)) E) as [Hl' Hok']. apply IH; [done|lia].
  - intros el s oc ct depth st r Hind _ IH in_ Hin Hel n Hl. unfold contents_loop. rewrite Hind.
    destruct (ber_read_smaller _ _ _ (ber_element_sound _ _ _ Hin Hel) Hin) as (Hs & Hsok & _). apply IH; [done|lia].
  - intros el s oc ct depth st c Hind Hsk in_ Hin Hel n Hl. unfold contents_loop. rewrite Hind. unfold bind at 1, on. by rewrite Hsk.
  - intros el s oc ct depth st u c x st' Hind Hsk Hcons _ IH in_ Hin Hel n Hl. unfold contents_loop. rewrite Hind.
    destruct (ber_read_smaller _ _ _ (ber_element_sound _ _ _ Hin Hel) Hin) as (_ & _ & Hc). destruct (Hc u c Hsk) as [Hcl Hcok].
    rewrite (bind_step _ _ _ (u, c) st) by (apply on_Some; by rewrite Hsk). rewrite Hcons. unfold bind, ret.
    rewrite (IH Hcok n ltac:(lia)). by destruct x.
  - intros el s oc ct depth st u c x st' Hind Hsk Hcons Hadd in_ Hin Hel n Hl. unfold contents_loop. rewrite Hind.
    rewrite (bind_step _ _ _ (u, c) st) by (apply on_Some; by rewrite Hsk). rewrite Hcons. unfold bind, ret.
    rewrite Hadd. by destruct x.
Qed.

Lemma join_chunks_derives result inner_tag n : forall child st, bytes_ok child -> (length child <= n)%nat ->
  join_run result inner_tag child st (join_chunks n child result inner_tag st).
Proof.
  induction n as [|n IH]; intros child st Hok Hl.
  { destruct child; [by apply join_end|cbn in Hl; lia]. }
  cbn [join_chunks]. destruct (CBS_len child >? 0) eqn:Hne; [|by apply join_end]. cbn [negb].
  destruct (CBS_get_asn1 inner_tag child) as [[chunk|] s] eqn:Hg.
  2: { unfold bind at 1, on. rewrite Hg. by eapply join_unreadable. }
  rewrite (bind_step _ _ _ (chunk, s) st) by (apply on_Some; by rewrite Hg).
  unfold bind. destruct (CBB_add_bytes result chunk st) as [[u|] st'] eqn:Hadd; [|by eapply join_no_room].
  eapply join_next; try done. apply CBS_get_asn1_Some in Hg as (_ & _ & ->); [|done]. apply Forall_app in Hok as [_ Hs].
  rewrite length_app in Hl. pose proof (der_element_length inner_tag chunk). apply IH; [done|lia].
Qed.

Lemma join_chunks_computes result inner_tag child st r : join_run result inner_tag child st r -> bytes_ok child ->
  forall n, (length child <= n)%nat -> join_chunks n child result inner_tag st = r.
Proof.
  induction 1 as [child st Hne|child s st Hne Hg|child chunk s st st' Hne Hg Hadd|child chunk s st u st' r Hne Hg Hadd _ IH];
    intros Hok n Hl.
  { destruct n; cbn [join_chunks]; by rewrite Hne. }
  all: destruct (a_round _ _ Hne Hl) as [m ->]; cbn [join_chunks]; rewrite Hne; cbn [negb]; unfold bind, on; rewrite Hg, ?Hadd; try done.
  apply CBS_get_asn1_Some in Hg as (_ & _ & ->); [|done]. apply Forall_app in Hok as [_ Hs].
  rewrite length_app in Hl. pose proof (der_element_length inner_tag chunk). apply IH; [done|lia].
Qed.
End Loops.

(** ** Implicitly tagged strings *)

(** The tag with the constructed bit. *)
Lemma constructed_tag tag : valid_tag tag -> is_constructed tag = false ->
  valid_tag (tag .| CBS_ASN1_CONSTRUCTED) /\ tag .| CBS_ASN1_CONSTRUCTED <> tag.
Proof.
  intros (Ht & H0 & H1) Hc. unfold is_constructed in Hc. apply negb_false_iff, Z.eqb_eq in Hc.
  assert (E : tag .| CBS_ASN1_CONSTRUCTED = tag + 2 ^ 29)
    by (rewrite <- Z.lxor_lor, <- Z.add_nocarry_lxor by done; done).
  assert (0 <= tag .| CBS_ASN1_CONSTRUCTED < 2 ^ 32) by (apply lor_bound; [lia|done|done]).
  rewrite E in *. unfold valid_tag. lia.
Qed.

(** The pieces of a constructed string, joined. *)
Fixpoint joined (fuel : nat) (child : CBS) (inner_tag : Z) : option (list Z) :=
  if negb (CBS_len child >? 0) then Some []
  else match fuel with
  | O => None
  | S fuel =>
      match CBS_get_asn1 inner_tag child with
      | (Some chunk, child) => x ← joined fuel child inner_tag; Some (chunk ++ x)
      | (None, _) => None
      end
  end.

Lemma joined_spec inner_tag fuel : forall child x, valid_tag inner_tag -> bytes_ok child -> (length child <= fuel)%nat ->
  joined fuel child inner_tag = Some x <->
  exists cs, Forall (fun c => zlen c < 2 ^ 32) cs /\ child = concat (map (der_element inner_tag) cs) /\ x = concat cs.
Proof.
  assert (Hnil : forall cs, [] = concat (map (der_element inner_tag) cs) -> cs = []).
  { intros [|c cs] E; [done|]. destruct (der_element_cons inner_tag c (concat (map (der_element inner_tag) cs))) as (b & l & El).
    cbn in E. by rewrite El in E. }
  assert (Hbase : forall fuel x, joined fuel [] inner_tag = Some x <->
    exists cs, Forall (fun c => zlen c < 2 ^ 32) cs /\ [] = concat (map (der_element inner_tag) cs) /\ x = concat cs).
  { intros f x. assert (joined f [] inner_tag = Some []) as -> by (by destruct f). split.
    - intros [= <-]. by exists [].
    - intros (cs & _ & ->%Hnil & ->). done. }
  induction fuel as [|fuel IH]; intros child x Htag Hok Hl.
  { destruct child; [apply Hbase|cbn in Hl; lia]. }
  destruct child as [|b l] eqn:Ech; [apply Hbase|]. rewrite <- Ech in *. cbn [joined].
  assert (CBS_len child >? 0 = true) as -> by (rewrite Ech; unfold CBS_len; rewrite zlen_cons; apply Z.gtb_lt; zlen_pos; lia).
  cbn [negb]. pose proof (CBS_get_asn1_Some inner_tag child) as Hget. clear Hnil Hbase. split.
  - destruct (CBS_get_asn1 inner_tag child) as [[c|] s]; [|done].
    destruct (proj1 (Hget c s Hok) eq_refl) as (_ & Hc & E). rewrite E in Hok, Hl. apply Forall_app in Hok as [_ Hs].
    rewrite length_app in Hl. pose proof (der_element_length inner_tag c).
    destruct (joined fuel s inner_tag) as [y|] eqn:Ey; cbn [mbind option_bind]; [|done]. intros [= <-].
    apply IH in Ey as (cs & Hcs & -> & ->); [|done|done|lia]. exists (c :: cs). by split; [constructor|].
  - intros (cs & Hcs & E & ->). destruct cs as [|c cs]; [cbn in E; congruence|]. apply Forall_cons in Hcs as [Hc Hcs].
    cbn [map concat] in E. rewrite (proj2 (Hget c _ Hok) (conj Htag (conj Hc E))).
    rewrite E in Hok, Hl. apply Forall_app in Hok as [_ Hs]. rewrite length_app in Hl. pose proof (der_element_length inner_tag c).
    rewrite (proj2 (IH _ (concat cs) Htag Hs ltac:(lia))); [done|]. by exists cs.
Qed.

Section Implicit.
Context `{Allocator}.

Lemma join_chunks_outcome inner_tag fuel : forall child h st fs d, bytes_ok child -> rep st fs -> depth h st = Some d -> length fs = S d ->
  does d (join_chunks fuel child h inner_tag st) st (add_to fs (x ← joined fuel child inner_tag; Some (tt, x))).
Proof.
  induction fuel as [|fuel IH]; intros child h st fs d Hok Hrep Hd Hlen; cbn [join_chunks joined];
    destruct (CBS_len child >? 0); cbn [negb].
  2,4: unfold add_to; cbn [mbind option_bind]; rewrite fapp_nil; by apply result_ret.
  { done. }
  destruct (CBS_get_asn1 inner_tag child) as [[c|] s] eqn:Hg.
  2:{ unfold add_to, does, rejected, bind, on. by rewrite Hg. }
  rewrite (bind_step _ _ _ (c, s) st) by (apply on_Some; by rewrite Hg).
  apply CBS_get_asn1_Some in Hg as (_ & Hc & ->); [|done]. apply Forall_app in Hok as [_ Hs]. assert (Hne : fs <> []) by (by destruct fs).
  assert (E : add_to fs (x ← (x ← joined fuel s inner_tag; Some (c ++ x)); Some (tt, x)) =
    add_to (fapp fs c) (x ← joined fuel s inner_tag; Some (tt, x)))
    by (rewrite add_to_app; by destruct (joined fuel s inner_tag)).
  rewrite E. eapply (does_bind d _ _ st (Some (tt, fapp fs c))).
  - apply (CBB_add_bytes_result h st fs); [done|done|by apply fflush_last|lia].
  - intros [] fs' st' [= <-] Hrep' Hkp. apply IH; [done|done|by apply Hkp|by rewrite length_fapp].
  - intros a fs' c' fs2 [= <- <-]. apply add_to_size. by apply fapp_not_nil.
Qed.

(** The joined pieces are returned when there is room for them. *)
Lemma join_finish child inner_tag c st : bytes_ok child -> 0 <= c <= 2 ^ 63 -> CBB_init c = Some st ->
  match joined (length child) child inner_tag with
  | None => fst ((join_chunks (length child) child root inner_tag ;;; CBB_finish root true) st) = None
  | Some x => match fst ((join_chunks (length child) child root inner_tag ;;; CBB_finish root true) st) with
              | Some out => out = x
              | None => (forall n, malloc_ok n = true) -> 2 ^ 62 < zlen x
              end
  end.
Proof.
  intros Hok Hc Hst. destruct (CBB_init_rep c st) as (Hrep & Hres & Hcap); [lia|done|].
  pose proof (join_chunks_outcome inner_tag (length child) child root st _ 0 Hok Hrep eq_refl eq_refl) as Ho.
  unfold add_to, does in Ho. destruct (joined (length child) child inner_tag) as [x|]; cbn [mbind option_bind] in Ho.
  - apply finish_result in Ho. destruct (fst _) as [out|]; [by destruct Ho|]. intros Hm.
    destruct (Z.lt_ge_cases (2 ^ 62) (zlen x)); [done|]. exfalso. apply (Ho (zlen x)); [done|]. right. rewrite Hres, Hcap.
    split_and!; (done || lia).
  - by apply finish_rejected.
Qed.
End Implicit.

(** The two forms of a string with an implicit tag: primitive, where [out] stays
    in the input, or constructed, where [out] is new storage that joins the pieces. *)
Definition implicit_string (outer_tag inner_tag : Z) (in_ out rest : list Z) (storage : option (list Z)) : Prop :=
  storage = None /\ zlen out < 2 ^ 32 /\ in_ = der_element outer_tag out ++ rest \/
  storage = Some out /\ exists cs, Forall (fun c => zlen c < 2 ^ 32) cs /\ out = concat cs /\
    zlen (concat (map (der_element inner_tag) cs)) < 2 ^ 32 /\
    in_ = der_element (outer_tag .| CBS_ASN1_CONSTRUCTED) (concat (map (der_element inner_tag) cs)) ++ rest.

Lemma string_tag_itself tag : is_constructed tag = false -> is_string_type tag = true -> 0 <= tag < 2 ^ 32 -> valid_tag tag.
Proof.
  intros Hc Hs Ht. apply string_tag_valid in Hs as [(Hn & H0 & H1) _]. split; [done|].
  split; intros ->; [done|by vm_compute in Hc].
Qed.

(** The peek decides between the two forms. *)
Lemma peek_asn1_tag in_ tag : bytes_ok in_ ->
  CBS_peek_asn1_tag in_ tag = true <-> valid_tag tag /\ exists s, in_ = tag_octets tag ++ s.
Proof.
  intros Hin. unfold CBS_peek_asn1_tag. pose proof (parse_asn1_tag_Some in_) as Hp.
  destruct (parse_asn1_tag in_) as [[t|] s].
  - destruct (proj1 (Hp t s Hin) eq_refl) as [Ht E]. destruct (Z.eqb_spec tag t) as [->|Hne]; split; try done; [eauto|].
    intros (Htag & s' & E'). exfalso. apply Hne. by injection (proj2 (Hp tag s' Hin) (conj Htag E')).
  - split; [done|]. intros (Htag & s' & E'). exfalso. by pose proof (proj2 (Hp tag s' Hin) (conj Htag E')).
Qed.

Section ImplicitString.
Context `{Allocator}.
Context (outer_tag inner_tag : Z).
Context (outer_ok : valid_tag outer_tag) (outer_prim : is_constructed outer_tag = false).
Context (inner_range : 0 <= inner_tag < 2 ^ 32) (inner_prim : is_constructed inner_tag = false)
  (inner_string : is_string_type inner_tag = true).

Lemma implicit_string_sound in_ out rest storage : bytes_ok in_ -> zlen in_ <= 2 ^ 62 ->
  CBS_get_asn1_implicit_string outer_tag inner_tag in_ = (Some (out, storage), rest) ->
  implicit_string outer_tag inner_tag in_ out rest storage.
Proof.
  intros Hin Hlen. pose proof (string_tag_itself inner_tag inner_prim inner_string inner_range) as Hinner.
  unfold CBS_get_asn1_implicit_string. destruct (CBS_peek_asn1_tag in_ outer_tag).
  - intros E. apply bind_Some in E as (c & s & Hg & E). apply ret_Some in E as [[= -> ->] ->].
    apply CBS_get_asn1_Some in Hg as (_ & Hc & ->); [|done]. by left.
  - destruct (CBB_init (CBS_len in_)) as [st|] eqn:Hst; [|done].
    destruct (CBS_get_asn1 (outer_tag .| CBS_ASN1_CONSTRUCTED) in_) as [[child|] s] eqn:Hg; [|done].
    apply CBS_get_asn1_Some in Hg as (_ & Hc & E); [|done]. pose proof Hin as Hin'. rewrite E in Hin'.
    unfold der_element in Hin'. rewrite !Forall_app in Hin'. destruct Hin' as [[_ Hcok] _].
    pose proof (join_finish child inner_tag (CBS_len in_) st Hcok) as Hj. unfold CBS_len in *.
    pose proof (zlen_nonneg in_). specialize (Hj ltac:(lia) Hst).
    destruct (bind _ _ st) as [[data|] st']; [|done]. intros [= <- <- <-]. cbn [fst] in Hj.
    destruct (joined (length child) child inner_tag) as [x|] eqn:Ej; [|done]. rewrite Hj in *. unfold CBS_init.
    rewrite ztake_all by done. apply joined_spec in Ej as (cs & Hcs & -> & ->); [|done..]. right. split; [done|]. by exists cs.
Qed.

Lemma implicit_string_complete in_ out rest storage : bytes_ok in_ -> zlen in_ <= 2 ^ 62 -> (forall n, malloc_ok n = true) ->
  implicit_string outer_tag inner_tag in_ out rest storage ->
  CBS_get_asn1_implicit_string outer_tag inner_tag in_ = (Some (out, storage), rest).
Proof.
  intros Hin Hlen Hm. pose proof (string_tag_itself inner_tag inner_prim inner_string inner_range) as Hinner.
  destruct (constructed_tag outer_tag outer_ok outer_prim) as [Hcv Hne]. pose proof (peek_asn1_tag in_ outer_tag Hin) as Hp.
  unfold CBS_get_asn1_implicit_string. intros [(-> & Hout & E)|(-> & cs & Hcs & -> & Hl & E)].
  - rewrite (proj2 Hp). 2:{ split; [done|]. rewrite E. unfold der_element, der_header. rewrite <- !app_assoc. eauto. }
    rewrite (bind_step _ _ _ out rest); [done|]. by apply CBS_get_asn1_Some.
  - assert (CBS_peek_asn1_tag in_ outer_tag = false) as ->.
    { apply not_true_iff_false. intros Hpeek. apply Hp in Hpeek as [_ [s Es]]. apply Hne.
      pose proof (proj2 (parse_asn1_tag_Some in_ outer_tag s Hin) (conj outer_ok Es)) as E1.
      unfold der_element, der_header in E. rewrite <- !app_assoc in E.
      pose proof (proj2 (parse_asn1_tag_Some in_ _ _ Hin) (conj Hcv E)) as E2. congruence. }
    set (child := concat (map (der_element inner_tag) cs)) in *. pose proof Hin as Hin'. rewrite E in Hin'.
    unfold der_element in Hin'. rewrite !Forall_app in Hin'. destruct Hin' as [[_ Hcok] _].
    unfold CBS_len. pose proof (zlen_nonneg in_).
    destruct (CBB_init (zlen in_)) as [st|] eqn:Hst; [|apply CBB_init_ok in Hst; [done|done|lia]].
    rewrite (proj2 (CBS_get_asn1_Some _ in_ child rest Hin)) by done.
    pose proof (join_finish child inner_tag (zlen in_) st Hcok ltac:(lia) Hst) as Hj.
    rewrite (proj2 (joined_spec inner_tag (length child) child (concat cs) Hinner Hcok ltac:(lia))) in Hj by eauto.
    assert (Hsize : zlen (concat cs) <= zlen child).
    { unfold child. clear. induction cs as [|c cs IH]; [done|]. cbn [map concat]. rewrite !zlen_app.
      pose proof (der_element_length inner_tag c). unfold zlen in *. lia. }
    destruct (bind _ _ st) as [[data|] st']; cbn [fst] in Hj; [|specialize (Hj Hm); lia].
    rewrite Hj. unfold CBS_init. by rewrite ztake_all.
Qed.
End ImplicitString.

(** C38. The recursive loops of the check, of the conversion and of the implicit
    strings terminate: on any octets, at every depth of recursion, with whatever
    state of the builder and whatever allocator, a call has a run, a finite one,
    and what the definitions return is the result of that run and no other. So they
    return nothing for want of rounds: they fail where a rule of the runs fails. *)
Theorem ber_loops_terminate `{Allocator} in_ : bytes_ok in_ ->
  (forall depth r, find_ber_run in_ depth r <-> cbs_find_ber in_ depth = r) /\
  (forall out string_tag looking depth st r,
     convert_ber_run in_ out string_tag looking depth st r <-> cbs_convert_ber in_ out string_tag looking depth st = r) /\
  (forall result inner_tag st r,
     join_run result inner_tag in_ st r <-> join_chunks (length in_) in_ result inner_tag st = r).
Proof.
  intros Hin. unfold cbs_find_ber, cbs_convert_ber. split; [|split].
  - intros depth r. split; [intros Hr; by apply find_ber_computes|]. intros <-.
    destruct (depth >? kMaxDepth) eqn:Hd; [by apply find_too_deep|]. apply find_enter; [done|]. by apply find_ber_derives.
  - intros out string_tag looking depth st r. split; [intros Hr; by apply convert_ber_computes|]. intros <-.
    destruct (depth >? kMaxDepth) eqn:Hd; [by apply convert_too_deep|]. apply convert_enter; [done|]. by apply convert_ber_derives.
  - intros result inner_tag st r. split; [intros Hr; by apply join_chunks_computes|]. intros <-. by apply join_chunks_derives.
Qed.

Lemma ber_loops_terminate_witness :
  find_ber_run [0x30; 2; 0x30; 0; 0x30; 0x80] 0 (Some true) /\ find_ber_run [0x30; 1] 0 None /\
  convert_ber_run (H := {| malloc_ok := fun _ => false; junk := fun _ => 0 |}) [0; 0; 5] root 0 true 0 (CBB_init_fixed [0; 0; 0; 0]) (Some [5], CBB_init_fixed [0; 0; 0; 0]).
Proof.
  split; [|split].
  - apply (ber_loops_terminate (H := {| malloc_ok := fun _ => false; junk := fun _ => 0 |}) [0x30; 2; 0x30; 0; 0x30; 0x80]); [|reflexivity].
    repeat constructor; lia.
  - apply (ber_loops_terminate (H := {| malloc_ok := fun _ => false; junk := fun _ => 0 |}) [0x30; 1]); [|reflexivity].
    repeat constructor; lia.
  - apply (ber_loops_terminate (H := {| malloc_ok := fun _ => false; junk := fun _ => 0 |}) [0; 0; 5]); [|reflexivity].
    repeat constructor; lia.
Defined.

(** [CBS_get_asn1_implicit_string] reads exactly the two forms of a string
    with an implicit tag: the primitive one, whose contents stays in the input,
    and the constructed one, whose pieces with the inner tag are joined in new
    storage; it reads every such string when the allocator does not fail. *)
Theorem CBS_get_asn1_implicit_string_exact `{Allocator} outer_tag inner_tag in_ :
  valid_tag outer_tag -> is_constructed outer_tag = false -> 0 <= inner_tag < 2 ^ 32 -> is_constructed inner_tag = false ->
  is_string_type inner_tag = true -> bytes_ok in_ -> zlen in_ <= 2 ^ 62 ->
  (forall out storage rest, CBS_get_asn1_implicit_string outer_tag inner_tag in_ = (Some (out, storage), rest) ->
     implicit_string outer_tag inner_tag in_ out rest storage) /\
  ((forall n, malloc_ok n = true) -> forall out storage rest, implicit_string outer_tag inner_tag in_ out rest storage ->
     CBS_get_asn1_implicit_string outer_tag inner_tag in_ = (Some (out, storage), rest)).
Proof.
  intros. split; intros; [by apply implicit_string_sound|by apply implicit_string_complete].
Qed.

Lemma CBS_get_asn1_implicit_string_exact_witness :
  CBS_get_asn1_implicit_string (H := {| malloc_ok := fun _ => true; junk := fun _ => 7 |}) 0x80000000 4
    [0xa0; 7; 4; 2; 1; 2; 4; 1; 3; 9] = (Some ([1; 2; 3], Some [1; 2; 3]), [9]).
Proof.
  destruct (CBS_get_asn1_implicit_string_exact (H := {| malloc_ok := fun _ => true; junk := fun _ => 7 |}) 0x80000000 4
    [0xa0; 7; 4; 2; 1; 2; 4; 1; 3; 9]) as [_ Hall];
    [vm_compute; intuition discriminate|reflexivity|lia|reflexivity|reflexivity|repeat constructor; lia|vm_compute; discriminate|].
  apply (Hall ltac:(reflexivity) [1; 2; 3] (Some [1; 2; 3]) [9]). right. split; [reflexivity|]. exists [[1; 2]; [3]].
  split; [repeat constructor|]. split; [reflexivity|]. split; reflexivity.
Defined.
