(* ===== verification/Md32.v ===== *)
(** * The collector of 32-bit hash functions (crypto/fipsmodule/digest/md32_common.h)

    [crypto_md32_update] and [crypto_md32_final] cut the data that a client passes
    in pieces of any size into blocks, for any block function. The fields of the
    context that they are given pointers to are the record [md32]. *)

From S2P Require Import Prelude Words Mem.

Record md32 := mk_md32 {
  h : list Z;
  data : list Z;
  num : Z;
  Nh : Z;
  Nl : Z
}.

Section Collector.
(** [block_func h data n] is the state [h] after the first [n] blocks of [data]. *)
Context (block_func : list Z -> list Z -> Z -> list Z) (block_size : Z).

(** The number of bits processed so far. *)
Definition add_bits (st : md32) (len : Z) : md32 :=
  let l := u32 (Nl st + u32 (u32 len ≪ 3)) in
  let Nh1 := if l <? Nl st then u32 (Nh st + 1) else Nh st in
  mk_md32 (h st) (data st) (num st) (u32 (Nh1 + u32 (len ≫ 29))) l.

(** The whole blocks of the input, and what is left of it. *)
Definition whole_blocks (st : md32) (in_ : list Z) : md32 :=
  let n := zlen in_ / block_size in
  let '(h, in_) := if n >? 0 then (block_func (h st) in_ n, zdrop (n * block_size) in_) else (h st, in_) in
  if negb (zlen in_ =? 0) then mk_md32 h (store (data st) 0 in_) (u32 (zlen in_)) (Nh st) (Nl st)
  else mk_md32 h (data st) (num st) (Nh st) (Nl st).

Definition crypto_md32_update (st : md32) (in_ : list Z) : md32 :=
  let len := zlen in_ in
  if len =? 0 then st
  else
    let st := add_bits st len in
    let n := num st in
    if negb (n =? 0) then
      if (len >=? block_size) || (u64 (len + n) >=? block_size) then
        let data := store (data st) n (ztake (block_size - n) in_) in
        let h := block_func (h st) data 1 in
        whole_blocks (mk_md32 h (replicate (Z.to_nat block_size) 0) 0 (Nh st) (Nl st)) (zdrop (block_size - n) in_)
      else mk_md32 (h st) (store (data st) n in_) (u32 (num st + u32 len)) (Nh st) (Nl st)
    else whole_blocks st in_.

Definition crypto_md32_final (st : md32) (is_big_endian : bool) : md32 :=
  let n := num st in
  let data := zupd (data st) n 0x80 in
  let n := n + 1 in
  let '(h, data, n) :=
    if n >? block_size - 8 then
      let data := store data n (replicate (Z.to_nat (block_size - n)) 0) in
      (block_func (h st) data 1, data, 0)
    else (h st, data, n) in
  let data := store data n (replicate (Z.to_nat (block_size - 8 - n)) 0) in
  let data :=
    if is_big_endian then
      store (store data (block_size - 8) (CRYPTO_store_u32_be (Nh st))) (block_size - 4) (CRYPTO_store_u32_be (Nl st))
    else
      store (store data (block_size - 8) (CRYPTO_store_u32_le (Nl st))) (block_size - 4) (CRYPTO_store_u32_le (Nh st)) in
  mk_md32 (block_func h data 1) (replicate (Z.to_nat block_size) 0) 0 (Nh st) (Nl st).
End Collector.

(** ** The hash of a message *)

Section Reference.
Context (compress : list Z -> list Z -> list Z) (block_size : Z).

(** A message cut into blocks; a rest shorter than a block is left out. *)
Fixpoint chunks (fuel : nat) (m : list Z) : list (list Z) :=
  match fuel with
  | O => []
  | S fuel => if zlen m <? block_size then [] else ztake block_size m :: chunks fuel (zdrop block_size m)
  end.

(** The bit 1, zeros up to the length field, and the number of bits in 64 bits. *)
Definition padding (is_big_endian : bool) (len : Z) : list Z :=
  [0x80] ++ replicate (Z.to_nat ((- (len + 9)) mod block_size)) 0 ++
  (if is_big_endian then be_bytes 8 (8 * len) else le_bytes 8 (8 * len)).

Definition padded (is_big_endian : bool) (m : list Z) : list Z := m ++ padding is_big_endian (zlen m).

Definition md_hash (is_big_endian : bool) (h0 m : list Z) : list Z :=
  fold_left compress (chunks (length (padded is_big_endian m)) (padded is_big_endian m)) h0.
End Reference.

(** What a block function promises the collector: called with at least one block,
    it folds a compression function over whole blocks and reads nothing after them.
    (The loop of SHA-1 would not stop at no blocks; the collector never asks it to.) *)
Class BlockFunction (block_func : list Z -> list Z -> Z -> list Z) (block_size : Z)
    (compress : list Z -> list Z -> list Z) : Prop := {
  block_size_range : 9 <= block_size < 2 ^ 31;
  block_func_blocks h blocks rest : blocks <> [] -> zlen blocks < 2 ^ 64 -> Forall (fun b => zlen b = block_size /\ bytes_ok b) blocks ->
    block_func h (concat blocks ++ rest) (zlen blocks) = fold_left compress blocks h
}.

(** * Correctness

    For any block function that folds a compression function over its blocks, the
    collector computes the hash of the whole message, however it is cut. *)

Section Chunks.
Context (block_size : Z) (positive : 0 < block_size).

Definition whole (b : list Z) : Prop := zlen b = block_size.

Lemma concat_whole blocks : Forall whole blocks -> zlen (concat blocks) = zlen blocks * block_size.
Proof.
  induction 1 as [|b l Hb _ IH]; [done|]. cbn [concat]. unfold whole in Hb. rewrite zlen_app, zlen_cons, IH. lia.
Qed.

(** Cutting is unique. *)
Lemma chunks_concat fuel blocks tail : Forall whole blocks -> zlen tail < block_size ->
  (length (concat blocks ++ tail) <= fuel)%nat -> chunks block_size fuel (concat blocks ++ tail) = blocks.
Proof.
  intros Hb Ht. revert fuel. induction Hb as [|b l Hb _ IH]; intros fuel Hl.
  - destruct fuel; [done|]. cbn [chunks concat app]. by rewrite (proj2 (Z.ltb_lt _ _)).
  - unfold whole in Hb. cbn [concat] in *. rewrite <- app_assoc in *. rewrite length_app in Hl.
    destruct fuel as [|fuel]; [exfalso; unfold zlen in Hb; lia|]. cbn [chunks].
    rewrite zlen_app. zlen_pos. rewrite (proj2 (Z.ltb_ge _ _)) by lia.
    rewrite ztake_app, zdrop_app by done. f_equal. apply IH. unfold zlen in Hb. lia.
Qed.

Lemma cut_blocks m : exists blocks tail, m = concat blocks ++ tail /\ Forall whole blocks /\ zlen tail < block_size.
Proof.
  induction m as [m IH] using (induction_ltof1 _ (@length Z)). unfold ltof in IH.
  destruct (Z.lt_ge_cases (zlen m) block_size) as [Hlt|Hge]; [by exists [], m|].
  destruct (zsplit block_size m) as (a & m' & -> & Ha); [lia|].
  destruct (IH m') as (blocks & tail & -> & Hb & Ht); [rewrite length_app; unfold zlen in *; lia|].
  exists (a :: blocks), tail. cbn [concat]. rewrite <- app_assoc. split_and!; [done|by constructor|done].
Qed.
End Chunks.

(** ** The length field *)

Lemma be_bytes_app n k v : be_bytes (n + k) v = be_bytes n (v / 256 ^ Z.of_nat k) ++ be_bytes k v.
Proof.
  induction n as [|n IH]; [done|]. cbn [Nat.add]. rewrite !be_bytes_cons, IH. cbn [app]. f_equal.
  rewrite Nat2Z.inj_add, Z.pow_add_r, Z.mul_comm, <- Z.div_div by (try apply Z.pow_pos_nonneg; lia). done.
Qed.

(** Eight bytes of a number are those of its two words. *)
Lemma length_bytes hi lo n : 0 <= hi < 2 ^ 32 -> 0 <= lo < 2 ^ 32 -> hi * 2 ^ 32 + lo = n mod 2 ^ 64 ->
  be_bytes 8 n = be_bytes 4 hi ++ be_bytes 4 lo.
Proof.
  intros Hhi Hlo E. rewrite <- (be_bytes_mod 8 n). change (256 ^ Z.of_nat 8) with (2 ^ 64). rewrite <- E.
  rewrite (be_bytes_app 4 4). change (256 ^ Z.of_nat 4) with (2 ^ 32). rewrite <- (be_bytes_mod 4 (hi * 2 ^ 32 + lo)).
  change (256 ^ Z.of_nat 4) with (2 ^ 32). change (2 ^ 32) with 4294967296 in *. f_equal; f_equal; dlia.
Qed.

Definition length_words (is_big_endian : bool) (hi lo : Z) : list Z :=
  if is_big_endian then CRYPTO_store_u32_be hi ++ CRYPTO_store_u32_be lo
  else CRYPTO_store_u32_le lo ++ CRYPTO_store_u32_le hi.

Lemma length_words_bytes be hi lo n : 0 <= hi < 2 ^ 32 -> 0 <= lo < 2 ^ 32 -> hi * 2 ^ 32 + lo = n mod 2 ^ 64 ->
  length_words be hi lo = if be then be_bytes 8 n else le_bytes 8 n.
Proof.
  intros Hhi Hlo E. unfold length_words, CRYPTO_store_u32_le, le_bytes. rewrite (length_bytes hi lo n) by done.
  destruct be; [by rewrite !store_u32_be_bytes|]. by rewrite rev_app_distr.
Qed.

Lemma zlen_length_words be hi lo : zlen (length_words be hi lo) = 8.
Proof.
  unfold length_words, CRYPTO_store_u32_be, CRYPTO_store_u32_le. destruct be; rewrite zlen_app, !zlen_le_bytes; done.
Qed.

(** The two stores of the length at the end of a block. *)
Lemma store_length (be : bool) n hi lo x junk : zlen x = n - 8 -> zlen junk = 8 ->
  (if be then store (store (x ++ junk) (n - 8) (CRYPTO_store_u32_be hi)) (n - 4) (CRYPTO_store_u32_be lo)
   else store (store (x ++ junk) (n - 8) (CRYPTO_store_u32_le lo)) (n - 4) (CRYPTO_store_u32_le hi)) =
  x ++ length_words be hi lo.
Proof.
  intros Hx Hj. destruct (zsplit 4 junk) as (j1 & j2 & -> & Hj1); [lia|]. rewrite zlen_app in Hj.
  assert (Hstore : forall w1 w2, zlen w1 = 4 -> zlen w2 = 4 ->
    store (store (x ++ j1 ++ j2) (n - 8) w1) (n - 4) w2 = x ++ w1 ++ w2).
  { intros w1 w2 H1 H2. rewrite (store_app _ (n - 8) w1 x j1 j2) by (done || lia).
    rewrite (store_app _ (n - 4) w2 (x ++ w1) j2 []) by (rewrite ?app_nil_r, <- ?app_assoc, ?zlen_app; done || lia).
    by rewrite app_nil_r, <- app_assoc. }
  unfold length_words. destruct be; apply Hstore; apply zlen_le_bytes.
Qed.

Section Facts.
Context `{BlockFunction block_func block_size compress}.

(** The message [m] was absorbed: its whole blocks are in the hash and the rest is
    in [data]. *)
Definition absorbed (h0 m : list Z) (st : md32) : Prop := exists blocks tail junk,
  m = concat blocks ++ tail /\ Forall (whole block_size) blocks /\ zlen tail < block_size /\
  h st = fold_left compress blocks h0 /\ num st = zlen tail /\ data st = tail ++ junk /\ zlen (data st) = block_size.

(** The counter is that of [n] octets. *)
Definition counts (n : Z) (st : md32) : Prop :=
  0 <= Nh st < 2 ^ 32 /\ 0 <= Nl st < 2 ^ 32 /\ Nh st * 2 ^ 32 + Nl st = (8 * n) mod 2 ^ 64.

(** The carry from the low word of the counter. *)
Lemma add_bits_spec st len n : counts n st -> 0 <= len < 2 ^ 64 -> counts (n + len) (add_bits st len).
Proof.
  intros (Hh & Hl & Hn) Hlen. unfold counts, add_bits. cbn [Nh Nl]. unfold u32. rewrite Z.shiftl_mul_pow2, Z.shiftr_div_pow2 by lia.
  change (2 ^ 3) with 8. change (2 ^ 29) with 536870912. change (2 ^ 32) with 4294967296 in *.
  change (2 ^ 64) with 18446744073709551616 in *.
  replace (len mod 4294967296 * 8 mod 4294967296) with (8 * (len mod 536870912)) by dlia.
  set (r := len mod 536870912). set (q := len / 536870912). assert (Elen : len = q * 536870912 + r) by (unfold q, r; dlia).
  assert (Hr : 0 <= r < 536870912) by (unfold r; dlia). assert (Hq : 0 <= q < 2 ^ 35) by (unfold q; dlia).
  clearbody q r. subst len. set (l := Nl st) in *. set (hh := Nh st) in *. clearbody l hh.
  destruct (Z.ltb_spec ((l + 8 * r) mod 4294967296) l); (split; [dlia|]; split; [dlia|]).
  - assert (4294967296 <= l + 8 * r) by dlia. dlia.
  - assert (l + 8 * r < 4294967296) by dlia. dlia.
Qed.
Lemma one_block hh b : whole block_size b -> bytes_ok b -> block_func hh b 1 = compress hh b.
Proof.
  intros Hb Hok. pose proof (block_func_blocks hh [b] [] ltac:(done) ltac:(done) (Forall_cons_2 _ _ _ (conj Hb Hok) (Forall_nil_2 _))) as E.
  cbn [concat fold_left] in E. rewrite !app_nil_r in E. exact E.
Qed.

Lemma blocks_bytes blocks : Forall (whole block_size) blocks -> bytes_ok (concat blocks) ->
  Forall (fun b => zlen b = block_size /\ bytes_ok b) blocks.
Proof.
  induction 1 as [|b l Hb _ IH]; cbn [concat]; [constructor|]. intros [Hok Hl]%Forall_app. constructor; [done|by apply IH].
Qed.

Lemma whole_blocks_spec h0 m st in_ : absorbed h0 m st -> num st = 0 -> bytes_ok in_ -> zlen in_ < 2 ^ 64 ->
  absorbed h0 (m ++ in_) (whole_blocks block_func block_size st in_) /\
  Nh (whole_blocks block_func block_size st in_) = Nh st /\ Nl (whole_blocks block_func block_size st in_) = Nl st.
Proof.
  intros (blocks & tail & junk & -> & Hb & Ht & Hh & Hn & Hd & Hdl) Hnum Hok Hsize. pose proof block_size_range as Hbs.
  rewrite Hnum in Hn. symmetry in Hn. apply zlen_0_nil in Hn as ->. rewrite app_nil_r.
  destruct (cut_blocks block_size ltac:(lia) in_) as (bs & t & -> & Hbs' & Ht'). apply Forall_app in Hok as [Hok _].
  unfold whole_blocks. pose proof (concat_whole block_size bs Hbs') as Hlen.
  assert (Hq : zlen (concat bs ++ t) / block_size = zlen bs).
  { rewrite zlen_app, Hlen, Z.add_comm, Z.div_add, Z.div_small by (zlen_pos; lia). done. }
  rewrite Hq.
  assert (Hif : (if zlen bs >? 0 then (block_func (h st) (concat bs ++ t) (zlen bs), zdrop (zlen bs * block_size) (concat bs ++ t))
    else (h st, concat bs ++ t)) = (fold_left compress (blocks ++ bs) h0, t)).
  { destruct (Z.gtb_spec (zlen bs) 0) as [Hpos|Hz].
    - rewrite (block_func_blocks (h st) bs t); [|by intros ->|rewrite zlen_app in Hsize; zlen_pos; nia|by apply blocks_bytes]. rewrite zdrop_app by lia.
      by rewrite fold_left_app, <- Hh.
    - zlen_pos. assert (bs = []) as -> by (apply zlen_0_nil; lia). by rewrite app_nil_r, Hh. }
  rewrite Hif. unfold absorbed. destruct (Z.eqb_spec (zlen t) 0) as [Hz|Hz]; cbn [negb h num data Nh Nl].
  - apply zlen_0_nil in Hz as ->. split; [|done]. exists (blocks ++ bs), [], (data st). rewrite concat_app, !app_nil_r.
    split_and!; try done. by apply Forall_app.
  - split; [|done]. exists (blocks ++ bs), t, (zdrop (zlen t) (data st)).
    assert (Est : store (data st) 0 t = t ++ zdrop (zlen t) (data st)) by done. rewrite Est, concat_app, <- app_assoc.
    zlen_pos. split_and!; try done.
    + by apply Forall_app.
    + unfold u32. apply Z.mod_small. lia.
    + rewrite zlen_app, zlen_zdrop by lia. lia.
Qed.

(** An update absorbs its input. *)
Lemma update_spec h0 m st in_ : absorbed h0 m st -> counts (zlen m) st -> bytes_ok (m ++ in_) -> zlen in_ < 2 ^ 64 ->
  absorbed h0 (m ++ in_) (crypto_md32_update block_func block_size st in_) /\
  counts (zlen (m ++ in_)) (crypto_md32_update block_func block_size st in_).
Proof.
  intros Habs Hc Hok Hlen. pose proof block_size_range as Hbs. unfold crypto_md32_update.
  destruct (Z.eqb_spec (zlen in_) 0) as [Hz|Hz].
  { apply zlen_0_nil in Hz as ->. by rewrite app_nil_r. }
  apply (add_bits_spec st (zlen in_)) in Hc; [|zlen_pos; lia]. rewrite <- zlen_app in Hc.
  assert (Habs' : absorbed h0 m (add_bits st (zlen in_))) by exact Habs.
  set (st1 := add_bits st (zlen in_)) in *. clearbody st1. clear Habs st. unfold counts in *.
  apply Forall_app in Hok as [Hm Hin].
  destruct (Z.eqb_spec (num st1) 0) as [Hn0|Hn0]; cbn [negb].
  { destruct (whole_blocks_spec h0 m st1 in_ Habs' Hn0 Hin Hlen) as (Ha & -> & ->). done. }
  destruct Habs' as (blocks & tail & junk & -> & Hb & Ht & Hh & Hn & Hd & Hdl). rewrite Hd, zlen_app in Hdl.
  apply Forall_app in Hm as [_ Htok].
  destruct ((zlen in_ >=? block_size) || (u64 (zlen in_ + num st1) >=? block_size)) eqn:Hfull.
  - assert (Hge : block_size <= zlen in_ + zlen tail).
    { zlen_pos. rewrite Hn in Hfull. apply orb_true_iff in Hfull as [Hf|Hf]; apply Z.geb_le in Hf; [lia|].
      unfold u64 in Hf. pose proof (Z.mod_le (zlen in_ + zlen tail) 18446744073709551616). lia. }
    destruct (zsplit (block_size - zlen tail) in_) as (a & in' & -> & Ha); [zlen_pos; lia|].
    apply Forall_app in Hin as [Haok Hinok]. rewrite Hn, ztake_app, zdrop_app by done.
    rewrite Hd. rewrite (store_app (tail ++ junk) (zlen tail) a tail junk []) by (rewrite ?app_nil_r; done || lia).
    rewrite app_nil_r. rewrite one_block; [|unfold whole; rewrite zlen_app; lia|by apply Forall_app].
    pose proof (whole_blocks_spec h0 ((concat blocks ++ tail) ++ a)
      (mk_md32 (compress (h st1) (tail ++ a)) (replicate (Z.to_nat block_size) 0) 0 (Nh st1) (Nl st1)) in') as Hw.
    cbn [Nh Nl num] in Hw. rewrite app_assoc in Hc |- *. destruct Hw as (Hw & -> & ->); [|done..|rewrite zlen_app in Hlen; zlen_pos; lia|done].
    exists (blocks ++ [tail ++ a]), [], (replicate (Z.to_nat block_size) 0). cbn [h num data].
    rewrite concat_app, fold_left_app, <- Hh, !app_nil_r, zlen_replicate. cbn [concat fold_left]. rewrite app_nil_r, app_assoc.
    split_and!; try done; [|rewrite zlen_nil; lia|lia]. apply Forall_app. split; [done|]. repeat constructor. unfold whole. rewrite zlen_app. lia.
  - apply orb_false_iff in Hfull as [H1 H2]. rewrite Z.geb_leb in H1, H2. apply Z.leb_gt in H1, H2. rewrite Hn in H2.
    unfold u64 in H2. zlen_pos. rewrite Z.mod_small in H2 by lia. split; [|done]. cbn [h num data].
    exists blocks, (tail ++ in_), (zdrop (zlen in_) junk).
    destruct (zsplit (zlen in_) junk) as (j1 & j2 & -> & Hj); [lia|]. rewrite Hn, Hd.
    rewrite (store_app _ (zlen tail) in_ tail j1 j2) by (rewrite <- ?app_assoc; done || lia).
    rewrite zdrop_app by done. rewrite !zlen_app in *. unfold u32. rewrite (Z.mod_small (zlen in_)) by lia.
    rewrite (Z.mod_small (zlen tail + zlen in_)) by lia. rewrite <- !app_assoc. cbn [h num data Nh Nl]. split_and!; try done; rewrite ?zlen_app in *; lia.
Qed.
(** Padding fills the block, or needs another one. *)
Lemma padding_split (be : bool) blocks tail : Forall (whole block_size) blocks -> zlen tail < block_size ->
  padding block_size be (zlen (concat blocks ++ tail)) =
  [0x80] ++ replicate (Z.to_nat (if zlen tail + 1 >? block_size - 8 then 2 * block_size - 9 - zlen tail
                                 else block_size - 9 - zlen tail)) 0 ++
  (if be then be_bytes 8 (8 * zlen (concat blocks ++ tail)) else le_bytes 8 (8 * zlen (concat blocks ++ tail))).
Proof.
  intros Hb Ht. pose proof block_size_range as Hbs. unfold padding. do 4 f_equal. rewrite zlen_app, (concat_whole block_size) by done. zlen_pos.
  destruct (Z.gtb_spec (zlen tail + 1) (block_size - 8)).
  - symmetry. apply (Z.mod_unique_pos _ _ (- zlen blocks - 2)); lia.
  - symmetry. apply (Z.mod_unique_pos _ _ (- zlen blocks - 1)); lia.
Qed.

Lemma hash_whole blocks h0 : Forall (whole block_size) blocks ->
  fold_left compress (chunks block_size (length (concat blocks)) (concat blocks)) h0 = fold_left compress blocks h0.
Proof.
  intros Hb. pose proof block_size_range as Hbs.
  pose proof (chunks_concat block_size ltac:(lia) (length (concat blocks)) blocks [] Hb) as Hc. rewrite app_nil_r in Hc.
  rewrite Hc; [done|rewrite zlen_nil; lia|done].
Qed.

Definition zeros (n : Z) : list Z := replicate (Z.to_nat n) 0.
Lemma zlen_zeros n : 0 <= n -> zlen (zeros n) = n.
Proof. intros. unfold zeros. rewrite zlen_replicate. lia. Qed.
Lemma zeros_ok n : bytes_ok (zeros n).
Proof. apply Forall_replicate. unfold is_byte. lia. Qed.
Lemma zeros_app n k : 0 <= n -> 0 <= k -> zeros n ++ zeros k = zeros (n + k).
Proof. intros. unfold zeros. rewrite <- replicate_add. f_equal. lia. Qed.

Lemma length_words_ok be hi lo : bytes_ok (length_words be hi lo).
Proof.
  unfold length_words, CRYPTO_store_u32_be, CRYPTO_store_u32_le, le_bytes.
  destruct be; apply Forall_app; split; apply Forall_rev, be_bytes_ok.
Qed.

(** What [crypto_md32_final] gives to the block function. *)
Lemma final_blocks be st tail junk : data st = tail ++ junk -> num st = zlen tail -> zlen tail < block_size ->
  zlen (data st) = block_size -> bytes_ok tail ->
  h (crypto_md32_final block_func block_size st be) =
  if zlen tail + 1 >? block_size - 8 then
    compress (compress (h st) (tail ++ [0x80] ++ zeros (block_size - 1 - zlen tail)))
      (zeros (block_size - 8) ++ length_words be (Nh st) (Nl st))
  else compress (h st) (tail ++ [0x80] ++ zeros (block_size - 9 - zlen tail) ++ length_words be (Nh st) (Nl st)).
Proof.
  intros Hd Hn Ht Hdl Hok. pose proof block_size_range as Hbs. rewrite Hd, zlen_app in Hdl. zlen_pos.
  destruct junk as [|j junk]; [rewrite zlen_nil in Hdl; lia|]. rewrite zlen_cons in Hdl.
  unfold crypto_md32_final. rewrite Hd, Hn, zupd_app by done. rewrite app_cons_snoc.
  assert (Hx : zlen (tail ++ [0x80]) = zlen tail + 1) by (rewrite zlen_app; done).
  pose proof (zlen_length_words be (Nh st) (Nl st)) as Hw. pose proof (length_words_ok be (Nh st) (Nl st)) as Hwok.
  assert (Hxok : bytes_ok (tail ++ [0x80])) by (apply Forall_app; split; [done|repeat constructor; lia]).
  destruct (Z.gtb_spec (zlen tail + 1) (block_size - 8)) as [Hbig|Hsmall]; cbv beta iota zeta.
  - fold (zeros (block_size - (zlen tail + 1))). replace (block_size - (zlen tail + 1)) with (block_size - 1 - zlen tail) by lia.
    pose proof (zlen_zeros (block_size - 1 - zlen tail) ltac:(lia)) as Hz.
    rewrite (store_app _ (zlen tail + 1) _ (tail ++ [0x80]) junk []) by (rewrite ?app_nil_r; done || lia).
    rewrite app_nil_r. set (b1 := (tail ++ [0x80]) ++ zeros (block_size - 1 - zlen tail)).
    assert (Hb1 : zlen b1 = block_size) by (unfold b1; rewrite zlen_app; lia).
    destruct (zsplit (block_size - 8) b1) as (x1 & x2 & E & Hx1); [lia|].
    fold (zeros (block_size - 8 - 0)). rewrite Z.sub_0_r. pose proof (zlen_zeros (block_size - 8) ltac:(lia)) as Hz8.
    rewrite (store_app b1 0 (zeros (block_size - 8)) [] x1 x2) by (done || lia). cbn [app].
    pose proof Hb1 as Hb2. rewrite E, zlen_app in Hb2. rewrite store_length by lia. cbn [h].
    rewrite !one_block; [by unfold b1; rewrite <- app_assoc|done|..].
    + unfold b1. apply Forall_app. split; [done|apply zeros_ok].
    + unfold whole. rewrite zlen_app. lia.
    + apply Forall_app. split; [apply zeros_ok|done].
  - fold (zeros (block_size - 8 - (zlen tail + 1))). replace (block_size - 8 - (zlen tail + 1)) with (block_size - 9 - zlen tail) by lia.
    pose proof (zlen_zeros (block_size - 9 - zlen tail) ltac:(lia)) as Hz.
    destruct (zsplit (block_size - 9 - zlen tail) junk) as (j1 & j2 & -> & Hj); [lia|]. rewrite zlen_app in Hdl.
    rewrite (store_app _ (zlen tail + 1) _ (tail ++ [0x80]) j1 j2) by (done || lia).
    rewrite (app_assoc (tail ++ [0x80])), store_length by (rewrite ?zlen_app in *; lia). cbn [h].
    rewrite one_block; [by rewrite <- !app_assoc|..].
    + unfold whole. rewrite !zlen_app in *. lia.
    + apply Forall_app. split; [|done]. apply Forall_app. split; [done|apply zeros_ok].
Qed.

(** The final call hashes the padding. *)
Lemma final_spec be h0 m st : absorbed h0 m st -> counts (zlen m) st -> bytes_ok m ->
  h (crypto_md32_final block_func block_size st be) = md_hash compress block_size be h0 m.
Proof.
  intros (blocks & tail & junk & -> & Hb & Ht & Hh & Hn & Hd & Hdl) (Hhi & Hlo & Hbits) Hok.
  pose proof block_size_range as Hbs. apply Forall_app in Hok as [_ Htok]. rewrite (final_blocks be st tail junk) by done.
  unfold md_hash, padded. rewrite (padding_split be) by done. rewrite <- (length_words_bytes be (Nh st) (Nl st)) by done.
  set (w := length_words be (Nh st) (Nl st)). assert (Hw : zlen w = 8) by apply zlen_length_words. rewrite Hh, <- (app_assoc _ tail).
  zlen_pos. destruct (Z.gtb_spec (zlen tail + 1) (block_size - 8)) as [Hbig|Hsmall].
  - set (b1 := tail ++ [0x80] ++ zeros (block_size - 1 - zlen tail)). set (b2 := zeros (block_size - 8) ++ w).
    match goal with |- context [chunks _ _ ?p] => assert (E : p = concat (blocks ++ [b1; b2])) end.
    { rewrite concat_app. cbn [concat]. rewrite app_nil_r. unfold b1, b2. rewrite <- !app_assoc. do 3 f_equal.
      rewrite app_assoc, zeros_app by lia. unfold zeros. do 3 f_equal. lia. }
    rewrite E, hash_whole; [by rewrite fold_left_app|]. apply Forall_app. split; [done|]. unfold b1, b2, whole.
    repeat constructor; rewrite !zlen_app, !zlen_zeros by lia; change (zlen [128]) with 1; lia.
  - set (b1 := tail ++ [0x80] ++ zeros (block_size - 9 - zlen tail) ++ w).
    match goal with |- context [chunks _ _ ?p] => assert (E : p = concat (blocks ++ [b1])) end.
    { rewrite concat_app. cbn [concat]. by rewrite app_nil_r. }
    rewrite E, hash_whole; [by rewrite fold_left_app|]. apply Forall_app. split; [done|]. unfold b1, whole.
    repeat constructor. rewrite !zlen_app, !zlen_zeros by lia. change (zlen [128]) with 1. lia.
Qed.
(** Any number of updates. *)
Lemma updates_spec pieces h0 m st : absorbed h0 m st -> counts (zlen m) st -> bytes_ok (m ++ concat pieces) ->
  Forall (fun p => zlen p < 2 ^ 64) pieces ->
  absorbed h0 (m ++ concat pieces) (fold_left (crypto_md32_update block_func block_size) pieces st) /\
  counts (zlen (m ++ concat pieces)) (fold_left (crypto_md32_update block_func block_size) pieces st).
Proof.
  intros Ha Hc Hok Hl. revert m st Ha Hc Hok. induction Hl as [|p l Hp _ IH]; intros m st Ha Hc Hok; cbn [concat fold_left] in *.
  - by rewrite app_nil_r.
  - rewrite app_assoc in Hok |- *. apply Forall_app in Hok as Hok'. destruct Hok' as [Hok' _].
    destruct (update_spec h0 m st p Ha Hc Hok' Hp) as [Ha' Hc']. by apply IH.
Qed.

Definition md32_start (h0 : list Z) : md32 := mk_md32 h0 (zeros block_size) 0 0 0.

Lemma start_spec h0 : absorbed h0 [] (md32_start h0) /\ counts (zlen (@nil Z)) (md32_start h0).
Proof.
  pose proof block_size_range as Hbs. split; [|by unfold counts; cbn]. exists [], [], (zeros block_size). cbn [h data num md32_start].
  rewrite zlen_zeros by lia. split_and!; try done. rewrite zlen_nil. lia.
Qed.

Lemma md32_run_spec be h0 pieces : bytes_ok (concat pieces) -> Forall (fun p => zlen p < 2 ^ 64) pieces ->
  h (crypto_md32_final block_func block_size (fold_left (crypto_md32_update block_func block_size) pieces (md32_start h0)) be) =
  md_hash compress block_size be h0 (concat pieces).
Proof.
  intros Hok Hl. destruct (start_spec h0) as [Ha Hc].
  destruct (updates_spec pieces h0 [] (md32_start h0) Ha Hc Hok Hl) as [Ha' Hc']. by apply final_spec.
Qed.
End Facts.

(** The collector computes the hash of the whole message: for any block
    function that keeps its promise, any initial hash, and a message passed in any
    pieces, empty ones included, the final call leaves the compression of the
    padded message, with the number of bits modulo 2^64 in either byte order. *)
Theorem md32_any_pieces `{BlockFunction block_func block_size compress} be h0 pieces :
  bytes_ok (concat pieces) -> Forall (fun p => zlen p < 2 ^ 64) pieces ->
  h (crypto_md32_final block_func block_size
       (fold_left (crypto_md32_update block_func block_size) pieces (md32_start (block_size := block_size) h0)) be) =
  md_hash compress block_size be h0 (concat pieces).
Proof. apply md32_run_spec. Qed.

(** Blocks of 12 bytes collected as they are: the result is the padded message. *)
Definition collect_blocks (h data : list Z) (n : Z) : list Z := h ++ ztake (n * 12) data.

#[global] Instance collect_blocks_function : BlockFunction collect_blocks 12 (fun h b => h ++ b).
Proof.
  constructor; [lia|]. intros hh blocks rest _ _ Hb. unfold collect_blocks.
  assert (Hw : Forall (whole 12) blocks) by (eapply Forall_impl; [exact Hb|]; by intros b [? _]).
  rewrite ztake_app by (by apply concat_whole). clear Hw. revert hh.
  induction Hb as [|b l _ _ IH]; intros hh; cbn [concat fold_left]; [by rewrite app_nil_r|]. by rewrite <- IH, app_assoc.
Qed.

Lemma md32_any_pieces_witness :
  h (crypto_md32_final collect_blocks 12
       (fold_left (crypto_md32_update collect_blocks 12) [[1; 2]; []; [3; 4; 5]] (md32_start (block_size := 12) [])) false) =
  [1; 2; 3; 4; 5; 0x80] ++ replicate 10 0 ++ [40; 0; 0; 0; 0; 0; 0; 0].
Proof.
  rewrite (md32_any_pieces (compress := fun h b => h ++ b)); [reflexivity| |];
    (repeat (apply Forall_cons; split; [vm_compute; intuition discriminate|])); apply Forall_nil; exact I.
Defined.
