(* ===== verification/HashBlocks.v ===== *)
(** * What the hashes over the collector share

    Words and the big-endian words of a block, a circular array that holds the last
    words of a growing schedule, and the change from the code's block function to
    a reference that agrees with it. *)

From S2P Require Import Prelude Words Mem Md32.

(** ** Words *)

Definition is_word (x : Z) : Prop := 0 <= x < 2 ^ 32.
Abbreviation words_ok := (Forall is_word).

Lemma u32_word x : is_word (u32 x).
Proof. unfold is_word, u32. apply Z.mod_pos_bound. lia. Qed.

Lemma store_words s : words_ok s -> map CRYPTO_store_u32_be s = map (be_bytes 4) s.
Proof. induction 1 as [|x l Hx _ IH]; [done|]. cbn [map]. by rewrite IH, store_u32_be_bytes. Qed.

(** ** Functions of FIPS 180-4 *)

(** The largest number of [bits] bits whose [k]th power is at most [n]. *)
Fixpoint root (k : Z) (bits : nat) (n r : Z) : Z :=
  match bits with
  | O => r
  | S bits => let r' := r + 2 ^ Z.of_nat bits in root k bits n (if r' ^ k <=? n then r' else r)
  end.

(** Section 4.1: [ROTR], [Ch] and [Maj] on 32-bit words. *)
Definition ROTR (n x : Z) : Z := rotate_right 32 n x.
Definition fips_Ch (x y z : Z) : Z := (x .& y) .^ ((2 ^ 32 - 1 - x) .& z).
Definition fips_Maj (x y z : Z) : Z := (x .& y) .^ (x .& z) .^ (y .& z).

(** ** Arrays *)

Lemma zdrop_cons i l : 0 <= i < zlen l -> zdrop i l = znth 0 l i :: zdrop (i + 1) l.
Proof.
  intros Hi. destruct (zsplit i l) as (a & b & -> & Ha); [lia|]. rewrite zlen_app in Hi.
  assert (Hb : zlen b <> 0) by lia. destruct b as [|x b]; [done|]. rewrite zdrop_app by done. f_equal.
  - unfold znth. rewrite app_nth2; unfold zlen in Ha; [|lia]. by replace (Z.to_nat i - length a)%nat with 0%nat by lia.
  - rewrite app_cons_snoc, zdrop_app; [done|]. rewrite zlen_app. unfold zlen in *. cbn. lia.
Qed.

(** The circular array holds the last sixteen words. *)
Definition circular (w X : list Z) : Prop :=
  zlen X = 16 /\ 16 <= zlen w /\ forall k, zlen w - 16 <= k < zlen w -> znth 0 X (k mod 16) = znth 0 w k.

Lemma znth_app_l l k i : 0 <= i < zlen l -> znth 0 (l ++ k) i = znth 0 l i.
Proof. intros Hi. unfold znth, zlen in *. apply app_nth1. lia. Qed.
Lemma znth_last l x : znth 0 (l ++ [x]) (zlen l) = x.
Proof. unfold znth. rewrite zlen_to_nat, app_nth2, Nat.sub_diag by lia. done. Qed.
Lemma znth_app_at (p a : list Z) x : znth 0 (p ++ x :: a) (zlen p) = x.
Proof. unfold znth. by rewrite zlen_to_nat, app_nth2, Nat.sub_diag by lia. Qed.
Lemma znth_zupd_same l i x : 0 <= i < zlen l -> znth 0 (zupd l i x) i = x.
Proof.
  intros Hi. unfold znth, zupd, zlen in *. rewrite nth_lookup, list_lookup_insert_eq by lia. done.
Qed.
Lemma znth_zupd_other l i j x : 0 <= i -> 0 <= j -> i <> j -> znth 0 (zupd l i x) j = znth 0 l j.
Proof. intros Hi Hj Hne. unfold znth, zupd. rewrite !nth_lookup, list_lookup_insert_ne by lia. done. Qed.

Lemma circular_next w X x : circular w X -> circular (w ++ [x]) (zupd X (zlen w mod 16) x).
Proof.
  intros (HX & Hw & Hk). assert (HX' : zlen (zupd X (zlen w mod 16) x) = 16) by (unfold zupd, zlen in *; by rewrite length_insert).
  unfold circular. rewrite HX', zlen_app. change (zlen [x]) with 1. split; [done|]. split; [lia|]. intros k Hr.
  pose proof (Z.mod_pos_bound (zlen w) 16 ltac:(lia)) as Hm. pose proof (Z.mod_pos_bound k 16 ltac:(lia)) as Hmk.
  destruct (Z.eq_dec k (zlen w)) as [->|Hne].
  - rewrite znth_zupd_same by lia. by rewrite znth_last.
  - rewrite znth_zupd_other by dlia. rewrite znth_app_l by lia. apply Hk. lia.
Qed.

Lemma znth_word l i : words_ok l -> is_word (znth 0 l i).
Proof.
  intros Hl. unfold znth. rewrite nth_lookup. destruct (l !! Z.to_nat i) eqn:E; [|done]. cbn.
  by apply (Forall_lookup_1 _ _ _ _ Hl E).
Qed.

(** Positions before the end of the schedule in the array. *)
Lemma circular_at w X a d : circular w X -> a + d = 16 -> 1 <= d <= 16 ->
  znth 0 X ((zlen w + a) .& 0x0f) = znth 0 w (zlen w - d).
Proof.
  intros (HX & Hw & Hk) Ha Hd. change 0x0f with (2 ^ 4 - 1). rewrite land_ones_mod by lia. change (2 ^ 4) with 16.
  rewrite <- Hk by lia. f_equal. dlia.
Qed.

Lemma fold_left_cons {A B} (f : A -> B -> A) b l a : fold_left f (b :: l) a = fold_left f l (f a b).
Proof. reflexivity. Qed.

(** ** Blocks of sixteen words *)

Lemma upto_range n i : In i (upto 0 n) -> 0 <= i < Z.of_nat n.
Proof. unfold upto. rewrite Nat.sub_0_r, in_map_iff. intros (k & <- & Hk%in_seq). lia. Qed.

Definition block_words (b : list Z) : list Z := map (fun i => be_value (ztake 4 (zdrop (4 * i) b))) (upto 0 16).

Lemma load_block_words b : zlen b = 64 -> bytes_ok b ->
  map (fun i => CRYPTO_load_u32_be (ztake 4 (zdrop (4 * i) b))) (upto 0 16) = block_words b /\ words_ok (block_words b).
Proof.
  intros Hb Hok.
  assert (Hi : forall i, In i (upto 0 16) -> length (ztake 4 (zdrop (4 * i) b)) = 4%nat /\ bytes_ok (ztake 4 (zdrop (4 * i) b))).
  { intros i Hi%upto_range. split; [|by apply Forall_take, Forall_drop].
    apply Nat2Z.inj. change (Z.of_nat (length ?l)) with (zlen l). rewrite zlen_ztake; [done|]. rewrite zlen_zdrop by lia. lia. }
  split.
  - apply map_ext_in. intros i Hin. destruct (Hi i Hin). by apply load_u32_be_value.
  - unfold block_words. apply List.Forall_map, List.Forall_forall. intros i Hin. destruct (Hi i Hin) as [Hl Hbytes].
    pose proof (be_value_bound _ Hbytes) as Hbv. unfold zlen in Hbv. rewrite Hl in Hbv. exact Hbv.
Qed.

Lemma chunks_ok fuel m : bytes_ok m -> Forall (fun b => zlen b = 64 /\ bytes_ok b) (chunks 64 fuel m).
Proof.
  revert m. induction fuel as [|fuel IH]; intros m Hm; cbn [chunks]; [constructor|].
  destruct (Z.ltb_spec (zlen m) 64); [constructor|]. constructor; [|by apply IH, Forall_drop].
  split; [apply zlen_ztake; lia|by apply Forall_take].
Qed.

Lemma padded_ok m : bytes_ok m -> bytes_ok (padded 64 true m).
Proof.
  intros Hm. unfold padded, padding. apply Forall_app. split; [done|]. apply Forall_app. split; [repeat constructor; lia|].
  apply Forall_app. split; [apply zeros_ok|apply be_bytes_ok].
Qed.

(** A block function and a reference that agree on the states they meet. *)
Section Agree.
Context (f g : list Z -> list Z -> list Z) (ok : list Z -> Prop).
Context (agree : forall s b, ok s -> zlen b = 64 -> bytes_ok b -> f s b = g s b /\ ok (f s b)).

Lemma fold_agree blocks state : ok state -> Forall (fun b => zlen b = 64 /\ bytes_ok b) blocks ->
  fold_left f blocks state = fold_left g blocks state /\ ok (fold_left f blocks state).
Proof.
  intros Hst Hb. revert state Hst. induction Hb as [|b l [Hl Hok] _ IH]; intros state Hst; [split; [reflexivity|exact Hst]|].
  rewrite !fold_left_cons. destruct (agree state b Hst Hl Hok) as [<- Hst']. apply IH. exact Hst'.
Qed.

Lemma md_hash_agree m h0 : bytes_ok m -> ok h0 ->
  md_hash f 64 true h0 m = md_hash g 64 true h0 m /\ ok (md_hash f 64 true h0 m).
Proof. intros Hm Hh. apply fold_agree; [exact Hh|]. by apply chunks_ok, padded_ok. Qed.
End Agree.

(** The words of a block are not affected by what follows it. *)
Lemma word_prefix (b rest : list Z) i : zlen b = 64 -> 0 <= i < 16 ->
  ztake 4 (zdrop (4 * i) (b ++ rest)) = ztake 4 (zdrop (4 * i) b).
Proof.
  intros Hb Hi. destruct (zsplit (4 * i) b) as (x & y & -> & Hx); [lia|]. rewrite <- app_assoc, !zdrop_app by done.
  apply ztake_app_le. rewrite zlen_app in Hb. lia.
Qed.

(** A hash state is [n] words; a block function ends by adding to it. *)
Definition state_ok (n : nat) (s : list Z) : Prop := length s = n /\ words_ok s.

Lemma zip_sum_ok n s x : state_ok n s -> length x = n -> state_ok n (zip_with (fun s x => u32 (s + x)) s x).
Proof.
  intros [Hs _] Hx. split; [rewrite length_zip_with; lia|]. clear Hs Hx. revert x.
  induction s as [|y s IH]; intros [|z x]; [constructor..|]. constructor; [apply u32_word|apply IH].
Qed.

(** ** Rounds

    [round v T1 i] is the state of the working variables after round [i] with the
    word [T1]. The code takes the first sixteen words from the block and computes
    the others from its array. *)
Section Rounds.
Context (round : list Z -> Z -> Z -> list Z) (next : list Z -> Z -> Z) (next_word : list Z -> Z).

Fixpoint rounds (i : Z) (v Ts : list Z) : list Z :=
  match Ts with [] => v | T1 :: Ts => rounds (i + 1) (round v T1 i) Ts end.

Lemma rounds_app Ts Us : forall i v, rounds i v (Ts ++ Us) = rounds (i + zlen Ts) (rounds i v Ts) Us.
Proof.
  induction Ts as [|T Ts IH]; intros i v; cbn [app rounds]; [by rewrite Z.add_0_r|]. rewrite IH, zlen_cons. by rewrite Z.add_assoc.
Qed.

Definition first_step (block : list Z) (st : list Z * list Z) (i : Z) : list Z * list Z :=
  let '(v, X) := st in
  let T1 := CRYPTO_load_u32_be (ztake 4 (zdrop (4 * i) block)) in
  (round v T1 i, zupd X i T1).

Definition later_step (st : list Z * list Z) (i : Z) : list Z * list Z :=
  let '(v, X) := st in
  let T1 := next X i in
  (round v T1 i, zupd X (i .& 0x0f) T1).

Lemma first_steps block n : forall t v X, fold_left (first_step block) (map Z.of_nat (seq t n)) (v, X) =
  (rounds (Z.of_nat t) v (map (fun i => CRYPTO_load_u32_be (ztake 4 (zdrop (4 * i) block))) (map Z.of_nat (seq t n))),
   fold_left (fun X i => zupd X i (CRYPTO_load_u32_be (ztake 4 (zdrop (4 * i) block)))) (map Z.of_nat (seq t n)) X).
Proof.
  induction n as [|n IH]; intros t v X; [done|]. cbn [seq map fold_left first_step rounds]. rewrite IH.
  by rewrite Nat2Z.inj_succ, Z.add_1_r.
Qed.

Lemma first_step_prefix b rest l : zlen b = 64 -> Forall (fun i => 0 <= i < 16) l -> forall st,
  fold_left (first_step (b ++ rest)) l st = fold_left (first_step b) l st.
Proof.
  intros Hb Hl. induction Hl as [|i l Hi _ IH]; intros [v X]; [done|]. cbn [fold_left]. rewrite IH. f_equal. unfold first_step.
  by rewrite word_prefix.
Qed.

(** The schedule of the reference. *)
Fixpoint extend (n : nat) (w : list Z) : list Z :=
  match n with O => w | S n => extend n (w ++ [next_word w]) end.

Lemma extend_app n w : exists l, extend n w = w ++ l /\ zlen l = Z.of_nat n.
Proof.
  revert w. induction n as [|n IH]; intros w; cbn [extend]; [exists []; by rewrite app_nil_r|].
  destruct (IH (w ++ [next_word w])) as (l & -> & Hl). exists (next_word w :: l). rewrite <- app_assoc, zlen_cons. split; [done|lia].
Qed.

Context (next_ok : forall w, words_ok w -> is_word (next_word w)).
Context (next_agrees : forall w X, circular w X -> words_ok w -> next X (zlen w) = next_word w).

Lemma later_steps n : forall w v X, circular w X -> words_ok w ->
  fst (fold_left later_step (map Z.of_nat (seq (length w) n)) (v, X)) = rounds (zlen w) v (zdrop (zlen w) (extend n w)).
Proof.
  induction n as [|n IH]; intros w v X Hc Hw; cbn [seq map fold_left extend].
  { by rewrite zdrop_all. }
  destruct (extend_app n (w ++ [next_word w])) as (l & E & Hl). rewrite E, <- app_assoc, zdrop_app by done. cbn [app rounds].
  cbn [later_step]. fold (zlen w). rewrite next_agrees by done. cbv zeta.
  replace (zlen w .& 0x0f) with (zlen w mod 16) by (change 0x0f with (2 ^ 4 - 1); by rewrite land_ones_mod by lia).
  pose proof (IH (w ++ [next_word w]) (round v (next_word w) (zlen w)) _ (circular_next w X (next_word w) Hc)) as IH'.
  rewrite E, length_app in IH'. cbn [length] in IH'. rewrite Nat.add_1_r in IH'. rewrite IH'.
  - rewrite zdrop_app by done. f_equal. by rewrite zlen_app.
  - apply Forall_app. split; [done|]. constructor; [by apply next_ok|constructor].
Qed.

Lemma fill_words f : fold_left (fun X i => zupd X i (f i)) (upto 0 16) (replicate 16 0) = map f (upto 0 16).
Proof. reflexivity. Qed.

Lemma circular_start w : zlen w = 16 -> circular w w.
Proof. intros Hw. split; [done|]. split; [lia|]. intros k Hk. by rewrite Z.mod_small by lia. Qed.

(** All the rounds of a block. *)
Lemma block_rounds b v n : zlen b = 64 -> bytes_ok b ->
  fst (fold_left later_step (upto 16 (16 + n)) (fold_left (first_step b) (upto 0 16) (v, replicate 16 0))) =
  rounds 0 v (extend n (block_words b)) /\ zlen (extend n (block_words b)) = 16 + Z.of_nat n.
Proof.
  intros Hb Hok. destruct (load_block_words b Hb Hok) as [Hwords Hwok]. assert (H16 : zlen (block_words b) = 16) by done.
  destruct (extend_app n (block_words b)) as (l & E & Hl). split; [|rewrite E, zlen_app, H16; lia].
  pose proof (first_steps b 16 0 v (replicate 16 0)) as Hfirst. change (map Z.of_nat (seq 0 16)) with (upto 0 16) in Hfirst.
  rewrite fill_words, Hwords in Hfirst. rewrite Hfirst.
  pose proof (later_steps n (block_words b) (rounds 0 v (block_words b)) _ (circular_start _ H16) Hwok) as Hlater.
  replace (upto 16 (16 + n)) with (map Z.of_nat (seq (length (block_words b)) n)) by (unfold upto; do 2 f_equal; cbn; lia).
  change (Z.of_nat 0) with 0. rewrite Hlater, H16, E, rounds_app, zdrop_app, H16 by done. done.
Qed.
End Rounds.
