(* ===== verification/Sha1.v ===== *)
(** * SHA-1 (crypto/fipsmodule/sha/sha1.c)

    The portable block function and the functions above it. The context has the
    fields of the collector and no others. *)

From S2P Require Import Prelude Words Mem Md32 HashBlocks.

Definition SHA_CBLOCK : Z := 64.
Definition SHA_DIGEST_LENGTH : Z := 20.

Definition SHA_CTX : Type := md32.

Definition SHA1_Init : SHA_CTX :=
  mk_md32 [0x67452301; 0xefcdab89; 0x98badcfe; 0x10325476; 0xc3d2e1f0] (replicate (Z.to_nat SHA_CBLOCK) 0) 0 0 0.

Definition K_00_19 : Z := 0x5a827999.
Definition K_20_39 : Z := 0x6ed9eba1.
Definition K_40_59 : Z := 0x8f1bbcdc.
Definition K_60_79 : Z := 0xca62c1d6.

Definition F_00_19 (b c d : Z) : Z := ((c .^ d) .& b) .^ d.
Definition F_20_39 (b c d : Z) : Z := b .^ c .^ d.
Definition F_40_59 (b c d : Z) : Z := (b .& c) .| ((b .| c) .& d).
Definition F_60_79 (b c d : Z) : Z := F_20_39 b c d.

(** The constant and the function of round [i], as the ranges in the names of the
    macros [BODY_00_15] to [BODY_60_79] say. *)
Definition round_K (i : Z) : Z :=
  if i <? 20 then K_00_19 else if i <? 40 then K_20_39 else if i <? 60 then K_40_59 else K_60_79.
Definition round_F (i : Z) : Z -> Z -> Z -> Z :=
  if i <? 20 then F_00_19 else if i <? 40 then F_20_39 else if i <? 60 then F_40_59 else F_60_79.

(** A macro, with the word [x] of the round: the new values of the variables it is
    given for [f] and [b]. *)
Definition BODY (i a b c d e x : Z) : Z * Z :=
  (u32 (x + e + round_K i + CRYPTO_rotl_u32 a 5 + round_F i b c d), CRYPTO_rotl_u32 b 30).

(** The variables [A] to [E] and [T] are the list [v]. Round 0 names them
    [A, B, C, D, E, T], round 1 [T, A, B, C, D, E], and so on. *)
Definition var_place (i r : Z) : Z := (r - i) mod 6.
Definition sha1_round (v : list Z) (x i : Z) : list Z :=
  let var r := znth 0 v (var_place i r) in
  let '(f, b) := BODY i (var 0) (var 1) (var 2) (var 3) (var 4) x in
  zupd (zupd v (var_place i 5) f) (var_place i 1) b.

(** Rounds 0 to 15 take their words from the block. *)
Definition sha1_first (block : list Z) (st : list Z * list Z) (i : Z) : list Z * list Z :=
  let '(v, X) := st in
  let x := CRYPTO_load_u32_be (ztake 4 (zdrop (4 * i) block)) in
  (sha1_round v x i, zupd X i x).

(** The variables [XX0] to [XX15] are the list [X]; [Xupdate] replaces the word
    sixteen rounds older. *)
Definition Xupdate (X : list Z) (i : Z) : Z :=
  CRYPTO_rotl_u32 (znth 0 X (i .& 0x0f) .^ znth 0 X ((i + 2) .& 0x0f) .^ znth 0 X ((i + 8) .& 0x0f) .^
    znth 0 X ((i + 13) .& 0x0f)) 1.
Definition sha1_later (st : list Z * list Z) (i : Z) : list Z * list Z :=
  let '(v, X) := st in
  let x := Xupdate X i in
  (sha1_round v x i, zupd X (i .& 0x0f) x).

(** After round 79 the variables that are called [a] to [e] are [E], [T], [A], [B]
    and [C]. [T] and the words start uninitialised and are written before they are
    read. *)
Definition sha1_block (state block : list Z) : list Z :=
  let '(v, _) := fold_left sha1_later (upto 16 80) (fold_left (sha1_first block) (upto 0 16) (state ++ [0], replicate 16 0)) in
  zip_with (fun s x => u32 (s + x)) state [znth 0 v 4; znth 0 v 5; znth 0 v 0; znth 0 v 1; znth 0 v 2].

(** The loop tests its counter after the body: with [num = 0] it would run 2^64
    times. *)
Fixpoint sha1_blocks (n : nat) (state data : list Z) : list Z :=
  match n with
  | O => state
  | S n => sha1_blocks n (sha1_block state data) (zdrop SHA_CBLOCK data)
  end.
Definition sha1_block_data_order_nohw (state data : list Z) (num : Z) : list Z :=
  sha1_blocks (S (Z.to_nat (u64 (num - 1)))) state data.

Definition sha1_block_data_order (state data : list Z) (num : Z) : list Z := sha1_block_data_order_nohw state data num.

Definition SHA1_Transform (c : SHA_CTX) (data_ : list Z) : SHA_CTX :=
  mk_md32 (sha1_block_data_order (h c) data_ 1) (data c) (num c) (Nh c) (Nl c).

Definition SHA1_Update (c : SHA_CTX) (data : list Z) : SHA_CTX :=
  crypto_md32_update sha1_block_data_order SHA_CBLOCK c data.

Definition sha1_output_state (ctx : SHA_CTX) : list Z :=
  concat (map (fun i => CRYPTO_store_u32_be (znth 0 (h ctx) i)) (upto 0 5)).

Definition SHA1_Final (c : SHA_CTX) : list Z * SHA_CTX :=
  let c := crypto_md32_final sha1_block_data_order SHA_CBLOCK c true in
  (sha1_output_state c, c).

Definition SHA1 (data : list Z) : list Z := fst (SHA1_Final (SHA1_Update SHA1_Init data)).

(** ** The generator of FIPS 186-2 *)

(** One step of the addition [XKEY = 1 + XKEY + w_i], for word [i]. *)
Definition prf_add (w : list Z) (st : list Z * Z) (i : Z) : list Z * Z :=
  let '(block, carry) := st in
  let tmp := CRYPTO_load_u32_be (ztake 4 (zdrop (i * 4) block)) in
  let '(tmp, carry) := CRYPTO_addc_u32 tmp (znth 0 w i) carry in
  (store block (i * 4) (CRYPTO_store_u32_be tmp), carry).

Fixpoint prf_loop (fuel : nat) (block : list Z) (out_len : Z) : list Z :=
  if out_len =? 0 then []
  else match fuel with
  | O => []
  | S fuel =>
      let ctx := SHA1_Transform SHA1_Init block in
      let '(block, _) := fold_left (prf_add (h ctx)) (rev (upto 0 5)) (block, 1) in
      if out_len <? SHA_DIGEST_LENGTH then ztake out_len (sha1_output_state ctx)
      else sha1_output_state ctx ++ prf_loop fuel block (out_len - SHA_DIGEST_LENGTH)
  end.

(** What is written to [out]; every round but the last writes twenty bytes. *)
Definition CRYPTO_fips_186_2_prf (out_len : Z) (xkey : list Z) : list Z :=
  prf_loop (Z.to_nat out_len) (store (replicate (Z.to_nat SHA_CBLOCK) 0) 0 xkey) out_len.

(** The test vector "abc" of FIPS 180-4. *)
Example sha1_abc : SHA1 [97; 98; 99] =
  [0xa9; 0x99; 0x3e; 0x36; 0x47; 0x06; 0x81; 0x6a; 0xba; 0x3e; 0x25; 0x71; 0x78; 0x50; 0xc2; 0x6c; 0x9c; 0xd0; 0xd8; 0x9d].
Proof. vm_compute. reflexivity. Qed.

(** * Correctness

    The standard as a reference, as for SHA-256; the functions of the rounds, which
    the code has in shorter forms; and the generator built on the block function. *)

(** ** FIPS 180-4, section 6.1 *)

Definition ROTL (n x : Z) : Z := rotate_right 32 (32 - n) x.

(** Section 4.2.1: square roots of 2, 3, 5 and 10, in units of 2^-30. *)
Definition fips_K1 (t : Z) : Z :=
  root 2 34 ((if t <? 20 then 2 else if t <? 40 then 3 else if t <? 60 then 5 else 10) * 2 ^ 60) 0.

Definition fips_f (t x y z : Z) : Z :=
  if t <? 20 then fips_Ch x y z else if t <? 40 then x .^ y .^ z else if t <? 60 then fips_Maj x y z else x .^ y .^ z.

Definition fips_H1 : list Z := [0x67452301; 0xefcdab89; 0x98badcfe; 0x10325476; 0xc3d2e1f0].

Definition next_word1 (w : list Z) : Z :=
  let t := zlen w in ROTL 1 (znth 0 w (t - 3) .^ znth 0 w (t - 8) .^ znth 0 w (t - 14) .^ znth 0 w (t - 16)).

Definition step1 (t : Z) (v : list Z) (W : Z) : list Z :=
  match v with
  | [a; b; c; d; e] => [(ROTL 5 a + fips_f t b c d + e + fips_K1 t + W) mod 2 ^ 32; a; ROTL 30 b; c; d]
  | _ => v
  end.

(** For [t = 0] to [79]. *)
Fixpoint steps1 (t : Z) (v Ws : list Z) : list Z :=
  match Ws with [] => v | W :: Ws => steps1 (t + 1) (step1 t v W) Ws end.

Definition fips_compress1 (H b : list Z) : list Z :=
  zip_with (fun x y => (x + y) mod 2 ^ 32) H (steps1 0 H (extend next_word1 64 (block_words b))).

Definition fips_sha1 (m : list Z) : list Z := concat (map (be_bytes 4) (md_hash fips_compress1 64 true fips_H1 m)).

(** ** Functions *)

Lemma Ch_form b c d : is_word b -> is_word d -> F_00_19 b c d = fips_Ch b c d.
Proof.
  unfold is_word, F_00_19, fips_Ch. intros Hb Hd. replace (2 ^ 32 - 1 - b) with (Z.lnot b mod 2 ^ 32)
    by (unfold Z.lnot; change (2 ^ 32) with 4294967296 in *; dlia).
  apply Z.bits_inj'. intros n Hn. rewrite !Z.lxor_spec, !Z.land_spec, Z.lxor_spec.
  destruct (Z.lt_ge_cases n 32) as [Hlt|Hge].
  - rewrite Z.mod_pow2_bits_low, Z.lnot_spec by lia. by destruct (Z.testbit b n), (Z.testbit c n), (Z.testbit d n).
  - rewrite (bits_high 32 b n), (bits_high 32 d n) by (done || lia). by rewrite !andb_false_r.
Qed.

Lemma Maj_form b c d : F_40_59 b c d = fips_Maj b c d.
Proof.
  unfold F_40_59, fips_Maj. apply Z.bits_inj'. intros n _. rewrite Z.lor_spec, !Z.lxor_spec, !Z.land_spec, Z.lor_spec.
  by destruct (Z.testbit b n), (Z.testbit c n), (Z.testbit d n).
Qed.

Lemma round_F_fips i b c d : is_word b -> is_word d -> round_F i b c d = fips_f i b c d.
Proof.
  intros Hb Hd. unfold round_F, fips_f. destruct (i <? 20); [by apply Ch_form|]. destruct (i <? 40); [done|].
  destruct (i <? 60); [apply Maj_form|done].
Qed.

Lemma round_K_fips i : round_K i = fips_K1 i.
Proof. unfold round_K, fips_K1. destruct (i <? 20); [done|]. destruct (i <? 40); [done|]. by destruct (i <? 60). Qed.

Lemma rotl_fips n x : 0 < n < 32 -> is_word x -> CRYPTO_rotl_u32 x n = ROTL n x /\ is_word (ROTL n x).
Proof.
  intros Hn Hx. split; [by apply rotl_u32_value|]. apply rotate_right_range; [lia|exact Hx].
Qed.

(** ** Rounds *)

Definition named1 (i : Z) (v : list Z) : list Z := map (fun r => znth 0 v (var_place i r)) (upto 0 5).

Lemma var_place_mod i r : var_place i r = var_place (i mod 6) r.
Proof. unfold var_place. by rewrite <- Zminus_mod_idemp_r. Qed.

Lemma var_place_succ i r : var_place (i + 1) r = var_place (i mod 6 + 1) r.
Proof.
  unfold var_place. rewrite <- (Zminus_mod_idemp_r r (i + 1)), <- (Zminus_mod_idemp_r r (i mod 6 + 1)). by rewrite Zplus_mod_idemp_l.
Qed.

Lemma length_6 (v : list Z) : length v = 6%nat -> exists a b c d e f, v = [a; b; c; d; e; f].
Proof. intros H. do 6 (destruct v as [|? v]; [done|]). destruct v; [eauto 10|done]. Qed.

Ltac eval_var_places :=
  repeat match goal with |- context [var_place ?i ?r] => let x := eval vm_compute in (var_place i r) in change (var_place i r) with x end;
  repeat match goal with |- context [znth 0 (?x :: ?l) ?k] =>
    let y := eval cbv [znth Z.to_nat Pos.to_nat Pos.iter_op Nat.add nth] in (znth 0 (x :: l) k) in
    change (znth 0 (x :: l) k) with y end.

Lemma BODY_fips i a b c d e x : is_word a -> is_word b -> is_word d ->
  step1 i [a; b; c; d; e] x = let '(f, b') := BODY i a b c d e x in [f; a; b'; c; d].
Proof.
  intros Ha Hb Hd. unfold BODY, step1. destruct (rotl_fips 5 a ltac:(lia) Ha) as [-> _]. destruct (rotl_fips 30 b ltac:(lia) Hb) as [-> _].
  rewrite round_F_fips, round_K_fips by done. unfold u32. change (2 ^ 32) with 4294967296. f_equal. f_equal. lia.
Qed.

Lemma sha1_round_step v x i : length v = 6%nat -> words_ok v ->
  length (sha1_round v x i) = 6%nat /\ words_ok (sha1_round v x i) /\
  named1 (i + 1) (sha1_round v x i) = step1 i (named1 i v) x.
Proof.
  intros Hl Hv. split; [|split].
  - unfold sha1_round. destruct (BODY _ _ _ _ _ _ _). unfold zupd. by rewrite !length_insert.
  - unfold sha1_round, BODY, zupd. apply Forall_insert; [apply Forall_insert; [done|apply u32_word]|].
    pose proof (znth_word v (var_place i 1) Hv) as Hb. by destruct (rotl_fips 30 _ ltac:(lia) Hb) as [-> ?].
  - assert (Hj : i mod 6 = 0 \/ i mod 6 = 1 \/ i mod 6 = 2 \/ i mod 6 = 3 \/ i mod 6 = 4 \/ i mod 6 = 5)
      by (pose proof (Z.mod_pos_bound i 6); lia).
    destruct (length_6 v Hl) as (a & b & c & d & e & f & ->). rewrite !Forall_cons in Hv. destruct_and!.
    unfold named1. cbn [map upto seq Nat.sub]. rewrite !(var_place_succ i), !(var_place_mod i).
    unfold sha1_round. rewrite !(var_place_mod i).
    repeat (destruct Hj as [Hj|Hj]); rewrite Hj; eval_var_places; rewrite BODY_fips by done;
      destruct (BODY _ _ _ _ _ _ _) as [f' b']; reflexivity.
Qed.

Lemma rounds_fips1 Ts : forall i v, length v = 6%nat -> words_ok v ->
  named1 (i + zlen Ts) (rounds sha1_round i v Ts) = steps1 i (named1 i v) Ts /\
  length (rounds sha1_round i v Ts) = 6%nat /\ words_ok (rounds sha1_round i v Ts).
Proof.
  induction Ts as [|x Ts IH]; intros i v Hv Hw; cbn [rounds steps1].
  - by rewrite zlen_nil, Z.add_0_r.
  - rewrite zlen_cons. destruct (sha1_round_step v x i Hv Hw) as (Hv' & Hw' & <-).
    replace (i + (1 + zlen Ts)) with (i + 1 + zlen Ts) by lia. by apply IH.
Qed.

(** ** The schedule *)

Lemma lxor_word x y : is_word x -> is_word y -> is_word (x .^ y).
Proof. apply lxor_bound. lia. Qed.

Lemma next_word1_arg w : words_ok w -> is_word (znth 0 w (zlen w - 3) .^ znth 0 w (zlen w - 8) .^ znth 0 w (zlen w - 14) .^ znth 0 w (zlen w - 16)).
Proof. intros Hw. repeat apply lxor_word; by apply znth_word. Qed.

Lemma next_word1_ok w : words_ok w -> is_word (next_word1 w).
Proof. intros Hw. apply rotl_fips; [lia|]. by apply next_word1_arg. Qed.

Lemma Xupdate_fips w X : circular w X -> words_ok w -> Xupdate X (zlen w) = next_word1 w.
Proof.
  intros Hc Hw. unfold Xupdate, next_word1. cbv zeta. pose proof (circular_at w X 0 16 Hc) as E0. rewrite Z.add_0_r in E0.
  rewrite E0, (circular_at w X 2 14), (circular_at w X 8 8), (circular_at w X 13 3) by (done || lia).
  destruct (rotl_fips 1 _ ltac:(lia) (next_word1_arg w Hw)) as [<- _]. f_equal.
  rewrite Z.lxor_comm. rewrite (Z.lxor_comm _ (znth 0 w (zlen w - 8))), (Z.lxor_comm (znth 0 w (zlen w - 16))), !Z.lxor_assoc. done.
Qed.

(** ** Blocks *)

Lemma sha1_block_fips state b : state_ok 5 state -> zlen b = 64 -> bytes_ok b ->
  sha1_block state b = fips_compress1 state b /\ state_ok 5 (sha1_block state b).
Proof.
  intros Hst Hb Hok. pose proof Hst as [Hs Hw].
  destruct (block_rounds sha1_round Xupdate next_word1 next_word1_ok Xupdate_fips b (state ++ [0]) 64 Hb Hok) as [Hrun H80].
  unfold sha1_block. change sha1_later with (later_step sha1_round Xupdate). change (sha1_first b) with (first_step sha1_round b).
  change (16 + 64)%nat with 80%nat in Hrun. destruct (fold_left _ (upto 16 80) _) as [v X]. cbn [fst] in Hrun. subst v.
  unfold fips_compress1. set (W := extend next_word1 64 (block_words b)) in *. clearbody W.
  destruct (rounds_fips1 W 0 (state ++ [0])) as (Hr & Hlen & _).
  { rewrite length_app, Hs. done. }
  { apply Forall_app. split; [done|]. repeat constructor; cbn; lia. }
  set (v := rounds sha1_round 0 (state ++ [0]) W) in *. clearbody v. rewrite H80 in Hr.
  split; [|by apply zip_sum_ok]. unfold u32. change 4294967296 with (2 ^ 32). f_equal.
  change (named1 (0 + (16 + Z.of_nat 64)) v) with [znth 0 v 4; znth 0 v 5; znth 0 v 0; znth 0 v 1; znth 0 v 2] in Hr.
  rewrite Hr. f_equal. do 5 (destruct state as [|? state]; [done|]). by destruct state.
Qed.

Lemma sha1_block_prefix state b rest : zlen b = 64 -> sha1_block state (b ++ rest) = sha1_block state b.
Proof.
  intros Hb. unfold sha1_block. change sha1_first with (first_step sha1_round). rewrite first_step_prefix; [done|done|].
  apply List.Forall_forall. intros i Hi%upto_range. exact Hi.
Qed.

Lemma sha1_blocks_S n state data :
  sha1_blocks (S n) state data = sha1_blocks n (sha1_block state data) (zdrop SHA_CBLOCK data).
Proof. reflexivity. Qed.

Lemma sha1_blocks_fold blocks rest : Forall (fun b => zlen b = SHA_CBLOCK /\ bytes_ok b) blocks -> forall hh,
  sha1_blocks (length blocks) hh (concat blocks ++ rest) = fold_left sha1_block blocks hh.
Proof.
  induction 1 as [|b l [Hlen _] _ IH]; intros hh; [reflexivity|].
  change (length (b :: l)) with (S (length l)). change (concat (b :: l)) with (b ++ concat l).
  rewrite sha1_blocks_S, <- app_assoc, sha1_block_prefix, zdrop_app by exact Hlen. rewrite fold_left_cons. apply IH.
Qed.

#[global] Instance sha1_block_function : BlockFunction sha1_block_data_order SHA_CBLOCK sha1_block.
Proof.
  constructor; [unfold SHA_CBLOCK; lia|]. intros hh blocks rest Hne Hsize Hb.
  unfold sha1_block_data_order, sha1_block_data_order_nohw, u64.
  assert (Hpos : 0 < zlen blocks) by (destruct blocks as [|b l]; [done|rewrite zlen_cons; zlen_pos; lia]).
  rewrite Z.mod_small by lia. replace (S (Z.to_nat (zlen blocks - 1))) with (length blocks) by (unfold zlen in *; lia).
  by apply sha1_blocks_fold.
Qed.

Lemma start_ok1 : state_ok 5 fips_H1.
Proof. split; [done|]. repeat (apply Forall_cons; split; [vm_compute; intuition discriminate|]). apply Forall_nil_2. Qed.

Lemma length_5 (v : list Z) : length v = 5%nat -> exists a b c d e, v = [a; b; c; d; e].
Proof. intros H. do 5 (destruct v as [|? v]; [done|]). destruct v; [eauto 10|done]. Qed.

(** The five words that are written. *)
Lemma output_state c : state_ok 5 (h c) -> sha1_output_state c = concat (map (be_bytes 4) (h c)).
Proof.
  unfold sha1_output_state. intros [Hl Hw]. rewrite <- store_words by exact Hw. f_equal.
  destruct (length_5 (h c) Hl) as (a & b & d & e & f & ->). reflexivity.
Qed.

Lemma sha1_run pieces : bytes_ok (concat pieces) -> Forall (fun p => zlen p < 2 ^ 64) pieces ->
  fst (SHA1_Final (fold_left SHA1_Update pieces SHA1_Init)) = fips_sha1 (concat pieces).
Proof.
  intros Hok Hl. unfold SHA1_Final. cbv zeta. cbn [fst].
  assert (Hr : h (crypto_md32_final sha1_block_data_order SHA_CBLOCK (fold_left SHA1_Update pieces SHA1_Init) true) =
    md_hash sha1_block 64 true fips_H1 (concat pieces)) by exact (md32_run_spec true fips_H1 pieces Hok Hl).
  destruct (md_hash_agree _ _ (state_ok 5) sha1_block_fips (concat pieces) _ Hok start_ok1) as [Ha Hst].
  rewrite output_state; [unfold fips_sha1; by rewrite <- Ha, <- Hr|]. by rewrite Hr.
Qed.

(** ** The generator of FIPS 186-2, appendix 3.1 with change notice 1 *)

(** [G(t, c)]: one block, the seed followed by zeros, from the initial hash. *)
Definition fips_G (XKEY : Z) : list Z :=
  concat (map (be_bytes 4) (fips_compress1 fips_H1 (be_bytes 20 XKEY ++ replicate 44 0))).

Fixpoint fips_prf (n : nat) (XKEY : Z) : list Z :=
  match n with
  | O => []
  | S n => let w := fips_G XKEY in w ++ fips_prf n ((1 + XKEY + be_value w) mod 2 ^ 160)
  end.

(** The key at the start of the block, as five words. *)
Definition key_block (ks rest : list Z) : list Z := concat (map (be_bytes 4) ks) ++ rest.

Lemma zlen_words xs : zlen (concat (map (be_bytes 4) xs)) = 4 * zlen xs.
Proof. induction xs as [|x xs IH]; [done|]. cbn [map concat]. rewrite zlen_app, zlen_be_bytes, zlen_cons, IH. lia. Qed.

Lemma words_bytes_ok xs : bytes_ok (concat (map (be_bytes 4) xs)).
Proof. induction xs as [|x xs IH]; [constructor|]. cbn [map concat]. by apply Forall_app. Qed.

Lemma prf_add_step w xs k ys rest c : is_word k -> is_word (znth 0 w (zlen xs)) -> carry_bit c ->
  exists r c', prf_add w (key_block (xs ++ k :: ys) rest, c) (zlen xs) = (key_block (xs ++ r :: ys) rest, c') /\
    is_word r /\ carry_bit c' /\ r + 2 ^ 32 * c' = k + znth 0 w (zlen xs) + c.
Proof.
  intros Hk Hw Hc. pose proof (addc_u32_spec k (znth 0 w (zlen xs)) c Hk Hw Hc) as Hadd.
  destruct (CRYPTO_addc_u32 k (znth 0 w (zlen xs)) c) as [r c'] eqn:E. exists r, c'. destruct Hadd as (Hr & Hc' & Hsum).
  split; [|split; [exact Hr|split; [exact Hc'|lia]]].
  assert (Hblock : forall x, key_block (xs ++ x :: ys) rest =
    concat (map (be_bytes 4) xs) ++ be_bytes 4 x ++ concat (map (be_bytes 4) ys) ++ rest).
  { intros x. unfold key_block. rewrite map_app, concat_app. cbn [map concat]. by rewrite <- !app_assoc. }
  pose proof (zlen_words xs) as Hl. unfold prf_add. rewrite !Hblock, zdrop_app, ztake_app by (rewrite ?zlen_be_bytes; lia).
  rewrite load_u32_be_value, be_value_be_bytes by (done || apply length_be_bytes). change (256 ^ Z.of_nat 4) with (2 ^ 32).
  rewrite Z.mod_small by exact Hk. rewrite E, store_u32_be_bytes by done. f_equal.
  apply store_app with (b := be_bytes 4 k); [done|lia|by rewrite !zlen_be_bytes].
Qed.

(** The value of the key. *)
Definition key (ks : list Z) : Z := be_value (concat (map (be_bytes 4) ks)).

Lemma key_val ks : be_value (concat (map (be_bytes 4) ks)) = key ks.
Proof. reflexivity. Qed.

Lemma key_snoc ks k : is_word k -> key (ks ++ [k]) = key ks * 2 ^ 32 + k.
Proof.
  intros Hk. unfold key. rewrite map_app, concat_app. cbn [map concat]. rewrite app_nil_r, be_value_app, be_value_be_bytes, zlen_be_bytes.
  change (256 ^ Z.of_nat 4) with (2 ^ 32). by rewrite Z.mod_small by exact Hk.
Qed.

Lemma upto_snoc n : upto 0 (S n) = upto 0 n ++ [Z.of_nat n].
Proof. unfold upto. by rewrite !Nat.sub_0_r, seq_S, map_app. Qed.

(** The additions from word [length ks - 1] down to word 0 are one addition. *)
Lemma prf_add_words ws' rest ks : forall ws ys c, length ks = length ws -> words_ok ks -> words_ok ws -> carry_bit c ->
  exists ks' c', fold_left (prf_add (ws ++ ws')) (rev (upto 0 (length ks))) (key_block (ks ++ ys) rest, c) =
      (key_block (ks' ++ ys) rest, c') /\
    length ks' = length ks /\ words_ok ks' /\ carry_bit c' /\ key ks' + 2 ^ (32 * zlen ks) * c' = key ks + key ws + c.
Proof.
  revert ws'. induction ks as [|k ks IH] using rev_ind; intros ws' ws ys c Hlen Hks Hws Hc.
  { destruct ws; [|done]. exists [], c. split; [done|]. split; [done|]. split; [done|]. split; [done|]. change (key []) with 0. change (32 * zlen (@nil Z)) with 0. lia. }
  destruct ws as [|w ws _] using rev_ind; [rewrite length_app in Hlen; cbn in Hlen; lia|].
  rewrite !length_app, !Nat.add_1_r in Hlen. injection Hlen as Hlen.
  apply Forall_app in Hks as [Hks [Hk _]%Forall_cons_1]. apply Forall_app in Hws as [Hws [Hw _]%Forall_cons_1].
  rewrite length_app, Nat.add_1_r, upto_snoc, rev_app_distr. change (rev [?x] ++ ?l) with (x :: l). rewrite fold_left_cons.
  rewrite <- !app_assoc. change ([?x] ++ ?l) with (x :: l). change (Z.of_nat (length ks)) with (zlen ks).
  assert (Hat : znth 0 (ws ++ w :: ws') (zlen ks) = w).
  { unfold zlen. rewrite Hlen. change ([w] ++ ws') with (w :: ws'). rewrite app_cons_snoc, znth_app_l by (rewrite zlen_app; unfold zlen; cbn; lia).
    apply znth_last. }
  destruct (prf_add_step (ws ++ w :: ws') ks k ys rest c Hk) as (r & c1 & -> & Hr & Hc1 & Hsum); [by rewrite Hat|done|].
  rewrite Hat in Hsum. destruct (IH (w :: ws') ws (r :: ys) c1 Hlen Hks Hws Hc1) as (ks' & c' & -> & Hl & Hok & Hc' & Hall).
  exists (ks' ++ [r]), c'. rewrite <- app_assoc, !length_app, Hl, !key_snoc, zlen_app by done. change (zlen [k]) with 1.
  split; [done|]. split; [cbn; lia|]. split; [apply Forall_app; auto|]. split; [done|].
  replace (32 * (zlen ks + 1)) with (32 * zlen ks + 32) by lia. rewrite Z.pow_add_r by (zlen_pos; lia). nia.
Qed.

(** ** The loop *)

Lemma transform_block block : zlen block = 64 -> bytes_ok block ->
  h (SHA1_Transform SHA1_Init block) = fips_compress1 fips_H1 block /\ state_ok 5 (fips_compress1 fips_H1 block).
Proof.
  intros Hl Hok. destruct (sha1_block_fips fips_H1 block start_ok1 Hl Hok) as [<- Hst]. split; [|exact Hst]. reflexivity.
Qed.

Lemma key_bytes ks : length ks = 5%nat -> be_bytes 20 (key ks) = concat (map (be_bytes 4) ks).
Proof.
  intros Hl. unfold key. pose proof (zlen_words ks) as Hz. unfold zlen in Hz. rewrite Hl in Hz.
  replace 20%nat with (length (concat (map (be_bytes 4) ks))) by lia. apply be_bytes_be_value, words_bytes_ok.
Qed.

Lemma key_range ks : length ks = 5%nat -> 0 <= key ks < 2 ^ 160.
Proof.
  intros Hl. pose proof (be_value_bound _ (words_bytes_ok ks)) as Hb. rewrite zlen_words in Hb. unfold zlen in Hb. rewrite Hl in Hb. exact Hb.
Qed.

Lemma fips_prf_S n k : fips_prf (S n) k = fips_G k ++ fips_prf n ((1 + k + be_value (fips_G k)) mod 2 ^ 160).
Proof. reflexivity. Qed.

Lemma fips_G_key ks : length ks = 5%nat ->
  fips_G (key ks) = concat (map (be_bytes 4) (fips_compress1 fips_H1 (key_block ks (replicate 44 0)))).
Proof. intros Hl. unfold fips_G, key_block. by rewrite (key_bytes ks Hl). Qed.

Lemma prf_loop_S fuel block out_len : out_len <> 0 -> prf_loop (S fuel) block out_len =
  let ctx := SHA1_Transform SHA1_Init block in
  let '(block, _) := fold_left (prf_add (h ctx)) (rev (upto 0 5)) (block, 1) in
  if out_len <? SHA_DIGEST_LENGTH then ztake out_len (sha1_output_state ctx)
  else sha1_output_state ctx ++ prf_loop fuel block (out_len - SHA_DIGEST_LENGTH).
Proof. intros Hne. cbn [prf_loop]. by destruct (Z.eqb_spec out_len 0). Qed.

Lemma key_block_ok ks : length ks = 5%nat ->
  zlen (key_block ks (replicate 44 0)) = 64 /\ bytes_ok (key_block ks (replicate 44 0)).
Proof.
  intros Hl. split.
  - unfold key_block. rewrite zlen_app, zlen_words, zlen_replicate. unfold zlen. by rewrite Hl.
  - apply Forall_app. split; [apply words_bytes_ok|]. apply Forall_replicate. unfold is_byte. lia.
Qed.

(** The output of a round and the key of the next one. *)
Lemma prf_round ks : length ks = 5%nat -> words_ok ks ->
  let ctx := SHA1_Transform SHA1_Init (key_block ks (replicate 44 0)) in
  sha1_output_state ctx = fips_G (key ks) /\ zlen (fips_G (key ks)) = 20 /\
  exists ks' c, fold_left (prf_add (h ctx)) (rev (upto 0 5)) (key_block ks (replicate 44 0), 1) = (key_block ks' (replicate 44 0), c) /\
    length ks' = 5%nat /\ words_ok ks' /\ key ks' = (1 + key ks + be_value (fips_G (key ks))) mod 2 ^ 160.
Proof.
  intros Hl Hok ctx. destruct (key_block_ok ks Hl) as [Hlen Hbytes]. destruct (transform_block _ Hlen Hbytes) as [Ht Hst].
  rewrite (fips_G_key ks Hl). fold ctx in Ht. clearbody ctx. set (w := fips_compress1 _ _) in *. clearbody w.
  rewrite output_state by (rewrite Ht; exact Hst). rewrite Ht. destruct Hst as [Hw Hwok].
  split; [reflexivity|]. split; [rewrite zlen_words; unfold zlen; by rewrite Hw|].
  destruct (prf_add_words [] (replicate 44 0) ks w [] 1) as (ks' & c & Hadd & Hl' & Hok' & Hc' & Hsum); [by rewrite Hl|done|done|by right|].
  rewrite !app_nil_r, Hl in Hadd. exists ks', c. split; [exact Hadd|]. split; [by rewrite Hl'|]. split; [exact Hok'|].
  replace (32 * zlen ks) with 160 in Hsum by (unfold zlen; by rewrite Hl). rewrite key_val.
  apply (Z.mod_unique_pos _ _ c); [apply key_range; by rewrite Hl'|lia].
Qed.

Lemma prf_loop_spec fuel : forall n ks out_len, length ks = 5%nat -> words_ok ks -> 0 <= out_len <= Z.of_nat fuel ->
  out_len <= 20 * Z.of_nat n ->
  prf_loop fuel (key_block ks (replicate 44 0)) out_len = ztake out_len (fips_prf n (key ks)).
Proof.
  induction fuel as [|fuel IH]; intros n ks out_len Hl Hok Hfuel Hn.
  { assert (out_len = 0) as -> by lia. reflexivity. }
  destruct (Z.eq_dec out_len 0) as [->|Hne]; [rewrite ztake_0; reflexivity|]. destruct n as [|n]; [lia|].
  rewrite (prf_loop_S _ _ _ Hne), fips_prf_S. destruct (prf_round ks Hl Hok) as (Hout & Hlen & ks' & c & Hadd & Hl' & Hok' & Hkey).
  cbv zeta. rewrite Hadd, Hout, <- Hkey. unfold SHA_DIGEST_LENGTH. set (G := fips_G (key ks)) in *. clearbody G.
  destruct (Z.ltb_spec out_len 20) as [Hlt|Hge]; [rewrite ztake_app_le by lia; reflexivity|].
  rewrite (IH n ks' (out_len - 20) Hl' Hok') by lia. rewrite ztake_app_ge by lia. rewrite Hlen. reflexivity.
Qed.

Lemma words_of_bytes n : forall l, length l = (4 * n)%nat -> bytes_ok l ->
  exists ks, length ks = n /\ words_ok ks /\ concat (map (be_bytes 4) ks) = l.
Proof.
  induction n as [|n IH]; intros l Hl Hok; [by exists []; destruct l|].
  destruct l as [|a [|b [|c [|d l]]]]; [cbn in Hl; lia..|]. change (a :: b :: c :: d :: l) with ([a; b; c; d] ++ l) in *.
  rewrite length_app in Hl. change (length [a; b; c; d]) with 4%nat in Hl. apply Forall_app in Hok as [Ha Hok].
  destruct (IH l ltac:(lia) Hok) as (ks & Hks & Hw & <-). exists (be_value [a; b; c; d] :: ks). cbn [length map concat].
  split; [lia|]. split; [constructor; [by apply be_value_bound in Ha|exact Hw]|]. f_equal. by apply (be_bytes_be_value [a; b; c; d]).
Qed.

(** ** Properties *)

(** C35. SHA-1 is the hash of FIPS 180-4: a message passed in any pieces gives the
    digest of the standard. *)
Theorem sha1_fips pieces : bytes_ok (concat pieces) -> Forall (fun p => zlen p < 2 ^ 64) pieces ->
  fst (SHA1_Final (fold_left SHA1_Update pieces SHA1_Init)) = fips_sha1 (concat pieces).
Proof. apply sha1_run. Qed.

Lemma sha1_fips_witness : fst (SHA1_Final (fold_left SHA1_Update [[97]; []; [98; 99]] SHA1_Init)) = fips_sha1 [97; 98; 99].
Proof.
  apply (sha1_fips [[97]; []; [98; 99]]);
    repeat (apply Forall_cons; split; [vm_compute; intuition discriminate|]); apply Forall_nil; exact I.
Defined.

(** The generator of FIPS 186-2 with change notice 1: the output is the first
    [out_len] bytes of [G(XKEY)] for the keys that follow from the seed, each the sum of
    the key before, its output and one, modulo 2^160 over the carries of five words. *)
Theorem fips_186_2_prf_spec n out_len xkey : zlen xkey = SHA_DIGEST_LENGTH -> bytes_ok xkey ->
  0 <= out_len <= 20 * Z.of_nat n ->
  CRYPTO_fips_186_2_prf out_len xkey = ztake out_len (fips_prf n (be_value xkey)).
Proof.
  intros Hl Hok Hn. unfold SHA_DIGEST_LENGTH, zlen in Hl.
  destruct (words_of_bytes 5 xkey ltac:(lia) Hok) as (ks & Hks & Hw & <-). fold (key ks). rewrite <- prf_loop_spec with (fuel := Z.to_nat out_len) by (done || lia).
  unfold CRYPTO_fips_186_2_prf. f_equal. rewrite (store_app _ 0 _ [] (replicate 20 0) (replicate 44 0)); [done..|].
  rewrite zlen_words. unfold zlen. by rewrite Hks.
Qed.

Lemma fips_186_2_prf_spec_witness :
  CRYPTO_fips_186_2_prf 50 (replicate 20 255) = ztake 50 (fips_prf 3 (be_value (replicate 20 255))).
Proof.
  apply (fips_186_2_prf_spec 3); [reflexivity| |lia]. apply Forall_replicate. split; lia.
Defined.
