(* ===== verification/Sha256.v ===== *)
(** * SHA-256 and SHA-224 (crypto/fipsmodule/sha/sha256.c)

    The portable block function; the assembly versions that replace it on some
    processors are not part of the C code. Words are 32-bit numbers, and sums are
    reduced where the code stores them. *)

From S2P Require Import Prelude Words Mem Md32 HashBlocks.

Definition SHA256_CBLOCK : Z := 64.
Definition SHA224_DIGEST_LENGTH : Z := 28.
Definition SHA256_DIGEST_LENGTH : Z := 32.

Record SHA256_CTX := mk_sha256 { sha_md : md32; md_len : Z }.

(** The context is cleared, then the initial hash is set. *)
Definition SHA224_Init : SHA256_CTX :=
  mk_sha256 (mk_md32 [0xc1059ed8; 0x367cd507; 0x3070dd17; 0xf70e5939; 0xffc00b31; 0x68581511; 0x64f98fa7; 0xbefa4fa4]
    (replicate (Z.to_nat SHA256_CBLOCK) 0) 0 0 0) SHA224_DIGEST_LENGTH.

Definition SHA256_Init : SHA256_CTX :=
  mk_sha256 (mk_md32 [0x6a09e667; 0xbb67ae85; 0x3c6ef372; 0xa54ff53a; 0x510e527f; 0x9b05688c; 0x1f83d9ab; 0x5be0cd19]
    (replicate (Z.to_nat SHA256_CBLOCK) 0) 0 0 0) SHA256_DIGEST_LENGTH.

(** The rows are those of the source. *)
Definition K256 : list Z :=
  [0x428a2f98; 0x71374491; 0xb5c0fbcf; 0xe9b5dba5; 0x3956c25b] ++
  [0x59f111f1; 0x923f82a4; 0xab1c5ed5; 0xd807aa98; 0x12835b01] ++
  [0x243185be; 0x550c7dc3; 0x72be5d74; 0x80deb1fe; 0x9bdc06a7] ++
  [0xc19bf174; 0xe49b69c1; 0xefbe4786; 0x0fc19dc6; 0x240ca1cc] ++
  [0x2de92c6f; 0x4a7484aa; 0x5cb0a9dc; 0x76f988da; 0x983e5152] ++
  [0xa831c66d; 0xb00327c8; 0xbf597fc7; 0xc6e00bf3; 0xd5a79147] ++
  [0x06ca6351; 0x14292967; 0x27b70a85; 0x2e1b2138; 0x4d2c6dfc] ++
  [0x53380d13; 0x650a7354; 0x766a0abb; 0x81c2c92e; 0x92722c85] ++
  [0xa2bfe8a1; 0xa81a664b; 0xc24b8b70; 0xc76c51a3; 0xd192e819] ++
  [0xd6990624; 0xf40e3585; 0x106aa070; 0x19a4c116; 0x1e376c08] ++
  [0x2748774c; 0x34b0bcb5; 0x391c0cb3; 0x4ed8aa4a; 0x5b9cca4f] ++
  [0x682e6ff3; 0x748f82ee; 0x78a5636f; 0x84c87814; 0x8cc70208] ++
  [0x90befffa; 0xa4506ceb; 0xbef9a3f7; 0xc67178f2].

Definition Sigma0 (x : Z) : Z := CRYPTO_rotr_u32 x 2 .^ CRYPTO_rotr_u32 x 13 .^ CRYPTO_rotr_u32 x 22.
Definition Sigma1 (x : Z) : Z := CRYPTO_rotr_u32 x 6 .^ CRYPTO_rotr_u32 x 11 .^ CRYPTO_rotr_u32 x 25.
Definition sigma0 (x : Z) : Z := CRYPTO_rotr_u32 x 7 .^ CRYPTO_rotr_u32 x 18 .^ (x ≫ 3).
Definition sigma1 (x : Z) : Z := CRYPTO_rotr_u32 x 17 .^ CRYPTO_rotr_u32 x 19 .^ (x ≫ 10).

Definition Ch (x y z : Z) : Z := (x .& y) .^ (u32 (Z.lnot x) .& z).
Definition Maj (x y z : Z) : Z := (x .& y) .^ (x .& z) .^ (y .& z).

(** The macro: the new values of the variables that it is given for [d] and [h]. *)
Definition ROUND_00_15 (T1 i a b c d e f g h : Z) : Z * Z :=
  let T1 := u32 (T1 + (h + Sigma1 e + Ch e f g + znth 0 K256 i)) in
  let h := u32 (Sigma0 a + Maj a b c) in
  let d := u32 (d + T1) in
  let h := u32 (h + T1) in
  (d, h).

(** The variables [a] to [h] are the list [v]. Round [i] names them [i] places
    further to the right: round 0 takes [a, b, c, d, e, f, g, h], round 1 takes
    [h, a, b, c, d, e, f, g], and so on, again in their first order every eighth
    round. *)
Definition place (i r : Z) : Z := (r - i) mod 8.
Definition round (v : list Z) (T1 i : Z) : list Z :=
  let var r := znth 0 v (place i r) in
  let '(d, h) := ROUND_00_15 T1 i (var 0) (var 1) (var 2) (var 3) (var 4) (var 5) (var 6) (var 7) in
  zupd (zupd v (place i 3) d) (place i 7) h.

(** The first sixteen rounds: word [i] of the block goes to [X[i]] and to [T1]. *)
Definition first_round (block : list Z) (st : list Z * list Z) (i : Z) : list Z * list Z :=
  let '(v, X) := st in
  let T1 := CRYPTO_load_u32_be (ztake 4 (zdrop (4 * i) block)) in
  (round v T1 i, zupd X i T1).

(** [ROUND_16_63]: the words of the schedule replace those sixteen rounds older. *)
Definition later_round (st : list Z * list Z) (i : Z) : list Z * list Z :=
  let '(v, X) := st in
  let s0 := sigma0 (znth 0 X ((i + 1) .& 0x0f)) in
  let s1 := sigma1 (znth 0 X ((i + 14) .& 0x0f)) in
  let T1 := u32 (znth 0 X (i .& 0x0f) + (s0 + s1 + znth 0 X ((i + 9) .& 0x0f))) in
  (round v T1 i, zupd X (i .& 0x0f) T1).

(** The body of the loop over the blocks; [X] starts uninitialised and every word
    of it is written before it is read. *)
Definition sha256_block (state block : list Z) : list Z :=
  let '(v, _) := fold_left later_round (upto 16 64) (fold_left (first_round block) (upto 0 16) (state, replicate 16 0)) in
  zip_with (fun s x => u32 (s + x)) state v.

Fixpoint sha256_blocks (n : nat) (state data : list Z) : list Z :=
  match n with
  | O => state
  | S n => sha256_blocks n (sha256_block state data) (zdrop SHA256_CBLOCK data)
  end.
Definition sha256_block_data_order_nohw (state data : list Z) (num : Z) : list Z := sha256_blocks (Z.to_nat num) state data.

Definition sha256_block_data_order (state data : list Z) (num : Z) : list Z :=
  sha256_block_data_order_nohw state data num.

Definition SHA256_Transform (c : SHA256_CTX) (data_ : list Z) : SHA256_CTX :=
  let md := sha_md c in
  mk_sha256 (mk_md32 (sha256_block_data_order (h md) data_ 1) (data md) (num md) (Nh md) (Nl md)) (md_len c).

Definition SHA256_TransformBlocks (state data : list Z) (num_blocks : Z) : list Z :=
  sha256_block_data_order state data num_blocks.

Definition SHA256_Update (c : SHA256_CTX) (data : list Z) : SHA256_CTX :=
  mk_sha256 (crypto_md32_update sha256_block_data_order SHA256_CBLOCK (sha_md c) data) (md_len c).

Definition SHA224_Update (ctx : SHA256_CTX) (data : list Z) : SHA256_CTX := SHA256_Update ctx data.

(** The bytes written to [out], if the function returns 1, and the context. *)
Definition sha256_final_impl (md_len_ : Z) (c : SHA256_CTX) : option (list Z) * SHA256_CTX :=
  let c := mk_sha256 (crypto_md32_final sha256_block_data_order SHA256_CBLOCK (sha_md c) true) (md_len c) in
  if md_len_ >? SHA256_DIGEST_LENGTH then (None, c)
  else
    let out_words := md_len_ / 4 in
    (Some (concat (map CRYPTO_store_u32_be (ztake out_words (h (sha_md c))))), c).

Definition SHA256_Final (c : SHA256_CTX) : option (list Z) * SHA256_CTX := sha256_final_impl (md_len c) c.

Definition SHA224_Final (ctx : SHA256_CTX) : option (list Z) * SHA256_CTX := sha256_final_impl SHA224_DIGEST_LENGTH ctx.

(** The one-shot functions; [out] is left as it was if the final call fails. *)
Definition SHA224 (data out : list Z) : list Z :=
  default out (fst (SHA224_Final (SHA224_Update SHA224_Init data))).

Definition SHA256 (data out : list Z) : list Z :=
  default out (fst (SHA256_Final (SHA256_Update SHA256_Init data))).

(** The test vector "abc" of FIPS 180-4. *)
Example sha256_abc : SHA256 [97; 98; 99] [] =
  [0xba; 0x78; 0x16; 0xbf; 0x8f; 0x01; 0xcf; 0xea; 0x41; 0x41; 0x40; 0xde; 0x5d; 0xae; 0x22; 0x23;
   0xb0; 0x03; 0x61; 0xa3; 0x96; 0x17; 0x7a; 0x9c; 0xb4; 0x10; 0xff; 0x61; 0xf2; 0x00; 0x15; 0xad].
Proof. vm_compute. reflexivity. Qed.

(** * Correctness

    The standard as a reference: the constants are computed from the roots of
    primes, the schedule is a list of 64 words, and a round shifts eight working
    variables. The code keeps sixteen words of the schedule in a circular array and
    renames its variables instead. *)

(** ** FIPS 180-4 *)

Definition is_prime (n : Z) : bool := (2 <=? n) && forallb (fun d => negb (n mod d =? 0)) (map Z.of_nat (seq 2 (Z.to_nat n - 2))).
Definition primes : list Z := List.filter is_prime (map Z.of_nat (seq 0 312)).

(** Section 4.2.2: the first 32 bits of the fractional parts of the cube roots of
    the first 64 primes. *)
Definition fips_K : list Z := map (fun p => root 3 40 (p * 2 ^ 96) 0 mod 2 ^ 32) (take 64 primes).

(** Section 5.3: those of the square roots of the first eight primes, and for
    SHA-224 the second 32 bits for the next eight. *)
Definition fips_H256 : list Z := map (fun p => root 2 40 (p * 2 ^ 64) 0 mod 2 ^ 32) (take 8 primes).
Definition fips_H224 : list Z := map (fun p => root 2 72 (p * 2 ^ 128) 0 mod 2 ^ 32) (take 8 (drop 8 primes)).

(** Section 4.1.2. *)
Definition fips_Sigma0 (x : Z) : Z := ROTR 2 x .^ ROTR 13 x .^ ROTR 22 x.
Definition fips_Sigma1 (x : Z) : Z := ROTR 6 x .^ ROTR 11 x .^ ROTR 25 x.
Definition fips_sigma0 (x : Z) : Z := ROTR 7 x .^ ROTR 18 x .^ (x / 2 ^ 3).
Definition fips_sigma1 (x : Z) : Z := ROTR 17 x .^ ROTR 19 x .^ (x / 2 ^ 10).
(** Section 6.2.2. *)
Definition next_word (w : list Z) : Z :=
  let t := zlen w in
  (fips_sigma1 (znth 0 w (t - 2)) + znth 0 w (t - 7) + fips_sigma0 (znth 0 w (t - 15)) + znth 0 w (t - 16)) mod 2 ^ 32.
Definition step (v : list Z) (kw : Z * Z) : list Z :=
  match v with
  | [a; b; c; d; e; f; g; h] =>
      let T1 := (h + fips_Sigma1 e + fips_Ch e f g + fst kw + snd kw) mod 2 ^ 32 in
      let T2 := (fips_Sigma0 a + fips_Maj a b c) mod 2 ^ 32 in
      [(T1 + T2) mod 2 ^ 32; a; b; c; (d + T1) mod 2 ^ 32; e; f; g]
  | _ => v
  end.

Definition fips_compress (H b : list Z) : list Z :=
  zip_with (fun x y => (x + y) mod 2 ^ 32) H (fold_left step (zip fips_K (extend next_word 48 (block_words b))) H).

(** Sections 5.1.1 and 6.2: the message is padded, and its blocks are hashed. *)
Definition fips_sha256 (m : list Z) : list Z := concat (map (be_bytes 4) (md_hash fips_compress 64 true fips_H256 m)).
Definition fips_sha224 (m : list Z) : list Z := concat (map (be_bytes 4) (take 7 (md_hash fips_compress 64 true fips_H224 m))).

Lemma constants_fips : K256 = fips_K /\ h (sha_md SHA256_Init) = fips_H256 /\ h (sha_md SHA224_Init) = fips_H224.
Proof. vm_compute. split; [reflexivity|]. split; reflexivity. Qed.

(** ** Words *)

Lemma Sigma_fips x : is_word x ->
  Sigma0 x = fips_Sigma0 x /\ Sigma1 x = fips_Sigma1 x /\ sigma0 x = fips_sigma0 x /\ sigma1 x = fips_sigma1 x.
Proof.
  intros Hx. unfold Sigma0, Sigma1, sigma0, sigma1. rewrite !rotr_u32_value by (lia || exact Hx).
  rewrite !Z.shiftr_div_pow2 by lia. done.
Qed.

Lemma Ch_fips x y z : is_word x -> Ch x y z = fips_Ch x y z.
Proof.
  intros Hx. unfold Ch, fips_Ch. do 2 f_equal. unfold is_word in Hx. unfold u32, Z.lnot. change (2 ^ 32) with 4294967296 in *. dlia.
Qed.

Lemma ROUND_fips T1 i a b c d e f g h : is_word a -> is_word e -> 
  step [a; b; c; d; e; f; g; h] (znth 0 K256 i, T1) =
  let '(d', h') := ROUND_00_15 T1 i a b c d e f g h in [h'; a; b; c; d'; e; f; g].
Proof.
  intros Ha He. unfold ROUND_00_15, step. cbn [fst snd]. destruct (Sigma_fips a Ha) as (-> & _). destruct (Sigma_fips e He) as (_ & -> & _).
  rewrite Ch_fips by done. unfold u32. change (2 ^ 32) with 4294967296.
  replace (T1 + (h + fips_Sigma1 e + fips_Ch e f g + znth 0 K256 i)) with (h + fips_Sigma1 e + fips_Ch e f g + znth 0 K256 i + T1) by lia.
  f_equal. by rewrite Z.add_comm.
Qed.

(** ** Rounds *)

(** The working variables by their names at round [i]. *)
Definition named (i : Z) (v : list Z) : list Z := map (fun r => znth 0 v (place i r)) (upto 0 8).

Lemma place_mod i r : place i r = place (i mod 8) r.
Proof. unfold place. by rewrite <- Zminus_mod_idemp_r. Qed.

Lemma place_succ i r : place (i + 1) r = place (i mod 8 + 1) r.
Proof. unfold place. rewrite <- (Zminus_mod_idemp_r r (i + 1)), <- (Zminus_mod_idemp_r r (i mod 8 + 1)). by rewrite Zplus_mod_idemp_l. Qed.

(** Compute the places of the variables and read them. *)
Ltac eval_places :=
  repeat match goal with |- context [place ?i ?r] => let x := eval vm_compute in (place i r) in change (place i r) with x end;
  repeat match goal with |- context [znth 0 (?x :: ?l) ?k] =>
    let y := eval cbv [znth Z.to_nat Pos.to_nat Pos.iter_op Nat.add nth] in (znth 0 (x :: l) k) in
    change (znth 0 (x :: l) k) with y end.

Lemma round_step v T1 i : length v = 8%nat -> words_ok v ->
  length (round v T1 i) = 8%nat /\ words_ok (round v T1 i) /\
  named (i + 1) (round v T1 i) = step (named i v) (znth 0 K256 i, T1).
Proof.
  intros Hl Hv. split; [|split].
  - unfold round. destruct (ROUND_00_15 _ _ _ _ _ _ _ _ _ _). unfold zupd. by rewrite !length_insert.
  - unfold round. destruct (ROUND_00_15 _ _ _ _ _ _ _ _ _ _) as [d' h'] eqn:E. unfold zupd.
    injection E as <- <-. apply Forall_insert; [apply Forall_insert; [done|]|]; apply u32_word.
  - assert (Hj : i mod 8 = 0 \/ i mod 8 = 1 \/ i mod 8 = 2 \/ i mod 8 = 3 \/ i mod 8 = 4 \/ i mod 8 = 5 \/ i mod 8 = 6 \/ i mod 8 = 7)
      by (pose proof (Z.mod_pos_bound i 8); lia).
    destruct (length_8 v Hl) as (a & b & c & d & e & f & g & h & ->). rewrite !Forall_cons in Hv. destruct_and!.
    unfold named. cbn [map upto seq Nat.sub]. rewrite !(place_succ i), !(place_mod i).
    unfold round. rewrite !(place_mod i).
    repeat (destruct Hj as [Hj|Hj]); rewrite Hj; eval_places; rewrite ROUND_fips by done;
      destruct (ROUND_00_15 _ _ _ _ _ _ _ _ _ _) as [d' h']; reflexivity.
Qed.

Lemma rounds_fips Ts : forall i v, 0 <= i -> i + zlen Ts <= 64 -> length v = 8%nat -> words_ok v ->
  named (i + zlen Ts) (rounds round i v Ts) = fold_left step (zip (zdrop i K256) Ts) (named i v) /\
  length (rounds round i v Ts) = 8%nat /\ words_ok (rounds round i v Ts).
Proof.
  induction Ts as [|T1 Ts IH]; intros i v Hi Hl Hv Hw; cbn [rounds].
  - rewrite zlen_nil, Z.add_0_r. split; [|done]. by destruct (zdrop i K256).
  - rewrite zlen_cons in *. zlen_pos. destruct (round_step v T1 i Hv Hw) as (Hv' & Hw' & Hn).
    rewrite zdrop_cons by (change (zlen K256) with 64; lia). cbn [zip_with fold_left].
    destruct (IH (i + 1) (round v T1 i) ltac:(lia) ltac:(lia) Hv' Hw') as (E & ? & ?). rewrite Hn in E.
    replace (i + (1 + zlen Ts)) with (i + 1 + zlen Ts) by lia. done.
Qed.

Lemma named_whole i v : i mod 8 = 0 -> length v = 8%nat -> named i v = v.
Proof.
  intros Hi Hv. destruct (length_8 v Hv) as (a & b & c & d & e & f & g & h & ->). unfold named. cbn [map upto seq Nat.sub].
  rewrite !(place_mod i), Hi. eval_places. done.
Qed.

(** ** The schedule *)

(** The word that [ROUND_16_63] computes. *)
Definition next_X (X : list Z) (i : Z) : Z :=
  u32 (znth 0 X (i .& 0x0f) + (sigma0 (znth 0 X ((i + 1) .& 0x0f)) + sigma1 (znth 0 X ((i + 14) .& 0x0f)) +
    znth 0 X ((i + 9) .& 0x0f))).

Lemma later_word w X : circular w X -> words_ok w -> next_X X (zlen w) = next_word w.
Proof.
  intros Hc Hok. unfold next_X. pose proof (circular_at w X 0 16 Hc) as E0. rewrite Z.add_0_r in E0.
  rewrite E0, (circular_at w X 1 15), (circular_at w X 14 2), (circular_at w X 9 7) by (done || lia).
  destruct (Sigma_fips (znth 0 w (zlen w - 15)) (znth_word _ _ Hok)) as (_ & _ & -> & _).
  destruct (Sigma_fips (znth 0 w (zlen w - 2)) (znth_word _ _ Hok)) as (_ & _ & _ & ->).
  unfold next_word, u32. change (2 ^ 32) with 4294967296. cbv zeta. f_equal. lia.
Qed.

Lemma next_word_ok w : is_word (next_word w).
Proof. unfold next_word, is_word. apply Z.mod_pos_bound. lia. Qed.

(** ** Blocks *)

(** The block function of the code is the one of the standard. *)
Lemma sha256_block_fips state b : state_ok 8 state -> zlen b = 64 -> bytes_ok b ->
  sha256_block state b = fips_compress state b /\ state_ok 8 (sha256_block state b).
Proof.
  intros Hst Hb Hok. pose proof Hst as [Hs Hw].
  destruct (block_rounds round next_X next_word (fun w _ => next_word_ok w) later_word b state 48 Hb Hok) as [Hrun H64].
  unfold sha256_block. change later_round with (later_step round next_X). change (first_round b) with (first_step round b).
  change (16 + 48)%nat with 64%nat in Hrun. destruct (fold_left _ (upto 16 64) _) as [v X]. cbn [fst] in Hrun. subst v.
  unfold fips_compress. destruct constants_fips as (<- & _). set (W := extend next_word 48 (block_words b)) in *. clearbody W.
  destruct (rounds_fips W 0 state ltac:(lia) ltac:(lia) Hs Hw) as (Hr & Hlen & _).
  rewrite H64, (named_whole 0 state) in Hr by done. rewrite named_whole in Hr by done.
  split; [|by apply zip_sum_ok]. rewrite zdrop_0 in Hr. by rewrite Hr.
Qed.

(** A block is read, and nothing after it. *)
Lemma sha256_block_prefix state b rest : zlen b = 64 -> sha256_block state (b ++ rest) = sha256_block state b.
Proof.
  intros Hb. unfold sha256_block. change first_round with (first_step round). rewrite first_step_prefix; [done|done|].
  apply List.Forall_forall. intros i Hi%upto_range. exact Hi.
Qed.

Lemma sha256_blocks_S n state data :
  sha256_blocks (S n) state data = sha256_blocks n (sha256_block state data) (zdrop SHA256_CBLOCK data).
Proof. reflexivity. Qed.

Lemma sha256_blocks_fold blocks rest : Forall (fun b => zlen b = SHA256_CBLOCK /\ bytes_ok b) blocks -> forall hh,
  sha256_blocks (length blocks) hh (concat blocks ++ rest) = fold_left sha256_block blocks hh.
Proof.
  induction 1 as [|b l [Hlen _] _ IH]; intros hh; [reflexivity|].
  change (length (b :: l)) with (S (length l)). change (concat (b :: l)) with (b ++ concat l).
  rewrite sha256_blocks_S, <- app_assoc, sha256_block_prefix, zdrop_app by exact Hlen. rewrite fold_left_cons. apply IH.
Qed.

#[global] Instance sha256_block_function : BlockFunction sha256_block_data_order SHA256_CBLOCK sha256_block.
Proof.
  constructor; [unfold SHA256_CBLOCK; lia|]. intros hh blocks rest _ _ Hb.
  unfold sha256_block_data_order, sha256_block_data_order_nohw. rewrite zlen_to_nat. by apply sha256_blocks_fold.
Qed.

Lemma start_ok : state_ok 8 (h (sha_md SHA256_Init)) /\ state_ok 8 (h (sha_md SHA224_Init)).
Proof. split; (split; [done|]); repeat (apply Forall_cons; split; [vm_compute; intuition discriminate|]); apply Forall_nil_2. Qed.

Lemma updates_md pieces c : sha_md (fold_left SHA256_Update pieces c) =
  fold_left (crypto_md32_update sha256_block_data_order SHA256_CBLOCK) pieces (sha_md c) /\
  md_len (fold_left SHA256_Update pieces c) = md_len c.
Proof. revert c. induction pieces as [|p l IH]; intros c; [done|]. rewrite !fold_left_cons. by destruct (IH (SHA256_Update c p)) as [-> ->]. Qed.

(** A hash with any of the two lengths. *)
Lemma final_fips pieces h0 len len' : bytes_ok (concat pieces) -> Forall (fun p => zlen p < 2 ^ 64) pieces -> state_ok 8 h0 ->
  0 <= len <= 32 ->
  fst (sha256_final_impl len (fold_left SHA256_Update pieces (mk_sha256 (md32_start (block_size := SHA256_CBLOCK) h0) len'))) =
  Some (concat (map (be_bytes 4) (ztake (len / 4) (md_hash fips_compress 64 true h0 (concat pieces))))).
Proof.
  intros Hok Hl Hh Hlen. unfold sha256_final_impl. cbv zeta. cbn [sha_md md_len].
  destruct (updates_md pieces (mk_sha256 (md32_start (block_size := SHA256_CBLOCK) h0) len')) as [-> _]. cbn [sha_md].
  rewrite (md32_run_spec true h0 pieces Hok Hl). unfold SHA256_DIGEST_LENGTH. destruct (Z.gtb_spec len 32); [lia|]. cbn [fst].
  change SHA256_CBLOCK with 64. destruct (md_hash_agree _ _ (state_ok 8) sha256_block_fips (concat pieces) h0 Hok Hh) as [<- [_ Hw]].
  rewrite store_words; [done|]. by apply Forall_take.
Qed.

(** C15. SHA-256 and SHA-224 are the hashes of FIPS 180-4: a message passed in any
    pieces gives the digest of the standard, whose constants are the roots of the
    primes and whose schedule and rounds are those of section 6.2. *)
Theorem sha256_fips pieces : bytes_ok (concat pieces) -> Forall (fun p => zlen p < 2 ^ 64) pieces ->
  fst (SHA256_Final (fold_left SHA256_Update pieces SHA256_Init)) = Some (fips_sha256 (concat pieces)) /\
  fst (SHA224_Final (fold_left SHA224_Update pieces SHA224_Init)) = Some (fips_sha224 (concat pieces)).
Proof.
  intros Hok Hl. destruct start_ok as [H1 H2]. destruct constants_fips as (_ & E1 & E2).
  pose proof (final_fips pieces _ 32 32 Hok Hl H1 ltac:(lia)) as F1. pose proof (final_fips pieces _ 28 28 Hok Hl H2 ltac:(lia)) as F2.
  split.
  - unfold SHA256_Final. destruct (updates_md pieces SHA256_Init) as [_ ->]. change (md_len SHA256_Init) with 32.
    unfold fips_sha256. rewrite <- E1. rewrite ztake_all in F1; [exact F1|].
    destruct (md_hash_agree _ _ (state_ok 8) sha256_block_fips (concat pieces) _ Hok H1) as [<- [Hs _]]. unfold zlen. rewrite Hs. done.
  - unfold SHA224_Final, SHA224_Update, fips_sha224. rewrite <- E2. exact F2.
Qed.

Lemma sha256_fips_witness :
  fst (SHA256_Final (fold_left SHA256_Update [[97]; []; [98; 99]] SHA256_Init)) = Some (fips_sha256 [97; 98; 99]).
Proof.
  apply (sha256_fips [[97]; []; [98; 99]]);
    repeat (apply Forall_cons; split; [vm_compute; intuition discriminate|]); apply Forall_nil; exact I.
Defined.
