(* ===== verification/PbStream.v ===== *)
(** * Streams of protocol buffers (nanopb: pb.h, pb_decode.c, pb_encode.c)

    A stream is a counter and a state that only its callback looks at. The callback is
    an interface, of which the callbacks for memory buffers are instances; a client
    may supply its own. A callback is a function of the state: it does not touch the
    other fields of the stream, and the callback of a stream does not change. *)

From S2P Require Import Prelude.

(** The texts that the library sets as [errmsg]. *)
Inductive pb_message :=
| end_of_stream | io_error | varint_overflow | invalid_wire_type | parent_stream_too_short | stream_full.

#[global] Instance pb_message_eq_dec : EqDecision pb_message.
Proof. solve_decision. Defined.

(** [PB_SET_ERROR]: the first message stays. *)
Definition PB_SET_ERROR (errmsg : option pb_message) (msg : pb_message) : option pb_message :=
  match errmsg with Some old => Some old | None => Some msg end.

(** ** Input *)

(** A call [callback stream buf count] fills [buf] with [count] bytes or fails. A
    callback that is not [buf_read] is never called with [buf = NULL]. *)
Class InputCallback (S : Type) := {
  callback : S -> Z -> option (list Z) * S;
  is_buf_read : bool
}.

Record pb_istream (S : Type) := mk_istream { i_state : S; bytes_left : Z; i_errmsg : option pb_message }.
Arguments mk_istream {S}. Arguments i_state {S}. Arguments bytes_left {S}. Arguments i_errmsg {S}.

(** The state of a buffer is the memory from the pointer on. *)
Definition buf_read (source : list Z) (count : Z) : option (list Z) * list Z := (Some (ztake count source), zdrop count source).
#[global] Instance buffer_input : InputCallback (list Z) := { callback := buf_read; is_buf_read := true }.

Definition pb_istream_from_buffer (buf : list Z) (bufsize : Z) : pb_istream (list Z) := mk_istream buf bufsize None.

Section Input.
Context {S : Type} `{InputCallback S}.

(** [PB_RETURN_ERROR] *)
Definition input_error {A} (msg : pb_message) : M (pb_istream S) A := fun s =>
  (None, mk_istream (i_state s) (bytes_left s) (PB_SET_ERROR (i_errmsg s) msg)).

(** The call of the callback, and the subtraction after it. *)
Definition call_input (count : Z) : M (pb_istream S) (list Z) := fun s =>
  match callback (i_state s) count with
  | (Some buf, st) => (Some buf, mk_istream st (u64 (bytes_left s - count)) (i_errmsg s))
  | (None, st) => input_error io_error (mk_istream st (bytes_left s) (i_errmsg s))
  end.

(** [pb_read] with a buffer. *)
Definition pb_read_buf (count : Z) : M (pb_istream S) (list Z) :=
  if count =? 0 then ret [] else
  let* s := get in
  if bytes_left s <? count then input_error end_of_stream else call_input count.

(** The loop that skips input through a buffer of sixteen bytes. *)
Fixpoint skip_input (fuel : nat) (count : Z) : M (pb_istream S) unit :=
  match fuel with
  | O => fail
  | Datatypes.S fuel =>
      if count >? 16 then pb_read_buf 16 ;;; skip_input fuel (count - 16)
      else pb_read_buf count ;;; ret tt
  end.

(** [pb_read] with [buf = NULL]. *)
Definition pb_read_null (count : Z) : M (pb_istream S) unit :=
  if count =? 0 then ret tt
  else if negb is_buf_read then skip_input (Datatypes.S (Z.to_nat count)) count
  else let* s := get in if bytes_left s <? count then input_error end_of_stream else call_input count ;;; ret tt.

Definition pb_readbyte : M (pb_istream S) Z :=
  let* s := get in
  if bytes_left s =? 0 then input_error end_of_stream
  else let* buf := call_input 1 in ret (znth 0 buf 0).
End Input.

(** ** Output *)

(** The callback is given the bytes and succeeds or fails. [null_state] is the [state]
    of a stream set to zero. *)
Class OutputCallback (S : Type) := {
  write_callback : S -> list Z -> bool * S;
  null_state : S
}.

(** [o_callback] is [false] for a stream whose callback is [NULL]: it counts only. *)
Record pb_ostream (S : Type) := mk_ostream {
  o_callback : bool; o_state : S; max_size : Z; bytes_written : Z; o_errmsg : option pb_message
}.
Arguments mk_ostream {S}. Arguments o_callback {S}. Arguments o_state {S}. Arguments max_size {S}.
Arguments bytes_written {S}. Arguments o_errmsg {S}.

(** The state of a buffer is the whole array and the place in it. *)
Definition buf_write (state : list Z * Z) (buf : list Z) : bool * (list Z * Z) :=
  let '(array, dest) := state in (true, (store array dest buf, dest + zlen buf)).
#[global] Instance buffer_output : OutputCallback (list Z * Z) := { write_callback := buf_write; null_state := ([], 0) }.

Definition pb_ostream_from_buffer (buf : list Z) (bufsize : Z) : pb_ostream (list Z * Z) := mk_ostream true (buf, 0) bufsize 0 None.

Section Output.
Context {S : Type} `{OutputCallback S}.

Definition PB_OSTREAM_SIZING : pb_ostream S := mk_ostream false null_state 0 0 None.

Definition output_error {A} (msg : pb_message) : M (pb_ostream S) A := fun s =>
  (None, mk_ostream (o_callback s) (o_state s) (max_size s) (bytes_written s) (PB_SET_ERROR (o_errmsg s) msg)).

Definition call_output (buf : list Z) : M (pb_ostream S) unit := fun s =>
  match write_callback (o_state s) buf with
  | (true, st) => (Some tt, mk_ostream (o_callback s) st (max_size s) (bytes_written s) (o_errmsg s))
  | (false, st) => output_error io_error (mk_ostream (o_callback s) st (max_size s) (bytes_written s) (o_errmsg s))
  end.

Definition add_written (count : Z) : M (pb_ostream S) unit :=
  modify (fun s => mk_ostream (o_callback s) (o_state s) (max_size s) (u64 (bytes_written s + count)) (o_errmsg s)).

Definition pb_write (buf : list Z) : M (pb_ostream S) unit :=
  let count := zlen buf in
  let* s := get in
  (if (count >? 0) && o_callback s then
     if (u64 (bytes_written s + count) <? bytes_written s) || (u64 (bytes_written s + count) >? max_size s)
     then output_error stream_full
     else call_output buf
   else ret tt) ;;;
  add_written count.
End Output.
