(* ===== verification/PbWire.v ===== *)
(** * The wire format (nanopb: pb_decode.c, pb_encode.c)

    Integers of variable and of fixed length, keys of fields, strings and
    substreams, on both sides. *)

From S2P Require Import Prelude Words PbStream.

(** ** Writing *)

Section Encode.
Context {S : Type} `{OutputCallback S}.

(** The loop over [value], at most ten bytes for 64 bits. *)
Fixpoint encode_varint_loop (fuel : nat) (value : Z) : list Z :=
  match fuel with
  | O => []
  | Datatypes.S fuel => if value =? 0 then [] else u8 ((value .& 0x7F) .| 0x80) :: encode_varint_loop fuel (Z.shiftr value 7)
  end.

Definition pb_encode_varint (value : Z) : M (pb_ostream S) unit :=
  if value <=? 0x7F then pb_write [u8 value]
  else
    let buffer := encode_varint_loop 10 value in
    let i := zlen buffer in
    pb_write (zupd buffer (i - 1) (znth 0 buffer (i - 1) .& 0x7F)).

(** [value] is an [int64_t]; the conversions are to [uint64_t]. *)
Definition pb_encode_svarint (value : Z) : M (pb_ostream S) unit :=
  let zigzagged :=
    if value <? 0 then u64 (Z.lnot (u64 (Z.shiftl (u64 value) 1))) else u64 (Z.shiftl (u64 value) 1) in
  pb_encode_varint zigzagged.

Definition pb_encode_fixed32 (val : Z) : M (pb_ostream S) unit :=
  pb_write [u8 (val .& 0xFF); u8 (Z.shiftr val 8 .& 0xFF); u8 (Z.shiftr val 16 .& 0xFF); u8 (Z.shiftr val 24 .& 0xFF)].

Definition pb_encode_fixed64 (val : Z) : M (pb_ostream S) unit :=
  pb_write [u8 (val .& 0xFF); u8 (Z.shiftr val 8 .& 0xFF); u8 (Z.shiftr val 16 .& 0xFF); u8 (Z.shiftr val 24 .& 0xFF);
    u8 (Z.shiftr val 32 .& 0xFF); u8 (Z.shiftr val 40 .& 0xFF); u8 (Z.shiftr val 48 .& 0xFF); u8 (Z.shiftr val 56 .& 0xFF)].

Definition pb_encode_tag (wiretype field_number : Z) : M (pb_ostream S) unit :=
  let tag := u64 (Z.shiftl field_number 3) .| wiretype in pb_encode_varint tag.

Definition pb_encode_string (buffer : list Z) : M (pb_ostream S) unit :=
  pb_encode_varint (zlen buffer) ;;; pb_write buffer.
End Encode.

(** ** Reading *)

Definition PB_WT_VARINT : Z := 0.
Definition PB_WT_64BIT : Z := 1.
Definition PB_WT_STRING : Z := 2.
Definition PB_WT_32BIT : Z := 5.

Section Decode.
Context {S : Type} `{InputCallback S}.

(** The multibyte case after its first byte. [bitpos] is a [uint_fast8_t], which has
    eight bits here; the loop reads a byte in every round. *)
Fixpoint decode_varint32_loop (fuel : nat) (bitpos result : Z) : M (pb_istream S) Z :=
  match fuel with
  | O => fail
  | Datatypes.S fuel =>
      let* byte := pb_readbyte in
      let* result :=
        if bitpos >=? 32 then
          let sign_extension := if bitpos <? 63 then 0xFF else 0x01 in
          if negb (byte .& 0x7F =? 0x00) && ((Z.shiftr result 31 =? 0) || negb (byte =? sign_extension))
          then input_error varint_overflow else ret result
        else ret (result .| u32 (Z.shiftl (byte .& 0x7F) bitpos)) in
      let bitpos := u8 (bitpos + 7) in
      if negb (byte .& 0x80 =? 0) then decode_varint32_loop fuel bitpos result
      else if (bitpos =? 35) && negb (byte .& 0x70 =? 0) then input_error varint_overflow
      else ret result
  end.

(** The value of [*eof] after the call, from its value [eof] before; a caller that
    passes [NULL] drops it. *)
Definition pb_decode_varint32_eof (eof : bool) : pb_istream S -> option Z * bool * pb_istream S := fun s =>
  match pb_readbyte s with
  | (None, s') => (None, if bytes_left s' =? 0 then true else eof, s')
  | (Some byte, s') =>
      if byte .& 0x80 =? 0 then (Some byte, eof, s')
      else let '(result, s'') := decode_varint32_loop (Z.to_nat (bytes_left s') + 1) 7 (byte .& 0x7F) s' in (result, eof, s'')
  end.

Definition pb_decode_varint32 : M (pb_istream S) Z := fun s =>
  let '(dest, _, s') := pb_decode_varint32_eof false s in (dest, s').

(** From bit position 64 on the loop fails. *)
Fixpoint decode_varint_loop (fuel : nat) (bitpos result : Z) : M (pb_istream S) Z :=
  if bitpos >=? 64 then input_error varint_overflow
  else match fuel with
  | O => fail
  | Datatypes.S fuel =>
      let* byte := pb_readbyte in
      let result := result .| u64 (Z.shiftl (byte .& 0x7F) bitpos) in
      let bitpos := u8 (bitpos + 7) in
      if negb (byte .& 0x80 =? 0) then decode_varint_loop fuel bitpos result else ret result
  end.
Definition pb_decode_varint : M (pb_istream S) Z := decode_varint_loop 10 0 0.

Definition pb_decode_svarint : M (pb_istream S) Z :=
  let* value := pb_decode_varint in
  if negb (value .& 1 =? 0) then ret (i64 (u64 (Z.lnot (Z.shiftr value 1)))) else ret (i64 (Z.shiftr value 1)).

Definition pb_decode_fixed32 : M (pb_istream S) Z :=
  let* bytes := pb_read_buf 4 in
  ret (Z.shiftl (znth 0 bytes 0) 0 .| Z.shiftl (znth 0 bytes 1) 8 .| Z.shiftl (znth 0 bytes 2) 16 .| Z.shiftl (znth 0 bytes 3) 24).

Definition pb_decode_fixed64 : M (pb_istream S) Z :=
  let* bytes := pb_read_buf 8 in
  ret (Z.shiftl (znth 0 bytes 0) 0 .| Z.shiftl (znth 0 bytes 1) 8 .| Z.shiftl (znth 0 bytes 2) 16 .| Z.shiftl (znth 0 bytes 3) 24 .|
    Z.shiftl (znth 0 bytes 4) 32 .| Z.shiftl (znth 0 bytes 5) 40 .| Z.shiftl (znth 0 bytes 6) 48 .| Z.shiftl (znth 0 bytes 7) 56).

Fixpoint skip_varint_loop (fuel : nat) : M (pb_istream S) unit :=
  match fuel with
  | O => fail
  | Datatypes.S fuel =>
      let* buf := pb_read_buf 1 in
      if negb (znth 0 buf 0 .& 0x80 =? 0) then skip_varint_loop fuel else ret tt
  end.
Definition pb_skip_varint : M (pb_istream S) unit := fun s => skip_varint_loop (Z.to_nat (bytes_left s) + 1) s.

Definition pb_skip_string : M (pb_istream S) unit := let* length := pb_decode_varint32 in pb_read_null length.

(** The outputs of [pb_decode_tag]: the tag and the wire type of a call that
    succeeds, and [*eof]. *)
Definition pb_decode_tag : pb_istream S -> option (Z * Z) * bool * pb_istream S := fun s =>
  match pb_decode_varint32_eof false s with
  | (None, eof, s') => (None, eof, s')
  | (Some temp, eof, s') =>
      if temp =? 0 then (None, true, s') else (Some (Z.shiftr temp 3, temp .& 7), eof, s')
  end.

Definition pb_skip_field (wire_type : Z) : M (pb_istream S) unit :=
  if wire_type =? PB_WT_VARINT then pb_skip_varint
  else if wire_type =? PB_WT_64BIT then pb_read_null 8
  else if wire_type =? PB_WT_STRING then pb_skip_string
  else if wire_type =? PB_WT_32BIT then pb_read_null 4
  else input_error invalid_wire_type.

(** The bytes that a call which succeeds leaves in [buf]; their number is [*size]. *)
Fixpoint read_raw_varint (fuel : nat) (size max_size : Z) : M (pb_istream S) (list Z) :=
  match fuel with
  | O => fail
  | Datatypes.S fuel =>
      let size := size + 1 in
      if size >? max_size then fail
      else
        let* buf := pb_read_buf 1 in
        if negb (znth 0 buf 0 .& 0x80 =? 0) then let* rest := read_raw_varint fuel size max_size in ret (buf ++ rest)
        else ret buf
  end.
Definition read_raw_value (wire_type max_size : Z) : M (pb_istream S) (list Z) :=
  if wire_type =? PB_WT_VARINT then read_raw_varint (Z.to_nat max_size + 1) 0 max_size
  else if wire_type =? PB_WT_64BIT then pb_read_buf 8
  else if wire_type =? PB_WT_32BIT then pb_read_buf 4
  else input_error invalid_wire_type.

Definition set_bytes_left (n : Z) (s : pb_istream S) : pb_istream S := mk_istream (i_state s) n (i_errmsg s).

(** The stream that is returned next to the parent. *)
Definition pb_make_string_substream : M (pb_istream S) (pb_istream S) :=
  let* size := pb_decode_varint32 in
  let* stream := get in
  if bytes_left stream <? size then input_error parent_stream_too_short
  else
    modify (set_bytes_left (bytes_left stream - size)) ;;;
    ret (set_bytes_left size stream).

Definition pb_close_string_substream (substream : pb_istream S) : M (pb_istream S) unit := fun stream =>
  let '(r, sub) := (if negb (bytes_left substream =? 0) then pb_read_null (bytes_left substream) substream else (Some tt, substream)) in
  match r with
  | None => (None, stream)
  | Some _ => (Some tt, mk_istream (i_state sub) (bytes_left stream) (i_errmsg sub))
  end.
End Decode.
