(* ===== verification/PbStreamFacts.v ===== *)
(** * Streams as lists of bytes (theorems about PbStream.v)

    Interfaces for callbacks that do their work, and what a reader or a writer does
    on a stream of any such callback: [reads], [delivers] and [emits], each closed
    under sequencing. *)

From S2P Require Import Prelude PbStream.

(** ** Input *)

(** A callback hands out the bytes of [pending] in their order, as long as there are
    enough. *)
Class ReliableInput (S : Type) `{InputCallback S} := {
  pending : S -> list Z;
  callback_reads st n : 0 <= n <= zlen (pending st) ->
    exists st', callback st n = (Some (ztake n (pending st)), st') /\ pending st' = zdrop n (pending st)
}.

#[global] Instance buffer_input_reliable : ReliableInput (list Z).
Proof. refine {| pending := fun st => st |}. intros st n Hn. by exists (zdrop n st). Defined.

Section Reading.
Context {S : Type} `{ReliableInput S}.
Implicit Types s : pb_istream S.

(** The stream ends after [l]; [after] is what its callback could still deliver. *)
Definition holds s (l after : list Z) : Prop :=
  pending (i_state s) = l ++ after /\ bytes_left s = zlen l /\ zlen l < 2 ^ 64 /\ bytes_ok l.

(** [m] returns [a] when the stream starts with [b], and leaves the rest. *)
Definition delivers {A} (m : M (pb_istream S) A) (a : A) (b : list Z) : Prop := forall s rest after,
  holds s (b ++ rest) after -> exists s', m s = (Some a, s') /\ holds s' rest after /\ i_errmsg s' = i_errmsg s.

(** [m] fails on the stream [s], with a message. *)
Definition rejects {A} (m : M (pb_istream S) A) s : Prop := exists s', m s = (None, s') /\ i_errmsg s' <> None.

(** [m] is the partial function [p] from the bytes of the stream. *)
Definition reads {A} (m : M (pb_istream S) A) (p : list Z -> option (A * list Z)) : Prop := forall s l after,
  holds s l after ->
  match p l with
  | Some (a, rest) => exists s', m s = (Some a, s') /\ holds s' rest after /\ i_errmsg s' = i_errmsg s
  | None => rejects m s
  end.

Lemma set_error_some e msg : PB_SET_ERROR e msg <> None.
Proof. by destruct e. Qed.

Lemma input_error_rejects {A} msg s : rejects (input_error (A := A) msg) s.
Proof. eexists. split; [reflexivity|]. apply set_error_some. Qed.

Lemma delivers_ret {A} (a : A) : delivers (ret a) a [].
Proof. intros s rest after Hs. by exists s. Qed.

Lemma delivers_bind {A B} (m : M _ A) (k : A -> M _ B) a b x y : delivers m a x -> delivers (k a) b y -> delivers (bind m k) b (x ++ y).
Proof.
  intros Hm Hk s rest after Hs. rewrite <- app_assoc in Hs. destruct (Hm s _ after Hs) as (s1 & E1 & H1 & M1).
  destruct (Hk s1 rest after H1) as (s2 & E2 & H2 & M2). exists s2. rewrite (bind_step _ _ _ _ _ E1). by rewrite E2, M2.
Qed.

Lemma reads_bind {A B} (m : M _ A) (k : A -> M _ B) p q : reads m p -> (forall a, reads (k a) (q a)) ->
  reads (bind m k) (fun l => match p l with Some (a, l') => q a l' | None => None end).
Proof.
  intros Hm Hk s l after Hs. specialize (Hm s l after Hs). destruct (p l) as [[a l']|].
  - destruct Hm as (s1 & E1 & H1 & M1). specialize (Hk a s1 l' after H1). unfold rejects. rewrite (bind_step _ _ _ _ _ E1).
    destruct (q a l') as [[b rest]|]; [|exact Hk]. rewrite <- M1. exact Hk.
  - destruct Hm as (s1 & E1 & M1). exists s1. by rewrite (bind_none _ _ _ _ E1).
Qed.

Lemma reads_ret {A} (a : A) : reads (ret a) (fun l => Some (a, l)).
Proof. intros s l after Hs. by exists s. Qed.

Lemma reads_delivers {A} (m : M _ A) p a b : reads m p -> (forall rest, bytes_ok (b ++ rest) -> p (b ++ rest) = Some (a, rest)) ->
  delivers m a b.
Proof.
  intros Hm Hp s rest after Hs. specialize (Hm s _ after Hs). rewrite Hp in Hm by apply Hs. exact Hm.
Qed.

(** Reading [n] bytes. *)
Definition take_bytes (n : Z) (l : list Z) : option (list Z * list Z) :=
  if zlen l <? n then None else Some (ztake n l, zdrop n l).

Lemma call_input_holds s x rest after : holds s (x ++ rest) after ->
  exists s', call_input (zlen x) s = (Some x, s') /\ holds s' rest after /\ i_errmsg s' = i_errmsg s.
Proof.
  intros (Hp & Hb & Hl & Hok). rewrite <- app_assoc in Hp. rewrite zlen_app in *. zlen_pos.
  destruct (callback_reads (i_state s) (zlen x)) as (st' & E & Hp').
  { rewrite Hp, !zlen_app. zlen_pos. lia. }
  rewrite Hp in E, Hp'. rewrite ztake_app in E by done. rewrite zdrop_app in Hp' by done.
  eexists. unfold call_input. rewrite E. split; [reflexivity|]. split; [|done]. apply Forall_app in Hok as [_ Hok].
  split; [done|]. cbn [bytes_left]. split; [|split; [lia|done]]. unfold u64. rewrite Z.mod_small by lia. lia.
Qed.

Lemma pb_read_buf_reads n : 0 <= n -> reads (pb_read_buf n) (take_bytes n).
Proof.
  intros Hn s l after Hs. unfold pb_read_buf, take_bytes. destruct (Z.eqb_spec n 0) as [->|Hne].
  { destruct (Z.ltb_spec (zlen l) 0); [zlen_pos; lia|]. rewrite ztake_0, zdrop_0. by exists s. }
  unfold rejects. rewrite !get_state. cbv beta. pose proof Hs as (_ & Hb & _). rewrite Hb.
  destruct (Z.ltb_spec (zlen l) n); [apply input_error_rejects|].
  rewrite <- (ztake_zdrop n l) in Hs. destruct (call_input_holds s _ _ after Hs) as (s' & E & Hs').
  rewrite zlen_ztake in E by lia. by exists s'.
Qed.

Definition next_byte (l : list Z) : option (Z * list Z) := match l with [] => None | b :: l => Some (b, l) end.

Lemma pb_readbyte_reads : reads pb_readbyte next_byte.
Proof.
  intros s l after Hs. unfold pb_readbyte. unfold rejects. rewrite !get_state. cbv beta. pose proof Hs as (_ & Hb & _). rewrite Hb.
  destruct l as [|b l]; [apply input_error_rejects|]. rewrite zlen_cons. cbn [next_byte]. destruct (Z.eqb_spec (1 + zlen l) 0); [zlen_pos; lia|].
  destruct (call_input_holds s [b] l after Hs) as (s' & E & Hs'). exists s'. change 1 with (zlen [b]). by rewrite (bind_step _ _ _ _ _ E).
Qed.

(** Skipping [n] bytes, in one call or in pieces of sixteen. *)
Definition skip_bytes (n : Z) (l : list Z) : option (unit * list Z) := if zlen l <? n then None else Some (tt, zdrop n l).

Lemma skip_bytes_take n l : skip_bytes n l = match take_bytes n l with Some (_, l') => Some (tt, l') | None => None end.
Proof. unfold skip_bytes, take_bytes. by destruct (zlen l <? n). Qed.

Lemma reads_ext {A} (m : M _ A) p q : (forall l, p l = q l) -> reads m p -> reads m q.
Proof. intros Hpq Hm s l after Hs. rewrite <- Hpq. by apply Hm. Qed.

Lemma skip_input_reads fuel : forall n, 0 <= n < Z.of_nat fuel -> reads (skip_input fuel n) (skip_bytes n).
Proof.
  induction fuel as [|fuel IH]; intros n Hn; [lia|]. cbn [skip_input]. rewrite Z.gtb_ltb. destruct (Z.ltb_spec 16 n).
  - eapply reads_ext; [|apply reads_bind; [apply pb_read_buf_reads; lia|intros ?; apply IH; lia]]. intros l. cbv beta.
    unfold take_bytes, skip_bytes. destruct (Z.ltb_spec (zlen l) 16); [by destruct (Z.ltb_spec (zlen l) n); [|lia]|].
    rewrite zlen_zdrop by lia. destruct (Z.ltb_spec (zlen l - 16) (n - 16)), (Z.ltb_spec (zlen l) n); try lia; [done|].
    do 2 f_equal. unfold zdrop. rewrite drop_drop. f_equal. lia.
  - eapply reads_ext; [|apply reads_bind; [apply (pb_read_buf_reads n); lia|intros ?; apply reads_ret]]. intros l. by rewrite skip_bytes_take.
Qed.

Lemma pb_read_null_reads n : 0 <= n -> reads (pb_read_null n) (skip_bytes n).
Proof.
  intros Hn. unfold pb_read_null. destruct (Z.eqb_spec n 0) as [->|Hne].
  { eapply reads_ext; [|apply reads_ret]. intros l. unfold skip_bytes. destruct (Z.ltb_spec (zlen l) 0); [zlen_pos; lia|]. by rewrite zdrop_0. }
  destruct (negb is_buf_read); [apply skip_input_reads; lia|].
  assert (Hread : reads (pb_read_buf n ;;; ret tt) (skip_bytes n)).
  { eapply reads_ext; [|apply reads_bind; [by apply (pb_read_buf_reads n)|intros ?; apply reads_ret]]. intros l. by rewrite skip_bytes_take. }
  intros s l after Hs. specialize (Hread s l after Hs). unfold rejects, pb_read_buf, bind, get in *. destruct (Z.eqb_spec n 0); [done|].
  by destruct (bytes_left s <? n).
Qed.

Lemma pb_read_buf_delivers x : delivers (pb_read_buf (zlen x)) x x.
Proof.
  eapply reads_delivers; [apply pb_read_buf_reads; zlen_pos; lia|]. intros rest _. unfold take_bytes. rewrite zlen_app.
  destruct (Z.ltb_spec (zlen x + zlen rest) (zlen x)); [zlen_pos; lia|]. by rewrite ztake_app, zdrop_app.
Qed.

Lemma pb_read_null_delivers x : delivers (pb_read_null (zlen x)) tt x.
Proof.
  eapply reads_delivers; [apply pb_read_null_reads; zlen_pos; lia|]. intros rest _. unfold skip_bytes. rewrite zlen_app.
  destruct (Z.ltb_spec (zlen x + zlen rest) (zlen x)); [zlen_pos; lia|]. by rewrite zdrop_app.
Qed.
End Reading.

(** A buffer holds its bytes. *)
Lemma buffer_holds l : bytes_ok l -> zlen l < 2 ^ 64 -> holds (pb_istream_from_buffer l (zlen l)) l [].
Proof. intros Hok Hl. unfold holds. cbn. by rewrite app_nil_r. Qed.

(** ** Output *)

(** A callback appends to [output] and takes [spare] cells for it. *)
Class ReliableOutput (S : Type) `{OutputCallback S} := {
  output : S -> list Z;
  spare : S -> list Z;
  write_state_ok : S -> Prop;
  callback_writes st x : write_state_ok st -> zlen x <= zlen (spare st) ->
    exists st', write_callback st x = (true, st') /\ write_state_ok st' /\ output st' = output st ++ x /\ spare st' = zdrop (zlen x) (spare st)
}.

(** Before the place in a buffer is what has been written. *)
#[global] Instance buffer_output_reliable : ReliableOutput (list Z * Z).
Proof.
  refine {| output := fun st => ztake (snd st) (fst st); spare := fun st => zdrop (snd st) (fst st);
            write_state_ok := fun st => 0 <= snd st <= zlen (fst st) |}.
  intros [array dest] x Hok Hx. cbn [fst snd] in *. zlen_pos. rewrite zlen_zdrop in Hx by lia. eexists. split; [reflexivity|]. cbn [fst snd].
  destruct (zsplit dest array) as (a & b & -> & Ha); [lia|]. rewrite zlen_app in Hx.
  destruct (zsplit (zlen x) b) as (b1 & b2 & -> & Hb); [lia|]. rewrite (store_app _ _ _ a b1 b2) by done.
  rewrite !zlen_app in *. split; [lia|]. rewrite app_assoc. rewrite ztake_app, zdrop_app, ztake_app, zdrop_app by (rewrite ?zlen_app; lia).
  split; [done|]. by rewrite zdrop_app.
Defined.

Section Writing.
Context {S : Type} `{ReliableOutput S}.
Implicit Types s : pb_ostream S.

(** A stream that counts, or one with enough cells for its limit. *)
Definition ostream_ok s : Prop :=
  0 <= bytes_written s < 2 ^ 64 /\
  (o_callback s = true -> write_state_ok (o_state s) /\ bytes_written s <= max_size s < 2 ^ 64 /\
    max_size s - bytes_written s <= zlen (spare (o_state s))).

(** [s'] is [s] after [x] has been written to it. *)
Definition wrote s x s' : Prop :=
  o_callback s' = o_callback s /\ max_size s' = max_size s /\ bytes_written s' = bytes_written s + zlen x /\
  (o_callback s = true -> output (o_state s') = output (o_state s) ++ x /\ spare (o_state s') = zdrop (zlen x) (spare (o_state s))) /\
  ostream_ok s'.

(** There is room for [x]; a stream that counts has room up to the range of its
    counter. *)
Definition fits s (x : list Z) : Prop :=
  if o_callback s then bytes_written s + zlen x <= max_size s else bytes_written s + zlen x < 2 ^ 64.

(** [m] writes [x] if there is room, and otherwise fails with a message after it has
    written a part of [x]. *)
Definition emits (m : M (pb_ostream S) unit) (x : list Z) : Prop := forall s, ostream_ok s ->
  (fits s x -> exists s', m s = (Some tt, s') /\ wrote s x s' /\ o_errmsg s' = o_errmsg s) /\
  (o_callback s = true -> ~ fits s x -> exists s' k, m s = (None, s') /\ o_errmsg s' <> None /\ wrote s (ztake k x) s').

Lemma wrote_nil s : ostream_ok s -> wrote s [] s.
Proof.
  intros Hs. split; [done|]. split; [done|]. split; [by rewrite zlen_nil, Z.add_0_r|]. split; [|done].
  intros _. by rewrite app_nil_r, zdrop_0.
Qed.

Lemma wrote_app s x s1 y s2 : wrote s x s1 -> wrote s1 y s2 -> wrote s (x ++ y) s2.
Proof.
  intros (C1 & M1 & B1 & O1 & K1) (C2 & M2 & B2 & O2 & K2). split; [congruence|]. split; [congruence|].
  split; [rewrite zlen_app; lia|]. split; [|exact K2]. intros Hc. rewrite C1 in O2. destruct (O2 Hc) as [-> E2], (O1 Hc) as [-> E1].
  split; [by rewrite app_assoc|]. rewrite E2, E1. unfold zdrop. rewrite drop_drop. f_equal. rewrite zlen_app. unfold zlen. lia.
Qed.

Lemma wrote_fits s x s1 y : ostream_ok s -> wrote s x s1 -> fits s1 y <-> fits s (x ++ y).
Proof. intros Hs (C1 & M1 & B1 & _ & _). unfold fits. rewrite C1, M1, B1, zlen_app. by rewrite Z.add_assoc. Qed.

Lemma fits_app s x y : fits s (x ++ y) -> fits s x.
Proof. unfold fits. rewrite zlen_app. destruct (o_callback s); zlen_pos; lia. Qed.

Lemma fits_dec s x : {fits s x} + {~ fits s x}.
Proof. unfold fits. destruct (o_callback s); [apply Z_le_dec|apply Z_lt_dec]. Qed.

Lemma emits_nil : emits (ret tt) [].
Proof.
  intros s Hs. split; [intros _; exists s; split; [done|]; split; [by apply wrote_nil|done]|].
  intros Hc Hn. exfalso. apply Hn. unfold fits. destruct Hs as [_ Hs]. destruct (Hs Hc) as (_ & Hm & _). rewrite Hc, zlen_nil. lia.
Qed.

Lemma emits_bind m k x y : emits m x -> emits (k tt) y -> emits (bind m k) (x ++ y).
Proof.
  intros Hm Hk s Hs. destruct (Hm s Hs) as [Hm1 Hm2]. split.
  - intros Hf. destruct (Hm1 (fits_app _ _ _ Hf)) as (s1 & E1 & W1 & M1). pose proof W1 as (_ & _ & _ & _ & K1).
    destruct (Hk s1 K1) as [Hk1 _]. destruct (Hk1 (proj2 (wrote_fits s x s1 y Hs W1) Hf)) as (s2 & E2 & W2 & M2).
    exists s2. rewrite (bind_step _ _ _ _ _ E1). split; [done|]. split; [by apply wrote_app with s1|congruence].
  - intros Hc Hf. destruct (fits_dec s x) as [Hx|Hx].
    + destruct (Hm1 Hx) as (s1 & E1 & W1 & M1). pose proof W1 as (C1 & _ & _ & _ & K1). destruct (Hk s1 K1) as [_ Hk2].
      destruct Hk2 as (s2 & k' & E2 & M2 & W2); [congruence|by rewrite (wrote_fits s x s1 y Hs W1)|].
      exists s2, (zlen x + Z.max 0 k'). rewrite (bind_step _ _ _ _ _ E1). split; [done|]. split; [done|].
      rewrite ztake_app_ge by lia. apply wrote_app with s1; [done|].
      replace (zlen x + Z.max 0 k' - zlen x) with (Z.max 0 k') by lia.
      by replace (ztake (Z.max 0 k') y) with (ztake k' y) by (unfold ztake; f_equal; lia).
    + destruct (Hm2 Hc Hx) as (s1 & k' & E1 & M1 & W1). exists s1, (Z.min k' (zlen x)). rewrite (bind_none _ _ _ _ E1).
      split; [done|]. split; [done|]. rewrite ztake_app_le by lia.
      by replace (ztake (Z.min k' (zlen x)) x) with (ztake k' x)
        by (unfold ztake, zlen; destruct (Z.le_ge_cases k' (Z.of_nat (length x))); [by rewrite Z.min_l|rewrite Z.min_r, !take_ge by lia; done]).
Qed.

Lemma pb_write_fits s x : ostream_ok s -> fits s x ->
  exists s', pb_write x s = (Some tt, s') /\ wrote s x s' /\ o_errmsg s' = o_errmsg s.
Proof.
  intros [Hr Hs] Hf. unfold pb_write, fits in *. rewrite get_state. zlen_pos. destruct (o_callback s) eqn:Hc.
  - destruct (Hs eq_refl) as (Hst & Hm & Hroom). assert (Hu : u64 (bytes_written s + zlen x) = bytes_written s + zlen x) by (apply Z.mod_small; lia).
    rewrite andb_true_r, Z.gtb_ltb. destruct (Z.ltb_spec 0 (zlen x)) as [Hpos|Hz].
    + rewrite Hu, Z.gtb_ltb. destruct (Z.ltb_spec (bytes_written s + zlen x) (bytes_written s)); [lia|].
      destruct (Z.ltb_spec (max_size s) (bytes_written s + zlen x)); [lia|]. cbn [orb].
      destruct (callback_writes (o_state s) x Hst ltac:(lia)) as (st & E & Hst' & Ho & Hsp).
      unfold call_output, bind. rewrite E. unfold add_written, modify. cbn [o_callback o_state max_size bytes_written o_errmsg]. rewrite Hu.
      eexists. split; [reflexivity|]. split; [|done]. split; [by cbn; rewrite Hc|]. cbn. split; [done|]. split; [done|]. split; [done|].
      split; cbn; [lia|]. intros _. split; [done|]. rewrite Hsp, zlen_zdrop by lia. lia.
    + assert (x = []) as -> by (apply zlen_0_nil; lia). rewrite zlen_nil in *. rewrite bind_ret. unfold add_written, modify.
      rewrite Hu, Z.add_0_r. destruct s; cbn in *.
      eexists. split; [reflexivity|]. split; [|done]. apply wrote_nil. by split.
  - rewrite andb_false_r, bind_ret. unfold add_written, modify, u64. rewrite Z.mod_small by lia. eexists. split; [reflexivity|]. split; [|done].
    split; [done|]. cbn. split; [done|]. split; [done|]. split; [congruence|]. split; cbn; [lia|congruence].
Qed.

Lemma pb_write_full s x : ostream_ok s -> o_callback s = true -> ~ fits s x ->
  zlen x < 2 ^ 64 -> pb_write x s = output_error stream_full s.
Proof.
  intros [Hr Hs] Hc Hf Hl. unfold pb_write, fits in *. rewrite get_state, Hc in *. destruct (Hs eq_refl) as (_ & Hm & _). zlen_pos.
  rewrite andb_true_r, Z.gtb_ltb. destruct (Z.ltb_spec 0 (zlen x)); [|lia]. unfold bind.
  replace (_ || _) with true; [done|]. symmetry. rewrite Z.gtb_ltb. apply orb_true_iff. rewrite !Z.ltb_lt.
  unfold u64. change 18446744073709551616 with (2 ^ 64). destruct (Z.lt_ge_cases (bytes_written s + zlen x) (2 ^ 64)).
  - rewrite Z.mod_small by lia. lia.
  - left. rewrite <- (Z.mod_unique (bytes_written s + zlen x) (2 ^ 64) 1 (bytes_written s + zlen x - 2 ^ 64)); lia.
Qed.

Lemma pb_write_emits x : zlen x < 2 ^ 64 -> emits (pb_write x) x.
Proof.
  intros Hx s Hs. split; [by apply pb_write_fits|]. intros Hc Hf. rewrite pb_write_full by done. eexists _, 0. split; [reflexivity|].
  split; [apply set_error_some|]. rewrite ztake_0. pose proof (wrote_nil s Hs) as W.
  unfold wrote, ostream_ok in *. exact W.
Qed.
End Writing.
