(* ===== verification/PbWireFacts.v ===== *)
(** * The wire format on lists of bytes (theorems about PbWire.v)

    An integer on the wire is a list of groups of seven bits, lowest first, with a
    marker on every byte but the last. *)

From S2P Require Import Prelude Words HashBlocks PbStream PbStreamFacts PbWire.

(** ** Groups *)

Definition is_group (g : Z) : Prop := 0 <= g < 128.
Abbreviation groups_ok := (Forall is_group).

Fixpoint wire (gs : list Z) : list Z :=
  match gs with [] => [] | [g] => [g] | g :: gs => g + 128 :: wire gs end.

Fixpoint group_value (gs : list Z) : Z := match gs with [] => 0 | g :: gs => g + 128 * group_value gs end.

(** The groups of a number, without needless ones. *)
Fixpoint groups (n : nat) (v : Z) : list Z :=
  match n with O => [] | S n => if v <? 128 then [v] else v mod 128 :: groups n (v / 128) end.

(** The first integer of a list of bytes, as groups. *)
Fixpoint varint (l : list Z) : option (list Z * list Z) :=
  match l with
  | [] => None
  | b :: l => if b <? 128 then Some ([b], l) else match varint l with Some (gs, r) => Some (b - 128 :: gs, r) | None => None end
  end.

Lemma wire_cons g g' gs : wire (g :: g' :: gs) = g + 128 :: wire (g' :: gs).
Proof. reflexivity. Qed.

Lemma varint_wire gs r : gs <> [] -> groups_ok gs -> varint (wire gs ++ r) = Some (gs, r).
Proof.
  induction gs as [|g gs IH]; [done|]. intros _ [Hg Hok]%Forall_cons_1. unfold is_group in Hg. destruct gs as [|g' gs].
  - cbn. destruct (Z.ltb_spec g 128); [done|lia].
  - rewrite wire_cons. cbn [app varint]. destruct (Z.ltb_spec (g + 128) 128); [lia|]. rewrite IH by done. do 3 f_equal. lia.
Qed.

Lemma varint_Some l gs r : bytes_ok l -> varint l = Some (gs, r) -> l = wire gs ++ r /\ gs <> [] /\ groups_ok gs.
Proof.
  revert gs. induction l as [|b l IH]; intros gs Hok; [done|]. apply Forall_cons_1 in Hok as [Hb Hok]. unfold is_byte in Hb. cbn [varint].
  destruct (Z.ltb_spec b 128).
  - intros [= <- <-]. split; [done|]. split; [done|]. repeat constructor; lia.
  - destruct (varint l) as [[gs' r']|]; [|done]. intros [= <- <-]. destruct (IH gs' Hok eq_refl) as (-> & Hne & Hgs).
    destruct gs' as [|g gs']; [done|]. rewrite wire_cons. split; [cbn; f_equal; lia|]. split; [done|]. constructor; [unfold is_group; lia|done].
Qed.

Lemma wire_ok gs : groups_ok gs -> bytes_ok (wire gs).
Proof.
  induction gs as [|g gs IH]; [constructor|]. intros [Hg Hok]%Forall_cons_1. unfold is_group in Hg.
  destruct gs; [repeat constructor; lia|]. rewrite wire_cons. constructor; [unfold is_byte; lia|by apply IH].
Qed.

Lemma zlen_wire gs : zlen (wire gs) = zlen gs.
Proof. induction gs as [|g [|g' gs] IH]; [done..|]. by rewrite wire_cons, !(zlen_cons g), (zlen_cons (g + 128)), IH. Qed.

Lemma wire_snoc gs g : wire (gs ++ [g]) = map (fun g => g + 128) gs ++ [g].
Proof.
  induction gs as [|h gs IH]; [done|]. cbn [app map]. rewrite <- IH. by destruct gs.
Qed.

Lemma group_value_bound gs : groups_ok gs -> 0 <= group_value gs < 128 ^ zlen gs.
Proof.
  induction 1 as [|g gs Hg _ IH]; [done|]. unfold is_group in Hg. cbn [group_value]. rewrite zlen_cons, Z.pow_add_r by (zlen_pos; lia).
  change (128 ^ 1) with 128. lia.
Qed.

Lemma groups_spec n v : 0 <= v < 128 ^ Z.of_nat (S n) ->
  group_value (groups (S n) v) = v /\ groups_ok (groups (S n) v) /\ groups (S n) v <> [] /\ zlen (groups (S n) v) <= Z.of_nat (S n).
Proof.
  revert v. induction n as [|n IH]; intros v Hv; rewrite Nat2Z.inj_succ, Z.pow_succ_r in Hv by lia; cbn [groups] in *; destruct (Z.ltb_spec v 128).
  1, 3: split; [cbn; lia|]; split; [repeat constructor; lia|]; split; [done|]; rewrite zlen_cons, zlen_nil; lia.
  - cbn in Hv. lia.
  - destruct (IH (v / 128)) as (E & Hok & Hne & Hl).
    { split; [apply Z.div_pos; lia|]. apply Z.div_lt_upper_bound; lia. }
    cbn [group_value]. rewrite E. split; [dlia|]. split; [constructor; [unfold is_group; dlia|done]|]. split; [done|]. rewrite zlen_cons. lia.
Qed.

(** ** Bits of a byte *)

Lemma byte_low b : b .& 0x7F = b mod 128.
Proof. apply (land_ones_mod b 7). lia. Qed.

Lemma byte_marker b : is_byte b -> (b .& 0x80 =? 0) = (b <? 128).
Proof.
  intros Hb. pose proof (zall_spec 0 256 (fun b => Bool.eqb (b .& 0x80 =? 0) (b <? 128)) eq_refl b) as H. unfold is_byte in Hb.
  apply Bool.eqb_prop, H. lia.
Qed.

Lemma byte_mark g : is_group g -> u8 (g .| 0x80) = g + 128.
Proof.
  intros Hg. pose proof (zall_spec 0 128 (fun g => u8 (g .| 0x80) =? g + 128) eq_refl g) as H. unfold is_group in Hg.
  apply Z.eqb_eq, H. lia.
Qed.

(** Bits of [g] from position [n] on, in a word of [w] bits. *)
Lemma or_shifted w n r g : 0 <= n <= w -> 0 <= r < 2 ^ n -> r .| ((g ≪ n) mod 2 ^ w) = (r + g * 2 ^ n) mod 2 ^ w.
Proof.
  intros Hn Hr. rewrite Z.shiftl_mul_pow2 by lia. replace (2 ^ w) with (2 ^ (w - n) * 2 ^ n) by (rewrite <- Z.pow_add_r by lia; f_equal; lia).
  assert (0 < 2 ^ n) by lia. assert (0 < 2 ^ (w - n)) by lia.
  rewrite Z.mul_mod_distr_r by lia. rewrite Z.lor_comm, lor_mul by lia.
  apply (Z.mod_unique _ _ (g / 2 ^ (w - n))).
  - left. pose proof (Z.mod_pos_bound g (2 ^ (w - n)) ltac:(lia)). nia.
  - pose proof (Z.div_mod g (2 ^ (w - n)) ltac:(lia)). nia.
Qed.

(** ** Writing integers *)

(** The encoding of a 64-bit number. *)
Definition varint_bytes (v : Z) : list Z := wire (groups 10 v).

Lemma groups_10 v : 0 <= v < 2 ^ 64 ->
  group_value (groups 10 v) = v /\ groups_ok (groups 10 v) /\ groups 10 v <> [] /\ zlen (groups 10 v) <= 10.
Proof. intros Hv. apply (groups_spec 9). change (128 ^ Z.of_nat 10) with (2 ^ 70). lia. Qed.

Lemma encode_loop_groups n v : 0 < v < 128 ^ Z.of_nat n -> encode_varint_loop n v = map (fun g => g + 128) (groups n v).
Proof.
  revert v. induction n as [|n IH]; intros v Hv; [cbn in Hv; lia|]. rewrite Nat2Z.inj_succ, Z.pow_succ_r in Hv by lia.
  cbn [encode_varint_loop groups]. destruct (Z.eqb_spec v 0); [lia|]. rewrite byte_low, byte_mark by (unfold is_group; dlia).
  rewrite Z.shiftr_div_pow2 by lia. change (2 ^ 7) with 128. destruct (Z.ltb_spec v 128).
  - cbn [map]. rewrite Z.mod_small, Z.div_small by lia. f_equal. by destruct n.
  - cbn [map]. f_equal. apply IH. split; [apply Z.div_str_pos; lia|apply Z.div_lt_upper_bound; lia].
Qed.

(** The marker of the last byte is cleared. *)
Lemma clear_last gs : gs <> [] -> groups_ok gs ->
  let buffer := map (fun g => g + 128) gs in let i := zlen buffer in zupd buffer (i - 1) (znth 0 buffer (i - 1) .& 0x7F) = wire gs.
Proof.
  intros Hne Hok. cbv zeta. destruct gs as [|g gs _] using rev_ind; [done|]. apply Forall_app in Hok as [_ [Hg _]%Forall_cons_1].
  unfold is_group in Hg. rewrite map_app, zlen_app. cbn [map]. change (zlen [g + 128]) with 1.
  set (l := map _ gs). replace (zlen l + 1 - 1) with (zlen l) by lia. rewrite znth_last, byte_low.
  replace ((g + 128) mod 128) with g by dlia. rewrite wire_snoc. fold l. unfold zupd. rewrite zlen_to_nat.
  rewrite <- (Nat.add_0_r (length l)) at 1. by rewrite insert_app_r.
Qed.

Lemma varint_bytes_small v : 0 <= v < 128 -> varint_bytes v = [v].
Proof. intros Hv. unfold varint_bytes. cbn [groups]. by destruct (Z.ltb_spec v 128); [|lia]. Qed.

Lemma zlen_varint_bytes v : 0 <= v < 2 ^ 64 -> 1 <= zlen (varint_bytes v) <= 10.
Proof.
  intros Hv. unfold varint_bytes. rewrite zlen_wire. destruct (groups_10 v Hv) as (_ & _ & Hne & Hl).
  destruct (groups 10 v); [done|]. rewrite zlen_cons in *. zlen_pos. lia.
Qed.

Section Write.
Context {S : Type} `{ReliableOutput S}.

Lemma pb_encode_varint_emits v : 0 <= v < 2 ^ 64 -> emits (pb_encode_varint v) (varint_bytes v).
Proof.
  intros Hv. pose proof (zlen_varint_bytes v Hv) as Hl. unfold pb_encode_varint. destruct (Z.leb_spec v 0x7F).
  - rewrite varint_bytes_small by lia. replace (u8 v) with v by (unfold u8; dlia). by apply pb_write_emits.
  - destruct (groups_10 v Hv) as (_ & Hok & Hne & _). cbv zeta. rewrite encode_loop_groups.
    + rewrite clear_last by done. apply (pb_write_emits (varint_bytes v)). lia.
    + change (128 ^ Z.of_nat 10) with (2 ^ 70). lia.
Qed.
End Write.

(** ** Reading 64-bit integers *)

(** At most ten bytes; what is above 64 bits is dropped. *)
Definition varint64 (l : list Z) : option (Z * list Z) :=
  match varint l with
  | Some (gs, r) => if zlen gs <=? 10 then Some (group_value gs mod 2 ^ 64, r) else None
  | None => None
  end.

Section Read.
Context {S : Type} `{ReliableInput S}.

Lemma decode_loop_reads fuel k result : k + Z.of_nat fuel = 10 -> 0 <= k -> (k <= 9 -> 0 <= result < 2 ^ (7 * k)) ->
  reads (decode_varint_loop fuel (7 * k) result) (fun l =>
    match varint l with
    | Some (gs, r) => if zlen gs <=? Z.of_nat fuel then Some ((result + 2 ^ (7 * k) * group_value gs) mod 2 ^ 64, r) else None
    | None => None
    end).
Proof.
  revert k result. induction fuel as [|fuel IH]; intros k result Hk Hk0 Hres s l after Hs.
  - replace k with 10 by lia. cbn [decode_varint_loop]. change (7 * 10 >=? 64) with true. cbv iota.
    destruct (varint l) as [[gs r]|] eqn:E; [|apply input_error_rejects]. destruct (varint_Some l gs r ltac:(apply Hs) E) as (_ & Hne & _).
    destruct gs; [done|]. rewrite zlen_cons. destruct (Z.leb_spec (1 + zlen gs) (Z.of_nat 0)); [zlen_pos; lia|apply input_error_rejects].
  - cbn [decode_varint_loop]. rewrite Z.geb_leb. destruct (Z.leb_spec 64 (7 * k)); [lia|]. specialize (Hres ltac:(lia)).
    pose proof (pb_readbyte_reads s l after Hs) as Hread. unfold rejects. destruct l as [|b l].
    { destruct Hread as (s' & E & Hm). exists s'. by rewrite (bind_none _ _ _ _ E). }
    destruct Hread as (s1 & E1 & Hs1 & M1). rewrite !(bind_step _ _ _ _ _ E1). cbv zeta.
    destruct Hs as (_ & _ & _ & [Hb _]%Forall_cons_1). rewrite byte_marker, byte_low by done. unfold is_byte in Hb.
    unfold u64. change 18446744073709551616 with (2 ^ 64). rewrite or_shifted by lia. cbn [varint]. destruct (Z.ltb_spec b 128).
    + cbn [negb]. rewrite (Z.mod_small b 128) by lia. rewrite zlen_cons. destruct (Z.leb_spec (1 + zlen (@nil Z)) (Z.of_nat (Datatypes.S fuel))); [|rewrite zlen_nil in *; lia].
      exists s1. split; [|done]. unfold ret. do 3 f_equal. cbn [group_value]. lia.
    + cbn [negb]. replace (u8 (7 * k + 7)) with (7 * (k + 1)) by (unfold u8; dlia). replace (b mod 128) with (b - 128) by dlia.
      specialize (IH (k + 1) ((result + (b - 128) * 2 ^ (7 * k)) mod 2 ^ 64) ltac:(lia) ltac:(lia)).
      assert (Hp : 2 ^ (7 * (k + 1)) = 128 * 2 ^ (7 * k)) by (replace (7 * (k + 1)) with (7 * k + 7) by lia; rewrite Z.pow_add_r by lia; lia).
      assert (Hb' : k + 1 <= 9 -> 0 <= (result + (b - 128) * 2 ^ (7 * k)) mod 2 ^ 64 < 2 ^ (7 * (k + 1))).
      { intros Hk9. assert (2 ^ (7 * (k + 1)) <= 2 ^ 63) by (apply Z.pow_le_mono_r; lia). assert (2 ^ 63 < 2 ^ 64) by lia. rewrite Z.mod_small by nia. nia. }
      specialize (IH Hb' s1 l after Hs1). cbv beta in IH. destruct (varint l) as [[gs r]|]; [|exact IH]. rewrite zlen_cons, Nat2Z.inj_succ.
      destruct (Z.leb_spec (zlen gs) (Z.of_nat fuel)), (Z.leb_spec (1 + zlen gs) (Z.succ (Z.of_nat fuel))); try lia; [|exact IH].
      destruct IH as (s' & E & Hs' & M'). exists s'. rewrite E, M'. split; [|done]. do 2 f_equal. cbn [group_value].
      rewrite Z.add_mod_idemp_l by lia. f_equal. rewrite Hp. lia.
Qed.

Lemma pb_decode_varint_reads : reads pb_decode_varint varint64.
Proof.
  eapply reads_ext; [|apply (decode_loop_reads 10 0 0); lia]. intros l. unfold varint64. destruct (varint l) as [[gs r]|]; [|done].
  change (7 * 0) with 0. change (2 ^ 0) with 1. change (Z.of_nat 10) with 10. by rewrite Z.mul_1_l.
Qed.

Lemma pb_decode_varint_delivers v : 0 <= v < 2 ^ 64 -> delivers pb_decode_varint v (varint_bytes v).
Proof.
  intros Hv. eapply reads_delivers; [apply pb_decode_varint_reads|]. intros rest _. destruct (groups_10 v Hv) as (Hval & Hok & Hne & Hl).
  unfold varint64, varint_bytes. rewrite varint_wire by done. destruct (Z.leb_spec (zlen (groups 10 v)) 10); [|lia].
  by rewrite Hval, Z.mod_small.
Qed.
End Read.

Lemma varint_exact {S} `{ReliableInput S} (s : pb_istream S) l after v rest : holds s l after ->
  (exists s', pb_decode_varint s = (Some v, s') /\ holds s' rest after) <->
  exists gs, l = wire gs ++ rest /\ gs <> [] /\ groups_ok gs /\ zlen gs <= 10 /\ v = group_value gs mod 2 ^ 64.
Proof.
  intros Hs. pose proof (pb_decode_varint_reads s l after Hs) as Hread. unfold varint64 in Hread. split.
  - intros (s' & E & Hs'). destruct (varint l) as [[gs r]|] eqn:Ev; [|destruct Hread as (? & E' & _); congruence].
    destruct (Z.leb_spec (zlen gs) 10); [|destruct Hread as (? & E' & _); congruence]. destruct Hread as (s1 & E1 & Hs1 & _).
    rewrite E1 in E. injection E as <- <-. destruct (varint_Some l gs r ltac:(apply Hs) Ev) as (-> & Hne & Hok). exists gs.
    destruct Hs1 as (P1 & _), Hs' as (P2 & _). rewrite P1 in P2. apply app_inv_tail in P2 as ->. done.
  - intros (gs & -> & Hne & Hok & Hl & ->). rewrite varint_wire in Hread by done. destruct (Z.leb_spec (zlen gs) 10); [|lia].
    destruct Hread as (s' & E & Hs' & _). by exists s'.
Qed.

(** [pb_decode_varint] accepts exactly the integers of at most ten bytes, minimal or
    not, returns the low 64 bits of their groups, and stops behind them, over any
    callback that does its work. *)
Theorem pb_decode_varint_exact {S} `{ReliableInput S} (s : pb_istream S) l after v rest : holds s l after ->
  (exists s', pb_decode_varint s = (Some v, s') /\ holds s' rest after) <->
  exists gs, l = wire gs ++ rest /\ gs <> [] /\ groups_ok gs /\ zlen gs <= 10 /\ v = group_value gs mod 2 ^ 64.
Proof. apply varint_exact. Qed.

Lemma pb_decode_varint_exact_witness :
  (exists s', pb_decode_varint (pb_istream_from_buffer [0xAC; 0x82; 0x00; 5] 4) = (Some 300, s') /\ holds s' [5] []) <->
  exists gs, [0xAC; 0x82; 0x00; 5] = wire gs ++ [5] /\ gs <> [] /\ groups_ok gs /\ zlen gs <= 10 /\ 300 = group_value gs mod 2 ^ 64.
Proof.
  apply (pb_decode_varint_exact _ [0xAC; 0x82; 0x00; 5] [] 300 [5]). split; [reflexivity|]. split; [reflexivity|]. split; [reflexivity|].
  vm_compute; repeat constructor; discriminate.
Defined.
