(* ===== verification/PbVarint32.v ===== *)
(** * The reader of 32-bit integers (theorems about PbWire.v)

    It accepts the two forms in which a writer sends a 32-bit number, of at most five
    bytes or extended with the sign to ten, and has a check of its own for each byte
    above the 32 bits. *)

From S2P Require Import Prelude PbStream PbStreamFacts PbWire PbWireFacts.

(** The checks on groups: [k] is the number of the group, [result] the value of the
    groups before it. *)
Fixpoint scan32 (k result : Z) (gs : list Z) : option Z :=
  match gs with
  | [] => None
  | [g] =>
      if 5 <=? k then (if negb (g =? 0) && ((result <? 2 ^ 31) || negb (g =? if k <=? 8 then 255 else 1)) then None else Some result)
      else if (k =? 4) && (16 <=? g) then None else Some ((result + g * 2 ^ (7 * k)) mod 2 ^ 32)
  | g :: gs =>
      if 5 <=? k then (if negb (g =? 0) && ((result <? 2 ^ 31) || negb (g + 128 =? if k <=? 8 then 255 else 1)) then None else scan32 (k + 1) result gs)
      else scan32 (k + 1) ((result + g * 2 ^ (7 * k)) mod 2 ^ 32) gs
  end.

Lemma byte_top b : 0 <= b < 128 -> (b .& 0x70 =? 0) = (b <? 16).
Proof.
  intros Hb. pose proof (zall_spec 0 128 (fun b => Bool.eqb (b .& 0x70 =? 0) (b <? 16)) eq_refl b) as H. apply Bool.eqb_prop, H. lia.
Qed.

Lemma sign_bit r : 0 <= r < 2 ^ 32 -> (Z.shiftr r 31 =? 0) = (r <? 2 ^ 31).
Proof.
  intros Hr. rewrite Z.shiftr_div_pow2 by lia. change (2 ^ 32) with 4294967296 in Hr. change (2 ^ 31) with 2147483648.
  destruct (Z.ltb_spec r 2147483648), (Z.eqb_spec (r / 2147483648) 0); try done; dlia.
Qed.

Section Scan.
Context {S : Type} `{ReliableInput S}.

(** One round of the loop, with what follows it. *)
Definition round32 (fuel : nat) (bitpos result byte : Z) : M (pb_istream S) Z :=
  let* result :=
    if bitpos >=? 32 then
      if negb (byte .& 0x7F =? 0x00) && ((Z.shiftr result 31 =? 0) || negb (byte =? if bitpos <? 63 then 0xFF else 0x01))
      then input_error varint_overflow else ret result
    else ret (result .| u32 (Z.shiftl (byte .& 0x7F) bitpos)) in
  if negb (byte .& 0x80 =? 0) then decode_varint32_loop fuel (u8 (bitpos + 7)) result
  else if (u8 (bitpos + 7) =? 35) && negb (byte .& 0x70 =? 0) then input_error varint_overflow
  else ret result.

Lemma decode_varint32_loop_S fuel bitpos result s b l after : holds s (b :: l) after ->
  exists s', decode_varint32_loop (Datatypes.S fuel) bitpos result s = round32 fuel bitpos result b s' /\
    holds s' l after /\ i_errmsg s' = i_errmsg s.
Proof.
  intros Hs. destruct (pb_readbyte_reads s _ after Hs) as (s' & E & Hs'). exists s'. split; [|exact Hs']. cbn [decode_varint32_loop].
  by rewrite (bind_step _ _ _ _ _ E).
Qed.

(** The round in terms of groups: [g] is the group of the byte. *)
Lemma round32_high fuel k result g b s : 5 <= k <= 36 -> 0 <= result < 2 ^ 32 -> is_byte b -> b mod 128 = g ->
  round32 fuel (7 * k) result b s =
  (if negb (g =? 0) && ((result <? 2 ^ 31) || negb (b =? if k <=? 8 then 255 else 1)) then input_error varint_overflow
   else if b <? 128 then ret result else decode_varint32_loop fuel (u8 (7 * k + 7)) result) s.
Proof.
  intros Hk Hr Hb Hg. unfold round32. rewrite byte_low, byte_marker, sign_bit, Hg by done. rewrite Z.geb_leb.
  destruct (Z.leb_spec 32 (7 * k)); [|lia]. replace (7 * k <? 63) with (k <=? 8) by (destruct (Z.leb_spec k 8), (Z.ltb_spec (7 * k) 63); lia).
  destruct (_ && _); [done|]. rewrite bind_ret. destruct (b <? 128); [|done]. cbn [negb].
  destruct (Z.eqb_spec (u8 (7 * k + 7)) 35) as [E|]; [unfold u8 in E; exfalso; dlia|done].
Qed.

Lemma round32_low fuel k result g b s : 0 <= k <= 4 -> 0 <= result < 2 ^ (7 * k) -> is_byte b -> b mod 128 = g ->
  round32 fuel (7 * k) result b s =
  (if b <? 128 then
     if (k =? 4) && (16 <=? g) then input_error varint_overflow else ret ((result + g * 2 ^ (7 * k)) mod 2 ^ 32)
   else decode_varint32_loop fuel (7 * (k + 1)) ((result + g * 2 ^ (7 * k)) mod 2 ^ 32)) s.
Proof.
  intros Hk Hr Hb Hg. unfold round32. rewrite byte_low, byte_marker, Hg by done. rewrite Z.geb_leb.
  destruct (Z.leb_spec 32 (7 * k)); [lia|]. unfold u32. change 4294967296 with (2 ^ 32). rewrite or_shifted by lia. rewrite bind_ret.
  replace (u8 (7 * k + 7)) with (7 * (k + 1)) by (unfold u8; dlia). unfold is_byte in Hb. destruct (Z.ltb_spec b 128); [|done]. cbn [negb].
  rewrite byte_top by lia. rewrite Z.mod_small in Hg by lia. subst g.
  replace (7 * (k + 1) =? 35) with (k =? 4) by (destruct (Z.eqb_spec k 4), (Z.eqb_spec (7 * (k + 1)) 35); lia).
  by replace (negb (b <? 16)) with (16 <=? b) by (destruct (Z.ltb_spec b 16), (Z.leb_spec 16 b); lia || done).
Qed.

(** What a run of the loop gives. *)
Definition outcome32 (m : option Z * pb_istream S) (r : option Z) (s : pb_istream S) (rest after : list Z) : Prop :=
  match r with
  | Some w => exists s', m = (Some w, s') /\ holds s' rest after /\ i_errmsg s' = i_errmsg s
  | None => exists s', m = (None, s') /\ i_errmsg s' <> None
  end.

Lemma outcome32_error s0 (s : pb_istream S) rest after : outcome32 (input_error varint_overflow s0) None s rest after.
Proof. apply input_error_rejects. Qed.

Lemma loop32_scan gs : forall fuel k result s rest after, holds s (wire gs ++ rest) after -> groups_ok gs -> gs <> [] ->
  1 <= k -> k + zlen gs <= 37 -> zlen gs <= Z.of_nat fuel -> 0 <= result < 2 ^ 32 -> (k <= 4 -> result < 2 ^ (7 * k)) ->
  outcome32 (decode_varint32_loop fuel (7 * k) result s) (scan32 k result gs) s rest after.
Proof.
  induction gs as [|g gs IH]; [done|]. intros fuel k result s rest after Hs [Hg Hok]%Forall_cons_1 _ Hk Hkl Hf Hr Hrk.
  rewrite zlen_cons in *. unfold is_group in Hg. destruct fuel as [|fuel]; [zlen_pos; lia|].
  set (b := match gs with [] => g | _ => g + 128 end).
  assert (Hwire : wire (g :: gs) ++ rest = b :: wire gs ++ rest) by (unfold b; by destruct gs).
  rewrite Hwire in Hs. destruct (decode_varint32_loop_S fuel (7 * k) result s b _ after Hs) as (s1 & -> & Hs1 & M1).
  assert (Hb : is_byte b /\ b mod 128 = g /\ (b <? 128) = match gs with [] => true | _ => false end).
  { unfold b, is_byte. destruct gs; [rewrite Z.mod_small by lia|replace ((g + 128) mod 128) with g by dlia];
      (split; [lia|]; split; [done|]); [destruct (Z.ltb_spec g 128)|destruct (Z.ltb_spec (g + 128) 128)]; done || lia. }
  destruct Hb as (Hb & Hbg & Hlast). unfold outcome32. rewrite <- M1. fold (outcome32 (round32 fuel (7 * k) result b s1) (scan32 k result (g :: gs)) s1 rest after).
  zlen_pos. destruct (Z.le_gt_cases 5 k) as [Hk5|Hk5].
  - rewrite (round32_high _ _ _ g) by (done || lia). cbn [scan32]. destruct (Z.leb_spec 5 k); [|lia]. rewrite Hlast.
    destruct gs as [|g' gs]; unfold b; destruct (_ && _); try apply outcome32_error; [by exists s1|].
    replace (u8 (7 * k + 7)) with (7 * (k + 1)) by (unfold u8; rewrite zlen_cons in *; zlen_pos; dlia).
    apply IH; try done; lia.
  - assert (Hp : 2 ^ (7 * k) <= 2 ^ 28) by (apply Z.pow_le_mono_r; lia). assert (Hp' : 0 < 2 ^ (7 * k)) by lia.
    rewrite (round32_low _ _ _ g) by (done || (split; [lia|apply Hrk; lia]) || lia). cbn [scan32]. destruct (Z.leb_spec 5 k); [lia|]. rewrite Hlast.
    destruct gs as [|g' gs]; [destruct (_ && _); [apply outcome32_error|by exists s1]|].
    apply IH; [done|done|done|lia|lia|lia|apply Z.mod_pos_bound; lia|].
    intros Hk4. assert (2 ^ (7 * (k + 1)) = 128 * 2 ^ (7 * k)) as -> by (replace (7 * (k + 1)) with (7 * k + 7) by lia; rewrite Z.pow_add_r by lia; lia).
    specialize (Hrk ltac:(lia)). assert (2 ^ (7 * k) <= 2 ^ 21) by (apply Z.pow_le_mono_r; lia). rewrite Z.mod_small by nia. nia.
Qed.

(** The whole call, for a stream that starts with an integer of at most 37 bytes. *)
Lemma decode32_scan eof gs s rest after : holds s (wire gs ++ rest) after -> groups_ok gs -> gs <> [] -> zlen gs <= 37 ->
  match scan32 0 0 gs with
  | Some w => exists s', pb_decode_varint32_eof eof s = (Some w, eof, s') /\ holds s' rest after /\ i_errmsg s' = i_errmsg s
  | None => exists s', pb_decode_varint32_eof eof s = (None, eof, s') /\ i_errmsg s' <> None
  end.
Proof.
  intros Hs Hok Hne Hl. destruct gs as [|g gs]; [done|]. apply Forall_cons_1 in Hok as [Hg Hok]. unfold is_group in Hg. rewrite zlen_cons in Hl.
  assert (Hstart : (0 + g * 2 ^ (7 * 0)) mod 2 ^ 32 = g).
  { change (2 ^ (7 * 0)) with 1. rewrite Z.add_0_l, Z.mul_1_r. apply Z.mod_small. lia. }
  destruct gs as [|g' gs].
  - destruct (pb_readbyte_reads s _ after Hs) as (s' & E & Hs'). cbn [scan32]. change (5 <=? 0) with false. change (0 =? 4) with false.
    cbn [andb]. rewrite Hstart. exists s'. unfold pb_decode_varint32_eof. rewrite E, byte_marker by (unfold is_byte; lia).
    by destruct (Z.ltb_spec g 128); [|lia].
  - rewrite wire_cons in Hs. destruct (pb_readbyte_reads s _ after Hs) as (s' & E & Hs' & M). unfold pb_decode_varint32_eof.
    rewrite E, byte_marker, byte_low by (unfold is_byte; lia). destruct (Z.ltb_spec (g + 128) 128); [lia|]. replace ((g + 128) mod 128) with g by dlia.
    change (scan32 0 0 (g :: g' :: gs)) with (scan32 (0 + 1) ((0 + g * 2 ^ (7 * 0)) mod 2 ^ 32) (g' :: gs)). rewrite Hstart. change (0 + 1) with 1.
    change 7 with (7 * 1).
    change (holds s' (wire (g' :: gs) ++ rest) after) in Hs'. pose proof Hs' as (_ & Hb & _). rewrite zlen_app, zlen_wire in Hb.
    pose proof (loop32_scan (g' :: gs) (Z.to_nat (bytes_left s') + 1) 1 g s' rest after Hs' Hok ltac:(done) ltac:(lia) ltac:(lia)
      ltac:(zlen_pos; lia) ltac:(lia) ltac:(change (2 ^ (7 * 1)) with 128; lia)) as Hloop.
    unfold outcome32 in Hloop. destruct (scan32 1 g (g' :: gs)) as [w|]; destruct Hloop as (s'' & -> & Hrest); exists s''; [|done].
    by rewrite <- M.
Qed.
End Scan.

(** ** What the checks accept *)

Lemma scan32_value gs : forall k result w, 0 <= k -> 0 <= result < 2 ^ 32 -> scan32 k result gs = Some w ->
  w = (result + 2 ^ (7 * k) * group_value gs) mod 2 ^ 32.
Proof.
  assert (Hhigh : forall k n r, 5 <= k -> (r + 2 ^ (7 * k) * n) mod 2 ^ 32 = r mod 2 ^ 32).
  { intros k n r Hk. replace (7 * k) with (7 * k - 32 + 32) by lia. rewrite Z.pow_add_r by lia.
    replace (r + 2 ^ (7 * k - 32) * 2 ^ 32 * n) with (r + 2 ^ (7 * k - 32) * n * 2 ^ 32) by lia. by apply Z.mod_add. }
  induction gs as [|g gs IH]; intros k result w Hk Hr; [done|].
  assert (Hnext : k < 5 -> forall w, w = ((result + g * 2 ^ (7 * k)) mod 2 ^ 32 + 2 ^ (7 * (k + 1)) * group_value gs) mod 2 ^ 32 ->
    w = (result + 2 ^ (7 * k) * group_value (g :: gs)) mod 2 ^ 32).
  { intros _ w' ->. rewrite Z.add_mod_idemp_l by lia. f_equal. replace (7 * (k + 1)) with (7 * k + 7) by lia. rewrite Z.pow_add_r by lia.
    change (2 ^ 7) with 128. cbn [group_value]. lia. }
  destruct gs as [|g' gs]; cbn [scan32]; destruct (Z.leb_spec 5 k).
  - destruct (_ && _); [done|]. intros [= <-]. rewrite Hhigh by lia. by rewrite Z.mod_small.
  - destruct (_ && _); [done|]. intros [= <-]. apply Hnext; [lia|]. cbn [group_value]. rewrite Z.mul_0_r, Z.add_0_r. by rewrite Z.mod_mod.
  - destruct (_ && _); [done|]. intros Hw%IH; [|lia|done]. rewrite Hhigh in * by lia. done.
  - intros Hw%IH; [by apply Hnext|lia|apply Z.mod_pos_bound; lia].
Qed.

Lemma scan32_zeros gs : forall k result, 5 <= k -> groups_ok gs -> gs <> [] -> group_value gs = 0 -> scan32 k result gs = Some result.
Proof.
  induction gs as [|g gs IH]; [done|]. intros k result Hk [Hg Hok]%Forall_cons_1 _ Hv. unfold is_group in Hg. cbn [group_value] in Hv.
  pose proof (group_value_bound gs Hok) as Hb. assert (g = 0) as -> by lia.
  destruct gs as [|g' gs]; cbn [scan32]; destruct (Z.leb_spec 5 k); try lia; [done|]. apply IH; done || lia.
Qed.

Lemma scan32_small gs : forall k result, 0 <= k -> groups_ok gs -> gs <> [] -> 0 <= result -> result + 2 ^ (7 * k) * group_value gs < 2 ^ 32 ->
  exists w, scan32 k result gs = Some w.
Proof.
  induction gs as [|g gs IH]; [done|]. intros k result Hk Hok Hne Hr Hv. destruct (Z.le_gt_cases 5 k) as [Hk5|Hk5].
  { exists result. apply scan32_zeros; try done. pose proof (group_value_bound _ Hok) as Hb.
    assert (2 ^ 35 <= 2 ^ (7 * k)) by (apply Z.pow_le_mono_r; lia). nia. }
  apply Forall_cons_1 in Hok as [Hg Hok]. unfold is_group in Hg. cbn [group_value] in Hv. pose proof (group_value_bound _ Hok) as Hb.
  assert (Hp : 2 ^ (7 * (k + 1)) = 2 ^ (7 * k) * 128) by (replace (7 * (k + 1)) with (7 * k + 7) by lia; by rewrite Z.pow_add_r by lia).
  assert (Hp' : 0 < 2 ^ (7 * k)) by lia. destruct gs as [|g' gs]; cbn [scan32]; destruct (Z.leb_spec 5 k); try lia.
  - destruct (Z.eqb_spec k 4) as [->|]; [|eauto]. change (2 ^ (7 * 4)) with 268435456 in Hv. cbn [group_value] in Hv.
    destruct (Z.leb_spec 16 g); [lia|]. eauto.
  - apply IH; [lia|done|done|apply Z.mod_pos_bound; lia|]. rewrite Z.mod_small by nia. nia.
Qed.

(** A number whose upper 33 bits are ones has ten groups, and the upper five are
    those of a sign extension. *)
Lemma negative_groups gs : groups_ok gs -> zlen gs <= 10 -> 2 ^ 64 - 2 ^ 31 <= group_value gs < 2 ^ 64 ->
  exists g0 g1 g2 g3 g4, gs = [g0; g1; g2; g3; g4; 127; 127; 127; 127; 1] /\
    2 ^ 35 - 2 ^ 31 <= group_value [g0; g1; g2; g3; g4] < 2 ^ 35.
Proof.
  intros Hok Hl Hv. pose proof (group_value_bound gs Hok) as Hb.
  assert (Hlen : zlen gs = 10).
  { destruct (Z.eq_dec (zlen gs) 10); [done|]. exfalso. assert (128 ^ zlen gs <= 128 ^ 9) by (apply Z.pow_le_mono_r; lia).
    change (128 ^ 9) with (2 ^ 63) in *. lia. }
  do 10 (destruct gs as [|? gs]; [done|]). destruct gs; [|rewrite !zlen_cons in Hlen; zlen_pos; lia].
  rewrite !Forall_cons in Hok. unfold is_group in Hok. destruct_and!. cbn [group_value] in *.
  change (2 ^ 64) with 18446744073709551616 in *. change (2 ^ 31) with 2147483648 in *. change (2 ^ 35) with 34359738368.
  assert (z8 = 1) as -> by lia. assert (z7 = 127) as -> by lia. assert (z6 = 127) as -> by lia. assert (z5 = 127) as -> by lia.
  assert (z4 = 127) as -> by lia. do 5 eexists. split; [reflexivity|]. cbn [group_value]. lia.
Qed.

Lemma scan32_step k result g g' gs : k < 5 ->
  scan32 k result (g :: g' :: gs) = scan32 (k + 1) ((result + g * 2 ^ (7 * k)) mod 2 ^ 32) (g' :: gs).
Proof. intros Hk. cbn [scan32]. by destruct (Z.leb_spec 5 k); [lia|]. Qed.

Lemma scan32_negative gs : groups_ok gs -> zlen gs <= 10 -> 2 ^ 64 - 2 ^ 31 <= group_value gs < 2 ^ 64 -> exists w, scan32 0 0 gs = Some w.
Proof.
  intros Hok Hl Hv. destruct (negative_groups gs Hok Hl Hv) as (g0 & g1 & g2 & g3 & g4 & -> & Hlow).
  set (r := (group_value [g0; g1; g2; g3; g4]) mod 2 ^ 32).
  assert (Hr : 2 ^ 32 - 2 ^ 31 <= r < 2 ^ 32).
  { unfold r. change (2 ^ 35) with 34359738368 in Hlow. change (2 ^ 32) with 4294967296. change (2 ^ 31) with 2147483648 in *. dlia. }
  assert (Hscan : scan32 0 0 [g0; g1; g2; g3; g4; 127; 127; 127; 127; 1] = scan32 5 r [127; 127; 127; 127; 1]).
  { rewrite !scan32_step by (done || lia). change (0 + 1 + 1 + 1 + 1 + 1) with 5.
    change (0 + 1 + 1 + 1 + 1) with 4. change (0 + 1 + 1 + 1) with 3. change (0 + 1 + 1) with 2. change (0 + 1) with 1.
    f_equal. unfold r. repeat (rewrite Z.add_mod_idemp_l by lia; rewrite <- ?Z.add_assoc). f_equal. cbn [group_value].
    change (2 ^ (7 * 0)) with 1. change (2 ^ (7 * 1)) with 128. change (2 ^ (7 * 2)) with 16384. change (2 ^ (7 * 3)) with 2097152.
    change (2 ^ (7 * 4)) with 268435456. lia. }
  rewrite Hscan. exists r. assert (Hsign : (r <? 2 ^ 31) = false) by (apply Z.ltb_ge; lia). cbn [scan32 Z.leb Z.compare Pos.compare Pos.compare_cont].
  rewrite Hsign. reflexivity.
Qed.

(** ** The call *)

Section Call.
Context {S : Type} `{ReliableInput S}.

Lemma decode32_eof_delivers eof gs w s rest after : scan32 0 0 gs = Some w -> groups_ok gs -> gs <> [] -> zlen gs <= 37 ->
  holds s (wire gs ++ rest) after ->
  w = group_value gs mod 2 ^ 32 /\
  exists s', pb_decode_varint32_eof eof s = (Some w, eof, s') /\ holds s' rest after /\ i_errmsg s' = i_errmsg s.
Proof.
  intros Hw Hok Hne Hl Hs. pose proof (decode32_scan eof gs s rest after Hs Hok Hne Hl) as Hscan. rewrite Hw in Hscan. split; [|exact Hscan].
  pose proof (scan32_value gs 0 0 w ltac:(lia) ltac:(lia) Hw) as Hv. by rewrite Z.add_0_l, Z.mul_1_l in Hv.
Qed.

(** The value of the groups fits 32 bits or is a sign extension. *)
Definition fits32 (gs : list Z) : Prop :=
  group_value gs < 2 ^ 32 \/ zlen gs <= 10 /\ 2 ^ 64 - 2 ^ 31 <= group_value gs < 2 ^ 64.

Lemma scan32_fits gs : groups_ok gs -> gs <> [] -> fits32 gs -> exists w, scan32 0 0 gs = Some w.
Proof.
  intros Hok Hne [Hf|[Hl Hf]]; [|by apply scan32_negative]. apply scan32_small; try done. change (2 ^ (7 * 0)) with 1. lia.
Qed.

Lemma decode32_eof_fits eof gs s rest after : groups_ok gs -> gs <> [] -> zlen gs <= 37 -> fits32 gs -> holds s (wire gs ++ rest) after ->
  exists s', pb_decode_varint32_eof eof s = (Some (group_value gs mod 2 ^ 32), eof, s') /\ holds s' rest after /\ i_errmsg s' = i_errmsg s.
Proof.
  intros Hok Hne Hl Hf Hs. destruct (scan32_fits gs Hok Hne Hf) as [w Hw].
  by destruct (decode32_eof_delivers eof gs w s rest after Hw Hok Hne Hl Hs) as [-> Hd].
Qed.

Lemma pb_decode_varint32_delivers gs : groups_ok gs -> gs <> [] -> zlen gs <= 37 -> fits32 gs ->
  delivers pb_decode_varint32 (group_value gs mod 2 ^ 32) (wire gs).
Proof.
  intros Hok Hne Hl Hf s rest after Hs. destruct (decode32_eof_fits false gs s rest after Hok Hne Hl Hf Hs) as (s' & E & Hs').
  exists s'. unfold pb_decode_varint32. by rewrite E.
Qed.

Lemma pb_decode_varint32_small v : 0 <= v < 2 ^ 32 -> delivers pb_decode_varint32 v (varint_bytes v).
Proof.
  intros Hv. destruct (groups_10 v) as (Hval & Hok & Hne & Hl); [lia|].
  replace v with (group_value (groups 10 v) mod 2 ^ 32) at 1 by (rewrite Hval; by apply Z.mod_small).
  apply pb_decode_varint32_delivers; try done; [lia|left; lia].
Qed.

Lemma varint32_facts gs s rest after : holds s (wire gs ++ rest) after -> groups_ok gs -> gs <> [] -> zlen gs <= 37 ->
  (forall w s', pb_decode_varint32 s = (Some w, s') -> w = group_value gs mod 2 ^ 32 /\ holds s' rest after) /\
  (fits32 gs -> exists s', pb_decode_varint32 s = (Some (group_value gs mod 2 ^ 32), s')).
Proof.
  intros Hs Hok Hne Hl. split.
  - intros w s' E. unfold pb_decode_varint32 in E. pose proof (decode32_scan false gs s rest after Hs Hok Hne Hl) as Hscan.
    destruct (scan32 0 0 gs) as [v|] eqn:Ev; destruct Hscan as (s1 & E1 & Hs1); rewrite E1 in E; [|done].
    injection E as <- <-. split; [|apply Hs1]. by destruct (decode32_eof_delivers false gs v s rest after Ev Hok Hne Hl Hs).
  - intros Hf. destruct (pb_decode_varint32_delivers gs Hok Hne Hl Hf s rest after Hs) as (s' & E & _). by exists s'.
Qed.

(** [pb_decode_varint32] on an integer of at most 37 bytes never gives a wrong
    value: a call that succeeds returns the low 32 bits of the integer and stops behind
    it, and it does succeed on every number of 32 bits and every negative number that
    was extended to 64. *)
Theorem pb_decode_varint32_low_bits gs s rest after : holds s (wire gs ++ rest) after -> groups_ok gs -> gs <> [] -> zlen gs <= 37 ->
  (forall w s', pb_decode_varint32 s = (Some w, s') -> w = group_value gs mod 2 ^ 32 /\ holds s' rest after) /\
  (fits32 gs -> exists s', pb_decode_varint32 s = (Some (group_value gs mod 2 ^ 32), s')).
Proof. apply varint32_facts. Qed.
End Call.

(** The number -2 as a writer sends it, followed by another byte. *)
Lemma pb_decode_varint32_low_bits_witness :
  let s := pb_istream_from_buffer (wire (groups 10 (2 ^ 64 - 2)) ++ [7]) 11 in
  (forall w s', pb_decode_varint32 s = (Some w, s') -> w = group_value (groups 10 (2 ^ 64 - 2)) mod 2 ^ 32 /\ holds s' [7] []) /\
  (fits32 (groups 10 (2 ^ 64 - 2)) -> exists s', pb_decode_varint32 s = (Some (group_value (groups 10 (2 ^ 64 - 2)) mod 2 ^ 32), s')).
Proof.
  apply (pb_decode_varint32_low_bits (groups 10 (2 ^ 64 - 2)) _ [7] []); [|vm_compute; repeat constructor; discriminate|discriminate|vm_compute; discriminate].
  split; [reflexivity|]. split; [reflexivity|]. split; [reflexivity|]. vm_compute; repeat constructor; discriminate.
Defined.

(** The bound is needed: the bit position has eight bits, so the 38th byte is taken
    for bits 3 to 9. *)
Example varint32_wraps : fst (pb_decode_varint32 (pb_istream_from_buffer (replicate 37 0x80 ++ [1]) 38)) = Some 8.
Proof. vm_compute. reflexivity. Qed.

(** A number of 35 bits is not reported when a needless byte follows its fifth. *)
Example varint32_overflow_missed :
  fst (pb_decode_varint32 (pb_istream_from_buffer [0x80; 0x80; 0x80; 0x80; 0xF0; 0x00] 6)) = Some 0 /\
  fst (pb_decode_varint (pb_istream_from_buffer [0x80; 0x80; 0x80; 0x80; 0xF0; 0x00] 6)) = Some (7 * 2 ^ 32).
Proof. vm_compute. split; reflexivity. Qed.
