(* ===== verification/PbMessages.v ===== *)
(** * Fields and substreams (theorems about PbWire.v)

    A field is a key and a value of one of four wire types. Writers and readers are
    related over any two kinds of reliable streams. *)

From S2P Require Import Prelude Words PbStream PbWire PbStreamFacts PbWireFacts PbVarint32.

(** ** Numbers of fixed length *)

Lemma byte_at v k : 0 <= k -> u8 ((v ≫ k) .& 0xFF) = (v / 2 ^ k) mod 256.
Proof.
  intros Hk. change 0xFF with (2 ^ 8 - 1). rewrite land_ones_mod by lia. unfold u8. change (2 ^ 8) with 256.
  rewrite Z.mod_mod by lia. by rewrite Z.shiftr_div_pow2.
Qed.

Lemma byte_at_0 v : u8 (v .& 0xFF) = v mod 256.
Proof. rewrite <- (Z.shiftr_0_r v) at 1. rewrite byte_at by lia. by rewrite Z.div_1_r. Qed.

Lemma le_bytes_4 v : le_bytes 4 v =
  [u8 (v .& 0xFF); u8 ((v ≫ 8) .& 0xFF); u8 ((v ≫ 16) .& 0xFF); u8 ((v ≫ 24) .& 0xFF)].
Proof.
  rewrite byte_at_0, !byte_at, !le_bytes_S by lia. rewrite !Z.div_div by lia. reflexivity.
Qed.

Lemma le_bytes_8 v : le_bytes 8 v =
  [u8 (v .& 0xFF); u8 ((v ≫ 8) .& 0xFF); u8 ((v ≫ 16) .& 0xFF); u8 ((v ≫ 24) .& 0xFF);
   u8 ((v ≫ 32) .& 0xFF); u8 ((v ≫ 40) .& 0xFF); u8 ((v ≫ 48) .& 0xFF); u8 ((v ≫ 56) .& 0xFF)].
Proof.
  rewrite byte_at_0, !byte_at, !le_bytes_S by lia. rewrite !Z.div_div by lia. reflexivity.
Qed.

(** A byte above the bits of [r]. *)
Lemma or_byte r b n : 0 <= n -> 0 <= r < 2 ^ n -> r .| (b ≪ n) = r + b * 2 ^ n.
Proof. intros Hn Hr. rewrite Z.lor_comm, lor_shiftl by done. lia. Qed.

(** Join bytes from the innermost on. *)
Ltac join_bytes :=
  rewrite Z.shiftl_0_r;
  repeat match goal with
  | |- context [?r .| (?b ≪ ?n)] =>
      lazymatch r with context [Z.lor] => fail | _ => idtac end;
      let p := eval vm_compute in (2 ^ n) in
      rewrite (or_byte r b n) by (change (2 ^ n) with p; lia); change (2 ^ n) with p
  end.

(** ** Writers *)

Definition zigzag (v : Z) : Z := if v <? 0 then -2 * v - 1 else 2 * v.

Section Write.
Context {S : Type} `{ReliableOutput S}.

Lemma pb_encode_svarint_emits v : - 2 ^ 63 <= v < 2 ^ 63 -> emits (pb_encode_svarint v) (varint_bytes (zigzag v)).
Proof.
  intros Hv. unfold pb_encode_svarint. cbv zeta.
  replace (if v <? 0 then _ else _) with (zigzag v).
  { apply pb_encode_varint_emits. unfold zigzag. destruct (Z.ltb_spec v 0); lia. }
  unfold zigzag, u64, Z.lnot. rewrite !Z.shiftl_mul_pow2 by lia. change (2 ^ 1) with 2. change (2 ^ 63) with 9223372036854775808 in Hv.
  destruct (Z.ltb_spec v 0); dlia.
Qed.

Lemma pb_encode_fixed32_emits v : emits (pb_encode_fixed32 v) (le_bytes 4 v).
Proof. unfold pb_encode_fixed32. rewrite <- le_bytes_4. apply pb_write_emits. by rewrite zlen_le_bytes. Qed.

Lemma pb_encode_fixed64_emits v : emits (pb_encode_fixed64 v) (le_bytes 8 v).
Proof. unfold pb_encode_fixed64. rewrite <- le_bytes_8. apply pb_write_emits. by rewrite zlen_le_bytes. Qed.

Lemma pb_encode_tag_emits wt n : 0 <= wt < 8 -> 0 <= n < 2 ^ 32 -> emits (pb_encode_tag wt n) (varint_bytes (8 * n + wt)).
Proof.
  intros Hw Hn. unfold pb_encode_tag. cbv zeta. replace (u64 (n ≪ 3) .| wt) with (8 * n + wt).
  { apply pb_encode_varint_emits. lia. }
  unfold u64. rewrite Z.shiftl_mul_pow2 by lia. rewrite Z.mod_small by lia. rewrite lor_mul by lia. lia.
Qed.

Lemma pb_encode_string_emits b : zlen b < 2 ^ 64 -> emits (pb_encode_string b) (varint_bytes (zlen b) ++ b).
Proof.
  intros Hb. unfold pb_encode_string. apply emits_bind; [apply pb_encode_varint_emits; zlen_pos; lia|by apply pb_write_emits].
Qed.
End Write.

(** ** Readers *)

Section Read.
Context {S : Type} `{ReliableInput S}.

Lemma pb_decode_svarint_delivers v : - 2 ^ 63 <= v < 2 ^ 63 -> delivers pb_decode_svarint v (varint_bytes (zigzag v)).
Proof.
  intros Hv. rewrite <- (app_nil_r (varint_bytes (zigzag v))). eapply delivers_bind.
  { apply pb_decode_varint_delivers. unfold zigzag. destruct (Z.ltb_spec v 0); lia. }
  replace (if negb _ then _ else _) with (ret (S := pb_istream S) v); [apply delivers_ret|].
  assert (Hland : zigzag v .& 1 = zigzag v mod 2) by (apply (land_ones_mod _ 1); lia).
  rewrite Hland, Z.shiftr_div_pow2 by lia. change (2 ^ 1) with 2. unfold zigzag, Z.lnot, i64, u64.
  change (2 ^ 63) with 9223372036854775808 in Hv. destruct (Z.ltb_spec v 0).
  - destruct (Z.eqb_spec ((-2 * v - 1) mod 2) 0); [dlia|]. cbn [negb]. f_equal. dlia.
  - destruct (Z.eqb_spec ((2 * v) mod 2) 0); [|dlia]. cbn [negb]. f_equal. dlia.
Qed.

Lemma pb_decode_fixed32_delivers v : 0 <= v < 2 ^ 32 -> delivers pb_decode_fixed32 v (le_bytes 4 v).
Proof.
  intros Hv. rewrite <- (app_nil_r (le_bytes 4 v)). eapply delivers_bind.
  { change 4 with (zlen (le_bytes 4 v)) at 1. apply pb_read_buf_delivers. }
  pose proof (le_value_le_bytes 4 v) as Hval. pose proof (le_bytes_ok 4 v) as Hok. rewrite (Z.mod_small v) in Hval by exact Hv.
  destruct (length_4 (le_bytes 4 v)) as (a & b & c & d & E); [apply Nat2Z.inj; apply zlen_le_bytes|]. rewrite E in *.
  rewrite !Forall_cons in Hok. unfold is_byte in Hok. destruct_and!. rewrite !le_value_cons in Hval. change (le_value []) with 0 in Hval.
  change (znth 0 [a; b; c; d] 0) with a. change (znth 0 [a; b; c; d] 1) with b. change (znth 0 [a; b; c; d] 2) with c. change (znth 0 [a; b; c; d] 3) with d.
  join_bytes. replace (a + _ + _ + _) with v by lia. apply delivers_ret.
Qed.

Lemma pb_decode_fixed64_delivers v : 0 <= v < 2 ^ 64 -> delivers pb_decode_fixed64 v (le_bytes 8 v).
Proof.
  intros Hv. rewrite <- (app_nil_r (le_bytes 8 v)). eapply delivers_bind.
  { change 8 with (zlen (le_bytes 8 v)) at 1. apply pb_read_buf_delivers. }
  pose proof (le_value_le_bytes 8 v) as Hval. pose proof (le_bytes_ok 8 v) as Hok. rewrite (Z.mod_small v) in Hval by exact Hv.
  destruct (length_8 (le_bytes 8 v)) as (a & b & c & d & e & f & g & h & E); [apply Nat2Z.inj; apply zlen_le_bytes|]. rewrite E in *.
  rewrite !Forall_cons in Hok. unfold is_byte in Hok. destruct_and!. rewrite !le_value_cons in Hval. change (le_value []) with 0 in Hval.
  cbv [znth Z.to_nat Pos.to_nat Pos.iter_op Nat.add nth].
  join_bytes. replace (a + _ + _ + _ + _ + _ + _ + _) with v by lia. apply delivers_ret.
Qed.

(** ** Keys *)

Lemma pb_decode_tag_key wt n s rest after : 0 <= wt < 8 -> 0 <= n < 2 ^ 29 -> 0 < 8 * n + wt ->
  holds s (varint_bytes (8 * n + wt) ++ rest) after ->
  exists s', pb_decode_tag s = (Some (n, wt), false, s') /\ holds s' rest after /\ i_errmsg s' = i_errmsg s.
Proof.
  intros Hw Hn Hpos Hs. destruct (groups_10 (8 * n + wt)) as (Hval & Hok & Hne & Hl); [lia|].
  destruct (decode32_eof_fits false (groups 10 (8 * n + wt)) s rest after) as (s' & E & Hs'); try done; [lia|left; lia|].
  exists s'. split; [|exact Hs']. rewrite Hval, Z.mod_small in E by lia. unfold pb_decode_tag. rewrite E.
  destruct (Z.eqb_spec (8 * n + wt) 0); [lia|]. rewrite Z.shiftr_div_pow2 by lia. change 7 with (2 ^ 3 - 1). rewrite land_ones_mod by lia.
  change (2 ^ 3) with 8. do 4 f_equal; dlia.
Qed.

(** The end of a message is the end of the stream, or a zero byte. *)
Lemma pb_decode_tag_end s after : holds s [] after -> exists s', pb_decode_tag s = (None, true, s').
Proof.
  intros Hs. destruct (pb_readbyte_reads s [] after Hs) as (s' & E & _). unfold pb_decode_tag, pb_decode_varint32_eof. rewrite E.
  assert (Hb : bytes_left s' = 0).
  { destruct Hs as (_ & Hb & _). unfold pb_readbyte in E. rewrite get_state, Hb in E. cbn in E. by injection E as <-. }
  rewrite Hb. by exists s'.
Qed.

Lemma pb_decode_tag_zero s rest after : holds s (0 :: rest) after -> exists s', pb_decode_tag s = (None, true, s') /\ holds s' rest after.
Proof.
  intros Hs. destruct (pb_readbyte_reads s _ after Hs) as (s' & E & Hs' & _). exists s'. unfold pb_decode_tag, pb_decode_varint32_eof. by rewrite E.
Qed.

(** ** Skipping *)

Lemma pb_skip_varint_delivers gs : groups_ok gs -> gs <> [] -> delivers pb_skip_varint tt (wire gs).
Proof.
  intros Hok Hne s rest after Hs. unfold pb_skip_varint. pose proof Hs as (_ & Hb & _). rewrite zlen_app, zlen_wire in Hb.
  assert (Hf : zlen gs <= Z.of_nat (Z.to_nat (bytes_left s) + 1)) by (zlen_pos; lia). clear Hb. revert Hf. generalize (Z.to_nat (bytes_left s) + 1)%nat.
  revert s Hs. induction gs as [|g gs IH]; [done|]. intros s Hs [|fuel] Hf; rewrite zlen_cons in Hf; [zlen_pos; lia|].
  apply Forall_cons_1 in Hok as [Hg Hok]. unfold is_group in Hg. cbn [skip_varint_loop].
  assert (Hstep : forall b l, holds s (b :: l) after -> is_byte b -> exists s1, holds s1 l after /\ i_errmsg s1 = i_errmsg s /\
    (let* buf := pb_read_buf 1 in if negb (znth 0 buf 0 .& 0x80 =? 0) then skip_varint_loop fuel else ret tt) s =
    (if b <? 128 then ret tt else skip_varint_loop fuel) s1).
  { intros b l Hbl Hbyte. destruct (pb_read_buf_delivers [b] s l after Hbl) as (s1 & E & Hs1 & M). exists s1. split; [done|]. split; [done|].
    change 1 with (zlen [b]). rewrite (bind_step _ _ _ _ _ E). change (znth 0 [b] 0) with b. rewrite byte_marker by done. by destruct (b <? 128). }
  destruct gs as [|g' gs].
  - destruct (Hstep g rest Hs ltac:(unfold is_byte; lia)) as (s1 & Hs1 & M & ->). exists s1. by destruct (Z.ltb_spec g 128); [|lia].
  - rewrite wire_cons in Hs. destruct (Hstep (g + 128) _ Hs ltac:(unfold is_byte; lia)) as (s1 & Hs1 & M & ->). rewrite <- M.
    destruct (Z.ltb_spec (g + 128) 128); [lia|]. apply (IH Hok ltac:(done) s1 Hs1). lia.
Qed.

Lemma pb_skip_string_delivers b : zlen b < 2 ^ 32 -> delivers pb_skip_string tt (varint_bytes (zlen b) ++ b).
Proof.
  intros Hb. eapply delivers_bind; [apply pb_decode_varint32_small; zlen_pos; lia|apply pb_read_null_delivers].
Qed.
End Read.

(** * Messages

    What writers put on one stream readers take from another: single values, fields
    that a reader skips, substreams, and the limit of a buffer. *)

(** ** Fields *)

Inductive field_value :=
| Varint (v : Z) | Fixed64 (v : Z) | Bytes (b : list Z) | Fixed32 (v : Z).

Definition field : Type := Z * field_value.

Definition wire_type (x : field_value) : Z :=
  match x with Varint _ => PB_WT_VARINT | Fixed64 _ => PB_WT_64BIT | Bytes _ => PB_WT_STRING | Fixed32 _ => PB_WT_32BIT end.

Definition value_bytes (x : field_value) : list Z :=
  match x with
  | Varint v => varint_bytes v
  | Fixed64 v => le_bytes 8 v
  | Bytes b => varint_bytes (zlen b) ++ b
  | Fixed32 v => le_bytes 4 v
  end.

(** The ranges of the wire format: field numbers have 29 bits. *)
Definition value_ok (x : field_value) : Prop :=
  match x with
  | Varint v | Fixed64 v => 0 <= v < 2 ^ 64
  | Bytes b => zlen b < 2 ^ 32 /\ bytes_ok b
  | Fixed32 v => 0 <= v < 2 ^ 32
  end.
Definition field_ok (f : field) : Prop := 1 <= fst f < 2 ^ 29 /\ value_ok (snd f).

Definition key_of (f : field) : Z * Z := (fst f, wire_type (snd f)).
Definition field_bytes (f : field) : list Z := varint_bytes (8 * fst f + wire_type (snd f)) ++ value_bytes (snd f).
Definition message_bytes (fs : list field) : list Z := concat (map field_bytes fs).

Lemma wire_type_range x : 0 <= wire_type x < 8.
Proof. unfold wire_type, PB_WT_VARINT, PB_WT_64BIT, PB_WT_STRING, PB_WT_32BIT. destruct x; lia. Qed.

Section Write.
Context {S : Type} `{ReliableOutput S}.

(** A client that writes fields one after the other. *)
Definition write_value (x : field_value) : M (pb_ostream S) unit :=
  match x with
  | Varint v => pb_encode_varint v
  | Fixed64 v => pb_encode_fixed64 v
  | Bytes b => pb_encode_string b
  | Fixed32 v => pb_encode_fixed32 v
  end.
Definition write_field (f : field) : M (pb_ostream S) unit := pb_encode_tag (wire_type (snd f)) (fst f) ;;; write_value (snd f).
Fixpoint write_fields (fs : list field) : M (pb_ostream S) unit :=
  match fs with [] => ret tt | f :: fs => write_field f ;;; write_fields fs end.

Lemma write_value_emits x : value_ok x -> emits (write_value x) (value_bytes x).
Proof.
  destruct x; cbn [value_ok write_value value_bytes]; intros Hok.
  - by apply pb_encode_varint_emits.
  - apply pb_encode_fixed64_emits.
  - apply pb_encode_string_emits. lia.
  - apply pb_encode_fixed32_emits.
Qed.

Lemma write_fields_emits fs : Forall field_ok fs -> emits (write_fields fs) (message_bytes fs).
Proof.
  induction 1 as [|f fs [Hn Hv] _ IH]; [apply emits_nil|]. unfold message_bytes. cbn [write_fields map concat].
  apply (emits_bind (write_field f) (fun _ => write_fields fs)); [|exact IH].
  apply (emits_bind (pb_encode_tag _ _) (fun _ => write_value (snd f))); [|by apply write_value_emits].
  apply pb_encode_tag_emits; [apply wire_type_range|lia].
Qed.
End Write.

Section Read.
Context {S : Type} `{ReliableInput S}.

Lemma pb_skip_field_delivers x : value_ok x -> delivers (pb_skip_field (wire_type x)) tt (value_bytes x).
Proof.
  destruct x; cbn [value_ok value_bytes]; intros Hok.
  - apply pb_skip_varint_delivers; apply (groups_10 v Hok).
  - change (delivers (pb_read_null 8) tt (le_bytes 8 v)). change 8 with (zlen (le_bytes 8 v)) at 1. apply pb_read_null_delivers.
  - apply pb_skip_string_delivers, Hok.
  - change (delivers (pb_read_null 4) tt (le_bytes 4 v)). change 4 with (zlen (le_bytes 4 v)) at 1. apply pb_read_null_delivers.
Qed.

(** A client that reads the keys and skips the values, as the decoder does with fields
    that it does not know. *)
Inductive skips : pb_istream S -> list (Z * Z) -> pb_istream S -> Prop :=
| skips_nil s : skips s [] s
| skips_cons s tag wt s1 s2 keys s' : pb_decode_tag s = (Some (tag, wt), false, s1) -> pb_skip_field wt s1 = (Some tt, s2) ->
    skips s2 keys s' -> skips s ((tag, wt) :: keys) s'.

Lemma skips_message fs : Forall field_ok fs -> forall s rest after, holds s (message_bytes fs ++ rest) after ->
  exists s', skips s (map key_of fs) s' /\ holds s' rest after.
Proof.
  induction 1 as [|f fs [Hn Hv] _ IH]; intros s rest after Hs; [exists s; by split; [constructor|]|].
  unfold message_bytes in Hs. cbn [map concat] in Hs. unfold field_bytes in Hs. rewrite <- !app_assoc in Hs.
  destruct (pb_decode_tag_key (wire_type (snd f)) (fst f) s _ after (wire_type_range (snd f)) ltac:(lia) ltac:(pose proof (wire_type_range (snd f)); lia) Hs)
    as (s1 & E1 & Hs1 & _).
  destruct (pb_skip_field_delivers _ Hv s1 _ after Hs1) as (s2 & E2 & Hs2 & _).
  destruct (IH s2 rest after Hs2) as (s' & Hskip & Hs'). exists s'. split; [|done]. cbn [map]. unfold key_of at 1.
  by apply skips_cons with s1 s2.
Qed.

(** ** Substreams *)

Lemma holds_split s x rest after : holds s (x ++ rest) after ->
  holds (set_bytes_left (zlen x) s) x (rest ++ after).
Proof.
  intros (Hp & _ & Hl & Hok). rewrite zlen_app in Hl. apply Forall_app in Hok as [Hx _]. split; [cbn; by rewrite app_assoc|].
  split; [done|]. split; [zlen_pos; lia|done].
Qed.

Lemma pb_make_string_substream_holds s b rest after : zlen b < 2 ^ 32 -> holds s ((varint_bytes (zlen b) ++ b) ++ rest) after ->
  exists sub parent, pb_make_string_substream s = (Some sub, parent) /\ holds sub b (rest ++ after) /\
    bytes_left parent = zlen rest /\ zlen rest < 2 ^ 64 /\ bytes_ok rest.
Proof.
  intros Hb Hs. rewrite <- app_assoc in Hs. zlen_pos. destruct (pb_decode_varint32_small (zlen b) ltac:(lia) s _ after Hs) as (s1 & E & Hs1 & _).
  unfold pb_make_string_substream. rewrite (bind_step _ _ _ _ _ E), get_state. pose proof Hs1 as (_ & Hl & Hlt & Hok). rewrite Hl.
  rewrite zlen_app in *. destruct (Z.ltb_spec (zlen b + zlen rest) (zlen b)); [lia|]. eexists _, _. split; [reflexivity|].
  split; [by apply holds_split|]. apply Forall_app in Hok as [_ Hok]. split; [cbn; lia|]. split; [lia|done].
Qed.

Lemma pb_close_string_substream_holds sub parent left rest after : holds sub left (rest ++ after) ->
  bytes_left parent = zlen rest -> zlen rest < 2 ^ 64 -> bytes_ok rest ->
  exists parent', pb_close_string_substream sub parent = (Some tt, parent') /\ holds parent' rest after /\ i_errmsg parent' = i_errmsg sub.
Proof.
  intros Hs Hp Hr Hok. unfold pb_close_string_substream. pose proof Hs as (_ & Hl & _). rewrite Hl.
  assert (Hskip : exists sub', (if negb (zlen left =? 0) then pb_read_null (zlen left) sub else (Some tt, sub)) = (Some tt, sub') /\
    holds sub' [] (rest ++ after) /\ i_errmsg sub' = i_errmsg sub).
  { destruct (Z.eqb_spec (zlen left) 0) as [E|]; cbn [negb].
    - exists sub. apply zlen_0_nil in E as ->. done.
    - apply pb_read_null_delivers. by rewrite app_nil_r. }
  destruct Hskip as (sub' & -> & Hsub & M). eexists. split; [reflexivity|]. split; [|exact M].
  destruct Hsub as (Hpend & _). split; [exact Hpend|]. split; [exact Hp|]. by split.
Qed.
End Read.

(** ** Properties *)

(** What [w] writes [r] reads as [a], on any streams and whatever follows. *)
Definition roundtrips {S T A : Type} `{ReliableOutput S} `{ReliableInput T} (w : M (pb_ostream S) unit) (r : M (pb_istream T) A) (a : A) : Prop :=
  exists x, emits w x /\ delivers r a x.

Section Streams.
Context {S T : Type} `{ReliableOutput S} `{ReliableInput T}.

(** Every integer is read as it was written: 64-bit and 32-bit numbers of variable
    length, signed numbers in zigzag form, and numbers of fixed length, over any
    callbacks that do their work. *)
Theorem wire_values_roundtrip v :
  (0 <= v < 2 ^ 64 -> roundtrips (S := S) (T := T) (pb_encode_varint v) pb_decode_varint v) /\
  (0 <= v < 2 ^ 32 -> roundtrips (S := S) (T := T) (pb_encode_varint v) pb_decode_varint32 v) /\
  (- 2 ^ 63 <= v < 2 ^ 63 -> roundtrips (S := S) (T := T) (pb_encode_svarint v) pb_decode_svarint v) /\
  (0 <= v < 2 ^ 32 -> roundtrips (S := S) (T := T) (pb_encode_fixed32 v) pb_decode_fixed32 v) /\
  (0 <= v < 2 ^ 64 -> roundtrips (S := S) (T := T) (pb_encode_fixed64 v) pb_decode_fixed64 v).
Proof.
  split; [|split; [|split; [|split]]]; intros Hv; eexists; split.
  - by apply pb_encode_varint_emits.
  - by apply pb_decode_varint_delivers.
  - apply pb_encode_varint_emits. lia.
  - by apply pb_decode_varint32_small.
  - by apply pb_encode_svarint_emits.
  - by apply pb_decode_svarint_delivers.
  - apply pb_encode_fixed32_emits.
  - by apply pb_decode_fixed32_delivers.
  - apply pb_encode_fixed64_emits.
  - by apply pb_decode_fixed64_delivers.
Qed.

(** A message of fields with any numbers and values can be walked without knowing
    them: after each key [pb_skip_field] stops exactly at the next one, and at the end
    of the stream [pb_decode_tag] reports the end. *)
Theorem fields_can_be_skipped fs s after : Forall field_ok fs -> holds (S := T) s (message_bytes fs) after ->
  emits (S := S) (write_fields fs) (message_bytes fs) /\
  exists s' s'', skips s (map key_of fs) s' /\ pb_decode_tag s' = (None, true, s'').
Proof.
  intros Hok Hs. split; [by apply write_fields_emits|]. rewrite <- (app_nil_r (message_bytes fs)) in Hs.
  destruct (skips_message fs Hok s [] after Hs) as (s' & Hskip & Hs'). destruct (pb_decode_tag_end s' after Hs') as (s'' & E). by exists s', s''.
Qed.
End Streams.

Lemma wire_values_roundtrip_witness :
  roundtrips (S := list Z * Z) (T := list Z) (pb_encode_varint (2 ^ 63)) pb_decode_varint (2 ^ 63) /\
  roundtrips (S := list Z * Z) (T := list Z) (pb_encode_svarint (- 2 ^ 63)) pb_decode_svarint (- 2 ^ 63).
Proof.
  split; [refine (proj1 (wire_values_roundtrip (2 ^ 63)) _)|refine (proj1 (proj2 (proj2 (wire_values_roundtrip (- 2 ^ 63)))) _)]; lia.
Defined.

Definition sample_fields : list field := [(1, Varint 300); (536870911, Bytes [104; 105]); (3, Fixed32 7); (4, Fixed64 0)].

Lemma fields_can_be_skipped_witness :
  let s := pb_istream_from_buffer (message_bytes sample_fields) (zlen (message_bytes sample_fields)) in
  emits (S := list Z * Z) (write_fields sample_fields) (message_bytes sample_fields) /\
  exists s' s'', skips s (map key_of sample_fields) s' /\ pb_decode_tag s' = (None, true, s'').
Proof.
  apply (fields_can_be_skipped (S := list Z * Z) sample_fields _ []).
  - repeat (apply Forall_cons; split; [vm_compute; repeat split; try discriminate; repeat constructor; discriminate|]). apply Forall_nil. exact I.
  - split; [vm_compute; reflexivity|]. split; [reflexivity|]. split; [vm_compute; reflexivity|]. vm_compute; repeat constructor; discriminate.
Defined.

(** C39. A substream confines its reader to the string: it holds the announced bytes and
    nothing of the parent, and however much of it has been read when it is closed, the
    parent goes on behind the string. *)
Theorem substream_confines {T} `{ReliableInput T} (s : pb_istream T) b rest after :
  value_ok (Bytes b) -> holds s (value_bytes (Bytes b) ++ rest) after ->
  exists sub parent, pb_make_string_substream s = (Some sub, parent) /\ holds sub b (rest ++ after) /\
    forall sub' left, holds sub' left (rest ++ after) ->
      exists parent', pb_close_string_substream sub' parent = (Some tt, parent') /\ holds parent' rest after.
Proof.
  intros [Hb _] Hs. destruct (pb_make_string_substream_holds s b rest after Hb Hs) as (sub & parent & E & Hsub & Hp & Hr & Hok).
  exists sub, parent. split; [done|]. split; [done|]. intros sub' left Hsub'.
  destruct (pb_close_string_substream_holds sub' parent left rest after Hsub' Hp Hr Hok) as (parent' & Ec & Hp' & _). by exists parent'.
Qed.

Lemma substream_confines_witness :
  let s := pb_istream_from_buffer [2; 104; 105; 9] 4 in
  exists sub parent, pb_make_string_substream s = (Some sub, parent) /\ holds sub [104; 105] [9] /\
    forall sub' left, holds sub' left [9] ->
      exists parent', pb_close_string_substream sub' parent = (Some tt, parent') /\ holds parent' [9] [].
Proof.
  apply (substream_confines _ [104; 105] [9] []); [split; [reflexivity|vm_compute; repeat constructor; discriminate]|]. split; [reflexivity|]. split; [reflexivity|].
  split; [reflexivity|]. vm_compute; repeat constructor; discriminate.
Defined.

(** C40. The limit of a buffer: fields are written if and only if they fit, then the
    buffer starts with them and its other bytes are unchanged; otherwise the call fails
    with a message and no byte from the limit on has changed. A stream that only counts
    counts the same bytes. *)
Theorem buffer_limit_respected fs buf n : Forall field_ok fs -> 0 <= n <= zlen buf -> n < 2 ^ 64 ->
  let x := message_bytes fs in
  (zlen x <= n -> exists s, write_fields fs (pb_ostream_from_buffer buf n) = (Some tt, s) /\
    fst (o_state s) = x ++ zdrop (zlen x) buf /\ bytes_written s = zlen x) /\
  (n < zlen x -> exists s, write_fields fs (pb_ostream_from_buffer buf n) = (None, s) /\
    o_errmsg s <> None /\ zdrop n (fst (o_state s)) = zdrop n buf) /\
  (zlen x < 2 ^ 64 -> exists s, write_fields fs (PB_OSTREAM_SIZING (S := list Z * Z)) = (Some tt, s) /\ bytes_written s = zlen x).
Proof.
  intros Hok Hn Hlt x. pose proof (write_fields_emits (S := list Z * Z) fs Hok) as Hemits. fold x in Hemits. zlen_pos.
  assert (Hstart : ostream_ok (pb_ostream_from_buffer buf n)).
  { split; cbn; [lia|]. intros _. split; [lia|]. split; [lia|]. rewrite zdrop_0. lia. }
  assert (Hwhole : forall s y, wrote (pb_ostream_from_buffer buf n) y s -> fst (o_state s) = y ++ zdrop (zlen y) buf).
  { intros s y (_ & _ & _ & Hs & _). destruct (Hs eq_refl) as [Ho Hsp]. cbn in Ho, Hsp. rewrite zdrop_0 in Hsp.
    change (ztake 0 buf) with (@nil Z) in Ho. cbn [app] in Ho. rewrite <- Hsp, <- Ho. symmetry. apply ztake_zdrop. }
  destruct (Hemits _ Hstart) as [Hfit Hfull]. unfold fits in Hfit, Hfull. cbn [pb_ostream_from_buffer o_callback bytes_written max_size] in Hfit, Hfull.
  split; [|split].
  - intros Hx. destruct (Hfit ltac:(lia)) as (s & E & W & _). exists s. split; [done|]. split; [by apply Hwhole|]. destruct W as (_ & _ & -> & _). done.
  - intros Hx. destruct (Hfull eq_refl ltac:(lia)) as (s & k & E & Hm & W). exists s. split; [done|]. split; [done|].
    rewrite (Hwhole _ _ W). destruct W as (Hc & Hmax & Hb & _ & [_ Hr]). destruct (Hr Hc) as (_ & Hr' & _). rewrite Hmax, Hb in Hr'.
    cbn in Hr'. set (y := ztake k x) in *. clearbody y. rewrite zdrop_app_ge by lia. unfold zdrop. rewrite drop_drop. f_equal. zlen_pos. lia.
  - intros Hx. destruct (Hemits PB_OSTREAM_SIZING) as [Hsize _]; [split; cbn; [lia|done]|].
    destruct (Hsize Hx) as (s & E & (_ & _ & Hb & _) & _). exists s. split; [done|]. by rewrite Hb.
Qed.

Lemma buffer_limit_respected_witness :
  let x := message_bytes sample_fields in
  (exists s, write_fields sample_fields (pb_ostream_from_buffer (replicate 40 255) 32) = (Some tt, s) /\
    fst (o_state s) = x ++ zdrop (zlen x) (replicate 40 255) /\ bytes_written s = zlen x) /\
  (exists s, write_fields sample_fields (pb_ostream_from_buffer (replicate 40 255) 10) = (None, s) /\
    o_errmsg s <> None /\ zdrop 10 (fst (o_state s)) = zdrop 10 (replicate 40 255)).
Proof.
  assert (Hok : Forall field_ok sample_fields).
  { repeat (apply Forall_cons; split; [vm_compute; repeat split; try discriminate; repeat constructor; discriminate|]). apply Forall_nil. exact I. }
  split.
  - refine (proj1 (buffer_limit_respected sample_fields (replicate 40 255) 32 Hok _ _) _); vm_compute; split || idtac; try discriminate; reflexivity.
  - refine (proj1 (proj2 (buffer_limit_respected sample_fields (replicate 40 255) 10 Hok _ _)) _); vm_compute; split || idtac; try discriminate; reflexivity.
Defined.
