(* ===== verification/LdbCoding.v ===== *)
(** * Coding of integers and strings (leveldb: util/coding.h, util/coding.cc)

    A [Slice] and a [std::string] are lists of bytes; a pair of pointers [p], [limit]
    is the list of the bytes between them. A function that appends to a string returns
    what it appends, one that advances a slice is a computation of [M (list Z)]. *)

From S2P Require Import Prelude Words PbWireFacts.

(** ** Writing *)

Definition EncodeFixed32 (value : Z) : list Z := [u8 value; u8 (value ≫ 8); u8 (value ≫ 16); u8 (value ≫ 24)].
Definition EncodeFixed64 (value : Z) : list Z :=
  [u8 value; u8 (value ≫ 8); u8 (value ≫ 16); u8 (value ≫ 24); u8 (value ≫ 32); u8 (value ≫ 40); u8 (value ≫ 48); u8 (value ≫ 56)].

Definition PutFixed32 (value : Z) : list Z := EncodeFixed32 value.
Definition PutFixed64 (value : Z) : list Z := EncodeFixed64 value.

Definition EncodeVarint32 (v : Z) : list Z :=
  let B := 128 in
  if v <? Z.shiftl 1 7 then [u8 v]
  else if v <? Z.shiftl 1 14 then [u8 (v .| B); u8 (v ≫ 7)]
  else if v <? Z.shiftl 1 21 then [u8 (v .| B); u8 ((v ≫ 7) .| B); u8 (v ≫ 14)]
  else if v <? Z.shiftl 1 28 then [u8 (v .| B); u8 ((v ≫ 7) .| B); u8 ((v ≫ 14) .| B); u8 (v ≫ 21)]
  else [u8 (v .| B); u8 ((v ≫ 7) .| B); u8 ((v ≫ 14) .| B); u8 ((v ≫ 21) .| B); u8 (v ≫ 28)].
Definition PutVarint32 (v : Z) : list Z := EncodeVarint32 v.

(** At most ten bytes for 64 bits. *)
Fixpoint EncodeVarint64_loop (fuel : nat) (v : Z) : list Z :=
  match fuel with
  | O => []
  | S fuel => if v >=? 128 then u8 (v .| 128) :: EncodeVarint64_loop fuel (v ≫ 7) else [u8 v]
  end.
Definition EncodeVarint64 (v : Z) : list Z := EncodeVarint64_loop 10 v.
Definition PutVarint64 (v : Z) : list Z := EncodeVarint64 v.

Definition PutLengthPrefixedSlice (value : list Z) : list Z := PutVarint32 (u32 (zlen value)) ++ value.

Fixpoint VarintLength_loop (fuel : nat) (len v : Z) : Z :=
  match fuel with
  | O => len
  | S fuel => if v >=? 128 then VarintLength_loop fuel (len + 1) (v ≫ 7) else len
  end.
Definition VarintLength (v : Z) : Z := VarintLength_loop 10 1 v.

(** ** Reading *)

Definition DecodeFixed32 (buffer : list Z) : Z :=
  znth 0 buffer 0 .| u32 (znth 0 buffer 1 ≪ 8) .| u32 (znth 0 buffer 2 ≪ 16) .| u32 (znth 0 buffer 3 ≪ 24).
Definition DecodeFixed64 (buffer : list Z) : Z :=
  znth 0 buffer 0 .| u64 (znth 0 buffer 1 ≪ 8) .| u64 (znth 0 buffer 2 ≪ 16) .| u64 (znth 0 buffer 3 ≪ 24) .|
  u64 (znth 0 buffer 4 ≪ 32) .| u64 (znth 0 buffer 5 ≪ 40) .| u64 (znth 0 buffer 6 ≪ 48) .| u64 (znth 0 buffer 7 ≪ 56).

(** The value and the bytes after it; [None] is [nullptr]. [shift] is at most 28, so
    the loop runs at most five times. *)
Fixpoint GetVarint32PtrFallback_loop (fuel : nat) (shift result : Z) (p : list Z) : option (Z * list Z) :=
  match fuel, p with
  | S fuel, byte :: p =>
      if shift <=? 28 then
        if negb (byte .& 128 =? 0) then GetVarint32PtrFallback_loop fuel (shift + 7) (result .| u32 ((byte .& 127) ≪ shift)) p
        else Some (result .| u32 (byte ≪ shift), p)
      else None
  | _, _ => None
  end.
Definition GetVarint32PtrFallback (p : list Z) : option (Z * list Z) := GetVarint32PtrFallback_loop 6 0 0 p.

Definition GetVarint32Ptr (p : list Z) : option (Z * list Z) :=
  match p with
  | result :: p' => if result .& 128 =? 0 then Some (result, p') else GetVarint32PtrFallback p
  | [] => GetVarint32PtrFallback p
  end.

(** A pointer function on a slice: the slice changes only if it succeeds. *)
Definition advance {A} (f : list Z -> option (A * list Z)) : M (list Z) A := fun input =>
  match f input with
  | None => (None, input)
  | Some (value, q) => (Some value, q)
  end.

Definition GetVarint32 : M (list Z) Z := advance GetVarint32Ptr.

Fixpoint GetVarint64Ptr_loop (fuel : nat) (shift result : Z) (p : list Z) : option (Z * list Z) :=
  match fuel, p with
  | S fuel, byte :: p =>
      if shift <=? 63 then
        if negb (byte .& 128 =? 0) then GetVarint64Ptr_loop fuel (shift + 7) (result .| u64 ((byte .& 127) ≪ shift)) p
        else Some (result .| u64 (byte ≪ shift), p)
      else None
  | _, _ => None
  end.
Definition GetVarint64Ptr (p : list Z) : option (Z * list Z) := GetVarint64Ptr_loop 11 0 0 p.
Definition GetVarint64 : M (list Z) Z := advance GetVarint64Ptr.

(** The two functions of this name: on pointers, and on a slice, which keeps the
    length it has read when the call fails after it. *)
Definition GetLengthPrefixedSlicePtr (p : list Z) : option (list Z * list Z) :=
  match GetVarint32Ptr p with
  | None => None
  | Some (len, p) => if len >? zlen p then None else Some (ztake len p, zdrop len p)
  end.
Definition GetLengthPrefixedSlice : M (list Z) (list Z) :=
  let* len := GetVarint32 in
  let* input := get in
  if zlen input >=? len then put (zdrop len input) ;;; ret (ztake len input) else fail.

(** ** Numbers of fixed length *)

Lemma u8_shift v k : 0 <= k -> u8 (v ≫ k) = (v / 2 ^ k) mod 256.
Proof. intros Hk. unfold u8. by rewrite Z.shiftr_div_pow2. Qed.

Lemma EncodeFixed32_le v : EncodeFixed32 v = le_bytes 4 v.
Proof. unfold EncodeFixed32. rewrite !u8_shift, !le_bytes_S, !Z.div_div by lia. reflexivity. Qed.

Lemma EncodeFixed64_le v : EncodeFixed64 v = le_bytes 8 v.
Proof. unfold EncodeFixed64. rewrite !u8_shift, !le_bytes_S, !Z.div_div by lia. reflexivity. Qed.

(** A byte above the bits of [r], in a word of [w] bits. *)
Lemma or_next_byte w r b n : 0 <= n -> n + 8 <= w -> 0 <= r < 2 ^ n -> is_byte b -> r .| ((b ≪ n) mod 2 ^ w) = r + b * 2 ^ n.
Proof.
  intros Hn Hw Hr Hb. unfold is_byte in Hb. rewrite or_shifted by lia. apply Z.mod_small. assert (0 < 2 ^ n) by lia.
  assert (2 ^ (n + 8) <= 2 ^ w) by (apply Z.pow_le_mono_r; lia). rewrite Z.pow_add_r in * by lia. change (2 ^ 8) with 256 in *. nia.
Qed.

Ltac next_byte :=
  match goal with
  | |- context [?r .| ((?b ≪ ?n) mod ?m)] =>
      lazymatch r with context [Z.lor] => fail | _ => idtac end;
      let p := eval vm_compute in (2 ^ n) in
      let w := eval vm_compute in (Z.log2 m) in
      change m with (2 ^ w);
      rewrite (or_next_byte w r b n) by (lia || (change (2 ^ n) with p; unfold is_byte in *; lia) || done); change (2 ^ n) with p;
      let m' := eval vm_compute in (2 ^ w) in change (2 ^ w) with m'
  end.

Lemma DecodeFixed32_le l rest : length l = 4%nat -> bytes_ok l -> DecodeFixed32 (l ++ rest) = le_value l.
Proof.
  intros (a & b & c & d & ->)%length_4 Hok. rewrite !Forall_cons in Hok. destruct Hok as (Ha & Hb & Hc & Hd & _). unfold is_byte in *.
  rewrite !le_value_cons. change (le_value []) with 0. unfold DecodeFixed32, u32. cbn [app].
  change (znth 0 (a :: b :: c :: d :: rest) 0) with a. change (znth 0 (a :: b :: c :: d :: rest) 1) with b.
  change (znth 0 (a :: b :: c :: d :: rest) 2) with c. change (znth 0 (a :: b :: c :: d :: rest) 3) with d.
  repeat next_byte. lia.
Qed.

Lemma DecodeFixed64_le l rest : length l = 8%nat -> bytes_ok l -> DecodeFixed64 (l ++ rest) = le_value l.
Proof.
  intros (a & b & c & d & e & f & g & h & ->)%length_8 Hok. rewrite !Forall_cons in Hok. destruct Hok as (Ha & Hb & Hc & Hd & He & Hf & Hg & Hh & _).
  unfold is_byte in *. rewrite !le_value_cons. change (le_value []) with 0. unfold DecodeFixed64, u64. cbn [app].
  cbv [znth Z.to_nat Pos.to_nat Pos.iter_op Nat.add nth]. repeat next_byte. lia.
Qed.

Lemma Fixed32_roundtrip v rest : 0 <= v < 2 ^ 32 -> DecodeFixed32 (EncodeFixed32 v ++ rest) = v.
Proof.
  intros Hv. rewrite EncodeFixed32_le, DecodeFixed32_le.
  - rewrite le_value_le_bytes. by apply Z.mod_small.
  - apply Nat2Z.inj, zlen_le_bytes.
  - apply le_bytes_ok.
Qed.

Lemma Fixed64_roundtrip v rest : 0 <= v < 2 ^ 64 -> DecodeFixed64 (EncodeFixed64 v ++ rest) = v.
Proof.
  intros Hv. rewrite EncodeFixed64_le, DecodeFixed64_le.
  - rewrite le_value_le_bytes. by apply Z.mod_small.
  - apply Nat2Z.inj, zlen_le_bytes.
  - apply le_bytes_ok.
Qed.

(** ** Numbers of variable length *)

(** Both readers: at most [last / 7 + 1] bytes, and the bits above [w] dropped. *)
Fixpoint get_loop (w last : Z) (fuel : nat) (shift result : Z) (p : list Z) : option (Z * list Z) :=
  match fuel, p with
  | S fuel, byte :: p =>
      if shift <=? last then
        if negb (byte .& 128 =? 0) then get_loop w last fuel (shift + 7) (result .| (((byte .& 127) ≪ shift) mod 2 ^ w)) p
        else Some (result .| ((byte ≪ shift) mod 2 ^ w), p)
      else None
  | _, _ => None
  end.

Lemma get_loop_32 fuel shift result p : GetVarint32PtrFallback_loop fuel shift result p = get_loop 32 28 fuel shift result p.
Proof. revert shift result p. induction fuel as [|fuel IH]; intros shift result [|b p]; cbn [GetVarint32PtrFallback_loop get_loop]; [done..|]. by rewrite IH. Qed.
Lemma get_loop_64 fuel shift result p : GetVarint64Ptr_loop fuel shift result p = get_loop 64 63 fuel shift result p.
Proof. revert shift result p. induction fuel as [|fuel IH]; intros shift result [|b p]; cbn [GetVarint64Ptr_loop get_loop]; [done..|]. by rewrite IH. Qed.

(** What the readers accept: at most [n] groups. *)
Definition varint_within (w : Z) (n : Z) (l : list Z) : option (Z * list Z) :=
  match varint l with
  | Some (gs, r) => if zlen gs <=? n then Some (group_value gs mod 2 ^ w, r) else None
  | None => None
  end.

Lemma get_loop_exact w n fuel k result p : 7 * n - 7 <= w -> w <= 7 * n -> Z.of_nat fuel + k = n + 1 -> 0 <= k <= n -> 0 <= result < 2 ^ (7 * k) -> 0 < w ->
  bytes_ok p ->
  get_loop w (7 * n - 7) fuel (7 * k) result p =
    match varint p with
    | Some (gs, r) => if zlen gs <=? n - k then Some ((result + group_value gs * 2 ^ (7 * k)) mod 2 ^ w, r) else None
    | None => None
    end.
Proof.
  intros Hlo Hhi. revert k result p. induction fuel as [|fuel IH]; intros k result p Hf Hk Hr Hw Hok; [cbn in Hf; lia|].
  destruct p as [|b p]; [done|]. apply Forall_cons_1 in Hok as [Hb Hok]. cbn [get_loop varint].
  rewrite byte_marker by done. unfold is_byte in Hb. destruct (Z.leb_spec (7 * k) (7 * n - 7)) as [Hle|Hgt].
  - destruct (Z.ltb_spec b 128) as [Hs|Hm]; cbn [negb].
    + rewrite or_shifted by lia. change (zlen [b]) with 1. cbn [group_value]. destruct (Z.leb_spec 1 (n - k)); [|lia].
      do 3 f_equal. lia.
    + rewrite byte_low, or_shifted by lia. replace (b mod 128) with (b - 128) by dlia.
      assert (E128 : 2 ^ (7 * (k + 1)) = 128 * 2 ^ (7 * k)).
      { replace (7 * (k + 1)) with (7 + 7 * k) by lia. rewrite Z.pow_add_r by lia. reflexivity. }
      assert (H0 : 0 <= result + (b - 128) * 2 ^ (7 * k) < 2 ^ (7 * (k + 1))) by nia.
      replace (7 * k + 7) with (7 * (k + 1)) by lia. destruct (Z.eq_dec (k + 1) n) as [En|].
      * assert (fuel = 1%nat) by lia. subst fuel. destruct p as [|c p]; [done|]. cbn [get_loop varint].
        destruct (Z.leb_spec (7 * (k + 1)) (7 * n - 7)); [lia|]. destruct (c <? 128).
        { rewrite (zlen_cons (b - 128)). change (zlen [c]) with 1. destruct (Z.leb_spec (1 + 1) (n - k)); [lia|done]. }
        destruct (varint p) as [[gs r]|]; [|done]. rewrite !zlen_cons. zlen_pos. destruct (Z.leb_spec (1 + (1 + zlen gs)) (n - k)); [lia|done].
      * rewrite Z.mod_small. 2: { split; [lia|]. apply Z.lt_le_trans with (1 := proj2 H0). apply Z.pow_le_mono_r; lia. }
        rewrite IH by (done || lia). destruct (varint p) as [[gs r]|]; [|done]. rewrite zlen_cons.
        replace (1 + zlen gs <=? n - k) with (zlen gs <=? n - (k + 1)) by (apply eq_true_iff_eq; rewrite !Z.leb_le; lia).
        destruct (_ <=? _); [|done]. rewrite E128. cbn [group_value]. do 3 f_equal. lia.
  - assert (k = n) by lia. subst k. destruct (b <? 128); [change (zlen [b]) with 1|].
    { destruct (Z.leb_spec 1 (n - n)); [lia|done]. }
    destruct (varint p) as [[gs r]|]; [|done]. rewrite zlen_cons. zlen_pos. destruct (Z.leb_spec (1 + zlen gs) (n - n)); [lia|done].
Qed.

Lemma GetVarint32Ptr_within p : bytes_ok p -> GetVarint32Ptr p = varint_within 32 5 p.
Proof.
  intros Hok. assert (E : GetVarint32PtrFallback p = varint_within 32 5 p).
  { unfold GetVarint32PtrFallback, varint_within. rewrite get_loop_32, (get_loop_exact 32 5 6 0 0) by first [done | lia | (cbn; lia)].
    destruct (varint p) as [[gs r]|]; [|done]. change (5 - 0) with 5. destruct (_ <=? 5); [|done]. do 3 f_equal. lia. }
  destruct p as [|b p]; [done|]. unfold GetVarint32Ptr. apply Forall_cons_1 in Hok as [Hb _]. rewrite byte_marker by done. destruct (Z.ltb_spec b 128); [|done].
  unfold varint_within. cbn [varint]. destruct (Z.ltb_spec b 128); [|lia]. change (zlen [b] <=? 5) with true. unfold is_byte in Hb.
  change (group_value [b]) with (b + 128 * 0). rewrite Z.add_0_r, Z.mod_small by lia. done.
Qed.

Lemma GetVarint64Ptr_within p : bytes_ok p -> GetVarint64Ptr p = varint_within 64 10 p.
Proof.
  intros Hok. unfold GetVarint64Ptr, varint_within. rewrite get_loop_64, (get_loop_exact 64 10 11 0 0) by first [done | lia | (cbn; lia)].
  destruct (varint p) as [[gs r]|]; [|done]. change (10 - 0) with 10. destruct (_ <=? 10); [|done]. do 3 f_equal. lia.
Qed.

Lemma byte_mark_any v : 0 <= v -> u8 (v .| 128) = v mod 128 + 128.
Proof.
  intros Hv. unfold u8. pose proof (lor_split 8 (v / 256) (v mod 256) 0 128 ltac:(lia) ltac:(dlia) ltac:(lia)) as E.
  change (2 ^ 8) with 256 in E. replace (v / 256 * 256 + v mod 256) with v in E by dlia. change (0 * 256 + 128) with 128 in E.
  rewrite E, Z.lor_0_r. pose proof (zall_spec 0 256 (fun b => b .| 128 =? b mod 128 + 128) eq_refl (v mod 256) ltac:(dlia)) as H.
  apply Z.eqb_eq in H. rewrite H. dlia.
Qed.

Lemma EncodeVarint64_loop_groups n v : 0 <= v < 128 ^ Z.of_nat n -> EncodeVarint64_loop n v = wire (groups n v).
Proof.
  revert v. induction n as [|n IH]; intros v Hv; [done|]. rewrite Nat2Z.inj_succ, Z.pow_succ_r in Hv by lia. cbn [EncodeVarint64_loop groups].
  rewrite Z.geb_leb. destruct (Z.leb_spec 128 v), (Z.ltb_spec v 128); [lia| |..|lia].
  - rewrite byte_mark_any, Z.shiftr_div_pow2 by lia. change (2 ^ 7) with 128. rewrite IH by (split; [dlia|apply Z.div_lt_upper_bound; lia]).
    destruct n as [|n]; [cbn in Hv; lia|]. cbn [groups]. by destruct (v / 128 <? 128).
  - cbn. f_equal. unfold u8. apply Z.mod_small. lia.
Qed.

Lemma EncodeVarint64_wire v : 0 <= v < 2 ^ 64 -> EncodeVarint64 v = varint_bytes v.
Proof. intros Hv. apply EncodeVarint64_loop_groups. change (128 ^ Z.of_nat 10) with (2 ^ 70). lia. Qed.

Lemma EncodeVarint32_wire v : 0 <= v < 2 ^ 32 -> EncodeVarint32 v = varint_bytes v.
Proof.
  intros Hv. rewrite <- EncodeVarint64_wire by lia. unfold EncodeVarint64. cbn [EncodeVarint64_loop]. unfold EncodeVarint32.
  change (Z.shiftl 1 7) with 128. change (Z.shiftl 1 14) with 16384. change (Z.shiftl 1 21) with 2097152. change (Z.shiftl 1 28) with 268435456.
  rewrite !Z.geb_leb, !Z.shiftr_shiftr by lia. cbn [Z.add Pos.add Pos.succ Pos.add_carry].
  rewrite !Z.shiftr_div_pow2 by lia. change (2 ^ 7) with 128. change (2 ^ 14) with 16384. change (2 ^ 21) with 2097152. change (2 ^ 28) with 268435456.
  repeat match goal with
  | |- context [v <? ?c] => destruct (Z.ltb_spec v c)
  | |- context [128 <=? v] => destruct (Z.leb_spec 128 v)
  | |- context [128 <=? v / ?c] => destruct (Z.leb_spec 128 (v / c)); [try dlia|try dlia]
  end; first [done|dlia].
Qed.

(** ** Every encoding is read back *)

Lemma varint_bytes_ok v : 0 <= v < 2 ^ 64 -> bytes_ok (varint_bytes v).
Proof. intros Hv. by apply wire_ok, groups_10. Qed.

Lemma zlen_groups k n v : 1 <= n -> v < 128 ^ n -> 0 <= v -> zlen (groups k v) <= n.
Proof.
  revert n v. induction k as [|k IH]; intros n v Hn Hb Hv; cbn [groups]; [rewrite zlen_nil; lia|]. destruct (Z.ltb_spec v 128); rewrite zlen_cons; [rewrite zlen_nil; lia|].
  rewrite <- (Z.succ_pred n), Z.pow_succ_r in Hb by lia. assert (n <> 1) by (intros ->; cbn in Hb; lia).
  assert (zlen (groups k (v / 128)) <= Z.pred n); [|lia]. apply IH; [lia|apply Z.div_lt_upper_bound; lia|dlia].
Qed.

Lemma varint_within_bytes w n v rest : 0 <= v < 2 ^ w -> w <= 7 * n -> w <= 64 -> 1 <= n ->
  varint_within w n (varint_bytes v ++ rest) = Some (v, rest).
Proof.
  intros Hv Hn Hw H0. assert (Hw0 : 0 <= w) by (destruct (Z.lt_ge_cases w 0); [rewrite Z.pow_neg_r in Hv by done; lia|done]).
  assert (H64 : 2 ^ w <= 2 ^ 64) by (apply Z.pow_le_mono_r; lia).
  destruct (groups_10 v ltac:(lia)) as (E & Hok & Hne & Hl). unfold varint_within, varint_bytes. rewrite varint_wire by done.
  assert (Hlen : zlen (groups 10 v) <= n).
  { apply zlen_groups; [done| |lia]. change 128 with (2 ^ 7). rewrite <- Z.pow_mul_r by lia. apply Z.lt_le_trans with (1 := proj2 Hv). apply Z.pow_le_mono_r; lia. }
  destruct (Z.leb_spec (zlen (groups 10 v)) n); [|lia]. rewrite E. by rewrite Z.mod_small.
Qed.

Lemma GetVarint32_put v rest : 0 <= v < 2 ^ 32 -> bytes_ok rest -> GetVarint32 (PutVarint32 v ++ rest) = (Some v, rest).
Proof.
  intros Hv Hr. unfold GetVarint32, advance, PutVarint32. rewrite EncodeVarint32_wire by done.
  rewrite GetVarint32Ptr_within by (apply Forall_app; split; [apply varint_bytes_ok; lia|done]). by rewrite varint_within_bytes by lia.
Qed.

Lemma GetVarint64_put v rest : 0 <= v < 2 ^ 64 -> bytes_ok rest -> GetVarint64 (PutVarint64 v ++ rest) = (Some v, rest).
Proof.
  intros Hv Hr. unfold GetVarint64, advance, PutVarint64. rewrite EncodeVarint64_wire by done.
  rewrite GetVarint64Ptr_within by (apply Forall_app; split; [by apply varint_bytes_ok|done]). by rewrite varint_within_bytes by lia.
Qed.

Lemma GetLengthPrefixedSlice_put v rest : zlen v < 2 ^ 32 -> bytes_ok v -> bytes_ok rest ->
  GetLengthPrefixedSlice (PutLengthPrefixedSlice v ++ rest) = (Some v, rest).
Proof.
  intros Hl Hv Hr. unfold GetLengthPrefixedSlice, PutLengthPrefixedSlice. zlen_pos. rewrite <- app_assoc. unfold u32. rewrite Z.mod_small by lia.
  erewrite bind_step. 2: { apply GetVarint32_put; [lia|by apply Forall_app]. }
  unfold bind, get, put, ret. rewrite Z.geb_leb, zlen_app. destruct (Z.leb_spec (zlen v) (zlen v + zlen rest)); [|zlia].
  by rewrite zdrop_app, ztake_app.
Qed.

Lemma PutLengthPrefixedSlice_ok v : zlen v < 2 ^ 32 -> bytes_ok v -> bytes_ok (PutLengthPrefixedSlice v).
Proof.
  intros Hl Hv. zlen_pos. apply Forall_app. split; [|done]. unfold PutVarint32, u32. rewrite Z.mod_small by lia.
  rewrite EncodeVarint32_wire by lia. apply varint_bytes_ok. lia.
Qed.

(** What the slice reader accepts, on any input. *)
Lemma GetLengthPrefixedSlice_reads input : bytes_ok input ->
  GetLengthPrefixedSlice input =
    match varint_within 32 5 input with
    | None => (None, input)
    | Some (len, r) => if len <=? zlen r then (Some (ztake len r), zdrop len r) else (None, r)
    end.
Proof.
  intros Hok. unfold GetLengthPrefixedSlice, bind, GetVarint32, advance. rewrite GetVarint32Ptr_within by done.
  destruct (varint_within 32 5 input) as [[len r]|]; [|done]. unfold get. rewrite Z.geb_leb. by destruct (len <=? zlen r).
Qed.

Lemma varint_within_ok w n input v r : bytes_ok input -> 0 <= w -> varint_within w n input = Some (v, r) -> 0 <= v < 2 ^ w /\ bytes_ok r.
Proof.
  intros Hok Hw. unfold varint_within. destruct (varint input) as [[gs r']|] eqn:E; [|done]. apply varint_Some in E as (-> & _ & _); [|done].
  destruct (_ <=? _); [|done]. intros [= <- <-]. split; [apply Z.mod_pos_bound; lia|]. by apply Forall_app in Hok as [_ ?].
Qed.

Lemma GetLengthPrefixedSlice_ok input v r : bytes_ok input -> GetLengthPrefixedSlice input = (Some v, r) -> zlen v < 2 ^ 32 /\ bytes_ok v /\ bytes_ok r.
Proof.
  intros Hok. rewrite GetLengthPrefixedSlice_reads by done. destruct (varint_within 32 5 input) as [[len r']|] eqn:E; [|done].
  apply varint_within_ok in E as [Hl Hr]; [|done|lia]. destruct (Z.leb_spec len (zlen r')); [|done]. intros [= <- <-].
  rewrite zlen_ztake by lia. split; [lia|]. split; [by apply Forall_take|by apply Forall_drop].
Qed.

Lemma VarintLength_loop_zlen n len v : 0 <= v < 128 ^ Z.of_nat n -> VarintLength_loop n len v = len + zlen (EncodeVarint64_loop n v) - 1 \/ n = O.
Proof.
  revert len v. induction n as [|n IH]; intros len v Hv; [by right|]. left. rewrite Nat2Z.inj_succ, Z.pow_succ_r in Hv by lia.
  cbn [VarintLength_loop EncodeVarint64_loop]. rewrite Z.geb_leb, Z.shiftr_div_pow2 by lia. change (2 ^ 7) with 128.
  destruct (Z.leb_spec 128 v); [|rewrite zlen_cons, zlen_nil; lia]. rewrite zlen_cons. destruct (IH (len + 1) (v / 128)) as [->| ->]; [split; [dlia|apply Z.div_lt_upper_bound; lia]|lia|].
  cbn in Hv. lia.
Qed.

Lemma VarintLength_zlen v : 0 <= v < 2 ^ 64 -> VarintLength v = zlen (PutVarint64 v).
Proof.
  intros Hv. unfold VarintLength, PutVarint64, EncodeVarint64. destruct (VarintLength_loop_zlen 10 1 v) as [->|[=]]; [|lia].
  change (128 ^ Z.of_nat 10) with (2 ^ 70). lia.
Qed.

(** A field of a record: the kinds of values that the files of a database are made of. *)
Inductive field := Fixed32 (v : Z) | Fixed64 (v : Z) | Varint32 (v : Z) | Varint64 (v : Z) | Slice (v : list Z).

Definition field_ok (f : field) : Prop :=
  match f with
  | Fixed32 v | Varint32 v => 0 <= v < 2 ^ 32
  | Fixed64 v | Varint64 v => 0 <= v < 2 ^ 64
  | Slice v => zlen v < 2 ^ 32 /\ bytes_ok v
  end.

Definition put_field (f : field) : list Z :=
  match f with
  | Fixed32 v => PutFixed32 v
  | Fixed64 v => PutFixed64 v
  | Varint32 v => PutVarint32 v
  | Varint64 v => PutVarint64 v
  | Slice v => PutLengthPrefixedSlice v
  end.

(** Read a field of the kind of [f]. *)
Definition get_field (f : field) : M (list Z) field :=
  match f with
  | Fixed32 _ => let* s := get in put (zdrop 4 s) ;;; ret (Fixed32 (DecodeFixed32 s))
  | Fixed64 _ => let* s := get in put (zdrop 8 s) ;;; ret (Fixed64 (DecodeFixed64 s))
  | Varint32 _ => let* v := GetVarint32 in ret (Varint32 v)
  | Varint64 _ => let* v := GetVarint64 in ret (Varint64 v)
  | Slice _ => let* v := GetLengthPrefixedSlice in ret (Slice v)
  end.

Fixpoint get_fields (fs : list field) : M (list Z) (list field) :=
  match fs with
  | [] => ret []
  | f :: fs => let* v := get_field f in let* vs := get_fields fs in ret (v :: vs)
  end.

Lemma put_field_ok f : field_ok f -> bytes_ok (put_field f).
Proof.
  destruct f as [v|v|v|v|v]; cbn [field_ok put_field]; intros Hv; unfold PutFixed32, PutFixed64, PutVarint32, PutVarint64.
  - rewrite EncodeFixed32_le. apply le_bytes_ok.
  - rewrite EncodeFixed64_le. apply le_bytes_ok.
  - rewrite EncodeVarint32_wire by done. apply varint_bytes_ok. lia.
  - rewrite EncodeVarint64_wire by done. by apply varint_bytes_ok.
  - apply PutLengthPrefixedSlice_ok; apply Hv.
Qed.

Lemma get_field_put f rest : field_ok f -> bytes_ok rest -> get_field f (put_field f ++ rest) = (Some f, rest).
Proof.
  destruct f as [v|v|v|v|v]; cbn [field_ok put_field get_field]; intros Hv Hr.
  - unfold bind, get, put, ret, PutFixed32. rewrite Fixed32_roundtrip by done. by rewrite zdrop_app.
  - unfold bind, get, put, ret, PutFixed64. rewrite Fixed64_roundtrip by done. by rewrite zdrop_app.
  - by rewrite (bind_step _ _ _ _ _ (GetVarint32_put v rest Hv Hr)).
  - by rewrite (bind_step _ _ _ _ _ (GetVarint64_put v rest Hv Hr)).
  - by rewrite (bind_step _ _ _ _ _ (GetLengthPrefixedSlice_put v rest (proj1 Hv) (proj2 Hv) Hr)).
Qed.

(** Whatever a record is composed of (fixed-width numbers, numbers of variable
    length and strings with their length before them), the readers applied in the same
    order give the values back and leave exactly the bytes that follow. *)
Theorem coded_fields_roundtrip fs rest : Forall field_ok fs -> bytes_ok rest ->
  get_fields fs (concat (map put_field fs) ++ rest) = (Some fs, rest).
Proof.
  intros Hfs Hr. induction fs as [|f fs IH]; [done|]. apply Forall_cons_1 in Hfs as [Hf Hfs]. cbn [get_fields map concat].
  rewrite <- app_assoc. erewrite bind_step.
  2: { apply get_field_put; [done|]. apply Forall_app. split; [|done]. apply Forall_concat, Forall_map, (Forall_impl _ _ _ Hfs), put_field_ok. }
  by rewrite (bind_step _ _ _ _ _ (IH Hfs)).
Qed.

Lemma coded_fields_roundtrip_witness :
  get_fields [Varint32 300; Slice [1; 2]; Fixed64 7; Varint64 (2 ^ 64 - 1); Fixed32 9]
    (concat (map put_field [Varint32 300; Slice [1; 2]; Fixed64 7; Varint64 (2 ^ 64 - 1); Fixed32 9]) ++ [5; 255])
  = (Some [Varint32 300; Slice [1; 2]; Fixed64 7; Varint64 (2 ^ 64 - 1); Fixed32 9], [5; 255]).
Proof.
  apply (coded_fields_roundtrip [Varint32 300; Slice [1; 2]; Fixed64 7; Varint64 (2 ^ 64 - 1); Fixed32 9] [5; 255]).
  - repeat constructor; cbn; unfold is_byte; lia.
  - repeat constructor; unfold is_byte; lia.
Defined.
