(* ===== verification/LdbCrc.v ===== *)
(** * CRC-32C (leveldb: util/crc32c.h, util/crc32c.cc, port/port_stdcxx.h)

    The bytes [data, data + n) are a list; [Extend] also depends on the address of
    the first one, on which it aligns. The library of hardware implementations is not
    part of the build ([HAVE_CRC32C] is not defined). *)

From Stdlib Require Import Btauto.
From S2P Require Import Prelude Words HashBlocks Sha1 PbWireFacts LdbCoding.

(** ** Tables *)

Definition kByteExtensionTable : list Z := [
  0x00000000; 0xf26b8303; 0xe13b70f7; 0x1350f3f4; 0xc79a971f; 0x35f1141c; 0x26a1e7e8; 0xd4ca64eb; 0x8ad958cf; 0x78b2dbcc; 0x6be22838; 0x9989ab3b; 0x4d43cfd0; 0xbf284cd3; 0xac78bf27; 0x5e133c24;
  0x105ec76f; 0xe235446c; 0xf165b798; 0x030e349b; 0xd7c45070; 0x25afd373; 0x36ff2087; 0xc494a384; 0x9a879fa0; 0x68ec1ca3; 0x7bbcef57; 0x89d76c54; 0x5d1d08bf; 0xaf768bbc; 0xbc267848; 0x4e4dfb4b;
  0x20bd8ede; 0xd2d60ddd; 0xc186fe29; 0x33ed7d2a; 0xe72719c1; 0x154c9ac2; 0x061c6936; 0xf477ea35; 0xaa64d611; 0x580f5512; 0x4b5fa6e6; 0xb93425e5; 0x6dfe410e; 0x9f95c20d; 0x8cc531f9; 0x7eaeb2fa;
  0x30e349b1; 0xc288cab2; 0xd1d83946; 0x23b3ba45; 0xf779deae; 0x05125dad; 0x1642ae59; 0xe4292d5a; 0xba3a117e; 0x4851927d; 0x5b016189; 0xa96ae28a; 0x7da08661; 0x8fcb0562; 0x9c9bf696; 0x6ef07595;
  0x417b1dbc; 0xb3109ebf; 0xa0406d4b; 0x522bee48; 0x86e18aa3; 0x748a09a0; 0x67dafa54; 0x95b17957; 0xcba24573; 0x39c9c670; 0x2a993584; 0xd8f2b687; 0x0c38d26c; 0xfe53516f; 0xed03a29b; 0x1f682198;
  0x5125dad3; 0xa34e59d0; 0xb01eaa24; 0x42752927; 0x96bf4dcc; 0x64d4cecf; 0x77843d3b; 0x85efbe38; 0xdbfc821c; 0x2997011f; 0x3ac7f2eb; 0xc8ac71e8; 0x1c661503; 0xee0d9600; 0xfd5d65f4; 0x0f36e6f7;
  0x61c69362; 0x93ad1061; 0x80fde395; 0x72966096; 0xa65c047d; 0x5437877e; 0x4767748a; 0xb50cf789; 0xeb1fcbad; 0x197448ae; 0x0a24bb5a; 0xf84f3859; 0x2c855cb2; 0xdeeedfb1; 0xcdbe2c45; 0x3fd5af46;
  0x7198540d; 0x83f3d70e; 0x90a324fa; 0x62c8a7f9; 0xb602c312; 0x44694011; 0x5739b3e5; 0xa55230e6; 0xfb410cc2; 0x092a8fc1; 0x1a7a7c35; 0xe811ff36; 0x3cdb9bdd; 0xceb018de; 0xdde0eb2a; 0x2f8b6829;
  0x82f63b78; 0x709db87b; 0x63cd4b8f; 0x91a6c88c; 0x456cac67; 0xb7072f64; 0xa457dc90; 0x563c5f93; 0x082f63b7; 0xfa44e0b4; 0xe9141340; 0x1b7f9043; 0xcfb5f4a8; 0x3dde77ab; 0x2e8e845f; 0xdce5075c;
  0x92a8fc17; 0x60c37f14; 0x73938ce0; 0x81f80fe3; 0x55326b08; 0xa759e80b; 0xb4091bff; 0x466298fc; 0x1871a4d8; 0xea1a27db; 0xf94ad42f; 0x0b21572c; 0xdfeb33c7; 0x2d80b0c4; 0x3ed04330; 0xccbbc033;
  0xa24bb5a6; 0x502036a5; 0x4370c551; 0xb11b4652; 0x65d122b9; 0x97baa1ba; 0x84ea524e; 0x7681d14d; 0x2892ed69; 0xdaf96e6a; 0xc9a99d9e; 0x3bc21e9d; 0xef087a76; 0x1d63f975; 0x0e330a81; 0xfc588982;
  0xb21572c9; 0x407ef1ca; 0x532e023e; 0xa145813d; 0x758fe5d6; 0x87e466d5; 0x94b49521; 0x66df1622; 0x38cc2a06; 0xcaa7a905; 0xd9f75af1; 0x2b9cd9f2; 0xff56bd19; 0x0d3d3e1a; 0x1e6dcdee; 0xec064eed;
  0xc38d26c4; 0x31e6a5c7; 0x22b65633; 0xd0ddd530; 0x0417b1db; 0xf67c32d8; 0xe52cc12c; 0x1747422f; 0x49547e0b; 0xbb3ffd08; 0xa86f0efc; 0x5a048dff; 0x8ecee914; 0x7ca56a17; 0x6ff599e3; 0x9d9e1ae0;
  0xd3d3e1ab; 0x21b862a8; 0x32e8915c; 0xc083125f; 0x144976b4; 0xe622f5b7; 0xf5720643; 0x07198540; 0x590ab964; 0xab613a67; 0xb831c993; 0x4a5a4a90; 0x9e902e7b; 0x6cfbad78; 0x7fab5e8c; 0x8dc0dd8f;
  0xe330a81a; 0x115b2b19; 0x020bd8ed; 0xf0605bee; 0x24aa3f05; 0xd6c1bc06; 0xc5914ff2; 0x37faccf1; 0x69e9f0d5; 0x9b8273d6; 0x88d28022; 0x7ab90321; 0xae7367ca; 0x5c18e4c9; 0x4f48173d; 0xbd23943e;
  0xf36e6f75; 0x0105ec76; 0x12551f82; 0xe03e9c81; 0x34f4f86a; 0xc69f7b69; 0xd5cf889d; 0x27a40b9e; 0x79b737ba; 0x8bdcb4b9; 0x988c474d; 0x6ae7c44e; 0xbe2da0a5; 0x4c4623a6; 0x5f16d052; 0xad7d5351].

Definition kStrideExtensionTable0 : list Z := [
  0x00000000; 0x30d23865; 0x61a470ca; 0x517648af; 0xc348e194; 0xf39ad9f1; 0xa2ec915e; 0x923ea93b; 0x837db5d9; 0xb3af8dbc; 0xe2d9c513; 0xd20bfd76; 0x4035544d; 0x70e76c28; 0x21912487; 0x11431ce2;
  0x03171d43; 0x33c52526; 0x62b36d89; 0x526155ec; 0xc05ffcd7; 0xf08dc4b2; 0xa1fb8c1d; 0x9129b478; 0x806aa89a; 0xb0b890ff; 0xe1ced850; 0xd11ce035; 0x4322490e; 0x73f0716b; 0x228639c4; 0x125401a1;
  0x062e3a86; 0x36fc02e3; 0x678a4a4c; 0x57587229; 0xc566db12; 0xf5b4e377; 0xa4c2abd8; 0x941093bd; 0x85538f5f; 0xb581b73a; 0xe4f7ff95; 0xd425c7f0; 0x461b6ecb; 0x76c956ae; 0x27bf1e01; 0x176d2664;
  0x053927c5; 0x35eb1fa0; 0x649d570f; 0x544f6f6a; 0xc671c651; 0xf6a3fe34; 0xa7d5b69b; 0x97078efe; 0x8644921c; 0xb696aa79; 0xe7e0e2d6; 0xd732dab3; 0x450c7388; 0x75de4bed; 0x24a80342; 0x147a3b27;
  0x0c5c750c; 0x3c8e4d69; 0x6df805c6; 0x5d2a3da3; 0xcf149498; 0xffc6acfd; 0xaeb0e452; 0x9e62dc37; 0x8f21c0d5; 0xbff3f8b0; 0xee85b01f; 0xde57887a; 0x4c692141; 0x7cbb1924; 0x2dcd518b; 0x1d1f69ee;
  0x0f4b684f; 0x3f99502a; 0x6eef1885; 0x5e3d20e0; 0xcc0389db; 0xfcd1b1be; 0xada7f911; 0x9d75c174; 0x8c36dd96; 0xbce4e5f3; 0xed92ad5c; 0xdd409539; 0x4f7e3c02; 0x7fac0467; 0x2eda4cc8; 0x1e0874ad;
  0x0a724f8a; 0x3aa077ef; 0x6bd63f40; 0x5b040725; 0xc93aae1e; 0xf9e8967b; 0xa89eded4; 0x984ce6b1; 0x890ffa53; 0xb9ddc236; 0xe8ab8a99; 0xd879b2fc; 0x4a471bc7; 0x7a9523a2; 0x2be36b0d; 0x1b315368;
  0x096552c9; 0x39b76aac; 0x68c12203; 0x58131a66; 0xca2db35d; 0xfaff8b38; 0xab89c397; 0x9b5bfbf2; 0x8a18e710; 0xbacadf75; 0xebbc97da; 0xdb6eafbf; 0x49500684; 0x79823ee1; 0x28f4764e; 0x18264e2b;
  0x18b8ea18; 0x286ad27d; 0x791c9ad2; 0x49cea2b7; 0xdbf00b8c; 0xeb2233e9; 0xba547b46; 0x8a864323; 0x9bc55fc1; 0xab1767a4; 0xfa612f0b; 0xcab3176e; 0x588dbe55; 0x685f8630; 0x3929ce9f; 0x09fbf6fa;
  0x1baff75b; 0x2b7dcf3e; 0x7a0b8791; 0x4ad9bff4; 0xd8e716cf; 0xe8352eaa; 0xb9436605; 0x89915e60; 0x98d24282; 0xa8007ae7; 0xf9763248; 0xc9a40a2d; 0x5b9aa316; 0x6b489b73; 0x3a3ed3dc; 0x0aecebb9;
  0x1e96d09e; 0x2e44e8fb; 0x7f32a054; 0x4fe09831; 0xddde310a; 0xed0c096f; 0xbc7a41c0; 0x8ca879a5; 0x9deb6547; 0xad395d22; 0xfc4f158d; 0xcc9d2de8; 0x5ea384d3; 0x6e71bcb6; 0x3f07f419; 0x0fd5cc7c;
  0x1d81cddd; 0x2d53f5b8; 0x7c25bd17; 0x4cf78572; 0xdec92c49; 0xee1b142c; 0xbf6d5c83; 0x8fbf64e6; 0x9efc7804; 0xae2e4061; 0xff5808ce; 0xcf8a30ab; 0x5db49990; 0x6d66a1f5; 0x3c10e95a; 0x0cc2d13f;
  0x14e49f14; 0x2436a771; 0x7540efde; 0x4592d7bb; 0xd7ac7e80; 0xe77e46e5; 0xb6080e4a; 0x86da362f; 0x97992acd; 0xa74b12a8; 0xf63d5a07; 0xc6ef6262; 0x54d1cb59; 0x6403f33c; 0x3575bb93; 0x05a783f6;
  0x17f38257; 0x2721ba32; 0x7657f29d; 0x4685caf8; 0xd4bb63c3; 0xe4695ba6; 0xb51f1309; 0x85cd2b6c; 0x948e378e; 0xa45c0feb; 0xf52a4744; 0xc5f87f21; 0x57c6d61a; 0x6714ee7f; 0x3662a6d0; 0x06b09eb5;
  0x12caa592; 0x22189df7; 0x736ed558; 0x43bced3d; 0xd1824406; 0xe1507c63; 0xb02634cc; 0x80f40ca9; 0x91b7104b; 0xa165282e; 0xf0136081; 0xc0c158e4; 0x52fff1df; 0x622dc9ba; 0x335b8115; 0x0389b970;
  0x11ddb8d1; 0x210f80b4; 0x7079c81b; 0x40abf07e; 0xd2955945; 0xe2476120; 0xb331298f; 0x83e311ea; 0x92a00d08; 0xa272356d; 0xf3047dc2; 0xc3d645a7; 0x51e8ec9c; 0x613ad4f9; 0x304c9c56; 0x009ea433].

Definition kStrideExtensionTable1 : list Z := [
  0x00000000; 0x54075546; 0xa80eaa8c; 0xfc09ffca; 0x55f123e9; 0x01f676af; 0xfdff8965; 0xa9f8dc23; 0xabe247d2; 0xffe51294; 0x03eced5e; 0x57ebb818; 0xfe13643b; 0xaa14317d; 0x561dceb7; 0x021a9bf1;
  0x5228f955; 0x062fac13; 0xfa2653d9; 0xae21069f; 0x07d9dabc; 0x53de8ffa; 0xafd77030; 0xfbd02576; 0xf9cabe87; 0xadcdebc1; 0x51c4140b; 0x05c3414d; 0xac3b9d6e; 0xf83cc828; 0x043537e2; 0x503262a4;
  0xa451f2aa; 0xf056a7ec; 0x0c5f5826; 0x58580d60; 0xf1a0d143; 0xa5a78405; 0x59ae7bcf; 0x0da92e89; 0x0fb3b578; 0x5bb4e03e; 0xa7bd1ff4; 0xf3ba4ab2; 0x5a429691; 0x0e45c3d7; 0xf24c3c1d; 0xa64b695b;
  0xf6790bff; 0xa27e5eb9; 0x5e77a173; 0x0a70f435; 0xa3882816; 0xf78f7d50; 0x0b86829a; 0x5f81d7dc; 0x5d9b4c2d; 0x099c196b; 0xf595e6a1; 0xa192b3e7; 0x086a6fc4; 0x5c6d3a82; 0xa064c548; 0xf463900e;
  0x4d4f93a5; 0x1948c6e3; 0xe5413929; 0xb1466c6f; 0x18beb04c; 0x4cb9e50a; 0xb0b01ac0; 0xe4b74f86; 0xe6add477; 0xb2aa8131; 0x4ea37efb; 0x1aa42bbd; 0xb35cf79e; 0xe75ba2d8; 0x1b525d12; 0x4f550854;
  0x1f676af0; 0x4b603fb6; 0xb769c07c; 0xe36e953a; 0x4a964919; 0x1e911c5f; 0xe298e395; 0xb69fb6d3; 0xb4852d22; 0xe0827864; 0x1c8b87ae; 0x488cd2e8; 0xe1740ecb; 0xb5735b8d; 0x497aa447; 0x1d7df101;
  0xe91e610f; 0xbd193449; 0x4110cb83; 0x15179ec5; 0xbcef42e6; 0xe8e817a0; 0x14e1e86a; 0x40e6bd2c; 0x42fc26dd; 0x16fb739b; 0xeaf28c51; 0xbef5d917; 0x170d0534; 0x430a5072; 0xbf03afb8; 0xeb04fafe;
  0xbb36985a; 0xef31cd1c; 0x133832d6; 0x473f6790; 0xeec7bbb3; 0xbac0eef5; 0x46c9113f; 0x12ce4479; 0x10d4df88; 0x44d38ace; 0xb8da7504; 0xecdd2042; 0x4525fc61; 0x1122a927; 0xed2b56ed; 0xb92c03ab;
  0x9a9f274a; 0xce98720c; 0x32918dc6; 0x6696d880; 0xcf6e04a3; 0x9b6951e5; 0x6760ae2f; 0x3367fb69; 0x317d6098; 0x657a35de; 0x9973ca14; 0xcd749f52; 0x648c4371; 0x308b1637; 0xcc82e9fd; 0x9885bcbb;
  0xc8b7de1f; 0x9cb08b59; 0x60b97493; 0x34be21d5; 0x9d46fdf6; 0xc941a8b0; 0x3548577a; 0x614f023c; 0x635599cd; 0x3752cc8b; 0xcb5b3341; 0x9f5c6607; 0x36a4ba24; 0x62a3ef62; 0x9eaa10a8; 0xcaad45ee;
  0x3eced5e0; 0x6ac980a6; 0x96c07f6c; 0xc2c72a2a; 0x6b3ff609; 0x3f38a34f; 0xc3315c85; 0x973609c3; 0x952c9232; 0xc12bc774; 0x3d2238be; 0x69256df8; 0xc0ddb1db; 0x94dae49d; 0x68d31b57; 0x3cd44e11;
  0x6ce62cb5; 0x38e179f3; 0xc4e88639; 0x90efd37f; 0x39170f5c; 0x6d105a1a; 0x9119a5d0; 0xc51ef096; 0xc7046b67; 0x93033e21; 0x6f0ac1eb; 0x3b0d94ad; 0x92f5488e; 0xc6f21dc8; 0x3afbe202; 0x6efcb744;
  0xd7d0b4ef; 0x83d7e1a9; 0x7fde1e63; 0x2bd94b25; 0x82219706; 0xd626c240; 0x2a2f3d8a; 0x7e2868cc; 0x7c32f33d; 0x2835a67b; 0xd43c59b1; 0x803b0cf7; 0x29c3d0d4; 0x7dc48592; 0x81cd7a58; 0xd5ca2f1e;
  0x85f84dba; 0xd1ff18fc; 0x2df6e736; 0x79f1b270; 0xd0096e53; 0x840e3b15; 0x7807c4df; 0x2c009199; 0x2e1a0a68; 0x7a1d5f2e; 0x8614a0e4; 0xd213f5a2; 0x7beb2981; 0x2fec7cc7; 0xd3e5830d; 0x87e2d64b;
  0x73814645; 0x27861303; 0xdb8fecc9; 0x8f88b98f; 0x267065ac; 0x727730ea; 0x8e7ecf20; 0xda799a66; 0xd8630197; 0x8c6454d1; 0x706dab1b; 0x246afe5d; 0x8d92227e; 0xd9957738; 0x259c88f2; 0x719bddb4;
  0x21a9bf10; 0x75aeea56; 0x89a7159c; 0xdda040da; 0x74589cf9; 0x205fc9bf; 0xdc563675; 0x88516333; 0x8a4bf8c2; 0xde4cad84; 0x2245524e; 0x76420708; 0xdfbadb2b; 0x8bbd8e6d; 0x77b471a7; 0x23b324e1].

Definition kStrideExtensionTable2 : list Z := [
  0x00000000; 0x678efd01; 0xcf1dfa02; 0xa8930703; 0x9bd782f5; 0xfc597ff4; 0x54ca78f7; 0x334485f6; 0x3243731b; 0x55cd8e1a; 0xfd5e8919; 0x9ad07418; 0xa994f1ee; 0xce1a0cef; 0x66890bec; 0x0107f6ed;
  0x6486e636; 0x03081b37; 0xab9b1c34; 0xcc15e135; 0xff5164c3; 0x98df99c2; 0x304c9ec1; 0x57c263c0; 0x56c5952d; 0x314b682c; 0x99d86f2f; 0xfe56922e; 0xcd1217d8; 0xaa9cead9; 0x020fedda; 0x658110db;
  0xc90dcc6c; 0xae83316d; 0x0610366e; 0x619ecb6f; 0x52da4e99; 0x3554b398; 0x9dc7b49b; 0xfa49499a; 0xfb4ebf77; 0x9cc04276; 0x34534575; 0x53ddb874; 0x60993d82; 0x0717c083; 0xaf84c780; 0xc80a3a81;
  0xad8b2a5a; 0xca05d75b; 0x6296d058; 0x05182d59; 0x365ca8af; 0x51d255ae; 0xf94152ad; 0x9ecfafac; 0x9fc85941; 0xf846a440; 0x50d5a343; 0x375b5e42; 0x041fdbb4; 0x639126b5; 0xcb0221b6; 0xac8cdcb7;
  0x97f7ee29; 0xf0791328; 0x58ea142b; 0x3f64e92a; 0x0c206cdc; 0x6bae91dd; 0xc33d96de; 0xa4b36bdf; 0xa5b49d32; 0xc23a6033; 0x6aa96730; 0x0d279a31; 0x3e631fc7; 0x59ede2c6; 0xf17ee5c5; 0x96f018c4;
  0xf371081f; 0x94fff51e; 0x3c6cf21d; 0x5be20f1c; 0x68a68aea; 0x0f2877eb; 0xa7bb70e8; 0xc0358de9; 0xc1327b04; 0xa6bc8605; 0x0e2f8106; 0x69a17c07; 0x5ae5f9f1; 0x3d6b04f0; 0x95f803f3; 0xf276fef2;
  0x5efa2245; 0x3974df44; 0x91e7d847; 0xf6692546; 0xc52da0b0; 0xa2a35db1; 0x0a305ab2; 0x6dbea7b3; 0x6cb9515e; 0x0b37ac5f; 0xa3a4ab5c; 0xc42a565d; 0xf76ed3ab; 0x90e02eaa; 0x387329a9; 0x5ffdd4a8;
  0x3a7cc473; 0x5df23972; 0xf5613e71; 0x92efc370; 0xa1ab4686; 0xc625bb87; 0x6eb6bc84; 0x09384185; 0x083fb768; 0x6fb14a69; 0xc7224d6a; 0xa0acb06b; 0x93e8359d; 0xf466c89c; 0x5cf5cf9f; 0x3b7b329e;
  0x2a03aaa3; 0x4d8d57a2; 0xe51e50a1; 0x8290ada0; 0xb1d42856; 0xd65ad557; 0x7ec9d254; 0x19472f55; 0x1840d9b8; 0x7fce24b9; 0xd75d23ba; 0xb0d3debb; 0x83975b4d; 0xe419a64c; 0x4c8aa14f; 0x2b045c4e;
  0x4e854c95; 0x290bb194; 0x8198b697; 0xe6164b96; 0xd552ce60; 0xb2dc3361; 0x1a4f3462; 0x7dc1c963; 0x7cc63f8e; 0x1b48c28f; 0xb3dbc58c; 0xd455388d; 0xe711bd7b; 0x809f407a; 0x280c4779; 0x4f82ba78;
  0xe30e66cf; 0x84809bce; 0x2c139ccd; 0x4b9d61cc; 0x78d9e43a; 0x1f57193b; 0xb7c41e38; 0xd04ae339; 0xd14d15d4; 0xb6c3e8d5; 0x1e50efd6; 0x79de12d7; 0x4a9a9721; 0x2d146a20; 0x85876d23; 0xe2099022;
  0x878880f9; 0xe0067df8; 0x48957afb; 0x2f1b87fa; 0x1c5f020c; 0x7bd1ff0d; 0xd342f80e; 0xb4cc050f; 0xb5cbf3e2; 0xd2450ee3; 0x7ad609e0; 0x1d58f4e1; 0x2e1c7117; 0x49928c16; 0xe1018b15; 0x868f7614;
  0xbdf4448a; 0xda7ab98b; 0x72e9be88; 0x15674389; 0x2623c67f; 0x41ad3b7e; 0xe93e3c7d; 0x8eb0c17c; 0x8fb73791; 0xe839ca90; 0x40aacd93; 0x27243092; 0x1460b564; 0x73ee4865; 0xdb7d4f66; 0xbcf3b267;
  0xd972a2bc; 0xbefc5fbd; 0x166f58be; 0x71e1a5bf; 0x42a52049; 0x252bdd48; 0x8db8da4b; 0xea36274a; 0xeb31d1a7; 0x8cbf2ca6; 0x242c2ba5; 0x43a2d6a4; 0x70e65352; 0x1768ae53; 0xbffba950; 0xd8755451;
  0x74f988e6; 0x137775e7; 0xbbe472e4; 0xdc6a8fe5; 0xef2e0a13; 0x88a0f712; 0x2033f011; 0x47bd0d10; 0x46bafbfd; 0x213406fc; 0x89a701ff; 0xee29fcfe; 0xdd6d7908; 0xbae38409; 0x1270830a; 0x75fe7e0b;
  0x107f6ed0; 0x77f193d1; 0xdf6294d2; 0xb8ec69d3; 0x8ba8ec25; 0xec261124; 0x44b51627; 0x233beb26; 0x223c1dcb; 0x45b2e0ca; 0xed21e7c9; 0x8aaf1ac8; 0xb9eb9f3e; 0xde65623f; 0x76f6653c; 0x1178983d].

Definition kStrideExtensionTable3 : list Z := [
  0x00000000; 0xf20c0dfe; 0xe1f46d0d; 0x13f860f3; 0xc604aceb; 0x3408a115; 0x27f0c1e6; 0xd5fccc18; 0x89e52f27; 0x7be922d9; 0x6811422a; 0x9a1d4fd4; 0x4fe183cc; 0xbded8e32; 0xae15eec1; 0x5c19e33f;
  0x162628bf; 0xe42a2541; 0xf7d245b2; 0x05de484c; 0xd0228454; 0x222e89aa; 0x31d6e959; 0xc3dae4a7; 0x9fc30798; 0x6dcf0a66; 0x7e376a95; 0x8c3b676b; 0x59c7ab73; 0xabcba68d; 0xb833c67e; 0x4a3fcb80;
  0x2c4c517e; 0xde405c80; 0xcdb83c73; 0x3fb4318d; 0xea48fd95; 0x1844f06b; 0x0bbc9098; 0xf9b09d66; 0xa5a97e59; 0x57a573a7; 0x445d1354; 0xb6511eaa; 0x63add2b2; 0x91a1df4c; 0x8259bfbf; 0x7055b241;
  0x3a6a79c1; 0xc866743f; 0xdb9e14cc; 0x29921932; 0xfc6ed52a; 0x0e62d8d4; 0x1d9ab827; 0xef96b5d9; 0xb38f56e6; 0x41835b18; 0x527b3beb; 0xa0773615; 0x758bfa0d; 0x8787f7f3; 0x947f9700; 0x66739afe;
  0x5898a2fc; 0xaa94af02; 0xb96ccff1; 0x4b60c20f; 0x9e9c0e17; 0x6c9003e9; 0x7f68631a; 0x8d646ee4; 0xd17d8ddb; 0x23718025; 0x3089e0d6; 0xc285ed28; 0x17792130; 0xe5752cce; 0xf68d4c3d; 0x048141c3;
  0x4ebe8a43; 0xbcb287bd; 0xaf4ae74e; 0x5d46eab0; 0x88ba26a8; 0x7ab62b56; 0x694e4ba5; 0x9b42465b; 0xc75ba564; 0x3557a89a; 0x26afc869; 0xd4a3c597; 0x015f098f; 0xf3530471; 0xe0ab6482; 0x12a7697c;
  0x74d4f382; 0x86d8fe7c; 0x95209e8f; 0x672c9371; 0xb2d05f69; 0x40dc5297; 0x53243264; 0xa1283f9a; 0xfd31dca5; 0x0f3dd15b; 0x1cc5b1a8; 0xeec9bc56; 0x3b35704e; 0xc9397db0; 0xdac11d43; 0x28cd10bd;
  0x62f2db3d; 0x90fed6c3; 0x8306b630; 0x710abbce; 0xa4f677d6; 0x56fa7a28; 0x45021adb; 0xb70e1725; 0xeb17f41a; 0x191bf9e4; 0x0ae39917; 0xf8ef94e9; 0x2d1358f1; 0xdf1f550f; 0xcce735fc; 0x3eeb3802;
  0xb13145f8; 0x433d4806; 0x50c528f5; 0xa2c9250b; 0x7735e913; 0x8539e4ed; 0x96c1841e; 0x64cd89e0; 0x38d46adf; 0xcad86721; 0xd92007d2; 0x2b2c0a2c; 0xfed0c634; 0x0cdccbca; 0x1f24ab39; 0xed28a6c7;
  0xa7176d47; 0x551b60b9; 0x46e3004a; 0xb4ef0db4; 0x6113c1ac; 0x931fcc52; 0x80e7aca1; 0x72eba15f; 0x2ef24260; 0xdcfe4f9e; 0xcf062f6d; 0x3d0a2293; 0xe8f6ee8b; 0x1afae375; 0x09028386; 0xfb0e8e78;
  0x9d7d1486; 0x6f711978; 0x7c89798b; 0x8e857475; 0x5b79b86d; 0xa975b593; 0xba8dd560; 0x4881d89e; 0x14983ba1; 0xe694365f; 0xf56c56ac; 0x07605b52; 0xd29c974a; 0x20909ab4; 0x3368fa47; 0xc164f7b9;
  0x8b5b3c39; 0x795731c7; 0x6aaf5134; 0x98a35cca; 0x4d5f90d2; 0xbf539d2c; 0xacabfddf; 0x5ea7f021; 0x02be131e; 0xf0b21ee0; 0xe34a7e13; 0x114673ed; 0xc4babff5; 0x36b6b20b; 0x254ed2f8; 0xd742df06;
  0xe9a9e704; 0x1ba5eafa; 0x085d8a09; 0xfa5187f7; 0x2fad4bef; 0xdda14611; 0xce5926e2; 0x3c552b1c; 0x604cc823; 0x9240c5dd; 0x81b8a52e; 0x73b4a8d0; 0xa64864c8; 0x54446936; 0x47bc09c5; 0xb5b0043b;
  0xff8fcfbb; 0x0d83c245; 0x1e7ba2b6; 0xec77af48; 0x398b6350; 0xcb876eae; 0xd87f0e5d; 0x2a7303a3; 0x766ae09c; 0x8466ed62; 0x979e8d91; 0x6592806f; 0xb06e4c77; 0x42624189; 0x519a217a; 0xa3962c84;
  0xc5e5b67a; 0x37e9bb84; 0x2411db77; 0xd61dd689; 0x03e11a91; 0xf1ed176f; 0xe215779c; 0x10197a62; 0x4c00995d; 0xbe0c94a3; 0xadf4f450; 0x5ff8f9ae; 0x8a0435b6; 0x78083848; 0x6bf058bb; 0x99fc5545;
  0xd3c39ec5; 0x21cf933b; 0x3237f3c8; 0xc03bfe36; 0x15c7322e; 0xe7cb3fd0; 0xf4335f23; 0x063f52dd; 0x5a26b1e2; 0xa82abc1c; 0xbbd2dcef; 0x49ded111; 0x9c221d09; 0x6e2e10f7; 0x7dd67004; 0x8fda7dfa].

(** ** The running checksum *)

Definition kCRC32Xor : Z := 0xffffffff.
Definition ReadUint32LE (buffer : list Z) : Z := DecodeFixed32 buffer.
Definition RoundUp (N pointer : Z) : Z := u64 (pointer + (N - 1)) .& u64 (Z.lnot (N - 1)).

Definition AcceleratedCRC32C (crc : Z) (buf : list Z) : Z := 0.
Definition kTestCRCBuffer : list Z := [84; 101; 115; 116; 67; 82; 67; 66; 117; 102; 102; 101; 114].
Definition CanAccelerateCRC32C : bool := AcceleratedCRC32C 0 kTestCRCBuffer =? 0xdcbc59fa.

Definition STEP1 (l b : Z) : Z := let c := (l .& 0xff) .^ b in znth 0 kByteExtensionTable c .^ (l ≫ 8).

Definition STEP4 (s crc : Z) (p : list Z) : Z :=
  ReadUint32LE (zdrop (s * 4) p) .^ znth 0 kStrideExtensionTable3 (crc .& 0xff) .^
  znth 0 kStrideExtensionTable2 ((crc ≫ 8) .& 0xff) .^ znth 0 kStrideExtensionTable1 ((crc ≫ 16) .& 0xff) .^
  znth 0 kStrideExtensionTable0 (crc ≫ 24).

(** The four partial results, [crc0] to [crc3]. *)
Definition strides : Type := Z * Z * Z * Z.

Definition STEP16 (c : strides) (p : list Z) : strides :=
  let '(crc0, crc1, crc2, crc3) := c in (STEP4 0 crc0 p, STEP4 1 crc1 p, STEP4 2 crc2 p, STEP4 3 crc3 p).

(** The four rounds of [STEP4W]; the result is the new [l]. *)
Definition STEP4W (w l : Z) : Z := Nat.iter 4 (fun w => (w ≫ 8) .^ znth 0 kByteExtensionTable (w .& 0xff)) (w .^ l).

(** The loop up to the aligned address [x]. *)
Fixpoint align_loop (x p l : Z) (data : list Z) : Z * list Z :=
  if p =? x then (l, data)
  else match data with
       | [] => (l, data)
       | b :: data => align_loop x (p + 1) (STEP1 l b) data
       end.

(** [while ((e - p) >= 16)] and [while ((e - p) >= 4)]; the length bounds the rounds. *)
Fixpoint swath_loop (fuel : nat) (c : strides) (p : list Z) : strides * list Z :=
  match fuel with
  | O => (c, p)
  | S fuel => if zlen p >=? 16 then swath_loop fuel (STEP16 c p) (zdrop 16 p) else (c, p)
  end.
Fixpoint word_loop (fuel : nat) (c : strides) (p : list Z) : strides * list Z :=
  match fuel with
  | O => (c, p)
  | S fuel =>
      if zlen p >=? 4 then
        let '(crc0, crc1, crc2, crc3) := c in word_loop fuel (crc1, crc2, crc3, STEP4 0 crc0 p) (zdrop 4 p)
      else (c, p)
  end.

(** [data] is at address [p]. *)
Definition Extend (crc p : Z) (data : list Z) : Z :=
  if CanAccelerateCRC32C then AcceleratedCRC32C crc data
  else
    let l := crc .^ kCRC32Xor in
    let x := RoundUp 4 p in
    let '(l, data) := if x <=? p + zlen data then align_loop x p l data else (l, data) in
    let '(l, data) :=
      if zlen data >=? 16 then
        let crc0 := ReadUint32LE data .^ l in
        let crc1 := ReadUint32LE (zdrop 4 data) in
        let crc2 := ReadUint32LE (zdrop 8 data) in
        let crc3 := ReadUint32LE (zdrop 12 data) in
        let data := zdrop 16 data in
        let '(c, data) := swath_loop (length data) (crc0, crc1, crc2, crc3) data in
        let '(c, data) := word_loop (length data) c data in
        let '(crc0, crc1, crc2, crc3) := c in
        (STEP4W crc3 (STEP4W crc2 (STEP4W crc1 (STEP4W crc0 0))), data)
      else (l, data) in
    fold_left STEP1 data l .^ kCRC32Xor.

Definition Value (p : Z) (data : list Z) : Z := Extend 0 p data.

(** ** Checksums that are stored *)

Definition kMaskDelta : Z := 0xa282ead8.
Definition Mask (crc : Z) : Z := u32 (((crc ≫ 15) .| u32 (crc ≪ 17)) + kMaskDelta).
Definition Unmask (masked_crc : Z) : Z := let rot := u32 (masked_crc - kMaskDelta) in (rot ≫ 17) .| u32 (rot ≪ 15).

(** * Correctness

    The reference is the shift register, one bit at a time. Its step is linear, so that
    the register after some bytes is the register of their number; the tables, the
    aligned words and the four strides of the code are instances of that. *)

(** ** The reference *)

(** One bit through the register of the reflected polynomial [0x1EDC6F41]. *)
Definition crc_bit (x : Z) : Z := (x ≫ 1) .^ (if Z.odd x then 0x82f63b78 else 0).
Fixpoint crc_bits (n : nat) (x : Z) : Z := match n with O => x | S n => crc_bits n (crc_bit x) end.
Definition crc_byte (l b : Z) : Z := crc_bits 8 (l .^ b).
Definition crc_register (l : Z) (data : list Z) : Z := fold_left crc_byte data l.

(** The checksum of [data] after that of the bytes before it. *)
Definition crc32c (crc : Z) (data : list Z) : Z := crc_register (crc .^ 0xffffffff) data .^ 0xffffffff.

(** ** The register is linear *)

Lemma crc_bit_lxor x y : crc_bit (x .^ y) = crc_bit x .^ crc_bit y.
Proof.
  unfold crc_bit. rewrite Z.shiftr_lxor. replace (Z.odd (x .^ y)) with (xorb (Z.odd x) (Z.odd y)).
  2: { rewrite <- !Z.bit0_odd. by rewrite Z.lxor_spec. }
  set (a := x ≫ 1). set (b := y ≫ 1). destruct (Z.odd x), (Z.odd y); cbn [xorb]; apply Z.bits_inj'; intros i Hi; rewrite !Z.lxor_spec, ?Z.bits_0;
    destruct (Z.testbit a i), (Z.testbit b i), (Z.testbit 0x82f63b78 i); done.
Qed.

Lemma crc_bits_lxor n x y : crc_bits n (x .^ y) = crc_bits n x .^ crc_bits n y.
Proof. revert x y. induction n as [|n IH]; intros x y; [done|]. cbn [crc_bits]. by rewrite crc_bit_lxor, IH. Qed.

Lemma crc_bits_S n x : crc_bits (S n) x = crc_bits n (crc_bit x).
Proof. reflexivity. Qed.

Lemma crc_bits_add n m x : crc_bits (n + m) x = crc_bits n (crc_bits m x).
Proof.
  rewrite Nat.add_comm. revert x. induction m as [|m IH]; intros x; [done|]. change (S m + n)%nat with (S (m + n)). by rewrite !crc_bits_S, IH.
Qed.

Lemma crc_bits_0 n : crc_bits n 0 = 0.
Proof. induction n as [|n IH]; [done|]. by rewrite crc_bits_S. Qed.

Lemma crc_bits_shift n x : crc_bits n (x ≪ Z.of_nat n) = x.
Proof.
  induction n as [|n IH]; [apply Z.shiftl_0_r|]. rewrite crc_bits_S. rewrite Nat2Z.inj_succ, <- Z.add_1_r, <- Z.shiftl_shiftl by lia.
  unfold crc_bit. rewrite Z.shiftr_shiftl_l by lia. rewrite Z.sub_diag, Z.shiftl_0_r. rewrite <- Z.bit0_odd, Z.shiftl_spec_low by lia.
  by rewrite Z.lxor_0_r.
Qed.

Lemma crc_bits_shift_eq n k x : k = Z.of_nat n -> crc_bits n (x ≪ k) = x.
Proof. intros ->. apply crc_bits_shift. Qed.

Lemma crc_bits_shift_le n m x : (m <= n)%nat -> crc_bits n (x ≪ Z.of_nat m) = crc_bits (n - m) x.
Proof. intros Hm. replace n with ((n - m) + m)%nat at 1 by lia. by rewrite crc_bits_add, crc_bits_shift. Qed.

Lemma crc_bit_word x : is_word x -> is_word (crc_bit x).
Proof.
  intros Hx. unfold crc_bit. apply lxor_word; [|by destruct (Z.odd x)]. unfold is_word in *. rewrite Z.shiftr_div_pow2 by lia. change (2 ^ 1) with 2. dlia.
Qed.

Lemma crc_bits_word n x : is_word x -> is_word (crc_bits n x).
Proof. revert x. induction n as [|n IH]; intros x Hx; [done|]. cbn [crc_bits]. by apply IH, crc_bit_word. Qed.

(** Nothing but 0 leaves the register empty: the polynomial's top bit comes back with
    every 1 that is shifted out. *)
Lemma crc_bit_zero x : is_word x -> crc_bit x = 0 -> x = 0.
Proof.
  intros Hx E. unfold crc_bit in E. apply Z.lxor_eq in E. unfold is_word in Hx. rewrite Z.shiftr_div_pow2 in E by lia. change (2 ^ 1) with 2 in E.
  destruct (Z.odd x) eqn:Ho; [clear Ho; dlia|]. pose proof (Z.div_mod x 2 ltac:(lia)) as D. rewrite Zmod_odd, Ho in D. lia.
Qed.

Lemma crc_bits_zero n x : is_word x -> crc_bits n x = 0 -> x = 0.
Proof.
  revert x. induction n as [|n IH]; intros x Hx; [done|]. rewrite crc_bits_S. intros E. apply crc_bit_zero; [done|]. apply IH; [by apply crc_bit_word|done].
Qed.

(** ** The register after some bytes is that of their number *)

Lemma add_shift_lxor n b h : 0 <= n -> 0 <= b < 2 ^ n -> b + 2 ^ n * h = b .^ (h ≪ n).
Proof.
  intros Hn Hb. apply Z.bits_inj'. intros i Hi. rewrite Z.lxor_spec. replace (b + 2 ^ n * h) with (h * 2 ^ n + b) by lia.
  rewrite testbit_split by done. destruct (Z.ltb_spec i n).
  - rewrite Z.shiftl_spec_low by done. by rewrite xorb_false_r.
  - rewrite (bits_high n b), Z.shiftl_spec by done. done.
Qed.

Lemma crc_register_cons l b data : crc_register l (b :: data) = crc_register (crc_byte l b) data.
Proof. reflexivity. Qed.

Lemma crc_byte_value l b v : is_byte b -> crc_byte l b .^ v = crc_bits 8 (l .^ (b + 256 * v)).
Proof.
  intros Hb. unfold is_byte in Hb. change 256 with (2 ^ 8). rewrite add_shift_lxor by lia. rewrite <- Z.lxor_assoc, crc_bits_lxor. f_equal.
  symmetry. by apply crc_bits_shift_eq.
Qed.

Lemma crc_register_value l data : bytes_ok data -> crc_register l data = crc_bits (8 * length data) (l .^ le_value data).
Proof.
  revert l. induction data as [|b data IH]; intros l Hok; [by rewrite Z.lxor_0_r|]. apply Forall_cons_1 in Hok as [Hb Hok]. unfold is_byte in Hb.
  rewrite crc_register_cons, IH by done. rewrite le_value_cons, crc_byte_value by done. rewrite <- crc_bits_add. f_equal. cbn [length]. lia.
Qed.

Lemma crc_register_app l x y : crc_register l (x ++ y) = crc_register (crc_register l x) y.
Proof. apply fold_left_app. Qed.

(** ** The tables *)

Definition table_ok (t : list Z) (n : nat) (k : Z) : bool := forallb (fun c => znth 0 t c =? crc_bits n (c ≪ k)) (upto 0 256).

Lemma table_spec t n k c : table_ok t n k = true -> 0 <= c < 256 -> znth 0 t c = crc_bits n (c ≪ k).
Proof.
  unfold table_ok, upto. rewrite forallb_forall. intros H Hc. apply Z.eqb_eq, H. apply in_map_iff. exists (Z.to_nat c). split; [lia|].
  apply in_seq. lia.
Qed.

Lemma byte_table_ok : table_ok kByteExtensionTable 8 0 = true.
Proof. vm_cast_no_check (eq_refl true). Qed.
Lemma stride_table3_ok : table_ok kStrideExtensionTable3 128 0 = true.
Proof. vm_cast_no_check (eq_refl true). Qed.
Lemma stride_table2_ok : table_ok kStrideExtensionTable2 128 8 = true.
Proof. vm_cast_no_check (eq_refl true). Qed.
Lemma stride_table1_ok : table_ok kStrideExtensionTable1 128 16 = true.
Proof. vm_cast_no_check (eq_refl true). Qed.
Lemma stride_table0_ok : table_ok kStrideExtensionTable0 128 24 = true.
Proof. vm_cast_no_check (eq_refl true). Qed.

Lemma byte_table c : 0 <= c < 256 -> znth 0 kByteExtensionTable c = crc_bits 8 c.
Proof. intros Hc. rewrite (table_spec _ _ _ _ byte_table_ok Hc). by rewrite Z.shiftl_0_r. Qed.

Lemma stride_tables c : 0 <= c < 256 ->
  znth 0 kStrideExtensionTable3 c = crc_bits 128 c /\ znth 0 kStrideExtensionTable2 c = crc_bits 128 (c ≪ 8) /\
  znth 0 kStrideExtensionTable1 c = crc_bits 128 (c ≪ 16) /\ znth 0 kStrideExtensionTable0 c = crc_bits 128 (c ≪ 24).
Proof.
  intros Hc. rewrite (table_spec _ _ _ _ stride_table3_ok Hc), Z.shiftl_0_r. split; [reflexivity|].
  split; [apply (table_spec _ _ _ _ stride_table2_ok Hc)|]. split; [apply (table_spec _ _ _ _ stride_table1_ok Hc)|].
  apply (table_spec _ _ _ _ stride_table0_ok Hc).
Qed.

(** ** The steps of the code *)

(** A number by its lowest byte and the rest. *)
Lemma low_high c : 0 <= c -> c = (c .& 0xff) .^ ((c ≫ 8) ≪ 8).
Proof.
  intros Hc. change 0xff with (2 ^ 8 - 1). rewrite land_ones_mod, <- add_shift_lxor by (lia || apply Z.mod_pos_bound; lia).
  rewrite Z.shiftr_div_pow2 by lia. pose proof (Z.div_mod c (2 ^ 8) ltac:(lia)). lia.
Qed.

Lemma low_byte c : 0 <= c .& 0xff < 256.
Proof. change 0xff with (2 ^ 8 - 1). rewrite land_ones_mod by lia. apply Z.mod_pos_bound. lia. Qed.

Lemma table_step c : 0 <= c -> znth 0 kByteExtensionTable (c .& 0xff) .^ (c ≫ 8) = crc_bits 8 c.
Proof.
  intros Hc. rewrite byte_table by apply low_byte. rewrite (low_high c Hc) at 3. by rewrite crc_bits_lxor, (crc_bits_shift_eq 8 8 _ eq_refl).
Qed.

Lemma STEP1_byte l b : 0 <= l -> is_byte b -> STEP1 l b = crc_byte l b.
Proof.
  intros Hl Hb. unfold STEP1, crc_byte. rewrite <- table_step by (apply Z.lxor_nonneg; unfold is_byte in Hb; lia). cbv zeta. f_equal.
  - f_equal. apply Z.bits_inj'. intros i Hi. rewrite !Z.land_spec, !Z.lxor_spec, !Z.land_spec. destruct (Z.ltb_spec i 8).
    + change 0xff with (Z.ones 8). rewrite Z.ones_spec_low by lia. by rewrite !andb_true_r.
    + rewrite (bits_high 8 b), (bits_high 8 0xff), !andb_false_r by (unfold is_byte in Hb; lia). done.
  - rewrite Z.shiftr_lxor, (Z.shiftr_div_pow2 b), Z.div_small, Z.lxor_0_r by (unfold is_byte in Hb; change (2 ^ 8) with 256; lia). done.
Qed.

Lemma crc_byte_word l b : is_word l -> is_byte b -> is_word (crc_byte l b).
Proof. intros Hl Hb. unfold crc_byte. apply crc_bits_word, lxor_word; [done|]. unfold is_byte, is_word in *. lia. Qed.

Lemma crc_register_word l data : is_word l -> bytes_ok data -> is_word (crc_register l data).
Proof.
  revert l. induction data as [|b data IH]; intros l Hl Hok; [done|]. apply Forall_cons_1 in Hok as [Hb Hok]. unfold crc_register. cbn [fold_left].
  apply IH; [by apply crc_byte_word|done].
Qed.

Lemma STEP1_bytes l data : is_word l -> bytes_ok data -> fold_left STEP1 data l = crc_register l data.
Proof.
  revert l. induction data as [|b data IH]; intros l Hl Hok; [done|]. apply Forall_cons_1 in Hok as [Hb Hok]. cbn [fold_left].
  rewrite STEP1_byte by (done || unfold is_word in Hl; lia). rewrite IH; [reflexivity|by apply crc_byte_word|done].
Qed.

(** A word of four bytes in the register. *)
Definition stride_step (w c : Z) : Z := w .^ crc_bits 128 c.

Lemma STEP4_step s c p : is_word c -> STEP4 s c p = stride_step (ReadUint32LE (zdrop (s * 4) p)) c.
Proof.
  intros Hc. unfold STEP4, stride_step. unfold is_word in Hc. set (w := ReadUint32LE _). clearbody w.
  destruct (stride_tables (c .& 0xff) (low_byte _)) as (-> & _ & _ & _). destruct (stride_tables ((c ≫ 8) .& 0xff) (low_byte _)) as (_ & -> & _ & _).
  destruct (stride_tables ((c ≫ 16) .& 0xff) (low_byte _)) as (_ & _ & -> & _). destruct (stride_tables (c ≫ 24)) as (_ & _ & _ & ->).
  { rewrite Z.shiftr_div_pow2 by lia. change (2 ^ 24) with 16777216. dlia. }
  rewrite !Z.lxor_assoc. f_equal. rewrite <- !crc_bits_lxor. f_equal. symmetry.
  assert (Hsh : forall n, 0 <= n -> 0 <= c ≫ n) by (intros n Hn; apply Z.shiftr_nonneg; lia).
  rewrite (low_high c) at 1 by lia. rewrite (low_high (c ≫ 8)) at 1 by (apply Hsh; lia). rewrite Z.shiftr_shiftr by lia. change (8 + 8) with 16.
  rewrite (low_high (c ≫ 16)) at 1 by (apply Hsh; lia). rewrite Z.shiftr_shiftr by lia. change (16 + 8) with 24.
  rewrite !Z.shiftl_lxor, !Z.shiftl_shiftl by lia. done.
Qed.

Lemma STEP4W_step w l : is_word w -> is_word l -> STEP4W w l = crc_bits 32 (w .^ l).
Proof.
  intros Hw Hl. unfold STEP4W. assert (Hx : is_word (w .^ l)) by by apply lxor_word. revert Hx. generalize (w .^ l) as x. clear. intros x Hx.
  change 32%nat with (8 + (8 + (8 + 8)))%nat. rewrite !crc_bits_add.
  set (f := fun w => _). assert (E : forall y, is_word y -> f y = crc_bits 8 y).
  { intros y Hy. unfold f. rewrite Z.lxor_comm. apply table_step. unfold is_word in Hy. lia. }
  change (Nat.iter 4 f x) with (f (f (f (f x)))). clearbody f. rewrite (E x Hx), (E (crc_bits 8 x)), (E (crc_bits 8 (crc_bits 8 x))), E by by repeat apply crc_bits_word. done.
Qed.

(** ** Strides *)

(** Equality of exclusive ors up to order. *)
Ltac xor_same := apply Z.bits_inj'; intros; rewrite !Z.lxor_spec; btauto.

(** Join the shifts of the register. *)
Ltac join_bits :=
  rewrite !crc_bits_lxor, ?crc_bits_0; rewrite <- ?crc_bits_add;
  repeat match goal with |- context [crc_bits (?a + ?b) _] => let k := eval vm_compute in (a + b)%nat in change (a + b)%nat with k end;
  xor_same.

(** The register that four partial results stand for. *)
Definition strided (c : strides) : Z :=
  let '(c0, c1, c2, c3) := c in crc_bits 128 c0 .^ crc_bits 96 c1 .^ crc_bits 64 c2 .^ crc_bits 32 c3.
Definition strides_ok (c : strides) : Prop := let '(c0, c1, c2, c3) := c in is_word c0 /\ is_word c1 /\ is_word c2 /\ is_word c3.

Lemma strides_intro c0 c1 c2 c3 : is_word c0 -> is_word c1 -> is_word c2 -> is_word c3 -> strides_ok (c0, c1, c2, c3).
Proof. intros H0 H1 H2 H3. exact (conj H0 (conj H1 (conj H2 H3))). Qed.

Lemma crc_register_word4 l w : length w = 4%nat -> bytes_ok w -> crc_register l w = crc_bits 32 (l .^ le_value w).
Proof. intros Hl Hok. rewrite crc_register_value by done. by rewrite Hl. Qed.

Lemma ReadUint32LE_word w rest : length w = 4%nat -> bytes_ok w -> ReadUint32LE (w ++ rest) = le_value w /\ is_word (le_value w).
Proof.
  intros Hl Hok. split; [by apply DecodeFixed32_le|]. unfold is_word, le_value. pose proof (be_value_bound (rev w)) as H.
  unfold zlen in H. rewrite length_rev, Hl in H. apply H. by apply Forall_rev.
Qed.

(** Four words at once. *)
Lemma four_words R v0 v1 v2 v3 :
  crc_bits 32 (crc_bits 32 (crc_bits 32 (crc_bits 32 (R .^ v0) .^ v1) .^ v2) .^ v3) = crc_bits 128 R .^ strided (v0, v1, v2, v3).
Proof.
  unfold strided. join_bits.
Qed.

Lemma swath_word (w0 w1 w2 w3 rest : list Z) : length w0 = 4%nat -> length w1 = 4%nat -> length w2 = 4%nat -> length w3 = 4%nat ->
  let p := w0 ++ w1 ++ w2 ++ w3 ++ rest in
  zdrop 4 p = w1 ++ w2 ++ w3 ++ rest /\ zdrop 8 p = w2 ++ w3 ++ rest /\ zdrop 12 p = w3 ++ rest /\ zdrop 16 p = rest.
Proof.
  intros (a & b & c & d & ->)%length_4 (e & f & g & h & ->)%length_4 (i & j & k & l & ->)%length_4 (m & n & o & q & ->)%length_4. done.
Qed.

Lemma split_word (p : list Z) : 4 <= zlen p -> bytes_ok p -> exists w rest, p = w ++ rest /\ length w = 4%nat /\ bytes_ok w /\ bytes_ok rest.
Proof.
  intros Hl Hok. destruct (zsplit 4 p) as (w & rest & -> & Hw); [lia|]. apply Forall_app in Hok as [H1 H2].
  exists w, rest. split; [done|]. split; [unfold zlen in Hw; lia|done].
Qed.

Lemma split_swath (p : list Z) : 16 <= zlen p -> bytes_ok p -> exists w0 w1 w2 w3 rest, p = w0 ++ w1 ++ w2 ++ w3 ++ rest /\
  (length w0 = 4%nat /\ length w1 = 4%nat /\ length w2 = 4%nat /\ length w3 = 4%nat) /\
  (bytes_ok w0 /\ bytes_ok w1 /\ bytes_ok w2 /\ bytes_ok w3) /\ bytes_ok rest.
Proof.
  intros Hl Hok. destruct (split_word p) as (w0 & p1 & -> & H0 & Hw0 & Hok1); [lia|done|]. rewrite zlen_app in Hl. unfold zlen in Hl at 1. rewrite H0 in Hl.
  destruct (split_word p1) as (w1 & p2 & -> & H1 & Hw1 & Hok2); [lia|done|]. rewrite zlen_app in Hl. unfold zlen in Hl at 1. rewrite H1 in Hl.
  destruct (split_word p2) as (w2 & p3 & -> & H2 & Hw2 & Hok3); [lia|done|]. rewrite zlen_app in Hl. unfold zlen in Hl at 1. rewrite H2 in Hl.
  destruct (split_word p3) as (w3 & p4 & -> & H3 & Hw3 & Hok4); [lia|done|].
  exists w0, w1, w2, w3, p4. done.
Qed.

Lemma stride_step_word w c : is_word w -> is_word c -> is_word (stride_step w c).
Proof. intros Hw Hc. apply lxor_word; [done|]. by apply crc_bits_word. Qed.

(** [STEP16] is sixteen bytes through the register. *)
Lemma STEP16_strided c p : strides_ok c -> 16 <= zlen p -> bytes_ok p ->
  strides_ok (STEP16 c p) /\ strided (STEP16 c p) = crc_register (strided c) (ztake 16 p) /\ bytes_ok (zdrop 16 p).
Proof.
  destruct c as [[[c0 c1] c2] c3]. intros (Hc0 & Hc1 & Hc2 & Hc3) Hl Hok.
  destruct (split_swath p Hl Hok) as (w0 & w1 & w2 & w3 & rest & -> & (L0 & L1 & L2 & L3) & (B0 & B1 & B2 & B3) & Br).
  destruct (swath_word w0 w1 w2 w3 rest L0 L1 L2 L3) as (D1 & D2 & D3 & D4). unfold STEP16. rewrite !STEP4_step by done.
  change (0 * 4) with 0. change (1 * 4) with 4. change (2 * 4) with 8. change (3 * 4) with 12. rewrite D1, D2, D3, D4, zdrop_0.
  destruct (ReadUint32LE_word w0 (w1 ++ w2 ++ w3 ++ rest) L0 B0) as [-> W0]. destruct (ReadUint32LE_word w1 (w2 ++ w3 ++ rest) L1 B1) as [-> W1].
  destruct (ReadUint32LE_word w2 (w3 ++ rest) L2 B2) as [-> W2]. destruct (ReadUint32LE_word w3 rest L3 B3) as [-> W3].
  split; [by apply strides_intro; apply stride_step_word|]. split; [|done].
  replace (ztake 16 (w0 ++ w1 ++ w2 ++ w3 ++ rest)) with (w0 ++ w1 ++ w2 ++ w3).
  2: { rewrite !(app_assoc w0), !(app_assoc (w0 ++ w1)), !(app_assoc ((w0 ++ w1) ++ w2)). rewrite ztake_app; [done|]. unfold zlen. rewrite !length_app. lia. }
  rewrite !crc_register_app, !crc_register_word4, four_words by done. unfold strided, stride_step. join_bits.
Qed.

Lemma swath_loop_strided fuel c p : strides_ok c -> bytes_ok p -> exists x, let '(c', p') := swath_loop fuel c p in
  p = x ++ p' /\ strides_ok c' /\ strided c' = crc_register (strided c) x /\ bytes_ok p'.
Proof.
  revert c p. induction fuel as [|fuel IH]; intros c p Hc Hok; [by exists []|]. cbn [swath_loop]. rewrite Z.geb_leb.
  destruct (Z.leb_spec 16 (zlen p)); [|by exists []]. destruct (STEP16_strided c p Hc) as (Hc' & E & Hok'); [done..|].
  destruct (IH _ _ Hc' Hok') as [x Hx]. exists (ztake 16 p ++ x). destruct (swath_loop fuel _ _) as [c'' p'']. destruct Hx as (Hp & Hs & Ec & Hok'').
  split; [by rewrite <- app_assoc, <- Hp, ztake_zdrop|]. split; [done|]. split; [by rewrite Ec, E, crc_register_app|done].
Qed.

Lemma word_loop_strided fuel c p : strides_ok c -> bytes_ok p -> exists x, let '(c', p') := word_loop fuel c p in
  p = x ++ p' /\ strides_ok c' /\ strided c' = crc_register (strided c) x /\ bytes_ok p'.
Proof.
  revert c p. induction fuel as [|fuel IH]; intros c p Hc Hok; [by exists []|]. cbn [word_loop]. rewrite Z.geb_leb.
  destruct (Z.leb_spec 4 (zlen p)); [|by exists []]. destruct c as [[[c0 c1] c2] c3]. destruct Hc as (Hc0 & Hc1 & Hc2 & Hc3).
  destruct (split_word p) as (w & rest & -> & Hw & Bw & Br); [done..|]. rewrite STEP4_step by done. change (0 * 4) with 0. rewrite zdrop_0.
  destruct (ReadUint32LE_word w rest Hw Bw) as [-> Hv]. rewrite zdrop_app by (unfold zlen; lia).
  destruct (IH (c1, c2, c3, stride_step (le_value w) c0) rest) as [x Hx]; [|done|]. { apply strides_intro; [done..|]. by apply stride_step_word. }
  exists (w ++ x). destruct (word_loop fuel _ _) as [c'' p'']. destruct Hx as (-> & Hs & -> & Hok''). split; [by rewrite app_assoc|].
  split; [done|]. split; [|done]. rewrite crc_register_app, (crc_register_word4 _ w) by done. f_equal. unfold strided, stride_step. join_bits.
Qed.

Lemma STEP4W_word w l : is_word w -> is_word l -> is_word (STEP4W w l).
Proof. intros Hw Hl. rewrite STEP4W_step by done. by apply crc_bits_word, lxor_word. Qed.

Lemma combine_strided c0 c1 c2 c3 : strides_ok (c0, c1, c2, c3) ->
  STEP4W c3 (STEP4W c2 (STEP4W c1 (STEP4W c0 0))) = strided (c0, c1, c2, c3).
Proof.
  intros (H0 & H1 & H2 & H3). assert (Hz : is_word 0) by (unfold is_word; lia).
  pose proof (STEP4W_word c0 0 H0 Hz) as W0. pose proof (STEP4W_word c1 _ H1 W0) as W1. pose proof (STEP4W_word c2 _ H2 W1) as W2.
  rewrite (STEP4W_step c3 _ H3 W2), (STEP4W_step c2 _ H2 W1), (STEP4W_step c1 _ H1 W0), (STEP4W_step c0 _ H0 Hz), Z.lxor_0_r.
  unfold strided. join_bits.
Qed.

(** ** The checksum *)

Lemma align_loop_bytes x p l data : is_word l -> bytes_ok data -> p <= x -> x <= p + zlen data ->
  exists d, let '(l', data') := align_loop x p l data in data = d ++ data' /\ l' = crc_register l d.
Proof.
  revert p l. induction data as [|b data IH]; intros p l Hl Hok Hp Hx; cbn [align_loop].
  - destruct (p =? x); by exists [].
  - destruct (Z.eqb_spec p x); [by exists []|]. apply Forall_cons_1 in Hok as [Hb Hok]. rewrite zlen_cons in Hx.
    rewrite STEP1_byte by (done || unfold is_word in Hl; lia). destruct (IH (p + 1) (crc_byte l b)) as [d Hd]; [by apply crc_byte_word|done|lia|lia|].
    exists (b :: d). destruct (align_loop x _ _ _) as [l' data']. destruct Hd as [-> ->]. done.
Qed.

Lemma RoundUp_spec p : 0 <= p -> p + 3 < 2 ^ 64 -> p <= RoundUp 4 p < p + 4.
Proof.
  intros Hp Hh. unfold RoundUp. change (4 - 1) with 3. change (u64 (Z.lnot 3)) with (2 ^ 64 - 4). unfold u64. rewrite Z.mod_small by lia.
  pose proof (land_split 2 ((p + 3) / 4) ((p + 3) mod 4) (2 ^ 62 - 1) 0 ltac:(lia) ltac:(change (2 ^ 2) with 4; dlia) ltac:(lia)) as E.
  change (2 ^ 2) with 4 in E. replace ((p + 3) / 4 * 4 + (p + 3) mod 4) with (p + 3) in E by dlia.
  change ((2 ^ 62 - 1) * 4 + 0) with (2 ^ 64 - 4) in E. rewrite E, Z.land_0_r, land_ones_mod by lia.
  rewrite Z.mod_small by (split; [dlia|apply Z.div_lt_upper_bound; lia]). dlia.
Qed.

(** The words of the stride loops are as many bytes through the register. *)
Lemma strides_bytes l data : is_word l -> bytes_ok data -> 16 <= zlen data ->
  let '(c, rest) := swath_loop (length (zdrop 16 data)) (ReadUint32LE data .^ l, ReadUint32LE (zdrop 4 data), ReadUint32LE (zdrop 8 data), ReadUint32LE (zdrop 12 data)) (zdrop 16 data) in
  let '(c, rest) := word_loop (length rest) c rest in
  let '(crc0, crc1, crc2, crc3) := c in
  exists d, data = d ++ rest /\ STEP4W crc3 (STEP4W crc2 (STEP4W crc1 (STEP4W crc0 0))) = crc_register l d.
Proof.
  intros Hl Hok Hlen. destruct (split_swath data Hlen Hok) as (w0 & w1 & w2 & w3 & rest & -> & (L0 & L1 & L2 & L3) & (B0 & B1 & B2 & B3) & Br).
  destruct (swath_word w0 w1 w2 w3 rest L0 L1 L2 L3) as (-> & -> & -> & ->).
  destruct (ReadUint32LE_word w0 (w1 ++ w2 ++ w3 ++ rest) L0 B0) as [-> W0]. destruct (ReadUint32LE_word w1 (w2 ++ w3 ++ rest) L1 B1) as [-> W1].
  destruct (ReadUint32LE_word w2 (w3 ++ rest) L2 B2) as [-> W2]. destruct (ReadUint32LE_word w3 rest L3 B3) as [-> W3].
  set (c := (le_value w0 .^ l, le_value w1, le_value w2, le_value w3)).
  assert (Hc : strides_ok c) by (apply strides_intro; [by apply lxor_word|done..]).
  assert (Ec : strided c = crc_register l (w0 ++ w1 ++ w2 ++ w3)).
  { rewrite !crc_register_app, !crc_register_word4, four_words by done. unfold strided, c. join_bits. }
  clearbody c. destruct (swath_loop_strided (length rest) c rest Hc Br) as [x Hx]. destruct (swath_loop _ c rest) as [c' rest'].
  destruct Hx as (-> & Hc' & E1 & Hok'). destruct (word_loop_strided (length rest') c' rest' Hc' Hok') as [y Hy].
  destruct (word_loop _ c' rest') as [c'' rest'']. destruct Hy as (-> & Hc'' & E2 & _). destruct c'' as [[[c0 c1] c2] c3].
  exists ((w0 ++ w1 ++ w2 ++ w3) ++ x ++ y). split; [by rewrite <- !app_assoc|]. rewrite combine_strided by done. by rewrite E2, E1, Ec, <- !crc_register_app, <- !app_assoc.
Qed.

Lemma Extend_crc32c crc p data : is_word crc -> bytes_ok data -> 0 <= p -> p + zlen data < 2 ^ 64 - 3 -> Extend crc p data = crc32c crc data.
Proof.
  intros Hc Hok Hp Hh. unfold Extend, crc32c. change CanAccelerateCRC32C with false. cbv zeta iota. f_equal. unfold kCRC32Xor.
  assert (Hl : is_word (crc .^ 0xffffffff)) by (apply lxor_word; [done|unfold is_word; lia]). revert Hl. generalize (crc .^ 0xffffffff) as l. intros l Hl.
  zlen_pos. pose proof (RoundUp_spec p Hp ltac:(lia)) as Hx.
  assert (Ha : exists d, let '(l', data') := if RoundUp 4 p <=? p + zlen data then align_loop (RoundUp 4 p) p l data else (l, data) in
    data = d ++ data' /\ l' = crc_register l d).
  { destruct (Z.leb_spec (RoundUp 4 p) (p + zlen data)); [|by exists []]. apply align_loop_bytes; [done|done|lia|done]. }
  destruct Ha as [d Ha]. destruct (if _ <=? _ then align_loop _ _ _ _ else _) as [l' data']. destruct Ha as [-> ->].
  apply Forall_app in Hok as [Hd Hok]. rewrite crc_register_app. assert (Hl' : is_word (crc_register l d)) by by apply crc_register_word.
  revert Hl'. generalize (crc_register l d) as l'. intros l' Hl'. rewrite Z.geb_leb. destruct (Z.leb_spec 16 (zlen data')).
  - pose proof (strides_bytes l' data' Hl' Hok ltac:(done)) as Hs. destruct (swath_loop _ _ _) as [c rest]. destruct (word_loop _ _ _) as [[[[c0 c1] c2] c3] rest'].
    destruct Hs as (d' & -> & ->). apply Forall_app in Hok as [Hd' Hr]. rewrite STEP1_bytes by (done || by apply crc_register_word). by rewrite crc_register_app.
  - by rewrite STEP1_bytes.
Qed.

Lemma crc32c_app crc x y : crc32c crc (x ++ y) = crc32c (crc32c crc x) y.
Proof. unfold crc32c. rewrite crc_register_app. do 2 f_equal. by rewrite Z.lxor_assoc, Z.lxor_nilpotent, Z.lxor_0_r. Qed.

Lemma crc32c_word crc data : is_word crc -> bytes_ok data -> is_word (crc32c crc data).
Proof.
  intros Hc Hok. apply lxor_word; [|unfold is_word; lia]. apply crc_register_word; [|done]. apply lxor_word; [done|unfold is_word; lia].
Qed.

(** The difference of two checksums is the register of the difference of the data. *)
Lemma crc32c_lxor crc x y : length x = length y -> bytes_ok x -> bytes_ok y ->
  crc32c crc x .^ crc32c crc y = crc_bits (8 * length x) (le_value x .^ le_value y).
Proof.
  intros Hl Hx Hy. unfold crc32c. rewrite !crc_register_value, <- Hl by done. rewrite !crc_bits_lxor. set (n := (8 * length x)%nat). clearbody n. xor_same.
Qed.

(** ** Masks *)

Lemma rotate_inverse x : is_word x ->
  let r := (x ≫ 15) .| u32 (x ≪ 17) in is_word r /\ (r ≫ 17) .| u32 (r ≪ 15) = x.
Proof.
  intros Hx. cbv zeta. unfold is_word in Hx. unfold u32. change 4294967296 with (2 ^ 32).
  assert (E : (x ≫ 15) .| (x ≪ 17) mod 2 ^ 32 = x / 32768 + x mod 32768 * 131072).
  { rewrite Z.shiftr_div_pow2, or_shifted by (lia || (change (2 ^ 15) with 32768; change (2 ^ 17) with 131072; dlia)).
    change (2 ^ 15) with 32768. change (2 ^ 17) with 131072. change (2 ^ 32) with 4294967296 in *. dlia. }
  rewrite E. split; [unfold is_word; change (2 ^ 32) with 4294967296 in *; dlia|]. set (r := _ + _). assert (Hr : r = x / 32768 + x mod 32768 * 131072) by done. clearbody r.
  rewrite Z.shiftr_div_pow2, or_shifted by (lia || (change (2 ^ 15) with 32768; change (2 ^ 17) with 131072; change (2 ^ 32) with 4294967296 in *; dlia)).
  change (2 ^ 15) with 32768. change (2 ^ 17) with 131072. change (2 ^ 32) with 4294967296 in *. dlia.
Qed.

Lemma Unmask_Mask crc : is_word crc -> Unmask (Mask crc) = crc /\ is_word (Mask crc).
Proof.
  intros Hc. destruct (rotate_inverse crc Hc) as [Hr E]. split; [|apply u32_word]. unfold Unmask, Mask. cbv zeta. revert Hr E. set (r := (crc ≫ 15) .| _). clearbody r. intros Hr E.
  replace (u32 (u32 (r + kMaskDelta) - kMaskDelta)) with r; [done|]. unfold u32, kMaskDelta, is_word in *. change (2 ^ 32) with 4294967296 in *. dlia.
Qed.

(** ** Properties *)

(** The check value of CRC-32C, on the digits "123456789". *)
Example crc32c_check : crc32c 0 [49; 50; 51; 52; 53; 54; 55; 56; 57] = 0xe3069283.
Proof. vm_compute. reflexivity. Qed.

Definition piece_ok (piece : Z * list Z) : Prop := bytes_ok (snd piece) /\ 0 <= fst piece /\ fst piece + zlen (snd piece) < 2 ^ 64 - 3.

Lemma Extend_pieces crc pieces : is_word crc -> Forall piece_ok pieces ->
  fold_left (fun crc piece => Extend crc (fst piece) (snd piece)) pieces crc = crc32c crc (concat (map snd pieces)).
Proof.
  revert crc. induction pieces as [|[p d] pieces IH]; intros crc Hc Hok.
  - unfold crc32c. cbn. by rewrite Z.lxor_assoc, Z.lxor_nilpotent, Z.lxor_0_r.
  - apply Forall_cons_1 in Hok as [(Hd & Hp & Hh) Hok]. cbn [fold_left map concat fst snd] in *. rewrite Extend_crc32c, crc32c_app by done.
    apply IH; [by apply crc32c_word|done].
Qed.

(** C30. Whatever the pieces that a string is cut into and wherever in memory each of
    them lies, extending the checksum piece by piece, bytes up to the alignment, then
    swaths of four interleaved words, then words, then bytes, all through the tables,
    gives the CRC-32C of the string as the shift register defines it bit by bit. *)
Theorem Extend_is_crc32c pieces : Forall piece_ok pieces ->
  fold_left (fun crc piece => Extend crc (fst piece) (snd piece)) pieces 0 = crc32c 0 (concat (map snd pieces)).
Proof. intros Hok. apply Extend_pieces; [unfold is_word; lia|done]. Qed.

Lemma Extend_is_crc32c_witness :
  fold_left (fun crc piece => Extend crc (fst piece) (snd piece)) [(4099, map Z.of_nat (seq 0 60)); (7, [49; 50])] 0
  = crc32c 0 (map Z.of_nat (seq 0 60) ++ [49; 50]).
Proof.
  refine (Extend_is_crc32c [(4099, map Z.of_nat (seq 0 60)); (7, [49; 50])] _).
  repeat (apply Forall_cons; split); [| |apply Forall_nil; exact I].
  - split; [|split; [cbn; lia|vm_compute; done]]. apply Forall_map, Forall_seq. intros i Hi. unfold is_byte. lia.
  - split; [|split; [cbn; lia|vm_compute; done]]. repeat constructor; unfold is_byte; lia.
Defined.

(** A difference inside 32 bits does not cancel. *)
Lemma burst_register n j e : is_word e -> e <> 0 -> (j <= n)%nat -> crc_bits n (e ≪ Z.of_nat j) <> 0.
Proof. intros He Hne Hj. rewrite crc_bits_shift_le by done. intros E. by apply crc_bits_zero in E. Qed.

Lemma le_value_inj x y : length x = length y -> bytes_ok x -> bytes_ok y -> le_value x = le_value y -> x = y.
Proof. intros Hl Hx Hy E. rewrite <- (le_bytes_value x Hx), <- (le_bytes_value y Hy). by rewrite Hl, E. Qed.

Lemma le_value_range x : bytes_ok x -> 0 <= le_value x < 2 ^ (8 * zlen x).
Proof.
  intros Hx. unfold le_value. pose proof (be_value_bound (rev x) ltac:(by apply Forall_rev)) as H. unfold zlen in *. rewrite length_rev in H.
  change 256 with (2 ^ 8) in H. by rewrite <- Z.pow_mul_r in H by lia.
Qed.

Lemma crc32c_burst x y j : length x = length y -> x <> y -> bytes_ok x -> bytes_ok y -> 0 <= j ->
  (forall i, 0 <= i < j \/ j + 32 <= i -> Z.testbit (le_value x) i = Z.testbit (le_value y) i) -> crc32c 0 x <> crc32c 0 y.
Proof.
  intros Hl Hne Hx Hy Hj Hbits E.
  assert (Hz : crc_bits (8 * length x) (le_value x .^ le_value y) = 0) by (rewrite <- (crc32c_lxor 0) by done; rewrite E; apply Z.lxor_nilpotent).
  set (d := le_value x .^ le_value y) in *. assert (Hd0 : d <> 0) by (intros E0; apply Z.lxor_eq in E0; by apply Hne, le_value_inj).
  assert (Hd : 0 <= d < 2 ^ (8 * zlen x)).
  { pose proof (le_value_range y Hy) as Hr. unfold zlen in Hr at 1. rewrite <- Hl in Hr. apply lxor_bound; [zlen_pos; lia|by apply le_value_range|done]. }
  assert (Hout : forall i, 0 <= i < j \/ j + 32 <= i -> Z.testbit d i = false) by (intros i Hi; unfold d; rewrite Z.lxor_spec, Hbits by done; apply xorb_nilpotent).
  clearbody d. assert (Ed : d = (d ≫ j) ≪ j).
  { apply Z.bits_inj'. intros i Hi. destruct (Z.lt_ge_cases i j); [rewrite Z.shiftl_spec_low, Hout by lia; done|].
    rewrite Z.shiftl_spec, Z.shiftr_spec by lia. f_equal. lia. }
  assert (He : is_word (d ≫ j)).
  { assert (0 <= d ≫ j) by (apply Z.shiftr_nonneg; lia). split; [done|]. apply bits_bound; [lia|done|]. intros i Hi. rewrite Z.shiftr_spec by lia. apply Hout. lia. }
  assert (Hjn : j < 8 * zlen x).
  { destruct (Z.lt_ge_cases j (8 * zlen x)) as [|Hge]; [done|]. destruct Hd0. apply Z.bits_inj'. intros i Hi. rewrite Z.bits_0.
    destruct (Z.lt_ge_cases i j); [apply Hout; lia|]. apply (bits_high (8 * zlen x)); [done|lia]. }
  rewrite Ed in Hz. replace j with (Z.of_nat (Z.to_nat j)) in Hz at 2 by lia. apply burst_register in Hz; [done|done| |unfold zlen in Hjn; lia].
  intros E0. apply Hd0. rewrite Ed, E0. apply Z.shiftl_0_l.
Qed.

(** Strings of one length that differ, and only inside the 32 bits from bit [j] on. *)
Definition burst_at (j : Z) (x y : list Z) : Prop :=
  length x = length y /\ x <> y /\ 0 <= j /\ forall i, 0 <= i < j \/ j + 32 <= i -> Z.testbit (le_value x) i = Z.testbit (le_value y) i.

Lemma Mask_injective crc crc' : is_word crc -> is_word crc' -> Mask crc = Mask crc' -> crc = crc'.
Proof. intros Hc Hc' E. rewrite <- (proj1 (Unmask_Mask crc Hc)), <- (proj1 (Unmask_Mask crc' Hc')). by f_equal. Qed.

Lemma Value_word p x : piece_ok (p, x) -> is_word (Value p x) /\ Value p x = crc32c 0 x.
Proof.
  intros (Hx & Hp & Hpx). cbn [fst snd] in *. assert (is_word 0) by (unfold is_word; lia). unfold Value.
  rewrite Extend_crc32c by done. split; [by apply crc32c_word|done].
Qed.

(** C31. Two strings of the same length that differ only inside some 32 consecutive bits
    (numbered from the lowest bit of the first byte) have different checksums, and
    different masked checksums, which are those that files store: every burst error of
    up to 32 bits is detected, in a string of any length and wherever in memory the two
    lie. *)
Theorem burst_errors_detected x y p q j : burst_at j x y -> piece_ok (p, x) -> piece_ok (q, y) ->
  Value p x <> Value q y /\ Mask (Value p x) <> Mask (Value q y).
Proof.
  intros (Hl & Hne & Hj & Hbits) Hx Hy. destruct (Value_word p x Hx) as [Wx Ex], (Value_word q y Hy) as [Wy Ey].
  assert (Hd : Value p x <> Value q y) by (rewrite Ex, Ey; apply (crc32c_burst x y j); [done|done|apply Hx|apply Hy|done|done]).
  split; [done|]. by intros E%Mask_injective.
Qed.

Lemma burst_errors_detected_witness :
  Value 0 [1; 2; 3; 4; 5; 6] <> Value 1 [1; 2; 9; 8; 7; 6] /\ Mask (Value 0 [1; 2; 3; 4; 5; 6]) <> Mask (Value 1 [1; 2; 9; 8; 7; 6]).
Proof.
  apply (burst_errors_detected [1; 2; 3; 4; 5; 6] [1; 2; 9; 8; 7; 6] 0 1 16); [|split; [repeat constructor; unfold is_byte; lia|done]..].
  split; [done|]. split; [done|]. split; [lia|]. intros i Hi.
  change (le_value [1; 2; 3; 4; 5; 6]) with (6 * 2 ^ 40 + 0x0504030201). change (le_value [1; 2; 9; 8; 7; 6]) with (6 * 2 ^ 40 + 0x0708090201).
  rewrite !testbit_split by lia. destruct (Z.ltb_spec i 40); [|done]. destruct Hi as [Hi|Hi]; [|lia].
  change 0x0504030201 with (0x050403 * 2 ^ 16 + 0x0201). change 0x0708090201 with (0x070809 * 2 ^ 16 + 0x0201). rewrite !testbit_split by lia.
  by destruct (Z.ltb_spec i 16); [|lia].
Defined.
