(* ===== verification/LdbEnv.v ===== *)
(** * Statuses and files (leveldb: include/leveldb/status.h, include/leveldb/env.h)

    The files are the classes the environment implements; what the database relies on
    is a second class of laws, which a file in memory satisfies. *)

From stdpp Require Import strings.
From S2P Require Import Prelude.

(** ** Statuses *)

Inductive Status :=
| OK
| NotFound (msg : string)
| Corruption (msg : string)
| NotSupported (msg : string)
| InvalidArgument (msg : string)
| IOError (msg : string).

Definition ok (s : Status) : bool := match s with OK => true | _ => false end.

(** ** Files *)

Class WritableFile (F : Type) := {
  Append : F -> list Z -> Status * F;
  Flush : F -> Status * F
}.

(** A file that takes what it is given. *)
Class ReliableWritable (F : Type) `{WritableFile F} := {
  contents : F -> list Z;
  Append_reliable f data : exists f', Append f data = (OK, f') /\ contents f' = contents f ++ data;
  Flush_reliable f : exists f', Flush f = (OK, f') /\ contents f' = contents f
}.

Class SequentialFile (F : Type) := {
  Read : F -> Z -> Status * list Z * F;
  Skip : F -> Z -> Status * F
}.

(** A file that gives as much as it is asked for and has. *)
Class ReliableSequential (F : Type) `{SequentialFile F} := {
  remaining : F -> list Z;
  Read_reliable f n : exists f', Read f n = (OK, ztake n (remaining f), f') /\ remaining f' = zdrop n (remaining f);
  Skip_reliable f n : exists f', Skip f n = (OK, f') /\ remaining f' = zdrop n (remaining f)
}.

(** ** Files in memory *)

#[export] Instance memory_writable : WritableFile (list Z) := {
  Append f data := (OK, f ++ data);
  Flush f := (OK, f)
}.

#[export, refine] Instance memory_reliable_writable : ReliableWritable (list Z) := { contents f := f }.
Proof. all: eauto. Defined.

#[export] Instance memory_sequential : SequentialFile (list Z) := {
  Read f n := (OK, ztake n f, zdrop n f);
  Skip f n := (OK, zdrop n f)
}.

#[export, refine] Instance memory_reliable_sequential : ReliableSequential (list Z) := { remaining f := f }.
Proof. all: eauto. Defined.
