(* ===== verification/LdbLog.v ===== *)
(** * The log of a database (leveldb: db/log_format.h, db/log_writer.cc, db/log_reader.cc)

    A log is a sequence of blocks of [kBlockSize] bytes; a record is cut into fragments
    that do not cross blocks. The writer and the reader keep the state of the C++
    objects and run over any file (LdbEnv.v). A computation of [M] yields [None] where an
    assertion of the code fails (writer) or its fuel is used up (reader). *)

From stdpp Require Import strings pretty.
From S2P Require Import Prelude LdbCoding LdbCrc LdbEnv.

(** ** Format *)

Definition kZeroType : Z := 0.
Definition kFullType : Z := 1.
Definition kFirstType : Z := 2.
Definition kMiddleType : Z := 3.
Definition kLastType : Z := 4.
Definition kMaxRecordType : Z := kLastType.
Definition kBlockSize : Z := 32768.
Definition kHeaderSize : Z := 4 + 2 + 1.

(** ** Writer *)

Record Writer (F : Type) := mkWriter { dest : F; block_offset : Z; type_crc : list Z }.
Arguments mkWriter {F}. Arguments dest {F}. Arguments block_offset {F}. Arguments type_crc {F}.

(** The checksum does not depend on where its bytes lie, here 0 (LdbCrc.v). *)
Definition InitTypeCrc : list Z := map (fun i => Value 0 [u8 i]) (upto 0 5).

Section Writing.
Context {F : Type} `{WritableFile F}.

Definition Writer_new (d : F) : Writer F := mkWriter d 0 InitTypeCrc.
Definition Writer_at (d : F) (dest_length : Z) : Writer F := mkWriter d (dest_length mod kBlockSize) InitTypeCrc.

Definition set_dest (d : F) (w : Writer F) : Writer F := mkWriter d (block_offset w) (type_crc w).
Definition set_block_offset (n : Z) (w : Writer F) : Writer F := mkWriter (dest w) n (type_crc w).

(** [dest_->Append(...)] and [dest_->Flush()]. *)
Definition append_dest (data : list Z) : M (Writer F) Status := fun w =>
  let '(s, d) := Append (dest w) data in (Some s, set_dest d w).
Definition flush_dest : M (Writer F) Status := fun w =>
  let '(s, d) := Flush (dest w) in (Some s, set_dest d w).

(** The payload is [ptr], of [length] bytes. *)
Definition EmitPhysicalRecord (t : Z) (ptr : list Z) : M (Writer F) Status :=
  let length := zlen ptr in
  let* w := get in
  guard (length <=? 0xffff) ;;;
  guard (block_offset w + kHeaderSize + length <=? kBlockSize) ;;;
  let crc := Extend (znth 0 (type_crc w) t) 0 ptr in
  let crc := Mask crc in
  let buf := EncodeFixed32 crc ++ [u8 (length .& 0xff); u8 (length ≫ 8); u8 t] in
  let* s := append_dest buf in
  let* s :=
    if ok s then
      let* s := append_dest ptr in
      if ok s then flush_dest else ret s
    else ret s in
  modify (set_block_offset (block_offset w + kHeaderSize + length)) ;;;
  ret s.

(** The fragments of a record; [left] is the length of [ptr]. Every round but the last
    takes a byte or moves to a new block. *)
Fixpoint AddRecord_loop (fuel : nat) (begin : bool) (ptr : list Z) : M (Writer F) Status :=
  match fuel with
  | O => fail
  | S fuel =>
      let left := zlen ptr in
      let* w := get in
      let leftover := kBlockSize - block_offset w in
      guard (0 <=? leftover) ;;;
      (if leftover <? kHeaderSize then
         (if leftover >? 0 then append_dest (ztake leftover [0; 0; 0; 0; 0; 0]) ;;; ret tt else ret tt) ;;;
         modify (set_block_offset 0)
       else ret tt) ;;;
      let* w := get in
      guard (0 <=? kBlockSize - block_offset w - kHeaderSize) ;;;
      let avail := kBlockSize - block_offset w - kHeaderSize in
      let fragment_length := if left <? avail then left else avail in
      let end_ := left =? fragment_length in
      let type :=
        if (begin && end_)%bool then kFullType
        else if begin then kFirstType
        else if end_ then kLastType
        else kMiddleType in
      let* s := EmitPhysicalRecord type (ztake fragment_length ptr) in
      let ptr := zdrop fragment_length ptr in
      if (ok s && (left - fragment_length >? 0))%bool then AddRecord_loop fuel false ptr else ret s
  end.
Definition AddRecord (slice : list Z) : M (Writer F) Status := AddRecord_loop (S (S (length slice))) true slice.
End Writing.

(** ** Reader *)

(** [reports] is what the reporter has received, newest last; [None]: there is none. *)
Record Reader (F : Type) := mkReader {
  file : F;
  reporter : option (list (Z * Status));
  checksum : bool;
  buffer : list Z;
  eof : bool;
  last_record_offset : Z;
  end_of_buffer_offset : Z;
  initial_offset : Z;
  resyncing : bool
}.
Arguments mkReader {F}. Arguments file {F}. Arguments reporter {F}. Arguments checksum {F}. Arguments buffer {F}. Arguments eof {F}.
Arguments last_record_offset {F}. Arguments end_of_buffer_offset {F}. Arguments initial_offset {F}. Arguments resyncing {F}.

Definition kEof : Z := kMaxRecordType + 1.
Definition kBadRecord : Z := kMaxRecordType + 2.

(** The value of a [char]; it is signed on this platform. *)
Definition char_value (b : Z) : Z := if b <? 128 then b else b - 256.

Section Reading.
Context {F : Type} `{SequentialFile F}.
Implicit Types r : Reader F.

Definition Reader_new (f : F) (reporter : option (list (Z * Status))) (checksum : bool) (initial_offset : Z) : Reader F :=
  mkReader f reporter checksum [] false 0 0 initial_offset (initial_offset >? 0).

Definition set_file (f : F) (r : Reader F) : Reader F :=
  mkReader f (reporter r) (checksum r) (buffer r) (eof r) (last_record_offset r) (end_of_buffer_offset r) (initial_offset r) (resyncing r).
Definition set_reporter (p : option (list (Z * Status))) (r : Reader F) : Reader F :=
  mkReader (file r) p (checksum r) (buffer r) (eof r) (last_record_offset r) (end_of_buffer_offset r) (initial_offset r) (resyncing r).
Definition set_buffer (b : list Z) (r : Reader F) : Reader F :=
  mkReader (file r) (reporter r) (checksum r) b (eof r) (last_record_offset r) (end_of_buffer_offset r) (initial_offset r) (resyncing r).
Definition set_eof (e : bool) (r : Reader F) : Reader F :=
  mkReader (file r) (reporter r) (checksum r) (buffer r) e (last_record_offset r) (end_of_buffer_offset r) (initial_offset r) (resyncing r).
Definition set_last (n : Z) (r : Reader F) : Reader F :=
  mkReader (file r) (reporter r) (checksum r) (buffer r) (eof r) n (end_of_buffer_offset r) (initial_offset r) (resyncing r).
Definition set_end (n : Z) (r : Reader F) : Reader F :=
  mkReader (file r) (reporter r) (checksum r) (buffer r) (eof r) (last_record_offset r) n (initial_offset r) (resyncing r).
Definition set_resyncing (b : bool) (r : Reader F) : Reader F :=
  mkReader (file r) (reporter r) (checksum r) (buffer r) (eof r) (last_record_offset r) (end_of_buffer_offset r) (initial_offset r) b.

Definition ReportDrop (bytes : Z) (reason : Status) : M (Reader F) unit := fun r =>
  match reporter r with
  | None => (Some tt, r)
  | Some reports =>
      if u64 (end_of_buffer_offset r - zlen (buffer r) - bytes) >=? initial_offset r
      then (Some tt, set_reporter (Some (reports ++ [(bytes, reason)])) r)
      else (Some tt, r)
  end.
Definition ReportCorruption (bytes : Z) (reason : string) : M (Reader F) unit := ReportDrop bytes (Corruption reason).

Definition skip_file (n : Z) : M (Reader F) Status := fun r =>
  let '(s, f) := Skip (file r) n in (Some s, set_file f r).
(** [file_->Read(kBlockSize, &buffer_, backing_store_)]. *)
Definition read_file (n : Z) : M (Reader F) Status := fun r =>
  let '(s, b, f) := Read (file r) n in (Some s, set_buffer b (set_file f r)).

Definition SkipToInitialBlock : M (Reader F) bool :=
  let* r := get in
  let offset_in_block := initial_offset r mod kBlockSize in
  let block_start_location := u64 (initial_offset r - offset_in_block) in
  let block_start_location := if offset_in_block >? kBlockSize - 6 then u64 (block_start_location + kBlockSize) else block_start_location in
  modify (set_end block_start_location) ;;;
  if block_start_location >? 0 then
    let* skip_status := skip_file block_start_location in
    if negb (ok skip_status) then ReportDrop block_start_location skip_status ;;; ret false else ret true
  else ret true.

(** The type of the physical record and its payload, which is left as it was where the
    code does not assign it. A second round of the loop does not read again. *)
Fixpoint ReadPhysicalRecord_loop (fuel : nat) (result : list Z) : M (Reader F) (Z * list Z) :=
  match fuel with
  | O => fail
  | S fuel =>
      let* r := get in
      if zlen (buffer r) <? kHeaderSize then
        if negb (eof r) then
          modify (set_buffer []) ;;;
          let* status := read_file kBlockSize in
          modify (fun r => set_end (u64 (end_of_buffer_offset r + zlen (buffer r))) r) ;;;
          if negb (ok status) then
            modify (set_buffer []) ;;;
            ReportDrop kBlockSize status ;;;
            modify (set_eof true) ;;;
            ret (kEof, result)
          else
            let* r := get in
            (if zlen (buffer r) <? kBlockSize then modify (set_eof true) else ret tt) ;;;
            ReadPhysicalRecord_loop fuel result
        else modify (set_buffer []) ;;; ret (kEof, result)
      else
        let header := buffer r in
        let a := u32 (char_value (znth 0 header 4)) .& 0xff in
        let b := u32 (char_value (znth 0 header 5)) .& 0xff in
        let type := u32 (char_value (znth 0 header 6)) in
        let length := a .| u32 (b ≪ 8) in
        if kHeaderSize + length >? zlen (buffer r) then
          let drop_size := zlen (buffer r) in
          modify (set_buffer []) ;;;
          if negb (eof r) then ReportCorruption drop_size "bad record length" ;;; ret (kBadRecord, result)
          else ret (kEof, result)
        else if ((type =? kZeroType) && (length =? 0))%bool then modify (set_buffer []) ;;; ret (kBadRecord, result)
        else if (checksum r && negb (Value 0 (ztake (1 + length) (zdrop 6 header)) =? Unmask (DecodeFixed32 header)))%bool then
          let drop_size := zlen (buffer r) in
          modify (set_buffer []) ;;;
          ReportCorruption drop_size "checksum mismatch" ;;;
          ret (kBadRecord, result)
        else
          modify (set_buffer (zdrop (kHeaderSize + length) header)) ;;;
          let* r := get in
          if u64 (end_of_buffer_offset r - zlen (buffer r) - kHeaderSize - length) <? initial_offset r then ret (kBadRecord, [])
          else ret (type, ztake length (zdrop kHeaderSize header))
  end.
Definition ReadPhysicalRecord (result : list Z) : M (Reader F) (Z * list Z) := ReadPhysicalRecord_loop 2 result.

(** The loop of [ReadRecord]: the result of the call, the record and [scratch]. *)
Fixpoint ReadRecord_loop (fuel : nat) (in_fragmented_record : bool) (prospective_record_offset : Z) (fragment scratch : list Z)
    : M (Reader F) (bool * list Z * list Z) :=
  match fuel with
  | O => fail
  | S fuel =>
      let* '(record_type, fragment) := ReadPhysicalRecord fragment in
      let* r := get in
      let physical_record_offset := u64 (end_of_buffer_offset r - zlen (buffer r) - kHeaderSize - zlen fragment) in
      if (resyncing r && (record_type =? kMiddleType))%bool then
        ReadRecord_loop fuel in_fragmented_record prospective_record_offset fragment scratch
      else if (resyncing r && (record_type =? kLastType))%bool then
        modify (set_resyncing false) ;;;
        ReadRecord_loop fuel in_fragmented_record prospective_record_offset fragment scratch
      else
        (if resyncing r then modify (set_resyncing false) else ret tt) ;;;
        if record_type =? kFullType then
          (if (in_fragmented_record && negb (zlen scratch =? 0))%bool
           then ReportCorruption (zlen scratch) "partial record without end(1)" else ret tt) ;;;
          modify (set_last physical_record_offset) ;;;
          ret (true, fragment, [])
        else if record_type =? kFirstType then
          (if (in_fragmented_record && negb (zlen scratch =? 0))%bool
           then ReportCorruption (zlen scratch) "partial record without end(2)" else ret tt) ;;;
          ReadRecord_loop fuel true physical_record_offset fragment fragment
        else if record_type =? kMiddleType then
          if negb in_fragmented_record then
            ReportCorruption (zlen fragment) "missing start of fragmented record(1)" ;;;
            ReadRecord_loop fuel in_fragmented_record prospective_record_offset fragment scratch
          else ReadRecord_loop fuel in_fragmented_record prospective_record_offset fragment (scratch ++ fragment)
        else if record_type =? kLastType then
          if negb in_fragmented_record then
            ReportCorruption (zlen fragment) "missing start of fragmented record(2)" ;;;
            ReadRecord_loop fuel in_fragmented_record prospective_record_offset fragment scratch
          else
            modify (set_last prospective_record_offset) ;;;
            ret (true, scratch ++ fragment, scratch ++ fragment)
        else if record_type =? kEof then ret (false, [], if in_fragmented_record then [] else scratch)
        else if record_type =? kBadRecord then
          if in_fragmented_record then
            ReportCorruption (zlen scratch) "error in middle of record" ;;;
            ReadRecord_loop fuel false prospective_record_offset fragment []
          else ReadRecord_loop fuel in_fragmented_record prospective_record_offset fragment scratch
        else
          ReportCorruption (zlen fragment + (if in_fragmented_record then zlen scratch else 0))
            ("unknown record type " +:+ pretty (Z.to_N record_type)) ;;;
          ReadRecord_loop fuel false prospective_record_offset fragment []
  end.

Definition ReadRecord (fuel : nat) (record scratch : list Z) : M (Reader F) (bool * list Z * list Z) :=
  let* r := get in
  let* skipped := if last_record_offset r <? initial_offset r then SkipToInitialBlock else ret true in
  if negb skipped then ret (false, record, scratch) else ReadRecord_loop fuel false 0 [] [].

Definition LastRecordOffset (r : Reader F) : Z := last_record_offset r.
End Reading.
