(* ===== verification/LdbLogWrite.v ===== *)
(** * The format of a log and the writer (theorems about LdbLog.v)

    The format as a layout of fragments at positions of the file, a record as one way
    of cutting it into fragments, and the writer as an implementation of both. *)

From stdpp Require Import strings.
From S2P Require Import Prelude Words HashBlocks PbWireFacts LdbCoding LdbCrc LdbEnv LdbLog.

(** ** Layout *)

(** A type and a payload. *)
Definition fragment : Type := Z * list Z.

Definition header (t : Z) (d : list Z) : list Z :=
  le_bytes 4 (Mask (crc32c 0 (t :: d))) ++ [zlen d mod 256; zlen d / 256; t].

(** The bytes before the next header: the rest of a block that has no room for one. *)
Definition padding (pos : Z) : Z := let left := kBlockSize - pos mod kBlockSize in if left <? kHeaderSize then left else 0.
Definition header_at (pos : Z) : Z := pos + padding pos.
Definition fragment_end (pos : Z) (d : list Z) : Z := header_at pos + kHeaderSize + zlen d.

(** A fragment with the padding before it; fragments after one another. *)
Definition placed (pos : Z) (t : Z) (d : list Z) : list Z := replicate (Z.to_nat (padding pos)) 0 ++ header t d ++ d.
Fixpoint layout (pos : Z) (fs : list fragment) : list Z :=
  match fs with
  | [] => []
  | (t, d) :: fs => placed pos t d ++ layout (fragment_end pos d) fs
  end.

Definition fits (pos : Z) (d : list Z) : Prop := header_at pos mod kBlockSize + kHeaderSize + zlen d <= kBlockSize.

(** The ways of cutting [data] into fragments from [pos] on; [begin]: it is the start of
    the record. *)
Inductive cuts : bool -> Z -> list Z -> list fragment -> Prop :=
| cuts_end begin pos d : fits pos d -> cuts begin pos d [(if begin then kFullType else kLastType, d)]
| cuts_more (begin : bool) pos d data fs : fits pos d -> cuts false (fragment_end pos d) data fs ->
    cuts begin pos (d ++ data) ((if begin then kFirstType else kMiddleType, d) :: fs).

Lemma padding_spec pos : 0 <= pos -> 0 <= padding pos < kHeaderSize /\ header_at pos mod kBlockSize + kHeaderSize <= kBlockSize.
Proof.
  intros Hp. unfold header_at, padding. change kHeaderSize with 7. change kBlockSize with 32768. cbv zeta. destruct (Z.ltb_spec (32768 - pos mod 32768) 7).
  - pose proof (Z.mod_pos_bound pos 32768). split; [lia|]. replace ((pos + (32768 - pos mod 32768)) mod 32768) with 0; [lia|]. dlia.
  - rewrite Z.add_0_r. lia.
Qed.

Lemma zlen_header t d : zlen (header t d) = kHeaderSize.
Proof. unfold header. by rewrite zlen_app, zlen_le_bytes. Qed.

Lemma zlen_placed pos t d : 0 <= pos -> zlen (placed pos t d) = fragment_end pos d - pos.
Proof.
  intros Hp. destruct (padding_spec pos Hp) as [Hpad _]. unfold placed, fragment_end, header_at. rewrite !zlen_app, zlen_header, zlen_replicate. lia.
Qed.

Lemma fragment_end_ge pos d : 0 <= pos -> pos + kHeaderSize <= fragment_end pos d.
Proof. intros Hp. destruct (padding_spec pos Hp) as [Hpad _]. unfold fragment_end, header_at. zlen_pos. lia. Qed.

Lemma layout_app pos fs gs : 0 <= pos -> layout pos (fs ++ gs) = layout pos fs ++ layout (pos + zlen (layout pos fs)) gs.
Proof.
  revert pos. induction fs as [|[t d] fs IH]; intros pos Hp; cbn [app layout]; [by rewrite zlen_nil, Z.add_0_r|].
  pose proof (fragment_end_ge pos d Hp) as He. change kHeaderSize with 7 in He. rewrite IH, <- app_assoc, zlen_app, zlen_placed by lia. do 3 f_equal. lia.
Qed.

Lemma header_ok t d : is_byte t -> zlen d < 65536 -> bytes_ok (header t d).
Proof.
  intros Ht Hd. apply Forall_app. split; [apply le_bytes_ok|]. zlen_pos. repeat constructor; unfold is_byte in *; try dlia.
Qed.

Definition type_ok (t : Z) : Prop := t = kFullType \/ t = kFirstType \/ t = kMiddleType \/ t = kLastType.

(** The layout depends on the position only in its block. *)
Lemma padding_mod pos q : pos mod kBlockSize = q mod kBlockSize -> padding pos = padding q.
Proof. intros E. unfold padding. by rewrite E. Qed.

(** ** The writer *)

Lemma type_crc_value t : type_ok t -> znth 0 InitTypeCrc t = crc32c 0 [t].
Proof.
  intros Ht. assert (E : InitTypeCrc = map (fun i => crc32c 0 [i]) [0; 1; 2; 3; 4]) by (vm_compute; reflexivity). rewrite E.
  unfold type_ok in Ht. by destruct Ht as [-> |[-> |[-> | ->]]].
Qed.

Section Writing.
Context {F : Type} `{ReliableWritable F}.
Implicit Types w : Writer F.

(** The writer stands at [pos] modulo the size of a block. *)
Definition writing (pos : Z) w : Prop :=
  0 <= block_offset w <= kBlockSize /\ block_offset w mod kBlockSize = pos mod kBlockSize /\ type_crc w = InitTypeCrc.

Lemma append_dest_ok w data : exists w', append_dest data w = (Some OK, w') /\ contents (dest w') = contents (dest w) ++ data /\
  block_offset w' = block_offset w /\ type_crc w' = type_crc w.
Proof. unfold append_dest. destruct (Append_reliable (dest w) data) as (d & -> & E). by exists (set_dest d w). Qed.

Lemma flush_dest_ok w : exists w', flush_dest w = (Some OK, w') /\ contents (dest w') = contents (dest w) /\
  block_offset w' = block_offset w /\ type_crc w' = type_crc w.
Proof. unfold flush_dest. destruct (Flush_reliable (dest w)) as (d & -> & E). by exists (set_dest d w). Qed.

Lemma header_bytes t d : type_ok t -> bytes_ok d -> zlen d < 65536 ->
  EncodeFixed32 (Mask (Extend (crc32c 0 [t]) 0 d)) ++ [u8 (zlen d .& 0xff); u8 (zlen d ≫ 8); u8 t] = header t d.
Proof.
  intros Ht Hd Hl. zlen_pos. assert (Hb : is_byte t) by (unfold type_ok in Ht; unfold is_byte; change kFullType with 1 in Ht; change kFirstType with 2 in Ht; change kMiddleType with 3 in Ht; change kLastType with 4 in Ht; lia).
  rewrite Extend_crc32c by (done || lia || (apply crc32c_word; [unfold is_word; lia|by constructor])).
  rewrite <- crc32c_app, EncodeFixed32_le. unfold header. f_equal. unfold u8, is_byte in *. change 0xff with (2 ^ 8 - 1).
  rewrite land_ones_mod, Z.shiftr_div_pow2 by lia. change (2 ^ 8) with 256. rewrite Z.mod_mod by lia. repeat f_equal; apply Z.mod_small; dlia.
Qed.

Lemma EmitPhysicalRecord_ok w t d : type_ok t -> bytes_ok d -> 0 <= block_offset w -> block_offset w + kHeaderSize + zlen d <= kBlockSize -> type_crc w = InitTypeCrc ->
  exists w', EmitPhysicalRecord t d w = (Some OK, w') /\ contents (dest w') = contents (dest w) ++ header t d ++ d /\
    block_offset w' = block_offset w + kHeaderSize + zlen d /\ type_crc w' = InitTypeCrc.
Proof.
  intros Ht Hd Hb Hl Hc. unfold EmitPhysicalRecord. rewrite get_state, !bind_guard. change kHeaderSize with 7 in *. change kBlockSize with 32768 in *.
  destruct (Z.leb_spec (zlen d) 0xffff); [|lia]. destruct (Z.leb_spec (block_offset w + 7 + zlen d) 32768); [|lia].
  rewrite Hc, type_crc_value, header_bytes by (done || lia).
  destruct (append_dest_ok w (header t d)) as (w1 & E1 & C1 & B1 & T1). destruct (append_dest_ok w1 d) as (w2 & E2 & C2 & B2 & T2).
  destruct (flush_dest_ok w2) as (w3 & E3 & C3 & B3 & T3). rewrite (bind_step _ _ _ _ _ E1). cbn [ok].
  unfold bind at 1. rewrite (bind_step _ _ _ _ _ E2). cbn [ok]. rewrite E3. eexists. split; [reflexivity|]. cbn [dest block_offset type_crc set_block_offset].
  split; [by rewrite C3, C2, C1, <- app_assoc|]. split; [done|]. by rewrite T3, T2, T1.
Qed.

(** The step to a new block. *)
Lemma pad_step w pos : 0 <= pos -> writing pos w -> exists w1,
  (let leftover := kBlockSize - block_offset w in
   if leftover <? kHeaderSize then
     (if leftover >? 0 then append_dest (ztake leftover [0; 0; 0; 0; 0; 0]) ;;; ret tt else ret tt) ;;;
     modify (set_block_offset 0)
   else ret tt) w = (Some tt, w1) /\
  contents (dest w1) = contents (dest w) ++ replicate (Z.to_nat (padding pos)) 0 /\
  block_offset w1 = header_at pos mod kBlockSize /\ type_crc w1 = InitTypeCrc.
Proof.
  intros Hp (Hb & Hm & Hc). cbv zeta. unfold header_at, padding. cbv zeta. rewrite <- Hm. change kHeaderSize with 7. change kBlockSize with 32768 in *.
  set (b := block_offset w) in *. destruct (Z.ltb_spec (32768 - b) 7).
  - rewrite Z.gtb_ltb. destruct (Z.ltb_spec 0 (32768 - b)).
    + rewrite (Z.mod_small b) by lia. destruct (Z.ltb_spec (32768 - b) 7); [|lia].
      destruct (append_dest_ok w (ztake (32768 - b) [0; 0; 0; 0; 0; 0])) as (w1 & E1 & C1 & B1 & T1). exists (set_block_offset 0 w1).
      rewrite (bind_step _ _ _ _ _ (bind_step _ _ _ _ _ E1)). split; [done|]. cbn [dest block_offset type_crc set_block_offset].
      split. { rewrite C1. f_equal. unfold ztake. assert (Hn : 32768 - b = 1 \/ 32768 - b = 2 \/ 32768 - b = 3 \/ 32768 - b = 4 \/ 32768 - b = 5 \/ 32768 - b = 6) by lia.
        by destruct Hn as [-> |[-> |[-> |[-> |[-> | ->]]]]]. }
      split; [|by rewrite T1]. rewrite (Z.mod_small b) in Hm by lia. dlia.
    + exists (set_block_offset 0 w). assert (b = 32768) by lia. split; [done|]. cbn [dest block_offset type_crc set_block_offset].
      replace (b mod 32768) with 0 in * by dlia. cbn [Z.sub Z.opp Z.add Z.ltb Z.compare Z.to_nat replicate]. rewrite app_nil_r.
      split; [done|]. split; [|done]. change (32768 - 0 <? 7) with false. cbv iota. dlia.
  - rewrite (Z.mod_small b) by lia. destruct (Z.ltb_spec (32768 - b) 7); [lia|]. exists w. split; [done|].
    rewrite app_nil_r. split; [done|]. rewrite Z.add_0_r, <- Hm. rewrite (Z.mod_small b) by lia. done.
Qed.

(** The room for the next payload in its block. *)
Definition avail (pos : Z) : Z := kBlockSize - header_at pos mod kBlockSize - kHeaderSize.

Lemma avail_nonneg pos : 0 <= pos -> 0 <= avail pos.
Proof. intros Hp. destruct (padding_spec pos Hp). unfold avail. lia. Qed.

Lemma fragment_end_mod pos d : fragment_end pos d mod kBlockSize = (header_at pos mod kBlockSize + kHeaderSize + zlen d) mod kBlockSize.
Proof. unfold fragment_end. rewrite <- !Z.add_assoc. by rewrite Z.add_mod_idemp_l by done. Qed.

Lemma avail_block pos : pos mod kBlockSize = 0 -> avail pos <> 0.
Proof.
  intros E. unfold avail, header_at, padding. rewrite E. change (kBlockSize - 0 <? kHeaderSize) with false. cbv zeta iota. rewrite Z.add_0_r, E. done.
Qed.

(** One round of the loop: the padding, the header and what fits of the record. *)
Lemma AddRecord_round fuel (begin : bool) ptr w pos : 0 <= pos -> bytes_ok ptr -> writing pos w ->
  let n := if zlen ptr <? avail pos then zlen ptr else avail pos in
  let t := if begin then if zlen ptr =? n then kFullType else kFirstType else if zlen ptr =? n then kLastType else kMiddleType in
  let d := ztake n ptr in
  exists w1, contents (dest w1) = contents (dest w) ++ placed pos t d /\ writing (fragment_end pos d) w1 /\
  AddRecord_loop (S fuel) begin ptr w = (if zlen ptr - n >? 0 then AddRecord_loop fuel false (zdrop n ptr) w1 else (Some OK, w1)).
Proof.
  intros Hp Hok Hw n t d. pose proof (avail_nonneg pos Hp) as Hav. destruct (pad_step w pos Hp Hw) as (w0 & E0 & C0 & B0 & T0). cbv zeta in E0.
  assert (Hn : 0 <= n <= zlen ptr /\ n <= avail pos) by (unfold n; zlen_pos; destruct (Z.ltb_spec (zlen ptr) (avail pos)); lia).
  assert (Hd : zlen d = n) by (apply zlen_ztake; lia). pose proof (Z.mod_pos_bound (header_at pos) kBlockSize ltac:(done)) as Hhm.
  assert (Ht : type_ok t) by (unfold type_ok, t; destruct begin, (zlen ptr =? n); tauto).
  destruct (EmitPhysicalRecord_ok w0 t d) as (w1 & E1 & C1 & B1 & T1); [done|by apply Forall_take|lia| |done|].
  { rewrite B0, Hd. unfold avail in Hn. lia. }
  exists w1. split; [rewrite C1, C0; unfold placed; by rewrite <- !app_assoc|]. split.
  { split; [|split; [|done]]; rewrite B1, B0; [unfold avail in Hn; change kHeaderSize with 7 in *; lia|]. by rewrite fragment_end_mod. }
  cbn [AddRecord_loop]. rewrite get_state, bind_guard. destruct Hw as (Hb & _ & _). destruct (Z.leb_spec 0 (kBlockSize - block_offset w)); [|lia].
  rewrite (bind_step _ _ _ _ _ E0), get_state, bind_guard. rewrite B0. fold (avail pos). destruct (Z.leb_spec 0 (avail pos)); [|lia]. fold n.
  replace (if (begin && (zlen ptr =? n))%bool then kFullType else if begin then kFirstType else if zlen ptr =? n then kLastType else kMiddleType) with t
    by (unfold t; by destruct begin, (zlen ptr =? n)).
  fold d. rewrite (bind_step _ _ _ _ _ E1). cbn [ok andb]. by destruct (zlen ptr - n >? 0).
Qed.

Lemma AddRecord_loop_cuts fuel begin ptr w pos : 0 <= pos -> bytes_ok ptr -> writing pos w ->
  (length ptr + (if Z.eqb (avail pos) 0 then 1 else 0) < fuel)%nat ->
  exists w' fs, AddRecord_loop fuel begin ptr w = (Some OK, w') /\ cuts begin pos ptr fs /\
    contents (dest w') = contents (dest w) ++ layout pos fs /\ writing (pos + zlen (layout pos fs)) w'.
Proof.
  revert begin ptr w pos. induction fuel as [|fuel IH]; intros begin ptr w pos Hp Hok Hw Hf; [lia|].
  destruct (AddRecord_round fuel begin ptr w pos Hp Hok Hw) as (w1 & C1 & W1 & E1). rewrite E1. clear E1.
  pose proof (avail_nonneg pos Hp) as Hav. set (n := if zlen ptr <? avail pos then zlen ptr else avail pos) in *.
  assert (Hn : 0 <= n <= zlen ptr /\ n <= avail pos) by (unfold n; zlen_pos; destruct (Z.ltb_spec (zlen ptr) (avail pos)); lia).
  assert (Hd : zlen (ztake n ptr) = n) by (apply zlen_ztake; lia). set (d := ztake n ptr) in *.
  assert (Hfits : fits pos d) by (unfold fits; rewrite Hd; unfold avail in Hn; lia).
  pose proof (fragment_end_ge pos d Hp) as He. change kHeaderSize with 7 in He. rewrite Z.gtb_ltb. destruct (Z.ltb_spec 0 (zlen ptr - n)) as [Hmore|Hend].
  - destruct (Z.eqb_spec (zlen ptr) n); [lia|]. assert (En : n = avail pos) by (unfold n in *; destruct (zlen ptr <? avail pos); lia).
    assert (Hb : fragment_end pos d mod kBlockSize = 0).
    { rewrite fragment_end_mod, Hd, En. unfold avail. replace (_ + _ + _) with kBlockSize by lia. done. }
    destruct (IH false (zdrop n ptr) w1 (fragment_end pos d)) as (w' & fs & E & Hc & C & W); [lia|by apply Forall_drop|done| |].
    { pose proof (avail_block _ Hb) as Hne. destruct (Z.eqb_spec (avail (fragment_end pos d)) 0); [done|]. unfold zdrop. rewrite length_drop.
      destruct (Z.eqb_spec (avail pos) 0); unfold zlen in *; lia. }
    exists w', ((if begin then kFirstType else kMiddleType, d) :: fs). rewrite E. split; [done|].
    split; [rewrite <- (ztake_zdrop n ptr); by constructor|]. cbn [layout]. split; [rewrite C, C1, <- app_assoc; by destruct begin|].
    rewrite zlen_app, zlen_placed by done. by replace (pos + (fragment_end pos d - pos + zlen (layout (fragment_end pos d) fs)))
      with (fragment_end pos d + zlen (layout (fragment_end pos d) fs)) by lia.
  - assert (En : zlen ptr = n) by lia. assert (Ed : d = ptr) by (apply ztake_all; lia). clearbody d n. subst d. exists w1, [(if begin then kFullType else kLastType, ptr)].
    split; [done|]. split; [by constructor|]. cbn [layout]. rewrite app_nil_r. destruct (Z.eqb_spec (zlen ptr) n); [|lia].
    split; [rewrite C1; by destruct begin|]. rewrite zlen_placed by done. by replace (pos + (fragment_end pos ptr - pos)) with (fragment_end pos ptr) by lia.
Qed.

Lemma AddRecord_cuts slice w pos : 0 <= pos -> bytes_ok slice -> writing pos w ->
  exists w' fs, AddRecord slice w = (Some OK, w') /\ cuts true pos slice fs /\
    contents (dest w') = contents (dest w) ++ layout pos fs /\ writing (pos + zlen (layout pos fs)) w'.
Proof. intros Hp Hok Hw. apply AddRecord_loop_cuts; [done..|]. destruct (_ =? 0); lia. Qed.
End Writing.

(** ** Property *)

(** Adding a record to a file that takes what it is given: no assertion of the writer
    fails, the result is OK, and what is appended is the record cut into fragments that
    lie in the blocks as the format says, each with the masked CRC-32C of its type and
    payload before it, wherever in a block the writer stands. *)
Theorem AddRecord_follows_format {F : Type} `{ReliableWritable F} slice (w : Writer F) pos : 0 <= pos -> bytes_ok slice -> writing pos w ->
  exists w' fs, AddRecord slice w = (Some OK, w') /\ cuts true pos slice fs /\
    contents (dest w') = contents (dest w) ++ layout pos fs /\ writing (pos + zlen (layout pos fs)) w'.
Proof. apply AddRecord_cuts. Qed.

Lemma AddRecord_follows_format_witness : exists w' fs,
  AddRecord [1; 2; 3] (Writer_at (replicate 3 0) 32758 : Writer (list Z)) = (Some OK, w') /\ cuts true 32758 [1; 2; 3] fs /\
    contents (dest w') = replicate 3 0 ++ layout 32758 fs /\ writing (32758 + zlen (layout 32758 fs)) w'.
Proof.
  refine (AddRecord_follows_format [1; 2; 3] (Writer_at (replicate 3 0) 32758) 32758 _ _ _).
  - lia.
  - repeat constructor; unfold is_byte; lia.
  - split; [split; vm_compute; discriminate|]. split; vm_compute; reflexivity.
Defined.
