(* ===== verification/LdbLogRead.v ===== *)
(** * Reading a log (theorems about LdbLog.v)

    The reader over a file that holds a log, all of it or what a crash has left: at each
    position it returns the fragment that lies there, or the end if the fragment is
    not whole; from that, records. *)

From stdpp Require Import strings.
From S2P Require Import Prelude Words HashBlocks PbWireFacts LdbCoding LdbCrc LdbEnv LdbLog LdbLogWrite.

(** ** A header *)

(** A header with any checksum, length and type. *)
Definition raw_header (crc len t : Z) : list Z := le_bytes 4 crc ++ [len mod 256; len / 256; t].

Lemma raw_header_parts crc len t x : exists c0 c1 c2 c3, raw_header crc len t ++ x = [c0; c1; c2; c3; len mod 256; len / 256; t] ++ x /\
  le_bytes 4 crc = [c0; c1; c2; c3].
Proof.
  unfold raw_header. destruct (length_4 (le_bytes 4 crc)) as (c0 & c1 & c2 & c3 & E).
  { apply Nat2Z.inj. apply zlen_le_bytes. }
  exists c0, c1, c2, c3. by rewrite E.
Qed.

(** The length in a header. *)
Definition header_length (h : list Z) : Z :=
  (u32 (char_value (znth 0 h 4)) .& 0xff) .| u32 ((u32 (char_value (znth 0 h 5)) .& 0xff) ≪ 8).
Definition header_type (h : list Z) : Z := u32 (char_value (znth 0 h 6)).

Lemma char_byte b : is_byte b -> u32 (char_value b) .& 0xff = b.
Proof.
  intros Hb. unfold is_byte in Hb. change 0xff with (2 ^ 8 - 1). rewrite land_ones_mod by lia. change (2 ^ 8) with 256. unfold u32, char_value.
  destruct (Z.ltb_spec b 128); dlia.
Qed.

Lemma char_type t : 0 <= t < 128 -> u32 (char_value t) = t.
Proof. intros Ht. unfold u32, char_value. destruct (Z.ltb_spec t 128); [|lia]. apply Z.mod_small. lia. Qed.

Lemma type_range t : type_ok t -> 1 <= t <= 4.
Proof.
  unfold type_ok. change kFullType with 1. change kFirstType with 2. change kMiddleType with 3. change kLastType with 4. lia.
Qed.

Lemma raw_header_fields crc len t x : 0 <= len < 65536 ->
  header_length (raw_header crc len t ++ x) = len /\ header_type (raw_header crc len t ++ x) = u32 (char_value t) /\
  DecodeFixed32 (raw_header crc len t ++ x) = u32 crc /\ zdrop 6 (raw_header crc len t ++ x) = t :: x /\ zdrop 7 (raw_header crc len t ++ x) = x.
Proof.
  intros Hd. destruct (raw_header_parts crc len t x) as (c0 & c1 & c2 & c3 & -> & Ec).
  split; [|split; [|split; [|done]]].
  - unfold header_length. cbn [app]. change (znth 0 _ 4) with (len mod 256). change (znth 0 _ 5) with (len / 256).
    rewrite !char_byte by (unfold is_byte; dlia). unfold u32. change 4294967296 with (2 ^ 32). rewrite or_shifted by (lia || (change (2 ^ 8) with 256; dlia)).
    change (2 ^ 8) with 256. change (2 ^ 32) with 4294967296. dlia.
  - reflexivity.
  - change (DecodeFixed32 ([c0; c1; c2; c3] ++ ([len mod 256; len / 256; t] ++ x)) = u32 crc).
    rewrite DecodeFixed32_le by (done || (rewrite <- Ec; apply le_bytes_ok)). rewrite <- Ec, le_value_le_bytes. done.
Qed.

Lemma header_fields t d x : type_ok t -> zlen d < 65536 ->
  header_length (header t d ++ x) = zlen d /\ header_type (header t d ++ x) = t /\
  DecodeFixed32 (header t d ++ x) = u32 (Mask (crc32c 0 (t :: d))) /\
  zdrop 6 (header t d ++ x) = t :: x /\ zdrop 7 (header t d ++ x) = x.
Proof.
  intros Ht%type_range Hd. zlen_pos. destruct (raw_header_fields (Mask (crc32c 0 (t :: d))) (zlen d) t x ltac:(lia)) as (E1 & E2 & E3).
  split; [done|]. split; [|done]. rewrite <- (char_type t) at 2 by lia. done.
Qed.

Lemma header_crc t d : type_ok t -> bytes_ok d -> Unmask (u32 (Mask (crc32c 0 (t :: d)))) = crc32c 0 (t :: d).
Proof.
  intros Ht%type_range Hd. destruct (Unmask_Mask (crc32c 0 (t :: d))) as [E Hw].
  { apply crc32c_word; [unfold is_word; lia|]. constructor; [unfold is_byte; lia|done]. }
  unfold u32. rewrite Z.mod_small by (unfold is_word in Hw; lia). done.
Qed.

Section Reading.
Context {F : Type} `{ReliableSequential F}.
Implicit Types r : Reader F.

(** ** One physical record *)

(** The steps of [ReadPhysicalRecord] with a header in the buffer. *)
Lemma physical_whole fuel res r t d post : type_ok t -> bytes_ok d -> zlen d < 65536 -> initial_offset r = 0 -> buffer r = header t d ++ d ++ post ->
  ReadPhysicalRecord_loop (S fuel) res r = (Some (t, d), set_buffer post r).
Proof.
  intros Ht Hd Hl Hi Hb. destruct (header_fields t d (d ++ post) Ht Hl) as (EL & ET & EC & E6 & E7). zlen_pos.
  cbn [ReadPhysicalRecord_loop]. rewrite get_state. rewrite Hb. fold (header_length (header t d ++ d ++ post)). fold (header_type (header t d ++ d ++ post)).
  rewrite EL, ET, EC, E6, header_crc by done. rewrite !zlen_app, zlen_header. change kHeaderSize with 7.
  pose proof (zlen_nonneg post). destruct (Z.ltb_spec (7 + (zlen d + zlen post)) 7); [lia|]. rewrite Z.gtb_ltb. destruct (Z.ltb_spec (7 + (zlen d + zlen post)) (7 + zlen d)); [lia|].
  pose proof (type_range t Ht). destruct (Z.eqb_spec t kZeroType) as [Ez|_]; [change kZeroType with 0 in Ez; lia|]. cbn [andb].
  assert (Hbt : bytes_ok (t :: d)) by (constructor; [unfold is_byte; lia|done]).
  replace (ztake (1 + zlen d) (t :: d ++ post)) with (t :: d) by (symmetry; apply (ztake_app (1 + zlen d) (t :: d) post), zlen_cons).
  unfold Value. rewrite Extend_crc32c by (done || (rewrite ?zlen_cons; unfold is_word; lia)). rewrite Z.eqb_refl, andb_false_r.
  rewrite modify_state, get_state. cbn [end_of_buffer_offset buffer initial_offset set_buffer]. rewrite Hi.
  match goal with |- context [u64 ?x <? 0] => destruct (Z.ltb_spec (u64 x) 0) as [Hneg|_]; [unfold u64 in Hneg; dlia|] end.
  unfold ret. rewrite E7. replace (zdrop (7 + zlen d) (header t d ++ d ++ post)) with post by (rewrite app_assoc; symmetry; apply zdrop_app; rewrite zlen_app, zlen_header; done).
  by rewrite ztake_app.
Qed.

Lemma physical_torn fuel res r t d x : type_ok t -> zlen d < 65536 -> eof r = true -> buffer r = header t d ++ x -> zlen x < zlen d ->
  ReadPhysicalRecord_loop (S fuel) res r = (Some (kEof, res), set_buffer [] r).
Proof.
  intros Ht Hl He Hb Hx. destruct (header_fields t d x Ht Hl) as (EL & _). cbn [ReadPhysicalRecord_loop]. rewrite get_state. rewrite Hb.
  fold (header_length (header t d ++ x)). rewrite EL, !zlen_app, zlen_header. change kHeaderSize with 7. zlen_pos.
  destruct (Z.ltb_spec (7 + zlen x) 7); [lia|]. rewrite Z.gtb_ltb. destruct (Z.ltb_spec (7 + zlen x) (7 + zlen d)); [|lia].
  rewrite modify_state, He. done.
Qed.

Lemma physical_eof fuel res r : eof r = true -> zlen (buffer r) < 7 -> ReadPhysicalRecord_loop (S fuel) res r = (Some (kEof, res), set_buffer [] r).
Proof.
  intros He Hb. cbn [ReadPhysicalRecord_loop]. rewrite get_state. change kHeaderSize with 7. destruct (Z.ltb_spec (zlen (buffer r)) 7); [|lia]. by rewrite He.
Qed.

(** The state after a block is read. *)
Lemma physical_refill fuel res r : eof r = false -> zlen (buffer r) < 7 -> exists r',
  ReadPhysicalRecord_loop (S fuel) res r = ReadPhysicalRecord_loop fuel res r' /\
  buffer r' = ztake kBlockSize (remaining (file r)) /\ remaining (file r') = zdrop kBlockSize (remaining (file r)) /\
  eof r' = (zlen (ztake kBlockSize (remaining (file r))) <? kBlockSize) /\
  end_of_buffer_offset r' = u64 (end_of_buffer_offset r + zlen (ztake kBlockSize (remaining (file r)))) /\
  reporter r' = reporter r /\ checksum r' = checksum r /\ last_record_offset r' = last_record_offset r /\
  initial_offset r' = initial_offset r /\ resyncing r' = resyncing r.
Proof.
  intros He Hb. cbn [ReadPhysicalRecord_loop]. rewrite get_state. change kHeaderSize with 7. destruct (Z.ltb_spec (zlen (buffer r)) 7); [|lia].
  rewrite He. cbn [negb]. rewrite modify_state. destruct (Read_reliable (file r) kBlockSize) as (f & E & Ef).
  unfold read_file. unfold bind at 1. cbn [file set_buffer]. rewrite E. rewrite modify_state. cbn [ok negb]. rewrite get_state.
  cbn [buffer set_buffer set_file set_end]. set (b := ztake kBlockSize (remaining (file r))) in *. destruct (zlen b <? kBlockSize).
  - rewrite modify_state. eexists. split; [reflexivity|]. cbn. done.
  - rewrite bind_ret. eexists. split; [reflexivity|]. cbn. done.
Qed.

(** ** Reading at a position *)

(** The reader is at [pos] of a file of bytes [T]: its buffer is the rest of a block that
    has been read, unless the file ends before. *)
Record synced (T : list Z) (pos : Z) r : Prop := mkSynced {
  synced_range : 0 <= pos <= zlen T /\ zlen T < 2 ^ 63;
  synced_bytes : buffer r ++ remaining (file r) = zdrop pos T;
  synced_end : end_of_buffer_offset r = pos + zlen (buffer r);
  synced_eof : eof r = true -> remaining (file r) = [];
  synced_block : eof r = false -> end_of_buffer_offset r mod kBlockSize = 0;
  synced_buffer : zlen (buffer r) <= kBlockSize - pos mod kBlockSize;
  synced_start : initial_offset r = 0 /\ resyncing r = false
}.

Lemma buffer_size T pos r : synced T pos r -> eof r = false ->
  (zlen (buffer r) = 0 /\ pos mod kBlockSize = 0) \/ zlen (buffer r) = kBlockSize - pos mod kBlockSize.
Proof.
  intros Hs He. pose proof (synced_block _ _ _ Hs He) as Hm. rewrite (synced_end _ _ _ Hs) in Hm. pose proof (synced_buffer _ _ _ Hs) as Hb.
  change kBlockSize with 32768 in *. zlen_pos. dlia.
Qed.

Lemma small_buffer T pos r : synced T pos r -> eof r = false -> zlen (buffer r) < 7 -> zlen (buffer r) = padding pos.
Proof.
  intros Hs He Hb. pose proof (buffer_size T pos r Hs He) as Hz. unfold padding. change kHeaderSize with 7. change kBlockSize with 32768 in *. cbv zeta.
  destruct (Z.ltb_spec (32768 - pos mod 32768) 7); lia.
Qed.

Lemma large_buffer T pos r : synced T pos r -> 7 <= zlen (buffer r) -> padding pos = 0.
Proof.
  intros Hs Hb. pose proof (synced_buffer _ _ _ Hs) as Hz. unfold padding. change kHeaderSize with 7. change kBlockSize with 32768 in *. cbv zeta.
  destruct (Z.ltb_spec (32768 - pos mod 32768) 7); lia.
Qed.

Lemma zdrop_next (T a b : list Z) pos : 0 <= pos <= zlen T -> zdrop pos T = a ++ b -> zdrop (pos + zlen a) T = b /\ pos + zlen a <= zlen T.
Proof.
  intros Hp E. pose proof (ztake_zdrop pos T) as ET. rewrite E in ET. pose proof (zlen_ztake pos T Hp) as Hl. rewrite <- ET. split.
  - rewrite app_assoc. apply zdrop_app. rewrite zlen_app. lia.
  - rewrite !zlen_app. zlen_pos. lia.
Qed.

(** What a call does not change. *)
Definition same_reports (r r' : Reader F) : Prop := reporter r' = reporter r /\ checksum r' = checksum r /\ resyncing r' = resyncing r.

Lemma same_reports_trans r r' r'' : same_reports r r' -> same_reports r' r'' -> same_reports r r''.
Proof. intros (E1 & E2 & E3) (E4 & E5 & E6). unfold same_reports. by rewrite E4, E5, E6. Qed.

Lemma zlen_ztake_min {A} n (l : list A) : 0 <= n -> zlen (ztake n l) = Z.min n (zlen l).
Proof. intros Hn. unfold zlen, ztake. rewrite length_take. lia. Qed.

(** A new block: a small buffer was the padding, and the next header is at the front. *)
Lemma refill_synced T pos r fuel res : synced T pos r -> eof r = false -> zlen (buffer r) < 7 -> exists r',
  ReadPhysicalRecord_loop (S fuel) res r = ReadPhysicalRecord_loop fuel res r' /\ synced T (header_at pos) r' /\ same_reports r r' /\
  (zlen (buffer r') < kBlockSize -> eof r' = true).
Proof.
  intros Hs He Hb. pose proof (small_buffer T pos r Hs He Hb) as Hp. pose proof (synced_range _ _ _ Hs) as [Hr H63].
  destruct (physical_refill fuel res r He Hb) as (r1 & E & B1 & R1 & E1 & O1 & P1 & C1 & _ & I1 & Y1).
  destruct (zdrop_next T (buffer r) (remaining (file r)) pos Hr (eq_sym (synced_bytes _ _ _ Hs))) as [HT Hend].
  pose proof (synced_block _ _ _ Hs He) as Hm. rewrite (synced_end _ _ _ Hs) in Hm. rewrite Hp in HT, Hend, Hm. fold (header_at pos) in HT, Hend, Hm.
  exists r1. split; [done|]. rewrite <- B1 in *. zlen_pos. assert (Hh : pos <= header_at pos) by (unfold header_at; lia). assert (Hbl : header_at pos + zlen (buffer r1) <= zlen T).
  { rewrite B1, <- HT, zlen_ztake_min, zlen_zdrop by done || lia. lia. }
  split; [|split; [by split|]].
  - constructor.
    + split; [lia|done].
    + by rewrite R1, B1, ztake_zdrop.
    + rewrite O1, (synced_end _ _ _ Hs), Hp. fold (header_at pos). unfold u64. apply Z.mod_small. lia.
    + rewrite E1, R1. intros Hlt%Z.ltb_lt. apply zdrop_all. rewrite B1, zlen_ztake_min in Hlt by done. lia.
    + rewrite E1. intros Hge%Z.ltb_ge. rewrite O1, (synced_end _ _ _ Hs), Hp. fold (header_at pos).
      assert (Hk : zlen (buffer r1) = kBlockSize). { revert Hge. rewrite B1, zlen_ztake_min by done. lia. }
      unfold u64. rewrite (Z.mod_small _ 18446744073709551616) by lia. rewrite Hk. change kBlockSize with 32768 in *. dlia.
    + rewrite Hm, B1, zlen_ztake_min by done. lia.
    + rewrite I1, Y1. apply (synced_start _ _ _ Hs).
  - intros Hlt. rewrite E1. by apply Z.ltb_lt.
Qed.

(** A whole fragment at the front of the buffer. *)
Lemma whole_in_buffer T pos r fuel res t d post : synced T pos r -> 7 <= zlen (buffer r) -> zdrop pos T = header t d ++ d ++ post ->
  pos mod kBlockSize + 7 + zlen d <= kBlockSize -> type_ok t -> bytes_ok d ->
  exists r', ReadPhysicalRecord_loop (S fuel) res r = (Some (t, d), r') /\ synced T (pos + 7 + zlen d) r' /\ same_reports r r'.
Proof.
  intros Hs Hb HT Hf Ht Hd. pose proof (synced_range _ _ _ Hs) as [Hr H63]. pose proof (synced_bytes _ _ _ Hs) as E. rewrite HT in E.
  rewrite app_assoc in E. assert (Hl : zlen (header t d ++ d) = 7 + zlen d) by (by rewrite zlen_app, zlen_header). zlen_pos.
  pose proof (Z.mod_pos_bound pos kBlockSize ltac:(done)) as Hpm.
  assert (Hin : 7 + zlen d <= zlen (buffer r)).
  { destruct (eof r) eqn:He; [|destruct (buffer_size T pos r Hs He); lia]. rewrite (synced_eof _ _ _ Hs He), app_nil_r in E. rewrite E, zlen_app, Hl. zlen_pos. lia. }
  destruct (app_split (header t d ++ d) post (buffer r) (remaining (file r))) as (post1 & EB & Ep); [done|lia|].
  rewrite <- app_assoc in EB. assert (Hd6 : zlen d < 65536) by (change kBlockSize with 32768 in *; lia). rewrite (physical_whole fuel res r t d post1 Ht Hd Hd6 (proj1 (synced_start _ _ _ Hs)) EB).
  eexists. split; [reflexivity|]. split; [|by split]. rewrite app_assoc in HT. destruct (zdrop_next T _ post pos Hr HT) as [HT' Hend]. rewrite Hl in HT', Hend.
  assert (Hpost : zlen (buffer r) = 7 + zlen d + zlen post1) by (rewrite EB, app_assoc, zlen_app, Hl; done).
  pose proof (synced_buffer _ _ _ Hs) as Hbuf. zlen_pos.
  constructor; cbn [buffer file end_of_buffer_offset eof initial_offset resyncing set_buffer].
  - lia.
  - rewrite <- Ep, <- HT'. f_equal. lia.
  - rewrite (synced_end _ _ _ Hs). lia.
  - apply (synced_eof _ _ _ Hs).
  - apply (synced_block _ _ _ Hs).
  - change kBlockSize with 32768 in *. dlia.
  - apply (synced_start _ _ _ Hs).
Qed.

(** The bytes of a fragment up to a crash. *)
Lemma torn_in_buffer T pos r fuel res t d missing : synced T pos r -> (zlen (buffer r) < 7 -> eof r = true) -> zdrop pos T ++ missing = header t d ++ d -> missing <> [] ->
  pos mod kBlockSize + 7 + zlen d <= kBlockSize -> type_ok t ->
  exists r', ReadPhysicalRecord_loop (S fuel) res r = (Some (kEof, res), r') /\ same_reports r r'.
Proof.
  intros Hs Hsmall HT Hm Hf Ht. destruct (Z.lt_ge_cases (zlen (buffer r)) 7) as [Hb|Hb].
  { rewrite physical_eof by auto. eexists. split; [reflexivity|by split]. }
  pose proof (synced_bytes _ _ _ Hs) as E. rewrite <- E in HT. assert (Hmz : zlen missing <> 0) by (intros Hz; by apply zlen_0_nil in Hz).
  pose proof (f_equal zlen HT) as Hl. rewrite !zlen_app, zlen_header in Hl. change kHeaderSize with 7 in Hl. zlen_pos.
  pose proof (Z.mod_pos_bound pos kBlockSize ltac:(done)) as Hpm. assert (He : eof r = true).
  { destruct (eof r) eqn:He; [done|]. destruct (buffer_size T pos r Hs He); lia. }
  rewrite (synced_eof _ _ _ Hs He), app_nil_r in HT. rewrite (synced_eof _ _ _ Hs He), zlen_nil in Hl.
  destruct (app_split (header t d) d (buffer r) missing) as (x & EB & Ed); [done|rewrite zlen_header; done|].
  assert (Hd6 : zlen d < 65536) by (change kBlockSize with 32768 in *; lia). rewrite (physical_torn fuel res r t d x Ht Hd6 He EB); [eexists; split; [reflexivity|by split]|].
  rewrite Ed, zlen_app. lia.
Qed.

Lemma header_at_aligned pos : 0 <= pos -> header_at pos = pos + padding pos /\ 0 <= padding pos < 7 /\ (padding pos = 0 -> header_at pos = pos).
Proof. intros Hp. destruct (padding_spec pos Hp) as [Hpad _]. unfold header_at. change kHeaderSize with 7 in Hpad. lia. Qed.

Lemma read_fragment T pos r res t d post : synced T pos r -> zdrop pos T = placed pos t d ++ post -> fits pos d -> type_ok t -> bytes_ok d ->
  exists r', ReadPhysicalRecord res r = (Some (t, d), r') /\ synced T (fragment_end pos d) r' /\ same_reports r r'.
Proof.
  intros Hs HT Hf Ht Hd. pose proof (synced_range _ _ _ Hs) as [Hr H63]. destruct (header_at_aligned pos ltac:(lia)) as (Hh & Hpad & Hha).
  unfold fits in Hf. unfold fragment_end. unfold placed in HT. rewrite <- !app_assoc in HT. change kHeaderSize with 7 in *.
  destruct (zdrop_next T _ _ pos Hr HT) as [HT' _]. rewrite zlen_replicate in HT'. replace (pos + Z.of_nat (Z.to_nat (padding pos))) with (header_at pos) in HT' by lia.
  unfold ReadPhysicalRecord. destruct (Z.lt_ge_cases (zlen (buffer r)) 7) as [Hb|Hb].
  - destruct (eof r) eqn:He.
    { pose proof (synced_bytes _ _ _ Hs) as E. rewrite (synced_eof _ _ _ Hs He), app_nil_r, HT in E. rewrite E, !zlen_app, zlen_header in Hb. change kHeaderSize with 7 in Hb. zlen_pos. lia. }
    destruct (refill_synced T pos r 1 res Hs He Hb) as (r1 & -> & Hs1 & Hsame & Hshort).
    destruct (whole_in_buffer T (header_at pos) r1 0 res t d post Hs1) as (r2 & -> & Hs2 & Hsame2); try done.
    { destruct (Z.lt_ge_cases (zlen (buffer r1)) kBlockSize) as [Hlt|]; [|change kBlockSize with 32768 in *; lia].
      pose proof (synced_bytes _ _ _ Hs1) as E. rewrite (synced_eof _ _ _ Hs1 (Hshort Hlt)), app_nil_r, HT' in E. rewrite E, !zlen_app, zlen_header. change kHeaderSize with 7. zlen_pos. lia. }
    exists r2. split; [done|]. split; [done|]. by apply (same_reports_trans r r1 r2).
  - pose proof (large_buffer T pos r Hs Hb) as Hp. rewrite (Hha Hp) in *. by apply (whole_in_buffer T pos r 1 res t d post).
Qed.

Lemma read_torn T pos r res t d missing : synced T pos r -> zdrop pos T ++ missing = placed pos t d -> missing <> [] -> fits pos d -> type_ok t ->
  exists r', ReadPhysicalRecord res r = (Some (kEof, res), r') /\ same_reports r r'.
Proof.
  intros Hs HT Hm Hf Ht. pose proof (synced_range _ _ _ Hs) as [Hr H63]. destruct (header_at_aligned pos ltac:(lia)) as (Hh & Hpad & Hha).
  unfold fits in Hf. unfold placed in HT. change kHeaderSize with 7 in *.
  unfold ReadPhysicalRecord. destruct (Z.lt_ge_cases (zlen (buffer r)) 7) as [Hb|Hb].
  - destruct (eof r) eqn:He; [rewrite physical_eof by done; eexists; split; [reflexivity|by split]|].
    pose proof (small_buffer T pos r Hs He Hb) as Hp. rewrite <- (synced_bytes _ _ _ Hs), <- app_assoc in HT.
    apply app_inj_zlen in HT as [_ HT]; [|rewrite zlen_replicate; lia].
    destruct (zdrop_next T (buffer r) (remaining (file r)) pos Hr (eq_sym (synced_bytes _ _ _ Hs))) as [HT' _]. rewrite Hp, <- Hh in HT'. rewrite <- HT' in HT.
    destruct (refill_synced T pos r 1 res Hs He Hb) as (r1 & -> & Hs1 & Hsame & Hshort).
    destruct (torn_in_buffer T (header_at pos) r1 0 res t d missing Hs1) as (r2 & -> & Hsame2); try done.
    { intros Hlt. apply Hshort. change kBlockSize with 32768. lia. }
    exists r2. split; [done|]. by apply (same_reports_trans r r1 r2).
  - pose proof (large_buffer T pos r Hs Hb) as Hp. rewrite (Hha Hp) in *. rewrite Hp in HT. apply (torn_in_buffer T pos r 1 res t d missing); try done. lia.
Qed.
End Reading.
