(* ===== verification/LdbLogFacts.v ===== *)
(** * What is read from a log (theorems about LdbLog.v)

    Records: the fragments of a record are joined again, a record that is not whole is
    not seen, and the records before it are, in order. *)

From stdpp Require Import strings pretty.
From S2P Require Import Prelude Words HashBlocks PbWireFacts LdbCoding LdbCrc LdbEnv LdbLog LdbLogWrite LdbLogRead.

Section Records.
Context {F : Type} `{ReliableSequential F}.
Implicit Types r : Reader F.

Lemma synced_same T pos r r' : synced T pos r -> buffer r' = buffer r -> file r' = file r -> eof r' = eof r -> end_of_buffer_offset r' = end_of_buffer_offset r ->
  initial_offset r' = initial_offset r -> resyncing r' = resyncing r -> synced T pos r'.
Proof. intros [H1 H2 H3 H4 H5 H6 H7] E1 E2 E3 E4 E5 E6. constructor; rewrite ?E1, ?E2, ?E3, ?E4, ?E5, ?E6; done. Qed.

(** The offset that is kept for a fragment. *)
Lemma physical_offset T pos d r : 0 <= pos -> synced T (fragment_end pos d) r ->
  u64 (end_of_buffer_offset r - zlen (buffer r) - kHeaderSize - zlen d) = header_at pos.
Proof.
  intros Hp Hs. rewrite (synced_end _ _ _ Hs). destruct (header_at_aligned pos Hp) as (Hh & Hpad & _). pose proof (synced_range _ _ _ Hs).
  unfold fragment_end in *. change kHeaderSize with 7 in *. zlen_pos. unfold u64. replace (_ - _ - 7 - _) with (header_at pos) by lia. apply Z.mod_small. lia.
Qed.

(** One round of the loop of [ReadRecord] on a fragment. *)
Lemma fragment_round fuel b prosp frag scratch r t d r1 : ReadPhysicalRecord frag r = (Some (t, d), r1) -> resyncing r1 = false -> type_ok t ->
  ReadRecord_loop (S fuel) b prosp frag scratch r =
    let offset := u64 (end_of_buffer_offset r1 - zlen (buffer r1) - kHeaderSize - zlen d) in
    (if t =? kFullType then
       (if (b && negb (zlen scratch =? 0))%bool then ReportCorruption (zlen scratch) "partial record without end(1)" else ret tt) ;;;
       modify (set_last offset) ;;; ret (true, d, [])
     else if t =? kFirstType then
       (if (b && negb (zlen scratch =? 0))%bool then ReportCorruption (zlen scratch) "partial record without end(2)" else ret tt) ;;;
       ReadRecord_loop fuel true offset d d
     else if t =? kMiddleType then
       if negb b then ReportCorruption (zlen d) "missing start of fragmented record(1)" ;;; ReadRecord_loop fuel b prosp d scratch
       else ReadRecord_loop fuel b prosp d (scratch ++ d)
     else
       if negb b then ReportCorruption (zlen d) "missing start of fragmented record(2)" ;;; ReadRecord_loop fuel b prosp d scratch
       else modify (set_last prosp) ;;; ret (true, scratch ++ d, scratch ++ d)) r1.
Proof.
  intros E Hr Ht. cbn [ReadRecord_loop]. rewrite (bind_step _ _ _ _ _ E), get_state. rewrite Hr. cbn [andb]. rewrite bind_ret.
  unfold type_ok in Ht. destruct Ht as [-> |[-> |[-> | ->]]]; reflexivity.
Qed.

Lemma cuts_types begin pos data fs : cuts begin pos data fs -> Forall (fun f => type_ok (fst f)) fs.
Proof. intros Hc. induction Hc; repeat (apply Forall_cons; split); try done; unfold type_ok; cbn [fst]; destruct begin; auto. Qed.

(** The fragments of a record. *)
Lemma read_cuts begin pos data fs : cuts begin pos data fs -> forall T r post fuel prosp frag scratch, synced T pos r ->
  zdrop pos T = layout pos fs ++ post -> bytes_ok data -> (length fs <= fuel)%nat ->
  exists r' scratch', ReadRecord_loop fuel (negb begin) prosp frag scratch r = (Some (true, (if begin then [] else scratch) ++ data, scratch'), r') /\
    synced T (pos + zlen (layout pos fs)) r' /\ same_reports r r' /\ last_record_offset r' = (if begin then header_at pos else prosp).
Proof.
  induction 1 as [begin pos d Hf|begin pos d data fs Hf Hc IH]; intros T r post fuel prosp frag scratch Hs HT Hok Hfuel;
    pose proof (synced_range _ _ _ Hs) as [Hr _]; pose proof (fragment_end_ge pos d ltac:(lia)) as Hge; change kHeaderSize with 7 in Hge.
  - destruct fuel as [|fuel]; [cbn in Hfuel; lia|]. cbn [layout] in *. rewrite app_nil_r in *.
    destruct (read_fragment T pos r frag _ d post Hs HT Hf) as (r1 & E & Hs1 & Hsame); [unfold type_ok; destruct begin; auto|done|].
    rewrite (fragment_round _ _ _ _ _ _ _ _ _ E (proj2 (synced_start _ _ _ Hs1))) by (unfold type_ok; destruct begin; auto).
    cbv zeta. rewrite (physical_offset T pos d r1 ltac:(lia) Hs1). rewrite zlen_placed by lia. replace (pos + (fragment_end pos d - pos)) with (fragment_end pos d) by lia.
    destruct begin; (do 2 eexists; split; [reflexivity|]; split; [by apply (synced_same T _ r1)|by split]).
  - destruct fuel as [|fuel]; [cbn in Hfuel; lia|]. cbn [layout length] in *. rewrite <- app_assoc in HT. apply Forall_app in Hok as [Hd Hok].
    destruct (read_fragment T pos r frag _ d _ Hs HT Hf) as (r1 & E & Hs1 & Hsame); [unfold type_ok; destruct begin; auto|done|].
    rewrite (fragment_round _ _ _ _ _ _ _ _ _ E (proj2 (synced_start _ _ _ Hs1))) by (unfold type_ok; destruct begin; auto).
    destruct (zdrop_next T _ _ pos Hr HT) as [HT1 _]. rewrite zlen_placed in HT1 by lia. replace (pos + (fragment_end pos d - pos)) with (fragment_end pos d) in HT1 by lia.
    cbv zeta. rewrite (physical_offset T pos d r1 ltac:(lia) Hs1). rewrite zlen_app, zlen_placed by lia.
    replace (pos + (fragment_end pos d - pos + zlen (layout (fragment_end pos d) fs))) with (fragment_end pos d + zlen (layout (fragment_end pos d) fs)) by lia.
    destruct begin.
    + change (kFirstType =? kFullType) with false. change (kFirstType =? kFirstType) with true. cbn [negb andb]. rewrite bind_ret.
      destruct (IH T r1 post fuel (header_at pos) d d Hs1 HT1 Hok) as (r2 & scratch' & E2 & Hs2 & Hsame2 & Hl2); [lia|]. cbn [negb] in E2. rewrite E2.
      do 2 eexists. split; [reflexivity|]. split; [done|]. split; [by apply (same_reports_trans r r1 r2)|done].
    + change (kMiddleType =? kFullType) with false. change (kMiddleType =? kFirstType) with false. change (kMiddleType =? kMiddleType) with true. cbn [negb].
      destruct (IH T r1 post fuel prosp d (scratch ++ d) Hs1 HT1 Hok) as (r2 & scratch' & E2 & Hs2 & Hsame2 & Hl2); [lia|]. cbn [negb] in E2. rewrite E2.
      rewrite <- app_assoc. do 2 eexists. split; [reflexivity|]. split; [done|]. split; [by apply (same_reports_trans r r1 r2)|done].
Qed.

Lemma eof_round fuel b prosp frag scratch r r1 : ReadPhysicalRecord frag r = (Some (kEof, frag), r1) -> resyncing r1 = false ->
  ReadRecord_loop (S fuel) b prosp frag scratch r = (Some (false, [], if b then [] else scratch), r1).
Proof. intros E Hr. cbn [ReadRecord_loop]. rewrite (bind_step _ _ _ _ _ E), get_state. rewrite Hr. reflexivity. Qed.

(** A record that is not whole. *)
Lemma torn_cuts begin pos data fs : cuts begin pos data fs -> forall T r missing fuel prosp frag scratch, synced T pos r ->
  zdrop pos T ++ missing = layout pos fs -> missing <> [] -> bytes_ok data -> (length fs <= fuel)%nat ->
  exists r' scratch', ReadRecord_loop fuel (negb begin) prosp frag scratch r = (Some (false, [], scratch'), r') /\ same_reports r r'.
Proof.
  induction 1 as [begin pos d Hf|begin pos d data fs Hf Hc IH]; intros T r missing fuel prosp frag scratch Hs HT Hm Hok Hfuel;
    pose proof (synced_range _ _ _ Hs) as [Hr _]; pose proof (fragment_end_ge pos d ltac:(lia)) as Hge; change kHeaderSize with 7 in Hge;
    (destruct fuel as [|fuel]; [cbn in Hfuel; lia|]); cbn [layout length] in *; pose proof (proj2 (synced_start _ _ _ Hs)) as Hrs.
  - rewrite app_nil_r in HT. destruct (read_torn T pos r frag _ d missing Hs HT Hm Hf) as (r1 & E & Hsame); [unfold type_ok; destruct begin; auto|].
    rewrite (eof_round _ _ _ _ _ _ _ E) by (destruct Hsame as (_ & _ & ->); done). by do 2 eexists.
  - set (t := if begin then kFirstType else kMiddleType) in *. assert (Ht : type_ok t) by (unfold type_ok, t; destruct begin; auto).
    apply Forall_app in Hok as [Hd Hok]. destruct (Z.le_gt_cases (zlen (placed pos t d)) (zlen (zdrop pos T))) as [Hin|Hout].
    + destruct (app_split (placed pos t d) (layout (fragment_end pos d) fs) (zdrop pos T) missing) as (rest & EB & Ep); [done|done|].
      destruct (read_fragment T pos r frag t d rest Hs EB Hf Ht Hd) as (r1 & E & Hs1 & Hsame). pose proof (proj2 (synced_start _ _ _ Hs1)) as Hrs1.
      destruct (zdrop_next T _ _ pos Hr EB) as [HT1 _]. rewrite zlen_placed in HT1 by lia. replace (pos + (fragment_end pos d - pos)) with (fragment_end pos d) in HT1 by lia.
      rewrite (fragment_round _ _ _ _ _ _ _ _ _ E Hrs1 Ht). cbv zeta. rewrite <- HT1 in Ep. symmetry in Ep. unfold t. destruct begin.
      * change (kFirstType =? kFullType) with false. change (kFirstType =? kFirstType) with true. cbn [negb andb]. rewrite bind_ret.
        match goal with |- context [ReadRecord_loop fuel true ?o d d] =>
          destruct (IH T r1 missing fuel o d d Hs1 Ep Hm Hok) as (r2 & scratch' & E2 & Hsame2); [lia|] end.
        cbn [negb] in E2. rewrite E2. do 2 eexists. split; [reflexivity|]. by apply (same_reports_trans r r1 r2).
      * change (kMiddleType =? kFullType) with false. change (kMiddleType =? kFirstType) with false. change (kMiddleType =? kMiddleType) with true. cbn [negb].
        destruct (IH T r1 missing fuel prosp d (scratch ++ d) Hs1 Ep Hm Hok) as (r2 & scratch' & E2 & Hsame2); [lia|]. cbn [negb] in E2. rewrite E2.
        do 2 eexists. split; [reflexivity|]. by apply (same_reports_trans r r1 r2).
    + destruct (app_split (zdrop pos T) missing (placed pos t d) (layout (fragment_end pos d) fs)) as (m & EB & Ep); [done|lia|].
      assert (Hmne : m <> []) by (intros ->; rewrite app_nil_r in EB; rewrite EB in Hout; lia). symmetry in EB.
      destruct (read_torn T pos r frag t d m Hs EB Hmne Hf Ht) as (r1 & E & Hsame).
      rewrite (eof_round _ _ _ _ _ _ _ E) by (destruct Hsame as (_ & _ & ->); done). by do 2 eexists.
Qed.

(** The end of the log: as if before any fragment. *)
Lemma end_of_log T r fuel prosp frag scratch : synced T (zlen T) r ->
  exists r' scratch', ReadRecord_loop (S fuel) false prosp frag scratch r = (Some (false, [], scratch'), r') /\ same_reports r r'.
Proof.
  intros Hs. pose proof (synced_range _ _ _ Hs) as [Hr _]. destruct (padding_spec (zlen T) ltac:(lia)) as [_ Hf].
  assert (Hc : cuts true (zlen T) [] [(kFullType, [])]) by (apply (cuts_end true); unfold fits; rewrite zlen_nil; lia).
  apply (torn_cuts true (zlen T) [] _ Hc T r (placed (zlen T) kFullType []) (S fuel)); try done.
  - cbn [layout]. rewrite zdrop_all by lia. by rewrite app_nil_r.
  - unfold placed, header. destruct (replicate _ 0); [|done]. by destruct (le_bytes 4 _).
  - cbn. lia.
Qed.
End Records.

(** ** Whole logs *)

(** All the records of a log, until the reader says there are no more. *)
Fixpoint read_records {F : Type} `{SequentialFile F} (rounds fuel : nat) : M (Reader F) (list (list Z)) :=
  match rounds with
  | O => fail
  | S rounds =>
      let* '(found, record, _) := ReadRecord fuel [] [] in
      if found : bool then let* records := read_records rounds fuel in ret (record :: records) else ret []
  end.

Fixpoint add_records {F : Type} `{WritableFile F} (records : list (list Z)) : M (Writer F) Status :=
  match records with
  | [] => ret OK
  | record :: records => let* s := AddRecord record in if ok s then add_records records else ret s
  end.

(** The file of a log that has been written from the start. *)
Definition log_of (records : list (list Z)) : list Z := dest (snd (add_records records (Writer_new []))).

(** The records of a file from [pos] on. *)
Fixpoint records_at (pos : Z) (records : list (list Z)) (bytes : list Z) : Prop :=
  match records with
  | [] => bytes = []
  | record :: records => exists fs rest, cuts true pos record fs /\ bytes = layout pos fs ++ rest /\ records_at (pos + zlen (layout pos fs)) records rest
  end.

Section Written.
Context {F : Type} `{ReliableWritable F}.

Lemma add_records_layout records (w : Writer F) pos : 0 <= pos -> Forall (fun d => bytes_ok d) records -> writing pos w ->
  exists w' bytes, add_records records w = (Some OK, w') /\ contents (dest w') = contents (dest w) ++ bytes /\ records_at pos records bytes /\
    writing (pos + zlen bytes) w'.
Proof.
  revert w pos. induction records as [|d records IH]; intros w pos Hp Hok Hw.
  - exists w, []. rewrite app_nil_r, zlen_nil, Z.add_0_r. done.
  - apply Forall_cons_1 in Hok as [Hd Hok]. destruct (AddRecord_cuts d w pos Hp Hd Hw) as (w1 & fs & E1 & Hc & C1 & W1).
    destruct (IH w1 (pos + zlen (layout pos fs))) as (w2 & bytes & E2 & C2 & R2 & W2); [zlen_pos; lia|done|done|].
    exists w2, (layout pos fs ++ bytes). cbn [add_records]. rewrite (bind_step _ _ _ _ _ E1). cbn [ok]. rewrite E2. split; [done|].
    split; [by rewrite C2, C1, <- app_assoc|]. split; [by exists fs, bytes|]. by rewrite zlen_app, Z.add_assoc.
Qed.

Lemma add_records_app records records' (w w1 : Writer F) : add_records records w = (Some OK, w1) ->
  add_records (records ++ records') w = add_records records' w1.
Proof.
  revert w. induction records as [|d records IH]; intros w; [by intros [= ->]|]. cbn [app add_records]. unfold bind.
  destruct (AddRecord d w) as [[s|] w0]; [|done]. destruct s; cbn [ok]; try done. apply IH.
Qed.
End Written.

Lemma writing_new : writing 0 (Writer_new ([] : list Z)).
Proof. by split. Qed.

(** A log after one more record, and after more of them. *)
Lemma log_split whole d rest : Forall (fun d => bytes_ok d) (whole ++ d :: rest) -> exists fs more,
  records_at 0 whole (log_of whole) /\ cuts true (zlen (log_of whole)) d fs /\
  log_of (whole ++ [d]) = log_of whole ++ layout (zlen (log_of whole)) fs /\ log_of (whole ++ d :: rest) = log_of (whole ++ [d]) ++ more.
Proof.
  intros Hok. apply Forall_app in Hok as [Hw Hok]. apply Forall_cons_1 in Hok as [Hd Hr]. unfold log_of.
  destruct (add_records_layout whole (Writer_new []) 0) as (w1 & L & E1 & C1 & R1 & W1); [done|done|apply writing_new|]. cbn [contents memory_reliable_writable dest Writer_new app] in C1.
  rewrite (add_records_app whole [d] _ w1), (add_records_app whole (d :: rest) _ w1), E1 by done. cbn [snd]. rewrite C1. rewrite Z.add_0_l in W1.
  destruct (AddRecord_cuts d w1 (zlen L)) as (w2 & fs & E2 & Hc & C2 & W2); [zlen_pos; lia|done|done|]. cbn [contents memory_reliable_writable] in C2.
  cbn [add_records]. rewrite !(bind_step _ _ _ _ _ E2). cbn [ok]. cbn [snd ret]. change (snd (ret OK w2)) with w2.
  destruct (add_records_layout rest w2 (zlen L + zlen (layout (zlen L) fs))) as (w3 & more & E3 & C3 & _ & _); [zlen_pos; lia|done|done|]. cbn [contents memory_reliable_writable] in C3.
  rewrite E3. cbn [snd]. rewrite C3, C2, C1. by exists fs, more.
Qed.

Lemma log_records records : Forall (fun d => bytes_ok d) records -> records_at 0 records (log_of records).
Proof.
  intros Hok. destruct (add_records_layout records (Writer_new []) 0) as (w1 & L & E1 & C1 & R1 & W1); [done|done|apply writing_new|].
  unfold log_of. rewrite E1. cbn [snd]. cbn [contents memory_reliable_writable dest Writer_new app] in C1. by rewrite C1.
Qed.

(** A fragment takes at least its header. *)
Lemma length_layout pos fs : 0 <= pos -> (length fs <= length (layout pos fs))%nat.
Proof.
  revert pos. induction fs as [|[t d] fs IH]; intros pos Hp; [done|]. cbn [layout length]. rewrite length_app. pose proof (fragment_end_ge pos d Hp) as Hge.
  change kHeaderSize with 7 in Hge. pose proof (zlen_placed pos t d Hp) as Hl. unfold zlen in Hl. specialize (IH (fragment_end pos d) ltac:(lia)). lia.
Qed.

Lemma length_records pos records bytes : 0 <= pos -> records_at pos records bytes -> (length records <= length bytes)%nat.
Proof.
  revert pos bytes. induction records as [|d records IH]; intros pos bytes Hp Hr; [cbn; lia|]. destruct Hr as (fs & rest & Hc & -> & Hr).
  specialize (IH (pos + zlen (layout pos fs)) rest ltac:(zlen_pos; lia) Hr). rewrite length_app. cbn [length]. pose proof (length_layout pos fs Hp). destruct Hc; cbn [length] in *; lia.
Qed.

Section ReadAll.
Context {F : Type} `{ReliableSequential F}.
Implicit Types r : Reader F.

Lemma read_record_start fuel record scratch r : initial_offset r = 0 -> 0 <= last_record_offset r ->
  ReadRecord fuel record scratch r = ReadRecord_loop fuel false 0 [] [] r.
Proof. intros Hi Hl. unfold ReadRecord. rewrite get_state, Hi. destruct (Z.ltb_spec (last_record_offset r) 0); [lia|]. done. Qed.

Lemma read_records_at records pos bytes : records_at pos records bytes -> forall T r post rounds fuel, synced T pos r -> zdrop pos T = bytes ++ post ->
  Forall (fun d => bytes_ok d) records -> 0 <= last_record_offset r -> (length bytes <= fuel)%nat ->
  exists r', read_records (length records + rounds) fuel r = (let* more := read_records rounds fuel in ret (records ++ more)) r' /\
    synced T (pos + zlen bytes) r' /\ same_reports r r' /\ 0 <= last_record_offset r'.
Proof.
  revert pos bytes. induction records as [|d records IH]; intros pos bytes Hb T r post rounds fuel Hs HT Hok Hl Hf.
  - cbn in Hb. subst bytes. exists r. rewrite zlen_nil, Z.add_0_r. split; [|done]. cbn [length Nat.add app]. unfold bind, ret.
    by destruct (read_records rounds fuel r) as [[?|] ?].
  - destruct Hb as (fs & rest & Hc & -> & Hb). apply Forall_cons_1 in Hok as [Hd Hok]. rewrite <- app_assoc in HT. rewrite length_app in Hf.
    pose proof (synced_range _ _ _ Hs) as [Hr _]. pose proof (length_layout pos fs ltac:(lia)) as Hlen.
    destruct (read_cuts true pos d fs Hc T r _ fuel 0 [] [] Hs HT Hd ltac:(lia)) as (r1 & scratch & E1 & Hs1 & Hsame1 & Hl1).
    destruct (zdrop_next T _ _ pos Hr HT) as [HT1 _].
    assert (Hlast : 0 <= last_record_offset r1) by (rewrite Hl1; destruct (padding_spec pos ltac:(lia)); unfold header_at; lia).
    destruct (IH _ rest Hb T r1 post rounds fuel Hs1 HT1 Hok Hlast ltac:(lia)) as (r2 & E2 & Hs2 & Hsame2 & Hl2).
    exists r2. cbn [length Nat.add read_records]. rewrite <- (read_record_start _ [] []) in E1 by (done || apply (synced_start _ _ _ Hs)).
    rewrite (bind_step _ _ _ _ _ E1). split; [|split; [by rewrite zlen_app, Z.add_assoc|split; [by apply (same_reports_trans r r1 r2)|done]]].
    cbn [app]. unfold bind at 1. rewrite E2. unfold bind, ret. by destruct (read_records rounds fuel r2) as [[?|] ?].
Qed.

Lemma synced_new (f : F) reporter checksum : zlen (remaining f) < 2 ^ 63 -> synced (remaining f) 0 (Reader_new f reporter checksum 0).
Proof. intros Hl. zlen_pos. by constructor. Qed.

Lemma read_none r rounds fuel scratch r' : initial_offset r = 0 -> 0 <= last_record_offset r ->
  ReadRecord_loop fuel false 0 [] [] r = (Some (false, [], scratch), r') -> read_records (S rounds) fuel r = (Some [], r').
Proof. intros Hi Hl E. rewrite <- (read_record_start _ [] []) in E by done. cbn [read_records]. by rewrite (bind_step _ _ _ _ _ E). Qed.

(** What a crash at byte [n] leaves of a log: its whole records and no other. *)
Definition crash (whole rest : list (list Z)) (n : Z) : Prop :=
  Forall (fun d => bytes_ok d) (whole ++ rest) /\ zlen (log_of (whole ++ rest)) < 2 ^ 63 /\ zlen (log_of whole) <= n /\
  match rest with [] => True | d :: _ => n < zlen (log_of (whole ++ [d])) end.

Lemma crash_tail (f : F) whole rest n fuel : crash whole rest n -> remaining f = ztake n (log_of (whole ++ rest)) ->
  (length (log_of (whole ++ rest)) < fuel)%nat ->
  (length (log_of whole) < fuel)%nat /\ zlen (remaining f) < 2 ^ 63 /\ (exists tail, remaining f = log_of whole ++ tail) /\
  forall r, synced (remaining f) (zlen (log_of whole)) r ->
    exists r' scratch, ReadRecord_loop fuel false 0 [] [] r = (Some (false, [], scratch), r') /\ same_reports r r'.
Proof.
  intros (Hok & H63 & Hn & Hrest) HT Hfuel.
  assert (HT63 : zlen (remaining f) < 2 ^ 63) by (rewrite HT; unfold ztake, zlen in *; rewrite length_take; lia).
  assert (Hlog : exists more, log_of (whole ++ rest) = log_of whole ++ more).
  { destruct rest as [|d rest]; [exists []; by rewrite !app_nil_r|]. destruct (log_split whole d rest Hok) as (fs & more & _ & _ & E1 & ->). rewrite E1, <- app_assoc. by eexists. }
  destruct Hlog as [more Hlog]. rewrite Hlog, length_app in Hfuel. assert (HT0 : remaining f = log_of whole ++ ztake (n - zlen (log_of whole)) more) by (by rewrite HT, Hlog, ztake_app_ge by lia).
  split; [lia|]. split; [done|]. split; [by eexists|]. intros r1 Hs1.
  destruct (zdrop_next (remaining f) _ _ 0 ltac:(zlen_pos; lia) HT0) as [HT1 Hend]. rewrite Z.add_0_l in HT1.
  destruct rest as [|d rest].
  - rewrite app_nil_r in Hlog. assert (more = []) as -> by (apply (app_inv_head (log_of whole)); by rewrite app_nil_r).
    assert (Hz : zlen (log_of whole) = zlen (remaining f)) by (rewrite HT0, zlen_app; unfold ztake; rewrite take_nil; by rewrite zlen_nil, Z.add_0_r).
    rewrite Hz in Hs1. destruct fuel as [|fuel]; [lia|]. by apply (end_of_log (remaining f)).
  - destruct (log_split whole d rest Hok) as (fs & more' & _ & Hc & E1 & E2). rewrite E1, zlen_app in Hrest. rewrite E2, E1, <- app_assoc in Hlog. apply app_inv_head in Hlog.
    rewrite <- Hlog, ztake_app_le in HT1 by lia. assert (Hd : bytes_ok d) by (apply Forall_app in Hok as [_ Hok]; by apply Forall_cons_1 in Hok as [? _]).
    pose proof (length_layout (zlen (log_of whole)) fs ltac:(zlen_pos; lia)) as Hlen. rewrite <- Hlog, length_app in Hfuel.
    apply (torn_cuts true _ d fs Hc (remaining f) r1 (zdrop (n - zlen (log_of whole)) (layout (zlen (log_of whole)) fs))); [done|by rewrite HT1, ztake_zdrop| |done|lia].
    intros Ez. apply (f_equal zlen) in Ez. rewrite zlen_zdrop, zlen_nil in Ez by lia. lia.
Qed.

Lemma crash_prefix (f : F) reports checksum whole rest n fuel : crash whole rest n -> remaining f = ztake n (log_of (whole ++ rest)) ->
  (length (log_of (whole ++ rest)) < fuel)%nat ->
  exists r', read_records fuel fuel (Reader_new f reports checksum 0) = (Some whole, r') /\ reporter r' = reports.
Proof.
  intros Hcrash HT Hfuel. destruct (crash_tail f whole rest n fuel Hcrash HT Hfuel) as (Hwf & HT63 & [tail HT0] & Hlast). destruct Hcrash as (Hok & _).
  assert (Hwhole : Forall (fun d => bytes_ok d) whole) by by apply Forall_app in Hok as [? _].
  pose proof (log_records whole Hwhole) as Hrec. pose proof (length_records 0 whole _ ltac:(lia) Hrec) as Hcount.
  set (r0 := Reader_new f reports checksum 0). pose proof (synced_new f reports checksum HT63) as Hs0. fold r0 in Hs0.
  destruct (read_records_at whole 0 _ Hrec (remaining f) r0 _ (fuel - length whole) fuel Hs0 HT0 Hwhole ltac:(cbn; lia) ltac:(lia)) as (r1 & E & Hs1 & Hsame & Hl1).
  replace (length whole + (fuel - length whole))%nat with fuel in E by lia. rewrite E. clear E. rewrite Z.add_0_l in Hs1.
  destruct (Hlast r1 Hs1) as (r2 & scratch & E & Hsame2). exists r2. replace (fuel - length whole)%nat with (S (fuel - length whole - 1)) by lia.
  assert (E2 : read_records (S (fuel - length whole - 1)) fuel r1 = (Some [], r2)) by (apply (read_none _ _ _ scratch); [apply (synced_start _ _ _ Hs1)|done|done]).
  rewrite (bind_step _ _ _ _ _ E2). rewrite app_nil_r. split; [done|]. destruct Hsame as [Er _], Hsame2 as [-> _]. by rewrite Er.
Qed.
End ReadAll.

(** ** Properties *)

(** C12. A log of which a crash has left only the first [n] bytes, wherever that is (in a
    payload, a header, the padding of a block): reading it gives exactly the records
    that had been written completely, in order, then the end, and nothing is reported
    as corrupted. With all the bytes it gives all the records. *)
Theorem log_survives_crash {F : Type} `{ReliableSequential F} (f : F) reports checksum whole rest n fuel :
  crash whole rest n -> remaining f = ztake n (log_of (whole ++ rest)) -> (length (log_of (whole ++ rest)) < fuel)%nat ->
  exists r', read_records fuel fuel (Reader_new f reports checksum 0) = (Some whole, r') /\ reporter r' = reports.
Proof. apply crash_prefix. Qed.

Lemma log_survives_crash_witness : exists r',
  read_records 100 100 (Reader_new (ztake 29 (log_of [[1; 2; 3]; []; [4; 5; 6; 7; 8; 9]])) (Some []) true 0) = (Some [[1; 2; 3]; []], r') /\
  reporter r' = Some [].
Proof.
  apply (log_survives_crash (ztake 29 (log_of [[1; 2; 3]; []; [4; 5; 6; 7; 8; 9]])) (Some []) true [[1; 2; 3]; []] [[4; 5; 6; 7; 8; 9]] 29 100).
  - split; [repeat constructor; unfold is_byte; lia|]. split; [vm_compute; reflexivity|]. split; [vm_compute; discriminate|vm_compute; reflexivity].
  - reflexivity.
  - apply Nat.ltb_lt. vm_compute. reflexivity.
Defined.
