(* ===== verification/LdbLogSafety.v ===== *)
(** * Damaged and arbitrary logs (theorems about LdbLog.v)

    What is delivered has the checksum of its header; a fragment that has not is dropped
    and reported, as one with a burst error is; the reader ends on any bytes. *)

From stdpp Require Import strings pretty.
From S2P Require Import Prelude Words HashBlocks PbWireFacts LdbCoding LdbCrc LdbEnv LdbLog LdbLogWrite LdbLogRead LdbLogFacts.

Section Safety.
Context {F : Type} `{ReliableSequential F}.
Implicit Types r : Reader F.

(** ** Damage *)

(** The report of a call that empties the buffer. *)
Definition reported (reason : Status) r : option (list (Z * Status)) :=
  match reporter r with
  | None => None
  | Some reports =>
      if u64 (end_of_buffer_offset r - 0 - zlen (buffer r)) >=? initial_offset r
      then Some (reports ++ [(zlen (buffer r), reason)]) else Some reports
  end.

(** The bytes [t', d'] where the writer has put the fragment [t, d]. *)
Definition damaged_buffer (t : Z) (d : list Z) (t' : Z) (d' post : list Z) : list Z :=
  raw_header (Mask (crc32c 0 (t :: d))) (zlen d) t' ++ d' ++ post.

Lemma crc_differs t d t' d' j : zlen d < 65536 -> length d' = length d -> type_ok t -> bytes_ok d -> is_byte t' -> bytes_ok d' -> t' :: d' <> t :: d -> 0 <= j ->
  (forall i, 0 <= i < j \/ j + 32 <= i -> Z.testbit (le_value (t' :: d')) i = Z.testbit (le_value (t :: d)) i) ->
  (Value 0 (t' :: d') =? Unmask (u32 (Mask (crc32c 0 (t :: d))))) = false.
Proof.
  intros Hl Hd Ht Hok Ht' Hok' Hne Hj Hbits. rewrite header_crc by done. apply Z.eqb_neq. pose proof (type_range t Ht) as Htr.
  assert (Hb : bytes_ok (t :: d)) by (constructor; [unfold is_byte; lia|done]). zlen_pos.
  assert (Hz : zlen (t' :: d') = zlen (t :: d)) by (rewrite !zlen_cons; unfold zlen; by rewrite Hd). pose proof (zlen_cons t d) as Hz'.
  unfold Value. rewrite Extend_crc32c; [|unfold is_word; lia|by constructor|lia|lia].
  apply (crc32c_burst _ _ j); try done; [cbn; by rewrite Hd|by constructor].
Qed.

(** The buffer starts with a header and all the payload that it announces, and is not
    the zeros of preallocated space. *)
Definition whole_fragment (b : list Z) : Prop :=
  7 <= zlen b /\ 7 + header_length b <= zlen b /\ ~ (header_type b = kZeroType /\ header_length b = 0).

(** The checksum in the header is that of the type and the payload. *)
Definition checksum_matches (b : list Z) : Prop :=
  Value 0 (ztake (1 + header_length b) (zdrop 6 b)) = Unmask (DecodeFixed32 b).

Lemma mismatch_dropped fuel r res : checksum r = true -> whole_fragment (buffer r) -> ~ checksum_matches (buffer r) ->
  ReadPhysicalRecord_loop (S fuel) res r =
    (Some (kBadRecord, res), set_reporter (reported (Corruption "checksum mismatch") r) (set_buffer [] r)).
Proof.
  intros Hck (H7 & Hl & Hz) Hne%Z.eqb_neq. cbn [ReadPhysicalRecord_loop]. rewrite get_state.
  fold (header_length (buffer r)). fold (header_type (buffer r)). change kHeaderSize with 7.
  destruct (Z.ltb_spec (zlen (buffer r)) 7); [lia|]. rewrite Z.gtb_ltb. destruct (Z.ltb_spec (zlen (buffer r)) (7 + header_length (buffer r))); [lia|].
  destruct ((_ =? kZeroType) && _)%bool eqn:E0; [by apply andb_true_iff in E0 as [?%Z.eqb_eq ?%Z.eqb_eq]; destruct Hz|].
  rewrite Hck, Hne. cbn [andb negb]. rewrite modify_state. unfold ReportCorruption, ReportDrop, reported. unfold bind, ret.
  cbn [reporter set_buffer end_of_buffer_offset buffer initial_offset]. change (zlen []) with 0. destruct r as [f p c b e la en io rs]. destruct p as [reports|]; [|reflexivity].
  cbn [reporter set_buffer end_of_buffer_offset buffer initial_offset file checksum eof last_record_offset resyncing set_reporter]. by destruct (_ >=? _).
Qed.

(** What a call delivers has the checksum of its header. *)
Lemma delivered_in_buffer fuel r res t d r' : checksum r = true -> 7 <= zlen (buffer r) ->
  ReadPhysicalRecord_loop (S fuel) res r = (Some (t, d), r') -> t <> kEof -> t <> kBadRecord ->
  whole_fragment (buffer r) /\ checksum_matches (buffer r) /\ t = header_type (buffer r) /\
  d = ztake (header_length (buffer r)) (zdrop 7 (buffer r)).
Proof.
  intros Hck H7. cbn [ReadPhysicalRecord_loop]. rewrite get_state. fold (header_length (buffer r)). fold (header_type (buffer r)).
  change kHeaderSize with 7. destruct (Z.ltb_spec (zlen (buffer r)) 7); [lia|]. rewrite Z.gtb_ltb.
  assert (Hbad : forall n s, (ReportCorruption n s ;;; ret (kBadRecord, res)) (set_buffer [] r) = (Some (t, d), r') -> t = kBadRecord).
  { intros n s E. apply bind_Some in E as ([] & r1 & _ & E). by apply ret_Some in E as [[= -> _] _]. }
  destruct (Z.ltb_spec (zlen (buffer r)) (7 + header_length (buffer r))) as [|Hin].
  { rewrite modify_state. destruct (negb (eof r)); [by intros E%Hbad|]. intros E Hn. by apply ret_Some in E as [[= -> _] _]. }
  destruct ((_ =? kZeroType) && _)%bool eqn:Ez.
  { rewrite modify_state. intros E _ Hn. by apply ret_Some in E as [[= -> _] _]. }
  rewrite Hck. cbn [andb]. destruct (Z.eqb_spec (Value 0 (ztake (1 + header_length (buffer r)) (zdrop 6 (buffer r)))) (Unmask (DecodeFixed32 (buffer r)))) as [Hm|];
    cbn [negb]; rewrite modify_state; [|by intros E%Hbad].
  rewrite get_state. destruct (_ <? _). { intros E _ Hn. by apply ret_Some in E as [[= -> _] _]. }
  intros E _ _. apply ret_Some in E as [[= <- <-] _]. split; [|done]. split; [done|]. split; [done|].
  intros [E1 E2]. by rewrite E1, E2 in Ez.
Qed.

(** The bytes that a call looks at: what is in the buffer, or the next block. *)
Definition looked_at r : list Z :=
  if zlen (buffer r) <? kHeaderSize then ztake kBlockSize (remaining (file r)) else buffer r.

Lemma delivered_matches r res t d r' : checksum r = true -> ReadPhysicalRecord res r = (Some (t, d), r') -> t <> kEof -> t <> kBadRecord ->
  whole_fragment (looked_at r) /\ checksum_matches (looked_at r) /\ t = header_type (looked_at r) /\
  d = ztake (header_length (looked_at r)) (zdrop 7 (looked_at r)).
Proof.
  unfold ReadPhysicalRecord, looked_at. change kHeaderSize with 7. intros Hck E Ht Ht'.
  destruct (Z.ltb_spec (zlen (buffer r)) 7) as [Hb|Hb]; [|by apply delivered_in_buffer in E].
  destruct (eof r) eqn:He; [rewrite physical_eof in E by done; by injection E as <-|].
  destruct (physical_refill 1 res r He Hb) as (r1 & E1 & B1 & _ & He1 & _ & _ & C1 & _). rewrite E1 in E. rewrite <- B1 in *.
  rewrite <- C1 in Hck. destruct (Z.lt_ge_cases (zlen (buffer r1)) 7) as [Hb1|Hb1]; [|by apply delivered_in_buffer in E].
  rewrite physical_eof in E; [by injection E as <-| |done]. rewrite He1. apply Z.ltb_lt. change kBlockSize with 32768. lia.
Qed.

Lemma damaged_mismatch b t d t' d' post j : b = damaged_buffer t d t' d' post -> zlen d < 65536 -> length d' = length d -> type_ok t ->
  bytes_ok d -> is_byte t' -> bytes_ok d' -> t' :: d' <> t :: d -> t' <> 0 \/ d <> [] -> 0 <= j ->
  (forall i, 0 <= i < j \/ j + 32 <= i -> Z.testbit (le_value (t' :: d')) i = Z.testbit (le_value (t :: d)) i) ->
  whole_fragment b /\ ~ checksum_matches b.
Proof.
  intros Hb Hl Hd Ht Hok Ht' Hok' Hne Hz Hj Hbits. zlen_pos. unfold damaged_buffer in Hb.
  destruct (raw_header_fields (Mask (crc32c 0 (t :: d))) (zlen d) t' (d' ++ post) ltac:(lia)) as (EL & ET & EC & E6 & E7).
  assert (Hd' : zlen d' = zlen d) by (unfold zlen; by rewrite Hd). assert (Hbl : zlen b = 7 + zlen d + zlen post).
  { rewrite Hb. unfold raw_header. rewrite !zlen_app, zlen_le_bytes, Hd'. change (zlen [_; _; _]) with 3. lia. }
  rewrite <- Hb in *. unfold whole_fragment, checksum_matches. rewrite EL, ET, EC, E6, Hbl. pose proof (zlen_nonneg post). split.
  - split; [lia|]. split; [lia|]. intros [E0 E]. destruct Hz as [Hz|Hz]; [|by apply zlen_0_nil in E].
    unfold is_byte, u32, char_value, kZeroType in *. destruct (Z.ltb_spec t' 128); dlia.
  - replace (ztake (1 + zlen d) (t' :: d' ++ post)) with (t' :: d') by (symmetry; apply (ztake_app (1 + zlen d) (t' :: d') post); rewrite zlen_cons; lia).
    apply Z.eqb_neq. by apply (crc_differs t d t' d' j).
Qed.

(** ** Termination *)

(** What the reader has not consumed. *)
Definition bytes_left r : nat := (length (buffer r) + length (remaining (file r)))%nat.

Lemma ReportDrop_left n s r : exists r', ReportDrop n s r = (Some tt, r') /\ bytes_left r' = bytes_left r.
Proof. unfold ReportDrop. destruct (reporter r) as [reports|]; [destruct (_ >=? _)|]; by eexists. Qed.

Lemma header_length_nonneg h : 0 <= header_length h.
Proof. unfold header_length. apply Z.lor_nonneg. split; [apply Z.land_nonneg; lia|]. unfold u32. dlia. Qed.

Lemma set_buffer_left b r : bytes_left (set_buffer b r) = (length b + length (remaining (file r)))%nat.
Proof. reflexivity. Qed.

(** With a header in the buffer a call consumes bytes. *)
Lemma header_consumed fuel res r : 7 <= zlen (buffer r) ->
  exists t d r', ReadPhysicalRecord_loop (S fuel) res r = (Some (t, d), r') /\ (bytes_left r' < bytes_left r)%nat.
Proof.
  intros Hb. cbn [ReadPhysicalRecord_loop]. rewrite get_state. change kHeaderSize with 7. destruct (Z.ltb_spec (zlen (buffer r)) 7); [lia|].
  fold (header_length (buffer r)). fold (header_type (buffer r)). pose proof (header_length_nonneg (buffer r)) as Hl.
  assert (Hclear : (bytes_left (set_buffer [] r) < bytes_left r)%nat) by (unfold bytes_left, zlen in *; cbn [buffer set_buffer file length]; lia).
  rewrite Z.gtb_ltb. destruct (Z.ltb_spec (zlen (buffer r)) (7 + header_length (buffer r))) as [|Hin].
  { rewrite modify_state. destruct (negb (eof r)); [|by do 3 eexists]. unfold ReportCorruption. destruct (ReportDrop_left (zlen (buffer r)) (Corruption "bad record length") (set_buffer [] r)) as (r' & E & El).
    rewrite (bind_step _ _ _ _ _ E). do 3 eexists. split; [reflexivity|]. by rewrite El. }
  destruct (_ && _)%bool; [by do 3 eexists|]. destruct (_ && _)%bool.
  { rewrite modify_state. unfold ReportCorruption. destruct (ReportDrop_left (zlen (buffer r)) (Corruption "checksum mismatch") (set_buffer [] r)) as (r' & E & El).
    rewrite (bind_step _ _ _ _ _ E). do 3 eexists. split; [reflexivity|]. by rewrite El. }
  rewrite modify_state, get_state.
  assert (Hdrop : (bytes_left (set_buffer (zdrop (7 + header_length (buffer r)) (buffer r)) r) < bytes_left r)%nat).
  { rewrite set_buffer_left. unfold bytes_left, zdrop, zlen in *. rewrite length_drop. lia. }
  destruct (_ <? _); by do 3 eexists.
Qed.

Lemma ReadPhysicalRecord_returns res r : exists t d r', ReadPhysicalRecord res r = (Some (t, d), r') /\
  (bytes_left r' <= bytes_left r)%nat /\ (t = kEof \/ (bytes_left r' < bytes_left r)%nat).
Proof.
  unfold ReadPhysicalRecord. destruct (Z.lt_ge_cases (zlen (buffer r)) 7) as [Hb|Hb].
  - destruct (eof r) eqn:He.
    { rewrite physical_eof by done. do 3 eexists. split; [reflexivity|]. split; [rewrite set_buffer_left; unfold bytes_left; cbn; lia|by left]. }
    destruct (physical_refill 1 res r He Hb) as (r1 & -> & B1 & R1 & E1 & _).
    assert (Hle : (bytes_left r1 <= bytes_left r)%nat) by (unfold bytes_left; rewrite B1, R1, <- length_app, ztake_zdrop; lia).
    destruct (Z.lt_ge_cases (zlen (buffer r1)) 7) as [Hb1|Hb1].
    + rewrite physical_eof; [|rewrite E1, <- B1; apply Z.ltb_lt; change kBlockSize with 32768; lia|done]. do 3 eexists. split; [reflexivity|].
      split; [|by left]. rewrite set_buffer_left. unfold bytes_left in *. cbn [length]. lia.
    + destruct (header_consumed 0 res r1 Hb1) as (t & d & r' & -> & Hlt). do 3 eexists. split; [reflexivity|]. lia.
  - destruct (header_consumed 1 res r Hb) as (t & d & r' & -> & Hlt). do 3 eexists. split; [reflexivity|]. lia.
Qed.

(** What a round of the loop of [ReadRecord] may end with. *)
Definition ends (r0 : Reader F) (m : M (Reader F) (bool * list Z * list Z)) r : Prop :=
  exists found record scratch r', m r = (Some (found, record, scratch), r') /\
    (bytes_left r' <= bytes_left r0)%nat /\ (found = true -> (bytes_left r' < bytes_left r0)%nat).

Lemma ends_report r0 n s (m : M (Reader F) (bool * list Z * list Z)) r : (bytes_left r < bytes_left r0)%nat ->
  (forall r, (bytes_left r < bytes_left r0)%nat -> ends r0 m r) -> ends r0 (ReportCorruption n s ;;; m) r.
Proof.
  intros Hr Hm. unfold ends, ReportCorruption. destruct (ReportDrop_left n (Corruption s) r) as (r3 & E3 & El). rewrite (bind_step _ _ _ _ _ E3).
  apply Hm. by rewrite El.
Qed.

Lemma ReadRecord_loop_returns fuel b prosp frag scratch r : (bytes_left r < fuel)%nat -> ends r (ReadRecord_loop fuel b prosp frag scratch) r.
Proof.
  revert b prosp frag scratch r. induction fuel as [|fuel IH]; intros b prosp frag scratch r Hf; [lia|]. unfold ends. cbn [ReadRecord_loop].
  destruct (ReadPhysicalRecord_returns frag r) as (t & d & r1 & E & Hle & Hlt). rewrite (bind_step _ _ _ _ _ E), get_state.
  set (offset := u64 _). clearbody offset.
  assert (Hgo : forall b prosp frag scratch r2, (bytes_left r2 < bytes_left r)%nat -> ends r (ReadRecord_loop fuel b prosp frag scratch) r2).
  { intros b2 p2 f2 s2 r2 Hr2. destruct (IH b2 p2 f2 s2 r2 ltac:(lia)) as (x & y & z & r3 & E3 & H3 & H4). unfold ends. rewrite E3. do 4 eexists. split; [reflexivity|]. lia. }
  assert (Hrep : forall n s b prosp frag scratch r2, (bytes_left r2 < bytes_left r)%nat -> ends r (ReportCorruption n s ;;; ReadRecord_loop fuel b prosp frag scratch) r2).
  { intros. by apply ends_report; [|intros; apply Hgo]. }
  destruct (Z.eqb_spec t kEof) as [->|Hne].
  { change (kEof =? kMiddleType) with false. change (kEof =? kLastType) with false. rewrite !andb_false_r.
    destruct (resyncing r1); do 4 eexists; (split; [reflexivity|]); split; done. }
  destruct Hlt as [|Hlt]; [done|]. destruct (_ && _)%bool; [by apply Hgo|]. destruct (_ && _)%bool; [by apply Hgo|].
  assert (Hrs : exists r2, (if resyncing r1 then modify (set_resyncing false) else ret tt) r1 = (Some tt, r2) /\ bytes_left r2 = bytes_left r1)
    by (destruct (resyncing r1); by eexists).
  destruct Hrs as (r2 & E2 & El). rewrite (bind_step _ _ _ _ _ E2). rewrite <- El in Hlt.
  destruct (t =? kFullType).
  { assert (Hfull : exists r3, ((if (b && negb (zlen scratch =? 0))%bool then ReportCorruption (zlen scratch) "partial record without end(1)" else ret tt) : M (Reader F) unit) r2 = (Some tt, r3) /\
      bytes_left r3 = bytes_left r2) by (destruct (_ && _)%bool; [apply ReportDrop_left|by eexists]).
    destruct Hfull as (r3 & E3 & El3). rewrite (bind_step _ _ _ _ _ E3), modify_state. do 4 eexists. split; [reflexivity|].
    change (bytes_left (set_last offset r3)) with (bytes_left r3). lia. }
  destruct (t =? kFirstType). { destruct (_ && _)%bool; [by apply Hrep|by apply Hgo]. }
  destruct (t =? kMiddleType). { destruct (negb b); [by apply Hrep|by apply Hgo]. }
  destruct (t =? kLastType).
  { destruct (negb b); [by apply Hrep|]. rewrite modify_state. do 4 eexists. split; [reflexivity|].
    change (bytes_left (set_last prosp r2)) with (bytes_left r2). lia. }
  destruct (t =? kBadRecord); [destruct b; [by apply Hrep|by apply Hgo]|by apply Hrep].
Qed.

Lemma SkipToInitialBlock_returns r : exists b r', SkipToInitialBlock r = (Some b, r') /\ (bytes_left r' <= bytes_left r)%nat.
Proof.
  unfold SkipToInitialBlock. rewrite get_state, modify_state. destruct (_ >? 0); [|by do 2 eexists]. unfold skip_file. unfold bind at 1.
  match goal with |- context [Skip ?f ?n] => destruct (Skip_reliable f n) as (f' & E & Ef) end. cbn [file set_end] in *. rewrite E. cbn [ok negb].
  do 2 eexists. split; [reflexivity|]. unfold bytes_left. cbn [file set_file buffer set_end]. rewrite Ef. unfold zdrop. rewrite length_drop. unfold bytes_left. lia.
Qed.

Lemma ReadRecord_returns fuel record scratch r : (bytes_left r < fuel)%nat -> ends r (ReadRecord fuel record scratch) r.
Proof.
  intros Hf. unfold ends, ReadRecord. rewrite get_state.
  assert (Hs : exists b r1, (if last_record_offset r <? initial_offset r then SkipToInitialBlock else ret true) r = (Some b, r1) /\ (bytes_left r1 <= bytes_left r)%nat)
    by (destruct (_ <? _); [apply SkipToInitialBlock_returns|by do 2 eexists]).
  destruct Hs as (b & r1 & E & Hle). rewrite (bind_step _ _ _ _ _ E). destruct (negb b); [do 4 eexists; split; [reflexivity|]; by split|].
  destruct (ReadRecord_loop_returns fuel false 0 [] [] r1 ltac:(lia)) as (x & y & z & r3 & E3 & H3 & H4). rewrite E3. do 4 eexists. split; [reflexivity|]. split; [lia|]. intros Hx. specialize (H4 Hx). lia.
Qed.

Lemma read_records_returns rounds fuel r : (bytes_left r < rounds)%nat -> (bytes_left r < fuel)%nat ->
  exists records r', read_records rounds fuel r = (Some records, r') /\ (length records <= bytes_left r)%nat.
Proof.
  revert r. induction rounds as [|rounds IH]; intros r Hr Hf; [lia|]. cbn [read_records].
  destruct (ReadRecord_returns fuel [] [] r Hf) as (found & record & scratch & r1 & E & Hle & Hlt). rewrite (bind_step _ _ _ _ _ E).
  destruct found; [|do 2 eexists; split; [reflexivity|]; cbn; lia]. specialize (Hlt eq_refl).
  destruct (IH r1 ltac:(lia) ltac:(lia)) as (records & r2 & E2 & Hlen). rewrite (bind_step _ _ _ _ _ E2). do 2 eexists. split; [reflexivity|]. cbn [length]. lia.
Qed.
End Safety.

(** ** Properties *)

(** C21. With checksums checked, a fragment whose checksum does not match is never
    delivered, whatever the bytes of the log. What a call does deliver is the type and
    the payload of a whole fragment, at the front of the buffer or of the block that it
    reads next, whose stored checksum is that of the type and the payload. When the
    checksum of a whole fragment in the buffer does not match, the call says that the
    record is bad, drops what is left of the block (the length cannot be trusted) and
    reports as many bytes as corrupted; the zeros of preallocated space are the one
    exception, and are skipped without a report. A mismatch is what damage to a
    fragment of the writer's leads to, when the type and the payload change and only
    inside some 32 consecutive bits. *)
Theorem damaged_fragment_dropped {F : Type} `{ReliableSequential F} (r : Reader F) res : checksum r = true ->
  (forall t d r', ReadPhysicalRecord res r = (Some (t, d), r') -> t <> kEof -> t <> kBadRecord ->
    whole_fragment (looked_at r) /\ checksum_matches (looked_at r) /\ t = header_type (looked_at r) /\
    d = ztake (header_length (looked_at r)) (zdrop 7 (looked_at r))) /\
  (whole_fragment (buffer r) -> ~ checksum_matches (buffer r) ->
    ReadPhysicalRecord res r = (Some (kBadRecord, res), set_reporter (reported (Corruption "checksum mismatch") r) (set_buffer [] r))) /\
  (forall t d t' d' post j, buffer r = damaged_buffer t d t' d' post -> zlen d < 65536 -> length d' = length d -> type_ok t ->
    bytes_ok d -> is_byte t' -> bytes_ok d' -> t' :: d' <> t :: d -> t' <> 0 \/ d <> [] -> 0 <= j ->
    (forall i, 0 <= i < j \/ j + 32 <= i -> Z.testbit (le_value (t' :: d')) i = Z.testbit (le_value (t :: d)) i) ->
    ReadPhysicalRecord res r = (Some (kBadRecord, res), set_reporter (reported (Corruption "checksum mismatch") r) (set_buffer [] r))).
Proof.
  intros Hck. split; [intros t d r'; by apply delivered_matches|]. split; [by apply mismatch_dropped|].
  intros t d t' d' post j Hb Hl Hd Ht Hok Ht' Hok' Hne Hz Hj Hbits.
  destruct (damaged_mismatch _ t d t' d' post j Hb) as [Hw Hm]; [done..|]. by apply mismatch_dropped.
Qed.

Lemma damaged_fragment_dropped_witness :
  let r b := mkReader ([] : list Z) (Some []) true b true 0 10 0 false in
  let bad b := (Some (kBadRecord, []), set_reporter (reported (Corruption "checksum mismatch") (r b)) (set_buffer [] (r b))) in
  ReadPhysicalRecord [] (r (damaged_buffer 1 [7; 8] 1 [7; 9] [5])) = bad (damaged_buffer 1 [7; 8] 1 [7; 9] [5]) /\
  ReadPhysicalRecord [] (r [1; 2; 3; 4; 1; 0; 1; 9]) = bad [1; 2; 3; 4; 1; 0; 1; 9] /\
  checksum_matches (damaged_buffer 1 [7; 8] 1 [7; 8] [5]).
Proof.
  split; [|split].
  - refine (proj2 (proj2 (damaged_fragment_dropped (mkReader ([] : list Z) (Some []) true (damaged_buffer 1 [7; 8] 1 [7; 9] [5]) true 0 10 0 false) [] eq_refl))
      1 [7; 8] 1 [7; 9] [5] 16 eq_refl eq_refl eq_refl _ _ _ _ _ _ _ _).
    + left. reflexivity.
    + repeat constructor; unfold is_byte; lia.
    + unfold is_byte. lia.
    + repeat constructor; unfold is_byte; lia.
    + intros [=].
    + left. discriminate.
    + discriminate.
    + intros i Hi. change (le_value [1; 7; 9]) with (9 * 2 ^ 16 + 0x0701). change (le_value [1; 7; 8]) with (8 * 2 ^ 16 + 0x0701). rewrite !testbit_split by lia.
      destruct (Z.ltb_spec i 16); [done|]. destruct Hi as [Hi|Hi]; [lia|]. rewrite !(bits_high 4) by lia. done.
  - apply (damaged_fragment_dropped (mkReader ([] : list Z) (Some []) true [1; 2; 3; 4; 1; 0; 1; 9] true 0 10 0 false) [] eq_refl).
    + split; [discriminate|]. split; [discriminate|]. intros [E _]. discriminate E.
    + intros E. vm_compute in E. discriminate E.
  - refine (proj1 (proj2 (proj1 (damaged_fragment_dropped (mkReader ([] : list Z) (Some []) true (damaged_buffer 1 [7; 8] 1 [7; 8] [5]) true 0 10 0 false) [] eq_refl)
      1 [7; 8] (snd (ReadPhysicalRecord [] (mkReader ([] : list Z) (Some []) true (damaged_buffer 1 [7; 8] 1 [7; 8] [5]) true 0 10 0 false))) _ _ _))).
    + vm_compute. reflexivity.
    + discriminate.
    + discriminate.
Defined.

(** The reader ends on every file: whatever its bytes, with or without checksums and
    a reporter, from any initial offset, each call returns and the calls say after at
    most as many records as there are bytes that there are no more. *)
Theorem reading_ends {F : Type} `{ReliableSequential F} (f : F) reports checksum initial_offset fuel :
  (bytes_left (Reader_new f reports checksum initial_offset) < fuel)%nat ->
  exists records r', read_records fuel fuel (Reader_new f reports checksum initial_offset) = (Some records, r') /\ (length records <= length (remaining f))%nat.
Proof. intros Hf. exact (read_records_returns fuel fuel _ Hf Hf). Qed.

Lemma reading_ends_witness : exists records r',
  read_records 20 20 (Reader_new [1; 2; 3; 255; 0; 0; 9; 9; 9; 0; 0; 0; 0; 0; 0; 0; 3] (Some []) false 5) = (Some records, r') /\
  (length records <= length (remaining [1; 2; 3; 255; 0; 0; 9; 9; 9; 0; 0; 0; 0; 0; 0; 0; 3]%Z))%nat.
Proof. apply (reading_ends [1; 2; 3; 255; 0; 0; 9; 9; 9; 0; 0; 0; 0; 0; 0; 0; 3] (Some []) false 5 20). apply Nat.ltb_lt. reflexivity. Defined.
