(* ===== verification/LdbBatch.v ===== *)
(** * Batches of updates (leveldb: db/write_batch.cc)

    A batch is its bytes [rep_]: a header of a sequence number and a count, and a record
    per update. [Iterate] calls a handler (a class, as in the code) for each of them; the
    handler that inserts into a table in memory runs over any such table. *)

From stdpp Require Import strings.
From S2P Require Import Prelude Words PbWireFacts LdbCoding LdbEnv.

(** ** Operations *)

Definition kTypeDeletion : Z := 0.
Definition kTypeValue : Z := 1.
Definition kHeader : Z := 12.

Class Handler (H : Type) := {
  handler_Put : list Z -> list Z -> H -> H;
  handler_Delete : list Z -> H -> H
}.

Definition Clear : list Z := replicate 12 0.

Definition Count (rep : list Z) : Z := i32 (DecodeFixed32 (zdrop 8 rep)).
Definition SetCount (rep : list Z) (n : Z) : list Z := store rep 8 (EncodeFixed32 (u32 n)).
Definition Sequence (rep : list Z) : Z := DecodeFixed64 rep.
Definition SetSequence (rep : list Z) (seq : Z) : list Z := store rep 0 (EncodeFixed64 seq).

Definition Put (rep key value : list Z) : list Z :=
  let rep := SetCount rep (i32 (Count rep + 1)) in
  rep ++ [u8 kTypeValue] ++ PutLengthPrefixedSlice key ++ PutLengthPrefixedSlice value.
Definition Delete (rep key : list Z) : list Z :=
  let rep := SetCount rep (i32 (Count rep + 1)) in
  rep ++ [u8 kTypeDeletion] ++ PutLengthPrefixedSlice key.

Definition ApproximateSize (rep : list Z) : Z := zlen rep.
(** [None]: the assertion on the size of the contents fails. *)
Definition SetContents (contents : list Z) : option (list Z) := if zlen contents >=? kHeader then Some contents else None.
Definition Batch_Append (dst src : list Z) : option (list Z) :=
  let dst := SetCount dst (i32 (Count dst + Count src)) in
  if zlen src >=? kHeader then Some (dst ++ ztake (zlen src - kHeader) (zdrop kHeader src)) else None.

(** The loop of [Iterate]; each record takes a byte. [inl]: an early return. *)
Fixpoint Iterate_loop {H : Type} `{Handler H} (fuel : nat) (found : Z) (input : list Z) (handler : H) : (Status + Z) * H :=
  match fuel, input with
  | S fuel, tag :: input =>
      let found := found + 1 in
      if tag =? kTypeValue then
        match GetLengthPrefixedSlice input with
        | (Some key, input) =>
            match GetLengthPrefixedSlice input with
            | (Some value, input) => Iterate_loop fuel found input (handler_Put key value handler)
            | (None, _) => (inl (Corruption "bad WriteBatch Put"), handler)
            end
        | (None, _) => (inl (Corruption "bad WriteBatch Put"), handler)
        end
      else if tag =? kTypeDeletion then
        match GetLengthPrefixedSlice input with
        | (Some key, input) => Iterate_loop fuel found input (handler_Delete key handler)
        | (None, _) => (inl (Corruption "bad WriteBatch Delete"), handler)
        end
      else (inl (Corruption "unknown WriteBatch tag"), handler)
  | _, _ => (inr found, handler)
  end.

Definition Iterate {H : Type} `{Handler H} (rep : list Z) (handler : H) : Status * H :=
  if zlen rep <? kHeader then (Corruption "malformed WriteBatch (too small)", handler)
  else
    match Iterate_loop (length rep) 0 (zdrop kHeader rep) handler with
    | (inl s, handler) => (s, handler)
    | (inr found, handler) => (if negb (found =? Count rep) then Corruption "WriteBatch has wrong count" else OK, handler)
    end.

(** A table in memory, as far as a batch uses it. *)
Class Table (T : Type) := { Add : Z -> Z -> list Z -> list Z -> T -> T }.

Record MemTableInserter (T : Type) := mkInserter { sequence_ : Z; mem_ : T }.
Arguments mkInserter {T}. Arguments sequence_ {T}. Arguments mem_ {T}.

Definition Inserter_Put {T : Type} `{Table T} (key value : list Z) (i : MemTableInserter T) : MemTableInserter T :=
  mkInserter (u64 (sequence_ i + 1)) (Add (sequence_ i) kTypeValue key value (mem_ i)).
Definition Inserter_Delete {T : Type} `{Table T} (key : list Z) (i : MemTableInserter T) : MemTableInserter T :=
  mkInserter (u64 (sequence_ i + 1)) (Add (sequence_ i) kTypeDeletion key [] (mem_ i)).

#[export] Instance inserter_handler {T : Type} `{Table T} : Handler (MemTableInserter T) := {
  handler_Put := Inserter_Put;
  handler_Delete := Inserter_Delete
}.

Definition InsertInto {T : Type} `{Table T} (rep : list Z) (memtable : T) : Status * T :=
  let '(s, inserter) := Iterate rep (mkInserter (Sequence rep) memtable) in (s, mem_ inserter).

(** ** Updates *)

Inductive update := UPut (key value : list Z) | UDelete (key : list Z).

Definition update_ok (u : update) : Prop :=
  match u with
  | UPut key value => (zlen key < 2 ^ 32 /\ bytes_ok key) /\ zlen value < 2 ^ 32 /\ bytes_ok value
  | UDelete key => zlen key < 2 ^ 32 /\ bytes_ok key
  end.

(** The update on a batch, and on a handler. *)
Definition add_update (rep : list Z) (u : update) : list Z :=
  match u with UPut key value => Put rep key value | UDelete key => Delete rep key end.
Definition handle {H : Type} `{Handler H} (h : H) (u : update) : H :=
  match u with UPut key value => handler_Put key value h | UDelete key => handler_Delete key h end.

(** A record. *)
Definition record (u : update) : list Z :=
  match u with
  | UPut key value => kTypeValue :: PutLengthPrefixedSlice key ++ PutLengthPrefixedSlice value
  | UDelete key => kTypeDeletion :: PutLengthPrefixedSlice key
  end.
Definition records (us : list update) : list Z := concat (map record us).

(** A batch with a sequence number and a count. *)
Definition batch (seq n : Z) (us : list update) : list Z := le_bytes 8 seq ++ le_bytes 4 n ++ records us.

Lemma record_ok u : update_ok u -> bytes_ok (record u).
Proof.
  destruct u as [key value|key]; cbn [update_ok record].
  - intros [Hk Hv]. constructor; [done|]. apply Forall_app. split; apply PutLengthPrefixedSlice_ok; apply Hk || apply Hv.
  - intros Hk. constructor; [done|]. apply PutLengthPrefixedSlice_ok; apply Hk.
Qed.

Lemma records_ok us : Forall update_ok us -> bytes_ok (records us).
Proof. intros Hus. apply Forall_concat, Forall_map, (Forall_impl _ _ _ Hus), record_ok. Qed.

Lemma zlen_batch seq n us : zlen (batch seq n us) = 12 + zlen (records us).
Proof. unfold batch. rewrite !zlen_app, !zlen_le_bytes. lia. Qed.

Lemma length_le_bytes n v : length (le_bytes n v) = n.
Proof. apply Nat2Z.inj, zlen_le_bytes. Qed.

Lemma Count_batch seq n us : 0 <= n < 2 ^ 31 -> Count (batch seq n us) = n.
Proof.
  intros Hn. unfold Count, batch. rewrite zdrop_app by apply zlen_le_bytes.
  rewrite DecodeFixed32_le by (apply length_le_bytes || apply le_bytes_ok). rewrite le_value_le_bytes. change (256 ^ Z.of_nat 4) with (2 ^ 32).
  rewrite Z.mod_small by lia. unfold i32. rewrite Z.mod_small by lia. lia.
Qed.

Lemma Sequence_batch seq n us : 0 <= seq < 2 ^ 64 -> Sequence (batch seq n us) = seq.
Proof.
  intros Hs. unfold Sequence, batch. rewrite DecodeFixed64_le by (apply length_le_bytes || apply le_bytes_ok). rewrite le_value_le_bytes. by apply Z.mod_small.
Qed.

Lemma SetCount_batch seq n us n' : 0 <= n' < 2 ^ 32 -> SetCount (batch seq n us) n' = batch seq n' us.
Proof.
  intros Hn. unfold SetCount. rewrite EncodeFixed32_le. unfold u32. rewrite Z.mod_small by lia. unfold batch.
  rewrite (store_app _ 8 (le_bytes 4 n') (le_bytes 8 seq) (le_bytes 4 n) (records us)); [done|done|apply zlen_le_bytes|by rewrite !zlen_le_bytes].
Qed.

Lemma SetSequence_batch seq n us seq' : SetSequence (batch seq n us) seq' = batch seq' n us.
Proof.
  unfold SetSequence. rewrite EncodeFixed64_le. unfold batch.
  rewrite (store_app _ 0 (le_bytes 8 seq') [] (le_bytes 8 seq) (le_bytes 4 n ++ records us)); [done|done|done|by rewrite !zlen_le_bytes].
Qed.

Lemma Clear_batch : Clear = batch 0 0 [].
Proof. reflexivity. Qed.

Lemma records_snoc us u : records (us ++ [u]) = records us ++ record u.
Proof. unfold records. rewrite map_app, concat_app. cbn [map concat]. by rewrite app_nil_r. Qed.

Lemma batch_snoc seq n us u : batch seq n (us ++ [u]) = batch seq n us ++ record u.
Proof. unfold batch. by rewrite records_snoc, <- !app_assoc. Qed.

Lemma add_update_batch seq n us u : 0 <= n -> n + 1 < 2 ^ 31 -> add_update (batch seq n us) u = batch seq (n + 1) (us ++ [u]).
Proof.
  intros Hn Hn1. rewrite batch_snoc. destruct u as [key value|key]; cbn [add_update record]; unfold Put, Delete; rewrite Count_batch by lia.
  all: replace (i32 (n + 1)) with (n + 1) by (unfold i32; rewrite Z.mod_small by lia; lia).
  all: rewrite SetCount_batch by lia; done.
Qed.

Lemma add_updates_batch us : zlen us < 2 ^ 31 -> fold_left add_update us Clear = batch 0 (zlen us) us.
Proof.
  induction us as [|u us IH] using rev_ind; intros Hl; [done|]. rewrite zlen_app in Hl. change (zlen [u]) with 1 in Hl. zlen_pos.
  rewrite fold_left_app. cbn [fold_left]. rewrite IH by lia. rewrite add_update_batch by lia. by rewrite zlen_app.
Qed.

(** ** Iteration *)

Section Handlers.
Context {H : Type} `{Handler H}.

Lemma Iterate_loop_record fuel found u rest (h : H) : update_ok u -> bytes_ok rest ->
  Iterate_loop (S fuel) found (record u ++ rest) h = Iterate_loop fuel (found + 1) rest (handle h u).
Proof.
  intros Hu Hr. destruct u as [key value|key]; cbn [record app Iterate_loop update_ok handle] in *.
  - destruct Hu as [Hk Hv]. change (kTypeValue =? kTypeValue) with true. cbv iota. rewrite <- app_assoc.
    rewrite GetLengthPrefixedSlice_put; [|apply Hk|apply Hk|apply Forall_app; split; [apply PutLengthPrefixedSlice_ok; apply Hv|done]].
    by rewrite GetLengthPrefixedSlice_put by (done || apply Hv).
  - change (kTypeDeletion =? kTypeValue) with false. change (kTypeDeletion =? kTypeDeletion) with true. cbv iota.
    by rewrite GetLengthPrefixedSlice_put by (done || apply Hu).
Qed.

Lemma Iterate_loop_records us fuel found (h : H) : Forall update_ok us -> (length us <= fuel)%nat ->
  Iterate_loop fuel found (records us) h = (inr (found + zlen us), fold_left handle us h).
Proof.
  revert fuel found h. induction us as [|u us IH]; intros fuel found h Hus Hf.
  - rewrite zlen_nil, Z.add_0_r. by destruct fuel.
  - apply Forall_cons_1 in Hus as [Hu Hus]. destruct fuel as [|fuel]; [cbn in Hf; lia|]. unfold records. cbn [map concat].
    rewrite Iterate_loop_record by (done || by apply records_ok). fold (records us). rewrite IH by (done || (cbn in Hf; lia)). rewrite zlen_cons. cbn [fold_left]. by replace (found + 1 + zlen us) with (found + (1 + zlen us)) by lia.
Qed.

Lemma records_length us : (length us <= length (records us))%nat.
Proof.
  induction us as [|u us IH]; [done|]. unfold records in *. cbn [map concat length]. rewrite length_app. destruct u; cbn [record length]; lia.
Qed.

Lemma Iterate_batch seq n us (h : H) : 0 <= n < 2 ^ 31 -> Forall update_ok us ->
  Iterate (batch seq n us) h = (if zlen us =? n then OK else Corruption "WriteBatch has wrong count", fold_left handle us h).
Proof.
  intros Hn Hus. unfold Iterate. rewrite zlen_batch. zlen_pos. change kHeader with 12. destruct (Z.ltb_spec (12 + zlen (records us)) 12); [lia|].
  replace (zdrop 12 (batch seq n us)) with (records us) by (unfold batch; rewrite app_assoc, zdrop_app by (rewrite zlen_app, !zlen_le_bytes; done); done).
  pose proof (records_length us) as Hl. rewrite Iterate_loop_records; [|done|unfold batch; rewrite !length_app; lia]. rewrite Count_batch, Z.add_0_l by done.
  by destruct (zlen us =? n).
Qed.
End Handlers.

(** ** Properties *)

(** C32. What is put into a batch comes out of it: iterating over a cleared batch to which
    fewer than 2^31 updates have been added makes the handler see exactly these updates,
    in order, whatever the handler does, and the result is OK. *)
Theorem batch_iterates {H : Type} `{Handler H} us (h : H) : zlen us < 2 ^ 31 -> Forall update_ok us ->
  Iterate (fold_left add_update us Clear) h = (OK, fold_left handle us h).
Proof.
  intros Hl Hus. zlen_pos. rewrite add_updates_batch by done. rewrite Iterate_batch by (done || lia). by rewrite Z.eqb_refl.
Qed.

(** A handler that keeps what it is given, newest first. *)
#[export] Instance log_handler : Handler (list update) := {
  handler_Put key value l := UPut key value :: l;
  handler_Delete key l := UDelete key :: l
}.

Lemma batch_iterates_witness :
  Iterate (fold_left add_update [UPut [1; 2] [3]; UDelete []; UPut [] [255]] Clear) [] = (OK, [UPut [] [255]; UDelete []; UPut [1; 2] [3]]).
Proof.
  refine (batch_iterates (H := list update) [UPut [1; 2] [3]; UDelete []; UPut [] [255]] [] _ _); [done|].
  repeat constructor; unfold is_byte; try lia; done.
Defined.

(** What a loop over any bytes does, apart from the handler. *)
Lemma Iterate_loop_any fuel found input : bytes_ok input -> exists us result, (forall H `{Handler H} (h : H),
  Iterate_loop fuel found input h = (result, fold_left handle us h)) /\
  match result with inl s => s <> OK | inr n => n = found + zlen us end /\ Forall update_ok us.
Proof.
  revert found input. induction fuel as [|fuel IH]; intros found input Hok; [exists [], (inr found); split; [done|]; split; [rewrite zlen_nil; lia|done]|].
  destruct input as [|tag input]; [exists [], (inr found); split; [done|]; split; [rewrite zlen_nil; lia|done]|]. apply Forall_cons_1 in Hok as [_ Hok]. cbn [Iterate_loop].
  destruct (tag =? kTypeValue); [|destruct (tag =? kTypeDeletion)]; [..|exists [], (inl (Corruption "unknown WriteBatch tag")); done].
  - destruct (GetLengthPrefixedSlice input) as [[key|] input1] eqn:E1; [|exists [], (inl (Corruption "bad WriteBatch Put")); done].
    apply GetLengthPrefixedSlice_ok in E1 as (Hk & Hk' & H1); [|done].
    destruct (GetLengthPrefixedSlice input1) as [[value|] input2] eqn:E2; [|exists [], (inl (Corruption "bad WriteBatch Put")); done].
    apply GetLengthPrefixedSlice_ok in E2 as (Hv & Hv' & H2); [|done].
    destruct (IH (found + 1) input2 H2) as (us & result & Hr & Hn & Hus). exists (UPut key value :: us), result. split; [intros; by rewrite Hr|].
    split; [destruct result; [done|rewrite zlen_cons; lia]|]. by constructor.
  - destruct (GetLengthPrefixedSlice input) as [[key|] input1] eqn:E1; [|exists [], (inl (Corruption "bad WriteBatch Delete")); done].
    apply GetLengthPrefixedSlice_ok in E1 as (Hk & Hk' & H1); [|done].
    destruct (IH (found + 1) input1 H1) as (us & result & Hr & Hn & Hus). exists (UDelete key :: us), result. split; [intros; by rewrite Hr|].
    split; [destruct result; [done|rewrite zlen_cons; lia]|]. by constructor.
Qed.

(** Iterating over any bytes (a batch read from a damaged file) ends, and what it does
    does not depend on the handler: there are updates that every handler sees in order
    and a status that all of them get, which is OK only if the header counts exactly these
    updates. *)
Theorem Iterate_any_bytes rep : bytes_ok rep -> exists us s, (forall H `{Handler H} (h : H), Iterate rep h = (s, fold_left handle us h)) /\
  (s = OK -> Count rep = zlen us) /\ Forall update_ok us.
Proof.
  intros Hok. unfold Iterate. destruct (zlen rep <? kHeader); [by exists [], (Corruption "malformed WriteBatch (too small)")|].
  destruct (Iterate_loop_any (length rep) 0 (zdrop kHeader rep)) as (us & result & Hr & Hn & Hus); [by apply Forall_drop|].
  destruct result as [s|n].
  - exists us, s. split; [intros; by rewrite Hr|]. done.
  - exists us, (if negb (n =? Count rep) then Corruption "WriteBatch has wrong count" else OK). split; [intros; by rewrite Hr|]. split; [|done].
    destruct (Z.eqb_spec n (Count rep)); [intros _; lia|done].
Qed.

Lemma Iterate_any_bytes_witness : exists us s, (forall H `{Handler H} (h : H),
    Iterate [0; 0; 0; 0; 0; 0; 0; 0; 2; 0; 0; 0; 0; 1; 7; 1; 9] h = (s, fold_left handle us h)) /\
  (s = OK -> Count [0; 0; 0; 0; 0; 0; 0; 0; 2; 0; 0; 0; 0; 1; 7; 1; 9] = zlen us) /\ Forall update_ok us.
Proof.
  apply (Iterate_any_bytes [0; 0; 0; 0; 0; 0; 0; 0; 2; 0; 0; 0; 0; 1; 7; 1; 9]). repeat constructor; unfold is_byte; lia.
Defined.
