(* ===== verification/LdbRecovery.v ===== *)
(** * Recovery of a log (leveldb: db/db_impl.cc, RecoverLogFile)

    The loop that replays a log into tables in memory: the log reader, the batches and
    the tables together. What a table becomes on disk (WriteLevel0Table) and how large it
    is are operations of a class. *)

From stdpp Require Import strings.
From S2P Require Import Prelude Words PbWireFacts LdbCoding LdbEnv LdbLog LdbLogWrite LdbLogRead LdbLogFacts LdbBatch.

(** ** The loop *)

(** What recovery needs of tables besides [Add]. *)
Class Tables (T : Type) `{Table T} := {
  new_table : T;
  ApproximateMemoryUsage : T -> Z;
  WriteLevel0Table : T -> Status
}.

(** [options_]. *)
Record Options := mkOptions { paranoid_checks : bool; write_buffer_size : Z }.

(** [LogReporter::Corruption], for one report; [status] is null without paranoid checks. *)
Definition LogReporter_Corruption (o : Options) (status s : Status) : Status := if (paranoid_checks o && ok status)%bool then s else status.
Definition MaybeIgnoreError (o : Options) (s : Status) : Status := if (ok s || paranoid_checks o)%bool then s else OK.

Record Recovery (F T : Type) := mkRecovery {
  rdr : Reader F;
  status : Status;
  mem : option T;
  max_sequence : Z;
  compactions : Z;
  level0 : list T
}.
Arguments mkRecovery {F T}. Arguments rdr {F T}. Arguments status {F T}. Arguments mem {F T}. Arguments max_sequence {F T}.
Arguments compactions {F T}. Arguments level0 {F T}.

Section Recovering.
Context {F T : Type} `{SequentialFile F} `{Tables T}.

(** The reports that a call of the reader has made go to [status]. *)
Definition absorb (o : Options) (st : Recovery F T) (r : Reader F) : Status :=
  match reporter (rdr st), reporter r with
  | Some before, Some after => fold_left (fun s report => LogReporter_Corruption o s (snd report)) (drop (length before) after) (status st)
  | _, _ => status st
  end.

(** One record: the new state and whether the loop goes on. *)
Definition RecoverLogFile_record (o : Options) (record : list Z) (st : Recovery F T) : Recovery F T * bool :=
  if zlen record <? 12 then
    (mkRecovery (rdr st) (LogReporter_Corruption o (status st) (Corruption "log record too small")) (mem st) (max_sequence st) (compactions st) (level0 st), true)
  else
    let batch := record in
    let m := match mem st with None => new_table | Some m => m end in
    let '(s, m) := InsertInto batch m in
    let s := MaybeIgnoreError o s in
    if negb (ok s) then (mkRecovery (rdr st) s (Some m) (max_sequence st) (compactions st) (level0 st), false)
    else
      let last_seq := u64 (Sequence batch + Count batch - 1) in
      let max_seq := if last_seq >? max_sequence st then last_seq else max_sequence st in
      if ApproximateMemoryUsage m >? write_buffer_size o then
        let s := WriteLevel0Table m in
        (mkRecovery (rdr st) s None max_seq (compactions st + 1) (level0 st ++ [m]), ok s)
      else (mkRecovery (rdr st) s (Some m) max_seq (compactions st) (level0 st), true).

Fixpoint RecoverLogFile_loop (fuel inner : nat) (o : Options) (record scratch : list Z) (st : Recovery F T) : option (Recovery F T) :=
  match fuel with
  | O => None
  | S fuel =>
      match ReadRecord inner record scratch (rdr st) with
      | (None, _) => None
      | (Some (found, record, scratch), r) =>
          let st := mkRecovery r (absorb o st r) (mem st) (max_sequence st) (compactions st) (level0 st) in
          if (found && ok (status st))%bool then
            let '(st, more) := RecoverLogFile_record o record st in
            if more : bool then RecoverLogFile_loop fuel inner o record scratch st else Some st
          else Some st
      end
  end.

Definition RecoverLogFile_start (f : F) (max_seq : Z) : Recovery F T := mkRecovery (Reader_new f (Some []) true 0) OK None max_seq 0 [].
End Recovering.

(** ** The updates of a log *)

(** An entry of a table: sequence number, type, key and value. *)
Definition entry : Type := Z * Z * list Z * list Z.

(** A group of updates as it is logged: its first sequence number and its updates. *)
Definition group : Type := Z * list update.
Definition group_bytes (g : group) : list Z := batch (fst g) (zlen (snd g)) (snd g).

Definition entry_of (seq : Z) (u : update) : entry :=
  match u with UPut key value => (seq, kTypeValue, key, value) | UDelete key => (seq, kTypeDeletion, key, []) end.
Fixpoint entries_of (seq : Z) (us : list update) : list entry :=
  match us with [] => [] | u :: us => entry_of seq u :: entries_of (u64 (seq + 1)) us end.
Definition group_entries (g : group) : list entry := entries_of (fst g) (snd g).

Definition group_ok (g : group) : Prop := 0 <= fst g < 2 ^ 64 /\ zlen (snd g) < 2 ^ 31 /\ Forall update_ok (snd g).

(** Tables that keep their entries. *)
Class TableEntries (T : Type) `{Tables T} := {
  entries : T -> list entry;
  entries_new : entries new_table = [];
  entries_Add seq t key value m : entries (Add seq t key value m) = entries m ++ [(seq, t, key, value)]
}.

Lemma group_bytes_ok g : group_ok g -> bytes_ok (group_bytes g).
Proof. intros (_ & _ & Hus). unfold group_bytes, batch. apply Forall_app. split; [apply le_bytes_ok|]. apply Forall_app. split; [apply le_bytes_ok|by apply records_ok]. Qed.

Section Replay.
Context {T : Type} `{TableEntries T}.

Lemma inserted us (i : MemTableInserter T) : entries (mem_ (fold_left handle us i)) = entries (mem_ i) ++ entries_of (sequence_ i) us.
Proof.
  revert i. induction us as [|u us IH]; intros i; cbn [fold_left entries_of]; [by rewrite app_nil_r|]. rewrite IH.
  destruct u; cbn [handle handler_Put handler_Delete inserter_handler Inserter_Put Inserter_Delete mem_ sequence_ entry_of]; by rewrite entries_Add, <- app_assoc.
Qed.

Lemma InsertInto_group g (m : T) : group_ok g -> exists m', InsertInto (group_bytes g) m = (OK, m') /\ entries m' = entries m ++ group_entries g.
Proof.
  intros (Hs & Hl & Hus). unfold InsertInto, group_bytes, group_entries. zlen_pos. rewrite Iterate_batch by (done || lia). rewrite Z.eqb_refl, Sequence_batch by done.
  eexists. split; [reflexivity|]. by rewrite inserted.
Qed.

(** All the entries that a recovery has replayed. *)
Definition replayed {F} (st : Recovery F T) : list entry :=
  concat (map entries (level0 st)) ++ match mem st with None => [] | Some m => entries m end.

(** The last sequence number of a group, as the loop computes it. *)
Definition last_seq (g : group) : Z := u64 (fst g + zlen (snd g) - 1).

Lemma record_replayed {F} (o : Options) g (st : Recovery F T) : group_ok g -> (forall m : T, WriteLevel0Table m = OK) -> status st = OK ->
  exists st', RecoverLogFile_record o (group_bytes g) st = (st', true) /\ rdr st' = rdr st /\ status st' = OK /\
    replayed st' = replayed st ++ group_entries g /\ max_sequence st' = Z.max (max_sequence st) (last_seq g).
Proof.
  intros Hg Hw Hst. unfold RecoverLogFile_record. pose proof Hg as (Hs & Hl & Hus). unfold group_bytes. rewrite zlen_batch. zlen_pos.
  destruct (Z.ltb_spec (12 + zlen (records (snd g))) 12); [lia|]. fold (group_bytes g).
  set (m0 := match mem st with None => new_table | Some m => m end). destruct (InsertInto_group g m0 Hg) as (m & -> & Em).
  replace (MaybeIgnoreError o OK) with OK by reflexivity. cbn [ok negb]. unfold group_bytes. rewrite Sequence_batch, Count_batch by (done || lia).
  fold (last_seq g). set (ms := if last_seq g >? max_sequence st then last_seq g else max_sequence st).
  assert (Ems : ms = Z.max (max_sequence st) (last_seq g)) by (unfold ms; rewrite Z.gtb_ltb; destruct (Z.ltb_spec (max_sequence st) (last_seq g)); lia).
  assert (Em0 : entries m0 = match mem st with None => [] | Some m => entries m end) by (unfold m0; destruct (mem st); [done|apply entries_new]).
  destruct (ApproximateMemoryUsage m >? write_buffer_size o).
  - rewrite Hw. eexists. split; [reflexivity|]. cbn [rdr status mem max_sequence level0]. do 2 (split; [done|]). split; [|done]. unfold replayed. cbn [level0 mem].
    rewrite map_app, concat_app. cbn [map concat]. rewrite !app_nil_r, Em, Em0, app_assoc. done.
  - eexists. split; [reflexivity|]. cbn [rdr status mem max_sequence level0]. do 2 (split; [done|]). split; [|done]. unfold replayed. cbn [level0 mem].
    by rewrite Em, Em0, app_assoc.
Qed.
End Replay.

Section Crash.
Context {F T : Type} `{ReliableSequential F} `{TableEntries T}.

Lemma absorb_same o (st : Recovery F T) r : reporter r = reporter (rdr st) -> absorb o st r = status st.
Proof. intros E. unfold absorb. rewrite E. destruct (reporter (rdr st)) as [reports|]; [|done]. by rewrite drop_all. Qed.

(** The loop on the groups that are whole. *)
Lemma loop_groups o gs pos bytes : records_at pos (map group_bytes gs) bytes -> forall B (st : Recovery F T) post rounds inner record scratch,
  synced B pos (rdr st) -> zdrop pos B = bytes ++ post -> Forall group_ok gs -> 0 <= last_record_offset (rdr st) -> (length bytes <= inner)%nat ->
  (forall m : T, WriteLevel0Table m = OK) -> status st = OK ->
  exists st' record' scratch', RecoverLogFile_loop (length gs + rounds) inner o record scratch st = RecoverLogFile_loop rounds inner o record' scratch' st' /\
    synced B (pos + zlen bytes) (rdr st') /\ 0 <= last_record_offset (rdr st') /\ status st' = OK /\
    replayed st' = replayed st ++ concat (map group_entries gs) /\ max_sequence st' = fold_left (fun m g => Z.max m (last_seq g)) gs (max_sequence st).
Proof.
  revert pos bytes. induction gs as [|g gs IH]; intros pos bytes Hb B st post rounds inner record scratch Hs HT Hok Hl Hf Hw Hst.
  - cbn in Hb. subst bytes. exists st, record, scratch. rewrite zlen_nil, Z.add_0_r. cbn [map concat fold_left]. rewrite app_nil_r. done.
  - destruct Hb as (fs & rest & Hc & -> & Hb). apply Forall_cons_1 in Hok as [Hg Hok]. rewrite <- app_assoc in HT. rewrite length_app in Hf.
    pose proof (synced_range _ _ _ Hs) as [Hr _]. pose proof (length_layout pos fs ltac:(lia)) as Hlen.
    destruct (read_cuts true pos (group_bytes g) fs Hc B (rdr st) _ inner 0 [] [] Hs HT (group_bytes_ok g Hg) ltac:(lia)) as (r1 & scratch1 & E1 & Hs1 & Hsame1 & Hl1).
    destruct (zdrop_next B _ _ pos Hr HT) as [HT1 _].
    assert (Hlast : 0 <= last_record_offset r1) by (rewrite Hl1; destruct (padding_spec pos ltac:(lia)); unfold header_at; lia).
    cbn [length Nat.add RecoverLogFile_loop]. rewrite <- (read_record_start _ record scratch) in E1 by (done || apply (synced_start _ _ _ Hs)). rewrite E1.
    rewrite absorb_same by apply Hsame1. rewrite Hst. cbn [andb ok app].
    set (st1 := mkRecovery r1 OK (mem st) (max_sequence st) (compactions st) (level0 st)). cbn [status st1 ok].
    destruct (record_replayed o g st1 Hg Hw eq_refl) as (st2 & -> & Er & Est & Erep & Emax).
    destruct (IH _ rest Hb B st2 post rounds inner (group_bytes g) scratch1) as (st3 & record3 & scratch3 & E3 & Hs3 & Hl3 & Hst3 & Hrep3 & Hmax3);
      [by rewrite Er|done|done|by rewrite Er|lia|done|done|].
    exists st3, record3, scratch3. split; [done|]. rewrite zlen_app, Z.add_assoc. do 3 (split; [done|]). cbn [map concat fold_left]. rewrite Hrep3, Erep, Hmax3, Emax.
    split; [by rewrite <- app_assoc|done].
Qed.

Lemma recovery_of_crash (f : F) o whole rest n fuel max_seq : crash (map group_bytes whole) (map group_bytes rest) n -> Forall group_ok whole ->
  remaining f = ztake n (log_of (map group_bytes (whole ++ rest))) -> (length (log_of (map group_bytes (whole ++ rest))) < fuel)%nat ->
  (forall m : T, WriteLevel0Table m = OK) ->
  exists st : Recovery F T, RecoverLogFile_loop fuel fuel o [] [] (RecoverLogFile_start f max_seq) = Some st /\ status st = OK /\
    replayed st = concat (map group_entries whole) /\ max_sequence st = fold_left (fun m g => Z.max m (last_seq g)) whole max_seq.
Proof.
  intros Hcrash Hok HT Hfuel Hw. rewrite map_app in HT, Hfuel. destruct (crash_tail f _ _ n fuel Hcrash HT Hfuel) as (Hwf & HT63 & [tail HT0] & Hlast).
  destruct Hcrash as (Hbytes & _). assert (Hwhole : Forall (fun d => bytes_ok d) (map group_bytes whole)) by by apply Forall_app in Hbytes as [? _].
  pose proof (log_records _ Hwhole) as Hrec. pose proof (length_records 0 _ _ ltac:(lia) Hrec) as Hcount. rewrite length_map in Hcount.
  set (st0 := RecoverLogFile_start (T := T) f max_seq).
  destruct (loop_groups o whole 0 _ Hrec (remaining f) st0 tail (fuel - length whole) fuel [] []) as (st1 & record1 & scratch1 & E & Hs1 & Hl1 & Hst1 & Hrep & Hmax);
    [by apply synced_new|done|done|done|lia|done|done|].
  replace (length whole + (fuel - length whole))%nat with fuel in E by lia. rewrite E. clear E. rewrite Z.add_0_l in Hs1.
  destruct (Hlast (rdr st1) Hs1) as (r2 & scratch2 & E & Hsame2). replace (fuel - length whole)%nat with (S (fuel - length whole - 1)) by lia.
  cbn [RecoverLogFile_loop]. rewrite <- (read_record_start _ record1 scratch1) in E by (done || apply (synced_start _ _ _ Hs1)). rewrite E. cbn [andb].
  eexists. split; [reflexivity|]. cbn [status max_sequence]. rewrite absorb_same by apply Hsame2. split; [done|]. split; [exact Hrep|done].
Qed.
End Crash.

(** ** Property *)

(** A table in memory as the list of its entries; it is full after [limit] of them. *)
#[export] Instance list_table : Table (list entry) := { Add seq t key value m := m ++ [(seq, t, key, value)] }.
#[export] Instance list_tables : Tables (list entry) := { new_table := []; ApproximateMemoryUsage m := zlen m; WriteLevel0Table _ := OK }.
#[export, refine] Instance list_table_entries : TableEntries (list entry) := { entries m := m }.
Proof. all: done. Defined.

(** C10. Recovery after a crash. Groups of updates have been logged one after another, each
    as a batch with its sequence number, and of the log only the first [n] bytes are
    left. Replaying it ends with status OK, with or without paranoid checks, and the
    tables it leaves (those written out because they were full, then the one in memory)
    hold exactly the updates of the groups that had been logged completely, in order and
    with their sequence numbers: all of a group or nothing of it. The largest sequence
    number is that of the last update of these groups, or the one recovery began with. *)
Theorem recovery_after_crash {F T : Type} `{ReliableSequential F} `{TableEntries T} (f : F) o whole rest n fuel max_seq :
  crash (map group_bytes whole) (map group_bytes rest) n -> Forall group_ok whole ->
  remaining f = ztake n (log_of (map group_bytes (whole ++ rest))) -> (length (log_of (map group_bytes (whole ++ rest))) < fuel)%nat ->
  (forall m : T, WriteLevel0Table m = OK) ->
  exists st : Recovery F T, RecoverLogFile_loop fuel fuel o [] [] (RecoverLogFile_start f max_seq) = Some st /\ status st = OK /\
    replayed st = concat (map group_entries whole) /\ max_sequence st = fold_left (fun m g => Z.max m (last_seq g)) whole max_seq.
Proof. apply recovery_of_crash. Qed.

Ltac witness_group :=
  split; [split; discriminate || reflexivity|split; [reflexivity|]]; repeat (apply Forall_cons; split); try done; cbn [update_ok];
  repeat split; try reflexivity; repeat constructor; unfold is_byte; lia.

Lemma recovery_after_crash_witness :
  let whole : list group := [(5, [UPut [1] [2]; UDelete [3]]); (7, [UPut [4; 4] []])] in
  let rest : list group := [(8, [UDelete [1]])] in
  exists st : Recovery (list Z) (list entry),
    RecoverLogFile_loop 200 200 (mkOptions true 1) [] [] (RecoverLogFile_start (ztake 70 (log_of (map group_bytes (whole ++ rest)))) 3) = Some st /\ status st = OK /\
    replayed st = concat (map group_entries whole) /\ max_sequence st = fold_left (fun m g => Z.max m (last_seq g)) whole 3.
Proof.
  intros whole rest. apply (recovery_after_crash (T := list entry) (ztake 70 (log_of (map group_bytes (whole ++ rest)))) (mkOptions true 1) whole rest 70 200 3).
  - split; [|split; [vm_compute; reflexivity|split; vm_compute; [discriminate|reflexivity]]].
    apply Forall_app. split; apply Forall_map; repeat (apply Forall_cons; split); try done; apply group_bytes_ok; witness_group.
  - repeat (apply Forall_cons; split); try done; witness_group.
  - reflexivity.
  - apply Nat.ltb_lt. vm_compute. reflexivity.
  - reflexivity.
Defined.
