(* ===== verification/LdbKeys.v ===== *)
(** * Keys and their order (leveldb: include/leveldb/slice.h, util/comparator.cc, db/dbformat.h, db/dbformat.cc)

    A comparator is a record of functions with laws; the internal keys of the database
    (user key, sequence number, type) are ordered by a comparator made from any other:
    by user key and then downwards by sequence number and type, and the laws of the one
    follow from those of the other. *)

From S2P Require Import Prelude Words HashBlocks PbWireFacts LdbCoding LdbBatch.

(** ** Slices *)

(** The sign of [memcmp]. *)
Fixpoint memcmp (n : nat) (a b : list Z) : Z :=
  match n, a, b with
  | S n, x :: a, y :: b => if x <? y then -1 else if y <? x then 1 else memcmp n a b
  | _, _, _ => 0
  end.

Definition compare (a b : list Z) : Z :=
  let min_len := if zlen a <? zlen b then zlen a else zlen b in
  let r := memcmp (Z.to_nat min_len) a b in
  if r =? 0 then if zlen a <? zlen b then -1 else if zlen a >? zlen b then 1 else r else r.

(** ** Comparators *)

Record Comparator := mkComparator {
  Compare : list Z -> list Z -> Z;
  FindShortestSeparator : list Z -> list Z -> list Z;
  FindShortSuccessor : list Z -> list Z
}.

(** The index of the first byte that differs, below [min_length]. *)
Fixpoint diff_loop (fuel : nat) (start limit : list Z) (min_length diff_index : Z) : Z :=
  match fuel with
  | O => diff_index
  | S fuel =>
      if ((diff_index <? min_length) && (znth 0 start diff_index =? znth 0 limit diff_index))%bool
      then diff_loop fuel start limit min_length (diff_index + 1) else diff_index
  end.

Definition Bytewise_FindShortestSeparator (start limit : list Z) : list Z :=
  let min_length := Z.min (zlen start) (zlen limit) in
  let diff_index := diff_loop (length start) start limit min_length 0 in
  if diff_index >=? min_length then start
  else
    let diff_byte := znth 0 start diff_index in
    if ((diff_byte <? 0xff) && (diff_byte + 1 <? znth 0 limit diff_index))%bool
    then ztake (diff_index + 1) (zupd start diff_index (u8 (znth 0 start diff_index + 1)))
    else start.

(** The loop from [i] on. *)
Fixpoint successor_loop (fuel : nat) (i : Z) (key : list Z) : list Z :=
  match fuel with
  | O => key
  | S fuel =>
      if i <? zlen key then
        let byte := znth 0 key i in
        if negb (byte =? 0xff) then ztake (i + 1) (zupd key i (u8 (byte + 1))) else successor_loop fuel (i + 1) key
      else key
  end.
Definition Bytewise_FindShortSuccessor (key : list Z) : list Z := successor_loop (S (length key)) 0 key.

Definition BytewiseComparator : Comparator := mkComparator compare Bytewise_FindShortestSeparator Bytewise_FindShortSuccessor.

(** ** Internal keys *)

Definition kMaxSequenceNumber : Z := (1 ≪ 56) - 1.
Definition kValueTypeForSeek : Z := kTypeValue.

Record ParsedInternalKey := mkParsed { user_key : list Z; sequence : Z; type : Z }.

(** The code asserts that [seq] is at most [kMaxSequenceNumber] and [t] a type, and
    below that an internal key has at least eight bytes; [parsed_ok] and
    [internal_dom], under which the theorems speak of them, say so. *)
Definition PackSequenceAndType (seq t : Z) : Z := u64 (seq ≪ 8) .| t.
Definition AppendInternalKey (result : list Z) (key : ParsedInternalKey) : list Z :=
  (result ++ user_key key) ++ PutFixed64 (PackSequenceAndType (sequence key) (type key)).

Definition ParseInternalKey (internal_key : list Z) : option ParsedInternalKey :=
  let n := zlen internal_key in
  if n <? 8 then None
  else
    let num := DecodeFixed64 (zdrop (n - 8) internal_key) in
    let c := u8 (num .& 0xff) in
    if c <=? kTypeValue then Some (mkParsed (ztake (n - 8) internal_key) (num ≫ 8) c) else None.

Definition ExtractUserKey (internal_key : list Z) : list Z := ztake (zlen internal_key - 8) internal_key.

(** The tag: the last eight bytes. *)
Definition tag (internal_key : list Z) : Z := DecodeFixed64 (zdrop (zlen internal_key - 8) internal_key).

Definition Internal_Compare (user : Comparator) (akey bkey : list Z) : Z :=
  let r := Compare user (ExtractUserKey akey) (ExtractUserKey bkey) in
  if r =? 0 then
    let anum := tag akey in
    let bnum := tag bkey in
    if anum >? bnum then -1 else if anum <? bnum then 1 else r
  else r.

Definition Internal_FindShortestSeparator (user : Comparator) (start limit : list Z) : list Z :=
  let user_start := ExtractUserKey start in
  let user_limit := ExtractUserKey limit in
  let tmp := FindShortestSeparator user user_start user_limit in
  if ((zlen tmp <? zlen user_start) && (Compare user user_start tmp <? 0))%bool
  then tmp ++ PutFixed64 (PackSequenceAndType kMaxSequenceNumber kValueTypeForSeek) else start.

Definition Internal_FindShortSuccessor (user : Comparator) (key : list Z) : list Z :=
  let user_key := ExtractUserKey key in
  let tmp := FindShortSuccessor user user_key in
  if ((zlen tmp <? zlen user_key) && (Compare user user_key tmp <? 0))%bool
  then tmp ++ PutFixed64 (PackSequenceAndType kMaxSequenceNumber kValueTypeForSeek) else key.

Definition InternalKeyComparator (user : Comparator) : Comparator :=
  mkComparator (Internal_Compare user) (Internal_FindShortestSeparator user) (Internal_FindShortSuccessor user).

(** [LookupKey]: the array and the offset of [kstart_] in it. *)
Definition LookupKey (user_key : list Z) (s : Z) : list Z * Z :=
  let length := EncodeVarint32 (u32 (u32 (zlen user_key) + 8)) in
  (length ++ user_key ++ EncodeFixed64 (PackSequenceAndType s kValueTypeForSeek), zlen length).
Definition memtable_key (k : list Z * Z) : list Z := fst k.
Definition internal_key (k : list Z * Z) : list Z := zdrop (snd k) (fst k).
Definition lookup_user_key (k : list Z * Z) : list Z := ztake (zlen (fst k) - snd k - 8) (zdrop (snd k) (fst k)).

(** ** Laws *)

(** What the database relies on, for keys of [dom]: a total preorder, separators and
    successors inside their bounds. *)
Class ComparatorLaws (dom : list Z -> Prop) (C : Comparator) : Prop := {
  compare_same a : dom a -> Compare C a a = 0;
  compare_sym a b : dom a -> dom b -> Z.sgn (Compare C b a) = - Z.sgn (Compare C a b);
  compare_trans a b c : dom a -> dom b -> dom c -> Compare C a b <= 0 -> Compare C b c <= 0 -> Compare C a c <= 0;
  separator_dom a b : dom a -> dom b -> dom (FindShortestSeparator C a b);
  separator_between a b : dom a -> dom b -> Compare C a b < 0 ->
    Compare C a (FindShortestSeparator C a b) <= 0 /\ Compare C (FindShortestSeparator C a b) b < 0;
  separator_same a b : dom a -> dom b -> 0 <= Compare C a b -> FindShortestSeparator C a b = a;
  successor_dom a : dom a -> dom (FindShortSuccessor C a);
  successor_above a : dom a -> Compare C a (FindShortSuccessor C a) <= 0
}.

Section Laws.
Context {dom : list Z -> Prop} {C : Comparator} `{ComparatorLaws dom C}.

Lemma compare_lt_le a b c : dom a -> dom b -> dom c -> Compare C a b < 0 -> Compare C b c <= 0 -> Compare C a c < 0.
Proof.
  intros Ha Hb Hc Hab Hbc. destruct (Z.lt_ge_cases (Compare C a c) 0) as [|Hge]; [done|]. pose proof (compare_sym a c Ha Hc) as Es. pose proof (compare_sym a b Ha Hb) as Et.
  assert (Hca : Compare C c a <= 0) by lia. pose proof (compare_trans b c a Hb Hc Ha Hbc Hca). lia.
Qed.

Lemma compare_le_lt a b c : dom a -> dom b -> dom c -> Compare C a b <= 0 -> Compare C b c < 0 -> Compare C a c < 0.
Proof.
  intros Ha Hb Hc Hab Hbc. destruct (Z.lt_ge_cases (Compare C a c) 0) as [|Hge]; [done|]. pose proof (compare_sym a c Ha Hc) as Es. pose proof (compare_sym b c Hb Hc) as Et.
  assert (Hca : Compare C c a <= 0) by lia. pose proof (compare_trans c a b Hc Ha Hb Hca Hab). lia.
Qed.
End Laws.

(** ** The order of bytes *)

Fixpoint lex (a b : list Z) : Z :=
  match a, b with
  | [], [] => 0
  | [], _ => -1
  | _, [] => 1
  | x :: a, y :: b => if x <? y then -1 else if y <? x then 1 else lex a b
  end.

Lemma compare_lex a b : compare a b = lex a b.
Proof.
  revert b. induction a as [|x a IH]; intros [|y b].
  - reflexivity.
  - unfold compare. change (zlen (@nil Z)) with 0. rewrite zlen_cons. zlen_pos. destruct (Z.ltb_spec 0 (1 + zlen b)); [done|lia].
  - unfold compare. change (zlen (@nil Z)) with 0. rewrite zlen_cons. zlen_pos. destruct (Z.ltb_spec (1 + zlen a) 0); [lia|]. cbn [Z.to_nat memcmp Z.eqb]. destruct (Z.ltb_spec (1 + zlen a) 0); [lia|].
    rewrite Z.gtb_ltb. destruct (Z.ltb_spec 0 (1 + zlen a)); [done|lia].
  - cbn [lex]. rewrite <- IH. unfold compare. rewrite !zlen_cons. zlen_pos.
    replace (1 + zlen a <? 1 + zlen b) with (zlen a <? zlen b) by (apply eq_true_iff_eq; rewrite !Z.ltb_lt; lia).
    replace (1 + zlen a >? 1 + zlen b) with (zlen a >? zlen b) by (rewrite !Z.gtb_ltb; apply eq_true_iff_eq; rewrite !Z.ltb_lt; lia).
    replace (Z.to_nat (if zlen a <? zlen b then 1 + zlen a else 1 + zlen b)) with (S (Z.to_nat (if zlen a <? zlen b then zlen a else zlen b))) by (destruct (_ <? _); lia).
    cbn [memcmp]. destruct (x <? y); [done|]. by destruct (y <? x).
Qed.

Lemma lex_same a : lex a a = 0.
Proof. induction a as [|x a IH]; [done|]. cbn [lex]. by rewrite Z.ltb_irrefl. Qed.

Lemma lex_sym a b : lex b a = - lex a b.
Proof.
  revert b. induction a as [|x a IH]; intros [|y b]; [done..|]. cbn [lex]. destruct (Z.ltb_spec x y), (Z.ltb_spec y x); [lia|done|done|apply IH].
Qed.

Lemma lex_trans a b c : lex a b <= 0 -> lex b c <= 0 -> lex a c <= 0.
Proof.
  revert b c. induction a as [|x a IH]; intros [|y b] [|z c]; cbn [lex]; try lia.
  destruct (Z.ltb_spec x y), (Z.ltb_spec y x), (Z.ltb_spec y z), (Z.ltb_spec z y), (Z.ltb_spec x z), (Z.ltb_spec z x); try lia. apply IH.
Qed.

Lemma lex_eq a b : lex a b = 0 <-> a = b.
Proof.
  split; [|intros ->; apply lex_same]. revert b. induction a as [|x a IH]; intros [|y b]; [done..|]. cbn [lex].
  destruct (Z.ltb_spec x y); [done|]. destruct (Z.ltb_spec y x); [done|]. intros E%IH. f_equal; [lia|done].
Qed.

Lemma lex_app p a b : lex (p ++ a) (p ++ b) = lex a b.
Proof. induction p as [|x p IH]; [done|]. cbn [app lex]. by rewrite Z.ltb_irrefl. Qed.

(** ** The bytewise comparator *)

(** Where two strings part. *)
Lemma diff_loop_prefix (p a b : list Z) fuel : (length a <= fuel)%nat -> exists q a' b', a = q ++ a' /\ b = q ++ b' /\
  (a' = [] \/ b' = [] \/ exists x a'' y b'', a' = x :: a'' /\ b' = y :: b'' /\ x <> y) /\
  diff_loop fuel (p ++ a) (p ++ b) (zlen p + Z.min (zlen a) (zlen b)) (zlen p) = zlen p + zlen q.
Proof.
  revert p b fuel. induction a as [|x a IH]; intros p b fuel Hf.
  - exists [], [], b. split; [done|]. split; [done|]. split; [by left|]. change (zlen (@nil Z)) with 0. zlen_pos. rewrite Z.min_l by lia.
    destruct fuel; [cbn; lia|]. cbn [diff_loop]. rewrite Z.add_0_r, Z.ltb_irrefl. cbn [andb]. done.
  - destruct b as [|y b].
    { exists [], (x :: a), []. split; [done|]. split; [done|]. split; [by right; left|]. change (zlen (@nil Z)) with 0. zlen_pos. rewrite Z.min_r by lia.
      destruct fuel; [cbn; lia|]. cbn [diff_loop]. rewrite Z.add_0_r, Z.ltb_irrefl. cbn [andb]. done. }
    destruct fuel as [|fuel]; [cbn in Hf; lia|]. cbn [diff_loop length] in *. rewrite !zlen_cons. zlen_pos.
    destruct (Z.ltb_spec (zlen p) (zlen p + Z.min (1 + zlen a) (1 + zlen b))); [|lia].
    assert (Ex : forall z l, znth 0 (p ++ z :: l) (zlen p) = z) by (intros z l; unfold znth; rewrite zlen_to_nat, app_nth2, Nat.sub_diag by lia; done).
    rewrite !Ex. destruct (Z.eqb_spec x y) as [->|Hne]; cbn [andb].
    + destruct (IH (p ++ [y]) b fuel ltac:(lia)) as (q & a' & b' & -> & -> & Hd & E). exists (y :: q), a', b'. split; [done|]. split; [done|]. split; [done|].
      rewrite <- !app_assoc, !zlen_app in E. cbn [app] in E. change (zlen [y]) with 1 in E. rewrite zlen_cons, !zlen_app.
      replace (zlen p + Z.min (1 + (zlen q + zlen a')) (1 + (zlen q + zlen b'))) with (zlen p + 1 + Z.min (zlen q + zlen a') (zlen q + zlen b')) by lia. rewrite E. lia.
    + exists [], (x :: a), (y :: b). split; [done|]. split; [done|]. split; [|change (zlen (@nil Z)) with 0; lia]. right. right. by exists x, a, y, b.
Qed.

Lemma zupd_at_end (p a : list Z) x y : ztake (zlen p + 1) (zupd (p ++ x :: a) (zlen p) y) = p ++ [y].
Proof.
  unfold zupd. rewrite zlen_to_nat. rewrite <- (Nat.add_0_r (length p)). rewrite insert_app_r. cbn. rewrite ztake_app_ge by lia. f_equal.
  by replace (zlen p + 1 - zlen p) with 1 by lia.
Qed.

(** The separator: the string itself, or the common part and the next byte. *)
Lemma separator_cases a b : bytes_ok a -> bytes_ok b -> Bytewise_FindShortestSeparator a b = a \/
  exists p x a' y b', a = p ++ x :: a' /\ b = p ++ y :: b' /\ x < 255 /\ x + 1 < y /\ Bytewise_FindShortestSeparator a b = p ++ [x + 1].
Proof.
  intros Ha Hb. unfold Bytewise_FindShortestSeparator. destruct (diff_loop_prefix [] a b (length a)) as (q & a' & b' & -> & -> & Hd & E); [lia|].
  cbn [app] in E. change (zlen (@nil Z)) with 0 in E. rewrite !Z.add_0_l in E. rewrite E, !zlen_app. rewrite Z.geb_leb. zlen_pos.
  destruct Hd as [->|[->|(x & a'' & y & b'' & -> & -> & Hne)]]; [left|left|].
  - change (zlen (@nil Z)) with 0. destruct (Z.leb_spec (Z.min (zlen q + 0) (zlen q + zlen b')) (zlen q)); [done|lia].
  - change (zlen (@nil Z)) with 0. destruct (Z.leb_spec (Z.min (zlen q + zlen a') (zlen q + 0)) (zlen q)); [done|lia].
  - rewrite !zlen_cons. zlen_pos. destruct (Z.leb_spec (Z.min (zlen q + (1 + zlen a'')) (zlen q + (1 + zlen b''))) (zlen q)); [lia|]. rewrite !znth_app_at.
    destruct (Z.ltb_spec x 0xff), (Z.ltb_spec (x + 1) y); [right|by left..]. exists q, x, a'', y, b''. do 4 (split; [done|]). cbn [andb]. rewrite zupd_at_end. unfold u8.
    rewrite Z.mod_small; [done|]. apply Forall_app in Ha as [_ [Hx _]%Forall_cons_1]. unfold is_byte in Hx. lia.
Qed.

(** The successor, by structure. *)
Fixpoint successor (a : list Z) : list Z := match a with [] => [] | x :: a => if x =? 255 then x :: successor a else [x + 1] end.

Lemma successor_loop_app (p a : list Z) fuel : bytes_ok a -> (length a < fuel)%nat -> successor_loop fuel (zlen p) (p ++ a) = p ++ successor a.
Proof.
  revert p fuel. induction a as [|x a IH]; intros p fuel Hok Hf; (destruct fuel as [|fuel]; [lia|]); cbn [successor_loop successor].
  - rewrite app_nil_r, Z.ltb_irrefl. done.
  - apply Forall_cons_1 in Hok as [Hx Hok]. unfold is_byte in Hx. rewrite zlen_app, zlen_cons. zlen_pos. destruct (Z.ltb_spec (zlen p) (zlen p + (1 + zlen a))); [|lia].
    rewrite znth_app_at. destruct (Z.eqb_spec x 255) as [->|Hne]; cbn [negb].
    + specialize (IH (p ++ [255]) fuel Hok ltac:(cbn in Hf; lia)). rewrite zlen_app, <- !app_assoc in IH. exact IH.
    + rewrite zupd_at_end. unfold u8. by rewrite Z.mod_small by lia.
Qed.

Lemma Bytewise_successor a : bytes_ok a -> Bytewise_FindShortSuccessor a = successor a.
Proof. intros Ha. unfold Bytewise_FindShortSuccessor. apply (successor_loop_app [] a); [done|lia]. Qed.

Lemma successor_spec a : bytes_ok a -> bytes_ok (successor a) /\ lex a (successor a) <= 0.
Proof.
  induction a as [|x a IH]; intros Hok; [done|]. apply Forall_cons_1 in Hok as [Hx Hok]. cbn [successor]. unfold is_byte in Hx. destruct (Z.eqb_spec x 255) as [->|Hne].
  - destruct (IH Hok) as [H1 H2]. split; [by constructor|]. cbn [lex]. done.
  - split; [repeat constructor; lia|]. cbn [lex]. destruct (Z.ltb_spec x (x + 1)); lia.
Qed.

#[export] Instance bytewise_comparator_laws : ComparatorLaws bytes_ok BytewiseComparator.
Proof.
  constructor; cbn [Compare FindShortestSeparator FindShortSuccessor BytewiseComparator]; intros *; rewrite ?compare_lex.
  - intros _. apply lex_same.
  - intros _ _. rewrite lex_sym. lia.
  - intros _ _ _. apply lex_trans.
  - intros Ha Hb. destruct (separator_cases a b Ha Hb) as [->|(p & x & a' & y & b' & -> & _ & Hx & _ & ->)]; [done|].
    apply Forall_app in Ha as [Hp [Hxa _]%Forall_cons_1]. apply Forall_app. split; [done|]. unfold is_byte in *. repeat constructor; lia.
  - intros Ha Hb Hlt. destruct (separator_cases a b Ha Hb) as [->|(p & x & a' & y & b' & -> & -> & Hx & Hy & ->)]; rewrite ?lex_same; [lia|].
    rewrite !lex_app. cbn [lex]. destruct (Z.ltb_spec x (x + 1)), (Z.ltb_spec (x + 1) y); lia.
  - intros Ha Hb Hge. destruct (separator_cases a b Ha Hb) as [->|(p & x & a' & y & b' & -> & -> & Hx & Hy & _)]; [done|].
    rewrite lex_app in Hge. cbn [lex] in Hge. destruct (Z.ltb_spec x y); lia.
  - intros Ha. rewrite Bytewise_successor by done. by apply successor_spec.
  - intros Ha. rewrite Bytewise_successor by done. by apply successor_spec.
Qed.

(** ** Internal keys *)

(** An internal key by its parts. *)
Definition key_bytes (k : ParsedInternalKey) : list Z := AppendInternalKey [] k.
Definition parsed_ok (k : ParsedInternalKey) : Prop := bytes_ok (user_key k) /\ 0 <= sequence k <= kMaxSequenceNumber /\ 0 <= type k <= kTypeValue.

Lemma pack_value seq t : 0 <= seq <= kMaxSequenceNumber -> 0 <= t <= 1 -> PackSequenceAndType seq t = seq * 256 + t /\ 0 <= seq * 256 + t < 2 ^ 64.
Proof.
  intros Hs Ht. change kMaxSequenceNumber with (2 ^ 56 - 1) in Hs. assert (Hr : 0 <= seq * 256 + t < 2 ^ 64) by lia. split; [|done].
  unfold PackSequenceAndType. unfold u64. rewrite Z.shiftl_mul_pow2 by lia. change (2 ^ 8) with 256. rewrite Z.mod_small by lia. apply (lor_mul seq t 8); lia.
Qed.

Lemma tag_app u v : 0 <= v < 2 ^ 64 -> tag (u ++ PutFixed64 v) = v /\ ExtractUserKey (u ++ PutFixed64 v) = u /\ zlen (u ++ PutFixed64 v) = zlen u + 8.
Proof.
  intros Hv. unfold tag, ExtractUserKey, PutFixed64. rewrite zlen_app. rewrite EncodeFixed64_le at 1 3 5. rewrite !zlen_le_bytes. change (Z.of_nat 8) with 8.
  replace (zlen u + 8 - 8) with (zlen u) by lia. rewrite zdrop_app, ztake_app by done. split; [|done]. rewrite <- (app_nil_r (EncodeFixed64 v)). by apply Fixed64_roundtrip.
Qed.

Lemma key_bytes_parts k : parsed_ok k -> ExtractUserKey (key_bytes k) = user_key k /\ tag (key_bytes k) = sequence k * 256 + type k /\ zlen (key_bytes k) = zlen (user_key k) + 8.
Proof.
  intros (_ & Hs & Ht). unfold key_bytes, AppendInternalKey. cbn [app]. change kTypeValue with 1 in Ht. destruct (pack_value _ _ Hs Ht) as [-> Hr].
  by destruct (tag_app (user_key k) _ Hr) as (-> & -> & ->).
Qed.

Lemma ParseInternalKey_key k : parsed_ok k -> ParseInternalKey (key_bytes k) = Some k.
Proof.
  intros Hk. destruct (key_bytes_parts k Hk) as (Eu & Et & El). unfold ParseInternalKey. fold (tag (key_bytes k)). fold (ExtractUserKey (key_bytes k)). rewrite Et, Eu, El.
  destruct Hk as (_ & Hs & Ht). change kTypeValue with 1 in *. zlen_pos. destruct (Z.ltb_spec (zlen (user_key k) + 8) 8); [lia|].
  change 0xff with (2 ^ 8 - 1). rewrite land_ones_mod, Z.shiftr_div_pow2 by lia. change (2 ^ 8) with 256. unfold u8. rewrite Z.mod_mod by lia.
  replace ((sequence k * 256 + type k) mod 256) with (type k) by dlia. replace ((sequence k * 256 + type k) / 256) with (sequence k) by dlia.
  destruct (Z.leb_spec (type k) 1); [|lia]. by destruct k.
Qed.

Section Internal.
Context {dom : list Z -> Prop} {C : Comparator} `{ComparatorLaws dom C}.

Definition internal_dom (k : list Z) : Prop := 8 <= zlen k /\ dom (ExtractUserKey k).

(** The order: the user keys, then the tags downwards. *)
Lemma Internal_Compare_cases a b :
  (Compare C (ExtractUserKey a) (ExtractUserKey b) <> 0 /\ Internal_Compare C a b = Compare C (ExtractUserKey a) (ExtractUserKey b)) \/
  (Compare C (ExtractUserKey a) (ExtractUserKey b) = 0 /\
    (tag b < tag a /\ Internal_Compare C a b = -1 \/ tag a < tag b /\ Internal_Compare C a b = 1 \/ tag a = tag b /\ Internal_Compare C a b = 0)).
Proof.
  unfold Internal_Compare. destruct (Z.eqb_spec (Compare C (ExtractUserKey a) (ExtractUserKey b)) 0) as [E|E]; [right|by left]. split; [done|]. rewrite E, Z.gtb_ltb.
  destruct (Z.ltb_spec (tag b) (tag a)); [by left|]. destruct (Z.ltb_spec (tag a) (tag b)); [by right; left|]. right. right. split; [lia|done].
Qed.

Lemma internal_trans a b c : internal_dom a -> internal_dom b -> internal_dom c ->
  Internal_Compare C a b <= 0 -> Internal_Compare C b c <= 0 -> Internal_Compare C a c <= 0.
Proof.
  intros [_ Ha] [_ Hb] [_ Hc]. pose proof (compare_trans _ _ _ Ha Hb Hc) as Ht. pose proof (compare_lt_le _ _ _ Ha Hb Hc) as Hll. pose proof (compare_le_lt _ _ _ Ha Hb Hc) as Hl.
  destruct (Internal_Compare_cases a b) as [[? E1]|[? E1]], (Internal_Compare_cases b c) as [[? E2]|[? E2]], (Internal_Compare_cases a c) as [[? E3]|[? E3]]; lia.
Qed.

(** A changed separator is a shorter user key with the tag that sorts first. *)
Lemma internal_separator_cases a b : Internal_FindShortestSeparator C a b = a \/
  let s := FindShortestSeparator C (ExtractUserKey a) (ExtractUserKey b) in
  Compare C (ExtractUserKey a) s < 0 /\ ExtractUserKey (Internal_FindShortestSeparator C a b) = s /\ zlen (Internal_FindShortestSeparator C a b) = zlen s + 8.
Proof.
  unfold Internal_FindShortestSeparator. cbv zeta. set (s := FindShortestSeparator C _ _). destruct (Z.ltb_spec (zlen s) (zlen (ExtractUserKey a))); [|by left].
  destruct (Z.ltb_spec (Compare C (ExtractUserKey a) s) 0); [right|by left]. cbn [andb]. split; [done|]. by apply tag_app.
Qed.

Lemma internal_successor_cases a : Internal_FindShortSuccessor C a = a \/
  let s := FindShortSuccessor C (ExtractUserKey a) in
  Compare C (ExtractUserKey a) s < 0 /\ ExtractUserKey (Internal_FindShortSuccessor C a) = s /\ zlen (Internal_FindShortSuccessor C a) = zlen s + 8.
Proof.
  unfold Internal_FindShortSuccessor. cbv zeta. set (s := FindShortSuccessor C _). destruct (Z.ltb_spec (zlen s) (zlen (ExtractUserKey a))); [|by left].
  destruct (Z.ltb_spec (Compare C (ExtractUserKey a) s) 0); [right|by left]. cbn [andb]. split; [done|]. by apply tag_app.
Qed.

(** The assertions of the code: a changed separator lies strictly between. *)
Lemma internal_separator_strict a b : internal_dom a -> internal_dom b -> Internal_Compare C a b < 0 -> Internal_FindShortestSeparator C a b <> a ->
  Internal_Compare C a (Internal_FindShortestSeparator C a b) < 0 /\ Internal_Compare C (Internal_FindShortestSeparator C a b) b < 0.
Proof.
  intros [_ Ha] [_ Hb] Hlt Hne. destruct (internal_separator_cases a b) as [|(Hs & Eu & El)]; [done|].
  destruct (Z.lt_ge_cases (Compare C (ExtractUserKey a) (ExtractUserKey b)) 0) as [Hu|Hu].
  - destruct (separator_between _ _ Ha Hb Hu) as [_ Hsb].
    destruct (Internal_Compare_cases a (Internal_FindShortestSeparator C a b)) as [[? E1]|[? E1]], (Internal_Compare_cases (Internal_FindShortestSeparator C a b) b) as [[? E2]|[? E2]];
      rewrite Eu in *; lia.
  - rewrite (separator_same _ _ Ha Hb Hu), (compare_same _ Ha) in Hs. lia.
Qed.

Lemma internal_successor_strict a : internal_dom a -> Internal_FindShortSuccessor C a <> a -> Internal_Compare C a (Internal_FindShortSuccessor C a) < 0.
Proof.
  intros [_ Ha] Hne. destruct (internal_successor_cases a) as [|(Hs & Eu & El)]; [done|].
  destruct (Internal_Compare_cases a (Internal_FindShortSuccessor C a)) as [[? E1]|[? E1]]; rewrite Eu in *; lia.
Qed.

#[export] Instance internal_comparator_laws : ComparatorLaws internal_dom (InternalKeyComparator C).
Proof.
  constructor; cbn [Compare FindShortestSeparator FindShortSuccessor InternalKeyComparator]; intros *.
  - intros [_ Ha]. destruct (Internal_Compare_cases a a) as [[E _]|[_ E]]; [by rewrite compare_same in E|lia].
  - intros [_ Ha] [_ Hb]. pose proof (compare_sym _ _ Ha Hb) as Hs.
    destruct (Internal_Compare_cases a b) as [[? E1]|[? E1]], (Internal_Compare_cases b a) as [[? E2]|[? E2]]; lia.
  - apply internal_trans.
  - intros Ha Hb. destruct (internal_separator_cases a b) as [->|(Hs & Eu & El)]; [done|]. split; [rewrite El; zlen_pos; lia|]. rewrite Eu. apply separator_dom; [apply Ha|apply Hb].
  - intros Ha Hb Hlt. destruct (decide (Internal_FindShortestSeparator C a b = a)) as [->|Hne].
    + split; [|done]. destruct (Internal_Compare_cases a a) as [[E _]|[_ E]]; [by rewrite compare_same in E by apply Ha|lia].
    + destruct (internal_separator_strict a b Ha Hb Hlt Hne). lia.
  - intros [_ Ha] [_ Hb] Hge. destruct (internal_separator_cases a b) as [|(Hs & _)]; [done|]. destruct (Internal_Compare_cases a b) as [[? E1]|[? E1]];
      rewrite (separator_same _ _ Ha Hb) in Hs by lia; rewrite (compare_same _ Ha) in Hs; lia.
  - intros Ha. destruct (internal_successor_cases a) as [->|(Hs & Eu & El)]; [done|]. split; [rewrite El; zlen_pos; lia|]. rewrite Eu. apply successor_dom, Ha.
  - intros Ha. destruct (decide (Internal_FindShortSuccessor C a = a)) as [->|Hne].
    + destruct (Internal_Compare_cases a a) as [[E _]|[_ E]]; [by rewrite compare_same in E by apply Ha|lia].
    + pose proof (internal_successor_strict a Ha Hne). lia.
Qed.

(** The order on keys by their parts. *)
Definition internal_before (a b : ParsedInternalKey) : Prop :=
  Compare C (user_key a) (user_key b) < 0 \/
  Compare C (user_key a) (user_key b) = 0 /\ (sequence b < sequence a \/ sequence a = sequence b /\ type b < type a).

Lemma internal_order a b : parsed_ok a -> parsed_ok b ->
  (Internal_Compare C (key_bytes a) (key_bytes b) < 0 <-> internal_before a b) /\
  (Internal_Compare C (key_bytes a) (key_bytes b) = 0 <->
    Compare C (user_key a) (user_key b) = 0 /\ sequence a = sequence b /\ type a = type b).
Proof.
  intros Ha Hb. destruct (key_bytes_parts a Ha) as (Ua & Ta & _), (key_bytes_parts b Hb) as (Ub & Tb & _).
  destruct Ha as (_ & _ & Ha), Hb as (_ & _ & Hb). change kTypeValue with 1 in *. unfold internal_before.
  destruct (Internal_Compare_cases (key_bytes a) (key_bytes b)) as [[? E]|[? E]]; rewrite Ua, Ub, ?Ta, ?Tb in *; lia.
Qed.

(** ** Looking up *)

Lemma LookupKey_parts (u : list Z) s : zlen u < 2 ^ 32 - 8 -> 0 <= s <= kMaxSequenceNumber ->
  internal_key (LookupKey u s) = key_bytes (mkParsed u s kValueTypeForSeek) /\ lookup_user_key (LookupKey u s) = u /\
  memtable_key (LookupKey u s) = PutLengthPrefixedSlice (internal_key (LookupKey u s)).
Proof.
  intros Hu Hs. unfold internal_key, lookup_user_key, memtable_key, LookupKey. cbn [fst snd]. set (len := EncodeVarint32 _).
  assert (Ei : zdrop (zlen len) (len ++ u ++ EncodeFixed64 (PackSequenceAndType s kValueTypeForSeek)) = key_bytes (mkParsed u s kValueTypeForSeek)) by (by rewrite zdrop_app).
  rewrite Ei. split; [done|]. zlen_pos. assert (El : zlen (EncodeFixed64 (PackSequenceAndType s kValueTypeForSeek)) = 8) by reflexivity.
  split. { unfold key_bytes, AppendInternalKey. cbn [app user_key sequence type]. rewrite !zlen_app, El. replace (zlen len + (zlen u + 8) - zlen len - 8) with (zlen u) by lia. by rewrite ztake_app. }
  unfold PutLengthPrefixedSlice. f_equal. unfold len, PutVarint32. f_equal. unfold key_bytes, AppendInternalKey. cbn [app user_key sequence type]. rewrite zlen_app.
  change (zlen (PutFixed64 _)) with 8. unfold u32. rewrite (Z.mod_small (zlen u)) by lia. done.
Qed.

(** Where a lookup lands among the entries of a user key. *)
Lemma lookup_compare (u : list Z) s k : dom u -> zlen u < 2 ^ 32 - 8 -> 0 <= s <= kMaxSequenceNumber -> parsed_ok k -> bytes_ok u -> Compare C u (user_key k) = 0 ->
  Internal_Compare C (internal_key (LookupKey u s)) (key_bytes k) <= 0 <-> sequence k <= s.
Proof.
  intros Hu Hl Hs Hk Hb Hc. destruct (LookupKey_parts u s Hl Hs) as (-> & _).
  destruct (key_bytes_parts (mkParsed u s kValueTypeForSeek)) as (E1 & E2 & _); [split; [done|]; split; [done|]; cbn; change kTypeValue with 1; change kValueTypeForSeek with 1; lia|].
  destruct (key_bytes_parts k Hk) as (E3 & E4 & _). cbn [user_key sequence type] in *. change kValueTypeForSeek with 1 in *. destruct Hk as (_ & Hks & Hkt). change kTypeValue with 1 in Hkt.
  destruct (Internal_Compare_cases (key_bytes (mkParsed u s 1)) (key_bytes k)) as [[Hn _]|[_ E]]; rewrite ?E1, ?E3 in *; [done|]. rewrite E2, E4 in E. lia.
Qed.
End Internal.

(** ** Properties *)

(** C22. The comparator of internal keys, made from any lawful comparator of user keys,
    orders them by user key, then by decreasing sequence number, then by decreasing
    type, and takes two for equal only when all three are. It is lawful: a total
    preorder, with separators in [start, limit) and successors not below the key. When
    a key has been shortened it lies strictly between its bounds, which the code
    asserts. *)
Theorem internal_keys_ordered (dom : list Z -> Prop) C : ComparatorLaws dom C ->
  (forall a b, parsed_ok a -> parsed_ok b ->
    (Internal_Compare C (key_bytes a) (key_bytes b) < 0 <->
      Compare C (user_key a) (user_key b) < 0 \/
      Compare C (user_key a) (user_key b) = 0 /\ (sequence b < sequence a \/ sequence a = sequence b /\ type b < type a)) /\
    (Internal_Compare C (key_bytes a) (key_bytes b) = 0 <->
      Compare C (user_key a) (user_key b) = 0 /\ sequence a = sequence b /\ type a = type b)) /\
  ComparatorLaws (internal_dom (dom := dom)) (InternalKeyComparator C) /\
  (forall a b, internal_dom (dom := dom) a -> internal_dom (dom := dom) b -> Internal_Compare C a b < 0 -> Internal_FindShortestSeparator C a b <> a ->
    Internal_Compare C a (Internal_FindShortestSeparator C a b) < 0 /\ Internal_Compare C (Internal_FindShortestSeparator C a b) b < 0) /\
  (forall a, internal_dom (dom := dom) a -> Internal_FindShortSuccessor C a <> a -> Internal_Compare C a (Internal_FindShortSuccessor C a) < 0).
Proof.
  intros Hc. split; [apply internal_order|]. split; [by apply internal_comparator_laws|].
  split; [by apply internal_separator_strict|by apply internal_successor_strict].
Qed.

Lemma internal_keys_ordered_witness :
  ComparatorLaws (internal_dom (dom := bytes_ok)) (InternalKeyComparator BytewiseComparator) /\
  Internal_Compare BytewiseComparator (key_bytes (mkParsed [7; 8] 41 0)) (key_bytes (mkParsed [7; 8] 40 1)) < 0 /\
  Internal_Compare BytewiseComparator (key_bytes (mkParsed [7; 8] 40 1)) (key_bytes (mkParsed [7; 8] 40 0)) < 0 /\
  Internal_Compare BytewiseComparator (key_bytes (mkParsed [7; 8] 3 0)) (key_bytes (mkParsed [7; 9] 40 0)) < 0.
Proof.
  pose proof (internal_keys_ordered bytes_ok BytewiseComparator bytewise_comparator_laws) as [Ho [Hl _]].
  assert (Hok : forall u s t, bytes_ok u -> 0 <= s <= 41 -> 0 <= t <= 1 -> parsed_ok (mkParsed u s t)).
  { intros u s t Hu Hs Ht. split; [done|]. cbn. change kMaxSequenceNumber with (2 ^ 56 - 1). change kTypeValue with 1. lia. }
  assert (H8 : bytes_ok [7; 8]) by (repeat constructor; unfold is_byte; lia).
  assert (H9 : bytes_ok [7; 9]) by (repeat constructor; unfold is_byte; lia).
  split; [exact Hl|]. split; [|split]; apply Ho; try (apply Hok; [assumption|lia|lia]).
  - right. split; [reflexivity|]. left. cbn. lia.
  - right. split; [reflexivity|]. right. cbn. lia.
  - left. reflexivity.
Defined.

(** The bytewise comparator is lawful: the order of strings of unsigned bytes, and a
    separator or a successor that is never out of bounds, whatever the bytes (a run of
    0xff, one string a prefix of the other, adjacent bytes). *)
Theorem bytewise_ordered : ComparatorLaws bytes_ok BytewiseComparator.
Proof. apply bytewise_comparator_laws. Qed.

(** Reading at a snapshot: among the entries of a user key, which are in the order of
    decreasing sequence numbers, the key that a lookup at sequence number [s] seeks is
    after those that are newer than [s] and not after the others; an internal key is
    parsed to what it was made of, and the key for a table in memory is the internal
    key with its length. *)
Theorem lookup_at_snapshot (dom : list Z -> Prop) C (u : list Z) s k : ComparatorLaws dom C -> dom u -> bytes_ok u -> zlen u < 2 ^ 32 - 8 -> 0 <= s <= kMaxSequenceNumber ->
  parsed_ok k -> Compare C u (user_key k) = 0 ->
  (Internal_Compare C (internal_key (LookupKey u s)) (key_bytes k) <= 0 <-> sequence k <= s) /\ ParseInternalKey (key_bytes k) = Some k /\
  lookup_user_key (LookupKey u s) = u /\ memtable_key (LookupKey u s) = PutLengthPrefixedSlice (internal_key (LookupKey u s)).
Proof.
  intros Hc Hu Hb Hl Hs Hk He. split; [by apply (lookup_compare (dom := dom))|]. split; [by apply ParseInternalKey_key|]. by destruct (LookupKey_parts u s Hl Hs) as (_ & H1 & H2).
Qed.

Lemma lookup_at_snapshot_witness :
  (Internal_Compare BytewiseComparator (internal_key (LookupKey [7; 7] 41)) (key_bytes (mkParsed [7; 7] 40 0)) <= 0 <-> 40 <= 41) /\
  ParseInternalKey (key_bytes (mkParsed [7; 7] 40 0)) = Some (mkParsed [7; 7] 40 0) /\ lookup_user_key (LookupKey [7; 7] 41) = [7; 7] /\
  memtable_key (LookupKey [7; 7] 41) = PutLengthPrefixedSlice (internal_key (LookupKey [7; 7] 41)).
Proof.
  refine (lookup_at_snapshot bytes_ok BytewiseComparator [7; 7] 41 (mkParsed [7; 7] 40 0) bytewise_comparator_laws _ _ _ _ _ _).
  - repeat constructor; unfold is_byte; lia.
  - repeat constructor; unfold is_byte; lia.
  - reflexivity.
  - split; discriminate.
  - split; [repeat constructor; unfold is_byte; lia|]. split; split; discriminate.
  - reflexivity.
Defined.
