(* ===== verification/LdbBloom.v ===== *)
(** * Bloom filters (leveldb: util/hash.cc, util/bloom.cc)

    The hash of a string, the filter of a set of keys and the test of a key. A filter
    policy is a class with the law that clients rely on: no false negatives. *)

From S2P Require Import Prelude HashBlocks Sha1 LdbCoding LdbCrc.

(** ** The hash *)

Definition hash_m : Z := 0xc6a4a793.
Definition hash_r : Z := 24.

Fixpoint Hash_words (fuel : nat) (h : Z) (data : list Z) : Z * list Z :=
  match fuel with
  | O => (h, data)
  | S fuel =>
      if zlen data >=? 4 then
        let w := DecodeFixed32 data in
        let h := u32 (h + w) in
        let h := u32 (h * hash_m) in
        let h := h .^ (h ≫ 16) in
        Hash_words fuel h (zdrop 4 data)
      else (h, data)
  end.

Definition Hash (data : list Z) (seed : Z) : Z :=
  let h := seed .^ u32 (u32 (zlen data) * hash_m) in
  let '(h, data) := Hash_words (length data) h data in
  let left := zlen data in
  let h := if left =? 3 then u32 (h + (znth 0 data 2 ≪ 16)) else h in
  let h := if (left =? 3) || (left =? 2) then u32 (h + (znth 0 data 1 ≪ 8)) else h in
  if (left =? 3) || (left =? 2) || (left =? 1) then
    let h := u32 (h + znth 0 data 0) in
    let h := u32 (h * hash_m) in
    h .^ (h ≫ hash_r)
  else h.

(** ** The filter *)

Definition BloomHash (key : list Z) : Z := Hash key 0xbc9f1d34.

Record BloomFilterPolicy := mkBloom { bits_per_key_ : Z; k_ : Z }.

(** The product with 0.69 is computed in floating point; below 45 bits it is far from any
    integer, and from 44 on the bound of 30 applies. *)
Definition BloomFilterPolicy_new (bits_per_key : Z) : BloomFilterPolicy :=
  let k := bits_per_key * 69 / 100 in
  let k := if k <? 1 then 1 else k in
  let k := if k >? 30 then 30 else k in
  mkBloom bits_per_key k.

Definition hash_delta (h : Z) : Z := (h ≫ 17) .| u32 (h ≪ 15).

(** The loops over the probes of a key: set the bits, test the bits. *)
Fixpoint set_probes (k : nat) (h delta bits : Z) (array : list Z) : list Z :=
  match k with
  | O => array
  | S k =>
      let bitpos := u32 (h mod bits) in
      let array := zupd array (bitpos / 8) (u8 (znth 0 array (bitpos / 8) .| (1 ≪ (bitpos mod 8)))) in
      set_probes k (u32 (h + delta)) delta bits array
  end.
Fixpoint test_probes (k : nat) (h delta bits : Z) (array : list Z) : bool :=
  match k with
  | O => true
  | S k =>
      let bitpos := u32 (h mod bits) in
      if znth 0 array (bitpos / 8) .& (1 ≪ (bitpos mod 8)) =? 0 then false else test_probes k (u32 (h + delta)) delta bits array
  end.

(** The size of a filter for [n] keys, in bytes. *)
Definition filter_bytes (policy : BloomFilterPolicy) (n : Z) : Z :=
  let bits := u64 (n * bits_per_key_ policy) in
  let bits := if bits <? 64 then 64 else bits in
  (bits + 7) / 8.

Definition Bloom_CreateFilter (policy : BloomFilterPolicy) (keys : list (list Z)) (dst : list Z) : list Z :=
  let bytes := filter_bytes policy (zlen keys) in
  let bits := bytes * 8 in
  let array := replicate (Z.to_nat bytes) 0 in
  let array := fold_left (fun array key => let h := BloomHash key in set_probes (Z.to_nat (k_ policy)) h (hash_delta h) bits array) keys array in
  dst ++ array ++ [u8 (k_ policy)].

Definition Bloom_KeyMayMatch (key bloom_filter : list Z) : bool :=
  let len := zlen bloom_filter in
  if len <? 2 then false
  else
    let array := bloom_filter in
    let bits := (len - 1) * 8 in
    let c := znth 0 array (len - 1) in
    let k := if c <? 128 then c else u64 (c - 256) in
    if k >? 30 then true
    else let h := BloomHash key in test_probes (Z.to_nat k) h (hash_delta h) bits array.

(** ** Policies *)

Class FilterPolicy (P : Type) := {
  CreateFilter : P -> list (list Z) -> list Z -> list Z;
  KeyMayMatch : P -> list Z -> list Z -> bool
}.

#[export] Instance bloom_filter_policy : FilterPolicy BloomFilterPolicy := {
  CreateFilter := Bloom_CreateFilter;
  KeyMayMatch _ := Bloom_KeyMayMatch
}.

(** What a policy promises about a number of keys: the filter is appended, and it matches
    every key that it was made of. *)
Class PolicyLaws (P : Type) `{FilterPolicy P} := {
  policy_ok : P -> list (list Z) -> Prop;
  CreateFilter_matches p keys dst : policy_ok p keys -> exists filter, CreateFilter p keys dst = dst ++ filter /\
    forall key, key ∈ keys -> KeyMayMatch p key filter = true
}.

(** ** Bits of an array *)

Definition bit_at (array : list Z) (pos : Z) : bool := Z.testbit (znth 0 array (pos / 8)) (pos mod 8).

Lemma land_bit x i : 0 <= i -> (x .& (1 ≪ i) =? 0) = negb (Z.testbit x i).
Proof.
  intros Hi. rewrite Z.shiftl_1_l. destruct (Z.testbit x i) eqn:E; cbn [negb].
  - apply Z.eqb_neq. intros Hz. apply (f_equal (fun z => Z.testbit z i)) in Hz. rewrite Z.land_spec, E, Z.pow2_bits_true, Z.bits_0 in Hz by done. done.
  - apply Z.eqb_eq. apply Z.bits_inj'. intros j Hj. rewrite Z.land_spec, Z.bits_0, Z.pow2_bits_eqb by done. destruct (Z.eqb_spec i j) as [<-|]; [by rewrite E|apply andb_false_r].
Qed.

Lemma u8_low_bit x i : 0 <= i < 8 -> Z.testbit (u8 x) i = Z.testbit x i.
Proof. intros Hi. unfold u8. change 256 with (2 ^ 8). apply Z.mod_pow2_bits_low. lia. Qed.

(** Setting a bit. *)
Definition set_bit (array : list Z) (pos : Z) : list Z := zupd array (pos / 8) (u8 (znth 0 array (pos / 8) .| (1 ≪ (pos mod 8)))).

Lemma zlen_set_bit array pos : zlen (set_bit array pos) = zlen array.
Proof. unfold set_bit, zupd, zlen. by rewrite length_insert. Qed.

Lemma set_bit_same array pos : 0 <= pos < 8 * zlen array -> bit_at (set_bit array pos) pos = true.
Proof.
  intros Hp. unfold bit_at, set_bit. rewrite znth_zupd_same by dlia. pose proof (Z.mod_pos_bound pos 8 ltac:(lia)) as Hm.
  rewrite u8_low_bit, Z.lor_spec, Z.shiftl_1_l, Z.pow2_bits_true by lia. apply orb_true_r.
Qed.

Lemma set_bit_keeps array pos q : 0 <= pos < 8 * zlen array -> 0 <= q -> bit_at array q = true -> bit_at (set_bit array pos) q = true.
Proof.
  intros Hp Hq Hb. unfold bit_at, set_bit in *. destruct (Z.eq_dec (q / 8) (pos / 8)) as [E|E].
  - rewrite E in *. pose proof (Z.mod_pos_bound q 8 ltac:(lia)) as Hm. rewrite znth_zupd_same by dlia. by rewrite u8_low_bit, Z.lor_spec, Hb by lia.
  - rewrite znth_zupd_other by (dlia || congruence). done.
Qed.

(** ** Probes *)

(** The positions that a key probes. *)
Fixpoint probes (k : nat) (h delta bits : Z) : list Z :=
  match k with O => [] | S k => u32 (h mod bits) :: probes k (u32 (h + delta)) delta bits end.

Lemma set_probes_fold k h delta bits array : set_probes k h delta bits array = fold_left set_bit (probes k h delta bits) array.
Proof. revert h array. induction k as [|k IH]; intros h array; cbn [set_probes probes fold_left]; [done|]. by rewrite IH. Qed.

Lemma test_probes_forall k h delta bits array : 0 < bits -> test_probes k h delta bits array = forallb (bit_at array) (probes k h delta bits).
Proof.
  intros Hb. revert h. induction k as [|k IH]; intros h; cbn [test_probes probes forallb]; [done|].
  rewrite land_bit by (apply Z.mod_pos_bound; lia). fold (bit_at array (u32 (h mod bits))). rewrite IH. by destruct (bit_at array (u32 (h mod bits))).
Qed.

Lemma probes_range k h delta bits : 0 < bits -> 0 <= h -> Forall (fun p => 0 <= p < bits) (probes k h delta bits).
Proof.
  intros Hb. revert h. induction k as [|k IH]; intros h Hh; cbn [probes]; [constructor|]. constructor.
  - unfold u32. pose proof (Z.mod_pos_bound h bits Hb) as Hm. split; [apply Z.mod_pos_bound; lia|]. apply Z.le_lt_trans with (h mod bits); [|lia]. apply Z.mod_le; lia.
  - apply IH. unfold u32. dlia.
Qed.

Lemma fold_set_bits ps array : Forall (fun p => 0 <= p < 8 * zlen array) ps ->
  zlen (fold_left set_bit ps array) = zlen array /\
  (forall q, 0 <= q -> bit_at array q = true -> bit_at (fold_left set_bit ps array) q = true) /\
  forallb (bit_at (fold_left set_bit ps array)) ps = true.
Proof.
  revert array. induction ps as [|p ps IH]; intros array Hps; cbn [fold_left forallb]; [done|]. apply Forall_cons_1 in Hps as [Hp Hps].
  destruct (IH (set_bit array p)) as (Hl & Hk & Hf); [by rewrite zlen_set_bit|]. rewrite zlen_set_bit in Hl. split; [done|]. split.
  - intros q Hq Hb. apply Hk; [done|]. by apply set_bit_keeps.
  - rewrite Hf, andb_true_r. apply Hk; [lia|]. by apply set_bit_same.
Qed.

Lemma Hash_words_nonneg fuel h data : 0 <= h -> 0 <= fst (Hash_words fuel h data).
Proof.
  revert h data. induction fuel as [|fuel IH]; intros h data Hh; cbn [Hash_words]; [done|]. destruct (_ >=? _); [|done]. apply IH.
  apply Z.lxor_nonneg. unfold u32. rewrite Z.shiftr_nonneg. dlia.
Qed.

Lemma BloomHash_nonneg key : 0 <= BloomHash key.
Proof.
  unfold BloomHash, Hash. pose proof (Hash_words_nonneg (length key) (0xbc9f1d34 .^ u32 (u32 (zlen key) * hash_m)) key) as H.
  destruct (Hash_words _ _ _) as [h data]. cbn [fst] in H. assert (Hu : forall x, 0 <= u32 x) by (intros; unfold u32; dlia).
  assert (Hh : 0 <= h) by (apply H, Z.lxor_nonneg; pose proof (Hu (u32 (zlen key) * hash_m)); lia). clear H.
  cbv zeta. destruct (_ || _ || _); [apply Z.lxor_nonneg; rewrite Z.shiftr_nonneg; split; intros; apply Hu|].
  destruct (_ || _); [apply Hu|]. destruct (_ =? _); [apply Hu|done].
Qed.

(** The array of a filter. *)
Definition filter_array (policy : BloomFilterPolicy) (keys : list (list Z)) : list Z :=
  fold_left (fun array key => let h := BloomHash key in set_probes (Z.to_nat (k_ policy)) h (hash_delta h) (filter_bytes policy (zlen keys) * 8) array) keys
    (replicate (Z.to_nat (filter_bytes policy (zlen keys))) 0).

Definition key_probes (k bits : Z) (key : list Z) : list Z := probes (Z.to_nat k) (BloomHash key) (hash_delta (BloomHash key)) bits.

Lemma set_keys k bytes keys array : 0 < bytes -> zlen array = bytes ->
  let array' := fold_left (fun array key => let h := BloomHash key in set_probes (Z.to_nat k) h (hash_delta h) (bytes * 8) array) keys array in
  zlen array' = bytes /\ (forall q, 0 <= q -> bit_at array q = true -> bit_at array' q = true) /\
  (forall key, key ∈ keys -> forallb (bit_at array') (key_probes k (bytes * 8) key) = true).
Proof.
  intros Hb. revert array. induction keys as [|key keys IH]; intros array Hl; cbn [fold_left]; cbv zeta; [split; [done|]; split; [done|]; intros key Hin; by apply not_elem_of_nil in Hin|].
  rewrite set_probes_fold. fold (key_probes k (bytes * 8) key).
  pose proof (probes_range (Z.to_nat k) (BloomHash key) (hash_delta (BloomHash key)) (bytes * 8) ltac:(lia) (BloomHash_nonneg key)) as Hr. fold (key_probes k (bytes * 8) key) in Hr.
  destruct (fold_set_bits (key_probes k (bytes * 8) key) array) as (Hl1 & Hk1 & Hf1); [rewrite Hl; by rewrite Z.mul_comm|].
  destruct (IH (fold_left set_bit (key_probes k (bytes * 8) key) array)) as (Hl2 & Hk2 & Hf2); [lia|]. cbv zeta in *. split; [done|]. split; [auto|].
  intros key' [->|Hin]%elem_of_cons; [|by apply Hf2]. rewrite forallb_forall in *. intros q Hq. apply Hk2; [|by apply Hf1].
  rewrite Forall_forall in Hr. apply Hr. by apply list_elem_of_In.
Qed.

(** A policy with a sensible number of bits, and a number of keys that fits. *)
Definition bloom_ok (policy : BloomFilterPolicy) (keys : list (list Z)) : Prop :=
  1 <= k_ policy <= 30.

Lemma filter_bytes_pos policy n : 8 <= filter_bytes policy n.
Proof. unfold filter_bytes. destruct (Z.ltb_spec (u64 (n * bits_per_key_ policy)) 64); [done|]. dlia. Qed.

Lemma bit_at_app array rest q : 0 <= q < 8 * zlen array -> bit_at (array ++ rest) q = bit_at array q.
Proof. intros Hq. unfold bit_at. by rewrite znth_app_l by dlia. Qed.

Lemma bloom_matches policy keys dst : 1 <= k_ policy <= 30 -> exists filter, Bloom_CreateFilter policy keys dst = dst ++ filter /\
  forall key, key ∈ keys -> Bloom_KeyMayMatch key filter = true.
Proof.
  intros Hk. unfold Bloom_CreateFilter. pose proof (filter_bytes_pos policy (zlen keys)) as Hb. set (bytes := filter_bytes policy (zlen keys)) in *.
  destruct (set_keys (k_ policy) bytes keys (replicate (Z.to_nat bytes) 0)) as (Hl & _ & Hf); [lia|rewrite zlen_replicate; lia|]. cbv zeta in *.
  set (array := fold_left _ keys _) in *. clearbody array. exists (array ++ [u8 (k_ policy)]). split; [done|]. intros key Hin.
  unfold Bloom_KeyMayMatch. rewrite zlen_app, Hl. change (zlen [u8 (k_ policy)]) with 1. destruct (Z.ltb_spec (bytes + 1) 2); [lia|].
  replace (bytes + 1 - 1) with bytes by lia. assert (Ec : znth 0 (array ++ [u8 (k_ policy)]) bytes = k_ policy).
  { rewrite <- Hl, znth_last. unfold u8. apply Z.mod_small. lia. }
  rewrite Ec. cbv zeta.
  destruct (Z.ltb_spec (k_ policy) 128); [|lia]. rewrite Z.gtb_ltb. destruct (Z.ltb_spec 30 (k_ policy)); [lia|].
  rewrite test_probes_forall by lia. rewrite <- (Hf key Hin). fold (key_probes (k_ policy) (bytes * 8) key).
  pose proof (probes_range (Z.to_nat (k_ policy)) (BloomHash key) (hash_delta (BloomHash key)) (bytes * 8) ltac:(lia) (BloomHash_nonneg key)) as Hr. fold (key_probes (k_ policy) (bytes * 8) key) in Hr.
  induction Hr as [|q qs Hq _ IH]; [done|]. cbn [forallb]. by rewrite IH, bit_at_app by lia.
Qed.

Lemma new_policy_ok bits : 1 <= k_ (BloomFilterPolicy_new bits) <= 30.
Proof. unfold BloomFilterPolicy_new. cbn [k_]. destruct (Z.ltb_spec (bits * 69 / 100) 1); rewrite Z.gtb_ltb; [done|]. destruct (Z.ltb_spec 30 (bits * 69 / 100)); lia. Qed.

#[export, refine] Instance bloom_policy_laws : PolicyLaws BloomFilterPolicy := { policy_ok := bloom_ok }.
Proof. intros p keys dst Hp. by apply bloom_matches. Defined.

(** ** Property *)

(** C29. A Bloom filter has no false negatives: whatever the keys and the number of bits per
    key that the policy was made with, the filter made of the keys, wherever it is
    appended, matches each of them; its reader takes size and probes from the filter. *)
Theorem no_false_negatives bits keys dst : exists filter, Bloom_CreateFilter (BloomFilterPolicy_new bits) keys dst = dst ++ filter /\
  forall key, key ∈ keys -> Bloom_KeyMayMatch key filter = true.
Proof. apply bloom_matches, new_policy_ok. Qed.
