(* ===== verification/LdbFilter.v ===== *)
(** * Filter blocks (leveldb: table/filter_block.cc, table/filter_block.h)

    The filters of a table, one for every 2 KB of its data, in one block; built and read
    through any filter policy (LdbBloom.v). *)

From Stdlib Require Import Sorted.
From S2P Require Import Prelude Words HashBlocks PbWireFacts LdbCoding LdbBloom.

(** ** Builder *)

Definition kFilterBaseLg : Z := 11.
Definition kFilterBase : Z := 1 ≪ kFilterBaseLg.

Record FilterBlockBuilder (P : Type) := mkBuilder {
  policy_ : P;
  keys_ : list Z;
  start_ : list Z;
  result_ : list Z;
  filter_offsets_ : list Z
}.
Arguments mkBuilder {P}. Arguments policy_ {P}. Arguments keys_ {P}. Arguments start_ {P}. Arguments result_ {P}. Arguments filter_offsets_ {P}.

Section Filters.
Context {P : Type} `{FilterPolicy P}.
Implicit Types b : FilterBlockBuilder P.

Definition FilterBlockBuilder_new (policy : P) : FilterBlockBuilder P := mkBuilder policy [] [] [] [].

(** The keys in the flattened array; [start] has the end of the last one, too. *)
Definition tmp_keys (num_keys : Z) (start keys : list Z) : list (list Z) :=
  map (fun i => ztake (znth 0 start (i + 1) - znth 0 start i) (zdrop (znth 0 start i) keys)) (upto 0 (Z.to_nat num_keys)).

Definition GenerateFilter b : FilterBlockBuilder P :=
  let num_keys := zlen (start_ b) in
  if num_keys =? 0 then mkBuilder (policy_ b) (keys_ b) (start_ b) (result_ b) (filter_offsets_ b ++ [u32 (zlen (result_ b))])
  else
    let start := start_ b ++ [zlen (keys_ b)] in
    let offsets := filter_offsets_ b ++ [u32 (zlen (result_ b))] in
    mkBuilder (policy_ b) [] [] (CreateFilter (policy_ b) (tmp_keys num_keys start (keys_ b)) (result_ b)) offsets.

Fixpoint StartBlock_loop (fuel : nat) (filter_index : Z) b : FilterBlockBuilder P :=
  match fuel with
  | O => b
  | S fuel => if filter_index >? zlen (filter_offsets_ b) then StartBlock_loop fuel filter_index (GenerateFilter b) else b
  end.

(** [None]: the assertion fails. *)
Definition StartBlock (block_offset : Z) b : option (FilterBlockBuilder P) :=
  let filter_index := block_offset / kFilterBase in
  if filter_index >=? zlen (filter_offsets_ b) then Some (StartBlock_loop (Z.to_nat filter_index) filter_index b) else None.

Definition AddKey (key : list Z) b : FilterBlockBuilder P :=
  mkBuilder (policy_ b) (keys_ b ++ key) (start_ b ++ [zlen (keys_ b)]) (result_ b) (filter_offsets_ b).

Definition FilterBlock_Finish b : list Z :=
  let b := if negb (zlen (start_ b) =? 0) then GenerateFilter b else b in
  let array_offset := u32 (zlen (result_ b)) in
  result_ b ++ concat (map PutFixed32 (filter_offsets_ b)) ++ PutFixed32 array_offset ++ [u8 kFilterBaseLg].

(** ** Reader *)

(** [data_] is the contents, [offset_] an index in them. *)
Record FilterBlockReader := mkFilterReader { reader_policy : P; data_ : option (list Z); offset_ : Z; num_ : Z; base_lg_ : Z }.

Definition FilterBlockReader_new (policy : P) (contents : list Z) : FilterBlockReader :=
  let n := zlen contents in
  if n <? 5 then mkFilterReader policy None 0 0 0
  else
    let c := znth 0 contents (n - 1) in
    let base_lg := if c <? 128 then c else u64 (c - 256) in
    let last_word := DecodeFixed32 (zdrop (n - 5) contents) in
    if last_word >? n - 5 then mkFilterReader policy None 0 0 base_lg
    else mkFilterReader policy (Some contents) last_word ((n - 5 - last_word) / 4) base_lg.

Definition FilterBlock_KeyMayMatch (r : FilterBlockReader) (block_offset : Z) (key : list Z) : bool :=
  let index := block_offset ≫ base_lg_ r in
  match data_ r with
  | Some data =>
      if index <? num_ r then
        let start := DecodeFixed32 (zdrop (offset_ r + index * 4) data) in
        let limit := DecodeFixed32 (zdrop (offset_ r + index * 4 + 4) data) in
        if ((start <=? limit) && (limit <=? offset_ r))%bool then KeyMayMatch (reader_policy r) key (ztake (limit - start) (zdrop start data))
        else if start =? limit then false else true
      else true
  | None => true
  end.

(** The keys of the blocks of a table, each block at an offset. *)
Fixpoint add_blocks (blocks : list (Z * list (list Z))) b : option (FilterBlockBuilder P) :=
  match blocks with
  | [] => Some b
  | (offset, keys) :: blocks => match StartBlock offset b with Some b => add_blocks blocks (fold_left (fun b key => AddKey key b) keys b) | None => None end
  end.

Context `{!PolicyLaws P}.

(** ** What a builder holds *)

(** The filters that have been made, with their keys, and the keys that wait. *)
Definition made : Type := list (list (list Z) * list Z).

Definition filter_of (p : P) (e : list (list Z) * list Z) : Prop := forall key, key ∈ fst e -> KeyMayMatch p key (snd e) = true.
Definition filters (fs : made) : list Z := concat (map snd fs).
Fixpoint offsets_from (pos : Z) (fs : made) : list Z := match fs with [] => [] | e :: fs => pos :: offsets_from (pos + zlen (snd e)) fs end.
Fixpoint starts_from (pos : Z) (keys : list (list Z)) : list Z := match keys with [] => [] | k :: keys => pos :: starts_from (pos + zlen k) keys end.

Record builds b (fs : made) (waiting : list (list Z)) : Prop := mkBuilds {
  builds_keys : keys_ b = concat waiting /\ start_ b = starts_from 0 waiting;
  builds_result : result_ b = filters fs /\ filter_offsets_ b = map u32 (offsets_from 0 fs);
  builds_filters : Forall (filter_of (policy_ b)) fs /\ forall keys, policy_ok (policy_ b) keys
}.

Lemma starts_from_snoc pos keys k : starts_from pos (keys ++ [k]) = starts_from pos keys ++ [pos + zlen (concat keys)].
Proof.
  revert pos. induction keys as [|k' keys IH]; intros pos; cbn [app starts_from concat]; [by rewrite zlen_nil, Z.add_0_r|]. rewrite IH, zlen_app. do 2 f_equal. f_equal. lia.
Qed.

Lemma offsets_from_snoc pos fs e : offsets_from pos (fs ++ [e]) = offsets_from pos fs ++ [pos + zlen (filters fs)].
Proof.
  revert pos. induction fs as [|e' fs IH]; intros pos; cbn [app offsets_from]; [unfold filters; cbn; by rewrite zlen_nil, Z.add_0_r|].
  rewrite IH. unfold filters. cbn [map concat]. rewrite zlen_app. do 2 f_equal. f_equal. lia.
Qed.

Lemma zlen_starts pos keys : zlen (starts_from pos keys) = zlen keys.
Proof. revert pos. induction keys as [|k keys IH]; intros pos; [done|]. cbn [starts_from]. by rewrite !zlen_cons, IH. Qed.
Lemma zlen_offsets pos fs : zlen (offsets_from pos fs) = zlen fs.
Proof. revert pos. induction fs as [|k fs IH]; intros pos; [done|]. cbn [offsets_from]. by rewrite !zlen_cons, IH. Qed.

(** The positions of consecutive strings. *)
Lemma znth_cons_pos x (l : list Z) i : 0 <= i -> znth 0 (x :: l) (1 + i) = znth 0 l i.
Proof. intros Hi. unfold znth. by replace (Z.to_nat (1 + i)) with (S (Z.to_nat i)) by lia. Qed.

Lemma znth_starts pos a c : znth 0 (starts_from pos (a ++ c) ++ [pos + zlen (concat (a ++ c))]) (zlen a) = pos + zlen (concat a).
Proof.
  revert pos. induction a as [|k a IH]; intros pos; cbn [app starts_from concat].
  - change (zlen (@nil (list Z))) with 0. change (zlen (@nil Z)) with 0. destruct c as [|k c]; cbn [starts_from concat app]; unfold znth; cbn [Z.to_nat nth]; [reflexivity|simpl; lia].
  - rewrite zlen_cons, znth_cons_pos by (zlen_pos; lia). rewrite !zlen_app, !Z.add_assoc. apply IH.
Qed.

Lemma map_upto_split {A} (f : Z -> A) (l : list A) m : (forall a k c, l = a ++ k :: c -> f (Z.of_nat m + zlen a) = k) -> map f (map Z.of_nat (seq m (length l))) = l.
Proof.
  revert m. induction l as [|k l IH]; intros m Hf; [done|]. cbn [length seq map]. f_equal.
  - rewrite <- (Hf [] k l eq_refl). f_equal. by rewrite zlen_nil, Z.add_0_r.
  - apply IH. intros a k' c ->. rewrite <- (Hf (k :: a) k' c eq_refl). f_equal. rewrite zlen_cons. lia.
Qed.

(** The keys are recovered from the flattened array. *)
Lemma tmp_keys_concat keys : tmp_keys (zlen keys) (starts_from 0 keys ++ [zlen (concat keys)]) (concat keys) = keys.
Proof.
  unfold tmp_keys, upto. rewrite Nat.sub_0_r, zlen_to_nat. apply map_upto_split. intros a k c ->. change (Z.of_nat 0) with 0. rewrite Z.add_0_l.
  replace (zlen (concat (a ++ k :: c))) with (0 + zlen (concat (a ++ k :: c))) by lia.
  rewrite znth_starts. replace (zlen a + 1) with (zlen (a ++ [k])) by (by rewrite zlen_app). replace (a ++ k :: c) with ((a ++ [k]) ++ c) by (by rewrite <- app_assoc).
  rewrite znth_starts. rewrite !concat_app. cbn [concat]. rewrite app_nil_r, <- app_assoc, !zlen_app, !Z.add_0_l. rewrite zdrop_app by done. rewrite ztake_app; [done|lia].
Qed.

(** ** The operations of the builder *)

Lemma AddKey_builds b fs waiting key : builds b fs waiting -> builds (AddKey key b) fs (waiting ++ [key]).
Proof.
  intros [[Hk Hs] [Hr Ho] Hf]. constructor; cbn [keys_ start_ result_ filter_offsets_ policy_ AddKey]; [|done|done].
  rewrite concat_app, starts_from_snoc, Hk, Hs. cbn [concat]. by rewrite app_nil_r.
Qed.

Lemma AddKeys_builds keys b fs waiting : builds b fs waiting -> builds (fold_left (fun b key => AddKey key b) keys b) fs (waiting ++ keys) /\
  policy_ (fold_left (fun b key => AddKey key b) keys b) = policy_ b.
Proof.
  revert b waiting. induction keys as [|key keys IH]; intros b waiting Hb; cbn [fold_left]; [by rewrite app_nil_r|].
  destruct (IH _ _ (AddKey_builds b fs waiting key Hb)) as [H1 H2]. by rewrite <- app_assoc in H1.
Qed.

Lemma GenerateFilter_builds b fs waiting : builds b fs waiting ->
  exists f, builds (GenerateFilter b) (fs ++ [(waiting, f)]) [] /\ policy_ (GenerateFilter b) = policy_ b.
Proof.
  intros [[Hk Hs] [Hr Ho] [Hf Hok]]. unfold GenerateFilter. rewrite Hs, zlen_starts. destruct (Z.eqb_spec (zlen waiting) 0) as [E|E].
  - apply zlen_0_nil in E as ->. exists []. split; [|done]. constructor; cbn [keys_ start_ result_ filter_offsets_ policy_].
    + done.
    + rewrite offsets_from_snoc, map_app, Ho, Hr. unfold filters. rewrite map_app, concat_app. cbn [map concat snd]. by rewrite app_nil_r.
    + split; [|done]. apply Forall_app. split; [done|]. repeat constructor. intros key Hin. by apply not_elem_of_nil in Hin.
  - rewrite Hk, tmp_keys_concat. destruct (CreateFilter_matches (policy_ b) waiting (result_ b) (Hok _)) as (f & E1 & Hm). exists f. split; [|done].
    constructor; cbn [keys_ start_ result_ filter_offsets_ policy_].
    + done.
    + rewrite E1, offsets_from_snoc, map_app, Ho, Hr. unfold filters. rewrite map_app, concat_app. cbn [map concat snd]. by rewrite app_nil_r.
    + split; [|done]. apply Forall_app. split; [done|]. by repeat constructor.
Qed.

Lemma zlen_filter_offsets b fs waiting : builds b fs waiting -> zlen (filter_offsets_ b) = zlen fs.
Proof. intros [_ [_ ->] _]. unfold zlen. rewrite length_map. apply (zlen_offsets 0 fs). Qed.

(** The keys that a filter is responsible for: added, and not lost. *)
Definition covered (fs : made) (waiting : list (list Z)) (i : Z) (key : list Z) : Prop :=
  (i = zlen fs /\ key ∈ waiting) \/ exists a e c, fs = a ++ e :: c /\ zlen a = i /\ key ∈ fst e.

Lemma covered_generate fs waiting f i key : covered fs waiting i key -> covered (fs ++ [(waiting, f)]) [] i key.
Proof.
  intros [[-> Hin]|(a & e & c & -> & Hl & Hin)]; right.
  - by exists fs, (waiting, f), [].
  - exists a, e, (c ++ [(waiting, f)]). by rewrite <- app_assoc.
Qed.

Lemma StartBlock_loop_builds fuel index b fs waiting : builds b fs waiting -> zlen fs <= index -> index - zlen fs <= Z.of_nat fuel -> exists fs' waiting',
  builds (StartBlock_loop fuel index b) fs' waiting' /\ policy_ (StartBlock_loop fuel index b) = policy_ b /\ zlen fs' = index /\
  forall i key, covered fs waiting i key -> covered fs' waiting' i key.
Proof.
  revert b fs waiting. induction fuel as [|fuel IH]; intros b fs waiting Hb Hl Hf; cbn [StartBlock_loop]; [exists fs, waiting; split; [done|]; split; [done|]; split; [lia|done]|].
  rewrite Z.gtb_ltb, (zlen_filter_offsets b fs waiting Hb). destruct (Z.ltb_spec (zlen fs) index); [|exists fs, waiting; split; [done|]; split; [done|]; split; [lia|done]].
  destruct (GenerateFilter_builds b fs waiting Hb) as (f & Hb' & Hp).
  assert (Hl1 : zlen (fs ++ [(waiting, f)]) = zlen fs + 1) by (by rewrite zlen_app).
  destruct (IH _ _ _ Hb' ltac:(lia) ltac:(lia)) as (fs' & waiting' & H2 & H3 & H4 & H5).
  exists fs', waiting'. split; [done|]. split; [congruence|]. split; [done|]. intros i key Hc. by apply H5, covered_generate.
Qed.

(** A block whose offset is not below the last one can be started. *)
Lemma StartBlock_builds offset b fs waiting : builds b fs waiting -> zlen fs <= offset / kFilterBase -> exists b' fs' waiting',
  StartBlock offset b = Some b' /\ builds b' fs' waiting' /\ policy_ b' = policy_ b /\ zlen fs' = offset / kFilterBase /\
  forall i key, covered fs waiting i key -> covered fs' waiting' i key.
Proof.
  intros Hb Hl. unfold StartBlock. rewrite Z.geb_leb, (zlen_filter_offsets b fs waiting Hb). destruct (Z.leb_spec (zlen fs) (offset / kFilterBase)); [|lia]. zlen_pos.
  destruct (StartBlock_loop_builds (Z.to_nat (offset / kFilterBase)) (offset / kFilterBase) b fs waiting Hb Hl ltac:(lia)) as (fs' & waiting' & H2 & H3 & H4 & H5).
  by exists (StartBlock_loop (Z.to_nat (offset / kFilterBase)) (offset / kFilterBase) b), fs', waiting'.
Qed.

Lemma covered_waiting fs waiting keys i key : covered fs waiting i key -> covered fs (waiting ++ keys) i key.
Proof. intros [[-> Hin]|Hc]; [left|by right]. split; [done|]. apply elem_of_app. by left. Qed.

Lemma add_blocks_builds blocks b fs waiting : builds b fs waiting -> StronglySorted Z.le (map fst blocks) -> Forall (fun o => zlen fs <= o / kFilterBase) (map fst blocks) ->
  exists b' fs' waiting', add_blocks blocks b = Some b' /\ builds b' fs' waiting' /\ policy_ b' = policy_ b /\
    (forall i key, covered fs waiting i key -> covered fs' waiting' i key) /\
    (forall offset keys key, (offset, keys) ∈ blocks -> key ∈ keys -> covered fs' waiting' (offset / kFilterBase) key).
Proof.
  revert b fs waiting. induction blocks as [|[o keys] blocks IH]; intros b fs waiting Hb Hs Hl; cbn [add_blocks map fst] in *.
  - exists b, fs, waiting. do 3 (split; [done|]). split; [done|]. intros offset keys key Hin. by apply not_elem_of_nil in Hin.
  - apply StronglySorted_inv in Hs as [Hs Ho]. apply Forall_cons_1 in Hl as [Hl Hls].
    destruct (StartBlock_builds o b fs waiting Hb Hl) as (b1 & fs1 & w1 & -> & Hb1 & Hp1 & Hz1 & Hc1).
    destruct (AddKeys_builds keys b1 fs1 w1 Hb1) as [Hb2 Hp2]. destruct (IH _ _ _ Hb2 Hs) as (b3 & fs3 & w3 & -> & Hb3 & Hp3 & Hc3 & Hk3).
    { apply (Forall_impl _ _ _ Ho). intros o' Hle. rewrite Hz1. apply Z.div_le_mono; [done|lia]. }
    exists b3, fs3, w3. split; [done|]. split; [done|]. split; [congruence|]. split; [intros i key Hc; by apply Hc3, covered_waiting, Hc1|].
    intros offset keys' key [[= -> ->]|Hin]%elem_of_cons Hkey; [|by apply (Hk3 offset keys')].
    apply Hc3. left. split; [done|]. apply elem_of_app. by right.
Qed.

(** ** The contents *)

(** The contents for some filters. *)
Definition contents_of (fs : made) : list Z :=
  filters fs ++ concat (map PutFixed32 (offsets_from 0 fs ++ [zlen (filters fs)])) ++ [u8 kFilterBaseLg].

Lemma offsets_below pos fs : 0 <= pos -> Forall (fun o => 0 <= o <= pos + zlen (filters fs)) (offsets_from pos fs).
Proof.
  revert pos. induction fs as [|e fs IH]; intros pos Hp; cbn [offsets_from]; [constructor|]. unfold filters. cbn [map concat]. rewrite zlen_app. fold (filters fs). zlen_pos.
  constructor; [lia|]. apply (Forall_impl _ _ _ (IH (pos + zlen (snd e)) ltac:(lia))). cbn. lia.
Qed.

Lemma Finish_contents b fs waiting : builds b fs waiting -> zlen (FilterBlock_Finish b) < 2 ^ 32 -> exists fs',
  FilterBlock_Finish b = contents_of fs' /\ Forall (filter_of (policy_ b)) fs' /\ (forall i key, covered fs waiting i key -> exists a e c, fs' = a ++ e :: c /\ zlen a = i /\ key ∈ fst e).
Proof.
  intros Hb Hsz. assert (Hgen : exists b' fs', (if negb (zlen (start_ b) =? 0) then GenerateFilter b else b) = b' /\ builds b' fs' [] /\ policy_ b' = policy_ b /\
    (forall i key, covered fs waiting i key -> covered fs' [] i key)).
  { destruct (Z.eqb_spec (zlen (start_ b)) 0) as [E|E]; cbn [negb].
    - exists b, fs. destruct (builds_keys _ _ _ Hb) as [_ Hst]. rewrite Hst, zlen_starts in E. apply zlen_0_nil in E as ->. done.
    - destruct (GenerateFilter_builds b fs waiting Hb) as (f & Hb' & Hp). exists (GenerateFilter b), (fs ++ [(waiting, f)]).
      split; [done|]. split; [done|]. split; [done|]. intros i key. apply covered_generate. }
  destruct Hgen as (b' & fs' & E & Hb' & Hp & Hc). unfold FilterBlock_Finish in *. cbv zeta in *. rewrite E in *. destruct (builds_result _ _ _ Hb') as [Hr Ho].
  rewrite Hr, Ho in *. rewrite !zlen_app in Hsz. zlen_pos.
  assert (Hu : u32 (zlen (filters fs')) = zlen (filters fs')) by (unfold u32; apply Z.mod_small; lia).
  exists fs'. split; [|split; [rewrite <- Hp; apply (builds_filters _ _ _ Hb')|]].
  - unfold contents_of. f_equal. rewrite map_app, concat_app. cbn [map concat]. rewrite app_nil_r, Hu, <- app_assoc. do 3 f_equal.
    pose proof (offsets_below 0 fs' ltac:(lia)) as Hoff. rewrite Z.add_0_l in Hoff.
    clear - Hoff Hsz. assert (Hs : zlen (filters fs') < 2 ^ 32) by (zlen_pos; lia). clear Hsz. revert Hoff Hs. generalize (zlen (filters fs')). intros m Hoff Hs.
    induction Hoff as [|o os Ho _ IH]; [done|]. cbn [map]. rewrite IH. unfold u32. by rewrite Z.mod_small by lia.
  - intros i key Hin. apply Hc in Hin as [[_ Hin]|Hin]; [by apply not_elem_of_nil in Hin|done].
Qed.

Lemma zlen_fixeds l : zlen (concat (map PutFixed32 l)) = 4 * zlen l.
Proof. induction l as [|x l IH]; [done|]. cbn [map concat]. rewrite zlen_app, IH, zlen_cons. change (zlen (PutFixed32 x)) with 4. lia. Qed.

(** The word at a position of an array of words. *)
Lemma fixed_at (pre : list Z) l x k rest : 0 <= x < 2 ^ 32 -> DecodeFixed32 (zdrop (zlen pre + zlen l * 4) (pre ++ concat (map PutFixed32 (l ++ x :: k)) ++ rest)) = x.
Proof.
  intros Hx. rewrite map_app, concat_app. cbn [map concat]. rewrite <- !app_assoc, app_assoc. rewrite zdrop_app by (rewrite zlen_app, zlen_fixeds; lia).
  by apply Fixed32_roundtrip.
Qed.

(** The end of a filter is the start of the next, or of the array. *)
Lemma offsets_split pos a e c : exists rest,
  offsets_from pos (a ++ e :: c) ++ [pos + zlen (filters (a ++ e :: c))] = offsets_from pos a ++ (pos + zlen (filters a)) :: (pos + zlen (filters a) + zlen (snd e)) :: rest.
Proof.
  revert pos. induction a as [|e' a IH]; intros pos; cbn [app offsets_from].
  - unfold filters. cbn [map concat]. rewrite zlen_app, zlen_nil, !Z.add_0_r. destruct c as [|e2 c]; cbn [offsets_from app map concat]; [exists []; rewrite zlen_nil, Z.add_0_r; done|by eexists].
  - destruct (IH (pos + zlen (snd e'))) as [rest E]. exists rest. unfold filters in *. cbn [map concat]. rewrite !zlen_app, !Z.add_assoc. by rewrite E.
Qed.

Lemma reader_filter policy a e c block_offset key : zlen (contents_of (a ++ e :: c)) < 2 ^ 32 -> 0 <= block_offset -> block_offset / kFilterBase = zlen a ->
  FilterBlock_KeyMayMatch (FilterBlockReader_new policy (contents_of (a ++ e :: c))) block_offset key = KeyMayMatch policy key (snd e).
Proof.
  set (fs := a ++ e :: c). intros Hsz Ho Hi. pose proof (offsets_split 0 a e c) as [rest Hoff]. fold fs in Hoff. rewrite !Z.add_0_l in Hoff.
  assert (Hn : zlen (contents_of fs) = zlen (filters fs) + 4 * zlen fs + 5).
  { unfold contents_of. rewrite !zlen_app, zlen_fixeds, zlen_app, zlen_offsets. change (zlen [zlen (filters fs)]) with 1. change (zlen [u8 kFilterBaseLg]) with 1. lia. }
  assert (Hfs : zlen (filters fs) = zlen (filters a) + zlen (snd e) + zlen (filters c)).
  { unfold filters, fs. rewrite map_app, concat_app. cbn [map concat]. rewrite !zlen_app. lia. }
  assert (Hcount : zlen fs = zlen a + 1 + zlen c) by (unfold fs; rewrite zlen_app, zlen_cons; lia). zlen_pos.
  unfold FilterBlockReader_new. rewrite Hn. destruct (Z.ltb_spec (zlen (filters fs) + 4 * zlen fs + 5) 5); [lia|].
  assert (Ec : znth 0 (contents_of fs) (zlen (filters fs) + 4 * zlen fs + 5 - 1) = 11).
  { replace (zlen (filters fs) + 4 * zlen fs + 5 - 1) with (zlen (filters fs ++ concat (map PutFixed32 (offsets_from 0 fs ++ [zlen (filters fs)])))).
    - unfold contents_of. rewrite app_assoc. by rewrite znth_last.
    - rewrite zlen_app, zlen_fixeds, zlen_app, zlen_offsets. change (zlen [zlen (filters fs)]) with 1. lia. }
  rewrite Ec. change (11 <? 128) with true. cbv iota.
  assert (El : DecodeFixed32 (zdrop (zlen (filters fs) + 4 * zlen fs + 5 - 5) (contents_of fs)) = zlen (filters fs)).
  { replace (zlen (filters fs) + 4 * zlen fs + 5 - 5) with (zlen (filters fs) + zlen (offsets_from 0 fs) * 4) by (rewrite zlen_offsets; lia). apply fixed_at. lia. }
  rewrite El, Z.gtb_ltb. destruct (Z.ltb_spec (zlen (filters fs) + 4 * zlen fs + 5 - 5) (zlen (filters fs))); [lia|].
  unfold FilterBlock_KeyMayMatch. cbn [data_ base_lg_ num_ offset_ reader_policy]. rewrite Z.shiftr_div_pow2 by lia. change (2 ^ 11) with kFilterBase. rewrite Hi.
  replace ((zlen (filters fs) + 4 * zlen fs + 5 - 5 - zlen (filters fs)) / 4) with (zlen fs) by dlia. destruct (Z.ltb_spec (zlen a) (zlen fs)); [|lia].
  assert (Es : DecodeFixed32 (zdrop (zlen (filters fs) + zlen a * 4) (contents_of fs)) = zlen (filters a)).
  { unfold contents_of. rewrite Hoff. rewrite <- (zlen_offsets 0 a). apply fixed_at. lia. }
  assert (Ee : DecodeFixed32 (zdrop (zlen (filters fs) + zlen a * 4 + 4) (contents_of fs)) = zlen (filters a) + zlen (snd e)).
  { unfold contents_of. rewrite Hoff. replace (zlen (filters fs) + zlen a * 4 + 4) with (zlen (filters fs) + zlen (offsets_from 0 a ++ [zlen (filters a)]) * 4)
      by (rewrite zlen_app, zlen_offsets; change (zlen [zlen (filters a)]) with 1; lia).
    replace (offsets_from 0 a ++ zlen (filters a) :: zlen (filters a) + zlen (snd e) :: rest) with ((offsets_from 0 a ++ [zlen (filters a)]) ++ zlen (filters a) + zlen (snd e) :: rest)
      by (by rewrite <- app_assoc). apply fixed_at. lia. }
  rewrite Es, Ee. destruct (Z.leb_spec (zlen (filters a)) (zlen (filters a) + zlen (snd e))); [|lia].
  destruct (Z.leb_spec (zlen (filters a) + zlen (snd e)) (zlen (filters fs))); [|lia]. cbn [andb]. f_equal.
  replace (zlen (filters a) + zlen (snd e) - zlen (filters a)) with (zlen (snd e)) by lia. unfold contents_of, fs, filters. rewrite map_app, concat_app. cbn [map concat].
  rewrite <- !app_assoc. rewrite zdrop_app by done. by rewrite ztake_app.
Qed.

Lemma filter_block_matches policy blocks contents offset keys key : (forall keys, policy_ok policy keys) -> StronglySorted Z.le (map fst blocks) -> Forall (fun o => 0 <= o) (map fst blocks) ->
  (exists b, add_blocks blocks (FilterBlockBuilder_new policy) = Some b /\ (FilterBlock_Finish b = contents -> zlen contents < 2 ^ 32 -> (offset, keys) ∈ blocks -> key ∈ keys ->
    FilterBlock_KeyMayMatch (FilterBlockReader_new policy contents) offset key = true)).
Proof.
  intros Hok Hs H0. assert (Hb0 : builds (FilterBlockBuilder_new policy) [] []) by by constructor.
  destruct (add_blocks_builds blocks _ [] [] Hb0 Hs) as (b & fs & waiting & E & Hb & Hp & _ & Hc).
  { apply (Forall_impl _ _ _ H0). intros o Ho. rewrite zlen_nil. apply Z.div_pos; [lia|done]. }
  exists b. split; [done|]. intros <- Hsz Hin Hkey. destruct (Finish_contents b fs waiting Hb Hsz) as (fs' & Ef & Hf & Hcov).
  destruct (Hcov _ _ (Hc offset keys key Hin Hkey)) as (a & e & c & -> & Ha & Hke). rewrite Ef in *. rewrite reader_filter; [|done| |by rewrite Ha].
  - rewrite Hp in Hf. apply Forall_app in Hf as [_ [He _]%Forall_cons_1]. by apply He.
  - rewrite Forall_forall in H0. apply (H0 offset). apply list_elem_of_In, in_map_iff. exists (offset, keys). split; [done|]. by apply list_elem_of_In.
Qed.
End Filters.

(** ** Property *)

(** C23. The filter block of a table, built through any lawful filter policy: when the
    offsets of the data blocks do not decrease, no assertion of the builder fails, and
    the reader of the finished block (of fewer than 2^32 bytes) says of every key of a
    data block that it may be there; a lookup never skips a block that has the key. *)
Theorem filter_block_complete {P : Type} `{PolicyLaws P} (policy : P) blocks : (forall keys, policy_ok policy keys) ->
  StronglySorted Z.le (map fst blocks) -> Forall (fun o => 0 <= o) (map fst blocks) ->
  exists b, add_blocks blocks (FilterBlockBuilder_new policy) = Some b /\
    forall offset keys key, zlen (FilterBlock_Finish b) < 2 ^ 32 -> (offset, keys) ∈ blocks -> key ∈ keys ->
      FilterBlock_KeyMayMatch (FilterBlockReader_new policy (FilterBlock_Finish b)) offset key = true.
Proof.
  intros Hok Hs Hpos. destruct (filter_block_matches policy blocks [] 0 [] [] Hok Hs Hpos) as (b & E & _). exists b. split; [done|]. intros offset keys key Hsz Hin Hkey.
  destruct (filter_block_matches policy blocks (FilterBlock_Finish b) offset keys key Hok Hs Hpos) as (b' & E' & Hm). rewrite E in E'. injection E' as <-. by apply Hm.
Qed.

Lemma filter_block_complete_witness :
  exists b, add_blocks [(0, [[1]; [2; 3]]); (5000, [[4]]); (5100, [[]])] (FilterBlockBuilder_new (BloomFilterPolicy_new 10)) = Some b /\
    forall offset keys key, zlen (FilterBlock_Finish b) < 2 ^ 32 -> (offset, keys) ∈ [(0, [[1]; [2; 3]]); (5000, [[4]]); (5100, [[]])] -> key ∈ keys ->
      FilterBlock_KeyMayMatch (FilterBlockReader_new (BloomFilterPolicy_new 10) (FilterBlock_Finish b)) offset key = true.
Proof.
  apply (filter_block_complete (BloomFilterPolicy_new 10) [(0, [[1]; [2; 3]]); (5000, [[4]]); (5100, [[]])]).
  - intros keys. split; discriminate.
  - repeat constructor; discriminate.
  - repeat constructor; discriminate.
Defined.
