(* ===== verification/LdbBlock.v ===== *)
(** * Blocks of sorted entries (leveldb: table/block_builder.cc, table/block.cc)

    A block is a sequence of entries, each with the length of the prefix that its key
    shares with the one before, and an array of restart points at which keys are whole.
    The builder's assertions are guards ([None]: one fails); a pointer into the block is
    an offset, and the value of an iterator an offset with a length. *)

From stdpp Require Import strings.
From S2P Require Import Prelude LdbCoding LdbEnv LdbKeys.

(** ** Builder *)

(** [options_]. *)
Record BlockOptions := mkBlockOptions { comparator : Comparator; block_restart_interval : Z }.

Record BlockBuilder := mkBlockBuilder {
  bb_buffer : list Z;
  bb_restarts : list Z;
  counter_ : Z;
  finished_ : bool;
  last_key_ : list Z
}.

Definition BlockBuilder_new (options : BlockOptions) : option BlockBuilder :=
  if block_restart_interval options >=? 1 then Some (mkBlockBuilder [] [0] 0 false []) else None.
Definition Reset (b : BlockBuilder) : BlockBuilder := mkBlockBuilder [] [0] 0 false [].
Definition CurrentSizeEstimate (b : BlockBuilder) : Z := zlen (bb_buffer b) + zlen (bb_restarts b) * 4 + 4.

Definition Block_Finish (b : BlockBuilder) : BlockBuilder :=
  mkBlockBuilder (bb_buffer b ++ concat (map PutFixed32 (bb_restarts b)) ++ PutFixed32 (u32 (zlen (bb_restarts b)))) (bb_restarts b) (counter_ b) true (last_key_ b).

(** The length of the prefix that two keys share. *)
Definition shared_prefix (last_key_piece key : list Z) : Z :=
  let min_length := Z.min (zlen last_key_piece) (zlen key) in
  diff_loop (length last_key_piece) last_key_piece key min_length 0.

Definition Block_Add (options : BlockOptions) (key value : list Z) (b : BlockBuilder) : option BlockBuilder :=
  let last_key_piece := last_key_ b in
  if finished_ b then None
  else if negb (counter_ b <=? block_restart_interval options) then None
  else if negb ((zlen (bb_buffer b) =? 0) || (Compare (comparator options) key last_key_piece >? 0)) then None
  else
    let '(shared, restarts, counter) :=
      if counter_ b <? block_restart_interval options then (shared_prefix last_key_piece key, bb_restarts b, counter_ b)
      else (0, bb_restarts b ++ [u32 (zlen (bb_buffer b))], 0) in
    let non_shared := zlen key - shared in
    let buffer := bb_buffer b ++ PutVarint32 (u32 shared) ++ PutVarint32 (u32 non_shared) ++ PutVarint32 (u32 (zlen value)) in
    let buffer := buffer ++ zdrop shared key ++ value in
    let last_key := ztake shared (last_key_ b) ++ zdrop shared key in
    if bool_decide (last_key = key) then Some (mkBlockBuilder buffer restarts (counter + 1) (finished_ b) last_key) else None.

(** ** Block *)

Record Block := mkBlock { blk_data : list Z; blk_size : Z; restart_offset_ : Z }.

Definition NumRestarts (data : list Z) (size : Z) : Z := DecodeFixed32 (zdrop (size - 4) data).

Definition Block_new (contents : list Z) : Block :=
  let size := zlen contents in
  if size <? 4 then mkBlock contents 0 0
  else
    let max_restarts_allowed := (size - 4) / 4 in
    if NumRestarts contents size >? max_restarts_allowed then mkBlock contents 0 0
    else mkBlock contents size (u32 (u32 size - (1 + NumRestarts contents size) * 4)).

(** The lengths of an entry and the bytes after them, up to the limit. *)
Definition DecodeEntry (p : list Z) : option (Z * Z * Z * list Z) :=
  if zlen p <? 3 then None
  else
    let b0 := znth 0 p 0 in let b1 := znth 0 p 1 in let b2 := znth 0 p 2 in
    let lengths :=
      if (b0 .| b1 .| b2) <? 128 then Some (b0, b1, b2, zdrop 3 p)
      else
        match GetVarint32Ptr p with
        | None => None
        | Some (shared, p) =>
            match GetVarint32Ptr p with
            | None => None
            | Some (non_shared, p) => match GetVarint32Ptr p with None => None | Some (value_length, p) => Some (shared, non_shared, value_length, p) end
            end
        end in
    match lengths with
    | None => None
    | Some (shared, non_shared, value_length, p) => if u32 (zlen p) <? u32 (non_shared + value_length) then None else Some (shared, non_shared, value_length, p)
    end.

(** ** Iterator *)

Record Iter := mkIter {
  it_comparator : Comparator;
  it_data : list Z;
  it_restarts : Z;
  num_restarts_ : Z;
  current_ : Z;
  restart_index_ : Z;
  key_ : list Z;
  value_ : Z * Z;
  status_ : Status
}.

Definition Iter_new (c : Comparator) (data : list Z) (restarts num_restarts : Z) : Iter :=
  mkIter c data restarts num_restarts restarts num_restarts [] (0, 0) OK.

(** [inl]: the iterator that is empty or reports an error. *)
Definition NewIterator (c : Comparator) (b : Block) : Status + Iter :=
  if blk_size b <? 4 then inl (Corruption "bad block contents")
  else
    let num_restarts := NumRestarts (blk_data b) (blk_size b) in
    if num_restarts =? 0 then inl OK else inr (Iter_new c (blk_data b) (restart_offset_ b) num_restarts).

Definition Valid (it : Iter) : bool := current_ it <? it_restarts it.
Definition iter_value (it : Iter) : list Z := ztake (snd (value_ it)) (zdrop (fst (value_ it)) (it_data it)).
Definition NextEntryOffset (it : Iter) : Z := u32 (fst (value_ it) + snd (value_ it)).
Definition GetRestartPoint (it : Iter) (index : Z) : Z := DecodeFixed32 (zdrop (it_restarts it + index * 4) (it_data it)).

Definition set_position (current restart_index : Z) (it : Iter) : Iter :=
  mkIter (it_comparator it) (it_data it) (it_restarts it) (num_restarts_ it) current restart_index (key_ it) (value_ it) (status_ it).
Definition set_entry (key : list Z) (value : Z * Z) (it : Iter) : Iter :=
  mkIter (it_comparator it) (it_data it) (it_restarts it) (num_restarts_ it) (current_ it) (restart_index_ it) key value (status_ it).
Definition set_status (s : Status) (it : Iter) : Iter :=
  mkIter (it_comparator it) (it_data it) (it_restarts it) (num_restarts_ it) (current_ it) (restart_index_ it) (key_ it) (value_ it) s.

Definition SeekToRestartPoint (index : Z) (it : Iter) : Iter :=
  let offset := GetRestartPoint it index in
  set_entry [] (offset, 0) (set_position (current_ it) index it).

(** The cleared value is not used before a seek sets it again. *)
Definition CorruptionError (it : Iter) : Iter :=
  set_entry [] (0, 0) (set_status (Corruption "bad entry in block") (set_position (it_restarts it) (num_restarts_ it) it)).

Fixpoint restart_loop (fuel : nat) (it : Iter) : Iter :=
  match fuel with
  | O => it
  | S fuel =>
      if ((restart_index_ it + 1 <? num_restarts_ it) && (GetRestartPoint it (restart_index_ it + 1) <? current_ it))%bool
      then restart_loop fuel (set_position (current_ it) (restart_index_ it + 1) it) else it
  end.

Definition ParseNextKey (it : Iter) : bool * Iter :=
  let it := set_position (NextEntryOffset it) (restart_index_ it) it in
  if current_ it >=? it_restarts it then (false, set_position (it_restarts it) (num_restarts_ it) it)
  else
    match DecodeEntry (ztake (it_restarts it - current_ it) (zdrop (current_ it) (it_data it))) with
    | None => (false, CorruptionError it)
    | Some (shared, non_shared, value_length, p) =>
        if zlen (key_ it) <? shared then (false, CorruptionError it)
        else
          let key := ztake shared (key_ it) ++ ztake non_shared p in
          let value := (it_restarts it - zlen p + non_shared, value_length) in
          (true, restart_loop (Z.to_nat (num_restarts_ it)) (set_entry key value it))
    end.

(** [None]: the assertion fails. *)
Definition Next (it : Iter) : option Iter := if Valid it then Some (snd (ParseNextKey it)) else None.

(** The scan back to a restart point before [original]; [inr]: there is none. *)
Fixpoint prev_loop (fuel : nat) (original : Z) (it : Iter) : Iter + Iter :=
  match fuel with
  | O => inl it
  | S fuel =>
      if GetRestartPoint it (restart_index_ it) >=? original then
        if restart_index_ it =? 0 then inr (set_position (it_restarts it) (num_restarts_ it) it)
        else prev_loop fuel original (set_position (current_ it) (restart_index_ it - 1) it)
      else inl it
  end.
(** Parse while the entry that has been read ends before [bound]. *)
Fixpoint parse_until (fuel : nat) (bound : Z) (it : Iter) : Iter :=
  match fuel with
  | O => it
  | S fuel => let '(more, it) := ParseNextKey it in if (more && (NextEntryOffset it <? bound))%bool then parse_until fuel bound it else it
  end.
Definition Prev (it : Iter) : option Iter :=
  if Valid it then
    let original := current_ it in
    match prev_loop (S (Z.to_nat (num_restarts_ it))) original it with
    | inr it => Some it
    | inl it => Some (parse_until (S (Z.to_nat (it_restarts it))) original (SeekToRestartPoint (restart_index_ it) it))
    end
  else None.

(** The binary search; [inr]: a restart point is bad. *)
Fixpoint seek_loop (fuel : nat) (target : list Z) (lo hi : Z) (it : Iter) : Z + Iter :=
  match fuel with
  | O => inl lo
  | S fuel =>
      if lo <? hi then
        let mid := (lo + hi + 1) / 2 in
        let region_offset := GetRestartPoint it mid in
        match DecodeEntry (ztake (it_restarts it - region_offset) (zdrop region_offset (it_data it))) with
        | None => inr (CorruptionError it)
        | Some (shared, non_shared, value_length, key_ptr) =>
            if negb (shared =? 0) then inr (CorruptionError it)
            else
              let mid_key := ztake non_shared key_ptr in
              if Compare (it_comparator it) mid_key target <? 0 then seek_loop fuel target mid hi it else seek_loop fuel target lo (mid - 1) it
        end
      else inl lo
  end.
(** The linear search for the first key that is not below the target. *)
Fixpoint scan_loop (fuel : nat) (target : list Z) (it : Iter) : Iter :=
  match fuel with
  | O => it
  | S fuel =>
      let '(more, it) := ParseNextKey it in
      if negb more then it else if Compare (it_comparator it) (key_ it) target >=? 0 then it else scan_loop fuel target it
  end.
Definition Seek (target : list Z) (it : Iter) : Iter :=
  match seek_loop (Z.to_nat (num_restarts_ it)) target 0 (num_restarts_ it - 1) it with
  | inr it => it
  | inl lo => scan_loop (S (Z.to_nat (it_restarts it))) target (SeekToRestartPoint lo it)
  end.

Definition SeekToFirst (it : Iter) : Iter := snd (ParseNextKey (SeekToRestartPoint 0 it)).
Definition SeekToLast (it : Iter) : Iter := parse_until (S (Z.to_nat (it_restarts it))) (it_restarts it) (SeekToRestartPoint (num_restarts_ it - 1) it).
