(* ===== verification/LdbBlockFacts.v ===== *)
(** * Blocks: entries, iteration in both directions, seeking (leveldb)

    The layout of a block as a list of entries; where an iterator stands in it; what the
    builder makes; and that the iterator of a built block gives its entries back. *)

From Stdlib Require Import Sorted.
From stdpp Require Import strings.
From S2P Require Import Prelude Words PbWireFacts LdbCoding LdbEnv LdbKeys LdbFilter LdbBlock.

(** ** Entries *)

Record entry := mkEntry { e_shared : Z; e_key : list Z; e_value : list Z }.

Definition e_bytes (e : entry) : list Z :=
  PutVarint32 (e_shared e) ++ PutVarint32 (zlen (e_key e) - e_shared e) ++ PutVarint32 (zlen (e_value e)) ++ zdrop (e_shared e) (e_key e) ++ e_value e.
Definition region (es : list entry) : list Z := concat (map e_bytes es).
Definition e_pair (e : entry) : list Z * list Z := (e_key e, e_value e).

Definition kv_ok (kv : list Z * list Z) : Prop := bytes_ok (fst kv) /\ zlen (fst kv) < 2 ^ 32 /\ bytes_ok (snd kv) /\ zlen (snd kv) < 2 ^ 32.

(** An entry shares a prefix with the key before it. *)
Definition follows (prev : list Z) (e : entry) : Prop :=
  0 <= e_shared e <= zlen prev /\ e_shared e <= zlen (e_key e) /\ ztake (e_shared e) prev = ztake (e_shared e) (e_key e).
Fixpoint chain (prev : list Z) (es : list entry) : Prop :=
  match es with [] => True | e :: es => follows prev e /\ chain (e_key e) es end.
Definition last_of (es : list entry) : list Z := match last es with Some e => e_key e | None => [] end.

Lemma chain_app prev a c : chain prev (a ++ c) <-> chain prev a /\ chain (match last a with Some e => e_key e | None => prev end) c.
Proof.
  revert prev. induction a as [|e a IH]; intros prev; cbn [app chain]; [naive_solver|]. rewrite IH. destruct a as [|e' a]; [naive_solver|].
  change (last (e :: e' :: a)) with (last (e' :: a)). assert (Hs : exists x, last (e' :: a) = Some x) by (by apply last_is_Some). destruct Hs as [x ->]. naive_solver.
Qed.

Lemma last_of_snoc a e : last_of (a ++ [e]) = e_key e.
Proof. unfold last_of. by rewrite last_snoc. Qed.

Lemma chain_follows a e c : chain [] (a ++ e :: c) -> follows (last_of a) e.
Proof. by intros [_ [Hf _]]%chain_app. Qed.

Lemma region_app a c : region (a ++ c) = region a ++ region c.
Proof. unfold region. by rewrite map_app, concat_app. Qed.
Lemma region_cons e c : region (e :: c) = e_bytes e ++ region c.
Proof. done. Qed.

Lemma zlen_PutVarint32 v : 1 <= zlen (PutVarint32 v).
Proof. unfold PutVarint32, EncodeVarint32. repeat case_match; rewrite zlen_cons; zlen_pos; lia. Qed.

Lemma PutVarint32_ok v : 0 <= v < 2 ^ 32 -> bytes_ok (PutVarint32 v).
Proof. intros Hv. unfold PutVarint32. rewrite EncodeVarint32_wire by done. apply varint_bytes_ok. lia. Qed.

Lemma zlen_e_bytes e : 0 <= e_shared e <= zlen (e_key e) -> 3 + (zlen (e_key e) - e_shared e) + zlen (e_value e) <= zlen (e_bytes e).
Proof.
  intros Hs. unfold e_bytes. rewrite !zlen_app, zlen_zdrop by done. pose proof (zlen_PutVarint32 (e_shared e)). pose proof (zlen_PutVarint32 (zlen (e_key e) - e_shared e)).
  pose proof (zlen_PutVarint32 (zlen (e_value e))). lia.
Qed.

Lemma zlen_region prev es : chain prev es -> 3 * zlen es <= zlen (region es).
Proof.
  revert prev. induction es as [|e es IH]; intros prev; [done|]. intros [(Hs & Hk & _) Hc]. rewrite region_cons, zlen_app, zlen_cons.
  pose proof (zlen_e_bytes e ltac:(lia)). specialize (IH _ Hc). zlen_pos. lia.
Qed.

Lemma e_bytes_ok prev e : follows prev e -> kv_ok (e_pair e) -> bytes_ok (e_bytes e).
Proof.
  intros (Hs & Hk & _) (H1 & H2 & H3 & H4). cbn [e_pair fst snd] in *. zlen_pos. unfold e_bytes. rewrite !Forall_app.
  split; [apply PutVarint32_ok; lia|]. split; [apply PutVarint32_ok; lia|]. split; [apply PutVarint32_ok; lia|]. split; [by apply Forall_drop|done].
Qed.

Lemma region_ok prev es : chain prev es -> Forall kv_ok (map e_pair es) -> bytes_ok (region es).
Proof.
  revert prev. induction es as [|e es IH]; intros prev; [constructor|]. intros [Hf Hc] [He Hes]%Forall_cons_1. rewrite region_cons. apply Forall_app. split; [by apply (e_bytes_ok prev)|by apply (IH (e_key e))].
Qed.

Lemma region_value a e : exists q, region (a ++ [e]) = q ++ e_value e.
Proof.
  exists (region a ++ PutVarint32 (e_shared e) ++ PutVarint32 (zlen (e_key e) - e_shared e) ++ PutVarint32 (zlen (e_value e)) ++ zdrop (e_shared e) (e_key e)).
  rewrite region_app. unfold region at 2. cbn [map concat]. unfold e_bytes. rewrite app_nil_r. by rewrite <- !app_assoc.
Qed.

(** ** Reading an entry *)

Lemma GetVarint32Ptr_put v rest : 0 <= v < 2 ^ 32 -> bytes_ok rest -> GetVarint32Ptr (PutVarint32 v ++ rest) = Some (v, rest).
Proof.
  intros Hv Hr. pose proof (GetVarint32_put v rest Hv Hr) as E. unfold GetVarint32, advance in E. destruct (GetVarint32Ptr _) as [[x q]|]; congruence.
Qed.

(** A length below 128 is one byte, any other begins with a marked byte. *)
Lemma PutVarint32_small v : 0 <= v < 128 -> PutVarint32 v = [v].
Proof. intros Hv. unfold PutVarint32, EncodeVarint32. change (Z.shiftl 1 7) with 128. destruct (Z.ltb_spec v 128); [|lia]. unfold u8. by rewrite Z.mod_small by lia. Qed.
Lemma PutVarint32_large v : 128 <= v -> exists x l, PutVarint32 v = x :: l /\ 128 <= x.
Proof.
  intros Hv. unfold PutVarint32, EncodeVarint32. change (Z.shiftl 1 7) with 128. destruct (Z.ltb_spec v 128); [lia|]. pose proof (byte_mark_any v ltac:(lia)) as E.
  assert (128 <= u8 (v .| 128)) by (rewrite E; dlia). repeat case_match; by eexists _, _.
Qed.

Lemma lor_small a b : 0 <= a -> 0 <= b -> a .| b < 128 -> a < 128 /\ b < 128.
Proof.
  intros Ha Hb Hl. assert (E : Z.shiftr (Z.lor a b) 7 = 0) by (rewrite Z.shiftr_div_pow2 by lia; apply Z.div_small; split; [by apply Z.lor_nonneg|done]).
  rewrite Z.shiftr_lor in E. apply Z.lor_eq_0_iff in E as [E1 E2]. rewrite Z.shiftr_div_pow2 in E1, E2 by lia. change (2 ^ 7) with 128 in *. dlia.
Qed.

(** The three lengths, on either path. *)
Lemma three_lengths a b c rest : 0 <= a < 2 ^ 32 -> 0 <= b < 2 ^ 32 -> 0 <= c < 2 ^ 32 -> bytes_ok rest ->
  let p := PutVarint32 a ++ PutVarint32 b ++ PutVarint32 c ++ rest in
  (if (znth 0 p 0 .| znth 0 p 1 .| znth 0 p 2) <? 128 then Some (znth 0 p 0, znth 0 p 1, znth 0 p 2, zdrop 3 p)
   else match GetVarint32Ptr p with
        | None => None
        | Some (shared, p) => match GetVarint32Ptr p with
          | None => None
          | Some (non_shared, p) => match GetVarint32Ptr p with None => None | Some (value_length, p) => Some (shared, non_shared, value_length, p) end
          end
        end) = Some (a, b, c, rest).
Proof.
  intros Ha Hb Hc Hr p. assert (Hp : bytes_ok p) by (unfold p; rewrite !Forall_app; auto using PutVarint32_ok).
  assert (Hn : forall i, 0 <= znth 0 p i) by (intros i; unfold znth; destruct (nth_in_or_default (Z.to_nat i) p 0) as [Hi| ->]; [rewrite Forall_forall in Hp; apply Hp; by apply list_elem_of_In|lia]).
  assert (Hslow : forall l, bytes_ok l -> GetVarint32Ptr (PutVarint32 a ++ PutVarint32 b ++ l) = Some (a, PutVarint32 b ++ l) /\ GetVarint32Ptr (PutVarint32 b ++ l) = Some (b, l)).
  { intros l Hl. split; apply GetVarint32Ptr_put; try done. apply Forall_app. auto using PutVarint32_ok. }
  destruct (Hslow (PutVarint32 c ++ rest)) as [E1 E2]; [apply Forall_app; auto using PutVarint32_ok|].
  destruct (Z.ltb_spec (znth 0 p 0 .| znth 0 p 1 .| znth 0 p 2) 128) as [Hl|Hl]; [|unfold p; by rewrite E1, E2, GetVarint32Ptr_put].
  apply lor_small in Hl as [Hl H2]; [|apply Z.lor_nonneg; by split|done]. apply lor_small in Hl as [H0 H1]; [|done|done]. clear E1 E2 Hslow Hn Hp. unfold p in *.
  destruct (Z.lt_ge_cases a 128) as [La|La]; [|by destruct (PutVarint32_large a La) as (x & l & E & Hx); rewrite E in H0; unfold znth in H0; change (Z.to_nat 0) with 0%nat in H0; cbn in H0; lia].
  rewrite (PutVarint32_small a) in * by lia.
  destruct (Z.lt_ge_cases b 128) as [Lb|Lb]; [|by destruct (PutVarint32_large b Lb) as (x & l & E & Hx); rewrite E in H1; unfold znth in H1; change (Z.to_nat 1) with 1%nat in H1; cbn in H1; lia].
  rewrite (PutVarint32_small b) in * by lia.
  destruct (Z.lt_ge_cases c 128) as [Lc|Lc]; [|by destruct (PutVarint32_large c Lc) as (x & l & E & Hx); rewrite E in H2; unfold znth in H2; change (Z.to_nat 2) with 2%nat in H2; cbn in H2; lia].
  by rewrite (PutVarint32_small c) by lia.
Qed.

Lemma DecodeEntry_entry prev e rest : follows prev e -> kv_ok (e_pair e) -> bytes_ok rest -> zlen (e_bytes e ++ rest) < 2 ^ 32 ->
  DecodeEntry (e_bytes e ++ rest) = Some (e_shared e, zlen (e_key e) - e_shared e, zlen (e_value e), zdrop (e_shared e) (e_key e) ++ e_value e ++ rest).
Proof.
  intros (Hs & Hk & Hp) (Hk1 & Hk2 & Hv1 & Hv2) Hr Hz. cbn [e_pair fst snd] in *. zlen_pos. pose proof (zlen_e_bytes e ltac:(lia)) as Hle. rewrite zlen_app in Hz. zlen_pos.
  assert (E : e_bytes e ++ rest = PutVarint32 (e_shared e) ++ PutVarint32 (zlen (e_key e) - e_shared e) ++ PutVarint32 (zlen (e_value e)) ++
    zdrop (e_shared e) (e_key e) ++ e_value e ++ rest) by (unfold e_bytes; by rewrite <- !app_assoc).
  pose proof (three_lengths (e_shared e) (zlen (e_key e) - e_shared e) (zlen (e_value e)) (zdrop (e_shared e) (e_key e) ++ e_value e ++ rest) ltac:(lia) ltac:(lia) ltac:(lia)) as T.
  cbv zeta in T. rewrite <- E in T. unfold DecodeEntry. cbv zeta. rewrite T by (rewrite !Forall_app; split; [by apply Forall_drop|done]).
  rewrite (zlen_app (e_bytes e)). destruct (Z.ltb_spec (zlen (e_bytes e) + zlen rest) 3); [lia|].
  rewrite !zlen_app, zlen_zdrop by lia. unfold u32. rewrite !Z.mod_small by lia. destruct (Z.ltb_spec (zlen (e_key e) - e_shared e + (zlen (e_value e) + zlen rest)) (zlen (e_key e) - e_shared e + zlen (e_value e))); [lia|done].
Qed.

(** ** An iterator in a block *)

(** A restart point: where an entry with a whole key starts. *)
Definition restart_at (es : list entry) (r : Z) : Prop := exists a e c, es = a ++ e :: c /\ r = zlen (region a) /\ e_shared e = 0.

Record block_ok (es : list entry) (rs : list Z) : Prop := mkBlockOk {
  ok_chain : chain [] es;
  ok_entries : Forall kv_ok (map e_pair es);
  ok_size : zlen (region es) < 2 ^ 32 /\ zlen rs < 2 ^ 32;
  ok_restarts : exists rs', rs = 0 :: rs' /\ (es = [] -> rs' = []) /\ (es <> [] -> Forall (restart_at es) rs)
}.

Definition block_data (es : list entry) (rs trailer : list Z) : list Z := region es ++ concat (map PutFixed32 rs) ++ trailer.

Section Layout.
Context (C : Comparator) (es : list entry) (rs trailer : list Z) (Hok : block_ok es rs).
Implicit Types it : Iter.

Record in_block it : Prop := mkInBlock {
  in_comparator : it_comparator it = C;
  in_data : it_data it = block_data es rs trailer;
  in_restarts : it_restarts it = zlen (region es);
  in_count : num_restarts_ it = zlen rs;
  in_status : status_ it = OK
}.
Definition index_ok it : Prop := 0 <= restart_index_ it < zlen rs.

(** The next entry to be parsed is the first of [c]. *)
Record ready it (a c : list entry) : Prop := mkReady {
  ready_in : in_block it;
  ready_split : es = a ++ c;
  ready_index : index_ok it;
  ready_offset : NextEntryOffset it = zlen (region a);
  ready_key : match c with e :: _ => e_shared e <= zlen (key_ it) /\ ztake (e_shared e) (key_ it) = ztake (e_shared e) (e_key e) | [] => True end
}.
(** The iterator is at [e]. *)
Record at_entry it (a : list entry) (e : entry) (c : list entry) : Prop := mkAtEntry {
  at_in : in_block it;
  at_split : es = a ++ e :: c;
  at_index : index_ok it;
  at_offset : current_ it = zlen (region a) /\ NextEntryOffset it = zlen (region (a ++ [e]));
  at_pair : key_ it = e_key e /\ iter_value it = e_value e
}.
Record at_end it : Prop := mkAtEnd { end_in : in_block it; end_offset : current_ it = zlen (region es) }.

Lemma region_le a c : es = a ++ c -> zlen (region es) = zlen (region a) + zlen (region c) /\ 3 * zlen a <= zlen (region a) /\ 3 * zlen c <= zlen (region c).
Proof.
  intros E. pose proof (ok_chain _ _ Hok) as Hc. rewrite E in Hc. rewrite E, region_app, zlen_app. apply chain_app in Hc as [Ha Hc]. by eauto using zlen_region.
Qed.

Lemma GetRestartPoint_nth it k r k' : in_block it -> rs = k ++ r :: k' -> GetRestartPoint it (zlen k) = r.
Proof.
  intros [_ Hd Hr _ _] E. destruct (ok_size _ _ Hok) as [Hz _]. unfold GetRestartPoint. rewrite Hd, Hr. unfold block_data. rewrite E.
  apply fixed_at. destruct (ok_restarts _ _ Hok) as (rs' & E' & Hn & Hs). destruct (decide (es = [])) as [He|He].
  - rewrite (Hn He) in E'. rewrite E' in E. destruct k as [|x k]; injection E as <- E; [done|by destruct k].
  - specialize (Hs He). rewrite E in Hs. apply Forall_app in Hs as [_ [(a & e & c & Ec & -> & _) _]%Forall_cons_1]. destruct (region_le a (e :: c) Ec). zlen_pos. lia.
Qed.

Lemma restart_split i : 0 <= i < zlen rs -> exists k r k', rs = k ++ r :: k' /\ zlen k = i.
Proof.
  intros Hi. destruct (zsplit i rs ltac:(lia)) as (k & k' & E & Hk). destruct k' as [|r k']; [|by exists k, r, k']. rewrite app_nil_r in E. subst k. lia.
Qed.

Lemma restart_loop_same fuel it : index_ok it -> in_block it -> exists i, 0 <= i < zlen rs /\ restart_loop fuel it = set_position (current_ it) i it.
Proof.
  revert it. induction fuel as [|fuel IH]; intros it Hi Hb; [exists (restart_index_ it); split; [done|by destruct it]|]. cbn [restart_loop].
  destruct (andb _ _) eqn:E; [|exists (restart_index_ it); split; [done|by destruct it]]. apply andb_true_iff in E as [E _]. apply Z.ltb_lt in E. destruct Hb as [H1 H2 H3 H4 H5].
  destruct (IH (set_position (current_ it) (restart_index_ it + 1) it)) as (i & Hi' & E'); [unfold index_ok in *; cbn; lia|by constructor|].
  exists i. split; [done|]. by rewrite E'.
Qed.

Lemma block_data_at a c : es = a ++ c -> zdrop (zlen (region a)) (block_data es rs trailer) = region c ++ concat (map PutFixed32 rs) ++ trailer.
Proof. intros E. unfold block_data. rewrite E at 1. rewrite region_app, <- app_assoc. by apply zdrop_app. Qed.

Lemma entry_decode it a e c : in_block it -> es = a ++ e :: c ->
  DecodeEntry (ztake (zlen (region es) - zlen (region a)) (zdrop (zlen (region a)) (it_data it))) =
    Some (e_shared e, zlen (e_key e) - e_shared e, zlen (e_value e), zdrop (e_shared e) (e_key e) ++ e_value e ++ region c).
Proof.
  intros [_ Hd _ _ _] E. destruct (region_le a (e :: c) E) as (Hl & _). pose proof (ok_chain _ _ Hok) as Hc. pose proof (ok_entries _ _ Hok) as He.
  rewrite Hd, (block_data_at a (e :: c) E). rewrite ztake_app by lia. rewrite region_cons. rewrite E in Hc, He.
  apply chain_app in Hc as [_ [Hf Hc]]. rewrite map_app in He. apply Forall_app in He as [_ [He1 He2]%Forall_cons_1].
  eapply DecodeEntry_entry; [done|done|by apply (region_ok (e_key e))|]. destruct (ok_size _ _ Hok). rewrite <- region_cons. zlen_pos. lia.
Qed.

Lemma zlen_e_bytes_region a e c : es = a ++ e :: c -> zlen (region (a ++ [e])) = zlen (region a) + zlen (e_bytes e) /\ 3 <= zlen (e_bytes e) /\ zlen (region (a ++ [e])) <= zlen (region es).
Proof.
  intros E. destruct (region_le a (e :: c) E) as (Hl & _). destruct (region_le (a ++ [e]) c) as (Hl2 & Ha & _); [by rewrite <- app_assoc|].
  rewrite region_app, zlen_app. change (region [e]) with (e_bytes e ++ []). rewrite app_nil_r. pose proof (ok_chain _ _ Hok) as Hc. rewrite E in Hc. apply chain_follows in Hc as (Hs & Hk & _).
  pose proof (zlen_e_bytes e ltac:(lia)). rewrite region_app, zlen_app in Hl2. change (region [e]) with (e_bytes e ++ []) in Hl2. rewrite app_nil_r in Hl2. zlen_pos. lia.
Qed.

Lemma ParseNextKey_entry it a e c : ready it a (e :: c) -> exists it', ParseNextKey it = (true, it') /\ at_entry it' a e c.
Proof.
  intros [Hb E Hi Ho Hk]. pose proof (zlen_e_bytes_region a e c E) as (Hz & H3 & Hle). destruct (ok_size _ _ Hok) as [Hsz _].
  pose proof (ok_chain _ _ Hok) as Hc. rewrite E in Hc. apply chain_follows in Hc as (Hs & Hsk & _). pose proof (entry_decode it a e c Hb E) as Hd.
  destruct (region_le a (e :: c) E) as (Hl & _). rewrite region_cons, zlen_app in Hl. zlen_pos. destruct Hb as [B1 B2 B3 B4 B5].
  unfold ParseNextKey. rewrite Ho. cbv zeta. cbn [current_ it_restarts set_position it_data key_ it_comparator num_restarts_ restart_index_ value_ status_].
  rewrite Z.geb_leb, B3. destruct (Z.leb_spec (zlen (region es)) (zlen (region a))); [lia|]. rewrite Hd. destruct Hk as [Hk1 Hk2].
  destruct (Z.ltb_spec (zlen (key_ it)) (e_shared e)); [lia|]. rewrite (ztake_app (zlen (e_key e) - e_shared e)) by (rewrite zlen_zdrop by lia; done). rewrite Hk2, ztake_zdrop.
  set (it1 := set_entry _ _ _). destruct (restart_loop_same (Z.to_nat (num_restarts_ it)) it1) as (i & Hi' & ->); [exact Hi|by constructor|].
  eexists. split; [reflexivity|]. subst it1.
  assert (Hv : zlen (region es) - zlen (zdrop (e_shared e) (e_key e) ++ e_value e ++ region c) + (zlen (e_key e) - e_shared e) + zlen (e_value e) = zlen (region (a ++ [e]))).
  { rewrite !zlen_app, zlen_zdrop by lia. lia. }
  constructor; [by constructor|done|done| |].
  - split; [done|]. unfold NextEntryOffset. cbn. rewrite Hv. unfold u32. apply Z.mod_small. zlen_pos. lia.
  - split; [done|]. unfold iter_value. cbn. rewrite B2.
    replace (zlen (region es) - zlen (zdrop (e_shared e) (e_key e) ++ e_value e ++ region c) + (zlen (e_key e) - e_shared e)) with (zlen (region (a ++ [e])) - zlen (e_value e)) by lia.
    unfold block_data. rewrite E. replace (a ++ e :: c) with ((a ++ [e]) ++ c) by (by rewrite <- app_assoc). rewrite (region_app (a ++ [e]) c), <- app_assoc.
    destruct (region_value a e) as (q & Eq). rewrite Eq, <- app_assoc, (zlen_app q). rewrite (zdrop_app (zlen q + zlen (e_value e) - zlen (e_value e))) by lia. by rewrite ztake_app.
Qed.

Lemma ParseNextKey_end it : ready it es [] -> exists it', ParseNextKey it = (false, it') /\ at_end it'.
Proof.
  intros [[H1 H2 H3 H4 H5] E _ Ho _]. unfold ParseNextKey. rewrite Ho. cbv zeta. cbn [current_ it_restarts set_position]. rewrite Z.geb_leb, H3. destruct (Z.leb_spec (zlen (region es)) (zlen (region es))); [|lia].
  eexists. split; [reflexivity|]. constructor; [by constructor|done].
Qed.

Lemma at_ready it a e c : at_entry it a e c -> ready it (a ++ [e]) c.
Proof.
  intros [Hb E Hi [Hc Ho] [Hk Hv]]. constructor; [done|by rewrite <- app_assoc|done|done|]. destruct c as [|e' c]; [done|]. rewrite Hk.
  pose proof (ok_chain _ _ Hok) as Hch. rewrite E, app_cons_snoc in Hch. apply chain_follows in Hch as ([_ Hs] & _ & Hp). by rewrite last_of_snoc in Hs, Hp.
Qed.

Lemma at_valid it a e c : at_entry it a e c -> Valid it = true.
Proof.
  intros [[_ _ Hr _ _] E _ [Hc _] _]. unfold Valid. rewrite Hc, Hr. destruct (zlen_e_bytes_region a e c E) as (H1 & H2 & H3). apply Z.ltb_lt. lia.
Qed.
Lemma end_invalid it : at_end it -> Valid it = false.
Proof. intros [[_ _ Hr _ _] Hc]. unfold Valid. rewrite Hc, Hr. apply Z.ltb_irrefl. Qed.

Lemma restart_ready it i a e c : in_block it -> 0 <= i < zlen rs -> GetRestartPoint it i = zlen (region a) -> es = a ++ e :: c -> e_shared e = 0 ->
  ready (SeekToRestartPoint i it) a (e :: c).
Proof.
  intros [H1 H2 H3 H4 H5] Hi Hg E Hs. destruct (region_le a (e :: c) E) as (Hl & _). destruct (ok_size _ _ Hok). unfold SeekToRestartPoint. rewrite Hg.
  constructor; [by constructor|done|done| |].
  - unfold NextEntryOffset. cbn. unfold u32. zlen_pos. rewrite Z.mod_small; lia.
  - rewrite Hs. by split.
Qed.

(** The entry at a restart point. *)
Lemma restart_entry it i : es <> [] -> in_block it -> 0 <= i < zlen rs -> exists a e c, es = a ++ e :: c /\ e_shared e = 0 /\ GetRestartPoint it i = zlen (region a) /\ (i = 0 -> a = []).
Proof.
  intros He Hb Hi. destruct (restart_split i Hi) as (k & r & k' & E & <-). rewrite (GetRestartPoint_nth it k r k' Hb E). destruct (ok_restarts _ _ Hok) as (rs' & E' & _ & Hs). specialize (Hs He).
  rewrite E in Hs. apply Forall_app in Hs as [_ [(a & e & c & Ec & -> & H0) _]%Forall_cons_1]. exists a, e, c. do 3 (split; [done|]). intros Hk. apply zlen_0_nil in Hk as ->.
  rewrite E' in E. injection E as E _. destruct (region_le a (e :: c) Ec) as (_ & Ha & _). apply zlen_0_nil. zlen_pos. lia.
Qed.
(** ** The moves of an iterator *)

Lemma zlen_region_es : 3 * zlen es <= zlen (region es).
Proof. by destruct (region_le es [] (eq_sym (app_nil_r es))) as (_ & H & _). Qed.

Lemma region_grows p q r : es = p ++ q ++ r -> q <> [] -> zlen (region p) < zlen (region (p ++ q)).
Proof.
  intros E Hq. pose proof (ok_chain _ _ Hok) as Hc. rewrite E in Hc. apply chain_app in Hc as [_ [Hc _]%chain_app]. apply zlen_region in Hc. rewrite region_app, zlen_app.
  destruct q; [done|]. rewrite zlen_cons in Hc. zlen_pos. lia.
Qed.

Lemma Next_move it a e c : at_entry it a e c -> exists it', Next it = Some it' /\ match c with [] => at_end it' | e' :: c' => at_entry it' (a ++ [e]) e' c' end.
Proof.
  intros Ha. unfold Next. rewrite (at_valid it a e c Ha). pose proof (at_ready _ _ _ _ Ha) as Hr. destruct c as [|e' c].
  - pose proof (ready_split _ _ _ Hr) as E. rewrite app_nil_r in E. rewrite <- E in Hr. destruct (ParseNextKey_end it Hr) as (it' & -> & He). by exists it'.
  - destruct (ParseNextKey_entry it _ _ _ Hr) as (it' & -> & Ha'). by exists it'.
Qed.

Lemma parse_until_entry fuel it a d e c : ready it a (d ++ e :: c) -> (length d < fuel)%nat ->
  at_entry (parse_until fuel (zlen (region (a ++ d ++ [e]))) it) (a ++ d) e c.
Proof.
  revert it a d. induction fuel as [|fuel IH]; intros it a d Hr Hf; [lia|]. cbn [parse_until]. destruct d as [|x d].
  - destruct (ParseNextKey_entry it a e c Hr) as (it' & -> & Ha). cbn [app andb]. rewrite (proj2 (at_offset _ _ _ _ Ha)), Z.ltb_irrefl, app_nil_r. done.
  - destruct (ParseNextKey_entry it a x (d ++ e :: c) Hr) as (it' & -> & Ha). cbn [app andb]. rewrite (proj2 (at_offset _ _ _ _ Ha)).
    pose proof (at_ready _ _ _ _ Ha) as Hr'. cbn in Hf. specialize (IH it' (a ++ [x]) d Hr' ltac:(lia)). rewrite <- !app_assoc in IH. cbn [app] in IH.
    assert (Hlt : zlen (region (a ++ [x])) < zlen (region (a ++ x :: d ++ [e]))).
    { replace (a ++ x :: d ++ [e]) with ((a ++ [x]) ++ d ++ [e]) by (by rewrite <- app_assoc). apply (region_grows _ _ c); [|by destruct d].
      rewrite (ready_split _ _ _ Hr'). by rewrite <- !app_assoc. }
    apply Z.ltb_lt in Hlt. rewrite Hlt. done.
Qed.

Lemma count_pos : 0 < zlen rs.
Proof. destruct (ok_restarts _ _ Hok) as (rs' & -> & _). rewrite zlen_cons. zlen_pos. lia. Qed.

Lemma first_ready it : in_block it -> ready (SeekToRestartPoint 0 it) [] es.
Proof.
  intros Hb. pose proof count_pos as Hn. destruct (decide (es = [])) as [He|He].
  - destruct (ok_restarts _ _ Hok) as (rs' & E' & _). assert (Hg : GetRestartPoint it 0 = 0) by (by apply (GetRestartPoint_nth it [] 0 rs')).
    unfold SeekToRestartPoint. rewrite Hg. destruct Hb as [B1 B2 B3 B4 B5]. constructor; [by constructor|done|unfold index_ok; cbn; lia|done|by rewrite He].
  - destruct (restart_entry it 0 He Hb ltac:(lia)) as (a & e & c & E & Hs & Hg & H0). specialize (H0 eq_refl). subst a.
    pose proof (restart_ready it 0 [] e c Hb ltac:(lia) Hg E Hs) as Hr. cbn [app] in E. by rewrite <- E in Hr.
Qed.

Lemma SeekToFirst_move it : in_block it -> match es with [] => at_end (SeekToFirst it) | e :: c => at_entry (SeekToFirst it) [] e c end.
Proof.
  intros Hb. unfold SeekToFirst. pose proof (first_ready it Hb) as Hr. destruct (decide (es = [])) as [He|He].
  - destruct (ParseNextKey_end (SeekToRestartPoint 0 it)) as (it' & -> & H'); [by rewrite He in Hr |- *|]. by rewrite He.
  - assert (Hs : exists e c, es = e :: c) by (destruct es as [|e c]; [done|by exists e, c]). destruct Hs as (e & c & E).
    assert (Hr' : ready (SeekToRestartPoint 0 it) [] (e :: c)) by (by rewrite <- E). destruct (ParseNextKey_entry _ [] e c Hr') as (it' & -> & Ha). by rewrite E.
Qed.

Lemma fuel_enough p q : es = p ++ q -> (length q < S (Z.to_nat (zlen (region es))))%nat.
Proof. intros E. pose proof zlen_region_es as H3. rewrite E in H3 at 1. rewrite zlen_app in H3. unfold zlen in *. lia. Qed.

Lemma SeekToLast_move it : in_block it -> match last es with None => at_end (SeekToLast it) | Some e => exists a, at_entry (SeekToLast it) a e [] end.
Proof.
  intros Hb. unfold SeekToLast. rewrite (in_restarts _ Hb), (in_count _ Hb). pose proof count_pos as Hn. destruct (decide (es = [])) as [He|He].
  - destruct (ok_restarts _ _ Hok) as (rs' & E' & Hn' & _). rewrite (Hn' He) in E'. replace (zlen rs - 1) with 0 by (by rewrite E'). cbn [parse_until].
    destruct (ParseNextKey_end (SeekToRestartPoint 0 it)) as (it' & -> & H'); [pose proof (first_ready it Hb) as Hr; by rewrite He in Hr |- *|]. by rewrite He.
  - destruct (restart_entry it (zlen rs - 1) He Hb ltac:(lia)) as (a & e & c & E & Hs & Hg & _).
    destruct (exists_last (l := e :: c) ltac:(done)) as (d & l & El). rewrite El in E.
    pose proof (restart_ready it (zlen rs - 1) a e c Hb ltac:(lia) Hg ltac:(by rewrite E, El) Hs) as Hr. rewrite El in Hr.
    pose proof (fuel_enough a _ E) as Hf. rewrite length_app in Hf. cbn in Hf.
    pose proof (parse_until_entry (S (Z.to_nat (zlen (region es)))) _ a d l [] Hr ltac:(lia)) as P. rewrite <- E in P.
    replace (last es) with (Some l) by (by rewrite E, app_assoc, last_snoc). by exists (a ++ d).
Qed.

Lemma prev_loop_stops fuel it p e c : in_block it -> es = p ++ e :: c -> index_ok it -> restart_index_ it < Z.of_nat fuel ->
  match p with
  | [] => exists it', prev_loop fuel (zlen (region p)) it = inr it' /\ at_end it'
  | _ => exists i, prev_loop fuel (zlen (region p)) it = inl (set_position (current_ it) i it) /\ 0 <= i < zlen rs /\ GetRestartPoint it i < zlen (region p)
  end.
Proof.
  intros Hb E. revert it Hb. induction fuel as [|fuel IH]; intros it Hb Hi Hf; [unfold index_ok in Hi; lia|]. cbn [prev_loop]. rewrite Z.geb_leb.
  assert (He : es <> []) by (rewrite E; by destruct p). destruct (restart_entry it (restart_index_ it) He Hb Hi) as (a & e' & c' & Ea & _ & Hg & H0).
  destruct (Z.leb_spec (zlen (region p)) (GetRestartPoint it (restart_index_ it))) as [Hle|Hle].
  - destruct (Z.eqb_spec (restart_index_ it) 0) as [Hz|Hz].
    + destruct p as [|x p].
      * eexists. split; [reflexivity|]. destruct Hb as [B1 B2 B3 B4 B5]. by constructor; [constructor|].
      * exfalso. rewrite Hg, (H0 Hz) in Hle. pose proof (region_grows [] (x :: p) (e :: c) E ltac:(done)) as Hgr. cbn [app] in Hgr. lia.
    + specialize (IH (set_position (current_ it) (restart_index_ it - 1) it)). unfold index_ok in *. cbn [restart_index_ set_position current_] in IH.
      destruct Hb as [B1 B2 B3 B4 B5]. specialize (IH ltac:(by constructor) ltac:(lia) ltac:(lia)). destruct p as [|x p]; [done|].
      destruct IH as (i & E1 & Hi' & Hl). exists i. done.
  - destruct p as [|x p]; [exfalso; rewrite Hg in Hle; change (zlen (region [])) with 0 in Hle; zlen_pos; lia|].
    exists (restart_index_ it). split; [by destruct it|done].
Qed.

Lemma Prev_move it a e c : at_entry it a e c -> exists it', Prev it = Some it' /\ match last a with None => at_end it' | Some e' => exists a', at_entry it' a' e' (e :: c) end.
Proof.
  intros Ha. pose proof (at_split _ _ _ _ Ha) as E. pose proof (at_in _ _ _ _ Ha) as Hb. unfold Prev. rewrite (at_valid it a e c Ha). rewrite (proj1 (at_offset _ _ _ _ Ha)). cbv zeta.
  rewrite (in_count _ Hb). pose proof (at_index _ _ _ _ Ha) as Hi.
  pose proof (prev_loop_stops (S (Z.to_nat (zlen rs))) it a e c Hb E Hi ltac:(unfold index_ok in Hi; lia)) as Hp.
  destruct (decide (a = [])) as [->|Hne]; [destruct Hp as (it' & -> & Hend); by exists it'|].
  destruct (exists_last Hne) as (p & l & ->). rewrite last_snoc. assert (Hp' : exists i, prev_loop (S (Z.to_nat (zlen rs))) (zlen (region (p ++ [l]))) it = inl (set_position (current_ it) i it) /\
    0 <= i < zlen rs /\ GetRestartPoint it i < zlen (region (p ++ [l]))) by (by destruct p). clear Hp. destruct Hp' as (i & -> & Hi' & Hlt).
  eexists. split; [reflexivity|]. assert (He : es <> []) by (rewrite E; by destruct p).
  destruct Hb as [B1 B2 B3 B4 B5]. assert (Hb' : in_block (set_position (current_ it) i it)) by (by constructor). cbn [it_restarts set_position restart_index_]. rewrite B3.
  destruct (restart_entry _ i He Hb' Hi') as (a & x & y & Ea & Hs & Hg & _). change (GetRestartPoint (set_position (current_ it) i it) i) with (GetRestartPoint it i) in Hg. rewrite Hg in Hlt.
  pose proof (restart_ready _ i a x y Hb' Hi' Hg Ea Hs) as Hr. assert (Hd : exists d, p ++ [l] = a ++ d ++ [l] /\ x :: y = d ++ l :: e :: c).
  { destruct (Z.le_gt_cases (zlen (p ++ [l])) (zlen a)) as [Hz|Hz].
    - rewrite E in Ea. destruct (app_split _ _ _ _ Ea Hz) as (k & -> & _). rewrite (region_app (p ++ [l])), zlen_app in Hlt. zlen_pos. lia.
    - rewrite E in Ea. symmetry in Ea. destruct (app_split _ _ _ _ Ea ltac:(lia)) as (k & Ek & Ey). destruct (decide (k = [])) as [->|Hk]; [rewrite Ek, app_nil_r in Hz; lia|].
      destruct (exists_last Hk) as (d & l' & ->). rewrite app_assoc in Ek. apply app_inj_tail in Ek as [-> ->]. exists d. by rewrite <- !app_assoc, Ey, <- app_assoc. }
  destruct Hd as (d & Ep & Ey). rewrite Ey in Hr. rewrite Ep. exists (a ++ d). apply parse_until_entry; [done|]. pose proof (fuel_enough a (d ++ l :: e :: c)) as Hf.
  rewrite length_app in Hf. cbn in Hf. assert (es = a ++ d ++ l :: e :: c) as Ees by (by rewrite Ea, Ey). specialize (Hf Ees). lia.
Qed.
End Layout.
