(* ===== verification/LdbBlockUse.v ===== *)
(** * Blocks: what is built is read (leveldb)

    The builder keeps the layout of LdbBlockFacts.v; the iterator of a finished block
    walks its entries in both directions and seeks a key. *)

From Stdlib Require Import Sorted.
From stdpp Require Import strings.
From S2P Require Import Prelude Words PbWireFacts LdbCoding LdbEnv LdbKeys LdbFilter LdbBlock LdbBlockFacts.

(** ** Clients *)

(** A table's use of the builder: every entry, in order. *)
Fixpoint add_all (options : BlockOptions) (kvs : list (list Z * list Z)) (b : BlockBuilder) : option BlockBuilder :=
  match kvs with
  | [] => Some b
  | (k, v) :: kvs => match Block_Add options k v b with Some b => add_all options kvs b | None => None end
  end.

(** A reader's loop: the entries met by a move, and where the iterator stops. *)
Fixpoint walk (fuel : nat) (move : Iter -> option Iter) (it : Iter) : list (list Z * list Z) * Iter :=
  match fuel with
  | O => ([], it)
  | S fuel =>
      if Valid it then
        match move it with
        | Some it' => let '(l, final) := walk fuel move it' in ((key_ it, iter_value it) :: l, final)
        | None => ([], it)
        end
      else ([], it)
  end.

(** The order that the builder asks for. *)
Definition ascending (C : Comparator) : list (list Z * list Z) -> Prop := StronglySorted (fun kv kv' => Compare C (fst kv') (fst kv) > 0).

(** ** The builder *)

Section Builder.
Context (options : BlockOptions) (Hint : 1 <= block_restart_interval options).

(** [offs] are the restart points before they are cut to 32 bits. *)
Record builds (b : BlockBuilder) (es : list entry) (offs : list Z) : Prop := mkBuilds {
  builds_buffer : bb_buffer b = region es /\ bb_restarts b = map u32 offs;
  builds_state : finished_ b = false /\ last_key_ b = last_of es /\ 0 <= counter_ b <= block_restart_interval options;
  builds_chain : chain [] es /\ Forall kv_ok (map e_pair es);
  builds_restarts : exists offs', offs = 0 :: offs' /\ (es = [] -> offs' = []) /\ (es <> [] -> Forall (restart_at es) offs)
}.

Lemma new_builds : exists b, BlockBuilder_new options = Some b /\ builds b [] [0].
Proof.
  unfold BlockBuilder_new. rewrite Z.geb_leb. destruct (Z.leb_spec 1 (block_restart_interval options)); [|lia]. eexists. split; [done|].
  constructor; [done|split; [done|split; [done|cbn; lia]]|split; [done|constructor]|]. by exists [].
Qed.

Lemma shared_prefix_spec a b : 0 <= shared_prefix a b <= zlen a /\ shared_prefix a b <= zlen b /\ ztake (shared_prefix a b) a = ztake (shared_prefix a b) b.
Proof.
  unfold shared_prefix. destruct (diff_loop_prefix [] a b (length a) ltac:(lia)) as (q & a' & b' & -> & -> & _ & E). cbn [app] in E. change (zlen (@nil Z)) with 0 in E.
  rewrite !Z.add_0_l in E. rewrite E, !zlen_app. zlen_pos. split; [lia|]. split; [lia|]. by rewrite !ztake_app.
Qed.

Lemma restart_at_snoc es e r : restart_at es r -> restart_at (es ++ [e]) r.
Proof. intros (a & x & c & -> & Hr & Hs). exists a, x, (c ++ [e]). by rewrite <- app_assoc. Qed.

Lemma chain_snoc es e : chain [] es -> follows (last_of es) e -> chain [] (es ++ [e]).
Proof. intros Hc Hf. apply chain_app. split; [done|]. by split. Qed.

Lemma Add_buffer shared key value buffer : 0 <= shared <= zlen key -> zlen key < 2 ^ 32 -> zlen value < 2 ^ 32 ->
  (buffer ++ PutVarint32 (u32 shared) ++ PutVarint32 (u32 (zlen key - shared)) ++ PutVarint32 (u32 (zlen value))) ++ zdrop shared key ++ value = buffer ++ e_bytes (mkEntry shared key value).
Proof. intros Hs Hk Hv. zlen_pos. unfold u32, e_bytes. rewrite !Z.mod_small by lia. cbn [e_shared e_key e_value]. by rewrite <- !app_assoc. Qed.

(** One entry more, which shares [shared] bytes. *)
Lemma builds_snoc b es offs offs' shared key value counter : builds b es offs -> kv_ok (key, value) -> follows (last_of es) (mkEntry shared key value) ->
  0 <= counter < block_restart_interval options -> (exists o, offs' = 0 :: o) -> Forall (restart_at (es ++ [mkEntry shared key value])) offs' ->
  builds (mkBlockBuilder ((bb_buffer b ++ PutVarint32 (u32 shared) ++ PutVarint32 (u32 (zlen key - shared)) ++ PutVarint32 (u32 (zlen value))) ++ zdrop shared key ++ value)
    (map u32 offs') (counter + 1) (finished_ b) key) (es ++ [mkEntry shared key value]) offs'.
Proof.
  intros [[Hb Hr] [Hf [Hl Hc]] [Hch Hkv] Ho] Hok Hfo Hcn [o ->] Hra. pose proof Hok as (_ & Hk & _ & Hv). cbn [fst snd] in Hk, Hv.
  constructor; cbn [bb_buffer bb_restarts finished_ last_key_ counter_].
  - split; [|done]. rewrite Add_buffer; [|destruct Hfo as ([? ?] & ? & _); cbn in *; lia|done|done]. rewrite Hb, region_app. f_equal. unfold region. cbn. by rewrite app_nil_r.
  - split; [done|]. split; [by rewrite last_of_snoc|lia].
  - split; [by apply chain_snoc|]. rewrite map_app. apply Forall_app. split; [done|]. by constructor.
  - exists o. split; [done|]. split; [by destruct es|done].
Qed.

Lemma Block_Add_builds b es offs key value : builds b es offs -> kv_ok (key, value) -> (es <> [] -> Compare (comparator options) key (last_of es) > 0) ->
  exists b' e offs', Block_Add options key value b = Some b' /\ e_pair e = (key, value) /\ builds b' (es ++ [e]) offs'.
Proof.
  intros Hb Hkv Hcmp. pose proof Hb as [[Hbuf Hr] [Hf [Hl Hc]] [Hch _] (o & Eo & Hn & Hs)]. unfold Block_Add. rewrite Hf, Hl, Hbuf, Hr.
  destruct (Z.leb_spec (counter_ b) (block_restart_interval options)); [|lia]. cbn [negb].
  assert (Ea : negb ((zlen (region es) =? 0) || (Compare (comparator options) key (last_of es) >? 0)) = false).
  { destruct es as [|e es]; [done|]. specialize (Hcmp ltac:(done)). destruct (Z.gtb_spec (Compare (comparator options) key (last_of (e :: es))) 0); [by rewrite orb_true_r|lia]. }
  rewrite Ea. destruct (Z.ltb_spec (counter_ b) (block_restart_interval options)) as [Hlt|Hlt].
  - destruct (shared_prefix_spec (last_of es) key) as (H1 & H2 & H3). rewrite H3, ztake_zdrop, bool_decide_eq_true_2 by done. eexists _, (mkEntry (shared_prefix (last_of es) key) key value), offs.
    split; [reflexivity|]. split; [done|]. rewrite <- Hf, <- Hbuf. apply (builds_snoc b es offs offs); try done; [lia|by exists o|].
    destruct (decide (es = [])) as [->|He]; [|apply (Forall_impl _ _ _ (Hs He)); intros r; apply restart_at_snoc]. rewrite (Hn eq_refl) in Eo. subst offs. constructor; [|done].
    exists [], (mkEntry (shared_prefix (last_of []) key) key value), []. split; [done|]. split; [done|]. cbn [e_shared]. change (last_of []) with (@nil Z) in *. change (zlen (@nil Z)) with 0 in H1. lia.
  - rewrite ztake_0, zdrop_0, bool_decide_eq_true_2 by done. eexists _, (mkEntry 0 key value), (offs ++ [zlen (region es)]).
    assert (He : es <> [] \/ es = []) by (destruct es; [by right|by left]). split; [reflexivity|]. split; [done|]. rewrite <- Hf, <- Hbuf. replace (map u32 offs ++ [u32 (zlen (bb_buffer b))]) with (map u32 (offs ++ [zlen (bb_buffer b)])) by (by rewrite map_app).
    rewrite <- (zdrop_0 key) at 1. rewrite Hbuf. rewrite <- Hbuf at 1. apply (builds_snoc b es offs); try done.
    + split; [cbn; zlen_pos; lia|]. split; [cbn; zlen_pos; lia|done].
    + lia.
    + subst offs. by eexists.
    + apply Forall_app. split; [|constructor; [|done]]; [|by exists es, (mkEntry 0 key value), []].
      destruct He as [He|He]; [apply (Forall_impl _ _ _ (Hs He)); intros r; apply restart_at_snoc|]. subst es offs. rewrite (Hn eq_refl). constructor; [|done]. by exists [], (mkEntry 0 key value), [].
Qed.

Lemma add_all_builds kvs b es offs : builds b es offs -> Forall kv_ok kvs -> ascending (comparator options) (map e_pair es ++ kvs) ->
  exists b' es' offs', add_all options kvs b = Some b' /\ map e_pair es' = map e_pair es ++ kvs /\ builds b' es' offs'.
Proof.
  revert b es offs. induction kvs as [|[k v] kvs IH]; intros b es offs Hb Hkv Ha; cbn [add_all]; [exists b, es, offs; by rewrite app_nil_r|].
  apply Forall_cons_1 in Hkv as [Hk Hkv]. destruct (Block_Add_builds b es offs k v Hb Hk) as (b1 & e & offs1 & -> & Ee & Hb1).
  - intros He. destruct (exists_last He) as (p & l & ->). rewrite last_of_snoc. unfold ascending in Ha. rewrite map_app, <- app_assoc in Ha. clear - Ha.
    induction (map e_pair p) as [|x q IH]; cbn [app] in Ha; [|by apply IH; apply StronglySorted_inv in Ha as [Ha _]].
    apply StronglySorted_inv in Ha as [_ Ha]. cbn [map app] in Ha. by apply Forall_cons_1 in Ha as [Ha _].
  - destruct (IH b1 (es ++ [e]) offs1 Hb1 Hkv) as (b' & es' & offs' & -> & Em & Hb'); [by rewrite map_app, <- app_assoc; cbn [map app]; rewrite Ee|].
    exists b', es', offs'. split; [done|]. split; [|done]. rewrite Em, map_app, <- app_assoc. cbn [map app]. by rewrite Ee.
Qed.
End Builder.

(** ** The finished block *)

Lemma map_u32_id l : Forall (fun x => 0 <= x < 2 ^ 32) l -> map u32 l = l.
Proof. induction 1 as [|x l Hx _ IH]; [done|]. cbn [map]. rewrite IH. f_equal. by apply Z.mod_small. Qed.

Lemma restart_at_bound es r : restart_at es r -> 0 <= r <= zlen (region es).
Proof. intros (a & e & c & -> & -> & _). rewrite region_app, zlen_app. zlen_pos. lia. Qed.

Lemma Finish_layout options b es offs : builds options b es offs -> zlen (bb_buffer (Block_Finish b)) < 2 ^ 32 ->
  block_ok es offs /\ bb_buffer (Block_Finish b) = block_data es offs (PutFixed32 (zlen offs)).
Proof.
  intros [[Hb Hr] _ [Hc Hkv] (o & Eo & Hn & Hs)] Hz. unfold Block_Finish in *. cbn [bb_buffer] in *. rewrite Hb, Hr in *. rewrite !zlen_app, zlen_fixeds in Hz.
  assert (Hlen : zlen (map u32 offs) = zlen offs) by (unfold zlen; by rewrite length_map). rewrite Hlen in *. zlen_pos.
  assert (Hid : map u32 offs = offs).
  { apply map_u32_id. destruct (decide (es = [])) as [He|He]; [rewrite Eo, (Hn He); constructor; [lia|done]|]. apply (Forall_impl _ _ _ (Hs He)). intros r Hra. apply restart_at_bound in Hra. lia. }
  rewrite Hid. unfold u32. rewrite Z.mod_small by lia. split; [|done]. constructor; [done|done|lia|by exists o].
Qed.

Lemma NewIterator_block C es offs : block_ok es offs -> zlen (block_data es offs (PutFixed32 (zlen offs))) < 2 ^ 32 ->
  exists it, NewIterator C (Block_new (block_data es offs (PutFixed32 (zlen offs)))) = inr it /\ in_block C es offs (PutFixed32 (zlen offs)) it.
Proof.
  intros Hok Hz. pose proof (count_pos es offs Hok) as Hn. set (d := block_data _ _ _) in *.
  assert (Hd : zlen d = zlen (region es) + 4 * zlen offs + 4) by (unfold d, block_data; rewrite !zlen_app, zlen_fixeds; change (zlen (PutFixed32 (zlen offs))) with 4; lia). zlen_pos.
  assert (Hc : NumRestarts d (zlen d) = zlen offs).
  { assert (Ed : d = (region es ++ concat (map PutFixed32 offs)) ++ PutFixed32 (zlen offs)) by (unfold d, block_data; by rewrite app_assoc).
    unfold NumRestarts. rewrite Hd, Ed. rewrite zdrop_app by (rewrite zlen_app, zlen_fixeds; lia).
    rewrite <- (app_nil_r (PutFixed32 _)). apply Fixed32_roundtrip. lia. }
  unfold Block_new. destruct (Z.ltb_spec (zlen d) 4); [lia|]. rewrite Hc, Z.gtb_ltb. assert (Hm : zlen offs <= (zlen d - 4) / 4) by dlia. destruct (Z.ltb_spec ((zlen d - 4) / 4) (zlen offs)); [lia|].
  unfold NewIterator. cbn [blk_size blk_data restart_offset_]. destruct (Z.ltb_spec (zlen d) 4); [lia|]. rewrite Hc. destruct (Z.eqb_spec (zlen offs) 0); [lia|].
  eexists. split; [reflexivity|]. constructor; cbn; try done. unfold u32. rewrite (Z.mod_small (zlen d)) by lia. rewrite Z.mod_small; lia.
Qed.

(** ** Walking *)

Section Reading.
Context (C : Comparator) (es : list entry) (rs trailer : list Z) (Hok : block_ok es rs).
Abbreviation at_entry := (at_entry C es rs trailer).
Abbreviation at_end := (at_end C es rs trailer).

Lemma walk_next fuel it a e c : at_entry it a e c -> (length c < fuel)%nat -> exists final, walk fuel Next it = (map e_pair (e :: c), final) /\ at_end final.
Proof.
  revert it a e c. induction fuel as [|fuel IH]; intros it a e c Ha Hf; [lia|]. cbn [walk]. rewrite (at_valid _ _ _ _ Hok it a e c Ha).
  destruct (Next_move _ _ _ _ Hok it a e c Ha) as (it' & -> & Hm). destruct (at_pair _ _ _ _ _ _ _ _ Ha) as [-> ->]. destruct c as [|e' c].
  - exists it'. split; [|done]. destruct fuel; cbn [walk]; [done|]. by rewrite (end_invalid _ _ _ _ it' Hm).
  - cbn in Hf. destruct (IH it' _ _ _ Hm ltac:(lia)) as (final & -> & He). by exists final.
Qed.

Lemma walk_prev fuel it a e c : at_entry it a e c -> (length a < fuel)%nat -> exists final, walk fuel Prev it = (map e_pair (rev (a ++ [e])), final) /\ at_end final.
Proof.
  revert it a e c. induction fuel as [|fuel IH]; intros it a e c Ha Hf; [lia|]. cbn [walk]. rewrite (at_valid _ _ _ _ Hok it a e c Ha).
  destruct (Prev_move _ _ _ _ Hok it a e c Ha) as (it' & -> & Hm). destruct (at_pair _ _ _ _ _ _ _ _ Ha) as [-> ->]. rewrite rev_unit. cbn [map]. destruct (decide (a = [])) as [->|Hne].
  - exists it'. split; [|done]. cbn in Hm. destruct fuel; cbn [walk]; [done|]. by rewrite (end_invalid _ _ _ _ it' Hm).
  - destruct (exists_last Hne) as (p & l & ->). rewrite last_snoc in Hm. destruct Hm as (a' & Hm).
    assert (a' = p) as ->. { pose proof (at_split _ _ _ _ _ _ _ _ Hm) as E1. pose proof (at_split _ _ _ _ _ _ _ _ Ha) as E2. rewrite E2, <- app_assoc in E1. symmetry in E1. by apply app_inv_tail in E1. }
    rewrite length_app in Hf. cbn in Hf. destruct (IH it' _ _ _ Hm ltac:(lia)) as (final & -> & He). by exists final.
Qed.

(** ** Seeking *)

Context (dom : list Z -> Prop) `{!ComparatorLaws dom C} (Hdom : Forall dom (map e_key es)) (Hasc : ascending C (map e_pair es)).
Context (target : list Z) (Htarget : dom target).

Definition below (e : entry) : Prop := Compare C (e_key e) target < 0.

Lemma scan_loop_first fuel it a c : ready C es rs trailer it a c -> (length c < fuel)%nat ->
  (exists d e c', c = d ++ e :: c' /\ Forall below d /\ ~ below e /\ at_entry (scan_loop fuel target it) (a ++ d) e c') \/ (Forall below c /\ at_end (scan_loop fuel target it)).
Proof.
  revert it a c. induction fuel as [|fuel IH]; intros it a c Hr Hf; [lia|]. cbn [scan_loop]. destruct c as [|e c].
  - right. pose proof (ready_split _ _ _ _ _ _ _ Hr) as E. rewrite app_nil_r in E. rewrite <- E in Hr. destruct (ParseNextKey_end _ _ _ _ it Hr) as (it' & -> & He). by split.
  - destruct (ParseNextKey_entry _ _ _ _ Hok it a e c Hr) as (it' & -> & Ha). cbn [negb]. rewrite (in_comparator _ _ _ _ _ (at_in _ _ _ _ _ _ _ _ Ha)), (proj1 (at_pair _ _ _ _ _ _ _ _ Ha)), Z.geb_leb.
    destruct (Z.leb_spec 0 (Compare C (e_key e) target)) as [Hge|Hlt].
    + left. exists [], e, c. rewrite app_nil_r. split; [done|]. split; [done|]. split; [unfold below; lia|done].
    + cbn in Hf. destruct (IH it' (a ++ [e]) c (at_ready _ _ _ _ Hok _ _ _ _ Ha) ltac:(lia)) as [(d & e' & c' & -> & Hd & He' & Hat)|[Hc Hend]].
      * left. exists (e :: d), e', c'. split; [done|]. split; [by constructor|]. split; [done|]. by rewrite <- app_assoc in Hat.
      * right. split; [by constructor|done].
Qed.

Lemma entry_dom a e c : es = a ++ e :: c -> dom (e_key e).
Proof. intros E. rewrite E, map_app in Hdom. apply Forall_app in Hdom as [_ Hd]. by apply Forall_cons_1 in Hd as [Hd _]. Qed.

(** Entries before one below the target are below it. *)
Lemma below_before a e c : es = a ++ e :: c -> below e -> Forall below a.
Proof.
  intros E He. pose proof (entry_dom a e c E) as Hde. apply Forall_forall. intros x (p & q & ->)%list_elem_of_split. rewrite <- app_assoc in E. cbn [app] in E.
  pose proof (entry_dom p x _ E) as Hdx. unfold ascending in Hasc. rewrite E, map_app in Hasc.
  assert (Hx : Compare C (e_key e) (e_key x) > 0).
  { clear - Hasc. induction (map e_pair p) as [|y l IH]; cbn [app] in Hasc; [|apply IH; by apply StronglySorted_inv in Hasc as [? _]].
    cbn [map] in Hasc. apply StronglySorted_inv in Hasc as [_ Hx]. rewrite map_app in Hx. apply Forall_app in Hx as [_ Hx]. cbn [map] in Hx. by apply Forall_cons_1 in Hx as [Hx _]. }
  unfold below in *. pose proof (compare_sym (e_key e) (e_key x) Hde Hdx) as Hs. assert (Compare C (e_key x) (e_key e) < 0) by (destruct (Compare C (e_key x) (e_key e)); cbn in Hs; lia).
  apply (compare_lt_le (dom := dom) _ (e_key e)); try done. lia.
Qed.

Lemma seek_loop_restart fuel it lo hi : es <> [] -> in_block C es rs trailer it -> 0 <= lo -> lo <= hi < zlen rs -> hi - lo < Z.of_nat fuel ->
  (exists a e c, es = a ++ e :: c /\ e_shared e = 0 /\ GetRestartPoint it lo = zlen (region a) /\ (a = [] \/ below e)) ->
  exists i a e c, seek_loop fuel target lo hi it = inl i /\ 0 <= i < zlen rs /\ es = a ++ e :: c /\ e_shared e = 0 /\ GetRestartPoint it i = zlen (region a) /\ (a = [] \/ below e).
Proof.
  intros Hne Hb. revert lo hi. induction fuel as [|fuel IH]; intros lo hi H0 Hh Hf Hlo; [lia|]. cbn [seek_loop]. destruct (Z.ltb_spec lo hi) as [Hlt|Hge].
  - cbv zeta. set (mid := (lo + hi + 1) / 2). assert (Hm : lo < mid <= hi) by (unfold mid; dlia). clearbody mid.
    destruct (restart_entry C es rs trailer Hok it mid Hne Hb ltac:(lia)) as (a & e & c & E & Hs & Hg & _). rewrite Hg, (in_restarts _ _ _ _ _ Hb), (entry_decode C es rs trailer Hok it a e c Hb E).
    rewrite Hs. cbn [Z.eqb negb]. rewrite Z.sub_0_r, zdrop_0, ztake_app by done. rewrite (in_comparator _ _ _ _ _ Hb). destruct (Z.ltb_spec (Compare C (e_key e) target) 0) as [Hc|Hc].
    + apply IH; [lia|lia|lia|]. exists a, e, c. do 3 (split; [done|]). by right.
    + apply IH; [lia|lia|lia|done].
  - destruct Hlo as (a & e & c & Hlo). exists lo, a, e, c. split; [done|]. split; [lia|done].
Qed.

Lemma Seek_move it : in_block C es rs trailer it ->
  (exists a e c, es = a ++ e :: c /\ Forall below a /\ ~ below e /\ at_entry (Seek target it) a e c) \/ (Forall below es /\ at_end (Seek target it)).
Proof.
  intros Hb. pose proof (count_pos es rs Hok) as Hn. unfold Seek. rewrite (in_count _ _ _ _ _ Hb), (in_restarts _ _ _ _ _ Hb).
  assert (Hstart : exists i a c, seek_loop (Z.to_nat (zlen rs)) target 0 (zlen rs - 1) it = inl i /\ ready C es rs trailer (SeekToRestartPoint i it) a c /\ Forall below a).
  { destruct (decide (es = [])) as [He|He].
    - exists 0, [], es. split; [|split; [by apply first_ready|constructor]]. destruct (ok_restarts _ _ Hok) as (rs' & -> & H0 & _). rewrite (H0 He). reflexivity.
    - destruct (restart_entry C es rs trailer Hok it 0 He Hb ltac:(lia)) as (a0 & e0 & c0 & E0 & Hs0 & Hg0 & Ha0).
      destruct (seek_loop_restart (Z.to_nat (zlen rs)) it 0 (zlen rs - 1) He Hb ltac:(lia) ltac:(lia) ltac:(lia)) as (i & a & e & c & El & Hi & E & Hs & Hg & Hd).
      { exists a0, e0, c0. do 3 (split; [done|]). left. by apply Ha0. }
      exists i, a, (e :: c). split; [done|]. split; [by apply restart_ready|]. destruct Hd as [->|Hd]; [constructor|]. by apply (below_before a e c). }
  destruct Hstart as (i & a & c & -> & Hr & Ha). pose proof (ready_split _ _ _ _ _ _ _ Hr) as E.
  destruct (scan_loop_first _ _ a c Hr (fuel_enough es rs Hok a c E)) as [(d & e & c' & -> & Hd & He & Hat)|[Hc Hend]].
  - left. exists (a ++ d), e, c'. rewrite <- app_assoc. split; [done|]. split; [by apply Forall_app|done].
  - right. split; [|done]. rewrite E. by apply Forall_app.
Qed.
End Reading.

(** The table that a builder makes of ascending entries, as a client reads it. *)
Lemma built_block options kvs : 1 <= block_restart_interval options -> Forall kv_ok kvs -> ascending (comparator options) kvs ->
  exists b0 b es offs, BlockBuilder_new options = Some b0 /\ add_all options kvs b0 = Some b /\ map e_pair es = kvs /\
    (zlen (bb_buffer (Block_Finish b)) < 2 ^ 32 -> block_ok es offs /\
      exists it, NewIterator (comparator options) (Block_new (bb_buffer (Block_Finish b))) = inr it /\ in_block (comparator options) es offs (PutFixed32 (zlen offs)) it).
Proof.
  intros Hint Hkv Hasc. destruct (new_builds options Hint) as (b0 & E0 & Hb0).
  destruct (add_all_builds options Hint kvs b0 [] [0] Hb0 Hkv Hasc) as (b & es & offs & Eb & Em & Hb). exists b0, b, es, offs. do 3 (split; [done|]).
  intros Hz. destruct (Finish_layout options b es offs Hb Hz) as [Hok E]. split; [done|]. rewrite E in *. by apply NewIterator_block.
Qed.

Lemma length_pairs es (kvs : list (list Z * list Z)) : map e_pair es = kvs -> length kvs = length es.
Proof. intros <-. apply length_map. Qed.

(** Seeking in a built block. *)
Lemma built_block_seek (dom : list Z -> Prop) options `{!ComparatorLaws dom (comparator options)} es offs trailer it target :
  block_ok es offs -> in_block (comparator options) es offs trailer it -> Forall dom (map e_key es) -> ascending (comparator options) (map e_pair es) -> dom target ->
  exists a c, map e_pair es = a ++ c /\ Forall (fun kv => Compare (comparator options) (fst kv) target < 0) a /\
    (forall kv, head c = Some kv -> 0 <= Compare (comparator options) (fst kv) target) /\
    exists final, walk (S (length es)) Next (Seek target it) = (c, final) /\ Valid final = false /\ status_ final = OK.
Proof.
  intros Hok Hin Hdom Hasc Ht.
  destruct (Seek_move _ _ _ _ Hok dom Hdom Hasc target Ht it Hin) as [(a & e & c & E & Ha & He & Hat)|[Hall Hend]].
  - exists (map e_pair a), (map e_pair (e :: c)). split; [by rewrite E, map_app|]. split; [by apply Forall_map|]. split.
    { intros kv [= <-]. unfold below in He. cbn [e_pair fst]. lia. }
    destruct (walk_next _ _ _ _ Hok (S (length es)) _ a e c Hat) as (final & -> & Hf); [rewrite E, length_app; cbn; lia|].
    exists final. split; [done|]. split; [by apply (end_invalid _ _ _ _ _ Hf)|by destruct Hf as [[]]].
  - exists (map e_pair es), []. split; [by rewrite app_nil_r|]. split; [by apply Forall_map|]. split; [done|]. exists (Seek target it). cbn [walk].
    rewrite (end_invalid _ _ _ _ _ Hend). split; [done|]. split; [done|by destruct Hend as [[]]].
Qed.

(** ** Properties *)

(** C16. A block gives back what was put in it, forwards and backwards: with a restart
    interval of at least one and keys that ascend in the comparator's order, no assertion
    of the builder fails, and the iterator of the finished block (of fewer than 2^32
    bytes) goes from the first entry by [Next] through exactly the entries that were
    added, and from the last by [Prev] through the same in reverse; it ends invalid and
    without an error. *)
Theorem block_iterates options kvs : 1 <= block_restart_interval options -> Forall kv_ok kvs -> ascending (comparator options) kvs ->
  exists b0 b, BlockBuilder_new options = Some b0 /\ add_all options kvs b0 = Some b /\ let contents := bb_buffer (Block_Finish b) in
    (zlen contents < 2 ^ 32 -> exists it first last, NewIterator (comparator options) (Block_new contents) = inr it /\
      walk (S (length kvs)) Next (SeekToFirst it) = (kvs, first) /\ Valid first = false /\ status_ first = OK /\
      walk (S (length kvs)) Prev (SeekToLast it) = (rev kvs, last) /\ Valid last = false /\ status_ last = OK).
Proof.
  intros Hint Hkv Hasc. destruct (built_block options kvs Hint Hkv Hasc) as (b0 & b & es & offs & E0 & Eb & Em & Hread). exists b0, b. do 2 (split; [done|]).
  intros contents Hz. destruct (Hread Hz) as [Hok (it & Ei & Hin)]. rewrite (length_pairs es kvs Em). subst kvs.
  assert (Hend : forall final, at_end (comparator options) es offs (PutFixed32 (zlen offs)) final -> Valid final = false /\ status_ final = OK).
  { intros final Hf. split; [by apply (end_invalid _ _ _ _ _ Hf)|by destruct Hf as [[]]]. }
  assert (Hforth : exists final, walk (S (length es)) Next (SeekToFirst it) = (map e_pair es, final) /\ at_end (comparator options) es offs (PutFixed32 (zlen offs)) final).
  { pose proof (SeekToFirst_move _ _ _ _ Hok it Hin) as Hm. destruct es as [|e c]; [exists (SeekToFirst it); cbn [walk]; by rewrite (end_invalid _ _ _ _ _ Hm)|].
    apply (walk_next _ _ _ _ Hok _ _ [] e c Hm). cbn; lia. }
  assert (Hback : exists final, walk (S (length es)) Prev (SeekToLast it) = (rev (map e_pair es), final) /\ at_end (comparator options) es offs (PutFixed32 (zlen offs)) final).
  { pose proof (SeekToLast_move _ _ _ _ Hok it Hin) as Hm. rewrite <- map_rev. destruct (decide (es = [])) as [->|Hne]; [exists (SeekToLast it); cbn [walk]; by rewrite (end_invalid _ _ _ _ _ Hm)|].
    destruct (exists_last Hne) as (p & l & E). rewrite E, last_snoc in Hm. destruct Hm as [a Ha]. rewrite <- E in Ha. pose proof (at_split _ _ _ _ _ _ _ _ Ha) as Es.
    destruct (walk_prev _ _ _ _ Hok (S (length es)) _ a l [] Ha) as (final & -> & Hf); [rewrite Es, length_app; lia|]. exists final. by rewrite Es at 1. }
  destruct Hforth as (first & Ef & Hf), Hback as (final & El & Hl). exists it, first, final. destruct (Hend _ Hf), (Hend _ Hl). done.
Qed.

Definition sample : list (list Z * list Z) := [([1; 2], [10]); ([1; 2; 3], []); ([2; 200], [7; 8]); ([2; 200; 5], [9])].
Definition sample_options : BlockOptions := mkBlockOptions BytewiseComparator 2.

Lemma sample_ok : Forall kv_ok sample /\ ascending BytewiseComparator sample.
Proof. split; unfold sample, ascending; repeat constructor; cbn; done. Qed.

Lemma block_iterates_witness : 1 <= 2 /\ exists b0 b, BlockBuilder_new sample_options = Some b0 /\ add_all sample_options sample b0 = Some b.
Proof.
  split; [done|]. destruct (block_iterates sample_options sample) as (b0 & b & E0 & Eb & _); [done|apply sample_ok|apply sample_ok|]. by exists b0, b.
Defined.

(** C14. Seeking finds the place: for a lawful comparator, [Seek] in the iterator of a
    built block stops at the first entry whose key is not below the target, so that
    what [Next] still yields are exactly the entries from there on, and nothing when
    every key is below; the error status stays unset. *)
Theorem block_seek (dom : list Z -> Prop) options `{!ComparatorLaws dom (comparator options)} kvs target :
  1 <= block_restart_interval options -> Forall kv_ok kvs -> Forall dom (map fst kvs) -> ascending (comparator options) kvs -> dom target ->
  exists b0 b, BlockBuilder_new options = Some b0 /\ add_all options kvs b0 = Some b /\ let contents := bb_buffer (Block_Finish b) in
    (zlen contents < 2 ^ 32 -> exists it below above final, NewIterator (comparator options) (Block_new contents) = inr it /\
      kvs = below ++ above /\ Forall (fun kv => Compare (comparator options) (fst kv) target < 0) below /\
      (forall kv, head above = Some kv -> 0 <= Compare (comparator options) (fst kv) target) /\
      walk (S (length kvs)) Next (Seek target it) = (above, final) /\ Valid final = false /\ status_ final = OK).
Proof.
  intros Hint Hkv Hdom Hasc Ht. destruct (built_block options kvs Hint Hkv Hasc) as (b0 & b & es & offs & E0 & Eb & Em & Hread). exists b0, b. do 2 (split; [done|]).
  intros contents Hz. destruct (Hread Hz) as [Hok (it & Ei & Hin)]. rewrite (length_pairs es kvs Em). subst kvs. rewrite map_map in Hdom.
  destruct (built_block_seek dom options es offs _ it target Hok Hin Hdom Hasc Ht) as (a & c & E & Ha & Hc & final & Hw). by exists it, a, c, final.
Qed.

Lemma block_seek_witness : 1 <= 2 /\ exists b0 b, BlockBuilder_new sample_options = Some b0 /\ add_all sample_options sample b0 = Some b.
Proof.
  split; [done|]. destruct (block_seek bytes_ok sample_options sample [2]) as (b0 & b & E0 & Eb & _); [done|apply sample_ok| |apply sample_ok| |].
  - unfold sample. repeat constructor; done.
  - repeat constructor; done.
  - by exists b0, b.
Defined.

(** The sum of the two lengths wraps: an entry of eight bytes whose key has 2^32 - 1. *)
Lemma lengths_wrap : DecodeEntry [0; 255; 255; 255; 255; 15; 2; 7] = Some (0, 2 ^ 32 - 1, 2, [7]).
Proof. reflexivity. Qed.
