(* ===== verification/LdbWrite.v ===== *)
(** * Concurrent writers (leveldb: db/db_impl.cc, Write, MakeRoomForWrite, BuildBatchGroup)

    Threads that call [Write] queue up; the first of the queue writes for several of them.
    A step is what a thread does between two points where it may lose the mutex; a thread
    that waits on its condition variable is asleep until it is signalled, or wakes
    spuriously. [None] is a failing assertion. The field [retired] is not in the code: it
    keeps the logs and tables that have been replaced, which belong to the compaction. *)

From stdpp Require Import strings gmap.
From S2P Require Import Prelude Words LdbCoding LdbEnv LdbLog LdbBatch LdbRecovery.

Class Syncable (F : Type) := { Sync : F -> Status * F }.

(** ** State *)

(** Where a call of [Write] stands: waiting for its condition variable or, signalled, for
    the mutex; in the loop of [MakeRoomForWrite]; at the log, with [write_batch] the
    temporary batch or its own, [last_writer] and [last_sequence]; back from the log; done. *)
Inductive pc :=
| Asleep
| Woken
| MakingRoom (force allow_delay : bool)
| Logging (tmp : bool) (last_writer : nat) (last_sequence : Z)
| Logged (tmp : bool) (last_writer : nat) (last_sequence : Z) (s : Status) (sync_error : bool)
| Returned (s : Status).

(** [DBImpl::Writer], with the position of its thread. *)
Record DBWriter := mkDBWriter { w_status : Status; w_batch : option (list Z); w_sync : bool; w_done : bool; w_pc : pc }.

Record DBImpl (F T : Type) := mkDBImpl {
  writers_ : list nat;
  threads : gmap nat DBWriter;
  tmp_batch_ : list Z;
  log_ : Writer F;
  memtable_ : T;
  imm_ : option T;
  last_sequence_ : Z;
  bg_error_ : Status;
  level0_files : Z;
  retired : list (Writer F * T)
}.
Arguments mkDBImpl {F T}. Arguments writers_ {F T}. Arguments threads {F T}. Arguments tmp_batch_ {F T}. Arguments log_ {F T}. Arguments memtable_ {F T}.
Arguments imm_ {F T}. Arguments last_sequence_ {F T}. Arguments bg_error_ {F T}. Arguments level0_files {F T}. Arguments retired {F T}.

Definition set_pc (p : pc) (w : DBWriter) : DBWriter := mkDBWriter (w_status w) (w_batch w) (w_sync w) (w_done w) p.
Definition set_batch (rep : list Z) (w : DBWriter) : DBWriter := mkDBWriter (w_status w) (Some rep) (w_sync w) (w_done w) (w_pc w).
(** [cv.Signal()]: lost unless the thread waits. *)
Definition Signal (w : DBWriter) : DBWriter := match w_pc w with Asleep => set_pc Woken w | _ => w end.
(** [ready->status = status; ready->done = true; ready->cv.Signal()]. *)
Definition complete (s : Status) (w : DBWriter) : DBWriter := Signal (mkDBWriter s (w_batch w) (w_sync w) true (w_pc w)).

Definition kL0_SlowdownWritesTrigger : Z := 8.
Definition kL0_StopWritesTrigger : Z := 12.

Section Writing.
Context {F T : Type} `{WritableFile F} `{!Syncable F} `{Tables T}.
Implicit Types st : DBImpl F T.

Definition set_queue (q : list nat) (ts : gmap nat DBWriter) st : DBImpl F T :=
  mkDBImpl q ts (tmp_batch_ st) (log_ st) (memtable_ st) (imm_ st) (last_sequence_ st) (bg_error_ st) (level0_files st) (retired st).
Definition at_pc (id : nat) (p : pc) st : DBImpl F T := set_queue (writers_ st) (alter (set_pc p) id (threads st)) st.
Definition set_tmp (rep : list Z) st : DBImpl F T :=
  mkDBImpl (writers_ st) (threads st) rep (log_ st) (memtable_ st) (imm_ st) (last_sequence_ st) (bg_error_ st) (level0_files st) (retired st).
Definition set_log (log : Writer F) (mem : T) st : DBImpl F T :=
  mkDBImpl (writers_ st) (threads st) (tmp_batch_ st) log mem (imm_ st) (last_sequence_ st) (bg_error_ st) (level0_files st) (retired st).
(** A new log file and a new table; the old table waits for its compaction. *)
Definition switch (lfile : F) st : DBImpl F T :=
  mkDBImpl (writers_ st) (threads st) (tmp_batch_ st) (Writer_new lfile) new_table (Some (memtable_ st)) (last_sequence_ st) (bg_error_ st) (level0_files st)
    (retired st ++ [(log_ st, memtable_ st)]).
Definition set_background (imm : option T) (e : Status) (n : Z) st : DBImpl F T :=
  mkDBImpl (writers_ st) (threads st) (tmp_batch_ st) (log_ st) (memtable_ st) imm (last_sequence_ st) e n (retired st).

Definition RecordBackgroundError (s : Status) st : DBImpl F T := if ok (bg_error_ st) then set_background (imm_ st) s (level0_files st) st else st.
Definition SetLastSequence (s : Z) st : option (DBImpl F T) :=
  if s >=? last_sequence_ st then
    Some (mkDBImpl (writers_ st) (threads st) (tmp_batch_ st) (log_ st) (memtable_ st) (imm_ st) s (bg_error_ st) (level0_files st) (retired st))
  else None.

(** ** Waiting *)

(** The loop of [Write] and the test after it, with the mutex held. *)
Definition Write_check (id : nat) st : option (DBImpl F T) :=
  match threads st !! id with
  | Some w =>
      if w_done w then Some (at_pc id (Returned (w_status w)) st)
      else if bool_decide (head (writers_ st) = Some id) then
        let force := bool_decide (w_batch w = None) in Some (at_pc id (MakingRoom force (negb force)) st)
      else Some (at_pc id Asleep st)
  | None => None
  end.

Definition Write_begin (id : nat) (updates : option (list Z)) (sync : bool) st : option (DBImpl F T) :=
  Write_check id (set_queue (writers_ st ++ [id]) (<[id := mkDBWriter OK updates sync false Woken]> (threads st)) st).

(** ** Making room *)

(** One round of the loop; [inl]: it ends. A round that waits or sleeps has the mutex
    released before the next. [lfile] is what [NewWritableFile] gives. *)
Definition MakeRoomForWrite_round (o : Options) (lfile : Status * F) (force allow_delay : bool) st : (Status + bool * bool) * DBImpl F T :=
  if negb (ok (bg_error_ st)) then (inl (bg_error_ st), st)
  else if (allow_delay && (level0_files st >=? kL0_SlowdownWritesTrigger))%bool then (inr (force, false), st)
  else if (negb force && (ApproximateMemoryUsage (memtable_ st) <=? write_buffer_size o))%bool then (inl OK, st)
  else if bool_decide (is_Some (imm_ st)) then (inr (force, allow_delay), st)
  else if level0_files st >=? kL0_StopWritesTrigger then (inr (force, allow_delay), st)
  else
    let '(s, f) := lfile in
    if negb (ok s) then (inl s, st) else (inr (false, allow_delay), switch f st).

(** ** The group *)

Definition ByteSize (rep : list Z) : Z := zlen rep.

(** The loop over the writers after the first: [tmp] tells whether [result] is the
    temporary batch, of contents [tmp_batch]. *)
Fixpoint BuildBatchGroup_loop (ts : gmap nat DBWriter) (first : list Z) (first_sync : bool) (max_size size : Z) (tmp : bool) (tmp_batch : list Z) (last_writer : nat)
    (rest : list nat) : option (bool * list Z * nat) :=
  match rest with
  | [] => Some (tmp, tmp_batch, last_writer)
  | id :: rest =>
      match ts !! id with
      | None => None
      | Some w =>
          if (w_sync w && negb first_sync)%bool then Some (tmp, tmp_batch, last_writer)
          else
            match w_batch w with
            | None => BuildBatchGroup_loop ts first first_sync max_size size tmp tmp_batch id rest
            | Some rep =>
                let size := size + ByteSize rep in
                if size >? max_size then Some (tmp, tmp_batch, last_writer)
                else
                  match (if tmp then Some tmp_batch else if Count tmp_batch =? 0 then Batch_Append tmp_batch first else None) with
                  | None => None
                  | Some result =>
                      match Batch_Append result rep with
                      | None => None
                      | Some result => BuildBatchGroup_loop ts first first_sync max_size size true result id rest
                      end
                  end
            end
      end
  end.

Definition BuildBatchGroup st : option (bool * list Z * nat) :=
  match writers_ st with
  | [] => None
  | first :: rest =>
      match threads st !! first with
      | Some (mkDBWriter _ (Some rep) sync _ _) =>
          let size := ByteSize rep in
          let max_size := if size <=? Z.shiftl 128 10 then size + Z.shiftl 128 10 else Z.shiftl 1 20 in
          BuildBatchGroup_loop (threads st) rep sync max_size size false (tmp_batch_ st) first rest
      | _ => None
      end
  end.

(** ** Leaving the queue *)

Fixpoint pop_loop (self last_writer : nat) (s : Status) (q : list nat) (ts : gmap nat DBWriter) : option (list nat * gmap nat DBWriter) :=
  match q with
  | [] => None
  | ready :: q =>
      let ts := if bool_decide (ready = self) then ts else alter (complete s) ready ts in
      if bool_decide (ready = last_writer) then Some (q, ts) else pop_loop self last_writer s q ts
  end.

Definition Write_leave (id last_writer : nat) (s : Status) st : option (DBImpl F T) :=
  match pop_loop id last_writer s (writers_ st) (threads st) with
  | None => None
  | Some (q, ts) =>
      let ts := match q with [] => ts | front :: _ => alter Signal front ts end in
      Some (at_pc id (Returned s) (set_queue q ts st))
  end.

(** ** The first of the queue *)

(** [write_batch]. *)
Definition get_write_batch (id : nat) (tmp : bool) st : option (list Z) := if tmp then Some (tmp_batch_ st) else threads st !! id ≫= w_batch.
Definition set_write_batch (id : nat) (tmp : bool) (rep : list Z) st : DBImpl F T :=
  if tmp then set_tmp rep st else set_queue (writers_ st) (alter (set_batch rep) id (threads st)) st.

(** A round of [MakeRoomForWrite] and, when it is the last, what follows up to [Unlock]. *)
Definition Write_room (o : Options) (lfile : Status * F) (id : nat) st : option (DBImpl F T) :=
  match threads st !! id with
  | Some (mkDBWriter _ updates _ _ (MakingRoom force allow_delay)) =>
      match MakeRoomForWrite_round o lfile force allow_delay st with
      | (inr (force, allow_delay), st) => Some (at_pc id (MakingRoom force allow_delay) st)
      | (inl s, st) =>
          let last_sequence := last_sequence_ st in
          if (ok s && bool_decide (is_Some updates))%bool then
            match BuildBatchGroup st with
            | None => None
            | Some (tmp, tmp_batch, last_writer) =>
                let st := set_tmp tmp_batch st in
                match get_write_batch id tmp st with
                | None => None
                | Some rep =>
                    let rep := SetSequence rep (u64 (last_sequence + 1)) in
                    Some (at_pc id (Logging tmp last_writer (u64 (last_sequence + Count rep))) (set_write_batch id tmp rep st))
                end
            end
          else Write_leave id id s st
      end
  | _ => None
  end.

(** With the mutex released: the log, the file, the table. *)
Definition Write_log (id : nat) st : option (DBImpl F T) :=
  match threads st !! id with
  | Some (mkDBWriter _ _ sync _ (Logging tmp last_writer last_sequence)) =>
      match get_write_batch id tmp st with
      | None => None
      | Some rep =>
          match AddRecord rep (log_ st) with
          | (None, _) => None
          | (Some s, log) =>
              let '(s, sync_error, log) :=
                if (ok s && sync)%bool then let '(s, f) := Sync (dest log) in (s, negb (ok s), set_dest f log) else (s, false, log) in
              let '(s, mem) := if ok s then InsertInto rep (memtable_ st) else (s, memtable_ st) in
              Some (at_pc id (Logged tmp last_writer last_sequence s sync_error) (set_log log mem st))
          end
      end
  | _ => None
  end.

Definition Write_end (id : nat) st : option (DBImpl F T) :=
  match threads st !! id with
  | Some (mkDBWriter _ _ _ _ (Logged tmp last_writer last_sequence s sync_error)) =>
      let st := if sync_error : bool then RecordBackgroundError s st else st in
      let st := if tmp : bool then set_tmp Clear st else st in
      match SetLastSequence last_sequence st with
      | None => None
      | Some st => Write_leave id last_writer s st
      end
  | _ => None
  end.

(** ** Steps *)

(** A step of a thread that has called [Write], or of the rest of the database: the
    compaction of the table that waits, of files, or an error of it. [gives] is what
    [NewWritableFile] may answer. *)
Inductive step (o : Options) (gives : Status * F -> Prop) : DBImpl F T -> DBImpl F T -> Prop :=
| step_spurious st id w : threads st !! id = Some w -> w_pc w = Asleep -> step o gives st (at_pc id Woken st)
| step_wake st id w st' : threads st !! id = Some w -> w_pc w = Woken -> Write_check id st = Some st' -> step o gives st st'
| step_room st id lfile st' : gives lfile -> Write_room o lfile id st = Some st' -> step o gives st st'
| step_log st id st' : Write_log id st = Some st' -> step o gives st st'
| step_end st id st' : Write_end id st = Some st' -> step o gives st st'
| step_flushed st : step o gives st (set_background None (bg_error_ st) (level0_files st) st)
| step_level0 st n : 0 <= n -> step o gives st (set_background (imm_ st) (bg_error_ st) n st)
| step_error st s : step o gives st (RecordBackgroundError s st).

Inductive steps (o : Options) (gives : Status * F -> Prop) : DBImpl F T -> DBImpl F T -> Prop :=
| steps_refl st : steps o gives st st
| steps_next st st1 st2 : step o gives st st1 -> steps o gives st1 st2 -> steps o gives st st2.

(** A database that has been opened with a new log file. *)
Definition opened (lfile : F) (sequence n : Z) : DBImpl F T := mkDBImpl [] ∅ Clear (Writer_new lfile) new_table None sequence OK n [].
End Writing.
