(* ===== verification/LdbWriteQueue.v ===== *)
(** * The queue of writers (leveldb: db/db_impl.cc)

    The protocol of the queue: what a step does to the threads, and that the first of
    the queue is never asleep, no other writes, and who is taken off the queue is told. *)

From stdpp Require Import strings gmap.
From S2P Require Import Prelude Words LdbCoding LdbEnv LdbLog LdbBatch LdbRecovery LdbWrite.

(** ** The protocol *)

Definition leading (p : pc) : Prop := match p with MakingRoom _ _ | Logging _ _ _ | Logged _ _ _ _ _ => True | _ => False end.
Definition returned (p : pc) : Prop := match p with Returned _ => True | _ => False end.
(** The last of the group that a leader has chosen. *)
Definition group_last (p : pc) : option nat := match p with Logging _ last _ | Logged _ last _ _ _ => Some last | _ => None end.

(** A thread in the queue: the first is awake, only the first leads, and its group ends
    in the queue. *)
Definition queued_ok (q : list nat) (id : nat) (w : DBWriter) : Prop :=
  w_done w = false /\ ~ returned (w_pc w) /\ (head q = Some id -> w_pc w <> Asleep) /\ (leading (w_pc w) -> head q = Some id) /\
  (forall last, group_last (w_pc w) = Some last -> last ∈ q).
(** A thread that has left it: it has been told, or its call has returned. *)
Definition left_ok (w : DBWriter) : Prop := (w_done w = true /\ w_pc w = Woken) \/ returned (w_pc w).

Record protocol (q : list nat) (ts : gmap nat DBWriter) : Prop := mkProtocol {
  p_nodup : NoDup q;
  p_queued id : id ∈ q -> exists w, ts !! id = Some w /\ queued_ok q id w;
  p_left id w : ts !! id = Some w -> id ∉ q -> left_ok w
}.

Lemma head_in (q : list nat) id : head q = Some id -> id ∈ q.
Proof. destruct q; [done|]. intros [= ->]. apply elem_of_cons. by left. Qed.

Lemma protocol_begin q ts id b s : protocol q ts -> ts !! id = None -> protocol (q ++ [id]) (<[id := mkDBWriter OK b s false Woken]> ts).
Proof.
  intros [Hn Hq Hl] Hid. assert (Hnq : id ∉ q) by (intros Hin; destruct (Hq id Hin) as (w & E & _); congruence). constructor.
  - apply NoDup_app. split; [done|]. split; [|apply NoDup_singleton]. intros x Hx ->%list_elem_of_singleton. done.
  - intros x [Hx| ->%list_elem_of_singleton]%elem_of_app.
    + destruct (Hq x Hx) as (w & E & H1 & H2 & H3 & H4 & H5). exists w. rewrite lookup_insert_ne by (intros ->; done). split; [done|].
      assert (Hh : head (q ++ [id]) = head q) by (destruct q; [by apply not_elem_of_nil in Hx|done]). unfold queued_ok. rewrite Hh. do 4 (split; [done|]). intros last E5. apply elem_of_app. left. by apply H5.
    + eexists. rewrite lookup_insert_eq. split; [done|]. unfold queued_ok. cbn. naive_solver.
  - intros x w Hx Hnx. apply not_elem_of_app in Hnx as [Hnx Hne]. assert (x <> id) by (intros ->; apply Hne; by apply list_elem_of_singleton).
    rewrite lookup_insert_ne in Hx by done. by apply (Hl x).
Qed.

(** A change of one thread. *)
Lemma protocol_alter q ts id (f : DBWriter -> DBWriter) : protocol q ts -> (forall w, ts !! id = Some w -> id ∈ q -> queued_ok q id w -> queued_ok q id (f w)) ->
  (forall w, ts !! id = Some w -> id ∉ q -> left_ok w -> left_ok (f w)) -> protocol q (alter f id ts).
Proof.
  intros [Hn Hq Hl] H1 H2. constructor; [done| |].
  - intros x Hx. destruct (Hq x Hx) as (w & E & Hw). destruct (decide (x = id)) as [->|Hne].
    + exists (f w). rewrite lookup_alter_eq, E. split; [done|by apply H1].
    + exists w. by rewrite lookup_alter_ne.
  - intros x w Hx Hnx. destruct (decide (x = id)) as [->|Hne].
    + rewrite lookup_alter_eq in Hx. apply fmap_Some in Hx as (w0 & E & ->). apply H2; [done|done|by apply (Hl id)].
    + rewrite lookup_alter_ne in Hx by done. by apply (Hl x).
Qed.

(** ** Leaving the queue *)

Lemma pop_loop_spec self last s q g rest ts : q = g ++ rest -> list.last g = Some last -> NoDup q ->
  exists ts', pop_loop self last s q ts = Some (rest, ts') /\ forall x, ts' !! x = if decide (x ∈ g /\ x <> self) then complete s <$> ts !! x else ts !! x.
Proof.
  intros -> Hlast. revert ts. induction g as [|r g IH]; intros ts Hn; [done|]. cbn [app pop_loop]. apply NoDup_cons in Hn as [Hr Hn].
  set (ts1 := if bool_decide (r = self) then ts else alter (complete s) r ts).
  assert (H1 : forall x, ts1 !! x = if decide (x = r /\ x <> self) then complete s <$> ts !! x else ts !! x).
  { intros x. unfold ts1. destruct (decide (x = r /\ x <> self)) as [[-> Hx]|Hx].
    - rewrite bool_decide_eq_false_2 by done. by rewrite lookup_alter_eq.
    - destruct (bool_decide_reflect (r = self)) as [|Hne]; [done|]. apply lookup_alter_ne. naive_solver. }
  destruct (bool_decide_reflect (r = last)) as [->|Hne].
  - assert (g = []) as ->.
    { rewrite last_cons in Hlast. destruct (list.last g) as [z|] eqn:El; [|by apply last_None in El]. injection Hlast as ->. exfalso. apply Hr, elem_of_app. left. by apply last_Some_elem_of. }
    exists ts1. split; [done|]. intros x. rewrite H1. repeat case_decide; set_solver.
  - assert (Hlast' : list.last g = Some last) by (rewrite last_cons in Hlast; destruct (list.last g); congruence).
    destruct (IH Hlast' ts1 Hn) as (ts' & E & H2). exists ts'. split; [done|]. intros x. rewrite H2, H1. assert (Hrg : r ∉ g) by (intros Hin; apply Hr; apply elem_of_app; by left).
    repeat case_decide; set_solver.
Qed.

Section Queue.
Context {F T : Type} `{WritableFile F} `{!Syncable F} `{Tables T}.
Implicit Types st : DBImpl F T.

(** What leaving does to each thread. *)
Definition after_leave (self : nat) (g rest : list nat) (s : Status) (x : nat) (w : DBWriter) : DBWriter :=
  if decide (x = self) then set_pc (Returned s) w
  else if decide (x ∈ g) then complete s w else if decide (head rest = Some x) then Signal w else w.

Lemma Write_leave_spec st self last s g rest : writers_ st = g ++ rest -> list.last g = Some last -> NoDup (writers_ st) -> self ∈ g ->
  exists ts, Write_leave self last s st = Some (set_queue rest ts st) /\ forall x, ts !! x = after_leave self g rest s x <$> threads st !! x.
Proof.
  intros Hq Hlast Hn Hself. unfold Write_leave. destruct (pop_loop_spec self last s _ g rest (threads st) Hq Hlast Hn) as (ts & -> & Hts).
  eexists. split; [reflexivity|]. intros x. cbn [threads set_queue].
  assert (Hd : forall y, head rest = Some y -> y ∉ g).
  { intros y Hy Hin. rewrite Hq in Hn. apply NoDup_app in Hn as (_ & Hd & _). apply (Hd y Hin). by apply head_in. }
  set (ts1 := match rest with [] => ts | front :: _ => alter Signal front ts end).
  assert (K1 : forall y, ts1 !! y = if decide (head rest = Some y) then Signal <$> ts !! y else ts !! y).
  { intros y. unfold ts1. destruct rest as [|r rest]; [done|]. cbn [head]. case_decide as Hy; [injection Hy as ->; by rewrite lookup_alter_eq|]. apply lookup_alter_ne. congruence. }
  unfold after_leave. destruct (decide (x = self)) as [->|Hne].
  - rewrite lookup_alter_eq, K1. rewrite decide_False by (intros E; by apply (Hd self)). rewrite Hts. by rewrite decide_False by naive_solver.
  - rewrite lookup_alter_ne by done. rewrite K1, Hts. specialize (Hd x). destruct (decide (x ∈ g)) as [Hg|Hg].
    + rewrite decide_False by naive_solver. by rewrite decide_True by done.
    + rewrite (decide_False (P := _ /\ _)) by naive_solver. case_decide; [done|]. by destruct (threads st !! x).
Qed.

Lemma protocol_leave st self s g rest ts : protocol (writers_ st) (threads st) -> writers_ st = g ++ rest -> head (writers_ st) = Some self -> self ∈ g ->
  (forall x, ts !! x = after_leave self g rest s x <$> threads st !! x) -> protocol rest ts.
Proof.
  intros [Hn Hq Hl] Eq Hhead Hself Hts. pose proof Hn as Hn'. rewrite Eq in Hn'. apply NoDup_app in Hn' as (_ & Hdis & Hnr). constructor; [done| |].
  - intros x Hx. assert (Hxg : x ∉ g) by (intros Hg; by apply (Hdis x)). assert (Hxs : x <> self) by (intros ->; done).
    destruct (Hq x) as (w & Ew & K1 & K2 & K3 & K4 & K5); [rewrite Eq; apply elem_of_app; by right|].
    assert (Hnl : ~ leading (w_pc w)) by (intros Hld; apply Hxs; specialize (K4 Hld); congruence).
    rewrite Hts, Ew. cbn [fmap option_fmap option_map]. eexists. split; [reflexivity|]. unfold after_leave. rewrite decide_False by done. rewrite decide_False by done.
    unfold Signal. case_decide as Hhd; [|by unfold queued_ok; destruct (w_pc w)]. destruct w as [sw b sy d p]; destruct p; unfold queued_ok; cbn in *; naive_solver.
  - intros x w Hx Hnx. rewrite Hts in Hx. apply fmap_Some in Hx as (w0 & E0 & ->). unfold after_leave. destruct (decide (x = self)) as [->|Hxs]; [right; done|].
    destruct (decide (x ∈ g)) as [Hg|Hg].
    + destruct (Hq x) as (w & Ew & K1 & K2 & K3 & K4 & K5); [rewrite Eq; apply elem_of_app; by left|]. assert (w0 = w) as -> by congruence.
      assert (Hnl : ~ leading (w_pc w)) by (intros Hld; apply Hxs; specialize (K4 Hld); congruence). left. destruct w as [sw b sy d p]; destruct p; cbn in *; naive_solver.
    + rewrite decide_False by (intros Hh; apply Hnx; by apply head_in). apply (Hl x); [done|]. rewrite Eq. intros [?|?]%elem_of_app; done.
Qed.
(** ** Steps *)

Lemma BuildBatchGroup_loop_last ts first first_sync max_size size tmp tb last rest r tb' last' :
  BuildBatchGroup_loop ts first first_sync max_size size tmp tb last rest = Some (r, tb', last') -> last' = last \/ last' ∈ rest.
Proof.
  revert size tmp tb last. induction rest as [|id rest IH]; intros size tmp tb last; cbn [BuildBatchGroup_loop]; [intros [= _ _ ->]; by left|].
  intros E. repeat case_match; simplify_eq; try (by left); apply IH in E as [->|]; right; apply elem_of_cons; auto.
Qed.

Lemma group_split (q : list nat) self last : head q = Some self -> last ∈ q -> exists g rest, q = g ++ rest /\ list.last g = Some last /\ head g = Some self.
Proof.
  intros Hh (a & c & ->)%list_elem_of_split. exists (a ++ [last]), c. rewrite <- app_assoc, last_snoc. split; [done|]. split; [done|]. by destruct a.
Qed.

Lemma round_same o lfile force allow_delay st r st' : MakeRoomForWrite_round o lfile force allow_delay st = (r, st') ->
  writers_ st' = writers_ st /\ threads st' = threads st /\ tmp_batch_ st' = tmp_batch_ st /\ last_sequence_ st' = last_sequence_ st /\ bg_error_ st' = bg_error_ st.
Proof. unfold MakeRoomForWrite_round. intros E. repeat case_match; by simplify_eq. Qed.

Lemma leading_first q ts id w : protocol q ts -> ts !! id = Some w -> leading (w_pc w) -> head q = Some id /\ queued_ok q id w.
Proof.
  intros Hp Hw Hl. destruct (decide (id ∈ q)) as [Hin|Hin].
  - destruct (p_queued _ _ Hp id Hin) as (w' & E & Hok). assert (w' = w) as -> by congruence. split; [by apply Hok|done].
  - destruct (p_left _ _ Hp id w Hw Hin) as [[_ E]|E]; [by rewrite E in Hl|by destruct (w_pc w)].
Qed.

(** A leader moves on. *)
Lemma protocol_lead q ts id w p : protocol q ts -> ts !! id = Some w -> leading (w_pc w) -> leading p -> (forall last, group_last p = Some last -> last ∈ q) ->
  protocol q (alter (set_pc p) id ts).
Proof.
  intros Hp Hw Hl Hlp Hg. destruct (leading_first q ts id w Hp Hw Hl) as [Hh _]. apply protocol_alter; [done| |].
  - intros w' _ _ (K1 & _). unfold queued_ok. cbn [w_done w_pc set_pc]. destruct p; cbn [leading] in Hlp; try done; (split; [done|]; split; [by intros ?|]; split; [done|]; by split).
  - intros w' _ Hn. by apply head_in in Hh.
Qed.

Lemma protocol_batch q ts id rep : protocol q ts -> protocol q (alter (set_batch rep) id ts).
Proof. intros Hp. by apply protocol_alter. Qed.

Lemma protocol_check id w st st' : protocol (writers_ st) (threads st) -> threads st !! id = Some w -> w_pc w = Woken -> Write_check id st = Some st' -> protocol (writers_ st') (threads st').
Proof.
  intros Hp Hw Hpc. unfold Write_check. rewrite Hw. destruct (w_done w) eqn:Hd; [|case_bool_decide as Hh]; intros [= <-]; cbn [writers_ threads at_pc set_queue].
  - apply protocol_alter; [done| |by intros; right]. intros w' E _ (K1 & _). congruence.
  - apply protocol_alter; [done| |by intros w' _ Hn; apply head_in in Hh]. intros w' _ _ (K1 & _). unfold queued_ok. cbn. naive_solver.
  - apply protocol_alter; [done| |].
    + intros w' _ _ (K1 & _). unfold queued_ok. cbn. naive_solver.
    + intros w' E _ [[K1 _]|K1]; [congruence|]. assert (w' = w) as -> by congruence. by rewrite Hpc in K1.
Qed.

Lemma protocol_exit id last s st st' w : protocol (writers_ st) (threads st) -> threads st !! id = Some w -> leading (w_pc w) -> last ∈ writers_ st ->
  Write_leave id last s st = Some st' -> protocol (writers_ st') (threads st').
Proof.
  intros Hp Hw Hl Hin E. destruct (leading_first _ _ _ _ Hp Hw Hl) as [Hh _]. destruct (group_split _ id last Hh Hin) as (g & rest & Eq & Hlast & Hg).
  destruct (Write_leave_spec st id last s g rest Eq Hlast (p_nodup _ _ Hp)) as (ts & El & Hts); [by apply head_in|]. rewrite El in E. injection E as <-. cbn [writers_ threads set_queue].
  apply (protocol_leave st id s g rest ts); try done. by apply head_in.
Qed.

Lemma protocol_step o gives st st' : protocol (writers_ st) (threads st) -> step o gives st st' -> protocol (writers_ st') (threads st').
Proof.
  intros Hp Hs. destruct Hs as [st id w Hw Hpc|st id w st' Hw Hpc E|st id lfile st' _ E|st id st' E|st id st' E|st|st n Hn|st s]; try exact Hp.
  - cbn [writers_ threads at_pc set_queue]. apply protocol_alter; [done| |]; intros w' Hw' _; assert (w' = w) as -> by congruence.
    + intros (K1 & _). unfold queued_ok. cbn. naive_solver.
    + intros [[_ K]|K]; [congruence|by rewrite Hpc in K].
  - by apply (protocol_check id w st).
  - unfold Write_room in E. destruct (threads st !! id) as [[sw b sy d p]|] eqn:Hw; [|done]. destruct p as [| |force allow_delay| | |]; try done.
    destruct (MakeRoomForWrite_round o lfile force allow_delay st) as [r st1] eqn:Er. apply round_same in Er as (E1 & E2 & _). rewrite <- E1, <- E2 in Hp. rewrite <- E2 in Hw.
    destruct r as [s|[f a]]; [|injection E as <-; by refine (protocol_lead _ _ id _ _ Hp Hw I _ _)]. destruct (andb _ _).
    + destruct (BuildBatchGroup st1) as [[[tmp tb] last]|] eqn:Eb; [|done]. destruct (get_write_batch id tmp (set_tmp tb st1)) as [rep|]; [|done]. injection E as <-.
      assert (Hlast : last ∈ writers_ st1).
      { unfold BuildBatchGroup in Eb. repeat case_match; try done; apply BuildBatchGroup_loop_last in Eb as [->|]; apply elem_of_cons; auto. }
      assert (Hb : exists w1, threads (set_write_batch id tmp (SetSequence rep (u64 (last_sequence_ st1 + 1))) (set_tmp tb st1)) !! id = Some w1 /\ leading (w_pc w1)).
      { destruct tmp; cbn [set_write_batch threads set_tmp set_queue]; [by eexists|]. rewrite lookup_alter_eq, Hw. by eexists. }
      destruct Hb as (w1 & Hw1 & Hl1). cbn [writers_ threads at_pc set_queue]. refine (protocol_lead _ _ id w1 _ _ Hw1 Hl1 _ _); [|exact I|destruct tmp; cbn; congruence].
      destruct tmp; [exact Hp|]. by apply protocol_batch.
    + apply (protocol_exit id id s st1 st' _ Hp Hw I); [|done]. apply head_in. by apply (leading_first _ _ _ _ Hp Hw).
  - unfold Write_log in E. destruct (threads st !! id) as [[sw b sy d p]|] eqn:Hw; [|done]. destruct p as [| | |tmp last ls| |]; try done.
    destruct (leading_first _ _ _ _ Hp Hw I) as [Hh (_ & _ & _ & _ & K5)]. repeat case_match; simplify_eq; refine (protocol_lead _ _ id _ _ Hp Hw I _ _); first [exact I|exact K5].
  - unfold Write_end in E. destruct (threads st !! id) as [[sw b sy d p]|] eqn:Hw; [|done]. destruct p as [| | | |tmp last ls s e|]; try done.
    destruct (leading_first _ _ _ _ Hp Hw I) as [Hh (_ & _ & _ & _ & K5)]. specialize (K5 last eq_refl).
    set (st1 := if e then RecordBackgroundError s st else st) in E. set (st2 := if tmp then set_tmp Clear st1 else st1) in E.
    assert (Hst1 : writers_ st1 = writers_ st /\ threads st1 = threads st) by (unfold st1, RecordBackgroundError; by repeat case_match).
    assert (Hst2 : writers_ st2 = writers_ st /\ threads st2 = threads st) by (unfold st2; destruct tmp; exact Hst1). destruct Hst2 as [E1 E2]. rewrite <- E1, <- E2 in Hp. rewrite <- E2 in Hw. rewrite <- E1 in K5.
    unfold SetLastSequence in E. destruct (ls >=? last_sequence_ st2); [|done]. exact (protocol_exit id last s (mkDBImpl (writers_ st2) (threads st2) _ _ _ _ _ _ _ _) st' _ Hp Hw I K5 E).
  - unfold RecordBackgroundError. by case_match.
Qed.
End Queue.
