(* ===== verification/LdbWriteLog.v ===== *)
(** * What a log file keeps (leveldb)

    A reliable file is written in lockstep with a list of bytes, so that its contents are
    those of the log in memory; and what has been synced stays. *)

From stdpp Require Import strings.
From S2P Require Import Prelude LdbCoding LdbCrc LdbEnv LdbLog LdbLogWrite LdbLogFacts LdbWrite.

(** A file of which the first [durable] bytes survive a crash. *)
Class DurableFile (F : Type) `{ReliableWritable F} `{!Syncable F} := {
  durable : F -> Z;
  durable_Append f data : durable f <= durable (snd (Append f data));
  durable_Flush f : durable f <= durable (snd (Flush f));
  Sync_durable f s f' : Sync f = (s, f') -> contents f' = contents f /\ durable f <= durable f' /\ (ok s = true -> zlen (contents f) <= durable f')
}.

Section Lockstep.
Context {F : Type} `{DurableFile F}.

(** The same writer, on a file and on a list. *)
Definition sim (w : Writer F) (m : Writer (list Z)) : Prop := block_offset w = block_offset m /\ type_crc w = type_crc m /\ contents (dest w) = dest m.

Definition lockstep {A} (c : M (Writer F) A) (k : M (Writer (list Z)) A) : Prop :=
  forall w m, sim w m -> fst (c w) = fst (k m) /\ sim (snd (c w)) (snd (k m)) /\ durable (dest w) <= durable (dest (snd (c w))).

Lemma lockstep_bind {A B} (c : M (Writer F) A) k (f : A -> M (Writer F) B) g : lockstep c k -> (forall a, lockstep (f a) (g a)) -> lockstep (bind c f) (bind k g).
Proof.
  intros Hc Hf w m Hs. destruct (Hc w m Hs) as (E & Hs1 & Hd). unfold bind. destruct (c w) as [a w1], (k m) as [b m1]. cbn [fst snd] in *. subst b.
  destruct a as [a|]; [|done]. destruct (Hf a w1 m1 Hs1) as (E2 & Hs2 & Hd2). split; [done|]. split; [done|lia].
Qed.

Lemma lockstep_get {B} (f : Writer F -> M (Writer F) B) g : (forall w m, sim w m -> lockstep (f w) (g m)) -> lockstep (bind get f) (bind get g).
Proof. intros Hf w m Hs. exact (Hf w m Hs w m Hs). Qed.

Lemma lockstep_ret {A} (a : A) : lockstep (ret a) (ret a).
Proof. intros w m Hs. split; [done|]. split; [done|cbn; lia]. Qed.
Lemma lockstep_fail {A} : lockstep (@fail _ A) fail.
Proof. intros w m Hs. split; [done|]. split; [done|cbn; lia]. Qed.
Lemma lockstep_guard b : lockstep (guard b) (guard b).
Proof. intros w m Hs. split; [done|]. split; [done|cbn; lia]. Qed.
Lemma lockstep_offset n : lockstep (modify (set_block_offset n)) (modify (set_block_offset n)).
Proof. intros w m (E1 & E2 & E3). split; [done|]. split; [done|cbn; lia]. Qed.

Lemma lockstep_append data : lockstep (append_dest data) (append_dest data).
Proof.
  intros w m (E1 & E2 & E3). unfold append_dest. cbn [Append memory_writable]. pose proof (durable_Append (dest w) data) as Hd.
  destruct (Append_reliable (dest w) data) as (f & E & Ec). rewrite E in *. cbn [fst snd] in *. split; [done|]. split; [|done]. split; [done|]. split; [done|]. cbn. by rewrite Ec, E3.
Qed.
Lemma lockstep_flush : lockstep flush_dest flush_dest.
Proof.
  intros w m (E1 & E2 & E3). unfold flush_dest. cbn [Flush memory_writable]. pose proof (durable_Flush (dest w)) as Hd.
  destruct (Flush_reliable (dest w)) as (f & E & Ec). rewrite E in *. cbn [fst snd] in *. split; [done|]. split; [|done]. split; [done|]. split; [done|]. cbn. by rewrite Ec.
Qed.

Create HintDb lockstep.
#[local] Hint Resolve lockstep_bind lockstep_ret lockstep_fail lockstep_guard lockstep_offset lockstep_append lockstep_flush : lockstep.

Lemma lockstep_emit t ptr : lockstep (EmitPhysicalRecord t ptr) (EmitPhysicalRecord t ptr).
Proof.
  unfold EmitPhysicalRecord. cbv zeta. apply lockstep_get. intros w m (E1 & E2 & _). rewrite E1, E2.
  do 3 (apply lockstep_bind; [auto with lockstep|intros ?]). apply lockstep_bind; [|intros ?; apply lockstep_bind; auto with lockstep].
  destruct (ok _); [|auto with lockstep]. apply lockstep_bind; [auto with lockstep|intros ?]. destruct (ok _); auto with lockstep.
Qed.

Lemma lockstep_loop fuel begin ptr : lockstep (AddRecord_loop fuel begin ptr) (AddRecord_loop fuel begin ptr).
Proof.
  revert begin ptr. induction fuel as [|fuel IH]; intros begin ptr; [apply lockstep_fail|]. cbn [AddRecord_loop]. cbv zeta. apply lockstep_get. intros w m (E1 & _). rewrite E1.
  apply lockstep_bind; [auto with lockstep|intros ?]. apply lockstep_bind.
  { destruct (_ <? _); [|auto with lockstep]. apply lockstep_bind; [|auto with lockstep]. destruct (_ >? _); auto with lockstep. }
  intros ?. apply lockstep_get. intros w2 m2 (E2 & _). rewrite E2. apply lockstep_bind; [auto with lockstep|intros ?]. apply lockstep_bind; [apply lockstep_emit|intros s].
  destruct (andb _ _); [apply IH|auto with lockstep].
Qed.

Lemma AddRecord_lockstep rep : lockstep (AddRecord rep) (AddRecord rep).
Proof. apply lockstep_loop. Qed.

Lemma sim_new f : contents f = [] -> sim (Writer_new f) (Writer_new []).
Proof. by intros E. Qed.

(** The writer in memory after some records. *)
Definition memory_writer (rs : list (list Z)) : Writer (list Z) := snd (add_records rs (Writer_new [])).

Lemma memory_writer_writing rs : Forall (fun d => bytes_ok d) rs -> add_records rs (Writer_new []) = (Some OK, memory_writer rs) /\ writing (zlen (log_of rs)) (memory_writer rs).
Proof.
  intros Hok. destruct (add_records_layout rs (Writer_new []) 0) as (w & bytes & E & C & _ & W); [done|done|apply writing_new|]. unfold memory_writer, log_of. rewrite E.
  cbn [snd]. split; [done|]. cbn [contents memory_reliable_writable dest Writer_new app] in C. rewrite C. exact W.
Qed.

Lemma memory_writer_snoc rs r : Forall (fun d => bytes_ok d) rs -> bytes_ok r -> AddRecord r (memory_writer rs) = (Some OK, memory_writer (rs ++ [r])).
Proof.
  intros Hok Hr. destruct (memory_writer_writing rs Hok) as [E Hw]. unfold memory_writer at 2. rewrite (add_records_app rs [r] _ _ E). cbn [add_records].
  destruct (AddRecord_cuts r (memory_writer rs) (zlen (log_of rs))) as (w & fs & E1 & _); [zlen_pos; lia|done|done|]. rewrite E1. by rewrite (bind_step _ _ _ _ _ E1).
Qed.

(** A record more in a file that stands where the log in memory does. *)
Lemma AddRecord_sim rs r (w : Writer F) : Forall (fun d => bytes_ok d) rs -> bytes_ok r -> sim w (memory_writer rs) ->
  exists w', AddRecord r w = (Some OK, w') /\ sim w' (memory_writer (rs ++ [r])) /\ durable (dest w) <= durable (dest w').
Proof.
  intros Hok Hr Hs. destruct (AddRecord_lockstep r w _ Hs) as (E & Hs' & Hd). rewrite (memory_writer_snoc rs r Hok Hr) in E, Hs'. destruct (AddRecord r w) as [s w']. cbn [fst snd] in *. subst s. by exists w'.
Qed.

Lemma sim_contents rs (w : Writer F) : sim w (memory_writer rs) -> contents (dest w) = log_of rs.
Proof. by intros (_ & _ & E). Qed.
End Lockstep.

(** A file in memory whose bytes are all durable once they are synced. *)
Record disk := mkDisk { d_bytes : list Z; d_durable : Z }.
#[export] Instance disk_writable : WritableFile disk := { Append f data := (OK, mkDisk (d_bytes f ++ data) (d_durable f)); Flush f := (OK, f) }.
#[export, refine] Instance disk_reliable : ReliableWritable disk := { contents := d_bytes }.
Proof. all: intros; eexists; split; reflexivity. Defined.
#[export] Instance disk_syncable : Syncable disk := { Sync f := (OK, mkDisk (d_bytes f) (Z.max (d_durable f) (zlen (d_bytes f)))) }.
#[export, refine] Instance disk_durable : DurableFile disk := { durable := d_durable }.
Proof.
  - intros f data. cbn. lia.
  - intros f. cbn. lia.
  - intros f s f' [= <- <-]. cbn. split; [done|]. split; [lia|]. intros _. lia.
Defined.
