(* ===== verification/LdbWriteGroup.v ===== *)
(** * The batch of a group of writers (leveldb: db/db_impl.cc, BuildBatchGroup)

    The calls of [Write], with the updates they ask for, and what the batch that the
    first of the queue builds for itself and for writers after it holds. *)

From stdpp Require Import strings gmap.
From S2P Require Import Prelude Words PbWireFacts LdbCoding LdbEnv LdbLog LdbBatch LdbRecovery LdbWrite LdbWriteQueue.

(** ** Calls *)

(** A call of [Write]; without updates it only asks for a new table. *)
Record call := mkCall { c_id : nat; c_updates : option (list update); c_sync : bool }.

Definition updates (c : call) : list update := default [] (c_updates c).
Definition call_ok (c : call) : Prop := zlen (updates c) < 2 ^ 31 /\ Forall update_ok (updates c).

(** The batch of a call: its updates, under any sequence number. *)
Definition carries (us : option (list update)) (b : option (list Z)) : Prop :=
  match us, b with
  | Some us, Some rep => exists seq, rep = batch seq (zlen us) us
  | None, None => True
  | _, _ => False
  end.

(** The thread of a call. *)
Definition runs (ts : gmap nat DBWriter) (c : call) : Prop := exists w, ts !! c_id c = Some w /\ carries (c_updates c) (w_batch w) /\ w_sync w = c_sync c.

Definition all_updates (cs : list call) : list update := concat (map updates cs).

Lemma all_updates_snoc cs c : all_updates (cs ++ [c]) = all_updates cs ++ updates c.
Proof. unfold all_updates. rewrite map_app, concat_app. cbn [map concat]. by rewrite app_nil_r. Qed.

Lemma all_updates_ok cs : Forall call_ok cs -> Forall update_ok (all_updates cs).
Proof. intros Hc. apply Forall_concat, Forall_map, (Forall_impl _ _ _ Hc). by intros c [_ H]. Qed.

Lemma zlen_records us : zlen us <= zlen (records us).
Proof. pose proof (records_length us). unfold zlen. lia. Qed.

Lemma records_app us us' : records (us ++ us') = records us ++ records us'.
Proof. unfold records. by rewrite map_app, concat_app. Qed.

Lemma Batch_Append_batch seq us seq' us' : zlen us + zlen us' < 2 ^ 31 ->
  Batch_Append (batch seq (zlen us) us) (batch seq' (zlen us') us') = Some (batch seq (zlen (us ++ us')) (us ++ us')).
Proof.
  intros Hl. zlen_pos. unfold Batch_Append. rewrite !Count_batch by lia. 
  replace (i32 (zlen us + zlen us')) with (zlen us + zlen us') by (unfold i32; rewrite Z.mod_small by lia; lia). rewrite SetCount_batch by lia. rewrite zlen_batch. zlen_pos.
  change kHeader with 12. rewrite Z.geb_leb. destruct (Z.leb_spec 12 (12 + zlen (records us'))); [|lia]. f_equal.
  assert (Ed : zdrop 12 (batch seq' (zlen us') us') = records us') by (unfold batch; rewrite app_assoc; by apply zdrop_app; rewrite zlen_app, !zlen_le_bytes).
  rewrite Ed, ztake_all by lia. unfold batch. rewrite (zlen_app us us'), records_app. by rewrite <- !app_assoc.
Qed.

(** ** The group *)

Section Group.
Context (ts : gmap nat DBWriter) (first : call) (us0 : list update) (Hfirst : c_updates first = Some us0).

(** The state of the loop after the calls [acc]. *)
Definition built (tmp : bool) (tb : list Z) (acc : list call) : Prop :=
  if tmp then tb = batch 0 (zlen (all_updates (first :: acc))) (all_updates (first :: acc)) else tb = Clear /\ all_updates (first :: acc) = us0.

Lemma BuildBatchGroup_loop_spec rep max_size rest size tmp tb acc last : (exists seq, rep = batch seq (zlen us0) us0) -> max_size <= 2 ^ 20 ->
  Forall (runs ts) rest -> built tmp tb acc -> zlen (all_updates (first :: acc)) <= size -> (tmp = true -> size <= max_size) -> Some last = list.last (map c_id (first :: acc)) ->
  exists g rest' tmp' tb' last', rest = g ++ rest' /\
    BuildBatchGroup_loop ts rep (c_sync first) max_size size tmp tb last (map c_id rest) = Some (tmp', tb', last') /\
    built tmp' tb' (acc ++ g) /\ Some last' = list.last (map c_id (first :: acc ++ g)) /\
    Forall (fun c => c_sync c = true -> c_sync first = true) g /\ (g = [] \/ zlen (all_updates (first :: acc ++ g)) < 2 ^ 31 \/ all_updates (first :: acc ++ g) = us0).
Proof.
  intros [seq ->] Hmax. revert size tmp tb acc last. induction rest as [|c rest IH]; intros size tmp tb acc last Hr Hb Hs Hm Hl; cbn [BuildBatchGroup_loop map].
  - exists [], [], tmp, tb, last. rewrite (app_nil_r acc). split; [done|]. split; [done|]. split; [done|]. split; [done|]. split; [constructor|by left].
  - apply Forall_cons_1 in Hr as [(w & Ew & Hc & Hsy) Hr]. rewrite Ew, Hsy. destruct (c_sync c && negb (c_sync first))%bool eqn:Esync.
    { exists [], (c :: rest), tmp, tb, last. rewrite (app_nil_r acc). split; [done|]. split; [done|]. split; [done|]. split; [done|]. split; [constructor|by left]. }
    assert (Hsync : c_sync c = true -> c_sync first = true) by (destruct (c_sync c), (c_sync first); done).
    assert (Hsnoc : all_updates (first :: acc ++ [c]) = all_updates (first :: acc) ++ updates c) by exact (all_updates_snoc (first :: acc) c).
    assert (Hlast : Some (c_id c) = list.last (map c_id (first :: acc ++ [c]))) by (rewrite app_comm_cons, map_app; change (map c_id [c]) with [c_id c]; by rewrite last_snoc).
    assert (Hnext : forall size' tmp' tb', built tmp' tb' (acc ++ [c]) -> zlen (all_updates (first :: acc ++ [c])) <= size' -> (tmp' = true -> size' <= max_size) ->
      (zlen (all_updates (first :: acc ++ [c])) < 2 ^ 31 \/ all_updates (first :: acc ++ [c]) = us0) ->
      exists g rest' tmp'' tb'' last'', c :: rest = g ++ rest' /\
        BuildBatchGroup_loop ts (batch seq (zlen us0) us0) (c_sync first) max_size size' tmp' tb' (c_id c) (map c_id rest) = Some (tmp'', tb'', last'') /\
        built tmp'' tb'' (acc ++ g) /\ Some last'' = list.last (map c_id (first :: acc ++ g)) /\
        Forall (fun c => c_sync c = true -> c_sync first = true) g /\ (g = [] \/ zlen (all_updates (first :: acc ++ g)) < 2 ^ 31 \/ all_updates (first :: acc ++ g) = us0)).
    { intros size' tmp' tb' Hb' Hs' Hm' Hbound. destruct (IH size' tmp' tb' (acc ++ [c]) (c_id c) Hr Hb' Hs' Hm' Hlast) as (g & rest' & tmp'' & tb'' & last'' & -> & E & Hb'' & Hl'' & Hg & Hz).
      rewrite <- app_assoc in Hb'', Hl'', Hz. cbn [app] in Hb'', Hl'', Hz. exists (c :: g), rest', tmp'', tb'', last''. do 4 (split; [done|]). split; [by constructor|].
      right. destruct Hz as [->|Hz]; [exact Hbound|exact Hz]. }
    destruct (w_batch w) as [rep|], (c_updates c) as [us|] eqn:Eu; cbn [carries] in Hc; try done.
    + destruct Hc as [seq' ->]. unfold updates in Hsnoc. rewrite Eu in Hsnoc. cbn [default from_option id] in Hsnoc. unfold ByteSize. rewrite zlen_batch, Z.gtb_ltb.
      destruct (Z.ltb_spec max_size (size + (12 + zlen (records us)))) as [Hbig|Hsmall].
      { exists [], (c :: rest), tmp, tb, last. rewrite (app_nil_r acc). split; [done|]. split; [done|]. split; [done|]. split; [done|]. split; [constructor|by left]. }
      pose proof (zlen_records us) as Hus. zlen_pos. assert (Hz : zlen (all_updates (first :: acc)) + zlen us < 2 ^ 31) by lia.
      assert (Eres : (if tmp then Some tb else if Count tb =? 0 then Batch_Append tb (batch seq (zlen us0) us0) else None) =
        Some (batch 0 (zlen (all_updates (first :: acc))) (all_updates (first :: acc)))).
      { destruct tmp; cbn [built] in Hb; [by rewrite Hb|]. destruct Hb as [-> Hu]. rewrite Hu in *. rewrite Clear_batch, Count_batch by done. cbn [Z.eqb].
        pose proof (Batch_Append_batch 0 [] seq us0 ltac:(rewrite zlen_nil; lia)) as Ea. exact Ea. }
      rewrite Eres, Batch_Append_batch by done. apply Hnext; cbn [built]; rewrite ?Hsnoc; [done|rewrite zlen_app; lia|lia|left; by rewrite zlen_app].
    + unfold updates in Hsnoc. rewrite Eu in Hsnoc. cbn [default from_option] in Hsnoc. rewrite app_nil_r in Hsnoc. apply Hnext; unfold built in *; rewrite ?Hsnoc; [by destruct tmp|done|done|].
      destruct tmp; [|right; apply Hb]. left. specialize (Hm eq_refl). lia.
Qed.
End Group.

Section State.
Context {F T : Type} `{WritableFile F} `{!Syncable F} `{Tables T}.

Lemma BuildBatchGroup_spec (st : DBImpl F T) first rest : writers_ st = map c_id (first :: rest) -> Forall (runs (threads st)) (first :: rest) -> is_Some (c_updates first) ->
  call_ok first -> tmp_batch_ st = Clear ->
  exists g rest' tmp tb last us0, rest = g ++ rest' /\ BuildBatchGroup st = Some (tmp, tb, last) /\ c_updates first = Some us0 /\ built first us0 tmp tb g /\
    Some last = list.last (map c_id (first :: g)) /\ Forall (fun c => c_sync c = true -> c_sync first = true) g /\ zlen (all_updates (first :: g)) < 2 ^ 31.
Proof.
  intros Eq Hr [us0 Eu] [Hlen _] Et. apply Forall_cons_1 in Hr as [(w & Ew & Hc & Hsy) Hr]. unfold BuildBatchGroup. rewrite Eq. cbn [map]. rewrite Ew. destruct w as [sw b sy d p]. cbn [w_batch w_sync] in *.
  rewrite Eu in Hc. destruct b as [rep|]; [|done]. cbn [carries] in Hc. subst sy. unfold updates in Hlen. rewrite Eu in Hlen. cbn [default from_option id] in Hlen.
  assert (E0 : all_updates [first] = us0) by (unfold all_updates; cbn [map concat]; rewrite app_nil_r; unfold updates; by rewrite Eu).
  assert (Hsz : zlen (all_updates [first]) <= ByteSize rep) by (rewrite E0; destruct Hc as [seq ->]; unfold ByteSize; rewrite zlen_batch; pose proof (zlen_records us0); lia).
  set (max_size := if ByteSize rep <=? Z.shiftl 128 10 then ByteSize rep + Z.shiftl 128 10 else Z.shiftl 1 20).
  assert (Hmax : max_size <= 2 ^ 20).
  { unfold max_size. change (Z.shiftl 128 10) with 131072. change (Z.shiftl 1 20) with (2 ^ 20). destruct (Z.leb_spec (ByteSize rep) 131072); lia. }
  destruct (BuildBatchGroup_loop_spec (threads st) first us0 rep max_size rest (ByteSize rep) false (tmp_batch_ st) [] (c_id first) Hc Hmax Hr)
    as (g & rest' & tmp & tb & last & -> & E & Hb & Hl & Hg & Hz); [by split|done|done|done|].
  exists g, rest', tmp, tb, last, us0. do 6 (split; [done|]). cbn [app] in Hz. destruct Hz as [-> | [Hz | ->]]; [by rewrite E0|done|done].
Qed.
End State.
