(* ===== verification/LdbWriteFacts.v ===== *)
(** * The invariant of concurrent writers (leveldb: db/db_impl.cc)

    The commits that the leaders have made so far, in order; how they explain the
    results of the calls, the logs and the tables; and that every step keeps this. *)

From stdpp Require Import strings gmap.
From S2P Require Import Prelude Words PbWireFacts LdbCoding LdbEnv LdbLog LdbLogWrite LdbLogFacts LdbBatch LdbRecovery LdbWrite LdbWriteQueue LdbWriteLog LdbWriteGroup.

(** ** Commits *)

(** The calls of a group, the leader first; the number of the first update; what became
    of it; whether the leader asked for the file to be synced. *)
Record commit := mkCommit { g_calls : list call; g_seq : Z; g_status : Status; g_sync : bool }.

Definition commit_group (g : commit) : group := (g_seq g, all_updates (g_calls g)).
Definition commit_bytes (g : commit) : list Z := group_bytes (commit_group g).
Definition committed (hist : list commit) : list call := concat (map g_calls hist).

(** The sequence numbers follow each other. *)
Definition next_sequence (s : Z) (g : commit) : Z := u64 (s + zlen (all_updates (g_calls g))).
Definition hist_end (s : Z) (hist : list commit) : Z := fold_left next_sequence hist s.
Fixpoint consecutive (s : Z) (hist : list commit) : Prop :=
  match hist with [] => True | g :: hist => g_seq g = u64 (s + 1) /\ consecutive (next_sequence s g) hist end.

Definition good_group (gc : list call) (sync : bool) : Prop :=
  exists c gc', gc = c :: gc' /\ is_Some (c_updates c) /\ sync = c_sync c /\ Forall (fun x => c_sync x = true -> sync = true) gc /\ zlen (all_updates gc) < 2 ^ 31.
Definition good_commit (g : commit) : Prop := good_group (g_calls g) (g_sync g) /\ 0 <= g_seq g < 2 ^ 64 /\ Forall call_ok (g_calls g).
Definition all_ok : list commit -> Prop := Forall (fun g => ok (g_status g) = true).

(** The status a call has been given. *)
Definition result (w : DBWriter) : option Status := match w_pc w with Returned s => Some s | _ => if w_done w then Some (w_status w) else None end.

(** A result is that of the commit with the call; a call in no commit has no updates or
    an error. *)
Definition outcome (hist : list commit) (c : call) (s : Status) : Prop :=
  (exists g, g ∈ hist /\ c ∈ g_calls g /\ s = g_status g) \/ ((c_updates c = None \/ ok s = false) /\ c ∉ committed hist).

Lemma committed_snoc hist g : committed (hist ++ [g]) = committed hist ++ g_calls g.
Proof. unfold committed. rewrite map_app, concat_app. cbn [map concat]. by rewrite app_nil_r. Qed.

Lemma hist_end_snoc s hist g : hist_end s (hist ++ [g]) = next_sequence (hist_end s hist) g.
Proof. unfold hist_end. by rewrite fold_left_app. Qed.

Lemma consecutive_snoc s hist g : consecutive s (hist ++ [g]) <-> consecutive s hist /\ g_seq g = u64 (hist_end s hist + 1).
Proof. revert s. induction hist as [|h hist IH]; intros s; cbn [app consecutive hist_end fold_left]; [naive_solver|]. rewrite IH. unfold hist_end. naive_solver. Qed.

Lemma commit_group_ok g : good_commit g -> group_ok (commit_group g).
Proof. intros [(c & gc & Ec & _ & _ & _ & Hz) [Hs Hok]]. split; [done|]. split; [by cbn|]. by apply all_updates_ok. Qed.

Section Invariant.
Context {F T : Type} `{DurableFile F} `{TableEntries T}.
Context (o : Options) (s0 : Z).
Implicit Types st : DBImpl F T.

(** ** What is stored *)

(** A log and a table hold the commits that were made while they were in use: the log
    every one, the table those that succeeded; what was synced is durable. *)
Definition holds (seg : list commit) (lt : Writer F * T) : Prop :=
  sim (fst lt) (memory_writer (map commit_bytes seg)) /\
  entries (snd lt) = concat (map (fun g => group_entries (commit_group g)) (filter (fun g => ok (g_status g) = true) seg)) /\
  forall a g b, seg = a ++ g :: b -> ok (g_status g) = true -> g_sync g = true -> zlen (log_of (map commit_bytes (a ++ [g]))) <= durable (dest (fst lt)).

Definition stored (hist : list commit) st : Prop :=
  exists segs cur, hist = concat segs ++ cur /\ Forall2 holds segs (retired st) /\ holds cur (log_ st, memtable_ st).

(** ** The leader *)

Definition leader_pc st : option pc := head (writers_ st) ≫= fun id => w_pc <$> threads st !! id.

Definition settled (hist : list commit) st : Prop := hist_end s0 hist = last_sequence_ st /\ forall c, c_id c ∈ writers_ st -> c ∉ committed hist.

(** The group that a leader has chosen. *)
Definition chosen (calls gc : list call) (sync tmp : bool) (last : nat) (ls : Z) st : Prop :=
  exists rest, writers_ st = map c_id gc ++ rest /\ Some last = list.last (map c_id gc) /\ Forall (.∈ calls) gc /\ good_group gc sync /\
    ls = u64 (last_sequence_ st + zlen (all_updates gc)) /\ (tmp = false -> tmp_batch_ st = Clear).

Definition phase (calls : list call) (hist : list commit) st : Prop :=
  match leader_pc st with
  | Some (Logging tmp last ls) => exists gc sync, chosen calls gc sync tmp last ls st /\ settled hist st /\ all_ok hist /\
      forall id, head (writers_ st) = Some id -> get_write_batch id tmp st = Some (group_bytes (u64 (last_sequence_ st + 1), all_updates gc))
  | Some (Logged tmp last ls s e) => exists gc sync hist', chosen calls gc sync tmp last ls st /\ settled hist' st /\ all_ok hist' /\
      hist = hist' ++ [mkCommit gc (u64 (last_sequence_ st + 1)) s sync] /\ e = negb (ok s)
  | _ => tmp_batch_ st = Clear /\ settled hist st /\ (ok (bg_error_ st) = true -> all_ok hist)
  end.

Record inv (calls : list call) (hist : list commit) st : Prop := mkInv {
  v_protocol : protocol (writers_ st) (threads st);
  v_ids : NoDup (map c_id calls) /\ forall id w, threads st !! id = Some w -> id ∈ map c_id calls;
  v_calls : Forall (fun c => call_ok c /\ runs (threads st) c) calls;
  v_hist : consecutive s0 hist /\ Forall good_commit hist /\ Forall (.∈ calls) (committed hist) /\ NoDup (committed hist);
  v_out : forall c w s, c ∈ calls -> threads st !! c_id c = Some w -> result w = Some s -> outcome hist c s;
  v_phase : phase calls hist st;
  v_stored : stored hist st
}.

Definition quiet (p : pc) : Prop := match p with Logging _ _ _ | Logged _ _ _ _ _ => False | _ => True end.
Definition idle (hist : list commit) st : Prop := tmp_batch_ st = Clear /\ settled hist st /\ (ok (bg_error_ st) = true -> all_ok hist).

Lemma phase_quiet calls hist st : (forall p, leader_pc st = Some p -> quiet p) -> phase calls hist st <-> idle hist st.
Proof. unfold phase. destruct (leader_pc st) as [[]|]; intros Hq; try done; exfalso; by apply (Hq _ eq_refl). Qed.

(** Two calls with the same thread are the same. *)
Lemma call_unique calls c c' : NoDup (map c_id calls) -> c ∈ calls -> c' ∈ calls -> c_id c = c_id c' -> c = c'.
Proof.
  intros Hn (a & b & ->)%list_elem_of_split Hc' E. rewrite map_app in Hn. cbn [map] in Hn. apply NoDup_app in Hn as (_ & Hd & Hn2). apply NoDup_cons in Hn2 as [Hn2 _].
  apply elem_of_app in Hc' as [Hc'|[->|Hc']%elem_of_cons]; [|done|].
  - exfalso. apply (Hd (c_id c')); [by apply (list_elem_of_fmap_2 c_id)|]. apply elem_of_cons. by left.
  - exfalso. apply Hn2. rewrite E. by apply (list_elem_of_fmap_2 c_id).
Qed.

Lemma phase_queue calls hist st : inv calls hist st -> exists qc, writers_ st = map c_id qc /\ Forall (.∈ calls) qc.
Proof.
  intros Hi. assert (Hall : Forall (fun id => id ∈ map c_id calls) (writers_ st)).
  { apply Forall_forall. intros id Hid. destruct (p_queued _ _ (v_protocol _ _ _ Hi) id Hid) as (w & Ew & _). by apply (proj2 (v_ids _ _ _ Hi) id w). }
  induction Hall as [|id q Hid _ (qc & -> & Hqc)]; [by exists []|]. apply list_elem_of_fmap in Hid as (c & -> & Hc). exists (c :: qc). split; [done|by constructor].
Qed.
(** ** Threads that wait *)

Lemma runs_alter ts id f c : (forall w, carries (c_updates c) (w_batch w) -> carries (c_updates c) (w_batch (f w))) -> (forall w, w_sync (f w) = w_sync w) ->
  runs ts c -> runs (alter f id ts) c.
Proof.
  intros Hb Hs (w & E & Hc & Hsy). destruct (decide (c_id c = id)) as [Heq|Hne]; [subst id|].
  - exists (f w). rewrite lookup_alter_eq, E. split; [done|]. split; [by apply Hb|by rewrite Hs].
  - exists w. by rewrite lookup_alter_ne by done.
Qed.

Lemma lookup_alter_id (ts : gmap nat DBWriter) id f x : is_Some (alter f id ts !! x) <-> is_Some (ts !! x).
Proof. destruct (decide (x = id)) as [->|Hne]; [rewrite lookup_alter_eq; by rewrite fmap_is_Some|by rewrite lookup_alter_ne]. Qed.

Lemma leader_alter st id f ts : ts = alter f id (threads st) -> head (writers_ st) <> Some id -> leader_pc (set_queue (writers_ st) ts st) = leader_pc st.
Proof.
  intros -> Hh. unfold leader_pc. cbn [writers_ threads set_queue]. destruct (head (writers_ st)) as [x|]; [|done]. cbn [mbind option_bind]. rewrite lookup_alter_ne; [done|congruence].
Qed.

(** A thread that neither writes nor begins to. *)
Lemma inv_at_pc calls hist st id w p : inv calls hist st -> threads st !! id = Some w -> quiet (w_pc w) -> quiet p -> protocol (writers_ st) (alter (set_pc p) id (threads st)) ->
  (forall s, result (set_pc p w) = Some s -> result w = Some s) -> inv calls hist (at_pc id p st).
Proof.
  intros [Hp [Hn Hid] Hc Hh Ho Hph Hst] Hw Hq1 Hq2 Hp' Hr. constructor; [exact Hp'| | |done| | |done].
  - split; [done|]. intros x w' Hx. destruct (proj1 (lookup_alter_id _ _ _ x) (mk_is_Some _ _ Hx)) as [w0 Hw0]. by apply (Hid x w0).
  - apply (Forall_impl _ _ _ Hc). intros c [K1 K2]. split; [done|]. by apply runs_alter.
  - intros c w' s Hin E Es. cbn [threads at_pc set_queue] in E. destruct (decide (c_id c = id)) as [Heq|Hne].
    + rewrite Heq, lookup_alter_eq, Hw in E. injection E as <-. apply (Ho c w s Hin); [by rewrite Heq|by apply Hr].
    + rewrite lookup_alter_ne in E by done. by apply (Ho c w' s).
  - destruct (decide (head (writers_ st) = Some id)) as [Hhd|Hhd].
    + assert (Hl : leader_pc (at_pc id p st) = Some p).
      { unfold leader_pc. cbn [writers_ threads at_pc set_queue]. rewrite Hhd. cbn [mbind option_bind]. by rewrite lookup_alter_eq, Hw. }
      assert (Hl0 : leader_pc st = Some (w_pc w)) by (unfold leader_pc; rewrite Hhd; cbn [mbind option_bind]; by rewrite Hw).
      apply phase_quiet; [intros p' E; by rewrite Hl in E; injection E as <-|]. apply phase_quiet in Hph; [exact Hph|]. intros p' E. rewrite Hl0 in E. by injection E as <-.
    + assert (El : leader_pc (at_pc id p st) = leader_pc st) by (apply (leader_alter st id (set_pc p)); [done|done]). unfold phase in *. rewrite El. destruct (leader_pc st) as [[]|]; try exact Hph.
      destruct Hph as (gc & sync & K1 & K2 & K3 & K4). exists gc, sync. split; [exact K1|]. split; [exact K2|]. split; [done|]. intros x Hx. refine (eq_trans _ (K4 x Hx)). unfold get_write_batch.
      destruct tmp; [done|]. cbn [threads at_pc set_queue]. rewrite lookup_alter_ne; [done|]. intros ->. done.
Qed.

Lemma inv_begin calls hist st c b : inv calls hist st -> call_ok c -> threads st !! c_id c = None -> carries (c_updates c) b ->
  inv (calls ++ [c]) hist (set_queue (writers_ st ++ [c_id c]) (<[c_id c := mkDBWriter OK b (c_sync c) false Woken]> (threads st)) st).
Proof.
  intros [Hp [Hn Hid] Hc (Hh1 & Hh2 & Hh3 & Hh4) Ho Hph Hst] Hok Hnone Hcar. set (w := mkDBWriter OK b (c_sync c) false Woken).
  assert (Hfresh : forall c', c' ∈ calls -> c_id c' <> c_id c).
  { intros c' Hin E. rewrite Forall_forall in Hc. destruct (Hc c' Hin) as (_ & w' & Ew & _). rewrite E in Ew. congruence. }
  assert (Hnot : c ∉ committed hist) by (intros Hin; rewrite Forall_forall in Hh3; by apply (Hfresh c (Hh3 c Hin))).
  assert (Hq : c_id c ∉ writers_ st) by (intros Hin; destruct (p_queued _ _ Hp _ Hin) as (w' & Ew & _); congruence).
  assert (Hset : settled hist st -> settled hist (set_queue (writers_ st ++ [c_id c]) (<[c_id c := w]> (threads st)) st)).
  { intros [K1 K2]. split; [done|]. intros c' Hin Hc'. cbn [writers_ set_queue] in Hin. rewrite Forall_forall in Hh3.
    apply elem_of_app in Hin as [Hin|Hin]; [by apply (K2 c')|]. apply list_elem_of_singleton in Hin. by apply (Hfresh c' (Hh3 c' Hc')). }
  assert (Hcalls : forall gc, Forall (.∈ calls) gc -> Forall (.∈ calls ++ [c]) gc) by (intros gc Hg; apply (Forall_impl _ _ _ Hg); intros x Hx; apply elem_of_app; by left).
  constructor.
  - by apply protocol_begin.
  - split.
    + rewrite map_app. apply NoDup_app. split; [done|]. split; [|apply NoDup_singleton]. intros x (c' & -> & Hin)%list_elem_of_fmap E%list_elem_of_singleton. by apply (Hfresh c').
    + intros x w' E. cbn [threads set_queue] in E. rewrite map_app. apply elem_of_app. destruct (decide (x = c_id c)) as [->|Hne]; [right; by apply list_elem_of_singleton|].
      rewrite lookup_insert_ne in E by done. left. by apply (Hid x w').
  - apply Forall_app. split; [|constructor; [|done]].
    + apply Forall_forall. intros c' Hin. rewrite Forall_forall in Hc. destruct (Hc c' Hin) as (K1 & w' & Ew & K2). split; [done|]. exists w'. cbn [threads set_queue].
      rewrite lookup_insert_ne; [done|]. intros E. by apply (Hfresh c' Hin).
    + split; [done|]. exists w. cbn [threads set_queue]. by rewrite lookup_insert_eq.
  - split; [done|]. split; [done|]. split; [by apply Hcalls|done].
  - intros c' w' s Hin E Es. cbn [threads set_queue] in E. apply elem_of_app in Hin as [Hin|Hin].
    + rewrite lookup_insert_ne in E by (intros K; by apply (Hfresh c' Hin)). by apply (Ho c' w' s).
    + apply list_elem_of_singleton in Hin as ->. rewrite lookup_insert_eq in E. injection E as <-. done.
  - destruct (decide (writers_ st = [])) as [Hnil|Hcons].
    + assert (Hl0 : leader_pc st = None) by (unfold leader_pc; by rewrite Hnil). apply phase_quiet in Hph; [|intros p E; congruence].
      apply phase_quiet; [|destruct Hph as (K1 & K2 & K3); split; [done|]; split; [by apply Hset|done]].
      intros p E. unfold leader_pc in E. cbn [writers_ threads set_queue] in E. rewrite Hnil in E. cbn [app head mbind option_bind] in E. rewrite lookup_insert_eq in E. by injection E as <-.
    + assert (Hhd : head (writers_ st ++ [c_id c]) = head (writers_ st)) by (by destruct (writers_ st)).
      assert (Hne : forall x, head (writers_ st) = Some x -> c_id c <> x) by (intros x Hx Ex; subst x; by apply Hq, head_in).
      assert (El : leader_pc (set_queue (writers_ st ++ [c_id c]) (<[c_id c := w]> (threads st)) st) = leader_pc st).
      { unfold leader_pc. cbn [writers_ threads set_queue]. rewrite Hhd. destruct (head (writers_ st)) as [x|]; [|done]. cbn [mbind option_bind]. rewrite lookup_insert_ne; [done|]. by apply Hne. }
      assert (Hch : forall gc sync tmp last ls, chosen calls gc sync tmp last ls st -> chosen (calls ++ [c]) gc sync tmp last ls (set_queue (writers_ st ++ [c_id c]) (<[c_id c := w]> (threads st)) st)).
      { intros gc sync tmp last ls (rest & K1 & K2 & K3 & K4). exists (rest ++ [c_id c]). cbn [writers_ set_queue]. rewrite K1, <- app_assoc. split; [done|]. split; [done|]. split; [by apply Hcalls|done]. }
      unfold phase in *. rewrite El. destruct (leader_pc st) as [[]|]; try (destruct Hph as (K1 & K2 & K3); split; [done|]; split; [by apply Hset|done]).
      * destruct Hph as (gc & sync & K1 & K2 & K3 & K4). exists gc, sync. split; [by apply Hch|]. split; [by apply Hset|]. split; [done|]. intros x Hx. cbn [writers_ set_queue] in Hx. rewrite Hhd in Hx.
        refine (eq_trans _ (K4 x Hx)). unfold get_write_batch. destruct tmp; [done|]. cbn [threads set_queue]. rewrite lookup_insert_ne; [done|]. by apply Hne.
      * destruct Hph as (gc & sync & hist' & K1 & [K2 K3] & K4 & -> & K5). exists gc, sync, hist'. split; [by apply Hch|]. split; [|done]. split; [done|].
        intros c' Hin Hc'. cbn [writers_ set_queue] in Hin. rewrite committed_snoc in Hh3. apply Forall_app in Hh3 as [Hh3 _]. rewrite Forall_forall in Hh3.
        apply elem_of_app in Hin as [Hin|Hin]; [by apply (K3 c')|]. apply list_elem_of_singleton in Hin. by apply (Hfresh c' (Hh3 c' Hc')).
  - done.
Qed.
Lemma inv_check calls hist st id w st' : inv calls hist st -> threads st !! id = Some w -> w_pc w = Woken -> Write_check id st = Some st' -> inv calls hist st'.
Proof.
  intros Hi Hw Hpc E. pose proof (protocol_check id w st st' (v_protocol _ _ _ Hi) Hw Hpc E) as Hp. unfold Write_check in E. rewrite Hw in E.
  assert (Hq : quiet (w_pc w)) by (by rewrite Hpc).
  destruct (w_done w) eqn:Hd; [|case_bool_decide]; injection E as <-; refine (inv_at_pc calls hist st id w _ Hi Hw Hq _ Hp _); try exact I; unfold result; rewrite Hpc; cbn [w_pc w_done w_status set_pc]; rewrite Hd; done.
Qed.

(** ** Leaving *)

Lemma after_leave_runs self g rest s x w c : carries (c_updates c) (w_batch w) /\ w_sync w = c_sync c ->
  carries (c_updates c) (w_batch (after_leave self g rest s x w)) /\ w_sync (after_leave self g rest s x w) = c_sync c.
Proof. intros [K1 K2]. unfold after_leave, complete, Signal. repeat case_match; done. Qed.

Lemma after_leave_result self g rest s x w s' : ~ returned (w_pc w) \/ x ∉ g -> self ∈ g -> result (after_leave self g rest s x w) = Some s' ->
  (x ∈ g /\ s' = s) \/ (x ∉ g /\ result w = Some s').
Proof.
  intros Hr Hself. unfold after_leave. destruct (decide (x = self)) as [->|Hne]; [intros [= <-]; by left|]. destruct (decide (x ∈ g)) as [Hg|Hg].
  - destruct Hr as [Hr|]; [|done]. intros Es. left. split; [done|]. unfold result, complete, Signal in Es. destruct w as [sw b sy d p]; destruct p; cbn in Es, Hr; congruence || tauto.
  - intros Es. right. split; [done|]. rewrite <- Es. destruct (decide (head rest = Some x)); [|done]. unfold result, Signal. destruct w as [sw b sy d p]; by destruct p.
Qed.

Lemma inv_leave calls hist st gc rest c0 w0 last s :
  protocol (writers_ st) (threads st) -> (NoDup (map c_id calls) /\ forall id w, threads st !! id = Some w -> id ∈ map c_id calls) ->
  Forall (fun c => call_ok c /\ runs (threads st) c) calls ->
  (consecutive s0 hist /\ Forall good_commit hist /\ Forall (.∈ calls) (committed hist) /\ NoDup (committed hist)) ->
  (forall c w s, c ∈ calls -> c_id c ∉ map c_id gc -> threads st !! c_id c = Some w -> result w = Some s -> outcome hist c s) -> stored hist st ->
  writers_ st = map c_id gc ++ rest -> Some last = list.last (map c_id gc) -> Forall (.∈ calls) gc -> head gc = Some c0 -> threads st !! c_id c0 = Some w0 -> leading (w_pc w0) ->
  Forall (fun c => outcome hist c s) gc ->
  tmp_batch_ st = Clear -> hist_end s0 hist = last_sequence_ st -> (forall c, c_id c ∈ rest -> c ∉ committed hist) -> (ok (bg_error_ st) = true -> all_ok hist) ->
  exists st', Write_leave (c_id c0) last s st = Some st' /\ inv calls hist st' /\ writers_ st' = rest /\ last_sequence_ st' = last_sequence_ st.
Proof.
  intros Hp [Hn Hid] Hc Hh Ho Hst Eq Hlast Hgc Hg0 Hw0 Hl0 Hout Htmp Hend Hrest Hbg.
  assert (Hself : c_id c0 ∈ map c_id gc) by (apply list_elem_of_fmap_2; by apply head_Some_elem_of).
  assert (Hhead : head (writers_ st) = Some (c_id c0)) by (rewrite Eq; destruct gc; [done|]; by injection Hg0 as ->).
  destruct (Write_leave_spec st (c_id c0) last s (map c_id gc) rest Eq (eq_sym Hlast) (p_nodup _ _ Hp) Hself) as (ts & -> & Hts). eexists. split; [reflexivity|]. split; [|done].
  pose proof (protocol_leave st (c_id c0) s (map c_id gc) rest ts Hp Eq Hhead Hself Hts) as Hp'. constructor; [exact Hp'| | |done| | |done].
  - split; [done|]. intros id w E. cbn [threads set_queue] in E. rewrite Hts in E. apply fmap_Some in E as (w' & E & _). by apply (Hid id w').
  - apply (Forall_impl _ _ _ Hc). intros c (K1 & w & E & K2). split; [done|]. eexists. cbn [threads set_queue]. rewrite Hts, E. split; [reflexivity|]. by apply after_leave_runs.
  - intros c w' s' Hin E Es. cbn [threads set_queue] in E. rewrite Hts in E. apply fmap_Some in E as (w & E & ->).
    apply after_leave_result in Es; [|destruct (decide (c_id c ∈ map c_id gc)) as [Hg|Hg]; [left|by right]|done].
    + destruct Es as [[Hg ->]|[Hg Es]]; [|by apply (Ho c w s')]. apply list_elem_of_fmap in Hg as (c' & Eid & Hg). rewrite Forall_forall in Hgc, Hout.
      rewrite (call_unique calls c c' Hn Hin (Hgc c' Hg) Eid). by apply Hout.
    + destruct (p_queued _ _ Hp (c_id c)) as (w2 & E2 & _ & K & _); [rewrite Eq; apply elem_of_app; by left|]. congruence.
  - apply phase_quiet; [|split; [done|split; [split; [done|exact Hrest]|done]]]. intros p E. unfold leader_pc in E. cbn [writers_ threads set_queue] in E.
    destruct (head rest) as [x|] eqn:Hx; [|done]. cbn [mbind option_bind] in E. apply fmap_Some in E as (w & E & ->). pose proof (head_in _ _ Hx) as Hin.
    assert (Hxg : x ∉ map c_id gc).
    { intros Hg. pose proof (p_nodup _ _ Hp) as Hnd. rewrite Eq in Hnd. apply NoDup_app in Hnd as (_ & Hd & _). by apply (Hd x). }
    rewrite Hts in E. apply fmap_Some in E as (w' & E & ->). destruct (p_queued _ _ Hp x) as (w2 & E2 & _ & _ & _ & K & _); [rewrite Eq; apply elem_of_app; by right|].
    assert (w2 = w') as -> by congruence. assert (Hnl : ~ leading (w_pc w')) by (intros Hld; specialize (K Hld); rewrite Hhead in K; injection K as <-; done).
    unfold after_leave. rewrite decide_False by (intros ->; done). rewrite decide_False by done. rewrite decide_True by done. unfold Signal. destruct w' as [sw b sy d p]; destruct p; cbn in Hnl |- *; tauto.
Qed.
End Invariant.
