(* ===== verification/LdbWriteSteps.v ===== *)
(** * The steps of the leader keep the invariant (leveldb: db/db_impl.cc)

    Making room, choosing a group, writing it to the log and to the table, taking it off
    the queue; and the invariant of everything that can be reached. *)

From stdpp Require Import strings gmap.
From S2P Require Import Prelude Words PbWireFacts LdbCoding LdbEnv LdbLog LdbLogWrite LdbLogFacts LdbBatch LdbRecovery.
From S2P Require Import LdbWrite LdbWriteQueue LdbWriteLog LdbWriteGroup LdbWriteFacts.

Section Steps.
Context {F T : Type} `{DurableFile F} `{TableEntries T}.
Context (o : Options) (s0 : Z).
Implicit Types st : DBImpl F T.

(** An empty file; and the answers of an environment whose new files are empty. *)
Definition fresh (f : F) : Prop := contents f = [].
Definition fresh_files (gives : Status * F -> Prop) : Prop := forall lfile, gives lfile -> ok (fst lfile) = true -> fresh (snd lfile).

Notation inv := (inv s0) (only parsing).

(** ** Making room *)

Lemma round_cases lfile force delay st r st' : MakeRoomForWrite_round o lfile force delay st = (r, st') ->
  (st' = st /\ (r = inl OK -> ok (bg_error_ st) = true)) \/
  (exists q, r = inr q /\ ok (fst lfile) = true /\ st' = switch (snd lfile) st).
Proof.
  unfold MakeRoomForWrite_round. intros E. destruct (ok (bg_error_ st)) eqn:Hbg; cbn [negb] in E; [|left; simplify_eq; split; [done|]; by intros [= K]; rewrite K in Hbg].
  repeat (match type of E with (if ?b then _ else _) = _ => destruct b end; [left; simplify_eq; done|]). destruct lfile as [s f]. cbn [fst snd] in *.
  destruct (ok s) eqn:Hs; cbn [negb] in E; simplify_eq; [right; by eexists|by left].
Qed.

Lemma holds_new f : fresh f -> holds [] (Writer_new f, (new_table : T)).
Proof. intros Hf. split; [by apply sim_new|]. split; [apply entries_new|]. intros a g b E. by destruct a. Qed.

Lemma inv_switch calls hist st f : inv calls hist st -> fresh f -> inv calls hist (switch f st).
Proof.
  intros [Hp Hid Hc Hh Ho Hph (segs & cur & -> & Hs & Hcur)] Hf. constructor; try done. exists (segs ++ [cur]), []. cbn [retired log_ memtable_ switch].
  rewrite concat_app. cbn [concat]. rewrite !app_nil_r. split; [done|]. split; [|by apply holds_new]. apply Forall2_app; [done|]. by constructor.
Qed.

(** The thread of the first call, when it leads. *)
Lemma leading_call calls hist st id w : inv calls hist st -> threads st !! id = Some w -> leading (w_pc w) ->
  exists c qc, c_id c = id /\ writers_ st = map c_id (c :: qc) /\ Forall (.∈ calls) (c :: qc) /\ leader_pc st = Some (w_pc w).
Proof.
  intros Hi Hw Hl. destruct (leading_first _ _ _ _ (v_protocol _ _ _ _ Hi) Hw Hl) as [Hh _]. destruct (phase_queue s0 calls hist st Hi) as (qc & Eq & Hqc).
  destruct qc as [|c qc]; [by rewrite Eq in Hh|]. rewrite Eq in Hh. injection Hh as Hh. exists c, qc. do 3 (split; [done|]). unfold leader_pc. rewrite Eq. cbn [map head mbind option_bind]. by rewrite Hh, Hw.
Qed.

Lemma call_runs calls hist st c w : inv calls hist st -> c ∈ calls -> threads st !! c_id c = Some w -> call_ok c /\ carries (c_updates c) (w_batch w) /\ w_sync w = c_sync c.
Proof. intros Hi Hin Hw. pose proof (v_calls _ _ _ _ Hi) as Hc. rewrite Forall_forall in Hc. destruct (Hc c Hin) as (K1 & w' & E & K2). assert (w' = w) as -> by congruence. done. Qed.

(** The leader leaves alone, without a commit. *)
Lemma inv_alone calls hist st id w s : inv calls hist st -> threads st !! id = Some w -> leading (w_pc w) -> quiet (w_pc w) -> (ok s = false \/ w_batch w = None) ->
  exists st', Write_leave id id s st = Some st' /\ inv calls hist st' /\ writers_ st' = tail (writers_ st) /\ last_sequence_ st' = last_sequence_ st.
Proof.
  intros Hi Hw Hl Hq Hs. destruct (leading_call calls hist st id w Hi Hw Hl) as (c & qc & <- & Eq & Hqc & Hlp). pose proof Hi as [Hp Hid Hc Hh Ho Hph Hst].
  apply phase_quiet in Hph as (Ht & [He Hset] & Hbg); [|intros p E; rewrite Hlp in E; by injection E as <-]. apply Forall_cons_1 in Hqc as [Hin Hqc].
  assert (Hnc : c ∉ committed hist) by (apply Hset; rewrite Eq; apply elem_of_cons; by left).
  assert (Hnd : NoDup (map c_id (c :: qc))) by (rewrite <- Eq; apply Hp).
  rewrite Eq. cbn [map tail]. apply (inv_leave s0 calls hist st [c] (map c_id qc) c w (c_id c) s); try done.
  - intros c' w' s' Hin' _ Hw' Es. by apply (Ho c' w' s').
  - by constructor.
  - constructor; [|done]. right. split; [|done]. destruct Hs as [Hs|Hs]; [by right|left]. destruct (call_runs calls hist st c w Hi Hin Hw) as (_ & Hcar & _). rewrite Hs in Hcar. by destruct (c_updates c).
  - intros c' Hin'. apply Hset. rewrite Eq. cbn [map]. apply elem_of_cons. by right.
Qed.

(** ** Choosing the group *)

Lemma u64_range x : 0 <= u64 x < 2 ^ 64.
Proof. unfold u64. apply Z.mod_pos_bound. lia. Qed.

Lemma inv_choose calls hist st id w us : inv calls hist st -> threads st !! id = Some w -> leading (w_pc w) -> quiet (w_pc w) -> w_batch w = Some us -> ok (bg_error_ st) = true ->
  exists tmp tb last rep ls gc, BuildBatchGroup st = Some (tmp, tb, last) /\ get_write_batch id tmp (set_tmp tb st) = Some rep /\
    ls = u64 (last_sequence_ st + Count (SetSequence rep (u64 (last_sequence_ st + 1)))) /\ ls = u64 (last_sequence_ st + zlen (all_updates gc)) /\ Forall (.∈ calls) gc /\
    (exists rest, writers_ st = map c_id gc ++ rest) /\
    inv calls hist (at_pc id (Logging tmp last ls) (set_write_batch id tmp (SetSequence rep (u64 (last_sequence_ st + 1))) (set_tmp tb st))).
Proof.
  intros Hi Hw Hl Hq Hb Hbg. destruct (leading_call calls hist st id w Hi Hw Hl) as (c & qc & <- & Eq & Hqc & Hlp). pose proof Hi as [Hp [Hn Hid] Hc Hh Ho Hph Hst].
  apply phase_quiet in Hph as (Ht & [He Hset] & Hall); [|intros p E; rewrite Hlp in E; by injection E as <-]. specialize (Hall Hbg).
  pose proof (Forall_inv Hqc) as Hin. destruct (call_runs calls hist st c w Hi Hin Hw) as (Hok & Hcar & Hsy). rewrite Hb in Hcar. destruct (c_updates c) as [us0|] eqn:Eu; [|done].
  assert (Hruns : Forall (runs (threads st)) (c :: qc)) by (apply (Forall_impl _ _ _ Hqc); intros x Hx; rewrite Forall_forall in Hc; by apply (Hc x)).
  destruct (BuildBatchGroup_spec st c qc Eq Hruns ltac:(by rewrite Eu) Hok Ht) as (g & rest & tmp & tb & last & us1 & -> & Eb & Eu1 & Hbuilt & Hlast & Hsync & Hz).
  assert (us1 = us0) as -> by congruence. cbn [carries] in Hcar. destruct Hcar as [seq ->]. zlen_pos. set (us := all_updates (c :: g)) in *.
  assert (Hrep : exists rep, get_write_batch (c_id c) tmp (set_tmp tb st) = Some rep /\ SetSequence rep (u64 (last_sequence_ st + 1)) = group_bytes (u64 (last_sequence_ st + 1), us)).
  { unfold get_write_batch, group_bytes. cbn [fst snd]. destruct tmp; cbn [built] in Hbuilt.
    - subst tb. eexists. split; [reflexivity|]. apply SetSequence_batch.
    - destruct Hbuilt as [-> Hu]. cbn [threads set_tmp]. rewrite Hw. cbn [mbind option_bind]. rewrite Hb. eexists. split; [reflexivity|]. rewrite SetSequence_batch. unfold us. by rewrite Hu. }
  destruct Hrep as (rep & Er & Es). exists tmp, tb, last, rep, (u64 (last_sequence_ st + zlen us)), (c :: g). rewrite Es.
  do 2 (split; [done|]). split; [unfold group_bytes; cbn [fst snd]; by rewrite Count_batch by lia|]. split; [done|]. rewrite app_comm_cons in Hqc. apply Forall_app in Hqc as [Hg _]. split; [done|]. split; [exists (map c_id rest); by rewrite Eq, app_comm_cons, map_app|].
  set (rep' := group_bytes (u64 (last_sequence_ st + 1), us)). set (st1 := set_write_batch (c_id c) tmp rep' (set_tmp tb st)).
  assert (Hst1 : writers_ st1 = writers_ st /\ threads st1 = (if tmp then threads st else alter (set_batch rep') (c_id c) (threads st)) /\ tmp_batch_ st1 = (if tmp then rep' else tb) /\
    last_sequence_ st1 = last_sequence_ st /\ stored hist st1) by (unfold st1; by destruct tmp). destruct Hst1 as (E1 & E2 & E3 & E4 & E5).
  set (p := Logging tmp last (u64 (last_sequence_ st + zlen us))).
  assert (Hw1 : exists w1, threads st1 !! c_id c = Some w1 /\ w_pc w1 = w_pc w /\ w_done w1 = w_done w /\ w_sync w1 = w_sync w /\ (tmp = false -> w_batch w1 = Some rep')).
  { rewrite E2. destruct tmp; [by exists w|]. exists (set_batch rep' w). by rewrite lookup_alter_eq, Hw. }
  destruct Hw1 as (w1 & Hw1 & Hpc1 & Hd1 & Hs1 & Hb1).
  assert (Hp1 : protocol (writers_ st1) (threads st1)) by (rewrite E1, E2; destruct tmp; [done|by apply protocol_batch]).
  assert (Hlw1 : leading (w_pc w1)) by (by rewrite Hpc1).
  assert (Hlast' : last ∈ writers_ st).
  { rewrite Eq, app_comm_cons, map_app. apply elem_of_app. left. symmetry in Hlast. by apply last_Some_elem_of in Hlast. }
  constructor; cbn [threads writers_ at_pc set_queue].
  - refine (protocol_lead _ _ _ w1 p Hp1 Hw1 Hlw1 I _). rewrite E1. by intros l [= <-].
  - split; [done|]. intros x w' Hx. destruct (proj1 (lookup_alter_id _ _ _ x) (mk_is_Some _ _ Hx)) as [w2 Hw2]. rewrite E2 in Hw2. destruct tmp; [by apply (Hid x w2)|].
    destruct (proj1 (lookup_alter_id _ _ _ x) (mk_is_Some _ _ Hw2)) as [w3 Hw3]. by apply (Hid x w3).
  - apply Forall_forall. intros x Hx. rewrite Forall_forall in Hc. destruct (Hc x Hx) as [K1 K2]. split; [done|]. apply runs_alter; [done|done|]. rewrite E2. destruct tmp; [done|].
    destruct K2 as (wx & Ex & K3 & K4). destruct (decide (c_id x = c_id c)) as [Heq|Hne].
    + assert (x = c) as -> by (by apply (call_unique calls)). exists (set_batch rep' wx). rewrite lookup_alter_eq, Ex. split; [done|]. split; [|done]. rewrite Eu. cbn [carries w_batch set_batch].
      exists (u64 (last_sequence_ st + 1)). unfold rep', group_bytes. cbn [fst snd]. cbn [built] in Hbuilt. unfold us. by rewrite (proj2 Hbuilt).
    + exists wx. by rewrite lookup_alter_ne.
  - done.
  - intros x wx s Hx Ex Es'. destruct (decide (c_id x = c_id c)) as [Heq|Hne].
    + rewrite Heq, lookup_alter_eq, Hw1 in Ex. injection Ex as <-. unfold result in Es'. cbn [w_pc set_pc w_done] in Es'.
      destruct (leading_first _ _ _ _ Hp Hw Hl) as [_ [Hd _]]. rewrite Hd1, Hd in Es'. done.
    + rewrite lookup_alter_ne, E2 in Ex by done. assert (Ex' : threads st !! c_id x = Some wx) by (destruct tmp; [done|by rewrite lookup_alter_ne in Ex]). by apply (Ho x wx s).
  - unfold phase. assert (Hlp' : leader_pc (at_pc (c_id c) p st1) = Some p).
    { unfold leader_pc. cbn [writers_ threads at_pc set_queue]. rewrite E1, Eq. cbn [map head mbind option_bind]. by rewrite lookup_alter_eq, Hw1. }
    rewrite Hlp'. unfold p. exists (c :: g), (c_sync c). cbn [last_sequence_ at_pc set_queue]. rewrite E4. split; [|split; [|split; [done|]]].
    + exists (map c_id rest). cbn [writers_ last_sequence_ tmp_batch_ at_pc set_queue]. rewrite E1, E3, E4. split; [by rewrite Eq, app_comm_cons, map_app|]. split; [done|]. split; [done|].
      split; [|split; [done|]]. { exists c, g. split; [done|]. split; [by rewrite Eu|]. split; [done|]. split; [by constructor|done]. }
      intros ->. by destruct Hbuilt.
    + split; [cbn [last_sequence_ at_pc set_queue]; by rewrite E4|]. intros x. cbn [writers_ at_pc set_queue]. rewrite E1. apply Hset.
    + intros x Hx. cbn [writers_ at_pc set_queue] in Hx. rewrite E1, Eq in Hx. injection Hx as <-. unfold get_write_batch. destruct tmp; [cbn [tmp_batch_ at_pc set_queue]; by rewrite E3|].
      cbn [threads at_pc set_queue]. rewrite lookup_alter_eq, Hw1. cbn [fmap option_fmap option_map mbind option_bind w_batch set_pc]. by apply Hb1.
  - exact E5.
Qed.
(** ** The log and the table *)

Lemma commit_bytes_ok hist : Forall good_commit hist -> Forall (fun d => bytes_ok d) (map commit_bytes hist).
Proof. intros Hg. apply Forall_map, (Forall_impl _ _ _ Hg). intros g K. by apply group_bytes_ok, commit_group_ok. Qed.

(** A commit more in a log and its table; [log] is the log after the record, [log'] and
    [s] after the file has been synced, if it was asked for. *)
Lemma holds_snoc seg (lt : Writer F * T) g log' m' : holds seg lt -> Forall good_commit (seg ++ [g]) ->
  (exists log, AddRecord (commit_bytes g) (fst lt) = (Some OK, log) /\ sim log' (memory_writer (map commit_bytes (seg ++ [g]))) /\ durable (dest log) <= durable (dest log') /\
    (ok (g_status g) = true -> g_sync g = true -> zlen (contents (dest log)) <= durable (dest log'))) ->
  entries m' = entries (snd lt) ++ (if ok (g_status g) then group_entries (commit_group g) else []) -> holds (seg ++ [g]) (log', m').
Proof.
  intros (Hsim & Hent & Hdur) Hg (log & Ea & Hsim' & Hd & Hsync) Em. apply Forall_app in Hg as [Hg Hg1]. apply Forall_inv in Hg1 as Hg1'.
  destruct (AddRecord_sim (map commit_bytes seg) (commit_bytes g) (fst lt) (commit_bytes_ok _ Hg) ltac:(by apply group_bytes_ok, commit_group_ok) Hsim) as (log1 & E1 & Hs1 & Hd1).
  assert (log1 = log) as -> by congruence. cbn [fst snd]. split; [done|]. split.
  - cbn [fst snd]. rewrite Em, Hent, filter_app, map_app, concat_app. f_equal. rewrite filter_cons. destruct (ok (g_status g)) eqn:Eok.
    + rewrite decide_True by done. cbn. by rewrite app_nil_r.
    + rewrite decide_False by done. done.
  - intros a g' b E Hok' Hsy'. cbn [fst]. destruct (decide (b = [])) as [->|Hb].
    + apply app_inj_tail in E as [-> ->]. apply sim_contents in Hs1. specialize (Hsync Hok' Hsy'). rewrite Hs1 in Hsync. by rewrite map_app.
    + destruct (exists_last Hb) as (b' & x & ->). rewrite app_comm_cons, app_assoc in E. apply app_inj_tail in E as [-> ->]. specialize (Hdur a g' b' eq_refl Hok' Hsy'). lia.
Qed.

Lemma outcome_snoc hist g c s : outcome hist c s -> c ∉ g_calls g -> outcome (hist ++ [g]) c s.
Proof.
  intros [(g' & K1 & K2 & K3)|[K1 K2]] Hc; [left; exists g'; split; [apply elem_of_app; by left|done]|]. right. split; [done|]. rewrite committed_snoc. intros [?|?]%elem_of_app; done.
Qed.

Lemma no_result calls hist st c w : inv calls hist st -> c_id c ∈ writers_ st -> threads st !! c_id c = Some w -> result w = None.
Proof.
  intros Hi Hin Hw. destruct (p_queued _ _ (v_protocol _ _ _ _ Hi) (c_id c) Hin) as (w' & E & Hd & Hr & _). assert (w' = w) as -> by congruence.
  unfold result. rewrite Hd. destruct (w_pc w); cbn in Hr; tauto.
Qed.

Lemma inv_log calls hist st id sw b sync d tmp last ls : inv calls hist st -> threads st !! id = Some (mkDBWriter sw b sync d (Logging tmp last ls)) ->
  exists st' g, Write_log id st = Some st' /\ inv calls (hist ++ [g]) st' /\ writers_ st' = writers_ st /\ last_sequence_ st' = last_sequence_ st /\
    exists s e, threads st' = alter (set_pc (Logged tmp last ls s e)) id (threads st).
Proof.
  intros Hi Hw. destruct (leading_call calls hist st id _ Hi Hw I) as (c & qc & <- & Eq & Hqc & Hlp). pose proof Hi as [Hp [Hn Hid] Hc (Hh1 & Hh2 & Hh3 & Hh4) Ho Hph Hst].
  unfold phase in Hph. rewrite Hlp in Hph. cbn [w_pc] in Hph. destruct Hph as (gc & sync' & Hch & [He Hset] & Hall & Hrep). specialize (Hrep (c_id c) ltac:(by rewrite Eq)).
  pose proof Hch as (rest & Eg & Hlast & Hgc & Hgood & Els & Htmp). pose proof Hgood as (c' & gc' & Ec & Hupd & Hsy & Hsync & Hz).
  assert (c' = c) as ->. { rewrite Forall_forall in Hgc. apply (call_unique calls); [done|by apply Hgc; rewrite Ec; apply elem_of_cons; left|by apply (Forall_inv Hqc)|]. rewrite Ec, Eq in Eg. cbn [map app] in Eg. congruence. }
  destruct (call_runs calls hist st c _ Hi (Forall_inv Hqc) Hw) as (_ & _ & Hws). cbn [w_sync] in Hws. assert (sync' = sync) as -> by congruence.
  assert (Hgcok : Forall call_ok gc) by (apply (Forall_impl _ _ _ Hgc); intros x Hx; rewrite Forall_forall in Hc; by apply (Hc x Hx)).
  set (seq := u64 (last_sequence_ st + 1)) in *. assert (Hgroup : group_ok (seq, all_updates gc)) by (split; [apply u64_range|split; [done|by apply all_updates_ok]]).
  destruct Hst as (segs & cur & Ehist & Hsegs & Hcur). pose proof Hh2 as Hgh. rewrite Ehist in Hgh. apply Forall_app in Hgh as [_ Hgcur].
  pose proof Hcur as (Hsim & _). cbn [fst snd] in Hsim.
  destruct (AddRecord_sim (map commit_bytes cur) (group_bytes (seq, all_updates gc)) (log_ st) (commit_bytes_ok _ Hgcur) (group_bytes_ok _ Hgroup) Hsim) as (log & Ea & Hs1 & Hd1).
  destruct (InsertInto_group (seq, all_updates gc) (memtable_ st) Hgroup) as (m & Ei & Em).
  assert (Hres : exists s e log' m', Write_log (c_id c) st = Some (at_pc (c_id c) (Logged tmp last ls s e) (set_log log' m' st)) /\ e = negb (ok s) /\
    sim log' (memory_writer (map commit_bytes cur ++ [group_bytes (seq, all_updates gc)])) /\ durable (dest log) <= durable (dest log') /\ (ok s = true -> sync = true -> zlen (contents (dest log)) <= durable (dest log')) /\
    entries m' = entries (memtable_ st) ++ (if ok s then group_entries (seq, all_updates gc) else [])).
  { unfold Write_log. rewrite Hw, Hrep, Ea. cbn [ok andb]. destruct sync.
    - destruct (Sync (dest log)) as [s f] eqn:Esync. destruct (Sync_durable _ _ _ Esync) as (K1 & K2 & K3). destruct Hs1 as (B1 & B2 & B3). destruct (ok s) eqn:Eok.
      + rewrite Ei. eexists OK, false, _, m. split; [reflexivity|]. split; [done|]. split; [split; [done|]; split; [done|]; cbn [dest set_dest]; by rewrite K1|]. split; [done|]. split; [by intros _ _; apply K3|done].
      + eexists s, true, _, (memtable_ st). split; [reflexivity|]. rewrite Eok. split; [done|]. split; [split; [done|]; split; [done|]; cbn [dest set_dest]; by rewrite K1|]. split; [done|]. split; [done|by rewrite app_nil_r].
    - rewrite Ei. eexists OK, false, log, m. split; [reflexivity|]. split; [done|]. split; [done|]. split; [lia|]. split; [done|done]. }
  destruct Hres as (s & e & log' & m' & -> & Ee & Hs' & Hd' & Hdur' & Em'). set (g := mkCommit gc seq s sync).
  assert (Hgg : good_commit g) by (split; [exact Hgood|split; [apply u64_range|done]]).
  eexists _, g. split; [reflexivity|]. split; [|split; [done|split; [done|by exists s, e]]].
  assert (Hids : forall x, x ∈ gc -> c_id x ∈ writers_ st) by (intros x Hx; rewrite Eg; apply elem_of_app; left; by apply (list_elem_of_fmap_2 c_id)).
  constructor; cbn [writers_ threads at_pc set_queue set_log].
  - refine (protocol_lead _ _ _ _ (Logged tmp last ls s e) Hp Hw I I _). intros l [= <-]. rewrite Eg. apply elem_of_app. left. symmetry in Hlast. by apply last_Some_elem_of in Hlast.
  - split; [done|]. intros x w' Hx. destruct (proj1 (lookup_alter_id _ _ _ x) (mk_is_Some _ _ Hx)) as [w0 Hw0]. by apply (Hid x w0).
  - apply (Forall_impl _ _ _ Hc). intros x [K1 K2]. split; [done|]. by apply runs_alter.
  - split; [apply consecutive_snoc; split; [done|]; by rewrite He|]. split; [apply Forall_app; split; [done|by constructor]|]. rewrite committed_snoc. split; [by apply Forall_app|]. apply NoDup_app. split; [done|]. split.
    + intros x Hx1 Hx2. apply (Hset x); [by apply Hids|done].
    + apply (NoDup_fmap_1 c_id). pose proof (p_nodup _ _ Hp) as Hnd. rewrite Eg in Hnd. by apply NoDup_app in Hnd as [? _].
  - intros x w' s' Hx E Es. assert (Hold : exists w0, threads st !! c_id x = Some w0 /\ result w0 = Some s').
    { destruct (decide (c_id x = c_id c)) as [Heq|Hne]; [|rewrite lookup_alter_ne in E by done; by exists w'].
      rewrite Heq, lookup_alter_eq, Hw in E. injection E as <-. rewrite Heq. eexists. split; [exact Hw|]. exact Es. }
    destruct Hold as (w0 & Hw0 & Es0). apply outcome_snoc; [by apply (Ho x w0 s')|]. intros Hxg. rewrite (no_result calls hist st x w0 Hi (Hids x Hxg) Hw0) in Es0. done.
  - unfold phase. assert (Hlp' : leader_pc (at_pc (c_id c) (Logged tmp last ls s e) (set_log log' m' st)) = Some (Logged tmp last ls s e)).
    { unfold leader_pc. cbn [writers_ threads at_pc set_queue set_log]. rewrite Eq. cbn [map head mbind option_bind]. by rewrite lookup_alter_eq, Hw. }
    rewrite Hlp'. exists gc, sync, hist. split; [by exists rest|]. split; [by split|]. split; [done|]. by split.
  - exists segs, (cur ++ [g]). rewrite Ehist, <- app_assoc. split; [done|]. split; [done|]. cbn [log_ memtable_ at_pc set_queue set_log]. apply (holds_snoc cur (log_ st, memtable_ st)); [done| | |done].
    + apply Forall_app. split; [done|]. by constructor.
    + exists log. split; [exact Ea|]. split; [by rewrite map_app|]. split; [done|exact Hdur'].
Qed.
(** ** The end of a write *)

Lemma inv_end calls hist st id sw b sync d tmp last ls s e : inv calls hist st -> threads st !! id = Some (mkDBWriter sw b sync d (Logged tmp last ls s e)) -> last_sequence_ st <= ls ->
  exists st' gc rest, Write_end id st = Some st' /\ inv calls hist st' /\ writers_ st = id :: gc ++ rest /\ writers_ st' = rest /\ last_sequence_ st' = ls.
Proof.
  intros Hi Hw Hls. destruct (leading_call calls hist st id _ Hi Hw I) as (c & qc & <- & Eq & Hqc & Hlp). pose proof Hi as [Hp Hid Hc Hh Ho Hph Hst].
  unfold phase in Hph. rewrite Hlp in Hph. cbn [w_pc] in Hph. destruct Hph as (gc & sync' & hist' & Hch & [He Hset] & Hall & Ehist & Ee).
  pose proof Hch as (rest & Eg & Hlast & Hgc & Hgood & Els & Htmp). pose proof Hgood as (c' & gc' & Ec & Hupd & Hsy & Hsync & Hz).
  assert (c' = c) as ->. { rewrite Forall_forall in Hgc. apply (call_unique calls); [by apply Hid|by apply Hgc; rewrite Ec; apply elem_of_cons; left|by apply (Forall_inv Hqc)|]. rewrite Ec, Eq in Eg. cbn [map app] in Eg. congruence. }
  set (g := mkCommit gc (u64 (last_sequence_ st + 1)) s sync') in *.
  set (st1 := if e then RecordBackgroundError s st else st). set (st2 := if tmp then set_tmp Clear st1 else st1).
  set (st3 := mkDBImpl (writers_ st2) (threads st2) (tmp_batch_ st2) (log_ st2) (memtable_ st2) (imm_ st2) ls (bg_error_ st2) (level0_files st2) (retired st2)).
  assert (E1 : writers_ st1 = writers_ st /\ threads st1 = threads st /\ tmp_batch_ st1 = tmp_batch_ st /\ last_sequence_ st1 = last_sequence_ st /\ (stored hist st -> stored hist st1) /\ (ok (bg_error_ st1) = true -> ok s = true)).
  { unfold st1, RecordBackgroundError. destruct e; [|do 5 (split; [done|]); by destruct (ok s)]. destruct (ok (bg_error_ st)) eqn:Hbg; [by do 5 (split; [done|])|]. do 5 (split; [done|]). congruence. }
  destruct E1 as (W1 & T1 & B1 & L1 & S1 & G1).
  assert (E3 : writers_ st3 = writers_ st /\ threads st3 = threads st /\ tmp_batch_ st3 = Clear /\ last_sequence_ st3 = ls /\ stored hist st3 /\ bg_error_ st3 = bg_error_ st1).
  { specialize (S1 Hst). unfold st3, st2. destruct tmp; cbn [writers_ threads tmp_batch_ last_sequence_ bg_error_ set_tmp]; rewrite ?W1, ?T1, ?B1; (do 2 (split; [done|])); [by split|]. split; [by apply Htmp|by split]. }
  destruct E3 as (W3 & T3 & B3 & L3 & S3 & G3).
  assert (Eend : Write_end (c_id c) st = Write_leave (c_id c) last s st3).
  { unfold Write_end. rewrite Hw. fold st1. fold st2. unfold SetLastSequence. assert (L2 : last_sequence_ st2 = last_sequence_ st) by (unfold st2; by destruct tmp). rewrite L2, Z.geb_leb.
    destruct (Z.leb_spec (last_sequence_ st) ls); [done|lia]. }
  destruct (inv_leave s0 calls hist st3 gc rest c (mkDBWriter sw b sync d (Logged tmp last ls s e)) last s) as (st' & El & Hi' & Hq' & Hl'); rewrite ?W3, ?T3; try done.
  - intros x w' s' Hx _ Ex Es. by apply (Ho x w' s').
  - by rewrite Ec.
  - apply Forall_forall. intros x Hx. left. exists g. split; [rewrite Ehist; apply elem_of_app; right; by apply list_elem_of_singleton|done].
  - rewrite Ehist, hist_end_snoc, L3, He, Els. done.
  - intros x Hx Hin. rewrite Ehist, committed_snoc in Hin. apply elem_of_app in Hin as [Hin|Hin]; [apply (Hset x); [rewrite Eg; apply elem_of_app; by right|done]|].
    pose proof (p_nodup _ _ Hp) as Hnd. rewrite Eg in Hnd. apply NoDup_app in Hnd as (_ & Hd & _). apply (Hd (c_id x)); [by apply (list_elem_of_fmap_2 c_id)|done].
  - intros Hbg. rewrite G3 in Hbg. rewrite Ehist. apply Forall_app. split; [done|]. constructor; [by apply G1|done].
  - exists st', (map c_id gc'), rest. rewrite Eend. split; [done|]. split; [done|]. split; [by rewrite Eg, Ec|]. split; [done|]. by rewrite Hl', L3.
Qed.

(** ** Every step *)

Lemma inv_room calls hist st lfile id st' : inv calls hist st -> (ok (fst lfile) = true -> fresh (snd lfile)) -> Write_room o lfile id st = Some st' -> inv calls hist st'.
Proof.
  intros Hi Hf E. unfold Write_room in E. destruct (threads st !! id) as [[sw b sync d p]|] eqn:Hw; [|done]. destruct p as [| |force delay| | |]; try done.
  destruct (MakeRoomForWrite_round o lfile force delay st) as [r st1] eqn:Er. apply round_cases in Er.
  assert (Hst1 : inv calls hist st1 /\ threads st1 = threads st) by (destruct Er as [[-> _]|(q & -> & Hok & ->)]; [done|]; split; [by apply inv_switch; [|by apply Hf]|done]). destruct Hst1 as [Hi1 T1].
  destruct r as [s|[f a]].
  - destruct Er as [[-> Hbg]|(q & K & _)]; [|done]. destruct (andb _ _) eqn:Eb.
    + apply andb_true_iff in Eb as [Hs Hb]. apply bool_decide_eq_true in Hb as [rep0 ->]. assert (s = OK) as -> by (by destruct s).
      destruct (inv_choose calls hist st id _ rep0 Hi Hw I I eq_refl (Hbg eq_refl)) as (tmp & tb & last & rep & ls & gc & Eb & Eg & -> & _ & _ & _ & Hi'). rewrite Eb, Eg in E. by injection E as <-.
    + destruct (inv_alone calls hist st id _ s Hi Hw I I) as (st2 & E2 & Hi2 & _); [|congruence]. apply andb_false_iff in Eb as [Hs|Hb]; [by left|right]. cbn [w_batch]. apply bool_decide_eq_false in Hb.
      destruct b; [exfalso; apply Hb; by eexists|done].
  - injection E as <-. rewrite <- T1 in Hw. refine (inv_at_pc s0 calls hist st1 id _ (MakingRoom f a) Hi1 Hw I I _ _); [|done].
    refine (protocol_lead _ _ _ _ (MakingRoom f a) (v_protocol _ _ _ _ Hi1) Hw I I _). done.
Qed.

Lemma inv_background calls hist st imm e n : inv calls hist st -> (ok e = true -> ok (bg_error_ st) = true) -> inv calls hist (set_background imm e n st).
Proof.
  intros [Hp Hid Hc Hh Ho Hph Hst] He. constructor; try done. unfold phase in *. change (leader_pc (set_background imm e n st)) with (leader_pc st).
  destruct (leader_pc st) as [[]|]; try exact Hph; destruct Hph as (K1 & K2 & K3); (split; [done|]; split; [done|]; intros Hok; by apply K3, He).
Qed.

Lemma inv_step gives calls hist st st' : fresh_files gives -> inv calls hist st -> step o gives st st' -> exists hist', inv calls (hist ++ hist') st'.
Proof.
  intros Hgives Hi Hs. destruct Hs as [st id w Hw Hpc|st id w st' Hw Hpc E|st id lfile st' Hf E|st id st' E|st id st' E|st|st n Hn|st s].
  - exists []. rewrite app_nil_r. refine (inv_at_pc s0 calls hist st id w Woken Hi Hw _ I _ _); [by rewrite Hpc| |unfold result; rewrite Hpc; done].
    exact (protocol_step o gives st _ (v_protocol _ _ _ _ Hi) (step_spurious o gives st id w Hw Hpc)).
  - exists []. rewrite app_nil_r. by apply (inv_check s0 calls hist st id w).
  - exists []. rewrite app_nil_r. apply (inv_room calls hist st lfile id st' Hi); [by apply Hgives|done].
  - destruct (threads st !! id) as [[sw b sync d p]|] eqn:Hw; [|unfold Write_log in E; by rewrite Hw in E].
    destruct p as [| | |tmp last ls| |]; try (unfold Write_log in E; by rewrite Hw in E). destruct (inv_log calls hist st id _ _ _ _ _ _ _ Hi Hw) as (st2 & g & E2 & Hi2 & _). exists [g]. congruence.
  - exists []. rewrite app_nil_r. destruct (threads st !! id) as [[sw b sync d p]|] eqn:Hw; [|unfold Write_end in E; by rewrite Hw in E].
    destruct p as [| | | |tmp last ls s e|]; try (unfold Write_end in E; by rewrite Hw in E). destruct (Z.le_gt_cases (last_sequence_ st) ls) as [Hle|Hgt].
    + destruct (inv_end calls hist st id _ _ _ _ _ _ _ _ _ Hi Hw Hle) as (st2 & gc & rest & E2 & Hi2 & _). congruence.
    + unfold Write_end in E. rewrite Hw in E. unfold SetLastSequence in E. assert (Hl : last_sequence_ (if tmp then set_tmp Clear (if e then RecordBackgroundError s st else st) else if e then RecordBackgroundError s st else st) = last_sequence_ st).
      { unfold RecordBackgroundError. destruct tmp, e; try done; by destruct (ok (bg_error_ st)). }
      rewrite Hl, Z.geb_leb in E. destruct (Z.leb_spec (last_sequence_ st) ls); [lia|done].
  - exists []. rewrite app_nil_r. by apply inv_background.
  - exists []. rewrite app_nil_r. by apply inv_background.
  - exists []. rewrite app_nil_r. unfold RecordBackgroundError. destruct (ok (bg_error_ st)) eqn:Hbg; [|done]. apply inv_background; [done|by rewrite Hbg].
Qed.

Lemma inv_opened f n : fresh f -> 0 <= n -> inv [] [] (opened f s0 n).
Proof.
  intros Hf Hn. constructor.
  - constructor; [constructor| |]; cbn; intros id; [intros Hin; by apply not_elem_of_nil in Hin|done].
  - split; [constructor|done].
  - constructor.
  - split; [done|]. split; [constructor|]. split; constructor.
  - intros c w s Hin. by apply not_elem_of_nil in Hin.
  - apply phase_quiet; [done|]. split; [done|]. split; [|constructor]. split; [done|]. intros c Hin. by apply not_elem_of_nil in Hin.
  - exists [], []. split; [done|]. split; [constructor|by apply holds_new].
Qed.
End Steps.
