(* ===== verification/LdbWriteUse.v ===== *)
(** * What concurrent writers are promised (leveldb: db/db_impl.cc)

    Everything that can be reached by calls of [Write] and steps, and the properties:
    no wakeup is lost, the writes are serialized, every call can finish. *)

From stdpp Require Import strings gmap.
From S2P Require Import Prelude Words PbWireFacts LdbCoding LdbEnv LdbLog LdbLogWrite LdbLogFacts LdbBatch LdbRecovery.
From S2P Require Import LdbWrite LdbWriteQueue LdbWriteLog LdbWriteGroup LdbWriteFacts LdbWriteSteps.

(** The calls that have been made so far, and a state they can lead to. *)
Inductive reach {F T : Type} `{WritableFile F} `{!Syncable F} `{Tables T} (o : Options) (gives : Status * F -> Prop) (st0 : DBImpl F T) : list call -> DBImpl F T -> Prop :=
| reach_opened : reach o gives st0 [] st0
| reach_call calls st c b st' : reach o gives st0 calls st -> call_ok c -> threads st !! c_id c = None -> carries (c_updates c) b ->
    Write_begin (c_id c) b (c_sync c) st = Some st' -> reach o gives st0 (calls ++ [c]) st'
| reach_step calls st st' : reach o gives st0 calls st -> step o gives st st' -> reach o gives st0 calls st'.

Section Use.
Context {F T : Type} `{DurableFile F} `{TableEntries T}.
Context (o : Options) (gives : Status * F -> Prop) (Hgives : fresh_files gives) (s0 : Z).
Implicit Types st : DBImpl F T.

Lemma reach_inv f n calls st : fresh f -> 0 <= n -> reach o gives (opened f s0 n) calls st -> exists hist, inv s0 calls hist st.
Proof.
  intros Hf Hn. induction 1 as [|calls st c b st' _ [hist IH] Hok Hnone Hcar Hb|calls st st' _ [hist IH] Hs].
  - exists []. by apply inv_opened.
  - exists hist. eapply inv_check; [by apply (inv_begin s0 calls hist st c b)| | |exact Hb]; [cbn [threads set_queue]; apply lookup_insert_eq|done].
  - destruct (inv_step o s0 gives calls hist st st' Hgives IH Hs) as [hist' Hi]. by exists (hist ++ hist').
Qed.

(** ** Sequence numbers that do not wrap *)

Lemma all_updates_app cs cs' : all_updates (cs ++ cs') = all_updates cs ++ all_updates cs'.
Proof. unfold all_updates. by rewrite map_app, concat_app. Qed.

Lemma all_updates_perm cs cs' : cs ≡ₚ cs' -> zlen (all_updates cs) = zlen (all_updates cs').
Proof.
  induction 1 as [|c cs cs' _ IH|c c' cs|cs cs' cs'' _ IH1 _ IH2]; unfold all_updates in *; cbn [map concat]; rewrite ?zlen_app; lia.
Qed.

Lemma all_updates_sub cs calls : NoDup cs -> Forall (.∈ calls) cs -> zlen (all_updates cs) <= zlen (all_updates calls).
Proof.
  intros Hn Hin. rewrite Forall_forall in Hin. apply NoDup_submseteq in Hin; [|done]. apply submseteq_Permutation in Hin as [k Hk].
  rewrite (all_updates_perm _ _ Hk), all_updates_app, zlen_app. zlen_pos. lia.
Qed.

Lemma hist_end_value hist : 0 <= s0 -> s0 + zlen (all_updates (committed hist)) < 2 ^ 64 -> hist_end s0 hist = s0 + zlen (all_updates (committed hist)).
Proof.
  intros H0s. induction hist as [|g hist IH] using rev_ind; intros Hl; [change (s0 = s0 + 0); lia|]. rewrite committed_snoc, all_updates_app, zlen_app in *. zlen_pos. rewrite hist_end_snoc, IH by lia.
  unfold next_sequence, u64. rewrite Z.mod_small; lia.
Qed.

(** ** Progress *)

Lemma steps_trans st st1 st2 : steps o gives st st1 -> steps o gives st1 st2 -> steps o gives st st2.
Proof. induction 1; [done|]. intros Hs. eapply steps_next; [done|auto]. Qed.
Lemma steps_one st st1 : step o gives st st1 -> steps o gives st st1.
Proof. intros Hs. eapply steps_next; [done|constructor]. Qed.

Context (calls : list call) (Hs0 : 0 <= s0) (Hbound : s0 + zlen (all_updates calls) < 2 ^ 64).
Context (lfile : Status * F) (Hlfile : gives lfile) (Hfit : ApproximateMemoryUsage (new_table : T) <= write_buffer_size o).

(** The queue gets shorter. *)
Definition progress st : Prop := exists hist' st', steps o gives st st' /\ inv s0 calls hist' st' /\ (length (writers_ st') < length (writers_ st))%nat.

Lemma progress_step hist st st1 : step o gives st st1 -> writers_ st1 = writers_ st -> inv s0 calls hist st1 -> progress st1 -> progress st.
Proof. intros Hs Hq _ (hist' & st' & K1 & K2 & K3). exists hist', st'. split; [by eapply steps_next|]. split; [done|]. by rewrite <- Hq. Qed.

Lemma progress_logged hist st id sw b sync d tmp last ls s e : inv s0 calls hist st -> threads st !! id = Some (mkDBWriter sw b sync d (Logged tmp last ls s e)) -> progress st.
Proof.
  intros Hi Hw. destruct (leading_call s0 calls hist st id _ Hi Hw I) as (c & qc & _ & _ & _ & Hlp). pose proof (v_phase _ _ _ _ Hi) as Hph. unfold phase in Hph. rewrite Hlp in Hph. cbn [w_pc] in Hph.
  destruct Hph as (gc & sync' & hist' & (_ & _ & _ & _ & _ & Els & _) & [He _] & _ & Eh & _). destruct (v_hist _ _ _ _ Hi) as (_ & _ & Hin & Hnd).
  assert (Hls : last_sequence_ st <= ls).
  { pose proof (all_updates_sub _ _ Hnd Hin) as Hsub. rewrite Eh, committed_snoc, all_updates_app, zlen_app in Hsub. cbn [g_calls] in Hsub. zlen_pos. rewrite (hist_end_value hist') in He by lia.
    rewrite Els, <- He. unfold u64. rewrite Z.mod_small; lia. }
  destruct (inv_end s0 calls hist st id _ _ _ _ _ _ _ _ _ Hi Hw Hls) as (st' & gq & rest & E & Hi' & Eq & Eq' & _).
  exists hist, st'. split; [apply steps_one; by apply step_end with id|]. split; [done|]. rewrite Eq, Eq'. cbn [length]. rewrite length_app. lia.
Qed.

Lemma progress_logging hist st id sw b sync d tmp last ls : inv s0 calls hist st -> threads st !! id = Some (mkDBWriter sw b sync d (Logging tmp last ls)) -> progress st.
Proof.
  intros Hi Hw. destruct (inv_log s0 calls hist st id _ _ _ _ _ _ _ Hi Hw) as (st' & g & E & Hi' & Eq & _ & s & e & Et).
  apply (progress_step (hist ++ [g]) st st'); [by apply step_log with id|done|done|]. eapply (progress_logged _ st' id); [exact Hi'|]. rewrite Et, lookup_alter_eq, Hw. reflexivity.
Qed.

Lemma progress_room_done hist st id sw b sync d force delay s : inv s0 calls hist st -> threads st !! id = Some (mkDBWriter sw b sync d (MakingRoom force delay)) ->
  MakeRoomForWrite_round o lfile force delay st = (inl s, st) -> progress st.
Proof.
  intros Hi Hw Er.
  assert (Hbg : s = OK -> ok (bg_error_ st) = true) by (intros ->; apply round_cases in Er as [[_ K]|(q & K & _)]; [by apply K|done]).
  destruct (ok s && bool_decide (is_Some b))%bool eqn:Ebr.
  - apply andb_true_iff in Ebr as [Hs Hb]. apply bool_decide_eq_true in Hb as [rep0 ->]. assert (s = OK) as -> by (by destruct s).
    destruct (inv_choose s0 calls hist st id _ rep0 Hi Hw I I eq_refl (Hbg eq_refl)) as (tmp & tb & last & rep & ls & gc & Eb & Eg & Els & _ & _ & _ & Hi').
    eapply progress_step; [eapply step_room; [exact Hlfile|unfold Write_room; rewrite Hw, Er; cbn [ok andb]; rewrite bool_decide_eq_true_2 by (by eexists); rewrite Eb, Eg, <- Els; reflexivity]|by destruct tmp|exact Hi'|].
    destruct tmp; cbn [set_write_batch] in *; (eapply progress_logging; [exact Hi'|cbn [threads at_pc set_queue set_tmp]; rewrite ?lookup_alter_eq, Hw; reflexivity]).
  - destruct (inv_alone s0 calls hist st id _ s Hi Hw I I) as (st' & El & Hi' & Eq & _).
    { apply andb_false_iff in Ebr as [Hs|Hb]; [by left|right]. cbn [w_batch]. apply bool_decide_eq_false in Hb. destruct b; [exfalso; apply Hb; by eexists|done]. }
    exists hist, st'. split; [apply steps_one; apply step_room with id lfile; [done|]; unfold Write_room; rewrite Hw, Er, Ebr; exact El|]. split; [done|]. rewrite Eq.
    destruct (leading_call s0 calls hist st id _ Hi Hw I) as (c & qc & _ & -> & _). cbn [map tail length]. lia.
Qed.
Lemma progress_room hist st id sw b sync d force delay : inv s0 calls hist st -> threads st !! id = Some (mkDBWriter sw b sync d (MakingRoom force delay)) ->
  imm_ st = None -> level0_files st = 0 -> progress st.
Proof.
  intros Hi Hw Himm Hl0. destruct (MakeRoomForWrite_round o lfile force delay st) as [r st1] eqn:Er. pose proof Er as Ec. apply round_cases in Ec. destruct r as [s|[f a]].
  - destruct Ec as [[-> _]|(q & K & _)]; [|done]. by apply (progress_room_done hist st id sw b sync d force delay s).
  - assert (Hroom : Write_room o lfile id st = Some (at_pc id (MakingRoom f a) st1)) by (unfold Write_room; by rewrite Hw, Er).
    pose proof (inv_room o s0 calls hist st lfile id _ Hi (Hgives _ Hlfile) Hroom) as Hi1.
    assert (Hr : f = false /\ exists f0, st1 = switch f0 st /\ ok (bg_error_ st) = true).
    { clear Hroom Hi1 Ec. unfold MakeRoomForWrite_round in Er. rewrite Himm, Hl0 in Er. change (0 >=? kL0_SlowdownWritesTrigger) with false in Er. change (0 >=? kL0_StopWritesTrigger) with false in Er.
      rewrite andb_false_r in Er. destruct (ok (bg_error_ st)); cbn [negb] in Er; [|done]. destruct (negb force && _)%bool; [done|]. rewrite bool_decide_eq_false_2 in Er by (by intros [? ?]).
      destruct lfile as [s f0]. destruct (ok s); cbn [negb] in Er; [|done]. injection Er as <- <- <-. split; [done|]. by exists f0. }
    destruct Hr as (-> & f0 & -> & Hbg). apply (progress_step hist st (at_pc id (MakingRoom false a) (switch f0 st))); [by apply step_room with id lfile|done|done|].
    eapply (progress_room_done hist _ id sw b sync d false a OK); [done|cbn [threads at_pc set_queue switch]; by rewrite lookup_alter_eq, Hw|].
    unfold MakeRoomForWrite_round. cbn [bg_error_ level0_files memtable_ at_pc set_queue switch]. rewrite Hbg, Hl0. change (0 >=? kL0_SlowdownWritesTrigger) with false. rewrite andb_false_r. cbn [negb andb].
    destruct (Z.leb_spec (ApproximateMemoryUsage (new_table : T)) (write_buffer_size o)); [done|lia].
Qed.

(** The compactions of the background, then the writer at the front. *)
Lemma progress_front hist st : inv s0 calls hist st -> writers_ st <> [] -> progress st.
Proof.
  intros Hi Hne. set (st1 := set_background None (bg_error_ st) (level0_files st) st). set (st2 := set_background (imm_ st1) (bg_error_ st1) 0 st1).
  assert (Hi1 : inv s0 calls hist st1) by (by apply inv_background). assert (Hi2 : inv s0 calls hist st2) by (by apply inv_background).
  apply (progress_step hist st st1); [constructor|done|done|]. apply (progress_step hist st1 st2); [by constructor|done|done|].
  destruct (writers_ st) as [|id q] eqn:Eq; [done|]. assert (Hhd : head (writers_ st2) = Some id) by (change (writers_ st2) with (writers_ st); by rewrite Eq).
  destruct (p_queued _ _ (v_protocol _ _ _ _ Hi2) id (head_in _ _ Hhd)) as ([sw b sync d p] & Hw & Hd & Hnr & Hna & _). cbn [w_done w_pc] in *. specialize (Hna Hhd). subst d.
  destruct p as [| |force delay|tmp last ls|tmp last ls s e|s]; [done| | | | |by destruct Hnr].
  - set (force := bool_decide (b = None)). set (st3 := at_pc id (MakingRoom force (negb force)) st2).
    assert (Hc : Write_check id st2 = Some st3) by (unfold Write_check; rewrite Hw; cbn [w_done]; rewrite bool_decide_eq_true_2 by done; reflexivity).
    assert (Hi3 : inv s0 calls hist st3) by (by eapply inv_check; [exact Hi2|exact Hw| |exact Hc]).
    apply (progress_step hist st2 st3); [by eapply step_wake; [exact Hw| |exact Hc]|done|done|].
    eapply (progress_room hist st3 id sw b sync false); [done|unfold st3; cbn [threads at_pc set_queue]; by rewrite lookup_alter_eq, Hw|done|done].
  - by apply (progress_room hist st2 id sw b sync false force delay).
  - by apply (progress_logging hist st2 id sw b sync false tmp last ls).
  - by apply (progress_logged hist st2 id sw b sync false tmp last ls s e).
Qed.

Lemma empty_queue n hist st : inv s0 calls hist st -> (length (writers_ st) <= n)%nat -> exists hist' st', steps o gives st st' /\ inv s0 calls hist' st' /\ writers_ st' = [].
Proof.
  revert hist st. induction n as [|n IH]; intros hist st Hi Hl; (destruct (decide (writers_ st = [])) as [Hnil|Hcons]; [exists hist, st; split; [constructor|done]|]).
  - destruct (writers_ st); [done|cbn in Hl; lia].
  - destruct (progress_front hist st Hi Hcons) as (hist1 & st1 & K1 & K2 & K3). destruct (IH hist1 st1 K2 ltac:(lia)) as (hist2 & st2 & K4 & K5 & K6). exists hist2, st2. split; [by eapply steps_trans|done].
Qed.

(** The threads that have been told return. *)
Lemma drain (ids : list nat) hist st : inv s0 calls hist st -> writers_ st = [] -> exists st', steps o gives st st' /\ inv s0 calls hist st' /\ writers_ st' = [] /\
  forall id w, threads st' !! id = Some w -> returned (w_pc w) \/ (id ∉ ids).
Proof.
  intros Hi Hq. induction ids as [|id ids IH]; [exists st; split; [constructor|]; split; [done|]; split; [done|]; intros id w _; right; by apply not_elem_of_nil|].
  destruct IH as (st1 & K1 & K2 & K3 & K4). destruct (threads st1 !! id) as [w|] eqn:Hw.
  - destruct (p_left _ _ (v_protocol _ _ _ _ K2) id w Hw) as [[Hd Hpc]|Hr]; [rewrite K3; by apply not_elem_of_nil| |].
    + assert (Hc : Write_check id st1 = Some (at_pc id (Returned (w_status w)) st1)) by (unfold Write_check; by rewrite Hw, Hd).
      exists (at_pc id (Returned (w_status w)) st1). split; [eapply steps_trans; [exact K1|]; apply steps_one; by eapply step_wake|]. split; [by eapply inv_check|]. split; [done|].
      intros x wx Hx. cbn [threads at_pc set_queue] in Hx. destruct (decide (x = id)) as [->|Hne].
      * rewrite lookup_alter_eq, Hw in Hx. injection Hx as <-. by left.
      * rewrite lookup_alter_ne in Hx by done. destruct (K4 x wx Hx) as [K|K]; [by left|right]. rewrite elem_of_cons. naive_solver.
    + exists st1. do 3 (split; [done|]). intros x wx Hx. destruct (K4 x wx Hx) as [K|K]; [by left|]. destruct (decide (x = id)) as [->|Hne]; [left; congruence|right]. rewrite elem_of_cons. naive_solver.
  - exists st1. do 3 (split; [done|]). intros x wx Hx. destruct (K4 x wx Hx) as [K|K]; [by left|]. right. rewrite elem_of_cons. intros [->|?]; [congruence|done].
Qed.

Lemma all_return hist st : inv s0 calls hist st -> exists st', steps o gives st st' /\ forall id w, threads st' !! id = Some w -> returned (w_pc w).
Proof.
  intros Hi. destruct (empty_queue _ hist st Hi (le_n _)) as (hist1 & st1 & K1 & K2 & K3). destruct (drain (map c_id calls) hist1 st1 K2 K3) as (st2 & K4 & K5 & _ & K6).
  exists st2. split; [by eapply steps_trans|]. intros id w Hw. destruct (K6 id w Hw) as [K|K]; [done|]. exfalso. apply K. by apply (proj2 (v_ids _ _ _ _ K5) id w).
Qed.
End Use.

(** ** The protocol alone *)

Lemma reach_protocol {F T : Type} `{WritableFile F} `{!Syncable F} `{Tables T} o gives (f : F) s0 n calls (st : DBImpl F T) :
  reach o gives (opened f s0 n) calls st -> protocol (writers_ st) (threads st).
Proof.
  induction 1 as [|calls st c b st' _ IH Hok Hnone Hcar Hb|calls st st' _ IH Hs].
  - constructor; [constructor| |]; cbn; intros id; [intros Hin; by apply not_elem_of_nil in Hin|done].
  - refine (protocol_check (c_id c) (mkDBWriter OK b (c_sync c) false Woken) (set_queue _ _ st) st' _ _ eq_refl Hb); [exact (protocol_begin _ _ (c_id c) b (c_sync c) IH Hnone)|].
    cbn [threads set_queue]. apply lookup_insert_eq.
  - by apply (protocol_step o gives st).
Qed.

(** ** Properties *)

(** C17. Mutual exclusion, and no wakeup is lost, whatever the calls of [Write], the files,
    the tables and the order of the steps: only the first writer of the queue makes room,
    writes or syncs; it has not been completed by another, and it never sleeps; and a
    writer that has been taken off the queue has returned, or has been completed and is
    awake to return. *)
Theorem no_lost_wakeup {F T : Type} `{WritableFile F} `{!Syncable F} `{Tables T} o gives (f : F) s0 n calls (st : DBImpl F T) :
  reach o gives (opened f s0 n) calls st ->
  (forall id w, threads st !! id = Some w -> leading (w_pc w) -> head (writers_ st) = Some id) /\
  (forall id, head (writers_ st) = Some id -> exists w, threads st !! id = Some w /\ w_done w = false /\ w_pc w <> Asleep) /\
  (forall id w, threads st !! id = Some w -> id ∉ writers_ st -> (w_done w = true /\ w_pc w = Woken) \/ returned (w_pc w)).
Proof.
  intros Hr. pose proof (reach_protocol _ _ _ _ _ _ _ Hr) as Hp. split; [|split].
  - intros id w Hw Hl. by apply (leading_first _ _ id w Hp).
  - intros id Hh. destruct (p_queued _ _ Hp id (head_in _ _ Hh)) as (w & Hw & Hd & _ & Ha & _). exists w. auto.
  - intros id w Hw Hn. by apply (p_left _ _ Hp id w).
Qed.

(** C1. However the calls of [Write] interleave, the database behaves as if groups of
    calls were committed one after another: there is such a history, in which no call
    is twice, the updates of a group stand in the order of its calls under consecutive
    sequence numbers that follow those of the group before, and no group whose leader
    does not sync has a call that asked for it. A call that has returned has the status
    of the group it is in; one that is in no group had no updates, or got an error. Every
    log holds exactly the batches of the groups that were committed while it was in use,
    every table exactly the updates of those that succeeded, in order; and the log up to
    the batch of a group that was synced and succeeded is durable. *)
Theorem writes_are_serialized {F T : Type} `{DurableFile F} `{TableEntries T} o gives (f : F) s0 n calls (st : DBImpl F T) :
  fresh_files gives -> fresh f -> 0 <= n -> reach o gives (opened f s0 n) calls st ->
  exists hist, NoDup (committed hist) /\ Forall (.∈ calls) (committed hist) /\ consecutive s0 hist /\ Forall good_commit hist /\
    (forall c w s, c ∈ calls -> threads st !! c_id c = Some w -> w_pc w = Returned s -> outcome hist c s) /\ stored hist st.
Proof.
  intros Hg Hf Hn Hr. destruct (reach_inv o gives Hg s0 f n calls st Hf Hn Hr) as [hist Hi]. destruct (v_hist _ _ _ _ Hi) as (H1' & H2' & H3' & H4'). exists hist.
  do 4 (split; [done|]). split; [|by apply (v_stored _ _ _ _ Hi)]. intros c w s Hin Hw Hpc. apply (v_out _ _ _ _ Hi c w s Hin Hw). unfold result. by rewrite Hpc.
Qed.

(** C19. Every call of [Write] can return, from every state that can be reached: whatever
    new file the environment gives (good or an error), there are steps of the writers and
    of the compactions after which all calls have returned, and no assertion of the code
    stops them, as long as the sequence numbers fit 64 bits and an empty table is not
    full. *)
Theorem writers_can_return {F T : Type} `{DurableFile F} `{TableEntries T} o gives (f : F) s0 n calls (st : DBImpl F T) lfile :
  fresh_files gives -> fresh f -> 0 <= n -> gives lfile -> ApproximateMemoryUsage (new_table : T) <= write_buffer_size o ->
  0 <= s0 -> s0 + zlen (all_updates calls) < 2 ^ 64 -> reach o gives (opened f s0 n) calls st ->
  exists st', steps o gives st st' /\ forall id w, threads st' !! id = Some w -> returned (w_pc w).
Proof.
  intros Hg Hf Hn Hl Hfit Hs0 Hb Hr. destruct (reach_inv o gives Hg s0 f n calls st Hf Hn Hr) as [hist Hi].
  exact (all_return o gives Hg s0 calls Hs0 Hb lfile Hl Hfit hist st Hi).
Qed.

(** ** Witnesses: two calls, of which the first leads *)

Definition disk_gives : Status * disk -> Prop := fun lfile => lfile = (OK, mkDisk [] 0).
Definition first_call : call := mkCall 7 (Some [UPut [1] [2]]) true.
Definition second_call : call := mkCall 8 (Some [UDelete [1]]) false.
Definition sample_start : DBImpl disk (list entry) := opened (mkDisk [] 0) 0 0.
Definition sample_state : DBImpl disk (list entry) :=
  default sample_start (Write_begin 7 (Some (batch 0 1 [UPut [1] [2]])) true sample_start ≫= Write_begin 8 (Some (batch 0 1 [UDelete [1]])) false).

Lemma disk_gives_fresh : fresh_files disk_gives.
Proof. by intros lfile -> _. Qed.

Lemma sample_reached : reach (mkOptions true 100) disk_gives sample_start [first_call; second_call] sample_state.
Proof.
  apply (reach_call _ _ _ [first_call] (default sample_start (Write_begin 7 (Some (batch 0 1 [UPut [1] [2]])) true sample_start)) second_call (Some (batch 0 1 [UDelete [1]])));
    [|split; [done|by repeat constructor]|done|by exists 0|done].
  apply (reach_call _ _ _ [] sample_start first_call (Some (batch 0 1 [UPut [1] [2]]))); [constructor|split; [done|by repeat constructor]|done|by exists 0|done].
Qed.

Lemma no_lost_wakeup_witness : head (writers_ sample_state) = Some 7%nat /\ exists w, threads sample_state !! 7%nat = Some w /\ w_done w = false /\ w_pc w <> Asleep.
Proof. split; [reflexivity|]. exact (proj1 (proj2 (no_lost_wakeup _ _ _ _ _ _ _ sample_reached)) 7%nat eq_refl). Defined.

Lemma writes_are_serialized_witness : exists hist, NoDup (committed hist) /\ Forall (.∈ [first_call; second_call]) (committed hist) /\ consecutive 0 hist /\ Forall good_commit hist /\
    (forall c w s, c ∈ [first_call; second_call] -> threads sample_state !! c_id c = Some w -> w_pc w = Returned s -> outcome hist c s) /\ stored hist sample_state.
Proof. exact (writes_are_serialized _ _ _ 0 0 _ _ disk_gives_fresh (eq_refl : fresh (mkDisk [] 0)) (Z.le_refl 0) sample_reached). Defined.

Lemma writers_can_return_witness : exists st', steps (mkOptions true 100) disk_gives sample_state st' /\ forall id w, threads st' !! id = Some w -> returned (w_pc w).
Proof.
  refine (writers_can_return _ _ _ 0 0 _ _ (OK, mkDisk [] 0) disk_gives_fresh (eq_refl : fresh (mkDisk [] 0)) (Z.le_refl 0) eq_refl _ (Z.le_refl 0) _ sample_reached); [discriminate|reflexivity].
Defined.
