(* ===== verification/LdbSkipList.v ===== *)
(** * The skip list (leveldb: db/skiplist.h, util/random.h)

    A [Node*] is the number of the node in the order of allocation, the head first; nodes
    are never freed. A link that has not been stored to has no value. Readers run without
    locks while one writer inserts: a search is given the memory that each of its loads
    finds, and an insertion gives the memory after each of its stores. *)

From stdpp Require Import list.
From S2P Require Import Prelude.

(** ** The random number generator

    The object is its seed. *)

Definition Random_new (s : Z) : Z :=
  let seed_ := s .& 0x7fffffff in
  if (seed_ =? 0) || (seed_ =? 2147483647) then 1 else seed_.

Definition Random_Next (seed_ : Z) : Z * Z :=
  let M := 2147483647 in
  let A := 16807 in
  let product := u64 (seed_ * A) in
  let seed_ := u32 ((product ≫ 31) + (product .& M)) in
  let seed_ := if seed_ >? M then u32 (seed_ - M) else seed_ in
  (seed_, seed_).

Definition Random_Uniform (n seed_ : Z) : Z * Z := let '(r, seed_) := Random_Next seed_ in (r mod u32 n, seed_).
Definition Random_OneIn (n seed_ : Z) : bool * Z := let '(r, seed_) := Random_Next seed_ in (r mod u32 n =? 0, seed_).
Definition Random_Skewed (max_log seed_ : Z) : Z * Z :=
  let '(r, seed_) := Random_Uniform (max_log + 1) seed_ in
  Random_Uniform (1 ≪ r) seed_.

(** The reduction modulo [2^31 - 1] by a shift and a sum is exact for every seed, so that
    the generator is the multiplicative one of its comment. *)

(** A seed that is neither 0 nor the modulus. *)
Definition seed_ok (seed : Z) : Prop := 1 <= seed < 2147483647.

Lemma Random_new_ok s : 0 <= s < 2 ^ 32 -> seed_ok (Random_new s).
Proof.
  intros Hs. unfold Random_new, seed_ok. replace (s .& 0x7fffffff) with (s mod 2147483648) by (symmetry; apply (land_ones_mod s 31); lia).
  pose proof (Z.mod_pos_bound s 2147483648 ltac:(lia)).
  destruct (Z.eqb_spec (s mod 2147483648) 0), (Z.eqb_spec (s mod 2147483648) 2147483647); cbn [orb]; lia.
Qed.

(** A product of a seed and the factor is no multiple of the modulus. *)
Lemma product_not_zero seed : seed_ok seed -> (seed * 16807) mod 2147483647 <> 0.
Proof.
  unfold seed_ok. intros Hs E. apply Z.mod_divide in E as [q E]; [|lia].
  assert (Hb : 1407677000 * 16807 - 11017 * 2147483647 = 1) by reflexivity.
  assert (seed = 2147483647 * (q * 1407677000 - seed * 11017)) by lia. lia.
Qed.

Lemma Random_Next_value seed : seed_ok seed -> Random_Next seed = ((seed * 16807) mod 2147483647, (seed * 16807) mod 2147483647).
Proof.
  intros Hs. unfold seed_ok in Hs. pose proof (product_not_zero seed Hs) as Hn. unfold Random_Next. cbv zeta. unfold u64.
  rewrite (Z.mod_small (seed * 16807)) by lia. assert (Hv : 16807 <= seed * 16807 < 16807 * 2147483647) by lia. revert Hv Hn.
  generalize (seed * 16807). intros v Hv Hn. replace (v .& 2147483647) with (v mod 2147483648) by (symmetry; apply (land_ones_mod v 31); lia).
  rewrite Z.shiftr_div_pow2 by lia. change (2 ^ 31) with 2147483648. unfold u32. rewrite (Z.mod_small (v / 2147483648 + v mod 2147483648)) by dlia.
  rewrite Z.gtb_ltb. destruct (Z.ltb_spec 2147483647 (v / 2147483648 + v mod 2147483648)); [rewrite Z.mod_small by dlia|]; f_equal; dlia.
Qed.

Lemma Random_Next_ok seed r seed' : seed_ok seed -> Random_Next seed = (r, seed') -> seed_ok seed' /\ 0 <= r < 2 ^ 32.
Proof.
  intros Hs. rewrite Random_Next_value by done. intros [= <- <-]. pose proof (product_not_zero seed Hs) as Hn. revert Hn. generalize (seed * 16807). intros v Hn.
  unfold seed_ok. dlia.
Qed.

(** The generator of Park and Miller: after [n] steps, and never at 0, which would repeat
    itself for ever. *)
Theorem random_is_multiplicative s n : 0 <= s < 2 ^ 32 ->
  let seed := Nat.iter n (fun seed => snd (Random_Next seed)) (Random_new s) in
  seed = (Random_new s * 16807 ^ Z.of_nat n) mod 2147483647 /\ seed_ok seed.
Proof.
  intros Hs. cbv zeta. pose proof (Random_new_ok s Hs) as H0. revert H0. generalize (Random_new s) as seed. clear Hs. intros seed H0.
  induction n as [|n [IH1 IH2]]; [unfold seed_ok in H0; cbn [Nat.iter nat_rect]; rewrite Z.mul_1_r, Z.mod_small by lia; done|].
  cbn [Nat.iter nat_rect]. change (nat_rect _ _ _ n) with (Nat.iter n (fun seed => snd (Random_Next seed)) seed). set (x := Nat.iter n _ seed) in *.
  destruct (Random_Next x) as [r y] eqn:E. destruct (Random_Next_ok x r y IH2 E) as [Hy _]. split; [|done]. rewrite Random_Next_value in E by done.
  injection E as _ <-. cbn [snd]. rewrite IH1, Zmult_mod_idemp_l, Nat2Z.inj_succ, Z.pow_succ_r by lia. f_equal. lia.
Qed.

Lemma random_is_multiplicative_witness :
  Nat.iter 5 (fun seed => snd (Random_Next seed)) (Random_new 0xdeadbeef) = (Random_new 0xdeadbeef * 16807 ^ 5) mod 2147483647.
Proof. apply (random_is_multiplicative 0xdeadbeef 5). lia. Defined.

(** ** State *)

Abbreviation ptr := (option nat).

Record Node (Key : Type) := mkNode { key : option Key; next_ : list (option ptr) }.
Arguments mkNode {Key}. Arguments key {Key}. Arguments next_ {Key}.

Record SkipList (Key : Type) := mkSkipList { nodes : list (Node Key); max_height_ : nat; rnd_ : Z }.
Arguments mkSkipList {Key}. Arguments nodes {Key}. Arguments max_height_ {Key}. Arguments rnd_ {Key}.

Definition kMaxHeight : nat := 12.
Definition head_ : nat := 0.

Section SkipList.
Context {Key : Type} (compare_ : Key -> Key -> Z).
Implicit Types (s : SkipList Key) (k : Key).

Definition GetMaxHeight s : nat := max_height_ s.
Definition Equal (a b : Key) : bool := compare_ a b =? 0.

(** [node->key]; the head has none. *)
Definition node_key s (x : nat) : option Key := nodes s !! x ≫= key.

(** Loads and stores of a link; [None]: outside of the node or of its links, or a link
    that has no value yet. *)
Definition Next s (x n : nat) : option ptr := nodes s !! x ≫= fun node => next_ node !! n ≫= id.
Definition SetNext s (x n : nat) (v : ptr) : option (SkipList Key) :=
  node ← nodes s !! x;
  if decide (n < length (next_ node))%nat
  then Some (mkSkipList (<[x := mkNode (key node) (<[n := Some v]> (next_ node))]> (nodes s)) (max_height_ s) (rnd_ s)) else None.
Definition NoBarrier_Next s (x n : nat) : option ptr := Next s x n.
Definition NoBarrier_SetNext s (x n : nat) (v : ptr) : option (SkipList Key) := SetNext s x n v.

(** The address of the new node, and the memory with it. *)
Definition NewNode s (k : option Key) (height : nat) : nat * SkipList Key :=
  (length (nodes s), mkSkipList (nodes s ++ [mkNode k (replicate height None)]) (max_height_ s) (rnd_ s)).

Fixpoint RandomHeight_loop (fuel height : nat) (rnd : Z) : nat * Z :=
  match fuel with
  | O => (height, rnd)
  | S fuel =>
      if (height <? kMaxHeight)%nat then
        let '(r, rnd) := Random_Next rnd in
        if r mod 4 =? 0 then RandomHeight_loop fuel (S height) rnd else (height, rnd)
      else (height, rnd)
  end.
Definition RandomHeight (rnd : Z) : nat * Z := RandomHeight_loop kMaxHeight 1 rnd.

(** ** Searches

    [view n] is the memory that the [n]-th load finds. *)

Definition KeyIsAfterNode s k (n : ptr) : option bool :=
  match n with None => Some false | Some n => k' ← node_key s n; Some (compare_ k' k <? 0) end.

(** [prev]: null, or an array whose elements have no value at first. *)
Abbreviation prev_array := (option (list (option nat))).
Definition set_prev (prev : prev_array) (level x : nat) : prev_array := a ← prev; Some (<[level := Some x]> a).

Section Loads.
Context (view : nat -> SkipList Key).

Fixpoint FindGreaterOrEqual_loop (fuel n : nat) k (prev : prev_array) (x level : nat) : option (ptr * prev_array) :=
  match fuel with
  | O => None
  | S fuel =>
      next ← Next (view n) x level;
      after ← KeyIsAfterNode (view n) k next;
      if after : bool then x ← next; FindGreaterOrEqual_loop fuel (S n) k prev x level
      else
        let prev := set_prev prev level x in
        match level with
        | O => Some (next, prev)
        | S level => FindGreaterOrEqual_loop fuel (S n) k prev x level
        end
  end.
Definition FindGreaterOrEqual (fuel height : nat) k (prev : prev_array) : option (ptr * prev_array) :=
  FindGreaterOrEqual_loop fuel 0 k prev head_ (height - 1).

Fixpoint FindLessThan_loop (fuel n : nat) k (x level : nat) : option nat :=
  match fuel with
  | O => None
  | S fuel =>
      asserted ← (if (x =? head_)%nat then Some true else kx ← node_key (view n) x; Some (compare_ kx k <? 0));
      next ← (if asserted : bool then Next (view n) x level else None);
      stop ← match next with None => Some true | Some y => ky ← node_key (view n) y; Some (compare_ ky k >=? 0) end;
      if stop : bool then match level with O => Some x | S level => FindLessThan_loop fuel (S n) k x level end
      else x ← next; FindLessThan_loop fuel (S n) k x level
  end.
Definition FindLessThan (fuel height : nat) k : option nat := FindLessThan_loop fuel 0 k head_ (height - 1).

Fixpoint FindLast_loop (fuel n x level : nat) : option nat :=
  match fuel with
  | O => None
  | S fuel =>
      next ← Next (view n) x level;
      match next with
      | None => match level with O => Some x | S level => FindLast_loop fuel (S n) x level end
      | Some x => FindLast_loop fuel (S n) x level
      end
  end.
Definition FindLast (fuel height : nat) : option nat := FindLast_loop fuel 0 head_ (height - 1).

Definition Contains (fuel height : nat) k : option bool :=
  '(x, _) ← FindGreaterOrEqual fuel height k None;
  match x with None => Some false | Some x => kx ← node_key (view fuel) x; Some (Equal k kx) end.

(** The iterator is its [node_]. *)
Definition Iterator_Valid (node_ : ptr) : bool := match node_ with Some _ => true | None => false end.
Definition Iterator_key (node_ : ptr) : option Key := x ← node_; node_key (view 0) x.
Definition Iterator_Next (node_ : ptr) : option ptr := x ← node_; Next (view 0) x 0.
Definition Iterator_Prev (fuel height : nat) (node_ : ptr) : option ptr :=
  x ← node_; k ← node_key (view 0) x;
  node ← FindLessThan fuel height k;
  Some (if (node =? head_)%nat then None else Some node).
Definition Iterator_Seek (fuel height : nat) k : option ptr := '(x, _) ← FindGreaterOrEqual fuel height k None; Some x.
Definition Iterator_SeekToFirst : option ptr := Next (view 0) head_ 0.
Definition Iterator_SeekToLast (fuel height : nat) : option ptr :=
  node ← FindLast fuel height;
  Some (if (node =? head_)%nat then None else Some node).
End Loads.

(** ** The list and its insertion *)

Fixpoint SkipList_init (n : nat) s : option (SkipList Key) :=
  match n with
  | O => Some s
  | S n => s ← SkipList_init n s; SetNext s head_ n None
  end.
Definition SkipList_new : option (SkipList Key) :=
  SkipList_init kMaxHeight (snd (NewNode (mkSkipList [] 1 (Random_new 0xdeadbeef)) None kMaxHeight)).

(** Enough loads for a search while nobody inserts. *)
Definition loads s : nat := kMaxHeight + length (nodes s).

(** The stores to the links, from level [i] on: the memory after each, and after all. *)
Fixpoint Insert_links (n i x : nat) (prev : list (option nat)) s : option (list (SkipList Key) * SkipList Key) :=
  match n with
  | O => Some ([], s)
  | S n =>
      p ← prev !! i ≫= id;
      next ← NoBarrier_Next s p i;
      s1 ← NoBarrier_SetNext s x i next;
      s2 ← SetNext s1 p i (Some x);
      '(later, s') ← Insert_links n (S i) x prev s2;
      Some (s1 :: s2 :: later, s')
  end.

Definition Insert s k : option (list (SkipList Key) * SkipList Key) :=
  '(x, prev) ← FindGreaterOrEqual (fun _ => s) (loads s) (GetMaxHeight s) k (Some (replicate kMaxHeight None));
  prev ← prev;
  absent ← match x with None => Some true | Some x => kx ← node_key s x; Some (negb (Equal k kx)) end;
  if absent : bool then
    let '(height, rnd) := RandomHeight (rnd_ s) in
    let '(prev, max_height, raised) :=
      if (GetMaxHeight s <? height)%nat
      then (foldr (fun i prev => <[i := Some head_]> prev) prev (seq (GetMaxHeight s) (height - GetMaxHeight s)), height, [mkSkipList (nodes s) height rnd])
      else (prev, max_height_ s, []) in
    let s := mkSkipList (nodes s) max_height rnd in
    let '(x, s) := NewNode s (Some k) height in
    '(later, s') ← Insert_links height 0 x prev s;
    Some (raised ++ s :: later, s')
  else None.

(** One writer's insertions, one after another. *)
Fixpoint Inserts s (ks : list Key) : option (list (SkipList Key) * SkipList Key) :=
  match ks with
  | [] => Some ([], s)
  | k :: ks => '(now, s) ← Insert s k; '(later, s') ← Inserts s ks; Some (now ++ later, s')
  end.

(** ** What the list holds

    The nodes on the lowest level, and the key of each. *)
Fixpoint chain (fuel : nat) s (x : nat) : list nat :=
  match fuel with
  | O => []
  | S fuel => match Next s x 0 with Some (Some y) => y :: chain fuel s y | _ => [] end
  end.
Definition contents s : list nat := chain (length (nodes s)) s head_.
Definition keys s : list Key := omap (node_key s) (contents s).

(** A search in a list, the reference: the first node that is not before [k], the last
    that is, and the last of all. *)
Definition is_before s k (x : nat) : bool := match node_key s x with Some k' => compare_ k' k <? 0 | None => false end.
Definition first_not_before s k : ptr := find (fun x => negb (is_before s k x)) (contents s).
Definition last_before s k : nat := List.last (filter (fun x => is_before s k x = true) (contents s)) head_.
Definition last_node s : nat := List.last (contents s) head_.
End SkipList.
