(* ===== verification/LdbSkipSearch.v ===== *)
(** * The skip list: what holds of it, and searches under insertion (theorems about LdbSkipList.v)

    The nodes have an order and each a number of levels on which it is linked; level [i]
    of the list is the nodes linked on more than [i]. Memories follow one another: nodes
    and levels are added. A search whose loads find later and later memories ends where a
    search in the list of the last of them would. *)

From Stdlib Require Import Sorted.
From stdpp Require Import list sorting.
From S2P Require Import Prelude LdbSkipList.

(** ** What follows an element *)

Fixpoint after (x : nat) (l : list nat) : list nat := match l with [] => [] | y :: l => if decide (x = y) then l else after x l end.

Lemma after_split x l : x ∈ l -> exists a, l = a ++ x :: after x l /\ x ∉ a.
Proof.
  induction l as [|y l IH]; intros Hx; [by apply elem_of_nil in Hx|]. cbn [after]. destruct (decide (x = y)) as [->|Hne].
  - exists []. split; [done|]. apply not_elem_of_nil.
  - apply elem_of_cons in Hx as [|Hx]; [done|]. destruct (IH Hx) as (a & E & Ha). exists (y :: a). split; [cbn; by rewrite <- E|]. by apply not_elem_of_cons.
Qed.

Lemma after_at x a b : x ∉ a -> after x (a ++ x :: b) = b.
Proof.
  induction a as [|y a IH]; intros Hx; cbn [app after]; [by destruct (decide (x = x))|]. apply not_elem_of_cons in Hx as [Hne Hx].
  destruct (decide (x = y)); [done|]. by apply IH.
Qed.

Lemma after_incl x y l : y ∈ after x l -> y ∈ l.
Proof. induction l as [|z l IH]; cbn [after]; [done|]. destruct (decide (x = z)); intros Hy; apply elem_of_cons; right; [done|by apply IH]. Qed.

Lemma after_decreases x y l : NoDup l -> x ∈ l -> y ∈ after x l -> (length (after y l) < length (after x l))%nat.
Proof.
  intros Hnd Hx Hy. destruct (after_split x l Hx) as (a & E & Ha). destruct (after_split y _ Hy) as (b & Eb & Hb).
  rewrite E in Hnd. apply NoDup_app in Hnd as (_ & Hab & Hnd). apply NoDup_cons in Hnd as [Hxa _].
  assert (Ey : after y l = after y (after x l)).
  { rewrite E at 1. rewrite Eb at 1. change (a ++ x :: b ++ y :: after y (after x l)) with (a ++ (x :: b) ++ y :: after y (after x l)). rewrite app_assoc. apply after_at.
    rewrite not_elem_of_app. split; [intros Hya; apply (Hab y Hya), elem_of_cons; by right|]. apply not_elem_of_cons. split; [by intros ->|done]. }
  rewrite Ey. rewrite Eb at 2. rewrite length_app. cbn [length]. lia.
Qed.

Lemma after_sublist x l l' : l `sublist_of` l' -> NoDup l' -> x ∈ l -> after x l `sublist_of` after x l'.
Proof.
  induction 1 as [|y l l' Hs IH|y l l' Hs IH]; intros Hnd Hx; [done|..]; apply NoDup_cons in Hnd as [Hy Hnd]; cbn [after].
  - destruct (decide (x = y)); [done|]. apply elem_of_cons in Hx as [|Hx]; [done|]. by apply IH.
  - destruct (decide (x = y)) as [->|]; [|by apply IH]. destruct Hy. by apply (elem_of_sublist l).
Qed.

(** A new element [x] behind [p]. *)
Lemma after_inserted a p x b y : NoDup (a ++ p :: x :: b) -> y ∈ a ++ p :: x :: b ->
  head (after y (a ++ p :: x :: b)) = if decide (y = p) then Some x else if decide (y = x) then head b else head (after y (a ++ p :: b)).
Proof.
  induction a as [|z a IH]; cbn [app]; intros Hnd Hy; apply NoDup_cons in Hnd as [Hz Hnd]; cbn [after].
  - destruct (decide (y = p)); [done|]. by destruct (decide (y = x)).
  - destruct (decide (y = z)) as [->|Hne].
    + rewrite not_elem_of_app, !not_elem_of_cons in Hz. destruct Hz as (_ & Hp & Hx & _). destruct (decide (z = p)); [done|]. destruct (decide (z = x)); [done|].
      by destruct a.
    + apply elem_of_cons in Hy as [|Hy]; [done|]. by apply IH.
Qed.

Lemma sublist_filter_mono {A} (P : A -> Prop) `{!forall x, Decision (P x)} l l' : l `sublist_of` l' -> filter P l `sublist_of` filter P l'.
Proof.
  induction 1 as [|x l l' Hs IH|x l l' Hs IH]; [done|..]; rewrite !filter_cons.
  - destruct (decide (P x)); [by constructor|done].
  - destruct (decide (P x)); [by constructor|done].
Qed.

Lemma sublist_filter_weaken {A} (P Q : A -> Prop) `{!forall x, Decision (P x), !forall x, Decision (Q x)} l : (forall x, x ∈ l -> P x -> Q x) -> filter P l `sublist_of` filter Q l.
Proof.
  intros HPQ. induction l as [|x l IH]; [done|]. rewrite !filter_cons.
  assert (IH' : filter P l `sublist_of` filter Q l) by (apply IH; intros y Hy; apply HPQ, elem_of_cons; by right).
  destruct (decide (P x)) as [Hp|], (decide (Q x)) as [|Hq]; [by constructor| |by constructor|done]. destruct Hq. by apply HPQ; [apply elem_of_cons; left|].
Qed.

Lemma find_first {A} (f : A -> bool) a b : Forall (fun x => f x = false) a -> match b with [] => True | x :: _ => f x = true end -> find f (a ++ b) = head b.
Proof. intros Ha Hb. induction Ha as [|x a Hx Ha IH]; cbn [app find]; [destruct b; cbn; [done|by rewrite Hb]|by rewrite Hx]. Qed.

(** ** Orders of keys *)

(** The laws of the comparison on the keys of [dom]: a total preorder. *)
Class KeyOrder {Key : Type} (dom : Key -> Prop) (compare_ : Key -> Key -> Z) : Prop := {
  key_same a : dom a -> compare_ a a = 0;
  key_sym a b : dom a -> dom b -> Z.sgn (compare_ b a) = - Z.sgn (compare_ a b);
  key_trans a b c : dom a -> dom b -> dom c -> compare_ a b <= 0 -> compare_ b c <= 0 -> compare_ a c <= 0
}.

Section Order.
Context {Key : Type} {dom : Key -> Prop} {compare_ : Key -> Key -> Z} `{KeyOrder Key dom compare_}.

Lemma key_lt_le a b c : dom a -> dom b -> dom c -> compare_ a b < 0 -> compare_ b c <= 0 -> compare_ a c < 0.
Proof.
  intros Ha Hb Hc Hab Hbc. destruct (Z.lt_ge_cases (compare_ a c) 0) as [|Hge]; [done|]. pose proof (key_sym a c Ha Hc). pose proof (key_sym a b Ha Hb).
  pose proof (key_trans b c a Hb Hc Ha Hbc ltac:(lia)). lia.
Qed.

Lemma key_le_lt a b c : dom a -> dom b -> dom c -> compare_ a b <= 0 -> compare_ b c < 0 -> compare_ a c < 0.
Proof.
  intros Ha Hb Hc Hab Hbc. destruct (Z.lt_ge_cases (compare_ a c) 0) as [|Hge]; [done|]. pose proof (key_sym a c Ha Hc). pose proof (key_sym b c Hb Hc).
  assert (Hca : compare_ c a <= 0) by lia. pose proof (key_trans c a b Hc Ha Hb Hca Hab). lia.
Qed.
End Order.

(** ** The invariant *)

(** Level [i] of the nodes in their order, [h] the number of levels of each. *)
Definition on_level (h : nat -> nat) (i : nat) (order : list nat) : list nat := filter (fun x => (i < h x)%nat) order.

Section Invariant.
Context {Key : Type} {dom : Key -> Prop} {compare_ : Key -> Key -> Z} `{KeyOrder Key dom compare_}.
Implicit Types (s : SkipList Key) (k : Key) (order : list nat) (h : nat -> nat).

Definition node_before s (x y : nat) : Prop := exists k k', node_key s x = Some k /\ node_key s y = Some k' /\ compare_ k k' < 0.

Record list_inv s order h : Prop := mkListInv {
  inv_head : node_key s head_ = None;
  inv_nodes : order ≡ₚ seq 1 (length (nodes s) - 1);
  inv_keys : Forall (fun x => exists k, node_key s x = Some k /\ dom k) order;
  inv_sorted : StronglySorted (node_before s) order;
  inv_height : (1 <= max_height_ s <= kMaxHeight)%nat /\ Forall (fun x => (h x <= max_height_ s)%nat) order;
  inv_links i x : (i < kMaxHeight)%nat -> x ∈ head_ :: on_level h i order -> Next s x i = Some (head (after x (head_ :: on_level h i order)));
  inv_seed : seed_ok (rnd_ s)
}.

(** One memory and a later one. *)
Record later s order h s' order' h' : Prop := mkLater {
  later_keys x k : node_key s x = Some k -> node_key s' x = Some k;
  later_order : order `sublist_of` order';
  later_heights x : x ∈ order -> (h x <= h' x)%nat
}.

Lemma inv_nodup s order h : list_inv s order h -> NoDup (head_ :: order).
Proof.
  intros I. constructor.
  - rewrite (inv_nodes _ _ _ I), elem_of_seq. unfold head_. lia.
  - rewrite (inv_nodes _ _ _ I). apply NoDup_seq.
Qed.

Lemma level_sublist h i order : head_ :: on_level h i order `sublist_of` head_ :: order.
Proof. apply sublist_skip, sublist_filter. Qed.

Lemma level_nodup s order h i : list_inv s order h -> NoDup (head_ :: on_level h i order).
Proof. intros I. apply (sublist_NoDup _ (head_ :: order)); [by apply (inv_nodup s _ h)|apply level_sublist]. Qed.

Lemma later_refl s order h : later s order h s order h.
Proof. by constructor. Qed.

Lemma later_trans s order h s' order' h' s'' order'' h'' : later s order h s' order' h' -> later s' order' h' s'' order'' h'' -> later s order h s'' order'' h''.
Proof. intros [A1 A2 A3] [B1 B2 B3]. constructor; [by eauto|by transitivity order'|]. intros x Hx. pose proof (A3 x Hx). pose proof (B3 x (elem_of_sublist _ _ _ Hx A2)). lia. Qed.

Lemma later_level s order h s' order' h' i : later s order h s' order' h' -> on_level h i order `sublist_of` on_level h' i order'.
Proof.
  intros [_ Ho Hh]. transitivity (on_level h' i order); [|by apply sublist_filter_mono]. apply sublist_filter_weaken. intros x Hx Hi. specialize (Hh x Hx). cbn in *. lia.
Qed.

Lemma inv_key s order h x : list_inv s order h -> x ∈ order -> exists k, node_key s x = Some k /\ dom k.
Proof. intros I Hx. exact (proj1 (Forall_forall _ _) (inv_keys _ _ _ I) x Hx). Qed.

Lemma on_level_in h i order x : x ∈ on_level h i order <-> x ∈ order /\ (i < h x)%nat.
Proof. unfold on_level. rewrite list_elem_of_filter. tauto. Qed.

(** The lowest level is what the links of it show. *)
Lemma chain_level s order h fuel x : list_inv s order h -> x ∈ head_ :: on_level h 0 order -> (length (after x (head_ :: on_level h 0 order)) <= fuel)%nat ->
  chain fuel s x = after x (head_ :: on_level h 0 order).
Proof.
  intros I. set (l := head_ :: on_level h 0 order). assert (Hnd : NoDup l) by by apply (level_nodup s). revert x.
  induction fuel as [|fuel IH]; intros x Hx Hf; [destruct (after x l); [done|cbn in Hf; lia]|]. cbn [chain]. rewrite (inv_links _ _ _ I 0 x) by (first [done | unfold kMaxHeight; lia]). fold l.
  destruct (after x l) as [|y r] eqn:E; [done|]. cbn [head]. assert (Hy : y ∈ after x l) by (rewrite E; apply elem_of_cons; by left).
  assert (Er : after y l = r).
  { destruct (after_split x l Hx) as (a & El & Ha). rewrite E in El. rewrite El. change (a ++ x :: y :: r) with (a ++ [x] ++ y :: r). rewrite app_assoc. apply after_at.
    rewrite El in Hnd. apply NoDup_app in Hnd as (_ & Hd & Hnd). apply NoDup_cons in Hnd as [Hxy _]. rewrite not_elem_of_app. split.
    - intros Hya. apply (Hd y Hya). apply elem_of_cons. right. apply elem_of_cons. by left.
    - intros Hyx. apply list_elem_of_singleton in Hyx as ->. apply Hxy, elem_of_cons. by left. }
  rewrite IH, Er; [done|by apply after_incl in Hy|]. pose proof (after_decreases x y l Hnd Hx Hy). rewrite E in *. cbn [length] in *. lia.
Qed.

Lemma contents_level s order h : list_inv s order h -> contents s = on_level h 0 order.
Proof.
  intros I. unfold contents. rewrite (chain_level _ _ _ _ _ I); [by cbn [after]; destruct (decide (head_ = head_))|apply elem_of_cons; by left|].
  cbn [after]. destruct (decide (head_ = head_)); [|done]. pose proof (sublist_length _ _ (sublist_filter (fun x => (0 < h x)%nat) order)) as Hl.
  fold (on_level h 0 order) in Hl. pose proof (Permutation_length (inv_nodes _ _ _ I)) as Ho. rewrite length_seq in Ho. lia.
Qed.
End Invariant.

(** * Searches

The three searches of the code are one descent, by a property of keys that holds below
    some point of the order. Whatever memories its loads find, each later than the one
    before, it ends, and where it ends is right for the memory of its last load. *)

Lemma sorted_sublist {A} (R : A -> A -> Prop) l l' : l' `sublist_of` l -> StronglySorted R l -> StronglySorted R l'.
Proof.
  induction 1 as [|x l' l Hs IH|x l' l Hs IH]; [done|..]; intros [Hl Hx]%StronglySorted_inv; [|by apply IH].
  constructor; [by apply IH|]. rewrite Forall_forall in *. intros y Hy. apply Hx. by apply (elem_of_sublist l').
Qed.

Lemma filter_all {A} (P : A -> Prop) `{!forall x, Decision (P x)} l : Forall P l -> filter P l = l.
Proof. induction 1 as [|x l Hx Hl IH]; [done|]. rewrite filter_cons_True by done. by rewrite IH. Qed.

Lemma filter_none {A} (P : A -> Prop) `{!forall x, Decision (P x)} l : Forall (fun x => ~ P x) l -> filter P l = [].
Proof. induction 1 as [|x l Hx Hl IH]; [done|]. by rewrite filter_cons_False. Qed.

Lemma last_eq {A} (d : A) l : List.last l d = default d (last l).
Proof. induction l as [|x l IH]; [done|]. destruct l; [done|]. exact IH. Qed.

Section Searching.
Context {Key : Type} {dom : Key -> Prop} {compare_ : Key -> Key -> Z} `{KeyOrder Key dom compare_}.
Implicit Types (s : SkipList Key) (k : Key) (order : list nat) (h : nat -> nat).
#[local] Abbreviation list_inv := (list_inv (dom := dom) (compare_ := compare_)).

Context (before : Key -> bool) (Hdown : forall k k', dom k -> dom k' -> compare_ k k' < 0 -> before k' = true -> before k = true).

(** ** Where a search may stand *)

Definition node_is_before s (x : nat) : bool := match node_key s x with Some k => before k | None => false end.
Definition goes_on s (next : ptr) : option bool := match next with None => Some false | Some y => ky ← node_key s y; Some (before ky) end.

Definition placed s order h (x level : nat) : Prop := x = head_ \/ (x ∈ on_level h level order /\ node_is_before s x = true).

Lemma placed_later s order h s' order' h' x level : list_inv s order h -> later s order h s' order' h' -> placed s order h x level -> placed s' order' h' x level.
Proof.
  intros I Hl [->|[Hx Hb]]; [by left|]. right. split; [by apply (elem_of_sublist (on_level h level order)), (later_level s _ _ s')|].
  apply on_level_in in Hx as [Hx _]. destruct (inv_key _ _ _ _ I Hx) as (k & E & _). unfold node_is_before in *. rewrite E in Hb. by rewrite (later_keys _ _ _ _ _ _ Hl _ _ E).
Qed.

Lemma placed_down s order h x level : placed s order h x (S level) -> placed s order h x level.
Proof. intros [->|[Hx Hb]]; [by left|]. right. split; [|done]. rewrite on_level_in in *. destruct Hx. split; [done|lia]. Qed.

Lemma placed_in s order h x level : placed s order h x level -> x ∈ head_ :: on_level h level order.
Proof. intros [->|[Hx _]]; apply elem_of_cons; [by left|by right]. Qed.

(** Where a search stops on a level: the level is what is before and the rest. *)
Lemma level_cut s order h i x : list_inv s order h -> (i < kMaxHeight)%nat -> placed s order h x i -> forall next, Next s x i = Some next -> goes_on s next = Some false ->
  exists l, on_level h i order = l ++ after x (head_ :: on_level h i order) /\ List.last l head_ = x /\
    Forall (fun y => node_is_before s y = true) l /\ Forall (fun y => node_is_before s y = false) (after x (head_ :: on_level h i order)) /\
    next = head (after x (head_ :: on_level h i order)).
Proof.
  intros I Hi Hp next Hn Hg. pose proof (placed_in _ _ _ _ _ Hp) as Hx. rewrite (inv_links _ _ _ I) in Hn by done.
  assert (next = head (after x (head_ :: on_level h i order))) as -> by congruence. clear Hn.
  pose proof (level_nodup s order h i I) as Hnd. pose proof (sorted_sublist _ order (on_level h i order) (sublist_filter _ _) (inv_sorted _ _ _ I)) as Hs.
  set (lvl := on_level h i order) in *. destruct (after_split x (head_ :: lvl) Hx) as (a & E & Ha). set (b := after x (head_ :: lvl)) in *. clearbody b.
  assert (Hrest : Forall (fun y => node_is_before s y = false) b).
  { assert (Hsb : StronglySorted (node_before (compare_ := compare_) s) b).
    { destruct a as [|z a]; injection E as _ E; [by rewrite <- E|]. rewrite E in Hs. apply StronglySorted_app in Hs as (_ & _ & Hs). by apply StronglySorted_inv in Hs as [? _]. }
    destruct b as [|y b]; [constructor|]. cbn in Hg. destruct (node_key s y) as [ky|] eqn:Ey; [|done]. cbn in Hg. injection Hg as Hy.
    constructor; [unfold node_is_before; by rewrite Ey|]. apply StronglySorted_inv in Hsb as [_ Hsb]. rewrite Forall_forall in *. intros z Hz.
    destruct (Hsb z Hz) as (k & k' & Ek & Ez & Hlt). assert (Hzo : z ∈ order /\ y ∈ order).
    { assert (Hl : y :: b ⊆ lvl). { intros w Hw. destruct a as [|? a]; injection E as _ E; rewrite E; [done|]. apply elem_of_app. right. apply elem_of_cons. by right. }
      split; [apply (on_level_in h i)|apply (on_level_in h i)]; apply Hl, elem_of_cons; [by right|by left]. }
    destruct (inv_key _ _ _ _ I (proj1 Hzo)) as (kz & Ez' & Dz). destruct (inv_key _ _ _ _ I (proj2 Hzo)) as (ky' & Ey' & Dy).
    assert (ky' = ky /\ k = ky /\ kz = k') as (-> & -> & ->) by (split_and!; congruence).
    unfold node_is_before. rewrite Ez. destruct (before k') eqn:Eb; [|done]. rewrite (Hdown ky k') in Hy by done. done. }
  destruct a as [|z a]; injection E as E0 E.
  - exists []. subst. done.
  - exists (a ++ [x]). rewrite <- app_assoc. split; [done|]. split; [by rewrite last_last|]. split; [|done]. assert (Hxb : x ∈ lvl /\ node_is_before s x = true).
    { destruct Hp as [Hp|Hp]; [|done]. subst. exfalso. apply Ha, elem_of_cons. by left. }
    destruct Hxb as [Hxl Hxb]. apply Forall_app. split; [|by constructor]. rewrite E in Hs. apply StronglySorted_app in Hs as (Hs & _ & _). rewrite Forall_forall. intros y Hy.
    destruct (Hs y x Hy (proj2 (elem_of_cons _ _ _) (or_introl eq_refl))) as (ky & kx & Ey & Ex & Hlt).
    assert (Hyl : y ∈ lvl) by (rewrite E; apply elem_of_app; by left). apply on_level_in in Hyl as [Hyo _]. apply on_level_in in Hxl as [Hxo _].
    destruct (inv_key _ _ _ _ I Hyo) as (ky' & Ey' & Dy). destruct (inv_key _ _ _ _ I Hxo) as (kx' & Ex' & Dx).
    assert (ky' = ky /\ kx' = kx) as [-> ->] by (split; congruence).
    unfold node_is_before in *. rewrite Ey, Ex in *. by apply (Hdown ky kx).
Qed.

(** At the end of a search. *)
Lemma search_result s order h x next : list_inv s order h -> placed s order h x 0 -> Next s x 0 = Some next -> goes_on s next = Some false ->
  find (fun y => negb (node_is_before s y)) (contents s) = next /\ List.last (filter (fun y => node_is_before s y = true) (contents s)) head_ = x.
Proof.
  intros I Hp Hn Hg. rewrite (contents_level _ _ _ I). destruct (level_cut s order h 0 x I ltac:(unfold kMaxHeight; lia) Hp next Hn Hg) as (l & E & Hl & Hb & Ha & ->).
  set (b := after _ _) in *. clearbody b. rewrite E. split.
  - apply find_first; [by apply (Forall_impl _ _ _ Hb); intros y ->|]. destruct b as [|y b]; [done|]. apply Forall_cons_1 in Ha as [-> _]. done.
  - rewrite filter_app, filter_all, filter_none, app_nil_r by first [done|by apply (Forall_impl _ _ _ Ha); intros y ->]. done.
Qed.

(** ** The descent *)

Section Views.
Context (view : nat -> SkipList Key) (ord : nat -> list nat) (hh : nat -> nat -> nat) (ofin : list nat).
Context (Hinv : forall n, list_inv (view n) (ord n) (hh n)) (Hlater : forall n, later (view n) (ord n) (hh n) (view (S n)) (ord (S n)) (hh (S n))).
Context (Hfin : forall n, ord n `sublist_of` ofin) (Hnd : NoDup (head_ :: ofin)).

Fixpoint descend (fuel n : nat) (prev : option (list (option nat))) (x level : nat) : option (nat * ptr * option (list (option nat))) :=
  match fuel with
  | O => None
  | S fuel =>
      next ← Next (view n) x level;
      on ← goes_on (view n) next;
      if on : bool then x ← next; descend fuel (S n) prev x level
      else
        let prev := set_prev prev level x in
        match level with O => Some (x, next, prev) | S level => descend fuel (S n) prev x level end
  end.

(** The search stopped at [x] on [level] in the memory of a load. *)
Definition stopped (x level : nat) (next : ptr) (m : nat) : Prop :=
  placed (view m) (ord m) (hh m) x level /\ Next (view m) x level = Some next /\ goes_on (view m) next = Some false.

(** What becomes of the array: an entry for each level of the search. *)
Definition filled (level : nat) (prev prev' : option (list (option nat))) : Prop :=
  match prev with
  | None => prev' = None
  | Some a => exists a', prev' = Some a' /\ length a' = length a /\ (forall i, (level < i)%nat -> a' !! i = a !! i) /\
      (length a = kMaxHeight -> forall i, (i <= level)%nat -> exists p next m, a' !! i = Some (Some p) /\ stopped p i next m)
  end.

Lemma filled_set level x next m prev prev' : (level < kMaxHeight)%nat -> stopped x level next m ->
  match level with O => prev' = set_prev prev 0 x | S l => filled l (set_prev prev level x) prev' end -> filled level prev prev'.
Proof.
  intros Hl Hs Hf. destruct prev as [a|]; cbn in *; [|by destruct level]. destruct level as [|level].
  - subst prev'. exists (<[0%nat := Some x]> a). split; [done|]. rewrite length_insert. split; [done|]. split; [intros i Hi; apply list_lookup_insert_ne; lia|].
    intros Ha i Hi. replace i with 0%nat by lia. exists x, next, m. split; [|done]. apply list_lookup_insert_eq. lia.
  - destruct Hf as (a' & -> & El & Hab & Hbe). rewrite length_insert in *. exists a'. split; [done|]. split; [done|]. split.
    + intros i Hi. rewrite Hab by lia. apply list_lookup_insert_ne. lia.
    + intros Ha i Hi. destruct (decide (i = S level)) as [->|Hne]; [|apply Hbe; [done|lia]]. exists x, next, m. split; [|done].
      rewrite Hab by lia. apply list_lookup_insert_eq. lia.
Qed.

Lemma next_goes_on n x level y : placed (view n) (ord n) (hh n) x level -> (level < kMaxHeight)%nat -> Next (view n) x level = Some (Some y) -> 
  exists ky, node_key (view n) y = Some ky /\ y ∈ on_level (hh n) level (ord n) /\ (length (after y (head_ :: ofin)) < length (after x (head_ :: ofin)))%nat.
Proof.
  intros Hp Hl Hn. pose proof (placed_in _ _ _ _ _ Hp) as Hx. rewrite (inv_links _ _ _ (Hinv n)) in Hn by done.
  assert (Hh : head (after x (head_ :: on_level (hh n) level (ord n))) = Some y) by congruence. clear Hn.
  set (lvl := head_ :: on_level (hh n) level (ord n)) in *. assert (Hy : y ∈ after x lvl) by (destruct (after x lvl); [done|injection Hh as ->; apply elem_of_cons; by left]).
  assert (Hlv : lvl `sublist_of` head_ :: ofin) by (etransitivity; [apply level_sublist|by apply sublist_skip]).
  assert (Hyl : y ∈ on_level (hh n) level (ord n)).
  { pose proof (level_nodup _ _ _ level (Hinv n)) as Hndl. fold lvl in Hndl. destruct (after_split x lvl Hx) as (a & E & _). destruct a as [|z a]; injection E as E0 E.
    - rewrite E. by subst.
    - rewrite E. apply elem_of_app. right. apply elem_of_cons. by right. }
  destruct (inv_key _ _ _ _ (Hinv n) (proj1 (proj1 (on_level_in _ _ _ _) Hyl))) as (ky & Ey & _). exists ky. split; [done|]. split; [done|].
  apply after_decreases; [done|by apply (elem_of_sublist lvl)|]. by apply (elem_of_sublist (after x lvl)); [|apply after_sublist].
Qed.

Lemma descend_ends fuel n prev x level : placed (view n) (ord n) (hh n) x level -> (level < kMaxHeight)%nat ->
  (level + length (after x (head_ :: ofin)) < fuel)%nat ->
  exists m x' next prev', descend fuel n prev x level = Some (x', next, prev') /\ (n <= m < n + fuel)%nat /\ stopped x' 0 next m /\ filled level prev prev'.
Proof.
  revert n prev x level. induction fuel as [|fuel IH]; intros n prev x level Hp Hl Hf; [lia|]. cbn [descend]. pose proof (placed_in _ _ _ _ _ Hp) as Hx.
  assert (Hnext : exists next, Next (view n) x level = Some next) by (rewrite (inv_links _ _ _ (Hinv n)) by done; eauto). destruct Hnext as [next En].
  rewrite En. cbn [mbind option_bind]. assert (Hon : exists on, goes_on (view n) next = Some on).
  { destruct next as [y|]; [|by exists false]. destruct (next_goes_on _ _ _ _ Hp Hl En) as (ky & Ey & _). unfold goes_on. rewrite Ey. cbn. eauto. }
  destruct Hon as [on Eon]. rewrite Eon. cbn [mbind option_bind]. destruct on.
  - destruct next as [y|]; [|done]. destruct (next_goes_on _ _ _ _ Hp Hl En) as (ky & Ey & Hy & Hlen). cbn [mbind option_bind].
    destruct (IH (S n) prev y level) as (m & x' & nx & prev' & E & Hm & Hst & Hfi); [|done|lia|].
    { apply (placed_later _ _ _ _ _ _ _ _ (Hinv n) (Hlater n)). right. split; [done|]. unfold goes_on in Eon. rewrite Ey in Eon. injection Eon as Eon.
      unfold node_is_before. by rewrite Ey. }
    exists m, x', nx, prev'. split; [done|]. split; [lia|done].
  - assert (Hst : stopped x level next n) by done. destruct level as [|level].
    + exists n, x, next, (set_prev prev 0 x). split; [done|]. split; [lia|]. split; [done|]. by apply (filled_set 0 x next n).
    + destruct (IH (S n) (set_prev prev (S level) x) x level) as (m & x' & nx & prev' & E & Hm & Hst' & Hfi); [|lia|lia|].
      { apply (placed_later _ _ _ _ _ _ _ _ (Hinv n) (Hlater n)). by apply placed_down. }
      exists m, x', nx, prev'. split; [done|]. split; [lia|]. split; [done|]. by apply (filled_set (S level) x next n).
Qed.

(** A whole search, from any height. *)
Lemma search_ends fuel height prev : (1 <= height <= kMaxHeight)%nat -> (kMaxHeight + length ofin <= fuel)%nat ->
  exists m x next prev', descend fuel 0 prev head_ (height - 1) = Some (x, next, prev') /\ (m < fuel)%nat /\ stopped x 0 next m /\ filled (height - 1) prev prev' /\
    find (fun y => negb (node_is_before (view m) y)) (contents (view m)) = next /\
    List.last (filter (fun y => node_is_before (view m) y = true) (contents (view m))) head_ = x.
Proof.
  intros Hh Hf. destruct (descend_ends fuel 0 prev head_ (height - 1)) as (m & x & next & prev' & E & Hm & Hst & Hfi); [by left|lia| |].
  { cbn [after]. destruct (decide (head_ = head_)); [|done]. lia. }
  exists m, x, next, prev'. split; [done|]. split; [lia|]. split; [done|]. split; [done|]. destruct Hst as (H1 & H2 & H3). by apply (search_result _ _ _ _ _ (Hinv m)).
Qed.
End Views.
End Searching.
