(* ===== verification/LdbSkipInsert.v ===== *)
(** * The skip list: insertion, store by store (theorems about LdbSkipList.v)

    The new node has its place in the order from its allocation on, on no level; each
    round of the loop adds it to one level, and it does so with its second store. *)

From Stdlib Require Import Sorted.
From stdpp Require Import list sorting.
From S2P Require Import Prelude LdbSkipList LdbSkipSearch.

(** ** Stores *)

Section Stores.
Context {Key : Type}.
Implicit Types (s : SkipList Key).

(** Nodes that have been allocated with [n] levels. *)
Definition has_levels s (x n : nat) : Prop := exists node, nodes s !! x = Some node /\ length (next_ node) = n.

Lemma Next_levels s x i v : Next s x i = Some v -> exists n, has_levels s x n /\ (i < n)%nat.
Proof.
  unfold Next. destruct (nodes s !! x) as [node|] eqn:E; [|done]. cbn. destruct (next_ node !! i) as [l|] eqn:El; [|done]. intros _.
  exists (length (next_ node)). split; [by exists node|]. by apply lookup_lt_Some in El.
Qed.

Record stored s (x i : nat) (v : ptr) s' : Prop := mkStored {
  stored_key y : node_key s' y = node_key s y;
  stored_next y j : Next s' y j = if decide (y = x /\ j = i) then Some v else Next s y j;
  stored_levels y n : has_levels s y n -> has_levels s' y n;
  stored_rest : length (nodes s') = length (nodes s) /\ max_height_ s' = max_height_ s /\ rnd_ s' = rnd_ s
}.

Lemma SetNext_stored s x i v n : has_levels s x n -> (i < n)%nat -> exists s', SetNext s x i v = Some s' /\ stored s x i v s'.
Proof.
  intros (node & E & <-) Hi. unfold SetNext. rewrite E. cbn [mbind option_bind]. destruct (decide _) as [_|]; [|done]. eexists. split; [done|].
  pose proof (lookup_lt_Some _ _ _ E) as Hx. constructor; cbn [nodes max_height_ rnd_].
  - intros y. unfold node_key. cbn [nodes]. destruct (decide (x = y)) as [->|Hne]; [by rewrite list_lookup_insert_eq, E by done|by rewrite list_lookup_insert_ne by done].
  - intros y j. unfold Next. cbn [nodes]. destruct (decide (x = y)) as [->|Hne].
    + rewrite list_lookup_insert_eq, E by done. cbn [mbind option_bind next_]. destruct (decide (j = i)) as [->|Hj].
      * rewrite list_lookup_insert_eq by done. destruct (decide _) as [|[]]; done.
      * rewrite list_lookup_insert_ne by done. destruct (decide _) as [[]|]; done.
    + rewrite list_lookup_insert_ne by done. destruct (decide _) as [[]|]; [by subst|done].
  - intros y m (nd & Ey & <-). unfold has_levels. cbn [nodes]. destruct (decide (x = y)) as [->|Hne].
    + rewrite list_lookup_insert_eq by done. eexists. split; [done|]. cbn. rewrite length_insert. congruence.
    + rewrite list_lookup_insert_ne by done. eauto.
  - by rewrite length_insert.
Qed.
End Stores.

Lemma RandomHeight_loop_spec fuel height rnd : (height <= kMaxHeight)%nat -> seed_ok rnd ->
  let '(height', rnd') := RandomHeight_loop fuel height rnd in (height <= height' <= kMaxHeight)%nat /\ seed_ok rnd'.
Proof.
  revert height rnd. induction fuel as [|fuel IH]; intros height rnd Hh Hs; cbn [RandomHeight_loop]; [done|]. destruct (Nat.ltb_spec height kMaxHeight); [|done].
  destruct (Random_Next rnd) as [r rnd'] eqn:E. destruct (Random_Next_ok _ _ _ Hs E) as [Hs' _]. destruct (r mod 4 =? 0); [|by split; [lia|]].
  specialize (IH (S height) rnd' ltac:(lia) Hs'). destruct (RandomHeight_loop fuel (S height) rnd'). split; [lia|apply IH].
Qed.

Lemma RandomHeight_spec rnd : seed_ok rnd -> let '(height, rnd') := RandomHeight rnd in (1 <= height <= kMaxHeight)%nat /\ seed_ok rnd'.
Proof. apply RandomHeight_loop_spec. unfold kMaxHeight. lia. Qed.

Lemma sorted_impl {A} (R R' : A -> A -> Prop) l : (forall x y, R x y -> R' x y) -> StronglySorted R l -> StronglySorted R' l.
Proof. intros HR. induction 1 as [|x l Hs IH Hx]; constructor; [done|]. exact (Forall_impl _ _ _ Hx (HR x)). Qed.

(** ** Ghost levels *)

Definition upd (h : nat -> nat) (x n : nat) : nat -> nat := fun y => if decide (y = x) then n else h y.

Lemma upd_at h x n : upd h x n x = n.
Proof. unfold upd. by destruct (decide (x = x)). Qed.

Lemma on_level_upd h x n i l : x ∉ l -> on_level (upd h x n) i l = on_level h i l.
Proof.
  intros Hx. induction l as [|y l IH]; [done|]. apply not_elem_of_cons in Hx as [Hy Hx]. unfold on_level in *. rewrite !filter_cons. rewrite IH by done.
  replace (upd h x n y) with (h y); [done|]. unfold upd. by destruct (decide (y = x)).
Qed.

Lemma on_level_app h i a b : on_level h i (a ++ b) = on_level h i a ++ on_level h i b.
Proof. apply filter_app. Qed.

Lemma on_level_mid h i a x b : on_level h i (a ++ x :: b) = on_level h i a ++ (if decide (i < h x)%nat then [x] else []) ++ on_level h i b.
Proof. rewrite on_level_app. f_equal. unfold on_level. rewrite filter_cons. by destruct (decide _). Qed.

Section Inserting.
Context {Key : Type} {dom : Key -> Prop} {compare_ : Key -> Key -> Z} `{KeyOrder Key dom compare_}.
Implicit Types (s : SkipList Key) (k : Key) (order : list nat) (h : nat -> nat).
#[local] Abbreviation list_inv := (list_inv (dom := dom) (compare_ := compare_)).
#[local] Abbreviation node_before := (node_before (compare_ := compare_)).

(** An invariant in which only links change. *)
Lemma inv_same s order h s' order' h' : list_inv s order h -> (forall y, node_key s' y = node_key s y) -> length (nodes s') = length (nodes s) -> max_height_ s' = max_height_ s ->
  rnd_ s' = rnd_ s -> order' = order -> Forall (fun x => (h' x <= max_height_ s)%nat) order ->
  (forall i x, (i < kMaxHeight)%nat -> x ∈ head_ :: on_level h' i order -> Next s' x i = Some (head (after x (head_ :: on_level h' i order)))) -> list_inv s' order' h'.
Proof.
  intros I Hk Hn Hm Hr -> Hh Hl. constructor.
  - rewrite Hk. apply I.
  - rewrite Hn. apply I.
  - apply (Forall_impl _ _ _ (inv_keys _ _ _ I)). intros x. by rewrite Hk.
  - apply (sorted_impl (node_before s)); [|apply I]. intros y z (ka & kb & Ea & Eb & ?). exists ka, kb. by rewrite !Hk.
  - rewrite Hm. split; [apply I|done].
  - done.
  - rewrite Hr. apply I.
Qed.

(** The first store of a round: to the node, which is not on the level. *)
Lemma store_own s order h x i v s' : list_inv s order h -> x ∈ order -> h x = i -> stored s x i v s' -> list_inv s' order h.
Proof.
  intros I Hx Hi [Hk Hn _ (E1 & E2 & E3)]. apply (inv_same s order h); [done|done|done|done|done|done|apply I|]. intros j y Hj Hy. rewrite Hn.
  destruct (decide _) as [[-> ->]|]; [|by apply (inv_links _ _ _ I)]. exfalso. apply elem_of_cons in Hy as [->|Hy].
  - pose proof (inv_nodup _ _ _ I) as [Hd _]%NoDup_cons. done.
  - apply on_level_in in Hy as [_ Hy]. lia.
Qed.

(** The second: to the node before it on the level. *)
Lemma store_prev s l1 x l2 h i p s' : list_inv s (l1 ++ x :: l2) h -> h x = i -> (i < max_height_ s)%nat -> List.last (on_level h i l1) head_ = p ->
  Next s x i = Some (head (on_level h i l2)) -> stored s p i (Some x) s' -> list_inv s' (l1 ++ x :: l2) (upd h x (S i)).
Proof.
  intros I Hi Him Hp Hx [Hk Hn _ (E1 & E2 & E3)]. pose proof (inv_nodup _ _ _ I) as Hnd. assert (Hx1 : x ∉ l1 /\ x ∉ l2).
  { apply NoDup_cons in Hnd as [_ Hnd]. apply NoDup_app in Hnd as (_ & Hd & Hnd). apply NoDup_cons in Hnd as [? _]. split; [|done]. intros Hx1. apply (Hd x Hx1), elem_of_cons. by left. }
  pose proof (inv_height _ _ _ I) as [Hm Hh]. apply (inv_same s (l1 ++ x :: l2) h); [done|done|done|done|done|done|..].
  { apply (Forall_impl _ _ _ Hh). intros y Hy. unfold upd. destruct (decide (y = x)); lia. }
  intros j y Hj Hy. rewrite Hn, on_level_mid, !on_level_upd, upd_at in * by apply Hx1. destruct (decide (j = i)) as [->|Hne].
  - destruct (decide (i < S i)%nat); [|lia]. cbn [app] in *. assert (Hcut : exists a, head_ :: on_level h i l1 = a ++ [p]).
    { clear -Hp. destruct (on_level h i l1) as [|z l]; [by exists []; subst|]. destruct (exists_last (l := z :: l) ltac:(done)) as (a & b & E). rewrite E in *.
      rewrite last_last in Hp. subst b. by exists (head_ :: a). }
    destruct Hcut as [a Ea]. assert (Ecut : head_ :: on_level h i l1 ++ x :: on_level h i l2 = a ++ p :: x :: on_level h i l2) by (rewrite app_comm_cons, Ea, <- app_assoc; done).
    assert (Eold : head_ :: on_level h i (l1 ++ x :: l2) = a ++ p :: on_level h i l2).
    { rewrite on_level_mid, Hi. destruct (decide (i < i)%nat); [lia|]. cbn [app]. rewrite app_comm_cons, Ea, <- app_assoc. done. }
    rewrite Ecut in *. rewrite after_inserted; [|rewrite <- Ecut|done].
    + destruct (decide (y = p)) as [->|Hyp]; [by destruct (decide _) as [|[]]|]. destruct (decide (y = p /\ i = i)) as [[]|_]; [done|].
      destruct (decide (y = x)) as [->|Hyx]; [done|]. rewrite (inv_links _ _ _ I) by first [done|rewrite Eold, !elem_of_app, !elem_of_cons in *; tauto]. by rewrite Eold.
    + apply (sublist_NoDup _ (head_ :: l1 ++ x :: l2)); [done|]. apply sublist_skip, sublist_app; [apply sublist_filter|apply sublist_skip, sublist_filter].
  - destruct (decide (y = p /\ j = i)) as [[_ ?]|_]; [done|]. assert (El : on_level h j (l1 ++ x :: l2) = on_level h j l1 ++ (if decide (j < S i)%nat then [x] else []) ++ on_level h j l2).
    { rewrite on_level_mid, Hi. destruct (decide (j < i)%nat), (decide (j < S i)%nat); first [done|lia]. }
    rewrite (inv_links _ _ _ I j y Hj); by rewrite El.
Qed.

(** ** Memories one after another *)

Inductive history (P : SkipList Key -> Prop) : SkipList Key -> list nat -> (nat -> nat) -> list (SkipList Key) -> SkipList Key -> list nat -> (nat -> nat) -> Prop :=
| history_nil s order h : history P s order h [] s order h
| history_cons s order h s1 order1 h1 trace s' order' h' :
    list_inv s1 order1 h1 -> later s order h s1 order1 h1 -> P s1 -> history P s1 order1 h1 trace s' order' h' -> history P s order h (s1 :: trace) s' order' h'.

Lemma history_app P s order h t1 s1 order1 h1 t2 s2 order2 h2 :
  history P s order h t1 s1 order1 h1 -> history P s1 order1 h1 t2 s2 order2 h2 -> history P s order h (t1 ++ t2) s2 order2 h2.
Proof. induction 1; [done|]. intros Hr. econstructor; [done|done|done|]. auto. Qed.

Lemma history_impl (P Q : SkipList Key -> Prop) s order h t s' order' h' : (forall s, P s -> Q s) -> history P s order h t s' order' h' -> history Q s order h t s' order' h'.
Proof. intros HPQ. induction 1; econstructor; eauto. Qed.

(** ** The stores of an insertion *)

(** The value of [max_height_], and the seed that only the writer uses. *)
Lemma raise_inv s order h height rnd : list_inv s order h -> (max_height_ s <= height <= kMaxHeight)%nat -> seed_ok rnd ->
  list_inv (mkSkipList (nodes s) height rnd) order h /\ later s order h (mkSkipList (nodes s) height rnd) order h.
Proof.
  intros [I1 I2 I3 I4 [I5 I5'] I6 I7] Hh Hs. split; [|by constructor]. constructor; [done|done|done|done|cbn|done|done]. split; [lia|].
  apply (Forall_impl _ _ _ I5'). intros x Hx. lia.
Qed.

Definition key_below s k (x : nat) : Prop := exists kx, node_key s x = Some kx /\ compare_ kx k < 0.
Definition key_above s k (x : nat) : Prop := exists kx, node_key s x = Some kx /\ compare_ k kx < 0.

Lemma allocated s order h k height l1 l2 : list_inv s order h -> order = l1 ++ l2 -> dom k -> Forall (key_below s k) l1 -> Forall (key_above s k) l2 ->
  let '(x, s1) := NewNode s (Some k) height in
  list_inv s1 (l1 ++ x :: l2) (upd h x 0) /\ later s order h s1 (l1 ++ x :: l2) (upd h x 0) /\ has_levels s1 x height /\ node_key s1 x = Some k /\ x ∉ order /\
  max_height_ s1 = max_height_ s.
Proof.
  intros I -> Hk H1 H2. unfold NewNode. set (x := length (nodes s)). set (s1 := mkSkipList _ _ _).
  assert (Hkey : forall y ky, node_key s y = Some ky -> node_key s1 y = Some ky).
  { intros y ky. unfold node_key, s1. cbn [nodes]. destruct (nodes s !! y) as [nd|] eqn:E; [|done]. by rewrite (lookup_app_l_Some _ _ _ _ E). }
  assert (Hnext : forall y j v, Next s y j = Some v -> Next s1 y j = Some v).
  { intros y j v. unfold Next, s1. cbn [nodes]. destruct (nodes s !! y) as [nd|] eqn:E; [|done]. by rewrite (lookup_app_l_Some _ _ _ _ E). }
  assert (Hx : node_key s1 x = Some k) by (unfold node_key, s1; cbn [nodes]; by rewrite lookup_app_r, Nat.sub_diag by done).
  assert (Hx' : x ∉ l1 ++ l2) by (rewrite (inv_nodes _ _ _ I), elem_of_seq; unfold x; lia).
  assert (Hpos : (0 < x)%nat).
  { pose proof (inv_links _ _ _ I 0 head_ ltac:(unfold kMaxHeight; lia) ltac:(apply elem_of_cons; by left)) as E. apply Next_levels in E as (n & (nd & E & _) & _).
    apply lookup_lt_Some in E. unfold x, head_ in *. lia. }
  pose proof Hx' as [Hx1 Hx2]%not_elem_of_app.
  assert (Hlev : forall j, on_level (upd h x 0) j (l1 ++ x :: l2) = on_level h j (l1 ++ l2)).
  { intros j. rewrite on_level_mid, upd_at, !on_level_upd, on_level_app by done. by destruct (decide (j < 0)%nat); [lia|]. }
  split; [|split; [|split; [|split; [|split]]]]; [constructor|constructor|..].
  - unfold node_key, s1. cbn [nodes]. pose proof (inv_head _ _ _ I) as Hh. unfold node_key in Hh. by rewrite lookup_app_l.
  - unfold s1. cbn [nodes]. rewrite length_app. cbn [length]. fold x. replace (x + 1 - 1)%nat with (S (x - 1)) by lia. rewrite seq_S.
    rewrite <- Permutation_middle, (inv_nodes _ _ _ I). fold x. replace (1 + (x - 1))%nat with x by lia. by rewrite Permutation_app_comm.
  - apply Forall_app. pose proof (inv_keys _ _ _ I) as [K1 K2]%Forall_app.
    assert (Hmon : forall y, (exists ky, node_key s y = Some ky /\ dom ky) -> exists ky, node_key s1 y = Some ky /\ dom ky) by (intros y (ky & E & D); eauto).
    split; [by apply (Forall_impl _ _ _ K1)|]. constructor; [by exists k|by apply (Forall_impl _ _ _ K2)].
  - pose proof (inv_sorted _ _ _ I) as Hs. apply (sorted_impl _ (node_before s1)) in Hs; [|intros y z (ka & kb & Ea & Eb & ?); exists ka, kb; auto].
    apply StronglySorted_app in Hs as (H12 & S1 & S2). apply StronglySorted_app. split; [|split; [done|constructor; [done|]]].
    + intros y z Hy Hz. apply elem_of_cons in Hz as [->|Hz]; [|by apply H12]. destruct (proj1 (Forall_forall _ _) H1 y Hy) as (ky & Ey & Hlt). exists ky, k. auto.
    + apply (Forall_impl _ _ _ H2). intros y (ky & Ey & Hlt). exists k, ky. auto.
  - split; [apply I|]. pose proof (inv_height _ _ _ I) as [_ [B1 B2]%Forall_app]. apply Forall_app. unfold s1. cbn [max_height_].
    assert (Hb : forall y, (h y <= max_height_ s)%nat -> (upd h x 0 y <= max_height_ s)%nat) by (intros y Hy; unfold upd; destruct (decide (y = x)); lia).
    split; [by apply (Forall_impl _ _ _ B1)|]. constructor; [rewrite upd_at; lia|by apply (Forall_impl _ _ _ B2)].
  - intros j y Hj. rewrite Hlev. intros Hy. by apply Hnext, (inv_links _ _ _ I).
  - apply (inv_seed _ _ _ I).
  - exact Hkey.
  - apply sublist_app; [done|by apply sublist_cons].
  - intros y Hy. unfold upd. destruct (decide (y = x)) as [->|]; [by destruct Hx'|done].
  - exists (mkNode (Some k) (replicate height None)). unfold s1. cbn [nodes next_]. rewrite lookup_app_r, Nat.sub_diag, length_replicate by done. done.
  - done.
  - done.
  - done.
Qed.
End Inserting.

(** * Whole insertions

The memories after the stores of an insertion form a history in which the list shows
    the old keys first and the old keys with the new one from one store on. *)

Lemma split_unique {A} (f : A -> bool) a b a' b' : a ++ b = a' ++ b' -> Forall (fun x => f x = true) a -> Forall (fun x => f x = true) a' ->
  Forall (fun x => f x = false) b -> Forall (fun x => f x = false) b' -> a = a'.
Proof.
  revert a'. induction a as [|x a IH]; intros [|x' a'] E Ha Ha' Hb Hb'; [done|..]; cbn [app] in E.
  - subst b. apply Forall_cons_1 in Hb as [? _], Ha' as [? _]. congruence.
  - subst b'. apply Forall_cons_1 in Hb' as [? _], Ha as [? _]. congruence.
  - injection E as -> E. apply Forall_cons_1 in Ha as [_ Ha], Ha' as [_ Ha']. f_equal. by apply (IH a').
Qed.

Lemma foldr_insert_lookup (v : option nat) l (a : list (option nat)) j : (j < length a)%nat ->
  foldr (fun i prev => <[i := v]> prev) a l !! j = if decide (j ∈ l) then Some v else a !! j.
Proof.
  intros Hj. assert (Hl : forall l, length (foldr (fun i prev => <[i := v]> prev) a l) = length a) by (intros l'; induction l' as [|i l' IH]; [done|]; cbn [foldr]; by rewrite length_insert).
  induction l as [|i l IH]; cbn [foldr]; [by destruct (decide _) as [?%elem_of_nil|]|]. destruct (decide (i = j)) as [->|Hne].
  - rewrite list_lookup_insert_eq by by rewrite Hl. rewrite decide_True; [done|]. apply elem_of_cons. by left.
  - rewrite list_lookup_insert_ne, IH by done. destruct (decide (j ∈ i :: l)) as [[->|Hjl]%elem_of_cons|Hn]; [done|by destruct (decide (j ∈ l))|].
    destruct (decide (j ∈ l)); [|done]. destruct Hn. apply elem_of_cons. by right.
Qed.

Section Tracing.
Context {Key : Type} {dom : Key -> Prop} {compare_ : Key -> Key -> Z} `{KeyOrder Key dom compare_}.
Implicit Types (s : SkipList Key) (k : Key) (order : list nat) (h : nat -> nat).
#[local] Abbreviation list_inv := (list_inv (dom := dom) (compare_ := compare_)).
#[local] Abbreviation history := (history (dom := dom) (compare_ := compare_)).

(** What a reader may see while [k] is being inserted between [a] and [b]. *)
Definition seen (a : list Key) k (b : list Key) s : Prop := keys s = a ++ b \/ keys s = a ++ k :: b.

Lemma keys_level s order h : list_inv s order h -> keys s = omap (node_key s) (on_level h 0 order).
Proof. intros I. unfold keys. by rewrite (contents_level _ _ _ I). Qed.

Lemma omap_same s s' (l : list nat) : (forall y, y ∈ l -> node_key s' y = node_key s y) -> omap (node_key s') l = omap (node_key s) l.
Proof.
  induction l as [|y l IH]; intros Hl; [done|]. cbn. rewrite Hl by (apply elem_of_cons; by left). rewrite IH; [done|]. intros z Hz. apply Hl, elem_of_cons. by right.
Qed.

Lemma keys_mid s l1 x l2 h k a b : list_inv s (l1 ++ x :: l2) h -> node_key s x = Some k -> omap (node_key s) (on_level h 0 l1) = a -> omap (node_key s) (on_level h 0 l2) = b ->
  keys s = if decide (0 < h x)%nat then a ++ k :: b else a ++ b.
Proof.
  intros I Hx <- <-. rewrite (keys_level _ _ _ I), on_level_mid, omap_app. destruct (decide _); cbn [app]; [cbn; by rewrite Hx|done].
Qed.

Section Links.
Context (x : nat) (k : Key) (l1 l2 : list nat) (a b : list Key) (height : nat).

(** The state of the loop before the round of level [i]. *)
Record linking s h (i : nat) : Prop := mkLinking {
  linking_inv : list_inv s (l1 ++ x :: l2) h;
  linking_own : h x = i /\ node_key s x = Some k /\ has_levels s x height /\ (height <= max_height_ s)%nat;
  linking_keys : omap (node_key s) (on_level h 0 l1) = a /\ omap (node_key s) (on_level h 0 l2) = b
}.

Lemma linking_seen s h i : linking s h i -> seen a k b s /\ ((0 < i)%nat -> keys s = a ++ k :: b).
Proof.
  intros [I (Hx & Hk & _) (Ha & Hb)]. rewrite <- Hx. unfold seen. rewrite (keys_mid s l1 x l2 h k a b) by done. destruct (decide _) as [|Hn]; [by split; [right|]|].
  split; [by left|]. intros Hi. by destruct Hn.
Qed.

Lemma linking_kept s h i s' h' i' y v j : linking s h i -> stored s y j v s' -> list_inv s' (l1 ++ x :: l2) h' -> h' x = i' -> (forall z, z <> x -> h' z = h z) -> x ∉ l1 -> x ∉ l2 -> linking s' h' i'.
Proof.
  intros [I (Hx & Hk & Hl & Hm) (Ha & Hb)] [S1 S2 S3 (S4 & S5 & S6)] I' Hx' Hh' X1 X2. constructor; [done|..].
  - split; [done|]. rewrite S1, S5. split; [done|]. split; [by apply S3|done].
  - assert (E : forall l, x ∉ l -> omap (node_key s') (on_level h' 0 l) = omap (node_key s) (on_level h 0 l)); [|by rewrite !E].
    intros l Hl'. rewrite (omap_same s s') by (intros; apply S1). f_equal. clear -Hh' Hl'. induction l as [|z l IH]; [done|]. apply not_elem_of_cons in Hl' as [Hz Hl].
    unfold on_level in *. rewrite !filter_cons, IH, Hh' by done. done.
Qed.

Lemma on_level_off h h' j l : x ∉ l -> (forall z, z <> x -> h' z = h z) -> on_level h' j l = on_level h j l.
Proof.
  intros Hl Hh. induction l as [|z l IH]; [done|]. apply not_elem_of_cons in Hl as [Hz Hl]. unfold on_level in *. rewrite !filter_cons, IH, Hh by done. done.
Qed.

Lemma linking_fresh s h i : linking s h i -> x ∉ l1 /\ x ∉ l2.
Proof.
  intros [I _ _]. pose proof (inv_nodup _ _ _ I) as [_ Hnd]%NoDup_cons. apply NoDup_app in Hnd as (_ & Hd & [Hx _]%NoDup_cons). split; [|done].
  intros Hx1. apply (Hd x Hx1), elem_of_cons. by left.
Qed.

(** A round of the loop. *)
Lemma link_round s h i p : linking s h i -> (i < height)%nat -> List.last (on_level h i l1) head_ = p ->
  exists next s1 s2, NoBarrier_Next s p i = Some next /\ NoBarrier_SetNext s x i next = Some s1 /\ SetNext s1 p i (Some x) = Some s2 /\
    linking s1 h i /\ linking s2 (upd h x (S i)) (S i) /\ later s (l1 ++ x :: l2) h s1 (l1 ++ x :: l2) h /\ later s1 (l1 ++ x :: l2) h s2 (l1 ++ x :: l2) (upd h x (S i)).
Proof.
  intros L Hi Hp. destruct (linking_fresh _ _ _ L) as [X1 X2]. pose proof L as [I (Hx & Hk & Hl & Hm) _]. destruct (inv_height _ _ _ I) as [Hmax _].
  assert (Hpl : p ∈ head_ :: on_level h i (l1 ++ x :: l2)).
  { rewrite <- Hp, on_level_mid. clear. destruct (on_level h i l1) as [|z l]; [apply elem_of_cons; by left|]. destruct (exists_last (l := z :: l) ltac:(done)) as (u & w & ->).
    rewrite last_last. apply elem_of_cons. right. apply elem_of_app. left. apply elem_of_app. right. by apply list_elem_of_singleton. }
  assert (Hn : Next s p i = Some (head (on_level h i l2))).
  { rewrite (inv_links _ _ _ I i p) by (done || lia). f_equal. rewrite on_level_mid, Hx. destruct (decide (i < i)%nat); [lia|]. cbn [app].
    pose proof (level_nodup _ _ _ i I) as Hnd. rewrite on_level_mid, Hx in Hnd. destruct (decide (i < i)%nat); [lia|]. cbn [app] in Hnd.
    rewrite <- Hp. revert Hnd. clear. destruct (on_level h i l1) as [|z l]; intros Hnd; [by cbn; destruct (decide (head_ = head_))|].
    destruct (exists_last (l := z :: l) ltac:(done)) as (u & w & E). rewrite E in *. rewrite last_last. rewrite <- app_assoc in *.
    apply (f_equal head), (after_at w (head_ :: u)). apply (NoDup_app (head_ :: u)) in Hnd as (_ & Hd & _). intros Hw. apply (Hd w Hw), elem_of_cons. by left. }
  destruct (SetNext_stored s x i (head (on_level h i l2)) height Hl Hi) as (s1 & E1 & S1). destruct (Next_levels _ _ _ _ Hn) as (n & Hpn & Hin).
  destruct (SetNext_stored s1 p i (Some x) n (stored_levels _ _ _ _ _ S1 _ _ Hpn) Hin) as (s2 & E2 & S2).
  assert (I1 : list_inv s1 (l1 ++ x :: l2) h) by (apply (store_own s _ _ x i (head (on_level h i l2)) s1 I); [apply elem_of_app; right; apply elem_of_cons; by left|done|done]).
  assert (L1 : linking s1 h i) by (apply (linking_kept s h i s1 h i x (head (on_level h i l2)) i); done).
  assert (Hlt : forall y, y ∈ l1 ++ x :: l2 -> (h y <= upd h x (S i) y)%nat) by (intros y _; unfold upd; destruct (decide (y = x)) as [->|]; lia).
  exists (head (on_level h i l2)), s1, s2. do 4 (split; [done|]). split; [|split; constructor].
  - apply (linking_kept s1 h i s2 _ _ p (Some x) i); [done|done| |apply upd_at|intros z Hz; unfold upd; by destruct (decide (z = x))|done|done].
    apply (store_prev s1 l1 x l2 h i p); [done|done| |done| |done].
    + destruct S1 as [_ _ _ (_ & -> & _)]. lia.
    + rewrite (stored_next _ _ _ _ _ S1). by destruct (decide (x = x /\ i = i)) as [|[]].
  - intros y ky. by rewrite (stored_key _ _ _ _ _ S1).
  - done.
  - done.
  - intros y ky. by rewrite (stored_key _ _ _ _ _ S2).
  - done.
  - done.
Qed.

Lemma Insert_links_trace n i s h prev : linking s h i -> (i + n = height)%nat -> (forall j, (i <= j < height)%nat -> prev !! j = Some (Some (List.last (on_level h j l1) head_))) ->
  exists trace s' h', Insert_links n i x prev s = Some (trace, s') /\ history (seen a k b) s (l1 ++ x :: l2) h trace s' (l1 ++ x :: l2) h' /\
    linking s' h' height /\ (forall z, z <> x -> h' z = h z).
Proof.
  revert i s h. induction n as [|n IH]; intros i s h L Hn Hprev.
  - exists [], s, h. split; [done|]. split; [constructor|]. by replace height with i by lia.
  - destruct (link_round s h i _ L ltac:(lia) eq_refl) as (next & s1 & s2 & E1 & E2 & E3 & L1 & L2 & T1 & T2). cbn [Insert_links].
    rewrite Hprev by lia. cbn [mbind option_bind id]. rewrite E1. cbn [mbind option_bind]. rewrite E2. cbn [mbind option_bind]. rewrite E3. cbn [mbind option_bind].
    destruct (linking_fresh _ _ _ L) as [X1 X2].
    destruct (IH (S i) s2 _ L2 ltac:(lia)) as (trace & s' & h' & E & Hh & L' & Hz).
    { intros j Hj. rewrite Hprev by lia. by rewrite on_level_upd. }
    rewrite E. cbn [mbind option_bind]. exists (s1 :: s2 :: trace), s', h'. split; [done|]. split; [|split; [done|]].
    + apply (history_cons _ _ _ _ s1 (l1 ++ x :: l2) h); [apply L1|done|by apply (linking_seen s1 h i)|].
      apply (history_cons _ _ _ _ s2 (l1 ++ x :: l2) (upd h x (S i))); [apply L2|done|by apply (linking_seen s2 _ _ L2)|done].
    + intros z Hzx. rewrite Hz by done. unfold upd. by destruct (decide (z = x)).
Qed.
End Links.

(** ** An insertion *)

Lemma below_down k : dom k -> forall k1 k2, dom k1 -> dom k2 -> compare_ k1 k2 < 0 -> (compare_ k2 k <? 0) = true -> (compare_ k1 k <? 0) = true.
Proof. intros Hk k1 k2 D1 D2 Hlt Hb%Z.ltb_lt. apply Z.ltb_lt, (key_lt_le k1 k2 k); [done|done|done|done|lia]. Qed.

Lemma FindGreaterOrEqual_descend view fuel n k prev x level :
  FindGreaterOrEqual_loop compare_ view fuel n k prev x level = ('(_, next, prev) ← descend (fun k' => compare_ k' k <? 0) view fuel n prev x level; Some (next, prev)).
Proof.
  revert n prev x level. induction fuel as [|fuel IH]; intros n prev x level; [done|]. cbn [FindGreaterOrEqual_loop descend].
  destruct (Next (view n) x level) as [next|]; [|done]. cbn [mbind option_bind]. unfold KeyIsAfterNode, goes_on. destruct next as [y|]; cbn [mbind option_bind].
  - destruct (node_key (view n) y) as [ky|]; [|done]. cbn [mbind option_bind]. destruct (compare_ ky k <? 0); [apply IH|]. destruct level; [done|]. apply IH.
  - destruct level; [done|]. apply IH.
Qed.

(** The place of a new key. *)
Lemma order_split s order h k : list_inv s order h -> dom k -> (forall x kx, x ∈ order -> node_key s x = Some kx -> compare_ kx k <> 0) ->
  exists l1 l2, order = l1 ++ l2 /\ Forall (key_below (compare_ := compare_) s k) l1 /\ Forall (key_above (compare_ := compare_) s k) l2.
Proof.
  intros I Hk Hf. pose proof (inv_sorted _ _ _ I) as Hs. pose proof (inv_keys _ _ _ I) as Hd. clear I. induction Hs as [|x l Hs IH Hx]; [by exists [], []|].
  apply Forall_cons_1 in Hd as [(kx & Ex & Dx) Hd]. pose proof (Hf x kx ltac:(apply elem_of_cons; by left) Ex) as Hne.
  destruct IH as (l1 & l2 & -> & H1 & H2); [intros y ky Hy; apply Hf, elem_of_cons; by right|done|]. destruct (Z.ltb_spec (compare_ kx k) 0) as [Hlt|Hge].
  - exists (x :: l1), l2. split; [done|]. split; [constructor; [by exists kx|done]|done].
  - exists [], (x :: l1 ++ l2). split; [done|]. split; [done|]. pose proof (key_sym kx k Dx Hk) as Hsym. constructor; [exists kx; split; [done|lia]|].
    rewrite Forall_forall in *. intros y Hy. destruct (Hx y Hy) as (ka & ky & Ea & Ey & Hlt). destruct (Hd y Hy) as (ky' & Ey' & Dy).
    assert (ky' = ky /\ ka = kx) as [-> ->] by (split; congruence). exists ky. split; [done|]. apply (key_le_lt k kx ky); [done|done|done|lia|done].
Qed.

(** What the search leaves in [prev]: the last node before the key on each level. *)
Lemma search_prev s order h k l1 l2 : list_inv s order h -> dom k -> order = l1 ++ l2 -> Forall (key_below (compare_ := compare_) s k) l1 -> Forall (key_above (compare_ := compare_) s k) l2 ->
  exists next prev, FindGreaterOrEqual compare_ (fun _ => s) (loads s) (GetMaxHeight s) k (Some (replicate kMaxHeight None)) = Some (next, Some prev) /\
    next = head (on_level h 0 l2) /\ length prev = kMaxHeight /\ forall i, (i < max_height_ s)%nat -> prev !! i = Some (Some (List.last (on_level h i l1) head_)).
Proof.
  intros I Hk Ho H1 H2. destruct (inv_height _ _ _ I) as [Hm _]. set (before := fun k' => compare_ k' k <? 0).
  pose proof (Permutation_length (inv_nodes _ _ _ I)) as Hlen. rewrite length_seq in Hlen.
  destruct (search_ends before (below_down k Hk) (fun _ => s) (fun _ => order) (fun _ => h) order (fun _ => I) (fun _ => later_refl _ _ _) (fun _ => reflexivity _) (inv_nodup _ _ _ I)
    (loads s) (max_height_ s) (Some (replicate kMaxHeight None)) Hm ltac:(unfold loads; lia)) as (m & x & next & prev' & E & _ & Hst & Hfi & _).
  destruct Hfi as (prev & -> & El & _ & Hfi). rewrite length_replicate in *. exists next, prev. unfold FindGreaterOrEqual, GetMaxHeight. rewrite FindGreaterOrEqual_descend. fold before. rewrite E.
  split; [done|].
  assert (B1 : forall i, Forall (fun y => node_is_before before s y = true) (on_level h i l1)).
  { intros i. apply Forall_forall. intros y [Hy _]%on_level_in. destruct (proj1 (Forall_forall _ _) H1 y Hy) as (ky & Ey & Hlt). unfold node_is_before, before. rewrite Ey. by apply Z.ltb_lt. }
  assert (B2 : forall i, Forall (fun y => node_is_before before s y = false) (on_level h i l2)).
  { intros i. apply Forall_forall. intros y [Hy _]%on_level_in. destruct (proj1 (Forall_forall _ _) H2 y Hy) as (ky & Ey & Hlt). unfold node_is_before, before. rewrite Ey. apply Z.ltb_ge.
    destruct (inv_key s order h y I) as (ky' & Ey' & Dy); [subst order; apply elem_of_app; by right|]. assert (ky' = ky) as -> by congruence. pose proof (key_sym k ky Hk Dy). lia. }
  assert (Hcut : forall i p nx, (i < kMaxHeight)%nat -> placed before s order h p i -> Next s p i = Some nx -> goes_on before s nx = Some false ->
    List.last (on_level h i l1) head_ = p /\ nx = head (on_level h i l2)).
  { intros i p nx Hi Hp Hn Hg. destruct (level_cut before (below_down k Hk) s order h i p I Hi Hp nx Hn Hg) as (l & Eo & Hl & Hb & Ha & ->). set (r := after _ _) in *. clearbody r.
    rewrite Ho, on_level_app in Eo. assert (l = on_level h i l1) as -> by (symmetry; by apply (split_unique (node_is_before before s) _ (on_level h i l2) _ r)).
    split; [done|]. apply app_inv_head in Eo. by rewrite Eo. }
  split; [|split; [done|]].
  - destruct Hst as (P & N & G). exact (proj2 (Hcut 0%nat x next ltac:(unfold kMaxHeight; lia) P N G)).
  - intros i Hi. destruct (Hfi eq_refl i ltac:(lia)) as (p & nx & m' & Ep & P & N & G). rewrite Ep. do 2 f_equal. symmetry. exact (proj1 (Hcut i p nx ltac:(lia) P N G)).
Qed.

Lemma level_empty s order h i l : list_inv s order h -> (max_height_ s <= i)%nat -> l ⊆ order -> on_level h i l = [].
Proof.
  intros I Hi Hl. apply filter_none, Forall_forall. intros y Hy. pose proof (proj1 (Forall_forall _ _) (proj2 (inv_height _ _ _ I)) y (Hl y Hy)). cbn in *. lia.
Qed.

(** The array after the new levels have been given to the head. *)
Lemma raised_prev s order h l1 l2 prev (height j : nat) : list_inv s order h -> order = l1 ++ l2 -> length prev = kMaxHeight -> (height <= kMaxHeight)%nat ->
  (forall i, (i < max_height_ s)%nat -> prev !! i = Some (Some (List.last (on_level h i l1) head_))) -> (j < height)%nat ->
  (if (max_height_ s <? height)%nat then foldr (fun i prev => <[i := Some head_]> prev) prev (seq (max_height_ s) (height - max_height_ s)) else prev) !! j
  = Some (Some (List.last (on_level h j l1) head_)).
Proof.
  intros I -> Hlen Hh Hp Hj. destruct (Nat.ltb_spec (max_height_ s) height).
  - rewrite foldr_insert_lookup by lia. destruct (decide _) as [Hin%elem_of_seq|Hin]; [|apply Hp; rewrite elem_of_seq in Hin; lia].
    rewrite (level_empty s (l1 ++ l2) h j l1) by first [done|lia|by intros y Hy; apply elem_of_app; left]. done.
  - apply Hp. lia.
Qed.

(** Every node is on the lowest level while nobody inserts. *)
Definition all_linked order h : Prop := Forall (fun x => (1 <= h x)%nat) order.

Lemma Insert_trace s order h k : list_inv s order h -> all_linked order h -> dom k -> (forall x kx, x ∈ order -> node_key s x = Some kx -> compare_ kx k <> 0) ->
  exists trace s' order' h' a b, Insert compare_ s k = Some (trace, s') /\ keys s = a ++ b /\ keys s' = a ++ k :: b /\
    history (seen a k b) s order h trace s' order' h' /\ list_inv s' order' h' /\ all_linked order' h'.
Proof.
  intros I Hall Hk Hf. destruct (order_split s order h k I Hk Hf) as (l1 & l2 & Ho & H1 & H2).
  destruct (search_prev s order h k l1 l2 I Hk Ho H1 H2) as (next & prev & Es & En & Elen & Hprev). unfold Insert. rewrite Es. cbn [mbind option_bind].
  assert (Habs : match next with None => Some true | Some x => kx ← node_key s x; Some (negb (Equal compare_ k kx)) end = Some true).
  { destruct next as [x|]; [|done]. assert (Hx : x ∈ on_level h 0 l2) by (destruct (on_level h 0 l2); [done|injection En as ->; apply elem_of_cons; by left]).
    apply on_level_in in Hx as [Hx _]. destruct (proj1 (Forall_forall _ _) H2 x Hx) as (kx & Ex & Hlt). rewrite Ex. cbn. unfold Equal. by destruct (Z.eqb_spec (compare_ k kx) 0); [lia|]. }
  rewrite Habs. clear Habs. pose proof (RandomHeight_spec _ (inv_seed _ _ _ I)) as Hr. destruct (RandomHeight (rnd_ s)) as [height rnd]. destruct Hr as [Hh Hrnd].
  destruct (inv_height _ _ _ I) as [Hm _]. unfold GetMaxHeight.
  pose proof (fun j => raised_prev s order h l1 l2 prev height j I Ho Elen ltac:(lia) Hprev) as Hprev'. set (mh := Nat.max (max_height_ s) height).
  set (raised := if (max_height_ s <? height)%nat then [mkSkipList (nodes s) height rnd] else []).
  set (prev' := if (max_height_ s <? height)%nat then foldr (fun i prev => <[i := Some head_]> prev) prev (seq (max_height_ s) (height - max_height_ s)) else prev) in *.
  replace (if (max_height_ s <? height)%nat then _ else _) with (prev', mh, raised) by (unfold prev', mh, raised; destruct (Nat.ltb_spec (max_height_ s) height); f_equal; f_equal; lia).
  set (s0 := mkSkipList (nodes s) mh rnd). destruct (raise_inv s order h mh rnd I ltac:(lia) Hrnd) as [I0 T0]. fold s0 in I0, T0.
  pose proof (allocated s0 order h k height l1 l2 I0 Ho Hk H1 H2) as Ha. destruct (NewNode s0 (Some k) height) as [x s1]. destruct Ha as (I1 & T1 & Hlv & Hkx & Hx & Em).
  set (a := omap (node_key s) (on_level h 0 l1)). set (b := omap (node_key s) (on_level h 0 l2)).
  assert (Hab : keys s = a ++ b) by (rewrite (keys_level _ _ _ I), Ho, on_level_app, omap_app; done).
  assert (Hab0 : keys s0 = a ++ b) by (rewrite (keys_level _ _ _ I0), Ho, on_level_app, omap_app; done).
  assert (Hx12 : x ∉ l1 /\ x ∉ l2) by (rewrite Ho in Hx; by apply not_elem_of_app). destruct Hx12 as [X1 X2].
  assert (Hsame : forall l, l ⊆ order -> omap (node_key s1) (on_level (upd h x 0) 0 l) = omap (node_key s) (on_level h 0 l)).
  { intros l Hl. rewrite on_level_upd by (intros Hxl; by apply Hx, Hl). apply omap_same. intros y [Hy _]%on_level_in.
    destruct (inv_key _ _ _ _ I (Hl y Hy)) as (ky & Ey & _). rewrite Ey. by apply (later_keys _ _ _ _ _ _ T1). }
  assert (L1 : linking x k l1 l2 a b height s1 (upd h x 0) 0).
  { constructor; [done|split; [apply upd_at|split; [done|split; [done|rewrite Em; cbn [s0 max_height_]; lia]]]|].
    split; apply Hsame; rewrite Ho; intros y Hy; apply elem_of_app; [by left|by right]. }
  destruct (Insert_links_trace x k l1 l2 a b height height 0 s1 (upd h x 0) prev' L1 ltac:(lia)) as (trace & s' & h' & El & Hh' & L' & Hz).
  { intros j Hj. rewrite on_level_upd by done. apply Hprev'. lia. }
  cbn [mbind option_bind]. rewrite El. cbn [mbind option_bind]. exists (raised ++ s1 :: trace), s', (l1 ++ x :: l2), h', a, b. split; [done|]. split; [done|].
  split; [by apply (proj2 (linking_seen x k l1 l2 a b height s' h' height L')); lia|]. split; [|split; [apply L'|]].
  - assert (Hrest : forall t, later t order h s1 (l1 ++ x :: l2) (upd h x 0) -> history (seen a k b) t order h (s1 :: trace) s' (l1 ++ x :: l2) h').
    { intros t Ht. apply (history_cons _ _ _ _ s1 (l1 ++ x :: l2) (upd h x 0)); [apply L1|done|by apply (linking_seen x k l1 l2 a b height s1 (upd h x 0) 0)|done]. }
    unfold raised. destruct (Nat.ltb_spec (max_height_ s) height) as [Hlt|Hge]; cbn [app].
    + replace (mkSkipList (nodes s) height rnd) with s0 by (unfold s0, mh; f_equal; lia). apply (history_cons _ _ _ _ s0 order h); [done|done|by left|by apply Hrest].
    + apply Hrest. apply (later_trans _ _ _ s0 order h); [done|done].
  - unfold all_linked in *. rewrite Ho in Hall. apply Forall_app in Hall as [A1 A2]. apply Forall_app.
    split; [|constructor; [destruct L' as [_ (-> & _) _]; lia|]]; rewrite Forall_forall in *; intros y Hy; (rewrite Hz; [unfold upd; destruct (decide (y = x)) as [->|]; [done|auto]|by intros ->]).
Qed.
End Tracing.
