(* ===== verification/LdbSkipUse.v ===== *)
(** * The skip list: one writer and readers without locks (leveldb: db/skiplist.h)

    The memories that a writer's insertions go through show one sorted list after
    another, each key added at once; a read whose loads find any of these memories, in
    their order, gives what it would give alone at the moment of its last load. *)

From Stdlib Require Import Sorted.
From stdpp Require Import list sorting.
From S2P Require Import Prelude LdbSkipList LdbSkipSearch LdbSkipInsert.

(** ** The empty list *)

Lemma SkipList_new_some {Key : Type} : SkipList_new (Key := Key) = Some (mkSkipList [mkNode None (replicate kMaxHeight (Some None))] 1 (Random_new 0xdeadbeef)).
Proof. reflexivity. Qed.

Section Using.
Context {Key : Type} {dom : Key -> Prop} {compare_ : Key -> Key -> Z} `{KeyOrder Key dom compare_}.
Implicit Types (s : SkipList Key) (k : Key) (order : list nat) (h : nat -> nat).
#[local] Abbreviation list_inv := (list_inv (dom := dom) (compare_ := compare_)).
#[local] Abbreviation history := (history (dom := dom) (compare_ := compare_)).

Lemma new_inv : list_inv (mkSkipList [mkNode None (replicate kMaxHeight (Some None))] 1 (Random_new 0xdeadbeef)) [] (fun _ => 0%nat).
Proof.
  constructor; cbn [max_height_ rnd_ nodes length].
  - reflexivity.
  - reflexivity.
  - constructor.
  - constructor.
  - split; [unfold kMaxHeight; lia|constructor].
  - intros i x Hi Hx. apply list_elem_of_singleton in Hx as ->. unfold kMaxHeight in Hi. do 12 (destruct i as [|i]; [reflexivity|]). lia.
  - apply Random_new_ok. lia.
Qed.

(** ** A writer *)

(** No two keys that compare equal. *)
Definition unlike (ks : list Key) : Prop := ForallOrdPairs (fun a b => compare_ a b <> 0) ks.

Lemma unlike_app K k ks : unlike (K ++ k :: ks) -> Forall (fun a => compare_ a k <> 0) K.
Proof.
  intros Hu. induction K as [|a K IH]; [constructor|]. inversion Hu as [|? ? Ha Hr]; subst. constructor; [|by apply IH].
  by apply Forall_app in Ha as [_ [? _]%Forall_cons_1].
Qed.

Lemma keys_in s order h x kx : list_inv s order h -> all_linked order h -> x ∈ order -> node_key s x = Some kx -> kx ∈ keys s.
Proof.
  intros I Hall Hx Ek. rewrite (keys_level _ _ _ I). apply list_elem_of_omap. exists x. split; [|done]. apply on_level_in. split; [done|].
  exact (proj1 (Forall_forall _ _) Hall x Hx).
Qed.

Lemma Inserts_trace ks K s order h : list_inv s order h -> all_linked order h -> keys s ≡ₚ K -> Forall dom ks -> unlike (K ++ ks) ->
  exists trace s' order' h', Inserts compare_ s ks = Some (trace, s') /\ keys s' ≡ₚ K ++ ks /\
    history (fun t => exists n, keys t ≡ₚ K ++ take n ks) s order h trace s' order' h' /\ list_inv s' order' h' /\ all_linked order' h'.
Proof.
  revert K s order h. induction ks as [|k ks IH]; intros K s order h I Hall HK Hd Hu; cbn [Inserts].
  - exists [], s, order, h. rewrite app_nil_r. split; [done|]. split; [done|]. split; [constructor|done].
  - apply Forall_cons_1 in Hd as [Hk Hd].
    destruct (Insert_trace s order h k I Hall Hk) as (t1 & s1 & order1 & h1 & a & b & E & Eab & Eakb & Hh & I1 & Hall1).
    { intros x kx Hx Ek. apply (proj1 (Forall_forall _ _) (unlike_app K k ks Hu)). rewrite <- HK. by apply (keys_in s order h x). }
    assert (HK1 : keys s1 ≡ₚ K ++ [k]) by (rewrite Eakb, <- Permutation_middle, <- Eab, HK; apply Permutation_cons_append).
    destruct (IH (K ++ [k]) s1 order1 h1 I1 Hall1 HK1 Hd) as (t2 & s2 & order2 & h2 & E2 & HK2 & Hh2 & I2 & Hall2); [by rewrite <- app_assoc|].
    rewrite E. cbn [mbind option_bind]. rewrite E2. cbn [mbind option_bind]. exists (t1 ++ t2), s2, order2, h2. split; [done|]. split; [by rewrite HK2, <- app_assoc|].
    split; [|done]. apply (history_app _ _ _ _ _ s1 order1 h1).
    + apply (history_impl (seen a k b)); [|done]. intros t [Et|Et]; [exists 0%nat|exists 1%nat]; rewrite Et; cbn [take].
      * by rewrite app_nil_r, <- Eab.
      * by rewrite take_0, <- HK1, Eakb.
    + apply (history_impl (fun t => exists n, keys t ≡ₚ (K ++ [k]) ++ take n ks)); [|done]. intros t [n Hn]. exists (S n). by rewrite Hn, <- app_assoc.
Qed.

Lemma keys_sorted s order h : list_inv s order h -> StronglySorted (fun a b => compare_ a b < 0) (keys s).
Proof.
  intros I. rewrite (keys_level _ _ _ I). pose proof (sorted_sublist _ order (on_level h 0 order) (sublist_filter _ _) (inv_sorted _ _ _ I)) as Hs.
  induction Hs as [|x l Hs IH Hx]; [constructor|]. cbn. destruct (node_key s x) as [kx|] eqn:Ex; [|done]. constructor; [done|]. apply Forall_forall.
  intros ky Hy. apply list_elem_of_omap in Hy as (y & Hy & Ey). destruct (proj1 (Forall_forall _ _) Hx y Hy) as (ka & kb & Ea & Eb & Hlt). congruence.
Qed.

Lemma history_states P s order h t s' order' h' : history P s order h t s' order' h' -> Forall (fun u => P u /\ StronglySorted (fun a b => compare_ a b < 0) (keys u)) t.
Proof. induction 1; constructor; [|done]. split; [done|]. by eapply keys_sorted. Qed.

(** ** Readers *)

#[local] Abbreviation memory := (SkipList Key * list nat * (nat -> nat))%type.
Definition mem_inv (m : memory) : Prop := list_inv (fst (fst m)) (snd (fst m)) (snd m).
Definition mem_later (m m' : memory) : Prop := later (fst (fst m)) (snd (fst m)) (snd m) (fst (fst m')) (snd (fst m')) (snd m').

Lemma mem_later_trans m1 m2 m3 : mem_later m1 m2 -> mem_later m2 m3 -> mem_later m1 m3.
Proof. apply later_trans. Qed.

(** The memories of a history with their orders and levels. *)
Lemma history_memories P s order h t s' order' h' : history P s order h t s' order' h' -> list_inv s order h ->
  exists ms : list memory, map (fun m => fst (fst m)) ms = t /\ Forall mem_inv ((s, order, h) :: ms) /\ StronglySorted mem_later ((s, order, h) :: ms) /\
    Forall (fun m => mem_later m (s', order', h')) ((s, order, h) :: ms).
Proof.
  induction 1 as [s order h|s order h s1 order1 h1 t s' order' h' I1 L1 _ Hh IH]; intros I.
  - exists []. split; [done|]. split; [constructor; [exact I|constructor]|]. split; [constructor; constructor|]. constructor; [apply later_refl|constructor].
  - destruct (IH I1) as (ms & E & Hi & Hs & Hl). exists ((s1, order1, h1) :: ms). split; [cbn; by rewrite E|]. split; [by constructor|]. split.
    + constructor; [done|]. apply StronglySorted_inv in Hs as [_ Hs]. constructor; [done|]. apply (Forall_impl _ _ _ Hs). intros m. by apply (mem_later_trans (s, order, h)).
    + constructor; [|done]. apply Forall_cons_1 in Hl as [Hl _]. by apply (mem_later_trans _ (s1, order1, h1)).
Qed.

Lemma sorted_le {A} (R : A -> A -> Prop) (l : list A) d i j : (forall x, R x x) -> StronglySorted R l -> (i <= j)%nat -> (j < length l)%nat -> R (nth i l d) (nth j l d).
Proof.
  intros Hr Hs. revert i j. induction Hs as [|x l Hs IH Hx]; intros i j Hij Hj; [cbn in Hj; lia|]. destruct j as [|j]; [by replace i with 0%nat by lia|]. cbn [length] in Hj.
  destruct i as [|i]; [|apply IH; lia]. cbn [nth]. apply (proj1 (Forall_forall _ _) Hx), list_elem_of_In, nth_In. lia.
Qed.

(** The other searches are descents too. *)
Section Descents.
Context (view : nat -> SkipList Key) (ord : nat -> list nat) (hh : nat -> nat -> nat) (ofin : list nat).
Context (Hinv : forall n, list_inv (view n) (ord n) (hh n)) (Hlater : forall n, later (view n) (ord n) (hh n) (view (S n)) (ord (S n)) (hh (S n))).
Context (Hfin : forall n, ord n `sublist_of` ofin) (Hnd : NoDup (head_ :: ofin)).

Lemma FindLessThan_descend fuel n k x level x' next : dom k -> (level < kMaxHeight)%nat -> placed (fun k' => compare_ k' k <? 0) (view n) (ord n) (hh n) x level ->
  descend (fun k' => compare_ k' k <? 0) view fuel n None x level = Some (x', next, None) -> FindLessThan_loop compare_ view fuel n k x level = Some x'.
Proof.
  intros Hk. revert n x level. induction fuel as [|fuel IH]; intros n x level Hl Hp; [done|]. cbn [FindLessThan_loop descend].
  assert (Ea : (if (x =? head_)%nat then Some true else kx ← node_key (view n) x; Some (compare_ kx k <? 0)) = Some true).
  { destruct (Nat.eqb_spec x head_) as [->|Hne]; [done|]. destruct Hp as [|[_ Hb]]; [done|]. unfold node_is_before in Hb. destruct (node_key (view n) x); [|done]. cbn. by rewrite Hb. }
  rewrite Ea. cbn [mbind option_bind]. destruct (Next (view n) x level) as [nx|] eqn:En; [|done]. cbn [mbind option_bind]. unfold goes_on.
  assert (Hstop : match level with O => Some (x, nx, None) | S level => descend (fun k' => compare_ k' k <? 0) view fuel (S n) None x level end = Some (x', next, None) ->
    match level with O => Some x | S level => FindLessThan_loop compare_ view fuel (S n) k x level end = Some x').
  { destruct level as [|level]; [by intros [= -> _]|]. apply IH; [lia|]. apply (placed_later _ _ _ _ _ _ _ _ _ (Hinv n) (Hlater n)). by apply placed_down. }
  destruct nx as [y|]; cbn [mbind option_bind]; [|exact Hstop]. destruct (node_key (view n) y) as [ky|] eqn:Ey; [|done]. cbn [mbind option_bind]. rewrite Z.geb_leb.
  destruct (Z.ltb_spec (compare_ ky k) 0) as [Hlt|Hge], (Z.leb_spec 0 (compare_ ky k)); [lia| |exact Hstop|lia]. apply IH; [done|].
  destruct (next_goes_on _ view ord hh ofin Hinv Hfin Hnd _ _ _ _ Hp Hl En) as (ky' & Ey' & Hy & _). apply (placed_later _ _ _ _ _ _ _ _ _ (Hinv n) (Hlater n)). right. split; [done|].
  unfold node_is_before. rewrite Ey. by apply Z.ltb_lt.
Qed.

Lemma FindLast_descend fuel n x level x' next : descend (fun _ => true) view fuel n None x level = Some (x', next, None) -> FindLast_loop view fuel n x level = Some x'.
Proof.
  revert n x level. induction fuel as [|fuel IH]; intros n x level; [done|]. cbn [FindLast_loop descend]. destruct (Next (view n) x level) as [nx|]; [|done]. cbn [mbind option_bind].
  unfold goes_on. destruct nx as [y|]; cbn [mbind option_bind].
  - destruct (node_key (view n) y); [|done]. cbn [mbind option_bind]. apply IH.
  - destruct level as [|level]; [by intros [= -> _]|]. apply IH.
Qed.
End Descents.

(** The node that a search ends at decides whether the key is there. *)
Lemma found_sorted s k l : dom k -> StronglySorted (node_before (compare_ := compare_) s) l -> Forall (fun x => exists kx, node_key s x = Some kx /\ dom kx) l ->
  match find (fun x => negb (is_before compare_ s k x)) l with
  | None => existsb (Equal compare_ k) (omap (node_key s) l) = false
  | Some y => exists ky, node_key s y = Some ky /\ existsb (Equal compare_ k) (omap (node_key s) l) = Equal compare_ k ky
  end.
Proof.
  intros Hk Hs. induction Hs as [|x l Hs IH Hx]; intros Hd; [done|]. apply Forall_cons_1 in Hd as [(kx & Ex & Dx) Hd]. specialize (IH Hd). pose proof (key_sym kx k Dx Hk) as Hsym.
  cbn [find]. unfold is_before at 1. rewrite Ex. cbn [omap list_omap]. rewrite Ex. cbn [existsb]. destruct (Z.ltb_spec (compare_ kx k) 0) as [Hlt|Hge]; cbn [negb].
  - replace (Equal compare_ k kx) with false by (unfold Equal; symmetry; apply Z.eqb_neq; lia). exact IH.
  - exists kx. split; [done|]. unfold Equal at 1 3. destruct (Z.eqb_spec (compare_ k kx) 0) as [He|Hne]; [done|]. cbn [orb]. apply not_true_is_false. intros (ky & Hy & E)%existsb_exists.
    apply list_elem_of_In, list_elem_of_omap in Hy as (y & Hy & Ey). destruct (proj1 (Forall_forall _ _) Hx y Hy) as (ka & kb & Ea & Eb & Hlt).
    destruct (proj1 (Forall_forall _ _) Hd y Hy) as (kd & Ed & Dd). assert (ka = kx /\ kb = kd /\ ky = kd) as (-> & -> & ->) by (split_and!; congruence).
    apply Z.eqb_eq in E. assert (Hle : compare_ k kx <= 0) by lia. pose proof (key_le_lt k kx kd Hk Dx Dd Hle Hlt). lia.
Qed.

(** The key that a search ends at. *)
Lemma first_sorted s k l : dom k -> StronglySorted (node_before (compare_ := compare_) s) l -> Forall (fun x => exists kx, node_key s x = Some kx /\ dom kx) l ->
  match find (fun x => negb (is_before compare_ s k x)) l with
  | None => Forall (fun kx => compare_ kx k < 0) (omap (node_key s) l)
  | Some y => exists ky, node_key s y = Some ky /\ ky ∈ omap (node_key s) l /\ 0 <= compare_ ky k /\ Forall (fun kx => 0 <= compare_ kx k -> compare_ ky kx <= 0) (omap (node_key s) l)
  end.
Proof.
  intros Hk Hs. induction Hs as [|x l Hs IH Hx]; intros Hd; [constructor|]. apply Forall_cons_1 in Hd as [(kx & Ex & Dx) Hd]. specialize (IH Hd).
  cbn [find]. unfold is_before at 1. rewrite Ex. cbn [omap list_omap]. rewrite Ex. destruct (Z.ltb_spec (compare_ kx k) 0) as [Hlt|Hge]; cbn [negb].
  - destruct (find _ l) as [y|]; [|by constructor]. destruct IH as (ky & Ey & Hin & Hky & Hall). exists ky. split; [done|]. split; [apply elem_of_cons; by right|]. split; [done|].
    constructor; [lia|done].
  - exists kx. split; [done|]. split; [apply elem_of_cons; by left|]. split; [done|]. constructor; [rewrite key_same by done; lia|]. apply Forall_forall.
    intros kz (z & Hz & Ez)%list_elem_of_omap _. destruct (proj1 (Forall_forall _ _) Hx z Hz) as (ka & kb & Ea & Eb & Hlt). assert (ka = kx /\ kb = kz) as [-> ->] by (split; congruence). lia.
Qed.

Lemma first_key s order h k : list_inv s order h -> dom k ->
  match first_not_before compare_ s k with
  | None => Forall (fun kx => compare_ kx k < 0) (keys s)
  | Some y => exists ky, node_key s y = Some ky /\ ky ∈ keys s /\ 0 <= compare_ ky k /\ Forall (fun kx => 0 <= compare_ kx k -> compare_ ky kx <= 0) (keys s)
  end.
Proof.
  intros I Hk. unfold first_not_before, keys. rewrite (contents_level _ _ _ I). apply first_sorted; [done| |].
  - apply (sorted_sublist _ order); [apply sublist_filter|apply I].
  - apply Forall_forall. intros x [Hx _]%on_level_in. by apply (inv_key _ _ _ _ I).
Qed.

(** ** A read while the list is written *)

(** The memories that the loads of a reader find: the [n]-th is [t n] stores after the
    first, and a reader that has seen a store does not see what was before it. *)
Definition reading s (trace : list (SkipList Key)) (t : nat -> nat) : nat -> SkipList Key := fun n => nth (t n) (s :: trace) s.
Definition schedule (trace : list (SkipList Key)) (t : nat -> nat) : Prop := forall n, (t n <= t (S n))%nat /\ (t n <= length trace)%nat.

Lemma schedule_le trace t n m : schedule trace t -> (n <= m)%nat -> (t n <= t m)%nat.
Proof. intros Ht. induction 1 as [|m Hm IH]; [done|]. pose proof (Ht m). lia. Qed.

Lemma read_ends P s order h trace s' order' h' t : history P s order h trace s' order' h' -> list_inv s order h -> list_inv s' order' h' -> schedule trace t ->
  forall fuel height k, (1 <= height <= kMaxHeight)%nat -> (kMaxHeight + length order' <= fuel)%nat -> dom k ->
  let view := reading s trace t in
  (exists m, (m < fuel)%nat /\ FindGreaterOrEqual compare_ view fuel height k None = Some (first_not_before compare_ (view m) k, None) /\
    Contains compare_ view fuel height k = Some (existsb (Equal compare_ k) (keys (view m)))) /\
  (exists m, (m < fuel)%nat /\ FindLessThan compare_ view fuel height k = Some (last_before compare_ (view m) k)) /\
  (exists m, (m < fuel)%nat /\ FindLast view fuel height = Some (last_node (view m))) /\
  (forall n m, (n <= m)%nat -> exists order h, list_inv (view n) order h /\ forall x kx, node_key (view n) x = Some kx -> node_key (view m) x = Some kx).
Proof.
  intros Hh I I' Ht fuel height k Hhe Hf Hk view. destruct (history_memories _ _ _ _ _ _ _ _ Hh I) as (ms & Ems & Hi & Hs & Hl). set (all := (s, order, h) :: ms) in *.
  set (mem := fun n => nth (t n) all (s, order, h)). assert (Hlen : forall n, (t n < length all)%nat).
  { intros n. pose proof (proj2 (Ht n)). unfold all. cbn [length]. rewrite <- Ems, length_map in *. lia. }
  assert (Ev : forall n, view n = fst (fst (mem n))).
  { intros n. unfold view, reading, mem. replace (s :: trace) with (map (fun m : memory => fst (fst m)) all) by (unfold all; cbn [map fst]; by f_equal).
    exact (map_nth (fun m : memory => fst (fst m)) all (s, order, h) (t n)). }
  assert (Hin : forall n, mem n ∈ all) by (intros n; apply list_elem_of_In, nth_In, Hlen).
  assert (V1 : forall n, list_inv (view n) (snd (fst (mem n))) (snd (mem n))) by (intros n; rewrite Ev; exact (proj1 (Forall_forall _ _) Hi _ (Hin n))).
  assert (Vle : forall n m, (n <= m)%nat -> mem_later (mem n) (mem m)) by (intros n m Hnm; apply sorted_le; [intros x; apply later_refl|done|by apply (schedule_le trace)|apply Hlen]).
  assert (V2 : forall n, later (view n) (snd (fst (mem n))) (snd (mem n)) (view (S n)) (snd (fst (mem (S n)))) (snd (mem (S n)))) by (intros n; rewrite !Ev; apply (Vle n (S n)); lia).
  assert (V3 : forall n, snd (fst (mem n)) `sublist_of` order') by (intros n; exact (later_order _ _ _ _ _ _ (proj1 (Forall_forall _ _) Hl _ (Hin n)))).
  assert (V4 : NoDup (head_ :: order')) by exact (inv_nodup _ _ _ I'). split; [|split; [|split]].
  - destruct (search_ends _ (below_down k Hk) view _ _ order' V1 V2 V3 V4 fuel height None Hhe Hf) as (m & x & next & prev & E & Hm & _ & -> & Hfirst & _).
    change (find _ (contents (view m))) with (first_not_before compare_ (view m) k) in Hfirst. exists m. split; [done|].
    assert (EF : FindGreaterOrEqual compare_ view fuel height k None = Some (first_not_before compare_ (view m) k, None)).
    { unfold FindGreaterOrEqual. by rewrite FindGreaterOrEqual_descend, E, Hfirst. }
    split; [done|]. unfold Contains. rewrite EF. cbn [mbind option_bind].
    pose proof (sorted_sublist _ _ _ (sublist_filter (fun x => (0 < snd (mem m) x)%nat) _) (inv_sorted _ _ _ (V1 m))) as Hss.
    assert (Hkeys : Forall (fun x => exists kx, node_key (view m) x = Some kx /\ dom kx) (on_level (snd (mem m)) 0 (snd (fst (mem m))))).
    { apply Forall_forall. intros y [Hy _]%on_level_in. by apply (inv_key _ _ _ _ (V1 m)). }
    pose proof (found_sorted (view m) k _ Hk Hss Hkeys) as Hfound. fold (on_level (snd (mem m)) 0 (snd (fst (mem m)))) in Hfound.
    rewrite <- (contents_level _ _ _ (V1 m)) in Hfound. fold (first_not_before compare_ (view m) k) (keys (view m)) in Hfound.
    destruct (first_not_before compare_ (view m) k) as [y|]; [|by rewrite Hfound]. destruct Hfound as (ky & Ey & ->).
    pose proof (Vle m fuel ltac:(lia)) as Hlm. unfold mem_later in Hlm. rewrite <- !Ev in Hlm. by rewrite (later_keys _ _ _ _ _ _ Hlm _ _ Ey).
  - destruct (search_ends _ (below_down k Hk) view _ _ order' V1 V2 V3 V4 fuel height None Hhe Hf) as (m & x & next & prev & E & Hm & _ & -> & _ & Hlast).
    exists m. split; [done|]. unfold FindLessThan. rewrite (FindLessThan_descend view _ _ order' V1 V2 V3 V4 fuel 0 k head_ (height - 1) x next) by first [done|lia|by left].
    by rewrite <- Hlast.
  - destruct (search_ends (fun _ => true) (fun _ _ _ _ _ _ => eq_refl) view _ _ order' V1 V2 V3 V4 fuel height None Hhe Hf) as (m & x & next & prev & E & Hm & (P1 & P2 & P3) & -> & _ & Hlast).
    exists m. split; [done|]. unfold FindLast. rewrite (FindLast_descend view fuel 0 head_ (height - 1) x next E). f_equal. rewrite <- Hlast. unfold last_node. f_equal. apply filter_all.
    rewrite (contents_level _ _ _ (V1 m)). apply Forall_forall. intros y [Hy _]%on_level_in. destruct (inv_key _ _ _ _ (V1 m) Hy) as (ky & Ey & _). unfold node_is_before. by rewrite Ey.
  - intros n m Hnm. exists (snd (fst (mem n))), (snd (mem n)). split; [apply V1|]. intros x kx. pose proof (Vle n m Hnm) as Hl'. unfold mem_later in Hl'. rewrite <- !Ev in Hl'.
    apply (later_keys _ _ _ _ _ _ Hl').
Qed.

Lemma order_keys s order h : list_inv s order h -> all_linked order h -> length order = length (keys s).
Proof.
  intros I Hall. rewrite (keys_level _ _ _ I). unfold on_level. rewrite filter_all by (apply (Forall_impl _ _ _ Hall); intros x Hx; cbn in *; lia).
  pose proof (inv_keys _ _ _ I) as Hk. clear Hall I. induction Hk as [|x l (kx & Ex & _) Hk IH]; [done|]. cbn. rewrite Ex. cbn. by rewrite IH.
Qed.

(** Keys are only added. *)
Lemma keys_later s order h s' order' h' : list_inv s order h -> list_inv s' order' h' -> later s order h s' order' h' -> keys s `sublist_of` keys s'.
Proof.
  intros I I' L. rewrite (keys_level _ _ _ I), (keys_level _ _ _ I'). transitivity (omap (node_key s') (on_level h 0 order)).
  - rewrite (omap_same s s'); [done|]. intros y [Hy _]%on_level_in. destruct (inv_key _ _ _ _ I Hy) as (ky & Ey & _). rewrite Ey. by apply (later_keys _ _ _ _ _ _ L).
  - induction (later_level _ _ _ _ _ _ 0 L) as [|y l l' Hl IH|y l l' Hl IH]; [done|..]; cbn; destruct (node_key s' y); [by constructor|done|by constructor|done].
Qed.

Lemma history_grows P s order h t s' order' h' : history P s order h t s' order' h' -> list_inv s order h -> StronglySorted (fun u v => keys u `sublist_of` keys v) (s :: t).
Proof.
  intros Hh I. destruct (history_memories _ _ _ _ _ _ _ _ Hh I) as (ms & <- & Hi & Hs & _). change (s :: map (fun m : memory => fst (fst m)) ms) with (map (fun m : memory => fst (fst m)) ((s, order, h) :: ms)).
  induction Hs as [|m l Hs IH Hm]; cbn [map]; [constructor|]. apply Forall_cons_1 in Hi as [Im Il]. constructor; [by apply IH|]. apply Forall_map, Forall_forall. intros m' Hm'.
  exact (keys_later _ _ _ _ _ _ Im (proj1 (Forall_forall _ _) Il m' Hm') (proj1 (Forall_forall _ _) Hm m' Hm')).
Qed.
End Using.

(** ** Properties *)

(** C5. Insertions are atomic to everyone else. Inserting any keys of which no two compare
    equal into a new list succeeds, whatever heights are drawn: no assertion fails and no
    link is read before it has been stored to. In the end the list shows exactly these keys in strictly ascending
    order, and after every single store on the way it shows, in ascending order, exactly
    the keys inserted so far, with or without the one being inserted; no key that has been
    visible disappears. *)
Theorem inserts_are_atomic {Key : Type} (dom : Key -> Prop) (compare_ : Key -> Key -> Z) ks : KeyOrder dom compare_ -> Forall dom ks -> unlike (compare_ := compare_) ks ->
  exists s0 trace s', SkipList_new = Some s0 /\ Inserts compare_ s0 ks = Some (trace, s') /\
    (keys s' ≡ₚ ks /\ StronglySorted (fun a b => compare_ a b < 0) (keys s')) /\
    Forall (fun s => (exists n, keys s ≡ₚ take n ks) /\ StronglySorted (fun a b => compare_ a b < 0) (keys s)) trace /\
    StronglySorted (fun s1 s2 => keys s1 `sublist_of` keys s2) trace.
Proof.
  intros Ho Hd Hu. rewrite SkipList_new_some. destruct (Inserts_trace (dom := dom) ks [] _ [] _ new_inv (Forall_nil_2 _) (reflexivity _) Hd Hu) as (trace & s' & order' & h' & E & Hk & Hh & I & _).
  eexists _, trace, s'. split; [done|]. split; [done|]. split; [split; [done|by apply (keys_sorted (dom := dom) s' order' h')]|].
  split; [by apply (history_states _ _ _ _ _ _ _ _ Hh)|]. pose proof (history_grows _ _ _ _ _ _ _ _ Hh new_inv) as Hg. by apply StronglySorted_inv in Hg as [? _].
Qed.

(** Integers as keys. *)
#[export] Instance integer_keys : KeyOrder (fun _ : Z => True) Z.sub.
Proof. constructor; intros; lia. Qed.

Lemma inserts_are_atomic_witness : exists s0 trace s', SkipList_new = Some s0 /\ Inserts Z.sub s0 [5; 3; 9; 1] = Some (trace, s') /\
    (keys s' ≡ₚ [5; 3; 9; 1] /\ StronglySorted (fun a b => a - b < 0) (keys s')) /\
    Forall (fun s => (exists n, keys s ≡ₚ take n [5; 3; 9; 1]) /\ StronglySorted (fun a b => a - b < 0) (keys s)) trace /\
    StronglySorted (fun s1 s2 => keys s1 `sublist_of` keys s2) trace.
Proof. apply (inserts_are_atomic (fun _ : Z => True) Z.sub [5; 3; 9; 1]); [apply integer_keys|repeat constructor|repeat constructor; lia]. Defined.

(** C2. Reads without locks are linearizable and end. While a writer inserts, a search whose
    loads find any memories of the writer's stores in their order, and which begins at any
    height (the stale or early value of [max_height_] included), ends within as many loads
    as there are levels and keys, never meets a link without a value, and its result is
    that of the search in the list as it is at the moment of one of its loads: the first
    node not before the key, the last node before it, the last node, or whether the key
    is there. *)
Theorem reads_are_linearizable {Key : Type} (dom : Key -> Prop) (compare_ : Key -> Key -> Z) ks s0 trace s' t fuel height k : KeyOrder dom compare_ ->
  Forall dom ks -> unlike (compare_ := compare_) ks -> SkipList_new = Some s0 -> Inserts compare_ s0 ks = Some (trace, s') -> schedule trace t ->
  (1 <= height <= kMaxHeight)%nat -> (kMaxHeight + length ks <= fuel)%nat -> dom k ->
  let view := reading s0 trace t in
  (exists m, (m < fuel)%nat /\ FindGreaterOrEqual compare_ view fuel height k None = Some (first_not_before compare_ (view m) k, None) /\
    Contains compare_ view fuel height k = Some (existsb (Equal compare_ k) (keys (view m)))) /\
  (exists m, (m < fuel)%nat /\ FindLessThan compare_ view fuel height k = Some (last_before compare_ (view m) k)) /\
  (exists m, (m < fuel)%nat /\ FindLast view fuel height = Some (last_node (view m))).
Proof.
  intros Ho Hd Hu E0 E Ht Hh Hf Hk. rewrite SkipList_new_some in E0.
  assert (s0 = mkSkipList [mkNode None (replicate kMaxHeight (Some None))] 1 (Random_new 0xdeadbeef)) as -> by congruence. clear E0.
  destruct (Inserts_trace (dom := dom) ks [] _ [] _ new_inv (Forall_nil_2 _) (reflexivity _) Hd Hu) as (trace1 & s1 & order' & h' & E1 & Hks & Hhi & I & Hall).
  rewrite E1 in E. injection E as -> ->.
  destruct (read_ends _ _ _ _ _ _ _ _ _ Hhi new_inv I Ht fuel height k Hh) as (R1 & R2 & R3 & _); [by rewrite (order_keys _ _ _ I Hall), Hks|done|done].
Qed.

Definition example_list : SkipList Z := default (mkSkipList [] 0 0) SkipList_new.
Definition example_run : list (SkipList Z) * SkipList Z := default ([], example_list) (Inserts Z.sub example_list [5; 3; 9]).

Lemma reads_are_linearizable_witness :
  exists m, (m < 15)%nat /\ FindLessThan Z.sub (reading example_list (fst example_run) (fun n => Nat.min (2 * n) 12)) 15 7 6
    = Some (last_before Z.sub (reading example_list (fst example_run) (fun n => Nat.min (2 * n) 12) m) 6).
Proof.
  apply (reads_are_linearizable (fun _ : Z => True) Z.sub [5; 3; 9] example_list (fst example_run) (snd example_run) (fun n => Nat.min (2 * n) 12) 15 7 6).
  - apply integer_keys.
  - repeat constructor.
  - repeat constructor; lia.
  - reflexivity.
  - vm_compute. reflexivity.
  - intros n. assert (E : length (fst example_run) = 12%nat) by (vm_compute; reflexivity). rewrite E. lia.
  - unfold kMaxHeight. lia.
  - unfold kMaxHeight. cbn. lia.
  - exact I.
Defined.
