(* ===== verification/LdbMemTable.v ===== *)
(** * The table in memory (leveldb: db/memtable.h, db/memtable.cc)

    A skip list of entries; a [const char*] is the bytes from it on. Lookups and
    iterators read without the mutex: they are given the memories that their loads find,
    as in LdbSkipList.v. *)

From Stdlib Require Import Sorted.
From stdpp Require Import strings list sorting.
From S2P Require Import Prelude Words PbWireFacts LdbCoding LdbEnv LdbBatch LdbKeys LdbSkipList LdbSkipSearch LdbRecovery.

(** ** Entries *)

(** [GetVarint32Ptr(p, p + 5, &len)]: the number and where its bytes end. *)
Definition length_at (p : list Z) : option (Z * list Z) :=
  match GetVarint32Ptr (ztake 5 p) with
  | Some (len, q) => Some (len, zdrop (zlen (ztake 5 p) - zlen q) p)
  | None => None
  end.

(** The [data] and the [size] of the slice. *)
Definition Entry_GetLengthPrefixedSlice (data : list Z) : option (list Z * Z) := match length_at data with Some (len, p) => Some (p, len) | None => None end.
Definition slice_bytes (slice : list Z * Z) : list Z := ztake (snd slice) (fst slice).

Definition EncodeKey (target : list Z) : list Z := PutVarint32 (u32 (zlen target)) ++ target.

Section MemTable.
Context (user_comparator : Comparator).

(** Of entries that are not corrupted; otherwise the slices have no size. *)
Definition KeyComparator (aptr bptr : list Z) : Z :=
  match Entry_GetLengthPrefixedSlice aptr, Entry_GetLengthPrefixedSlice bptr with
  | Some a, Some b => Compare (InternalKeyComparator user_comparator) (slice_bytes a) (slice_bytes b)
  | _, _ => 0
  end.

(** ** The table *)

Record MemTable := mkMemTable { refs_ : Z; table_ : SkipList (list Z) }.

Definition MemTable_new : option MemTable := t ← SkipList_new; Some (mkMemTable 0 t).

Definition MemTable_Ref (m : MemTable) : MemTable := mkMemTable (i32 (refs_ m + 1)) (table_ m).
(** Outside: the assertion fails; inside: the table has been deleted. *)
Definition MemTable_Unref (m : MemTable) : option (option MemTable) :=
  let m := mkMemTable (i32 (refs_ m - 1)) (table_ m) in
  if refs_ m >=? 0 then Some (if refs_ m <=? 0 then None else Some m) else None.

(** The buffer of an entry; [None]: the assertion on its length fails. *)
Definition MemTable_buf (s type : Z) (key value : list Z) : option (list Z) :=
  let key_size := zlen key in
  let val_size := zlen value in
  let internal_key_size := u64 (key_size + 8) in
  let encoded_len := u64 (VarintLength internal_key_size + internal_key_size + VarintLength val_size + val_size) in
  let buf := EncodeVarint32 (u32 internal_key_size) ++ key ++ EncodeFixed64 (u64 (s ≪ 8) .| type) ++ EncodeVarint32 (u32 val_size) ++ value in
  if zlen buf =? encoded_len then Some buf else None.

(** The memories after its stores, and the table. *)
Definition MemTable_Add (s type : Z) (key value : list Z) (m : MemTable) : option (list (SkipList (list Z)) * MemTable) :=
  buf ← MemTable_buf s type key value;
  '(trace, t) ← Insert KeyComparator (table_ m) buf;
  Some (trace, mkMemTable (refs_ m) t).

(** [value] and [s] are what the caller's variables hold afterwards. *)
Definition MemTable_Get (view : nat -> SkipList (list Z)) (fuel height : nat) (key : list Z * Z) (value : list Z) (s : Status) : option (bool * list Z * Status) :=
  let memkey := memtable_key key in
  iter ← Iterator_Seek KeyComparator view fuel height memkey;
  if Iterator_Valid iter then
    entry ← Iterator_key (fun n => view (fuel + n)%nat) iter;
    '(key_length, key_ptr) ← length_at entry;
    if Compare user_comparator (ztake (u32 (key_length - 8)) key_ptr) (lookup_user_key key) =? 0 then
      let tag := DecodeFixed64 (zdrop (key_length - 8) key_ptr) in
      let type := tag .& 0xff in
      if type =? kTypeValue then
        v ← Entry_GetLengthPrefixedSlice (zdrop key_length key_ptr);
        Some (true, slice_bytes v, s)
      else if type =? kTypeDeletion then Some (true, value, NotFound "")
      else Some (false, value, s)
    else Some (false, value, s)
  else Some (false, value, s).

(** ** The iterator *)

(** [iter_]; [tmp_] is only the buffer of the sought key. *)
Definition MemTableIterator_Seek (view : nat -> SkipList (list Z)) (fuel height : nat) (k : list Z) : option ptr := Iterator_Seek KeyComparator view fuel height (EncodeKey k).
Definition MemTableIterator_Prev (view : nat -> SkipList (list Z)) (fuel height : nat) (it : ptr) : option ptr := Iterator_Prev KeyComparator view fuel height it.
Definition MemTableIterator_Next (view : nat -> SkipList (list Z)) (it : ptr) : option ptr := Iterator_Next view it.
Definition MemTableIterator_SeekToFirst (view : nat -> SkipList (list Z)) : option ptr := Iterator_SeekToFirst view.
Definition MemTableIterator_SeekToLast (view : nat -> SkipList (list Z)) (fuel height : nat) : option ptr := Iterator_SeekToLast view fuel height.
Definition MemTableIterator_key (view : nat -> SkipList (list Z)) (it : ptr) : option (list Z) :=
  k ← Iterator_key view it; slice ← Entry_GetLengthPrefixedSlice k; Some (slice_bytes slice).
Definition MemTableIterator_value (view : nat -> SkipList (list Z)) (it : ptr) : option (list Z) :=
  k ← Iterator_key view it; key_slice ← Entry_GetLengthPrefixedSlice k;
  slice ← Entry_GetLengthPrefixedSlice (zdrop (snd key_slice) (fst key_slice)); Some (slice_bytes slice).
End MemTable.

(** ** Reading an entry back *)

Lemma length_at_put v rest : 0 <= v < 2 ^ 32 -> bytes_ok rest -> length_at (PutVarint32 v ++ rest) = Some (v, rest).
Proof.
  intros Hv Hr. unfold length_at, PutVarint32. rewrite EncodeVarint32_wire by done. assert (Hl : zlen (varint_bytes v) <= 5).
  { unfold varint_bytes. rewrite zlen_wire. apply zlen_groups; [lia| |lia]. change (128 ^ 5) with (2 ^ 35). lia. }
  rewrite ztake_app_ge by done. rewrite GetVarint32Ptr_within by (apply Forall_app; split; [apply varint_bytes_ok; lia|by apply Forall_take]).
  rewrite varint_within_bytes by lia. rewrite zlen_app. by rewrite zdrop_app by lia.
Qed.

(** An entry begins with its internal key and the length of it. *)
Definition entry_form (ik rest b : list Z) : Prop := b = PutLengthPrefixedSlice ik ++ rest /\ zlen ik < 2 ^ 32 /\ bytes_ok ik /\ bytes_ok rest.

Lemma entry_slice ik rest b : entry_form ik rest b -> Entry_GetLengthPrefixedSlice b = Some (ik ++ rest, zlen ik) /\ length_at b = Some (zlen ik, ik ++ rest).
Proof.
  intros (-> & Hl & Hi & Hr). unfold Entry_GetLengthPrefixedSlice, PutLengthPrefixedSlice. zlen_pos. rewrite <- app_assoc. unfold u32. rewrite Z.mod_small by lia.
  by rewrite length_at_put by first [lia|by apply Forall_app].
Qed.

Lemma KeyComparator_form C ik1 rest1 b1 ik2 rest2 b2 : entry_form ik1 rest1 b1 -> entry_form ik2 rest2 b2 -> KeyComparator C b1 b2 = Internal_Compare C ik1 ik2.
Proof.
  intros H1 H2. unfold KeyComparator. destruct (entry_slice _ _ _ H1) as [-> _]. destruct (entry_slice _ _ _ H2) as [-> _]. unfold slice_bytes. cbn [fst snd].
  by rewrite !ztake_app.
Qed.

(** * Entries and the newest that is visible

An entry is a sequence number, a type, a key and a value; its buffer is what the table
    keeps. The order of buffers is the order of internal keys, and the first buffer not
    before a lookup key is that of the newest entry the snapshot sees, if there is one. *)

(** ** Entries *)

Definition entry_seq (e : entry) : Z := let '(s, _, _, _) := e in s.
Definition entry_type (e : entry) : Z := let '(_, t, _, _) := e in t.
Definition entry_key (e : entry) : list Z := let '(_, _, k, _) := e in k.
Definition entry_value (e : entry) : list Z := let '(_, _, _, v) := e in v.

Definition entry_parsed (e : entry) : ParsedInternalKey := mkParsed (entry_key e) (entry_seq e) (entry_type e).
Definition entry_buf (e : entry) : list Z := PutLengthPrefixedSlice (key_bytes (entry_parsed e)) ++ PutLengthPrefixedSlice (entry_value e).

(** The order of sequence numbers, then types. *)
Definition entry_tag (e : entry) : Z := entry_seq e * 256 + entry_type e.

Section Entries.
Context {dom : list Z -> Prop} {C : Comparator} `{ComparatorLaws dom C}.
Implicit Types (e : entry) (es : list entry).

Definition entry_ok e : Prop := dom (entry_key e) /\ parsed_ok (entry_parsed e) /\ zlen (entry_key e) < 2 ^ 32 - 8 /\ bytes_ok (entry_value e) /\ zlen (entry_value e) < 2 ^ 32.

(** The buffers that the table compares. *)
Definition buf_dom (b : list Z) : Prop := exists ik rest, entry_form ik rest b /\ internal_dom (dom := dom) ik.

#[export] Instance buf_order : KeyOrder buf_dom (KeyComparator C).
Proof.
  constructor.
  - intros a (ik & r & F & D). rewrite (KeyComparator_form C _ _ _ _ _ _ F F). exact (compare_same (C := InternalKeyComparator C) _ D).
  - intros a b (ik & r & F & D) (ik' & r' & F' & D'). rewrite (KeyComparator_form C _ _ _ _ _ _ F F'), (KeyComparator_form C _ _ _ _ _ _ F' F).
    exact (compare_sym (C := InternalKeyComparator C) _ _ D D').
  - intros a b c (ik & r & F & D) (ik' & r' & F' & D') (ik2 & r2 & F2 & D2).
    rewrite (KeyComparator_form C _ _ _ _ _ _ F F'), (KeyComparator_form C _ _ _ _ _ _ F' F2), (KeyComparator_form C _ _ _ _ _ _ F F2).
    exact (compare_trans (C := InternalKeyComparator C) _ _ _ D D' D2).
Qed.

Lemma key_bytes_ok k : parsed_ok k -> bytes_ok (key_bytes k).
Proof. intros (Hk & _). unfold key_bytes, AppendInternalKey. cbn [app]. apply Forall_app. split; [done|]. unfold PutFixed64. rewrite EncodeFixed64_le. apply le_bytes_ok. Qed.

Lemma entry_buf_form e : entry_ok e -> entry_form (key_bytes (entry_parsed e)) (PutLengthPrefixedSlice (entry_value e)) (entry_buf e).
Proof.
  intros (_ & Hp & Hl & Hv & Hvl). destruct (key_bytes_parts _ Hp) as (_ & _ & El). split; [done|]. split; [rewrite El; cbn [user_key entry_parsed]; lia|]. split; [by apply key_bytes_ok|].
  by apply PutLengthPrefixedSlice_ok.
Qed.

Lemma entry_buf_dom e : entry_ok e -> buf_dom (entry_buf e).
Proof.
  intros He. exists (key_bytes (entry_parsed e)), (PutLengthPrefixedSlice (entry_value e)). split; [by apply entry_buf_form|]. destruct He as (Hd & Hp & _).
  destruct (key_bytes_parts _ Hp) as (Eu & _ & El). split; [rewrite El; zlen_pos; lia|by rewrite Eu].
Qed.

(** The code's buffer of an entry; its assertion holds. *)
Lemma MemTable_buf_entry e : entry_ok e -> MemTable_buf (entry_seq e) (entry_type e) (entry_key e) (entry_value e) = Some (entry_buf e).
Proof.
  intros (_ & Hp & Hl & Hv & Hvl). destruct (key_bytes_parts _ Hp) as (_ & _ & El). cbn [user_key entry_parsed] in El. unfold MemTable_buf. zlen_pos.
  replace (u64 (zlen (entry_key e) + 8)) with (zlen (entry_key e) + 8) by (unfold u64; rewrite Z.mod_small; lia).
  set (buf := EncodeVarint32 _ ++ _). assert (Eb : buf = entry_buf e).
  { unfold buf, entry_buf, PutLengthPrefixedSlice, PutVarint32, key_bytes, AppendInternalKey. cbn [app]. rewrite zlen_app. change (zlen (PutFixed64 _)) with 8. by rewrite <- !app_assoc. }
  rewrite Eb. assert (Ez : zlen (entry_buf e) = VarintLength (zlen (entry_key e) + 8) + (zlen (entry_key e) + 8) + VarintLength (zlen (entry_value e)) + zlen (entry_value e)).
  { unfold entry_buf, PutLengthPrefixedSlice, PutVarint32. rewrite !VarintLength_zlen by lia. unfold PutVarint64, u32. rewrite !EncodeVarint64_wire by lia.
    rewrite El, !Z.mod_small, !EncodeVarint32_wire by lia. rewrite !zlen_app, El. lia. }
  assert (Hb : 0 <= zlen (entry_buf e) < 2 ^ 34).
  { split; [apply zlen_nonneg|]. rewrite Ez, !VarintLength_zlen by lia. unfold PutVarint64. rewrite !EncodeVarint64_wire by lia.
    pose proof (zlen_varint_bytes (zlen (entry_key e) + 8) ltac:(lia)). pose proof (zlen_varint_bytes (zlen (entry_value e)) ltac:(lia)). lia. }
  rewrite <- Ez. unfold u64. rewrite Z.mod_small by lia. by rewrite Z.eqb_refl.
Qed.

(** The order of two entries. *)
Lemma entry_compare e e' : entry_ok e -> entry_ok e' ->
  (Compare C (entry_key e) (entry_key e') <> 0 /\ KeyComparator C (entry_buf e) (entry_buf e') = Compare C (entry_key e) (entry_key e')) \/
  (Compare C (entry_key e) (entry_key e') = 0 /\ (KeyComparator C (entry_buf e) (entry_buf e') <= 0 <-> entry_tag e' <= entry_tag e) /\
    (KeyComparator C (entry_buf e) (entry_buf e') = 0 <-> entry_tag e' = entry_tag e)).
Proof.
  intros He He'. rewrite (KeyComparator_form C _ _ _ _ _ _ (entry_buf_form e He) (entry_buf_form e' He')).
  destruct He as (_ & Hp & _), He' as (_ & Hp' & _). destruct (key_bytes_parts _ Hp) as (Eu & Et & _), (key_bytes_parts _ Hp') as (Eu' & Et' & _).
  cbn [user_key sequence type entry_parsed] in *. fold (entry_tag e) in Et. fold (entry_tag e') in Et'.
  destruct (Internal_Compare_cases (C := C) (key_bytes (entry_parsed e)) (key_bytes (entry_parsed e'))) as [[? E]|[? E]]; rewrite ?Eu, ?Eu', ?Et, ?Et' in *; [by left|right].
  split; [done|]. lia.
Qed.

(** ** A lookup *)

Section Lookup.
Context (u : list Z) (s : Z) (Hu : dom u) (Hub : bytes_ok u) (Hul : zlen u < 2 ^ 32 - 8) (Hs : 0 <= s <= kMaxSequenceNumber).

Definition lookup_entry : entry := (s, kValueTypeForSeek, u, []).

Lemma lookup_entry_ok : entry_ok lookup_entry.
Proof.
  split; [done|]. split; [split; [done|split; [done|cbn; change kValueTypeForSeek with 1; change kTypeValue with 1; lia]]|]. split; [done|]. split; [constructor|]. done.
Qed.

(** The lookup's key in memory has no value, but is compared like one that has. *)
Lemma memtable_key_form : entry_form (key_bytes (entry_parsed lookup_entry)) [] (memtable_key (LookupKey u s)).
Proof.
  destruct (LookupKey_parts u s Hul Hs) as (E & _ & ->). rewrite E. destruct (entry_buf_form _ lookup_entry_ok) as (_ & Hl & Hb & _).
  split; [by rewrite app_nil_r|]. done.
Qed.

Lemma memtable_key_dom : buf_dom (memtable_key (LookupKey u s)).
Proof.
  exists (key_bytes (entry_parsed lookup_entry)), []. split; [apply memtable_key_form|]. destruct (entry_buf_dom _ lookup_entry_ok) as (ik & r & F & D).
  destruct lookup_entry_ok as (Hd & Hp & _). destruct (key_bytes_parts _ Hp) as (Eu & _ & El). split; [rewrite El; zlen_pos; lia|by rewrite Eu].
Qed.

Lemma lookup_as_entry e : entry_ok e -> KeyComparator C (entry_buf e) (memtable_key (LookupKey u s)) = KeyComparator C (entry_buf e) (entry_buf lookup_entry).
Proof.
  intros He. rewrite (KeyComparator_form C _ _ _ _ _ _ (entry_buf_form e He) memtable_key_form).
  by rewrite (KeyComparator_form C _ _ _ _ _ _ (entry_buf_form e He) (entry_buf_form _ lookup_entry_ok)).
Qed.

(** The entries of the key that the snapshot sees, and the newest of them. *)
Definition visible e : bool := (Compare C (entry_key e) u =? 0) && (entry_seq e <=? s).
Fixpoint newest es : option entry :=
  match es with
  | [] => None
  | e :: es =>
      if visible e then match newest es with Some e' => if entry_tag e <? entry_tag e' then Some e' else Some e | None => Some e end
      else newest es
  end.

Lemma newest_spec es : match newest es with
  | None => Forall (fun e => visible e = false) es
  | Some e => e ∈ es /\ visible e = true /\ Forall (fun e' => visible e' = true -> entry_tag e' <= entry_tag e) es
  end.
Proof.
  induction es as [|e es IH]; [constructor|]. cbn [newest]. destruct (visible e) eqn:Ev.
  - destruct (newest es) as [e'|].
    + destruct IH as (Hin & Hv & Hall). destruct (Z.ltb_spec (entry_tag e) (entry_tag e')).
      * split; [apply elem_of_cons; by right|]. split; [done|]. constructor; [lia|done].
      * split; [apply elem_of_cons; by left|]. split; [done|]. constructor; [lia|]. apply (Forall_impl _ _ _ Hall). intros x Hx Hvx. specialize (Hx Hvx). lia.
    + split; [apply elem_of_cons; by left|]. split; [done|]. constructor; [lia|]. apply (Forall_impl _ _ _ IH). intros x ->. done.
  - destruct (newest es) as [e'|]; [|by constructor]. destruct IH as (Hin & Hv & Hall). split; [apply elem_of_cons; by right|]. split; [done|]. constructor; [by rewrite Ev|done].
Qed.

Lemma visible_spec e : entry_ok e -> visible e = true <-> Compare C (entry_key e) u = 0 /\ entry_tag e <= s * 256 + 1.
Proof.
  intros (_ & (_ & _ & Ht) & _). cbn in Ht. change kTypeValue with 1 in Ht. unfold visible, entry_tag. rewrite andb_true_iff, Z.eqb_eq, Z.leb_le. lia.
Qed.

(** An entry of the key is not before the lookup if the snapshot sees it. *)
Lemma visible_not_before e : entry_ok e -> Compare C (entry_key e) u = 0 -> visible e = true <-> 0 <= KeyComparator C (entry_buf e) (memtable_key (LookupKey u s)).
Proof.
  intros He Hc. rewrite lookup_as_entry, visible_spec by done. pose proof lookup_entry_ok as Hl. destruct (entry_compare e lookup_entry He Hl) as [[Hn _]|(_ & H1 & H2)]; [done|].
  change (entry_tag lookup_entry) with (s * 256 + 1) in *. lia.
Qed.

(** The first entry not before the lookup. *)
Lemma first_is_newest es b : Forall entry_ok es -> b ∈ es -> 0 <= KeyComparator C (entry_buf b) (memtable_key (LookupKey u s)) ->
  Forall (fun e => 0 <= KeyComparator C (entry_buf e) (memtable_key (LookupKey u s)) -> KeyComparator C (entry_buf b) (entry_buf e) <= 0) es ->
  (forall e, e ∈ es -> KeyComparator C (entry_buf b) (entry_buf e) = 0 -> e = b) ->
  newest es = if Compare C (entry_key b) u =? 0 then Some b else None.
Proof.
  intros Hok Hb Hge Hfirst Huniq. assert (Hbo : entry_ok b) by exact (proj1 (Forall_forall _ _) Hok b Hb). pose proof (newest_spec es) as Hn.
  assert (Hmin : forall e, e ∈ es -> visible e = true -> entry_ok e /\ KeyComparator C (entry_buf b) (entry_buf e) <= 0 /\ Compare C (entry_key e) u = 0).
  { intros e He Hv. assert (Heo : entry_ok e) by exact (proj1 (Forall_forall _ _) Hok e He). pose proof (proj1 (visible_spec e Heo) Hv) as [Hc _].
    split; [done|]. split; [|done]. apply (proj1 (Forall_forall _ _) Hfirst e He). by apply visible_not_before. }
  destruct (Z.eqb_spec (Compare C (entry_key b) u) 0) as [Hc|Hc].
  - assert (Hv : visible b = true) by (apply visible_not_before; done). destruct (newest es) as [e|]; [|by rewrite (proj1 (Forall_forall _ _) Hn b Hb) in Hv].
    destruct Hn as (He & Hve & Hall). destruct (Hmin e He Hve) as (Heo & Hle & Hce). f_equal. apply Huniq; [done|].
    pose proof (proj1 (Forall_forall _ _) Hall b Hb Hv) as Htag. destruct (entry_compare b e Hbo Heo) as [[Hne E]|(_ & H1 & H2)]; [|lia].
    destruct Hne. pose proof (compare_sym (C := C) (entry_key e) u ltac:(apply Heo) Hu) as S1. pose proof (compare_trans (C := C) (entry_key b) u (entry_key e) ltac:(apply Hbo) Hu ltac:(apply Heo) ltac:(lia) ltac:(lia)) as T1.
    pose proof (compare_sym (C := C) (entry_key b) u ltac:(apply Hbo) Hu) as S2. pose proof (compare_trans (C := C) (entry_key e) u (entry_key b) ltac:(apply Heo) Hu ltac:(apply Hbo) ltac:(lia) ltac:(lia)) as T2.
    pose proof (compare_sym (C := C) (entry_key b) (entry_key e) ltac:(apply Hbo) ltac:(apply Heo)). lia.
  - destruct (newest es) as [e|]; [|done]. destruct Hn as (He & Hve & _). destruct (Hmin e He Hve) as (Heo & Hle & Hce). exfalso. apply Hc. clear Hc.
    rewrite lookup_as_entry in Hge by done. pose proof lookup_entry_ok as Hlo.
    pose proof (compare_sym (C := C) (entry_key e) u ltac:(apply Heo) Hu) as S1. pose proof (compare_sym (C := C) (entry_key b) u ltac:(apply Hbo) Hu) as S2.
    assert (L1 : Compare C u (entry_key b) <= 0) by (destruct (entry_compare b lookup_entry Hbo Hlo) as [[_ E]|[E _]]; cbn [entry_key lookup_entry] in *; lia).
    assert (L2 : Compare C (entry_key b) (entry_key e) <= 0) by (destruct (entry_compare b e Hbo Heo) as [[_ E]|[E _]]; lia).
    pose proof (compare_trans (C := C) (entry_key b) (entry_key e) u ltac:(apply Hbo) ltac:(apply Heo) Hu L2 ltac:(lia)). lia.
Qed.
End Lookup.
End Entries.
