(* ===== verification/LdbMemTableUse.v ===== *)
(** * The table in memory: writes, snapshots and batches (leveldb: db/memtable.cc)

    What a lookup at a snapshot finds is the newest entry of the key that is not newer
    than the snapshot, while another thread adds newer ones, and the entries are those
    of the batches that were inserted. *)

From Stdlib Require Import Sorted.
From stdpp Require Import strings list sorting.
From S2P Require Import Prelude Words PbWireFacts LdbCoding LdbEnv LdbBatch LdbKeys LdbSkipList LdbSkipSearch LdbSkipInsert LdbSkipUse.
From S2P Require Import LdbRecovery LdbMemTable.

(** ** Adding entries *)

Section Adding.
Context {dom : list Z -> Prop} {C : Comparator} `{ComparatorLaws dom C}.
Implicit Types (e : entry) (es : list entry).
#[local] Abbreviation entry_ok := (entry_ok (dom := dom)).

(** The memories on the way, and the table in the end. *)
Fixpoint MemTable_Adds es (m : MemTable) : option (list (SkipList (list Z)) * MemTable) :=
  match es with
  | [] => Some ([], m)
  | e :: es =>
      '(now, m) ← MemTable_Add C (entry_seq e) (entry_type e) (entry_key e) (entry_value e) m;
      '(later, m) ← MemTable_Adds es m; Some (now ++ later, m)
  end.

(** No two entries with the same key, sequence number and type. *)
Definition distinct es : Prop := ForallOrdPairs (fun e e' => Compare C (entry_key e) (entry_key e') = 0 -> entry_tag e <> entry_tag e') es.

Lemma distinct_unlike es : Forall entry_ok es -> distinct es -> unlike (compare_ := KeyComparator C) (map entry_buf es).
Proof.
  intros Hok Hd. induction Hd as [|e es He Hd IH]; cbn [map]; [constructor|]. apply Forall_cons_1 in Hok as [Ho Hok]. constructor; [|by apply IH]. apply Forall_map, Forall_forall.
  intros e' He'. pose proof (proj1 (Forall_forall _ _) He e' He') as Hne. destruct (entry_compare (C := C) e e' Ho (proj1 (Forall_forall _ _) Hok e' He')) as [[Hc ->]|(Hc & _ & Ht)]; [done|].
  intros E%Ht. by apply (Hne Hc).
Qed.

Lemma MemTable_Adds_inserts es m : Forall entry_ok es ->
  MemTable_Adds es m = ('(trace, t) ← Inserts (KeyComparator C) (table_ m) (map entry_buf es); Some (trace, mkMemTable (refs_ m) t)).
Proof.
  intros Hok. revert m. induction Hok as [|e es He Hok IH]; intros m; [by destruct m|]. cbn [MemTable_Adds map Inserts]. unfold MemTable_Add. rewrite MemTable_buf_entry by done.
  cbn [mbind option_bind]. destruct (Insert _ _ _) as [[now t]|]; [|done]. cbn [mbind option_bind]. rewrite IH. cbn [table_ refs_]. by destruct (Inserts _ _ _) as [[later t']|].
Qed.

(** A table between two writes. *)
Definition holds (m : MemTable) es : Prop := exists order h,
  list_inv (dom := buf_dom (dom := dom)) (compare_ := KeyComparator C) (table_ m) order h /\ all_linked order h /\ keys (table_ m) ≡ₚ map entry_buf es.

Lemma MemTable_new_holds : exists m, MemTable_new = Some m /\ holds m [].
Proof.
  unfold MemTable_new. rewrite SkipList_new_some. eexists. split; [done|]. exists [], (fun _ => 0%nat). split; [apply new_inv|]. split; [constructor|done].
Qed.

Lemma MemTable_Adds_holds es m es0 : holds m es0 -> Forall entry_ok (es0 ++ es) -> distinct (es0 ++ es) ->
  exists trace m', MemTable_Adds es m = Some (trace, m') /\ holds m' (es0 ++ es) /\
    exists order h order' h', list_inv (dom := buf_dom (dom := dom)) (compare_ := KeyComparator C) (table_ m) order h /\
      history (dom := buf_dom (dom := dom)) (compare_ := KeyComparator C) (fun t => exists n, keys t ≡ₚ map entry_buf (es0 ++ take n es)) (table_ m) order h trace (table_ m') order' h' /\
      list_inv (dom := buf_dom (dom := dom)) (compare_ := KeyComparator C) (table_ m') order' h' /\ length order' = length (es0 ++ es).
Proof.
  intros (order & h & I & Hall & Hk) Hok Hd. pose proof Hok as [Hok0 Hok1]%Forall_app.
  destruct (Inserts_trace (dom := buf_dom (dom := dom)) (map entry_buf es) (map entry_buf es0) _ order h I Hall Hk) as (trace & s' & order' & h' & E & Hk' & Hh & I' & Hall').
  { apply Forall_map, (Forall_impl _ _ _ Hok1). intros e. apply entry_buf_dom. }
  { rewrite <- map_app. by apply distinct_unlike. }
  rewrite <- map_app in Hk'. exists trace, (mkMemTable (refs_ m) s'). split; [by rewrite MemTable_Adds_inserts, E|]. split; [by exists order', h'|].
  exists order, h, order', h'. split; [done|]. split; [|split; [done|]].
  - apply (history_impl (fun t => exists n, keys t ≡ₚ map entry_buf es0 ++ take n (map entry_buf es))); [|done]. intros t [n Hn]. exists n. by rewrite Hn, map_app, firstn_map.
  - by rewrite (order_keys _ _ _ I' Hall'), Hk', length_map.
Qed.

(** ** Getting *)

(** The fields that a lookup reads from an entry's buffer. *)
Lemma entry_fields e : entry_ok e -> exists len p v, length_at (entry_buf e) = Some (len, p) /\ ztake (u32 (len - 8)) p = entry_key e /\
  DecodeFixed64 (zdrop (len - 8) p) .& 0xff = entry_type e /\ Entry_GetLengthPrefixedSlice (zdrop len p) = Some v /\ slice_bytes v = entry_value e.
Proof.
  intros He. destruct (entry_slice _ _ _ (entry_buf_form e He)) as [_ El]. destruct He as (_ & Hp & Hl & Hv & Hvl). destruct (key_bytes_parts _ Hp) as (_ & _ & Ez).
  cbn [user_key entry_parsed] in Ez. rewrite Ez in El. assert (Hpack := Hp). destruct Hpack as (_ & Hs & Ht). cbn [entry_parsed sequence type] in Hs, Ht. change kTypeValue with 1 in Ht.
  destruct (pack_value _ _ Hs Ht) as [Ep Hr]. assert (Ek : key_bytes (entry_parsed e) = entry_key e ++ EncodeFixed64 (entry_seq e * 256 + entry_type e)).
  { unfold key_bytes, AppendInternalKey. cbn [app user_key sequence type entry_parsed]. by rewrite Ep. }
  rewrite Ek in El. eexists _, _, (entry_value e ++ [], zlen (entry_value e)). split; [exact El|]. zlen_pos. replace (zlen (entry_key e) + 8 - 8) with (zlen (entry_key e)) by lia.
  rewrite <- app_assoc. split; [unfold u32; rewrite Z.mod_small by lia; by apply ztake_app|]. split; [|split].
  - rewrite zdrop_app by done. rewrite Fixed64_roundtrip by done. change 0xff with (2 ^ 8 - 1). rewrite land_ones_mod by lia. change (2 ^ 8) with 256. dlia.
  - rewrite app_assoc, zdrop_app by (rewrite zlen_app; reflexivity). rewrite <- (app_nil_r (PutLengthPrefixedSlice (entry_value e))).
    by apply (entry_slice (entry_value e) []).
  - unfold slice_bytes. cbn [fst snd]. by apply ztake_app.
Qed.

(** The answer of a lookup that finds [found]. *)
Definition answer (found : option entry) (value : list Z) (st : Status) : bool * list Z * Status :=
  match found with
  | None => (false, value, st)
  | Some e => if entry_type e =? kTypeValue then (true, entry_value e, st) else (true, value, NotFound "")
  end.

Lemma newest_app u s es1 es2 : Forall (fun e => visible (C := C) u s e = false) es2 -> newest (C := C) u s (es1 ++ es2) = newest (C := C) u s es1.
Proof.
  intros H2. induction es1 as [|e es1 IH]; cbn [app newest]; [|by rewrite IH]. induction H2 as [|e es2 He H2 IH]; [done|]. cbn [newest]. by rewrite He.
Qed.

Section Reader.
Context (es1 es2 : list entry) (u : list Z) (s : Z) (Hok : Forall entry_ok (es1 ++ es2)) (Hd : distinct (es1 ++ es2)).
Context (Hnew : Forall (fun e => s < entry_seq e) es2).
Context (Hu : dom u) (Hub : bytes_ok u) (Hul : zlen u < 2 ^ 32 - 8) (Hs : 0 <= s <= kMaxSequenceNumber).

Lemma distinct_eq es e e' : Forall entry_ok es -> distinct es -> e ∈ es -> e' ∈ es -> KeyComparator C (entry_buf e) (entry_buf e') = 0 -> e = e'.
Proof.
  intros Ho Hdi He He' E. assert (Hoe : entry_ok e /\ entry_ok e') by (split; [exact (proj1 (Forall_forall _ _) Ho e He)|exact (proj1 (Forall_forall _ _) Ho e' He')]).
  destruct (entry_compare (C := C) e e' (proj1 Hoe) (proj2 Hoe)) as [[Hc E']|(Hc & _ & Ht)]; [lia|]. apply Ht in E. clear Ht Ho.
  induction Hdi as [|x es Hx Hdi IH]; [by apply elem_of_nil in He|]. rewrite Forall_forall in Hx. pose proof (compare_sym (C := C) (entry_key e) (entry_key e') ltac:(apply Hoe) ltac:(apply Hoe)) as Hsym.
  apply elem_of_cons in He as [->|He], He' as [->|He']; [done| | |by apply IH].
  - by destruct (Hx e' He' Hc).
  - destruct (Hx e He); [lia|done].
Qed.

Lemma visible_es2 n : Forall (fun e => visible (C := C) u s e = false) (take n es2).
Proof.
  apply Forall_take, (Forall_impl _ _ _ Hnew). intros e He. unfold visible. destruct (Z.leb_spec (entry_seq e) s); [lia|]. apply andb_false_r.
Qed.

Lemma newest_keys t n : keys t ≡ₚ map entry_buf (es1 ++ take n es2) -> forall b, b ∈ keys t -> 0 <= KeyComparator C b (memtable_key (LookupKey u s)) ->
  Forall (fun k => 0 <= KeyComparator C k (memtable_key (LookupKey u s)) -> KeyComparator C b k <= 0) (keys t) ->
  exists e, b = entry_buf e /\ entry_ok e /\ newest (C := C) u s es1 = if Compare C (entry_key e) u =? 0 then Some e else None.
Proof.
  intros Hk b Hb Hge Hall. rewrite Hk in Hb, Hall. apply list_elem_of_In, in_map_iff in Hb as (e & <- & He%list_elem_of_In). apply (Forall_map entry_buf) in Hall.
  assert (Hsub : es1 ++ take n es2 `sublist_of` es1 ++ es2) by (apply sublist_app; [done|apply sublist_take]).
  assert (Ho' : Forall entry_ok (es1 ++ take n es2)).
  { apply Forall_forall. intros x Hx. apply (proj1 (Forall_forall _ _) Hok). by apply (elem_of_sublist (es1 ++ take n es2)). }
  exists e. split; [done|]. split; [exact (proj1 (Forall_forall _ _) Ho' e He)|]. rewrite <- (newest_app u s es1 (take n es2)) by apply visible_es2.
  apply (first_is_newest u s Hu Hub Hul Hs); [done|done|done|done|]. intros x Hx E. symmetry.
  apply (distinct_eq (es1 ++ es2)); [done|done|by apply (elem_of_sublist (es1 ++ take n es2))..|done].
Qed.

Lemma none_visible t n : keys t ≡ₚ map entry_buf (es1 ++ take n es2) -> Forall (fun k => KeyComparator C k (memtable_key (LookupKey u s)) < 0) (keys t) -> newest (C := C) u s es1 = None.
Proof.
  intros Hk Hall. rewrite Hk in Hall. apply (Forall_map entry_buf) in Hall. pose proof (newest_spec (C := C) u s es1) as Hn. destruct (newest u s es1) as [e|]; [|done].
  destruct Hn as (He & Hv & _). assert (Hoe : entry_ok e) by (apply (proj1 (Forall_forall _ _) Hok), elem_of_app; by left).
  assert (Hlt : KeyComparator C (entry_buf e) (memtable_key (LookupKey u s)) < 0) by exact (proj1 (Forall_forall _ _) Hall e (proj2 (elem_of_app _ _ _) (or_introl He))).
  pose proof (proj1 (visible_spec u s e Hoe) Hv) as [Hc _]. apply (visible_not_before u s Hu Hub Hul Hs e Hoe Hc) in Hv. lia.
Qed.

(** The lookup in memories of a history that shows [es1] first and adds [es2]. *)
Lemma Get_newest s1 order h trace s2 order' h' t fuel height value st :
  list_inv (dom := buf_dom (dom := dom)) (compare_ := KeyComparator C) s1 order h -> keys s1 ≡ₚ map entry_buf es1 ->
  history (dom := buf_dom (dom := dom)) (compare_ := KeyComparator C) (fun t => exists n, keys t ≡ₚ map entry_buf (es1 ++ take n es2)) s1 order h trace s2 order' h' ->
  list_inv (dom := buf_dom (dom := dom)) (compare_ := KeyComparator C) s2 order' h' -> schedule trace t -> (1 <= height <= kMaxHeight)%nat -> (kMaxHeight + length order' <= fuel)%nat ->
  MemTable_Get C (reading s1 trace t) fuel height (LookupKey u s) value st = Some (answer (newest (C := C) u s es1) value st).
Proof.
  intros I1 Hk1 Hh I2 Ht Hhe Hf. set (view := reading s1 trace t). set (lk := memtable_key (LookupKey u s)). assert (Hlk : buf_dom (dom := dom) lk) by by apply memtable_key_dom.
  destruct (read_ends _ _ _ _ _ _ _ _ t Hh I1 I2 Ht fuel height lk Hhe Hf Hlk) as ((m & Hm & EF & _) & _ & _ & Hview). fold view in EF, Hview.
  assert (Hkeys : exists n, keys (view m) ≡ₚ map entry_buf (es1 ++ take n es2)).
  { unfold view, reading. destruct (nth_in_or_default (t m) (s1 :: trace) s1) as [[E|Hin]|E].
    - rewrite <- E. exists 0%nat. by rewrite take_0, app_nil_r.
    - apply list_elem_of_In in Hin. exact (proj1 (proj1 (Forall_forall _ _) (history_states _ _ _ _ _ _ _ _ Hh) _ Hin)).
    - rewrite E. exists 0%nat. by rewrite take_0, app_nil_r. }
  destruct Hkeys as [n Hkn]. unfold MemTable_Get, Iterator_Seek. fold lk. rewrite EF. cbn [mbind option_bind].
  destruct (Hview m (fuel + 0)%nat ltac:(lia)) as (om & hm & Im & Hkey). pose proof (first_key (view m) om hm lk Im Hlk) as Hfirst.
  destruct (first_not_before (KeyComparator C) (view m) lk) as [y|]; cbn [Iterator_Valid].
  - destruct Hfirst as (ky & Ey & Hin & Hge & Hall). destruct (newest_keys (view m) n Hkn ky Hin Hge Hall) as (e & -> & Hoe & ->).
    unfold Iterator_key. cbn [mbind option_bind]. rewrite (Hkey y _ Ey). cbn [mbind option_bind].
    destruct (entry_fields e Hoe) as (len & p & v & -> & Ek & Et & Ev & Evb). cbn [mbind option_bind]. destruct (LookupKey_parts u s Hul Hs) as (_ & -> & _). rewrite Ek, Et, Ev.
    cbn [mbind option_bind]. rewrite Evb. destruct (Compare C (entry_key e) u =? 0); [|done]. unfold answer. destruct Hoe as (_ & (_ & _ & Hty) & _). cbn in Hty.
    change kTypeValue with 1 in *. change kTypeDeletion with 0. destruct (Z.eqb_spec (entry_type e) 1); [done|]. destruct (Z.eqb_spec (entry_type e) 0); [done|lia].
  - by rewrite (none_visible (view m) n Hkn Hfirst).
Qed.
End Reader.
End Adding.

(** ** Batches *)

(** A batch is inserted into the table unless one of its assertions fails. *)
#[local] Instance memtable_table (C : Comparator) : Table (option MemTable) := {
  Add seq t key value m := m ← m; '(_, m) ← MemTable_Add C seq t key value m; Some m
}.
Definition MemTable_InsertInto (C : Comparator) (rep : list Z) (m : option MemTable) : Status * option MemTable := InsertInto (H := memtable_table C) rep m.

Fixpoint insert_groups (C : Comparator) (gs : list group) (m : option MemTable) : list Status * option MemTable :=
  match gs with
  | [] => ([], m)
  | g :: gs => let '(s, m) := MemTable_InsertInto C (group_bytes g) m in let '(ss, m) := insert_groups C gs m in (s :: ss, m)
  end.

Section Batches.
Context {dom : list Z -> Prop} {C : Comparator} `{ComparatorLaws dom C}.

Definition update_key (u : update) : list Z := match u with UPut key _ => key | UDelete key => key end.
Definition update_fits (u : update) : Prop := update_ok u /\ dom (update_key u) /\ zlen (update_key u) < 2 ^ 32 - 8.

(** Groups with consecutive sequence numbers from [s] on. *)
Fixpoint numbered (s : Z) (gs : list group) : Prop :=
  match gs with
  | [] => s <= kMaxSequenceNumber + 1
  | g :: gs => fst g = s /\ zlen (snd g) < 2 ^ 31 /\ Forall update_fits (snd g) /\ numbered (s + zlen (snd g)) gs
  end.

Lemma numbered_end s gs : numbered s gs -> s <= kMaxSequenceNumber + 1.
Proof. revert s. induction gs as [|g gs IH]; intros s; cbn [numbered]; [done|]. intros (_ & _ & _ & Hn%IH). zlen_pos. lia. Qed.

(** The entries of updates: numbered one after another, and fit for the table. *)
Lemma entries_of_numbered us s : 0 <= s -> s + zlen us <= kMaxSequenceNumber + 1 -> Forall update_fits us ->
  Forall (entry_ok (dom := dom)) (entries_of s us) /\ Forall (fun e => s <= entry_seq e < s + zlen us) (entries_of s us) /\
  ForallOrdPairs (fun e e' => entry_seq e < entry_seq e') (entries_of s us).
Proof.
  revert s. induction us as [|u us IH]; intros s Hs Hm Hu; cbn [entries_of]; [by repeat constructor|]. apply Forall_cons_1 in Hu as [(Hu & Hd & Hl) Hus]. rewrite zlen_cons in *. zlen_pos.
  change kMaxSequenceNumber with (2 ^ 56 - 1) in *. replace (u64 (s + 1)) with (s + 1) by (unfold u64; rewrite Z.mod_small; lia).
  destruct (IH (s + 1) ltac:(lia) ltac:(lia) Hus) as (K1 & K2 & K3). assert (He : entry_seq (entry_of s u) = s) by by destruct u. split; [|split].
  - constructor; [|done]. destruct u as [key value|key]; cbn [update_ok update_key entry_of] in *; (split; [exact Hd|]; split; [split; [exact (proj2 ltac:(apply Hu)) || apply Hu|split]|]).
    all: cbn [entry_parsed entry_seq entry_type entry_key entry_value user_key sequence type]; change kMaxSequenceNumber with (2 ^ 56 - 1); change kTypeValue with 1; change kTypeDeletion with 0; try lia.
    + split; [done|]. split; apply Hu.
    + split; [done|]. split; [constructor|done].
  - constructor; [lia|]. apply (Forall_impl _ _ _ K2). intros e. cbn. lia.
  - constructor; [|done]. rewrite He. apply (Forall_impl _ _ _ K2). intros e. cbn. lia.
Qed.

Lemma groups_numbered gs s : 0 <= s -> numbered s gs ->
  Forall (entry_ok (dom := dom)) (concat (map group_entries gs)) /\ Forall (fun e => s <= entry_seq e) (concat (map group_entries gs)) /\
  ForallOrdPairs (fun e e' => entry_seq e < entry_seq e') (concat (map group_entries gs)).
Proof.
  revert s. induction gs as [|g gs IH]; intros s Hs; cbn [numbered map concat]; [by repeat constructor|]. intros (Eg & Hl & Hu & Hn). zlen_pos.
  pose proof (numbered_end _ _ Hn) as He. unfold group_entries at 1 3 5. rewrite Eg. destruct (entries_of_numbered (snd g) s Hs He Hu) as (K1 & K2 & K3).
  destruct (IH (s + zlen (snd g)) ltac:(lia) Hn) as (G1 & G2 & G3). split; [by apply Forall_app|]. split; [apply Forall_app; split|].
  - apply (Forall_impl _ _ _ K2). intros e. cbn. lia.
  - apply (Forall_impl _ _ _ G2). intros e. cbn. lia.
  - clear IH K1 G1. induction K3 as [|e es Hx K3 IHx]; [done|]. apply Forall_cons_1 in K2 as [Hb K2]. cbn [app]. constructor; [|by apply IHx]. apply Forall_app. split; [done|].
    apply (Forall_impl _ _ _ G2). intros e'. cbn. lia.
Qed.

Lemma ascending_distinct es : ForallOrdPairs (fun e e' => entry_seq e < entry_seq e') es -> Forall (entry_ok (dom := dom)) es -> distinct (C := C) es.
Proof.
  induction 1 as [|e es He Hes IH]; intros Hok; constructor; apply Forall_cons_1 in Hok as [Ho Hok]; [|by apply IH]. rewrite Forall_forall in *. intros e' He' _.
  specialize (He e' He'). specialize (Hok e' He'). destruct Ho as (_ & (_ & _ & Ht) & _), Hok as (_ & (_ & _ & Ht') & _). cbn in *. change kTypeValue with 1 in *. unfold entry_tag. lia.
Qed.

(** A handler's run over updates adds their entries. *)
Lemma handled us seq m : mem_ (fold_left (handle (H := MemTableInserter (option MemTable)) (H0 := inserter_handler (H := memtable_table C))) us (mkInserter seq (Some m)))
  = ('(_, m') ← MemTable_Adds (C := C) (entries_of seq us) m; Some m').
Proof.
  assert (Hnone : forall us seq, mem_ (fold_left (handle (H := MemTableInserter (option MemTable)) (H0 := inserter_handler (H := memtable_table C))) us (mkInserter seq None)) = None).
  { clear. induction us as [|u us IH]; intros seq; [done|]. cbn [fold_left]. destruct u; apply IH. }
  assert (Hstep : forall u seq m, handle (H0 := inserter_handler (H := memtable_table C)) (mkInserter seq (Some m)) u = mkInserter (u64 (seq + 1))
    ('(_, m') ← MemTable_Add C (entry_seq (entry_of seq u)) (entry_type (entry_of seq u)) (entry_key (entry_of seq u)) (entry_value (entry_of seq u)) m; Some m')) by by intros [].
  revert seq m. induction us as [|u us IH]; intros seq m; [done|]. cbn [fold_left entries_of MemTable_Adds]. rewrite Hstep.
  destruct (MemTable_Add C _ _ _ _ m) as [[now m1]|]; cbn [mbind option_bind]; [|apply Hnone]. rewrite IH. by destruct (MemTable_Adds _ m1) as [[later m2]|].
Qed.

Lemma InsertInto_holds g m es : fst g + zlen (snd g) <= kMaxSequenceNumber + 1 -> 0 <= fst g -> zlen (snd g) < 2 ^ 31 -> Forall update_fits (snd g) -> holds (dom := dom) (C := C) m es ->
  Forall (entry_ok (dom := dom)) (es ++ group_entries g) -> distinct (C := C) (es ++ group_entries g) ->
  exists m', MemTable_InsertInto C (group_bytes g) (Some m) = (OK, Some m') /\ holds (dom := dom) (C := C) m' (es ++ group_entries g).
Proof.
  intros Hm Hs Hl Hu Hh Hok Hd. destruct (MemTable_Adds_holds (group_entries g) m es Hh Hok Hd) as (trace & m' & E & Hh' & _). exists m'. split; [|done].
  unfold MemTable_InsertInto, InsertInto, group_bytes. zlen_pos. change kMaxSequenceNumber with (2 ^ 56 - 1) in Hm.
  rewrite Iterate_batch by first [lia|apply (Forall_impl _ _ _ Hu); intros u (? & _); done]. rewrite Z.eqb_refl, Sequence_batch by lia. rewrite handled. unfold group_entries in E. by rewrite E.
Qed.

Lemma insert_groups_holds gs s m es : 0 <= s -> numbered s gs -> holds (dom := dom) (C := C) m es -> Forall (entry_ok (dom := dom)) (es ++ concat (map group_entries gs)) ->
  distinct (C := C) (es ++ concat (map group_entries gs)) ->
  exists m', insert_groups C gs (Some m) = (replicate (length gs) OK, Some m') /\ holds (dom := dom) (C := C) m' (es ++ concat (map group_entries gs)).
Proof.
  revert s m es. induction gs as [|g gs IH]; intros s m es Hs Hn Hh Hok Hd; cbn [insert_groups map concat length replicate] in *; [exists m; by rewrite app_nil_r|].
  destruct Hn as (Eg & Hl & Hu & Hn). zlen_pos. pose proof (numbered_end _ _ Hn). rewrite app_assoc in *.
  assert (Hok1 : Forall (entry_ok (dom := dom)) (es ++ group_entries g)) by by apply Forall_app in Hok as [? _].
  assert (Hd1 : distinct (C := C) (es ++ group_entries g)).
  { clear -Hd. revert Hd. generalize (es ++ group_entries g), (concat (map group_entries gs)). intros a b Hd. induction a as [|x a IHa]; [constructor|]. cbn [app] in Hd.
    inversion Hd as [|? ? Hx Hr]; subst. constructor; [by apply Forall_app in Hx as [? _]|by apply IHa]. }
  destruct (InsertInto_holds g m es ltac:(lia) ltac:(lia) Hl Hu Hh Hok1 Hd1) as (m1 & -> & Hh1).
  destruct (IH (s + zlen (snd g)) m1 (es ++ group_entries g) ltac:(lia) Hn Hh1 Hok Hd) as (m2 & -> & Hh2). by exists m2.
Qed.
End Batches.

(** ** Properties *)

(** C3. A read at a snapshot sees the snapshot. A table holds some entries, and while a
    writer adds others that are newer than the snapshot, store by store, a lookup without
    the mutex (its loads finding any of these memories in their order, from any height)
    gives the newest entry of the key that is not newer than the snapshot: its value, or
    that the key is deleted, or nothing if there is none. Adding the entries succeeds. *)
Theorem snapshot_reads (dom : list Z -> Prop) C es1 es2 u s : ComparatorLaws dom C -> Forall (entry_ok (dom := dom)) (es1 ++ es2) -> distinct (C := C) (es1 ++ es2) ->
  Forall (fun e => s < entry_seq e) es2 -> dom u -> bytes_ok u -> zlen u < 2 ^ 32 - 8 -> 0 <= s <= kMaxSequenceNumber ->
  exists m0 trace1 m1 trace2 m2, MemTable_new = Some m0 /\ MemTable_Adds (C := C) es1 m0 = Some (trace1, m1) /\ MemTable_Adds (C := C) es2 m1 = Some (trace2, m2) /\
    forall t fuel height value st, schedule trace2 t -> (1 <= height <= kMaxHeight)%nat -> (kMaxHeight + length (es1 ++ es2) <= fuel)%nat ->
      MemTable_Get C (reading (table_ m1) trace2 t) fuel height (LookupKey u s) value st = Some (answer (newest (C := C) u s es1) value st).
Proof.
  intros Hc Hok Hd Hnew Hu Hub Hul Hs. destruct (MemTable_new_holds (dom := dom) (C := C)) as (m0 & E0 & H0). pose proof Hok as [Hok1 _]%Forall_app.
  assert (Hd1 : distinct (C := C) es1).
  { clear -Hd. induction es1 as [|x a IHa]; [constructor|]. cbn [app] in Hd. inversion Hd as [|? ? Hx Hr]; subst. constructor; [by apply Forall_app in Hx as [? _]|by apply IHa]. }
  destruct (MemTable_Adds_holds es1 m0 [] H0 Hok1 Hd1) as (trace1 & m1 & E1 & H1 & _). cbn [app] in H1.
  destruct (MemTable_Adds_holds es2 m1 es1 H1 Hok Hd) as (trace2 & m2 & E2 & _ & order & h & order' & h' & I1 & Hh & I2 & Hlen). destruct H1 as (_ & _ & _ & _ & Hk1).
  exists m0, trace1, m1, trace2, m2. do 3 (split; [done|]). intros t fuel height value st Ht Hhe Hf.
  apply (Get_newest es1 es2 u s Hok Hd Hnew Hu Hub Hul Hs _ order h trace2 (table_ m2) order' h'); [done|done|done|done|done|done|by rewrite Hlen].
Qed.

Lemma snapshot_reads_witness : exists m0 trace1 m1 trace2 m2, MemTable_new = Some m0 /\
  MemTable_Adds (C := BytewiseComparator) [(3, 1, [7], [1; 2]); (4, 0, [8], [])] m0 = Some (trace1, m1) /\
  MemTable_Adds (C := BytewiseComparator) [(9, 1, [7], [5])] m1 = Some (trace2, m2) /\
    forall t fuel height value st, schedule trace2 t -> (1 <= height <= kMaxHeight)%nat -> (kMaxHeight + 3 <= fuel)%nat ->
      MemTable_Get BytewiseComparator (reading (table_ m1) trace2 t) fuel height (LookupKey [7] 5) value st = Some (true, [1; 2], st).
Proof.
  refine (snapshot_reads bytes_ok BytewiseComparator [(3, 1, [7], [1; 2]); (4, 0, [8], [])] [(9, 1, [7], [5])] [7] 5 bytewise_comparator_laws _ _ _ _ _ _ _).
  - repeat (apply Forall_cons; split); [..|apply Forall_nil; exact I]; (split; [witness_bytes|]; split; [split; [witness_bytes|split; split; discriminate]|]; split; [reflexivity|]; split; [witness_bytes|reflexivity]).
  - repeat constructor; intros _; discriminate.
  - repeat constructor.
  - witness_bytes.
  - witness_bytes.
  - reflexivity.
  - split; discriminate.
Defined.

(** C4. What batches put into a table is read from it. Inserting batches with consecutive
    sequence numbers one after another into a new table succeeds for each of them, and then
    a lookup of any key at any snapshot gives the newest of all their updates of the key
    that is not newer than the snapshot. *)
Theorem batches_are_read (dom : list Z -> Prop) C gs s0 : ComparatorLaws dom C -> 0 <= s0 -> numbered (dom := dom) s0 gs ->
  exists m0 m, MemTable_new = Some m0 /\ insert_groups C gs (Some m0) = (replicate (length gs) OK, Some m) /\
    forall u s value st, dom u -> bytes_ok u -> zlen u < 2 ^ 32 - 8 -> 0 <= s <= kMaxSequenceNumber ->
      MemTable_Get C (fun _ => table_ m) (loads (table_ m)) (GetMaxHeight (table_ m)) (LookupKey u s) value st
      = Some (answer (newest (C := C) u s (concat (map group_entries gs))) value st).
Proof.
  intros Hc Hs0 Hn. destruct (MemTable_new_holds (dom := dom) (C := C)) as (m0 & E0 & H0). destruct (groups_numbered gs s0 Hs0 Hn) as (Hok & _ & Hasc).
  pose proof (ascending_distinct (C := C) _ Hasc Hok) as Hd. destruct (insert_groups_holds gs s0 m0 [] Hs0 Hn H0 Hok Hd) as (m & E & order & h & I & Hall & Hk). cbn [app] in Hk.
  exists m0, m. split; [done|]. split; [done|]. intros u s value st Hu Hub Hul Hs. destruct (inv_height _ _ _ I) as [Hm _].
  pose proof (Permutation_length (inv_nodes _ _ _ I)) as Hlen. rewrite length_seq in Hlen. rewrite <- (app_nil_r (concat _)) in Hok, Hd.
  apply (Get_newest _ [] u s Hok Hd (Forall_nil_2 _) Hu Hub Hul Hs (table_ m) order h [] (table_ m) order h (fun _ => 0%nat)); [done|done|constructor|done|by intros n|done|unfold loads; lia].
Qed.

Lemma batches_are_read_witness : exists m0 m, MemTable_new = Some m0 /\
  insert_groups BytewiseComparator [(5, [UPut [1] [2]; UDelete [3]]); (7, [UPut [1] []])] (Some m0) = (replicate 2 OK, Some m) /\
    forall u s value st, bytes_ok u -> bytes_ok u -> zlen u < 2 ^ 32 - 8 -> 0 <= s <= kMaxSequenceNumber ->
      MemTable_Get BytewiseComparator (fun _ => table_ m) (loads (table_ m)) (GetMaxHeight (table_ m)) (LookupKey u s) value st
      = Some (answer (newest (C := BytewiseComparator) u s [(5, 1, [1], [2]); (6, 0, [3], []); (7, 1, [1], [])]) value st).
Proof.
  refine (batches_are_read bytes_ok BytewiseComparator [(5, [UPut [1] [2]; UDelete [3]]); (7, [UPut [1] []])] 5 bytewise_comparator_laws _ _); [lia|].
  cbn [numbered fst snd]. repeat (split; [reflexivity|]). split; [|split; [reflexivity|split; [reflexivity|split; [|discriminate]]]];
    repeat (apply Forall_cons; split); try (apply Forall_nil; exact I); (split; [cbn [update_ok]; repeat split; try reflexivity; witness_bytes|split; [witness_bytes|reflexivity]]).
Defined.
