(* ===== verification/LdbVersionEdit.v ===== *)
(** * Edits of versions (leveldb: db/version_edit.h, db/version_edit.cc)

    The records of a descriptor log. A [std::set] is the list of its elements in their
    order. An edit is written as items, each with a tag, and read item by item into an
    object that need not be new. *)

From Stdlib Require Import Sorted.
From stdpp Require Import strings list sorting.
From S2P Require Import Prelude Words PbWireFacts LdbCoding LdbEnv.

(** ** State *)

Record FileMetaData := mkFileMetaData { refs : Z; allowed_seeks : Z; number : Z; file_size : Z; smallest : list Z; largest : list Z }.

Record VersionEdit := mkVersionEdit {
  comparator_ : list Z; log_number_ : Z; prev_log_number_ : Z; next_file_number_ : Z; last_sequence_ : Z;
  has_comparator_ : bool; has_log_number_ : bool; has_prev_log_number_ : bool; has_next_file_number_ : bool; has_last_sequence_ : bool;
  compact_pointers_ : list (Z * list Z); deleted_files_ : list (Z * Z); new_files_ : list (Z * FileMetaData)
}.

Definition kNumLevels : Z := 7.
Definition kComparator : Z := 1.
Definition kLogNumber : Z := 2.
Definition kNextFileNumber : Z := 3.
Definition kLastSequence : Z := 4.
Definition kCompactPointer : Z := 5.
Definition kDeletedFile : Z := 6.
Definition kNewFile : Z := 7.
Definition kPrevLogNumber : Z := 9.

(** ** Operations *)

(** [compact_pointers_] is not cleared. *)
Definition Edit_Clear (e : VersionEdit) : VersionEdit := mkVersionEdit [] 0 0 0 0 false false false false false (compact_pointers_ e) [] [].
Definition VersionEdit_new : VersionEdit := Edit_Clear (mkVersionEdit [] 0 0 0 0 false false false false false [] [] []).

Definition SetComparatorName (name : list Z) (e : VersionEdit) : VersionEdit :=
  let '(mkVersionEdit _ l p n s _ hl hp hn hs cs ds fs) := e in mkVersionEdit name l p n s true hl hp hn hs cs ds fs.
Definition SetLogNumber (num : Z) (e : VersionEdit) : VersionEdit :=
  let '(mkVersionEdit c _ p n s hc _ hp hn hs cs ds fs) := e in mkVersionEdit c num p n s hc true hp hn hs cs ds fs.
Definition SetPrevLogNumber (num : Z) (e : VersionEdit) : VersionEdit :=
  let '(mkVersionEdit c l _ n s hc hl _ hn hs cs ds fs) := e in mkVersionEdit c l num n s hc hl true hn hs cs ds fs.
Definition SetNextFile (num : Z) (e : VersionEdit) : VersionEdit :=
  let '(mkVersionEdit c l p _ s hc hl hp _ hs cs ds fs) := e in mkVersionEdit c l p num s hc hl hp true hs cs ds fs.
Definition Edit_SetLastSequence (seq : Z) (e : VersionEdit) : VersionEdit :=
  let '(mkVersionEdit c l p n _ hc hl hp hn _ cs ds fs) := e in mkVersionEdit c l p n seq hc hl hp hn true cs ds fs.
Definition SetCompactPointer (level : Z) (key : list Z) (e : VersionEdit) : VersionEdit :=
  let '(mkVersionEdit c l p n s hc hl hp hn hs cs ds fs) := e in mkVersionEdit c l p n s hc hl hp hn hs (cs ++ [(level, key)]) ds fs.

Definition FileMetaData_new (file size : Z) (smallest largest : list Z) : FileMetaData := mkFileMetaData 0 (1 ≪ 30) file size smallest largest.
Definition push_file (level : Z) (f : FileMetaData) (e : VersionEdit) : VersionEdit :=
  let '(mkVersionEdit c l p n s hc hl hp hn hs cs ds fs) := e in mkVersionEdit c l p n s hc hl hp hn hs cs ds (fs ++ [(level, f)]).
Definition AddFile (level file size : Z) (smallest largest : list Z) (e : VersionEdit) : VersionEdit := push_file level (FileMetaData_new file size smallest largest) e.

(** [std::set<std::pair<int, uint64_t>>::insert]. *)
Definition pair_lt (a b : Z * Z) : bool := (fst a <? fst b) || ((fst a =? fst b) && (snd a <? snd b)).
Fixpoint set_insert (x : Z * Z) (l : list (Z * Z)) : list (Z * Z) :=
  match l with
  | [] => [x]
  | y :: l' => if pair_lt x y then x :: l else if pair_lt y x then y :: set_insert x l' else l
  end.
Definition RemoveFile (level file : Z) (e : VersionEdit) : VersionEdit :=
  let '(mkVersionEdit c l p n s hc hl hp hn hs cs ds fs) := e in mkVersionEdit c l p n s hc hl hp hn hs cs (set_insert (level, file) ds) fs.

(** [InternalKey::Encode] asserts that the key is not empty. *)
Definition InternalKey_Encode (rep : list Z) : option (list Z) := match rep with [] => None | _ => Some rep end.

Fixpoint encode_pointers (l : list (Z * list Z)) : option (list Z) :=
  match l with
  | [] => Some []
  | (level, key) :: l =>
      k ← InternalKey_Encode key; rest ← encode_pointers l;
      Some (PutVarint32 kCompactPointer ++ PutVarint32 (u32 level) ++ PutLengthPrefixedSlice k ++ rest)
  end.
Fixpoint encode_deleted (l : list (Z * Z)) : list Z :=
  match l with
  | [] => []
  | (level, file) :: l => PutVarint32 kDeletedFile ++ PutVarint32 (u32 level) ++ PutVarint64 file ++ encode_deleted l
  end.
Fixpoint encode_files (l : list (Z * FileMetaData)) : option (list Z) :=
  match l with
  | [] => Some []
  | (level, f) :: l =>
      s ← InternalKey_Encode (smallest f); g ← InternalKey_Encode (largest f); rest ← encode_files l;
      Some (PutVarint32 kNewFile ++ PutVarint32 (u32 level) ++ PutVarint64 (number f) ++ PutVarint64 (file_size f) ++ PutLengthPrefixedSlice s ++ PutLengthPrefixedSlice g ++ rest)
  end.
(** What is appended to [dst]; [None]: an assertion fails. *)
Definition EncodeTo (e : VersionEdit) : option (list Z) :=
  pointers ← encode_pointers (compact_pointers_ e);
  files ← encode_files (new_files_ e);
  Some ((if has_comparator_ e then PutVarint32 kComparator ++ PutLengthPrefixedSlice (comparator_ e) else []) ++
        (if has_log_number_ e then PutVarint32 kLogNumber ++ PutVarint64 (log_number_ e) else []) ++
        (if has_prev_log_number_ e then PutVarint32 kPrevLogNumber ++ PutVarint64 (prev_log_number_ e) else []) ++
        (if has_next_file_number_ e then PutVarint32 kNextFileNumber ++ PutVarint64 (next_file_number_ e) else []) ++
        (if has_last_sequence_ e then PutVarint32 kLastSequence ++ PutVarint64 (last_sequence_ e) else []) ++
        pointers ++ encode_deleted (deleted_files_ e) ++ files).

Definition GetInternalKey : M (list Z) (list Z) := let* str := GetLengthPrefixedSlice in guard (match str with [] => false | _ => true end) ;;; ret str.
Definition GetLevel : M (list Z) Z := let* v := GetVarint32 in guard (v <? kNumLevels) ;;; ret v.

(** A case of the switch: what is read changes the edit, or the message is set. *)
Definition edit_case {A} (m : M (list Z) A) (msg : string) (f : A -> VersionEdit -> VersionEdit) (e : VersionEdit) (input : list Z) : (string + VersionEdit) * list Z :=
  match m input with (Some a, input) => (inr (f a e), input) | (None, input) => (inl msg, input) end.

Definition DecodeFrom_case (tag : Z) : VersionEdit -> list Z -> (string + VersionEdit) * list Z :=
  if tag =? kComparator then edit_case GetLengthPrefixedSlice "comparator name" SetComparatorName
  else if tag =? kLogNumber then edit_case GetVarint64 "log number" SetLogNumber
  else if tag =? kPrevLogNumber then edit_case GetVarint64 "previous log number" SetPrevLogNumber
  else if tag =? kNextFileNumber then edit_case GetVarint64 "next file number" SetNextFile
  else if tag =? kLastSequence then edit_case GetVarint64 "last sequence number" Edit_SetLastSequence
  else if tag =? kCompactPointer then
    edit_case (let* level := GetLevel in let* key := GetInternalKey in ret (level, key)) "compaction pointer" (fun p => SetCompactPointer (fst p) (snd p))
  else if tag =? kDeletedFile then
    edit_case (let* level := GetLevel in let* number := GetVarint64 in ret (level, number)) "deleted file" (fun p => RemoveFile (fst p) (snd p))
  else if tag =? kNewFile then
    edit_case (let* level := GetLevel in let* number := GetVarint64 in let* size := GetVarint64 in let* smallest := GetInternalKey in let* largest := GetInternalKey in
      ret (level, FileMetaData_new number size smallest largest)) "new-file entry" (fun p => push_file (fst p) (snd p))
  else fun e input => (inl "unknown tag", input).

(** The loop; every round reads at least a byte. *)
Fixpoint DecodeFrom_loop (fuel : nat) (e : VersionEdit) (input : list Z) : VersionEdit * option string * list Z :=
  match fuel with
  | O => (e, None, input)
  | S fuel =>
      match GetVarint32 input with
      | (None, input) => (e, None, input)
      | (Some tag, input) =>
          match DecodeFrom_case tag e input with
          | (inl msg, input) => (e, Some msg, input)
          | (inr e, input) => DecodeFrom_loop fuel e input
          end
      end
  end.
Definition DecodeFrom (src : list Z) (e : VersionEdit) : Status * VersionEdit :=
  let '(e, msg, input) := DecodeFrom_loop (S (length src)) (Edit_Clear e) src in
  let msg := match msg, input with None, _ :: _ => Some "invalid tag"%string | _, _ => msg end in
  (match msg with Some msg => Corruption ("VersionEdit: " ++ msg) | None => OK end, e).

(** ** Well-formed edits *)

Definition is_number (n : Z) : Prop := 0 <= n < 2 ^ 64.
Definition is_string (s : list Z) : Prop := zlen s < 2 ^ 32 /\ bytes_ok s.
Definition is_key (k : list Z) : Prop := k <> [] /\ is_string k.
Definition is_level (l : Z) : Prop := 0 <= l < kNumLevels.

Definition pointer_ok (p : Z * list Z) : Prop := is_level (fst p) /\ is_key (snd p).
Definition deleted_ok (p : Z * Z) : Prop := is_level (fst p) /\ is_number (snd p).
(** A file as [AddFile] and [DecodeFrom] make it. *)
Definition file_ok (p : Z * FileMetaData) : Prop :=
  is_level (fst p) /\ refs (snd p) = 0 /\ allowed_seeks (snd p) = 1 ≪ 30 /\ (is_number (number (snd p)) /\ is_number (file_size (snd p))) /\
  is_key (smallest (snd p)) /\ is_key (largest (snd p)).

Record edit_ok (e : VersionEdit) : Prop := mkEditOk {
  ok_comparator : is_string (comparator_ e) /\ (has_comparator_ e = false -> comparator_ e = []);
  ok_numbers : (is_number (log_number_ e) /\ is_number (prev_log_number_ e)) /\ is_number (next_file_number_ e) /\ is_number (last_sequence_ e);
  ok_unset : (has_log_number_ e = false -> log_number_ e = 0) /\ (has_prev_log_number_ e = false -> prev_log_number_ e = 0) /\
    (has_next_file_number_ e = false -> next_file_number_ e = 0) /\ (has_last_sequence_ e = false -> last_sequence_ e = 0);
  ok_pointers : Forall pointer_ok (compact_pointers_ e);
  ok_deleted : Forall deleted_ok (deleted_files_ e) /\ StronglySorted (fun a b => pair_lt a b = true) (deleted_files_ e);
  ok_files : Forall file_ok (new_files_ e)
}.

(** ** Items *)

Inductive item :=
| IComparator (name : list Z) | ILogNumber (n : Z) | IPrevLogNumber (n : Z) | INextFile (n : Z) | ILastSequence (n : Z)
| IPointer (level : Z) (key : list Z) | IDeleted (level file : Z) | IFile (level file size : Z) (smallest largest : list Z).

Definition item_tag (i : item) : Z :=
  match i with
  | IComparator _ => kComparator | ILogNumber _ => kLogNumber | IPrevLogNumber _ => kPrevLogNumber | INextFile _ => kNextFileNumber | ILastSequence _ => kLastSequence
  | IPointer _ _ => kCompactPointer | IDeleted _ _ => kDeletedFile | IFile _ _ _ _ _ => kNewFile
  end.
Definition item_payload (i : item) : list Z :=
  match i with
  | IComparator name => PutLengthPrefixedSlice name
  | ILogNumber n | IPrevLogNumber n | INextFile n | ILastSequence n => PutVarint64 n
  | IPointer level key => PutVarint32 (u32 level) ++ PutLengthPrefixedSlice key
  | IDeleted level file => PutVarint32 (u32 level) ++ PutVarint64 file
  | IFile level file size s g => PutVarint32 (u32 level) ++ PutVarint64 file ++ PutVarint64 size ++ PutLengthPrefixedSlice s ++ PutLengthPrefixedSlice g
  end.
Definition item_bytes (i : item) : list Z := PutVarint32 (item_tag i) ++ item_payload i.

Definition item_apply (e : VersionEdit) (i : item) : VersionEdit :=
  match i with
  | IComparator name => SetComparatorName name e
  | ILogNumber n => SetLogNumber n e
  | IPrevLogNumber n => SetPrevLogNumber n e
  | INextFile n => SetNextFile n e
  | ILastSequence n => Edit_SetLastSequence n e
  | IPointer level key => SetCompactPointer level key e
  | IDeleted level file => RemoveFile level file e
  | IFile level file size s g => AddFile level file size s g e
  end.

Definition item_ok (i : item) : Prop :=
  match i with
  | IComparator name => is_string name
  | ILogNumber n | IPrevLogNumber n | INextFile n | ILastSequence n => is_number n
  | IPointer level key => is_level level /\ is_key key
  | IDeleted level file => is_level level /\ is_number file
  | IFile level file size s g => is_level level /\ is_number file /\ is_number size /\ is_key s /\ is_key g
  end.

Lemma level_u32 l : is_level l -> u32 l = l /\ 0 <= l < 2 ^ 32.
Proof. unfold is_level, kNumLevels, u32. intros Hl. rewrite Z.mod_small by lia. lia. Qed.

Lemma varint32_bytes_ok n : 0 <= n < 2 ^ 32 -> bytes_ok (PutVarint32 n).
Proof. intros Hn. unfold PutVarint32. rewrite EncodeVarint32_wire by done. apply varint_bytes_ok. lia. Qed.

Lemma varint64_bytes_ok n : is_number n -> bytes_ok (PutVarint64 n).
Proof. intros Hn. unfold PutVarint64. rewrite EncodeVarint64_wire by done. by apply varint_bytes_ok. Qed.

Lemma is_string_ok s : is_string s -> bytes_ok (PutLengthPrefixedSlice s).
Proof. intros [Hl Hs]. by apply PutLengthPrefixedSlice_ok. Qed.

Lemma key_string k : is_key k -> bytes_ok (PutLengthPrefixedSlice k).
Proof. intros [_ Hk]. by apply is_string_ok. Qed.

Lemma level_bytes l : is_level l -> bytes_ok (PutVarint32 (u32 l)).
Proof. intros Hl. destruct (level_u32 l Hl) as [-> Hw]. by apply varint32_bytes_ok. Qed.

Create HintDb edits.
#[export] Hint Resolve varint64_bytes_ok is_string_ok key_string level_bytes Forall_app_2 : edits.

Lemma item_tag_range i : 0 <= item_tag i < 2 ^ 32.
Proof. destruct i; done. Qed.

Lemma payload_ok i : item_ok i -> bytes_ok (item_payload i).
Proof. destruct i; cbn [item_ok item_payload]; try by auto with edits. all: intros; destruct_and?; auto 10 with edits. Qed.

Lemma items_bytes_ok l : Forall item_ok l -> bytes_ok (concat (map item_bytes l)).
Proof.
  intros Hl. apply Forall_concat, Forall_map, (Forall_impl _ _ _ Hl). intros i Hi. apply Forall_app. split; [apply varint32_bytes_ok, item_tag_range|by apply payload_ok].
Qed.

Lemma GetLevel_put l rest : is_level l -> bytes_ok rest -> GetLevel (PutVarint32 (u32 l) ++ rest) = (Some l, rest).
Proof.
  intros Hl Hr. destruct (level_u32 l Hl) as [-> Hw]. unfold GetLevel, bind. rewrite GetVarint32_put by done. unfold guard. unfold is_level in Hl.
  by destruct (Z.ltb_spec l kNumLevels); [|lia].
Qed.

Lemma GetInternalKey_put k rest : is_key k -> bytes_ok rest -> GetInternalKey (PutLengthPrefixedSlice k ++ rest) = (Some k, rest).
Proof. intros (Hn & Hl & Hb) Hr. unfold GetInternalKey, bind. rewrite GetLengthPrefixedSlice_put by done. by destruct k. Qed.

(** One item is read as it was written. *)
Lemma item_read i rest e : item_ok i -> bytes_ok rest -> DecodeFrom_case (item_tag i) e (item_payload i ++ rest) = (inr (item_apply e i), rest).
Proof.
  intros Hi Hr. destruct i; cbn [item_ok item_tag item_payload item_apply] in *; destruct_and?; unfold DecodeFrom_case, kComparator, kLogNumber, kPrevLogNumber, kNextFileNumber, kLastSequence, kCompactPointer, kDeletedFile, kNewFile, edit_case;
    cbn [Z.eqb Pos.eqb]; rewrite <- ?app_assoc; unfold bind.
  1: by rewrite GetLengthPrefixedSlice_put by first [done|apply Hi].
  1-4: by rewrite GetVarint64_put by done.
  - rewrite GetLevel_put, GetInternalKey_put by auto with edits. done.
  - rewrite GetLevel_put, GetVarint64_put by auto with edits. done.
  - rewrite GetLevel_put, !GetVarint64_put, !GetInternalKey_put by auto 10 with edits. done.
Qed.

Lemma DecodeFrom_items l fuel e : Forall item_ok l -> (length (concat (map item_bytes l)) < fuel)%nat ->
  DecodeFrom_loop fuel e (concat (map item_bytes l)) = (fold_left item_apply l e, None, []).
Proof.
  revert fuel e. induction l as [|i l IH]; intros fuel e Hl Hf; (destruct fuel as [|fuel]; [lia|]); [done|]. apply Forall_cons_1 in Hl as [Hi Hl]. cbn [map concat fold_left DecodeFrom_loop] in *.
  rewrite length_app in Hf. assert (Hne : (0 < length (item_bytes i))%nat).
  { unfold item_bytes, PutVarint32. rewrite length_app, EncodeVarint32_wire by apply item_tag_range. pose proof (item_tag_range i). pose proof (zlen_varint_bytes (item_tag i) ltac:(lia)) as Hz. unfold zlen in Hz. lia. }
  unfold item_bytes at 1. rewrite <- app_assoc. rewrite GetVarint32_put by first [apply item_tag_range|apply Forall_app; split; [by apply payload_ok|by apply items_bytes_ok]].
  rewrite item_read by first [done|by apply items_bytes_ok]. apply IH; [done|lia].
Qed.

(** ** What an edit is written as *)

Definition pointer_item (p : Z * list Z) : item := IPointer (fst p) (snd p).
Definition deleted_item (p : Z * Z) : item := IDeleted (fst p) (snd p).
Definition file_item (p : Z * FileMetaData) : item := IFile (fst p) (number (snd p)) (file_size (snd p)) (smallest (snd p)) (largest (snd p)).
Definition edit_items (e : VersionEdit) : list item :=
  (if has_comparator_ e then [IComparator (comparator_ e)] else []) ++ (if has_log_number_ e then [ILogNumber (log_number_ e)] else []) ++
  (if has_prev_log_number_ e then [IPrevLogNumber (prev_log_number_ e)] else []) ++ (if has_next_file_number_ e then [INextFile (next_file_number_ e)] else []) ++
  (if has_last_sequence_ e then [ILastSequence (last_sequence_ e)] else []) ++
  map pointer_item (compact_pointers_ e) ++ map deleted_item (deleted_files_ e) ++ map file_item (new_files_ e).

Lemma InternalKey_Encode_key k : is_key k -> InternalKey_Encode k = Some k.
Proof. intros [Hn _]. by destruct k. Qed.

Lemma encode_pointers_items l : Forall pointer_ok l -> encode_pointers l = Some (concat (map item_bytes (map pointer_item l))).
Proof.
  induction 1 as [|[level key] l [_ Hk] _ IH]; [done|]. cbn [encode_pointers map concat]. cbn [snd] in Hk. rewrite InternalKey_Encode_key, IH by done. cbn [mbind option_bind].
  unfold pointer_item at 2, item_bytes. cbn [item_tag item_payload fst snd]. by rewrite <- !app_assoc.
Qed.

Lemma encode_deleted_items l : encode_deleted l = concat (map item_bytes (map deleted_item l)).
Proof.
  induction l as [|[level file] l IH]; [done|]. cbn [encode_deleted map concat]. rewrite IH. unfold deleted_item at 2, item_bytes. cbn [item_tag item_payload fst snd]. by rewrite <- !app_assoc.
Qed.

Lemma encode_files_items l : Forall file_ok l -> encode_files l = Some (concat (map item_bytes (map file_item l))).
Proof.
  induction 1 as [|[level f] l (_ & _ & _ & _ & Hs & Hg) _ IH]; [done|]. cbn [encode_files map concat]. cbn [snd] in *. rewrite !InternalKey_Encode_key, IH by done. cbn [mbind option_bind].
  unfold file_item at 2, item_bytes. cbn [item_tag item_payload fst snd]. by rewrite <- !app_assoc.
Qed.

Lemma EncodeTo_items e : edit_ok e -> EncodeTo e = Some (concat (map item_bytes (edit_items e))) /\ Forall item_ok (edit_items e).
Proof.
  intros [[Hc _] [[Hl Hp] [Hn Hs]] _ Hcp [Hd _] Hf]. split.
  - unfold EncodeTo. rewrite encode_pointers_items, encode_files_items, encode_deleted_items by done. cbn [mbind option_bind]. f_equal. unfold edit_items. rewrite !map_app, !concat_app.
    destruct (has_comparator_ e), (has_log_number_ e), (has_prev_log_number_ e), (has_next_file_number_ e), (has_last_sequence_ e); cbn [map concat app]; unfold item_bytes at 1 2 3 4 5 || idtac; rewrite <- ?app_assoc, ?app_nil_r; reflexivity.
  - unfold edit_items. repeat (apply Forall_app; split).
    1-5: match goal with |- Forall _ (if ?b then _ else _) => destruct b; [constructor; [assumption|constructor]|constructor] end.
    + apply Forall_map, (Forall_impl _ _ _ Hcp). intros p Hpp. exact Hpp.
    + apply Forall_map, (Forall_impl _ _ _ Hd). intros p Hpp. exact Hpp.
    + apply Forall_map, (Forall_impl _ _ _ Hf). intros p (H1 & _ & _ & (H2 & H3) & H4 & H5). exact (conj H1 (conj H2 (conj H3 (conj H4 H5)))).
Qed.

Lemma pair_lt_trans a b c : pair_lt a b = true -> pair_lt b c = true -> pair_lt a c = true.
Proof. unfold pair_lt. rewrite !orb_true_iff, !andb_true_iff, !Z.ltb_lt, !Z.eqb_eq. lia. Qed.

Lemma pair_lt_total a b : pair_lt a b = false -> pair_lt b a = false -> a = b.
Proof.
  destruct a as [a1 a2], b as [b1 b2]. unfold pair_lt. cbn [fst snd]. destruct (Z.ltb_spec a1 b1), (Z.ltb_spec b1 a1), (Z.eqb_spec a1 b1), (Z.eqb_spec b1 a1), (Z.ltb_spec a2 b2), (Z.ltb_spec b2 a2); cbn [orb andb];
    intros; try discriminate; try lia; f_equal; lia.
Qed.

Lemma pair_lt_irrefl a : pair_lt a a = false.
Proof. unfold pair_lt. by rewrite !Z.ltb_irrefl, andb_false_r. Qed.

#[local] Abbreviation ascending := (StronglySorted (fun a b => pair_lt a b = true)).

Lemma set_insert_last l x : Forall (fun y => pair_lt y x = true) l -> set_insert x l = l ++ [x].
Proof.
  induction 1 as [|y l Hy Hl IH]; [done|]. cbn [set_insert]. destruct (pair_lt x y) eqn:E; [|by rewrite Hy, IH]. pose proof (pair_lt_trans _ _ _ E Hy) as Hx. by rewrite pair_lt_irrefl in Hx.
Qed.

(** [insert] of a set: the elements and their order. *)
Lemma set_insert_elem x y l : y ∈ set_insert x l <-> y = x \/ y ∈ l.
Proof.
  induction l as [|z l IH]; cbn [set_insert]; [by rewrite elem_of_cons|]. destruct (pair_lt x z) eqn:E1; [by rewrite elem_of_cons|].
  destruct (pair_lt z x) eqn:E2; [rewrite !elem_of_cons, IH; tauto|]. rewrite (pair_lt_total _ _ E1 E2). rewrite elem_of_cons. tauto.
Qed.

Lemma set_insert_Forall (P : Z * Z -> Prop) x l : P x -> Forall P l -> Forall P (set_insert x l).
Proof. rewrite !Forall_forall. intros Hx Hl y [->|Hy]%set_insert_elem; auto. Qed.

Lemma set_insert_sorted x l : ascending l -> ascending (set_insert x l).
Proof.
  induction 1 as [|z l Hs IH Hz]; cbn [set_insert]; [by repeat constructor|]. destruct (pair_lt x z) eqn:E1.
  - constructor; [by constructor|]. constructor; [done|]. apply (Forall_impl _ _ _ Hz). intros y Hy. by apply (pair_lt_trans x z).
  - destruct (pair_lt z x) eqn:E2; [|by constructor]. constructor; [done|]. apply Forall_forall. intros y [->|Hy]%set_insert_elem; [done|]. exact (proj1 (Forall_forall _ _) Hz y Hy).
Qed.

Section Folds.
Context (c : list Z) (l p n s : Z) (hc hl hp hn hs : bool).
#[local] Abbreviation edit := (mkVersionEdit c l p n s hc hl hp hn hs).

Lemma fold_pointers ps cs ds fs : fold_left item_apply (map pointer_item ps) (edit cs ds fs) = edit (cs ++ ps) ds fs.
Proof.
  revert cs. induction ps as [|[level key] ps IH]; intros cs; [by rewrite app_nil_r|]. cbn [map fold_left pointer_item fst snd item_apply SetCompactPointer]. by rewrite IH, <- app_assoc.
Qed.

Lemma fold_deleted xs cs ds fs : ascending (ds ++ xs) -> fold_left item_apply (map deleted_item xs) (edit cs ds fs) = edit cs (ds ++ xs) fs.
Proof.
  revert ds. induction xs as [|[level file] xs IH]; intros ds Hs; [by rewrite app_nil_r|]. cbn [map fold_left deleted_item fst snd item_apply RemoveFile].
  rewrite set_insert_last; [rewrite IH; by rewrite <- app_assoc|]. apply StronglySorted_app in Hs as (Hs & _ & _). apply Forall_forall. intros y Hy. apply Hs; [done|apply elem_of_cons; by left].
Qed.

Lemma fold_files xs cs ds fs : Forall file_ok xs -> fold_left item_apply (map file_item xs) (edit cs ds fs) = edit cs ds (fs ++ xs).
Proof.
  intros Hx. revert fs. induction Hx as [|[level f] xs (_ & Hr & Ha & _) Hx IH]; intros fs; [by rewrite app_nil_r|].
  cbn [map fold_left file_item fst snd item_apply]. unfold AddFile, FileMetaData_new, push_file. cbn [fst snd] in *. rewrite IH, <- app_assoc. cbn [app]. destruct f. cbn in *. by subst.
Qed.
End Folds.

(** An edit read into an object that had [ps] as its compaction pointers. *)
Definition with_pointers (ps : list (Z * list Z)) (e : VersionEdit) : VersionEdit :=
  let '(mkVersionEdit c l p n s hc hl hp hn hs cs ds fs) := e in mkVersionEdit c l p n s hc hl hp hn hs (ps ++ cs) ds fs.

Lemma items_applied e e0 : edit_ok e -> fold_left item_apply (edit_items e) (Edit_Clear e0) = with_pointers (compact_pointers_ e0) e.
Proof.
  intros [[_ Hc] _ (Hl & Hp & Hn & Hs) _ [_ Hd] Hf]. unfold edit_items. rewrite !fold_left_app.
  destruct e as [c l p n s hc hl hp hn hs cs ds fs]. cbn [comparator_ log_number_ prev_log_number_ next_file_number_ last_sequence_ has_comparator_ has_log_number_ has_prev_log_number_ has_next_file_number_ has_last_sequence_
    compact_pointers_ deleted_files_ new_files_] in *.
  assert (E : fold_left item_apply (if hs then [ILastSequence s] else []) (fold_left item_apply (if hn then [INextFile n] else []) (fold_left item_apply (if hp then [IPrevLogNumber p] else [])
    (fold_left item_apply (if hl then [ILogNumber l] else []) (fold_left item_apply (if hc then [IComparator c] else []) (Edit_Clear e0))))) = mkVersionEdit c l p n s hc hl hp hn hs (compact_pointers_ e0) [] []).
  { destruct hc, hl, hp, hn, hs; cbn; rewrite ?(Hc eq_refl), ?(Hl eq_refl), ?(Hp eq_refl), ?(Hn eq_refl), ?(Hs eq_refl); reflexivity. }
  rewrite E, fold_pointers, fold_deleted, fold_files by done. done.
Qed.

Lemma edit_decoded e e0 : edit_ok e -> exists bytes, EncodeTo e = Some bytes /\ bytes_ok bytes /\ DecodeFrom bytes e0 = (OK, with_pointers (compact_pointers_ e0) e).
Proof.
  intros He. destruct (EncodeTo_items e He) as [E Hi]. exists (concat (map item_bytes (edit_items e))). split; [done|]. split; [by apply items_bytes_ok|].
  unfold DecodeFrom. rewrite DecodeFrom_items by first [done|lia]. by rewrite items_applied.
Qed.

(** ** Any bytes *)

(** What a reader gives has a property, and leaves bytes. *)
Definition reads {A} (P : A -> Prop) (m : M (list Z) A) : Prop := forall input, bytes_ok input -> match m input with (Some v, r) => P v /\ bytes_ok r | (None, _) => True end.

Lemma reading_bind {A B} (P : A -> Prop) (Q : B -> Prop) m k : reads P m -> (forall a, P a -> reads Q (k a)) -> reads Q (bind m k).
Proof. intros Hm Hk input Hi. unfold bind. specialize (Hm input Hi). destruct (m input) as [[a|] r]; [|done]. destruct Hm as [Ha Hr]. by apply Hk. Qed.

Lemma reading_ret {A} (P : A -> Prop) (a : A) : P a -> reads P (ret a).
Proof. by intros Ha input Hi. Qed.

Lemma reading_guard {A} (P : A -> Prop) (b : bool) (m : M (list Z) A) : (b = true -> reads P m) -> reads P (guard b ;;; m).
Proof. intros Hm input Hi. rewrite bind_guard. destruct b; [by apply Hm|done]. Qed.

Lemma reads_varint32 : reads (fun v => 0 <= v < 2 ^ 32) GetVarint32.
Proof.
  intros input Hi. unfold GetVarint32, advance. rewrite GetVarint32Ptr_within by done. destruct (varint_within 32 5 input) as [[v r]|] eqn:E; [|done]. by apply varint_within_ok in E.
Qed.

Lemma reads_varint64 : reads is_number GetVarint64.
Proof.
  intros input Hi. unfold GetVarint64, advance. rewrite GetVarint64Ptr_within by done. destruct (varint_within 64 10 input) as [[v r]|] eqn:E; [|done]. by apply varint_within_ok in E.
Qed.

Lemma reads_string : reads is_string GetLengthPrefixedSlice.
Proof. intros input Hi. destruct (GetLengthPrefixedSlice input) as [[v|] r] eqn:E; [|done]. by destruct (GetLengthPrefixedSlice_ok _ _ _ Hi E) as (? & ? & ?). Qed.

Lemma reads_level : reads is_level GetLevel.
Proof. eapply reading_bind; [apply reads_varint32|]. intros v Hv. apply reading_guard. intros Hl%Z.ltb_lt. apply reading_ret. unfold is_level. cbv beta in Hv. lia. Qed.

Lemma reads_key : reads is_key GetInternalKey.
Proof. eapply reading_bind; [apply reads_string|]. intros v Hv. apply reading_guard. intros Hl. apply reading_ret. by destruct v. Qed.

Create HintDb reads.
#[export] Hint Resolve reads_varint64 reads_string reads_level reads_key : reads.

Lemma case_ok {A} (P : A -> Prop) m msg f e input : reads P m -> (forall a, P a -> edit_ok (f a e)) -> bytes_ok input ->
  match edit_case m msg f e input with (inr e', r) => edit_ok e' /\ bytes_ok r | (inl _, _) => True end.
Proof. intros Hm Hf Hi. unfold edit_case. specialize (Hm input Hi). destruct (m input) as [[a|] r]; [|done]. destruct Hm. split; [by apply Hf|done]. Qed.

(** A change of one field keeps the rest of the invariant. *)
Ltac keep_fields :=
  match goal with He : edit_ok ?e |- _ => destruct e; destruct He as [[? ?] [[? ?] [? ?]] (? & ? & ? & ?) ? [? ?] ?]; constructor; cbn in *; try tauto end.

Lemma DecodeFrom_case_ok tag e input : edit_ok e -> bytes_ok input -> match DecodeFrom_case tag e input with (inr e', r) => edit_ok e' /\ bytes_ok r | (inl _, _) => True end.
Proof.
  intros He Hi. unfold DecodeFrom_case. repeat match goal with |- context [if ?b then _ else _] => destruct b end; [..|done].
  - apply (case_ok is_string); [auto with reads| |done]. intros a Ha. by keep_fields.
  - apply (case_ok is_number); [auto with reads| |done]. intros a Ha. by keep_fields.
  - apply (case_ok is_number); [auto with reads| |done]. intros a Ha. by keep_fields.
  - apply (case_ok is_number); [auto with reads| |done]. intros a Ha. by keep_fields.
  - apply (case_ok is_number); [auto with reads| |done]. intros a Ha. by keep_fields.
  - apply (case_ok pointer_ok); [|intros a Ha; keep_fields; apply Forall_app; split; [done|constructor; [by destruct a|done]]|done].
    eapply reading_bind; [apply reads_level|intros level Hl]. eapply reading_bind; [apply reads_key|intros k Hk]. by apply reading_ret.
  - apply (case_ok deleted_ok); [|intros [a1 a2] Ha; keep_fields; split; [by apply set_insert_Forall|by apply set_insert_sorted]|done].
    eapply reading_bind; [apply reads_level|intros level Hl]. eapply reading_bind; [apply reads_varint64|intros k Hk]. by apply reading_ret.
  - apply (case_ok file_ok); [|intros a Ha; keep_fields; apply Forall_app; split; [done|constructor; [by destruct a|done]]|done].
    eapply reading_bind; [apply reads_level|intros level Hl]. eapply reading_bind; [apply reads_varint64|intros n Hn]. eapply reading_bind; [apply reads_varint64|intros z Hz].
    eapply reading_bind; [apply reads_key|intros k Hk]. eapply reading_bind; [apply reads_key|intros g Hg]. by apply reading_ret.
Qed.

Lemma DecodeFrom_loop_ok fuel e input : edit_ok e -> bytes_ok input -> edit_ok (fst (fst (DecodeFrom_loop fuel e input))).
Proof.
  revert e input. induction fuel as [|fuel IH]; intros e input He Hi; [done|]. cbn [DecodeFrom_loop]. pose proof (reads_varint32 input Hi) as Ht.
  destruct (GetVarint32 input) as [[tag|] r]; [|done]. destruct Ht as [_ Hr]. pose proof (DecodeFrom_case_ok tag e r He Hr) as Hc.
  destruct (DecodeFrom_case tag e r) as [[msg|e'] r']; [done|]. destruct Hc. by apply IH.
Qed.

Lemma Clear_ok e : Forall pointer_ok (compact_pointers_ e) -> edit_ok (Edit_Clear e).
Proof. intros He. constructor; cbn; [done|done|done|done|split; constructor|constructor]. Qed.

Lemma DecodeFrom_edit src e : DecodeFrom src e = (fst (DecodeFrom src e), fst (fst (DecodeFrom_loop (S (length src)) (Edit_Clear e) src))).
Proof. unfold DecodeFrom. by destruct (DecodeFrom_loop _ _ _) as [[e' msg] input]. Qed.

Lemma DecodeFrom_ok src e : bytes_ok src -> Forall pointer_ok (compact_pointers_ e) -> edit_ok (snd (DecodeFrom src e)).
Proof. intros Hs He. rewrite DecodeFrom_edit. apply DecodeFrom_loop_ok; [by apply Clear_ok|done]. Qed.

Lemma with_no_pointers e : with_pointers [] e = e.
Proof. by destruct e. Qed.

(** ** Properties *)

(** C24. The record written for an edit is read back: into any edit, whatever it held, [DecodeFrom] succeeds and gives the fields that were set, the comparator's name, the numbers,
    the deleted files in their order and the new files, and the compaction pointers the object had before with those of the record after them. *)
Theorem edit_roundtrip (e e0 : VersionEdit) : edit_ok e ->
  exists bytes, EncodeTo e = Some bytes /\ bytes_ok bytes /\ DecodeFrom bytes e0 = (OK, with_pointers (compact_pointers_ e0) e).
Proof. apply edit_decoded. Qed.

Definition sample_edit : VersionEdit :=
  RemoveFile 1 300 (RemoveFile 0 7 (RemoveFile 1 5 (AddFile 2 9 4096 [97; 1] [122; 1] (SetCompactPointer 3 [107; 1] (SetLogNumber 0 (Edit_SetLastSequence 1000 (SetComparatorName [99] VersionEdit_new))))))).

Example sample_edit_deleted : deleted_files_ sample_edit = [(0, 7); (1, 5); (1, 300)].
Proof. reflexivity. Qed.

Lemma edit_roundtrip_witness : exists bytes, EncodeTo sample_edit = Some bytes /\ bytes_ok bytes /\
  DecodeFrom bytes (SetCompactPointer 0 [1] VersionEdit_new) = (OK, with_pointers [(0, [1])] sample_edit).
Proof.
  apply (edit_roundtrip sample_edit (SetCompactPointer 0 [1] VersionEdit_new)).
  unfold sample_edit. constructor; cbn; unfold pointer_ok, deleted_ok, file_ok, is_key, is_string, is_level, is_number; cbn [fst snd].
  - split; [split; [reflexivity|witness_bytes]|discriminate].
  - repeat split; lia.
  - repeat split; intros; first [reflexivity|discriminate].
  - apply Forall_singleton. repeat split; try reflexivity; try discriminate. witness_bytes.
  - split; [|by repeat constructor]. repeat (apply Forall_cons; split; [repeat split; try reflexivity; try discriminate|]). apply Forall_nil_2.
  - apply Forall_singleton. repeat split; try reflexivity; try discriminate; witness_bytes.
Defined.

(** C25. Whatever bytes it is given, and whether or not it reports corruption, [DecodeFrom] leaves a well-formed edit: every level below [kNumLevels], every number of 64 bits, no empty
    key, the deleted files in ascending order without repetition, the fields that were not read at their cleared values; so the edit can be written, and the record is read back
    into a new edit as the same edit. *)
Theorem decoded_edits_well_formed (src : list Z) (e : VersionEdit) : bytes_ok src -> Forall pointer_ok (compact_pointers_ e) ->
  edit_ok (snd (DecodeFrom src e)) /\
  exists bytes, EncodeTo (snd (DecodeFrom src e)) = Some bytes /\ DecodeFrom bytes VersionEdit_new = (OK, snd (DecodeFrom src e)).
Proof.
  intros Hs He. pose proof (DecodeFrom_ok src e Hs He) as Hd. split; [done|]. destruct (edit_decoded _ VersionEdit_new Hd) as (bytes & E & _ & D). exists bytes. split; [done|].
  by rewrite D, with_no_pointers.
Qed.

Lemma decoded_edits_well_formed_witness :
  DecodeFrom [6; 1; 5; 6; 0; 7; 6; 1; 5; 6; 7; 1] VersionEdit_new = (Corruption "VersionEdit: deleted file", RemoveFile 0 7 (RemoveFile 1 5 VersionEdit_new)) /\
  edit_ok (snd (DecodeFrom [6; 1; 5; 6; 0; 7; 6; 1; 5; 6; 7; 1] VersionEdit_new)).
Proof.
  split; [reflexivity|]. refine (proj1 (decoded_edits_well_formed [6; 1; 5; 6; 0; 7; 6; 1; 5; 6; 7; 1] VersionEdit_new _ (Forall_nil_2 _))). witness_bytes.
Defined.
