(* ===== verification/LdbFilename.v ===== *)
(** * Names of files (leveldb: db/filename.cc, util/logging.cc, include/leveldb/slice.h)

    Names are bytes. The numbers are printed by the C library, in decimal and padded with
    zeros; they are read by the function of util/logging.cc, which checks for overflow. *)

From stdpp Require Import strings list.
From S2P Require Import Prelude Oid LdbEnv.

(** ** Text *)

Definition text (s : string) : list Z := map (fun a => Z.of_N (Ascii.N_of_ascii a)) (String.list_ascii_of_string s).

(** [%06llu]. *)
Definition padded (n : Z) : list Z := replicate (6 - length (decimal n)) 48 ++ decimal n.

Definition starts_with (x data : list Z) : bool := (zlen data >=? zlen x) && bool_decide (ztake (zlen x) data = x).

Inductive FileType := kLogFile | kDBLockFile | kTableFile | kDescriptorFile | kCurrentFile | kTempFile | kInfoLogFile.

(** ** Making names *)

Definition MakeFileName (dbname : list Z) (number : Z) (suffix : string) : list Z := dbname ++ text "/" ++ padded number ++ text "." ++ text suffix.
(** [None]: the assertion fails. *)
Definition LogFileName (dbname : list Z) (number : Z) : option (list Z) := if number >? 0 then Some (MakeFileName dbname number "log") else None.
Definition TableFileName (dbname : list Z) (number : Z) : option (list Z) := if number >? 0 then Some (MakeFileName dbname number "ldb") else None.
Definition SSTTableFileName (dbname : list Z) (number : Z) : option (list Z) := if number >? 0 then Some (MakeFileName dbname number "sst") else None.
Definition DescriptorFileName (dbname : list Z) (number : Z) : option (list Z) := if number >? 0 then Some (dbname ++ text "/MANIFEST-" ++ padded number) else None.
Definition CurrentFileName (dbname : list Z) : list Z := dbname ++ text "/CURRENT".
Definition LockFileName (dbname : list Z) : list Z := dbname ++ text "/LOCK".
Definition TempFileName (dbname : list Z) (number : Z) : option (list Z) := if number >? 0 then Some (MakeFileName dbname number "dbtmp") else None.
Definition InfoLogFileName (dbname : list Z) : list Z := dbname ++ text "/LOG".
Definition OldInfoLogFileName (dbname : list Z) : list Z := dbname ++ text "/LOG.old".

(** ** Reading names *)

Definition kMaxUint64 : Z := 18446744073709551615.
Definition kLastDigitOfMaxUint64 : Z := 48 + kMaxUint64 mod 10.

(** The loop: the value and what is behind the digits. *)
Fixpoint ConsumeDecimalNumber_loop (value : Z) (current : list Z) : option (Z * list Z) :=
  match current with
  | [] => Some (value, [])
  | ch :: rest =>
      if (ch <? 48) || (ch >? 57) then Some (value, current)
      else if (value >? kMaxUint64 / 10) || ((value =? kMaxUint64 / 10) && (ch >? kLastDigitOfMaxUint64)) then None
      else ConsumeDecimalNumber_loop (u64 (value * 10 + (ch - 48))) rest
  end.
Definition ConsumeDecimalNumber : M (list Z) Z := fun inp =>
  match ConsumeDecimalNumber_loop 0 inp with
  | None => (None, inp)
  | Some (value, rest) => if zlen inp - zlen rest =? 0 then (None, rest) else (Some value, rest)
  end.

Definition ParseFileName (filename : list Z) : option (Z * FileType) :=
  let rest := filename in
  if bool_decide (rest = text "CURRENT") then Some (0, kCurrentFile)
  else if bool_decide (rest = text "LOCK") then Some (0, kDBLockFile)
  else if bool_decide (rest = text "LOG") || bool_decide (rest = text "LOG.old") then Some (0, kInfoLogFile)
  else if starts_with (text "MANIFEST-") rest then
    match ConsumeDecimalNumber (zdrop 9 rest) with
    | (None, _) => None
    | (Some num, rest) => if negb (zlen rest =? 0) then None else Some (num, kDescriptorFile)
    end
  else
    match ConsumeDecimalNumber rest with
    | (None, _) => None
    | (Some num, suffix) =>
        if bool_decide (suffix = text ".log") then Some (num, kLogFile)
        else if bool_decide (suffix = text ".sst") || bool_decide (suffix = text ".ldb") then Some (num, kTableFile)
        else if bool_decide (suffix = text ".dbtmp") then Some (num, kTempFile)
        else None
    end.

(** ** The file that names the manifest *)

(** What the environment does with whole files. *)
Class Env (E : Type) := {
  WriteStringToFileSync : list Z -> list Z -> E -> Status * E;
  ReadFileToString : list Z -> E -> Status * list Z;
  RenameFile : list Z -> list Z -> E -> Status * E;
  RemoveFile_named : list Z -> E -> E
}.

(** [None]: an assertion fails. *)
Definition SetCurrentFile {E} `{Env E} (env : E) (dbname : list Z) (descriptor_number : Z) : option (Status * E) :=
  contents ← DescriptorFileName dbname descriptor_number;
  if negb (starts_with (dbname ++ text "/") contents) then None
  else
    let contents := zdrop (zlen dbname + 1) contents in
    tmp ← TempFileName dbname descriptor_number;
    let '(s, env) := WriteStringToFileSync (contents ++ [10]) tmp env in
    let '(s, env) := if ok s then RenameFile tmp (CurrentFileName dbname) env else (s, env) in
    Some (s, if negb (ok s) then RemoveFile_named tmp env else env).

(** ** Numbers *)

Definition is_digit (c : Z) : Prop := 48 <= c <= 57.
Definition digits_value (ds : list Z) : Z := fold_left (fun v c => v * 10 + (c - 48)) ds 0.
Definition no_digit (rest : list Z) : Prop := match rest with c :: _ => ~ is_digit c | [] => True end.

Lemma digits_from_ge ds v : Forall is_digit ds -> 0 <= v -> v <= fold_left (fun v c => v * 10 + (c - 48)) ds v.
Proof.
  revert v. induction ds as [|c ds IH]; intros v Hd Hv; [cbn; lia|]. apply Forall_cons_1 in Hd as [Hc Hd]. unfold is_digit in Hc. cbn [fold_left]. specialize (IH (v * 10 + (c - 48)) Hd ltac:(lia)). lia.
Qed.

Lemma consume_loop ds rest v : Forall is_digit ds -> no_digit rest -> 0 <= v < 2 ^ 64 ->
  ConsumeDecimalNumber_loop v (ds ++ rest) = if fold_left (fun v c => v * 10 + (c - 48)) ds v <? 2 ^ 64 then Some (fold_left (fun v c => v * 10 + (c - 48)) ds v, rest) else None.
Proof.
  revert v. induction ds as [|c ds IH]; intros v Hd Hr Hv.
  - cbn [app fold_left]. destruct (Z.ltb_spec v (2 ^ 64)); [|lia]. destruct rest as [|c rest]; [done|]. cbn [ConsumeDecimalNumber_loop no_digit] in *. unfold is_digit in Hr. rewrite Z.gtb_ltb.
    destruct (Z.ltb_spec c 48), (Z.ltb_spec 57 c); try done. exfalso. lia.
  - apply Forall_cons_1 in Hd as [Hc Hd]. unfold is_digit in Hc. cbn [app ConsumeDecimalNumber_loop fold_left]. rewrite !Z.gtb_ltb. destruct (Z.ltb_spec c 48), (Z.ltb_spec 57 c); try lia. cbn [orb].
    change (kMaxUint64 / 10) with 1844674407370955161. change kLastDigitOfMaxUint64 with 53. change (2 ^ 64) with 18446744073709551616 in *. pose proof (digits_from_ge ds (v * 10 + (c - 48)) Hd ltac:(lia)) as Hge.
    destruct (Z.ltb_spec 1844674407370955161 v), (Z.eqb_spec v 1844674407370955161), (Z.ltb_spec 53 c); cbn [orb andb];
      try (destruct (Z.ltb_spec (fold_left (fun v c => v * 10 + (c - 48)) ds (v * 10 + (c - 48))) 18446744073709551616); [lia|done]);
      unfold u64; rewrite Z.mod_small by lia; apply IH; done || lia.
Qed.

Lemma consume_digits ds rest : Forall is_digit ds -> no_digit rest -> ds <> [] -> digits_value ds < 2 ^ 64 -> ConsumeDecimalNumber (ds ++ rest) = (Some (digits_value ds), rest).
Proof.
  intros Hd Hr Hne Hv. unfold ConsumeDecimalNumber. rewrite consume_loop by done. fold (digits_value ds). destruct (Z.ltb_spec (digits_value ds) (2 ^ 64)); [|lia]. rewrite zlen_app.
  destruct ds; [done|]. rewrite zlen_cons. zlen_pos. destruct (Z.eqb_spec (1 + zlen ds + zlen rest - zlen rest) 0); [lia|done].
Qed.

(** The digits in front of a string. *)
Lemma digits_split s : exists ds rest, s = ds ++ rest /\ Forall is_digit ds /\ no_digit rest.
Proof.
  induction s as [|c s (ds & rest & -> & Hd & Hr)]; [by exists [], []|]. destruct (decide (48 <= c <= 57)) as [Hc|Hc]; [exists (c :: ds), rest|exists [], (c :: ds ++ rest)]; repeat split; try done.
  by constructor.
Qed.

Lemma consume_inv s n rest : ConsumeDecimalNumber s = (Some n, rest) -> exists ds, s = ds ++ rest /\ Forall is_digit ds /\ ds <> [] /\ digits_value ds = n /\ n < 2 ^ 64.
Proof.
  destruct (digits_split s) as (ds & rest' & -> & Hd & Hr). unfold ConsumeDecimalNumber. rewrite consume_loop by done. fold (digits_value ds). destruct (Z.ltb_spec (digits_value ds) (2 ^ 64)); [|done].
  rewrite zlen_app. destruct (Z.eqb_spec (zlen ds + zlen rest' - zlen rest') 0) as [|Hne]; [done|]. intros [= <- <-]. exists ds. do 2 (split; [done|]). split; [|done]. intros ->. apply Hne. rewrite zlen_nil. lia.
Qed.

(** ** Names *)

Inductive named : list Z -> Z -> FileType -> Prop :=
| named_current : named (text "CURRENT") 0 kCurrentFile
| named_lock : named (text "LOCK") 0 kDBLockFile
| named_info_log : named (text "LOG") 0 kInfoLogFile
| named_old_info_log : named (text "LOG.old") 0 kInfoLogFile
| named_descriptor ds : Forall is_digit ds -> ds <> [] -> digits_value ds < 2 ^ 64 -> named (text "MANIFEST-" ++ ds) (digits_value ds) kDescriptorFile
| named_number ds suffix t : Forall is_digit ds -> ds <> [] -> digits_value ds < 2 ^ 64 ->
    (suffix, t) ∈ [(".log"%string, kLogFile); (".sst"%string, kTableFile); (".ldb"%string, kTableFile); (".dbtmp"%string, kTempFile)] ->
    named (ds ++ text suffix) (digits_value ds) t.

Lemma starts_with_app x y : starts_with x (x ++ y) = true.
Proof. unfold starts_with. rewrite zlen_app, Z.geb_leb. zlen_pos. destruct (Z.leb_spec (zlen x) (zlen x + zlen y)); [|lia]. by rewrite ztake_app, bool_decide_true. Qed.

Lemma starts_with_inv x s : starts_with x s = true -> s = x ++ zdrop (zlen x) s.
Proof. unfold starts_with. intros [_ E%bool_decide_eq_true]%andb_true_iff. by rewrite <- E at 1; rewrite ztake_zdrop. Qed.

(** No name that begins with a digit is one of the others. *)
Lemma digits_first c s x : is_digit c -> match x with y :: _ => ~ is_digit y | [] => True end -> x <> [] -> bool_decide (c :: s = x) = false /\ starts_with x (c :: s) = false.
Proof.
  intros Hc Hx Hne. destruct x as [|y x]; [done|]. split; [apply bool_decide_false; congruence|]. apply not_true_iff_false. intros E%starts_with_inv. injection E as -> E. done.
Qed.

Lemma letter_first y : y < 48 \/ 57 < y -> ~ is_digit y.
Proof. unfold is_digit. lia. Qed.

Lemma ParseFileName_named s n t : named s n t -> ParseFileName s = Some (n, t).
Proof.
  destruct 1 as [| | | |ds Hd Hne Hv|ds suffix t Hd Hne Hv Hs]; [reflexivity..| |].
  - unfold ParseFileName. rewrite !bool_decide_false by (intros E; apply (f_equal (fun l => nth 3 l 0)) in E; discriminate). cbn [orb]. rewrite starts_with_app.
    change (zdrop 9 (text "MANIFEST-" ++ ds)) with ds. rewrite <- (app_nil_r ds) at 1. by rewrite consume_digits.
  - destruct ds as [|c ds]; [done|]. unfold ParseFileName. pose proof (Forall_inv Hd) as Hc. cbn [app].
    assert (Hx : forall x, match x with y :: _ => ~ is_digit y | [] => True end -> x <> [] -> bool_decide (c :: ds ++ text suffix = x) = false /\ starts_with x (c :: ds ++ text suffix) = false) by (intros x; by apply digits_first).
    rewrite (proj1 (Hx (text "CURRENT") ltac:(by apply letter_first; right) ltac:(done))), (proj1 (Hx (text "LOCK") ltac:(by apply letter_first; right) ltac:(done))),
      (proj1 (Hx (text "LOG") ltac:(by apply letter_first; right) ltac:(done))), (proj1 (Hx (text "LOG.old") ltac:(by apply letter_first; right) ltac:(done))),
      (proj2 (Hx (text "MANIFEST-") ltac:(by apply letter_first; right) ltac:(done))). cbn [orb]. change (c :: ds ++ text suffix) with ((c :: ds) ++ text suffix).
    rewrite !elem_of_cons, elem_of_nil in Hs. destruct Hs as [[= -> ->]|[[= -> ->]|[[= -> ->]|[[= -> ->]|[]]]]];
      (rewrite consume_digits; [reflexivity|done|by apply letter_first; left|done|done]).
Qed.

Lemma ParseFileName_inv s n t : ParseFileName s = Some (n, t) -> named s n t.
Proof.
  unfold ParseFileName. case_bool_decide as E1; [intros [= <- <-]; subst; constructor|]. case_bool_decide as E2; [intros [= <- <-]; subst; constructor|].
  case_bool_decide as E3; [intros [= <- <-]; subst; constructor|]. case_bool_decide as E4; [intros [= <- <-]; subst; constructor|]. cbn [orb]. destruct (starts_with _ s) eqn:Es.
  - apply starts_with_inv in Es. change (zlen (text "MANIFEST-")) with 9 in Es. destruct (ConsumeDecimalNumber (zdrop 9 s)) as [[num|] rest] eqn:Ec; [|done].
    destruct (Z.eqb_spec (zlen rest) 0) as [Er|]; [|done]. intros [= <- <-]. apply zlen_0_nil in Er as ->. apply consume_inv in Ec as (ds & E & Hd & Hne & <- & Hv). rewrite app_nil_r in E. rewrite Es, E. by constructor.
  - destruct (ConsumeDecimalNumber s) as [[num|] rest] eqn:Ec; [|done]. apply consume_inv in Ec as (ds & -> & Hd & Hne & <- & Hv).
    case_bool_decide as F1; [intros [= <- <-]; subst; constructor; by rewrite ?elem_of_cons; auto|]. case_bool_decide as F2; [intros [= <- <-]; subst; constructor; by rewrite ?elem_of_cons; auto|].
    case_bool_decide as F3; [intros [= <- <-]; subst; constructor; rewrite ?elem_of_cons; auto|]. cbn [orb]. case_bool_decide as F4; [intros [= <- <-]; subst; constructor; rewrite ?elem_of_cons; auto|done].
Qed.

Lemma digits_value_snoc ds c : digits_value (ds ++ [c]) = digits_value ds * 10 + (c - 48).
Proof. unfold digits_value. by rewrite fold_left_app. Qed.

Lemma dec_hi_value n w : 0 <= w < 10 ^ Z.of_nat n -> digits_value (dec_hi n w) = w /\ Forall is_digit (dec_hi n w).
Proof.
  revert w. induction n as [|n IH]; intros w Hw; [change (10 ^ Z.of_nat 0) with 1 in Hw; split; [unfold digits_value; cbn; lia|constructor]|]. rewrite dec_hi_S. destruct (Z.eqb_spec w 0) as [->|Hne]; [by split|].
  rewrite Nat2Z.inj_succ, Z.pow_succ_r in Hw by lia. destruct (IH (w / 10)) as [E Hd]; [dlia|]. rewrite digits_value_snoc, E. split; [dlia|]. apply Forall_app. split; [done|]. repeat constructor; unfold is_digit; dlia.
Qed.

Lemma decimal_value n : 0 <= n < 2 ^ 64 -> digits_value (decimal n) = n /\ Forall is_digit (decimal n) /\ decimal n <> [].
Proof.
  intros Hn. change (2 ^ 64) with 18446744073709551616 in Hn. unfold decimal. destruct (dec_hi_value 19 (n / 10)) as [E Hd]; [change (10 ^ Z.of_nat 19) with 10000000000000000000; dlia|].
  rewrite digits_value_snoc, E. split; [dlia|]. split; [|by destruct (dec_hi _ _)]. apply Forall_app. split; [done|]. repeat constructor; unfold is_digit; dlia.
Qed.

Lemma padded_value n : 0 <= n < 2 ^ 64 -> digits_value (padded n) = n /\ Forall is_digit (padded n) /\ padded n <> [].
Proof.
  intros Hn. destruct (decimal_value n Hn) as (Ev & Hd & Hne). unfold padded. induction (6 - length (decimal n))%nat as [|k (IHv & IHd & IHn)]; [done|]. cbn [replicate app]. split; [|split; [|done]].
  - rewrite <- IHv at 2. done.
  - by constructor.
Qed.

(** ** Properties *)

(** C28. The names of files. A name is parsed exactly if it is one of the fixed names, or MANIFEST- and digits, or digits and one of the four suffixes, where the digits, with or without
    leading zeros, are a number below 2^64: overflow is detected, and the number and type are those of the name. The names that the database makes for a number are
    of this form behind its directory, so they are parsed to the number they were made for. *)
Theorem file_names_exact :
  (forall s n t, ParseFileName s = Some (n, t) <-> named s n t) /\
  forall dbname n, 0 < n < 2 ^ 64 -> forall make t,
    (make, t) ∈ [(LogFileName, kLogFile); (TableFileName, kTableFile); (SSTTableFileName, kTableFile); (TempFileName, kTempFile); (DescriptorFileName, kDescriptorFile)] ->
    exists base, make dbname n = Some (dbname ++ text "/" ++ base) /\ ParseFileName base = Some (n, t).
Proof.
  split; [intros s n t; split; [apply ParseFileName_inv|apply ParseFileName_named]|]. intros dbname n Hn make t Hm. destruct (padded_value n ltac:(lia)) as (Ev & Hd & Hne).
  assert (Hp : n >? 0 = true) by (rewrite Z.gtb_ltb; by apply Z.ltb_lt; lia). rewrite !elem_of_cons, elem_of_nil in Hm.
  assert (Hnum : forall suffix t', (suffix, t') ∈ [(".log"%string, kLogFile); (".sst"%string, kTableFile); (".ldb"%string, kTableFile); (".dbtmp"%string, kTempFile)] ->
    ParseFileName (padded n ++ text suffix) = Some (n, t')) by (intros suffix t' Hs; rewrite <- Ev at 2; apply ParseFileName_named; constructor; by rewrite ?Ev; first [done|lia]).
  assert (Hlt : digits_value (padded n) < 2 ^ 64) by lia.
  destruct Hm as [[= -> ->]|[[= -> ->]|[[= -> ->]|[[= -> ->]|[[= -> ->]|[]]]]]].
  - exists (padded n ++ text ".log"). unfold LogFileName. rewrite Hp. split; [done|]. apply Hnum. rewrite !elem_of_cons. auto.
  - exists (padded n ++ text ".ldb"). unfold TableFileName. rewrite Hp. split; [done|]. apply Hnum. rewrite !elem_of_cons. auto.
  - exists (padded n ++ text ".sst"). unfold SSTTableFileName. rewrite Hp. split; [done|]. apply Hnum. rewrite !elem_of_cons. auto.
  - exists (padded n ++ text ".dbtmp"). unfold TempFileName. rewrite Hp. split; [done|]. apply Hnum. rewrite !elem_of_cons. auto.
  - exists (text "MANIFEST-" ++ padded n). unfold DescriptorFileName. rewrite Hp. split; [done|]. rewrite <- Ev at 2. apply ParseFileName_named. by constructor.
Qed.

Lemma file_names_exact_witness :
  (exists base, DescriptorFileName (text "db") 12 = Some (text "db" ++ text "/" ++ base) /\ ParseFileName base = Some (12, kDescriptorFile)) /\
  ParseFileName (text "18446744073709551615.ldb") = Some (18446744073709551615, kTableFile) /\ ParseFileName (text "18446744073709551616.ldb") = None.
Proof.
  split; [|split; reflexivity]. apply (proj2 file_names_exact (text "db") 12 (conj eq_refl eq_refl) DescriptorFileName kDescriptorFile). rewrite !elem_of_cons. tauto.
Defined.
