(* ===== verification/LdbVersion.v ===== *)
(** * The files of a version (leveldb: db/version_set.h, db/version_set.cc)

    A [FileMetaData*] is its address with the fields that nobody changes once a version
    has the file; the two counters that are changed belong to the set of versions. A
    pointer to a key that may be null is an option. Searching a level, and collecting the
    files that overlap a range. *)

From Stdlib Require Import Sorted.
From stdpp Require Import strings list sorting.
From S2P Require Import Prelude Words LdbCoding LdbBatch LdbEnv LdbKeys LdbVersionEdit.

(** ** Data *)

Record File := mkFile { f_ptr : Z; f_number : Z; f_size : Z; f_smallest : list Z; f_largest : list Z }.

Definition no_file : File := mkFile 0 0 0 [] [].
Definition file_at (files : list File) (i : Z) : File := nth (Z.to_nat i) files no_file.
(** [user_key()] of the two keys. *)
Definition user_smallest (f : File) : list Z := ExtractUserKey (f_smallest f).
Definition user_largest (f : File) : list Z := ExtractUserKey (f_largest f).

Definition TotalFileSize (files : list File) : Z := fold_left (fun sum f => i64 (sum + f_size f)) files 0.

(** The constructor of [InternalKey] from its parts. *)
Definition InternalKey_make (user_key : list Z) (s t : Z) : list Z := AppendInternalKey [] (mkParsed user_key s t).

(** ** Searching *)

Section Search.
Context (ucmp : Comparator).
#[local] Abbreviation icmp := (Internal_Compare ucmp).

Fixpoint FindFile_loop (fuel : nat) (files : list File) (key : list Z) (left right : Z) : Z :=
  match fuel with
  | O => right
  | S fuel =>
      if left <? right then
        let mid := u32 (left + right) / 2 in
        if icmp (f_largest (file_at files mid)) key <? 0 then FindFile_loop fuel files key (u32 (mid + 1)) right else FindFile_loop fuel files key left mid
      else right
  end.
Definition FindFile (files : list File) (key : list Z) : Z := FindFile_loop (S (length files)) files key 0 (u32 (zlen files)).

Definition AfterFile (user_key : option (list Z)) (f : File) : bool := match user_key with Some k => Compare ucmp k (user_largest f) >? 0 | None => false end.
Definition BeforeFile (user_key : option (list Z)) (f : File) : bool := match user_key with Some k => Compare ucmp k (user_smallest f) <? 0 | None => false end.

(** The check against all files. *)
Fixpoint overlaps_some (smallest_user_key largest_user_key : option (list Z)) (files : list File) : bool :=
  match files with
  | [] => false
  | f :: files => if AfterFile smallest_user_key f || BeforeFile largest_user_key f then overlaps_some smallest_user_key largest_user_key files else true
  end.
Definition SomeFileOverlapsRange (disjoint_sorted_files : bool) (files : list File) (smallest_user_key largest_user_key : option (list Z)) : bool :=
  if negb disjoint_sorted_files then overlaps_some smallest_user_key largest_user_key files
  else
    let index := match smallest_user_key with Some k => FindFile files (InternalKey_make k kMaxSequenceNumber kValueTypeForSeek) | None => 0 end in
    if index >=? zlen files then false else negb (BeforeFile largest_user_key (file_at files index)).

(** From file [i] on, for the range that has been reached; [None]: the fuel is used up. *)
Fixpoint GetOverlappingInputs_loop (fuel : nat) (level : Z) (files : list File) (i : Z) (user_begin user_end : option (list Z)) (inputs : list File) : option (list File) :=
  match fuel with
  | O => None
  | S fuel =>
      if i <? zlen files then
        let f := file_at files i in
        let i := i + 1 in
        let file_start := user_smallest f in
        let file_limit := user_largest f in
        if match user_begin with Some b => Compare ucmp file_limit b <? 0 | None => false end then GetOverlappingInputs_loop fuel level files i user_begin user_end inputs
        else if match user_end with Some e => Compare ucmp file_start e >? 0 | None => false end then GetOverlappingInputs_loop fuel level files i user_begin user_end inputs
        else
          let inputs := inputs ++ [f] in
          if level =? 0 then
            if match user_begin with Some b => Compare ucmp file_start b <? 0 | None => false end then GetOverlappingInputs_loop fuel level files 0 (Some file_start) user_end []
            else if match user_end with Some e => Compare ucmp file_limit e >? 0 | None => false end then GetOverlappingInputs_loop fuel level files 0 user_begin (Some file_limit) []
            else GetOverlappingInputs_loop fuel level files i user_begin user_end inputs
          else GetOverlappingInputs_loop fuel level files i user_begin user_end inputs
      else Some inputs
  end.
(** A round for each file, again after each of at most two changes of the range by a file. *)
Definition overlap_fuel (files : list File) : nat := S (S (2 * length files) * S (length files)).
(** [files] are those of [level]; [None]: the level does not exist. *)
Definition GetOverlappingInputs (level : Z) (files : list File) (begin end_ : option (list Z)) : option (list File) :=
  if (level <? 0) || (level >=? kNumLevels) then None
  else GetOverlappingInputs_loop (overlap_fuel files) level files 0 (ExtractUserKey <$> begin) (ExtractUserKey <$> end_) [].
End Search.

(** ** Iterating over the files of a level *)

Record LevelFileNumIterator := mkLevelIter { li_files : list File; li_index : Z }.

Definition LevelIter_new (files : list File) : LevelFileNumIterator := mkLevelIter files (u32 (zlen files)).
Definition LevelIter_Valid (it : LevelFileNumIterator) : bool := li_index it <? zlen (li_files it).
Definition LevelIter_Seek (ucmp : Comparator) (target : list Z) (it : LevelFileNumIterator) : LevelFileNumIterator := mkLevelIter (li_files it) (FindFile ucmp (li_files it) target).
Definition LevelIter_SeekToFirst (it : LevelFileNumIterator) : LevelFileNumIterator := mkLevelIter (li_files it) 0.
Definition LevelIter_SeekToLast (it : LevelFileNumIterator) : LevelFileNumIterator := mkLevelIter (li_files it) (if zlen (li_files it) =? 0 then 0 else u32 (u32 (zlen (li_files it)) - 1)).
Definition LevelIter_Next (it : LevelFileNumIterator) : option LevelFileNumIterator := if LevelIter_Valid it then Some (mkLevelIter (li_files it) (u32 (li_index it + 1))) else None.
Definition LevelIter_Prev (it : LevelFileNumIterator) : option LevelFileNumIterator :=
  if LevelIter_Valid it then Some (mkLevelIter (li_files it) (if li_index it =? 0 then u32 (zlen (li_files it)) else li_index it - 1)) else None.
Definition LevelIter_key (it : LevelFileNumIterator) : option (list Z) := if LevelIter_Valid it then InternalKey_Encode (f_largest (file_at (li_files it) (li_index it))) else None.
Definition LevelIter_value (it : LevelFileNumIterator) : option (list Z) :=
  if LevelIter_Valid it then let f := file_at (li_files it) (li_index it) in Some (EncodeFixed64 (f_number f) ++ EncodeFixed64 (f_size f)) else None.

(** ** Lists of files *)

Lemma file_at_split files i : 0 <= i < zlen files -> files = ztake i files ++ file_at files i :: zdrop (i + 1) files.
Proof.
  intros Hi. destruct (zsplit i files ltac:(lia)) as (a & b & -> & <-). rewrite ztake_app, zdrop_app_ge by lia. unfold file_at. rewrite zlen_to_nat, app_nth2, Nat.sub_diag by lia.
  destruct b as [|f b]; [exfalso; zlia|]. cbn [nth]. by replace (zlen a + 1 - zlen a) with 1 by lia.
Qed.

Lemma file_at_app a f b : file_at (a ++ f :: b) (zlen a) = f.
Proof. unfold file_at. by rewrite zlen_to_nat, app_nth2, Nat.sub_diag by lia. Qed.

Lemma ztake_step files i : 0 <= i < zlen files -> ztake (i + 1) files = ztake i files ++ [file_at files i].
Proof.
  intros Hi. destruct (zsplit i files ltac:(lia)) as (a & b & -> & <-). destruct b as [|f b]; [exfalso; zlia|].
  rewrite file_at_app, ztake_app_ge, ztake_app by lia. f_equal. by replace (zlen a + 1 - zlen a) with 1 by lia.
Qed.

(** Binary search for the place where [p] ends to hold. *)
Section Bisect.
Context (ucmp : Comparator) (files : list File) (key : list Z).
#[local] Abbreviation p f := (Internal_Compare ucmp (f_largest f) key <? 0).
Context (Hmono : StronglySorted (fun f g => p g = true -> p f = true) files) (Hlen : zlen files < 2 ^ 31).

Lemma FindFile_loop_spec fuel left right : 0 <= left <= right -> right <= zlen files -> (Z.to_nat (right - left) < fuel)%nat ->
  Forall (fun f => p f = true) (ztake left files) -> Forall (fun f => p f = false) (zdrop right files) ->
  let i := FindFile_loop ucmp fuel files key left right in
  0 <= i <= zlen files /\ Forall (fun f => p f = true) (ztake i files) /\ Forall (fun f => p f = false) (zdrop i files).
Proof.
  revert left right. induction fuel as [|fuel IH]; intros left right Hl Hr Hf Hb Ha; [lia|]. cbn [FindFile_loop]. destruct (Z.ltb_spec left right).
  2: { assert (left = right) as -> by lia. split; [lia|done]. }
  replace (u32 (left + right)) with (left + right) by (unfold u32; rewrite Z.mod_small by lia; done). set (mid := (left + right) / 2). assert (Hm : left <= mid < right) by (unfold mid; dlia).
  pose proof (file_at_split files mid ltac:(lia)) as E. rewrite E in Hmono. apply StronglySorted_app in Hmono as (Hx & _ & Hy). apply StronglySorted_inv in Hy as [_ Hy].
  destruct (p (file_at files mid)) eqn:Ep.
  - replace (u32 (mid + 1)) with (mid + 1) by (unfold u32; rewrite Z.mod_small by lia; done). apply IH; try lia; [|done]. rewrite ztake_step by lia. apply Forall_app. split; [|by repeat constructor].
    apply Forall_forall. intros f Hf'. apply (Hx f (file_at files mid)); [done|apply elem_of_cons; by left|done].
  - apply IH; try lia; [done|]. rewrite E at 1. rewrite zdrop_app by (rewrite zlen_ztake; lia). constructor; [done|]. apply (Forall_impl _ _ _ Hy). intros g Hg. destruct (p g); [by specialize (Hg eq_refl)|done].
Qed.

Lemma FindFile_bisect : let i := FindFile ucmp files key in
  0 <= i <= zlen files /\ Forall (fun f => p f = true) (ztake i files) /\ Forall (fun f => p f = false) (zdrop i files).
Proof.
  unfold FindFile. zlen_pos. replace (u32 (zlen files)) with (zlen files) by (unfold u32; rewrite Z.mod_small by lia; done). apply FindFile_loop_spec; try lia.
  - unfold zlen. lia.
  - rewrite ztake_0. constructor.
  - rewrite zdrop_all by lia. constructor.
Qed.
End Bisect.

(** ** Order *)

Section Order.
Context {dom : list Z -> Prop} {C : Comparator} `{ComparatorLaws dom C}.
#[local] Abbreviation icmp := (Internal_Compare C).
#[local] Abbreviation idom := (internal_dom (dom := dom)).

(** Keys whose sequence number and type are in range. *)
Definition key_dom (k : list Z) : Prop := idom k /\ 0 <= tag k <= kMaxSequenceNumber * 256 + kTypeValue.
Definition file_wf (f : File) : Prop := key_dom (f_smallest f) /\ key_dom (f_largest f) /\ icmp (f_smallest f) (f_largest f) <= 0.
(** The files of a level above the first. *)
Definition disjoint_sorted (files : list File) : Prop := StronglySorted (fun f g => icmp (f_largest f) (f_smallest g) < 0) files.
(** The user keys of a file meet a range; no bound is no limit. *)
Definition meets (s l : option (list Z)) (f : File) : Prop :=
  (forall k, s = Some k -> Compare C k (user_largest f) <= 0) /\ (forall k, l = Some k -> Compare C (user_smallest f) k <= 0).
Definition bound_dom (k : option (list Z)) : Prop := forall u, k = Some u -> dom u.

Lemma icmp_user a b : idom a -> idom b -> icmp a b <= 0 -> Compare C (ExtractUserKey a) (ExtractUserKey b) <= 0.
Proof. intros Ha Hb Hi. destruct (Internal_Compare_cases (C := C) a b) as [[? E]|[? E]]; lia. Qed.

Lemma user_icmp a b : Compare C (ExtractUserKey a) (ExtractUserKey b) < 0 -> icmp a b < 0.
Proof. intros Hu. destruct (Internal_Compare_cases (C := C) a b) as [[? E]|[? E]]; lia. Qed.

Lemma icmp_le_lt a b c : idom a -> idom b -> idom c -> icmp a b <= 0 -> icmp b c < 0 -> icmp a c < 0.
Proof. intros Ha Hb Hc. exact (compare_le_lt (C := InternalKeyComparator C) a b c Ha Hb Hc). Qed.

Lemma icmp_lt_le a b c : idom a -> idom b -> idom c -> icmp a b < 0 -> icmp b c <= 0 -> icmp a c < 0.
Proof. intros Ha Hb Hc. exact (compare_lt_le (C := InternalKeyComparator C) a b c Ha Hb Hc). Qed.

Lemma icmp_sym a b : idom a -> idom b -> Z.sgn (icmp b a) = - Z.sgn (icmp a b).
Proof. intros Ha Hb. exact (compare_sym (C := InternalKeyComparator C) a b Ha Hb). Qed.

Lemma ucmp_sym a b : dom a -> dom b -> Z.sgn (Compare C b a) = - Z.sgn (Compare C a b).
Proof. apply compare_sym. Qed.

Lemma file_users f : file_wf f -> dom (user_smallest f) /\ dom (user_largest f) /\ Compare C (user_smallest f) (user_largest f) <= 0.
Proof. intros ([Hs _] & [Hl _] & Hi). split; [apply Hs|]. split; [apply Hl|]. by apply icmp_user. Qed.

(** The key that [InternalKey_make] gives for a seek comes before every key of the user key. *)
Lemma seek_key u : dom u -> let k := InternalKey_make u kMaxSequenceNumber kValueTypeForSeek in idom k /\ ExtractUserKey k = u /\ tag k = kMaxSequenceNumber * 256 + kTypeValue.
Proof.
  intros Hu. cbv zeta. unfold InternalKey_make, AppendInternalKey. cbn [app user_key sequence type].
  destruct (pack_value kMaxSequenceNumber kValueTypeForSeek) as [-> Hr]; [split; discriminate|split; discriminate|]. destruct (tag_app u _ Hr) as (Et & Eu & El).
  split; [split; [rewrite El; zlen_pos; lia|by rewrite Eu]|]. split; [done|by rewrite Et].
Qed.

Lemma before_seek_key a u : key_dom a -> dom u -> icmp a (InternalKey_make u kMaxSequenceNumber kValueTypeForSeek) < 0 <-> Compare C (ExtractUserKey a) u < 0.
Proof.
  intros [Ha Ht] Hu. destruct (seek_key u Hu) as (Hi & Eu & Et). split; [|intros Hc; apply user_icmp; by rewrite Eu]. intros Hc.
  destruct (Internal_Compare_cases (C := C) a (InternalKey_make u kMaxSequenceNumber kValueTypeForSeek)) as [[? E]|[? E]]; rewrite ?Eu, ?Et in *; lia.
Qed.

Lemma sorted_largest files key : Forall file_wf files -> disjoint_sorted files -> idom key ->
  StronglySorted (fun f g => (icmp (f_largest g) key <? 0) = true -> (icmp (f_largest f) key <? 0) = true) files.
Proof.
  intros Hw Hs Hk. induction Hs as [|f files Hs IH Hf]; [constructor|]. apply Forall_cons_1 in Hw as [(Hfs & [Hfl _] & _) Hw]. constructor; [by apply IH|].
  apply Forall_forall. intros g Hg. rewrite !Z.ltb_lt. intros Hgk. pose proof (proj1 (Forall_forall _ _) Hf g Hg) as Hfg. pose proof (proj1 (Forall_forall _ _) Hw g Hg) as ([Hgs _] & [Hgl _] & Hgi). cbv beta in Hfg.
  apply (icmp_lt_le _ (f_smallest g)); try done. pose proof (icmp_le_lt _ _ _ Hgs Hgl Hk Hgi Hgk). lia.
Qed.

Lemma FindFile_first files key : Forall file_wf files -> disjoint_sorted files -> idom key -> zlen files < 2 ^ 31 ->
  exists a b, files = a ++ b /\ FindFile C files key = zlen a /\ Forall (fun f => icmp (f_largest f) key < 0) a /\ Forall (fun f => 0 <= icmp (f_largest f) key) b.
Proof.
  intros Hw Hs Hk Hl. destruct (FindFile_bisect C files key (sorted_largest _ _ Hw Hs Hk) Hl) as (Hi & Ha & Hb). exists (ztake (FindFile C files key) files), (zdrop (FindFile C files key) files).
  split; [by rewrite ztake_zdrop|]. split; [by rewrite zlen_ztake|]. split; [apply (Forall_impl _ _ _ Ha)|apply (Forall_impl _ _ _ Hb)]; intros f Hf; cbv beta in Hf; lia.
Qed.

Lemma AfterFile_spec s f : AfterFile C s f = false <-> forall k, s = Some k -> Compare C k (user_largest f) <= 0.
Proof. destruct s as [k|]; cbn [AfterFile]; [|done]. rewrite Z.gtb_ltb, Z.ltb_ge. split; [by intros ? ? [= <-]|auto]. Qed.

Lemma BeforeFile_spec l f : file_wf f -> bound_dom l -> BeforeFile C l f = false <-> forall k, l = Some k -> Compare C (user_smallest f) k <= 0.
Proof.
  intros Hf Hl. destruct l as [k|]; cbn [BeforeFile]; [|done]. rewrite Z.ltb_ge. destruct (file_users f Hf) as (Hs & _). pose proof (ucmp_sym k (user_smallest f) (Hl k eq_refl) Hs).
  split; [intros Hk ? [= <-]; lia|intros Hk; specialize (Hk k eq_refl); lia].
Qed.

Lemma meets_spec s l f : file_wf f -> bound_dom l -> (AfterFile C s f || BeforeFile C l f) = false <-> meets s l f.
Proof. intros Hf Hl. rewrite orb_false_iff, AfterFile_spec, BeforeFile_spec by done. done. Qed.

Lemma overlaps_some_spec s l files : Forall file_wf files -> bound_dom l -> overlaps_some C s l files = true <-> exists f, f ∈ files /\ meets s l f.
Proof.
  intros Hw Hl. induction Hw as [|f files Hf Hw IH]; cbn [overlaps_some]; [split; [done|intros (f & Hf & _); by apply elem_of_nil in Hf]|].
  destruct (AfterFile C s f || BeforeFile C l f) eqn:E.
  - rewrite IH. split; intros (g & Hg & Hm); exists g; [by split; [apply elem_of_cons; right|]|]. split; [|done]. apply elem_of_cons in Hg as [->|Hg]; [|done].
    apply meets_spec in Hm; [|done..]. by rewrite E in Hm.
  - split; [intros _|done]. exists f. split; [apply elem_of_cons; by left|by apply meets_spec].
Qed.

(** In a sorted level the later files begin behind the earlier ones. *)
Lemma later_smallest f g : file_wf f -> file_wf g -> icmp (f_largest f) (f_smallest g) < 0 -> Compare C (user_largest f) (user_smallest g) <= 0.
Proof. intros (_ & [Hl _] & _) ([Hs _] & _) Hi. apply icmp_user; [done..|lia]. Qed.

Lemma SomeFileOverlapsRange_spec disjoint files s l : Forall file_wf files -> bound_dom s -> bound_dom l -> zlen files < 2 ^ 31 -> (disjoint = true -> disjoint_sorted files) ->
  SomeFileOverlapsRange C disjoint files s l = true <-> exists f, f ∈ files /\ meets s l f.
Proof.
  intros Hw Hs Hl Hlen Hd. unfold SomeFileOverlapsRange. destruct disjoint; cbn [negb]; [specialize (Hd eq_refl)|by apply overlaps_some_spec].
  set (index := match s with Some k => _ | None => 0 end).
  assert (Hi : exists a b, files = a ++ b /\ index = zlen a /\ Forall (fun f => AfterFile C s f = true) a /\ Forall (fun f => AfterFile C s f = false) b).
  { destruct s as [u|]; cycle 1. { exists [], files. split; [done|]. split; [done|]. split; [constructor|]. by apply Forall_true. }
    specialize (Hs u eq_refl). destruct (seek_key u Hs) as (Hk & _). destruct (FindFile_first files _ Hw Hd Hk Hlen) as (a & b & E & Ei & Ha & Hb). exists a, b. split; [done|]. split; [done|].
    rewrite E in Hw. apply Forall_app in Hw as [Hwa Hwb]. split; apply Forall_forall; intros f Hf; cbn [AfterFile]; rewrite Z.gtb_ltb.
    - apply Z.ltb_lt. pose proof (proj1 (Forall_forall _ _) Hwa f Hf) as Hff. pose proof (proj1 (Forall_forall _ _) Ha f Hf) as Hfa. cbv beta in Hfa. destruct (file_users f Hff) as (_ & Hfl & _).
      apply (before_seek_key _ u) in Hfa; [|apply Hff|done]. pose proof (ucmp_sym _ _ Hs Hfl). unfold user_largest in *. lia.
    - apply Z.ltb_ge. pose proof (proj1 (Forall_forall _ _) Hwb f Hf) as Hff. pose proof (proj1 (Forall_forall _ _) Hb f Hf) as Hfb. cbv beta in Hfb. destruct (file_users f Hff) as (_ & Hfl & _).
      destruct (Z.lt_ge_cases 0 (Compare C u (user_largest f))) as [Hc|]; [|done]. pose proof (ucmp_sym _ _ Hs Hfl). pose proof (proj2 (before_seek_key (f_largest f) u ltac:(apply Hff) Hs)). unfold user_largest in *. lia. }
  destruct Hi as (a & b & -> & -> & Ha & Hb). apply Forall_app in Hw as [Hwa Hwb]. apply StronglySorted_app in Hd as (_ & _ & Hd). rewrite zlen_app, Z.geb_leb. zlen_pos. destruct b as [|f b].
  - change (zlen (@nil File)) with 0. destruct (Z.leb_spec (zlen a + 0) (zlen a)); [|lia]. split; [done|]. intros (f & Hf & Hm & _). rewrite app_nil_r in Hf. apply AfterFile_spec in Hm.
    rewrite Forall_forall in Ha. by rewrite Ha in Hm.
  - rewrite zlen_cons. zlen_pos. destruct (Z.leb_spec (zlen a + (1 + zlen b)) (zlen a)); [lia|]. rewrite file_at_app. apply Forall_cons_1 in Hwb as [Hf Hwb]. apply Forall_cons_1 in Hb as [Hfb Hb].
    apply StronglySorted_inv in Hd as [_ Hd]. split.
    + intros Hn%negb_true_iff. exists f. split; [apply elem_of_app; right; apply elem_of_cons; by left|]. apply meets_spec; [done..|]. by rewrite Hfb, Hn.
    + intros (g & Hg & Hm & Hm'). apply negb_true_iff, BeforeFile_spec; [done..|]. apply elem_of_app in Hg as [Hg|Hg]; [apply AfterFile_spec in Hm; rewrite Forall_forall in Ha; by rewrite Ha in Hm|].
      apply elem_of_cons in Hg as [->|Hg]; [done|]. intros k Hk. specialize (Hm' k Hk). rewrite Forall_forall in Hd, Hwb. pose proof (later_smallest f g Hf (Hwb g Hg) (Hd g Hg)) as Hfg.
      destruct (file_users f Hf) as (Hu1 & Hu2 & Hu3). destruct (file_users g (Hwb g Hg)) as (Hu4 & _). specialize (Hl k Hk). apply (compare_trans _ (user_smallest g)); [done..| |done].
      by apply (compare_trans _ (user_largest f)).
Qed.

(** ** Overlapping inputs *)

#[local] Abbreviation below := (fun (u : option (list Z)) k => match u with Some u => Compare C k u <? 0 | None => false end).
#[local] Abbreviation above := (fun (u : option (list Z)) k => match u with Some u => Compare C k u >? 0 | None => false end).
Definition keep (b e : option (list Z)) (f : File) : bool := negb (below b (user_largest f)) && negb (above e (user_smallest f)).
Definition inside (b e : option (list Z)) (f : File) : bool := negb (below b (user_smallest f)) && negb (above e (user_largest f)).

Lemma below_spec u k : bound_dom u -> dom k -> below u k = false <-> forall v, u = Some v -> Compare C v k <= 0.
Proof.
  intros Hu Hk. destruct u as [u|]; [|done]. pose proof (ucmp_sym u k (Hu u eq_refl) Hk). rewrite Z.ltb_ge. split; [intros ? ? [= <-]; lia|intros Hv; specialize (Hv u eq_refl); lia].
Qed.

Lemma above_spec u k : above u k = false <-> forall v, u = Some v -> Compare C k v <= 0.
Proof. destruct u as [u|]; [|done]. rewrite Z.gtb_ltb, Z.ltb_ge. split; [by intros ? ? [= <-]|auto]. Qed.

Lemma keep_spec b e f : file_wf f -> bound_dom b -> keep b e f = true <-> meets b e f.
Proof. intros Hf Hb. destruct (file_users f Hf) as (_ & Hl & _). unfold keep, meets. rewrite andb_true_iff, !negb_true_iff, below_spec, above_spec by done. done. Qed.

Lemma inside_spec b e f : file_wf f -> bound_dom b -> inside b e f = true <-> (forall v, b = Some v -> Compare C v (user_smallest f) <= 0) /\ (forall v, e = Some v -> Compare C (user_largest f) v <= 0).
Proof. intros Hf Hb. destruct (file_users f Hf) as (Hs & _). unfold inside. rewrite andb_true_iff, !negb_true_iff, below_spec, above_spec by done. done. Qed.

(** The files that a range reaches, directly or through files that it reaches. *)
Inductive linked (files : list File) (b e : option (list Z)) : File -> Prop :=
| linked_range f : f ∈ files -> meets b e f -> linked files b e f
| linked_file f g : linked files b e g -> f ∈ files -> meets (Some (user_smallest g)) (Some (user_largest g)) f -> linked files b e f.

(** How often the range can still be widened. *)
Definition widenings (files : list File) (b e : option (list Z)) : nat :=
  length (List.filter (fun f => below b (user_smallest f)) files) + length (List.filter (fun f => above e (user_largest f)) files).

Lemma filter_length_le (p q : File -> bool) l : (forall y, y ∈ l -> p y = true -> q y = true) -> (length (List.filter p l) <= length (List.filter q l))%nat.
Proof.
  induction l as [|y l IH]; intros Hpq; cbn [List.filter]; [done|]. pose proof (Hpq y ltac:(apply elem_of_cons; by left)) as Hy. specialize (IH ltac:(intros z Hz; apply Hpq, elem_of_cons; by right)).
  destruct (p y); [rewrite Hy by done; cbn; lia|]. destruct (q y); cbn; lia.
Qed.

Lemma filter_length_lt (p q : File -> bool) l x : (forall y, y ∈ l -> p y = true -> q y = true) -> x ∈ l -> p x = false -> q x = true -> (length (List.filter p l) < length (List.filter q l))%nat.
Proof.
  induction l as [|y l IH]; intros Hpq Hx Hp Hq; [by apply elem_of_nil in Hx|]. cbn [List.filter]. assert (Hl : forall z, z ∈ l -> p z = true -> q z = true) by (intros z Hz; apply Hpq, elem_of_cons; by right).
  apply elem_of_cons in Hx as [<-|Hx].
  - rewrite Hp, Hq. pose proof (filter_length_le p q l Hl). cbn. lia.
  - specialize (IH Hl Hx Hp Hq). pose proof (Hpq y ltac:(apply elem_of_cons; by left)) as Hy. destruct (p y); [rewrite Hy by done; cbn; lia|]. destruct (q y); cbn; lia.
Qed.

(** What a widened range keeps: it meets more files, and only files that are linked. *)
Definition widens (files : list File) (b e b' e' : option (list Z)) : Prop :=
  bound_dom b' /\ bound_dom e' /\ (forall f, f ∈ files -> meets b e f -> meets b' e' f) /\
  (forall b0 e0, (forall f, f ∈ files -> meets b e f -> linked files b0 e0 f) -> forall f, f ∈ files -> meets b' e' f -> linked files b0 e0 f).

Lemma widens_refl files b e : bound_dom b -> bound_dom e -> widens files b e b e.
Proof. by intros Hb He. Qed.

Lemma widens_trans files b e b1 e1 b2 e2 : widens files b e b1 e1 -> widens files b1 e1 b2 e2 -> widens files b e b2 e2.
Proof. intros (_ & _ & H1 & L1) (Hb & He & H2 & L2). split; [done|]. split; [done|]. split; [auto|]. intros b0 e0 Hl. apply L2, L1, Hl. Qed.

Lemma bound_some u : dom u -> bound_dom (Some u).
Proof. by intros Hu ? [= <-]. Qed.

Lemma widen_begin files u e f : Forall file_wf files -> dom u -> bound_dom e -> f ∈ files -> meets (Some u) e f -> Compare C (user_smallest f) u < 0 ->
  widens files (Some u) e (Some (user_smallest f)) e /\ (widenings files (Some (user_smallest f)) e < widenings files (Some u) e)%nat.
Proof.
  intros Hw Hu He Hf [Hm1 Hm2] Hlt. rewrite Forall_forall in Hw. pose proof (Hw f Hf) as Hff. destruct (file_users f Hff) as (Hfs & Hfl & Hfi). specialize (Hm1 u eq_refl). split.
  - split; [by apply bound_some|]. split; [done|]. split.
    + intros g Hg [Hg1 Hg2]. destruct (file_users g (Hw g Hg)) as (Hgs & Hgl & _). split; [|done]. intros ? [= <-]. apply (compare_trans _ u); [done..|lia|by apply Hg1].
    + intros b0 e0 Hl g Hg [Hg1 Hg2]. destruct (file_users g (Hw g Hg)) as (Hgs & Hgl & Hgi). specialize (Hg1 _ eq_refl). pose proof (ucmp_sym u (user_largest g) Hu Hgl) as Hsym.
      destruct (Z.le_gt_cases (Compare C u (user_largest g)) 0) as [Hle|Hgt]; [apply Hl; [done|]; split; [by intros ? [= <-]|done]|].
      apply (linked_file _ _ _ g f); [by apply Hl; [|split; [intros ? [= <-]|]]|done|]. split; intros ? [= <-]; [done|]. apply (compare_trans _ (user_largest g)); [done..|].
      apply (compare_trans _ u); [done..|lia|done].
  - unfold widenings. apply Nat.add_lt_mono_r. apply (filter_length_lt _ _ _ f); [|done|by rewrite Z.ltb_ge, (compare_same _ Hfs)|by apply Z.ltb_lt].
    intros g Hg. rewrite !Z.ltb_lt. intros Hgf. destruct (file_users g (Hw g Hg)) as (Hgs & _). apply (compare_lt_le _ (user_smallest f)); [done..|lia].
Qed.

Lemma widen_end files b u f : Forall file_wf files -> bound_dom b -> dom u -> f ∈ files -> meets b (Some u) f -> Compare C (user_largest f) u > 0 ->
  widens files b (Some u) b (Some (user_largest f)) /\ (widenings files b (Some (user_largest f)) < widenings files b (Some u))%nat.
Proof.
  intros Hw Hb Hu Hf [Hm1 Hm2] Hlt. rewrite Forall_forall in Hw. pose proof (Hw f Hf) as Hff. destruct (file_users f Hff) as (Hfs & Hfl & Hfi). specialize (Hm2 u eq_refl).
  pose proof (ucmp_sym u (user_largest f) Hu Hfl) as Huf. split.
  - split; [done|]. split; [by apply bound_some|]. split.
    + intros g Hg [Hg1 Hg2]. destruct (file_users g (Hw g Hg)) as (Hgs & Hgl & _). split; [done|]. intros ? [= <-]. apply (compare_trans _ u); [done..|by apply Hg2|lia].
    + intros b0 e0 Hl g Hg [Hg1 Hg2]. destruct (file_users g (Hw g Hg)) as (Hgs & Hgl & Hgi). specialize (Hg2 _ eq_refl). pose proof (ucmp_sym u (user_smallest g) Hu Hgs) as Hsym.
      destruct (Z.le_gt_cases (Compare C (user_smallest g) u) 0) as [Hle|Hgt]; [apply Hl; [done|]; split; [done|by intros ? [= <-]]|].
      apply (linked_file _ _ _ g f); [by apply Hl; [|split; [|intros ? [= <-]]]|done|]. split; intros ? [= <-]; [|done]. apply (compare_trans _ u); [done..|].
      apply (compare_trans _ (user_smallest g)); [done..|lia|done].
  - unfold widenings. apply Nat.add_lt_mono_l. apply (filter_length_lt _ _ _ f); [|done|by rewrite Z.gtb_ltb, Z.ltb_ge, (compare_same _ Hfl)|by rewrite Z.gtb_ltb, Z.ltb_lt; lia].
    intros g Hg. rewrite !Z.gtb_ltb, !Z.ltb_lt. intros Hgf. destruct (file_users g (Hw g Hg)) as (_ & Hgl & _). pose proof (ucmp_sym _ _ Hgl Hfl). pose proof (ucmp_sym _ _ Hgl Hu).
    assert (Compare C u (user_largest g) < 0) by (apply (compare_lt_le _ (user_largest f)); [done..|lia|lia]). lia.
Qed.

(** The first level: the range is widened until it has all of the files it meets. *)
Lemma overlapping_level0 files fuel i b e inputs : Forall file_wf files -> bound_dom b -> bound_dom e -> 0 <= i <= zlen files ->
  inputs = List.filter (keep b e) (ztake i files) -> Forall (fun f => inside b e f = true) inputs ->
  (widenings files b e * S (length files) + (length files - Z.to_nat i) < fuel)%nat ->
  exists b' e', GetOverlappingInputs_loop C fuel 0 files i b e inputs = Some (List.filter (keep b' e') files) /\
    Forall (fun f => inside b' e' f = true) (List.filter (keep b' e') files) /\ widens files b e b' e'.
Proof.
  intros Hw. revert i b e inputs. induction fuel as [|fuel IH]; intros i b e inputs Hb He Hi Hin Hins Hf; [lia|]. cbn [GetOverlappingInputs_loop]. destruct (Z.ltb_spec i (zlen files)); cycle 1.
  { exists b, e. rewrite ztake_all in Hin by lia. subst inputs. split; [done|]. split; [done|by apply widens_refl]. }
  assert (Hmem : file_at files i ∈ files). { rewrite (file_at_split files i) at 2 by lia. apply elem_of_app. right. apply elem_of_cons. by left. }
  pose proof (proj1 (Forall_forall _ _) Hw _ Hmem) as Hff. pose proof (ztake_step files i ltac:(lia)) as Hstep. set (f := file_at files i) in *.
  assert (Hfuel : (widenings files b e * S (length files) + (length files - Z.to_nat (i + 1)) < fuel)%nat) by (unfold zlen in *; lia).
  destruct (below b (user_largest f)) eqn:E1.
  { apply IH; [done..|lia| |done|done]. rewrite Hstep, List.filter_app. cbn [List.filter]. unfold keep at 2. rewrite E1. cbn [negb andb]. by rewrite app_nil_r. }
  destruct (above e (user_smallest f)) eqn:E2.
  { apply IH; [done..|lia| |done|done]. rewrite Hstep, List.filter_app. cbn [List.filter]. unfold keep at 2. rewrite E1, E2. cbn [negb andb]. by rewrite app_nil_r. }
  assert (Hk : keep b e f = true) by (unfold keep; by rewrite E1, E2). pose proof (proj1 (keep_spec b e f Hff Hb) Hk) as Hm. destruct (file_users f Hff) as (Hfs & Hfl & _).
  assert (Hall : ([] : list File) = List.filter (keep b e) (ztake 0 files)) by by rewrite ztake_0.
  rewrite Z.eqb_refl. destruct (below b (user_smallest f)) eqn:E3; [|destruct (above e (user_largest f)) eqn:E4].
  - destruct b as [u|]; [|done]. apply Z.ltb_lt in E3. destruct (widen_begin files u e f) as [Hwid Hdec]; [done|by apply Hb|done..|].
    destruct (IH 0 (Some (user_smallest f)) e []) as (b' & e' & E & Hall' & Hwid'); [by apply bound_some|done|lia|by rewrite ztake_0|by apply Forall_nil_2|nia|].
    exists b', e'. split; [done|]. split; [done|]. by apply (widens_trans _ _ _ (Some (user_smallest f)) e).
  - destruct e as [u|]; [|done]. apply Z.gtb_lt in E4. destruct (widen_end files b u f) as [Hwid Hdec]; [done|done|by apply He|done|done|lia|].
    destruct (IH 0 b (Some (user_largest f)) []) as (b' & e' & E & Hall' & Hwid'); [done|by apply bound_some|lia|by rewrite ztake_0|by apply Forall_nil_2|nia|].
    exists b', e'. split; [done|]. split; [done|]. by apply (widens_trans _ _ _ b (Some (user_largest f))).
  - apply IH; [done..|lia| | |done].
    + rewrite Hstep, List.filter_app. cbn [List.filter]. rewrite Hk. by rewrite Hin.
    + apply Forall_app. split; [done|]. constructor; [|constructor]. unfold inside. by rewrite E3, E4.
Qed.

(** The other levels: the files that meet the range. *)
Lemma overlapping_level files fuel level i b e inputs : level <> 0 -> 0 <= i <= zlen files -> (length files - Z.to_nat i < fuel)%nat ->
  GetOverlappingInputs_loop C fuel level files i b e inputs = Some (inputs ++ List.filter (keep b e) (zdrop i files)).
Proof.
  intros Hlevel. revert i inputs. induction fuel as [|fuel IH]; intros i inputs Hi Hf; [lia|]. cbn [GetOverlappingInputs_loop]. destruct (Z.ltb_spec i (zlen files)); cycle 1.
  { rewrite zdrop_all by lia. cbn [List.filter]. by rewrite app_nil_r. }
  assert (Hd : zdrop i files = file_at files i :: zdrop (i + 1) files). { rewrite (file_at_split files i) at 1 by lia. rewrite zdrop_app by (rewrite zlen_ztake; lia). done. }
  rewrite Hd. cbn [List.filter]. set (f := file_at files i). assert (Hfuel : (length files - Z.to_nat (i + 1) < fuel)%nat) by (unfold zlen in *; lia).
  unfold keep at 1. destruct (below b (user_largest f)); [apply IH; [lia|done]|]. destruct (above e (user_smallest f)); [apply IH; [lia|done]|]. cbn [negb andb].
  destruct (Z.eqb_spec level 0); [done|]. rewrite IH by first [lia|done]. by rewrite <- app_assoc.
Qed.

Lemma widenings_le files b e : (widenings files b e <= 2 * length files)%nat.
Proof. unfold widenings. etransitivity; [apply Nat.add_le_mono; apply List.filter_length_le|lia]. Qed.

Lemma key_bound k : (forall x, k = Some x -> idom x) -> bound_dom (ExtractUserKey <$> k).
Proof. intros Hk u Hu. destruct k as [x|]; [|done]. injection Hu as <-. by apply Hk. Qed.

Lemma overlapping_inputs level files begin end_ : Forall file_wf files -> (forall k, begin = Some k -> idom k) -> (forall k, end_ = Some k -> idom k) -> 0 <= level < kNumLevels ->
  exists p, GetOverlappingInputs C level files begin end_ = Some (List.filter p files) /\
    forall f, f ∈ files -> p f = true <-> (if level =? 0 then linked files else meets) (ExtractUserKey <$> begin) (ExtractUserKey <$> end_) f.
Proof.
  intros Hw Hb%key_bound He%key_bound Hl. unfold GetOverlappingInputs. destruct (Z.ltb_spec level 0); [lia|]. rewrite Z.geb_leb. destruct (Z.leb_spec kNumLevels level); [lia|]. cbn [orb].
  set (b := ExtractUserKey <$> begin) in *. set (e := ExtractUserKey <$> end_) in *. zlen_pos. pose proof (proj1 (Forall_forall _ _) Hw) as Hwf. destruct (Z.eqb_spec level 0) as [->|Hne].
  - destruct (overlapping_level0 files (overlap_fuel files) 0 b e []) as (b' & e' & E & Hins & Hb' & He' & Hmore & Hlink); [done..|split; [done|apply zlen_nonneg]|by rewrite ztake_0|by apply Forall_nil_2| |].
    { pose proof (widenings_le files b e). unfold overlap_fuel. nia. }
    exists (keep b' e'). split; [done|]. intros f Hf. rewrite keep_spec by auto. split; [by apply Hlink; [intros g Hg Hm; by apply linked_range|]|].
    induction 1 as [f Hf' Hm|f g Hg IH Hf' Hm]; [by apply Hmore|]. assert (Hg' : g ∈ files) by by inversion Hg.
    rewrite Forall_forall in Hins. specialize (Hins g). rewrite inside_spec in Hins by auto.
    destruct Hins as [Hi1 Hi2]; [apply list_elem_of_In, List.filter_In; split; [by apply list_elem_of_In|apply keep_spec; auto]|]. destruct (file_users f (Hwf f Hf')) as (Hfs & Hfl & _), (file_users g (Hwf g Hg')) as (Hgs & Hgl & _).
    destruct Hm as [Hm1 Hm2]. split; intros v Hv.
    + apply (compare_trans _ (user_smallest g)); [by apply Hb'|done..|by apply Hi1|by apply Hm1].
    + apply (compare_trans _ (user_largest g)); [done..|by apply He'|by apply Hm2|by apply Hi2].
  - rewrite overlapping_level; [|done|split; [done|apply zlen_nonneg]|unfold overlap_fuel; lia]. rewrite zdrop_0. exists (keep b e). split; [done|]. intros f Hf. by apply keep_spec; auto.
Qed.
End Order.

(** ** Properties *)

(** C27. Whether a range meets a level. In both modes, for any lawful comparator: the answer is yes exactly if some file has a user key in the range, where a bound that is not given
    is no limit; with [disjoint_sorted_files] the binary search by the earliest internal key of the bound is enough, the files being sorted by their internal keys, of which two
    adjacent files may share a user key. *)
Theorem overlap_is_decided (dom : list Z -> Prop) C disjoint files smallest_user_key largest_user_key : ComparatorLaws dom C -> Forall (file_wf (dom := dom) (C := C)) files ->
  bound_dom (dom := dom) smallest_user_key -> bound_dom (dom := dom) largest_user_key -> zlen files < 2 ^ 31 -> (disjoint = true -> disjoint_sorted (C := C) files) ->
  SomeFileOverlapsRange C disjoint files smallest_user_key largest_user_key = true <-> exists f, f ∈ files /\ meets (C := C) smallest_user_key largest_user_key f.
Proof. intros Hc. apply SomeFileOverlapsRange_spec. Qed.

Definition sample_key (c : Z) (seq : Z) : list Z := InternalKey_make [c] seq kTypeValue.
Definition sample_file (n a b : Z) : File := mkFile n n 1000 (sample_key a n) (sample_key b n).

Ltac sample_files :=
  repeat (apply Forall_cons; split); try (apply Forall_nil; exact I);
  (split; [split; [split; [discriminate|repeat constructor; discriminate]|split; discriminate]|]; split; [split; [split; [discriminate|repeat constructor; discriminate]|split; discriminate]|discriminate]).
Ltac sample_bound := intros u Hu; first [discriminate Hu|injection Hu as <-; repeat constructor; discriminate].

Lemma overlap_is_decided_witness :
  SomeFileOverlapsRange BytewiseComparator true [sample_file 9 97 99; sample_file 8 99 102; sample_file 7 104 107] (Some [103]) None = true /\
  exists f, f ∈ [sample_file 9 97 99; sample_file 8 99 102; sample_file 7 104 107] /\ meets (C := BytewiseComparator) (Some [103]) None f.
Proof.
  split; [reflexivity|]. refine (proj1 (overlap_is_decided bytes_ok BytewiseComparator true _ (Some [103]) None bytewise_comparator_laws _ _ _ _ _) _).
  - sample_files.
  - sample_bound.
  - sample_bound.
  - reflexivity.
  - intros _. repeat constructor.
  - reflexivity.
Defined.

(** C26. Collecting the files that overlap a range always ends, within the fuel of one scan of the level for each change of the range. Above the first level it gives exactly the files that
    meet the range, in their order. In the first level, where files overlap, the range is widened by each file it meets and the scan restarted; the result is exactly the files
    that the range reaches directly or through others, so no file that is left out overlaps one that is taken. *)
Theorem overlapping_inputs_exact (dom : list Z -> Prop) C level files begin end_ : ComparatorLaws dom C -> Forall (file_wf (dom := dom) (C := C)) files ->
  (forall k, begin = Some k -> internal_dom (dom := dom) k) -> (forall k, end_ = Some k -> internal_dom (dom := dom) k) -> 0 <= level < kNumLevels ->
  exists p, GetOverlappingInputs C level files begin end_ = Some (List.filter p files) /\
    forall f, f ∈ files -> p f = true <-> (if level =? 0 then linked (C := C) files else meets (C := C)) (ExtractUserKey <$> begin) (ExtractUserKey <$> end_) f.
Proof. intros Hc. apply overlapping_inputs. Qed.

Example overlapping_widened : GetOverlappingInputs BytewiseComparator 0 [sample_file 4 97 99; sample_file 3 104 107; sample_file 2 98 102; sample_file 1 106 106] (Some (sample_key 101 5)) (Some (sample_key 103 5)) =
  Some [sample_file 4 97 99; sample_file 2 98 102].
Proof. reflexivity. Qed.

Lemma overlapping_inputs_exact_witness : exists p,
  GetOverlappingInputs BytewiseComparator 0 [sample_file 4 97 99; sample_file 3 104 107; sample_file 2 98 102] (Some (sample_key 101 5)) None =
    Some (List.filter p [sample_file 4 97 99; sample_file 3 104 107; sample_file 2 98 102]) /\
  forall f, f ∈ [sample_file 4 97 99; sample_file 3 104 107; sample_file 2 98 102] ->
    p f = true <-> linked (C := BytewiseComparator) [sample_file 4 97 99; sample_file 3 104 107; sample_file 2 98 102] (ExtractUserKey <$> Some (sample_key 101 5)) (ExtractUserKey <$> None) f.
Proof.
  refine (overlapping_inputs_exact bytes_ok BytewiseComparator 0 _ (Some (sample_key 101 5)) None bytewise_comparator_laws _ _ _ _).
  - sample_files.
  - intros k Hk. injection Hk as <-. split; [discriminate|repeat constructor; discriminate].
  - discriminate.
  - split; [discriminate|reflexivity].
Defined.
