(* ===== verification/LdbVersionSet.v ===== *)
(** * The set of versions (leveldb: db/version_set.h, db/version_set.cc)

    The versions that are alive, in the order of the list behind [dummy_versions_], each
    with its address; the counters of the files they share; the builder that makes a
    version from another and edits; the manifest that is written for each new version and
    read when the database is opened. [None]: an assertion fails, or a level does not
    exist. *)

From Stdlib Require Import SpecFloat.
From stdpp Require Import strings list gmap.
From S2P Require Import Prelude Words LdbCoding LdbEnv LdbLog LdbBatch LdbRecovery LdbKeys LdbWrite LdbVersionEdit LdbFilename LdbVersion.

(** ** Data *)

(** A double. *)
Definition double (n : Z) : spec_float := binary_normalize 53 1024 n 0 false.

(** The two counters of each [FileMetaData] by its address, and the next free address. *)
Record Memory := mkMemory { counters : gmap Z (Z * Z); next_address : Z }.

Record Version := mkVersion {
  v_refs : Z; files_ : list (list File); file_to_compact_ : option File; file_to_compact_level_ : Z; compaction_score_ : spec_float; compaction_level_ : Z
}.
Definition Version_new : Version := mkVersion 0 (replicate (Z.to_nat kNumLevels) []) None (-1) (double (-1)) (-1).

Record Numbers := mkNumbers { next_file_number : Z; manifest_file_number : Z; last_sequence : Z; log_number : Z; prev_log_number : Z }.

Record VersionSet (F : Type) := mkVersionSet {
  numbers : Numbers;
  descriptor_log_ : option (Writer F);
  versions : list (Z * Version);
  current : option Z;
  compact_pointer_ : list (list Z);
  memory : Memory
}.
Arguments mkVersionSet {F}. Arguments numbers {F}. Arguments descriptor_log_ {F}. Arguments versions {F}. Arguments current {F}. Arguments compact_pointer_ {F}. Arguments memory {F}.

(** What the set is made with: [icmp_.user_comparator()] and its name, [dbname_], [options_]. *)
Record VersionOptions := mkVersionOptions { o_comparator : Comparator; o_name : list Z; o_dbname : list Z; o_max_file_size : Z; o_reuse_logs : bool }.

(** ** Files in memory *)

Definition file_new (meta : FileMetaData) (m : Memory) : File * Memory :=
  let allowed_seeks := i32 (file_size meta / 16384) in
  let allowed_seeks := if allowed_seeks <? 100 then 100 else allowed_seeks in
  (mkFile (next_address m) (number meta) (file_size meta) (smallest meta) (largest meta), mkMemory (<[next_address m := (1, allowed_seeks)]> (counters m)) (next_address m + 1)).
(** [f->refs++]. *)
Definition file_ref (f : File) (m : Memory) : option Memory :=
  '(refs, seeks) ← counters m !! f_ptr f; Some (mkMemory (<[f_ptr f := (refs + 1, seeks)]> (counters m)) (next_address m)).
(** [f->refs--; if (f->refs <= 0) delete f]. *)
Definition file_unref (f : File) (m : Memory) : option Memory :=
  '(refs, seeks) ← counters m !! f_ptr f;
  Some (mkMemory (if refs - 1 <=? 0 then delete (f_ptr f) (counters m) else <[f_ptr f := (refs - 1, seeks)]> (counters m)) (next_address m)).
Fixpoint files_unref (files : list File) (m : Memory) : option Memory :=
  match files with [] => Some m | f :: files => m ← file_unref f m; files_unref files m end.
(** [assert(f->refs > 0)] before. *)
Fixpoint files_drop (files : list File) (m : Memory) : option Memory :=
  match files with
  | [] => Some m
  | f :: files => '(refs, _) ← counters m !! f_ptr f; if refs >? 0 then m ← file_unref f m; files_drop files m else None
  end.

(** The element of a level, changed. *)
Definition at_level {A} (level : Z) (f : A -> A) (l : list A) : option (list A) :=
  if level <? 0 then None else x ← l !! Z.to_nat level; Some (<[Z.to_nat level := f x]> l).

Section Sets.
Context {F : Type} `{WritableFile F} `{!Syncable F}.
Implicit Types vs : VersionSet F.

Definition set_numbers (n : Numbers) vs : VersionSet F := mkVersionSet n (descriptor_log_ vs) (versions vs) (current vs) (compact_pointer_ vs) (memory vs).
Definition set_descriptor (w : option (Writer F)) vs : VersionSet F := mkVersionSet (numbers vs) w (versions vs) (current vs) (compact_pointer_ vs) (memory vs).
Definition set_versions (l : list (Z * Version)) vs : VersionSet F := mkVersionSet (numbers vs) (descriptor_log_ vs) l (current vs) (compact_pointer_ vs) (memory vs).
Definition set_current (a : option Z) vs : VersionSet F := mkVersionSet (numbers vs) (descriptor_log_ vs) (versions vs) a (compact_pointer_ vs) (memory vs).
Definition set_compact_pointer (p : list (list Z)) vs : VersionSet F := mkVersionSet (numbers vs) (descriptor_log_ vs) (versions vs) (current vs) p (memory vs).
Definition set_memory (m : Memory) vs : VersionSet F := mkVersionSet (numbers vs) (descriptor_log_ vs) (versions vs) (current vs) (compact_pointer_ vs) m.

(** ** Versions in memory *)

Definition find_version (a : Z) (l : list (Z * Version)) : option Version := snd <$> List.find (fun av => fst av =? a) l.
Definition update_version (a : Z) (f : Version -> Version) (l : list (Z * Version)) : list (Z * Version) := map (fun av => if fst av =? a then (a, f (snd av)) else av) l.
Definition set_refs (n : Z) (v : Version) : Version := mkVersion n (files_ v) (file_to_compact_ v) (file_to_compact_level_ v) (compaction_score_ v) (compaction_level_ v).
Definition set_files (files : list (list File)) (v : Version) : Version := mkVersion (v_refs v) files (file_to_compact_ v) (file_to_compact_level_ v) (compaction_score_ v) (compaction_level_ v).
Definition set_compaction (score : spec_float) (level : Z) (v : Version) : Version := mkVersion (v_refs v) (files_ v) (file_to_compact_ v) (file_to_compact_level_ v) score level.

(** [delete v] of a version that is not in the list: [~Version]. *)
Definition Version_delete (v : Version) (m : Memory) : option Memory := if v_refs v =? 0 then files_drop (concat (files_ v)) m else None.

Definition Version_Ref (a : Z) vs : option (VersionSet F) :=
  v ← find_version a (versions vs); Some (set_versions (update_version a (set_refs (v_refs v + 1)) (versions vs)) vs).
(** At zero the version leaves the list and its files are released. *)
Definition Version_Unref (a : Z) vs : option (VersionSet F) :=
  v ← find_version a (versions vs);
  if v_refs v <? 1 then None
  else
    let v := set_refs (v_refs v - 1) v in
    if v_refs v =? 0 then m ← Version_delete v (memory vs); Some (set_memory m (set_versions (List.filter (fun av => negb (fst av =? a)) (versions vs)) vs))
    else Some (set_versions (update_version a (set_refs (v_refs v)) (versions vs)) vs).

(** The version at address [a] becomes current, behind all others. *)
Definition AppendVersion (a : Z) (v : Version) vs : option (VersionSet F) :=
  if negb (v_refs v =? 0) then None
  else if bool_decide (current vs = Some a) then None
  else
    vs ← match current vs with Some c => Version_Unref c vs | None => Some vs end;
    Some (set_versions (versions vs ++ [(a, set_refs (v_refs v + 1) v)]) (set_current (Some a) vs)).

(** ** The builder *)

Record Builder := mkBuilder { base_ : Z; levels_ : list (gset Z * list File) }.

Section Building.
Context (ucmp : Comparator).
#[local] Abbreviation icmp := (Internal_Compare ucmp).

Definition BySmallestKey (f1 f2 : File) : bool :=
  let r := icmp (f_smallest f1) (f_smallest f2) in
  if negb (r =? 0) then r <? 0 else f_number f1 <? f_number f2.

(** [std::set<FileMetaData*, BySmallestKey>::insert]. *)
Fixpoint file_insert (f : File) (l : list File) : list File :=
  match l with
  | [] => [f]
  | g :: l' => if BySmallestKey f g then f :: l else if BySmallestKey g f then g :: file_insert f l' else l
  end.

Definition Builder_new vs : option (Builder * VersionSet F) :=
  base ← current vs; vs ← Version_Ref base vs; Some (mkBuilder base (replicate (Z.to_nat kNumLevels) (∅, [])), vs).

Fixpoint apply_pointers (l : list (Z * list Z)) (p : list (list Z)) : option (list (list Z)) :=
  match l with [] => Some p | (level, key) :: l => k ← InternalKey_Encode key; p ← at_level level (fun _ => k) p; apply_pointers l p end.
Fixpoint apply_deleted (l : list (Z * Z)) (levels : list (gset Z * list File)) : option (list (gset Z * list File)) :=
  match l with [] => Some levels | (level, number) :: l => levels ← at_level level (fun s => ({[number]} ∪ fst s, snd s)) levels; apply_deleted l levels end.
Fixpoint apply_new (l : list (Z * FileMetaData)) (levels : list (gset Z * list File)) (m : Memory) : option (list (gset Z * list File) * Memory) :=
  match l with
  | [] => Some (levels, m)
  | (level, meta) :: l =>
      let '(f, m) := file_new meta m in
      levels ← at_level level (fun s => (fst s ∖ {[f_number f]}, file_insert f (snd s))) levels;
      apply_new l levels m
  end.
Definition Builder_Apply (edit : VersionEdit) (b : Builder) vs : option (Builder * VersionSet F) :=
  p ← apply_pointers (compact_pointers_ edit) (compact_pointer_ vs);
  levels ← apply_deleted (deleted_files_ edit) (levels_ b);
  '(levels, m) ← apply_new (new_files_ edit) levels (memory vs);
  Some (mkBuilder (base_ b) levels, set_memory m (set_compact_pointer p vs)).

(** [files]: the files that the new version has at this level so far. *)
Definition MaybeAddFile (level : Z) (deleted : gset Z) (f : File) (files : list File) (m : Memory) : option (list File * Memory) :=
  if bool_decide (f_number f ∈ deleted) then Some (files, m)
  else if (level >? 0) && match last files with Some g => icmp (f_largest g) (f_smallest f) >=? 0 | None => false end then None
  else m ← file_ref f m; Some (files ++ [f], m).
Fixpoint MaybeAddFiles (level : Z) (deleted : gset Z) (l : list File) (files : list File) (m : Memory) : option (list File * Memory) :=
  match l with [] => Some (files, m) | f :: l => '(files, m) ← MaybeAddFile level deleted f files m; MaybeAddFiles level deleted l files m end.

(** [std::upper_bound]: the files that are not behind [f], and the others. *)
Fixpoint upper_bound (f : File) (l : list File) : list File * list File :=
  match l with
  | [] => ([], [])
  | g :: l' => if BySmallestKey f g then ([], l) else let '(a, b) := upper_bound f l' in (g :: a, b)
  end.

Fixpoint SaveTo_level (level : Z) (deleted : gset Z) (base added files : list File) (m : Memory) : option (list File * Memory) :=
  match added with
  | [] => MaybeAddFiles level deleted base files m
  | f :: added =>
      let '(before, base) := upper_bound f base in
      '(files, m) ← MaybeAddFiles level deleted before files m;
      '(files, m) ← MaybeAddFile level deleted f files m;
      SaveTo_level level deleted base added files m
  end.
(** From level [level] on: the files of the base, and the changes. *)
Fixpoint SaveTo_levels (level : Z) (base : list (list File)) (levels : list (gset Z * list File)) (m : Memory) : option (list (list File) * Memory) :=
  match base, levels with
  | files :: base, (deleted, added) :: levels =>
      '(new, m) ← SaveTo_level level deleted files added [] m;
      '(rest, m) ← SaveTo_levels (level + 1) base levels m;
      Some (new :: rest, m)
  | _, _ => Some ([], m)
  end.
Definition Builder_SaveTo (b : Builder) (v : Version) vs : option (Version * VersionSet F) :=
  base ← find_version (base_ b) (versions vs);
  '(files, m) ← SaveTo_levels 0 (files_ base) (levels_ b) (memory vs);
  Some (set_files files v, set_memory m vs).
Definition Builder_delete (b : Builder) vs : option (VersionSet F) :=
  m ← files_unref (concat (map snd (levels_ b))) (memory vs); Version_Unref (base_ b) (set_memory m vs).
End Building.

(** ** Numbers *)

Definition NewFileNumber vs : Z * VersionSet F :=
  let n := numbers vs in
  (next_file_number n, set_numbers (mkNumbers (u64 (next_file_number n + 1)) (manifest_file_number n) (last_sequence n) (log_number n) (prev_log_number n)) vs).
Definition set_next_file_number (next : Z) vs : VersionSet F :=
  let n := numbers vs in set_numbers (mkNumbers next (manifest_file_number n) (last_sequence n) (log_number n) (prev_log_number n)) vs.
Definition ReuseFileNumber (file_number : Z) vs : VersionSet F :=
  if next_file_number (numbers vs) =? u64 (file_number + 1) then set_next_file_number file_number vs else vs.
Definition MarkFileNumberUsed (number : Z) vs : VersionSet F :=
  if next_file_number (numbers vs) <=? number then set_next_file_number (u64 (number + 1)) vs else vs.
Definition Versions_SetLastSequence (s : Z) vs : option (VersionSet F) :=
  let n := numbers vs in
  if s >=? last_sequence n then Some (set_numbers (mkNumbers (next_file_number n) (manifest_file_number n) s (log_number n) (prev_log_number n)) vs) else None.

(** ** What to compact next *)

Definition kL0_CompactionTrigger : Z := 4.
Fixpoint MaxBytesForLevel_loop (rounds : nat) (result : spec_float) : spec_float :=
  match rounds with O => result | S rounds => MaxBytesForLevel_loop rounds (SFmul 53 1024 result (double 10)) end.
Definition MaxBytesForLevel (level : Z) : spec_float := MaxBytesForLevel_loop (Z.to_nat (level - 1)) (SFmul 53 1024 (double 10) (double 1048576)).

Definition level_score (level : Z) (files : list File) : spec_float :=
  if level =? 0 then SFdiv 53 1024 (double (zlen files)) (double kL0_CompactionTrigger)
  else SFdiv 53 1024 (double (u64 (TotalFileSize files))) (MaxBytesForLevel level).
(** From [level] on; the last level is not scored. *)
Fixpoint Finalize_loop (level : Z) (files : list (list File)) (best_level : Z) (best_score : spec_float) : Z * spec_float :=
  match files with
  | fs :: files =>
      if level <? kNumLevels - 1 then
        let score := level_score level fs in
        if SFltb best_score score then Finalize_loop (level + 1) files level score else Finalize_loop (level + 1) files best_level best_score
      else (best_level, best_score)
  | [] => (best_level, best_score)
  end.
Definition Finalize (v : Version) : Version :=
  let '(best_level, best_score) := Finalize_loop 0 (files_ v) (-1) (double (-1)) in set_compaction best_score best_level v.

Definition NeedsCompaction vs : option bool :=
  v ← current vs ≫= fun a => find_version a (versions vs);
  Some (SFleb (double 1) (compaction_score_ v) || bool_decide (is_Some (file_to_compact_ v))).

Definition current_version vs : option Version := current vs ≫= fun a => find_version a (versions vs).
Definition NumLevelFiles (level : Z) vs : option Z := v ← current_version vs; if level <? 0 then None else zlen <$> files_ v !! Z.to_nat level.
Definition NumLevelBytes (level : Z) vs : option Z := v ← current_version vs; if level <? 0 then None else TotalFileSize <$> files_ v !! Z.to_nat level.
Definition AddLiveFiles (live : gset Z) vs : gset Z :=
  fold_left (fun live av => fold_left (fun live f => {[f_number f]} ∪ live) (concat (files_ (snd av))) live) (versions vs) live.

(** ** The manifest *)

(** The files of the environment besides those of [Env]. *)
Class ManifestFiles (E Q : Type) := {
  NewWritableFile : list Z -> E -> Status * F * E;
  NewAppendableFile : list Z -> E -> Status * F * E;
  NewSequentialFile : list Z -> E -> Status * Q;
  GetFileSize : list Z -> E -> Status * Z
}.

Context {E Q : Type} `{!Env E} `{!ManifestFiles E Q} `{!SequentialFile Q}.
Context (o : VersionOptions).

Fixpoint snapshot_pointers (level : Z) (p : list (list Z)) (edit : VersionEdit) : VersionEdit :=
  match p with
  | [] => edit
  | key :: p => snapshot_pointers (level + 1) p (match key with [] => edit | _ => SetCompactPointer level key edit end)
  end.
Fixpoint snapshot_files (level : Z) (files : list (list File)) (edit : VersionEdit) : VersionEdit :=
  match files with
  | [] => edit
  | fs :: files => snapshot_files (level + 1) files (fold_left (fun edit f => AddFile level (f_number f) (f_size f) (f_smallest f) (f_largest f) edit) fs edit)
  end.
Definition snapshot_edit (p : list (list Z)) (files : list (list File)) : VersionEdit :=
  snapshot_files 0 files (snapshot_pointers 0 p (SetComparatorName (o_name o) VersionEdit_new)).
Definition WriteSnapshot (log : Writer F) vs : option (Status * Writer F) :=
  v ← current_version vs;
  record ← EncodeTo (snapshot_edit (compact_pointer_ vs) (files_ v));
  match AddRecord record log with (Some s, log) => Some (s, log) | (None, _) => None end.

(** The numbers that every edit gets. *)
Definition LogAndApply_numbers (edit : VersionEdit) (n : Numbers) : option VersionEdit :=
  edit ← (if has_log_number_ edit then if (log_number_ edit >=? log_number n) && (log_number_ edit <? next_file_number n) then Some edit else None
          else Some (SetLogNumber (log_number n) edit));
  let edit := if negb (has_prev_log_number_ edit) then SetPrevLogNumber (prev_log_number n) edit else edit in
  Some (Edit_SetLastSequence (last_sequence n) (SetNextFile (next_file_number n) edit)).

(** [LogAndApply] between its two sections with the mutex. *)
Record Applying := mkApplying { a_edit : VersionEdit; a_address : Z; a_version : Version; a_status : Status; a_new_manifest : option (list Z) }.

(** With the mutex: the new version, and a new manifest if there is none. *)
Definition LogAndApply_begin (edit : VersionEdit) (env : E) vs : option (Applying * E * VersionSet F) :=
  edit ← LogAndApply_numbers edit (numbers vs);
  let a := next_address (memory vs) in
  let vs := set_memory (mkMemory (counters (memory vs)) (a + 1)) vs in
  '(builder, vs) ← Builder_new vs;
  '(builder, vs) ← Builder_Apply (o_comparator o) edit builder vs;
  '(v, vs) ← Builder_SaveTo (o_comparator o) builder Version_new vs;
  vs ← Builder_delete builder vs;
  let v := Finalize v in
  match descriptor_log_ vs with
  | Some _ => Some (mkApplying edit a v OK None, env, vs)
  | None =>
      name ← DescriptorFileName (o_dbname o) (manifest_file_number (numbers vs));
      let edit := SetNextFile (next_file_number (numbers vs)) edit in
      let '(s, f, env) := NewWritableFile name env in
      if ok s then '(s, log) ← WriteSnapshot (Writer_new f) vs; Some (mkApplying edit a v s (Some name), env, set_descriptor (Some log) vs)
      else Some (mkApplying edit a v s (Some name), env, vs)
  end.

(** Without the mutex: the record, and the file that names the manifest. *)
Definition LogAndApply_write (p : Applying) (manifest_number : Z) (log : option (Writer F)) (env : E) : option (Status * option (Writer F) * E) :=
  '(s, log) ← (if ok (a_status p) then
      log ← log;
      record ← EncodeTo (a_edit p);
      match AddRecord record log with
      | (None, _) => None
      | (Some s, log) => if ok s then let '(s, f) := Sync (dest log) in Some (s, Some (set_dest f log)) else Some (s, Some log)
      end
    else Some (a_status p, log));
  match a_new_manifest p with
  | Some _ => if ok s then '(s, env) ← SetCurrentFile env (o_dbname o) manifest_number; Some (s, log, env) else Some (s, log, env)
  | None => Some (s, log, env)
  end.

(** With the mutex again. *)
Definition LogAndApply_end (p : Applying) (s : Status) (env : E) vs : option (E * VersionSet F) :=
  if ok s then
    vs ← AppendVersion (a_address p) (a_version p) vs;
    let n := numbers vs in
    Some (env, set_numbers (mkNumbers (next_file_number n) (manifest_file_number n) (last_sequence n) (log_number_ (a_edit p)) (prev_log_number_ (a_edit p))) vs)
  else
    m ← Version_delete (a_version p) (memory vs);
    let vs := set_memory m vs in
    match a_new_manifest p with Some name => Some (RemoveFile_named name env, set_descriptor None vs) | None => Some (env, vs) end.

(** The whole call when nothing happens while the mutex is released. *)
Definition LogAndApply (edit : VersionEdit) (env : E) vs : option (Status * E * VersionSet F) :=
  '(p, env, vs) ← LogAndApply_begin edit env vs;
  '(s, log, env) ← LogAndApply_write p (manifest_file_number (numbers vs)) (descriptor_log_ vs) env;
  '(env, vs) ← LogAndApply_end p s env (set_descriptor log vs);
  Some (s, env, vs).

(** ** Recovery *)

Definition to_string (l : list Z) : string := String.string_of_list_ascii (map (fun b => Ascii.ascii_of_N (Z.to_N b)) l).

(** [Status::ToString]. *)
Definition Status_ToString (s : Status) : string :=
  match s with
  | OK => "OK"
  | NotFound msg => "NotFound: " ++ msg
  | Corruption msg => "Corruption: " ++ msg
  | NotSupported msg => "Not implemented: " ++ msg
  | InvalidArgument msg => "Invalid argument: " ++ msg
  | IOError msg => "IO error: " ++ msg
  end.
(** The message of a status made from two. *)
Definition two_messages (msg msg2 : string) : string := match msg2 with EmptyString => msg | _ => msg ++ ": " ++ msg2 end.

(** The variables of the loop; a number that has not been seen is not there. *)
Record Recovering := mkRecovering {
  r_builder : Builder; r_log_number : option Z; r_prev_log_number : option Z; r_next_file : option Z; r_last_sequence : option Z
}.

(** [LogReporter::Corruption], for the reports that a call has added. *)
Definition absorb_reports (before after : option (list (Z * Status))) (s : Status) : Status :=
  match before, after with
  | Some before, Some after => fold_left (fun s report => if ok s then snd report else s) (drop (length before) after) s
  | _, _ => s
  end.

(** One record. *)
Definition Recover_record (record : list Z) (r : Recovering) vs : option (Status * Recovering * VersionSet F) :=
  let '(s, edit) := DecodeFrom record VersionEdit_new in
  let s := if ok s then
      if has_comparator_ edit && negb (bool_decide (comparator_ edit = o_name o))
      then InvalidArgument (two_messages (to_string (comparator_ edit) ++ " does not match existing comparator ") (to_string (o_name o))) else s
    else s in
  '(builder, vs) ← (if ok s then Builder_Apply (o_comparator o) edit (r_builder r) vs else Some (r_builder r, vs));
  let seen (has : bool) (n : Z) (before : option Z) := if has then Some n else before in
  Some (s, mkRecovering builder (seen (has_log_number_ edit) (log_number_ edit) (r_log_number r)) (seen (has_prev_log_number_ edit) (prev_log_number_ edit) (r_prev_log_number r))
    (seen (has_next_file_number_ edit) (next_file_number_ edit) (r_next_file r)) (seen (has_last_sequence_ edit) (last_sequence_ edit) (r_last_sequence r)), vs).

Fixpoint Recover_loop (fuel inner : nat) (record scratch : list Z) (rdr : Reader Q) (s : Status) (r : Recovering) vs : option (Status * Recovering * VersionSet F) :=
  match fuel with
  | O => None
  | S fuel =>
      match ReadRecord inner record scratch rdr with
      | (None, _) => None
      | (Some (found, record, scratch), rdr') =>
          let s := absorb_reports (reporter rdr) (reporter rdr') s in
          if (found && ok s)%bool then '(s, r, vs) ← Recover_record record r vs; Recover_loop fuel inner record scratch rdr' s r vs
          else Some (s, r, vs)
      end
  end.

Definition ReuseManifest (dscname dscbase : list Z) (env : E) vs : option (bool * E * VersionSet F) :=
  if negb (o_reuse_logs o) then Some (false, env, vs)
  else
    match ParseFileName dscbase with
    | Some (manifest_number, kDescriptorFile) =>
        let '(s, manifest_size) := GetFileSize dscname env in
        if negb (ok s) || (manifest_size >=? o_max_file_size o) then Some (false, env, vs)
        else
          match descriptor_log_ vs with
          | Some _ => None
          | None =>
              let '(r, f, env) := NewAppendableFile dscname env in
              if negb (ok r) then Some (false, env, vs)
              else
                let n := numbers vs in
                Some (true, env, set_numbers (mkNumbers (next_file_number n) manifest_number (last_sequence n) (log_number n) (prev_log_number n)) (set_descriptor (Some (Writer_at f manifest_size)) vs))
          end
    | _ => Some (false, env, vs)
    end.

(** The recovered version becomes current; whether [*save_manifest] is set. *)
Definition Recover_install (dscname dscbase : list Z) (builder : Builder) (next_file last_seq log prev : Z) (env : E) vs : option (bool * E * VersionSet F) :=
  let a := next_address (memory vs) in
  let vs := set_memory (mkMemory (counters (memory vs)) (a + 1)) vs in
  '(v, vs) ← Builder_SaveTo (o_comparator o) builder Version_new vs;
  vs ← AppendVersion a (Finalize v) vs;
  let vs := set_numbers (mkNumbers (u64 (next_file + 1)) next_file last_seq log prev) vs in
  '(reused, env, vs) ← ReuseManifest dscname dscbase env vs;
  Some (negb reused, env, vs).

(** What has been read is checked and installed; the builder is deleted in any case. *)
Definition Recover_finish (dscname dscbase : list Z) (s : Status) (r : Recovering) (env : E) vs : option (Status * bool * E * VersionSet F) :=
  let next_file := default 0 (r_next_file r) in
  let last_seq := default 0 (r_last_sequence r) in
  let log := default 0 (r_log_number r) in
  let prev := default 0 (r_prev_log_number r) in
  let '(s, vs) :=
    if ok s then
      (match r_next_file r, r_log_number r, r_last_sequence r with
       | None, _, _ => Corruption "no meta-nextfile entry in descriptor"
       | _, None, _ => Corruption "no meta-lognumber entry in descriptor"
       | _, _, None => Corruption "no last-sequence-number entry in descriptor"
       | _, _, _ => s
       end, MarkFileNumberUsed log (MarkFileNumberUsed prev vs))
    else (s, vs) in
  '(save, env, vs) ← (if ok s then Recover_install dscname dscbase (r_builder r) next_file last_seq log prev env vs else Some (false, env, vs));
  vs ← Builder_delete (r_builder r) vs;
  Some (s, save, env, vs).

Definition Recover (fuel : nat) (env : E) vs : option (Status * bool * E * VersionSet F) :=
  let '(s, name) := ReadFileToString (CurrentFileName (o_dbname o)) env in
  if negb (ok s) then Some (s, false, env, vs)
  else if match last name with Some c => negb (c =? 10) | None => true end then Some (Corruption "CURRENT file does not end with newline", false, env, vs)
  else
    let dscbase := ztake (zlen name - 1) name in
    let dscname := o_dbname o ++ text "/" ++ dscbase in
    let '(s, file) := NewSequentialFile dscname env in
    if negb (ok s) then
      Some (match s with NotFound _ => Corruption (two_messages "CURRENT points to a non-existent file" (Status_ToString s)) | _ => s end, false, env, vs)
    else
      '(builder, vs) ← Builder_new vs;
      '(s, r, vs) ← Recover_loop fuel fuel [] [] (Reader_new file (Some []) true 0) OK (mkRecovering builder None None None None) vs;
      Recover_finish dscname dscbase s r env vs.

(** The constructor: an empty version. *)
Definition VersionSet_new : option (VersionSet F) :=
  AppendVersion 0 Version_new (mkVersionSet (mkNumbers 2 0 0 0 0) None [] None (replicate (Z.to_nat kNumLevels) []) (mkMemory ∅ 1)).
End Sets.
