(* ===== verification/LdbVersionBuild.v ===== *)
(** * Building versions (theorems about LdbVersionSet.v)

    The counters of the files are the numbers of their references. A level is a set of
    files in the order of their smallest keys, an edit takes files out of it and puts new
    ones in, and a builder that applies many edits at once does what applying them one
    after another does. *)

From Stdlib Require Import Sorted SpecFloat.
From stdpp Require Import strings list gmap gmultiset sorting.
From S2P Require Import Prelude Words LdbCoding LdbEnv LdbLog LdbBatch LdbRecovery LdbKeys LdbWrite LdbVersionEdit LdbFilename LdbVersion LdbVersionSet.

(** ** Counters *)

(** Each file in memory has as many references as [X] has of it, and there is no other. *)
Definition counted (m : Memory) (X : gmultiset Z) : Prop :=
  (forall p, fst <$> counters m !! p = if decide (p ∈ X) then Some (Z.of_nat (multiplicity p X)) else None) /\ forall p, p ∈ X -> p < next_address m.

Definition ptrs (files : list File) : gmultiset Z := list_to_set_disj (map f_ptr files).

Lemma mult_same (p : Z) (X : gmultiset Z) : multiplicity p ({[+ p +]} ⊎ X) = S (multiplicity p X).
Proof. by rewrite multiplicity_disj_union, multiplicity_singleton_eq. Qed.

Lemma mult_other (p q : Z) (X : gmultiset Z) : p <> q -> multiplicity p ({[+ q +]} ⊎ X) = multiplicity p X.
Proof. intros Hne. by rewrite multiplicity_disj_union, multiplicity_singleton_ne. Qed.

Lemma mem_same (p : Z) (X : gmultiset Z) : p ∈ {[+ p +]} ⊎ X.
Proof. multiset_solver. Qed.

Lemma counted_lookup m X p : counted m X -> p ∈ X -> exists seeks, counters m !! p = Some (Z.of_nat (multiplicity p X), seeks).
Proof. intros [Hc _] Hp. specialize (Hc p). rewrite decide_True in Hc by done. destruct (counters m !! p) as [[r s]|]; [|done]. injection Hc as ->. by exists s. Qed.

Lemma counted_new meta m X : counted m X -> exists f m', file_new meta m = (f, m') /\ counted m' ({[+ f_ptr f +]} ⊎ X) /\ f_ptr f = next_address m /\ f_number f = number meta /\ f_size f = file_size meta /\
  f_smallest f = smallest meta /\ f_largest f = largest meta /\ next_address m' = next_address m + 1.
Proof.
  intros [Hc Hn]. unfold file_new. set (s := if i32 _ <? _ then _ else _). eexists _, _. split; [reflexivity|]. split; [|done]. cbn [f_ptr]. split; cbn [counters next_address].
  - intros p. destruct (decide (p = next_address m)) as [->|Hne].
    + rewrite lookup_insert_eq, decide_True by multiset_solver. cbn [fst fmap option_fmap option_map]. f_equal. assert (next_address m ∉ X) by (intros Hx; specialize (Hn _ Hx); lia).
      rewrite mult_same. assert (multiplicity (next_address m) X = 0%nat) as ->; [|done]. by apply not_elem_of_multiplicity.
    + rewrite lookup_insert_ne by done. rewrite Hc, mult_other by done. by repeat case_decide; multiset_solver.
  - intros p Hp. assert (p = next_address m \/ p ∈ X) as [->|Hx] by multiset_solver; [lia|]. specialize (Hn p Hx). lia.
Qed.

Lemma counted_ref f m X : counted m X -> f_ptr f ∈ X -> exists m', file_ref f m = Some m' /\ counted m' ({[+ f_ptr f +]} ⊎ X) /\ next_address m' = next_address m.
Proof.
  intros Hm Hf. destruct (counted_lookup _ _ _ Hm Hf) as [s E]. destruct Hm as [Hc Hn]. unfold file_ref. rewrite E. cbn [mbind option_bind]. eexists. split; [reflexivity|]. split; [|done]. split; cbn [counters next_address].
  - intros p. destruct (decide (p = f_ptr f)) as [->|Hne].
    + rewrite lookup_insert_eq, decide_True by multiset_solver. cbn [fst fmap option_fmap option_map]. f_equal. rewrite mult_same. lia.
    + rewrite lookup_insert_ne by done. rewrite Hc, mult_other by done. by repeat case_decide; multiset_solver.
  - intros p Hp. apply Hn. multiset_solver.
Qed.

Lemma counted_unref f m X : counted m ({[+ f_ptr f +]} ⊎ X) -> exists m', file_unref f m = Some m' /\ counted m' X /\ next_address m' = next_address m.
Proof.
  intros Hm. destruct (counted_lookup m _ (f_ptr f) Hm (mem_same _ _)) as [s E]. destruct Hm as [Hc Hn]. unfold file_unref. rewrite E. cbn [mbind option_bind]. eexists. split; [reflexivity|]. split; [|done].
  rewrite mult_same. split; cbn [counters next_address]; [|intros p Hp; apply Hn; multiset_solver]. intros p. specialize (Hc p).
  destruct (decide (p = f_ptr f)) as [->|Hne].
  - destruct (Z.leb_spec (Z.of_nat (S (multiplicity (f_ptr f) X)) - 1) 0).
    + rewrite lookup_delete_eq. assert (f_ptr f ∉ X) by (apply not_elem_of_multiplicity; lia). by rewrite decide_False.
    + rewrite lookup_insert_eq. assert (f_ptr f ∈ X) by (apply elem_of_multiplicity; lia). rewrite decide_True by done. cbn [fst fmap option_fmap option_map]. f_equal. lia.
  - assert (Hl : (if Z.of_nat (S (multiplicity (f_ptr f) X)) - 1 <=? 0 then delete (f_ptr f) (counters m) else <[f_ptr f:=(Z.of_nat (S (multiplicity (f_ptr f) X)) - 1, s)]> (counters m)) !! p = counters m !! p)
      by (destruct (_ <=? _); [by rewrite lookup_delete_ne|by rewrite lookup_insert_ne]).
    rewrite Hl, Hc, mult_other by done. by repeat case_decide; multiset_solver.
Qed.

Lemma ptrs_nil X : ptrs [] ⊎ X = X.
Proof. apply (left_id_L ∅ (⊎)). Qed.

Lemma ptrs_cons f files : ptrs (f :: files) = {[+ f_ptr f +]} ⊎ ptrs files.
Proof. done. Qed.

Lemma ptrs_app l k : ptrs (l ++ k) = ptrs l ⊎ ptrs k.
Proof. unfold ptrs. by rewrite map_app, list_to_set_disj_app. Qed.

Lemma counted_unrefs files m X : counted m (ptrs files ⊎ X) -> exists m', files_unref files m = Some m' /\ counted m' X /\ next_address m' = next_address m.
Proof.
  revert m. induction files as [|f files IH]; intros m Hm; cbn [files_unref].
  - exists m. rewrite ptrs_nil in Hm. done.
  - rewrite ptrs_cons, <- (assoc_L (⊎)) in Hm. destruct (counted_unref f m _ Hm) as (m1 & -> & H1 & E1). cbn [mbind option_bind]. destruct (IH m1 H1) as (m2 & -> & H2 & E2). exists m2. split; [done|]. split; [done|lia].
Qed.

Lemma counted_drop files m X : counted m (ptrs files ⊎ X) -> exists m', files_drop files m = Some m' /\ counted m' X /\ next_address m' = next_address m.
Proof.
  revert m. induction files as [|f files IH]; intros m Hm; cbn [files_drop].
  - exists m. rewrite ptrs_nil in Hm. done.
  - rewrite ptrs_cons, <- (assoc_L (⊎)) in Hm. destruct (counted_lookup m _ (f_ptr f) Hm (mem_same _ _)) as [s E]. rewrite E. cbn [mbind option_bind].
    rewrite mult_same, Z.gtb_ltb. destruct (Z.ltb_spec 0 (Z.of_nat (S (multiplicity (f_ptr f) (ptrs files ⊎ X))))); [|lia].
    destruct (counted_unref f m _ Hm) as (m1 & -> & H1 & E1). cbn [mbind option_bind]. destruct (IH m1 H1) as (m2 & -> & H2 & E2). exists m2. split; [done|]. split; [done|lia].
Qed.

(** ** The order of a level *)

Section Build.
Context {dom : list Z -> Prop} {C : Comparator} `{ComparatorLaws dom C}.
#[local] Abbreviation icmp := (Internal_Compare C).
#[local] Abbreviation idom := (internal_dom (dom := dom)).
#[local] Abbreviation wf := (file_wf (dom := dom) (C := C)).
#[local] Abbreviation lt := (fun f g => BySmallestKey C f g = true).

Lemma BySmallestKey_cases f g : (icmp (f_smallest f) (f_smallest g) < 0 /\ BySmallestKey C f g = true) \/ (icmp (f_smallest f) (f_smallest g) > 0 /\ BySmallestKey C f g = false) \/
  (icmp (f_smallest f) (f_smallest g) = 0 /\ BySmallestKey C f g = (f_number f <? f_number g)).
Proof.
  unfold BySmallestKey. destruct (Z.eqb_spec (icmp (f_smallest f) (f_smallest g)) 0) as [->|Hne]; cbn [negb]; [by right; right|]. destruct (Z.ltb_spec (icmp (f_smallest f) (f_smallest g)) 0); [by left|].
  right. left. split; [lia|done].
Qed.

Lemma lt_irrefl f : idom (f_smallest f) -> BySmallestKey C f f = false.
Proof.
  intros Hf. pose proof (compare_same (C := InternalKeyComparator C) _ Hf) as E. change (icmp (f_smallest f) (f_smallest f) = 0) in E. destruct (BySmallestKey_cases f f) as [[? ?]|[[? ?]|[_ ->]]]; [lia|lia|]. apply Z.ltb_irrefl.
Qed.

Lemma lt_trans f g h : idom (f_smallest f) -> idom (f_smallest g) -> idom (f_smallest h) -> lt f g -> lt g h -> lt f h.
Proof.
  intros Hf Hg Hh. pose proof (icmp_le_lt _ _ _ Hf Hg Hh) as H1. pose proof (icmp_lt_le _ _ _ Hf Hg Hh) as H2. pose proof (compare_trans (C := InternalKeyComparator C) _ _ _ Hf Hg Hh) as H3. cbn in H3.
  pose proof (compare_trans (C := InternalKeyComparator C) _ _ _ Hh Hg Hf) as H4. cbn in H4. pose proof (icmp_sym _ _ Hf Hg). pose proof (icmp_sym _ _ Hg Hh). pose proof (icmp_sym _ _ Hf Hh).
  destruct (BySmallestKey_cases f g) as [[? E1]|[[? E1]|[? E1]]], (BySmallestKey_cases g h) as [[? E2]|[[? E2]|[? E2]]], (BySmallestKey_cases f h) as [[? E3]|[[? E3]|[? E3]]];
    cbv beta; rewrite E1, E2, E3; try done; try lia; rewrite ?Z.ltb_lt; lia.
Qed.

Lemma lt_total f g : idom (f_smallest f) -> idom (f_smallest g) -> f_number f <> f_number g -> BySmallestKey C f g = false -> lt g f.
Proof.
  intros Hf Hg Hn. pose proof (icmp_sym _ _ Hf Hg). destruct (BySmallestKey_cases f g) as [[? E1]|[[? E1]|[? E1]]], (BySmallestKey_cases g f) as [[? E2]|[[? E2]|[? E2]]]; rewrite E1, E2; try done; lia.
Qed.

Lemma lt_asym f g : idom (f_smallest f) -> idom (f_smallest g) -> lt f g -> BySmallestKey C g f = false.
Proof. intros Hf Hg Hl. apply not_true_iff_false. intros Hr. pose proof (lt_trans f g f Hf Hg Hf Hl Hr) as E. cbv beta in E. by rewrite lt_irrefl in E. Qed.

(** A level: its files have keys in range, and are in order. *)
Definition keys_ok (l : list File) : Prop := Forall (fun f => idom (f_smallest f)) l.
Definition in_order (l : list File) : Prop := StronglySorted lt l.

Lemma upper_bound_spec f l a b : upper_bound C f l = (a, b) -> keys_ok (f :: l) -> in_order l -> l = a ++ b /\ Forall (fun g => BySmallestKey C f g = false) a /\ Forall (fun g => lt f g) b.
Proof.
  intros E Hk Hs. apply Forall_cons_1 in Hk as [Hf Hk]. revert a b E. induction Hs as [|g l Hs IH Hg]; intros a b E; cbn [upper_bound] in E; [injection E as <- <-; split; [done|split; constructor]|].
  apply Forall_cons_1 in Hk as [Hgk Hk]. destruct (BySmallestKey C f g) eqn:Efg.
  - injection E as <- <-. split; [done|]. split; [constructor|]. constructor; [done|]. unfold keys_ok in Hk. rewrite Forall_forall in Hg, Hk |- *. intros h Hh. by apply (lt_trans f g h); auto.
  - destruct (upper_bound C f l) as [a' b'] eqn:E'. injection E as <- <-. destruct (IH Hk _ _ eq_refl) as (-> & Ha & Hb). split; [done|]. split; [by constructor|done].
Qed.

Lemma upper_bound_app f l a b : upper_bound C f l = (a, b) -> l = a ++ b.
Proof.
  revert a b. induction l as [|g l IH]; intros a b E; cbn [upper_bound] in E; [by injection E as <- <-|]. destruct (BySmallestKey C f g); [by injection E as <- <-|].
  destruct (upper_bound C f l). injection E as <- <-. by rewrite (IH _ _ eq_refl).
Qed.

Fixpoint interleave (base added : list File) : list File :=
  match added with
  | [] => base
  | f :: added => let '(a, b) := upper_bound C f base in a ++ f :: interleave b added
  end.

Lemma interleave_perm base added : interleave base added ≡ₚ base ++ added.
Proof.
  revert base. induction added as [|f added IH]; intros base; cbn [interleave]; [by rewrite app_nil_r|]. destruct (upper_bound C f base) as [a b] eqn:E.
  apply upper_bound_app in E as ->.
  rewrite IH. rewrite <- (app_assoc a b), <- Permutation_middle. by rewrite !(app_assoc a b), <- !Permutation_middle, <- app_assoc.
Qed.

Lemma interleave_elem f base added : f ∈ interleave base added <-> f ∈ base \/ f ∈ added.
Proof. rewrite interleave_perm. apply elem_of_app. Qed.

Definition apart (l k : list File) : Prop := forall f g, f ∈ l -> g ∈ k -> f_number f <> f_number g.

Lemma interleave_sorted base added : keys_ok (base ++ added) -> in_order base -> in_order added -> apart base added -> in_order (interleave base added).
Proof.
  intros Hk Hb Ha. revert base Hk Hb. induction Ha as [|f added Ha IH Hf]; intros base Hk Hb Hap; cbn [interleave]; [done|]. apply Forall_app in Hk as [Hkb [Hkf Hka]%Forall_cons_1].
  destruct (upper_bound C f base) as [a b] eqn:E. destruct (upper_bound_spec f base a b E) as (-> & Hla & Hlb); [by constructor|done|]. apply Forall_app in Hkb as [Hkb1 Hkb2].
  apply StronglySorted_app in Hb as (Hab & Hsa & Hsb). unfold keys_ok in *. rewrite Forall_forall in Hla, Hlb, Hf, Hkb1, Hkb2, Hka.
  assert (Haf : forall g, g ∈ a -> lt g f). { intros g Hg. apply lt_total; [done|by apply Hkb1| |by apply Hla]. intros En. apply (Hap g f); [apply elem_of_app; by left|apply elem_of_cons; by left|done]. }
  apply StronglySorted_app. split; [|split; [done|]].
  - intros g h Hg [->|Hh]%elem_of_cons; [by apply Haf|]. apply interleave_elem in Hh as [Hh|Hh]; [by apply Hab|]. apply (lt_trans g f h); auto.
  - constructor; [apply IH; [apply Forall_app; split; by apply Forall_forall|done|intros x y Hx Hy; apply Hap; [apply elem_of_app; by right|apply elem_of_cons; by right]]|].
    apply Forall_forall. intros h [Hh|Hh]%interleave_elem; auto.
Qed.

Lemma file_insert_spec f l : keys_ok (f :: l) -> in_order l -> apart [f] l -> file_insert C f l ≡ₚ f :: l /\ in_order (file_insert C f l).
Proof.
  intros Hk Hs. apply Forall_cons_1 in Hk as [Hf Hk]. induction Hs as [|g l Hs IH Hg]; intros Hap; cbn [file_insert]; [split; [done|repeat constructor]|]. apply Forall_cons_1 in Hk as [Hgk Hk].
  unfold keys_ok in Hk. destruct (BySmallestKey C f g) eqn:Efg.
  - split; [done|]. constructor; [by constructor|]. constructor; [done|]. rewrite Forall_forall in Hg, Hk |- *. intros h Hh. by apply (lt_trans f g h); auto.
  - assert (Hgf : lt g f). { apply lt_total; [done|done| |done]. apply Hap; apply elem_of_cons; by left. } cbv beta in Hgf. rewrite Hgf.
    destruct (IH Hk) as [Hp Hi]; [intros x y Hx Hy; apply Hap; [done|apply elem_of_cons; by right]|]. split; [rewrite Hp; apply Permutation_swap|]. constructor; [done|]. rewrite Hp. constructor; done.
Qed.

(** ** Saving a level *)

Definition kept (deleted : gset Z) (l : list File) : list File := List.filter (fun f => negb (bool_decide (f_number f ∈ deleted))) l.

(** Each file ends before the next one begins. *)
Fixpoint chained (l : list File) : Prop :=
  match l with
  | f :: l' => match l' with g :: _ => icmp (f_largest f) (f_smallest g) < 0 | [] => True end /\ chained l'
  | [] => True
  end.

Lemma chained_snoc l f : chained (l ++ [f]) <-> chained l /\ match last l with Some g => icmp (f_largest g) (f_smallest f) < 0 | None => True end.
Proof.
  induction l as [|g l IH]; [cbn; tauto|]. destruct l as [|h l]; [cbn; tauto|]. change ((g :: h :: l) ++ [f]) with (g :: ((h :: l) ++ [f])). cbn [chained]. cbn [app]. change (h :: l ++ [f]) with ((h :: l) ++ [f]).
  rewrite IH. change (last (g :: h :: l)) with (last (h :: l)). cbn [chained]. tauto.
Qed.

Lemma chained_sorted l : Forall wf l -> chained l <-> disjoint_sorted (C := C) l.
Proof.
  intros Hw. split; [|intros Hd; induction Hd as [|f l Hd IH Hf]; [done|]; apply Forall_cons_1 in Hw as [Hfw Hw]; split; [destruct Hf; done|by apply IH]].
  induction Hw as [|f l Hf Hw IH]; [constructor|]. intros [Hfg Hc]. specialize (IH Hc). constructor; [done|]. destruct l as [|g l]; [constructor|]. constructor; [done|].
  apply StronglySorted_inv in IH as [_ Hg]. apply Forall_cons_1 in Hw as [Hgw Hw]. rewrite Forall_forall in Hg, Hw |- *. intros h Hh. specialize (Hg h Hh). specialize (Hw h Hh).
  destruct Hf as (_ & [Hfl _] & _), Hgw as ([Hgs _] & [Hgl _] & Hgi), Hw as ([Hhs _] & _). apply (icmp_lt_le _ (f_smallest g)); [done..|]. pose proof (icmp_le_lt _ _ _ Hgs Hgl Hhs Hgi Hg). lia.
Qed.

Definition level_chained (level : Z) (l : list File) : Prop := level > 0 -> chained l.

Lemma MaybeAddFile_inv level deleted f files m files' m' : MaybeAddFile C level deleted f files m = Some (files', m') -> level_chained level files ->
  files' = files ++ kept deleted [f] /\ level_chained level files'.
Proof.
  unfold MaybeAddFile, kept. cbn [List.filter]. case_bool_decide; cbn [negb]; [intros [= <- <-] Hc; by rewrite app_nil_r|]. destruct (_ && _) eqn:E; [done|]. destruct (file_ref f m) as [m1|]; [|done].
  intros [= <- <-] Hc. split; [done|]. intros Hl. apply chained_snoc. split; [by apply Hc|]. apply andb_false_iff in E as [E|E]; [rewrite Z.gtb_ltb in E; apply Z.ltb_ge in E; lia|].
  destruct (last files); [|done]. rewrite Z.geb_leb in E. apply Z.leb_gt in E. lia.
Qed.

Lemma kept_app deleted l k : kept deleted (l ++ k) = kept deleted l ++ kept deleted k.
Proof. apply List.filter_app. Qed.

Lemma kept_elem deleted f l : f ∈ kept deleted l <-> f ∈ l /\ f_number f ∉ deleted.
Proof. unfold kept. rewrite list_elem_of_In, List.filter_In, <- list_elem_of_In, negb_true_iff, bool_decide_eq_false. done. Qed.

Lemma MaybeAddFiles_inv level deleted l files m files' m' : MaybeAddFiles C level deleted l files m = Some (files', m') -> level_chained level files ->
  files' = files ++ kept deleted l /\ level_chained level files'.
Proof.
  revert files m. induction l as [|f l IH]; intros files m; cbn [MaybeAddFiles]; [intros [= <- <-] Hc; by rewrite app_nil_r|].
  destruct (MaybeAddFile C level deleted f files m) as [[files1 m1]|] eqn:E; cbn [mbind option_bind]; [|done]. intros E' Hc. destruct (MaybeAddFile_inv _ _ _ _ _ _ _ E Hc) as [-> Hc1].
  destruct (IH _ _ E' Hc1) as [-> Hc2]. split; [|done]. change (f :: l) with ([f] ++ l). by rewrite kept_app, <- app_assoc.
Qed.

Lemma SaveTo_level_inv level deleted base added files m files' m' : SaveTo_level C level deleted base added files m = Some (files', m') -> level_chained level files ->
  files' = files ++ kept deleted (interleave base added) /\ level_chained level files'.
Proof.
  revert base files m. induction added as [|f added IH]; intros base files m; cbn [SaveTo_level interleave]; [apply MaybeAddFiles_inv|]. destruct (upper_bound C f base) as [a b].
  destruct (MaybeAddFiles C level deleted a files m) as [[files1 m1]|] eqn:E1; cbn [mbind option_bind]; [|done].
  destruct (MaybeAddFile C level deleted f files1 m1) as [[files2 m2]|] eqn:E2; cbn [mbind option_bind]; [|done]. intros E3 Hc.
  destruct (MaybeAddFiles_inv _ _ _ _ _ _ _ E1 Hc) as [-> Hc1]. destruct (MaybeAddFile_inv _ _ _ _ _ _ _ E2 Hc1) as [-> Hc2]. destruct (IH _ _ _ E3 Hc2) as [-> Hc3].
  split; [|done]. change (a ++ f :: interleave b added) with (a ++ [f] ++ interleave b added). by rewrite !kept_app, <- !app_assoc.
Qed.

(** It succeeds when the files are in memory and the result is chained. *)
Lemma chained_prefix l k : chained (l ++ k) -> chained l.
Proof. induction k as [|f k IH] using rev_ind; [by rewrite app_nil_r|]. rewrite app_assoc. intros [Hc _]%chained_snoc. by apply IH. Qed.

Lemma MaybeAddFile_some level deleted f files m X : counted m X -> f_ptr f ∈ X -> level_chained level (files ++ kept deleted [f]) ->
  exists m', MaybeAddFile C level deleted f files m = Some (files ++ kept deleted [f], m') /\ counted m' (ptrs (kept deleted [f]) ⊎ X) /\ next_address m' = next_address m.
Proof.
  intros Hm Hf. unfold MaybeAddFile, kept. cbn [List.filter]. case_bool_decide; cbn [negb]; intros Hc; [exists m; by rewrite app_nil_r, ptrs_nil|].
  assert (E : (level >? 0) && match last files with Some g => icmp (f_largest g) (f_smallest f) >=? 0 | None => false end = false).
  { apply andb_false_iff. rewrite Z.gtb_ltb. destruct (Z.ltb_spec 0 level); [right|by left]. specialize (Hc ltac:(lia)). apply chained_snoc in Hc as [_ Hl]. destruct (last files); [|done]. rewrite Z.geb_leb. by apply Z.leb_gt. }
  rewrite E. destruct (counted_ref f m X Hm Hf) as (m' & -> & Hm' & En). cbn [mbind option_bind]. exists m'. split; [done|]. split; [|done].
  by rewrite ptrs_cons, <- (assoc_L (⊎)), ptrs_nil.
Qed.

Lemma MaybeAddFiles_some level deleted l files m X : counted m X -> (forall f, f ∈ l -> f_ptr f ∈ X) -> level_chained level (files ++ kept deleted l) ->
  exists m', MaybeAddFiles C level deleted l files m = Some (files ++ kept deleted l, m') /\ counted m' (ptrs (kept deleted l) ⊎ X) /\ next_address m' = next_address m.
Proof.
  revert files m X. induction l as [|f l IH]; intros files m X Hm Hl Hc; cbn [MaybeAddFiles]; [exists m; by rewrite app_nil_r, ptrs_nil|].
  change (f :: l) with ([f] ++ l) in Hc |- *. rewrite kept_app, app_assoc in Hc. destruct (MaybeAddFile_some level deleted f files m X) as (m1 & -> & Hm1 & E1); [done|apply Hl, elem_of_cons; by left| |].
  { intros Hlev. by apply (chained_prefix _ (kept deleted l)), Hc. }
  cbn [mbind option_bind]. destruct (IH (files ++ kept deleted [f]) m1 _ Hm1) as (m2 & -> & Hm2 & E2); [intros g Hg; apply gmultiset_elem_of_disj_union; right; apply Hl, elem_of_cons; by right|done|].
  exists m2. rewrite kept_app, ptrs_app, app_assoc. split; [done|]. split; [|lia]. replace (ptrs (kept deleted [f]) ⊎ ptrs (kept deleted l) ⊎ X) with (ptrs (kept deleted l) ⊎ (ptrs (kept deleted [f]) ⊎ X)); [done|].
  by rewrite (assoc_L (⊎)), (comm_L (⊎) (ptrs (kept deleted l))).
Qed.

Lemma SaveTo_level_some level deleted base added files m X : counted m X -> (forall f, f ∈ base ++ added -> f_ptr f ∈ X) -> level_chained level (files ++ kept deleted (interleave base added)) ->
  exists m', SaveTo_level C level deleted base added files m = Some (files ++ kept deleted (interleave base added), m') /\
    counted m' (ptrs (kept deleted (interleave base added)) ⊎ X) /\ next_address m' = next_address m.
Proof.
  revert base files m X. induction added as [|f added IH]; intros base files m X Hm Hl Hc; cbn [SaveTo_level interleave] in *; [apply MaybeAddFiles_some; [done| |done]; intros f Hf; apply Hl; by rewrite app_nil_r|].
  destruct (upper_bound C f base) as [a b] eqn:E. apply upper_bound_app in E as ->.
  change (a ++ f :: interleave b added) with (a ++ [f] ++ interleave b added) in *. rewrite !kept_app in *. rewrite !app_assoc in Hc.
  destruct (MaybeAddFiles_some level deleted a files m X) as (m1 & -> & Hm1 & E1); [done|intros g Hg; apply Hl; rewrite !elem_of_app; tauto|intros Hlev; by eapply chained_prefix, chained_prefix, Hc|]. cbn [mbind option_bind].
  destruct (MaybeAddFile_some level deleted f (files ++ kept deleted a) m1 _ Hm1) as (m2 & -> & Hm2 & E2);
    [apply gmultiset_elem_of_disj_union; right; apply Hl; rewrite elem_of_app, elem_of_cons; tauto|intros Hlev; by eapply chained_prefix, Hc|]. cbn [mbind option_bind].
  destruct (IH b ((files ++ kept deleted a) ++ kept deleted [f]) m2 _ Hm2) as (m3 & -> & Hm3 & E3); [intros g Hg; rewrite !gmultiset_elem_of_disj_union; right; right; apply Hl; rewrite elem_of_app in Hg; rewrite !elem_of_app, elem_of_cons; tauto|done|].
  exists m3. rewrite !ptrs_app, !app_assoc. split; [done|]. split; [|lia]. eapply eq_ind; [exact Hm3|]. apply gmultiset_eq. intros p. rewrite !multiplicity_disj_union. lia.
Qed.

(** ** Levels as sets *)

Definition fview : Type := Z * Z * list Z * list Z.
Definition view (f : File) : fview := (f_number f, f_size f, f_smallest f, f_largest f).
Definition meta_view (meta : FileMetaData) : fview := (number meta, file_size meta, smallest meta, largest meta).
Definition view_number (v : fview) : Z := fst (fst (fst v)).
Definition views (l : list File) : gset fview := list_to_set (map view l).
Definition file_numbers (l : list File) : list Z := map f_number l.

(** What an edit takes out of level [i] and puts into it. *)
Definition dels_at (i : nat) (l : list (Z * Z)) : gset Z := list_to_set (map snd (List.filter (fun p => fst p =? Z.of_nat i) l)).
Definition news_at (i : nat) (l : list (Z * FileMetaData)) : list FileMetaData := map snd (List.filter (fun p => fst p =? Z.of_nat i) l).
Definition edit_level (i : nat) (e : VersionEdit) (s : gset fview) : gset fview :=
  filter (fun v => view_number v ∉ dels_at i (deleted_files_ e)) s ∪ list_to_set (map meta_view (news_at i (new_files_ e))).

(** A level of a version: in order, with the files of a set, no two of the same number. *)
Record level_is (l : list File) (s : gset fview) : Prop := mkLevelIs {
  li_order : in_order l; li_wf : Forall wf l; li_numbers : NoDup (file_numbers l); li_views : views l = s
}.

(** Two versions of the same set have the same files in the same places. *)
Lemma views_elem v l : v ∈ views l <-> exists f, f ∈ l /\ view f = v.
Proof. unfold views. rewrite elem_of_list_to_set, list_elem_of_fmap. naive_solver. Qed.

Lemma view_lt f g f' g' : view f = view f' -> view g = view g' -> BySmallestKey C f g = BySmallestKey C f' g'.
Proof. unfold view, BySmallestKey. by intros [= -> _ -> _] [= -> _ -> _]. Qed.

Lemma level_is_canonical l k s : level_is l s -> level_is k s -> map view l = map view k.
Proof.
  intros [Ol Wl _ <-] [Ok Wk _ E]. revert k Ok Wk E. induction Ol as [|f l Ol IH Hf]; intros k Ok Wk E.
  - destruct k as [|g k]; [done|]. exfalso. assert (Hg : view g ∈ views []) by (rewrite <- E; apply views_elem; exists g; split; [apply elem_of_cons; by left|done]). by apply views_elem in Hg as (? & ?%elem_of_nil & _).
  - destruct Ok as [|g k Ok Hg]; [exfalso; assert (Hg : view f ∈ views []) by (rewrite E; apply views_elem; exists f; split; [apply elem_of_cons; by left|done]); by apply views_elem in Hg as (? & ?%elem_of_nil & _)|].
    apply Forall_cons_1 in Wl as [Wf Wl], Wk as [Wg Wk]. assert (Wi : forall h, wf h -> idom (f_smallest h)) by (intros h ([Hh _] & _); done).
    rewrite Forall_forall in Hf, Hg. pose proof (proj1 (Forall_forall _ _) Wl) as Wl'. pose proof (proj1 (Forall_forall _ _) Wk) as Wk'.
    assert (Hfk : exists h, h ∈ g :: k /\ view h = view f) by (apply views_elem; rewrite E; apply views_elem; exists f; split; [apply elem_of_cons; by left|done]).
    assert (Hgl : exists h, h ∈ f :: l /\ view h = view g) by (apply views_elem; rewrite <- E; apply views_elem; exists g; split; [apply elem_of_cons; by left|done]).
    assert (Efg : view f = view g).
    { destruct Hfk as (h & [->|Hh]%elem_of_cons & Eh); [done|]. destruct Hgl as (h' & [->|Hh']%elem_of_cons & Eh'); [done|]. exfalso.
      pose proof (Hg h Hh) as L1. pose proof (Hf h' Hh') as L2. cbv beta in L1, L2. rewrite (view_lt g h g f) in L1 by done. rewrite (view_lt f h' f g) in L2 by done.
      by rewrite (lt_asym f g (Wi _ Wf) (Wi _ Wg) L2) in L1. }
    cbn [map]. rewrite Efg. f_equal. apply IH; [done|done|done|]. apply set_eq. intros v. rewrite !views_elem.
    assert (Hnl : forall h, h ∈ l -> view h <> view f). { intros h Hh Eh. pose proof (Hf h Hh) as L. cbv beta in L. rewrite (view_lt f h f f) in L by done. by rewrite lt_irrefl in L by auto. }
    assert (Hnk : forall h, h ∈ k -> view h <> view g). { intros h Hh Eh. pose proof (Hg h Hh) as L. cbv beta in L. rewrite (view_lt g h g g) in L by done. by rewrite lt_irrefl in L by auto. }
    assert (Ev : v ∈ views (g :: k) <-> v ∈ views (f :: l)) by by rewrite E. rewrite !views_elem in Ev. split; intros (h & Hh & <-).
    + destruct (proj1 Ev) as (h' & [->|Hh']%elem_of_cons & Eh'); [exists h; split; [apply elem_of_cons; by right|done]| |by exists h']. exfalso. apply (Hnk h Hh). congruence.
    + destruct (proj2 Ev) as (h' & [->|Hh']%elem_of_cons & Eh'); [exists h; split; [apply elem_of_cons; by right|done]| |by exists h']. exfalso. apply (Hnl h Hh). congruence.
Qed.

(** ** The builder *)

(** What a builder has of a level, over the files of the base: the set that saving gives. *)
Record built (base : list File) (st : gset Z * list File) (s : gset fview) : Prop := mkBuilt {
  bu_base : in_order base; bu_added : in_order (snd st); bu_wf : Forall wf (base ++ snd st); bu_numbers : NoDup (file_numbers (base ++ snd st));
  bu_views : views (kept (fst st) (base ++ snd st)) = s
}.

Lemma wf_keys l : Forall wf l -> keys_ok l.
Proof. intros Hw. apply (Forall_impl _ _ _ Hw). intros f ([Hf _] & _). done. Qed.

Lemma numbers_apart l k : NoDup (file_numbers (l ++ k)) -> apart l k.
Proof.
  unfold file_numbers. rewrite map_app, NoDup_app. intros (_ & Hd & _) f g Hf Hg E. apply (Hd (f_number f)); [apply list_elem_of_fmap; by exists f|]. rewrite E. apply list_elem_of_fmap. by exists g.
Qed.

Lemma views_perm l k : l ≡ₚ k -> views l = views k.
Proof. intros Hp. apply set_eq. intros v. rewrite !views_elem. by setoid_rewrite Hp. Qed.

Lemma views_app l k : views (l ++ k) = views l ∪ views k.
Proof. unfold views. by rewrite map_app, list_to_set_app_L. Qed.

Lemma kept_perm deleted l k : l ≡ₚ k -> kept deleted l ≡ₚ kept deleted k.
Proof.
  unfold kept. induction 1 as [|x l k _ IH|x y l|l k j _ IH1 _ IH2]; cbn [List.filter]; [done| | |by rewrite IH1].
  - destruct (negb _); [by rewrite IH|done].
  - destruct (negb _), (negb _); try done. apply Permutation_swap.
Qed.

Lemma sorted_filter p l : in_order l -> in_order (List.filter p l).
Proof.
  induction 1 as [|f l Hl IH Hf]; cbn [List.filter]; [constructor|]. destruct (p f); [|done]. constructor; [done|]. apply Forall_forall. intros g Hg%list_elem_of_In%List.filter_In.
  destruct Hg as [Hg _]. rewrite Forall_forall in Hf. by apply Hf, list_elem_of_In.
Qed.

Lemma kept_subset deleted l (P : File -> Prop) : Forall P l -> Forall P (kept deleted l).
Proof. rewrite !Forall_forall. intros Hl f [Hf _]%kept_elem. auto. Qed.

Lemma kept_numbers deleted l : NoDup (file_numbers l) -> NoDup (file_numbers (kept deleted l)).
Proof.
  unfold file_numbers, kept. induction l as [|f l IH]; [done|]. cbn [map List.filter]. rewrite NoDup_cons. intros [Hf Hl]. destruct (negb _); [|by apply IH]. cbn [map]. constructor; [|by apply IH].
  intros (g & E & Hg)%list_elem_of_fmap. apply Hf. apply list_elem_of_fmap. exists g. split; [done|]. apply list_elem_of_In in Hg. apply List.filter_In in Hg as [Hg _]. by apply list_elem_of_In.
Qed.

(** Saving gives the set. *)
Lemma built_saved base st s : built base st s -> level_is (kept (fst st) (interleave base (snd st))) s.
Proof.
  intros [Hb Ha Hw Hn <-]. pose proof (interleave_perm base (snd st)) as Hp. constructor.
  - apply sorted_filter, interleave_sorted; [by apply wf_keys|done..|by apply numbers_apart].
  - apply kept_subset. by rewrite Hp.
  - apply kept_numbers. unfold file_numbers. by rewrite Hp.
  - by apply views_perm, kept_perm.
Qed.

Lemma built_new l s : level_is l s -> built l (∅, []) s.
Proof.
  intros [Ho Hw Hn <-]. constructor; cbn [fst snd]; rewrite ?app_nil_r; [done|constructor|done..|]. f_equal. unfold kept. induction l as [|f l IH]; [done|]. cbn [List.filter].
  rewrite bool_decide_false by set_solver. cbn [negb]. f_equal. apply IH; [by inversion Ho|by inversion Hw|by inversion Hn].
Qed.

Lemma built_delete base st s D : built base st s -> built base (D ∪ fst st, snd st) (filter (fun v => view_number v ∉ D) s).
Proof.
  intros [Hb Ha Hw Hn <-]. constructor; cbn [fst snd]; [done..|]. apply set_eq. intros v. rewrite elem_of_filter, !views_elem. setoid_rewrite kept_elem. split.
  - intros (f & (Hf & Hd) & <-). apply not_elem_of_union in Hd as [Hd1 Hd2]. split; [done|]. by exists f.
  - intros [Hv [f [[Hf Hd] <-]]]. exists f. split; [|done]. split; [done|]. apply not_elem_of_union. done.
Qed.

Lemma built_insert base st s f : built base st s -> wf f -> f_number f ∉ file_numbers (base ++ snd st) ->
  file_insert C f (snd st) ≡ₚ f :: snd st /\ built base (fst st ∖ {[f_number f]}, file_insert C f (snd st)) (s ∪ {[view f]}).
Proof.
  intros [Hb Ha Hw Hn <-] Hf Hfr. assert (Hap : apart [f] (snd st)).
  { intros x g ->%list_elem_of_singleton Hg E. apply Hfr. rewrite E. apply list_elem_of_fmap. exists g. split; [done|]. apply elem_of_app. by right. }
  destruct (file_insert_spec f (snd st)) as [Hp Ho]; [apply wf_keys; constructor; [done|by apply Forall_app in Hw as [_ ?]]|done|done|]. split; [done|].
  assert (Hp' : base ++ file_insert C f (snd st) ≡ₚ f :: base ++ snd st) by by rewrite Hp, Permutation_middle. constructor; cbn [fst snd]; [done|done| | |].
  - rewrite Hp'. by constructor.
  - unfold file_numbers. rewrite Hp'. cbn [map]. by constructor.
  - rewrite (views_perm _ _ (kept_perm _ _ _ Hp')). apply set_eq. intros v. rewrite elem_of_union, elem_of_singleton, !views_elem. setoid_rewrite kept_elem. setoid_rewrite elem_of_cons. split.
    + intros (g & ([->|Hg] & Hd) & <-); [by right|]. left. exists g. split; [|done]. split; [done|]. intros Hdel. apply Hd, elem_of_difference. split; [done|]. intros En%elem_of_singleton.
      apply Hfr. rewrite <- En. apply list_elem_of_fmap. by exists g.
    + intros [(g & (Hg & Hd) & <-)| -> ]; [exists g; split; [|done]; split; [by right|]; set_solver|]. exists f. split; [|done]. split; [by left|]. set_solver.
Qed.

Record all_built (base : list (list File)) (levels : list (gset Z * list File)) (s : nat -> gset fview) : Prop := mkAllBuilt {
  ab_length : length base = length levels;
  ab_built i b st : base !! i = Some b -> levels !! i = Some st -> built b st (s i)
}.

Lemma all_built_ext base levels s s' : (forall i, s i = s' i) -> all_built base levels s -> all_built base levels s'.
Proof. intros E [Hl Hb]. constructor; [done|]. intros i b st. rewrite <- E. apply Hb. Qed.

Lemma at_level_some {A} level (f : A -> A) l : 0 <= level < zlen l -> exists x, l !! Z.to_nat level = Some x /\ at_level level f l = Some (<[Z.to_nat level := f x]> l).
Proof.
  intros Hl. unfold at_level. destruct (Z.ltb_spec level 0); [lia|]. destruct (lookup_lt_is_Some_2 l (Z.to_nat level)) as [x E]; [unfold zlen in Hl; lia|]. rewrite E. by exists x.
Qed.

Lemma lookup_changed {A} (l : list A) i x j y : <[i := x]> l !! j = Some y -> i <> j -> l !! j = Some y.
Proof. intros E Hne. by rewrite list_lookup_insert_ne in E. Qed.

Lemma lookup_level {A} (l : list A) i x y : <[i := x]> l !! i = Some y -> y = x.
Proof. intros E. pose proof (lookup_lt_Some _ _ _ E) as Hi. rewrite length_insert in Hi. rewrite list_lookup_insert_eq in E by done. congruence. Qed.

Lemma dels_cons i level n l : dels_at i ((level, n) :: l) = (if level =? Z.of_nat i then {[n]} else ∅) ∪ dels_at i l.
Proof. unfold dels_at. cbn [List.filter fst]. destruct (level =? Z.of_nat i); cbn [map snd list_to_set]; [done|]. by rewrite (left_id_L ∅ (∪)). Qed.

Lemma news_cons i level meta l : news_at i ((level, meta) :: l) = (if level =? Z.of_nat i then [meta] else []) ++ news_at i l.
Proof. unfold news_at. cbn [List.filter fst]. by destruct (level =? Z.of_nat i). Qed.

Lemma apply_deleted_built l base levels s : Forall (fun p => is_level (fst p)) l -> zlen levels = kNumLevels -> all_built base levels s ->
  exists levels', apply_deleted l levels = Some levels' /\ all_built base levels' (fun i => filter (fun v => view_number v ∉ dels_at i l) (s i)) /\ map snd levels' = map snd levels.
Proof.
  intros Hl. revert levels s. induction Hl as [|[level n] l Hlev Hl IH]; intros levels s Hz Hb; cbn [apply_deleted].
  - exists levels. split; [done|]. split; [|done]. apply (all_built_ext _ _ s); [|done]. intros i. symmetry. apply set_eq. intros v. rewrite elem_of_filter. unfold dels_at. cbn. set_solver.
  - cbn [fst] in Hlev. unfold is_level in Hlev. destruct (at_level_some level (fun st : gset Z * list File => ({[n]} ∪ fst st, snd st)) levels) as (st & E & ->); [lia|]. cbn [mbind option_bind].
    destruct (IH (<[Z.to_nat level := ({[n]} ∪ fst st, snd st)]> levels) (fun i => if decide (i = Z.to_nat level) then filter (fun v => view_number v ∉ ({[n]} : gset Z)) (s i) else s i)) as (levels' & -> & Hb' & Em).
    + unfold zlen in *. by rewrite length_insert.
    + destruct Hb as [Hlen Hb]. constructor; [by rewrite length_insert|]. intros i b st' Eb Es. destruct (decide (i = Z.to_nat level)) as [->|Hne].
      * apply lookup_level in Es as ->. apply (built_delete b st). by apply Hb.
      * apply Hb; [done|]. by apply (lookup_changed _ _ _ _ _ Es).
    + exists levels'. split; [done|]. split.
      * apply (all_built_ext _ _ (fun i => filter (fun v => view_number v ∉ dels_at i l) (if decide (i = Z.to_nat level) then filter (fun v => view_number v ∉ ({[n]} : gset Z)) (s i) else s i))); [|done].
        intros i. apply set_eq. intros v. rewrite dels_cons. destruct (Z.eqb_spec level (Z.of_nat i)) as [->|Hne].
        -- rewrite decide_True by lia. rewrite !elem_of_filter. set_solver.
        -- rewrite decide_False by lia. rewrite !elem_of_filter. set_solver.
      * rewrite Em. apply list_eq. intros i. rewrite !list_lookup_fmap. destruct (decide (Z.to_nat level = i)) as [<-|Hne]; [|by rewrite list_lookup_insert_ne].
        rewrite list_lookup_insert_eq by (by apply lookup_lt_Some in E). by rewrite E.
Qed.

Definition meta_wf (meta : FileMetaData) : Prop := key_dom (dom := dom) (smallest meta) /\ key_dom (dom := dom) (largest meta) /\ icmp (smallest meta) (largest meta) <= 0.
Definition added_all (levels : list (gset Z * list File)) : list File := concat (map snd levels).

(** The numbers of the files in [l] are new to their levels. *)
Definition fresh_new (base : list (list File)) (levels : list (gset Z * list File)) (l : list (Z * FileMetaData)) : Prop :=
  forall i b st, base !! i = Some b -> levels !! i = Some st -> NoDup (file_numbers (b ++ snd st) ++ map number (news_at i l)).

Lemma added_all_insert levels i st f d : levels !! i = Some st -> file_insert C f (snd st) ≡ₚ f :: snd st -> added_all (<[i := (d, file_insert C f (snd st))]> levels) ≡ₚ f :: added_all levels.
Proof.
  intros E Hp. unfold added_all. revert i E. induction levels as [|x levels IH]; intros i E; [done|]. destruct i as [|i]; cbn in E.
  - injection E as ->. cbn. by rewrite Hp.
  - cbn. rewrite IH by done. by rewrite <- Permutation_middle.
Qed.

Lemma ptrs_perm l k : l ≡ₚ k -> ptrs l = ptrs k.
Proof. intros Hp. unfold ptrs. by rewrite Hp. Qed.

Lemma apply_new_built l base levels s m X : Forall (fun p => is_level (fst p) /\ meta_wf (snd p)) l -> zlen levels = kNumLevels -> all_built base levels s -> fresh_new base levels l ->
  counted m (ptrs (added_all levels) ⊎ X) ->
  exists levels' m', apply_new C l levels m = Some (levels', m') /\ all_built base levels' (fun i => s i ∪ list_to_set (map meta_view (news_at i l))) /\
    counted m' (ptrs (added_all levels') ⊎ X) /\ next_address m <= next_address m' /\
    forall i st st', levels !! i = Some st -> levels' !! i = Some st' -> file_numbers (snd st') ≡ₚ file_numbers (snd st) ++ map number (news_at i l).
Proof.
  intros Hl. revert levels s m. induction Hl as [|[level meta] l [Hlev Hmeta] Hl IH]; intros levels s m Hz Hb Hfr Hm; cbn [apply_new].
  - exists levels, m. split; [done|]. split; [|split; [done|split; [lia|]]].
    + apply (all_built_ext _ _ s); [|done]. intros i. unfold news_at. cbn. by rewrite (right_id_L ∅ (∪)).
    + intros i st st' -> [= ->]. cbn. by rewrite app_nil_r.
  - cbn [fst snd] in Hlev, Hmeta. unfold is_level in Hlev. destruct (counted_new meta m _ Hm) as (f & m1 & E1 & Hm1 & _ & En & Ez & Es & El & Ea). rewrite E1. cbv beta iota.
    destruct (at_level_some level (fun st => (fst st ∖ {[f_number f]}, file_insert C f (snd st))) levels) as (st & E & Eat); [lia|]. rewrite Eat. cbn [mbind option_bind].
    destruct (lookup_lt_is_Some_2 base (Z.to_nat level)) as [b Eb]; [rewrite (ab_length _ _ _ Hb); by apply lookup_lt_Some in E|].
    pose proof (Hfr _ _ _ Eb E) as Hfr0. rewrite news_cons, Z2Nat.id, Z.eqb_refl in Hfr0 by lia. cbn [app map] in Hfr0.
    assert (Hwf : wf f) by (unfold file_wf; rewrite Es, El; exact Hmeta).
    destruct (built_insert b st (s (Z.to_nat level)) f) as [Hp Hbf]; [by apply (ab_built _ _ _ Hb)|done| |].
    { rewrite En. apply NoDup_app in Hfr0 as (_ & Hd & _). intros Hin. apply (Hd _ Hin), elem_of_cons. by left. }
    set (levels1 := <[Z.to_nat level := (fst st ∖ {[f_number f]}, file_insert C f (snd st))]> levels) in *.
    destruct (IH levels1 (fun i => if decide (i = Z.to_nat level) then s i ∪ {[view f]} else s i) m1) as (levels' & m' & -> & Hb' & Hm' & Hn' & Hs').
    + unfold levels1, zlen in *. by rewrite length_insert.
    + destruct Hb as [Hlen Hb]. constructor; [unfold levels1; by rewrite length_insert|]. intros i b' st' Eb' Es'. destruct (decide (i = Z.to_nat level)) as [->|Hne].
      * apply lookup_level in Es' as ->. assert (b' = b) as -> by congruence. done.
      * apply Hb; [done|]. by apply (lookup_changed _ _ _ _ _ Es').
    + intros i b' st' Eb' Es'. destruct (decide (i = Z.to_nat level)) as [->|Hne].
      * apply lookup_level in Es' as ->. assert (b' = b) as -> by congruence. cbn [snd]. unfold file_numbers. rewrite Hp, <- Permutation_middle. cbn [map app]. rewrite En.
        unfold file_numbers in Hfr0. by rewrite Permutation_middle.
      * specialize (Hfr i b' st' Eb' (lookup_changed _ _ _ _ _ Es' (not_eq_sym Hne))). rewrite news_cons in Hfr. destruct (Z.eqb_spec level (Z.of_nat i)); [lia|done].
    + unfold levels1. rewrite (ptrs_perm _ _ (added_all_insert levels _ st f (fst st ∖ {[f_number f]}) E Hp)), ptrs_cons, <- (assoc_L (⊎)). done.
    + exists levels', m'. split; [done|]. split; [|split; [done|split; [lia|]]].
      * apply (all_built_ext _ _ _ _) with (2 := Hb'). intros i. cbv beta. rewrite news_cons. destruct (Z.eqb_spec level (Z.of_nat i)) as [Ei|Hne].
        -- rewrite decide_True by lia. cbn [app map list_to_set]. assert (meta_view meta = view f) as -> by (unfold meta_view, view; congruence). by rewrite (assoc_L (∪)).
        -- rewrite decide_False by lia. done.
      * intros i st0 st' E0 E'. rewrite news_cons. destruct (decide (i = Z.to_nat level)) as [->|Hne].
        -- assert (st0 = st) as -> by congruence. rewrite Z2Nat.id, Z.eqb_refl by lia. cbn [app map]. etransitivity; [apply (Hs' (Z.to_nat level) (fst st ∖ {[f_number f]}, file_insert C f (snd st))); [unfold levels1; apply list_lookup_insert_eq; by apply lookup_lt_Some in E|done]|].
           cbn [snd]. unfold file_numbers at 1. rewrite Hp. cbn [map app]. rewrite En. by rewrite <- Permutation_middle.
        -- destruct (Z.eqb_spec level (Z.of_nat i)); [lia|]. apply Hs'; [unfold levels1; by rewrite list_lookup_insert_ne|done].
Qed.

(** ** Edits *)

Definition edit_wf (e : VersionEdit) : Prop := edit_ok e /\ Forall (fun p => meta_wf (snd p)) (new_files_ e).
Definition edits_level (i : nat) (es : list VersionEdit) (s : gset fview) : gset fview := fold_left (fun s e => edit_level i e s) es s.
Definition new_numbers (i : nat) (es : list VersionEdit) : list Z := concat (map (fun e => map number (news_at i (new_files_ e))) es).
(** No number of a new file has been used in its level. *)
Definition fresh_edits (base : list (list File)) (levels : list (gset Z * list File)) (es : list VersionEdit) : Prop :=
  forall i b st, base !! i = Some b -> levels !! i = Some st -> NoDup (file_numbers (b ++ snd st) ++ new_numbers i es).

Lemma edit_wf_levels e : edit_wf e -> Forall (fun p => is_level (fst p)) (deleted_files_ e) /\ Forall (fun p => is_level (fst p) /\ meta_wf (snd p)) (new_files_ e).
Proof.
  intros [He Hm]. destruct He as [_ _ _ _ [Hd _] Hf]. split; [apply (Forall_impl _ _ _ Hd); intros p Hp; apply Hp|]. rewrite Forall_forall in Hf, Hm |- *. intros p Hp. split; [apply (Hf p Hp)|by apply Hm].
Qed.

(** A compaction pointer: none yet, or a key. *)
Definition pointers_ok (p : list (list Z)) : Prop := Forall (fun k => k = [] \/ is_key k) p.

Lemma apply_pointers_some l p : Forall pointer_ok l -> zlen p = kNumLevels -> exists p', apply_pointers l p = Some p' /\ zlen p' = kNumLevels /\ (pointers_ok p -> pointers_ok p').
Proof.
  intros Hl. revert p. induction Hl as [|[level key] l [Hlev Hk] Hl IH]; intros p Hz; cbn [apply_pointers]; [by exists p|]. cbn [fst snd] in *. rewrite InternalKey_Encode_key by done. cbn [mbind option_bind].
  unfold is_level in Hlev. destruct (at_level_some level (fun _ : list Z => key) p) as (x & E & ->); [lia|]. cbn [mbind option_bind]. destruct (IH (<[Z.to_nat level:=key]> p)) as (p' & Ep & Hz' & Hp'); [unfold zlen in *; by rewrite length_insert|].
  exists p'. split; [done|]. split; [done|]. intros Hp. apply Hp'. apply Forall_insert; [done|by right].
Qed.

Context {F : Type} `{WritableFile F} `{!Syncable F}.
Implicit Types vs : VersionSet F.

Fixpoint Builder_Apply_all (es : list VersionEdit) (b : Builder) vs : option (Builder * VersionSet F) :=
  match es with [] => Some (b, vs) | e :: es => '(b, vs) ← Builder_Apply C e b vs; Builder_Apply_all es b vs end.

(** What applying edits changes besides the builder. *)
Definition applied (vs vs' : VersionSet F) : Prop :=
  exists p m, vs' = set_memory m (set_compact_pointer p vs) /\ (zlen p = kNumLevels /\ (pointers_ok (compact_pointer_ vs) -> pointers_ok p)) /\ next_address (memory vs) <= next_address m.

Lemma applied_refl vs : zlen (compact_pointer_ vs) = kNumLevels -> applied vs vs.
Proof. intros Hz. exists (compact_pointer_ vs), (memory vs). split; [by destruct vs|]. split; [done|lia]. Qed.

Lemma applied_trans vs1 vs2 vs3 : applied vs1 vs2 -> applied vs2 vs3 -> applied vs1 vs3.
Proof. intros (p & m & -> & [_ Hp] & H1) (p' & m' & -> & [H2 Hp'] & H3). cbn in H3, Hp'. exists p', m'. split; [by destruct vs1|]. split; [auto|lia]. Qed.

Lemma Builder_Apply_built e b vs base s X : edit_wf e -> zlen (levels_ b) = kNumLevels -> zlen (compact_pointer_ vs) = kNumLevels -> all_built base (levels_ b) s ->
  fresh_new base (levels_ b) (new_files_ e) -> counted (memory vs) (ptrs (added_all (levels_ b)) ⊎ X) ->
  exists b' vs', Builder_Apply C e b vs = Some (b', vs') /\ base_ b' = base_ b /\ zlen (levels_ b') = kNumLevels /\ all_built base (levels_ b') (fun i => edit_level i e (s i)) /\
    applied vs vs' /\ apply_pointers (compact_pointers_ e) (compact_pointer_ vs) = Some (compact_pointer_ vs') /\ counted (memory vs') (ptrs (added_all (levels_ b')) ⊎ X) /\
    forall i st st', levels_ b !! i = Some st -> levels_ b' !! i = Some st' -> file_numbers (snd st') ≡ₚ file_numbers (snd st) ++ map number (news_at i (new_files_ e)).
Proof.
  intros He Hz Hzp Hb Hfr Hm. destruct (edit_wf_levels e He) as [Hd Hn]. destruct (apply_pointers_some (compact_pointers_ e) _ (ok_pointers _ (proj1 He)) Hzp) as (p & Ep & Hzp').
  destruct (apply_deleted_built (deleted_files_ e) base (levels_ b) s Hd Hz Hb) as (levels1 & Ed & Hb1 & Em). unfold Builder_Apply. rewrite Ep, Ed. cbn [mbind option_bind].
  assert (Hlen1 : length levels1 = length (levels_ b)) by (apply (f_equal length) in Em; by rewrite !length_map in Em).
  assert (Hsnd : forall i st1, levels1 !! i = Some st1 -> exists st, levels_ b !! i = Some st /\ snd st = snd st1).
  { intros i st1 E1. destruct (lookup_lt_is_Some_2 (levels_ b) i) as [st E]; [rewrite <- Hlen1; by apply lookup_lt_Some in E1|]. exists st. split; [done|]. apply (f_equal (lookup i)) in Em. rewrite !list_lookup_fmap, E1, E in Em. cbn in Em. congruence. }
  destruct (apply_new_built (new_files_ e) base levels1 (fun i => filter (fun v => view_number v ∉ dels_at i (deleted_files_ e)) (s i)) (memory vs) X Hn) as (levels2 & m2 & -> & Hb2 & Hm2 & Hn2 & Hs2); [unfold zlen in *; by rewrite Hlen1|exact Hb1| |by unfold added_all; rewrite Em|].
  { intros i bb st1 Eb E1. destruct (Hsnd _ _ E1) as (st & E & <-). by apply (Hfr i). }
  cbn [mbind option_bind]. eexists _, _. split; [reflexivity|]. cbn [base_ levels_]. split; [done|]. pose proof (ab_length _ _ _ Hb2) as Hlen2. pose proof (ab_length _ _ _ Hb1) as Hlen1'.
  split; [unfold zlen in *; lia|]. split; [done|]. split; [exists p, m2; done|]. split; [done|]. split; [done|]. intros i st st' E E'.
  destruct (lookup_lt_is_Some_2 levels1 i) as [st1 E1]; [rewrite Hlen1; by apply lookup_lt_Some in E|]. destruct (Hsnd _ _ E1) as (st0 & E0 & Es). assert (st0 = st) as -> by congruence. rewrite Es. by apply Hs2.
Qed.

Lemma Builder_Apply_all_built es b vs base s X : Forall edit_wf es -> zlen (levels_ b) = kNumLevels -> zlen (compact_pointer_ vs) = kNumLevels -> all_built base (levels_ b) s ->
  fresh_edits base (levels_ b) es -> counted (memory vs) (ptrs (added_all (levels_ b)) ⊎ X) ->
  exists b' vs', Builder_Apply_all es b vs = Some (b', vs') /\ base_ b' = base_ b /\ zlen (levels_ b') = kNumLevels /\ all_built base (levels_ b') (fun i => edits_level i es (s i)) /\
    applied vs vs' /\ counted (memory vs') (ptrs (added_all (levels_ b')) ⊎ X).
Proof.
  intros Hes. revert b vs s. induction Hes as [|e es He Hes IH]; intros b vs s Hz Hzp Hb Hfr Hm; cbn [Builder_Apply_all].
  - exists b, vs. do 4 (split; [done|]). split; [by apply applied_refl|done].
  - destruct (Builder_Apply_built e b vs base s X He Hz Hzp Hb) as (b1 & vs1 & -> & Eb1 & Hz1 & Hb1 & Ha1 & _ & Hm1 & Hs1); [|done|].
    { intros i bb st Eb Es. specialize (Hfr i bb st Eb Es). unfold new_numbers in Hfr. cbn [map concat] in Hfr. rewrite app_assoc in Hfr. by apply NoDup_app in Hfr as [? _]. }
    cbn [mbind option_bind]. destruct (IH b1 vs1 (fun i => edit_level i e (s i)) Hz1) as (b2 & vs2 & -> & Eb2 & Hz2 & Hb2 & Ha2 & Hm2); [by destruct Ha1 as (p & m & -> & [? _] & _)|exact Hb1| |done|].
    { intros i bb st1 Eb Es1. destruct (lookup_lt_is_Some_2 (levels_ b) i) as [st Es]; [apply lookup_lt_Some in Es1; unfold zlen in *; lia|]. specialize (Hfr i bb st Eb Es). unfold new_numbers in Hfr. cbn [map concat] in Hfr.
      unfold file_numbers in *. rewrite map_app in Hfr |- *. specialize (Hs1 i st st1 Es Es1). rewrite Hs1. by rewrite !app_assoc in Hfr |- *. }
    exists b2, vs2. split; [done|]. split; [congruence|]. do 2 (split; [done|]). split; [by apply (applied_trans _ vs1)|done].
Qed.

(** ** Saving *)

Definition saved (base : list (list File)) (levels : list (gset Z * list File)) : list (list File) := zip_with (fun b st => kept (fst st) (interleave b (snd st))) base levels.

(** Level [k] is the first of the list. *)
Definition levels_chained (k : Z) (files : list (list File)) : Prop := forall i l, files !! i = Some l -> level_chained (k + Z.of_nat i) l.

Lemma levels_chained_cons k l files : levels_chained k (l :: files) <-> level_chained k l /\ levels_chained (k + 1) files.
Proof.
  split.
  - intros Hc. split; [specialize (Hc 0%nat l eq_refl); by rewrite Z.add_0_r in Hc|]. intros i l' El. specialize (Hc (S i) l' El). by replace (k + 1 + Z.of_nat i) with (k + Z.of_nat (S i)) by lia.
  - intros [Hl Hc] [|i] l' El; [injection El as <-; by rewrite Z.add_0_r|]. specialize (Hc i l' El). by replace (k + Z.of_nat (S i)) with (k + 1 + Z.of_nat i) by lia.
Qed.

Lemma SaveTo_levels_inv k base levels m files m' : SaveTo_levels C k base levels m = Some (files, m') -> files = saved base levels /\ levels_chained k files.
Proof.
  revert k levels m files m'. induction base as [|b base IH]; intros k [|[d a] levels] m files m'; cbn [SaveTo_levels]; try (intros [= <- <-]; split; [done|intros i l El; by rewrite lookup_nil in El]).
  destruct (SaveTo_level C k d b a [] m) as [[l1 m1]|] eqn:E1; cbn [mbind option_bind]; [|done]. destruct (SaveTo_levels C (k + 1) base levels m1) as [[l2 m2]|] eqn:E2; cbn [mbind option_bind]; [|done].
  intros [= <- <-]. destruct (SaveTo_level_inv _ _ _ _ _ _ _ _ E1) as [-> Hc1]; [done|]. destruct (IH _ _ _ _ _ E2) as [-> Hc2]. split; [done|]. by apply levels_chained_cons.
Qed.

Lemma SaveTo_levels_some k base levels m X : counted m X -> (forall f, f ∈ concat base ++ added_all levels -> f_ptr f ∈ X) -> levels_chained k (saved base levels) ->
  exists m', SaveTo_levels C k base levels m = Some (saved base levels, m') /\ counted m' (ptrs (concat (saved base levels)) ⊎ X) /\ next_address m' = next_address m.
Proof.
  revert k levels m X. induction base as [|b base IH]; intros k [|[d a] levels] m X Hm Hp Hc; cbn [SaveTo_levels saved zip_with concat] in *; try (exists m; by rewrite ptrs_nil).
  apply levels_chained_cons in Hc as [Hc1 Hc2]. unfold added_all in Hp. cbn [map concat snd] in Hp.
  destruct (SaveTo_level_some k d b a [] m X Hm) as (m1 & -> & Hm1 & E1); [intros f Hf; apply Hp; rewrite elem_of_app in Hf; rewrite !elem_of_app; tauto|done|]. cbn [mbind option_bind].
  destruct (IH (k + 1) levels m1 _ Hm1) as (m2 & -> & Hm2 & E2); [intros f Hf; apply gmultiset_elem_of_disj_union; right; apply Hp; unfold added_all in Hf; rewrite elem_of_app in Hf; rewrite !elem_of_app; tauto|done|].
  cbn [mbind option_bind]. exists m2. split; [done|]. split; [|lia]. cbn [concat fst snd app] in *. rewrite ptrs_app. eapply eq_ind; [exact Hm2|]. unfold saved. apply gmultiset_eq. intros p. rewrite !multiplicity_disj_union. lia.
Qed.

(** A version whose levels are the sets [s], each above the first without overlaps. *)
Record version_is (files : list (list File)) (s : nat -> gset fview) : Prop := mkVersionIs {
  vi_length : zlen files = kNumLevels; vi_level i l : files !! i = Some l -> level_is l (s i); vi_chained : levels_chained 0 files
}.

Lemma version_is_ext files s s' : (forall i, s i = s' i) -> version_is files s -> version_is files s'.
Proof. intros E [Hl Hv Hc]. constructor; [done| |done]. intros i l. rewrite <- E. apply Hv. Qed.

Lemma version_is_canonical files files' s : version_is files s -> version_is files' s -> map (map view) files = map (map view) files'.
Proof.
  intros [L1 V1 _] [L2 V2 _]. apply list_eq. intros i. rewrite !list_lookup_fmap. destruct (files !! i) as [l|] eqn:E1, (files' !! i) as [l'|] eqn:E2; cbn; [|apply lookup_lt_Some in E1; apply lookup_ge_None in E2; unfold zlen in *; lia|apply lookup_ge_None in E1; apply lookup_lt_Some in E2; unfold zlen in *; lia|done].
  f_equal. apply (level_is_canonical l l' (s i)); auto.
Qed.

Lemma saved_lookup base levels i l : saved base levels !! i = Some l -> exists b st, base !! i = Some b /\ levels !! i = Some st /\ l = kept (fst st) (interleave b (snd st)).
Proof. unfold saved. rewrite lookup_zip_with_Some. naive_solver. Qed.

Lemma saved_is base levels s : all_built base levels s -> zlen levels = kNumLevels -> levels_chained 0 (saved base levels) -> version_is (saved base levels) s.
Proof.
  intros Hb Hz Hc. constructor; [|intros i l (b & st & Eb & Es & ->)%saved_lookup; by apply built_saved, (ab_built _ _ _ Hb)|done].
  unfold saved, zlen. rewrite length_zip_with. pose proof (ab_length _ _ _ Hb). unfold zlen in Hz. lia.
Qed.

Lemma all_built_new files s : version_is files s -> all_built files (replicate (Z.to_nat kNumLevels) (∅, [])) s.
Proof.
  intros [L V _]. constructor; [rewrite length_replicate; unfold zlen in L; lia|]. intros i b st Eb [-> _]%lookup_replicate. by apply built_new, V.
Qed.

Lemma version_is_new : version_is (files_ Version_new) (fun _ => ∅).
Proof.
  constructor; [done| |].
  - intros i l [-> _]%lookup_replicate. constructor; [constructor|constructor|constructor|done].
  - intros i l [-> _]%lookup_replicate _. done.
Qed.

(** Whether a level overlaps itself can be seen from its views. *)
Lemma chained_views l l' : map view l = map view l' -> chained l -> chained l'.
Proof.
  revert l'. induction l as [|f l IH]; intros [|f' l']; try done. cbn [map]. intros [= En Es Esm Ela El] [Hf Hc]. split; [|by apply IH].
  destruct l as [|g l], l' as [|g' l']; try done. cbn [map] in El. injection El as _ _ Eg _ _. congruence.
Qed.

Lemma levels_chained_views k files files' : map (map view) files = map (map view) files' -> levels_chained k files -> levels_chained k files'.
Proof.
  intros E Hc i l' El' Hi. apply (f_equal (lookup i)) in E. rewrite !list_lookup_fmap, El' in E. destruct (files !! i) as [l|] eqn:El; [|done]. injection E as E. apply (chained_views l); [done|]. by apply (Hc i).
Qed.

Lemma saved_views base levels s files : all_built base levels s -> zlen levels = kNumLevels -> version_is files s -> map (map view) (saved base levels) = map (map view) files.
Proof.
  intros Hb Hz [L V _]. pose proof (ab_length _ _ _ Hb) as Hlen. apply list_eq. intros i. rewrite !list_lookup_fmap. destruct (saved base levels !! i) as [l|] eqn:E1.
  - destruct (saved_lookup _ _ _ _ E1) as (b & st & Eb & Es & ->). destruct (lookup_lt_is_Some_2 files i) as [l' E2]; [apply lookup_lt_Some in Es; unfold zlen in *; lia|]. rewrite E2. cbn [fmap option_fmap option_map]. f_equal.
    apply (level_is_canonical _ _ (s i)); [by apply built_saved, (ab_built _ _ _ Hb)|by apply V].
  - apply lookup_ge_None in E1. unfold saved in E1. rewrite length_zip_with in E1. destruct (files !! i) eqn:E2; [|done]. apply lookup_lt_Some in E2. unfold zlen in *. lia.
Qed.
End Build.

(** C8. A builder that has no changes yet takes any well-formed edits whose new files have numbers
    that their levels do not use, one after another, and no assertion fails; what it saves over its
    version is then, at each level, the set of files that the edits make of the version's: each takes
    out the numbers it deletes and then puts in its new files; in order, and above level 0 without
    overlaps. When there is such a version the builder saves one, with the same files in the same places. *)
Theorem builder_applies_edits dom C F es (b : Builder) (vs : VersionSet F) v0 s X `{ComparatorLaws dom C} `{WritableFile F} `{!Syncable F} :
  Forall (edit_wf (dom := dom) (C := C)) es -> find_version (base_ b) (versions vs) = Some v0 -> version_is (dom := dom) (C := C) (files_ v0) s ->
  levels_ b = replicate (Z.to_nat kNumLevels) (∅, []) -> zlen (compact_pointer_ vs) = kNumLevels ->
  (forall i l, files_ v0 !! i = Some l -> NoDup (file_numbers l ++ new_numbers i es)) -> counted (memory vs) (ptrs (concat (files_ v0)) ⊎ X) ->
  exists b' vs', Builder_Apply_all (C := C) es b vs = Some (b', vs') /\
    (forall v vs2, Builder_SaveTo C b' Version_new vs' = Some (v, vs2) -> version_is (dom := dom) (C := C) (files_ v) (fun i => edits_level i es (s i))) /\
    forall files, version_is (dom := dom) (C := C) files (fun i => edits_level i es (s i)) ->
      exists v vs2, Builder_SaveTo C b' Version_new vs' = Some (v, vs2) /\ map (map view) (files_ v) = map (map view) files.
Proof.
  intros Hes Hv Hs Hl Hz Hfr Hm. assert (Hadd : added_all (levels_ b) = []) by by rewrite Hl.
  destruct (Builder_Apply_all_built es b vs (files_ v0) s (ptrs (concat (files_ v0)) ⊎ X) Hes) as (b' & vs' & Ea & Eb & Hz' & Hb' & (p & m & -> & _) & Hm'); [by rewrite Hl|done|rewrite Hl; by apply all_built_new| |by rewrite Hadd, ptrs_nil|].
  { intros i l st El Est. rewrite Hl in Est. apply lookup_replicate in Est as [-> _]. cbn [snd]. rewrite app_nil_r. by apply Hfr. }
  eexists b', _. split; [exact Ea|]. unfold Builder_SaveTo. cbn [versions memory set_memory set_compact_pointer] in *. rewrite Eb, Hv. cbn [mbind option_bind]. split.
  - intros v vs2. destruct (SaveTo_levels C 0 (files_ v0) (levels_ b') m) as [[files m']|] eqn:Es; cbn [mbind option_bind]; [|done]. intros [= <- _]. cbn [files_ set_files]. destruct (SaveTo_levels_inv (C := C) _ _ _ _ _ _ Es) as [-> Hc]. by apply saved_is.
  - intros files Hf. pose proof (saved_views _ _ _ _ Hb' Hz' Hf) as Ev. destruct (SaveTo_levels_some (C := C) 0 (files_ v0) (levels_ b') m _ Hm') as (m' & -> & _).
    + intros f. rewrite elem_of_app, !gmultiset_elem_of_disj_union. unfold ptrs. rewrite !elem_of_list_to_set_disj, !list_elem_of_fmap. intros [Hin|Hin]; [right; left|left]; by exists f.
    + apply (levels_chained_views _ files); [done|]. by destruct Hf.
    + cbn [mbind option_bind]. by eexists _, _.
Qed.

#[export] Instance memory_syncable : Syncable (list Z) := { Sync f := (OK, f) }.

(** A file is added to level 0, and then moved to level 1. *)
Definition sample_add : VersionEdit := AddFile 0 5 1000 (sample_key 97 9) (sample_key 102 4) VersionEdit_new.
Definition sample_move : VersionEdit := RemoveFile 0 5 (AddFile 1 5 1000 (sample_key 97 9) (sample_key 102 4) VersionEdit_new).
Definition sample_set : VersionSet (list Z) := mkVersionSet (mkNumbers 6 2 0 0 0) None [(0, set_refs 1 Version_new)] (Some 0) (replicate (Z.to_nat kNumLevels) []) (mkMemory ∅ 1).

Ltac edit_witness :=
  split; [|repeat (constructor; try discriminate)]; constructor; cbn; unfold pointer_ok, deleted_ok, file_ok, is_key, is_string, is_level, is_number; cbn [fst snd];
  [split; [split; [reflexivity|by repeat constructor]|done]|repeat split; lia|repeat split; intros; first [reflexivity|discriminate]|apply Forall_nil_2
  |split; [first [apply Forall_nil_2|apply Forall_singleton; repeat split; try reflexivity; try discriminate]|repeat constructor]
  |apply Forall_singleton; repeat split; try reflexivity; try discriminate; witness_bytes].

Lemma sample_add_wf : edit_wf (dom := bytes_ok) (C := BytewiseComparator) sample_add.
Proof. edit_witness. Qed.

Lemma sample_move_wf : edit_wf (dom := bytes_ok) (C := BytewiseComparator) sample_move.
Proof. edit_witness. Qed.

Lemma high_levels_untouched i : new_numbers (S (S i)) [sample_add; sample_move] = [].
Proof.
  set (meta := FileMetaData_new 5 1000 (sample_key 97 9) (sample_key 102 4)). change (map number (news_at (S (S i)) [(0, meta)]) ++ map number (news_at (S (S i)) [(1, meta)]) ++ [] = []). rewrite !news_cons.
  destruct (Z.eqb_spec 0 (Z.of_nat (S (S i)))), (Z.eqb_spec 1 (Z.of_nat (S (S i)))); lia || done.
Qed.

Lemma builder_applies_edits_witness : exists b' vs',
  Builder_Apply_all (C := BytewiseComparator) [sample_add; sample_move] (mkBuilder 0 (replicate (Z.to_nat kNumLevels) (∅, []))) sample_set = Some (b', vs') /\
  forall v vs2, Builder_SaveTo BytewiseComparator b' Version_new vs' = Some (v, vs2) ->
    version_is (dom := bytes_ok) (C := BytewiseComparator) (files_ v) (fun i => edits_level i [sample_add; sample_move] ∅).
Proof.
  destruct (builder_applies_edits bytes_ok BytewiseComparator (list Z) [sample_add; sample_move] (mkBuilder 0 (replicate (Z.to_nat kNumLevels) (∅, []))) sample_set (set_refs 1 Version_new) (fun _ => ∅) ∅) as (b' & vs' & Ea & Hs & _).
  - apply Forall_cons. split; [exact sample_add_wf|]. apply Forall_singleton. exact sample_move_wf.
  - reflexivity.
  - exact version_is_new.
  - reflexivity.
  - reflexivity.
  - intros i l [-> _]%lookup_replicate. destruct i as [|[|i]]; [apply NoDup_singleton|apply NoDup_singleton|]. change (NoDup (new_numbers (S (S i)) [sample_add; sample_move])). rewrite high_levels_untouched. apply NoDup_nil_2.
  - change (counted (mkMemory ∅ 1) (ptrs [] ⊎ ∅)). rewrite ptrs_nil. split; [intros p; by rewrite decide_False by multiset_solver|intros p Hp; multiset_solver].
  - exists b', vs'. split; [exact Ea|exact Hs].
Defined.
