(* ===== verification/LdbVersionRefs.v ===== *)
(** * Versions and their files are referenced (theorems about LdbVersionSet.v)

    While a version is being made and installed, and while readers hold others, the
    counters of versions and files are the numbers of their references: nothing that is
    held is deleted, and what is not held is. *)

From Stdlib Require Import Sorted SpecFloat.
From stdpp Require Import strings list gmap gmultiset.
From S2P Require Import Prelude Words LdbCoding LdbEnv LdbLog LdbBatch LdbRecovery LdbKeys LdbWrite LdbVersionEdit LdbFilename LdbVersion LdbVersionSet LdbVersionBuild.

(** ** Finding versions *)

Lemma find_version_app a l1 v l2 : a ∉ map fst l1 -> find_version a (l1 ++ (a, v) :: l2) = Some v.
Proof.
  unfold find_version. induction l1 as [|[b w] l1 IH]; intros Ha; cbn [app List.find fst]; [by rewrite Z.eqb_refl|]. cbn [map] in Ha. apply not_elem_of_cons in Ha as [Hne Ha]. cbn [fst] in Hne.
  destruct (Z.eqb_spec b a); [by subst|by apply IH].
Qed.

Lemma find_version_skip a b l1 v l2 : b <> a -> find_version b (l1 ++ (a, v) :: l2) = find_version b (l1 ++ l2).
Proof.
  intros Hne. unfold find_version. f_equal. induction l1 as [|[c w] l1 IH]; cbn [app List.find fst]; [destruct (Z.eqb_spec a b); [by subst|done]|]. by destruct (c =? b).
Qed.

Lemma find_version_split a l v : find_version a l = Some v -> exists l1 l2, l = l1 ++ (a, v) :: l2 /\ a ∉ map fst l1.
Proof.
  unfold find_version. induction l as [|[b w] l IH]; cbn [List.find fst]; [done|]. destruct (Z.eqb_spec b a) as [->|Hne].
  - intros [= ->]. exists [], l. split; [done|apply not_elem_of_nil].
  - intros E. destruct (IH E) as (l1 & l2 & -> & Ha). exists ((b, w) :: l1), l2. split; [done|]. cbn [map fst]. apply not_elem_of_cons. split; [congruence|done].
Qed.

Lemma update_version_other a f l : a ∉ map fst l -> update_version a f l = l.
Proof.
  unfold update_version. induction l as [|[b w] l IH]; [done|]. cbn [map fst snd]. intros [Hne Ha]%not_elem_of_cons. destruct (Z.eqb_spec b a); [by subst|]. by rewrite IH.
Qed.

Lemma update_version_app a f l1 v l2 : NoDup (map fst (l1 ++ (a, v) :: l2)) -> update_version a f (l1 ++ (a, v) :: l2) = l1 ++ (a, f v) :: l2.
Proof.
  rewrite map_app. cbn [map fst]. intros (_ & Hd & [Ha _]%NoDup_cons)%NoDup_app. unfold update_version. rewrite map_app. cbn [map fst snd]. rewrite Z.eqb_refl.
  fold (update_version a f l1) (update_version a f l2). rewrite !update_version_other; [done|done|]. intros Hin. apply (Hd a Hin), elem_of_cons. by left.
Qed.

Lemma filter_other a (l : list (Z * Version)) : a ∉ map fst l -> List.filter (fun av => negb (fst av =? a)) l = l.
Proof.
  induction l as [|[b w] l IH]; [done|]. cbn [map fst List.filter]. intros [Hne Ha]%not_elem_of_cons. destruct (Z.eqb_spec b a); [by subst|]. cbn [negb]. by rewrite IH.
Qed.

Lemma filter_version a (l1 : list (Z * Version)) v l2 : NoDup (map fst (l1 ++ (a, v) :: l2)) -> List.filter (fun av => negb (fst av =? a)) (l1 ++ (a, v) :: l2) = l1 ++ l2.
Proof.
  rewrite map_app. cbn [map fst]. intros (_ & Hd & [Ha _]%NoDup_cons)%NoDup_app. rewrite List.filter_app. cbn [List.filter fst]. rewrite Z.eqb_refl. cbn [negb]. rewrite !filter_other; [done|done|].
  intros Hin. apply (Hd a Hin), elem_of_cons. by left.
Qed.

Definition version_files (l : list (Z * Version)) : list File := concat (map (fun av => concat (files_ (snd av))) l).

Lemma version_files_app l k : version_files (l ++ k) = version_files l ++ version_files k.
Proof. unfold version_files. by rewrite map_app, concat_app. Qed.

Lemma version_files_cons a v l : version_files ((a, v) :: l) = concat (files_ v) ++ version_files l.
Proof. done. Qed.

Ltac multiset_lia := apply gmultiset_eq; let p := fresh "p" in intros p; rewrite ?ptrs_app, ?multiplicity_disj_union, ?multiplicity_empty; lia.

(** ** The invariant *)

Section Refs.
Context {dom : list Z -> Prop} {C : Comparator} `{ComparatorLaws dom C} {F : Type} `{WritableFile F} `{!Syncable F}.
Implicit Types vs : VersionSet F.

(** [held]: the references to versions. [X]: references to files besides those of the versions. *)
Record referenced vs (held X : gmultiset Z) : Prop := mkReferenced {
  rf_files : counted (memory vs) (ptrs (version_files (versions vs)) ⊎ X);
  rf_addresses : NoDup (map fst (versions vs)) /\ Forall (fun av => fst av < next_address (memory vs)) (versions vs);
  rf_versions : Forall (fun av => v_refs (snd av) = Z.of_nat (multiplicity (fst av) held) /\ 0 < v_refs (snd av)) (versions vs);
  rf_held a : a ∈ held -> a ∈ map fst (versions vs);
  rf_sets : Forall (fun av => exists s, version_is (dom := dom) (C := C) (files_ (snd av)) s) (versions vs);
  rf_pointers : zlen (compact_pointer_ vs) = kNumLevels
}.

Lemma find_held vs held X a : referenced vs held X -> a ∈ map fst (versions vs) -> exists l1 v l2, versions vs = l1 ++ (a, v) :: l2 /\ a ∉ map fst l1 /\ find_version a (versions vs) = Some v.
Proof.
  intros Hr Ha. apply list_elem_of_fmap in Ha as ([b v] & -> & Hin). apply list_elem_of_split in Hin as (l1 & l2 & E). exists l1, v, l2. cbn [fst]. destruct (rf_addresses _ _ _ Hr) as [Hn _]. rewrite E in Hn.
  rewrite map_app in Hn. cbn [map fst] in Hn. apply NoDup_app in Hn as (_ & Hd & _). assert (Hb : b ∉ map fst l1) by (intros Hb; apply (Hd b Hb), elem_of_cons; by left). rewrite E. split; [done|]. split; [done|]. by apply find_version_app.
Qed.

Lemma Ref_referenced vs held X a : referenced vs held X -> a ∈ map fst (versions vs) ->
  exists vs', Version_Ref a vs = Some vs' /\ referenced vs' ({[+ a +]} ⊎ held) X /\ current vs' = current vs /\ memory vs' = memory vs /\ numbers vs' = numbers vs /\
    descriptor_log_ vs' = descriptor_log_ vs /\ compact_pointer_ vs' = compact_pointer_ vs /\ map (fun av => (fst av, files_ (snd av))) (versions vs') = map (fun av => (fst av, files_ (snd av))) (versions vs).
Proof.
  intros Hr Ha. destruct (find_held _ _ _ _ Hr Ha) as (l1 & v & l2 & E & Hn1 & Ef). unfold Version_Ref. rewrite Ef. cbn [mbind option_bind]. eexists. split; [reflexivity|]. destruct Hr as [Hf [Hn Hlt] Hv Hh Hs Hp].
  rewrite E in *. rewrite (update_version_app _ _ _ _ _ Hn). assert (Ek : map fst (l1 ++ (a, set_refs (v_refs v + 1) v) :: l2) = map fst (l1 ++ (a, v) :: l2)) by (rewrite !map_app; done).
  split; [|cbn; rewrite !map_app; done]. constructor; cbn [memory versions current set_versions compact_pointer_]; rewrite ?Ek; [by rewrite !version_files_app, !version_files_cons in *| |  | |  |done].
  - split; [done|]. apply Forall_app in Hlt as [H1 [H2 H3]%Forall_cons_1]. apply Forall_app. split; [done|by constructor].
  - rewrite map_app in Hn. cbn [map fst] in Hn. apply NoDup_app in Hn as (_ & Hd & [Hn2 _]%NoDup_cons). apply Forall_app in Hv as [H1 [H2 H3]%Forall_cons_1].
    assert (Hother : forall l, a ∉ map fst l -> Forall (fun av => v_refs (snd av) = Z.of_nat (multiplicity (fst av) held) /\ 0 < v_refs (snd av)) l ->
      Forall (fun av => v_refs (snd av) = Z.of_nat (multiplicity (fst av) ({[+ a +]} ⊎ held)) /\ 0 < v_refs (snd av)) l).
    { intros l Hl Hfl. apply Forall_forall. intros av Hav. rewrite Forall_forall in Hfl. rewrite mult_other by (intros Ea; apply Hl; rewrite <- Ea; by apply (list_elem_of_fmap_2 fst)). by apply Hfl. }
    apply Forall_app. split; [by apply Hother|]. constructor; [|by apply Hother]. cbn [fst snd v_refs set_refs] in *. rewrite mult_same. lia.
  - intros b [->%gmultiset_elem_of_singleton|Hb]%gmultiset_elem_of_disj_union; [|by apply Hh]. rewrite map_app, elem_of_app. right. apply elem_of_cons. by left.
  - apply Forall_app in Hs as [H1 [H2 H3]%Forall_cons_1]. apply Forall_app. split; [done|by constructor].
Qed.

Lemma held_others l a (held : gmultiset Z) : a ∉ map fst l -> Forall (fun av : Z * Version => v_refs (snd av) = Z.of_nat (multiplicity (fst av) ({[+ a +]} ⊎ held)) /\ 0 < v_refs (snd av)) l ->
  Forall (fun av => v_refs (snd av) = Z.of_nat (multiplicity (fst av) held) /\ 0 < v_refs (snd av)) l.
Proof.
  intros Hl Hf. apply Forall_forall. intros av Hav. rewrite Forall_forall in Hf. specialize (Hf av Hav). cbv beta in Hf. rewrite mult_other in Hf by (intros Ea; apply Hl; rewrite <- Ea; by apply (list_elem_of_fmap_2 fst)). done.
Qed.

(** The last reference takes the version out of the list, and its files are released. *)
Lemma Unref_referenced vs held X a : referenced vs ({[+ a +]} ⊎ held) X ->
  exists vs', Version_Unref a vs = Some vs' /\ referenced vs' held X /\ current vs' = current vs /\ numbers vs' = numbers vs /\ next_address (memory vs') = next_address (memory vs) /\
    descriptor_log_ vs' = descriptor_log_ vs /\ compact_pointer_ vs' = compact_pointer_ vs /\
    forall b v, b ∈ held -> find_version b (versions vs) = Some v -> exists n, find_version b (versions vs') = Some (set_refs n v).
Proof.
  intros Hr. destruct (find_held _ _ _ _ Hr (rf_held _ _ _ Hr a (mem_same _ _))) as (l1 & v & l2 & E & Hn1 & Ef). unfold Version_Unref. rewrite Ef. cbn [mbind option_bind]. destruct Hr as [Hf [Hn Hlt] Hv Hh Hs Hp]. rewrite E in *.
  pose proof Hn as Hn'. rewrite map_app in Hn'. cbn [map fst] in Hn'. apply NoDup_app in Hn' as (Hn1' & Hd & [Hn2 Hn2']%NoDup_cons). apply Forall_app in Hlt as [Hlt1 [Hlta Hlt2]%Forall_cons_1], Hv as [Hv1 [[Hva Hvp] Hv2]%Forall_cons_1], Hs as [Hs1 [Hsa Hs2]%Forall_cons_1].
  cbn [fst snd] in *. rewrite mult_same in Hva. destruct (Z.ltb_spec (v_refs v) 1); [lia|]. cbn [v_refs set_refs]. pose proof (held_others _ _ _ Hn1 Hv1) as Hv1'. pose proof (held_others _ _ _ Hn2 Hv2) as Hv2'.
  destruct (Z.eqb_spec (v_refs v - 1) 0) as [Ez|Ez].
  - assert (Hah : a ∉ held) by (apply not_elem_of_multiplicity; lia). unfold Version_delete. cbn [v_refs set_refs files_]. destruct (Z.eqb_spec (v_refs v - 1) 0); [|lia].
    rewrite version_files_app, version_files_cons, !ptrs_app in Hf. destruct (counted_drop (concat (files_ v)) (memory vs) (ptrs (version_files (l1 ++ l2)) ⊎ X)) as (m' & -> & Hm' & Em); [eapply eq_ind; [exact Hf|]; rewrite version_files_app; multiset_lia|].
    cbn [mbind option_bind]. rewrite filter_version by done. eexists. split; [reflexivity|]. split; [|cbn [current versions memory numbers next_address descriptor_log_ compact_pointer_ set_versions set_memory set_current]; do 5 (split; [done|])].
    + constructor; cbn [memory versions current set_versions set_memory compact_pointer_]; [done| | | | |done].
      * rewrite map_app, Em. split; [|by apply Forall_app]. apply NoDup_app. split; [done|]. split; [|done]. intros x Hx Hx2. apply (Hd x Hx), elem_of_cons. by right.
      * by apply Forall_app.
      * intros b Hb. specialize (Hh b ltac:(apply gmultiset_elem_of_disj_union; by right)). rewrite map_app, elem_of_app in Hh |- *. cbn [map fst] in Hh. rewrite elem_of_cons in Hh. destruct Hh as [?|[->|?]]; [by left|done|by right].
      * by apply Forall_app.
    + intros b w Hb Ew. exists (v_refs w). assert (Hne : b <> a) by (intros ->; done). rewrite find_version_skip in Ew by done. by destruct w.
  - eexists. split; [reflexivity|]. rewrite update_version_app by done. cbn [v_refs set_refs]. split; [|cbn [current versions memory numbers next_address descriptor_log_ compact_pointer_ set_versions set_memory set_current]; do 5 (split; [done|])].
    + assert (Ek : map fst (l1 ++ (a, set_refs (v_refs v - 1) v) :: l2) = map fst (l1 ++ (a, v) :: l2)) by (rewrite !map_app; done).
      constructor; cbn [memory versions current set_versions compact_pointer_]; rewrite ?Ek; [by rewrite !version_files_app, !version_files_cons in *| | | | |done].
      * split; [done|]. apply Forall_app. split; [done|by constructor].
      * apply Forall_app. split; [done|]. constructor; [cbn [fst snd v_refs set_refs]; lia|done].
      * intros b Hb. apply Hh, gmultiset_elem_of_disj_union. by right.
      * apply Forall_app. split; [done|by constructor].
    + intros b w Hb Ew. destruct (decide (b = a)) as [->|Hne].
      * rewrite find_version_app in Ew |- * by done. injection Ew as <-. by exists (v_refs v - 1).
      * rewrite find_version_skip in Ew |- * by done. exists (v_refs w). by destruct w.
Qed.

Lemma Unref_subset c vs vs' : Version_Unref c vs = Some vs' -> forall b, b ∈ map fst (versions vs') -> b ∈ map fst (versions vs).
Proof.
  unfold Version_Unref. destruct (find_version c (versions vs)) as [w|]; [|done]. cbn [mbind option_bind]. destruct (v_refs w <? 1); [done|]. destruct (_ =? 0).
  - destruct (Version_delete _ _); [|done]. intros [= <-] b. cbn [versions set_memory set_versions]. rewrite !list_elem_of_fmap. intros (x & -> & Hx). exists x. split; [done|]. by apply list_elem_of_In, List.filter_In in Hx as [?%list_elem_of_In _].
  - intros [= <-] b. cbn [versions set_versions]. unfold update_version. rewrite map_map. rewrite !list_elem_of_fmap. intros (x & -> & Hx). exists x. split; [|done]. by destruct (_ =? _) eqn:E; [apply Z.eqb_eq in E|].
Qed.

(** A version that is not in the list yet is added to it and becomes current. *)
Lemma AppendVersion_referenced a v vs held X c : referenced vs ({[+ c +]} ⊎ held) (ptrs (concat (files_ v)) ⊎ X) -> current vs = Some c -> v_refs v = 0 ->
  a < next_address (memory vs) -> a ∉ map fst (versions vs) -> (exists s, version_is (dom := dom) (C := C) (files_ v) s) ->
  exists vs', AppendVersion a v vs = Some vs' /\ referenced vs' ({[+ a +]} ⊎ held) X /\ current vs' = Some a /\ find_version a (versions vs') = Some (set_refs 1 v) /\ numbers vs' = numbers vs /\
    next_address (memory vs') = next_address (memory vs) /\ descriptor_log_ vs' = descriptor_log_ vs /\ compact_pointer_ vs' = compact_pointer_ vs /\
    forall b w, b ∈ held -> find_version b (versions vs) = Some w -> exists n, find_version b (versions vs') = Some (set_refs n w).
Proof.
  intros Hr Hcur Hv0 Ha Hna Hset. unfold AppendVersion. rewrite Hv0, Hcur. cbn [Z.eqb negb]. assert (Hc : c ∈ map fst (versions vs)) by (apply (rf_held _ _ _ Hr), mem_same).
  rewrite bool_decide_false by congruence. destruct (Unref_referenced _ _ _ _ Hr) as (vs1 & E1 & Hr1 & _ & En & Em & Ed & Ep & Hfind). rewrite E1. cbn [mbind option_bind]. eexists. split; [reflexivity|].
  pose proof (Unref_subset _ _ _ E1) as Hsub.
  assert (Hna1 : a ∉ map fst (versions vs1)) by auto. destruct Hr1 as [Hf [Hn Hlt] Hv Hh Hs Hp]. split; [|cbn [current versions memory numbers next_address descriptor_log_ compact_pointer_ set_versions set_memory set_current]; split; [done|]; split; [by rewrite (find_version_app a)|do 4 (split; [done|])]].
  - constructor; cbn [memory versions current set_versions set_current compact_pointer_]; [| | | | |done].
    + rewrite version_files_app, version_files_cons. cbn [set_refs files_]. eapply eq_ind; [exact Hf|]. change (version_files []) with (@nil File). rewrite app_nil_r. multiset_lia.
    + rewrite map_app. cbn [map fst]. split; [|apply Forall_app; split; [done|]; repeat constructor; cbn; lia]. apply NoDup_app. split; [done|]. split; [|apply NoDup_singleton]. intros x Hx ->%list_elem_of_singleton. done.
    + apply Forall_app. assert (Hah : multiplicity a held = 0%nat) by (apply not_elem_of_multiplicity; intros Hin; by apply Hna1, Hh). split.
      * apply Forall_forall. intros av Hav. rewrite Forall_forall in Hv. specialize (Hv av Hav). cbv beta in Hv. rewrite mult_other; [done|]. intros Ea. apply Hna1. rewrite <- Ea. by apply (list_elem_of_fmap_2 fst).
      * repeat constructor; cbn [fst snd v_refs set_refs]; rewrite ?mult_same, ?Hah; lia.
    + intros b [->%gmultiset_elem_of_singleton|Hb]%gmultiset_elem_of_disj_union; rewrite map_app, elem_of_app; [right; apply elem_of_cons; by left|left; auto].
    + apply Forall_app. split; [done|]. repeat constructor. exact Hset.
  - intros b w Hb Ew. destruct (Hfind b w Hb Ew) as [n E]. exists n. cbn [versions set_versions]. rewrite find_version_skip; [by rewrite app_nil_r|]. intros ->. apply Hna. destruct (find_version_split _ _ _ Ew) as (k1 & k2 & -> & _).
    rewrite map_app, elem_of_app. right. apply elem_of_cons. by left.
Qed.

(** ** Making a version *)

Definition numbers_ok (n : Numbers) : Prop := (is_number (next_file_number n) /\ is_number (last_sequence n)) /\ is_number (log_number n) /\ is_number (prev_log_number n).

Lemma LogAndApply_numbers_spec edit n edit' : LogAndApply_numbers edit n = Some edit' -> edit_wf (dom := dom) (C := C) edit -> numbers_ok n ->
  edit_wf (dom := dom) (C := C) edit' /\ (has_comparator_ edit' = has_comparator_ edit /\ comparator_ edit' = comparator_ edit) /\
  (new_files_ edit' = new_files_ edit /\ deleted_files_ edit' = deleted_files_ edit /\ compact_pointers_ edit' = compact_pointers_ edit) /\
  (has_log_number_ edit' = true /\ has_prev_log_number_ edit' = true /\ has_next_file_number_ edit' = true /\ has_last_sequence_ edit' = true) /\
  next_file_number_ edit' = next_file_number n /\ last_sequence_ edit' = last_sequence n.
Proof.
  unfold LogAndApply_numbers. intros E [He Hm] ((Hn1 & Hn2) & Hn3 & Hn4). destruct edit as [c l p nf s hc hl hp hn hs cs ds fs]. destruct He as [[Hc1 Hc2] [[? ?] [? ?]] (Hu1 & Hu2 & Hu3 & Hu4) Hcp Hd Hf].
  cbn [has_log_number_ has_prev_log_number_ log_number_] in E. destruct hl; [destruct (_ && _); [|done]|]; destruct hp; cbn in E; injection E as <-; (split; [split; [constructor; cbn in *; first [tauto|naive_solver]|done]|cbn; naive_solver]).
Qed.

Lemma find_files a l l' v : map (fun av : Z * Version => (fst av, files_ (snd av))) l = map (fun av => (fst av, files_ (snd av))) l' -> find_version a l = Some v ->
  exists v', find_version a l' = Some v' /\ files_ v' = files_ v.
Proof.
  revert l'. induction l as [|[b w] l IH]; intros [|[b' w'] l']; try done. cbn [map fst snd]. intros [= -> Ew E]. unfold find_version. cbn [List.find fst]. destruct (b' =? a); [intros [= <-]; by exists w'|by apply IH].
Qed.

Lemma version_files_same l l' : map (fun av : Z * Version => (fst av, files_ (snd av))) l = map (fun av => (fst av, files_ (snd av))) l' -> version_files l = version_files l'.
Proof. intros E. unfold version_files. f_equal. apply (f_equal (map (fun x => concat (snd x)))) in E. by rewrite !map_map in E. Qed.

Lemma find_in a l v : find_version a l = Some v -> (a, v) ∈ l.
Proof. intros (l1 & l2 & -> & _)%find_version_split. apply elem_of_app. right. apply elem_of_cons. by left. Qed.

(** A builder that holds version [c], with the files [base], and has got to the sets [s]. *)
Record building (b : Builder) vs (held X : gmultiset Z) (c : Z) (base : list (list File)) (s : nat -> gset fview) : Prop := mkBuilding {
  bl_referenced : referenced vs ({[+ c +]} ⊎ held) (ptrs (added_all (levels_ b)) ⊎ X);
  bl_base : base_ b = c /\ exists v, find_version c (versions vs) = Some v /\ files_ v = base;
  bl_built : all_built (dom := dom) (C := C) base (levels_ b) s;
  bl_length : zlen (levels_ b) = kNumLevels
}.

Lemma building_starts es vs held X c v s : referenced vs ({[+ c +]} ⊎ held) X -> current vs = Some c -> find_version c (versions vs) = Some v -> version_is (dom := dom) (C := C) (files_ v) s ->
  Forall (edit_wf (dom := dom) (C := C)) es -> (forall i l, files_ v !! i = Some l -> NoDup (file_numbers l ++ new_numbers i es)) ->
  exists b0 vs0, Builder_new vs = Some (b0, vs0) /\ exists b vs1, Builder_Apply_all (C := C) es b0 vs0 = Some (b, vs1) /\
    building b vs1 ({[+ c +]} ⊎ held) X c (files_ v) (fun i => edits_level i es (s i)) /\
    (current vs1 = Some c /\ (pointers_ok (compact_pointer_ vs) -> pointers_ok (compact_pointer_ vs1))) /\ numbers vs1 = numbers vs /\ descriptor_log_ vs1 = descriptor_log_ vs /\ next_address (memory vs) <= next_address (memory vs1) /\
    map (fun av => (fst av, files_ (snd av))) (versions vs1) = map (fun av => (fst av, files_ (snd av))) (versions vs).
Proof.
  intros Hr Hcur Hv Hs Hes Hfr. assert (Hc : c ∈ map fst (versions vs)) by (apply (rf_held _ _ _ Hr), mem_same).
  destruct (Ref_referenced _ _ _ c Hr Hc) as (vs0 & E0 & Hr0 & Ec0 & Em0 & En0 & Ed0 & Ep0 & Emap0). unfold Builder_new. rewrite Hcur. cbn [mbind option_bind]. rewrite E0. eexists _, _. split; [reflexivity|].
  set (levels := replicate (Z.to_nat kNumLevels) (∅, [])). assert (Hadd : added_all levels = []) by reflexivity.
  destruct (Builder_Apply_all_built es (mkBuilder c levels) vs0 (files_ v) s (ptrs (version_files (versions vs0)) ⊎ X) Hes) as (b & vs1 & -> & Eb & Hz & Hb & (p & m1 & -> & [Hzp Hpp] & Hn1) & Hm1).
  { done. } { rewrite Ep0. apply (rf_pointers _ _ _ Hr). } { by apply all_built_new. }
  { intros i l st El [-> _]%lookup_replicate. cbn [snd]. rewrite app_nil_r. by apply Hfr. }
  { cbn [levels_]. rewrite Hadd, ptrs_nil. apply Hr0. }
  eexists _, _. split; [reflexivity|]. split; [|cbn [current numbers descriptor_log_ memory versions set_memory set_compact_pointer]; rewrite Em0 in Hn1; split; [cbn [compact_pointer_ set_memory set_compact_pointer]; rewrite Ep0 in Hpp; split; [congruence|done]|]; do 2 (split; [congruence|]); split; [lia|done]].
  constructor; [|split; [done|]|done|done].
  - destruct Hr0 as [Hf [Hn Hlt] Hvr Hh Hsets _]. constructor; cbn [memory versions current compact_pointer_ set_memory set_compact_pointer]; [|split; [done|]|done|done|done|done].
    + eapply eq_ind; [exact Hm1|]. multiset_lia.
    + apply (Forall_impl _ _ _ Hlt). intros av Hav. cbv beta in Hav. cbn [memory set_memory set_compact_pointer] in *. lia.
  - cbn [versions set_memory set_compact_pointer]. destruct (find_files _ _ _ _ (eq_sym Emap0) Hv) as (v0 & E & Ef). by exists v0.
Qed.

Lemma files_in_memory l v c added X f : find_version c l = Some v -> f ∈ concat (files_ v) ++ added -> f_ptr f ∈ ptrs (version_files l) ⊎ (ptrs added ⊎ X).
Proof.
  intros Ev. rewrite elem_of_app, !gmultiset_elem_of_disj_union. unfold ptrs. rewrite !elem_of_list_to_set_disj, !list_elem_of_fmap. intros [Hin|Hin]; [left|right; left; by exists f].
  exists f. split; [done|]. unfold version_files. apply list_elem_of_In, in_concat. exists (concat (files_ v)). split; [|by apply list_elem_of_In]. apply in_map_iff. exists (c, v). split; [done|]. by apply list_elem_of_In, find_in.
Qed.

Lemma building_saved b vs held X c base s v' vs2 : building b vs held X c base s -> Builder_SaveTo C b Version_new vs = Some (v', vs2) ->
  version_is (dom := dom) (C := C) (files_ v') s /\ v_refs v' = 0 /\ building b vs2 held (ptrs (concat (files_ v')) ⊎ X) c base s /\
  exists m, vs2 = set_memory m vs /\ next_address m = next_address (memory vs).
Proof.
  intros [Hr [Hbase (v & Ev & Ef)] Hb Hz]. unfold Builder_SaveTo. rewrite Hbase, Ev. cbn [mbind option_bind]. rewrite Ef.
  destruct (SaveTo_levels C 0 base (levels_ b) (memory vs)) as [[files m2]|] eqn:Es; cbn [mbind option_bind]; [|done]. intros [= <- <-]. cbn [files_ v_refs set_files Version_new].
  destruct (SaveTo_levels_inv (C := C) _ _ _ _ _ _ Es) as [-> Hch]. pose proof (saved_is (dom := dom) (C := C) _ _ _ Hb Hz Hch) as Hnew.
  destruct Hr as [Hf [Hn Hlt] Hvr Hh Hsets Hp]. destruct (SaveTo_levels_some (C := C) 0 base (levels_ b) (memory vs) _ Hf) as (m2' & Es' & Hm2 & Hn2); [|done|].
  { subst base. intros f. by apply (files_in_memory _ v c). }
  rewrite Es' in Es. injection Es as <-. split; [done|]. split; [done|]. split; [|by exists m2'].
  constructor; [|split; [done|by exists v]|done|done]. constructor; cbn [memory versions current compact_pointer_ set_memory]; [|split; [done|]|done|done|done|done].
  - eapply eq_ind; [exact Hm2|]. multiset_lia.
  - by rewrite Hn2.
Qed.

(** It can be saved when there is a version of the sets. *)
Lemma building_saves b vs held X c base s files : building b vs held X c base s -> version_is (dom := dom) (C := C) files s -> is_Some (Builder_SaveTo C b Version_new vs).
Proof.
  intros [Hr [Hbase (v & Ev & Ef)] Hb Hz] Hfiles. unfold Builder_SaveTo. rewrite Hbase, Ev. cbn [mbind option_bind]. rewrite Ef.
  destruct (SaveTo_levels_some (C := C) 0 base (levels_ b) (memory vs) _ (rf_files _ _ _ Hr)) as (m' & -> & _); [| |by eexists].
  - subst base. intros f. by apply (files_in_memory _ v c).
  - apply (levels_chained_views _ files); [|by destruct Hfiles]. symmetry. by apply (saved_views (dom := dom) (C := C) _ _ s).
Qed.

Context {E Q : Type} `{!Env E} `{!ManifestFiles (F := F) E Q} (o : VersionOptions) (Ho : o_comparator o = C).

Lemma Builder_delete_referenced b vs held X c : referenced vs ({[+ c +]} ⊎ held) (ptrs (added_all (levels_ b)) ⊎ X) -> base_ b = c ->
  exists vs', Builder_delete b vs = Some vs' /\ referenced vs' held X /\ current vs' = current vs /\ numbers vs' = numbers vs /\ next_address (memory vs') = next_address (memory vs) /\
    descriptor_log_ vs' = descriptor_log_ vs /\ compact_pointer_ vs' = compact_pointer_ vs /\
    (forall b, b ∈ map fst (versions vs') -> b ∈ map fst (versions vs)) /\
    forall b v, b ∈ held -> find_version b (versions vs) = Some v -> exists n, find_version b (versions vs') = Some (set_refs n v).
Proof.
  intros Hr Hb. destruct Hr as [Hf [Hn Hlt] Hv Hh Hs Hp]. unfold Builder_delete. destruct (counted_unrefs (added_all (levels_ b)) (memory vs) (ptrs (version_files (versions vs)) ⊎ X)) as (m & Em & Hm & Hnm); [eapply eq_ind; [exact Hf|]; multiset_lia|].
  unfold added_all in Em. rewrite Em. cbn [mbind option_bind]. rewrite Hb. destruct (Unref_referenced (set_memory m vs) held X c) as (vs' & E' & Hr' & H1' & H2' & H3' & H4' & H5' & H6').
  - constructor; cbn [memory versions current compact_pointer_ set_memory]; [done| |done|done|done|done]. split; [done|]. by rewrite Hnm.
  - exists vs'. split; [done|]. split; [done|]. cbn [memory versions current compact_pointer_ set_memory numbers descriptor_log_] in *. do 2 (split; [done|]). split; [congruence|]. do 2 (split; [done|]). split; [exact (Unref_subset _ _ _ E')|done].
Qed.

(** Between its two sections [LogAndApply] holds the files of the new version. *)
Record applying (p : Applying) vs (held X : gmultiset Z) (s : nat -> gset fview) : Prop := mkApplyingOk {
  ap_referenced : referenced vs held (ptrs (concat (files_ (a_version p))) ⊎ X);
  ap_version : version_is (dom := dom) (C := C) (files_ (a_version p)) s /\ v_refs (a_version p) = 0;
  ap_address : a_address p < next_address (memory vs) /\ a_address p ∉ map fst (versions vs)
}.

Lemma Finalize_files v : files_ (Finalize v) = files_ v /\ v_refs (Finalize v) = v_refs v.
Proof. unfold Finalize. by destruct (Finalize_loop _ _ _ _). Qed.

Lemma set_descriptor_referenced w vs held X : referenced vs held X -> referenced (set_descriptor w vs) held X.
Proof. by intros [? ? ? ? ? ?]. Qed.

Lemma set_numbers_referenced n vs held X : referenced vs held X -> referenced (set_numbers n vs) held X.
Proof. by intros [? ? ? ? ? ?]. Qed.

Lemma set_descriptor_applying w p vs held X s : applying p vs held X s -> applying p (set_descriptor w vs) held X s.
Proof. intros [? ? ?]. constructor; [by apply set_descriptor_referenced|done|done]. Qed.

Lemma begin_applying edit env vs held X c v s p env' vs' : referenced vs ({[+ c +]} ⊎ held) X -> current vs = Some c -> find_version c (versions vs) = Some v -> version_is (dom := dom) (C := C) (files_ v) s ->
  numbers_ok (numbers vs) -> edit_wf (dom := dom) (C := C) edit -> (forall i l, files_ v !! i = Some l -> NoDup (file_numbers l ++ map number (news_at i (new_files_ edit)))) ->
  LogAndApply_begin o edit env vs = Some (p, env', vs') ->
  applying p vs' ({[+ c +]} ⊎ held) X (fun i => edit_level i edit (s i)) /\ (current vs' = Some c /\ (pointers_ok (compact_pointer_ vs) -> pointers_ok (compact_pointer_ vs'))) /\ numbers vs' = numbers vs /\
  (forall b v0, b ∈ {[+ c +]} ⊎ held -> find_version b (versions vs) = Some v0 -> exists w, find_version b (versions vs') = Some w /\ files_ w = files_ v0) /\ LogAndApply_numbers edit (numbers vs) = Some (a_edit p) /\
  match descriptor_log_ vs with
  | Some w => descriptor_log_ vs' = Some w /\ a_status p = OK /\ a_new_manifest p = None /\ env' = env
  | None => exists name st f, a_new_manifest p = Some name /\ DescriptorFileName (o_dbname o) (manifest_file_number (numbers vs)) = Some name /\ NewWritableFile (Q := Q) name env = (st, f, env') /\
      if ok st then exists w, descriptor_log_ vs' = Some w /\ WriteSnapshot o (Writer_new f) (set_descriptor None vs') = Some (a_status p, w) else a_status p = st /\ descriptor_log_ vs' = None
  end.
Proof.
  intros Hr Hcur Hv Hs Hnum He Hfr. unfold LogAndApply_begin. destruct (LogAndApply_numbers edit (numbers vs)) as [edit'|] eqn:En; cbn [mbind option_bind]; [|done].
  destruct (LogAndApply_numbers_spec _ _ _ En He Hnum) as (He' & _ & (Enew & Edel & Eptr) & _ & Enext & _). set (a := next_address (memory vs)).
  set (vsa := set_memory (mkMemory (counters (memory vs)) (a + 1)) vs). assert (Hra : referenced vsa ({[+ c +]} ⊎ held) X).
  { destruct Hr as [[Hf1 Hf2] [Hn Hlt] Hvr Hh Hsets Hp]. constructor; cbn [memory versions current compact_pointer_ set_memory vsa]; [split; [done|]|split; [done|]|done..].
    - intros q Hq. specialize (Hf2 q Hq). cbn. lia.
    - apply (Forall_impl _ _ _ Hlt). intros av Hav. cbv beta in Hav. cbn. lia. }
  assert (Hna : a ∉ map fst (versions vs)). { intros (av & Ea & Hav)%list_elem_of_fmap. destruct (rf_addresses _ _ _ Hr) as [_ Hlt]. rewrite Forall_forall in Hlt. specialize (Hlt av Hav). cbv beta in Hlt. lia. }
  destruct (building_starts [edit'] vsa held X c v s Hra Hcur Hv Hs) as (b0 & vs0 & -> & b & vs1 & Eall & Hb1 & [Hcur1 Hpp1] & Hnum1 & Hd1 & Hn1 & Hmap1); [by constructor| |].
  { intros i l El. unfold new_numbers. cbn [map concat]. rewrite app_nil_r, Enew. by apply Hfr. }
  cbn [mbind option_bind]. cbn [Builder_Apply_all] in Eall. rewrite Ho. destruct (Builder_Apply C edit' b0 vs0) as [[b1 vs1']|]; cbn [mbind option_bind] in *; [|done]. injection Eall as -> ->.
  destruct (Builder_SaveTo C b Version_new vs1) as [[v' vs2]|] eqn:Es; cbn [mbind option_bind]; [|done]. destruct (building_saved _ _ _ _ _ _ _ _ _ Hb1 Es) as (Hset & Hrefs & Hb2 & m2 & -> & Hm2).
  destruct (Builder_delete_referenced _ _ _ _ _ (bl_referenced _ _ _ _ _ _ _ Hb2) (proj1 (bl_base _ _ _ _ _ _ _ Hb2))) as (vs3 & -> & Hr3 & Hcur3 & Hnum3 & Hn3 & Hd3 & Hp3 & Hsub3 & Hfind3). cbn [mbind option_bind]. destruct (Finalize_files v') as [Ff Fr].
  cbn [current numbers descriptor_log_ versions memory set_memory] in Hcur3, Hnum3, Hd3, Hn3, Hsub3, Hfind3. rewrite Hcur1 in Hcur3. rewrite Hnum1 in Hnum3. rewrite Hd1 in Hd3. change (numbers vsa) with (numbers vs) in Hnum3. change (descriptor_log_ vsa) with (descriptor_log_ vs) in Hd3.
  assert (Hedit : SetNextFile (next_file_number (numbers vs3)) edit' = edit').
  { rewrite Hnum3. revert En. unfold LogAndApply_numbers. clear. destruct (if has_log_number_ edit then _ else _) as [e|]; [|done]. cbn [mbind option_bind]. intros [= <-]. destruct (negb _), e; done. }
  assert (Hwhere : forall b v0, b ∈ {[+ c +]} ⊎ held -> find_version b (versions vs) = Some v0 -> exists w, find_version b (versions vs3) = Some w /\ files_ w = files_ v0).
  { intros b' v0 Hb Ev0. destruct (find_files b' (versions vsa) (versions vs1) v0) as (w & Ew & Ef); [by rewrite Hmap1|done|]. destruct (Hfind3 b' w Hb Ew) as (n & E3). by exists (set_refs n w). }
  assert (Hap : forall st nm, applying (mkApplying edit' a (Finalize v') st nm) vs3 ({[+ c +]} ⊎ held) X (fun i => edit_level i edit (s i))).
  { intros st nm. constructor; cbn [a_version a_address]; [by rewrite Ff|rewrite Ff, Fr; split; [|done]|].
    - apply (version_is_ext _ _ _) with (2 := Hset). intros i. unfold edits_level. cbn [fold_left]. unfold edit_level. by rewrite Enew, Edel.
    - split; [cbn in Hn1; lia|]. intros Hin%Hsub3. apply Hna. assert (Hfst : map fst (versions vs1) = map fst (versions vsa)) by (apply (f_equal (map fst)) in Hmap1; rewrite !map_map in Hmap1; exact Hmap1). by rewrite Hfst in Hin. }
  rewrite Hd3. change (descriptor_log_ vsa) with (descriptor_log_ vs). destruct (descriptor_log_ vs) as [w|] eqn:Ed.
  - intros [= <- <- <-]. split; [apply Hap|]. split; [split; [congruence|by rewrite Hp3]|]. split; [by rewrite Hnum3|]. split; [done|]. split; [done|]. split; [|done]. by rewrite Hd3.
  - rewrite Hnum3. change (numbers vsa) with (numbers vs). destruct (DescriptorFileName _ _) as [name|] eqn:En'; cbn [mbind option_bind]; [|done]. rewrite Hnum3 in Hedit. change (numbers vsa) with (numbers vs) in Hedit. rewrite Hedit.
    destruct (NewWritableFile name env) as [[st f] env1] eqn:Ew. destruct (ok st) eqn:Eok.
    + destruct (WriteSnapshot o (Writer_new f) vs3) as [[st' w]|] eqn:Esn; cbn [mbind option_bind]; [|done]. intros [= <- <- <-].
      split; [by apply set_descriptor_applying|]. cbn [current numbers versions set_descriptor a_new_manifest a_edit compact_pointer_]. split; [split; [congruence|by rewrite Hp3]|]. split; [by rewrite Hnum3|]. split; [done|]. split; [done|].
      exists name, st, f. do 3 (split; [done|]). rewrite Eok. exists w. split; [done|]. exact Esn.
    + intros [= <- <- <-]. split; [apply Hap|]. split; [split; [congruence|by rewrite Hp3]|]. split; [by rewrite Hnum3|]. split; [done|]. split; [done|]. exists name, st, f. do 3 (split; [done|]). rewrite Eok. split; [done|]. by rewrite Hd3.
Qed.
End Refs.
