(* ===== verification/LdbVersionShare.v ===== *)
(** * Readers and the writer of versions (theorems about LdbVersionSet.v)

    The calls on a set of versions as steps: readers take the current version and release
    what they hold, one call of [LogAndApply] at a time makes a version with the mutex,
    writes the manifest without it, and installs the version with the mutex again. In
    every state that is reached the counters are the numbers of the references, so no
    reader loses a file and nothing is kept that no one uses. *)

From Stdlib Require Import Sorted SpecFloat.
From stdpp Require Import strings list gmap gmultiset relations.
From S2P Require Import Prelude Words LdbCoding LdbEnv LdbLog LdbBatch LdbRecovery LdbKeys LdbWrite LdbVersionEdit LdbFilename LdbVersion LdbVersionSet LdbVersionBuild LdbVersionRefs.

(** ** Steps *)

(** Where [LogAndApply] is: before it, while the manifest is written, and after that. *)
Inductive Phase := Idle | Writing (p : Applying) | Written (p : Applying) (s : Status).

Definition held_versions (l : list (Z * list (list File))) : gmultiset Z := list_to_set_disj (map fst l).

Section Share.
Context {dom : list Z -> Prop} {C : Comparator} `{ComparatorLaws dom C} {F : Type} `{WritableFile F} `{!Syncable F} {E Q : Type} `{!Env E} `{!ManifestFiles (F := F) E Q} (o : VersionOptions) (Ho : o_comparator o = C).
Implicit Types vs : VersionSet F.

(** The set, the versions that readers hold with the files they saw, and the writer. *)
Record Sharing := mkSharing { sh_set : VersionSet F; sh_held : list (Z * list (list File)); sh_phase : Phase }.

(** The numbers of an edit's new files are not used in their levels. *)
Definition fresh_edit (files : list (list File)) (edit : VersionEdit) : Prop :=
  forall i l, files !! i = Some l -> NoDup (file_numbers l ++ map number (news_at i (new_files_ edit))).

Inductive sharing : Sharing -> Sharing -> Prop :=
| share_ref vs vs' a v held phase : current vs = Some a -> find_version a (versions vs) = Some v -> Version_Ref a vs = Some vs' ->
    sharing (mkSharing vs held phase) (mkSharing vs' ((a, files_ v) :: held) phase)
| share_unref vs vs' a files held1 held2 phase : Version_Unref a vs = Some vs' ->
    sharing (mkSharing vs (held1 ++ (a, files) :: held2) phase) (mkSharing vs' (held1 ++ held2) phase)
| share_numbers vs n held phase : numbers_ok n -> sharing (mkSharing vs held phase) (mkSharing (set_numbers n vs) held phase)
| share_pointers vs ptrs held phase : zlen ptrs = kNumLevels -> sharing (mkSharing vs held phase) (mkSharing (set_compact_pointer ptrs vs) held phase)
| share_begin vs vs' v edit env env' p held : current_version vs = Some v -> edit_wf (dom := dom) (C := C) edit -> fresh_edit (files_ v) edit -> LogAndApply_begin o edit env vs = Some (p, env', vs') ->
    sharing (mkSharing vs held Idle) (mkSharing vs' held (Writing p))
| share_write vs p s log env env' n held : LogAndApply_write o p n (descriptor_log_ vs) env = Some (s, log, env') ->
    sharing (mkSharing vs held (Writing p)) (mkSharing (set_descriptor log vs) held (Written p s))
| share_end vs vs' p s env env' held : LogAndApply_end p s env vs = Some (env', vs') ->
    sharing (mkSharing vs held (Written p s)) (mkSharing vs' held Idle).

(** ** The invariant *)

Definition pending (phase : Phase) : option Applying := match phase with Idle => None | Writing p | Written p _ => Some p end.

(** The version that is being made has references to its files, and to nothing else. *)
Definition pending_ok (phase : Phase) (vs : VersionSet F) (held : gmultiset Z) : Prop :=
  match pending phase with
  | None => referenced (dom := dom) (C := C) vs held ∅
  | Some p => edit_wf (dom := dom) (C := C) (a_edit p) /\ exists s, applying (dom := dom) (C := C) p vs held ∅ s
  end.

(** The version that a reader holds is alive and has the files it saw. *)
Definition sees (l : list (Z * Version)) (h : Z * list (list File)) : Prop := exists v, find_version (fst h) l = Some v /\ files_ v = snd h.

Record shared (st : Sharing) : Prop := mkShared {
  sd_current : exists c, current (sh_set st) = Some c /\ pending_ok (sh_phase st) (sh_set st) ({[+ c +]} ⊎ held_versions (sh_held st));
  sd_held : Forall (sees (versions (sh_set st))) (sh_held st);
  sd_numbers : numbers_ok (numbers (sh_set st))
}.

Definition pending_files (phase : Phase) : list File := match pending phase with None => [] | Some p => concat (files_ (a_version p)) end.

Lemma pending_referenced phase vs held : pending_ok phase vs held -> referenced (dom := dom) (C := C) vs held (ptrs (pending_files phase) ⊎ ∅).
Proof. unfold pending_ok, pending_files. destruct (pending phase) as [p|]; [intros (_ & s & [Ha _ _]); exact Ha|]. by rewrite ptrs_nil. Qed.

(** What keeps the addresses of versions apart keeps the pending one apart. *)
Lemma pending_kept phase vs vs' held held' : pending_ok phase vs held -> referenced (dom := dom) (C := C) vs' held' (ptrs (pending_files phase) ⊎ ∅) ->
  next_address (memory vs) <= next_address (memory vs') -> (forall b, b ∈ map fst (versions vs') -> b ∈ map fst (versions vs)) -> pending_ok phase vs' held'.
Proof.
  unfold pending_ok, pending_files. destruct (pending phase) as [p|]; [|by rewrite ptrs_nil]. intros (He & s & [Ha Hv [Hlt Hn]]) Hr Hle Hsub. split; [done|]. exists s. constructor; [done|done|]. split; [lia|auto].
Qed.

Lemma held_cons a files l : held_versions ((a, files) :: l) = {[+ a +]} ⊎ held_versions l.
Proof. done. Qed.

Lemma held_middle a files l k : held_versions (l ++ (a, files) :: k) = {[+ a +]} ⊎ held_versions (l ++ k).
Proof. unfold held_versions. rewrite !map_app, !list_to_set_disj_app. cbn [map fst list_to_set_disj]. multiset_lia. Qed.

Lemma held_elem a files l : (a, files) ∈ l -> a ∈ held_versions l.
Proof. intros Hin. unfold held_versions. rewrite elem_of_list_to_set_disj. apply list_elem_of_fmap. by exists (a, files). Qed.

Lemma sees_kept l l' hs (held : gmultiset Z) : Forall (sees l) hs -> (forall h, h ∈ hs -> fst h ∈ held) ->
  (forall b v, b ∈ held -> find_version b l = Some v -> exists w, find_version b l' = Some w /\ files_ w = files_ v) -> Forall (sees l') hs.
Proof.
  intros Hs Hh Hk. rewrite Forall_forall in Hs |- *. intros h Hin. destruct (Hs h Hin) as (v & Ev & Ef). destruct (Hk _ _ (Hh h Hin) Ev) as (w & Ew & Ef'). exists w. split; [done|congruence].
Qed.

Lemma current_found vs c held X : referenced (dom := dom) (C := C) vs ({[+ c +]} ⊎ held) X -> exists v s, find_version c (versions vs) = Some v /\ version_is (dom := dom) (C := C) (files_ v) s.
Proof.
  intros Hr. destruct (find_held _ _ _ _ Hr (rf_held _ _ _ Hr c (mem_same _ _))) as (l1 & v & l2 & El & _ & Ef). exists v. pose proof (rf_sets _ _ _ Hr) as Hs. rewrite Forall_forall in Hs.
  destruct (Hs (c, v)) as [s Hv]; [rewrite El; apply elem_of_app; right; apply elem_of_cons; by left|]. by exists s.
Qed.

Lemma refs_kept l l' (held : gmultiset Z) : (forall b v, b ∈ held -> find_version b l = Some v -> exists n, find_version b l' = Some (set_refs n v)) ->
  forall b v, b ∈ held -> find_version b l = Some v -> exists w, find_version b l' = Some w /\ files_ w = files_ v.
Proof. intros Hk b v Hb Ev. destruct (Hk b v Hb Ev) as [n En]. by exists (set_refs n v). Qed.

Lemma Version_delete_pending v vs held X : referenced (dom := dom) (C := C) vs held (ptrs (concat (files_ v)) ⊎ X) -> v_refs v = 0 ->
  exists m, Version_delete v (memory vs) = Some m /\ referenced (dom := dom) (C := C) (set_memory m vs) held X.
Proof.
  intros [Hf [Hn Hlt] Hv Hh Hs Hp] Hr. unfold Version_delete. rewrite Hr. cbn [Z.eqb]. destruct (counted_drop (concat (files_ v)) (memory vs) (ptrs (version_files (versions vs)) ⊎ X)) as (m & -> & Hm & Em); [eapply eq_ind; [exact Hf|]; multiset_lia|].
  exists m. split; [done|]. constructor; cbn [memory versions current compact_pointer_ set_memory]; [done| |done..]. split; [done|]. by rewrite Em.
Qed.

Lemma set_pointers_ok phase p vs held : pending_ok phase vs held -> zlen p = kNumLevels -> pending_ok phase (set_compact_pointer p vs) held.
Proof.
  intros Hp Hz. apply (pending_kept _ _ _ _ _ Hp); [|done|done]. by destruct (pending_referenced _ _ _ Hp).
Qed.

Lemma set_numbers_ok phase n vs held : pending_ok phase vs held -> pending_ok phase (set_numbers n vs) held.
Proof. intros Hp. apply (pending_kept _ _ _ _ _ Hp); [|done|done]. by destruct (pending_referenced _ _ _ Hp). Qed.

Lemma set_descriptor_ok phase w vs held : pending_ok phase vs held -> pending_ok phase (set_descriptor w vs) held.
Proof. intros Hp. apply (pending_kept _ _ _ _ _ Hp); [|done|done]. by destruct (pending_referenced _ _ _ Hp). Qed.

(** A reader takes the current version, and releases what it holds. *)
Lemma ref_shared vs vs' a v held phase : shared (mkSharing vs held phase) -> current vs = Some a -> find_version a (versions vs) = Some v -> Version_Ref a vs = Some vs' ->
  shared (mkSharing vs' ((a, files_ v) :: held) phase).
Proof.
  intros [(c & Ec & Hp) Hs Hn] Ecur Ev Er. cbn [sh_set sh_held sh_phase] in *. assert (a = c) as -> by congruence. pose proof (pending_referenced _ _ _ Hp) as Hr.
  destruct (Ref_referenced _ _ _ c Hr (rf_held _ _ _ Hr c (mem_same _ _))) as (vs1 & E1 & Hr1 & Ec1 & Em1 & En1 & _ & _ & Emap). rewrite E1 in Er. injection Er as <-.
  assert (Hkeep : forall b w, find_version b (versions vs) = Some w -> exists w', find_version b (versions vs1) = Some w' /\ files_ w' = files_ w) by (intros b w; apply find_files; done).
  constructor; cbn [sh_set sh_held sh_phase]; [|constructor|congruence].
  - exists c. split; [congruence|]. rewrite held_cons. apply (pending_kept _ _ _ _ _ Hp); [done|rewrite Em1; lia|]. intros b Hb.
    assert (Efst : map fst (versions vs1) = map fst (versions vs)) by (apply (f_equal (map fst)) in Emap; rewrite !map_map in Emap; exact Emap). by rewrite Efst in Hb.
  - cbn [fst snd]. destruct (Hkeep c v Ev) as (w & Ew & Ef). by exists w.
  - apply (sees_kept (versions vs) _ _ (held_versions held)); [done| |intros b w _; apply Hkeep]. intros [b files] Hin. by apply held_elem in Hin.
Qed.

Lemma unref_shared vs vs' a files held1 held2 phase : shared (mkSharing vs (held1 ++ (a, files) :: held2) phase) -> Version_Unref a vs = Some vs' ->
  shared (mkSharing vs' (held1 ++ held2) phase).
Proof.
  intros [(c & Ec & Hp) Hs Hn] Eu. cbn [sh_set sh_held sh_phase] in *. rewrite held_middle in Hp. pose proof (pending_referenced _ _ _ Hp) as Hr. rewrite (assoc_L (⊎)), (comm_L (⊎) {[+ c +]}), <- (assoc_L (⊎)) in Hr.
  destruct (Unref_referenced _ _ _ _ Hr) as (vs1 & E1 & Hr1 & Ec1 & En1 & Em1 & _ & _ & Hk). rewrite E1 in Eu. injection Eu as <-.
  constructor; cbn [sh_set sh_held sh_phase]; [| |congruence].
  - exists c. split; [congruence|]. apply (pending_kept _ _ _ _ _ Hp); [done|lia|]. by apply (Unref_subset a).
  - apply Forall_app in Hs as [Hs1 [_ Hs2]%Forall_cons_1]. apply (sees_kept (versions vs) _ _ _ (Forall_app_2 _ _ _ Hs1 Hs2)) with (2 := refs_kept _ _ _ Hk). intros [b fs] Hin%held_elem. apply gmultiset_elem_of_disj_union. by right.
Qed.

(** [LogAndApply] makes a version, and installs or deletes it. *)
Lemma begin_shared vs vs' v edit env env' p held : shared (mkSharing vs held Idle) -> current_version vs = Some v -> edit_wf (dom := dom) (C := C) edit -> fresh_edit (files_ v) edit ->
  LogAndApply_begin o edit env vs = Some (p, env', vs') -> shared (mkSharing vs' held (Writing p)).
Proof.
  intros [(c & Ec & Hr) Hs Hn] Ev He Hfr Eb. cbn [sh_set sh_held sh_phase pending_ok pending] in *. unfold pending_ok in Hr. cbn [pending] in Hr. destruct (current_found _ _ _ _ Hr) as (v' & s & Ev' & Hset).
  unfold current_version in Ev. rewrite Ec in Ev. cbn [mbind option_bind] in Ev. assert (v' = v) as -> by congruence.
  destruct (begin_applying o Ho edit env vs _ _ c v s p env' vs' Hr Ec Ev Hset Hn He Hfr Eb) as (Hap & [Ec' _] & En' & Hk & Ea & _).
  constructor; cbn [sh_set sh_held sh_phase]; [| |congruence].
  - exists c. split; [done|]. split; [|by eexists]. by destruct (LogAndApply_numbers_spec _ _ _ Ea He Hn).
  - apply (sees_kept (versions vs) _ _ _ Hs) with (2 := Hk). intros [b fs] Hin%held_elem. apply gmultiset_elem_of_disj_union. by right.
Qed.

Lemma edit_numbers_ok e n : edit_wf (dom := dom) (C := C) e -> numbers_ok n -> numbers_ok (mkNumbers (next_file_number n) (manifest_file_number n) (last_sequence n) (log_number_ e) (prev_log_number_ e)).
Proof. intros [[_ [[Hl Hp] _] _ _ _ _] _] ((? & ?) & ? & ?). done. Qed.

Lemma end_shared vs p s env held : shared (mkSharing vs held (Written p s)) ->
  exists env' vs', LogAndApply_end p s env vs = Some (env', vs') /\ shared (mkSharing vs' held Idle) /\
    if ok s then (exists v, current_version vs' = Some v /\ files_ v = files_ (a_version p)) /\ descriptor_log_ vs' = descriptor_log_ vs /\
      numbers vs' = mkNumbers (next_file_number (numbers vs)) (manifest_file_number (numbers vs)) (last_sequence (numbers vs)) (log_number_ (a_edit p)) (prev_log_number_ (a_edit p))
    else current vs' = current vs.
Proof.
  intros [(c & Ec & He & l & [Hr [Hset H0'] [Hlt Hna]]) Hs Hn]. cbn [sh_set sh_held sh_phase pending] in *. unfold LogAndApply_end. destruct (ok s).
  - destruct (AppendVersion_referenced (a_address p) (a_version p) vs (held_versions held) ∅ c Hr Ec H0' Hlt Hna) as (vs1 & -> & Hr1 & Ec1 & Ea1 & En1 & _ & Ed1 & _ & Hk); [by exists l|]. cbn [mbind option_bind]. eexists _, _. split; [reflexivity|]. split.
    + constructor; cbn [sh_set sh_held sh_phase].
      * exists (a_address p). split; [done|]. by apply (set_numbers_ok Idle).
      * apply (sees_kept (versions vs) _ _ _ Hs) with (2 := refs_kept _ _ _ Hk). intros [b fs] Hin. by apply held_elem in Hin.
      * rewrite En1. by apply edit_numbers_ok.
    + split; [|split; [exact Ed1|by cbn [numbers set_numbers]; rewrite En1]]. exists (set_refs 1 (a_version p)). split; [|done]. unfold current_version. cbn [current versions set_numbers]. by rewrite Ec1.
  - destruct (Version_delete_pending (a_version p) vs _ _ Hr H0') as (m & -> & Hm). cbn [mbind option_bind].
    assert (Hsh : forall w, shared (mkSharing (set_descriptor w (set_memory m vs)) held Idle)) by (intros w; constructor; [exists c; split; [done|]; by apply (set_descriptor_ok Idle)|done|done]).
    destruct (a_new_manifest p) as [name|]; eexists _, _; (split; [reflexivity|]; split; [|done]); [apply Hsh|]. specialize (Hsh (descriptor_log_ vs)). exact Hsh.
Qed.

Lemma sharing_shared st st' : sharing st st' -> shared st -> shared st'.
Proof.
  intros Hst Hsh. destruct Hst as [vs vs' a v held phase Ec Ev Er|vs vs' a files held1 held2 phase Eu|vs n held phase Hn|vs ps held phase Hz|vs vs' v edit env env' p held Ev He Hfr Eb|vs p s log env env' n held Ew|vs vs' p s env env' held Ee].
  - by apply (ref_shared vs vs' a v).
  - by apply (unref_shared vs vs' a files).
  - destruct Hsh as [(c & Ec & Hp) Hs _]. constructor; [exists c; split; [done|]; by apply set_numbers_ok|done|done].
  - destruct Hsh as [(c & Ec & Hp) Hs Hn]. constructor; [exists c; split; [done|]; by apply set_pointers_ok|done|done].
  - by apply (begin_shared vs vs' v edit env env' p).
  - destruct Hsh as [(c & Ec & Hp) Hs Hn]. constructor; [exists c; split; [done|]; by apply (set_descriptor_ok (Written p s))|done|done].
  - destruct (end_shared _ _ _ env _ Hsh) as (env1 & vs1 & E1 & Hsh' & _). congruence.
Qed.

Lemma VersionSet_new_shared : exists vs : VersionSet F, VersionSet_new = Some vs /\ shared (mkSharing vs [] Idle) /\ files_ <$> current_version vs = Some (files_ Version_new).
Proof.
  clear Ho. eexists. split; [reflexivity|]. split; [|reflexivity]. constructor; cbn [sh_set sh_held sh_phase]; [|apply Forall_nil_2|by repeat split]. exists 0. split; [done|]. unfold pending_ok. cbn [pending]. constructor.
  - change (counted (mkMemory ∅ 1) (ptrs [] ⊎ ∅)). rewrite ptrs_nil. split; [intros p; by rewrite decide_False by multiset_solver|intros p Hp; multiset_solver].
  - split; [apply NoDup_singleton|]. by repeat constructor.
  - repeat constructor.
  - intros a. change (a ∈ {[+ 0 +]} ⊎ held_versions [] -> a ∈ [0]). intros [Ha|Ha]%gmultiset_elem_of_disj_union; [by apply gmultiset_elem_of_singleton in Ha as ->; apply list_elem_of_singleton|by apply gmultiset_not_elem_of_empty in Ha].
  - repeat constructor. exists (fun _ => ∅). apply version_is_new.
  - done.
Qed.

Lemma reached_shared vs st : VersionSet_new = Some vs -> rtc sharing (mkSharing vs [] Idle) st -> shared st.
Proof.
  intros Hnew Hsteps. destruct VersionSet_new_shared as (vs0 & E0 & Hsh & _). assert (vs0 = vs) as -> by congruence. induction Hsteps as [|st1 st2 st3 Hst _ IH]; [done|]. apply IH. by apply (sharing_shared st1).
Qed.

(** ** What is held is alive, what is not held is not *)

(** All references to files: those of the versions, and of the one that is being made. *)
Definition file_references (st : Sharing) : gmultiset Z := ptrs (version_files (versions (sh_set st)) ++ pending_files (sh_phase st)).

Lemma shared_counted st : shared st -> counted (memory (sh_set st)) (file_references st).
Proof.
  intros [(c & _ & Hp) _ _]. destruct (rf_files _ _ _ (pending_referenced _ _ _ Hp)) as [Hc Hn]. unfold file_references. eapply eq_ind; [exact (conj Hc Hn)|]. multiset_lia.
Qed.

Lemma held_can_be_released vs held X a : referenced (dom := dom) (C := C) vs held X -> a ∈ held -> exists vs', Version_Unref a vs = Some vs'.
Proof.
  clear Ho. intros Hr Ha. assert (E1 : held = {[+ a +]} ⊎ (held ∖ {[+ a +]})) by (apply gmultiset_disj_union_difference; multiset_solver). rewrite E1 in Hr. destruct (Unref_referenced _ _ _ _ Hr) as (vs' & Eu & _). by exists vs'.
Qed.

Lemma shared_alone st : shared st -> sh_held st = [] -> exists a v, current (sh_set st) = Some a /\ versions (sh_set st) = [(a, v)].
Proof.
  intros [(c & Ec & Hp) _ _] Hh. rewrite Hh in Hp. pose proof (pending_referenced _ _ _ Hp) as Hr. destruct (find_held _ _ _ _ Hr (rf_held _ _ _ Hr c (mem_same _ _))) as (l1 & v & l2 & El & _).
  pose proof (rf_versions _ _ _ Hr) as Hv. assert (Hall : forall av, av ∈ versions (sh_set st) -> fst av = c).
  { intros av Hav. rewrite Forall_forall in Hv. destruct (Hv av Hav) as [Hm Hpos]. destruct (decide (fst av = c)) as [|Hne]; [done|]. rewrite mult_other in Hm by done. unfold held_versions in Hm. cbn [map list_to_set_disj] in Hm. rewrite multiplicity_empty in Hm. lia. }
  destruct (rf_addresses _ _ _ Hr) as [Hn _]. rewrite El in Hn, Hall |- *. rewrite map_app in Hn. cbn [map fst] in Hn. apply NoDup_app in Hn as (_ & Hd & [Hn2 _]%NoDup_cons).
  destruct l1 as [|[a1 v1] l1]; [|exfalso; assert (a1 = c) as -> by (apply (Hall (a1, v1)), elem_of_cons; by left); apply (Hd c); apply elem_of_cons; by left].
  destruct l2 as [|[a2 v2] l2]; [by exists c, v|]. exfalso. assert (a2 = c) as -> by (apply (Hall (a2, v2)); cbn; rewrite !elem_of_cons; auto). apply Hn2. apply elem_of_cons. by left.
Qed.
End Share.

(** C7. However readers and the writer of versions interleave: the counter of each file in memory is the number of
    references that the versions and the one being made have to it, and no other file is in
    memory; a version that a reader holds is alive with the files the reader saw, all of
    them in memory, and can be released without an assertion failing; when a call has
    written the manifest its version can be installed or deleted; and once no reader holds
    a version, the current one is the only one left. *)
Theorem versions_are_shared_safely dom C F E Q o (vs : VersionSet F) st `{ComparatorLaws dom C} `{WritableFile F} `{!Syncable F} `{!Env E} `{!ManifestFiles (F := F) E Q} :
  o_comparator o = C -> VersionSet_new = Some vs -> rtc (sharing (dom := dom) (C := C) (E := E) (Q := Q) o) (mkSharing vs [] Idle) st ->
  (forall p, fst <$> counters (memory (sh_set st)) !! p = if decide (p ∈ file_references st) then Some (Z.of_nat (multiplicity p (file_references st))) else None) /\
  (forall a files, (a, files) ∈ sh_held st -> (exists v, find_version a (versions (sh_set st)) = Some v /\ files_ v = files) /\
    (forall f, f ∈ concat files -> is_Some (counters (memory (sh_set st)) !! f_ptr f)) /\ exists vs', Version_Unref a (sh_set st) = Some vs') /\
  (forall p s (env : E), sh_phase st = Written p s -> exists env' vs', LogAndApply_end p s env (sh_set st) = Some (env', vs')) /\
  (sh_held st = [] -> exists a v, current (sh_set st) = Some a /\ versions (sh_set st) = [(a, v)]).
Proof.
  intros Ho Hnew Hsteps. pose proof (reached_shared o Ho _ _ Hnew Hsteps) as Hsh. pose proof (shared_counted _ Hsh) as Hcnt. split; [exact (proj1 Hcnt)|]. split; [|split].
  - intros a files Hin. pose proof (sd_held _ Hsh) as Hs. rewrite Forall_forall in Hs. destruct (Hs _ Hin) as (v & Ev & Ef). cbn [fst snd] in *. split; [by exists v|]. split.
    + intros f Hf. destruct (counted_lookup _ _ (f_ptr f) Hcnt) as [seeks ->]; [|by eexists]. unfold file_references, ptrs. rewrite elem_of_list_to_set_disj. apply list_elem_of_fmap. exists f. split; [done|]. apply elem_of_app. left.
      unfold version_files. apply list_elem_of_In, in_concat. exists (concat files). split; [|by apply list_elem_of_In]. apply in_map_iff. exists (a, v). cbn [snd]. split; [by rewrite Ef|]. by apply list_elem_of_In, find_in.
    + destruct (sd_current _ Hsh) as (c & _ & Hp). eapply held_can_be_released; [exact (pending_referenced _ _ _ Hp)|]. apply gmultiset_elem_of_disj_union. right. by apply (held_elem a files).
  - intros p s env Hph. destruct st as [vs' held phase]. cbn [sh_phase sh_set] in *. subst phase. destruct (end_shared _ _ _ env _ Hsh) as (env' & vs1 & E1 & _). by exists env', vs1.
  - by eapply shared_alone.
Qed.

(** ** A run *)

(** Files in memory by their names. *)
Definition directory : Type := gmap (list Z) (list Z).
#[export] Instance directory_env : Env directory := {
  WriteStringToFileSync data name env := (OK, <[name := data]> env);
  ReadFileToString name env := match env !! name with Some data => (OK, data) | None => (NotFound "no file", []) end;
  RenameFile src target env := match env !! src with Some data => (OK, <[target := data]> (delete src env)) | None => (NotFound "no file", env) end;
  RemoveFile_named name env := delete name env
}.
#[export] Instance directory_manifests : ManifestFiles (F := list Z) directory (list Z) := {
  NewWritableFile name env := (OK, [], <[name := []]> env);
  NewAppendableFile name env := (OK, default [] (env !! name), env);
  NewSequentialFile name env := match env !! name with Some data => (OK, data) | None => (NotFound "no file", []) end;
  GetFileSize name env := (OK, zlen (default [] (env !! name)))
}.

Definition sample_versions : VersionOptions := mkVersionOptions BytewiseComparator (text "leveldb.BytewiseComparator") (text "db") 2097152 false.
Definition sample_start : VersionSet (list Z) := default (mkVersionSet (mkNumbers 0 0 0 0 0) None [] None [] (mkMemory ∅ 0)) VersionSet_new.
Definition sample_numbers : Numbers := mkNumbers 7 2 40 3 0.
(** A reader takes the empty version; the writer makes a version of one file and a manifest, and installs it; another reader takes it. *)
Definition sample_taken : VersionSet (list Z) := default sample_start (Version_Ref 0 (set_numbers sample_numbers sample_start)).
Definition sample_begun : Applying * directory * VersionSet (list Z) :=
  default (mkApplying sample_add 0 Version_new OK None, ∅, sample_taken) (LogAndApply_begin (Q := list Z) sample_versions sample_add ∅ sample_taken).
Definition sample_written : Status * option (Writer (list Z)) * directory :=
  default (OK, None, ∅) (LogAndApply_write sample_versions (fst (fst sample_begun)) 2 (descriptor_log_ (snd sample_begun)) (snd (fst sample_begun))).
Definition sample_ended : VersionSet (list Z) :=
  default sample_start (snd <$> LogAndApply_end (fst (fst sample_begun)) OK (snd sample_written) (set_descriptor (snd (fst sample_written)) (snd sample_begun))).
Definition sample_shared : Sharing (F := list Z) := mkSharing sample_ended [(0, files_ Version_new)] Idle.

Lemma sample_run : rtc (sharing (dom := bytes_ok) (C := BytewiseComparator) (E := directory) (Q := list Z) sample_versions) (mkSharing sample_start [] Idle) sample_shared.
Proof.
  eapply rtc_l; [apply (share_numbers _ _ sample_numbers); by repeat split|].
  eapply rtc_l; [apply (share_ref _ _ sample_taken 0 (set_refs 1 Version_new)); vm_compute; reflexivity|].
  eapply rtc_l; [eapply (share_begin _ _ (snd sample_begun) (set_refs 2 Version_new) sample_add ∅ (snd (fst sample_begun)) (fst (fst sample_begun)))|].
  1: vm_compute; reflexivity.
  3: vm_compute; reflexivity.
  2: { intros i l [-> _]%lookup_replicate. destruct i as [|i]; [apply NoDup_singleton|constructor]. }
  { exact sample_add_wf. }
  eapply rtc_l; [apply (share_write _ _ _ OK (snd (fst sample_written)) (snd (fst sample_begun)) (snd sample_written) 2); vm_compute; reflexivity|].
  eapply rtc_once, (share_end _ _ sample_ended _ OK (snd sample_written)). vm_compute; reflexivity.
Qed.

Lemma versions_are_shared_safely_witness :
  rtc (sharing (dom := bytes_ok) (C := BytewiseComparator) (E := directory) (Q := list Z) sample_versions) (mkSharing sample_start [] Idle) sample_shared /\
  map fst (versions (sh_set sample_shared)) = [0; 1] /\ exists vs', Version_Unref 0 (sh_set sample_shared) = Some vs'.
Proof.
  split; [exact sample_run|]. split; [vm_compute; reflexivity|].
  refine (proj2 (proj2 (proj1 (proj2 (versions_are_shared_safely bytes_ok BytewiseComparator (list Z) directory (list Z) sample_versions sample_start sample_shared eq_refl eq_refl sample_run)) 0 _ _))). apply elem_of_cons. by left.
Defined.
