(* ===== verification/LdbManifest.v ===== *)
(** * The manifest survives crashes (theorems about LdbVersionSet.v)

    [LogAndApply] adds a record to the manifest for each version, behind a snapshot of the
    version before the first; [Recover] reads the records that are whole. What a crash
    leaves of a manifest gives the version of the last call that returned, or of the one
    that was writing. *)

From Stdlib Require Import Sorted SpecFloat.
From stdpp Require Import strings list gmap gmultiset relations.
From S2P Require Import Prelude Words LdbCoding LdbEnv LdbLog LdbLogWrite LdbLogRead LdbLogFacts LdbBatch LdbRecovery LdbKeys LdbWrite LdbWriteLog LdbVersionEdit LdbFilename LdbVersion LdbVersionSet LdbVersionBuild LdbVersionRefs LdbVersionShare.

(** ** Reading *)

Definition edit_bytes (e : VersionEdit) : list Z := default [] (EncodeTo e).

Lemma edit_bytes_spec e : edit_ok e -> EncodeTo e = Some (edit_bytes e) /\ bytes_ok (edit_bytes e) /\ DecodeFrom (edit_bytes e) VersionEdit_new = (OK, e).
Proof. intros He. destruct (edit_decoded e VersionEdit_new He) as (bytes & E & Hb & D). unfold edit_bytes. rewrite E. split; [done|]. split; [done|]. change (default [] (Some bytes)) with bytes. rewrite D. by destruct e. Qed.

(** What a record tells about the numbers. *)
Definition note (r : Recovering) (e : VersionEdit) : Recovering :=
  mkRecovering (r_builder r) (if has_log_number_ e then Some (log_number_ e) else r_log_number r) (if has_prev_log_number_ e then Some (prev_log_number_ e) else r_prev_log_number r)
    (if has_next_file_number_ e then Some (next_file_number_ e) else r_next_file r) (if has_last_sequence_ e then Some (last_sequence_ e) else r_last_sequence r).
Definition set_builder (b : Builder) (r : Recovering) : Recovering := mkRecovering b (r_log_number r) (r_prev_log_number r) (r_next_file r) (r_last_sequence r).

Lemma notes_builder es b r : fold_left note es (set_builder b r) = set_builder b (fold_left note es r).
Proof. revert r. induction es as [|e es IH]; intros r; [done|]. cbn [fold_left]. by rewrite <- IH. Qed.

Section Reading.
Context {dom : list Z -> Prop} {C : Comparator} `{ComparatorLaws dom C} {F : Type} `{WritableFile F} `{!Syncable F} {E Q : Type} `{!Env E} `{!ManifestFiles (F := F) E Q} `{ReliableSequential Q}.
Context (o : VersionOptions) (Ho : o_comparator o = C).
Implicit Types vs : VersionSet F.

(** The comparator of the edit is the one of the set. *)
Definition same_comparator (e : VersionEdit) : Prop := has_comparator_ e = true -> comparator_ e = o_name o.

Lemma Recover_record_edit e r vs b vs' : edit_ok e -> same_comparator e -> Builder_Apply C e (r_builder r) vs = Some (b, vs') ->
  Recover_record o (edit_bytes e) r vs = Some (OK, set_builder b (note r e), vs').
Proof.
  intros He Hc Ha. unfold Recover_record. destruct (edit_bytes_spec e He) as (_ & _ & ->). cbn [ok]. assert (E0 : has_comparator_ e && negb (bool_decide (comparator_ e = o_name o)) = false).
  { destruct (has_comparator_ e) eqn:Eh; [|done]. by rewrite bool_decide_true by auto. }
  rewrite E0. cbn [ok]. rewrite Ho, Ha. done.
Qed.

Lemma absorb_nothing (r r' : Reader Q) s : reporter r' = reporter r -> absorb_reports (reporter r) (reporter r') s = s.
Proof. intros ->. unfold absorb_reports. destruct (reporter r) as [l|]; [|done]. by rewrite drop_all. Qed.

Lemma loop_edits es pos bytes : records_at pos (map edit_bytes es) bytes -> forall B (rdr : Reader Q) r vs b' vs' post rounds inner record scratch,
  synced B pos rdr -> zdrop pos B = bytes ++ post -> Forall edit_ok es -> Forall same_comparator es -> 0 <= last_record_offset rdr -> (length bytes <= inner)%nat ->
  Builder_Apply_all (C := C) es (r_builder r) vs = Some (b', vs') ->
  exists rdr' record' scratch', Recover_loop o (length es + rounds) inner record scratch rdr OK r vs = Recover_loop o rounds inner record' scratch' rdr' OK (set_builder b' (fold_left note es r)) vs' /\
    synced B (pos + zlen bytes) rdr' /\ 0 <= last_record_offset rdr'.
Proof.
  revert pos bytes. induction es as [|e es IH]; intros pos bytes Hb B rdr r vs b' vs' post rounds inner record scratch Hs HT Hok Hc Hl Hf Ha.
  - cbn in Hb. subst bytes. cbn in Ha. injection Ha as <- <-. exists rdr, record, scratch. rewrite zlen_nil, Z.add_0_r. split; [by destruct r|done].
  - destruct Hb as (fs & rest & Hcuts & -> & Hb). apply Forall_cons_1 in Hok as [He Hok], Hc as [Hce Hc]. rewrite <- app_assoc in HT. rewrite length_app in Hf. destruct (edit_bytes_spec e He) as (_ & Hbytes & _).
    pose proof (synced_range _ _ _ Hs) as [Hr _]. pose proof (length_layout pos fs ltac:(lia)) as Hlen.
    destruct (read_cuts true pos (edit_bytes e) fs Hcuts B rdr _ inner 0 [] [] Hs HT Hbytes ltac:(lia)) as (r1 & scratch1 & E1 & Hs1 & Hsame1 & Hl1).
    destruct (zdrop_next B _ _ pos Hr HT) as [HT1 _].
    assert (Hlast : 0 <= last_record_offset r1) by (rewrite Hl1; destruct (padding_spec pos ltac:(lia)); unfold header_at; lia).
    cbn [length Nat.add Recover_loop]. rewrite <- (read_record_start _ record scratch) in E1 by (done || apply (synced_start _ _ _ Hs)). rewrite E1.
    rewrite absorb_nothing by apply Hsame1. cbn [andb ok app]. cbn [Builder_Apply_all] in Ha. destruct (Builder_Apply C e (r_builder r) vs) as [[b1 vs1]|] eqn:Ea; cbn [mbind option_bind] in Ha; [|done].
    rewrite (Recover_record_edit e r vs b1 vs1 He Hce Ea). cbn [mbind option_bind].
    destruct (IH _ rest Hb B r1 (set_builder b1 (note r e)) vs1 b' vs' post rounds inner (edit_bytes e) scratch1) as (r2 & record2 & scratch2 & E2 & Hs2 & Hl2); [done|done|done|done|done|lia|done|].
    exists r2, record2, scratch2. rewrite E2, notes_builder. split; [done|]. rewrite zlen_app, Z.add_assoc. done.
Qed.

(** What a crash leaves is read as the edits that are whole. *)
Lemma loop_of_crash (f : Q) whole rest n fuel r vs b' vs' : crash (map edit_bytes whole) (map edit_bytes rest) n -> Forall edit_ok whole -> Forall same_comparator whole ->
  remaining f = ztake n (log_of (map edit_bytes (whole ++ rest))) -> (length (log_of (map edit_bytes (whole ++ rest))) < fuel)%nat -> Builder_Apply_all (C := C) whole (r_builder r) vs = Some (b', vs') ->
  Recover_loop o fuel fuel [] [] (Reader_new f (Some []) true 0) OK r vs = Some (OK, set_builder b' (fold_left note whole r), vs').
Proof.
  intros Hcrash Hok Hcomp HT Hfuel Ha. rewrite map_app in HT, Hfuel. destruct (crash_tail f _ _ n fuel Hcrash HT Hfuel) as (Hwf & HT63 & [tail HT0] & Hlast).
  destruct Hcrash as (Hbytes & _). assert (Hwhole : Forall (fun d => bytes_ok d) (map edit_bytes whole)) by by apply Forall_app in Hbytes as [? _].
  pose proof (log_records _ Hwhole) as Hrec. pose proof (length_records 0 _ _ ltac:(lia) Hrec) as Hcount. rewrite length_map in Hcount.
  destruct (loop_edits whole 0 _ Hrec (remaining f) (Reader_new f (Some []) true 0) r vs b' vs' tail (fuel - length whole) fuel [] []) as (r1 & record1 & scratch1 & E1 & Hs1 & Hl1);
    [by apply synced_new|done|done|done|done|lia|done|].
  replace (length whole + (fuel - length whole))%nat with fuel in E1 by lia. rewrite E1. clear E1. rewrite Z.add_0_l in Hs1.
  destruct (Hlast r1 Hs1) as (r2 & scratch2 & E2 & Hsame2). replace (fuel - length whole)%nat with (S (fuel - length whole - 1)) by lia.
  cbn [Recover_loop]. rewrite <- (read_record_start _ record1 scratch1) in E2 by (done || apply (synced_start _ _ _ Hs1)). rewrite E2. rewrite absorb_nothing by apply Hsame2. done.
Qed.

(** ** Recovering *)

Lemma building_kept b vs vs' held X c base s : building (dom := dom) (C := C) b vs held X c base s -> versions vs' = versions vs -> compact_pointer_ vs' = compact_pointer_ vs ->
  counters (memory vs') = counters (memory vs) -> next_address (memory vs) <= next_address (memory vs') -> building (dom := dom) (C := C) b vs' held X c base s.
Proof.
  intros [[[Hf1 Hf2] [Hn Hlt] Hvr Hh Hsets Hp] Hbase Hb Hz] Ev Ep Ec Ea. constructor; [|by rewrite Ev|done|done]. constructor; rewrite ?Ev, ?Ep; [|split; [done|]|done..].
  - split; [by rewrite Ec|]. intros p Hin. specialize (Hf2 p Hin). lia.
  - apply (Forall_impl _ _ _ Hlt). intros av Hav. cbv beta in Hav. lia.
Qed.

Lemma MarkFileNumberUsed_numbers n vs : exists k, MarkFileNumberUsed n vs = set_numbers k vs.
Proof. unfold MarkFileNumberUsed. destruct (_ <=? n); [by eexists|]. exists (numbers vs). by destruct vs. Qed.

Lemma ReuseManifest_spec dscname dscbase env vs : descriptor_log_ vs = None ->
  exists reused env' n w, ReuseManifest (Q := Q) o dscname dscbase env vs = Some (reused, env', set_numbers n (set_descriptor w vs)) /\
    next_file_number n = next_file_number (numbers vs) /\ last_sequence n = last_sequence (numbers vs) /\ log_number n = log_number (numbers vs) /\ prev_log_number n = prev_log_number (numbers vs) /\
    (reused = false -> n = numbers vs /\ w = None).
Proof.
  intros Ed. unfold ReuseManifest. assert (Hsame : vs = set_numbers (numbers vs) (set_descriptor None vs)) by (rewrite <- Ed; by destruct vs).
  assert (Hnot : forall e : E, exists reused env' n w, Some (false, e, vs) = Some (reused, env', set_numbers n (set_descriptor w vs)) /\
    next_file_number n = next_file_number (numbers vs) /\ last_sequence n = last_sequence (numbers vs) /\ log_number n = log_number (numbers vs) /\ prev_log_number n = prev_log_number (numbers vs) /\
    (reused = false -> n = numbers vs /\ w = None)) by (intros e; exists false, e, (numbers vs), None; by rewrite <- Hsame).
  destruct (negb (o_reuse_logs o)); [apply Hnot|]. destruct (ParseFileName dscbase) as [[number []]|]; try apply Hnot. destruct (GetFileSize dscname env) as [st size]. destruct (_ || _); [apply Hnot|]. rewrite Ed.
  destruct (NewAppendableFile dscname env) as [[st' f] env']. destruct (negb (ok st')); [apply Hnot|]. eexists true, env', _, _. split; [reflexivity|done].
Qed.

(** The number that the last of the edits that have it gives. *)
Definition last_of (has : VersionEdit -> bool) (get : VersionEdit -> Z) (es : list VersionEdit) : option Z := fold_left (fun n e => if has e then Some (get e) else n) es None.

Lemma notes_spec es b : fold_left note es (mkRecovering b None None None None) = mkRecovering b (last_of has_log_number_ log_number_ es) (last_of has_prev_log_number_ prev_log_number_ es)
  (last_of has_next_file_number_ next_file_number_ es) (last_of has_last_sequence_ last_sequence_ es).
Proof. induction es as [|e es IH] using rev_ind; [done|]. unfold last_of in *. by rewrite !fold_left_app, IH. Qed.

(** What the builder has got to becomes the current version. *)
Lemma installed dscname dscbase b next lastseq lognum prev env vs held X c base s files : building (dom := dom) (C := C) b vs ({[+ c +]} ⊎ held) X c base s -> current vs = Some c -> descriptor_log_ vs = None ->
  version_is (dom := dom) (C := C) files s ->
  exists save env' vs1, Recover_install (Q := Q) o dscname dscbase b next lastseq lognum prev env vs = Some (save, env', vs1) /\
  exists vs2 a v', Builder_delete b vs1 = Some vs2 /\ current vs2 = Some a /\ find_version a (versions vs2) = Some v' /\ version_is (dom := dom) (C := C) (files_ v') s /\
    referenced (dom := dom) (C := C) vs2 ({[+ a +]} ⊎ held) X /\ exists m, numbers vs2 = mkNumbers (u64 (next + 1)) m lastseq lognum prev /\ (save = true -> m = next /\ descriptor_log_ vs2 = None) /\ compact_pointer_ vs2 = compact_pointer_ vs.
Proof.
  intros Hb Hcur Hd Hfiles. unfold Recover_install. set (a := next_address (memory vs)). set (vsa := set_memory _ vs).
  assert (Hba : building (dom := dom) (C := C) b vsa ({[+ c +]} ⊎ held) X c base s) by (apply (building_kept b vs); [done|done|done|done|cbn; lia]).
  rewrite Ho. destruct (building_saves _ _ _ _ _ _ _ _ Hba Hfiles) as [[v vs1] Es]. rewrite Es. cbn [mbind option_bind]. destruct (building_saved _ _ _ _ _ _ _ _ _ Hba Es) as (Hset & Hrefs & Hb1 & m1 & -> & Hm1).
  destruct Hb1 as [Hr1 [Hbase _] _ _]. destruct (Finalize_files v) as [Ff Fr]. assert (Hna : a ∉ map fst (versions vs)).
  { intros (av & Ea & Hav)%list_elem_of_fmap. destruct Hb as [[_ [_ Hlt] _ _ _ _] _ _ _]. rewrite Forall_forall in Hlt. specialize (Hlt av Hav). cbv beta in Hlt. lia. }
  destruct (AppendVersion_referenced (dom := dom) (C := C) a (Finalize v) (set_memory m1 vsa) ({[+ c +]} ⊎ held) (ptrs (added_all (levels_ b)) ⊎ X) c) as (vs2 & E2 & Hr2 & Hcur2 & Hf2 & _ & _ & Hd2 & Hp2 & _);
    [rewrite Ff; eapply eq_ind; [exact Hr1|]; multiset_lia|done|by rewrite Fr|cbn; rewrite Hm1; cbn; lia|done|rewrite Ff; by exists s|].
  rewrite E2. cbn [mbind option_bind]. set (n := mkNumbers (u64 (next + 1)) next lastseq lognum prev).
  destruct (ReuseManifest_spec dscname dscbase env (set_numbers n vs2)) as (reused & env' & n' & w & -> & N1 & N2 & N3 & N4 & Hnot); [cbn in *; congruence|]. cbn [mbind option_bind]. eexists _, _, _. split; [reflexivity|].
  destruct (Builder_delete_referenced (dom := dom) (C := C) b (set_numbers n' (set_descriptor w (set_numbers n vs2))) ({[+ a +]} ⊎ held) X c) as (vs3 & E3 & Hr3 & Hcur3 & Hnum3 & _ & Hd3 & Hp3 & _ & Hk); [|done|].
  { apply set_numbers_referenced, set_descriptor_referenced, set_numbers_referenced. replace ({[+ c +]} ⊎ ({[+ a +]} ⊎ held)) with ({[+ a +]} ⊎ ({[+ c +]} ⊎ held)) by multiset_lia. exact Hr2. }
  destruct (Hk a _ (mem_same _ _) Hf2) as [k Hf3]. exists vs3, a, (set_refs k (set_refs 1 (Finalize v))). split; [exact E3|]. split; [by rewrite Hcur3|]. split; [done|]. split; [cbn [files_ set_refs]; by rewrite Ff|]. split; [done|].
  exists (manifest_file_number n'). cbn [numbers set_numbers set_descriptor descriptor_log_] in Hnum3, Hd3. split; [rewrite Hnum3; destruct n'; cbn in *; congruence|]. split; [|rewrite Hp3; exact Hp2]. intros Hs%negb_true_iff. destruct (Hnot Hs) as [-> ->]. by rewrite Hd3.
Qed.

(** The manifest that [CURRENT] names has been left with the edits [whole]. *)
Lemma Recover_edits (f : Q) base whole rest n fuel (env : E) vs c v s held X lastseq lognum next files :
  ReadFileToString (CurrentFileName (o_dbname o)) env = (OK, base ++ [10]) -> NewSequentialFile (F := F) (o_dbname o ++ text "/" ++ base) env = (OK, f) ->
  crash (map edit_bytes whole) (map edit_bytes rest) n -> Forall (edit_wf (dom := dom) (C := C)) whole -> Forall same_comparator whole ->
  remaining f = ztake n (log_of (map edit_bytes (whole ++ rest))) -> (length (log_of (map edit_bytes (whole ++ rest))) < fuel)%nat ->
  referenced (dom := dom) (C := C) vs ({[+ c +]} ⊎ held) X -> current vs = Some c -> find_version c (versions vs) = Some v -> version_is (dom := dom) (C := C) (files_ v) s -> descriptor_log_ vs = None ->
  (forall i l, files_ v !! i = Some l -> NoDup (file_numbers l ++ new_numbers i whole)) -> version_is (dom := dom) (C := C) files (fun i => edits_level i whole (s i)) ->
  last_of has_next_file_number_ next_file_number_ whole = Some next -> last_of has_log_number_ log_number_ whole = Some lognum -> last_of has_last_sequence_ last_sequence_ whole = Some lastseq ->
  exists save env' vs' a v', Recover o fuel env vs = Some (OK, save, env', vs') /\ current vs' = Some a /\ find_version a (versions vs') = Some v' /\
    version_is (dom := dom) (C := C) (files_ v') (fun i => edits_level i whole (s i)) /\ referenced (dom := dom) (C := C) vs' ({[+ a +]} ⊎ held) X /\
    (exists m, numbers vs' = mkNumbers (u64 (next + 1)) m lastseq lognum (default 0 (last_of has_prev_log_number_ prev_log_number_ whole)) /\ (save = true -> m = next /\ descriptor_log_ vs' = None)) /\ (pointers_ok (compact_pointer_ vs) -> pointers_ok (compact_pointer_ vs')).
Proof.
  intros Hname Hfile Hcrash Hwf Hcomp HT Hfuel Hr Hcur Hv Hs Hd Hfr Hfiles Enext Elog Elast. unfold Recover. rewrite Hname. cbn [ok negb]. rewrite last_snoc. cbn [Z.eqb negb Pos.eqb].
  replace (ztake (zlen (base ++ [10]) - 1) (base ++ [10])) with base by (rewrite zlen_app; change (zlen [10]) with 1; replace (zlen base + 1 - 1) with (zlen base) by lia; by rewrite ztake_app).
  rewrite Hfile. cbn [ok negb]. destruct (building_starts whole vs held X c v s Hr Hcur Hv Hs Hwf Hfr) as (b0 & vs0 & -> & b & vs1 & Ea & Hb & [Hcur1 Hpp] & Hnum1 & Hd1 & Hn1 & Hmap1). cbn [mbind option_bind].
  rewrite (loop_of_crash f whole rest n fuel (mkRecovering b0 None None None None) vs0 b vs1); [|done|apply (Forall_impl _ _ _ Hwf); by intros e [? _]|done|done|done|done].
  cbn [mbind option_bind]. rewrite notes_spec, Enext, Elog, Elast. unfold Recover_finish, set_builder. cbn [r_builder r_log_number r_prev_log_number r_next_file r_last_sequence ok]. change (default 0 (Some lognum)) with lognum. change (default 0 (Some next)) with next. change (default 0 (Some lastseq)) with lastseq.
  set (prev := default 0 (last_of has_prev_log_number_ prev_log_number_ whole)). destruct (MarkFileNumberUsed_numbers prev vs1) as [k1 ->]. destruct (MarkFileNumberUsed_numbers lognum (set_numbers k1 vs1)) as [k2 ->].
  cbn [ok]. destruct (installed (o_dbname o ++ text "/" ++ base) base b next lastseq lognum prev env (set_numbers k2 (set_numbers k1 vs1)) held X c (files_ v) (fun i => edits_level i whole (s i)) files) as (save & env' & vs2 & -> & vs3 & a & v' & Ed & Hcur3 & Hv3 & Hs3 & Hr3 & m & Hm & Hsave & Hp3);
    [by apply (building_kept b vs1)|done|cbn; congruence|done|]. cbn [mbind option_bind]. rewrite Ed. cbn [mbind option_bind]. exists save, env', vs3, a, v'. do 5 (split; [done|]). split; [by exists m|]. by rewrite Hp3.
Qed.
End Reading.

(** ** Snapshots *)

Definition meta_of (f : File) : FileMetaData := FileMetaData_new (f_number f) (f_size f) (f_smallest f) (f_largest f).
(** The files from level [k] on, as an edit has them. *)
Fixpoint level_metas (k : Z) (files : list (list File)) : list (Z * FileMetaData) :=
  match files with [] => [] | fs :: files => map (fun f => (k, meta_of f)) fs ++ level_metas (k + 1) files end.

Definition with_changes (ps : list (Z * list Z)) (fs : list (Z * FileMetaData)) (e : VersionEdit) : VersionEdit :=
  let '(mkVersionEdit c l p n s hc hl hp hn hs cs ds nfs) := e in mkVersionEdit c l p n s hc hl hp hn hs (cs ++ ps) ds (nfs ++ fs).

Lemma with_changes_more ps ps' fs fs' e : with_changes ps' fs' (with_changes ps fs e) = with_changes (ps ++ ps') (fs ++ fs') e.
Proof. destruct e. cbn. by rewrite <- !app_assoc. Qed.

Lemma with_no_changes e : with_changes [] [] e = e.
Proof. destruct e. cbn. by rewrite !app_nil_r. Qed.

Lemma snapshot_pointers_spec k p e : pointers_ok p -> 0 <= k -> k + zlen p <= kNumLevels -> exists ps, snapshot_pointers k p e = with_changes ps [] e /\ Forall pointer_ok ps.
Proof.
  intros Hp. revert k e. induction Hp as [|key p Hkey Hp IH]; intros k e Hk Hz; cbn [snapshot_pointers]; [exists []; by rewrite with_no_changes|]. rewrite zlen_cons in Hz. zlen_pos.
  destruct key as [|b key]; [apply IH; lia|]. destruct (IH (k + 1) (SetCompactPointer k (b :: key) e)) as (ps & -> & Hps); [lia|lia|]. exists ((k, b :: key) :: ps). split.
  - destruct e. cbn. by rewrite <- app_assoc.
  - constructor; [|done]. destruct Hkey as [?|Hkey]; [done|]. split; [unfold is_level; cbn [fst]; lia|done].
Qed.

Lemma add_files_spec k fs e : fold_left (fun e f => AddFile k (f_number f) (f_size f) (f_smallest f) (f_largest f) e) fs e = with_changes [] (map (fun f => (k, meta_of f)) fs) e.
Proof.
  revert e. induction fs as [|f fs IH]; intros e; cbn [fold_left map]; [by rewrite with_no_changes|]. rewrite IH. change ((k, meta_of f) :: map _ fs) with ([(k, meta_of f)] ++ map (fun f => (k, meta_of f)) fs).
  rewrite <- (with_changes_more [] [] [(k, meta_of f)]). f_equal. destruct e. cbn. by rewrite app_nil_r.
Qed.

Lemma snapshot_files_spec k files e : snapshot_files k files e = with_changes [] (level_metas k files) e.
Proof.
  revert k e. induction files as [|fs files IH]; intros k e; cbn [snapshot_files level_metas]; [by rewrite with_no_changes|]. rewrite IH, add_files_spec. by rewrite (with_changes_more [] []).
Qed.

Lemma news_at_level i k fs : news_at i (map (fun f => (k, meta_of f)) fs) = if k =? Z.of_nat i then map meta_of fs else [].
Proof. unfold news_at. induction fs as [|f fs IH]; cbn [map List.filter fst]; [by destruct (_ =? _)|]. destruct (k =? Z.of_nat i); cbn [map snd]; [by rewrite IH|done]. Qed.

Lemma news_at_app i l l' : news_at i (l ++ l') = news_at i l ++ news_at i l'.
Proof. unfold news_at. by rewrite List.filter_app, map_app. Qed.

Lemma news_at_metas k i files : news_at (k + i) (level_metas (Z.of_nat k) files) = map meta_of (default [] (files !! i)).
Proof.
  revert k i. induction files as [|fs files IH]; intros k i; cbn [level_metas]; [done|]. rewrite news_at_app, news_at_level. replace (Z.of_nat k + 1) with (Z.of_nat (S k)) by lia. destruct i as [|i].
  - destruct (Z.eqb_spec (Z.of_nat k) (Z.of_nat (k + 0))); [|lia]. cbn [lookup list_lookup]. change (default [] (Some fs)) with fs. rewrite <- (app_nil_r (map meta_of fs)) at 2. f_equal.
    assert (Hlow : forall j m, (j < m)%nat -> news_at j (level_metas (Z.of_nat m) files) = []); [|apply Hlow; lia]. clear. induction files as [|fs files IH]; intros j m Hj; cbn [level_metas]; [done|].
    rewrite news_at_app, news_at_level. destruct (Z.eqb_spec (Z.of_nat m) (Z.of_nat j)); [lia|]. replace (Z.of_nat m + 1) with (Z.of_nat (S m)) by lia. apply IH. lia.
  - destruct (Z.eqb_spec (Z.of_nat k) (Z.of_nat (k + S i))); [lia|]. replace (k + S i)%nat with (S k + i)%nat by lia. apply IH.
Qed.

Lemma level_metas_in k files p : p ∈ level_metas k files -> k <= fst p < k + zlen files /\ exists fs f, fs ∈ files /\ f ∈ fs /\ snd p = meta_of f.
Proof.
  revert k. induction files as [|fs files IH]; intros k; cbn [level_metas]; [by intros ?%elem_of_nil|]. rewrite zlen_cons. zlen_pos. intros [(f & -> & Hf)%list_elem_of_fmap|Hp]%elem_of_app.
  - cbn [fst snd]. split; [lia|]. exists fs, f. split; [apply elem_of_cons; by left|done].
  - destruct (IH _ Hp) as (Hk & gs & f & Hg & Hf & E). split; [lia|]. exists gs, f. split; [apply elem_of_cons; by right|done].
Qed.

Section Snapshot.
Context {dom : list Z -> Prop} {C : Comparator} `{ComparatorLaws dom C}.
Context (o : VersionOptions).

(** A file that an edit can have. *)
Definition encodable (f : File) : Prop := (is_number (f_number f) /\ is_number (f_size f)) /\ is_key (f_smallest f) /\ is_key (f_largest f).

Definition snapshot_sets (files : list (list File)) (i : nat) : gset fview := list_to_set (map meta_view (news_at i (level_metas 0 files))).

Lemma snapshot_edit_spec p files s : pointers_ok p -> zlen p = kNumLevels -> is_string (o_name o) -> version_is (dom := dom) (C := C) files s -> Forall (Forall encodable) files ->
  let e := snapshot_edit o p files in edit_wf (dom := dom) (C := C) e /\ same_comparator o e /\ (has_log_number_ e = false /\ has_prev_log_number_ e = false /\ has_next_file_number_ e = false /\ has_last_sequence_ e = false) /\
  (forall i, edit_level i e ∅ = snapshot_sets files i) /\ new_files_ e = level_metas 0 files.
Proof.
  intros Hp Hz Hname [L V _] He. unfold snapshot_edit. destruct (snapshot_pointers_spec 0 p (SetComparatorName (o_name o) VersionEdit_new) Hp) as (ps & -> & Hps); [lia|lia|]. rewrite snapshot_files_spec, with_changes_more. cbn [app].
  assert (Hin : Forall (fun q => file_ok q /\ meta_wf (dom := dom) (C := C) (snd q)) (level_metas 0 files)).
  { apply Forall_forall. intros q Hq. destruct (level_metas_in _ _ _ Hq) as (Hk & fs & f & Hfs & Hf & Eq). rewrite Forall_forall in He. pose proof (He fs Hfs) as Hef. rewrite Forall_forall in Hef. destruct (Hef f Hf) as (Hn & Hks & Hkl).
    apply list_elem_of_lookup in Hfs as [i Ei]. destruct (V i fs Ei) as [_ W _ _]. rewrite Forall_forall in W. specialize (W f Hf). split.
    - unfold file_ok, is_level. rewrite Eq. cbn [meta_of FileMetaData_new refs allowed_seeks number file_size smallest largest]. split; [lia|]. done.
    - rewrite Eq. exact W. }
  cbn [with_changes SetComparatorName VersionEdit_new Edit_Clear app]. rewrite app_nil_r. split; [split|].
  - constructor; cbn; [done|repeat split; lia|done|done|split; [apply Forall_nil_2|constructor]|]. apply (Forall_impl _ _ _ Hin). by intros q [? _].
  - cbn [new_files_]. apply (Forall_impl _ _ _ Hin). by intros q [_ ?].
  - split; [done|]. split; [done|]. split; [|done]. intros i. unfold edit_level, snapshot_sets. cbn [deleted_files_ new_files_]. set_solver.
Qed.

Lemma snapshot_is files s : version_is (dom := dom) (C := C) files s -> version_is (dom := dom) (C := C) files (snapshot_sets files).
Proof.
  intros [L V Hc]. constructor; [done| |done]. intros i l El. destruct (V i l El) as [Ol Wl Nl _]. constructor; [done|done|done|]. unfold snapshot_sets. rewrite (news_at_metas 0 i), El. change (default [] (Some l)) with l.
  unfold views. rewrite map_map. done.
Qed.
End Snapshot.

(** ** Writing *)

Section Writing.
Context {dom : list Z -> Prop} {C : Comparator} `{ComparatorLaws dom C} {F : Type} `{DurableFile F} {E Q : Type} `{!Env E} `{!ManifestFiles (F := F) E Q}.
Context (o : VersionOptions) (Ho : o_comparator o = C) (Hname : is_string (o_name o)).
Context (Hnew : forall name env s f env', NewWritableFile (Q := Q) name env = (s, f, env') -> ok s = true -> contents f = []).
Implicit Types vs : VersionSet F.

(** The manifest has the records [rs], all of them durable. *)
Definition manifest_has (rs : list (list Z)) (w : Writer F) : Prop := Forall (fun d => bytes_ok d) rs /\ sim w (memory_writer rs) /\ zlen (log_of rs) <= durable (dest w).

Lemma write_logged p n w env log env' rs : LogAndApply_write o p n (Some w) env = Some (OK, log, env') -> edit_ok (a_edit p) -> Forall (fun d => bytes_ok d) rs -> sim w (memory_writer rs) ->
  exists w', log = Some w' /\ manifest_has (rs ++ [edit_bytes (a_edit p)]) w'.
Proof.
  intros Ew He Hrs Hsim. destruct (edit_bytes_spec _ He) as (Ee & Hb & _). destruct (AddRecord_sim rs _ w Hrs Hb Hsim) as (w1 & Ea & Hs1 & _). unfold LogAndApply_write in Ew.
  assert (Hlog : exists f, Sync (dest w1) = (OK, f) /\ log = Some (set_dest f w1)).
  { destruct (ok (a_status p)) eqn:Eok.
    - cbn [mbind option_bind] in Ew. rewrite Ee in Ew. cbn [mbind option_bind] in Ew. rewrite Ea in Ew. cbn [ok] in Ew. destruct (Sync (dest w1)) as [s f]. cbn [mbind option_bind] in Ew.
      destruct (a_new_manifest p); [|by injection Ew as -> <- <-; exists f]. destruct s; cbn [ok] in Ew; [|by injection Ew..]. destruct (SetCurrentFile _ _ _) as [[s' e']|]; [|done]. cbn [mbind option_bind] in Ew. injection Ew as -> <- <-. by exists f.
    - cbn [mbind option_bind] in Ew. rewrite Eok in Ew. destruct (a_new_manifest p); injection Ew as Es _ _; by rewrite Es in Eok. }
  destruct Hlog as (f & Ef & ->). destruct (Sync_durable _ _ _ Ef) as (Hc & _ & Hd). specialize (Hd eq_refl). exists (set_dest f w1). split; [done|]. split; [apply Forall_app; by split; [|apply Forall_singleton]|].
  split; [|rewrite <- (sim_contents _ _ Hs1); by destruct w1]. destruct Hs1 as (Hs1 & Hs2 & Hs3). split; [by destruct w1|]. split; [by destruct w1|]. rewrite <- Hs3, <- Hc. by destruct w1.
Qed.

Lemma snapshot_logged f vs v s w st : contents f = [] -> WriteSnapshot o (Writer_new f) vs = Some (st, w) -> current_version vs = Some v -> pointers_ok (compact_pointer_ vs) -> zlen (compact_pointer_ vs) = kNumLevels ->
  version_is (dom := dom) (C := C) (files_ v) s -> Forall (Forall encodable) (files_ v) -> sim w (memory_writer [edit_bytes (snapshot_edit o (compact_pointer_ vs) (files_ v))]).
Proof.
  intros Hf Ew Ev Hp Hz Hs He. destruct (snapshot_edit_spec o _ _ s Hp Hz Hname Hs He) as ([Hok _] & _). destruct (edit_bytes_spec _ Hok) as (Ee & Hb & _). unfold WriteSnapshot in Ew. rewrite Ev in Ew. cbn [mbind option_bind] in Ew. rewrite Ee in Ew. cbn [mbind option_bind] in Ew.
  destruct (AddRecord_sim [] _ (Writer_new f) (Forall_nil_2 _) Hb (sim_new f Hf)) as (w' & Ea & Hs' & _). rewrite Ea in Ew. injection Ew as _ <-. done.
Qed.

(** ** Calls *)

(** What a call adds to its edit. *)
Definition complete_edit (c : VersionEdit * Numbers) : VersionEdit := default (fst c) (LogAndApply_numbers (fst c) (snd c)).

Lemma complete_changes c : new_files_ (complete_edit c) = new_files_ (fst c) /\ deleted_files_ (complete_edit c) = deleted_files_ (fst c).
Proof.
  destruct c as [e n]. unfold complete_edit, LogAndApply_numbers. cbn [fst snd]. destruct e as [ec el ep enf es ehc ehl ehp ehn ehs ecs eds efs]. cbn. destruct ehl; [destruct (_ && _); [|done]|]; cbn; by destruct ehp.
Qed.

Lemma edits_level_complete l i s : edits_level i (map complete_edit l) s = edits_level i (map fst l) s.
Proof.
  revert s. unfold edits_level. induction l as [|c l IH]; intros s; [done|]. cbn [map fold_left]. rewrite IH. f_equal. unfold edit_level. by destruct (complete_changes c) as [-> ->].
Qed.

Lemma new_numbers_complete l i : new_numbers i (map complete_edit l) = new_numbers i (map fst l).
Proof. unfold new_numbers. induction l as [|c l IH]; [done|]. cbn [map concat]. rewrite IH. by destruct (complete_changes c) as [-> _]. Qed.

(** The calls of a run, each with the numbers it was made at; [files]: those of the first version. *)
Definition fresh_run (files : list (list File)) (l : list (VersionEdit * Numbers)) : Prop := forall i fs, files !! i = Some fs -> NoDup (file_numbers fs ++ new_numbers i (map fst l)).

Inductive run vs0 : list (VersionEdit * Numbers) -> VersionSet F -> Prop :=
| run_start : run vs0 [] vs0
| run_numbers l vs n : run vs0 l vs -> numbers_ok n -> log_number n = log_number (numbers vs) -> prev_log_number n = prev_log_number (numbers vs) -> run vs0 l (set_numbers n vs)
| run_call l vs edit env env' vs' : run vs0 l vs -> edit_wf (dom := dom) (C := C) edit -> same_comparator o edit -> LogAndApply (Q := Q) o edit env vs = Some (OK, env', vs') -> run vs0 (l ++ [(edit, numbers vs)]) vs'.

(** A set without a manifest whose current version can be written. *)
Record opened vs (files : list (list File)) : Prop := mkOpened {
  op_shared : shared (dom := dom) (C := C) (mkSharing vs [] Idle);
  op_version : (exists v, current_version vs = Some v /\ files_ v = files) /\ Forall (Forall encodable) files;
  op_log : descriptor_log_ vs = None /\ pointers_ok (compact_pointer_ vs)
}.

(** The edits of a manifest: a snapshot of [files], and the calls. *)
Definition manifest_edits (snap : VersionEdit) (l : list (VersionEdit * Numbers)) : list VersionEdit := snap :: map complete_edit l.

Record snapshot_of (files : list (list File)) (snap : VersionEdit) : Prop := mkSnapshotOf {
  sn_wf : edit_wf (dom := dom) (C := C) snap /\ same_comparator o snap;
  sn_unset : has_log_number_ snap = false /\ has_prev_log_number_ snap = false /\ has_next_file_number_ snap = false /\ has_last_sequence_ snap = false;
  sn_sets : forall i, edit_level i snap ∅ = snapshot_sets files i;
  sn_files : new_files_ snap = level_metas 0 files
}.

Record running (files : list (list File)) (l : list (VersionEdit * Numbers)) vs : Prop := mkRunning {
  rn_shared : shared (dom := dom) (C := C) (mkSharing vs [] Idle);
  rn_version : exists v, current_version vs = Some v /\ version_is (dom := dom) (C := C) (files_ v) (fun i => edits_level i (map fst l) (snapshot_sets files i));
  rn_edits : Forall (edit_wf (dom := dom) (C := C)) (map complete_edit l) /\ Forall (same_comparator o) (map complete_edit l);
  rn_log : match last l with
    | None => opened vs files
    | Some (e, n) => exists snap w, snapshot_of files snap /\ descriptor_log_ vs = Some w /\ manifest_has (map edit_bytes (manifest_edits snap l)) w /\
        LogAndApply_numbers e n = Some (complete_edit (e, n)) /\ log_number_ (complete_edit (e, n)) = log_number (numbers vs) /\ prev_log_number_ (complete_edit (e, n)) = prev_log_number (numbers vs)
    end
}.

Lemma edits_level_snoc i es e s : edits_level i (es ++ [e]) s = edit_level i e (edits_level i es s).
Proof. unfold edits_level. by rewrite fold_left_app. Qed.

Lemma new_numbers_snoc i es e : new_numbers i (es ++ [e]) = new_numbers i es ++ map number (news_at i (new_files_ e)).
Proof. unfold new_numbers. rewrite map_app, concat_app. cbn [map concat]. by rewrite app_nil_r. Qed.

Lemma edits_level_numbers i es s x : x ∈ edits_level i es s -> x ∈ s \/ view_number x ∈ new_numbers i es.
Proof.
  induction es as [|e es IH] using rev_ind; [by left|]. rewrite edits_level_snoc, new_numbers_snoc, elem_of_app. unfold edit_level. intros [[_ Hx]%elem_of_filter|Hx]%elem_of_union; [destruct (IH Hx); tauto|]. right. right.
  apply elem_of_list_to_set, list_elem_of_fmap in Hx as (m & -> & Hm). by apply (list_elem_of_fmap_2 number).
Qed.

(** The numbers in use come from the first version and the calls. *)
Lemma running_fresh files l v edit n : zlen files = kNumLevels -> version_is (dom := dom) (C := C) (files_ v) (fun i => edits_level i (map fst l) (snapshot_sets files i)) ->
  fresh_run files (l ++ [(edit, n)]) -> fresh_edit (files_ v) edit.
Proof.
  intros Hz [L V _] Hfr i fs El. destruct (V i fs El) as [_ _ Hn Hv]. destruct (lookup_lt_is_Some_2 files i) as [gs Eg]; [apply lookup_lt_Some in El; unfold zlen in *; lia|]. specialize (Hfr i gs Eg).
  rewrite map_app in Hfr. cbn [map fst] in Hfr. rewrite new_numbers_snoc, app_assoc in Hfr. apply NoDup_app in Hfr as (_ & Hd & Hnews). apply NoDup_app. split; [done|]. split; [|done]. intros x Hx. apply Hd.
  unfold file_numbers in Hx. apply list_elem_of_fmap in Hx as (f & -> & Hf). assert (Hin : view f ∈ views fs) by (apply views_elem; by exists f). rewrite Hv in Hin. apply elem_of_app.
  destruct (edits_level_numbers _ _ _ _ Hin) as [Hs|Hs]; [left|by right]. unfold snapshot_sets in Hs. rewrite (news_at_metas 0 i), Eg in Hs. change (default [] (Some gs)) with gs in Hs.
  rewrite map_map in Hs. apply elem_of_list_to_set, list_elem_of_fmap in Hs as (g & Eq & Hg). unfold file_numbers. apply list_elem_of_fmap. exists g. split; [|done]. by injection Eq.
Qed.

Lemma shared_version vs : shared (dom := dom) (C := C) (mkSharing vs [] Idle) -> exists c v s, current vs = Some c /\ find_version c (versions vs) = Some v /\ current_version vs = Some v /\
  version_is (dom := dom) (C := C) (files_ v) s /\ referenced (dom := dom) (C := C) vs ({[+ c +]} ⊎ ∅) ∅.
Proof.
  intros [(c & Ec & Hp) _ _]. cbn [sh_set sh_held sh_phase] in *. unfold pending_ok in Hp. cbn [pending] in Hp. destruct (current_found _ _ _ _ Hp) as (v & s & Ev & Hs). exists c, v, s. split; [done|]. split; [done|]. split; [unfold current_version; by rewrite Ec|]. done.
Qed.

Lemma running_start vs files : opened vs files -> running files [] vs /\ zlen files = kNumLevels.
Proof.
  intros Ho'. destruct Ho' as [Hsh [(v & Ev & Ef) He] Hlog] eqn:Eo. destruct (shared_version vs Hsh) as (c & v' & s & _ & _ & Ev' & Hs & _). assert (v' = v) as -> by congruence. rewrite Ef in Hs. split; [|by destruct Hs].
  constructor; [done| |done|exact Ho']. exists v. split; [done|]. rewrite Ef. by apply (snapshot_is files s).
Qed.

Lemma shared_numbers vs n : shared (dom := dom) (C := C) (mkSharing vs [] Idle) -> numbers_ok n -> shared (dom := dom) (C := C) (mkSharing (set_numbers n vs) [] Idle).
Proof. intros Hsh Hn. apply (sharing_shared (E := E) (Q := Q) o Ho (mkSharing vs [] Idle)); [by constructor|done]. Qed.

Lemma running_numbers files l vs n : running files l vs -> numbers_ok n -> log_number n = log_number (numbers vs) -> prev_log_number n = prev_log_number (numbers vs) -> running files l (set_numbers n vs).
Proof.
  intros [Hsh Hv He Hl] Hn E1 E2. pose proof (shared_numbers _ _ Hsh Hn) as Hsh'. constructor; [done|done|done|]. destruct (last l) as [[e k]|].
  - destruct Hl as (snap & w & Hs & Hw & Hm & Ek & Hl1 & Hl2). exists snap, w. do 4 (split; [done|]). cbn [numbers set_numbers]. by rewrite E1, E2.
  - destruct Hl as [_ Hv0 Hd]. by constructor.
Qed.

(** The record of a call is behind the others, or behind a snapshot. *)
Lemma call_logged files l vs c v edit env p env1 vs1 n s log env2 : running files l vs -> current vs = Some c -> find_version c (versions vs) = Some v ->
  version_is (dom := dom) (C := C) (files_ v) (fun i => edits_level i (map fst l) (snapshot_sets files i)) -> edit_wf (dom := dom) (C := C) edit -> fresh_edit (files_ v) edit ->
  LogAndApply_begin o edit env vs = Some (p, env1, vs1) -> LogAndApply_write o p n (descriptor_log_ vs1) env1 = Some (s, log, env2) -> s = OK ->
  exists snap w, snapshot_of files snap /\ log = Some w /\ manifest_has (map edit_bytes (manifest_edits snap l) ++ [edit_bytes (a_edit p)]) w.
Proof.
  intros Hrun Hcur Hv Hset He Hfr Eb Ew ->. pose proof (rn_shared _ _ _ Hrun) as Hsh. destruct (shared_version vs Hsh) as (c' & _ & _ & Ec' & _ & _ & _ & Hr). assert (c' = c) as -> by congruence.
  destruct (begin_applying o Ho edit env vs ∅ ∅ c v _ p env1 vs1 Hr Hcur Hv Hset (sd_numbers _ Hsh) He Hfr Eb) as (Hap & [Hcur1 Hpp] & _ & Hk & Ea & Hdesc).
  destruct (LogAndApply_numbers_spec _ _ _ Ea He (sd_numbers _ Hsh)) as ([Hok _] & _). pose proof (rn_log _ _ _ Hrun) as Hlog. destruct (last l) as [[e k]|] eqn:El.
  - destruct Hlog as (snap & w & Hsnap & Hd & [Hrs [Hsim _]] & _). rewrite Hd in Hdesc. destruct Hdesc as (Hd1 & _). rewrite Hd1 in Ew. destruct (write_logged _ _ _ _ _ _ _ Ew Hok Hrs Hsim) as (w' & -> & Hm). by exists snap, w'.
  - apply last_None in El as ->. destruct Hlog as [_ [(v0 & Ev0 & Ef) Henc] [Hd Hp]]. rewrite Hd in Hdesc. destruct Hdesc as (name & st & f & _ & _ & Enew & Hdesc). destruct (ok st) eqn:Eok.
    + destruct Hdesc as (w & Hd1 & Esn). rewrite Hd1 in Ew. assert (v0 = v) as -> by (unfold current_version in Ev0; rewrite Hcur in Ev0; cbn [mbind option_bind] in Ev0; congruence).
      destruct (Hk c v (mem_same _ _) Hv) as (v1 & Ev1 & Ef1). assert (Ev1' : current_version (set_descriptor None vs1) = Some v1) by (unfold current_version; cbn [current versions set_descriptor]; by rewrite Hcur1).
      assert (Hset1 : version_is (dom := dom) (C := C) (files_ v1) (snapshot_sets files)) by (rewrite Ef1; exact Hset). pose proof (rf_pointers _ _ _ (ap_referenced _ _ _ _ _ Hap)) as Hz. rewrite Ef1, Ef in *.
      pose proof (snapshot_logged f (set_descriptor None vs1) v1 (snapshot_sets files) w (a_status p) (Hnew _ _ _ _ _ Enew Eok) Esn Ev1' (Hpp Hp) Hz) as Hsn. rewrite Ef1 in Hsn. specialize (Hsn Hset1 Henc).
      destruct (snapshot_edit_spec o (compact_pointer_ vs1) files (snapshot_sets files) (Hpp Hp) Hz Hname Hset1 Henc) as (Hwf & Hcomp & Hunset & Hsets & Hfiles).
      destruct (edit_bytes_spec _ (proj1 Hwf)) as (_ & Hb & _). destruct (write_logged _ _ _ _ _ _ _ Ew Hok (proj2 (Forall_singleton _ _) Hb) Hsn) as (w' & -> & Hm).
      exists (snapshot_edit o (compact_pointer_ vs1) files), w'. split; [by constructor|]. done.
    + destruct Hdesc as [Est Hd1]. exfalso. unfold LogAndApply_write in Ew. rewrite Est, Eok in Ew. cbn [mbind option_bind] in Ew. rewrite Eok in Ew. destruct (a_new_manifest p); injection Ew as Es _ _; by rewrite Es in Eok.
Qed.

Lemma running_call files l vs edit env env' vs' : zlen files = kNumLevels -> running files l vs -> fresh_run files (l ++ [(edit, numbers vs)]) -> edit_wf (dom := dom) (C := C) edit -> same_comparator o edit ->
  LogAndApply (Q := Q) o edit env vs = Some (OK, env', vs') -> running files (l ++ [(edit, numbers vs)]) vs'.
Proof.
  intros Hz Hrun Hfresh He Hc. unfold LogAndApply. destruct (LogAndApply_begin o edit env vs) as [[[p env1] vs1]|] eqn:Eb; cbn [mbind option_bind]; [|done].
  destruct (LogAndApply_write o p _ (descriptor_log_ vs1) env1) as [[[s log] env2]|] eqn:Ew; cbn [mbind option_bind]; [|done]. pose proof (rn_shared _ _ _ Hrun) as Hsh.
  destruct (shared_version vs Hsh) as (c & v & _ & Ec & Ev & Ecur & _ & Hr). destruct (rn_version _ _ _ Hrun) as (v' & Ecur' & Hset). assert (v' = v) as -> by congruence.
  pose proof (running_fresh _ _ _ _ _ Hz Hset Hfresh) as Hfr. destruct (begin_applying o Ho edit env vs ∅ ∅ c v _ p env1 vs1 Hr Ec Ev Hset (sd_numbers _ Hsh) He Hfr Eb) as (Hap & _ & Hn1 & _ & Ea & _).
  pose proof (begin_shared o Ho vs vs1 v edit env env1 p [] Hsh Ecur He Hfr Eb) as Hsh1.
  assert (Hsh2 : shared (dom := dom) (C := C) (mkSharing (set_descriptor log vs1) [] (Written p s))) by (apply (sharing_shared (E := E) (Q := Q) o Ho (mkSharing vs1 [] (Writing p))); [by apply (share_write _ _ _ _ _ env1 env2 (manifest_file_number (numbers vs1)))|done]).
  destruct (end_shared _ _ _ env2 _ Hsh2) as (env3 & vs3 & -> & Hsh3 & Hend). cbn [mbind option_bind]. intros [= -> <- <-]. cbn [ok] in Hend. destruct Hend as ((v3 & Ecur3 & Ef3) & Hd3 & Hn3).
  destruct (call_logged _ _ _ _ _ _ _ _ _ _ _ _ _ _ Hrun Ec Ev Hset He Hfr Eb Ew eq_refl) as (snap & w & Hsnap & -> & Hm).
  assert (Ecomp : complete_edit (edit, numbers vs) = a_edit p) by (unfold complete_edit; cbn [fst snd]; by rewrite Ea). destruct (LogAndApply_numbers_spec _ _ _ Ea He (sd_numbers _ Hsh)) as (Hwf & [Ehc Ec'] & _).
  destruct (rn_edits _ _ _ Hrun) as [Hwfs Hcs]. constructor; [done| | |].
  - exists v3. split; [done|]. rewrite Ef3. apply (version_is_ext _ _ _) with (2 := proj1 (ap_version _ _ _ _ _ Hap)). intros i. rewrite map_app. cbn [map fst]. by rewrite edits_level_snoc.
  - rewrite map_app. cbn [map]. rewrite Ecomp. split; apply Forall_app; (split; [done|]); apply Forall_singleton; [done|]. unfold same_comparator. by rewrite Ehc, Ec'.
  - rewrite last_snoc. exists snap, w. split; [done|]. split; [by rewrite Hd3|]. unfold manifest_edits. rewrite map_app. cbn [map]. rewrite Ecomp. split; [|split; [done|]; by rewrite Hn3].
    rewrite map_app. exact Hm.
Qed.

Lemma fresh_run_prefix files l x : fresh_run files (l ++ [x]) -> fresh_run files l.
Proof. intros Hfr i fs E1. specialize (Hfr i fs E1). rewrite map_app in Hfr. cbn [map] in Hfr. rewrite new_numbers_snoc, app_assoc in Hfr. by apply NoDup_app in Hfr as [? _]. Qed.

Lemma run_running vs0 files l vs : opened vs0 files -> run vs0 l vs -> fresh_run files l -> running files l vs.
Proof.
  intros Ho' Hrun. destruct (running_start vs0 files Ho') as [Hstart Hz]. induction Hrun as [|l vs n Hrun IH Hn E1 E2|l vs edit env env' vs' Hrun IH He Hc Ecall]; intros Hfr; [done| |].
  - by apply running_numbers; auto.
  - apply (running_call files l vs edit env env' vs'); [done| |done|done|done|done]. apply IH. by apply (fresh_run_prefix _ _ (edit, numbers vs)).
Qed.
End Writing.

(** ** Crashes *)

Lemma last_of_edits_snoc has get es e : last_of has get (es ++ [e]) = if has e then Some (get e) else last_of has get es.
Proof. unfold last_of. by rewrite fold_left_app. Qed.

Section Crashes.
Context {dom : list Z -> Prop} {C : Comparator} `{ComparatorLaws dom C} (o : VersionOptions).
Implicit Types l : list (VersionEdit * Numbers).

Lemma manifest_edits_snoc snap l c : manifest_edits snap (l ++ [c]) = manifest_edits snap l ++ [complete_edit c].
Proof. unfold manifest_edits. by rewrite map_app. Qed.

Lemma manifest_sets files snap l i : snapshot_of (dom := dom) (C := C) o files snap -> edits_level i (manifest_edits snap l) ∅ = edits_level i (map fst l) (snapshot_sets files i).
Proof. intros [_ _ Hs _]. unfold manifest_edits, edits_level. cbn [fold_left]. rewrite Hs. apply edits_level_complete. Qed.

Lemma manifest_new_numbers files snap l i fs : snapshot_of (dom := dom) (C := C) o files snap -> files !! i = Some fs -> new_numbers i (manifest_edits snap l) = file_numbers fs ++ new_numbers i (map fst l).
Proof.
  intros [_ _ _ Hf] El. rewrite <- new_numbers_complete. unfold manifest_edits, new_numbers. cbn [map concat]. f_equal. rewrite Hf. rewrite (news_at_metas 0 i), El. change (default [] (Some fs)) with fs. by rewrite map_map.
Qed.

(** The numbers of the last call. *)
Lemma manifest_last_numbers snap l e n : is_Some (LogAndApply_numbers e n) -> let c := complete_edit (e, n) in
  last_of has_next_file_number_ next_file_number_ (manifest_edits snap (l ++ [(e, n)])) = Some (next_file_number n) /\ last_of has_last_sequence_ last_sequence_ (manifest_edits snap (l ++ [(e, n)])) = Some (last_sequence n) /\
  last_of has_log_number_ log_number_ (manifest_edits snap (l ++ [(e, n)])) = Some (log_number_ c) /\ last_of has_prev_log_number_ prev_log_number_ (manifest_edits snap (l ++ [(e, n)])) = Some (prev_log_number_ c) /\
  last_sequence_ c = last_sequence n.
Proof.
  intros [e' Ee]. cbv zeta. rewrite manifest_edits_snoc, !last_of_edits_snoc. assert (Ec : complete_edit (e, n) = e') by (unfold complete_edit; cbn [fst snd]; by rewrite Ee). rewrite Ec. revert Ee. unfold LogAndApply_numbers.
  destruct e as [ec el ep enf es ehc ehl ehp ehn ehs ecs eds efs]. cbn. destruct ehl; [destruct (_ && _); [|done]|]; cbn; destruct ehp; cbn; by intros [= <-].
Qed.

(** Each file of a version that has been read can be written. *)
Definition encodable_view (v : fview) : Prop := let '(number, size, smallest, largest) := v in (is_number number /\ is_number size) /\ is_key smallest /\ is_key largest.

Lemma edits_encodable i es s : Forall (edit_wf (dom := dom) (C := C)) es -> set_Forall encodable_view s -> set_Forall encodable_view (edits_level i es s).
Proof.
  intros Hes. revert s. induction Hes as [|e es [He _] Hes IH]; intros s Hs; [done|]. apply IH. unfold edit_level. apply set_Forall_union; [intros x [_ Hx]%elem_of_filter; by apply Hs|].
  intros x Hx. apply elem_of_list_to_set, list_elem_of_fmap in Hx as (m & -> & Hm). unfold news_at in Hm. apply list_elem_of_fmap in Hm as (p & -> & Hp). apply list_elem_of_In, List.filter_In in Hp as [Hp%list_elem_of_In _].
  pose proof (ok_files _ He) as Hf. rewrite Forall_forall in Hf. destruct (Hf p Hp) as (_ & _ & _ & Hn & Hk). done.
Qed.

Lemma version_encodable files s : version_is (dom := dom) (C := C) files s -> (forall i, set_Forall encodable_view (s i)) -> Forall (Forall encodable) files.
Proof.
  intros [_ V _] Hs. apply Forall_forall. intros fs Hfs. apply list_elem_of_lookup in Hfs as [i Ei]. destruct (V i fs Ei) as [_ _ _ Ev]. apply Forall_forall. intros f Hf. apply (Hs i (view f)). rewrite <- Ev. apply views_elem. by exists f.
Qed.

(** A crash leaves the records that were there, or also the one that was being added. *)
Lemma crash_choice es es' n : Forall (fun d => bytes_ok d) (map edit_bytes (es ++ es')) -> (length es' <= 1)%nat -> zlen (log_of (map edit_bytes (es ++ es'))) < 2 ^ 63 -> zlen (log_of (map edit_bytes es)) <= n ->
  exists whole rest, es ++ es' = whole ++ rest /\ crash (map edit_bytes whole) (map edit_bytes rest) n /\ (whole = es \/ whole = es ++ es').
Proof.
  intros Hok Hone Hz Hn. destruct es' as [|e [|e2 es']]; [| |cbn in Hone; lia].
  - exists es, []. split; [done|]. split; [|by left]. rewrite app_nil_r in Hok, Hz. repeat split; by rewrite ?app_nil_r.
  - destruct (Z.le_gt_cases (zlen (log_of (map edit_bytes (es ++ [e])))) n) as [Hle|Hlt].
    + exists (es ++ [e]), []. split; [by rewrite app_nil_r|]. split; [|by right]. repeat split; by rewrite ?app_nil_r.
    + exists es, [e]. split; [done|]. split; [|by left]. rewrite map_app in *. repeat split; done.
Qed.
End Crashes.

Lemma sim_records {F : Type} `{DurableFile F} rs rs' (w : Writer F) : Forall (fun d => bytes_ok d) (rs ++ rs') -> sim w (memory_writer rs) -> contents (dest (snd (add_records rs' w))) = log_of (rs ++ rs').
Proof.
  revert rs w. induction rs' as [|r rs' IH]; intros rs w Hok Hs; cbn [add_records].
  - rewrite app_nil_r. by apply sim_contents.
  - apply Forall_app in Hok as [Hrs [Hr Hok]%Forall_cons_1]. destruct (AddRecord_sim rs r w Hrs Hr Hs) as (w' & E1 & Hs' & _). rewrite (bind_step _ _ _ _ _ E1). cbn [ok].
    rewrite (IH (rs ++ [r]) w'); [by rewrite <- app_assoc|rewrite <- app_assoc; apply Forall_app; split; [done|by constructor]|done].
Qed.

Section Surviving.
Context {dom : list Z -> Prop} {C : Comparator} `{ComparatorLaws dom C} {F : Type} `{DurableFile F} {E Q : Type} `{!Env E} `{!ManifestFiles (F := F) E Q} `{ReliableSequential Q}.
Context (o : VersionOptions) (Ho : o_comparator o = C).
Implicit Types vs : VersionSet F.

(** The call, if any, that has made its version and not returned. *)
Definition begun vs (after : list (VersionEdit * Numbers)) : Prop :=
  after = [] \/ exists e env p env1 vs1, after = [(e, numbers vs)] /\ (edit_wf (dom := dom) (C := C) e /\ same_comparator o e) /\ LogAndApply_begin (Q := Q) o e env vs = Some (p, env1, vs1).

Lemma running_begun files l vs after : zlen files = kNumLevels -> running (dom := dom) (C := C) o files l vs -> begun vs after -> fresh_run files (l ++ after) ->
  (length after <= 1)%nat /\ (Forall (edit_wf (dom := dom) (C := C)) (map complete_edit (l ++ after)) /\ Forall (same_comparator o) (map complete_edit (l ++ after))) /\
  (forall c, c ∈ after -> is_Some (LogAndApply_numbers (fst c) (snd c))) /\ exists files', version_is (dom := dom) (C := C) files' (fun i => edits_level i (map fst (l ++ after)) (snapshot_sets files i)).
Proof.
  intros Hz Hrun Hafter Hfresh. destruct (rn_edits _ _ _ _ Hrun) as [Hwf Hc]. destruct (rn_version _ _ _ _ Hrun) as (v & Ev & Hset). destruct Hafter as [->|(e & env & p & env1 & vs1 & -> & [He Hce] & Eb)].
  - rewrite app_nil_r. split; [cbn; lia|]. split; [done|]. split; [by intros c ?%elem_of_nil|]. by exists (files_ v).
  - pose proof (rn_shared _ _ _ _ Hrun) as Hsh. destruct (shared_version vs Hsh) as (c & v' & _ & Ec & Ev1 & Ecur & _ & Hr). assert (v' = v) as -> by congruence.
    pose proof (running_fresh _ _ _ _ _ Hz Hset Hfresh) as Hfr. destruct (begin_applying o Ho e env vs ∅ ∅ c v _ p env1 vs1 Hr Ec Ev1 Hset (sd_numbers _ Hsh) He Hfr Eb) as (Hap & _ & _ & _ & Ea & _).
    assert (Ecomp : complete_edit (e, numbers vs) = a_edit p) by (unfold complete_edit; cbn [fst snd]; by rewrite Ea). destruct (LogAndApply_numbers_spec _ _ _ Ea He (sd_numbers _ Hsh)) as (Hwf' & [Ehc Ec'] & _).
    split; [cbn; lia|]. split; [rewrite map_app; cbn [map]; rewrite Ecomp; split; apply Forall_app; (split; [done|]); apply Forall_singleton; [done|unfold same_comparator; by rewrite Ehc, Ec']|].
    split; [intros x ->%list_elem_of_singleton; by exists (a_edit p)|]. exists (files_ (a_version p)). apply (version_is_ext _ _ _) with (2 := proj1 (ap_version _ _ _ _ _ Hap)). intros i. rewrite map_app. cbn [map fst]. by rewrite edits_level_snoc.
Qed.

Lemma VersionSet_new_opened : exists vs, VersionSet_new = Some vs /\ opened (dom := dom) (C := C) vs (files_ Version_new).
Proof.
  destruct (VersionSet_new_shared (dom := dom) (C := C) (F := F)) as (vs & Enew & Hsh & Ef). exists vs. split; [done|]. assert (Hrest : descriptor_log_ vs = None /\ compact_pointer_ vs = replicate (Z.to_nat kNumLevels) []) by by injection Enew as <-.
  destruct Hrest as [Hd Hp]. constructor; [done| |].
  - destruct (current_version vs) as [v|]; [|done]. injection Ef as Ef. split; [by exists v|]. cbn [files_ Version_new]. by apply Forall_replicate, Forall_nil_2.
  - split; [done|]. rewrite Hp. apply Forall_replicate. by left.
Qed.

(** What a recovered set has to be opened. *)
Lemma recovered_opened vs a v s : referenced (dom := dom) (C := C) vs ({[+ a +]} ⊎ ∅) ∅ -> current vs = Some a -> find_version a (versions vs) = Some v -> numbers_ok (numbers vs) ->
  version_is (dom := dom) (C := C) (files_ v) s -> (forall i, set_Forall encodable_view (s i)) -> descriptor_log_ vs = None -> pointers_ok (compact_pointer_ vs) -> opened (dom := dom) (C := C) vs (files_ v).
Proof.
  intros Hr Hc Hv Hn Hs He Hd Hp. constructor; [|split|done].
  - constructor; cbn [sh_set sh_held sh_phase]; [exists a; split; [done|exact Hr]|apply Forall_nil_2|done].
  - exists v. split; [|done]. unfold current_version. by rewrite Hc.
  - by apply (version_encodable (dom := dom) (C := C) _ s).
Qed.

Lemma snapshot_encodable files : Forall (Forall encodable) files -> forall i, set_Forall encodable_view (snapshot_sets files i).
Proof.
  intros He i x Hx. unfold snapshot_sets in Hx. rewrite (news_at_metas 0 i), map_map in Hx. apply elem_of_list_to_set, list_elem_of_fmap in Hx as (f & -> & Hf). destruct (files !! i) as [fs|] eqn:El; [|by apply elem_of_nil in Hf].
  change (default [] (Some fs)) with fs in Hf. rewrite Forall_forall in He. specialize (He fs ltac:(by apply list_elem_of_lookup; exists i)). rewrite Forall_forall in He. by apply He.
Qed.

(** A manifest that has been left with the calls [l] gives their version. *)
Lemma manifest_read files l e n0 rest (f : Q) base n fuel (env : E) vs snap files' : let whole := manifest_edits snap (l ++ [(e, n0)]) in
  ReadFileToString (CurrentFileName (o_dbname o)) env = (OK, base ++ [10]) -> NewSequentialFile (F := F) (o_dbname o ++ text "/" ++ base) env = (OK, f) ->
  crash (map edit_bytes whole) (map edit_bytes rest) n -> remaining f = ztake n (log_of (map edit_bytes (whole ++ rest))) -> (length (log_of (map edit_bytes (whole ++ rest))) < fuel)%nat ->
  VersionSet_new = Some vs -> zlen files = kNumLevels -> Forall (Forall encodable) files -> snapshot_of (dom := dom) (C := C) o files snap ->
  Forall (edit_wf (dom := dom) (C := C)) (map complete_edit (l ++ [(e, n0)])) -> Forall (same_comparator o) (map complete_edit (l ++ [(e, n0)])) -> is_Some (LogAndApply_numbers e n0) ->
  fresh_run files (l ++ [(e, n0)]) -> version_is (dom := dom) (C := C) files' (fun i => edits_level i (map fst (l ++ [(e, n0)])) (snapshot_sets files i)) ->
  exists save env' vs' v' m, Recover o fuel env vs = Some (OK, save, env', vs') /\ current_version vs' = Some v' /\
    version_is (dom := dom) (C := C) (files_ v') (fun i => edits_level i (map fst (l ++ [(e, n0)])) (snapshot_sets files i)) /\
    numbers vs' = mkNumbers (u64 (next_file_number n0 + 1)) m (last_sequence n0) (log_number_ (complete_edit (e, n0))) (prev_log_number_ (complete_edit (e, n0))) /\
    (save = true -> opened (dom := dom) (C := C) vs' (files_ v')).
Proof.
  intros whole Hname Hfile Hcrash HT Hfuel Hnew Hz Henc Hsnap Hwf Hcomp Hnum Hfresh Hfiles'. destruct VersionSet_new_opened as (vs1 & E1 & [Hsh [(v1 & Ev1 & Ef1) _] [Hd Hp]]). assert (vs1 = vs) as -> by congruence.
  destruct (shared_version vs Hsh) as (c & v & _ & Ec & Ev & Ecur & _ & Hr). assert (v1 = v) as -> by congruence.
  destruct (manifest_last_numbers snap l e n0 Hnum) as (Nf & Ns & Nl & Np & Hseq). pose proof (sn_wf _ _ _ Hsnap) as [Hwfs Hcs].
  assert (Hall : Forall (edit_wf (dom := dom) (C := C)) whole) by (by constructor). assert (Hsets : forall i, edits_level i whole ∅ = edits_level i (map fst (l ++ [(e, n0)])) (snapshot_sets files i)) by (intros i; exact (manifest_sets o files snap _ i Hsnap)).
  destruct (Recover_edits o Ho f base whole rest n fuel env vs c v (fun _ => ∅) ∅ ∅ (last_sequence n0) (log_number_ (complete_edit (e, n0))) (next_file_number n0) files') as (save & env' & vs' & a & v' & ER & Hc' & Hv' & Hset & Href & (m & Hm & Hsave) & Hpp);
    try done; [by constructor|rewrite Ef1; apply version_is_new| | |].
  - intros i fs El. rewrite Ef1 in El. apply lookup_replicate in El as [-> Hi]. destruct (lookup_lt_is_Some_2 files i) as [gs Eg]; [unfold zlen in Hz; lia|]. cbn [file_numbers map app]. unfold whole. rewrite (manifest_new_numbers o files snap _ i gs Hsnap Eg). by apply Hfresh.
  - apply (version_is_ext _ _ _) with (2 := Hfiles'). intros i. by rewrite Hsets.
  - assert (Hset' : version_is (dom := dom) (C := C) (files_ v') (fun i => edits_level i (map fst (l ++ [(e, n0)])) (snapshot_sets files i))) by (apply (version_is_ext _ _ _) with (2 := Hset); done).
    fold whole in Np. rewrite Np in Hm. change (default 0 (Some ?x)) with x in Hm. exists save, env', vs', v', m. split; [done|]. split; [unfold current_version; by rewrite Hc'|]. split; [done|]. split; [done|]. intros Hs. destruct (Hsave Hs) as [-> Hd'].
    apply (recovered_opened vs' a v' (fun i => edits_level i (map fst (l ++ [(e, n0)])) (snapshot_sets files i)) Href Hc' Hv'); [|exact Hset'| |done|by apply Hpp].
    + rewrite map_app in Hwf. apply Forall_app in Hwf as [_ [[Hok _] _]%Forall_cons_1]. destruct (ok_numbers _ Hok) as ([? ?] & ? & Hls). rewrite Hseq in Hls. rewrite Hm. split; (split; [|done]); [unfold is_number, u64; cbn [next_file_number]; dlia|done].
    + intros i. rewrite <- edits_level_complete. apply (edits_encodable (dom := dom) (C := C)); [done|]. by apply snapshot_encodable.
Qed.

(** The calls of either outcome. *)
Lemma outcome_calls files l vs after lx : zlen files = kNumLevels -> running (dom := dom) (C := C) o files l vs -> l <> [] -> begun vs after -> fresh_run files (l ++ after) -> lx = l \/ lx = l ++ after ->
  exists l0 e k files', lx = l0 ++ [(e, k)] /\ is_Some (LogAndApply_numbers e k) /\ Forall (edit_wf (dom := dom) (C := C)) (map complete_edit lx) /\ Forall (same_comparator o) (map complete_edit lx) /\
    fresh_run files lx /\ version_is (dom := dom) (C := C) files' (fun i => edits_level i (map fst lx) (snapshot_sets files i)).
Proof.
  intros Hz Hrun Hne Hafter Hfresh Hlx. destruct (running_begun _ _ _ _ Hz Hrun Hafter Hfresh) as (Hone & [Hwf Hc] & Hnums & files' & Hset').
  assert (Hfl : fresh_run files l) by (destruct Hafter as [->|(e & _ & _ & _ & _ & -> & _)]; [by rewrite app_nil_r in Hfresh|by apply (fresh_run_prefix _ _ (e, numbers vs))]).
  pose proof (rn_log _ _ _ _ Hrun) as Hlog. destruct (last l) as [[e0 k0]|] eqn:El; [|by apply last_None in El]. destruct Hlog as (_ & _ & _ & _ & _ & Ek & _).
  apply last_Some in El as [l0 ->]. destruct (rn_edits _ _ _ _ Hrun) as [Hwf1 Hc1]. destruct (rn_version _ _ _ _ Hrun) as (v & _ & Hset).
  assert (Hl : exists l1 e k files1, l0 ++ [(e0, k0)] = l1 ++ [(e, k)] /\ is_Some (LogAndApply_numbers e k) /\ Forall (edit_wf (dom := dom) (C := C)) (map complete_edit (l0 ++ [(e0, k0)])) /\
    Forall (same_comparator o) (map complete_edit (l0 ++ [(e0, k0)])) /\ fresh_run files (l0 ++ [(e0, k0)]) /\ version_is (dom := dom) (C := C) files1 (fun i => edits_level i (map fst (l0 ++ [(e0, k0)])) (snapshot_sets files i)))
    by (exists l0, e0, k0, (files_ v); do 5 (split; [done || by rewrite Ek|]); exact Hset).
  destruct Hlx as [->| ->]; [exact Hl|]. destruct after as [|[e k] [|c after]]; [by rewrite app_nil_r| |cbn in Hone; lia].
  exists (l0 ++ [(e0, k0)]), e, k, files'. split; [done|]. split; [apply (Hnums (e, k)), elem_of_cons; by left|]. done.
Qed.
End Surviving.

(** C6. A set without a manifest, whose current version has files and numbers that fit a record, makes versions:
    calls of [LogAndApply] that succeed, with numbers of files that are new to their levels, the
    other numbers changing between the calls; then perhaps one more call that has made its version
    and is writing; then a crash, which leaves of the manifest at least what was synced. A new set
    recovers, without error, the version after the last call that returned, or after the one that was
    writing: each level has the files that the edits make of the first version's, in order; in the
    first case the same files in the same places as before the crash; the sequence number
    and the log number of that call; and if the manifest is not reused the recovered set can go
    on in the same way. *)
Theorem manifest_survives_crashes dom C F E Q o (vs0 vs vsn : VersionSet F) files l after w (f : Q) n base fuel (env : E)
  `{ComparatorLaws dom C} `{DurableFile F} `{!Env E} `{!ManifestFiles (F := F) E Q} `{ReliableSequential Q} :
  o_comparator o = C -> is_string (o_name o) -> (forall name env s f env', NewWritableFile (F := F) (Q := Q) name env = (s, f, env') -> ok s = true -> contents f = []) ->
  opened (dom := dom) (C := C) vs0 files -> run (dom := dom) (C := C) (E := E) (Q := Q) o vs0 l vs -> l <> [] -> begun (dom := dom) (C := C) (E := E) (Q := Q) o vs after -> fresh_run files (l ++ after) ->
  descriptor_log_ vs = Some w -> let bytes := contents (dest (snd (add_records (map edit_bytes (map complete_edit after)) w))) in
  remaining f = ztake n bytes -> durable (dest w) <= n -> zlen bytes < 2 ^ 63 -> (length bytes < fuel)%nat ->
  ReadFileToString (CurrentFileName (o_dbname o)) env = (OK, base ++ [10]) -> NewSequentialFile (F := F) (o_dbname o ++ text "/" ++ base) env = (OK, f) -> VersionSet_new = Some vsn ->
  exists l' e n0 m save env' vs' v', (l' ++ [(e, n0)] = l \/ l' ++ [(e, n0)] = l ++ after) /\ Recover o fuel env vsn = Some (OK, save, env', vs') /\ current_version vs' = Some v' /\
    version_is (dom := dom) (C := C) (files_ v') (fun i => edits_level i (map fst (l' ++ [(e, n0)])) (snapshot_sets files i)) /\
    (forall v, l' ++ [(e, n0)] = l -> current_version vs = Some v -> map (map view) (files_ v') = map (map view) (files_ v)) /\
    numbers vs' = mkNumbers (u64 (next_file_number n0 + 1)) m (last_sequence n0) (log_number_ (complete_edit (e, n0))) (prev_log_number_ (complete_edit (e, n0))) /\
    (save = true -> opened (dom := dom) (C := C) vs' (files_ v')).
Proof.
  intros Ho Hname Hnew Hop Hrun Hne Hafter Hfresh Hw bytes HT Hn Hz63 Hfuel Hcur Hfile Hvsn. destruct (running_start o vs0 files Hop) as [_ Hz].
  assert (Hfl : fresh_run files l) by (destruct Hafter as [->|(e & _ & _ & _ & _ & -> & _)]; [by rewrite app_nil_r in Hfresh|by apply (fresh_run_prefix _ _ (e, numbers vs))]).
  pose proof (run_running o Ho Hname Hnew vs0 files l vs Hop Hrun Hfl) as Hrun'. pose proof (rn_log _ _ _ _ Hrun') as Hlog. destruct (last l) as [[e0 k0]|] eqn:El; [|by apply last_None in El].
  destruct Hlog as (snap & w' & Hsnap & Hw' & (Hrs & Hsim & Hdur) & _). assert (w' = w) as -> by congruence. destruct (running_begun o Ho files l vs after Hz Hrun' Hafter Hfresh) as (Hone & [Hwf _] & _).
  assert (Hall : Forall (fun d => bytes_ok d) (map edit_bytes (manifest_edits snap l ++ map complete_edit after))).
  { unfold manifest_edits. cbn [app]. rewrite <- map_app. destruct Hsnap as [[[Hs _] _] _ _ _]. apply Forall_map. constructor; [by apply edit_bytes_spec|]. apply (Forall_impl _ _ _ Hwf). intros e [He _]. by apply edit_bytes_spec. }
  assert (Eb : bytes = log_of (map edit_bytes (manifest_edits snap l ++ map complete_edit after))) by (unfold bytes; rewrite map_app; apply sim_records; [by rewrite <- map_app|done]). rewrite Eb in HT, Hz63, Hfuel.
  destruct (crash_choice (manifest_edits snap l) (map complete_edit after) n Hall ltac:(by rewrite length_map) Hz63 ltac:(lia)) as (whole & rest & Esplit & Hcrash & Hwhole). rewrite Esplit in HT, Hfuel.
  assert (Hlx : exists lx, (lx = l \/ lx = l ++ after) /\ whole = manifest_edits snap lx) by (destruct Hwhole as [->| ->]; [exists l; split; [by left|done]|exists (l ++ after); split; [by right|]; unfold manifest_edits; by rewrite map_app]).
  destruct Hlx as (lx & Hlx & ->). destruct (outcome_calls o Ho files l vs after lx Hz Hrun' Hne Hafter Hfresh Hlx) as (l0 & e & k & files' & -> & Hnum & Hwfx & Hcx & Hfx & Hsetx).
  destruct (manifest_read o Ho files l0 e k rest f base n fuel env vsn snap files') as (save & env' & vs' & v' & m & ER & Hcv & Hset & Hm & Hsave); try done; [by destruct Hop as [_ [_ ?] _]|].
  exists l0, e, k, m, save, env', vs', v'. split; [done|]. split; [done|]. split; [done|]. split; [done|]. split; [|done]. intros v Elx Ev. destruct (rn_version _ _ _ _ Hrun') as (v2 & Ev2 & Hset2). assert (v2 = v) as -> by congruence.
  apply (version_is_canonical (dom := dom) (C := C) _ _ _ Hset). by rewrite Elx.
Qed.

(** ** A run *)

#[export] Instance directory_disks : ManifestFiles (F := disk) directory (list Z) := {
  NewWritableFile name env := (OK, mkDisk [] 0, <[name := []]> env);
  NewAppendableFile name env := let data := default [] (env !! name) in (OK, mkDisk data (zlen data), env);
  NewSequentialFile name env := match env !! name with Some data => (OK, data) | None => (NotFound "no file", []) end;
  GetFileSize name env := (OK, zlen (default [] (env !! name)))
}.

Definition disk_set : VersionSet disk := default (mkVersionSet (mkNumbers 0 0 0 0 0) None [] None [] (mkMemory ∅ 0)) VersionSet_new.
Definition disk_numbers : Numbers := mkNumbers 7 2 40 0 0.
Definition after_call (edit : VersionEdit) (st : directory * VersionSet disk) : directory * VersionSet disk :=
  match LogAndApply (Q := list Z) sample_versions edit (fst st) (snd st) with Some (_, env, vs) => (env, vs) | None => st end.
(** A file is added and moved to the next level; then it is being removed when the machine crashes. *)
Definition disk_one : directory * VersionSet disk := after_call sample_add (∅, set_numbers disk_numbers disk_set).
Definition disk_two : directory * VersionSet disk := after_call sample_move disk_one.
Definition sample_removal : VersionEdit := RemoveFile 1 5 VersionEdit_new.
Definition disk_calls : list (VersionEdit * Numbers) := [(sample_add, disk_numbers); (sample_move, disk_numbers)].
Definition disk_log : Writer disk := default (Writer_new (mkDisk [] 0)) (descriptor_log_ (snd disk_two)).
Definition disk_bytes : list Z := contents (dest (snd (add_records (map edit_bytes (map complete_edit [(sample_removal, disk_numbers)])) disk_log))).
Definition disk_left : directory := <[CurrentFileName (text "db") := text "MANIFEST-000002" ++ [10]]> {[text "db/MANIFEST-000002" := ztake (zlen disk_bytes - 1) disk_bytes]}.

Lemma sample_removal_wf : edit_wf (dom := bytes_ok) (C := BytewiseComparator) sample_removal.
Proof.
  split; [|apply Forall_nil_2]. constructor; cbn; unfold pointer_ok, deleted_ok, file_ok, is_key, is_string, is_level, is_number; cbn [fst snd].
  - split; [split; [reflexivity|by repeat constructor]|done].
  - repeat split; lia.
  - repeat split; intros; first [reflexivity|discriminate].
  - apply Forall_nil_2.
  - split; [apply Forall_singleton; repeat split; try reflexivity; try discriminate|repeat constructor].
  - apply Forall_nil_2.
Qed.

Lemma disk_run : run (dom := bytes_ok) (C := BytewiseComparator) (E := directory) (Q := list Z) sample_versions disk_set disk_calls (snd disk_two).
Proof.
  change disk_calls with ([(sample_add, numbers (set_numbers disk_numbers disk_set))] ++ [(sample_move, disk_numbers)]). replace (sample_move, disk_numbers) with (sample_move, numbers (snd disk_one)) by (vm_compute; reflexivity).
  apply (run_call _ _ _ _ _ (fst disk_one) (fst disk_two)); [|exact sample_move_wf|done|vm_compute; reflexivity].
  apply (run_call sample_versions disk_set [] (set_numbers disk_numbers disk_set) sample_add ∅ (fst disk_one)); [|exact sample_add_wf|done|vm_compute; reflexivity].
  apply run_numbers; [apply run_start|by repeat split|done|done].
Qed.

Lemma disk_fresh : fresh_run (files_ Version_new) (disk_calls ++ [(sample_removal, disk_numbers)]).
Proof.
  intros i fs [-> _]%lookup_replicate. destruct i as [|[|i]]; [apply NoDup_singleton|apply NoDup_singleton|]. change (NoDup (new_numbers (S (S i)) ([sample_add; sample_move] ++ [sample_removal]))).
  rewrite new_numbers_snoc, high_levels_untouched. apply NoDup_nil_2.
Qed.

Lemma disk_opened : opened (dom := bytes_ok) (C := BytewiseComparator) disk_set (files_ Version_new).
Proof. destruct (VersionSet_new_opened (dom := bytes_ok) (C := BytewiseComparator) (F := disk)) as (vs & E & Hop). replace disk_set with vs; [done|]. unfold disk_set. rewrite E. done. Qed.

Definition disk_begun : Applying * directory * VersionSet disk :=
  default (mkApplying sample_removal 0 Version_new OK None, ∅, disk_set) (LogAndApply_begin (Q := list Z) sample_versions sample_removal ∅ (snd disk_two)).

Lemma manifest_survives_crashes_witness : exists l' e n0 m save env' vs' v',
  (l' ++ [(e, n0)] = disk_calls \/ l' ++ [(e, n0)] = disk_calls ++ [(sample_removal, disk_numbers)]) /\ Recover (Q := list Z) sample_versions 400 disk_left disk_set = Some (OK, save, env', vs') /\ current_version vs' = Some v' /\
  numbers vs' = mkNumbers (u64 (next_file_number n0 + 1)) m (last_sequence n0) (log_number_ (complete_edit (e, n0))) (prev_log_number_ (complete_edit (e, n0))).
Proof.
  destruct (manifest_survives_crashes bytes_ok BytewiseComparator disk directory (list Z) sample_versions disk_set (snd disk_two) disk_set (files_ Version_new) disk_calls [(sample_removal, disk_numbers)] disk_log
    (ztake (zlen disk_bytes - 1) disk_bytes) (zlen disk_bytes - 1) (text "MANIFEST-000002") 400 disk_left eq_refl) as (l' & e & n0 & m & save & env' & vs' & v' & Hl & ER & Hc & _ & _ & Hm & _).
  - split; [reflexivity|]. unfold sample_versions, o_name. witness_bytes.
  - intros name env s f env' [= <- <- <-] _. reflexivity.
  - exact disk_opened.
  - exact disk_run.
  - discriminate.
  - right. exists sample_removal, ∅, (fst (fst disk_begun)), (snd (fst disk_begun)), (snd disk_begun). split; [vm_compute; reflexivity|]. split; [split; [exact sample_removal_wf|done]|vm_compute; reflexivity].
  - exact disk_fresh.
  - vm_compute; reflexivity.
  - reflexivity.
  - vm_compute. discriminate.
  - vm_compute. reflexivity.
  - vm_compute. repeat constructor.
  - vm_compute. reflexivity.
  - vm_compute. reflexivity.
  - vm_compute. reflexivity.
  - exists l', e, n0, m, save, env', vs', v'. split; [exact Hl|]. split; [exact ER|]. split; [exact Hc|exact Hm].
Defined.
